(* ===== verification/_CoqProject ===== *)
-Q . S2P
Prelude.v
Json.v
Text.v
Utf8.v
Proto.v
Parts.v
TranscriptDelta.v
Llm.v
Model.v
SessionEvents.v
Surface.v
HeaderFold.v
Session.v
Repair.v
Inbox.v
ToolCalls.v
Registry.v
RegistryDoc.v
RegistrySync.v
Assembler.v
Serialize.v
Retry.v
Translate.v
Sse.v
Adapter.v
LlmRuntime.v
Scope.v
SystemPrompt.v
RuntimeContext.v
AgentLoop.v
AgentTurns.v
AgentLive.v
SessionDoc.v
Segment.v
Commands.v
Drain.v
RunJournal.v
ChatEngine.v
RunDriver.v
ChatFrames.v
ChatClient.v
ChatHost.v
Workflow.v
JevCore.v
JevRouting.v
JsonSchema.v
ToolSchema.v
ToolAuthor.v
ToolRegistry.v
ToolPipeline.v
FsText.v
FsRead.v
FsPath.v
FsLocal.v
FsHost.v
FsTools.v
PathSegment.v
SessionLog.v
WriteBehind.v
SessionStore.v
ConsumedWork.v
AgentRegistry.v
CordisFiber.v
CordisServices.v
CordisEvents.v
