(* ===== verification/Prelude.v ===== *)
(** * Keel: a verification development

    Keel is a workspace for coding agents.  A device runs an engine; each chat
    is a document replicated between the devices of an account; an agent, either
    an external harness or the embedded one, works in a chat, streams what it
    does into the document and calls tools on the device.  This library models
    the parts of the Rust sources that decide what is recorded, sent, executed
    and shown, and proves what makes them correct.  Names under [src/] are file
    names of the repository.  User interface, processes, sockets and
    operating-system glue are outside; the last section lists what is left out.

    ** How the definitions read

    A struct is a [Record], an enum an [Inductive] with its variants, a function
    a [Definition] or [Fixpoint] of the same name; a method takes and returns
    the state it borrows.  Errors are values of [result] ([let?] is the [?]
    operator).  Fixed-width integers are [Z] with their range or wrap-around
    written out, floating point is the standard library's [SpecFloat] at
    binary64, strings are UTF-8 bytes, hash maps are [gmap].  Asynchronous code
    is cut at its awaits: what may happen there is an argument, a step of a
    relation, or a program of an interface.

    Code that is not in the repository is a parameter: serde codecs, the Loro
    document, uuid, clocks, SHA digests, HTTP, the line diff, the abort signals
    and listeners of other plugins, and the operating system.  What a theorem
    needs of one of them is a named hypothesis or the law of a type class, and a
    concrete instance in the same file shows that it can hold.

    ** The files

    Foundations.  [Prelude] has machine integers, [result], generic list, sort
    and string lemmas; [Json] is [serde_json::Value] with binary64 numbers;
    [Text] and [Utf8] are the [str] operations in use.

    The chat document (src/crates/proto, src/crates/doc).  [Proto]: wire types
    and receipts of [agent.rs] and [entities.rs].  [Parts]: the fold of harness
    events into message parts, [parts.rs].  [TranscriptDelta]: the watch frames
    of [transcript_delta.rs].  [SessionDoc] and [Segment]: [schema.rs], the
    entries over Loro containers and the segment writer.  [Commands]: the command
    ledger of [commands.rs].  [Registry], [RegistryDoc]: rows, clocks, merge and
    the local replica of [registry.rs].

    Synchronization (src/crates/sync, src/crates/engine).  [RegistrySync]:
    replicas and the merging room over lossy ordered connections.  [ChatFrames],
    [ChatClient], [ChatHost]: [chat_frames.rs], [chat_client.rs] and the engine's
    [chat2_host.rs].

    The engine (src/crates/engine).  [RunJournal]: the append-only journal of a
    run, [run_journal.rs].  [ChatEngine] and [RunDriver]: the operations on a
    chat and the task [drive_run], [sessions.rs].  [Drain]: the command drain,
    [doc_host.rs].  [Workflow]: [workflow.rs].  [JevCore] and [JevRouting]: the
    selector of src/crates/jev-core and the routing of [jev_routing.rs].

    The embedded agent (src/crates/dsh).  [Llm], [Model]: the model vocabulary.
    [SessionEvents], [Surface], [HeaderFold], [Session], [Repair]: the
    event-sourced session and its crash repair.  [Inbox]: the durable inbox.
    [Retry], [Assembler], [LlmRuntime]: the model service; [Serialize], [Sse],
    [Translate], [Adapter]: the DeepSeek adapter.  [Scope], [SystemPrompt],
    [RuntimeContext]: scopes, prompts, retained context.  [AgentLoop] is the
    driver task, [AgentTurns] and [AgentLive] its safety and its liveness;
    [ToolCalls] schedules the tool calls of one step.  [JsonSchema],
    [ToolSchema], [ToolAuthor], [ToolRegistry], [ToolPipeline]: tool schemas,
    registration and the execution pipeline.  [FsText], [FsRead], [FsPath],
    [FsLocal], [FsHost], [FsTools]: the filesystem provider and the [read],
    [write] and [edit] tools with the read-before-edit policy.  [PathSegment],
    [SessionLog], [WriteBehind]: the file names, the append-only log files and the
    write-behind of session persistence; [SessionStore]: the live sessions;
    [ConsumedWork]: what a turn closing accounts for; [AgentRegistry]: agents and
    initiators.  [CordisFiber], [CordisServices], [CordisEvents]: the plugin
    framework, src/crates/dsh/cordis: one fiber's life, the fibers over a shared
    store of services, and the event bus.

    ** How the parts meet

    A command written into a chat's document is drained once ([Commands],
    [Drain]) and executed on the sessions engine ([ChatEngine]), which starts or
    steers a run.  The run task ([RunDriver]) folds the harness's events with
    [Parts], writes the fold through [Segment], and journals the events in
    [RunJournal].  The document reaches the other devices through [ChatClient]
    and [ChatHost]; a viewer follows it by [TranscriptDelta].  The embedded
    harness is [AgentLoop]: it takes its input from [Inbox], assembles a request
    from [Session] and [SystemPrompt], streams a model call through [LlmRuntime],
    [Adapter], [Sse] and [Translate] into [Assembler], and hands the calls of the
    message to [ToolCalls], which runs them through [ToolPipeline] over
    [ToolRegistry]; the file tools are bodies of that pipeline.  Every step is an
    event of the [Session], from which [Repair] closes a crashed turn, and which
    [WriteBehind] carries into the files of [SessionLog].  [CordisServices] runs
    the fibers of [CordisFiber]; what the other parts register on a context is an
    effect of such a fiber.

    Clients are proved against interfaces where the code has one: [Loro]
    (documents), [Executor] (what a command runs on), [Journal] and the workspace
    row (what the engine reports to), the chat sink with the promise [LawfulSink]
    that [ChatHost] keeps for the engine's document, the checkpoint fetch,
    [LlmAdapter], the tool environment of [ToolCalls], and [HostFs] with the laws
    [QuietHost] (the operating system).

    ** What the theorems show

    Each property's doc comment carries its number (C1, C2, ...) and its
    conditions.  What a part should do is stated apart from how the code does it:
    a crashed turn is what an event opened and no later one closed ([Repair]), a
    tool is visible through the nearest ancestor that has it and no restriction
    on the way ([ToolRegistry]), a page shows numbered lines of the file cut at
    the line cap ([FsRead]), a request carries the picked blocks and pairs each
    answer with its call ([Serialize]), an unload runs what the log says was
    registered, newest first ([CordisFiber]), a selection rests on the
    confidence and the fit of the answer chosen ([JevCore]), a number literal
    means a number ([ToolSchema]), the document holds a row ([ChatClient]).  By
    subject:
    - at most once and in order: a command, a tool call, a workflow ticket, a
      model request and a command batch are each spent once, across crashes and
      interleavings ([Drain], [ToolCalls], [Workflow], [JevCore], [ChatClient]);
    - nothing lost or invented: the transcript is the fold of the admitted
      events ([RunDriver], [Segment]), the journal survives torn writes
      ([RunJournal]), a client has no gap ([ChatClient]), a checkpoint is whole
      ([ChatHost]), a surface accounts for every event ([Surface]), a session
      equals its log ([Session]), on disk too while writes succeed
      ([SessionLog]), where what a crash leaves is a prefix ([WriteBehind]), the
      store lists each live session once and a fork is a prefix of its source
      ([SessionStore]), a mutation of the inbox is done or refused whole
      ([Inbox]), the stream delivers its blocks ([Adapter],
      [Translate], [Assembler]);
    - replicas agree: [RegistrySync], [TranscriptDelta], with the merge and the
      clocks in [Registry];
    - brackets and settling: turns are balanced, another turn follows exactly
      while input is pending and no turn failed, a run is retried exactly when
      a retry is due, and runs and turns and drains and model calls, prepared or
      not and through any listeners that hand the stream on, end ([AgentTurns],
      [AgentLive], [RunDriver], [LlmRuntime], [Drain], [Repair]);
    - guarded effects: tools run only when visible, allowed and approved
      ([ToolRegistry], [ToolPipeline]), files are replaced only at the version
      last shown and touched nowhere else ([FsTools], [FsHost], [FsText]), a
      route is one the host offered ([JevRouting]);
    - plugins: a fiber runs each disposer once, newest first, and two bodies never
      without an unload between ([CordisFiber]); every fiber of an application
      lives such a life, and a service that goes takes its dependents down
      ([CordisServices]); a listener leaves no trace ([CordisEvents]);
    - data: schemas mean what their specs mean, up to how numbers are spelled
      ([ToolSchema]), the codecs that
      are written here round-trip ([ChatFrames], [ToolAuthor], [Inbox]), folded
      parts are well formed ([Parts]), paging through a file covers it
      ([FsRead]), and the serializer refuses what it cannot say ([Serialize]).

    ** Bounds and fuel

    Recursion that the source bounds only by its data takes fuel, and a theorem
    or lemma shows the fuel used is enough: one more than the links for a scope
    walk ([Scope.scope_chains_end]), the text's length for interpolation and for
    counting matches, the budget of model calls for a turn and for a request
    ([AgentLive.turn_answers]), four accesses per unclaimed command and one more
    for a drain ([Drain.drain_settles]), the digits' bits for a decimal, one more
    than the lines for paging ([FsRead.following_footers_reads_all]), three
    awaits for a file tool, one more than the fibers for a service's cascade
    ([CordisServices.app_refines_fibers]).  Loops over a transport take its script.  u64
    sequence numbers and clocks wrap or saturate as the release profile does;
    where a theorem needs room below the bound it says so.

    ** Not modelled

    - The user interface (src/crates/ui, src/apps/keel, src/crates/syntax): a
      third of the sources; it draws state and forwards intents, over a toolkit
      that is not in the repository.
    - External processes and protocols: the ACP, Claude and Codex harnesses
      (src/crates/harness), terminals, shells and subprocesses, git
      ([repos.rs], [diff_sync.rs]), the updater, cloud connection and the local
      selector's runtime.  Their core is I/O with other programs.
    - Accounts and devices: authentication, agent accounts, spaces, profiles,
      uploads, titles, imports, locks, the workspace host and the RPC surface:
      request handling over HTTP, keychains and files around the modelled parts.
    - The older document room ([room.rs]) with its store and wake endpoint,
      [rebuild.rs] and the workspace view of the documents: they delegate to
      Loro's import, export and version vectors, which are not in the repository.
    - Inside modelled crates: presentation cards of tools, statistics, presence,
      logging, the configs of plugins, tests and tools.  The manifest names each
      of them with its reason. *)
From Stdlib Require Import ZArith Lia Ascii String Sorting.Sorted.
From stdpp Require Import base tactics numbers list gmap strings.

Declare Scope keel_scope.
Delimit Scope keel_scope with keel.

(** * Machine integers *)

(** The unsigned 64-bit range of Rust's [u64] (and of [usize] on the 64-bit
    targets the program ships for).  Arithmetic of the release profile wraps. *)
Definition u64_modulus : Z := 2 ^ 64.
Definition u64_max : Z := u64_modulus - 1.
Definition u64_wrap (z : Z) : Z := z mod u64_modulus.
Definition u64_add (a b : Z) : Z := u64_wrap (a + b).
Definition u64_succ (a : Z) : Z := u64_add a 1.
(** [u64::saturating_sub] and [u32::saturating_add]. *)
Definition u64_saturating_sub (a b : Z) : Z := Z.max 0 (a - b).
Definition u32_max : Z := 2 ^ 32 - 1.
Definition u32_saturating_add (a b : Z) : Z := Z.min u32_max (a + b).
Definition u32_add (a b : Z) : Z := (a + b) mod 2 ^ 32.
(** [i64] arithmetic of the release profile, two's complement wrap-around. *)
Definition i64_max : Z := 2 ^ 63 - 1.
Definition i64_min : Z := - 2 ^ 63.
Definition i64_wrap (z : Z) : Z := (z + 2 ^ 63) mod 2 ^ 64 - 2 ^ 63.
Definition i64_add (a b : Z) : Z := i64_wrap (a + b).
(** [i64::saturating_add]. *)
Definition i64_saturating_add (a b : Z) : Z := Z.max i64_min (Z.min i64_max (a + b)).

Lemma u64_wrap_small z : (0 <= z < u64_modulus)%Z -> u64_wrap z = z.
Proof. apply Z.mod_small. Qed.

Lemma u64_add_small a b : (0 <= a)%Z -> (0 <= b)%Z -> (a + b < u64_modulus)%Z -> u64_add a b = (a + b)%Z.
Proof. intros. apply u64_wrap_small. lia. Qed.

Lemma i64_wrap_small z : (i64_min <= z <= i64_max)%Z -> i64_wrap z = z.
Proof. unfold i64_min, i64_max, i64_wrap. intros. rewrite Z.mod_small; lia. Qed.

(** * Errors *)

(** [Result<A, E>]. *)
Inductive result (A E : Type) : Type :=
| Ok (a : A)
| Err (e : E).
Arguments Ok {A E} a.
Arguments Err {A E} e.

Definition result_bind {A B E} (r : result A E) (k : A -> result B E) : result B E :=
  match r with Ok a => k a | Err e => Err e end.
Definition map_err {A E F} (f : E -> F) (r : result A E) : result A F :=
  match r with Ok a => Ok a | Err e => Err (f e) end.
Definition ok_or {A E} (o : option A) (e : E) : result A E :=
  match o with Some a => Ok a | None => Err e end.
Definition is_ok {A E} (r : result A E) : bool :=
  match r with Ok _ => true | Err _ => false end.

(** The [?] operator, with its own notation so that stdpp's monad notations
    stay available. *)
Notation "'let?' x := r 'in' k" := (result_bind r (fun x => k))
  (at level 10, x pattern, r at level 100, k at level 200) : keel_scope.

Lemma result_bind_Ok {A B E} (r : result A E) (k : A -> result B E) b :
  result_bind r k = Ok b <-> exists a, r = Ok a /\ k a = Ok b.
Proof. destruct r; simpl; naive_solver. Qed.

(** Fallible left fold: [for x in l { state = f(state, x)?; }]. *)
Fixpoint try_fold {A S E} (f : S -> A -> result S E) (s : S) (l : list A) : result S E :=
  match l with
  | [] => Ok s
  | x :: l' => result_bind (f s x) (fun s' => try_fold f s' l')
  end.

Lemma try_fold_app {A S E} (f : S -> A -> result S E) s l1 l2 :
  try_fold f s (l1 ++ l2) = result_bind (try_fold f s l1) (fun s' => try_fold f s' l2).
Proof. revert s. induction l1 as [|x l1 IH]; intros s; simpl; [done|]. destruct (f s x); simpl; auto. Qed.

Lemma try_fold_snoc {A S E} (f : S -> A -> result S E) s l x :
  try_fold f s (l ++ [x]) = result_bind (try_fold f s l) (fun s' => f s' x).
Proof.
  rewrite try_fold_app. destruct (try_fold f s l) as [s'|]; simpl; [|done]. by destruct (f s' x).
Qed.

(** An invariant kept by every successful step holds of the result. *)
Lemma try_fold_invariant {A S E} (P : S -> Prop) (f : S -> A -> result S E) s l s' :
  P s -> (forall t x t', P t -> f t x = Ok t' -> P t') -> try_fold f s l = Ok s' -> P s'.
Proof.
  intros Hs Hf. revert s Hs. induction l as [|x l IH]; simpl; intros s Hs H.
  - by inversion H; subst.
  - apply result_bind_Ok in H as (t & Ht & H). eauto.
Qed.

(** * Tactics *)

(** Case analysis on the scrutinee of some [match], with its equation. *)
Ltac split_match :=
  match goal with
  | |- context [match ?x with _ => _ end] => let E := fresh "E" in destruct x eqn:E
  end.
Ltac split_match_in H :=
  match type of H with
  | context [match ?x with _ => _ end] => let E := fresh "E" in destruct x eqn:E
  end.
(** Invert a successful computation written with [result_bind]. *)
Ltac inv_ok :=
  repeat match goal with
  | H : result_bind _ _ = Ok _ |- _ => apply result_bind_Ok in H as (? & ? & ?)
  | H : Ok _ = Ok _ |- _ => injection H as H; try subst
  | H : Err _ = Ok _ |- _ => discriminate H
  | H : Ok _ = Err _ |- _ => discriminate H
  end.

(** * Lists *)

Section lists.
Context {A : Type}.
Implicit Types (l : list A) (f : A -> bool).

(** [iter().position(f)]. *)
Fixpoint position f l : option nat :=
  match l with
  | [] => None
  | x :: l' => if f x then Some 0 else S <$> position f l'
  end.

(** [Vec::splice(start..start + n, ins)]: the list afterwards and the removed items. *)
Definition splice (start n : nat) (ins : list A) l : list A * list A :=
  (take start l ++ ins ++ drop (start + n) l, take n (drop start l)).

(** [Vec::insert]. *)
Definition list_insert_at (i : nat) (x : A) l : list A := take i l ++ x :: drop i l.

Lemma position_Some f l i :
  position f l = Some i <->
  exists x, l !! i = Some x /\ f x = true /\ forall j y, j < i -> l !! j = Some y -> f y = false.
Proof.
  revert i. induction l as [|x l IH]; intros i; simpl.
  { split; [done|]. intros (y & Hy & _). done. }
  destruct (f x) eqn:Hx.
  - split.
    + intros [= <-]. exists x. split_and!; try done. intros j y Hj. lia.
    + intros (y & Hy & Hfy & Hmin). destruct i as [|i]; [done|].
      specialize (Hmin 0 x ltac:(lia) eq_refl). congruence.
  - destruct i as [|i].
    + split; [by destruct (position f l)|]. intros (y & [= <-] & Hfy & _). congruence.
    + rewrite fmap_Some. split.
      * intros (k & Hk & [= ->]). apply IH in Hk as (y & Hy & Hfy & Hmin).
        exists y. split_and!; try done. intros [|j] z Hj Hz; simpl in *; [congruence|].
        eapply Hmin; [|done]. lia.
      * intros (y & Hy & Hfy & Hmin). exists i. split; [|done].
        apply IH. exists y. split_and!; try done. intros j z Hj Hz. apply (Hmin (S j)); [lia|done].
Qed.

Lemma position_None f l : position f l = None <-> forall x, x ∈ l -> f x = false.
Proof.
  induction l as [|x l IH]; simpl; [set_solver|].
  destruct (f x) eqn:Hx.
  - split; [done|]. intros H. rewrite (H x) in Hx; [done|set_solver].
  - rewrite fmap_None, IH. set_solver.
Qed.

Lemma position_lt f l i : position f l = Some i -> i < length l.
Proof. intros (x & Hx & _)%position_Some. by apply lookup_lt_Some in Hx. Qed.

(** First match only: the position is the length of the longest prefix
    without a match. *)
Lemma position_app f l1 x l2 :
  (forall y, y ∈ l1 -> f y = false) -> f x = true -> position f (l1 ++ x :: l2) = Some (length l1).
Proof.
  intros H1 Hx. induction l1 as [|y l1 IH]; simpl; [by rewrite Hx|].
  rewrite H1 by set_solver. rewrite IH by set_solver. done.
Qed.
End lists.

(** [PartialEq] of options and vectors. *)
Definition option_eqb {A} (eqb : A -> A -> bool) (a b : option A) : bool :=
  match a, b with Some x, Some y => eqb x y | None, None => true | _, _ => false end.
Fixpoint list_eqb {A} (eqb : A -> A -> bool) (a b : list A) : bool :=
  match a, b with
  | [], [] => true
  | x :: a', y :: b' => eqb x y && list_eqb eqb a' b'
  | _, _ => false
  end.

Lemma list_eqb_Forall2 {A} (eqb : A -> A -> bool) a b :
  list_eqb eqb a b = true <-> Forall2 (fun x y => eqb x y = true) a b.
Proof.
  revert b. induction a as [|x a IH]; intros [|y b]; simpl.
  - by split.
  - split; [done|]. inversion 1.
  - split; [done|]. inversion 1.
  - rewrite andb_true_iff, IH. split; [intros []; by constructor|by inversion 1].
Qed.

Lemma list_omap_cons {A B} (f : A -> option B) x l :
  omap f (x :: l) = match f x with Some y => y :: omap f l | None => omap f l end.
Proof. reflexivity. Qed.

(** Filters that agree on the elements of the list. *)
Lemma filter_ext_on {A} (P Q : A -> Prop) `{!forall x, Decision (P x)} `{!forall x, Decision (Q x)} (l : list A) :
  (forall x, x ∈ l -> P x <-> Q x) -> base.filter P l = base.filter Q l.
Proof.
  induction l as [|x l IH]; intros Hl; [done|]. rewrite !filter_cons.
  pose proof (Hl x ltac:(set_solver)) as Hx. rewrite IH by (intros; apply Hl; set_solver).
  by destruct (decide (P x)), (decide (Q x)); try tauto.
Qed.

Lemma filter_all {A} (P : A -> Prop) `{!forall x, Decision (P x)} (l : list A) :
  (forall x, x ∈ l -> P x) -> base.filter P l = l.
Proof.
  induction l as [|x l IH]; intros Hl; [done|]. rewrite filter_cons_True by (apply Hl; set_solver).
  f_equal. apply IH. intros. apply Hl. set_solver.
Qed.

Lemma filter_none {A} (P : A -> Prop) `{!forall x, Decision (P x)} (l : list A) :
  (forall x, x ∈ l -> ~ P x) -> base.filter P l = [].
Proof.
  induction l as [|x l IH]; intros Hl; [done|]. rewrite filter_cons_False by (apply Hl; set_solver).
  apply IH. intros. apply Hl. set_solver.
Qed.

Lemma filter_fmap {A B} (f : A -> B) (P : B -> Prop) `{!forall x, Decision (P x)} (l : list A) :
  base.filter P (f <$> l) = f <$> base.filter (fun x => P (f x)) l.
Proof. induction l as [|x l IH]; [done|]. rewrite fmap_cons, !filter_cons. case_decide; simpl; by rewrite IH. Qed.

(** [HashSet::insert] over a whole iterator, failing on the first repeat:
    the loop [for id in ids { if !set.insert(id) { return Err(id) } }]. *)
Fixpoint first_duplicate `{Countable K} (seen : gset K) (l : list K) : option K :=
  match l with
  | [] => None
  | x :: l' => if decide (x ∈ seen) then Some x else first_duplicate ({[x]} ∪ seen) l'
  end.

Lemma first_duplicate_None `{Countable K} (seen : gset K) (l : list K) :
  first_duplicate seen l = None <-> NoDup l /\ forall x, x ∈ l -> x ∉ seen.
Proof.
  revert seen. induction l as [|x l IH]; intros seen; simpl.
  - split; [|done]. intros _. split; [constructor|set_solver].
  - case_decide as Hx.
    + split; [done|]. intros [_ Hnew]. set_solver.
    + rewrite IH, NoDup_cons. set_solver.
Qed.

(** * Stable sorting *)

(** [Vec::sort_by] (stable) for the preorder [leb]. *)
Section sort.
Context {A : Type} (leb : A -> A -> bool).

Fixpoint sort_insert (x : A) (l : list A) : list A :=
  match l with
  | [] => [x]
  | y :: l' => if leb x y then x :: l else y :: sort_insert x l'
  end.
Definition sort_by (l : list A) : list A := foldr sort_insert [] l.

Lemma sort_insert_permutation x l : sort_insert x l ≡ₚ x :: l.
Proof. induction l as [|y l IH]; simpl; [done|]. destruct (leb x y); [done|]. rewrite IH. by constructor. Qed.

Lemma sort_by_permutation l : sort_by l ≡ₚ l.
Proof. induction l as [|x l IH]; simpl; [done|]. by rewrite sort_insert_permutation, IH. Qed.

Lemma sort_by_sorted l :
  (forall x y, leb x y = true \/ leb y x = true) -> (forall x y z, leb x y = true -> leb y z = true -> leb x z = true) ->
  StronglySorted (fun x y => leb x y = true) (sort_by l).
Proof.
  intros Htot Htr. induction l as [|x l IH]; simpl; [constructor|].
  induction IH as [|y l' Hs IHs Hy]; simpl; [repeat constructor|].
  destruct (leb x y) eqn:E.
  - constructor; [by constructor|]. constructor; [done|]. eapply Forall_impl; [exact Hy|]. intros z Hz. by eapply Htr.
  - constructor; [done|]. rewrite sort_insert_permutation. constructor; [|done]. destruct (Htot x y); congruence.
Qed.

(** Equal elements keep their order. *)
Lemma sort_by_stable (P : A -> Prop) `{!forall x, Decision (P x)} l :
  (forall x y, P x -> P y -> leb x y = true) -> base.filter P (sort_by l) = base.filter P l.
Proof.
  intros HP. induction l as [|x l IH]; [done|]. change (sort_by (x :: l)) with (sort_insert x (sort_by l)).
  rewrite filter_cons, <- IH. clear IH. induction (sort_by l) as [|y l' IHl]; cbn [sort_insert].
  { by rewrite filter_cons. }
  destruct (leb x y) eqn:E; [by rewrite filter_cons|].
  rewrite filter_cons, IHl, (filter_cons P y). destruct (decide (P x)), (decide (P y)); try done.
  rewrite HP in E by done. done.
Qed.
End sort.

(** * Strings (UTF-8 byte sequences) *)

(** stdpp blocks [simpl] on [+:+]; these are its equations. *)
Lemma str_app_cons c (s t : string) : String c s +:+ t = String c (s +:+ t).
Proof. reflexivity. Qed.
Lemma str_app_nil_l (s : string) : EmptyString +:+ s = s.
Proof. reflexivity. Qed.

Lemma str_app_assoc (s1 s2 s3 : string) : s1 +:+ (s2 +:+ s3) = (s1 +:+ s2) +:+ s3.
Proof. induction s1 as [|c s1 IH]; [done|]. by rewrite !str_app_cons, IH. Qed.

Lemma str_app_nil_r (s : string) : s +:+ EmptyString = s.
Proof. induction s as [|c s IH]; [done|]. by rewrite str_app_cons, IH. Qed.

Lemma str_length_app (s1 s2 : string) : String.length (s1 +:+ s2) = String.length s1 + String.length s2.
Proof. induction s1 as [|c s1 IH]; [done|]. rewrite str_app_cons. simpl. by rewrite IH. Qed.

Fixpoint concat_strings (l : list string) : string :=
  match l with [] => EmptyString | s :: l => s +:+ concat_strings l end.

Lemma concat_strings_app l1 l2 : concat_strings (l1 ++ l2) = concat_strings l1 +:+ concat_strings l2.
Proof. induction l1 as [|s l1 IH]; [done|]. simpl. by rewrite IH, str_app_assoc. Qed.

Lemma concat_strings_snoc l s : concat_strings (l ++ [s]) = concat_strings l +:+ s.
Proof.
  induction l as [|t l IH]; simpl; [apply str_app_nil_r|]. by rewrite IH, str_app_assoc.
Qed.

(** A UTF-8 continuation byte, [10xxxxxx]. *)
Definition is_continuation (c : ascii) : bool := (128 <=? nat_of_ascii c) && (nat_of_ascii c <? 192).

(** [s.chars().take(n).collect()] on the UTF-8 bytes of [s]: the leading byte
    of a character counts, its continuation bytes follow it. *)
Fixpoint chars_take (n : nat) (s : string) : string :=
  match s with
  | EmptyString => EmptyString
  | String c s' =>
      if is_continuation c then String c (chars_take n s')
      else match n with O => EmptyString | S n' => String c (chars_take n' s') end
  end.

(** [s.chars().count()]. *)
Fixpoint chars_count (s : string) : nat :=
  match s with
  | EmptyString => 0
  | String c s' => (if is_continuation c then 0 else 1) + chars_count s'
  end.

Create HintDb keel discriminated.
#[export] Hint Resolve u64_wrap_small u64_add_small i64_wrap_small : keel.
