(* ===== verification/Json.v ===== *)
(** JSON values as [serde_json::Value] presents them, and the [f64] numbers
    inside them.

    The parser and the printer of serde_json are third-party code: they are
    parameters of the definitions that call them.  Only the data type and its
    documented accessors ([as_str], [as_f64], [as_u64], [as_object], [get]) are
    written out here.  The workspace builds serde_json without
    [preserve_order], so an object is a [BTreeMap]: an association list that
    iterates in key order with distinct keys.

    [f64] is the IEEE-754 binary64 of the Standard Library's [SpecFloat]
    (precision 53, exponent bound 1024), which computes without axioms. *)
From Stdlib Require Import ZArith String.
From Stdlib Require Import Floats.SpecFloat.
From stdpp Require Import base tactics list countable strings gmap.
From S2P Require Import Prelude.

(** * Binary64 *)

Definition f64 : Type := spec_float.
Definition f64_prec : Z := 53.
Definition f64_emax : Z := 1024.
Definition f64_add (a b : f64) : f64 := SFadd f64_prec f64_emax a b.
Definition f64_sub (a b : f64) : f64 := SFsub f64_prec f64_emax a b.
Definition f64_abs (a : f64) : f64 := SFabs a.
Definition f64_ltb (a b : f64) : bool := SFltb a b.
Definition f64_leb (a b : f64) : bool := SFleb a b.
Definition f64_zero : f64 := S754_zero false.
Definition f64_one : f64 := S754_finite false 4503599627370496 (-52).
(** The integer-to-float cast [n as f64]: round to nearest, ties to even. *)
Definition f64_of_Z (z : Z) : f64 := binary_normalize f64_prec f64_emax z 0 false.
Definition f64_is_finite (a : f64) : bool :=
  match a with S754_zero _ | S754_finite _ _ _ => true | _ => false end.
(** [f64::max]: the other operand when one is a NaN. *)
Definition f64_max (a b : f64) : f64 :=
  match a, b with
  | S754_nan, _ => b
  | _, S754_nan => a
  | _, _ => if f64_ltb a b then b else a
  end.

(** [==] on [f64]: [-0.0 == 0.0], a NaN equals nothing. *)
Definition f64_eqb (a b : f64) : bool := SFeqb a b.
(** [f64::clamp(lo, hi)]. *)
Definition f64_clamp (lo hi x : f64) : f64 :=
  let x := if f64_ltb x lo then lo else x in
  if f64_ltb hi x then hi else x.

(** On finite numbers the comparison is total. *)
Lemma f64_leb_negb_ltb (a b : f64) :
  f64_is_finite a = true -> f64_is_finite b = true -> f64_leb a b = negb (f64_ltb b a).
Proof.
  unfold f64_leb, f64_ltb, SFleb, SFltb.
  destruct a as [[]| | |[] ma ea], b as [[]| | |[] mb eb]; simpl; try done; intros _ _.
  all: rewrite (Z.compare_antisym ea eb); destruct (Z.compare ea eb) eqn:E; simpl; try done.
  all: pose proof (Pos.compare_antisym ma mb) as A; unfold Pos.compare, PosDef.Pos.compare in A;
    rewrite A; by destruct (PosDef.Pos.compare_cont Eq ma mb).
Qed.

Lemma f64_clamp_bounds lo hi x :
  f64_is_finite lo = true -> f64_is_finite hi = true -> f64_is_finite x = true -> f64_leb lo hi = true ->
  let y := f64_clamp lo hi x in
  f64_is_finite y = true /\ f64_leb lo y = true /\ f64_leb y hi = true.
Proof.
  intros Hlo Hhi Hx Hle. unfold f64_clamp. cbv zeta.
  destruct (f64_ltb x lo) eqn:E1.
  - destruct (f64_ltb hi lo) eqn:E2.
    + rewrite f64_leb_negb_ltb, E2 in Hle by done. done.
    + split_and!; try done. rewrite f64_leb_negb_ltb by done.
      destruct (f64_ltb lo lo) eqn:E3; [|done].
      rewrite f64_leb_negb_ltb in Hle by done. exfalso. revert E3. unfold f64_ltb, SFltb.
      destruct lo as [[]| | |[] m e]; simpl; try done.
      all: pose proof (Pos.compare_refl m) as A; unfold Pos.compare, PosDef.Pos.compare in A;
        by rewrite Z.compare_refl, A.
  - destruct (f64_ltb hi x) eqn:E2.
    + split_and!; try done. rewrite f64_leb_negb_ltb by done.
      destruct (f64_ltb hi hi) eqn:E3; [|done]. exfalso. revert E3. unfold f64_ltb, SFltb.
      destruct hi as [[]| | |[] m e]; simpl; try done.
      all: pose proof (Pos.compare_refl m) as A; unfold Pos.compare, PosDef.Pos.compare in A;
        by rewrite Z.compare_refl, A.
    + rewrite !f64_leb_negb_ltb, E1, E2 by done. done.
Qed.

#[export] Instance f64_eq_dec : EqDecision f64.
Proof. solve_decision. Defined.

#[export] Instance f64_countable : Countable f64.
Proof.
  refine (inj_countable'
    (fun f => match f with
      | S754_zero s => inl (inl s)
      | S754_infinity s => inl (inr s)
      | S754_nan => inr (inl tt)
      | S754_finite s m e => inr (inr (s, m, e))
      end)
    (fun t => match t with
      | inl (inl s) => S754_zero s
      | inl (inr s) => S754_infinity s
      | inr (inl _) => S754_nan
      | inr (inr (s, m, e)) => S754_finite s m e
      end) _).
  by intros [].
Defined.

(** * Values *)

Inductive Number :=
| PosInt (n : Z)
| NegInt (n : Z)
| Float (f : f64).

#[export] Instance Number_eq_dec : EqDecision Number.
Proof. solve_decision. Defined.

#[export] Instance Number_countable : Countable Number.
Proof.
  refine (inj_countable'
    (fun n => match n with PosInt n => inl n | NegInt n => inr (inl n) | Float f => inr (inr f) end)
    (fun t => match t with inl n => PosInt n | inr (inl n) => NegInt n | inr (inr f) => Float f end) _).
  by intros [].
Defined.

Inductive Value :=
| Null
| Bool (b : bool)
| Num (n : Number)
| Str (s : string)
| Arr (l : list Value)
| Obj (m : list (string * Value)).

Section value_ind.
Context (P : Value -> Prop)
  (HNull : P Null) (HBool : forall b, P (Bool b)) (HNum : forall n, P (Num n))
  (HStr : forall s, P (Str s)) (HArr : forall l, Forall P l -> P (Arr l))
  (HObj : forall m, Forall (fun kv => P kv.2) m -> P (Obj m)).
Fixpoint Value_ind' (v : Value) : P v :=
  match v with
  | Null => HNull
  | Bool b => HBool b
  | Num n => HNum n
  | Str s => HStr s
  | Arr l => HArr l ((fix go l := match l return Forall P l with
      | [] => Forall_nil_2 _
      | v :: l => Forall_cons_2 _ _ _ (Value_ind' v) (go l) end) l)
  | Obj m => HObj m ((fix go m := match m return Forall (fun kv => P kv.2) m with
      | [] => Forall_nil_2 _
      | kv :: m => Forall_cons_2 _ _ _ (Value_ind' kv.2) (go m) end) m)
  end.
End value_ind.

(** Values embed into stdpp's generic trees, which gives decidable equality
    ([#[derive(PartialEq)]]) and countability. *)
Definition value_leaf : Type := bool + Number + string.

Fixpoint value_to_tree (v : Value) : gen_tree value_leaf :=
  match v with
  | Null => GenNode 0 []
  | Bool b => GenLeaf (inl (inl b))
  | Num n => GenLeaf (inl (inr n))
  | Str s => GenLeaf (inr s)
  | Arr l => GenNode 1 (value_to_tree <$> l)
  | Obj m => GenNode 2 ((fun kv => GenNode 3 [GenLeaf (inr kv.1); value_to_tree kv.2]) <$> m)
  end.

Fixpoint value_of_tree (t : gen_tree value_leaf) : Value :=
  match t with
  | GenLeaf (inl (inl b)) => Bool b
  | GenLeaf (inl (inr n)) => Num n
  | GenLeaf (inr s) => Str s
  | GenNode 1 l => Arr (value_of_tree <$> l)
  | GenNode 2 l => Obj ((fun t => match t with
      | GenNode _ [GenLeaf (inr k); v] => (k, value_of_tree v)
      | _ => (EmptyString, Null) end) <$> l)
  | GenNode _ _ => Null
  end.

Lemma value_of_to_tree v : value_of_tree (value_to_tree v) = v.
Proof.
  induction v as [| | | |l IH|m IH] using Value_ind'; simpl; try done.
  - f_equal. induction IH as [|v l Hv _ IHl]; simpl; by f_equal.
  - f_equal. induction IH as [|[k v] m Hv _ IHm]; simpl in *; [done|]. rewrite Hv. f_equal. exact IHm.
Qed.

#[export] Instance value_to_tree_inj : Inj (=) (=) value_to_tree.
Proof. intros v1 v2 E. by rewrite <- (value_of_to_tree v1), <- (value_of_to_tree v2), E. Qed.

#[export] Instance Value_eq_dec : EqDecision Value.
Proof.
  intros v1 v2. destruct (decide (value_to_tree v1 = value_to_tree v2)) as [E|E].
  - left. by apply (inj value_to_tree).
  - right. by intros ->.
Defined.

#[export] Instance Value_countable : Countable Value.
Proof. refine (inj_countable' value_to_tree value_of_tree value_of_to_tree). Defined.

(** [PartialEq] of [serde_json::Number] and [Value]: floats compare by value. *)
Definition number_eqb (a b : Number) : bool :=
  match a, b with
  | PosInt x, PosInt y | NegInt x, NegInt y => bool_decide (x = y)
  | Float x, Float y => f64_eqb x y
  | _, _ => false
  end.

Fixpoint value_eqb (a b : Value) {struct a} : bool :=
  match a, b with
  | Null, Null => true
  | Bool x, Bool y => bool_decide (x = y)
  | Num x, Num y => number_eqb x y
  | Str x, Str y => bool_decide (x = y)
  | Arr x, Arr y =>
      (fix go (x y : list Value) : bool :=
        match x, y with
        | [], [] => true
        | v :: x', w :: y' => value_eqb v w && go x' y'
        | _, _ => false
        end) x y
  | Obj x, Obj y =>
      (fix go (x y : list (string * Value)) : bool :=
        match x, y with
        | [], [] => true
        | (k, v) :: x', (l, w) :: y' => bool_decide (k = l) && value_eqb v w && go x' y'
        | _, _ => false
        end) x y
  | _, _ => false
  end.

(** * Accessors *)

Definition as_bool (v : Value) : option bool := match v with Bool b => Some b | _ => None end.
Definition as_str (v : Value) : option string := match v with Str s => Some s | _ => None end.
Definition as_u64 (v : Value) : option Z := match v with Num (PosInt n) => Some n | _ => None end.
(** An [i64] as JSON and back. *)
Definition json_i64 (n : Z) : Value := Num (if (0 <=? n)%Z then PosInt n else NegInt n).
Definition as_i64 (v : Value) : option Z :=
  match v with
  | Num (PosInt n) => if (n <=? i64_max)%Z then Some n else None
  | Num (NegInt n) => Some n
  | _ => None
  end.
Definition as_f64 (v : Value) : option f64 :=
  match v with
  | Num (PosInt n) | Num (NegInt n) => Some (f64_of_Z n)
  | Num (Float f) => Some f
  | _ => None
  end.
Definition as_object (v : Value) : option (list (string * Value)) :=
  match v with Obj m => Some m | _ => None end.
Definition is_object (v : Value) : bool := match v with Obj _ => true | _ => false end.

Fixpoint assoc {V} (k : string) (m : list (string * V)) : option V :=
  match m with
  | [] => None
  | (k', v) :: m' => if decide (k = k') then Some v else assoc k m'
  end.

(** [Value::get(key)] on an object; [None] on anything else. *)
Definition get (k : string) (v : Value) : option Value := m ← as_object v; assoc k m.

Lemma assoc_Some_elem {V} k (m : list (string * V)) v : assoc k m = Some v -> (k, v) ∈ m.
Proof.
  induction m as [|[k' v'] m IH]; simpl; [done|]. case_decide as E; [|set_solver].
  intros [= ->]. subst. set_solver.
Qed.

Lemma assoc_is_Some {V} k (m : list (string * V)) : is_Some (assoc k m) <-> k ∈ m.*1.
Proof.
  induction m as [|[k' v'] m IH]; simpl.
  - split; [by intros []|set_solver].
  - case_decide as E; [subst; split; [set_solver|by eauto]|]. rewrite IH. set_solver.
Qed.
