(* ===== verification/Text.v ===== *)
(** Rust [str] operations on UTF-8 byte strings: the Standard Library calls the
    modelled code makes ([chars], [trim], [lines], [split_whitespace],
    [to_ascii_lowercase], [contains], [starts_with], [is_char_boundary]).

    A [char] is represented by its UTF-8 encoding: a leading byte and its
    continuation bytes. *)
From Stdlib Require Import ZArith Lia Ascii String.
From stdpp Require Import base tactics numbers list strings.
From S2P Require Import Prelude.

(** * Characters *)

(** [s.chars()]: every continuation byte belongs to the byte before it. *)
Fixpoint chars (s : string) : list string :=
  match s with
  | EmptyString => []
  | String c s' =>
      match s' with
      | String d _ =>
          if is_continuation d
          then match chars s' with g :: gs => String c g :: gs | [] => [String c EmptyString] end
          else String c EmptyString :: chars s'
      | EmptyString => [String c EmptyString]
      end
  end.

Definition head_continuation (s : string) : bool :=
  match s with String c _ => is_continuation c | EmptyString => false end.

Fixpoint all_continuation (s : string) : bool :=
  match s with String c s' => is_continuation c && all_continuation s' | EmptyString => true end.

(** One encoded character. *)
Definition char_wf (g : string) : Prop :=
  match g with String c t => is_continuation c = false /\ all_continuation t = true | EmptyString => False end.

Lemma chars_cons_continuation c d s g gs :
  is_continuation d = true -> chars (String d s) = g :: gs ->
  chars (String c (String d s)) = String c g :: gs.
Proof. intros Hd E. change (chars (String c (String d s))) with
  (if is_continuation d then match chars (String d s) with g :: gs => String c g :: gs | [] => [String c EmptyString] end
   else String c EmptyString :: chars (String d s)). by rewrite Hd, E. Qed.

Lemma chars_cons_lead c s :
  head_continuation s = false -> chars (String c s) = String c EmptyString :: chars s.
Proof. destruct s as [|d s]; simpl; [done|]. by intros ->. Qed.

Lemma chars_nonempty c s : exists t gs, chars (String c s) = String c t :: gs.
Proof.
  revert c. induction s as [|d s IH]; intros c; [by eexists _, _|].
  destruct (is_continuation d) eqn:Hd.
  - destruct (IH d) as (t & gs & E). erewrite chars_cons_continuation by eauto. eauto.
  - rewrite chars_cons_lead by done. eauto.
Qed.

(** Nothing is lost: the characters spell the string. *)
Lemma concat_chars s : concat_strings (chars s) = s.
Proof.
  induction s as [|c s IH]; [done|]. destruct s as [|d s]; [done|].
  destruct (is_continuation d) eqn:Hd.
  - destruct (chars_nonempty d s) as (t & gs & E). erewrite chars_cons_continuation by eauto.
    rewrite E in IH. simpl in *. by rewrite str_app_cons, IH.
  - rewrite chars_cons_lead by done. simpl in *. by rewrite str_app_cons, str_app_nil_l, IH.
Qed.

Lemma chars_wf s : head_continuation s = false -> Forall char_wf (chars s).
Proof.
  assert (H : forall s, match chars s with
      | [] => s = EmptyString
      | g :: gs => Forall char_wf gs /\ exists c t, g = String c t /\ all_continuation t = true
      end).
  { clear s. intros s. induction s as [|c s IH]; [done|]. destruct s as [|d s].
    { simpl. split; [constructor|by eexists _, _]. }
    destruct (is_continuation d) eqn:Hd.
    - destruct (chars_nonempty d s) as (t & gs & E). rewrite E in IH.
      erewrite chars_cons_continuation by eauto. destruct IH as (Hgs & c' & t' & [= <- <-] & Ht).
      split; [done|]. eexists _, _. split; [done|]. simpl. by rewrite Hd, Ht.
    - rewrite chars_cons_lead by done. destruct (chars_nonempty d s) as (t & gs & E).
      rewrite E in IH |- *. destruct IH as (Hgs & c' & t' & [= <- <-] & Ht).
      split; [|by eexists _, _]. constructor; [done|]. done. }
  intros Hs. specialize (H s). destruct s as [|c s]; [constructor|].
  destruct (chars_nonempty c s) as (t & gs & E). rewrite E in H |- *.
  destruct H as (Hgs & c' & t' & [= <- <-] & Ht). by constructor.
Qed.

(** Characters put back together are read back as themselves. *)
Lemma chars_app g s : char_wf g -> head_continuation s = false -> chars (g +:+ s) = g :: chars s.
Proof.
  intros Hg Hs. destruct g as [|c t]; [done|]. destruct Hg as [_ Ht]. rewrite str_app_cons. revert c Ht.
  induction t as [|d t IH]; intros c Ht; simpl in Ht.
  - rewrite str_app_nil_l. by apply chars_cons_lead.
  - simpl in Ht. apply andb_true_iff in Ht as [Hd Ht]. rewrite str_app_cons.
    apply chars_cons_continuation; [done|]. auto.
Qed.

Lemma head_continuation_concat l : Forall char_wf l -> head_continuation (concat_strings l) = false.
Proof.
  destruct 1 as [|g l Hg _]; [done|]. destruct g as [|c t]; [done|].
  by destruct Hg.
Qed.

Lemma chars_concat l : Forall char_wf l -> chars (concat_strings l) = l.
Proof.
  induction 1 as [|g l Hg Hl IH]; [done|]. simpl.
  rewrite chars_app by auto using head_continuation_concat. by rewrite IH.
Qed.

(** Whether the code point is in U+0009..U+000D, U+0020, U+0085, U+00A0,
    U+1680, U+2000..U+200A, U+2028, U+2029, U+202F, U+205F or U+3000:
    [char::is_whitespace]. *)
Definition char_codes (g : string) : list nat := nat_of_ascii <$> String.list_ascii_of_string g.
Definition char_is_whitespace (g : string) : bool :=
  match char_codes g with
  | [c] => ((9 <=? c) && (c <=? 13)) || (c =? 32)
  | [194; c] => (c =? 133) || (c =? 160)
  | [225; 154; 128] => true
  | [226; 128; c] => ((128 <=? c) && (c <=? 138)) || (c =? 168) || (c =? 169) || (c =? 175)
  | [226; 129; 159] => true
  | [227; 128; 128] => true
  | _ => false
  end.
(** [char::is_control]: the general category Cc, U+0000..U+001F and U+007F..U+009F. *)
Definition char_is_control (g : string) : bool :=
  match char_codes g with
  | [c] => (c <=? 31) || (c =? 127)
  | [194; c] => (128 <=? c) && (c <=? 159)
  | _ => false
  end.
Definition ascii_is_alphanumeric (c : ascii) : bool :=
  let n := nat_of_ascii c in
  ((48 <=? n) && (n <=? 57)) || ((65 <=? n) && (n <=? 90)) || ((97 <=? n) && (n <=? 122)).
Definition char_is_ascii_alphanumeric (g : string) : bool :=
  match g with String c EmptyString => ascii_is_alphanumeric c | _ => false end.

(** * Whitespace *)

(** [s.split_whitespace()]: the maximal runs of other characters; [cur] is the
    run being read, in reverse. *)
Fixpoint split_ws_aux (cur : list string) (l : list string) : list string :=
  match l with
  | [] => match cur with [] => [] | _ => [concat_strings (reverse cur)] end
  | g :: l' =>
      if char_is_whitespace g
      then match cur with [] => split_ws_aux [] l' | _ => concat_strings (reverse cur) :: split_ws_aux [] l' end
      else split_ws_aux (g :: cur) l'
  end.
Definition split_whitespace (s : string) : list string := split_ws_aux [] (chars s).

Fixpoint drop_ws (l : list string) : list string :=
  match l with
  | g :: l' => if char_is_whitespace g then drop_ws l' else l
  | [] => []
  end.
Definition trim_start (s : string) : string := concat_strings (drop_ws (chars s)).
Definition trim_end (s : string) : string := concat_strings (reverse (drop_ws (reverse (chars s)))).
Definition trim (s : string) : string := trim_end (trim_start s).

(** [parts.join(sep)]. *)
Fixpoint join (sep : string) (l : list string) : string :=
  match l with
  | [] => EmptyString
  | [s] => s
  | s :: l' => s +:+ sep +:+ join sep l'
  end.

(** * Searching *)

Fixpoint starts_with (p s : string) : bool :=
  match p, s with
  | EmptyString, _ => true
  | String c p', String d s' => if ascii_dec c d then starts_with p' s' else false
  | String _ _, EmptyString => false
  end.
Fixpoint contains (needle s : string) : bool :=
  starts_with needle s || match s with String _ s' => contains needle s' | EmptyString => false end.

Lemma starts_with_spec p s : starts_with p s = true <-> exists t, s = p +:+ t.
Proof.
  revert s. induction p as [|c p IH]; intros s; simpl.
  - split; [intros _; by exists s|done].
  - destruct s as [|d s]; [split; [done|intros (t & Ht); rewrite str_app_cons in Ht; done]|].
    destruct (ascii_dec c d) as [->|Hne].
    + rewrite IH. split; intros (t & Ht); exists t; rewrite str_app_cons in *; congruence.
    + split; [done|]. intros (t & Ht). rewrite str_app_cons in Ht. congruence.
Qed.

(** [s.find(needle)]. *)
Fixpoint str_find (needle s : string) : option nat :=
  if starts_with needle s then Some 0
  else match s with EmptyString => None | String _ s' => S <$> str_find needle s' end.

Lemma contains_spec needle s : contains needle s = true <-> exists a b, s = a +:+ needle +:+ b.
Proof.
  induction s as [|c s IH]; cbn [contains]; rewrite orb_true_iff, starts_with_spec.
  - split.
    + intros [(t & Ht)|?]; [|done]. by exists EmptyString, t.
    + intros (a & b & E). left. destruct a; [by exists b|by rewrite str_app_cons in E].
  - rewrite IH. split.
    + intros [(t & Ht)|(a & b & ->)]; [by exists EmptyString, t|].
      exists (String c a), b. by rewrite str_app_cons.
    + intros ([|d a] & b & E); [left; by exists b|].
      rewrite str_app_cons in E. injection E as -> E. right. eauto.
Qed.

(** A text between double quotes, as messages show it. *)
Definition dquoted (s : string) : string := String (ascii_of_nat 34) (s +:+ String (ascii_of_nat 34) EmptyString).

(** [to_ascii_lowercase]. *)
Definition ascii_lower (c : ascii) : ascii :=
  let n := nat_of_ascii c in if (65 <=? n) && (n <=? 90) then ascii_of_nat (n + 32) else c.
Fixpoint to_ascii_lowercase (s : string) : string :=
  match s with EmptyString => EmptyString | String c s' => String (ascii_lower c) (to_ascii_lowercase s') end.

Lemma to_ascii_lowercase_app s t : to_ascii_lowercase (s +:+ t) = to_ascii_lowercase s +:+ to_ascii_lowercase t.
Proof. induction s as [|c s IH]; [done|]. rewrite str_app_cons. simpl. by rewrite IH, str_app_cons. Qed.

(** * Lines *)

(** [text.lines()]: split after every newline, a trailing empty piece dropped,
    the carriage return before a newline dropped. *)
Definition newline : ascii := ascii_of_nat 10.
Definition carriage_return : ascii := ascii_of_nat 13.
Fixpoint string_rev_app (s acc : string) : string :=
  match s with EmptyString => acc | String c s' => string_rev_app s' (String c acc) end.
Definition strip_cr_rev (rev_line : string) : string :=
  match rev_line with
  | String c s => if ascii_dec c carriage_return then s else rev_line
  | EmptyString => rev_line
  end.
Fixpoint lines_aux (cur : string) (s : string) : list string :=
  match s with
  | EmptyString => match cur with EmptyString => [] | _ => [string_rev_app cur EmptyString] end
  | String c s' =>
      if ascii_dec c newline
      then string_rev_app (strip_cr_rev cur) EmptyString :: lines_aux EmptyString s'
      else lines_aux (String c cur) s'
  end.
Definition lines (s : string) : list string := lines_aux EmptyString s.

(** * Byte offsets *)

Fixpoint str_take (n : nat) (s : string) : string :=
  match n, s with S n', String c s' => String c (str_take n' s') | _, _ => EmptyString end.
Fixpoint str_drop (n : nat) (s : string) : string :=
  match n, s with S n', String _ s' => str_drop n' s' | O, _ => s | _, EmptyString => EmptyString end.

(** [s.strip_prefix(p)], [s.split_once(c)] for an ASCII [c], and
    [if s.ends_with('\r') { s.pop(); }]. *)
Definition strip_prefix (p s : string) : option string :=
  if starts_with p s then Some (str_drop (String.length p) s) else None.
Fixpoint split_once (c : ascii) (s : string) : option (string * string) :=
  match s with
  | EmptyString => None
  | String d s' =>
      if ascii_dec d c then Some (EmptyString, s')
      else prod_map (String d) id <$> split_once c s'
  end.
Fixpoint pop_cr (s : string) : string :=
  match s with
  | EmptyString => EmptyString
  | String c EmptyString => if ascii_dec c carriage_return then EmptyString else s
  | String c s' => String c (pop_cr s')
  end.

(** [s.is_char_boundary(i)]. *)
Definition is_char_boundary (s : string) (i : nat) : bool :=
  if i =? 0 then true
  else match str_drop i s with
       | String c _ => negb (is_continuation c)
       | EmptyString => i =? String.length s
       end.

Lemma str_take_drop n s : str_take n s +:+ str_drop n s = s.
Proof.
  revert s. induction n as [|n IH]; intros [|c s]; try done.
  simpl. by rewrite str_app_cons, IH.
Qed.

Lemma str_length_take n s : String.length (str_take n s) = n `min` String.length s.
Proof. revert s. induction n as [|n IH]; intros [|c s]; simpl; auto. Qed.

Lemma str_length_drop n s : String.length (str_drop n s) = String.length s - n.
Proof. revert s. induction n as [|n IH]; intros [|c s]; simpl; auto. Qed.

Lemma str_drop_drop n m s : str_drop n (str_drop m s) = str_drop (m + n) s.
Proof. revert s. induction m as [|m IH]; intros s; [done|]. destruct s; simpl; [by destruct n|apply IH]. Qed.

Lemma str_drop_app s t : str_drop (String.length s) (s +:+ t) = t.
Proof. induction s as [|c s IH]; [done|]. by rewrite str_app_cons. Qed.

Lemma str_find_Some needle s i : str_find needle s = Some i -> starts_with needle (str_drop i s) = true.
Proof.
  revert i. induction s as [|c s IH]; intros i; cbn [str_find]; destruct (starts_with needle _) eqn:E.
  all: try (intros [= <-]; exact E). intros (j & Hj & ->)%fmap_Some. cbn [str_drop]. by apply IH.
Qed.

Lemma str_find_self needle s : str_find needle (needle +:+ s) = Some 0.
Proof.
  assert (H : starts_with needle (needle +:+ s) = true) by (apply starts_with_spec; by exists s).
  destruct (needle +:+ s); cbn [str_find]; by rewrite H.
Qed.

Lemma strip_prefix_Some p s t : strip_prefix p s = Some t <-> s = p +:+ t.
Proof.
  unfold strip_prefix. destruct (starts_with p s) eqn:E.
  - apply starts_with_spec in E as (u & ->). rewrite str_drop_app.
    split; [by intros [= ->]|]. intros H%(inj (String.append p)). by subst.
  - split; [done|]. intros ->. assert (starts_with p (p +:+ t) = true) by (apply starts_with_spec; by exists t). congruence.
Qed.

Lemma strip_prefix_None p s : strip_prefix p s = None <-> starts_with p s = false.
Proof. unfold strip_prefix. by destruct (starts_with p s). Qed.

Lemma split_once_Some c s a b : split_once c s = Some (a, b) -> s = a +:+ String c b.
Proof.
  revert a b. induction s as [|d s IH]; intros a b; simpl; [done|]. destruct (ascii_dec d c) as [->|].
  - by intros [= <- <-].
  - intros ([a' b'] & E & [= -> ->])%fmap_Some. simpl. rewrite str_app_cons. f_equal. by apply IH.
Qed.

(** A prefix is shorter text of the same string. *)
Lemma chars_take_prefix n s : exists t, s = chars_take n s +:+ t.
Proof.
  revert n. induction s as [|c s IH]; intros n; simpl; [by exists EmptyString|].
  destruct (is_continuation c); [|destruct n as [|n]; [by exists (String c s)|]].
  all: edestruct IH as (t & Ht); exists t; rewrite str_app_cons; by f_equal.
Qed.

Lemma chars_take_chars n s :
  head_continuation s = false -> chars_take n s = concat_strings (take n (chars s)).
Proof.
  intros Hs. assert (H : forall l n, Forall char_wf l ->
    chars_take n (concat_strings l) = concat_strings (take n l)).
  { clear. intros l n Hl. revert n. induction Hl as [|g l Hg Hl IH]; intros n; simpl; [by destruct n|].
    destruct g as [|c t]; [done|]. destruct Hg as [Hc Ht].
    rewrite str_app_cons. simpl. rewrite Hc. destruct n as [|n]; [done|]. simpl. rewrite str_app_cons. f_equal.
    rewrite <- IH. clear Hc IH. induction t as [|d t IHt]; [done|]. simpl in Ht.
    apply andb_true_iff in Ht as [Hd Ht]. rewrite !str_app_cons. simpl. rewrite Hd. f_equal. auto. }
  rewrite <- H by auto using chars_wf. by rewrite concat_chars.
Qed.

Lemma chars_count_app s t : chars_count (s +:+ t) = chars_count s + chars_count t.
Proof. induction s as [|c s IH]; [done|]. rewrite str_app_cons. simpl. rewrite IH. lia. Qed.

Lemma chars_count_take n s : chars_count (chars_take n s) <= n.
Proof.
  revert n. induction s as [|c s IH]; intros n; simpl; [lia|].
  destruct (is_continuation c) eqn:Hc; [|destruct n]; simpl; rewrite ?Hc; try lia.
  - specialize (IH n). lia.
  - specialize (IH n). lia.
Qed.

(** * Boundaries *)

Lemma is_char_boundary_spec s i :
  is_char_boundary s i = true <-> i = 0 \/ (i <= String.length s /\ head_continuation (str_drop i s) = false).
Proof.
  unfold is_char_boundary. destruct i as [|i]; [simpl; naive_solver|]. change (S i =? 0) with false. cbv iota.
  pose proof (str_length_drop (S i) s) as Hl. destruct (str_drop (S i) s) as [|c t].
  - rewrite Nat.eqb_eq. simpl in Hl. split; [intros ->; right; split; [lia|done]|]. intros [?|[? _]]; lia.
  - simpl in Hl |- *. rewrite negb_true_iff. split; [intros; right; split; [lia|done]|]. by intros [?|[_ ?]].
Qed.

(** No character is longer than four bytes, as in valid UTF-8. *)
Definition chars_bounded (s : string) : Prop := Forall (fun g => String.length g <= 4) (chars s).

Lemma chars_bounded_tail c s : chars_bounded (String c s) -> chars_bounded s.
Proof.
  unfold chars_bounded. destruct s as [|d s]; [constructor|].
  destruct (is_continuation d) eqn:Hd.
  - destruct (chars_nonempty d s) as (t & gs & E). erewrite chars_cons_continuation by eauto. rewrite E.
    intros [H1 H2]%Forall_cons. constructor; [|done]. simpl in *. lia.
  - rewrite chars_cons_lead by done. by intros [_ H]%Forall_cons.
Qed.

Lemma chars_bounded_drop n s : chars_bounded s -> chars_bounded (str_drop n s).
Proof. revert s. induction n as [|n IH]; intros [|c s] H; try done. apply IH. by eapply chars_bounded_tail. Qed.

(** The next boundary is at most four bytes away. *)
Lemma next_boundary s i :
  chars_bounded s -> i < String.length s ->
  head_continuation (str_drop i s) = false ->
  exists j, i < j <= i + 4 /\ j <= String.length s /\ is_char_boundary s j = true.
Proof.
  intros Hb Hi Hh. apply (chars_bounded_drop i) in Hb.
  pose proof (str_length_drop i s) as Hl.
  pose proof (chars_wf _ Hh) as Hwf. pose proof (concat_chars (str_drop i s)) as Hc.
  unfold chars_bounded in Hb. destruct (str_drop i s) as [|c t] eqn:E; [simpl in Hl; lia|].
  destruct (chars_nonempty c t) as (u & gs & E'). rewrite E' in Hb, Hwf, Hc.
  apply Forall_cons in Hb as [Hg _], Hwf as [_ Hwf]. cbn [concat_strings] in Hc.
  exists (i + String.length (String c u)). pose proof (f_equal String.length Hc) as Hcl.
  rewrite str_length_app in Hcl. cbn [String.length] in *. split_and!; try lia.
  apply is_char_boundary_spec. right. split; [lia|].
  rewrite <- str_drop_drop, E, <- Hc. change (S (String.length u)) with (String.length (String c u)).
  rewrite str_drop_app. by apply head_continuation_concat.
Qed.

(** * The byte order on strings *)

(** [str]'s ordering: bytewise, [String.ltb]. *)
Lemma ascii_compare_refl a : Ascii.compare a a = Eq.
Proof. apply N.compare_refl. Qed.

Lemma str_compare_refl s : String.compare s s = Eq.
Proof. induction s as [|c s IH]; [done|]. simpl. by rewrite ascii_compare_refl. Qed.

Lemma str_compare_trans s1 s2 s3 :
  String.compare s1 s2 = Lt -> String.compare s2 s3 = Lt -> String.compare s1 s3 = Lt.
Proof.
  revert s2 s3. induction s1 as [|a s1 IH]; intros [|b s2] [|c s3]; simpl; try done.
  destruct (Ascii.compare a b) eqn:Hab; [|intros _|done]; (destruct (Ascii.compare b c) eqn:Hbc; [|intros|done]).
  - apply Ascii.compare_eq_iff in Hab as ->, Hbc as ->. rewrite ascii_compare_refl. apply IH.
  - apply Ascii.compare_eq_iff in Hab as ->. by rewrite Hbc.
  - apply Ascii.compare_eq_iff in Hbc as ->. by rewrite Hab.
  - unfold Ascii.compare in *. rewrite N.compare_lt_iff in *.
    destruct (N.compare_spec (N_of_ascii a) (N_of_ascii c)); [lia|done|lia].
Qed.

Definition str_lt (a b : string) : Prop := String.ltb a b = true.
Lemma str_lt_compare a b : str_lt a b <-> String.compare a b = Lt.
Proof. unfold str_lt, String.ltb. by destruct (String.compare a b). Qed.

#[export] Instance str_lt_dec a b : Decision (str_lt a b).
Proof. unfold str_lt. apply _. Defined.
#[export] Instance str_lt_strict : StrictOrder str_lt.
Proof.
  split.
  - intros a H. apply str_lt_compare in H. by rewrite str_compare_refl in H.
  - intros a b c. rewrite !str_lt_compare. apply str_compare_trans.
Qed.

Lemma str_lt_total a b : str_lt a b \/ a = b \/ str_lt b a.
Proof.
  rewrite !str_lt_compare, (String.compare_antisym b a).
  destruct (String.compare a b) eqn:E; simpl; [right; left; by apply String.compare_eq_iff|by left|by right; right].
Qed.

Lemma str_ltb_false a b : String.ltb a b = false <-> a = b \/ str_lt b a.
Proof.
  destruct (String.ltb a b) eqn:E.
  - split; [done|]. intros [->|H]; [by destruct (irreflexivity str_lt b)|].
    exfalso. apply (irreflexivity str_lt a). by transitivity b.
  - split; [|done]. intros _. destruct (str_lt_total a b) as [H|[H|H]]; [by unfold str_lt in H; congruence|by left|by right].
Qed.

Lemma str_compare_app p p' s s' :
  String.length p = String.length p' ->
  String.compare (p +:+ s) (p' +:+ s') =
  match String.compare p p' with Eq => String.compare s s' | c => c end.
Proof.
  revert p'. induction p as [|c p IH]; intros [|c' p']; simpl; intros [=]; [done|].
  destruct (Ascii.compare c c'); [by apply IH|done|done].
Qed.

(** * Decimal numbers *)

Definition digit (n : Z) : ascii := ascii_of_N (Z.to_N (48 + n)).

(** The decimal digits of a non-negative number in front of [acc]. *)
Fixpoint decimal_aux (fuel : nat) (n : Z) (acc : string) : string :=
  match fuel with
  | O => acc
  | S fuel =>
      let acc := String (digit (n mod 10)) acc in
      if (n / 10 =? 0)%Z then acc else decimal_aux fuel (n / 10) acc
  end.
Definition decimal (n : Z) : string := decimal_aux (S (Z.to_nat (Z.log2 n))) n EmptyString.
Fixpoint zeros (n : nat) : string := match n with O => EmptyString | S n => String "0" (zeros n) end.
(** [{n:0width}]: the sign counts towards the width. *)
Definition pad (width : nat) (n : Z) : string :=
  if (n <? 0)%Z then String "-" (zeros (width - 1 - String.length (decimal (- n))) +:+ decimal (- n))
  else zeros (width - String.length (decimal n)) +:+ decimal n.

(** The last [w] digits of [n]. *)
Fixpoint fixed (w : nat) (n : Z) : string :=
  match w with O => EmptyString | S w => fixed w (n / 10) +:+ String (digit (n mod 10)) EmptyString end.

Lemma fixed_length w n : String.length (fixed w n) = w.
Proof. revert n. induction w as [|w IH]; intros n; [done|]. simpl. rewrite str_length_app, IH. simpl. lia. Qed.

Lemma decimal_aux_fixed f n acc :
  (0 <= n < 10 * 2 ^ Z.of_nat f)%Z ->
  exists k, decimal_aux (S f) n acc = fixed (S k) n +:+ acc /\ (n < 10 ^ Z.of_nat (S k))%Z
    /\ (k = 0 \/ (10 ^ Z.of_nat k <= n)%Z).
Proof.
  revert n acc. induction f as [|f IH]; intros n acc Hn.
  - exists 0. cbn [decimal_aux]. assert (n / 10 = 0)%Z as -> by (apply Z.div_small; lia). cbn [fixed Z.eqb].
    rewrite str_app_nil_l, str_app_cons, str_app_nil_l. split_and!; [done|lia|by left].
  - cbn [decimal_aux]. destruct (n / 10 =? 0)%Z eqn:E.
    + apply Z.eqb_eq in E. exists 0. cbn [fixed]. rewrite str_app_nil_l, str_app_cons, str_app_nil_l. split_and!; [done| |by left].
      apply Z.div_small_iff in E; lia.
    + apply Z.eqb_neq in E.
      assert (Hd : (0 <= n / 10 < 10 * 2 ^ Z.of_nat f)%Z).
      { split; [apply Z.div_pos; lia|]. apply Z.div_lt_upper_bound; [lia|].
        rewrite Nat2Z.inj_succ, Z.pow_succ_r in Hn by lia. lia. }
      destruct (IH (n / 10)%Z (String (digit (n mod 10)) acc) Hd) as (k & Hk & Hb & Hl).
      exists (S k). split_and!.
      * etransitivity; [exact Hk|]. change (fixed (S (S k)) n) with (fixed (S k) (n / 10) +:+ String (digit (n mod 10)) EmptyString).
        rewrite <- str_app_assoc. by rewrite str_app_cons, str_app_nil_l.
      * rewrite Nat2Z.inj_succ, Z.pow_succ_r by lia.
        pose proof (Z.mod_pos_bound n 10). pose proof (Z.div_mod n 10). lia.
      * right. pose proof (Z.mod_pos_bound n 10). pose proof (Z.div_mod n 10).
        rewrite Nat2Z.inj_succ, Z.pow_succ_r by lia. destruct Hl as [->|Hl]; [simpl; lia|lia].
Qed.

Lemma zeros_snoc n : zeros n +:+ "0" = String "0" (zeros n).
Proof. induction n as [|n IH]; [done|]. simpl. by rewrite str_app_cons, IH. Qed.

Lemma zeros_fixed j k n : (0 <= n < 10 ^ Z.of_nat k)%Z -> zeros j +:+ fixed k n = fixed (j + k) n.
Proof.
  revert n. induction k as [|k IH]; intros n Hn.
  - assert (n = 0)%Z as -> by (simpl in Hn; lia). rewrite Nat.add_0_r, str_app_nil_r.
    induction j as [|j IHj]; [done|]. simpl. change (0 / 10)%Z with 0%Z. rewrite <- IHj. by rewrite zeros_snoc.
  - rewrite Nat.add_succ_r. simpl. rewrite str_app_assoc, IH; [done|].
    rewrite Nat2Z.inj_succ, Z.pow_succ_r in Hn by lia.
    split; [apply Z.div_pos; lia|apply Z.div_lt_upper_bound; lia].
Qed.

Lemma pad_fixed w n : w <> 0 -> (0 <= n < 10 ^ Z.of_nat w)%Z -> pad w n = fixed w n.
Proof.
  intros Hw Hn. unfold pad. destruct (n <? 0)%Z eqn:E; [lia|].
  destruct (decimal_aux_fixed (Z.to_nat (Z.log2 n)) n EmptyString) as (k & Hk & Hb & Hl).
  { split; [lia|]. rewrite Z2Nat.id by apply Z.log2_nonneg. destruct (decide (n = 0)%Z) as [->|]; [done|].
    pose proof (Z.log2_spec n). rewrite Z.pow_succ_r in * by apply Z.log2_nonneg. lia. }
  unfold decimal. rewrite Hk, str_app_nil_r, fixed_length, zeros_fixed by lia. f_equal.
  destruct Hl as [->|Hl]; [lia|].
  assert (Z.of_nat k < Z.of_nat w)%Z; [|lia]. apply (Z.pow_lt_mono_r_iff 10); lia.
Qed.

Lemma digit_compare a b : (0 <= a < 10)%Z -> (0 <= b < 10)%Z -> Ascii.compare (digit a) (digit b) = Z.compare a b.
Proof.
  intros Ha Hb. unfold Ascii.compare, digit. rewrite !N_ascii_embedding by lia.
  rewrite !Z2N.inj_compare by lia. destruct (Z.compare_spec (48 + a) (48 + b)), (Z.compare_spec a b); lia || done.
Qed.

Lemma fixed_compare w a b :
  (0 <= a < 10 ^ Z.of_nat w)%Z -> (0 <= b < 10 ^ Z.of_nat w)%Z ->
  String.compare (fixed w a) (fixed w b) = Z.compare a b.
Proof.
  revert a b. induction w as [|w IH]; intros a b Ha Hb.
  - simpl in *. symmetry. apply Z.compare_eq_iff. lia.
  - rewrite Nat2Z.inj_succ, Z.pow_succ_r in * by lia.
    assert (Hq : forall n, (0 <= n < 10 * 10 ^ Z.of_nat w -> 0 <= n / 10 < 10 ^ Z.of_nat w)%Z).
    { intros n Hn. split; [apply Z.div_pos; lia|apply Z.div_lt_upper_bound; lia]. }
    cbn [fixed]. rewrite str_compare_app, IH by (rewrite ?fixed_length; auto). simpl.
    rewrite digit_compare by (apply Z.mod_pos_bound; lia).
    pose proof (Z.div_mod a 10). pose proof (Z.div_mod b 10).
    pose proof (Z.mod_pos_bound a 10). pose proof (Z.mod_pos_bound b 10).
    destruct (Z.compare_spec (a / 10) (b / 10)), (Z.compare_spec a b), (Z.compare_spec (a mod 10) (b mod 10)); lia || done.
Qed.

(** [a <= b] of [String]. *)
Definition string_leb (a b : string) : bool := negb (String.ltb b a).

Lemma string_leb_total a b : string_leb a b = true \/ string_leb b a = true.
Proof.
  unfold string_leb. destruct (String.ltb b a) eqn:E; [right|by left].
  apply negb_true_iff. destruct (String.ltb a b) eqn:E'; [|done]. unfold String.ltb in *.
  rewrite String.compare_antisym in E'. destruct (String.compare b a); done.
Qed.

Lemma string_leb_trans a b c : string_leb a b = true -> string_leb b c = true -> string_leb a c = true.
Proof.
  unfold string_leb. rewrite !negb_true_iff, !str_ltb_false. intros [->|H1] [->|H2]; [by left|by right|by right|].
  right. rewrite str_lt_compare in *. by eapply str_compare_trans.
Qed.
