(* ===== verification/Utf8.v ===== *)
(** [core::str::from_utf8]: well-formed UTF-8 as the Standard Library decides
    it, the longest valid prefix ([Utf8Error::valid_up_to]) and what it gives a
    reader that receives its bytes in arbitrary chunks. *)
From Stdlib Require Import ZArith Lia Ascii String.
From stdpp Require Import base tactics numbers list strings.
From S2P Require Import Prelude Text.

(** * One scalar value *)

Definition byte_in (lo hi : nat) (c : ascii) : bool := (lo <=? nat_of_ascii c) && (nat_of_ascii c <=? hi).
(** Bytes that may follow the lead byte of a three- and of a four-byte sequence
    (overlong forms, surrogates and values past U+10FFFF are excluded). *)
Definition second_of_three (a b : ascii) : bool :=
  byte_in 224 224 a && byte_in 160 191 b || byte_in 225 236 a && is_continuation b
  || byte_in 237 237 a && byte_in 128 159 b || byte_in 238 239 a && is_continuation b.
Definition second_of_four (a b : ascii) : bool :=
  byte_in 240 240 a && byte_in 144 191 b || byte_in 241 243 a && is_continuation b
  || byte_in 244 244 a && byte_in 128 143 b.

(** Bytes of the scalar value at the head of [s]; 0 when [s] is empty or its
    head is ill-formed or incomplete. *)
Definition utf8_width (s : string) : nat :=
  match s with
  | EmptyString => 0
  | String a s1 =>
      if byte_in 0 127 a then 1 else
      match s1 with
      | EmptyString => 0
      | String b s2 =>
          if byte_in 194 223 a && is_continuation b then 2 else
          match s2 with
          | EmptyString => 0
          | String c s3 =>
              if second_of_three a b && is_continuation c then 3 else
              match s3 with
              | EmptyString => 0
              | String d _ => if second_of_four a b && is_continuation c && is_continuation d then 4 else 0
              end
          end
      end
  end.

(** [Utf8Error::valid_up_to], and the whole length when there is no error. *)
Fixpoint valid_scan (fuel : nat) (s : string) : nat :=
  match fuel with
  | O => 0
  | S fuel => match utf8_width s with O => 0 | S w => S w + valid_scan fuel (str_drop (S w) s) end
  end.
Definition valid_up_to (s : string) : nat := valid_scan (String.length s) s.
Definition is_utf8 (s : string) : Prop := valid_up_to s = String.length s.

Lemma utf8_width_bound s : utf8_width s <= 4 /\ utf8_width s <= String.length s.
Proof. destruct s as [|a [|b [|c [|d s]]]]; simpl; repeat split_match; simpl; lia. Qed.

(** A complete scalar value is recognised whatever follows it. *)
Lemma utf8_width_app s t : utf8_width s <> 0 -> utf8_width (s +:+ t) = utf8_width s.
Proof.
  destruct s as [|a [|b [|c [|d s]]]]; rewrite ?str_app_cons; cbn [utf8_width]; [done|..];
    repeat split_match; done.
Qed.

Lemma valid_scan_fuel f s : String.length s <= f -> valid_scan f s = valid_up_to s.
Proof.
  unfold valid_up_to. revert s. induction f as [f IH] using lt_wf_ind. intros s Hf.
  destruct f as [|f]; [by destruct s; simpl in *; [|lia]|].
  destruct s as [|a s]; [done|]. cbn [valid_scan String.length].
  destruct (utf8_width (String a s)) as [|w] eqn:E; [done|]. f_equal.
  assert (Hl : String.length (str_drop (S w) (String a s)) <= String.length s)
    by (rewrite str_length_drop; cbn [String.length]; lia).
  cbn [String.length] in Hf. rewrite IH by lia. symmetry.
  destruct (decide (String.length s < S f)); [by rewrite IH by lia|]. by replace f with (String.length s) by lia; rewrite (IH (String.length s)) by lia.
Qed.

(** The scan, without its fuel. *)
Lemma valid_up_to_eq s :
  valid_up_to s = match utf8_width s with O => 0 | S w => S w + valid_up_to (str_drop (S w) s) end.
Proof.
  destruct s as [|a s]; [done|]. unfold valid_up_to at 1. cbn [String.length valid_scan].
  destruct (utf8_width (String a s)) as [|w]; [done|]. by rewrite valid_scan_fuel by (rewrite str_length_drop; cbn [String.length]; lia).
Qed.

(** Induction along the scan. *)
Lemma utf8_ind (P : string -> Prop) :
  (forall s, utf8_width s = 0 -> P s) ->
  (forall s, utf8_width s <> 0 -> P (str_drop (utf8_width s) s) -> P s) -> forall s, P s.
Proof.
  intros H0 Hs s. induction s as [s IH] using (induction_ltof1 _ String.length).
  destruct (decide (utf8_width s = 0)) as [|Hw]; [auto|]. apply Hs; [done|]. apply IH.
  unfold ltof. rewrite str_length_drop. pose proof (utf8_width_bound s). lia.
Qed.

Lemma valid_up_to_le s : valid_up_to s <= String.length s.
Proof.
  induction s as [s Hw|s Hw IH] using utf8_ind; rewrite valid_up_to_eq; [rewrite Hw; lia|].
  rewrite str_length_drop in IH. pose proof (utf8_width_bound s). destruct (utf8_width s) eqn:E; rewrite ?E in *; lia.
Qed.

Lemma str_drop_app_l n s t : n <= String.length s -> str_drop n (s +:+ t) = str_drop n s +:+ t.
Proof.
  revert s. induction n as [|n IH]; intros s Hn; [done|]. destruct s as [|c s]; simpl in *; [lia|].
  apply IH. lia.
Qed.

(** ** The longest valid prefix and what is left after it *)
Definition valid_prefix (s : string) : string := str_take (valid_up_to s) s.
Definition valid_rest (s : string) : string := str_drop (valid_up_to s) s.

Lemma valid_prefix_rest s : valid_prefix s +:+ valid_rest s = s.
Proof. apply str_take_drop. Qed.

Lemma is_utf8_app s t : is_utf8 s -> valid_up_to (s +:+ t) = String.length s + valid_up_to t.
Proof.
  unfold is_utf8. induction s as [s Hw|s Hw IH] using utf8_ind; rewrite valid_up_to_eq; intros H.
  - rewrite Hw in H. destruct s; [done|discriminate H].
  - pose proof (utf8_width_bound s) as [_ Hl]. rewrite valid_up_to_eq, utf8_width_app by done.
    destruct (utf8_width s) as [|w] eqn:E; [done|].
    rewrite str_drop_app_l by done. rewrite IH; rewrite str_length_drop; lia.
Qed.

Lemma valid_rest_stuck s : valid_up_to (valid_rest s) = 0.
Proof.
  unfold valid_rest. induction s as [s Hw|s Hw IH] using utf8_ind.
  - assert (E : valid_up_to s = 0) by (rewrite valid_up_to_eq; by rewrite Hw). rewrite E. apply E.
  - rewrite (valid_up_to_eq s). destruct (utf8_width s) as [|w]; [done|]. by rewrite <- str_drop_drop.
Qed.

Lemma str_take_add n m s : str_take (n + m) s = str_take n s +:+ str_take m (str_drop n s).
Proof.
  revert s. induction n as [|n IH]; intros s; [done|].
  destruct s as [|c s]; simpl; [by destruct m|]. by rewrite str_app_cons, IH.
Qed.

Lemma str_take_length_app n s t : n <= String.length s -> str_take n (s +:+ t) = str_take n s.
Proof.
  revert s. induction n as [|n IH]; intros s Hn; [done|]. destruct s as [|c s]; simpl in *; [lia|].
  by rewrite IH by lia.
Qed.

Lemma str_take_all s : str_take (String.length s) s = s.
Proof. induction s as [|c s IH]; simpl; [done|]. by rewrite IH. Qed.
Lemma str_drop_all s : str_drop (String.length s) s = EmptyString.
Proof. by induction s. Qed.

(** The head scalar value on its own. *)
Lemma utf8_width_take s : utf8_width (str_take (utf8_width s) s) = utf8_width s.
Proof.
  destruct s as [|a [|b [|c [|d s]]]]; cbn [utf8_width]; [done|..].
  all: destruct (byte_in 0 127 a) eqn:E1; [cbn [utf8_width str_take]; by rewrite E1|].
  all: try (destruct (byte_in 194 223 a && is_continuation b) eqn:E2; [cbn [utf8_width str_take]; by rewrite E1, E2|]).
  all: try (destruct (second_of_three a b && is_continuation c) eqn:E3; [cbn [utf8_width str_take]; by rewrite E1, E2, E3|]).
  all: try (destruct (second_of_four a b && is_continuation c && is_continuation d) eqn:E4; [cbn [utf8_width str_take]; by rewrite E1, E2, E3, E4|]).
  all: done.
Qed.

Lemma valid_prefix_utf8 s : is_utf8 (valid_prefix s).
Proof.
  unfold is_utf8, valid_prefix. induction s as [s Hw|s Hw IH] using utf8_ind.
  - assert (E : valid_up_to s = 0) by (rewrite valid_up_to_eq; by rewrite Hw). by rewrite E.
  - pose proof (utf8_width_bound s) as [_ Hl]. pose proof (utf8_width_take s) as Ht.
    rewrite (valid_up_to_eq s). destruct (utf8_width s) as [|w]; [done|].
    rewrite str_take_add, is_utf8_app, IH, str_length_app; [done|].
    unfold is_utf8. rewrite valid_up_to_eq, Ht.
    replace (S w) with (String.length (str_take (S w) s)) at 2 by (rewrite str_length_take; lia).
    rewrite str_drop_all, str_length_take. cbn [valid_up_to String.length valid_scan]. lia.
Qed.

(** Decoding in two chunks: the carried tail and the next bytes are scanned
    together, and nothing before them changes. *)
Lemma valid_split_app a b :
  valid_prefix (a +:+ b) = valid_prefix a +:+ valid_prefix (valid_rest a +:+ b)
  /\ valid_rest (a +:+ b) = valid_rest (valid_rest a +:+ b).
Proof.
  pose proof (valid_prefix_utf8 a) as Hp.
  assert (E : a +:+ b = valid_prefix a +:+ (valid_rest a +:+ b)) by (by rewrite str_app_assoc, valid_prefix_rest).
  revert Hp E. generalize (valid_prefix a) as p. generalize (valid_rest a +:+ b) as s. intros s p Hp ->.
  unfold valid_prefix, valid_rest. rewrite is_utf8_app by done. split.
  - rewrite str_take_add, str_take_length_app, str_take_all by done. by rewrite str_drop_app.
  - by rewrite <- str_drop_drop, str_drop_app.
Qed.

Lemma valid_prefix_id s : is_utf8 s -> valid_prefix s = s /\ valid_rest s = EmptyString.
Proof. unfold valid_prefix, valid_rest. intros ->. split; [apply str_take_all|apply str_drop_all]. Qed.

Lemma is_utf8_concat s t : is_utf8 s -> is_utf8 t -> is_utf8 (s +:+ t).
Proof. intros Hs Ht. unfold is_utf8. by rewrite is_utf8_app, Ht, str_length_app. Qed.

(** [valid_up_to] is the largest index up to which the bytes are valid. *)
Lemma valid_up_to_max s n : n <= String.length s -> is_utf8 (str_take n s) -> n <= valid_up_to s.
Proof.
  intros Hn H. rewrite <- (str_take_drop n s), is_utf8_app by done. rewrite str_length_take. lia.
Qed.
