(* ===== verification/Proto.v ===== *)
(** Wire types shared by the devices: [crates/proto/src/agent.rs] and the
    decision receipts of [crates/proto/src/entities.rs].

    [#[derive(PartialEq)]] on a type that holds an [f64] is not Leibniz
    equality ([0.0 == -0.0], a NaN differs from itself): such types have a
    boolean equality of their own, the others a [Decision] instance. *)
From Stdlib Require Import ZArith Lia Ascii String.
From Stdlib Require Import Floats.SpecFloat.
From stdpp Require Import base tactics numbers list strings.
From S2P Require Import Prelude Json Text.

(** * Harnesses and run requests *)

Inductive HarnessId := ClaudeCode | Codex | Cursor | Grok | Hermes | Pi | Dsh | Mock.
#[export] Instance HarnessId_eq_dec : EqDecision HarnessId.
Proof. solve_decision. Defined.

Inductive ReasoningLevel := RL_Minimal | RL_Low | RL_Medium | RL_High | RL_XHigh | RL_Max | RL_Ultra | RL_Ultracode | RL_Ultrathink.
#[export] Instance ReasoningLevel_eq_dec : EqDecision ReasoningLevel.
Proof. solve_decision. Defined.

Inductive SandboxLevel := ReadOnly | WorkspaceWrite | DangerFullAccess.
#[export] Instance SandboxLevel_eq_dec : EqDecision SandboxLevel.
Proof. solve_decision. Defined.

Record RunRequest := mk_run_request {
  rr_prompt : string;
  rr_harness : option HarnessId;
  rr_model : option string;
  rr_reasoning : option ReasoningLevel;
  rr_model_options : list (string * Value);
  rr_cwd : string;
  rr_sandbox : SandboxLevel;
  rr_auto_approve : bool;
  rr_resume : option string;
  rr_attachments : list string;
}.

(** * Tool calls *)

Record TodoItem := mk_todo { todo_text : string; todo_done : bool }.
#[export] Instance TodoItem_eq_dec : EqDecision TodoItem.
Proof. solve_decision. Defined.

Inductive ToolCall :=
| TC_Exec (command : string)
| TC_ReadFile (path : string)
| TC_WriteFile (path : string) (content : option string)
| TC_EditFile (path : string) (old_string new_string : option string)
| TC_ApplyPatch (path : option string)
| TC_Search (pattern : string) (path : option string)
| TC_Glob (pattern : string)
| TC_WebFetch (url : string) (prompt : option string)
| TC_WebSearch (query : string)
| TC_Todo (items : list TodoItem)
| TC_Mcp (server tool : string) (input : option Value)
| TC_Unknown (name : string) (input : option Value).

(** [PartialEq] of [ToolCall]: the only floats are inside the JSON inputs. *)
Definition tool_call_eqb (a b : ToolCall) : bool :=
  match a, b with
  | TC_Mcp s1 t1 i1, TC_Mcp s2 t2 i2 => bool_decide (s1 = s2) && bool_decide (t1 = t2) && option_eqb value_eqb i1 i2
  | TC_Unknown n1 i1, TC_Unknown n2 i2 => bool_decide (n1 = n2) && option_eqb value_eqb i1 i2
  | TC_Exec c1, TC_Exec c2 => bool_decide (c1 = c2)
  | TC_ReadFile p1, TC_ReadFile p2 => bool_decide (p1 = p2)
  | TC_WriteFile p1 c1, TC_WriteFile p2 c2 => bool_decide (p1 = p2) && bool_decide (c1 = c2)
  | TC_EditFile p1 o1 n1, TC_EditFile p2 o2 n2 =>
      bool_decide (p1 = p2) && bool_decide (o1 = o2) && bool_decide (n1 = n2)
  | TC_ApplyPatch p1, TC_ApplyPatch p2 => bool_decide (p1 = p2)
  | TC_Search a1 p1, TC_Search a2 p2 => bool_decide (a1 = a2) && bool_decide (p1 = p2)
  | TC_Glob p1, TC_Glob p2 => bool_decide (p1 = p2)
  | TC_WebFetch u1 p1, TC_WebFetch u2 p2 => bool_decide (u1 = u2) && bool_decide (p1 = p2)
  | TC_WebSearch q1, TC_WebSearch q2 => bool_decide (q1 = q2)
  | TC_Todo l1, TC_Todo l2 => bool_decide (l1 = l2)
  | _, _ => false
  end.

Record SlashCommand := mk_slash { slash_name : string; slash_description : string; slash_input_hint : option string }.

Record ToolDiff := mk_tool_diff { td_path : string; td_old_text : option string; td_new_text : string }.
#[export] Instance ToolDiff_eq_dec : EqDecision ToolDiff.
Proof. solve_decision. Defined.

Record UserInputQuestion := mk_question {
  q_id : string; q_header : string; q_question : string; q_options : list string; q_multi_select : bool
}.
#[export] Instance UserInputQuestion_eq_dec : EqDecision UserInputQuestion.
Proof. solve_decision. Defined.

Inductive DoneStatus := DS_Completed | DS_Interrupted | DS_Errored.
#[export] Instance DoneStatus_eq_dec : EqDecision DoneStatus.
Proof. solve_decision. Defined.

(** * Decision receipts *)

Inductive DecisionBackend := Laya | Jev.
Inductive DecisionPhase := Choosing | ChoosingFocus.
Record DecisionActivity := mk_activity { act_backend : DecisionBackend; act_phase : DecisionPhase }.
Inductive DecisionStage := DSt_Intake | DSt_PreStep | DSt_Context | DSt_ToolBoundary | DSt_Completion.
Record DecisionCandidate := mk_candidate { cand_id : string; cand_summary : string }.
Inductive DecisionResult := Selected (candidate_id : string) | Abstained.
Inductive DecisionValidation := DV_Accepted | DV_Rejected | DV_Stale | DV_Expired | DV_Unauthorized.
#[export] Instance DecisionBackend_eq_dec : EqDecision DecisionBackend.
Proof. solve_decision. Defined.
#[export] Instance DecisionStage_eq_dec : EqDecision DecisionStage.
Proof. solve_decision. Defined.
#[export] Instance DecisionCandidate_eq_dec : EqDecision DecisionCandidate.
Proof. solve_decision. Defined.
#[export] Instance DecisionResult_eq_dec : EqDecision DecisionResult.
Proof. solve_decision. Defined.
#[export] Instance DecisionValidation_eq_dec : EqDecision DecisionValidation.
Proof. solve_decision. Defined.

Record DecisionEvent := mk_decision_event {
  de_schema_version : Z;
  de_id : string;
  de_task_revision : Z;
  de_backend : DecisionBackend;
  de_stage : DecisionStage;
  de_candidates : list DecisionCandidate;
  de_result : DecisionResult;
  de_validation : DecisionValidation;
  de_confidence : option f64;
  de_selected_probability : option f64;
  de_fit : option f64;
  de_fallback : option string;
  de_observed_outcome : option string;
  de_created_at : Z;
}.

Definition decision_event_eqb (a b : DecisionEvent) : bool :=
  bool_decide (de_schema_version a = de_schema_version b) && bool_decide (de_id a = de_id b)
  && bool_decide (de_task_revision a = de_task_revision b) && bool_decide (de_backend a = de_backend b)
  && bool_decide (de_stage a = de_stage b) && bool_decide (de_candidates a = de_candidates b)
  && bool_decide (de_result a = de_result b) && bool_decide (de_validation a = de_validation b)
  && option_eqb f64_eqb (de_confidence a) (de_confidence b)
  && option_eqb f64_eqb (de_selected_probability a) (de_selected_probability b)
  && option_eqb f64_eqb (de_fit a) (de_fit b)
  && bool_decide (de_fallback a = de_fallback b) && bool_decide (de_observed_outcome a = de_observed_outcome b)
  && bool_decide (de_created_at a = de_created_at b).

Definition DECISION_EVENT_SCHEMA_VERSION : Z := 1.
Definition DECISION_EVENT_MAX_CANDIDATES : nat := 16.

Definition bounded_id_char (g : string) : bool :=
  char_is_ascii_alphanumeric g || bool_decide (g ∈ ["."; "_"; ":"; "-"]%string).
Definition bounded_id (value : string) : string :=
  concat_strings (take 64 (base.filter (fun g => bounded_id_char g = true) (chars value))).

Definition secret_needles : list string := ["api_key"; "api-key"; "authorization:"; "bearer "; "sk-"]%string.
Definition bounded_public_text (value : string) (max_chars : nat) : string :=
  let spaced := concat_strings ((fun g => if char_is_control g then " "%string else g) <$> chars value) in
  let single_line := join " " (split_whitespace spaced) in
  if existsb (fun needle => contains needle (to_ascii_lowercase single_line)) secret_needles
  then "[redacted]"%string
  else chars_take max_chars single_line.

Definition clamp_unit (x : f64) : f64 := f64_clamp f64_zero f64_one x.
Definition bounded_unit (x : option f64) : option f64 :=
  match x with
  | Some x => if f64_is_finite x then Some (clamp_unit x) else None
  | None => None
  end.
Definition bounded_text (max_chars : nat) (x : option string) : option string :=
  match x with
  | Some x => let y := bounded_public_text x max_chars in if decide (y = EmptyString) then None else Some y
  | None => None
  end.
Definition bounded_result (r : DecisionResult) : DecisionResult :=
  match r with Selected id => Selected (bounded_id id) | Abstained => Abstained end.
Definition bounded_candidate (c : DecisionCandidate) : DecisionCandidate :=
  mk_candidate (bounded_id (cand_id c)) (bounded_public_text (cand_summary c) 96).

Definition bounded (e : DecisionEvent) : DecisionEvent :=
  mk_decision_event DECISION_EVENT_SCHEMA_VERSION (bounded_id (de_id e)) (de_task_revision e) (de_backend e)
    (de_stage e) (bounded_candidate <$> take DECISION_EVENT_MAX_CANDIDATES (de_candidates e))
    (bounded_result (de_result e)) (de_validation e)
    (bounded_unit (de_confidence e)) (bounded_unit (de_selected_probability e)) (bounded_unit (de_fit e))
    (bounded_text 160 (de_fallback e)) (bounded_text 240 (de_observed_outcome e)) (de_created_at e).

Definition DecisionEvent_new (id : string) (task_revision : Z) (backend : DecisionBackend) (stage : DecisionStage)
    (candidates : list DecisionCandidate) (result : DecisionResult) (validation : DecisionValidation)
    (created_at : Z) : DecisionEvent :=
  bounded (mk_decision_event DECISION_EVENT_SCHEMA_VERSION id task_revision backend stage candidates result
    validation None None None None None created_at).

Definition with_fallback (fallback : string) (e : DecisionEvent) : DecisionEvent :=
  bounded (mk_decision_event (de_schema_version e) (de_id e) (de_task_revision e) (de_backend e) (de_stage e)
    (de_candidates e) (de_result e) (de_validation e) (de_confidence e) (de_selected_probability e) (de_fit e)
    (Some fallback) (de_observed_outcome e) (de_created_at e)).
Definition with_observed_outcome (outcome : string) (e : DecisionEvent) : DecisionEvent :=
  bounded (mk_decision_event (de_schema_version e) (de_id e) (de_task_revision e) (de_backend e) (de_stage e)
    (de_candidates e) (de_result e) (de_validation e) (de_confidence e) (de_selected_probability e) (de_fit e)
    (de_fallback e) (Some outcome) (de_created_at e)).
Definition with_confidence (c : f64) (e : DecisionEvent) : DecisionEvent :=
  mk_decision_event (de_schema_version e) (de_id e) (de_task_revision e) (de_backend e) (de_stage e)
    (de_candidates e) (de_result e) (de_validation e) (if f64_is_finite c then Some (clamp_unit c) else None)
    (de_selected_probability e) (de_fit e) (de_fallback e) (de_observed_outcome e) (de_created_at e).
Definition with_selected_probability (p : f64) (e : DecisionEvent) : DecisionEvent :=
  mk_decision_event (de_schema_version e) (de_id e) (de_task_revision e) (de_backend e) (de_stage e)
    (de_candidates e) (de_result e) (de_validation e) (de_confidence e)
    (if f64_is_finite p then Some (clamp_unit p) else None)
    (de_fit e) (de_fallback e) (de_observed_outcome e) (de_created_at e).
Definition with_fit (f : f64) (e : DecisionEvent) : DecisionEvent :=
  mk_decision_event (de_schema_version e) (de_id e) (de_task_revision e) (de_backend e) (de_stage e)
    (de_candidates e) (de_result e) (de_validation e) (de_confidence e) (de_selected_probability e)
    (if f64_is_finite f then Some (clamp_unit f) else None)
    (de_fallback e) (de_observed_outcome e) (de_created_at e).

(** * Agent events *)

Inductive AgentEvent :=
| AE_SessionStarted (harness : HarnessId) (model : string) (tools : list string) (cwd session_id assistant_message_id : string)
| AE_TextDelta (text : string)
| AE_ReasoningDelta (text : string)
| AE_Decision (event : DecisionEvent)
| AE_DecisionActivity (activity : option DecisionActivity)
| AE_AssistantMessageCompleted (assistant_message_id : string)
| AE_ToolCall (id : string) (call : ToolCall)
| AE_ToolResult (id : string) (is_error : bool) (output : option string) (diff : option ToolDiff)
| AE_Usage (input_tokens output_tokens : Z)
| AE_AvailableCommands (commands : list SlashCommand)
| AE_Error (message : string)
| AE_InputRequested (request_id : string) (questions : list UserInputQuestion)
| AE_InputResolved (request_id : string)
| AE_Steered (assistant_message_id next_assistant_message_id : option string)
| AE_Done (status : DoneStatus) (result error session_id : option string).

(** * What a receipt may contain *)

(** The trust boundary a persisted receipt respects. *)
Definition public_text_ok (max_chars : nat) (s : string) : Prop :=
  chars_count s <= max_chars
  /\ Forall (fun g => char_is_control g = false) (chars s)
  /\ Forall (fun needle => contains needle (to_ascii_lowercase s) = false) secret_needles.
Definition public_id_ok (s : string) : Prop :=
  String.length s <= 64 /\ Forall (fun g => bounded_id_char g = true) (chars s).
Definition unit_interval_ok (x : option f64) : Prop :=
  from_option (fun x => f64_is_finite x = true /\ f64_leb f64_zero x = true /\ f64_leb x f64_one = true) True x.

Record receipt_ok (e : DecisionEvent) : Prop := {
  rok_version : de_schema_version e = DECISION_EVENT_SCHEMA_VERSION;
  rok_id : public_id_ok (de_id e);
  rok_count : length (de_candidates e) <= DECISION_EVENT_MAX_CANDIDATES;
  rok_candidates : Forall (fun c => public_id_ok (cand_id c) /\ public_text_ok 96 (cand_summary c)) (de_candidates e);
  rok_result : match de_result e with Selected id => public_id_ok id | Abstained => True end;
  rok_units : Forall unit_interval_ok [de_confidence e; de_selected_probability e; de_fit e];
  rok_fallback : from_option (fun s => s <> EmptyString /\ public_text_ok 160 s) True (de_fallback e);
  rok_outcome : from_option (fun s => s <> EmptyString /\ public_text_ok 240 s) True (de_observed_outcome e);
}.

(** The texts of an event are Rust strings: none starts in the middle of a character. *)
Definition event_texts_wf (e : DecisionEvent) : Prop :=
  Forall (fun c => head_continuation (cand_summary c) = false) (de_candidates e)
  /\ from_option (fun s => head_continuation s = false) True (de_fallback e)
  /\ from_option (fun s => head_continuation s = false) True (de_observed_outcome e).

Lemma bounded_id_char_single g : bounded_id_char g = true -> char_wf g /\ String.length g = 1.
Proof.
  unfold bounded_id_char, char_is_ascii_alphanumeric. rewrite orb_true_iff, bool_decide_eq_true. intros [H|H].
  - destruct g as [|c [|]]; try done. split; [|done]. split; [|done].
    unfold ascii_is_alphanumeric in H. unfold is_continuation. cbv zeta in H.
    rewrite !orb_true_iff, !andb_true_iff, !Nat.leb_le in H.
    apply andb_false_iff. left. apply Nat.leb_gt. lia.
  - repeat (apply elem_of_cons in H as [->|H]; [split; [by split|done]|]). by apply elem_of_nil in H.
Qed.

Lemma concat_strings_length_singles l :
  Forall (fun g => String.length g = 1) l -> String.length (concat_strings l) = length l.
Proof. induction 1 as [|g l Hg _ IH]; [done|]. simpl. rewrite str_length_app, Hg, IH. done. Qed.

Lemma bounded_id_ok s : public_id_ok (bounded_id s).
Proof.
  unfold bounded_id. set (l := take 64 _).
  assert (Hl : Forall (fun g => bounded_id_char g = true) l).
  { apply Forall_take, Forall_forall. intros g [Hg _]%list_elem_of_filter. done. }
  assert (Hc : chars (concat_strings l) = l).
  { apply chars_concat. eapply Forall_impl; [exact Hl|]. intros g Hg. by apply bounded_id_char_single. }
  split; [|by rewrite Hc]. rewrite concat_strings_length_singles.
  - subst l. rewrite length_take. lia.
  - eapply Forall_impl; [exact Hl|]. intros g Hg. by apply bounded_id_char_single.
Qed.

(** Ids that already respect the bound are kept. *)
Lemma bounded_id_fixed s : public_id_ok s -> bounded_id s = s.
Proof.
  intros [Hlen Hs]. unfold bounded_id.
  assert (Hf : base.filter (fun g => bounded_id_char g = true) (chars s) = chars s).
  { induction Hs as [|g l Hg _ IH]; [done|]. rewrite filter_cons_True by done. by rewrite IH. }
  rewrite Hf, firstn_all2, concat_chars; [done|].
  rewrite <- (concat_chars s), concat_strings_length_singles in Hlen; [done|].
  eapply Forall_impl; [exact Hs|]. intros g Hg. by apply bounded_id_char_single.
Qed.

(** Text given by a list of good characters. *)
Definition spelled (P : string -> Prop) (s : string) : Prop :=
  exists l, s = concat_strings l /\ Forall char_wf l /\ Forall P l.

Lemma spelled_app P s t : spelled P s -> spelled P t -> spelled P (s +:+ t).
Proof.
  intros (l & -> & Hw & HP) (m & -> & Hw' & HP'). exists (l ++ m).
  rewrite concat_strings_app. split; [done|]. by split; apply Forall_app.
Qed.

Lemma split_ws_aux_spelled P cur l :
  Forall char_wf cur -> Forall P cur -> Forall char_wf l -> Forall P l ->
  Forall (spelled P) (split_ws_aux cur l).
Proof.
  assert (Hone : forall cur, Forall char_wf cur -> Forall P cur -> spelled P (concat_strings (reverse cur))).
  { intros c H1 H2. exists (reverse c). split; [done|]. by split; apply Forall_reverse. }
  intros Hcw Hcp Hw. revert cur Hcw Hcp. induction Hw as [|g l Hg Hw IH]; intros cur Hcw Hcp HP; simpl.
  { destruct cur; repeat constructor; auto. }
  apply Forall_cons in HP as [HPg HP].
  destruct (char_is_whitespace g); [|by apply IH; [constructor|constructor|]].
  destruct cur; [by apply IH|]. constructor; [auto|]. by apply IH.
Qed.

Lemma join_spelled P sep l : spelled P sep -> Forall (spelled P) l -> spelled P (join sep l).
Proof.
  intros Hsep. induction 1 as [|s l Hs Hl IH]; [by exists []|].
  destruct l as [|t l]; [done|]. simpl in *. by repeat apply spelled_app.
Qed.

Lemma no_needle_prefix needle s t :
  contains needle (to_ascii_lowercase (s +:+ t)) = false -> contains needle (to_ascii_lowercase s) = false.
Proof.
  intros H. destruct (contains needle (to_ascii_lowercase s)) eqn:E; [|done].
  apply contains_spec in E as (a & b & E). rewrite to_ascii_lowercase_app, E in H. rewrite <- H. symmetry.
  apply contains_spec. exists a, (b +:+ to_ascii_lowercase t). by rewrite <- !str_app_assoc.
Qed.

Lemma Forall_of_forallb {A} (f : A -> bool) (l : list A) :
  forallb f l = true -> Forall (fun x => f x = true) l.
Proof. intros H. apply Forall_forall. intros x Hx%list_elem_of_In. by eapply forallb_forall in H. Qed.

Lemma redacted_ok n : 10 <= n -> public_text_ok n "[redacted]".
Proof.
  intros Hn. split_and!.
  - by transitivity 10.
  - apply (Forall_impl (fun g => negb (char_is_control g) = true)); [by apply Forall_of_forallb|].
    intros g. apply negb_true_iff.
  - apply (Forall_impl (fun d => negb (contains d (to_ascii_lowercase "[redacted]")) = true)); [by apply Forall_of_forallb|].
    intros g. apply negb_true_iff.
Qed.

Lemma bounded_public_text_ok s n :
  head_continuation s = false -> 10 <= n -> public_text_ok n (bounded_public_text s n).
Proof.
  intros Hs Hn. unfold bounded_public_text. cbv zeta.
  set (spaced := concat_strings _). set (single := join _ _).
  destruct (existsb _ _) eqn:E.
  { by apply redacted_ok. }
  assert (Hsp : spelled (fun g => char_is_control g = false) spaced).
  { exists ((fun g => if char_is_control g then " "%string else g) <$> chars s). split; [done|].
    split; apply Forall_fmap, Forall_forall; intros g Hg; simpl; destruct (char_is_control g) eqn:Hc; try done.
    by eapply Forall_forall in Hg; [|apply chars_wf]. }
  assert (Hsi : spelled (fun g => char_is_control g = false) single).
  { apply join_spelled; [by exists [" "%string]; repeat constructor|].
    destruct Hsp as (l & Hl & Hw & HP). unfold split_whitespace. rewrite Hl, chars_concat by done.
    by apply split_ws_aux_spelled. }
  destruct Hsi as (l & Hl & Hw & HP). split_and!.
  - apply chars_count_take.
  - rewrite chars_take_chars by (rewrite Hl; by apply head_continuation_concat).
    rewrite Hl, (chars_concat l) by done. rewrite chars_concat by (by apply Forall_take). by apply Forall_take.
  - apply Forall_forall. intros needle Hin. destruct (chars_take_prefix n single) as (t & Ht).
    apply no_needle_prefix with t. rewrite <- Ht.
    destruct (contains needle (to_ascii_lowercase single)) eqn:E'; [|done].
    rewrite <- E. symmetry. apply existsb_exists. exists needle. split; [by apply list_elem_of_In|done].
Qed.

Lemma bounded_unit_ok x : unit_interval_ok (bounded_unit x).
Proof.
  destruct x as [x|]; simpl; [|done]. destruct (f64_is_finite x) eqn:E; simpl; [|done].
  by apply f64_clamp_bounds.
Qed.

Lemma bounded_text_ok n x :
  10 <= n -> from_option (fun s => head_continuation s = false) True x ->
  from_option (fun s => s <> EmptyString /\ public_text_ok n s) True (bounded_text n x).
Proof.
  intros Hn Hx. destruct x as [x|]; simpl in *; [|done]. case_decide; simpl; [done|].
  split; [done|]. by apply bounded_public_text_ok.
Qed.

(** [DecisionEvent::bounded] is a trust boundary: whatever an event holds
    when it comes in, the receipt that enters a transcript has the current
    schema version, at most sixteen candidates, ids of at most sixty-four
    characters of the safe alphabet, one-line texts within their limits that
    contain none of the secret needles in any letter case, and probabilities
    that are finite numbers of the unit interval; the fields that identify the
    decision are not changed, and ids that were already safe are kept. *)
Theorem bounded_receipt_ok e :
  event_texts_wf e ->
  receipt_ok (bounded e)
  /\ de_task_revision (bounded e) = de_task_revision e /\ de_backend (bounded e) = de_backend e
  /\ de_stage (bounded e) = de_stage e /\ de_validation (bounded e) = de_validation e
  /\ de_created_at (bounded e) = de_created_at e
  /\ (public_id_ok (de_id e) -> de_id (bounded e) = de_id e).
Proof.
  intros (Hc & Hf & Ho). split; [|split_and!; try done; apply bounded_id_fixed].
  split; simpl.
  - done.
  - apply bounded_id_ok.
  - rewrite length_fmap, length_take. lia.
  - apply Forall_fmap, Forall_take. eapply Forall_impl; [exact Hc|]. intros c Hcc. simpl.
    split; [apply bounded_id_ok|]. apply bounded_public_text_ok; [done|lia].
  - destruct (de_result e); [apply bounded_id_ok|done].
  - repeat constructor; apply bounded_unit_ok.
  - apply bounded_text_ok; [lia|done].
  - apply bounded_text_ok; [lia|done].
Qed.

Lemma bounded_receipt_ok_witness :
  let e := mk_decision_event 7 "step/1 #2" 3 Jev DSt_PreStep
             [mk_candidate "inspect" "Inspect  the repo"; mk_candidate "leak" "uses Bearer abc"]
             (Selected "inspect") DV_Accepted (Some f64_one) (Some S754_nan) None (Some "   "%string) (Some "3 reads"%string) 9 in
  receipt_ok (bounded e) /\ de_id (bounded e) = "step12"%string
  /\ (cand_summary <$> de_candidates (bounded e)) = ["Inspect the repo"; "[redacted]"]%string.
Proof.
  intros e. split; [|by vm_compute].
  apply (bounded_receipt_ok e). split_and!; [by repeat constructor|done|done].
Defined.
