(* ===== verification/Parts.v ===== *)
(** Message parts of the transcript: [crates/doc/src/parts.rs].

    The event fold that turns a harness's event stream into rendered parts, the
    render-only privacy policy, the sidecar references, and the splitting of an
    oversized entry into continuations.  [serde_json::to_vec] and the line diff
    of the [similar] crate are parameters: only the lengths and the counts they
    return are used. *)
From Stdlib Require Import ZArith Lia Ascii String.
From stdpp Require Import base tactics numbers list strings pretty sets gmap.
From S2P Require Import Prelude Json Text Proto.

(** * Data *)

Inductive MessageStatus := MSt_Streaming | MSt_Complete | MSt_Aborted.
#[export] Instance MessageStatus_eq_dec : EqDecision MessageStatus.
Proof. solve_decision. Defined.

Record ToolDiffStat := mk_diff_stat { ds_path : string; ds_additions : Z; ds_deletions : Z }.
#[export] Instance ToolDiffStat_eq_dec : EqDecision ToolDiffStat.
Proof. solve_decision. Defined.

(** The fields of [MessagePart::Tool]. *)
Record ToolPart := mk_tool_part {
  tp_id : string;
  tp_call : ToolCall;
  tp_is_error : bool;
  tp_resolved : bool;
  tp_output : option string;
  tp_diff : option ToolDiff;
  tp_output_ref : option string;
  tp_output_bytes : option Z;
  tp_diff_ref : option string;
  tp_diff_stats : option (list ToolDiffStat);
}.

Inductive MessagePart :=
| MP_Text (id text : string)
| MP_Tool (tool : ToolPart)
| MP_Input (id request_id : string) (questions : list UserInputQuestion) (resolved : bool)
| MP_Error (id message : string)
| MP_Decision (id : string) (event : DecisionEvent).

Definition part_id (p : MessagePart) : string :=
  match p with
  | MP_Text id _ | MP_Input id _ _ _ | MP_Error id _ | MP_Decision id _ => id
  | MP_Tool t => tp_id t
  end.

(** [PartialEq]. *)
Definition tool_part_eqb (a b : ToolPart) : bool :=
  bool_decide (tp_id a = tp_id b) && tool_call_eqb (tp_call a) (tp_call b)
  && bool_decide (tp_is_error a = tp_is_error b) && bool_decide (tp_resolved a = tp_resolved b)
  && bool_decide (tp_output a = tp_output b) && bool_decide (tp_diff a = tp_diff b)
  && bool_decide (tp_output_ref a = tp_output_ref b) && bool_decide (tp_output_bytes a = tp_output_bytes b)
  && bool_decide (tp_diff_ref a = tp_diff_ref b) && bool_decide (tp_diff_stats a = tp_diff_stats b).
Definition part_eqb (a b : MessagePart) : bool :=
  match a, b with
  | MP_Text i1 t1, MP_Text i2 t2 => bool_decide (i1 = i2) && bool_decide (t1 = t2)
  | MP_Tool t1, MP_Tool t2 => tool_part_eqb t1 t2
  | MP_Input i1 r1 q1 b1, MP_Input i2 r2 q2 b2 =>
      bool_decide (i1 = i2) && bool_decide (r1 = r2) && bool_decide (q1 = q2) && bool_decide (b1 = b2)
  | MP_Error i1 m1, MP_Error i2 m2 => bool_decide (i1 = i2) && bool_decide (m1 = m2)
  | MP_Decision i1 e1, MP_Decision i2 e2 => bool_decide (i1 = i2) && decision_event_eqb e1 e2
  | _, _ => false
  end.

(** * Tool outputs *)

Definition TOOL_OUTPUT_SUMMARY_MAX : nat := 160.
Definition ellipsis : string :=
  String (ascii_of_nat 226) (String (ascii_of_nat 128) (String (ascii_of_nat 166) EmptyString)).
Definition newline_str : string := String newline EmptyString.

Definition summarize_tool_output (text : string) : option string :=
  let kept := base.filter (fun l => starts_with "```" (trim_start l) = false) (lines text) in
  let stripped := trim (join newline_str kept) in
  if decide (stripped = EmptyString) then None
  else if chars_count stripped <=? TOOL_OUTPUT_SUMMARY_MAX then Some stripped
  else
    let line := trim_end (default stripped (List.find (fun l => negb (bool_decide (trim l = EmptyString))) (lines stripped))) in
    Some (chars_take TOOL_OUTPUT_SUMMARY_MAX line +:+ ellipsis).

(** Render-only privacy policy. *)
Definition sanitize_tool_call (call : ToolCall) : ToolCall :=
  match call with
  | TC_WriteFile path _ => TC_WriteFile path None
  | TC_EditFile path _ _ => TC_EditFile path None None
  | TC_WebFetch url _ => TC_WebFetch url None
  | TC_Mcp server tool _ => TC_Mcp server tool None
  | TC_Unknown name _ => TC_Unknown name None
  | other => other
  end.

(** * The event fold *)

(** [iter_mut().find_map(..)] followed by an assignment: the first element [p]
    holds of is replaced; [None] when there is none. *)
Fixpoint update_first {A} (p : A -> bool) (f : A -> A) (l : list A) : option (list A) :=
  match l with
  | [] => None
  | x :: l' => if p x then Some (f x :: l') else cons x <$> update_first p f l'
  end.

Definition is_tool_id (id : string) (p : MessagePart) : bool :=
  match p with MP_Tool t => bool_decide (tp_id t = id) | _ => false end.
Definition is_decision_id (id : string) (p : MessagePart) : bool :=
  match p with MP_Decision i _ => bool_decide (i = id) | _ => false end.
Definition set_tool_call (call : ToolCall) (p : MessagePart) : MessagePart :=
  match p with
  | MP_Tool t => MP_Tool (mk_tool_part (tp_id t) call (tp_is_error t) (tp_resolved t) (tp_output t) (tp_diff t)
                    (tp_output_ref t) (tp_output_bytes t) (tp_diff_ref t) (tp_diff_stats t))
  | _ => p
  end.
Definition set_decision (event : DecisionEvent) (p : MessagePart) : MessagePart :=
  match p with MP_Decision i _ => MP_Decision i event | _ => p end.
Definition new_tool_part (id : string) (call : ToolCall) : MessagePart :=
  MP_Tool (mk_tool_part id call false false None None None None None None).

(** Append to the trailing text part. *)
Fixpoint append_tail_text (text : string) (out : list MessagePart) : option (list MessagePart) :=
  match out with
  | [] => None
  | [MP_Text id tail] => Some [MP_Text id (tail +:+ text)]
  | p :: out' => cons p <$> append_tail_text text out'
  end.

Section fold.
(** Insertions and deletions of [similar::TextDiff::from_lines(old, new)]. *)
Context (text_diff : string -> string -> Z * Z).

Definition diff_stat (diff : ToolDiff) : ToolDiffStat :=
  let '(additions, deletions) :=
    match td_old_text diff with
    | None => (Z.of_nat (length (lines (td_new_text diff))), 0%Z)
    | Some old => text_diff old (td_new_text diff)
    end in
  mk_diff_stat (td_path diff) additions deletions.

Definition resolve_tool (id : string) (is_error : bool) (diff : option ToolDiff) (p : MessagePart) : MessagePart :=
  match p with
  | MP_Tool t =>
      if decide (tp_id t = id)
      then MP_Tool (mk_tool_part (tp_id t) (tp_call t) is_error true None None (tp_output_ref t) None (tp_diff_ref t)
                     ((fun d => [diff_stat d]) <$> diff))
      else p
  | _ => p
  end.
Definition resolve_input (request_id : string) (p : MessagePart) : MessagePart :=
  match p with
  | MP_Input id rid questions _ => if decide (rid = request_id) then MP_Input id rid questions true else p
  | _ => p
  end.

Definition fold_event_into_parts (out : list MessagePart) (event : AgentEvent) : list MessagePart :=
  match event with
  | AE_SessionStarted _ _ _ _ _ _ | AE_Steered _ _ => []
  | AE_TextDelta text =>
      match append_tail_text text out with
      | Some out' => out'
      | None => out ++ [MP_Text ("t" +:+ pretty (length out)) text]
      end
  | AE_ReasoningDelta _ => out
  | AE_Decision event =>
      let event := bounded event in
      let id := "decision-" +:+ de_id event in
      match update_first (is_decision_id id) (set_decision event) out with
      | Some out' => out'
      | None => out ++ [MP_Decision id event]
      end
  | AE_ToolCall id call =>
      match update_first (is_tool_id id) (set_tool_call call) out with
      | Some out' => out'
      | None => out ++ [new_tool_part id call]
      end
  | AE_ToolResult id is_error output diff => resolve_tool id is_error diff <$> out
  | AE_InputRequested request_id questions =>
      let id := "in-" +:+ request_id in
      if existsb (fun p => bool_decide (part_id p = id)) out then out
      else out ++ [MP_Input id request_id questions false]
  | AE_InputResolved request_id => resolve_input request_id <$> out
  | AE_Error message => out ++ [MP_Error ("e" +:+ pretty (length out)) message]
  | AE_Done _ _ error _ =>
      match error with
      | Some message => out ++ [MP_Error ("e" +:+ pretty (length out)) message]
      | None => out
      end
  | AE_AssistantMessageCompleted _ | AE_DecisionActivity _ | AE_Usage _ _ | AE_AvailableCommands _ => out
  end.

Definition fold_events (out : list MessagePart) (events : list AgentEvent) : list MessagePart :=
  foldl fold_event_into_parts out events.
End fold.

(** * Sidecar references *)

Definition stamp_refs (chat_id : string) (p : MessagePart) : MessagePart :=
  match p with
  | MP_Tool t =>
      if tp_resolved t then
        let output_ref :=
          match tp_output_ref t, tp_output_bytes t with
          | None, Some _ => Some (chat_id +:+ "/" +:+ tp_id t)
          | r, _ => r
          end in
        let diff_ref :=
          match tp_diff_ref t, tp_diff_stats t with
          | None, Some _ => Some (chat_id +:+ "/" +:+ tp_id t +:+ ".diff")
          | r, _ => r
          end in
        MP_Tool (mk_tool_part (tp_id t) (tp_call t) (tp_is_error t) (tp_resolved t) (tp_output t) (tp_diff t)
          output_ref (tp_output_bytes t) diff_ref (tp_diff_stats t))
      else p
  | _ => p
  end.
Definition apply_sidecar_refs (chat_id : string) (parts : list MessagePart) : list MessagePart :=
  stamp_refs chat_id <$> parts.

Record SidecarPayload := mk_sidecar { sc_part_id : string; sc_output : option string; sc_diff : option ToolDiff }.
Definition sidecar_payload (event : AgentEvent) : option SidecarPayload :=
  match event with
  | AE_ToolResult id _ output diff =>
      let output := match output with
                    | Some o => if decide (trim o = EmptyString) then None else Some o
                    | None => None
                    end in
      match output, diff with
      | None, None => None
      | _, _ => Some (mk_sidecar id output diff)
      end
  | _ => None
  end.

(** * Continuations *)

Definition MSG_INLINE_MAX : nat := N.to_nat 262144.

Definition continuation_id (root : string) (index : nat) : string := root +:+ "#c" +:+ pretty index.

(** The inner [while end < text.len() && !text.is_char_boundary(end) { end -= 1 }]. *)
Fixpoint back_to_boundary (text : string) (e : nat) : nat :=
  if (e <? String.length text) && negb (is_char_boundary text e)
  then match e with O => O | S e' => back_to_boundary text e' end
  else e.

Definition piece_end (max : nat) (text : string) (start : nat) : nat :=
  let e := back_to_boundary text ((start + max) `min` String.length text) in
  if e <=? start then String.length text else e.

(** The pieces of an oversized text part; [fuel] bounds the [while] loop. *)
Fixpoint text_pieces (fuel max : nat) (id text : string) (start piece : nat) : list MessagePart :=
  match fuel with
  | O => []
  | S fuel =>
      if start <? String.length text then
        let e := piece_end max text start in
        MP_Text (if piece =? 0 then id else id +:+ "~" +:+ pretty piece) (str_take (e - start) (str_drop start text))
          :: text_pieces fuel max id text e (S piece)
      else []
  end.

Section split.
(** [serde_json::to_vec(..).map_or(0, |v| v.len())]. *)
Context (call_len : ToolCall -> nat) (diff_len : ToolDiff -> nat) (stats_len : list ToolDiffStat -> nat)
  (questions_len : list UserInputQuestion -> nat) (event_len : DecisionEvent -> nat).

Definition byte_len (p : MessagePart) : nat :=
  match p with
  | MP_Text _ text => String.length text
  | MP_Tool t =>
      call_len (tp_call t) + from_option String.length 0 (tp_output t) + from_option diff_len 0 (tp_diff t)
      + from_option stats_len 0 (tp_diff_stats t)
  | MP_Input _ _ questions _ => questions_len questions
  | MP_Error _ message => String.length message
  | MP_Decision _ event => event_len event
  end.

(** [chunks] without its last element, the last element, and [current_bytes]. *)
Record SplitState := mk_split { sp_done : list (list MessagePart); sp_last : list MessagePart; sp_bytes : nat }.

Definition push_part (max : nat) (s : SplitState) (part : MessagePart) : SplitState :=
  let len := byte_len part in
  let s := if (0 <? sp_bytes s) && (max <? sp_bytes s + len)
           then mk_split (sp_done s ++ [sp_last s]) [] 0
           else s in
  mk_split (sp_done s) (sp_last s ++ [part]) (sp_bytes s + len).

(** The parts [split_parts] pushes for one part of the entry. *)
Definition split_one (max : nat) (part : MessagePart) : list MessagePart :=
  match part with
  | MP_Text id text =>
      if max <? String.length text then text_pieces (String.length text) max id text 0 0 else [part]
  | _ => [part]
  end.

Definition split_with (max : nat) (parts : list MessagePart) : list (list MessagePart) :=
  let s := foldl (fun s part => foldl (push_part max) s (split_one max part)) (mk_split [] [] 0) parts in
  sp_done s ++ [sp_last s].
Definition split_parts (parts : list MessagePart) : list (list MessagePart) := split_with MSG_INLINE_MAX parts.
End split.

Definition join_continuations (entries : list (list MessagePart)) : list MessagePart := concat entries.

(** * The fold keeps the transcript well-formed *)

Lemma update_first_spec {A} (p : A -> bool) f (l : list A) :
  match update_first p f l with
  | Some l' => exists l1 x l2, l = l1 ++ x :: l2 /\ p x = true /\ (forall y, y ∈ l1 -> p y = false) /\ l' = l1 ++ f x :: l2
  | None => forall y, y ∈ l -> p y = false
  end.
Proof.
  induction l as [|x l IH]; simpl; [set_solver|].
  destruct (p x) eqn:Hx.
  { exists [], x, l. split_and!; try done. set_solver. }
  destruct (update_first p f l) as [l'|]; simpl.
  - destruct IH as (l1 & y & l2 & -> & Hy & Hl1 & ->). exists (x :: l1), y, l2. split_and!; try done. set_solver.
  - set_solver.
Qed.

Lemma append_tail_text_spec text out :
  match append_tail_text text out with
  | Some out' => exists l id tail, out = l ++ [MP_Text id tail] /\ out' = l ++ [MP_Text id (tail +:+ text)]
  | None => forall l id tail, out <> l ++ [MP_Text id tail]
  end.
Proof.
  induction out as [|p out IH]; simpl; [intros [] ? ?; discriminate|].
  destruct out as [|q out].
  { destruct p; simpl; try (intros [|? []] ? ?; discriminate). by exists [], id, text0. }
  set (r := append_tail_text text (q :: out)) in *.
  replace (match p with MP_Text _ _ => _ | _ => _ end) with (cons p <$> r) by (by destruct p).
  destruct r as [out'|]; simpl.
  - destruct IH as (l & id & tail & E1 & ->). exists (p :: l), id, tail. by rewrite E1.
  - intros [|p' l] id tail [= -> E1]. by apply (IH l id tail).
Qed.

(** What every part of a folded transcript looks like at its position: text and
    error ids are positional, tool parts carry no output and no inline diff,
    receipts are bounded. *)
Definition part_ok (i : nat) (p : MessagePart) : Prop :=
  match p with
  | MP_Text id _ => id = "t" +:+ pretty i
  | MP_Error id _ => id = "e" +:+ pretty i
  | MP_Tool t =>
      tp_output t = None /\ tp_diff t = None /\ tp_output_bytes t = None
      /\ tp_output_ref t = None /\ tp_diff_ref t = None
      /\ (tp_resolved t = false -> tp_is_error t = false /\ tp_diff_stats t = None)
  | MP_Input id request_id _ _ => id = "in-" +:+ request_id
  | MP_Decision id event => id = "decision-" +:+ de_id event /\ exists e, event = bounded e
  end.
(** The identity under which an event finds the part again. *)
Definition part_key (p : MessagePart) : option (nat * string) :=
  match p with
  | MP_Tool t => Some (0, tp_id t)
  | MP_Input id _ _ _ => Some (1, id)
  | MP_Decision id _ => Some (2, id)
  | _ => None
  end.
Definition is_text (p : MessagePart) : bool := match p with MP_Text _ _ => true | _ => false end.

Record parts_wf (out : list MessagePart) : Prop := {
  pwf_ok : forall i p, out !! i = Some p -> part_ok i p;
  pwf_keys : NoDup (omap part_key out);
  pwf_merged : forall i p q, out !! i = Some p -> out !! S i = Some q -> is_text p && is_text q = false;
}.

Lemma parts_wf_nil : parts_wf [].
Proof. split; [by intros [] ?|constructor|by intros [] ?]. Qed.

(** Rewriting parts in place with a function that keeps what identifies them. *)
Definition in_place (g : MessagePart -> MessagePart) (p q : MessagePart) : Prop := q = p \/ q = g p.

Lemma parts_wf_in_place g out out' :
  (forall i p, part_ok i p -> part_ok i (g p)) -> (forall p, part_key (g p) = part_key p) ->
  (forall p, is_text (g p) = is_text p) -> Forall2 (in_place g) out out' -> parts_wf out -> parts_wf out'.
Proof.
  intros Hok Hkey Htext H2 [W1 W2 W3].
  assert (Hl : forall i q, out' !! i = Some q -> exists p, out !! i = Some p /\ in_place g p q).
  { intros i q Hq. eapply Forall2_lookup_r in H2 as (p & Hp & Hpq); [|done]. eauto. }
  split.
  - intros i q (p & Hp & [->| ->])%Hl; auto.
  - assert (E : omap part_key out' = omap part_key out); [|by rewrite E]. clear -H2 Hkey.
    induction H2 as [|p q out out' [->| ->] _ IH]; [done| |]; rewrite !list_omap_cons, ?Hkey, IH; done.
  - intros i p' q' (p & Hp & Hpp)%Hl (q & Hq & Hqq)%Hl. specialize (W3 i p q Hp Hq).
    replace (is_text p') with (is_text p); [replace (is_text q') with (is_text q); [done|]|].
    + by destruct Hqq as [->| ->].
    + by destruct Hpp as [->| ->].
Qed.

Lemma Forall2_in_place_fmap g out : Forall2 (in_place g) out (g <$> out).
Proof. induction out; simpl; constructor; [by right|done]. Qed.

Lemma Forall2_in_place_refl g out : Forall2 (in_place g) out out.
Proof. induction out; constructor; [by left|done]. Qed.

Lemma update_first_in_place p g out out' :
  update_first p g out = Some out' -> Forall2 (in_place (fun x => if p x then g x else x)) out out'.
Proof.
  intros E. pose proof (update_first_spec p g out) as H. rewrite E in H.
  destruct H as (l1 & x & l2 & -> & Hx & _ & ->).
  apply Forall2_app; [apply Forall2_in_place_refl|]. constructor; [right; by rewrite Hx|apply Forall2_in_place_refl].
Qed.

Lemma parts_wf_push out p :
  parts_wf out -> part_ok (length out) p ->
  (forall k, part_key p = Some k -> k ∉ omap part_key out) ->
  (forall q, last out = Some q -> is_text q && is_text p = false) -> parts_wf (out ++ [p]).
Proof.
  intros [W1 W2 W3] Hok Hkey Hlast. split.
  - intros i q [Hi|[-> ->]]%lookup_snoc_Some; [|done]. destruct Hi as [_ Hi]. auto.
  - rewrite omap_app. simpl. destruct (part_key p) as [k|] eqn:E; [|by rewrite app_nil_r].
    apply NoDup_app. split_and!; [done| |repeat constructor; set_solver].
    intros k' Hk' ->%list_elem_of_singleton. by apply (Hkey k).
  - intros i q r [[Hi Hq]|[Hi ->]]%lookup_snoc_Some [[Hj Hr]|[Hj ->]]%lookup_snoc_Some; try lia; [by eauto|].
    apply Hlast. rewrite last_lookup, <- Hj. done.
Qed.

Lemma part_key_elem (out : list MessagePart) k :
  k ∈ omap part_key out <-> exists p, p ∈ out /\ part_key p = Some k.
Proof. apply list_elem_of_omap. Qed.

Section fold_wf.
Context (text_diff : string -> string -> Z * Z).
Local Abbreviation fold_event := (fold_event_into_parts text_diff).
Local Abbreviation fold_all := (fold_events text_diff).

Lemma fold_event_wf out event : parts_wf out -> parts_wf (fold_event out event).
Proof.
  intros W. destruct event; simpl; try done; try apply parts_wf_nil.
  - pose proof (append_tail_text_spec text out) as H. destruct (append_tail_text text out) as [out'|].
    + destruct H as (l & id & tail & -> & ->).
      eapply (parts_wf_in_place (fun p => match p with MP_Text i t => MP_Text i (t +:+ text) | _ => p end)); [..|exact W].
      * by intros i [].
      * by intros [].
      * by intros [].
      * apply Forall2_app; [apply Forall2_in_place_refl|]. constructor; [by right|constructor].
    + apply parts_wf_push; [done|done|done|]. intros [] Hq; try done.
      apply last_Some in Hq as (l & ->). by destruct (H l id text0).
  - pose proof (update_first_spec (is_decision_id ("decision-" +:+ de_id (bounded event)))
      (set_decision (bounded event)) out) as H.
    destruct (update_first _ _ out) as [out'|] eqn:E.
    + eapply parts_wf_in_place; [..|exact (update_first_in_place _ _ _ _ E)|exact W].
      * intros i p Hp. cbv beta. set (did := "decision-" +:+ de_id (bounded event)).
        destruct (is_decision_id did p) eqn:Hd; [|done]. destruct p; try done.
        apply bool_decide_eq_true in Hd as ->. simpl. eauto.
      * intros p. cbv beta. case (is_decision_id _ p); by destruct p.
      * intros p. cbv beta. case (is_decision_id _ p); by destruct p.
    + apply parts_wf_push; [done|simpl; eauto| |by intros []].
      intros k [= <-] (p & Hp & Hk)%part_key_elem. apply H in Hp.
      destruct p; try done. injection Hk as Hk. simpl in Hp. by apply bool_decide_eq_false in Hp.
  - pose proof (update_first_spec (is_tool_id id) (set_tool_call call) out) as H.
    destruct (update_first _ _ out) as [out'|] eqn:E.
    + eapply parts_wf_in_place; [..|exact (update_first_in_place _ _ _ _ E)|exact W];
        intros *; cbv beta; case (is_tool_id _ p); by destruct p.
    + apply parts_wf_push; [done|by simpl| |by intros []].
      intros k [= <-] (p & Hp & Hk)%part_key_elem. apply H in Hp.
      destruct p; try done. injection Hk as Hk. simpl in Hp. by apply bool_decide_eq_false in Hp.
  - eapply (parts_wf_in_place (resolve_tool text_diff id is_error diff)); [..|apply Forall2_in_place_fmap|exact W].
    + intros i [] Hp; simpl in *; try done. case_decide; [|done]. simpl. naive_solver.
    + intros []; simpl; try done. by case_decide.
    + intros []; simpl; try done. by case_decide.
  - apply parts_wf_push; [done|done|done|by intros []].
  - destruct (existsb _ out) eqn:E; [done|]. apply parts_wf_push; [done|done| |by intros []].
    intros k [= <-] (p & Hp & Hk)%part_key_elem.
    assert (existsb (fun p => bool_decide (part_id p = "in-" +:+ request_id)) out = true); [|congruence].
    apply existsb_exists. exists p. split; [by apply list_elem_of_In|]. apply bool_decide_eq_true.
    by destruct p; try done; injection Hk as Hk.
  - eapply (parts_wf_in_place (resolve_input request_id)); [..|apply Forall2_in_place_fmap|exact W].
    + intros i [] Hp; simpl in *; try done. by case_decide.
    + intros []; simpl; try done. by case_decide.
    + intros []; simpl; try done. by case_decide.
  - destruct error; [|done]. apply parts_wf_push; [done|done|done|by intros []].
Qed.

(** The rendered text, and the text the stream carried since the last turn boundary. *)
Definition text_of (p : MessagePart) : option string := match p with MP_Text _ t => Some t | _ => None end.
Definition rendered_text (out : list MessagePart) : string := concat_strings (omap text_of out).
Definition streamed_text (acc : string) (event : AgentEvent) : string :=
  match event with
  | AE_SessionStarted _ _ _ _ _ _ | AE_Steered _ _ => EmptyString
  | AE_TextDelta text => acc +:+ text
  | _ => acc
  end.

Lemma rendered_text_app l1 l2 : rendered_text (l1 ++ l2) = rendered_text l1 +:+ rendered_text l2.
Proof. unfold rendered_text. by rewrite omap_app, concat_strings_app. Qed.

Lemma rendered_text_snoc l p : rendered_text (l ++ [p]) = rendered_text l +:+ default EmptyString (text_of p).
Proof.
  rewrite rendered_text_app. f_equal. unfold rendered_text. rewrite list_omap_cons.
  destruct (text_of p); simpl; [apply str_app_nil_r|done].
Qed.

Lemma rendered_text_in_place g out out' :
  (forall p, text_of (g p) = text_of p) -> Forall2 (in_place g) out out' -> rendered_text out' = rendered_text out.
Proof.
  intros Hg H. unfold rendered_text. f_equal.
  induction H as [|p q out out' [->| ->] _ IH]; [done| |]; rewrite !list_omap_cons, ?Hg; by destruct (text_of p); simpl; rewrite ?IH.
Qed.

Lemma fold_event_text out event :
  rendered_text (fold_event out event) = streamed_text (rendered_text out) event.
Proof.
  destruct event; simpl; try done.
  - pose proof (append_tail_text_spec text out) as H. destruct (append_tail_text text out) as [out'|].
    + destruct H as (l & id & tail & -> & ->). rewrite !rendered_text_snoc. simpl. by rewrite str_app_assoc.
    + by rewrite rendered_text_snoc.
  - destruct (update_first _ _ out) as [out'|] eqn:E.
    + eapply rendered_text_in_place; [|exact (update_first_in_place _ _ _ _ E)].
      intros p. cbv beta. case (is_decision_id _ p); by destruct p.
    + rewrite rendered_text_snoc. apply str_app_nil_r.
  - destruct (update_first _ _ out) as [out'|] eqn:E.
    + eapply rendered_text_in_place; [|exact (update_first_in_place _ _ _ _ E)].
      intros p. cbv beta. case (is_tool_id _ p); by destruct p.
    + rewrite rendered_text_snoc. apply str_app_nil_r.
  - apply (rendered_text_in_place (resolve_tool text_diff id is_error diff)), Forall2_in_place_fmap.
    intros []; simpl; try done. by case_decide.
  - rewrite rendered_text_snoc. apply str_app_nil_r.
  - destruct (existsb _ out); [done|]. rewrite rendered_text_snoc. apply str_app_nil_r.
  - apply (rendered_text_in_place (resolve_input request_id)), Forall2_in_place_fmap.
    intros []; simpl; try done. by case_decide.
  - destruct error; [|done]. rewrite rendered_text_snoc. apply str_app_nil_r.
Qed.

(** C39. Whatever a harness streams, the folded transcript is well-formed: text
    and error parts carry the id of their position (so text ids never repeat),
    adjacent text is merged, at most one part answers to each tool, input and
    decision id, no tool part holds an output or an inline diff, and every
    receipt is bounded.  Its text is exactly the text streamed since the last
    turn boundary, in order. *)
Theorem folded_transcript events :
  parts_wf (fold_all [] events) /\ rendered_text (fold_all [] events) = foldl streamed_text EmptyString events.
Proof.
  unfold fold_events. induction events as [|event events IH] using rev_ind; [split; [apply parts_wf_nil|done]|].
  rewrite !foldl_app. simpl. destruct IH as [IH1 IH2]. split; [by apply fold_event_wf|].
  by rewrite fold_event_text, IH2.
Qed.

(** Events a harness or a replay may deliver more than once. *)
Definition retry_safe (event : AgentEvent) : bool :=
  match event with
  | AE_TextDelta _ | AE_Error _ => false
  | AE_Done _ _ (Some _) _ => false
  | _ => true
  end.

Lemma update_first_again {A} (p : A -> bool) f (l l' : list A) :
  (forall x, p x = true -> p (f x) = true /\ f (f x) = f x) ->
  update_first p f l = Some l' -> update_first p f l' = Some l'.
Proof.
  intros Hf. revert l'. induction l as [|x l IH]; intros l'; simpl; [done|]. destruct (p x) eqn:Hx.
  - intros [= <-]. simpl. destruct (Hf x Hx) as [-> ->]. done.
  - intros (l2 & Hl2 & ->)%fmap_Some. simpl. rewrite Hx. by rewrite (IH _ Hl2).
Qed.

Lemma update_first_miss_push {A} (p : A -> bool) f (l : list A) x :
  update_first p f l = None -> p x = true -> f x = x -> update_first p f (l ++ [x]) = Some (l ++ [x]).
Proof.
  intros Hl Hx Hf. induction l as [|y l IH]; simpl in *; [by rewrite Hx, Hf|].
  destruct (p y); [done|]. apply fmap_None in Hl. by rewrite IH.
Qed.

(** Delivering an event again right after itself changes nothing, for every
    event except streamed text and errors: tool calls refresh in place, tool
    results and input resolutions are absorbing, an input request or a decision
    receipt is never duplicated, a turn boundary stays empty. *)
Theorem fold_event_idempotent out event :
  retry_safe event = true -> fold_event (fold_event out event) event = fold_event out event.
Proof.
  destruct event; simpl; try done; intros Hr.
  - destruct (update_first _ _ out) as [out'|] eqn:E.
    + rewrite (update_first_again _ _ out out'); [done| |exact E]. by intros [] ?.
    + rewrite (update_first_miss_push _ _ _ _ E); [done| |done]. simpl. by apply bool_decide_eq_true.
  - destruct (update_first _ _ out) as [out'|] eqn:E.
    + rewrite (update_first_again _ _ out out'); [done| |exact E]. by intros [] ?.
    + rewrite (update_first_miss_push _ _ _ _ E); [done| |done]. simpl. by apply bool_decide_eq_true.
  - rewrite <- list_fmap_compose. apply list_fmap_ext. intros _ [] _; simpl; try done.
    case_decide; simpl; [|by rewrite decide_False]. by rewrite decide_True.
  - destruct (existsb _ out) eqn:E; [by rewrite E|].
    rewrite existsb_app. simpl. by rewrite bool_decide_true, orb_true_r.
  - rewrite <- list_fmap_compose. apply list_fmap_ext. intros _ [] _; simpl; try done.
    case_decide; simpl; [by rewrite decide_True|by rewrite decide_False].
  - destruct error; done.
Qed.
End fold_wf.

Lemma fold_event_idempotent_witness :
  let out := fold_events (fun _ _ => (1, 2)%Z) [] [AE_TextDelta "hi"; AE_ToolCall "a" (TC_Exec "ls")] in
  let ev := AE_ToolResult "a" true (Some "boom"%string) None in
  fold_event_into_parts (fun _ _ => (1, 2)%Z) (fold_event_into_parts (fun _ _ => (1, 2)%Z) out ev) ev
    = fold_event_into_parts (fun _ _ => (1, 2)%Z) out ev
  /\ (part_id <$> out) = ["t0"; "a"]%string.
Proof. intros out ev. split; [by apply (fold_event_idempotent (fun _ _ => (1, 2)%Z) out ev)|by vm_compute]. Defined.

(** * Splitting *)

Lemma back_to_boundary_spec text e :
  e <= String.length text ->
  back_to_boundary text e <= e
  /\ (back_to_boundary text e = String.length text \/ is_char_boundary text (back_to_boundary text e) = true)
  /\ (forall b, b <= e -> is_char_boundary text b = true -> b <= back_to_boundary text e).
Proof.
  induction e as [|e IH]; intros He; cbn [back_to_boundary].
  - destruct ((0 <? _) && _); (split_and!; [lia|by right|intros; lia]).
  - destruct ((S e <? String.length text) && negb (is_char_boundary text (S e))) eqn:E.
    + apply andb_true_iff in E as [_ E]. apply negb_true_iff in E.
      destruct IH as (H1 & H2 & H3); [lia|]. split_and!; [lia|done|].
      intros b Hb Hbb. apply H3; [|done]. destruct (decide (b = S e)); [congruence|lia].
    + split_and!; [lia| |by intros].
      apply andb_false_iff in E as [E|E]; [left; apply Nat.ltb_ge in E; lia|right; by apply negb_false_iff in E].
Qed.

Lemma piece_end_spec max text start :
  start < String.length text ->
  start < piece_end max text start <= String.length text
  /\ (piece_end max text start = String.length text \/ is_char_boundary text (piece_end max text start) = true).
Proof.
  intros Hs. unfold piece_end. cbv zeta.
  destruct (back_to_boundary_spec text ((start + max) `min` String.length text)) as (H1 & H2 & _); [lia|].
  destruct (_ <=? start) eqn:E; [split; [lia|by left]|]. apply Nat.leb_gt in E. split; [lia|done].
Qed.

Lemma piece_end_bounded max text start :
  4 <= max -> chars_bounded text -> start < String.length text -> is_char_boundary text start = true ->
  head_continuation text = false -> piece_end max text start <= start + max.
Proof.
  intros Hm Hb Hs Hsb Hh. unfold piece_end. cbv zeta.
  destruct (back_to_boundary_spec text ((start + max) `min` String.length text)) as (H1 & _ & H3); [lia|].
  destruct (next_boundary text start) as (j & Hj & Hjl & Hjb); [done|done| |].
  { apply is_char_boundary_spec in Hsb as [->|[_ ?]]; done. }
  specialize (H3 j ltac:(lia) Hjb).
  destruct (_ <=? start) eqn:E; [apply Nat.leb_le in E; lia|lia].
Qed.

Lemma text_pieces_text fuel max id text start piece :
  String.length text - start <= fuel ->
  rendered_text (text_pieces fuel max id text start piece) = str_drop start text
  /\ Forall (fun p => is_text p = true) (text_pieces fuel max id text start piece).
Proof.
  revert start piece. induction fuel as [|fuel IH]; intros start piece Hf; simpl.
  { split; [|constructor]. pose proof (str_length_drop start text). by destruct (str_drop start text); simpl in *; [|lia]. }
  destruct (start <? String.length text) eqn:E.
  - apply Nat.ltb_lt in E. destruct (piece_end_spec max text start E) as [He _].
    destruct (IH (piece_end max text start) (S piece)) as [IH1 IH2]; [lia|].
    split; [|by constructor].
    unfold rendered_text in *. rewrite list_omap_cons. simpl. rewrite IH1.
    replace (str_drop (piece_end max text start) text)
      with (str_drop (piece_end max text start - start) (str_drop start text))
      by (rewrite str_drop_drop; f_equal; lia).
    apply str_take_drop.
  - split; [|constructor]. apply Nat.ltb_ge in E. pose proof (str_length_drop start text).
    by destruct (str_drop start text); simpl in *; [|lia].
Qed.

Lemma text_pieces_bounded fuel max id text start piece :
  4 <= max -> chars_bounded text -> head_continuation text = false -> is_char_boundary text start = true ->
  Forall (fun p => from_option String.length 0 (text_of p) <= max) (text_pieces fuel max id text start piece).
Proof.
  intros Hm Hb Hh. revert start piece. induction fuel as [|fuel IH]; intros start piece Hsb; simpl; [constructor|].
  destruct (start <? String.length text) eqn:E; [|constructor]. apply Nat.ltb_lt in E.
  pose proof (piece_end_bounded max text start Hm Hb E Hsb Hh).
  destruct (piece_end_spec max text start E) as [He Hend].
  constructor; [simpl; rewrite str_length_take, str_length_drop; lia|].
  destruct Hend as [->|Hend]; [|by apply IH].
  destruct fuel as [|fuel]; simpl; [constructor|]. rewrite Nat.ltb_irrefl. constructor.
Qed.

Section split_spec.
Context (call_len : ToolCall -> nat) (diff_len : ToolDiff -> nat) (stats_len : list ToolDiffStat -> nat)
  (questions_len : list UserInputQuestion -> nat) (event_len : DecisionEvent -> nat).
Local Abbreviation len := (byte_len call_len diff_len stats_len questions_len event_len).
Local Abbreviation push := (push_part call_len diff_len stats_len questions_len event_len).

Definition chunk_bytes (c : list MessagePart) : nat := sum_list (len <$> c).
(** A chunk fits, or a single part fills it. *)
Definition chunk_ok (max : nat) (c : list MessagePart) : Prop :=
  chunk_bytes c <= max \/ exists p, p ∈ c /\ chunk_bytes c = len p.

Definition split_inv (max : nat) (pushed : list MessagePart) (s : SplitState) : Prop :=
  concat (sp_done s) ++ sp_last s = pushed /\ sp_bytes s = chunk_bytes (sp_last s)
  /\ Forall (chunk_ok max) (sp_done s) /\ chunk_ok max (sp_last s).

Lemma chunk_bytes_snoc c p : chunk_bytes (c ++ [p]) = chunk_bytes c + len p.
Proof. unfold chunk_bytes. rewrite fmap_app, list_fmap_singleton. generalize (len p) (len <$> c). clear. intros n l.
  induction l as [|m l IH]; simpl in *; lia. Qed.

Lemma push_part_inv max pushed s p : split_inv max pushed s -> split_inv max (pushed ++ [p]) (push max s p).
Proof.
  intros (H1 & H2 & H3 & H4). unfold push_part. cbv zeta.
  destruct ((0 <? sp_bytes s) && (max <? sp_bytes s + len p)) eqn:E; unfold split_inv; simpl.
  - split_and!.
    + rewrite concat_app. simpl. by rewrite app_nil_r, H1.
    + unfold chunk_bytes. simpl. lia.
    + apply Forall_app. split; [done|by apply Forall_singleton].
    + right. exists p. split; [set_solver|]. unfold chunk_bytes. simpl. lia.
  - split_and!; [by rewrite app_assoc, H1|by rewrite chunk_bytes_snoc, H2|done|].
    unfold chunk_ok. rewrite chunk_bytes_snoc, <- H2. apply andb_false_iff in E as [E|E].
    + apply Nat.ltb_ge in E. right. exists p. split; [set_solver|]. lia.
    + apply Nat.ltb_ge in E. by left.
Qed.

Lemma split_with_inv max parts :
  let chunks := split_with call_len diff_len stats_len questions_len event_len max parts in
  concat chunks = parts ≫= split_one max /\ Forall (chunk_ok max) chunks.
Proof.
  intros chunks.
  assert (H : split_inv max (parts ≫= split_one max)
    (foldl (fun s part => foldl (push max) s (split_one max part)) (mk_split [] [] 0) parts)).
  { assert (Hone : forall l pushed s, split_inv max pushed s -> split_inv max (pushed ++ l) (foldl (push max) s l)).
    { induction l as [|p l IH]; intros pushed s Hs; simpl; [by rewrite app_nil_r|].
      rewrite cons_middle, app_assoc. by apply IH, push_part_inv. }
    assert (Hall : forall l pushed s, split_inv max pushed s -> split_inv max (pushed ++ (l ≫= split_one max))
        (foldl (fun s part => foldl (push max) s (split_one max part)) s l)).
    { induction l as [|p l IH]; intros pushed s Hs; simpl; [by rewrite app_nil_r|].
      rewrite app_assoc. by apply IH, Hone. }
    apply (Hall parts []). split_and!; [done|done|constructor|]. left. unfold chunk_bytes. simpl. lia. }
  destruct H as (H1 & _ & H3 & H4). subst chunks. unfold split_with. cbv zeta. split.
  - rewrite concat_app. simpl. by rewrite app_nil_r.
  - apply Forall_app. split; [done|by apply Forall_singleton].
Qed.

(** Texts as Rust has them: valid UTF-8. *)
Definition text_utf8 (p : MessagePart) : Prop :=
  match p with MP_Text _ t => chars_bounded t /\ head_continuation t = false | _ => True end.
Definition fits (max : nat) (p : MessagePart) : Prop := len p <= max.

Lemma split_one_text max p : rendered_text (split_one max p) = default EmptyString (text_of p)
  /\ base.filter (fun q => is_text q = false) (split_one max p) = base.filter (fun q => is_text q = false) [p].
Proof.
  assert (Hone : rendered_text [p] = default EmptyString (text_of p)) by apply (rendered_text_snoc []).
  destruct p; cbn [split_one]; try (split; [exact Hone|reflexivity]).
  destruct (max <? _); [|split; [exact Hone|reflexivity]].
  destruct (text_pieces_text (String.length text) max id text 0 0) as [H1 H2]; [lia|].
  split; [exact H1|]. rewrite filter_cons_False by done.
  clear H1. induction H2 as [|q l Hq _ IH]; [done|]. rewrite filter_cons_False; [exact IH|congruence].
Qed.

Lemma Forall_and_2 {A} (P Q : A -> Prop) l : Forall P l -> Forall Q l -> Forall (fun x => P x /\ Q x) l.
Proof. intros H1 H2. apply Forall_and. by split. Qed.

Lemma split_one_fits max p :
  4 <= max -> text_utf8 p -> (is_text p = false -> fits max p) -> Forall (fits max) (split_one max p).
Proof.
  intros Hm Hu Hf. destruct p; simpl in *; try (constructor; [by apply Hf|constructor]).
  destruct (max <? String.length text) eqn:E.
  - destruct Hu as [Hu1 Hu2]. pose proof (text_pieces_bounded (String.length text) max id text 0 0 Hm Hu1 Hu2 eq_refl) as Hb.
    destruct (text_pieces_text (String.length text) max id text 0 0) as [_ Ht]; [lia|].
    eapply Forall_impl; [exact (Forall_and_2 _ _ _ Ht Hb)|].
    intros [] [? ?]; done.
  - apply Nat.ltb_ge in E. by repeat constructor.
Qed.

Lemma MSG_INLINE_MAX_ge : 4 <= MSG_INLINE_MAX.
Proof. unfold MSG_INLINE_MAX. lia. Qed.

(** Splitting an entry loses nothing and bounds every continuation: the
    joined continuations carry the same text and the same other parts in the
    same order (and are exactly the original parts when no text part is
    oversized); every chunk either fits in [MSG_INLINE_MAX] bytes or is filled
    by one part, and when the texts are valid UTF-8 and every non-text part fits
    on its own, every chunk fits. *)
Theorem split_parts_bounded parts :
  let chunks := split_parts call_len diff_len stats_len questions_len event_len parts in
  rendered_text (join_continuations chunks) = rendered_text parts
  /\ base.filter (fun q => is_text q = false) (join_continuations chunks) = base.filter (fun q => is_text q = false) parts
  /\ (Forall (fun p => from_option String.length 0 (text_of p) <= MSG_INLINE_MAX) parts -> join_continuations chunks = parts)
  /\ Forall (chunk_ok MSG_INLINE_MAX) chunks
  /\ (Forall (fun p => text_utf8 p /\ (is_text p = false -> fits MSG_INLINE_MAX p)) parts ->
      Forall (fun c => chunk_bytes c <= MSG_INLINE_MAX) chunks).
Proof.
  pose proof MSG_INLINE_MAX_ge as Hm. unfold split_parts. revert Hm. generalize MSG_INLINE_MAX as max. intros max Hm.
  destruct (split_with_inv max parts) as [Hj Hok]. cbv zeta in *. unfold join_continuations. rewrite Hj.
  split_and!; [| | |done|].
  - clear. induction parts as [|p parts IH]; [done|]. rewrite bind_cons, rendered_text_app, IH.
    rewrite (proj1 (split_one_text max p)). change (p :: parts) with ([p] ++ parts). rewrite rendered_text_app. f_equal. symmetry. apply (rendered_text_snoc []).
  - clear. induction parts as [|p parts IH]; [done|]. rewrite bind_cons, filter_app, IH, (proj2 (split_one_text max p)).
    by rewrite <- (filter_app _ [p] parts).
  - intros Hs. clear -Hs. induction Hs as [|p parts Hp _ IH]; [done|]. rewrite bind_cons, IH.
    destruct p; try done. simpl in *. replace (max <? String.length text) with false; [done|].
    symmetry. by apply Nat.ltb_ge.
  - intros Hp. assert (Hfit : Forall (fits max) (parts ≫= split_one max)).
    { clear -Hp Hm. induction Hp as [|p parts [Hu Hf] _ IH]; simpl; [constructor|].
      apply Forall_app. split; [by apply split_one_fits|done]. }
    rewrite <- Hj in Hfit. eapply Forall_impl; [exact (Forall_and_2 _ _ _ Hok (proj1 (Forall_concat _ _) Hfit))|].
    intros c [[Hc|(p & Hp' & ->)] Hc']; [done|]. eapply Forall_forall in Hc'; [|exact Hp']. done.
Qed.

(** "Render-time inverse of splitting" does not hold of an oversized text part:
    its pieces stay apart under ids of their own. *)
Lemma join_keeps_pieces_apart id text :
  text_utf8 (MP_Text id text) -> MSG_INLINE_MAX < String.length text ->
  join_continuations (split_parts call_len diff_len stats_len questions_len event_len [MP_Text id text]) <> [MP_Text id text].
Proof.
  intros [Hu1 Hu2]. pose proof MSG_INLINE_MAX_ge as Hm. unfold split_parts, join_continuations.
  revert Hm. generalize MSG_INLINE_MAX as max. intros max Hm Hl.
  rewrite (proj1 (split_with_inv max _)), bind_cons. cbn [split_one].
  rewrite (proj2 (Nat.ltb_lt _ _)) by done. cbn [mbind list_bind]. rewrite app_nil_r. intros E.
  pose proof (text_pieces_bounded (String.length text) max id text 0 0 Hm Hu1 Hu2 eq_refl) as Hb.
  rewrite E in Hb. apply Forall_cons in Hb as [Hb _]. simpl in Hb. lia.
Qed.
End split_spec.

Lemma split_parts_bounded_witness :
  let tool := MP_Tool (mk_tool_part "a" (TC_Exec "ls") false true None None None None None None) in
  let parts := [MP_Text "t0" "hi"; tool; MP_Text "t2" "bye"] in
  let chunks := split_parts (fun _ => 7) (fun _ => 1) (fun _ => 1) (fun _ => 1) (fun _ => 1) parts in
  join_continuations chunks = parts /\ rendered_text (join_continuations chunks) = "hibye"%string.
Proof.
  intros tool parts chunks.
  destruct (split_parts_bounded (fun _ => 7) (fun _ => 1) (fun _ => 1) (fun _ => 1) (fun _ => 1) parts)
    as (Ht & _ & Hs & _). split; [|exact Ht].
  apply Hs. generalize MSG_INLINE_MAX_ge. generalize MSG_INLINE_MAX. intros max Hm. repeat (apply Forall_cons; split; [simpl; lia|]). constructor.
Defined.
