(* ===== verification/TranscriptDelta.v ===== *)
(** Delta frames of the transcript watch: [crates/doc/src/transcript_delta.rs].

    [diff_transcript] computes the frame between two transcript states on the
    host, [apply_transcript_frame] replays it on the viewer.  The main theorem
    is the round trip; the desync tripwire it relies on is shown incomplete by
    a concrete pair of states at the end. *)
From Stdlib Require Import ZArith Lia Ascii String.
From stdpp Require Import base tactics numbers list strings gmap.
From S2P Require Import Prelude Json Text Proto Parts.
Open Scope keel_scope.

(** * Entries *)

Inductive MessageRole := MR_User | MR_Assistant | MR_System.
#[export] Instance MessageRole_eq_dec : EqDecision MessageRole.
Proof. solve_decision. Defined.

Record SessionMessageEntry := mk_entry {
  en_id : string;
  en_role : MessageRole;
  en_parts : list MessagePart;
  en_created_at : Z;
  en_device_id : string;
  en_status : option MessageStatus;
  en_continuation_of : option string;
}.

Definition entry_meta_eqb (a b : SessionMessageEntry) : bool :=
  bool_decide (en_id a = en_id b) && bool_decide (en_role a = en_role b)
  && bool_decide (en_created_at a = en_created_at b) && bool_decide (en_device_id a = en_device_id b)
  && bool_decide (en_status a = en_status b) && bool_decide (en_continuation_of a = en_continuation_of b).
(** [PartialEq] of an entry. *)
Definition entry_eqb (a b : SessionMessageEntry) : bool :=
  entry_meta_eqb a b && list_eqb part_eqb (en_parts a) (en_parts b).

(** * Frames *)

Record TranscriptUpsert := mk_upsert { up_after : option string; up_entry : SessionMessageEntry }.
Record TextAppend := mk_append { ap_entry : string; ap_part : string; ap_text : string; ap_len : nat }.

Inductive TranscriptFrame :=
| Reset (reset : list SessionMessageEntry)
| Delta (upsert : list TranscriptUpsert) (append : list TextAppend) (remove : list string) (count : nat).

Definition is_empty_delta (f : TranscriptFrame) : bool :=
  match f with Delta [] [] [] _ => true | _ => false end.

(** The loop of [try_text_append] over the zipped parts; [None] is the early
    [return None], the accumulator the [append] variable. *)
Fixpoint append_scan (entry : string) (ps ns : list MessagePart) (acc : option TextAppend) : option (option TextAppend) :=
  match ps, ns with
  | p :: ps', n :: ns' =>
      if part_eqb p n then append_scan entry ps' ns' acc
      else match p, n with
           | MP_Text pid pt, MP_Text nid nt =>
               if negb (bool_decide (pid = nid)) || negb (starts_with pt nt) || bool_decide (is_Some acc) then None
               else append_scan entry ps' ns'
                      (Some (mk_append entry nid (str_drop (String.length pt) nt) (String.length nt)))
           | _, _ => None
           end
  | _, _ => Some acc
  end.

Definition try_text_append (prev next : SessionMessageEntry) : option TextAppend :=
  if negb (entry_meta_eqb prev next) || negb (length (en_parts prev) =? length (en_parts next)) then None
  else default None (append_scan (en_id next) (en_parts prev) (en_parts next) None).

(** * The diff *)

(** [prev_by_id]: index and entry, the last one winning as in [collect]. *)
Definition prev_by_id (prev : list SessionMessageEntry) : gmap string (nat * SessionMessageEntry) :=
  foldl (fun m ie => <[en_id (snd ie) := ie]> m) ∅ (imap pair prev).

(** [i.checked_sub(1).map(|p| l[p].id)]. *)
Definition anchor_before (l : list SessionMessageEntry) (i : nat) : option string :=
  match i with O => None | S p => en_id <$> l !! p end.

Inductive diff_action :=
| Skip
| DoAppend (a : TextAppend)
| DoUpsert (u : TranscriptUpsert).

(** The body of the loop over [next]. *)
Definition diff_entry (prev next : list SessionMessageEntry) (i : nat) (entry : SessionMessageEntry) : diff_action :=
  let after := anchor_before next i in
  match prev_by_id prev !! en_id entry with
  | Some (prev_ix, prev_entry) =>
      let prev_after := anchor_before prev prev_ix in
      if entry_eqb prev_entry entry && bool_decide (prev_after = after) then Skip
      else match (if decide (prev_after = after) then try_text_append prev_entry entry else None) with
           | Some a => DoAppend a
           | None => DoUpsert (mk_upsert after entry)
           end
  | None => DoUpsert (mk_upsert after entry)
  end.

Definition action_upsert (a : diff_action) : option TranscriptUpsert := match a with DoUpsert u => Some u | _ => None end.
Definition action_append (a : diff_action) : option TextAppend := match a with DoAppend a => Some a | _ => None end.

Definition entry_ids (l : list SessionMessageEntry) : list string := en_id <$> l.

Definition diff_transcript (prev next : list SessionMessageEntry) : TranscriptFrame :=
  let next_ids : gset string := list_to_set (entry_ids next) in
  let remove := base.filter (fun id => id ∉ next_ids) (entry_ids prev) in
  let actions := imap (diff_entry prev next) next in
  let upsert := omap action_upsert actions in
  let append := omap action_append actions in
  if (Nat.max (length next) 1 <=? length upsert * 2) && (4 <? length next) then Reset next
  else Delta upsert append remove (length next).

(** * The replay *)

Inductive TranscriptDesync :=
| MissingAnchor (anchor : string)
| MissingAppendEntry (entry : string)
| MissingAppendPart (part : string)
| AppendLengthMismatch (entry part : string) (have expected : nat)
| CountMismatch (have expected : nat).

Definition has_id (id : string) (e : SessionMessageEntry) : bool := bool_decide (en_id e = id).

(** [if let Some(existing) = position(..) { current.remove(existing) }]. *)
Definition remove_entry (id : string) (current : list SessionMessageEntry) : list SessionMessageEntry :=
  match position (has_id id) current with
  | Some ix => delete ix current
  | None => current
  end.

Definition apply_upsert (current : list SessionMessageEntry) (u : TranscriptUpsert)
    : result (list SessionMessageEntry) TranscriptDesync :=
  let current := remove_entry (en_id (up_entry u)) current in
  match up_after u with
  | None => Ok (list_insert_at 0 (up_entry u) current)
  | Some anchor =>
      match position (has_id anchor) current with
      | Some ix => Ok (list_insert_at (S ix) (up_entry u) current)
      | None => Err (MissingAnchor anchor)
      end
  end.

Definition is_text_id (part : string) (p : MessagePart) : bool :=
  match p with MP_Text id _ => bool_decide (id = part) | _ => false end.
Definition set_parts (parts : list MessagePart) (e : SessionMessageEntry) : SessionMessageEntry :=
  mk_entry (en_id e) (en_role e) parts (en_created_at e) (en_device_id e) (en_status e) (en_continuation_of e).

(** [tail.push_str(&text)] on the part, and the part's text afterwards. *)
Definition push_part_text (text : string) (p : MessagePart) : MessagePart :=
  match p with MP_Text id t => MP_Text id (t +:+ text) | _ => p end.

Definition apply_append (current : list SessionMessageEntry) (a : TextAppend)
    : result (list SessionMessageEntry) TranscriptDesync :=
  match position (has_id (ap_entry a)) current with
  | None => Err (MissingAppendEntry (ap_entry a))
  | Some ix =>
      let? target := ok_or (current !! ix) (MissingAppendEntry (ap_entry a)) in
      match position (is_text_id (ap_part a)) (en_parts target) with
      | None => Err (MissingAppendPart (ap_part a))
      | Some px =>
          let parts := alter (push_part_text (ap_text a)) px (en_parts target) in
          let have := from_option (fun p => String.length (default EmptyString (text_of p))) 0 (parts !! px) in
          if have =? ap_len a then Ok (<[ix := set_parts parts target]> current)
          else Err (AppendLengthMismatch (ap_entry a) (ap_part a) have (ap_len a))
      end
  end.

Definition apply_transcript_frame (current : list SessionMessageEntry) (frame : TranscriptFrame)
    : result (list SessionMessageEntry) TranscriptDesync :=
  match frame with
  | Reset reset => Ok reset
  | Delta upsert append remove count =>
      let current := match remove with
                     | [] => current
                     | _ => base.filter (fun e => en_id e ∉ remove) current
                     end in
      let? current := try_fold apply_upsert current upsert in
      let? current := try_fold apply_append current append in
      if length current =? count then Ok current else Err (CountMismatch (length current) count)
  end.

(** * The entries a replay reconstructs *)

(** Equality up to [PartialEq] of the parts, which a host cannot tell apart. *)
Definition part_equiv (p q : MessagePart) : Prop := p = q \/ part_eqb p q = true.
Record entry_equiv (a b : SessionMessageEntry) : Prop := {
  eqv_id : en_id a = en_id b;
  eqv_role : en_role a = en_role b;
  eqv_created : en_created_at a = en_created_at b;
  eqv_device : en_device_id a = en_device_id b;
  eqv_status : en_status a = en_status b;
  eqv_continuation : en_continuation_of a = en_continuation_of b;
  eqv_parts : Forall2 part_equiv (en_parts a) (en_parts b);
}.

#[export] Instance entry_equiv_refl : Reflexive entry_equiv.
Proof. intros e. split; try done. induction (en_parts e); constructor; [by left|done]. Qed.

Lemma entry_meta_eqb_spec a b :
  entry_meta_eqb a b = true <->
  en_id a = en_id b /\ en_role a = en_role b /\ en_created_at a = en_created_at b
  /\ en_device_id a = en_device_id b /\ en_status a = en_status b /\ en_continuation_of a = en_continuation_of b.
Proof. unfold entry_meta_eqb. rewrite !andb_true_iff, !bool_decide_eq_true. tauto. Qed.

Lemma part_eqb_equiv_list ps ns :
  Forall2 (fun x y => part_eqb x y = true) ps ns -> Forall2 part_equiv ps ns.
Proof. intros H. eapply Forall2_impl; [exact H|]. by right. Qed.

Lemma entry_eqb_equiv a b : entry_eqb a b = true -> entry_equiv a b.
Proof.
  unfold entry_eqb. rewrite andb_true_iff, entry_meta_eqb_spec, list_eqb_Forall2.
  intros [(?&?&?&?&?&?) Hparts]. split; try done. by apply part_eqb_equiv_list.
Qed.

Lemma part_eqb_text p id t : part_eqb p (MP_Text id t) = true -> p = MP_Text id t.
Proof. destruct p; simpl; try done. rewrite andb_true_iff, !bool_decide_eq_true. by intros [-> ->]. Qed.

(** * Looking an entry up by id *)

Lemma locate_entry (l : list SessionMessageEntry) e :
  NoDup (entry_ids l) -> e ∈ l ->
  exists l1 l2, l = l1 ++ e :: l2 /\ en_id e ∉ entry_ids l1 /\ en_id e ∉ entry_ids l2
    /\ position (has_id (en_id e)) l = Some (length l1).
Proof.
  intros Hnd (l1 & l2 & ->)%list_elem_of_split.
  unfold entry_ids in Hnd. rewrite fmap_app, fmap_cons in Hnd.
  apply NoDup_app in Hnd as (_ & H1 & H2). apply NoDup_cons in H2 as [H2 _].
  exists l1, l2. split_and!; [done| |done|].
  - intros Hin. apply (H1 _ Hin). set_solver.
  - apply position_app; [|by apply bool_decide_eq_true].
    intros y Hy. apply bool_decide_eq_false. intros E. apply (H1 (en_id y)); [|rewrite E; set_solver].
    by apply list_elem_of_fmap_2.
Qed.

Lemma position_has_id_None (l : list SessionMessageEntry) id :
  position (has_id id) l = None <-> id ∉ entry_ids l.
Proof.
  rewrite position_None. unfold entry_ids. rewrite list_elem_of_fmap. split.
  - intros H (e & -> & He). specialize (H e He). by apply bool_decide_eq_false in H.
  - intros H e He. apply bool_decide_eq_false. intros <-. eauto.
Qed.

Lemma filter_id_ne_fresh (l : list SessionMessageEntry) id :
  id ∉ entry_ids l -> base.filter (fun e => en_id e <> id) l = l.
Proof.
  intros H. induction l as [|e l IH]; [done|].
  rewrite filter_cons_True; [f_equal; apply IH; set_solver|]. intros E. apply H. unfold entry_ids. set_solver.
Qed.

Lemma remove_entry_filter id (l : list SessionMessageEntry) :
  NoDup (entry_ids l) -> remove_entry id l = base.filter (fun e => en_id e <> id) l.
Proof.
  intros Hnd. unfold remove_entry. destruct (position (has_id id) l) as [ix|] eqn:E.
  - pose proof E as (e & He & Hid & _)%position_Some. apply bool_decide_eq_true in Hid as <-.
    destruct (locate_entry l e Hnd (list_elem_of_lookup_2 _ _ _ He)) as (l1 & l2 & -> & H1 & H2 & E').
    rewrite E' in E. injection E as <-. rewrite delete_middle, filter_app, filter_cons_False by naive_solver.
    by rewrite !filter_id_ne_fresh.
  - apply position_has_id_None in E. by rewrite filter_id_ne_fresh.
Qed.

(** * The upserts *)

(** A plan: the entries the replay ends with, each with whether it is upserted. *)
Abbreviation plan := (list (SessionMessageEntry * bool)) (only parsing).
Fixpoint upserts_of (after : option string) (p : plan) : list TranscriptUpsert :=
  match p with
  | [] => []
  | (e, true) :: p' => mk_upsert after e :: upserts_of (Some (en_id e)) p'
  | (e, false) :: p' => upserts_of (Some (en_id e)) p'
  end.
Fixpoint later (p : plan) : list string :=
  match p with
  | [] => []
  | (e, true) :: p' => en_id e :: later p'
  | (_, false) :: p' => later p'
  end.
Fixpoint kept (p : plan) : list SessionMessageEntry :=
  match p with
  | [] => []
  | (_, true) :: p' => kept p'
  | (e, false) :: p' => e :: kept p'
  end.

Lemma later_sub p id : id ∈ later p -> id ∈ entry_ids p.*1.
Proof. induction p as [|[e []] p IH]; simpl; [done| |]; unfold entry_ids in *; simpl; set_solver. Qed.

Lemma pivot_unique {A} (x1 y1 x2 y2 : list A) a :
  a ∉ x1 -> a ∉ x2 -> x1 ++ a :: y1 = x2 ++ a :: y2 -> x1 = x2 /\ y1 = y2.
Proof.
  revert x2. induction x1 as [|b x1 IH]; intros [|c x2] H1 H2 E; simpl in E; try set_solver.
  injection E as -> E. destruct (IH x2) as [-> ->]; set_solver.
Qed.

Lemma entry_ids_filter P `{!forall e : SessionMessageEntry, Decision (P e)} l :
  NoDup (entry_ids l) -> NoDup (entry_ids (base.filter P l)).
Proof.
  unfold entry_ids. induction l as [|e l IH]; simpl; [done|]. intros [H1 H2]%NoDup_cons.
  rewrite filter_cons. case_decide; simpl; [|auto]. apply NoDup_cons. split; [|auto].
  rewrite list_elem_of_fmap in *. intros (y & Hy & Hin%list_elem_of_filter). apply H1. exists y. naive_solver.
Qed.

(** One upsert: afterwards the entries not upserted later are the settled
    prefix, with the new entry at its end, and the entries still to come. *)
Lemma apply_upsert_step cur settled x p :
  NoDup (entry_ids cur) -> NoDup (entry_ids (settled ++ x :: p.*1)) ->
  base.filter (fun e => en_id e ∉ en_id x :: later p) cur = settled ++ kept p ->
  exists cur', apply_upsert cur (mk_upsert (en_id <$> last settled) x) = Ok cur'
    /\ NoDup (entry_ids cur') /\ base.filter (fun e => en_id e ∉ later p) cur' = (settled ++ [x]) ++ kept p.
Proof.
  intros Hcur Hnd Hf. unfold apply_upsert. cbn [up_entry up_after]. rewrite remove_entry_filter by done.
  set (cur1 := base.filter _ cur).
  assert (H1 : NoDup (entry_ids cur1)) by by apply entry_ids_filter.
  assert (Hx : en_id x ∉ entry_ids cur1).
  { unfold entry_ids. rewrite list_elem_of_fmap. intros (y & E & [Hy _]%list_elem_of_filter). by rewrite E in Hy. }
  assert (Hf1 : base.filter (fun e => en_id e ∉ later p) cur1 = settled ++ kept p).
  { rewrite <- Hf. subst cur1. rewrite list_filter_filter. apply list_filter_iff. intros e. set_solver. }
  assert (Hxl : en_id x ∉ later p).
  { intros Hin%later_sub. unfold entry_ids in *. rewrite fmap_app, fmap_cons in Hnd.
    apply NoDup_app in Hnd as (_ & _ & [Hn _]%NoDup_cons). done. }
  clearbody cur1. clear Hf Hcur cur.
  assert (Hins : forall l1 l2, cur1 = l1 ++ l2 -> NoDup (entry_ids (l1 ++ x :: l2))).
  { intros l1 l2 ->. unfold entry_ids in *. rewrite fmap_app in *. rewrite fmap_cons.
    apply NoDup_app in H1 as (Ha & Hb & Hc). apply NoDup_app. split_and!; [done| |]; [|apply NoDup_cons; set_solver].
    intros i Hi [->|Hi']%elem_of_cons; [set_solver|]. by apply (Hb i). }
  destruct (last settled) as [a|] eqn:Ea; simpl.
  - apply last_Some in Ea as (d & ->).
    assert (Ha : a ∈ base.filter (fun e => en_id e ∉ later p) cur1) by (rewrite Hf1; set_solver).
    apply list_elem_of_filter in Ha as [Hal Ha].
    destruct (locate_entry cur1 a H1 Ha) as (l1 & l2 & -> & Hl1 & Hl2 & ->).
    rewrite filter_app, filter_cons_True in Hf1 by done. rewrite <- app_assoc in Hf1. simpl in Hf1.
    assert (base.filter (fun e => en_id e ∉ later p) l1 = d /\ base.filter (fun e => en_id e ∉ later p) l2 = kept p) as [Hd Hk].
    { apply pivot_unique in Hf1; [done| |].
      - intros [_ Hin]%list_elem_of_filter. apply Hl1. unfold entry_ids. apply list_elem_of_fmap. eauto.
      - intros Hin. unfold entry_ids in Hnd. rewrite !fmap_app in Hnd. apply NoDup_app in Hnd as (Hnd & _ & _).
        apply NoDup_app in Hnd as (_ & Hnd & _). apply (Hnd (en_id a)); [|set_solver].
        apply list_elem_of_fmap. eauto. }
    eexists. split; [done|]. unfold list_insert_at.
    rewrite (cons_middle a l1 l2), app_assoc. rewrite take_app_length', drop_app_length' by (rewrite length_app; simpl; lia).
    split; [apply Hins; by rewrite <- app_assoc|].
    rewrite !filter_app, filter_cons_True, (filter_cons_True _ x) by done. by rewrite Hd, Hk, <- !app_assoc.
  - apply last_None in Ea as ->. eexists. split; [done|]. unfold list_insert_at. simpl. rewrite drop_0.
    split; [by apply (Hins [])|]. rewrite filter_cons_True by done. by rewrite Hf1.
Qed.

Lemma apply_upserts p : forall cur settled,
  NoDup (entry_ids cur) -> NoDup (entry_ids (settled ++ p.*1)) ->
  base.filter (fun e => en_id e ∉ later p) cur = settled ++ kept p ->
  try_fold apply_upsert cur (upserts_of (en_id <$> last settled) p) = Ok (settled ++ p.*1).
Proof.
  induction p as [|[x b] p IH]; intros cur settled Hcur Hnd Hf;
    rewrite ?fmap_cons in *; cbn [fst fmap list_fmap upserts_of later kept try_fold] in *.
  { rewrite app_nil_r in Hf |- *. f_equal. rewrite <- Hf. symmetry. clear. induction cur as [|e cur IHc]; [done|].
    rewrite filter_cons_True by set_solver. by f_equal. }
  assert (Hs : forall e, entry_ids (settled ++ e :: p.*1) = entry_ids ((settled ++ [e]) ++ p.*1)).
  { intros e. by rewrite <- app_assoc. }
  destruct b; cbn [try_fold] in *.
  - destruct (apply_upsert_step cur settled x p Hcur Hnd Hf) as (cur' & -> & Hcur' & Hf'). cbn [result_bind].
    replace (Some (en_id x)) with (en_id <$> last (settled ++ [x])) by by rewrite last_snoc.
    rewrite (cons_middle x settled (p.*1)), app_assoc. apply IH; [done|by rewrite <- Hs|done].
  - replace (Some (en_id x)) with (en_id <$> last (settled ++ [x])) by by rewrite last_snoc.
    rewrite (cons_middle x settled (p.*1)), app_assoc. apply IH; [done|by rewrite <- Hs|].
    by rewrite <- app_assoc.
Qed.

(** * The text appends *)

Definition text_ids (parts : list MessagePart) : list string :=
  omap (fun p => match p with MP_Text id _ => Some id | _ => None end) parts.

Lemma append_scan_some entry ps ns a r :
  length ps = length ns -> append_scan entry ps ns (Some a) = Some r ->
  r = Some a /\ Forall2 (fun x y => part_eqb x y = true) ps ns.
Proof.
  revert ns. induction ps as [|p ps IH]; intros [|n ns] Hl; simpl in *; try done.
  - intros [= <-]. by split; [|constructor].
  - destruct (part_eqb p n) eqn:E.
    + intros H. destruct (IH ns) as [-> ?]; [lia|done|]. by split; [|constructor].
    + destruct p, n; try done. destruct (_ || _) eqn:E'; [done|].
      by apply orb_false_iff in E' as [_ E'].
Qed.

(** The only shape an append can describe. *)
Lemma append_scan_none entry ps ns a :
  length ps = length ns -> append_scan entry ps ns None = Some (Some a) ->
  exists l1 l2 m1 m2 id pt,
    ps = l1 ++ MP_Text id pt :: l2 /\ ns = m1 ++ MP_Text id (pt +:+ ap_text a) :: m2
    /\ Forall2 (fun x y => part_eqb x y = true) l1 m1 /\ Forall2 (fun x y => part_eqb x y = true) l2 m2
    /\ a = mk_append entry id (ap_text a) (String.length (pt +:+ ap_text a)).
Proof.
  revert ns. induction ps as [|p ps IH]; intros [|n ns] Hl; simpl in *; try done.
  destruct (part_eqb p n) eqn:E.
  - intros H. destruct (IH ns) as (l1 & l2 & m1 & m2 & id & pt & -> & -> & H1 & H2 & Ha); [lia|done|].
    exists (p :: l1), l2, (n :: m1), m2, id, pt. split_and!; try done. by constructor.
  - destruct p as [pid pt| | | |], n as [nid nt| | | |]; try done.
    destruct (_ || _) eqn:E'; [done|]. rewrite orb_false_r in E'. apply orb_false_iff in E' as [E1 E2].
    apply negb_false_iff in E1, E2. apply bool_decide_eq_true in E1 as ->.
    apply starts_with_spec in E2 as (suffix & ->). intros H.
    apply append_scan_some in H as [[= ->] Hrest]; [|lia]. cbn [ap_text]. rewrite str_drop_app.
    exists [], ps, [], ns, nid, pt. split_and!; try done.
Qed.

Lemma text_ids_app l1 l2 : text_ids (l1 ++ l2) = text_ids l1 ++ text_ids l2.
Proof. apply omap_app. Qed.

(** Appending on the viewer is the host's change. *)
Lemma apply_append_step p n a l1 l2 :
  try_text_append p n = Some a -> NoDup (text_ids (en_parts n)) ->
  NoDup (entry_ids (l1 ++ p :: l2)) ->
  exists n', apply_append (l1 ++ p :: l2) a = Ok (l1 ++ n' :: l2) /\ entry_equiv n' n.
Proof.
  unfold try_text_append. intros Ht Hids Hnd.
  destruct (entry_meta_eqb p n) eqn:Em; [|done]. apply entry_meta_eqb_spec in Em as (Mid&Mr&Mc&Md&Ms&Mk).
  destruct (length (en_parts p) =? length (en_parts n)) eqn:El; [|done]. apply Nat.eqb_eq in El. simpl in Ht.
  destruct (append_scan (en_id n) (en_parts p) (en_parts n) None) as [[a'|]|] eqn:Es; try done.
  injection Ht as ->.
  destruct (append_scan_none _ _ _ _ El Es) as (q1 & q2 & m1 & m2 & id & pt & Ep & En & H1 & H2 & Ea).
  destruct (locate_entry (l1 ++ p :: l2) p Hnd) as (k1 & k2 & Ek & Hk1 & Hk2 & Hpos); [set_solver|].
  assert (length k1 = length l1) as Hlen.
  { apply pivot_unique in Ek as [-> _]; [done| |].
    - intros Hin. unfold entry_ids in Hnd. rewrite fmap_app, fmap_cons in Hnd. apply NoDup_app in Hnd as (_ & Hnd & _).
      apply (Hnd (en_id p)); [apply list_elem_of_fmap; eauto|set_solver].
    - intros Hin. apply Hk1. apply list_elem_of_fmap. eauto. }
  unfold apply_append. rewrite Ea. cbn [ap_entry ap_part ap_len].
  rewrite <- Mid, Hpos, Hlen, list_lookup_middle by done. simpl.
  assert (Hpart : position (is_text_id id) (en_parts p) = Some (length q1)).
  { rewrite Ep. apply position_app; [|by apply bool_decide_eq_true].
    intros x Hx. destruct x as [xid xt| | | |]; try done. apply bool_decide_eq_false. intros ->.
    rewrite En, text_ids_app in Hids. apply NoDup_app in Hids as (_ & Hids & _). apply (Hids id); [|simpl; set_solver].
    apply list_elem_of_lookup in Hx as (i & Hi). destruct (Forall2_lookup_l _ _ _ _ _ H1 Hi) as (y & Hy & Hxy).
    apply list_elem_of_omap. exists y. split; [by eapply list_elem_of_lookup_2|].
    destruct y; try done. simpl in Hxy. apply andb_true_iff in Hxy as [->%bool_decide_eq_true _]. done. }
  rewrite Hpart, Ep. rewrite alter_app_r_alt by lia. rewrite Nat.sub_diag. cbn [alter list_alter push_part_text].
  rewrite list_lookup_middle by done. cbn [from_option default text_of]. rewrite Nat.eqb_refl.
  eexists. split; [by rewrite insert_app_r_alt, Nat.sub_diag by lia|].
  split; try done. cbn [en_parts set_parts]. rewrite En.
  apply Forall2_app; [by apply part_eqb_equiv_list|]. constructor; [by left|by apply part_eqb_equiv_list].
Qed.

(** * The round trip *)

Section roundtrip.
Context (prev next : list SessionMessageEntry).

Lemma prev_by_id_lookup l id ix e :
  prev_by_id l !! id = Some (ix, e) -> l !! ix = Some e /\ en_id e = id.
Proof.
  unfold prev_by_id. induction l as [|x l IH] using rev_ind; [done|].
  rewrite imap_app, foldl_app. simpl. intros [[Hid Hx]|[Hne Hl]]%lookup_insert_Some.
  - injection Hx as <- <-. rewrite Nat.add_0_r, list_lookup_middle by done. done.
  - destruct (IH Hl) as [H1 H2]. split; [by apply lookup_app_l_Some|done].
Qed.

Definition settle (i : nat) (e : SessionMessageEntry) : SessionMessageEntry * bool :=
  match diff_entry prev next i e with
  | DoUpsert _ => (e, true)
  | _ => (default e (snd <$> prev_by_id prev !! en_id e), false)
  end.

Lemma diff_entry_cases i e :
  (diff_entry prev next i e = DoUpsert (mk_upsert (anchor_before next i) e) /\ settle i e = (e, true))
  \/ exists p, settle i e = (p, false) /\ p ∈ prev /\ en_id p = en_id e
     /\ ((diff_entry prev next i e = Skip /\ entry_eqb p e = true)
         \/ exists a, diff_entry prev next i e = DoAppend a /\ try_text_append p e = Some a).
Proof.
  unfold settle. destruct (diff_entry prev next i e) eqn:E; unfold diff_entry in E;
    destruct (prev_by_id prev !! en_id e) as [[ix p]|] eqn:El; try done.
  - right. apply prev_by_id_lookup in El as [H1 H2]. exists p. simpl. split_and!; try done.
    { by eapply list_elem_of_lookup_2. }
    left. split; [done|]. destruct (entry_eqb p e && _) eqn:Ee; [by apply andb_true_iff in Ee as [? _]|].
    by destruct (if decide _ then _ else _).
  - right. apply prev_by_id_lookup in El as [H1 H2]. exists p. simpl. split_and!; try done.
    { by eapply list_elem_of_lookup_2. }
    right. exists a. split; [done|]. destruct (entry_eqb p e && _); [done|].
    case_decide; [|done]. destruct (try_text_append p e); [by injection E as ->|done].
  - left. split; [|done]. destruct (entry_eqb p e && _); [done|].
    by destruct (if decide _ then _ else _); [|injection E as <-].
  - left. split; [|done]. by injection E as <-.
Qed.

Lemma settle_id i e : en_id (settle i e).1 = en_id e.
Proof. destruct (diff_entry_cases i e) as [[_ ->]|(p & -> & _ & Hid & _)]; done. Qed.

Definition plan_of (n : nat) (l : list SessionMessageEntry) : list (SessionMessageEntry * bool) :=
  imap (fun i => settle (n + i)) l.
Definition actions_of (n : nat) (l : list SessionMessageEntry) : list diff_action :=
  imap (fun i => diff_entry prev next (n + i)) l.

Lemma imap_step {A B} (f : nat -> A -> B) n x l :
  imap (fun i => f (n + i)) (x :: l) = f n x :: imap (fun i => f (S n + i)) l.
Proof. rewrite imap_cons, Nat.add_0_r. f_equal. apply imap_ext. intros i y _. simpl. f_equal. lia. Qed.

Lemma plan_ids n l : entry_ids (plan_of n l).*1 = entry_ids l.
Proof.
  revert n. induction l as [|e l IH]; intros n; [done|]. unfold plan_of in *. rewrite imap_step.
  unfold entry_ids in *. rewrite !fmap_cons, settle_id. f_equal. apply IH.
Qed.

Lemma upserts_of_actions l pre :
  next = pre ++ l -> omap action_upsert (actions_of (length pre) l) = upserts_of (en_id <$> last pre) (plan_of (length pre) l).
Proof.
  revert pre. induction l as [|e l IH]; intros pre E; [done|].
  unfold actions_of, plan_of in *. rewrite !imap_step, list_omap_cons.
  specialize (IH (pre ++ [e])). rewrite length_app, last_snoc, Nat.add_1_r in IH. cbn [length] in IH.
  specialize (IH ltac:(by rewrite E, <- app_assoc)).
  pose proof (settle_id (length pre) e) as Hid.
  destruct (diff_entry_cases (length pre) e) as [[Hd Hs]|(p & Hs & _ & _ & [[Hd _]|(a & Hd & _)])];
    rewrite Hd, Hs in *; cbn [action_upsert upserts_of fst] in *; rewrite IH; try by rewrite Hid.
  f_equal. f_equal. rewrite E. destruct pre as [|a pre] using rev_ind; [done|].
  rewrite length_app, last_snoc, Nat.add_1_r, <- app_assoc. simpl. by rewrite list_lookup_middle.
Qed.

Lemma apply_appends l n settled :
  (forall e, e ∈ l -> NoDup (text_ids (en_parts e))) -> NoDup (entry_ids (settled ++ (plan_of n l).*1)) ->
  exists final, try_fold apply_append (settled ++ (plan_of n l).*1) (omap action_append (actions_of n l)) = Ok (settled ++ final)
    /\ Forall2 entry_equiv final l.
Proof.
  revert n settled. induction l as [|e l IH]; intros n settled Ht Hnd; [by exists []|].
  unfold actions_of, plan_of in *. rewrite !imap_step in *. rewrite list_omap_cons, fmap_cons in *.
  assert (Hgo : forall s, en_id s = en_id e -> entry_equiv s e ->
    exists final, try_fold apply_append (settled ++ s :: (imap (fun i => settle (S n + i)) l).*1)
      (omap action_append (imap (fun i => diff_entry prev next (S n + i)) l)) = Ok (settled ++ final)
      /\ Forall2 entry_equiv final (e :: l)).
  { intros s Hs He. destruct (IH (S n) (settled ++ [s])) as (final & Hf & Hfe).
    - intros x Hx. apply Ht. set_solver.
    - rewrite <- app_assoc. cbn [app]. unfold entry_ids in *. rewrite fmap_app, fmap_cons in *.
      by rewrite Hs, <- (settle_id n e).
    - exists (s :: final). rewrite <- !app_assoc in Hf. by split; [|constructor]. }
  destruct (diff_entry_cases n e) as [[Hd Hs]|(p & Hs & _ & Hid & [[Hd Heq]|(a & Hd & Hta)])];
    rewrite Hd, Hs in *; cbn [action_append fst] in *.
  - by apply Hgo.
  - apply Hgo; [done|]. by apply entry_eqb_equiv.
  - cbn [try_fold]. destruct (apply_append_step p e a settled (imap (fun i => settle (S n + i)) l).*1 Hta) as (n' & -> & Hn').
    + apply Ht. set_solver.
    + done.
    + apply Hgo; [apply Hn'|done].
Qed.

Lemma kept_ids p : NoDup (entry_ids p.*1) -> entry_ids (kept p) = base.filter (fun id => id ∉ later p) (entry_ids p.*1).
Proof.
  unfold entry_ids. induction p as [|[x b] p IH]; [done|]. rewrite !fmap_cons. intros [H1 H2]%NoDup_cons.
  specialize (IH H2). destruct b; cbn [kept later fst].
  - rewrite filter_cons_False by set_solver. rewrite IH.
    apply filter_ext_on. intros id Hin. rewrite not_elem_of_cons. naive_solver.
  - rewrite fmap_cons, filter_cons_True; [f_equal; exact IH|]. by intros Hin%later_sub.
Qed.
End roundtrip.

Lemma entries_by_ids (l a b : list SessionMessageEntry) :
  NoDup (entry_ids l) -> (forall e, e ∈ a -> e ∈ l) -> (forall e, e ∈ b -> e ∈ l) -> entry_ids a = entry_ids b -> a = b.
Proof.
  intros Hnd. revert b. induction a as [|x a IH]; intros [|y b] Ha Hb E; try done.
  injection E as Exy E. f_equal; [|apply IH; set_solver].
  destruct (locate_entry l x Hnd ltac:(set_solver)) as (l1 & l2 & -> & H1 & H2 & _).
  assert (y ∈ l1 ++ x :: l2) as [Hy|[->|Hy]%elem_of_cons]%elem_of_app by set_solver; [|done|].
  - destruct H1. rewrite Exy. by apply list_elem_of_fmap_2.
  - destruct H2. rewrite Exy. by apply list_elem_of_fmap_2.
Qed.

Lemma kept_in_prev prev next n l e : e ∈ kept (plan_of prev next n l) -> e ∈ prev.
Proof.
  revert n. induction l as [|x l IH]; intros n; [set_solver|]. unfold plan_of in *. rewrite imap_step.
  destruct (diff_entry_cases prev next n x) as [[_ ->]|(p & -> & Hp & _)]; cbn [kept]; [apply IH|].
  intros [->|Hin]%elem_of_cons; [done|by eapply IH].
Qed.

(** The entries that survive the removal, without those upserted later, are the
    kept entries of the plan when the survivors keep their relative order. *)
Lemma initial_kept prev next :
  NoDup (entry_ids prev) -> NoDup (entry_ids next) ->
  base.filter (fun id => id ∈ entry_ids next) (entry_ids prev)
    = base.filter (fun id => id ∈ entry_ids prev) (entry_ids next) ->
  let p := plan_of prev next 0 next in
  base.filter (fun e => en_id e ∉ later p) (base.filter (fun e => en_id e ∈ entry_ids next) prev) = kept p.
Proof.
  intros Hp Hn Hord p. apply (entries_by_ids prev); [done| | |].
  - intros e [_ [_ He]%list_elem_of_filter]%list_elem_of_filter. done.
  - apply kept_in_prev.
  - rewrite kept_ids by (subst p; by rewrite plan_ids).
    transitivity (base.filter (fun id => id ∉ later p) (base.filter (fun id => id ∈ entry_ids next) (entry_ids prev))).
    { change (entry_ids prev) with (en_id <$> prev). by rewrite !filter_fmap. }
    rewrite Hord, list_filter_filter. subst p. rewrite plan_ids.
    apply filter_ext_on. intros id Hid. split; [by intros []|]. intros Hl. split; [done|].
    assert (Hk : id ∈ entry_ids (kept (plan_of prev next 0 next))).
    { rewrite kept_ids, plan_ids by (by rewrite plan_ids). by apply list_elem_of_filter. }
    apply list_elem_of_fmap in Hk as (e & -> & He%kept_in_prev). by apply list_elem_of_fmap_2.
Qed.

(** C19. Replaying on a viewer's copy the frame the host computed brings the copy
    to the host's state, never to a desync error: for transcripts with distinct
    entry ids whose surviving entries keep their relative order (what a growing
    message list produces) and whose text parts have distinct ids within an
    entry (what the event fold produces), the result is the new transcript,
    entry by entry, up to [PartialEq] of the parts that were not sent. *)
Theorem transcript_roundtrip prev next :
  NoDup (entry_ids prev) -> NoDup (entry_ids next) ->
  base.filter (fun id => id ∈ entry_ids next) (entry_ids prev)
    = base.filter (fun id => id ∈ entry_ids prev) (entry_ids next) ->
  Forall (fun e => NoDup (text_ids (en_parts e))) next ->
  exists current, apply_transcript_frame prev (diff_transcript prev next) = Ok current
    /\ Forall2 entry_equiv current next.
Proof.
  intros Hp Hn Hord Ht. unfold diff_transcript. cbv zeta. destruct (_ && _).
  { exists next. split; [done|]. clear. induction next; by constructor. }
  unfold apply_transcript_frame. set (remove := base.filter _ (entry_ids prev)).
  assert (Hcur : match remove with [] => prev | _ :: _ => base.filter (fun e => en_id e ∉ remove) prev end
    = base.filter (fun e => en_id e ∈ entry_ids next) prev).
  { transitivity (base.filter (fun e => en_id e ∉ remove) prev).
    - destruct remove; [|done]. symmetry. apply filter_all. set_solver.
    - apply filter_ext_on. intros e He. subst remove. rewrite list_elem_of_filter, elem_of_list_to_set.
      assert (en_id e ∈ entry_ids prev) by by apply list_elem_of_fmap_2.
      destruct (decide (en_id e ∈ entry_ids next)); tauto. }
  rewrite Hcur.
  change (imap (diff_entry prev next) next) with (actions_of prev next (length (@nil SessionMessageEntry)) next).
  rewrite (upserts_of_actions prev next next []) by done.
  rewrite (apply_upserts (plan_of prev next 0 next) _ []).
  - cbn [result_bind].
    destruct (apply_appends prev next next 0 []) as (final & Hf & Heq).
    + by apply Forall_forall.
    + simpl. by rewrite plan_ids.
    + cbn [length app] in *. rewrite Hf. cbn [result_bind].
      rewrite (Forall2_length _ _ _ Heq), Nat.eqb_refl. eauto.
  - by apply entry_ids_filter.
  - simpl. by rewrite plan_ids.
  - by apply initial_kept.
Qed.

Definition demo_entry (id : string) (parts : list MessagePart) : SessionMessageEntry :=
  mk_entry id MR_Assistant parts 1 "dev" None None.

Lemma transcript_roundtrip_witness :
  let a := demo_entry "a" [MP_Text "t0" "one"] in
  let b := demo_entry "b" [MP_Text "t0" "two"] in
  let b' := demo_entry "b" [MP_Text "t0" "two, and more"] in
  let e := fun id => demo_entry id [] in
  let prev := [a; b; e "c"; e "d"; e "e"; e "f"; e "g"; e "h"]%string in
  let next := [a; b'; e "x"; e "c"; e "e"; e "f"; e "g"; e "h"]%string in
  (exists current, apply_transcript_frame prev (diff_transcript prev next) = Ok current
    /\ Forall2 entry_equiv current next)
  /\ diff_transcript prev next = Delta
      [mk_upsert (Some "b"%string) (e "x"%string); mk_upsert (Some "x"%string) (e "c"%string);
       mk_upsert (Some "c"%string) (e "e"%string)]
      [mk_append "b" "t0" ", and more" 13] ["d"%string] 8.
Proof.
  intros a b b' e prev next. split; [|by vm_compute].
  apply (transcript_roundtrip prev next).
  - by apply (bool_decide_unpack _).
  - by apply (bool_decide_unpack _).
  - by vm_compute.
  - by apply (bool_decide_unpack _).
Defined.

(** * The tripwire is not complete *)

(** Two kept runs that trade places: no error, the right count, a wrong order. *)
Lemma reordered_rows_diverge :
  let e := fun id => demo_entry id [] in
  let prev := [e "x"; e "k1"; e "y"; e "k2"]%string in
  let next := [e "y"; e "k2"; e "x"; e "k1"]%string in
  apply_transcript_frame prev (diff_transcript prev next) = Ok [e "y"; e "k1"; e "k2"; e "x"]%string.
Proof. by vm_compute. Qed.
