(* ===== verification/Llm.v ===== *)
(** Provider-neutral message and streaming vocabulary of the embedded loop:
    [crates/dsh/llm/src/types.rs], [message.rs], [brand.rs] and
    [call_config.rs].

    Branded ids are their strings.  A message id is minted by [uuid::new_v4]
    (third-party, and random): the definitions that build a message take the
    minted id as an argument. *)
From Stdlib Require Import ZArith String.
From stdpp Require Import base tactics list countable strings gmap.
From S2P Require Import Prelude Json.

Abbreviation CallId := string (only parsing).
Abbreviation MessageId := string (only parsing).
Abbreviation ProviderRequestId := string (only parsing).
Abbreviation ReasoningEffortId := string (only parsing).
Abbreviation SessionId := string (only parsing).

(** * Failures, blocks *)

Record LlmFailure := mk_failure {
  failure_message : string;
  failure_code : string;
  failure_status : option Z;
  provider_retry_after_ms : option f64;
  request_id : option ProviderRequestId;
}.
#[export] Instance LlmFailure_eq_dec : EqDecision LlmFailure.
Proof. solve_decision. Defined.

(** [LlmFailure::new]: message and code only. *)
Definition LlmFailure_new (message code : string) : LlmFailure := mk_failure message code None None None.

(** A typed adapter error: routable code, and the serialisable facts kept
    beside it.  [LlmError::new] and [with_facts] assert their arguments: [None]
    is that panic; [llm_error] is the value they build. *)
Record LlmError := mk_llm_error {
  err_message : string;
  err_code : string;
  err_failure : LlmFailure;
}.
#[export] Instance LlmError_eq_dec : EqDecision LlmError.
Proof. solve_decision. Defined.
Definition llm_error (message code : string) : LlmError := mk_llm_error message code (LlmFailure_new message code).
Definition LlmError_new (message code : string) : option LlmError :=
  if String.eqb message EmptyString || String.eqb code EmptyString then None else Some (llm_error message code).
Definition with_facts (status : option Z) (retry_after : option f64) (id : option ProviderRequestId) (e : LlmError)
    : option LlmError :=
  if match status with Some s => negb ((100 <=? s) && (s <=? 599))%Z | None => false end
     || match retry_after with Some d => negb (f64_is_finite d && f64_ltb f64_zero d) | None => false end
     || match id with Some i => String.eqb i EmptyString | None => false end
  then None
  else Some (mk_llm_error (err_message e) (err_code e)
    (mk_failure (failure_message (err_failure e)) (failure_code (err_failure e)) status retry_after id)).

Inductive BlockType := BT_Text | BT_Reasoning | BT_Image | BT_ToolCall | BT_ToolResult.
#[export] Instance BlockType_eq_dec : EqDecision BlockType.
Proof. solve_decision. Defined.

Inductive ContentBlock :=
| CB_Text (text : string)
| CB_Reasoning (text : string)
| CB_Image (attachment : Value)
| CB_ToolCall (id : CallId) (name arguments : string)
| CB_ToolResult (tool_call_id : CallId) (content : list ContentBlock) (is_error : option bool).

Definition block_type (b : ContentBlock) : BlockType :=
  match b with
  | CB_Text _ => BT_Text
  | CB_Reasoning _ => BT_Reasoning
  | CB_Image _ => BT_Image
  | CB_ToolCall _ _ _ => BT_ToolCall
  | CB_ToolResult _ _ _ => BT_ToolResult
  end.

(** [content_has_image]: the one recursive image walk. *)
Fixpoint block_has_image (b : ContentBlock) : bool :=
  match b with
  | CB_Image _ => true
  | CB_ToolResult _ content _ => existsb block_has_image content
  | _ => false
  end.
Definition content_has_image (content : list ContentBlock) : bool := existsb block_has_image content.

Section block_ind.
Context (P : ContentBlock -> Prop)
  (HText : forall t, P (CB_Text t)) (HReas : forall t, P (CB_Reasoning t))
  (HImage : forall a, P (CB_Image a)) (HCall : forall i n a, P (CB_ToolCall i n a))
  (HResult : forall i c e, Forall P c -> P (CB_ToolResult i c e)).
Fixpoint ContentBlock_ind' (b : ContentBlock) : P b :=
  match b with
  | CB_Text t => HText t
  | CB_Reasoning t => HReas t
  | CB_Image a => HImage a
  | CB_ToolCall i n a => HCall i n a
  | CB_ToolResult i c e => HResult i c e ((fix go l := match l return Forall P l with
      | [] => Forall_nil_2 _
      | b :: l => Forall_cons_2 _ _ _ (ContentBlock_ind' b) (go l) end) c)
  end.
End block_ind.

Definition block_leaf : Type :=
  (string + string) + (Value + (CallId * string * string)) + (CallId * option bool).

Fixpoint block_to_tree (b : ContentBlock) : gen_tree block_leaf :=
  match b with
  | CB_Text t => GenLeaf (inl (inl (inl t)))
  | CB_Reasoning t => GenLeaf (inl (inl (inr t)))
  | CB_Image a => GenLeaf (inl (inr (inl a)))
  | CB_ToolCall i n a => GenLeaf (inl (inr (inr (i, n, a))))
  | CB_ToolResult i c e => GenNode 0 (GenLeaf (inr (i, e)) :: (block_to_tree <$> c))
  end.

Fixpoint block_of_tree (t : gen_tree block_leaf) : ContentBlock :=
  match t with
  | GenLeaf (inl (inl (inl t))) => CB_Text t
  | GenLeaf (inl (inl (inr t))) => CB_Reasoning t
  | GenLeaf (inl (inr (inl a))) => CB_Image a
  | GenLeaf (inl (inr (inr (i, n, a)))) => CB_ToolCall i n a
  | GenNode _ (GenLeaf (inr (i, e)) :: c) => CB_ToolResult i (block_of_tree <$> c) e
  | _ => CB_Text EmptyString
  end.

Lemma block_of_to_tree b : block_of_tree (block_to_tree b) = b.
Proof.
  induction b as [| | | |i c e IH] using ContentBlock_ind'; simpl; try done.
  f_equal. induction IH as [|b c Hb _ IHc]; simpl; [done|]. rewrite Hb. f_equal. exact IHc.
Qed.

#[export] Instance block_to_tree_inj : Inj (=) (=) block_to_tree.
Proof. intros b1 b2 E. by rewrite <- (block_of_to_tree b1), <- (block_of_to_tree b2), E. Qed.

#[export] Instance ContentBlock_eq_dec : EqDecision ContentBlock.
Proof.
  intros b1 b2. destruct (decide (block_to_tree b1 = block_to_tree b2)) as [E|E].
  - left. by apply (inj block_to_tree).
  - right. by intros ->.
Defined.

#[export] Instance ContentBlock_countable : Countable ContentBlock.
Proof. refine (inj_countable' block_to_tree block_of_tree block_of_to_tree). Defined.

(** * Messages *)

Record AssistantProvenance := mk_provenance {
  prov_provider : string;
  prov_model : string;
  prov_replay_state : option Value;
}.
#[export] Instance AssistantProvenance_eq_dec : EqDecision AssistantProvenance.
Proof. solve_decision. Defined.

Inductive ContextForm :=
| CF_Instructions
| CF_Catalog
| CF_Snapshot (sections : list (string * string))
| CF_Notice (summary : string)
| CF_Relay
| CF_Recall.
#[export] Instance ContextForm_eq_dec : EqDecision ContextForm.
Proof. solve_decision. Defined.

Inductive MessageSource :=
| MS_User
| MS_Plugin (plugin : string) (form : option ContextForm)
| MS_Model (provenance : AssistantProvenance)
| MS_Tool (call_id : CallId).
#[export] Instance MessageSource_eq_dec : EqDecision MessageSource.
Proof. solve_decision. Defined.

Inductive Role := R_System | R_User | R_Assistant.
#[export] Instance Role_eq_dec : EqDecision Role.
Proof. solve_decision. Defined.

Record Message := mk_message {
  msg_id : MessageId;
  msg_role : Role;
  msg_content : list ContentBlock;
  msg_source : MessageSource;
}.
#[export] Instance Message_eq_dec : EqDecision Message.
Proof. solve_decision. Defined.

(** Messages are countable, so that a concrete encoding exists. *)
#[export] Instance Role_countable : Countable Role.
Proof.
  refine (inj_countable' (fun r => match r with R_System => None | R_User => Some true | R_Assistant => Some false end)
    (fun o => match o with None => R_System | Some true => R_User | Some false => R_Assistant end) _). by intros [].
Defined.
#[export] Instance AssistantProvenance_countable : Countable AssistantProvenance.
Proof.
  refine (inj_countable' (fun p => (prov_provider p, prov_model p, prov_replay_state p))
    (fun t => mk_provenance t.1.1 t.1.2 t.2) _). by intros [].
Defined.
#[export] Instance ContextForm_countable : Countable ContextForm.
Proof.
  refine (inj_countable'
    (fun f : ContextForm => match f with
      | CF_Instructions => inl 0 | CF_Catalog => inl 1 | CF_Relay => inl 2 | CF_Recall => inl 3
      | CF_Snapshot s => inr (inl s) | CF_Notice s => inr (inr s)
      end)
    (fun t : nat + (list (string * string) + string) => match t with
      | inl 0 => CF_Instructions | inl 1 => CF_Catalog | inl 2 => CF_Relay | inl _ => CF_Recall
      | inr (inl s) => CF_Snapshot s | inr (inr s) => CF_Notice s
      end) _). by intros [].
Defined.
#[export] Instance MessageSource_countable : Countable MessageSource.
Proof.
  refine (inj_countable'
    (fun s => match s with
      | MS_User => inl (inl tt) | MS_Plugin p f => inl (inr (p, f))
      | MS_Model p => inr (inl p) | MS_Tool c => inr (inr c)
      end)
    (fun t => match t with
      | inl (inl _) => MS_User | inl (inr (p, f)) => MS_Plugin p f
      | inr (inl p) => MS_Model p | inr (inr c) => MS_Tool c
      end) _). by intros [].
Defined.
#[export] Instance Message_countable : Countable Message.
Proof.
  refine (inj_countable' (fun m => (msg_id m, msg_role m, msg_content m, msg_source m))
    (fun t => mk_message t.1.1.1 t.1.1.2 t.1.2 t.2) _). by intros [].
Defined.

(** The derived [PartialEq] of blocks and messages: the JSON values inside
    compare floats by value, so it is coarser than Leibniz equality. *)
Fixpoint block_eqb (a b : ContentBlock) {struct a} : bool :=
  match a, b with
  | CB_Text x, CB_Text y | CB_Reasoning x, CB_Reasoning y => bool_decide (x = y)
  | CB_Image x, CB_Image y => value_eqb x y
  | CB_ToolCall i1 n1 a1, CB_ToolCall i2 n2 a2 => bool_decide (i1 = i2) && bool_decide (n1 = n2) && bool_decide (a1 = a2)
  | CB_ToolResult i1 c1 e1, CB_ToolResult i2 c2 e2 =>
      bool_decide (i1 = i2)
      && (fix go (x y : list ContentBlock) : bool :=
            match x, y with
            | [], [] => true
            | v :: x', w :: y' => block_eqb v w && go x' y'
            | _, _ => false
            end) c1 c2
      && bool_decide (e1 = e2)
  | _, _ => false
  end.
Definition source_eqb (a b : MessageSource) : bool :=
  match a, b with
  | MS_Model p, MS_Model q =>
      bool_decide (prov_provider p = prov_provider q) && bool_decide (prov_model p = prov_model q)
      && option_eqb value_eqb (prov_replay_state p) (prov_replay_state q)
  | MS_User, MS_User => true
  | MS_Plugin p f, MS_Plugin q g => bool_decide (p = q) && bool_decide (f = g)
  | MS_Tool i, MS_Tool j => bool_decide (i = j)
  | _, _ => false
  end.
Definition message_eqb (a b : Message) : bool :=
  bool_decide (msg_id a = msg_id b) && bool_decide (msg_role a = msg_role b)
  && list_eqb block_eqb (msg_content a) (msg_content b) && source_eqb (msg_source a) (msg_source b).

(** [create_message], with the freshly minted id as an argument. *)
Definition create_message (id : MessageId) (role : Role) (content : list ContentBlock) (source : MessageSource) : Message :=
  mk_message id role content source.
Definition create_user_message (id : MessageId) (content : list ContentBlock) (source : MessageSource) : Message :=
  create_message id R_User content source.
(** [create_tool_result_message]: a user-role message whose single block
    keeps the call correlation. *)
Definition create_tool_result_message (id : MessageId) (call_id : CallId) (content : list ContentBlock) (is_error : bool) : Message :=
  create_user_message id [CB_ToolResult call_id content (Some is_error)] (MS_Tool call_id).

(** * Streaming *)

Inductive FinishReason :=
| FR_Stop
| FR_ToolCalls
| FR_MaxTokens
| FR_Aborted (failure : LlmFailure)
| FR_Error (failure : LlmFailure).
#[export] Instance FinishReason_eq_dec : EqDecision FinishReason.
Proof. solve_decision. Defined.

Record TokenUsage := mk_usage {
  input_tokens : Z;
  output_tokens : Z;
  cache_read_tokens : option Z;
  cache_write_tokens : option Z;
  reasoning_tokens : option Z;
}.
#[export] Instance TokenUsage_eq_dec : EqDecision TokenUsage.
Proof. solve_decision. Defined.

Inductive StreamChunk :=
| SC_BlockStart (index : Z) (bt : BlockType)
| SC_TextDelta (index : Z) (text : string)
| SC_ReasoningDelta (index : Z) (text : string)
| SC_ToolCallDelta (index : Z) (id : CallId) (name : option string) (arguments_delta : string)
| SC_BlockEnd (index : Z) (block : ContentBlock)
| SC_Usage (usage : TokenUsage)
| SC_Finish (reason : FinishReason) (replay_state : option Value).
#[export] Instance StreamChunk_eq_dec : EqDecision StreamChunk.
Proof. solve_decision. Defined.

(** [is_token_delta]: the first-token boundary; empty deltas do not count. *)
Definition is_token_delta (chunk : StreamChunk) : bool :=
  match chunk with
  | SC_TextDelta _ text | SC_ReasoningDelta _ text => negb (String.eqb text EmptyString)
  | SC_ToolCallDelta _ _ name arguments_delta =>
      negb (String.eqb arguments_delta EmptyString) || bool_decide (is_Some name)
  | _ => false
  end.

(** * Call configuration *)

Record LlmCallConfig := mk_call_config {
  cfg_provider : string;
  cfg_model : string;
  cfg_reasoning_effort : option ReasoningEffortId;
  cfg_temperature : option f64;
  cfg_max_tokens : option Z;
  cfg_stop : option (list string);
}.

Record LlmCallConfigAdapterDefaults := mk_adapter_defaults {
  ad_reasoning_effort : option bool;
  ad_max_tokens : option bool;
}.
#[export] Instance LlmCallConfigAdapterDefaults_eq_dec : EqDecision LlmCallConfigAdapterDefaults.
Proof. solve_decision. Defined.

(** [call_config_equals]: the derived field-wise [PartialEq]. *)
Definition call_config_equals (a b : LlmCallConfig) : bool :=
  bool_decide (cfg_provider a = cfg_provider b)
  && bool_decide (cfg_model a = cfg_model b)
  && bool_decide (cfg_reasoning_effort a = cfg_reasoning_effort b)
  && option_eqb f64_eqb (cfg_temperature a) (cfg_temperature b)
  && bool_decide (cfg_max_tokens a = cfg_max_tokens b)
  && bool_decide (cfg_stop a = cfg_stop b).

(** JSON-schema description of a tool ([ToolSchema]). *)
Record ToolSchema := mk_tool_schema {
  ts_name : string;
  ts_description : string;
  ts_parameters : list (string * Value);
}.
#[export] Instance ToolSchema_eq_dec : EqDecision ToolSchema.
Proof. solve_decision. Defined.
