(* ===== verification/Model.v ===== *)
(** Model requests and model metadata: the rest of [crates/dsh/llm/src/types.rs]
    and the call-configuration projection of [call_config.rs].

    A cancellation handle ([AbortSignal]) is an identity; whether it is aborted
    is read from the environment at the points where the code asks. *)
From Stdlib Require Import ZArith String.
From stdpp Require Import base tactics list countable strings gmap.
From S2P Require Import Prelude Json Llm.

Inductive ModelModality := MM_Text | MM_Image.
#[export] Instance ModelModality_eq_dec : EqDecision ModelModality.
Proof. solve_decision. Defined.

Record LlmModelInfo := mk_model_info {
  mi_provider : string;
  mi_id : string;
  mi_name : string;
  mi_description : option string;
  mi_input_modalities : option (list ModelModality);
}.

Record LlmProviderInfo := mk_provider_info { pi_id : string; pi_name : string }.

Record LlmReasoningEffortInfo := mk_effort {
  eff_id : ReasoningEffortId;
  eff_name : string;
  eff_description : option string;
}.

Record LlmModelReasoningInfo := mk_reasoning_info {
  ri_efforts : list LlmReasoningEffortInfo;
  ri_default_effort : option ReasoningEffortId;
}.

(** [context]'s only field, the window in tokens, stands for it. *)
Record LlmResolvedModelInfo := mk_resolved_model {
  rm_provider : string;
  rm_id : string;
  rm_name : string;
  rm_description : option string;
  rm_input_modalities : option (list ModelModality);
  rm_context : option Z;
  rm_default_max_tokens : option Z;
  rm_reasoning : option LlmModelReasoningInfo;
}.
Definition LlmResolvedModelInfo_bare (provider model : string) : LlmResolvedModelInfo :=
  mk_resolved_model provider model model None None None None None.

(** * Requests *)

Inductive CallPurpose := CP_Compaction | CP_SessionTitle.
#[export] Instance CallPurpose_eq_dec : EqDecision CallPurpose.
Proof. solve_decision. Defined.

Abbreviation AbortSignal := nat (only parsing).

Record GenerateOptions := mk_options {
  go_provider : string;
  go_model : string;
  go_reasoning_effort : option ReasoningEffortId;
  go_messages : list Message;
  go_system : option string;
  go_tools : option (list ToolSchema);
  go_temperature : option f64;
  go_max_tokens : option Z;
  go_stop : option (list string);
  go_signal : option AbortSignal;
  go_session_id : option SessionId;
  go_purpose : option CallPurpose;
  go_agent_loop : bool;
}.

Definition mark_agent_loop_request (r : GenerateOptions) : GenerateOptions :=
  mk_options (go_provider r) (go_model r) (go_reasoning_effort r) (go_messages r) (go_system r) (go_tools r)
    (go_temperature r) (go_max_tokens r) (go_stop r) (go_signal r) (go_session_id r) (go_purpose r) true.

(** [LlmCallConfig::of] and [apply_to]. *)
Definition config_of (o : GenerateOptions) : LlmCallConfig :=
  mk_call_config (go_provider o) (go_model o) (go_reasoning_effort o) (go_temperature o) (go_max_tokens o) (go_stop o).
Definition apply_to (c : LlmCallConfig) (o : GenerateOptions) : GenerateOptions :=
  mk_options (cfg_provider c) (cfg_model c) (cfg_reasoning_effort c) (go_messages o) (go_system o) (go_tools o)
    (cfg_temperature c) (cfg_max_tokens c) (cfg_stop c) (go_signal o) (go_session_id o) (go_purpose o) (go_agent_loop o).
Definition options_match_config (o : GenerateOptions) (c : LlmCallConfig) : bool := call_config_equals (config_of o) c.

Definition set_messages (ms : list Message) (o : GenerateOptions) : GenerateOptions :=
  mk_options (go_provider o) (go_model o) (go_reasoning_effort o) ms (go_system o) (go_tools o)
    (go_temperature o) (go_max_tokens o) (go_stop o) (go_signal o) (go_session_id o) (go_purpose o) (go_agent_loop o).

Lemma config_of_apply_to c o : config_of (apply_to c o) = c.
Proof. by destruct c. Qed.
