(* ===== verification/SessionEvents.v ===== *)
(** Session vocabulary: [crates/dsh/session/src/types.rs].

    Times and sequence numbers are [u64]s.  The [append] and [replace] tags of
    [SurfaceOp] are single-variant enums and carry nothing. *)
From Stdlib Require Import ZArith Lia Ascii String.
From stdpp Require Import base tactics numbers list strings gmap.
From S2P Require Import Prelude Json Llm.

Definition SESSION_FORMAT_VERSION : Z := 0.

Inductive SessionOrigin := Subagent.

Record SessionHeader := mk_session_header {
  sh_version : Z;
  sh_id : SessionId;
  sh_created_at : Z;
  sh_cwd : option string;
  sh_parent_session : option SessionId;
  sh_seed_length : option Z;
  sh_origin : option SessionOrigin;
  sh_delegation_depth : option Z;
  sh_agent_preset : option string;
}.

Record SessionMeta := mk_session_meta {
  sm_cwd : option string;
  sm_parent_session : option SessionId;
  sm_created_at : option Z;
  sm_seed_length : option Z;
  sm_origin : option SessionOrigin;
  sm_delegation_depth : option Z;
  sm_agent_preset : option string;
}.
Definition SessionMeta_default : SessionMeta := mk_session_meta None None None None None None None.

Inductive AgentCancelCause :=
| ACC_User
| ACC_Parent
| ACC_Hook (reason : string)
| ACC_Disposed
| ACC_Legacy.
#[export] Instance AgentCancelCause_eq_dec : EqDecision AgentCancelCause.
Proof. solve_decision. Defined.

Inductive TurnEndReason :=
| TE_Completed
| TE_Aborted (reason : AgentCancelCause)
| TE_Blocked
| TE_Error (error : LlmFailure)
| TE_MaxTokens
| TE_Interrupted.
#[export] Instance TurnEndReason_eq_dec : EqDecision TurnEndReason.
Proof. solve_decision. Defined.

Inductive TodoStatus := TS_Pending | TS_InProgress | TS_Completed.
Record TodoItem := mk_todo_item { ti_content : string; ti_status : TodoStatus }.

Record EpochHeader := mk_epoch_header {
  eh_config : LlmCallConfig;
  eh_adapter_defaults : option LlmCallConfigAdapterDefaults;
  eh_system : option string;
  eh_tools : option (list ToolSchema);
}.

Record RequestContext := mk_request_context {
  rc_provider : string;
  rc_model : string;
  rc_context_window : option Z;
}.

Inductive RequestHeaderReason := RH_Initial | RH_Resume | RH_Change.

Record ToolErrorRef := mk_tool_error_ref { ter_name : string; ter_code : string }.
#[export] Instance ToolErrorRef_eq_dec : EqDecision ToolErrorRef.
Proof. solve_decision. Defined.

Inductive SessionEventData :=
| TurnStart (turn : Z)
| TurnEnd (turn : Z) (reason : TurnEndReason)
| StepStart (turn step : Z)
| StepEnd (turn step : Z)
| UserMessage (message : Message)
| AssistantChunk (turn step : Z) (chunk : StreamChunk)
| AssistantMessage (turn step : Z) (message : Message) (usage : option TokenUsage)
| ToolCall (turn step : Z) (call_id : CallId) (name arguments : string)
| ToolResult (turn step : Z) (message : Message) (error : option ToolErrorRef) (meta : option Value)
| TodoWrite (todos : list TodoItem)
| RequestHeader (header : EpochHeader) (reason : RequestHeaderReason)
| RequestContextEvent (context : RequestContext)
| SessionEndSeed
| Extension (extension_type : string) (data : Value).

Definition data_type (d : SessionEventData) : string :=
  match d with
  | TurnStart _ => "turn/start"
  | TurnEnd _ _ => "turn/end"
  | StepStart _ _ => "step/start"
  | StepEnd _ _ => "step/end"
  | UserMessage _ => "user/message"
  | AssistantChunk _ _ _ => "assistant/chunk"
  | AssistantMessage _ _ _ _ => "assistant/message"
  | ToolCall _ _ _ _ _ => "tool/call"
  | ToolResult _ _ _ _ _ => "tool/result"
  | TodoWrite _ => "todo/write"
  | RequestHeader _ _ => "request/header"
  | RequestContextEvent _ => "request/context"
  | SessionEndSeed => "session/end-seed"
  | Extension extension_type _ => extension_type
  end.

Inductive SurfaceOp := SO_Append | SO_Replace (start end_ : Z).
#[export] Instance SurfaceOp_eq_dec : EqDecision SurfaceOp.
Proof. solve_decision. Defined.

Record SurfaceIntent := mk_intent {
  si_surface_op : option SurfaceOp;
  si_source_event_seqs : option (list Z);
}.
(** [SurfaceIntent::default()], [append()] and [append_with_sources()]. *)
Definition intent_default : SurfaceIntent := mk_intent None None.
Definition intent_append : SurfaceIntent := mk_intent (Some SO_Append) None.
Definition intent_append_with_sources (sources : list Z) : SurfaceIntent := mk_intent (Some SO_Append) (Some sources).

Record SessionEvent := mk_event {
  ev_seq : Z;
  ev_time : Z;
  ev_data : SessionEventData;
  ev_source_event_seqs : option (list Z);
  ev_surface_op : option SurfaceOp;
  ev_ignorable : option bool;
}.
Definition event_type (e : SessionEvent) : string := data_type (ev_data e).
