(* ===== verification/Surface.v ===== *)
(** The ordered surface over the session log: [crates/dsh/session/src/surface.rs].

    The error strings are constructors of [SurfaceError] that keep the numbers
    the texts are built from. *)
From Stdlib Require Import ZArith Lia Ascii String.
From stdpp Require Import base tactics numbers list strings gmap sorting.
From S2P Require Import Prelude Json Llm SessionEvents.
Open Scope keel_scope.

Definition is_surface_eligible_type (event_type : string) : bool :=
  bool_decide (event_type ∈ ["user/message"; "assistant/message"; "tool/result"]%string).
Definition is_surface_event (event : SessionEvent) : bool :=
  is_surface_eligible_type (event_type event) && bool_decide (is_Some (ev_surface_op event)).
Definition is_append_surface_event (event : SessionEvent) : bool :=
  match ev_surface_op event with Some SO_Append => is_surface_event event | _ => false end.
Definition is_replacement_surface_event (event : SessionEvent) : bool :=
  match ev_surface_op event with Some (SO_Replace _ _) => is_surface_event event | _ => false end.

Definition derive_event_message (event : SessionEvent) : option Message :=
  match ev_data event with
  | UserMessage message => Some message
  | AssistantMessage _ _ message _ => match msg_content message with [] => None | _ => Some message end
  | ToolResult _ _ message _ _ => Some message
  | _ => None
  end.

Record SurfaceFoldReplacement := mk_replacement {
  sr_seq : Z; sr_start : Z; sr_end : Z; sr_shadowed_seqs : list Z
}.
Record SurfaceFoldResult := mk_fold_result {
  sf_nodes : list Z; sf_replacements : list SurfaceFoldReplacement
}.
Record FoldState := mk_fold_state { fs_nodes : list Z; fs_replace_generation : Z }.
Definition FoldState_default : FoldState := mk_fold_state [] 0.

Inductive SurfacePlan :=
| PlanAppend (seq : Z)
| PlanReplace (seq start end_ : Z) (start_idx end_idx : nat) (shadowed : list Z).

Inductive SurfaceError :=
| NotEligibleOp
| NotEligibleSources
| RequiresOp
| EmptySources
| DuplicateSources
| LaterSource (source seq : Z)
| MissingShadowed (missing : list Z)
| RewriteOneNode
| RewriteTarget
| RewriteContentOnly
| NotContiguous (seq expected : Z)
| StartNotFound (start : Z)
| EndNotFound (end_ : Z)
| StartAfterEnd (start end_ : Z).

Definition surface_op_of (event : SessionEvent) : result (option SurfaceOp) SurfaceError :=
  if negb (is_surface_eligible_type (event_type event)) then
    if bool_decide (is_Some (ev_surface_op event)) then Err NotEligibleOp
    else if bool_decide (is_Some (ev_source_event_seqs event)) then Err NotEligibleSources
    else Ok None
  else match ev_surface_op event with
       | None => Err RequiresOp
       | Some op => Ok (Some op)
       end.

(** The loop over the raw sources; [sources] are those already accepted. *)
Fixpoint collect_sources (seq : Z) (sources raw : list Z) : result (list Z) SurfaceError :=
  match raw with
  | [] => Ok sources
  | source :: raw' =>
      if decide (source ∈ sources) then Err DuplicateSources
      else if decide (seq <= source)%Z then Err (LaterSource source seq)
      else collect_sources seq (sources ++ [source]) raw'
  end.

Definition assert_provenance (event : SessionEvent) (shadowed : list Z) : result unit SurfaceError :=
  let? sources :=
    match ev_source_event_seqs event with
    | Some raw =>
        if bool_decide (raw = []) && negb (bool_decide (event_type event = "assistant/message"%string)) then Err EmptySources
        else collect_sources (ev_seq event) [] raw
    | None => Ok []
    end in
  match base.filter (fun seq => seq ∉ sources) shadowed with
  | [] => Ok tt
  | missing => Err (MissingShadowed missing)
  end.

Definition strip_content (message : Message) : Message :=
  mk_message (msg_id message) (msg_role message)
    (match msg_content message with
     | CB_ToolResult id _ is_error :: rest => CB_ToolResult id [] is_error :: rest
     | content => content
     end) (msg_source message).

Definition assert_tool_result_rewrite (event : SessionEvent) (shadowed : list Z) (events : list SessionEvent)
    (base_seq : Z) : result unit SurfaceError :=
  match ev_data event with
  | ToolResult turn step message error meta =>
      match shadowed with
      | [original_seq] =>
          match events !! Z.to_nat (u64_wrap (original_seq - base_seq)) with
          | Some original =>
              match ev_data original with
              | ToolResult original_turn original_step original_message original_error original_meta =>
                  if bool_decide (turn = original_turn) && bool_decide (step = original_step)
                     && bool_decide (error = original_error) && option_eqb value_eqb meta original_meta
                     && message_eqb (strip_content message) (strip_content original_message)
                  then Ok tt
                  else Err RewriteContentOnly
              | _ => Err RewriteTarget
              end
          | None => Err RewriteTarget
          end
      | _ => Err RewriteOneNode
      end
  | _ => Ok tt
  end.

Definition plan_surface_event (state : FoldState) (event : SessionEvent) (expected_seq : Z)
    (events : list SessionEvent) (base_seq : Z) : result (option SurfacePlan) SurfaceError :=
  if negb (bool_decide (ev_seq event = expected_seq)) then Err (NotContiguous (ev_seq event) expected_seq)
  else
    let? op := surface_op_of event in
    match op with
    | None => Ok None
    | Some SO_Append =>
        let? _ := assert_provenance event [] in
        Ok (Some (PlanAppend (ev_seq event)))
    | Some (SO_Replace start end_) =>
        let? start_idx := ok_or (position (fun seq => bool_decide (seq = start)) (fs_nodes state)) (StartNotFound start) in
        let? end_idx := ok_or (position (fun seq => bool_decide (seq = end_)) (fs_nodes state)) (EndNotFound end_) in
        if end_idx <? start_idx then Err (StartAfterEnd start end_)
        else
          let shadowed := take (S end_idx - start_idx) (drop start_idx (fs_nodes state)) in
          let? _ := assert_provenance event shadowed in
          let? _ := assert_tool_result_rewrite event shadowed events base_seq in
          Ok (Some (PlanReplace (ev_seq event) start end_ start_idx end_idx shadowed))
    end.

Definition apply_surface_plan (state : FoldState) (plan : option SurfacePlan)
    : FoldState * option SurfaceFoldReplacement :=
  match plan with
  | Some (PlanAppend seq) => (mk_fold_state (fs_nodes state ++ [seq]) (fs_replace_generation state), None)
  | Some (PlanReplace seq start end_ start_idx end_idx shadowed) =>
      (mk_fold_state (fst (splice start_idx (S end_idx - start_idx) [seq] (fs_nodes state)))
         (u64_succ (fs_replace_generation state)),
       Some (mk_replacement seq start end_ shadowed))
  | None => (state, None)
  end.

(** One iteration of [fold_surface] at [index]. *)
Definition fold_surface_step (events : list SessionEvent) (s : FoldState * list SurfaceFoldReplacement)
    (ie : nat * SessionEvent) : result (FoldState * list SurfaceFoldReplacement) SurfaceError :=
  let? plan := plan_surface_event (fst s) (snd ie) (Z.of_nat (fst ie)) events 0 in
  let '(state, replacement) := apply_surface_plan (fst s) plan in
  Ok (state, snd s ++ option_list replacement).

Definition fold_surface_state (events : list SessionEvent) : result (FoldState * list SurfaceFoldReplacement) SurfaceError :=
  try_fold (fold_surface_step events) (FoldState_default, []) (imap pair events).
Definition fold_surface (events : list SessionEvent) : result SurfaceFoldResult SurfaceError :=
  let? s := fold_surface_state events in
  Ok (mk_fold_result (fs_nodes (fst s)) (snd s)).

(** * The incremental manager *)

Record SurfaceManager := mk_manager { mg_state : FoldState; mg_processed : nat }.
Definition SurfaceManager_default : SurfaceManager := mk_manager FoldState_default 0.

Definition validate_next (m : SurfaceManager) (log : list SessionEvent) (event : SessionEvent) : result unit SurfaceError :=
  let? _ := plan_surface_event (mg_state m) event (Z.of_nat (length log)) log 0 in Ok tt.

(** The [while] loop of [commit]: one iteration per unprocessed event; the
    [expect] is the error. *)
Definition commit_step (log : list SessionEvent) (m : SurfaceManager) (event : SessionEvent)
    : result SurfaceManager SurfaceError :=
  let? plan := plan_surface_event (mg_state m) event (Z.of_nat (mg_processed m)) log 0 in
  Ok (mk_manager (fst (apply_surface_plan (mg_state m) plan)) (S (mg_processed m))).
Definition commit (m : SurfaceManager) (log : list SessionEvent) : result SurfaceManager SurfaceError :=
  try_fold (commit_step log) m (drop (mg_processed m) log).

(** * Invariant of the fold *)

Definition surface_seqs (events : list SessionEvent) : list Z :=
  ev_seq <$> base.filter (fun e => is_surface_event e = true) events.

(** A replacement is accounted for by its event, which cites everything it hides. *)
Definition replacement_cited (events : list SessionEvent) (r : SurfaceFoldReplacement) : Prop :=
  exists e sources, e ∈ events /\ ev_seq e = sr_seq r /\ ev_source_event_seqs e = Some sources
    /\ ev_surface_op e = Some (SO_Replace (sr_start r) (sr_end r))
    /\ sr_shadowed_seqs r <> [] /\ sr_shadowed_seqs r ⊆ sources /\ Forall (fun s => (s < sr_seq r)%Z) sources.

Record surface_inv (events : list SessionEvent) (s : FoldState * list SurfaceFoldReplacement) : Prop := {
  si_seqs : forall i e, events !! i = Some e -> ev_seq e = Z.of_nat i;
  si_nodup : NoDup (fs_nodes (fst s));
  si_conserved : fs_nodes (fst s) ++ concat (sr_shadowed_seqs <$> snd s) ≡ₚ surface_seqs events;
  si_cited : Forall (replacement_cited events) (snd s);
  si_generation : fs_replace_generation (fst s) = u64_wrap (Z.of_nat (length (snd s)));
}.

Lemma surface_seqs_snoc events e :
  surface_seqs (events ++ [e]) = surface_seqs events ++ (if is_surface_event e then [ev_seq e] else []).
Proof.
  unfold surface_seqs. rewrite filter_app, fmap_app. f_equal. rewrite filter_cons.
  destruct (is_surface_event e); by simpl.
Qed.

Lemma surface_inv_node events s n :
  surface_inv events s -> n ∈ fs_nodes (fst s) ->
  exists i e, n = Z.of_nat i /\ events !! i = Some e /\ is_surface_event e = true.
Proof.
  intros [H1 _ H3 _ _] Hn.
  assert (Hin : n ∈ surface_seqs events) by (rewrite <- H3; set_solver).
  unfold surface_seqs in Hin. apply list_elem_of_fmap in Hin as (e & -> & [He Hin]%list_elem_of_filter).
  apply list_elem_of_lookup in Hin as (i & Hi). exists i, e. split_and!; try done. by apply H1.
Qed.

Lemma surface_op_of_Ok event op :
  surface_op_of event = Ok op ->
  ev_surface_op event = op /\ is_surface_event event = bool_decide (is_Some op).
Proof.
  unfold surface_op_of, is_surface_event. destruct (is_surface_eligible_type _); simpl.
  - destruct (ev_surface_op event); [|done]. by intros [= <-].
  - case_bool_decide as Ho; [done|]. case_bool_decide; [done|]. intros [= <-].
    split; [by apply eq_None_not_Some|]. done.
Qed.

Lemma collect_sources_spec seq sources raw out :
  collect_sources seq sources raw = Ok out ->
  out = sources ++ raw /\ Forall (fun s => (s < seq)%Z) raw.
Proof.
  revert sources. induction raw as [|x raw IH]; intros sources; simpl.
  - intros [= <-]. by rewrite app_nil_r.
  - case_decide; [done|]. case_decide; [done|]. intros [-> HF]%IH. split; [by rewrite <- app_assoc|].
    constructor; [lia|done].
Qed.

Lemma assert_provenance_Ok event shadowed :
  assert_provenance event shadowed = Ok tt ->
  forall x, x ∈ shadowed -> exists raw, ev_source_event_seqs event = Some raw /\ shadowed ⊆ raw
    /\ Forall (fun s => (s < ev_seq event)%Z) raw.
Proof.
  unfold assert_provenance. intros (sources & Hs & Hm)%result_bind_Ok x Hx.
  assert (Hsub : shadowed ⊆ sources).
  { intros y Hy. destruct (decide (y ∈ sources)) as [?|Hn]; [done|].
    assert (y ∈ base.filter (fun seq => seq ∉ sources) shadowed) as Hin by by apply list_elem_of_filter.
    destruct (base.filter _ _); [by apply elem_of_nil in Hin|done]. }
  destruct (ev_source_event_seqs event) as [raw|].
  - destruct (bool_decide (raw = []) && _); [done|].
    apply collect_sources_spec in Hs as [-> HF]. by exists raw.
  - injection Hs as <-. apply Hsub in Hx. by apply elem_of_nil in Hx.
Qed.

Lemma replacement_cited_snoc events e r : replacement_cited events r -> replacement_cited (events ++ [e]) r.
Proof. intros (x & src & Hx & Hrest). exists x, src. split; [set_solver|done]. Qed.

Lemma nodes_range (nodes : list Z) a b i j :
  nodes !! i = Some a -> nodes !! j = Some b -> i <= j ->
  let shadowed := take (S j - i) (drop i nodes) in
  nodes = take i nodes ++ shadowed ++ drop (S j) nodes /\ shadowed <> [].
Proof.
  intros Hi Hj Hij shadowed. subst shadowed. split.
  - rewrite <- (take_drop i nodes) at 1. f_equal. rewrite <- (take_drop (S j - i) (drop i nodes)) at 1.
    f_equal. rewrite drop_drop. f_equal. lia.
  - rewrite (drop_S nodes a i) by done. by rewrite Nat.sub_succ_l by lia.
Qed.

Lemma splice_permutation {A} (a b c shadowed : list A) x :
  (a ++ [x] ++ b) ++ c ++ shadowed ≡ₚ ((a ++ shadowed ++ b) ++ c) ++ [x].
Proof.
  rewrite <- !app_assoc. apply Permutation_app_head.
  rewrite (Permutation_app_comm shadowed), <- !app_assoc, !app_assoc. apply Permutation_app_tail.
  rewrite <- app_assoc. apply Permutation_app_comm.
Qed.

(** One planned event keeps the invariant. *)
Lemma plan_step_inv full events s event plan :
  surface_inv events s ->
  plan_surface_event (fst s) event (Z.of_nat (length events)) full 0 = Ok plan ->
  let '(state, replacement) := apply_surface_plan (fst s) plan in
  surface_inv (events ++ [event]) (state, snd s ++ option_list replacement).
Proof.
  intros [H1 H2 H3 H4 H5] Hp. unfold plan_surface_event in Hp.
  destruct (bool_decide _) eqn:Hseq; [|done]. apply bool_decide_eq_true in Hseq. simpl in Hp.
  apply result_bind_Ok in Hp as (op & Hop & Hp). apply surface_op_of_Ok in Hop as [Ho Hsurf].
  assert (Hseqs : forall i e, (events ++ [event]) !! i = Some e -> ev_seq e = Z.of_nat i).
  { intros i e [[Hi He]|[-> ->]]%lookup_snoc_Some; [eauto|done]. }
  assert (Hfresh : ev_seq event ∉ fs_nodes (fst s)).
  { intros Hin. destruct (surface_inv_node events s (ev_seq event)) as (i & e & Hi & He & _); [by split|done|].
    apply lookup_lt_Some in He. lia. }
  assert (H4' : Forall (replacement_cited (events ++ [event])) (snd s)).
  { eapply Forall_impl; [exact H4|]. intros r. apply replacement_cited_snoc. }
  destruct op as [[|start end_]|]; cbn beta iota in Hp.
  - apply result_bind_Ok in Hp as ([] & _ & Hp). injection Hp as <-. simpl. rewrite app_nil_r.
    split; simpl; try done.
    + apply NoDup_app. split_and!; [done|set_solver|by repeat constructor; set_solver].
    + rewrite surface_seqs_snoc, Hsurf. simpl. rewrite <- H3. by rewrite <- !app_assoc, (Permutation_app_comm [_]).
  - apply result_bind_Ok in Hp as (i & Hi & Hp). apply result_bind_Ok in Hp as (j & Hj & Hp).
    destruct (position _ _) as [i'|] eqn:Ei in Hi; [|done]. injection Hi as ->.
    destruct (position _ _) as [j'|] eqn:Ej in Hj; [|done]. injection Hj as ->.
    apply position_Some in Ei as (a & Ha & _), Ej as (b & Hb & _).
    destruct (j <? i) eqn:Hij; [done|]. apply Nat.ltb_ge in Hij. cbv zeta in Hp.
    destruct (nodes_range _ _ _ _ _ Ha Hb Hij) as [Hsplit Hne].
    set (shadowed := take (S j - i) (drop i (fs_nodes (fst s)))) in *.
    apply result_bind_Ok in Hp as ([] & Hprov & Hp). apply result_bind_Ok in Hp as ([] & _ & Hp). injection Hp as <-.
    cbn [apply_surface_plan option_list fst snd].
    assert (Hsp : fst (splice i (S j - i) [ev_seq event] (fs_nodes (fst s)))
      = take i (fs_nodes (fst s)) ++ [ev_seq event] ++ drop (S j) (fs_nodes (fst s))).
    { unfold splice. simpl. do 3 f_equal. lia. }
    split; cbn [fst snd fs_nodes fs_replace_generation]; rewrite ?Hsp; try done.
    + rewrite Hsplit in H2, Hfresh. apply NoDup_app in H2 as (Hn1 & Hn2 & Hn3).
      apply NoDup_app in Hn3 as (_ & Hn4 & Hn5). apply NoDup_app. split_and!; [done| |].
      * intros x Hx. specialize (Hn2 x Hx). set_solver.
      * apply NoDup_app. split_and!; [by repeat constructor; set_solver|set_solver|done].
    + rewrite fmap_app, concat_app. simpl. rewrite app_nil_r, surface_seqs_snoc, Hsurf. simpl.
      rewrite <- H3. etransitivity; [apply splice_permutation|]. by rewrite <- Hsplit.
    + apply Forall_app. split; [done|]. apply Forall_singleton.
      destruct shadowed as [|x sh] eqn:Esh; [done|].
      destruct (assert_provenance_Ok _ _ Hprov x) as (raw & Hraw & Hsub & Hlt); [set_solver|].
      exists event, raw. simpl. split_and!; try done. set_solver.
    + rewrite H5, length_app. simpl. unfold u64_succ, u64_add, u64_wrap. rewrite Nat2Z.inj_add.
      by rewrite Zplus_mod_idemp_l.
  - injection Hp as <-. simpl. rewrite app_nil_r. split; simpl; try done.
    rewrite surface_seqs_snoc, Hsurf. by rewrite app_nil_r.
Qed.

(** Planning looks at the log only through the nodes. *)
Lemma plan_depends_on_nodes state event expected full1 full2 :
  (forall n, n ∈ fs_nodes state -> full1 !! Z.to_nat (u64_wrap (n - 0)) = full2 !! Z.to_nat (u64_wrap (n - 0))) ->
  plan_surface_event state event expected full1 0 = plan_surface_event state event expected full2 0.
Proof.
  intros H. unfold plan_surface_event. destruct (negb _); [done|].
  destruct (surface_op_of event) as [[[|start end_]|]|]; try done. cbn [result_bind].
  destruct (position (fun seq => bool_decide (seq = start)) _) as [i|]; [|done].
  destruct (position (fun seq => bool_decide (seq = end_)) _) as [j|]; [|done]. simpl.
  destruct (j <? i); [done|]. destruct (assert_provenance _ _); [|done]. simpl.
  replace (assert_tool_result_rewrite event (take (S j - i) (drop i (fs_nodes state))) full2 0)
    with (assert_tool_result_rewrite event (take (S j - i) (drop i (fs_nodes state))) full1 0); [done|].
  unfold assert_tool_result_rewrite. destruct (ev_data event); try done.
  destruct (take _ (drop i _)) as [|n [|]] eqn:E; try done. rewrite H; [done|].
  eapply subseteq_drop, subseteq_take. rewrite E. set_solver.
Qed.

Definition fold_prefix (full p : list SessionEvent) : result (FoldState * list SurfaceFoldReplacement) SurfaceError :=
  try_fold (fold_surface_step full) (FoldState_default, []) (imap pair p).

Lemma fold_prefix_snoc full p e :
  fold_prefix full (p ++ [e]) =
  result_bind (fold_prefix full p) (fun s => fold_surface_step full s (length p, e)).
Proof.
  unfold fold_prefix. rewrite imap_app. cbn [imap]. rewrite Nat.add_0_r. apply try_fold_snoc.
Qed.

Lemma fold_prefix_inv full p s : fold_prefix full p = Ok s -> surface_inv p s.
Proof.
  revert s. induction p as [|e p IH] using rev_ind; intros s.
  - intros [= <-]. split; simpl; try done. constructor.
  - rewrite fold_prefix_snoc. intros (t & Ht & Hs)%result_bind_Ok. specialize (IH t Ht).
    unfold fold_surface_step in Hs. apply result_bind_Ok in Hs as (plan & Hp & Hs). cbn [fst snd] in *.
    pose proof (plan_step_inv full p t e plan IH Hp) as Hinv.
    destruct (apply_surface_plan (fst t) plan). by injection Hs as <-.
Qed.

(** Sizes stay below the [u64] range, as any log in memory does. *)
Definition fits_u64 {A} (l : list A) : Prop := (Z.of_nat (length l) < u64_modulus)%Z.

Lemma fold_prefix_full p : forall full1 full2, fits_u64 p -> p `prefix_of` full1 -> p `prefix_of` full2 ->
  fold_prefix full1 p = fold_prefix full2 p.
Proof.
  induction p as [|e p IH] using rev_ind; intros full1 full2 Hfit H1 H2; [done|].
  rewrite !fold_prefix_snoc.
  assert (Hfit' : fits_u64 p) by (unfold fits_u64 in *; rewrite length_app in Hfit; simpl in Hfit; lia).
  rewrite (IH full1 full2) by eauto using prefix_app_l.
  destruct (fold_prefix full2 p) as [s|] eqn:E; [|done]. simpl. unfold fold_surface_step. cbn [fst snd].
  rewrite (plan_depends_on_nodes _ _ _ full1 full2); [done|]. intros n Hn.
  destruct (surface_inv_node p s n) as (i & x & -> & Hx & _); [by eapply fold_prefix_inv|done|].
  rewrite Z.sub_0_r, u64_wrap_small, Nat2Z.id.
  - apply prefix_app_l in H1, H2. by rewrite (prefix_lookup_Some _ _ _ _ Hx H1), (prefix_lookup_Some _ _ _ _ Hx H2).
  - apply lookup_lt_Some in Hx. unfold fits_u64 in *. lia.
Qed.

(** The batch fold is its own incremental step: what [validate_next] and
    [commit] compute for the last event is what [fold_surface] does with it. *)
Lemma fold_surface_state_snoc log e :
  fits_u64 log ->
  fold_surface_state (log ++ [e]) =
  result_bind (fold_surface_state log) (fun s => fold_surface_step log s (length log, e)).
Proof.
  intros Hfit. unfold fold_surface_state. fold (fold_prefix (log ++ [e]) (log ++ [e])). fold (fold_prefix log log).
  rewrite fold_prefix_snoc, (fold_prefix_full log (log ++ [e]) log) by (done || by apply prefix_app_r).
  destruct (fold_prefix log log) as [s|] eqn:E; [|done]. simpl. unfold fold_surface_step. cbn [fst snd].
  rewrite (plan_depends_on_nodes _ _ _ (log ++ [e]) log); [done|]. intros n Hn.
  destruct (surface_inv_node log s n) as (i & x & -> & Hx & _); [by eapply fold_prefix_inv|done|].
  pose proof (lookup_lt_Some _ _ _ Hx). rewrite Z.sub_0_r, u64_wrap_small, Nat2Z.id; [|unfold fits_u64 in *; lia].
  by rewrite lookup_app_l.
Qed.

(** The surface loses nothing and hides nothing silently.  In any log the
    fold accepts, sequence numbers are positions; every message-producing event
    is either on the surface exactly once or shadowed by exactly one
    replacement; and each replacement is an event of the log that hides a
    non-empty range and cites, among strictly earlier events, everything it hides. *)
Theorem surface_conservation events r :
  fold_surface events = Ok r ->
  (forall i e, events !! i = Some e -> ev_seq e = Z.of_nat i)
  /\ NoDup (sf_nodes r)
  /\ sf_nodes r ++ concat (sr_shadowed_seqs <$> sf_replacements r) ≡ₚ surface_seqs events
  /\ Forall (replacement_cited events) (sf_replacements r).
Proof.
  unfold fold_surface. intros (s & Hs & Hr)%result_bind_Ok. injection Hr as <-.
  by destruct (fold_prefix_inv _ _ _ Hs) as [? ? ? ? _].
Qed.

Definition demo_user (seq : Z) (text : string) (op : SurfaceOp) (sources : option (list Z)) : SessionEvent :=
  mk_event seq 5 (UserMessage (create_user_message "m" [CB_Text text] MS_User)) sources (Some op) None.

Lemma surface_conservation_witness :
  let log := [mk_event 0 5 (TurnStart 1) None None None; demo_user 1 "a" SO_Append None; demo_user 2 "b" SO_Append None;
              demo_user 3 "c" SO_Append None; demo_user 4 "a+b" (SO_Replace 1 2) (Some [2; 1]%Z)] in
  fold_surface log = Ok (mk_fold_result [4; 3]%Z [mk_replacement 4 1 2 [1; 2]%Z])
  /\ NoDup [4; 3]%Z
  /\ [4; 3]%Z ++ concat [[1; 2]%Z] ≡ₚ surface_seqs log.
Proof.
  intros log. assert (E : fold_surface log = Ok (mk_fold_result [4; 3]%Z [mk_replacement 4 1 2 [1; 2]%Z])) by by vm_compute.
  destruct (surface_conservation log _ E) as (_ & H1 & H2 & _). split; [exact E|]. by split.
Defined.

(** * The manager is the batch fold, one event at a time *)

Definition manager_ok (log : list SessionEvent) (m : SurfaceManager) : Prop :=
  mg_processed m = length log /\ exists replacements, fold_surface_state log = Ok (mg_state m, replacements).

Lemma manager_ok_default : manager_ok [] SurfaceManager_default.
Proof. split; [done|]. by exists []. Qed.

Lemma is_ok_fold_surface log : is_ok (fold_surface log) = is_ok (fold_surface_state log).
Proof. unfold fold_surface. by destruct (fold_surface_state log). Qed.

Lemma validate_next_spec log m e :
  manager_ok log m -> fits_u64 log ->
  is_ok (validate_next m log e) = is_ok (fold_surface (log ++ [e])).
Proof.
  intros [_ (rs & Hf)] Hfit. rewrite is_ok_fold_surface, fold_surface_state_snoc, Hf by done.
  unfold validate_next, fold_surface_step. cbn [fst snd result_bind].
  destruct (plan_surface_event _ _ _ _ _) as [plan|]; [|done]. cbn [result_bind].
  by destruct (apply_surface_plan _ plan).
Qed.

Lemma commit_spec log m e :
  manager_ok log m -> fits_u64 log -> validate_next m log e = Ok tt ->
  exists m', commit m (log ++ [e]) = Ok m' /\ manager_ok (log ++ [e]) m'
    /\ ((fs_nodes (mg_state m') = fs_nodes (mg_state m) /\ fs_replace_generation (mg_state m') = fs_replace_generation (mg_state m))
        \/ (fs_nodes (mg_state m') = fs_nodes (mg_state m) ++ [ev_seq e]
            /\ fs_replace_generation (mg_state m') = fs_replace_generation (mg_state m))
        \/ fs_replace_generation (mg_state m') = u64_succ (fs_replace_generation (mg_state m))).
Proof.
  intros [Hp (rs & Hf)] Hfit Hv. unfold validate_next in Hv. apply result_bind_Ok in Hv as (plan & Hplan & _).
  unfold commit. rewrite Hp, drop_app_length. cbn [try_fold]. unfold commit_step at 1.
  pose proof (fold_prefix_inv log log _ Hf) as Hinv.
  rewrite (plan_depends_on_nodes _ _ _ (log ++ [e]) log), Hp, Hplan.
  - cbn [result_bind]. eexists. split; [done|]. split.
    + split; [simpl; rewrite length_app; simpl; lia|].
      rewrite fold_surface_state_snoc, Hf by done. cbn [result_bind]. unfold fold_surface_step. cbn [fst snd].
      rewrite Hplan. cbn [result_bind]. destruct (apply_surface_plan _ plan) as [st rep]. cbn [mg_state fst]. eauto.
    + assert (Hs : forall seq, plan = Some (PlanAppend seq) -> seq = ev_seq e).
      { intros seq ->. revert Hplan. unfold plan_surface_event. destruct (negb _); [done|].
        destruct (surface_op_of e) as [[[|start end_]|]|]; try done; cbn [result_bind].
        - destruct (assert_provenance e []); [|done]. by intros [= ->].
        - destruct (position (fun s => bool_decide (s = start)) _); [|done].
          destruct (position (fun s => bool_decide (s = end_)) _); [|done]. simpl.
          destruct (_ <? _); [done|]. destruct (assert_provenance _ _); [|done]. simpl.
          by destruct (assert_tool_result_rewrite _ _ _ _). }
      destruct plan as [[seq|seq start end_ i j sh]|]; simpl.
      * right. left. by rewrite (Hs seq).
      * by right; right.
      * by left.
  - intros n Hn. destruct (surface_inv_node log _ n Hinv Hn) as (i & x & -> & Hx & _).
    pose proof (lookup_lt_Some _ _ _ Hx). rewrite Z.sub_0_r, u64_wrap_small, Nat2Z.id; [|unfold fits_u64 in *; lia].
    by rewrite lookup_app_l.
Qed.
