(* ===== verification/HeaderFold.v ===== *)
(** Request-header reconstruction: [crates/dsh/session/src/header_fold.rs].

    [serde_json::to_string] of a tool schema is a parameter of [header_equals]. *)
From Stdlib Require Import ZArith Lia Ascii String.
From stdpp Require Import base tactics numbers list strings gmap.
From S2P Require Import Prelude Json Llm SessionEvents.

Definition filter_option {A} (p : A -> bool) (o : option A) : option A :=
  match o with Some x => if p x then Some x else None | None => None end.

Definition canonical_header (header : EpochHeader) : EpochHeader :=
  mk_epoch_header (eh_config header)
    (filter_option (fun d => bool_decide (ad_reasoning_effort d = Some true) || bool_decide (ad_max_tokens d = Some true))
       (eh_adapter_defaults header))
    (filter_option (fun s => negb (bool_decide (s = EmptyString))) (eh_system header))
    (filter_option (fun t => negb (bool_decide (t = []))) (eh_tools header)).

Definition fold_header_event (state : option EpochHeader) (event : SessionEvent) : option EpochHeader :=
  match ev_data event with
  | RequestHeader header _ => Some (canonical_header header)
  | _ => state
  end.
Definition fold_request_header (events : list SessionEvent) (from : option EpochHeader) : option EpochHeader :=
  foldl fold_header_event from events.

Section equality.
(** [serde_json::to_string(schema).ok()]. *)
Context (to_string : ToolSchema -> option string).

Definition header_equals (a b : EpochHeader) : bool :=
  if negb (call_config_equals (eh_config a) (eh_config b))
     || negb (bool_decide ((eh_adapter_defaults a ≫= ad_reasoning_effort) = (eh_adapter_defaults b ≫= ad_reasoning_effort)))
     || negb (bool_decide ((eh_adapter_defaults a ≫= ad_max_tokens) = (eh_adapter_defaults b ≫= ad_max_tokens)))
     || negb (bool_decide (eh_system a = eh_system b))
  then false
  else
    let at_ := default [] (eh_tools a) in
    let bt := default [] (eh_tools b) in
    (length at_ =? length bt) && forallb (fun ab => bool_decide (to_string (fst ab) = to_string (snd ab))) (zip at_ bt).
End equality.

(** The incremental fold of the live session is the fold of the whole log. *)
Lemma fold_request_header_app l1 l2 from :
  fold_request_header (l1 ++ l2) from = fold_request_header l2 (fold_request_header l1 from).
Proof. apply foldl_app. Qed.

Lemma filter_option_idem {A} (p : A -> bool) o : filter_option p (filter_option p o) = filter_option p o.
Proof. destruct o as [x|]; simpl; [|done]. destruct (p x) eqn:E; simpl; [by rewrite E|done]. Qed.

Lemma canonical_header_idem h : canonical_header (canonical_header h) = canonical_header h.
Proof. unfold canonical_header. simpl. by rewrite !filter_option_idem. Qed.

Lemma fold_request_header_canonical events h :
  fold_request_header events None = Some h -> canonical_header h = h.
Proof.
  assert (H : forall from, (forall x, from = Some x -> canonical_header x = x) ->
    forall x, fold_request_header events from = Some x -> canonical_header x = x).
  { induction events as [|e events IH]; intros from Hfrom x; [apply Hfrom|]. simpl. apply IH. intros y.
    unfold fold_header_event. destruct (ev_data e); try apply Hfrom. intros [= <-]. apply canonical_header_idem. }
  by apply H.
Qed.
