(* ===== verification/Session.v ===== *)
(** The event-sourced session: [crates/dsh/session/src/session.rs].

    A session is the record [Session] below; its [RefCell]s and [Cell]s are the
    fields, threaded explicitly.  The clock and [Path::is_absolute] are
    arguments.  The publisher installed by the store is a function that, given
    the session and the committed event, lists the operations its listeners
    perform on the session while the append is being published. *)
From Stdlib Require Import ZArith Lia Ascii String.
From stdpp Require Import base tactics numbers list strings gmap.
From S2P Require Import Prelude Json Llm SessionEvents Surface HeaderFold.
Open Scope keel_scope.

Inductive SessionError :=
| Reentrant
| InvalidEvent (e : SurfaceError)
| SeedNotContiguous (index : nat) (seq : Z)
| InvalidSeedEvent (index : nat) (e : SurfaceError)
| BadHeaderVersion (version : Z)
| HeaderIdMismatch (header_id id : SessionId)
| CwdNotAbsolute (cwd : string)
| AlreadyExists (id : SessionId)
| AlreadyAttached (id : SessionId)
| NotLive (id : SessionId)
| AlreadyAnnounced (id : SessionId)
| EffectFailed (message : string)
(** [expect("committed events were validated before append")] and an index out
    of bounds: panics, which the theorems exclude. *)
| Panicked.

Record Session := mk_session {
  ss_log : list SessionEvent;
  ss_surface : SurfaceManager;
  ss_header : SessionHeader;
  ss_first_live_seq : Z;
  ss_appending : bool;
  ss_derived : list Message;
  ss_derived_nodes : nat;
  ss_derived_generation : Z;
  ss_header_fold : option EpochHeader;
  ss_header_fold_seq : nat;
  ss_context_fold : option RequestContext;
  ss_context_fold_seq : nat;
}.

Definition set_log (log : list SessionEvent) (surface : SurfaceManager) (s : Session) : Session :=
  mk_session log surface (ss_header s) (ss_first_live_seq s) (ss_appending s) (ss_derived s) (ss_derived_nodes s)
    (ss_derived_generation s) (ss_header_fold s) (ss_header_fold_seq s) (ss_context_fold s) (ss_context_fold_seq s).
Definition set_appending (b : bool) (s : Session) : Session :=
  mk_session (ss_log s) (ss_surface s) (ss_header s) (ss_first_live_seq s) b (ss_derived s) (ss_derived_nodes s)
    (ss_derived_generation s) (ss_header_fold s) (ss_header_fold_seq s) (ss_context_fold s) (ss_context_fold_seq s).
Definition set_derived (derived : list Message) (nodes : nat) (generation : Z) (s : Session) : Session :=
  mk_session (ss_log s) (ss_surface s) (ss_header s) (ss_first_live_seq s) (ss_appending s) derived nodes
    generation (ss_header_fold s) (ss_header_fold_seq s) (ss_context_fold s) (ss_context_fold_seq s).
Definition set_header_fold (fold : option EpochHeader) (seq : nat) (s : Session) : Session :=
  mk_session (ss_log s) (ss_surface s) (ss_header s) (ss_first_live_seq s) (ss_appending s) (ss_derived s)
    (ss_derived_nodes s) (ss_derived_generation s) fold seq (ss_context_fold s) (ss_context_fold_seq s).
Definition set_context_fold (fold : option RequestContext) (seq : nat) (s : Session) : Session :=
  mk_session (ss_log s) (ss_surface s) (ss_header s) (ss_first_live_seq s) (ss_appending s) (ss_derived s)
    (ss_derived_nodes s) (ss_derived_generation s) (ss_header_fold s) (ss_header_fold_seq s) fold seq.

Definition surface_nodes (s : Session) : list Z := fs_nodes (mg_state (ss_surface s)).
Definition replace_generation (s : Session) : Z := fs_replace_generation (mg_state (ss_surface s)).
Definition session_seq (s : Session) : Z := Z.of_nat (length (ss_log s)).

(** * Reading *)

Definition request_header (s : Session) : Session * option EpochHeader :=
  let s :=
    if ss_header_fold_seq s <? length (ss_log s)
    then set_header_fold (fold_request_header (drop (ss_header_fold_seq s) (ss_log s)) (ss_header_fold s))
           (length (ss_log s)) s
    else s in
  (s, ss_header_fold s).

Definition fold_context_event (state : option RequestContext) (event : SessionEvent) : option RequestContext :=
  match ev_data event with RequestContextEvent context => Some context | _ => state end.

Definition request_context (s : Session) : Session * option RequestContext :=
  let s :=
    if ss_context_fold_seq s <? length (ss_log s)
    then set_context_fold (foldl fold_context_event (ss_context_fold s) (drop (ss_context_fold_seq s) (ss_log s)))
           (length (ss_log s)) s
    else s in
  (s, ss_context_fold s).

(** The loop over the new nodes; [None] is an index panic. *)
Definition derive_step (log : list SessionEvent) (derived : list Message) (seq : Z) : result (list Message) SessionError :=
  let? event := ok_or (log !! Z.to_nat seq) Panicked in
  Ok (derived ++ option_list (derive_event_message event)).

Definition derive_messages (s : Session) : Session * result (list Message) SessionError :=
  let generation := replace_generation s in
  let s := if bool_decide (generation = ss_derived_generation s) then s else set_derived [] 0 generation s in
  let nodes := surface_nodes s in
  match try_fold (derive_step (ss_log s)) (ss_derived s) (drop (ss_derived_nodes s) nodes) with
  | Ok derived => (set_derived derived (length nodes) (ss_derived_generation s) s, Ok derived)
  | Err e => (s, Err e)
  end.

(** * Appending *)

Section append.
(** What the attached publisher does with the session once an event is
    committed; the identity when no store is attached. *)
Context (publish : Session -> SessionEvent -> Session).

Definition append (now : Z) (data : SessionEventData) (intent : option SurfaceIntent) (s : Session)
    : Session * result SessionEvent SessionError :=
  if ss_appending s then (s, Err Reentrant)
  else
    let intent := default intent_default intent in
    let event := mk_event (Z.of_nat (length (ss_log s))) now data (si_source_event_seqs intent) (si_surface_op intent) None in
    match validate_next (ss_surface s) (ss_log s) event with
    | Err e => (s, Err (InvalidEvent e))
    | Ok _ =>
        let log := ss_log s ++ [event] in
        match commit (ss_surface s) log with
        | Err _ => (set_log log (ss_surface s) s, Err Panicked)
        | Ok surface =>
            let s := set_log log surface s in
            let s := set_appending true s in
            let s := publish s event in
            (set_appending false s, Ok event)
        end
    end.
End append.

(** What a listener may do with the session it is handed. *)
Inductive SessionOp :=
| OpAppend (now : Z) (data : SessionEventData) (intent : option SurfaceIntent)
| OpRequestHeader
| OpRequestContext
| OpDeriveMessages.

Definition run_op (publish : Session -> SessionEvent -> Session) (s : Session) (op : SessionOp) : Session :=
  match op with
  | OpAppend now data intent => fst (append publish now data intent s)
  | OpRequestHeader => fst (request_header s)
  | OpRequestContext => fst (request_context s)
  | OpDeriveMessages => fst (derive_messages s)
  end.

(** Listeners run while [appending] is set: a nested append is refused before
    its own publication could start. *)
Definition listeners (ops : Session -> SessionEvent -> list SessionOp) (s : Session) (event : SessionEvent) : Session :=
  foldl (run_op (fun s _ => s)) s (ops s event).

(** * Creation *)

Section create.
Context (is_absolute : string -> bool).

Definition validate_header (id : SessionId) (header : SessionHeader) : result unit SessionError :=
  if negb (bool_decide (sh_version header = SESSION_FORMAT_VERSION)) then Err (BadHeaderVersion (sh_version header))
  else if negb (bool_decide (sh_id header = id)) then Err (HeaderIdMismatch (sh_id header) id)
  else match sh_cwd header with
       | Some cwd => if is_absolute cwd then Ok tt else Err (CwdNotAbsolute cwd)
       | None => Ok tt
       end.

(** One iteration of the seed loop. *)
Definition seed_step (st : list SessionEvent * SurfaceManager) (ie : nat * SessionEvent)
    : result (list SessionEvent * SurfaceManager) SessionError :=
  let '(index, event) := ie in
  let '(log, surface) := st in
  if negb (bool_decide (ev_seq event = Z.of_nat index)) then Err (SeedNotContiguous index (ev_seq event))
  else
    let? _ := map_err (InvalidSeedEvent index) (validate_next surface log event) in
    let log := log ++ [event] in
    let? surface := map_err (fun _ => Panicked) (commit surface log) in
    Ok (log, surface).

Definition is_end_seed (event : SessionEvent) : bool :=
  match ev_data event with SessionEndSeed => true | _ => false end.

Definition create (now : Z) (id : SessionId) (seed : list SessionEvent) (header : option SessionHeader)
    : result Session SessionError :=
  let? st := try_fold seed_step ([], SurfaceManager_default) (imap pair seed) in
  let '(log, surface) := st in
  let? header :=
    match header with
    | Some header => let? _ := validate_header id header in Ok header
    | None => Ok (mk_session_header SESSION_FORMAT_VERSION id now None None None None None None)
    end in
  let session := mk_session log surface header (Z.of_nat (length log)) false [] 0 0 None 0 None 0 in
  if negb (bool_decide (seed = [])) && negb (from_option is_end_seed false (last log)) then
    let '(session, r) := append (fun s _ => s) now SessionEndSeed None session in
    let? _ := r in Ok session
  else Ok session.
End create.

(** * Forking *)

Inductive ForkError :=
| InvalidBoundary (boundary : Z) (last_seq : option Z)
| OpenTurn (boundary turn : Z).

Definition is_turn_boundary (event : SessionEvent) : bool :=
  match ev_data event with TurnStart _ | TurnEnd _ _ => true | _ => false end.

(** [iter().rev().find(p)]. *)
Definition rfind {A} (p : A -> bool) (l : list A) : option A := List.find p (reverse l).

Definition fork_seed (s : Session) (boundary : option Z) : result (list SessionEvent) ForkError :=
  let events := ss_log s in
  match (match boundary with Some b => Some b | None => ev_seq <$> last events end) with
  | None => Ok []
  | Some boundary =>
      if (Z.of_nat (length events) <=? boundary)%Z then Err (InvalidBoundary boundary (ev_seq <$> last events))
      else
        let prefix := take (S (Z.to_nat boundary)) events in
        match rfind is_turn_boundary prefix with
        | Some event =>
            match ev_data event with
            | TurnStart turn => Err (OpenTurn boundary turn)
            | _ => Ok prefix
            end
        | None => Ok prefix
        end
  end.

(** What no operation on a session changes. *)
Definition frame (s : Session) : SessionHeader * Z := (ss_header s, ss_first_live_seq s).

(** * The invariant of a session *)

(** The messages of the surface nodes, read from the log. *)
Definition node_message (log : list SessionEvent) (n : Z) : option Message :=
  e ← log !! Z.to_nat n; derive_event_message e.
Definition node_messages (log : list SessionEvent) (nodes : list Z) : list Message := omap (node_message log) nodes.

Record session_inv (s : Session) : Prop := {
  inv_manager : manager_ok (ss_log s) (ss_surface s);
  inv_generation : (ss_derived_generation s <= replace_generation s)%Z;
  inv_derived : ss_derived_generation s = replace_generation s ->
    ss_derived_nodes s <= length (surface_nodes s)
    /\ ss_derived s = node_messages (ss_log s) (take (ss_derived_nodes s) (surface_nodes s));
  inv_header : ss_header_fold_seq s <= length (ss_log s)
    /\ ss_header_fold s = fold_request_header (take (ss_header_fold_seq s) (ss_log s)) None;
  inv_context : ss_context_fold_seq s <= length (ss_log s)
    /\ ss_context_fold s = foldl fold_context_event None (take (ss_context_fold_seq s) (ss_log s));
}.

Lemma manager_nodes log m n :
  manager_ok log m -> n ∈ fs_nodes (mg_state m) -> exists i e, n = Z.of_nat i /\ log !! i = Some e.
Proof.
  intros [_ (rs & Hf)] Hn. destruct (surface_inv_node log (mg_state m, rs) n) as (i & e & Hi & He & _); [|done|eauto].
  by apply (fold_prefix_inv log log).
Qed.

(** The replacement counter never reaches the wrap-around. *)
Lemma manager_generation log m :
  manager_ok log m -> fits_u64 log -> (0 <= fs_replace_generation (mg_state m) <= Z.of_nat (length log))%Z.
Proof.
  intros [_ (rs & Hf)] Hfit. destruct (fold_prefix_inv log log _ Hf) as [_ _ H3 H4 H5]. simpl in *.
  assert (length rs <= length log).
  { assert (H : length rs <= length (concat (sr_shadowed_seqs <$> rs))).
    { clear -H4. induction H4 as [|r rs (e & src & _ & _ & _ & _ & Hne & _) _ IH]; [done|].
      rewrite fmap_cons. simpl. rewrite length_app. destruct (sr_shadowed_seqs r); [done|]. simpl. lia. }
    apply Permutation_length in H3. rewrite length_app in H3. unfold surface_seqs in H3. rewrite length_fmap in H3.
    pose proof (length_filter (fun e => is_surface_event e = true) log). lia. }
  unfold fits_u64 in *. rewrite H5, u64_wrap_small; lia.
Qed.

Lemma node_messages_snoc log e nodes :
  (forall n, n ∈ nodes -> Z.to_nat n < length log) -> node_messages (log ++ [e]) nodes = node_messages log nodes.
Proof.
  intros H. unfold node_messages. induction nodes as [|n nodes IH]; [done|]. rewrite !list_omap_cons.
  assert (E : node_message (log ++ [e]) n = node_message log n).
  { unfold node_message. by rewrite lookup_app_l by (apply H; set_solver). }
  rewrite E, IH; [done|]. intros; apply H; set_solver.
Qed.

(** ** Reads *)

Lemma derive_steps log derived nodes :
  (forall n, n ∈ nodes -> exists e, log !! Z.to_nat n = Some e) ->
  try_fold (derive_step log) derived nodes = Ok (derived ++ node_messages log nodes).
Proof.
  revert derived. induction nodes as [|n nodes IH]; intros derived H; cbn [try_fold]; [by rewrite app_nil_r|].
  unfold derive_step at 1. destruct (H n) as (e & He); [set_solver|]. rewrite He. cbn [ok_or result_bind].
  rewrite IH by (intros; apply H; set_solver). f_equal. rewrite <- app_assoc. f_equal.
  unfold node_messages. rewrite list_omap_cons. unfold node_message at 2. rewrite He. simpl.
  by destruct (derive_event_message e).
Qed.

Lemma derive_messages_spec s :
  session_inv s ->
  let '(s', r) := derive_messages s in
  r = Ok (node_messages (ss_log s) (surface_nodes s)) /\ session_inv s'
  /\ ss_log s' = ss_log s /\ ss_surface s' = ss_surface s /\ ss_appending s' = ss_appending s /\ frame s' = frame s.
Proof.
  intros [H1 H2 H3 H4 H5]. unfold derive_messages. cbv zeta.
  assert (Hn : forall n, n ∈ surface_nodes s -> exists e, ss_log s !! Z.to_nat n = Some e).
  { intros n Hn. destruct (manager_nodes _ _ _ H1 Hn) as (i & e & -> & He). exists e. by rewrite Nat2Z.id. }
  case_bool_decide as Hg; simpl.
  - destruct (H3 (eq_sym Hg)) as [Hle Hd]. change (surface_nodes s) with (surface_nodes s).
    rewrite derive_steps by (intros n Hin; apply Hn; by eapply subseteq_drop).
    assert (E : ss_derived s ++ node_messages (ss_log s) (drop (ss_derived_nodes s) (surface_nodes s))
      = node_messages (ss_log s) (surface_nodes s)).
    { rewrite Hd. unfold node_messages. by rewrite <- omap_app, take_drop. }
    rewrite E. split_and!; try done. split; try done. simpl. intros _. split; [done|]. by rewrite firstn_all.
  - rewrite derive_steps by (intros n Hin; apply Hn; by eapply subseteq_drop). rewrite drop_0. cbn [app].
    split_and!; try done. split; try done. simpl. intros _. split; [done|]. unfold surface_nodes. simpl. by rewrite firstn_all.
Qed.

Lemma foldl_take_drop {A B} (f : A -> B -> A) x n l : foldl f (foldl f x (take n l)) (drop n l) = foldl f x l.
Proof. by rewrite <- foldl_app, take_drop. Qed.

Lemma request_header_spec s :
  session_inv s ->
  let '(s', h) := request_header s in
  h = fold_request_header (ss_log s) None /\ session_inv s'
  /\ ss_log s' = ss_log s /\ ss_surface s' = ss_surface s /\ ss_appending s' = ss_appending s /\ frame s' = frame s.
Proof.
  intros [H1 H2 H3 [H4 H4'] H5]. unfold request_header. cbv zeta. destruct (_ <? _) eqn:E; simpl.
  - assert (Ef : fold_request_header (drop (ss_header_fold_seq s) (ss_log s)) (ss_header_fold s) = fold_request_header (ss_log s) None).
    { rewrite H4'. apply foldl_take_drop. }
    rewrite Ef. split_and!; try done. split; try done. simpl. split; [done|]. by rewrite firstn_all.
  - apply Nat.ltb_ge in E. rewrite firstn_all2 in H4' by done. split_and!; try done.
    split; try done. by rewrite firstn_all2.
Qed.

Lemma request_context_spec s :
  session_inv s ->
  let '(s', c) := request_context s in
  c = foldl fold_context_event None (ss_log s) /\ session_inv s'
  /\ ss_log s' = ss_log s /\ ss_surface s' = ss_surface s /\ ss_appending s' = ss_appending s /\ frame s' = frame s.
Proof.
  intros [H1 H2 H3 H4 [H5 H5']]. unfold request_context. cbv zeta. destruct (_ <? _) eqn:E; simpl.
  - assert (Ef : foldl fold_context_event (ss_context_fold s) (drop (ss_context_fold_seq s) (ss_log s)) = foldl fold_context_event None (ss_log s)).
    { rewrite H5'. apply foldl_take_drop. }
    rewrite Ef. split_and!; try done. split; try done. simpl. split; [done|]. by rewrite firstn_all.
  - apply Nat.ltb_ge in E. rewrite firstn_all2 in H5' by done. split_and!; try done.
    split; try done. by rewrite firstn_all2.
Qed.

(** ** Appends *)

Lemma session_inv_appending b s : session_inv (set_appending b s) <-> session_inv s.
Proof. split; intros [H1 H2 H3 H4 H5]; by split. Qed.

(** Room for one more event. *)
Definition has_room (s : Session) : Prop := (Z.of_nat (length (ss_log s)) + 1 < u64_modulus)%Z.

Lemma has_room_fits s : has_room s -> fits_u64 (ss_log s).
Proof. unfold has_room, fits_u64. lia. Qed.

Lemma session_inv_push s e m :
  session_inv s -> has_room s -> validate_next (ss_surface s) (ss_log s) e = Ok tt ->
  commit (ss_surface s) (ss_log s ++ [e]) = Ok m -> session_inv (set_log (ss_log s ++ [e]) m s).
Proof.
  intros [H1 H2 H3 [H4 H4'] [H5 H5']] Hroom Hv Hc. pose proof (has_room_fits s Hroom) as Hfit.
  destruct (commit_spec _ _ _ H1 Hfit Hv) as (m' & Hm & Hok & Hcases). rewrite Hc in Hm. injection Hm as <-.
  pose proof (manager_generation _ _ H1 Hfit) as Hgen. unfold replace_generation, surface_nodes in *.
  assert (Hnodes : forall k n, n ∈ take k (fs_nodes (mg_state (ss_surface s))) -> Z.to_nat n < length (ss_log s)).
  { intros k n Hn. destruct (manager_nodes _ _ n H1) as (i & x & -> & Hx); [by eapply subseteq_take|].
    rewrite Nat2Z.id. by eapply lookup_lt_Some. }
  split; simpl; unfold replace_generation, surface_nodes; simpl.
  - done.
  - unfold has_room in Hroom. destruct Hcases as [[_ ->]|[[_ ->]| ->]]; [done|done|].
    unfold u64_succ. rewrite u64_add_small; lia.
  - intros Hg. destruct Hcases as [[Hn Hg']|[[Hn Hg']|Hg']].
    + rewrite Hg' in Hg. destruct (H3 Hg) as [Hle Hd]. rewrite Hn, node_messages_snoc by apply Hnodes. done.
    + rewrite Hg' in Hg. destruct (H3 Hg) as [Hle Hd]. rewrite Hn, length_app, take_app_le, node_messages_snoc by done || apply Hnodes.
      split; [lia|done].
    + exfalso. unfold has_room in Hroom. unfold u64_succ in Hg'. rewrite u64_add_small in Hg' by lia. lia.
  - rewrite length_app, take_app_le by done. split; [lia|done].
  - rewrite length_app, take_app_le by done. split; [lia|done].
Qed.

(** Listeners cannot change the log: their appends are refused. *)
Definition publish_ok (publish : Session -> SessionEvent -> Session) : Prop :=
  forall s e, session_inv s -> ss_appending s = true ->
    session_inv (publish s e) /\ ss_log (publish s e) = ss_log s /\ ss_surface (publish s e) = ss_surface s
    /\ frame (publish s e) = frame s /\ ss_appending (publish s e) = true.

Lemma listeners_ok ops : publish_ok (listeners ops).
Proof.
  intros s e Hinv Happ. unfold listeners. generalize (ops s e) as l. intros l.
  revert s Hinv Happ. induction l as [|op l IH]; intros s Hinv Happ; simpl; [done|].
  assert (Hop : session_inv (run_op (fun s _ => s) s op) /\ ss_log (run_op (fun s _ => s) s op) = ss_log s
    /\ ss_surface (run_op (fun s _ => s) s op) = ss_surface s /\ frame (run_op (fun s _ => s) s op) = frame s
    /\ ss_appending (run_op (fun s _ => s) s op) = true).
  { destruct op; cbn [run_op].
    - unfold append. by rewrite Happ.
    - pose proof (request_header_spec s Hinv) as H. destruct (request_header s) as [s' h].
      destruct H as (_ & ? & ? & ? & Ha & ?). cbn [fst]. by rewrite Ha.
    - pose proof (request_context_spec s Hinv) as H. destruct (request_context s) as [s' h].
      destruct H as (_ & ? & ? & ? & Ha & ?). cbn [fst]. by rewrite Ha.
    - pose proof (derive_messages_spec s Hinv) as H. destruct (derive_messages s) as [s' h].
      destruct H as (_ & ? & ? & ? & Ha & ?). cbn [fst]. by rewrite Ha. }
  destruct Hop as (H1 & H2 & H3 & H4 & H5). destruct (IH _ H1 H5) as (G1 & G2 & G3 & G4 & G5).
  split_and!; try done; congruence.
Qed.

(** The event an append proposes. *)
Definition next_event (now : Z) (data : SessionEventData) (intent : option SurfaceIntent) (s : Session) : SessionEvent :=
  mk_event (Z.of_nat (length (ss_log s))) now data (si_source_event_seqs (default intent_default intent))
    (si_surface_op (default intent_default intent)) None.

Lemma append_spec publish now data intent s :
  publish_ok publish -> session_inv s -> has_room s -> ss_appending s = false ->
  let e := next_event now data intent s in
  match append publish now data intent s with
  | (s', Ok e') => e' = e /\ is_ok (fold_surface (ss_log s ++ [e])) = true /\ ss_log s' = ss_log s ++ [e]
      /\ session_inv s' /\ ss_appending s' = false /\ frame s' = frame s
  | (s', Err (InvalidEvent _)) => s' = s /\ is_ok (fold_surface (ss_log s ++ [e])) = false
  | (_, Err _) => False
  end.
Proof.
  intros Hpub Hinv Hroom Happ e. pose proof (has_room_fits s Hroom) as Hfit. unfold append. rewrite Happ. cbv zeta. fold (next_event now data intent s). subst e.
  set (e := next_event now data intent s).
  pose proof (validate_next_spec _ _ e (inv_manager _ Hinv) Hfit) as Hv.
  destruct (validate_next (ss_surface s) (ss_log s) e) as [[]|err] eqn:Ev; [|by split].
  destruct (commit_spec _ _ _ (inv_manager _ Hinv) Hfit Ev) as (m & Hm & _). rewrite Hm.
  destruct (Hpub (set_appending true (set_log (ss_log s ++ [e]) m s)) e) as (P1 & P2 & P3 & P4 & P5);
    [by apply session_inv_appending, session_inv_push|done|].
  split_and!; try done. by apply session_inv_appending.
Qed.

(** * Creation and reachability *)

Lemma seed_steps (seed : list SessionEvent) :
  fits_u64 seed ->
  match fold_surface seed with
  | Ok _ => exists m, try_fold seed_step ([], SurfaceManager_default) (imap pair seed) = Ok (seed, m) /\ manager_ok seed m
  | Err _ => exists e, try_fold seed_step ([], SurfaceManager_default) (imap pair seed) = Err e /\ e <> Panicked
  end.
Proof.
  induction seed as [|e seed IH] using rev_ind; intros Hfit.
  { simpl. eexists. split; [done|]. apply manager_ok_default. }
  assert (Hfit' : fits_u64 seed) by (unfold fits_u64 in *; rewrite length_app in Hfit; simpl in Hfit; lia).
  specialize (IH Hfit'). rewrite imap_app. cbn [imap]. rewrite Nat.add_0_r, try_fold_snoc.
  pose proof (is_ok_fold_surface seed) as Hs. pose proof (is_ok_fold_surface (seed ++ [e])) as Hse.
  rewrite fold_surface_state_snoc in Hse by done.
  destruct (fold_surface seed) as [r|err].
  - destruct IH as (m & -> & Hm). cbn [result_bind]. unfold seed_step.
    pose proof (validate_next_spec seed m e Hm Hfit') as Hv.
    case_bool_decide as Hseq; cbn [negb].
    + destruct (validate_next m seed e) as [[]|ve] eqn:Ev; simpl in Hv; cbn [map_err result_bind].
      * destruct (commit_spec seed m e Hm Hfit' Ev) as (m' & -> & Hm' & _). cbn [map_err result_bind].
        destruct (fold_surface (seed ++ [e])); [|done]. eauto.
      * destruct (fold_surface (seed ++ [e])); [done|]. eauto.
    + assert (Hno : is_ok (fold_surface (seed ++ [e])) = false).
      { rewrite Hse. destruct (fold_surface_state seed); [|done]. simpl. unfold fold_surface_step, plan_surface_event. simpl.
        by rewrite bool_decide_false. }
      destruct (fold_surface (seed ++ [e])); [done|]. eauto.
  - destruct IH as (x & -> & Hx). cbn [result_bind]. simpl in Hs.
    destruct (fold_surface_state seed); [done|]. simpl in Hse.
    destruct (fold_surface (seed ++ [e])); [done|]. eauto.
Qed.

Lemma fold_surface_prefix log l : fits_u64 (log ++ l) -> is_ok (fold_surface (log ++ l)) = true -> is_ok (fold_surface log) = true.
Proof.
  induction l as [|e l IH] using rev_ind; intros Hfit; [by rewrite app_nil_r|].
  rewrite app_assoc in *. rewrite is_ok_fold_surface.
  assert (Hfit' : fits_u64 (log ++ l)) by (unfold fits_u64 in *; rewrite length_app in Hfit; simpl in Hfit; lia).
  rewrite fold_surface_state_snoc by done. intros H. apply IH; [done|]. rewrite is_ok_fold_surface.
  by destruct (fold_surface_state (log ++ l)).
Qed.

Lemma fresh_session_inv log m header first appending :
  fits_u64 log -> manager_ok log m -> session_inv (mk_session log m header first appending [] 0 0 None 0 None 0).
Proof.
  intros Hfit Hm. split; simpl; try done.
  - unfold replace_generation. simpl. by apply (manager_generation log m).
  - intros _. split; [lia|done].
  - split; [lia|done].
  - split; [lia|done].
Qed.

(** The marker is always acceptable: it is not surface-eligible. *)
Lemma end_seed_accepted log now :
  fits_u64 log -> is_ok (fold_surface log) = true ->
  is_ok (fold_surface (log ++ [mk_event (Z.of_nat (length log)) now SessionEndSeed None None None])) = true.
Proof.
  intros Hfit. rewrite !is_ok_fold_surface, fold_surface_state_snoc by done.
  destruct (fold_surface_state log) as [s|]; [|done]. intros _. cbn [result_bind].
  unfold fold_surface_step, plan_surface_event. cbn [fst snd ev_seq]. by rewrite bool_decide_true.
Qed.

Section creation.
Context (is_absolute : string -> bool).

Lemma create_spec now id seed header :
  (Z.of_nat (length seed) + 1 < u64_modulus)%Z ->
  match create is_absolute now id seed header with
  | Ok s => is_ok (fold_surface seed) = true
      /\ (forall h, header = Some h -> ss_header s = h /\ validate_header is_absolute id h = Ok tt)
      /\ session_inv s /\ ss_appending s = false /\ ss_first_live_seq s = Z.of_nat (length seed)
      /\ ss_log s = seed ++ (if bool_decide (seed = []) || from_option is_end_seed false (last seed) then []
                             else [mk_event (Z.of_nat (length seed)) now SessionEndSeed None None None])
  | Err e => (is_ok (fold_surface seed) = false \/ exists h x, header = Some h /\ validate_header is_absolute id h = Err x)
      /\ e <> Panicked
  end.
Proof.
  intros Hroom. assert (Hfit : fits_u64 seed) by (unfold fits_u64; lia).
  unfold create. pose proof (seed_steps seed Hfit) as Hseed.
  destruct (fold_surface seed) as [r|err] eqn:Ef; simpl in *.
  2: { destruct Hseed as (e & -> & He). simpl. split; [by left|done]. }
  destruct Hseed as (m & -> & Hm). cbn [result_bind].
  set (hres := match header with Some header => _ | None => _ end).
  assert (Hh : match hres with
    | Ok h => forall h', header = Some h' -> h = h' /\ validate_header is_absolute id h' = Ok tt
    | Err e => e <> Panicked /\ exists h, header = Some h /\ validate_header is_absolute id h = Err e
    end).
  { subst hres. destruct header as [h|]; [|done]. destruct (validate_header is_absolute id h) as [[]|e] eqn:Ev; simpl.
    - by intros h' [= <-].
    - split; [|by exists h]. intros ->. unfold validate_header in Ev. repeat (split_match_in Ev; try discriminate Ev). }
  destruct hres as [h|e]; cbn [result_bind].
  2: { destruct Hh as [He (h & -> & Hv)]. split; [right; eauto|done]. }
  set (s0 := mk_session seed m h _ _ _ _ _ _ _ _ _).
  assert (H0 : session_inv s0) by by apply fresh_session_inv.
  destruct (bool_decide (seed = [])) eqn:Ee; cbn [negb andb orb].
  { split_and!; try done. simpl. by rewrite app_nil_r. }
  destruct (from_option is_end_seed false (last seed)) eqn:El; cbn [negb].
  { split_and!; try done. simpl. by rewrite app_nil_r. }
  pose proof (append_spec (fun s _ => s) now SessionEndSeed None s0) as Ha. cbv zeta in Ha.
  destruct (append (fun s _ => s) now SessionEndSeed None s0) as [s' [e'|e']].
  - destruct Ha as (-> & _ & Hlog & Hinv & Happ & Hhdr); [done|done|by unfold has_room|done|]. cbn [result_bind].
    split_and!; try done.
    + intros h' E'. injection Hhdr as Hhdr _. rewrite Hhdr. by apply Hh.
    + by injection Hhdr as _ Hhdr.
  - exfalso. specialize (Ha ltac:(done) H0 Hroom eq_refl).
    destruct e'; try done. destruct Ha as [_ Ha].
    pose proof (end_seed_accepted seed now Hfit) as Hok. rewrite Ef in Hok. specialize (Hok eq_refl).
    unfold next_event in Ha. simpl in Ha. congruence.
Qed.

(** Every session the store hands out, after any operations by its owner and
    by the listeners its publications reach.  A log never holds [2^64 - 1]
    events. *)
Inductive reachable (ops : Session -> SessionEvent -> list SessionOp) : Session -> Prop :=
| reachable_create now id seed header s :
    (Z.of_nat (length seed) + 1 < u64_modulus)%Z ->
    create is_absolute now id seed header = Ok s -> reachable ops s
| reachable_op s op : reachable ops s -> has_room s -> reachable ops (run_op (listeners ops) s op).

Lemma run_op_log publish s op :
  publish_ok publish -> session_inv s -> has_room s -> ss_appending s = false ->
  let s' := run_op publish s op in
  session_inv s' /\ ss_appending s' = false /\ ss_log s `prefix_of` ss_log s'.
Proof.
  intros Hpub Hinv Hroom Happ. destruct op; cbn [run_op].
  - pose proof (append_spec publish now data intent s Hpub Hinv Hroom Happ) as H. cbv zeta in H.
    destruct (append publish now data intent s) as [s' [e|e]]; cbn [fst].
    + destruct H as (_ & _ & -> & ? & ? & _). split_and!; [done|done|by apply prefix_app_r].
    + destruct e; try done. by destruct H as [-> _].
  - pose proof (request_header_spec s Hinv) as H. destruct (request_header s). cbn [fst].
    destruct H as (_ & ? & -> & _ & -> & _). done.
  - pose proof (request_context_spec s Hinv) as H. destruct (request_context s). cbn [fst].
    destruct H as (_ & ? & -> & _ & -> & _). done.
  - pose proof (derive_messages_spec s Hinv) as H. destruct (derive_messages s). cbn [fst].
    destruct H as (_ & ? & -> & _ & -> & _). done.
Qed.

Lemma reachable_inv ops s : reachable ops s -> session_inv s /\ ss_appending s = false.
Proof.
  induction 1 as [now id seed header s Hroom Hc|s op Hr IH Hroom].
  - pose proof (create_spec now id seed header Hroom) as H. rewrite Hc in H. tauto.
  - destruct IH as [Hinv Happ]. destruct (run_op_log (listeners ops) s op) as (? & ? & _); try done. apply listeners_ok.
Qed.

(** The abstract session is its log alone: the history it derives, the header
    and the route in force, and which event may come next. *)
Definition spec_history (log : list SessionEvent) : list Message :=
  match fold_surface log with Ok r => node_messages log (sf_nodes r) | Err _ => [] end.
Definition spec_header (log : list SessionEvent) : option EpochHeader := fold_request_header log None.
Definition spec_context (log : list SessionEvent) : option RequestContext := foldl fold_context_event None log.
Definition spec_append (log : list SessionEvent) (e : SessionEvent) : option (list SessionEvent) :=
  if is_ok (fold_surface (log ++ [e])) then Some (log ++ [e]) else None.

Lemma manager_history log m : manager_ok log m -> spec_history log = node_messages log (fs_nodes (mg_state m)).
Proof. intros [_ (rs & Hf)]. unfold spec_history, fold_surface. by rewrite Hf. Qed.

(** C16. A session refines its append-only log.  In every reachable state the
    cached history is the one a fresh fold of the whole log derives, the
    incremental header and context folds are the folds of the whole log, and an
    append commits exactly the events the batch surface fold accepts: on
    success the log grows by the event with the next sequence number, whatever
    the listeners of the publication do; on refusal nothing at all changes. *)
Theorem session_refines_log ops s :
  reachable ops s -> has_room s ->
  snd (derive_messages s) = Ok (spec_history (ss_log s))
  /\ snd (request_header s) = spec_header (ss_log s)
  /\ snd (request_context s) = spec_context (ss_log s)
  /\ forall now data intent,
     let e := next_event now data intent s in
     match append (listeners ops) now data intent s with
     | (s', Ok e') => e' = e /\ spec_append (ss_log s) e = Some (ss_log s')
     | (s', Err (InvalidEvent _)) => s' = s /\ spec_append (ss_log s) e = None
     | (_, Err _) => False
     end.
Proof.
  intros Hr Hroom. destruct (reachable_inv ops s Hr) as [Hinv Happ]. split_and!.
  - pose proof (derive_messages_spec s Hinv) as H. destruct (derive_messages s) as [s' r]. destruct H as [-> _].
    simpl. by rewrite (manager_history _ _ (inv_manager _ Hinv)).
  - pose proof (request_header_spec s Hinv) as H. destruct (request_header s). by destruct H as [-> _].
  - pose proof (request_context_spec s Hinv) as H. destruct (request_context s). by destruct H as [-> _].
  - intros now data intent e. unfold spec_append.
    pose proof (append_spec _ now data intent s (listeners_ok ops) Hinv Hroom Happ) as H. cbv zeta in H. fold e in H.
    destruct (append (listeners ops) now data intent s) as [s' [e'|[]]]; try done.
    + destruct H as (-> & -> & -> & _). done.
    + by destruct H as [-> ->].
Qed.

(** Creation accepts a seed exactly when the batch surface fold accepts it
    and the header is valid, so a replay or a fork cannot construct a log that
    appending could not have built; it never panics; and a seeded session ends
    its seed with one [session/end-seed] marker, which is not repeated when an
    untouched session is reopened. *)
Theorem create_validates now id seed header :
  (Z.of_nat (length seed) + 1 < u64_modulus)%Z ->
  (is_ok (create is_absolute now id seed header) = true <->
     is_ok (fold_surface seed) = true /\ forall h, header = Some h -> validate_header is_absolute id h = Ok tt)
  /\ (forall e, create is_absolute now id seed header = Err e -> e <> Panicked)
  /\ forall s, create is_absolute now id seed header = Ok s ->
     (seed = [] -> ss_log s = [])
     /\ (seed <> [] -> exists marker, is_end_seed marker = true /\ last (ss_log s) = Some marker
          /\ (ss_log s = seed \/ ss_log s = seed ++ [marker]))
     /\ ((Z.of_nat (length (ss_log s)) + 1 < u64_modulus)%Z ->
         forall s', create is_absolute now id (ss_log s) header = Ok s' -> ss_log s' = ss_log s).
Proof.
  intros Hroom. pose proof (create_spec now id seed header Hroom) as H. split_and!.
  - destruct (create is_absolute now id seed header) as [s|e]; simpl.
    + destruct H as (? & Hh & _). split; [|done]. intros _. split; [done|]. intros h Eh. by apply Hh.
    + split; [done|]. intros [Hf Hv]. destruct H as [[Hf'|(h & x & Eh & Hx)] _]; [congruence|].
      specialize (Hv h Eh). congruence.
  - intros e Ee. rewrite Ee in H. apply H.
  - intros s Es. rewrite Es in H. destruct H as (_ & _ & _ & _ & _ & Hlog).
    assert (Hend : seed <> [] -> exists marker, is_end_seed marker = true /\ last (ss_log s) = Some marker
          /\ (ss_log s = seed \/ ss_log s = seed ++ [marker])).
    { intros Hne. rewrite bool_decide_false in Hlog by done. simpl in Hlog. rewrite Hlog.
      destruct (from_option is_end_seed false (last seed)) eqn:El.
      - rewrite app_nil_r. destruct (last seed) as [m|]; [|done]. exists m. split_and!; try done. by left.
      - eexists. rewrite last_snoc. split_and!; [|done|by right]. done. }
    split_and!; [|done|].
    + intros ->. by rewrite Hlog.
    + intros Hroom' s' Es'. pose proof (create_spec now id (ss_log s) header Hroom') as H'. rewrite Es' in H'.
      destruct H' as (_ & _ & _ & _ & _ & ->).
      destruct (decide (seed = [])) as [->|Hne].
      * rewrite Hlog. done.
      * destruct (Hend Hne) as (m & Hm & Hl & _). rewrite Hl. simpl. rewrite Hm, orb_true_r. apply app_nil_r.
Qed.

(** * Forks *)

(** The turn a log prefix is inside of. *)
Definition open_turn_step (o : option Z) (e : SessionEvent) : option Z :=
  match ev_data e with TurnStart turn => Some turn | TurnEnd _ _ => None | _ => o end.
Definition open_turn (log : list SessionEvent) : option Z := foldl open_turn_step None log.

Lemma open_turn_rfind log :
  open_turn log = match rfind is_turn_boundary log with
                  | Some e => match ev_data e with TurnStart turn => Some turn | _ => None end
                  | None => None
                  end.
Proof.
  unfold open_turn, rfind. induction log as [|e log IH] using rev_ind; [done|].
  rewrite foldl_app, reverse_app. simpl. unfold open_turn_step at 1, is_turn_boundary at 1.
  destruct (ev_data e) eqn:E; try apply IH; by rewrite E.
Qed.

Lemma spec_history_end_seed log now :
  fits_u64 log -> spec_history (log ++ [mk_event (Z.of_nat (length log)) now SessionEndSeed None None None]) = spec_history log.
Proof.
  intros Hfit. unfold spec_history at 1, fold_surface. rewrite fold_surface_state_snoc by done.
  unfold spec_history, fold_surface. destruct (fold_surface_state log) as [[st rs]|] eqn:E; [|done].
  cbn [result_bind fst snd]. unfold fold_surface_step, plan_surface_event. cbn [fst snd ev_seq].
  rewrite bool_decide_true by done. cbn -[node_messages]. apply node_messages_snoc. intros n Hn.
  destruct (surface_inv_node log (st, rs) n) as (i & e & -> & He & _); [by apply (fold_prefix_inv log log)|done|].
  rewrite Nat2Z.id. by eapply lookup_lt_Some.
Qed.

(** Any prefix of a committed log is a valid seed. *)
Lemma create_prefix log seed :
  seed `prefix_of` log -> (Z.of_nat (length log) + 1 < u64_modulus)%Z -> is_ok (fold_surface log) = true ->
  forall now id header, (forall h, header = Some h -> validate_header is_absolute id h = Ok tt) ->
  exists child, create is_absolute now id seed header = Ok child /\ seed `prefix_of` ss_log child
    /\ spec_history (ss_log child) = spec_history seed.
Proof.
  intros Hpre Hroom Hok now id header Hv. pose proof (prefix_length _ _ Hpre) as Hlen.
  destruct Hpre as (rest & ->).
  assert (Hs : is_ok (fold_surface seed) = true).
  { apply (fold_surface_prefix seed rest); [unfold fits_u64; lia|done]. }
  pose proof (create_spec now id seed header ltac:(lia)) as H.
  destruct (create is_absolute now id seed header) as [child|e].
  - destruct H as (_ & _ & _ & _ & _ & Hlog). exists child. split; [done|]. rewrite Hlog.
    split; [by apply prefix_app_r|]. destruct (_ || _); [by rewrite app_nil_r|].
    apply spec_history_end_seed. unfold fits_u64. lia.
  - exfalso. destruct H as [[H|(h & x & -> & Hx)] _]; [congruence|]. specialize (Hv h eq_refl). congruence.
Qed.

(** What the seed of a fork is. *)
Lemma fork_seed_spec s boundary :
  session_inv s -> has_room s -> (forall b, boundary = Some b -> (0 <= b)%Z) ->
  match fork_seed s boundary with
  | Ok seed => seed `prefix_of` ss_log s /\ open_turn seed = None
      /\ (forall b, boundary = Some b -> Z.of_nat (length seed) = (b + 1)%Z)
      /\ forall now id header, (forall h, header = Some h -> validate_header is_absolute id h = Ok tt) ->
         exists child, create is_absolute now id seed header = Ok child /\ seed `prefix_of` ss_log child
           /\ spec_history (ss_log child) = spec_history seed
  | Err (InvalidBoundary b _) => boundary = Some b /\ (Z.of_nat (length (ss_log s)) <= b)%Z
  | Err (OpenTurn b turn) => open_turn (take (S (Z.to_nat b)) (ss_log s)) = Some turn
  end.
Proof.
  intros Hinv Hroom Hb.
  pose proof (has_room_fits s Hroom) as Hfit.
  destruct (inv_manager s Hinv) as [_ (rs & Hf)]. pose proof (fold_prefix_inv _ _ _ Hf) as Hsurf.
  unfold fork_seed. destruct (match boundary with Some b => Some b | None => ev_seq <$> last (ss_log s) end) as [b|] eqn:Eb.
  - assert (Hb0 : (0 <= b)%Z /\ (boundary = None -> (b < Z.of_nat (length (ss_log s)))%Z)
      /\ (forall b', boundary = Some b' -> b' = b)).
    { destruct boundary as [b'|]; [injection Eb as ->; split_and!; [by apply Hb|done|by intros ? [= ->]]|].
      apply fmap_Some in Eb as (e & He & ->). rewrite last_lookup in He. pose proof (lookup_lt_Some _ _ _ He).
      apply (si_seqs _ _ Hsurf) in He. split_and!; [lia| |done]. intros _. lia. }
    destruct Hb0 as (Hb0 & Hnone & Hsome). destruct (_ <=? b)%Z eqn:Ele.
    { apply Z.leb_le in Ele. destruct boundary as [b'|]; [|specialize (Hnone eq_refl); lia]. by rewrite (Hsome b' eq_refl). }
    apply Z.leb_gt in Ele. cbv zeta. pose proof (open_turn_rfind (take (S (Z.to_nat b)) (ss_log s))) as Ho.
    assert (Hgood : open_turn (take (S (Z.to_nat b)) (ss_log s)) = None ->
      take (S (Z.to_nat b)) (ss_log s) `prefix_of` ss_log s
      /\ open_turn (take (S (Z.to_nat b)) (ss_log s)) = None
      /\ (forall b', boundary = Some b' -> Z.of_nat (length (take (S (Z.to_nat b)) (ss_log s))) = (b' + 1)%Z)
      /\ forall now id header, (forall h, header = Some h -> validate_header is_absolute id h = Ok tt) ->
         exists child, create is_absolute now id (take (S (Z.to_nat b)) (ss_log s)) header = Ok child
           /\ take (S (Z.to_nat b)) (ss_log s) `prefix_of` ss_log child
           /\ spec_history (ss_log child) = spec_history (take (S (Z.to_nat b)) (ss_log s))).
    { intros Hno. split_and!; [by apply prefix_take|done| |].
      - intros b' E. rewrite length_take, (Hsome b' E). lia.
      - apply (create_prefix (ss_log s)); [by apply prefix_take|done|]. rewrite is_ok_fold_surface. unfold fold_surface_state in Hf |- *.
        by rewrite Hf. }
    destruct (rfind _ _) as [e|]; [|by apply Hgood]. destruct (ev_data e); try (by apply Hgood). done.
  - assert (ss_log s = []) as El.
    { destruct boundary; [done|]. apply fmap_None, last_None in Eb. done. }
    split_and!; [apply prefix_nil|done| |].
    + intros b' ->. done.
    + apply (create_prefix (ss_log s)); [apply prefix_nil|done|]. rewrite El. done.
Qed.
(** Without a boundary the whole log is taken. *)
Lemma fork_seed_all s seed : session_inv s -> fork_seed s None = Ok seed -> seed = ss_log s.
Proof.
  intros Hinv. destruct (inv_manager s Hinv) as [_ (rs & Hf)]. pose proof (fold_prefix_inv _ _ _ Hf) as Hsurf. unfold fork_seed.
  destruct (last (ss_log s)) as [e|] eqn:El; cbn [fmap option_fmap option_map]; [|apply last_None in El; rewrite El; congruence].
  rewrite last_lookup in El. pose proof (lookup_lt_Some _ _ _ El). apply (si_seqs _ _ Hsurf) in El. destruct (_ <=? ev_seq e)%Z; [done|].
  rewrite take_ge by lia. destruct (rfind _ _) as [x|]; [destruct (ev_data x)|]; congruence.
Qed.

(** Forking at a boundary of a reachable session yields a prefix of its log
    that is never inside an open turn, and that prefix is always accepted as
    the seed of the child; a fork is refused only when the boundary does not
    exist or when the prefix is inside an open turn. *)
Theorem fork_seed_sound ops s boundary :
  reachable ops s -> has_room s -> (forall b, boundary = Some b -> (0 <= b)%Z) ->
  match fork_seed s boundary with
  | Ok seed => seed `prefix_of` ss_log s /\ open_turn seed = None
      /\ (forall b, boundary = Some b -> Z.of_nat (length seed) = (b + 1)%Z)
      /\ forall now id header, (forall h, header = Some h -> validate_header is_absolute id h = Ok tt) ->
         exists child, create is_absolute now id seed header = Ok child /\ seed `prefix_of` ss_log child
           /\ spec_history (ss_log child) = spec_history seed
  | Err (InvalidBoundary b _) => boundary = Some b /\ (Z.of_nat (length (ss_log s)) <= b)%Z
  | Err (OpenTurn b turn) => open_turn (take (S (Z.to_nat b)) (ss_log s)) = Some turn
  end.
Proof. intros Hr. apply fork_seed_spec. by destruct (reachable_inv ops s Hr). Qed.
End creation.

(** * Witnesses *)

Definition demo_ops (s : Session) (e : SessionEvent) : list SessionOp :=
  [OpDeriveMessages; OpAppend 9 (TurnStart 7) None; OpRequestHeader].
Definition demo_absolute (p : string) : bool := match p with String c _ => bool_decide (c = "/"%char) | _ => false end.
Definition demo_session : Session :=
  default (mk_session [] SurfaceManager_default (mk_session_header 0 "s" 0 None None None None None None) 0 false [] 0 0 None 0 None 0)
    (match create demo_absolute 1 "s" [] None with Ok s => Some s | Err _ => None end).
Definition demo_live : Session :=
  run_op (listeners demo_ops)
    (run_op (listeners demo_ops) demo_session (OpAppend 2 (UserMessage (create_user_message "m" [CB_Text "hi"] MS_User)) (Some intent_append)))
    (OpAppend 3 (TurnStart 1) None).

Lemma demo_create : create demo_absolute 1 "s" [] None = Ok demo_session.
Proof. vm_compute. reflexivity. Qed.

Lemma demo_reachable : reachable demo_absolute demo_ops demo_live.
Proof.
  assert (H0 : reachable demo_absolute demo_ops demo_session).
  { eapply reachable_create; [|exact demo_create]. vm_compute. reflexivity. }
  unfold demo_live. apply reachable_op; [|vm_compute; reflexivity]. apply reachable_op; [|vm_compute; reflexivity].
  exact H0.
Qed.

Lemma session_refines_log_witness :
  snd (derive_messages demo_live) = Ok (spec_history (ss_log demo_live))
  /\ (msg_content <$> spec_history (ss_log demo_live)) = [[CB_Text "hi"]].
Proof.
  split; [|by vm_compute].
  destruct (session_refines_log demo_absolute demo_ops demo_live demo_reachable) as [H _]; [by vm_compute|exact H].
Defined.

Lemma create_validates_witness :
  is_ok (create demo_absolute 1 "s" (ss_log demo_live) None) = true
  /\ is_ok (create demo_absolute 1 "s" (reverse (ss_log demo_live)) None) = false.
Proof.
  split; [|by vm_compute].
  destruct (create_validates demo_absolute 1 "s" (ss_log demo_live) None) as [[_ H] _]; [by vm_compute|].
  apply H. split; [by vm_compute|]. intros h E. discriminate E.
Defined.

Lemma fork_seed_sound_witness :
  (exists seed, fork_seed demo_live (Some 0%Z) = Ok seed /\ open_turn seed = None)
  /\ fork_seed demo_live None = Err (OpenTurn 1 1).
Proof.
  split; [|by vm_compute].
  assert (Hroom : has_room demo_live) by by vm_compute.
  assert (Hb : forall b, Some 0%Z = Some b -> (0 <= b)%Z) by (intros b E; injection E as E; lia).
  pose proof (fork_seed_sound demo_absolute demo_ops demo_live (Some 0%Z) demo_reachable Hroom Hb) as H.
  destruct (fork_seed demo_live (Some 0%Z)) as [seed|e] eqn:E; [|vm_compute in E; discriminate E].
  destruct H as (_ & H & _). exists seed. split; [reflexivity|exact H].
Defined.
