(* ===== verification/Repair.v ===== *)
(** Crash repair of a session log: [crates/dsh/session/src/repair.rs].

    [interrupted_turn_closers] scans a log and returns the synthetic events that
    close an open tail turn: an error result for every unresolved call, the end
    of the open step, the interrupted end of the turn. *)
From Stdlib Require Import ZArith Lia Ascii String.
From stdpp Require Import base tactics numbers list strings gmap pretty.
From S2P Require Import Prelude Json Llm SessionEvents Surface Session.
Open Scope keel_scope.

Definition TOOL_NOT_STARTED : string := "TOOL_NOT_STARTED".
Definition TOOL_OUTCOME_UNKNOWN : string := "TOOL_OUTCOME_UNKNOWN".

Record PendingCall := mk_pending { pc_call_id : CallId; pc_step : Z; pc_call_seq : option Z }.
(** The locals of the scan. *)
Record RepairScan := mk_scan { rs_open_turn : option Z; rs_open_step : option Z; rs_pending : list PendingCall }.

Definition tool_call_id (b : ContentBlock) : option CallId := match b with CB_ToolCall id _ _ => Some id | _ => None end.
Definition same_call (call_id : CallId) (p : PendingCall) : bool := bool_decide (pc_call_id p = call_id).

(** [pending.iter_mut().find(..)] and the assignment of the seq. *)
Fixpoint start_call (call_id : CallId) (seq : Z) (pending : list PendingCall) : list PendingCall :=
  match pending with
  | [] => []
  | p :: rest =>
      if same_call call_id p then mk_pending (pc_call_id p) (pc_step p) (Some seq) :: rest
      else p :: start_call call_id seq rest
  end.

Definition scan_event (s : RepairScan) (event : SessionEvent) : RepairScan :=
  match ev_data event with
  | TurnStart turn => mk_scan (Some turn) None []
  | TurnEnd _ _ => mk_scan None None []
  | StepStart _ step => mk_scan (rs_open_turn s) (Some step) (rs_pending s)
  | StepEnd _ _ => mk_scan (rs_open_turn s) None []
  | AssistantMessage _ step message _ =>
      mk_scan (rs_open_turn s) (rs_open_step s)
        (rs_pending s ++ ((fun id => mk_pending id step None) <$> omap tool_call_id (msg_content message)))
  | ToolCall _ _ call_id _ _ =>
      mk_scan (rs_open_turn s) (rs_open_step s) (start_call call_id (ev_seq event) (rs_pending s))
  | ToolResult _ _ message _ _ =>
      match msg_source message with
      | MS_Tool call_id =>
          mk_scan (rs_open_turn s) (rs_open_step s)
            (base.filter (fun p => pc_call_id p <> call_id) (rs_pending s))
      | _ => s
      end
  | _ => s
  end.
Definition scan (events : list SessionEvent) : RepairScan := foldl scan_event (mk_scan None None []) events.

Definition outcome_unknown_text : string :=
  "The tool call was interrupted after it was recorded, but no result was durably recorded. Its outcome is unknown. Decide whether to retry from the tool semantics: retry only if the operation is read-only or idempotent; if it may have side effects, first verify external state or ask the user. Do not retry blindly.".
Definition not_started_text : string :=
  "The tool call was interrupted before the Harness recorded it as started. Retry it if it is still needed.".

Definition call_closer (turn time seq : Z) (entry : PendingCall) : SessionEvent :=
  let started := bool_decide (is_Some (pc_call_seq entry)) in
  let text := if started then outcome_unknown_text else not_started_text in
  let message :=
    mk_message ("interrupted-tool-result-" +:+ pc_call_id entry +:+ "-" +:+ pretty seq) R_User
      [CB_ToolResult (pc_call_id entry) [CB_Text text] (Some true)] (MS_Tool (pc_call_id entry)) in
  mk_event seq time
    (ToolResult turn (pc_step entry) message
       (Some (if started then mk_tool_error_ref "ToolOutcomeUnknownError" TOOL_OUTCOME_UNKNOWN
              else mk_tool_error_ref "ToolNotStartedError" TOOL_NOT_STARTED)) None)
    ((fun call_seq => [call_seq]) <$> pc_call_seq entry) (Some SO_Append) None.

Fixpoint call_closers (turn time seq : Z) (pending : list PendingCall) : list SessionEvent :=
  match pending with
  | [] => []
  | entry :: rest => call_closer turn time seq entry :: call_closers turn time (u64_succ seq) rest
  end.
(** [seq] after the loop over the pending calls. *)
Fixpoint seq_after (seq : Z) (n : nat) : Z := match n with O => seq | S n => seq_after (u64_succ seq) n end.

Definition boundary_closers (turn time seq : Z) (open_step : option Z) : list SessionEvent :=
  match open_step with
  | Some step =>
      [mk_event seq time (StepEnd turn step) None None None;
       mk_event (u64_succ seq) time (TurnEnd turn TE_Interrupted) None None None]
  | None => [mk_event seq time (TurnEnd turn TE_Interrupted) None None None]
  end.

Definition interrupted_turn_closers (events : list SessionEvent) : list SessionEvent :=
  let s := scan events in
  match rs_open_turn s, last events with
  | Some turn, Some last =>
      let seq := u64_succ (ev_seq last) in
      let time := ev_time last in
      call_closers turn time seq (rs_pending s)
      ++ boundary_closers turn time (seq_after seq (length (rs_pending s))) (rs_open_step s)
  | _, _ => []
  end.

(** * The closers balance the log *)

Lemma scan_app l1 l2 : scan (l1 ++ l2) = foldl scan_event (scan l1) l2.
Proof. apply foldl_app. Qed.

(** Every synthetic result resolves its call (and nothing else is touched). *)
Lemma scan_call_closers turn time seq l pending o st :
  foldl scan_event (mk_scan o st pending) (call_closers turn time seq l)
  = mk_scan o st (base.filter (fun p => pc_call_id p ∉ (pc_call_id <$> l)) pending).
Proof.
  revert seq pending. induction l as [|e l IH]; intros seq pending; cbn [call_closers foldl].
  - f_equal. symmetry. apply filter_all. intros p _ H. by apply elem_of_nil in H.
  - change (scan_event (mk_scan o st pending) (call_closer turn time seq e))
      with (mk_scan o st (base.filter (fun p => pc_call_id p <> pc_call_id e) pending)).
    rewrite IH. f_equal. rewrite list_filter_filter. apply filter_ext_on. intros p _.
    rewrite fmap_cons, not_elem_of_cons. tauto.
Qed.

Lemma scan_closed events :
  rs_open_turn (scan (events ++ interrupted_turn_closers events)) = None.
Proof.
  unfold interrupted_turn_closers. destruct (rs_open_turn (scan events)) as [turn|] eqn:E;
    [|by rewrite app_nil_r]. destruct (last events) as [e|] eqn:El.
  - rewrite scan_app, foldl_app. unfold boundary_closers. by destruct (rs_open_step (scan events)).
  - apply last_None in El as ->. done.
Qed.

(** ** The closers are acceptable events *)

Lemma accept_result log turn step message error meta time sources :
  fits_u64 log -> is_ok (fold_surface log) = true ->
  (forall c, sources = Some c -> exists x, c = [x] /\ (x < Z.of_nat (length log))%Z) ->
  is_ok (fold_surface (log ++ [mk_event (Z.of_nat (length log)) time (ToolResult turn step message error meta) sources (Some SO_Append) None])) = true.
Proof.
  intros Hfit Hok Hsrc. rewrite is_ok_fold_surface in *. rewrite fold_surface_state_snoc by done.
  destruct (fold_surface_state log) as [s|]; [|done]. cbn [result_bind]. unfold fold_surface_step, plan_surface_event.
  cbn [fst snd ev_seq]. rewrite bool_decide_true by done. cbn [negb surface_op_of].
  unfold assert_provenance. cbn [ev_source_event_seqs ev_seq].
  destruct sources as [c|]; [|done]. destruct (Hsrc c eq_refl) as (x & -> & Hx).
  cbn. rewrite decide_False by set_solver. rewrite decide_False by lia. done.
Qed.

Lemma accept_log_only log time data :
  fits_u64 log -> is_ok (fold_surface log) = true -> is_surface_eligible_type (data_type data) = false ->
  is_ok (fold_surface (log ++ [mk_event (Z.of_nat (length log)) time data None None None])) = true.
Proof.
  intros Hfit Hok He. rewrite is_ok_fold_surface in *. rewrite fold_surface_state_snoc by done.
  destruct (fold_surface_state log) as [s|]; [|done]. cbn [result_bind]. unfold fold_surface_step, plan_surface_event.
  cbn [fst snd ev_seq]. rewrite bool_decide_true by done. cbn [negb]. unfold surface_op_of, event_type. cbn [ev_data].
  by rewrite He.
Qed.

(** Recorded starts point into the log. *)
Definition pending_ok (n : nat) (p : PendingCall) : Prop := forall c, pc_call_seq p = Some c -> (c < Z.of_nat n)%Z.

Lemma scan_pending_ok events :
  (forall i e, events !! i = Some e -> ev_seq e = Z.of_nat i) -> Forall (pending_ok (length events)) (rs_pending (scan events)).
Proof.
  induction events as [|e events IH] using rev_ind; intros Hseq; [constructor|].
  assert (IH' : Forall (pending_ok (length (events ++ [e]))) (rs_pending (scan events))).
  { eapply Forall_impl; [apply IH|].
    - intros i x Hx. apply Hseq. by apply lookup_app_l_Some.
    - intros p Hp c Hc. rewrite length_app. specialize (Hp c Hc). simpl. lia. }
  assert (He : ev_seq e = Z.of_nat (length events)) by (apply Hseq; by apply list_lookup_middle).
  rewrite scan_app. cbn [foldl]. unfold scan_event. destruct (ev_data e); cbn [rs_pending]; try exact IH'; try apply Forall_nil_2.
  - apply Forall_app. split; [done|]. apply Forall_fmap, Forall_forall. intros id _ c. done.
  - clear IH. induction IH' as [|p l Hp Hl IH]; simpl; [constructor|]. destruct (same_call call_id p); constructor; try done.
    intros c [= <-]. rewrite He, length_app. simpl. lia.
  - destruct (msg_source message); try done. cbn [rs_pending].
    apply Forall_forall. intros p [_ Hp]%list_elem_of_filter. by eapply Forall_forall in IH'.
Qed.

Lemma call_closers_accepted turn time pending : forall log,
  is_ok (fold_surface log) = true -> Forall (pending_ok (length log)) pending ->
  (Z.of_nat (length log + length pending) < u64_modulus)%Z ->
  is_ok (fold_surface (log ++ call_closers turn time (Z.of_nat (length log)) pending)) = true
  /\ length (log ++ call_closers turn time (Z.of_nat (length log)) pending) = length log + length pending
  /\ seq_after (Z.of_nat (length log)) (length pending) = Z.of_nat (length log + length pending).
Proof.
  induction pending as [|p pending IH]; intros log Hok Hp Hroom; simpl.
  { rewrite app_nil_r, Nat.add_0_r. done. }
  simpl in Hroom. apply Forall_cons in Hp as [Hp Hrest].
  set (e := call_closer turn time (Z.of_nat (length log)) p).
  assert (Hok' : is_ok (fold_surface (log ++ [e])) = true).
  { apply accept_result; [unfold fits_u64; lia|done|]. intros c Hc.
    apply fmap_Some in Hc as (x & Hx & ->). exists x. split; [done|]. by apply Hp. }
  assert (Hseq : u64_succ (Z.of_nat (length log)) = Z.of_nat (length (log ++ [e]))).
  { unfold u64_succ. rewrite u64_add_small, length_app by lia. simpl. lia. }
  rewrite Hseq, cons_middle, app_assoc.
  destruct (IH (log ++ [e])) as (H1 & H2 & H3); [done| | |].
  - eapply Forall_impl; [exact Hrest|]. intros q Hq c Hc. rewrite length_app. specialize (Hq c Hc). lia.
  - rewrite length_app. simpl. lia.
  - split_and!; [exact H1|rewrite H2, length_app; simpl; lia|rewrite H3, length_app; simpl; lia].
Qed.

Lemma last_seq events e :
  (forall i x, events !! i = Some x -> ev_seq x = Z.of_nat i) -> last events = Some e ->
  fits_u64 events -> u64_succ (ev_seq e) = Z.of_nat (length events) \/ Z.of_nat (length events) = u64_modulus.
Proof.
  intros Hseq Hl Hfit. left. rewrite last_lookup in Hl. pose proof (lookup_lt_Some _ _ _ Hl).
  apply Hseq in Hl. unfold fits_u64 in Hfit. unfold u64_succ. rewrite u64_add_small; lia.
Qed.

(** ** What is unresolved, said without the scan

    By position: a call an assistant message announced is unanswered when no
    later event settles it - its result, or a boundary that ends its step or
    its turn. *)
Definition settles (id : CallId) (e : SessionEvent) : bool :=
  match ev_data e with
  | TurnStart _ | TurnEnd _ _ | StepEnd _ _ => true
  | ToolResult _ _ message _ _ =>
      match msg_source message with MS_Tool call_id => bool_decide (call_id = id) | _ => false end
  | _ => false
  end.
(** The number of the event that records that the call started. *)
Definition start_seq (id : CallId) (e : SessionEvent) : option Z :=
  match ev_data e with
  | ToolCall _ _ call_id _ _ => if decide (call_id = id) then Some (ev_seq e) else None
  | _ => None
  end.
(** The calls an event announces, with their step. *)
Definition announced (e : SessionEvent) : list (CallId * Z) :=
  match ev_data e with
  | AssistantMessage _ step message _ => (fun id => (id, step)) <$> omap tool_call_id (msg_content message)
  | _ => []
  end.
(** The announced calls that nothing after them settles, each with the last
    start recorded after it. *)
Fixpoint unanswered (events : list SessionEvent) : list PendingCall :=
  match events with
  | [] => []
  | e :: later =>
      ((fun '(id, step) => mk_pending id step (last (omap (start_seq id) later)))
         <$> base.filter (fun c : CallId * Z => existsb (settles c.1) later = false) (announced e))
      ++ unanswered later
  end.
(** An id announced twice: its starts belong to the first announcement. *)
Fixpoint first_started (seen : list CallId) (l : list PendingCall) : list PendingCall :=
  match l with
  | [] => []
  | p :: l =>
      mk_pending (pc_call_id p) (pc_step p) (if decide (pc_call_id p ∈ seen) then None else pc_call_seq p)
      :: first_started (pc_call_id p :: seen) l
  end.

(** The calls of the open tail turn that have no result yet. *)
Definition unresolved (events : list SessionEvent) : list PendingCall :=
  match open_turn events with Some _ => first_started [] (unanswered events) | None => [] end.

(** The step left open: the last step boundary is a start. *)
Definition step_mark (e : SessionEvent) : option (option Z) :=
  match ev_data e with
  | TurnStart _ | TurnEnd _ _ | StepEnd _ _ => Some None
  | StepStart _ step => Some (Some step)
  | _ => None
  end.
Definition step_left_open (events : list SessionEvent) : option Z := default None (last (omap step_mark events)).

(** Nothing started after the list's end. *)
Lemma first_started_app seen l l' :
  Forall (fun p => pc_call_seq p = None) l' -> first_started seen (l ++ l') = first_started seen l ++ l'.
Proof.
  intros H. revert seen. induction l as [|p l IH]; intros seen; cbn [app first_started].
  - revert seen. induction H as [|[id step q] l' Hp _ IH]; intros seen; [done|]. cbn in *. subst q. rewrite IH. by case_decide.
  - by rewrite IH.
Qed.

Lemma first_started_filter id seen l :
  first_started seen (base.filter (fun p => pc_call_id p <> id) l) = base.filter (fun p => pc_call_id p <> id) (first_started seen l).
Proof.
  assert (H : forall s1 s2, (forall x, x <> id -> (x ∈ s1 <-> x ∈ s2)) ->
    first_started s1 (base.filter (fun p => pc_call_id p <> id) l) = base.filter (fun p => pc_call_id p <> id) (first_started s2 l)).
  { induction l as [|p l IH]; intros s1 s2 H; [done|]. cbn [first_started]. rewrite !filter_cons. cbn [pc_call_id].
    destruct (decide (pc_call_id p <> id)) as [Hp|Hp].
    - cbn [first_started]. f_equal; [|apply IH; intros x Hx; rewrite !elem_of_cons; by rewrite H].
      f_equal. by rewrite (decide_ext _ _ _ _ (H _ Hp)).
    - apply IH. intros x Hx. rewrite elem_of_cons, H by done. apply dec_stable in Hp. naive_solver. }
  by apply H.
Qed.

Definition restarted (id : CallId) (n : Z) (p : PendingCall) : PendingCall :=
  if decide (pc_call_id p = id) then mk_pending (pc_call_id p) (pc_step p) (Some n) else p.
Lemma restarted_same id n p : pc_call_id (restarted id n p) = pc_call_id p /\ pc_step (restarted id n p) = pc_step p.
Proof. unfold restarted. by case_decide. Qed.

Lemma first_started_seen id n seen l : id ∈ seen -> first_started seen (restarted id n <$> l) = first_started seen l.
Proof.
  revert seen. induction l as [|p l IH]; intros seen H; [done|]. rewrite fmap_cons. cbn [first_started].
  destruct (restarted_same id n p) as [-> ->]. rewrite IH by (apply elem_of_cons; by right). f_equal. f_equal.
  case_decide; [done|]. unfold restarted. case_decide; [|done]. congruence.
Qed.

(** A start recorded for every entry of its id lands on the first. *)
Lemma first_started_start id n seen l :
  id ∉ seen -> first_started seen (restarted id n <$> l) = start_call id n (first_started seen l).
Proof.
  revert seen. induction l as [|p l IH]; intros seen H; [done|]. rewrite fmap_cons. cbn [first_started start_call].
  destruct (restarted_same id n p) as [-> ->]. unfold same_call, restarted at 1. cbn [pc_call_id pc_step].
  destruct (decide (pc_call_id p = id)) as [Hp|Hp].
  - rewrite (bool_decide_true _ Hp). rewrite decide_False by congruence. f_equal.
    apply first_started_seen. rewrite Hp. apply elem_of_cons. by left.
  - rewrite (bool_decide_false _ Hp). f_equal. apply IH. rewrite elem_of_cons. intros [->|Hi]; done.
Qed.

(** ** What one more event does *)

Lemma unanswered_snoc events e :
  unanswered (events ++ [e])
  = ((fun p => match start_seq (pc_call_id p) e with Some n => restarted (pc_call_id p) n p | None => p end)
       <$> base.filter (fun p => settles (pc_call_id p) e = false) (unanswered events))
    ++ ((fun '(id, step) => mk_pending id step None) <$> announced e).
Proof.
  induction events as [|x events IH]; cbn [app unanswered].
  - rewrite app_nil_r, filter_all; [done|]. intros [] _. by cbn.
  - rewrite IH, app_assoc. f_equal. rewrite filter_app, fmap_app. f_equal.
    clear IH. induction (announced x) as [|[id step] l IH]; [done|].
    rewrite !filter_cons. cbn [fst]. rewrite existsb_app. cbn [existsb]. rewrite orb_false_r.
    destruct (existsb (settles id) events) eqn:E1; cbn [orb].
    { rewrite !decide_False by done. exact IH. }
    destruct (settles id e) eqn:E2.
    + rewrite decide_False by done. rewrite decide_True by done. rewrite fmap_cons, filter_cons. cbn [pc_call_id].
      rewrite decide_False by (rewrite E2; done). exact IH.
    + rewrite !decide_True by done. rewrite !fmap_cons, filter_cons. cbn [pc_call_id].
      rewrite decide_True by done. rewrite fmap_cons. rewrite IH. f_equal. cbn [pc_call_id pc_step].
      rewrite omap_app. cbn [omap list_omap]. destruct (start_seq id e) as [n|]; [rewrite last_snoc; unfold restarted; cbn [pc_call_id]; by rewrite decide_True|by rewrite app_nil_r].
Qed.

Lemma settled_all (f : CallId -> bool) (l : list PendingCall) :
  (forall id, f id = true) -> base.filter (fun p => f (pc_call_id p) = false) l = [].
Proof. intros H. apply filter_none. intros p _. by rewrite H. Qed.
Lemma settled_none (f : CallId -> bool) (l : list PendingCall) :
  (forall id, f id = false) -> base.filter (fun p => f (pc_call_id p) = false) l = l.
Proof. intros H. apply filter_all. intros p _. by rewrite H. Qed.

(** The scan's pending calls, said without the scan. *)
Lemma scan_pending events : rs_pending (scan events) = first_started [] (unanswered events).
Proof.
  induction events as [|e events IH] using rev_ind; [done|]. rewrite scan_app, unanswered_snoc. cbn [foldl].
  assert (Hquiet : announced e = [] -> (forall id, start_seq id e = None) -> (forall id, settles id e = false) ->
    first_started [] (((fun p => match start_seq (pc_call_id p) e with Some n => restarted (pc_call_id p) n p | None => p end)
       <$> base.filter (fun p => settles (pc_call_id p) e = false) (unanswered events))
      ++ ((fun '(id, step) => mk_pending id step None) <$> announced e)) = first_started [] (unanswered events)).
  { intros H1 H2 H3. rewrite H1, app_nil_r. rewrite (settled_none (fun id => settles id e)) by done. f_equal.
    transitivity (id <$> unanswered events); [|apply list_fmap_id]. apply list_fmap_ext. intros i p _. by rewrite H2. }
  unfold scan_event.
  destruct (ev_data e) eqn:Ed; cbn [rs_pending];
    try (rewrite IH; symmetry; apply Hquiet; unfold announced, start_seq, settles; by rewrite Ed);
    try (rewrite (settled_all (fun id => settles id e)) by (intros id; unfold settles; by rewrite Ed);
      unfold announced; by rewrite Ed).
  - rewrite (settled_none (fun id => settles id e)) by (intros id; unfold settles; by rewrite Ed).
    unfold announced, start_seq. rewrite Ed. rewrite list_fmap_id, first_started_app.
    + by rewrite IH, <- list_fmap_compose.
    + apply Forall_fmap, Forall_fmap, Forall_forall. done.
  - rewrite (settled_none (fun id => settles id e)) by (intros id; unfold settles; by rewrite Ed).
    unfold announced. rewrite Ed, app_nil_r, IH, <- first_started_start by apply not_elem_of_nil.
    f_equal. apply list_fmap_ext. intros i p _. unfold start_seq, restarted. rewrite Ed. repeat case_decide; done || congruence.
  - destruct (msg_source message) eqn:Es; cbn [rs_pending];
      try (rewrite IH; symmetry; apply Hquiet; unfold announced, start_seq, settles; by rewrite Ed; try rewrite Es).
    unfold announced, start_seq. rewrite Ed, app_nil_r, list_fmap_id, IH, <- first_started_filter. f_equal.
    apply filter_ext_on. intros p _. unfold settles. rewrite Ed, Es. case_bool_decide; naive_solver.
Qed.

Lemma scan_open_turn l : rs_open_turn (scan l) = open_turn l.
Proof.
  induction l as [|e l IH] using rev_ind; [done|]. rewrite scan_app. unfold open_turn. rewrite foldl_app. simpl.
  unfold scan_event, open_turn_step. fold (open_turn l). destruct (ev_data e); try done. by destruct (msg_source message).
Qed.

Lemma scan_open_step l : rs_open_step (scan l) = step_left_open l.
Proof.
  induction l as [|e l IH] using rev_ind; [done|]. rewrite scan_app. cbn [foldl]. unfold step_left_open.
  rewrite omap_app. cbn [omap list_omap]. unfold scan_event, step_mark at 2.
  destruct (ev_data e); try (by rewrite last_snoc); rewrite app_nil_r; try exact IH.
  by destruct (msg_source message).
Qed.

Lemma unresolved_scan events :
  unresolved events = match rs_open_turn (scan events) with Some _ => rs_pending (scan events) | None => [] end.
Proof. unfold unresolved. by rewrite scan_open_turn, scan_pending. Qed.

(** The call a synthetic result answers, and its error code. *)
Definition closer_result (e : SessionEvent) : option (CallId * string) :=
  match ev_data e with
  | ToolResult _ _ message (Some error) _ =>
      match msg_source message with MS_Tool call_id => Some (call_id, ter_code error) | _ => None end
  | _ => None
  end.
Definition closer_of (p : PendingCall) : CallId * string :=
  (pc_call_id p, match pc_call_seq p with Some _ => TOOL_OUTCOME_UNKNOWN | None => TOOL_NOT_STARTED end).

Lemma closer_results turn time seq l : omap closer_result (call_closers turn time seq l) = closer_of <$> l.
Proof.
  revert seq. induction l as [|p l IH]; intros seq; [done|]. cbn [call_closers]. rewrite list_omap_cons, IH, fmap_cons.
  by destruct p as [id step [c|]].
Qed.

Lemma boundary_accepted turn time log st :
  is_ok (fold_surface log) = true -> (Z.of_nat (length log) + 2 < u64_modulus)%Z ->
  is_ok (fold_surface (log ++ boundary_closers turn time (Z.of_nat (length log)) st)) = true.
Proof.
  intros Hok Hroom. destruct st as [step|]; simpl.
  - set (e := mk_event (Z.of_nat (length log)) time (StepEnd turn step) None None None).
    rewrite (cons_middle e log), app_assoc.
    replace (u64_succ (Z.of_nat (length log))) with (Z.of_nat (length (log ++ [e])))
      by (unfold u64_succ; rewrite u64_add_small, length_app by lia; simpl; lia).
    apply accept_log_only; [unfold fits_u64; rewrite length_app; simpl; lia| |done].
    apply accept_log_only; [unfold fits_u64; lia|done|done].
  - apply accept_log_only; [unfold fits_u64; lia|done|done].
Qed.

Lemma scanned_nothing events : rs_pending (scan events) = [] -> unanswered events = [].
Proof. rewrite scan_pending. by destruct (unanswered events). Qed.

(** C27. Repairing a crashed session: for any log the session could have
    written, appending the closers gives a log the surface fold still accepts,
    outside any turn, on which a second repair has nothing to do.  The closers
    first answer exactly the unresolved calls of the open tail turn - those an
    assistant message announced and no later result, step end or turn boundary
    settled - in transcript order, each as outcome-unknown when its start was
    recorded and as not-started otherwise; after these results no call is
    unanswered.  Then they end the step left open, if any, and the turn. *)
Theorem repair_balances events :
  is_ok (fold_surface events) = true ->
  (Z.of_nat (length events + length (unresolved events)) + 2 < u64_modulus)%Z ->
  let closers := interrupted_turn_closers events in
  is_ok (fold_surface (events ++ closers)) = true
  /\ open_turn (events ++ closers) = None
  /\ interrupted_turn_closers (events ++ closers) = []
  /\ omap closer_result closers = closer_of <$> unresolved events
  /\ match open_turn events with
     | None => closers = []
     | Some turn =>
         unanswered (events ++ take (length (unresolved events)) closers) = []
         /\ ev_data <$> drop (length (unresolved events)) closers
            = match step_left_open events with Some step => [StepEnd turn step] | None => [] end ++ [TurnEnd turn TE_Interrupted]
     end.
Proof.
  intros Hok Hroom closers.
  assert (Hcl : rs_open_turn (scan (events ++ closers)) = None) by apply scan_closed.
  assert (Hseqs : forall i x, events !! i = Some x -> ev_seq x = Z.of_nat i).
  { rewrite is_ok_fold_surface in Hok. destruct (fold_surface_state events) as [s|] eqn:E; [|done].
    by destruct (fold_prefix_inv _ _ _ E). }
  assert (Hsecond : interrupted_turn_closers (events ++ closers) = []).
  { unfold interrupted_turn_closers at 1. by rewrite Hcl. }
  rewrite <- !scan_open_turn, <- scan_open_step. rewrite unresolved_scan in *. subst closers. unfold interrupted_turn_closers in *.
  destruct (rs_open_turn (scan events)) as [turn|] eqn:Et; [|by rewrite app_nil_r in *].
  destruct (last events) as [e|] eqn:El; [|by apply last_None in El as ->].
  assert (Hsucc : u64_succ (ev_seq e) = Z.of_nat (length events)).
  { destruct (last_seq events e Hseqs El) as [H|H]; [unfold fits_u64; lia|done|lia]. }
  rewrite Hsucc in *.
  destruct (call_closers_accepted turn (ev_time e) (rs_pending (scan events)) events Hok) as (H1 & H2 & H3);
    [by apply scan_pending_ok|lia|].
  assert (Hlen : length (rs_pending (scan events)) = length (call_closers turn (ev_time e) (Z.of_nat (length events)) (rs_pending (scan events))))
    by (rewrite length_app in H2; lia).
  rewrite H3, <- H2 in *. split_and!; try done.
  - rewrite app_assoc. apply boundary_accepted; [done|]. rewrite H2. lia.
  - rewrite omap_app, closer_results. by destruct (rs_open_step (scan events)); rewrite app_nil_r.
  - rewrite take_app_length' by done. apply scanned_nothing. rewrite scan_app.
    destruct (scan events) as [o st pending]. simpl in *. rewrite scan_call_closers. simpl.
    apply filter_none. intros p Hp Hn. apply Hn. by apply list_elem_of_fmap_2.
  - rewrite drop_app_length' by done. by destruct (rs_open_step (scan events)).
Qed.

Definition demo_crash : list SessionEvent :=
  [mk_event 0 7 (TurnStart 1) None None None;
   demo_user 1 "go" SO_Append None;
   mk_event 2 7 (StepStart 1 1) None None None;
   mk_event 3 8 (AssistantMessage 1 1 (mk_message "m2" R_Assistant [CB_ToolCall "a" "read" "{}"; CB_ToolCall "b" "write" "{}"]
     (MS_Model (mk_provenance "p" "m" None))) None) None (Some SO_Append) None;
   mk_event 4 9 (ToolCall 1 1 "a" "read" "{}") None None None].

Lemma repair_balances_witness :
  is_ok (fold_surface (demo_crash ++ interrupted_turn_closers demo_crash)) = true
  /\ interrupted_turn_closers (demo_crash ++ interrupted_turn_closers demo_crash) = []
  /\ omap closer_result (interrupted_turn_closers demo_crash)
     = [("a", TOOL_OUTCOME_UNKNOWN); ("b", TOOL_NOT_STARTED)]%string.
Proof.
  destruct (repair_balances demo_crash) as (H1 & _ & H3 & H4 & _); [by vm_compute|by vm_compute|].
  split; [exact H1|]. split; [exact H3|]. etransitivity; [exact H4|by vm_compute].
Defined.
