(* ===== verification/Inbox.v ===== *)
(** The durable agent inbox: [crates/dsh/agent/src/inbox.rs] and the splice
    events of [crates/dsh/agent/src/types.rs].

    The live pending lists are a projection of the [agent/inbox/spliced] events
    of the session log.  [serde_json::to_value] and [from_value] at the type
    [InboxSplice] are parameters; that decoding inverts encoding is a
    hypothesis of the theorems.  Notifications are recorded in emission order. *)
From Stdlib Require Import ZArith Lia Ascii String.
From stdpp Require Import base tactics numbers countable list strings gmap.
From S2P Require Import Prelude Json Llm SessionEvents Surface HeaderFold Session Repair.
Open Scope keel_scope.

Inductive InboxTarget := NextTurn | NextStep.
#[export] Instance InboxTarget_eq_dec : EqDecision InboxTarget.
Proof. solve_decision. Defined.

Inductive SpliceOutcome := Canceled.
#[export] Instance SpliceOutcome_eq_dec : EqDecision SpliceOutcome.
Proof. solve_decision. Defined.

Record InboxSplice := mk_splice {
  sp_target : InboxTarget;
  sp_start : Z;
  sp_removed_count : option Z;
  sp_inserted : list Message;
  sp_outcome : option SpliceOutcome;
}.

Definition INBOX_SPLICED_EVENT : string := "agent/inbox/spliced".

Inductive InboxError :=
| InvalidSplice
| AlreadyPending (id : MessageId)
| InvalidPersisted (seq : Z) (e : InboxError)
| SessionRefused (e : SessionError)
(** [Vec::splice] out of bounds. *)
| InboxPanicked.

Inductive Notification :=
| Inserted (message : Message)
| Discarded (message : Message)
| Claimed (message : Message) (turn : Z).

(** The two lists. *)
Record InboxLists := mk_lists { il_next_turn : list Message; il_next_step : list Message }.
Record Inbox := mk_inbox { ib_session : Session; ib_lists : InboxLists; ib_notified : list Notification }.

Definition inbox_list (target : InboxTarget) (l : InboxLists) : list Message :=
  match target with NextTurn => il_next_turn l | NextStep => il_next_step l end.
Definition other (target : InboxTarget) : InboxTarget := match target with NextTurn => NextStep | NextStep => NextTurn end.
Definition set_inbox_list (target : InboxTarget) (v : list Message) (l : InboxLists) : InboxLists :=
  match target with NextTurn => mk_lists v (il_next_step l) | NextStep => mk_lists (il_next_turn l) v end.

Definition message_ids (l : list Message) : list MessageId := msg_id <$> l.

(** * One splice *)

Definition validate (l : InboxLists) (splice : InboxSplice) : result unit InboxError :=
  let removed_count := default 0%Z (sp_removed_count splice) in
  let start := Z.to_nat (sp_start splice) in
  let list := inbox_list (sp_target splice) l in
  if (Z.of_nat (length list) <? u64_add (sp_start splice) removed_count)%Z then Err InvalidSplice
  else
    let candidate_ids := message_ids (take start list ++ sp_inserted splice ++ drop (start + Z.to_nat removed_count) list) in
    let other_ids := message_ids (inbox_list (other (sp_target splice)) l) in
    match first_duplicate ∅ (candidate_ids ++ other_ids) with
    | Some id => Err (AlreadyPending id)
    | None => Ok tt
    end.

(** [list.splice(start..start + removed, ..)] panics on a range that is not in
    the list. *)
Definition apply (l : InboxLists) (sp : InboxSplice) : result (InboxLists * list Message) InboxError :=
  let list := inbox_list (sp_target sp) l in
  let start := sp_start sp in
  let stop := u64_add start (default 0%Z (sp_removed_count sp)) in
  if (stop <? start)%Z || (Z.of_nat (length list) <? stop)%Z then Err InboxPanicked
  else
    let '(list', removed) := splice (Z.to_nat start) (Z.to_nat (stop - start)) (sp_inserted sp) list in
    Ok (set_inbox_list (sp_target sp) list' l, removed).

Section inbox.
Context (to_value : InboxSplice -> Value) (from_value : Value -> option InboxSplice).
(** The clock, the publication of the session's store. *)
Context (now : Session -> Z) (ops : Session -> SessionEvent -> list SessionOp).

Definition to_event_data (sp : InboxSplice) : SessionEventData := Extension INBOX_SPLICED_EVENT (to_value sp).
Definition from_event (event : SessionEvent) : option InboxSplice :=
  match ev_data event with
  | Extension extension_type data => if decide (extension_type = INBOX_SPLICED_EVENT) then from_value data else None
  | _ => None
  end.

(** * Replay *)

Definition replay_event (l : InboxLists) (event : SessionEvent) : result InboxLists InboxError :=
  match from_event event with
  | Some sp =>
      let? _ := map_err (InvalidPersisted (ev_seq event)) (validate l sp) in
      let? r := apply l sp in
      Ok (fst r)
  | None => Ok l
  end.
Definition replay (l : InboxLists) (events : list SessionEvent) : result InboxLists InboxError :=
  try_fold replay_event l events.

Definition seed_boundary (s : Session) : nat := Z.to_nat (default 0%Z (sh_seed_length (ss_header s))).

Definition Inbox_new (s : Session) : result Inbox InboxError :=
  let? l := replay (mk_lists [] []) (drop (seed_boundary s) (ss_log s)) in
  Ok (mk_inbox s l []).

(** * Mutations *)

Definition mutate (target : InboxTarget) (start delete_count : Z) (inserted : list Message) (discard_removed : bool)
    (ib : Inbox) : Inbox * result (list Message) InboxError :=
  let len := Z.of_nat (length (inbox_list target (ib_lists ib))) in
  let actual_start := Z.min start len in
  let actual_delete := Z.min delete_count (len - actual_start) in
  if bool_decide (actual_delete = 0%Z) && bool_decide (inserted = []) then (ib, Ok [])
  else
    let sp := mk_splice target actual_start (if bool_decide (actual_delete = 0%Z) then None else Some actual_delete)
                inserted (if discard_removed && negb (bool_decide (actual_delete = 0%Z)) then Some Canceled else None) in
    match validate (ib_lists ib) sp with
    | Err e => (ib, Err e)
    | Ok _ =>
        let '(s, r) := append (listeners ops) (now (ib_session ib)) (to_event_data sp) (Some intent_default) (ib_session ib) in
        match r with
        | Err e => (mk_inbox s (ib_lists ib) (ib_notified ib), Err (SessionRefused e))
        | Ok _ =>
            match apply (ib_lists ib) sp with
            | Err e => (mk_inbox s (ib_lists ib) (ib_notified ib), Err e)
            | Ok (l, removed) =>
                (mk_inbox s l (ib_notified ib ++ (if discard_removed then Discarded <$> removed else [])
                                 ++ (Inserted <$> inserted)), Ok removed)
            end
        end
    end.

Definition inbox_splice (target : InboxTarget) (start delete_count : Z) (inserted : list Message) (ib : Inbox)
    : Inbox * result (list Message) InboxError := mutate target start delete_count inserted true ib.

Definition has_pending (ib : Inbox) : bool :=
  negb (bool_decide (il_next_turn (ib_lists ib) = [])) || negb (bool_decide (il_next_step (ib_lists ib) = [])).

(** Sequencing of two mutations with the [?] of the first. *)
Definition then_ {A B} (r : Inbox * result A InboxError) (k : Inbox -> A -> Inbox * result B InboxError)
    : Inbox * result B InboxError :=
  match r with (ib, Ok a) => k ib a | (ib, Err e) => (ib, Err e) end.

Definition clear (ib : Inbox) : Inbox * result unit InboxError :=
  then_ (inbox_splice NextStep 0 (Z.of_nat (length (il_next_step (ib_lists ib)))) [] ib) (fun ib _ =>
  then_ (inbox_splice NextTurn 0 (Z.of_nat (length (il_next_turn (ib_lists ib)))) [] ib) (fun ib _ =>
  (ib, Ok tt))).

Definition claim (target : InboxTarget) (turn : Z) (ib : Inbox) : Inbox * result (list Message) InboxError :=
  then_ (mutate NextStep 0 (Z.of_nat (length (il_next_step (ib_lists ib)))) [] false ib) (fun ib claimed =>
  then_ (match target with
         | NextTurn => then_ (mutate NextTurn 0 1 [] false ib) (fun ib more => (ib, Ok (claimed ++ more)))
         | NextStep => (ib, Ok claimed)
         end) (fun ib claimed =>
  (mk_inbox (ib_session ib) (ib_lists ib) (ib_notified ib ++ ((fun m => Claimed m turn) <$> claimed)), Ok claimed))).

Definition inbox_append (target : InboxTarget) (message : Message) (ib : Inbox) : Inbox * result unit InboxError :=
  then_ (inbox_splice target (Z.of_nat (length (inbox_list target (ib_lists ib)))) 0 [message] ib) (fun ib _ => (ib, Ok tt)).
Definition inbox_prepend (target : InboxTarget) (message : Message) (ib : Inbox) : Inbox * result unit InboxError :=
  then_ (inbox_splice target 0 0 [message] ib) (fun ib _ => (ib, Ok tt)).

Definition locate (message_id : MessageId) (l : InboxLists) : option (InboxTarget * nat) :=
  match position (fun m => bool_decide (msg_id m = message_id)) (il_next_turn l) with
  | Some i => Some (NextTurn, i)
  | None => pair NextStep <$> position (fun m => bool_decide (msg_id m = message_id)) (il_next_step l)
  end.

Definition inbox_replace (message_id : MessageId) (new_message : Message) (ib : Inbox) : Inbox * result bool InboxError :=
  match locate message_id (ib_lists ib) with
  | None => (ib, Ok false)
  | Some (target, index) => then_ (inbox_splice target (Z.of_nat index) 1 [new_message] ib) (fun ib _ => (ib, Ok true))
  end.
Definition inbox_remove (message_id : MessageId) (ib : Inbox) : Inbox * result bool InboxError :=
  match locate message_id (ib_lists ib) with
  | None => (ib, Ok false)
  | Some (target, index) => then_ (inbox_splice target (Z.of_nat index) 1 [] ib) (fun ib _ => (ib, Ok true))
  end.
End inbox.

(** * The invariant *)

Lemma message_ids_app l1 l2 : message_ids (l1 ++ l2) = message_ids l1 ++ message_ids l2.
Proof. apply fmap_app. Qed.

(** The list after a splice of [n] elements at [i]. *)
Definition spliced (i n : nat) (ins l : list Message) : list Message := take i l ++ ins ++ drop (i + n) l.

Lemma spliced_ids_sub i n ins l x : x ∈ message_ids (spliced i n ins l) -> x ∈ message_ids ins \/ x ∈ message_ids l.
Proof.
  unfold spliced, message_ids. rewrite !fmap_app, !elem_of_app. intros [H|[H|H]]; [|by left|]; right.
  - apply list_elem_of_fmap in H as (m & -> & Hm). apply list_elem_of_fmap_2. by eapply subseteq_take.
  - apply list_elem_of_fmap in H as (m & -> & Hm). apply list_elem_of_fmap_2. by eapply subseteq_drop.
Qed.

Lemma NoDup_take {A} n (l : list A) : NoDup l -> NoDup (take n l).
Proof. rewrite <- (take_drop n l) at 1. by intros (? & _ & _)%NoDup_app. Qed.
Lemma NoDup_drop {A} n (l : list A) : NoDup l -> NoDup (drop n l).
Proof. rewrite <- (take_drop n l) at 1. by intros (_ & _ & ?)%NoDup_app. Qed.

(** Pure deletions keep the ids distinct. *)
Lemma spliced_nil_NoDup i n l : NoDup (message_ids l) -> NoDup (message_ids (spliced i n [] l)).
Proof.
  intros H. unfold spliced, message_ids in *. simpl. rewrite fmap_app, fmap_take, fmap_drop.
  rewrite Nat.add_comm, <- drop_drop. apply NoDup_app. split_and!; [by apply NoDup_take| |by repeat apply NoDup_drop].
  rewrite <- (take_drop i (msg_id <$> l)) in H. apply NoDup_app in H as (_ & H & _).
  intros x Hx Hd. apply (H x Hx). rewrite drop_drop in Hd. rewrite Nat.add_comm in Hd. rewrite <- drop_drop in Hd.
  by eapply subseteq_drop.
Qed.

Definition no_duplicates (l : InboxLists) : Prop := NoDup (message_ids (il_next_turn l ++ il_next_step l)).

Lemma no_duplicates_target l target :
  no_duplicates l <-> NoDup (message_ids (inbox_list target l) ++ message_ids (inbox_list (other target) l)).
Proof.
  unfold no_duplicates. rewrite message_ids_app. destruct target; simpl; [done|]. by rewrite Permutation_app_comm.
Qed.

Lemma inbox_list_set target v l : inbox_list target (set_inbox_list target v l) = v
  /\ inbox_list (other target) (set_inbox_list target v l) = inbox_list (other target) l.
Proof. by destruct target. Qed.

Lemma validate_apply l sp i n :
  sp_start sp = Z.of_nat i -> default 0%Z (sp_removed_count sp) = Z.of_nat n ->
  i + n <= length (inbox_list (sp_target sp) l) -> (Z.of_nat (length (inbox_list (sp_target sp) l)) < u64_modulus)%Z ->
  let l' := set_inbox_list (sp_target sp) (spliced i n (sp_inserted sp) (inbox_list (sp_target sp) l)) l in
  (if decide (no_duplicates l') then validate l sp = Ok tt else exists id, validate l sp = Err (AlreadyPending id))
  /\ apply l sp = Ok (l', take n (drop i (inbox_list (sp_target sp) l))).
Proof.
  intros Hi Hn Hle Hfit l'. set (list := inbox_list (sp_target sp) l) in *. split.
  - assert (Hd : no_duplicates l' <-> NoDup (message_ids (spliced i n (sp_inserted sp) list) ++ message_ids (inbox_list (other (sp_target sp)) l))).
    { rewrite (no_duplicates_target l' (sp_target sp)). subst l'. by rewrite !(proj1 (inbox_list_set _ _ _)), (proj2 (inbox_list_set _ _ _)). }
    unfold validate. fold list. rewrite Hi, Hn. rewrite u64_add_small by lia.
    destruct (_ <? _)%Z eqn:E; [apply Z.ltb_lt in E; lia|]. rewrite !Nat2Z.id.
    fold (spliced i n (sp_inserted sp) list).
    destruct (first_duplicate _ _) as [id|] eqn:Ef; case_decide as Hnd; try done.
    + exfalso. apply Hd in Hnd. assert (Hnone : first_duplicate ∅ (message_ids (spliced i n (sp_inserted sp) list)
        ++ message_ids (inbox_list (other (sp_target sp)) l)) = None); [|congruence].
      apply first_duplicate_None. split; [done|]. set_solver.
    + by exists id.
    + apply first_duplicate_None in Ef as [Ef _]. by rewrite Hd in Hnd.
  - unfold apply. fold list. rewrite Hi, Hn. rewrite u64_add_small by lia.
    destruct (_ || _) eqn:E.
    { apply orb_true_iff in E as [E|E]; apply Z.ltb_lt in E; lia. }
    unfold splice. replace (Z.to_nat (Z.of_nat i + Z.of_nat n - Z.of_nat i)) with n by lia. rewrite Nat2Z.id. done.
Qed.

(** The numbers of a splice are [u64]s. *)
Definition typed_splice (sp : InboxSplice) : Prop :=
  (0 <= sp_start sp < u64_modulus)%Z /\ (0 <= default 0 (sp_removed_count sp) < u64_modulus)%Z.
#[export] Instance typed_splice_dec sp : Decision (typed_splice sp).
Proof. unfold typed_splice. solve_decision. Defined.

Section spec.
Context (to_value : InboxSplice -> Value) (from_value : Value -> option InboxSplice)
  (now : Session -> Z) (ops : Session -> SessionEvent -> list SessionOp)
  (codec : forall sp, typed_splice sp -> from_value (to_value sp) = Some sp).
Local Abbreviation mutate' := (mutate to_value now ops).
Local Abbreviation replay' := (replay from_value).

(** The live lists are what the durable log says. *)
Record inbox_inv (ib : Inbox) : Prop := {
  ii_session : session_inv (ib_session ib);
  ii_idle : ss_appending (ib_session ib) = false;
  ii_seed : seed_boundary (ib_session ib) <= length (ss_log (ib_session ib));
  ii_unique : no_duplicates (ib_lists ib);
  ii_replay : replay' (mk_lists [] []) (drop (seed_boundary (ib_session ib)) (ss_log (ib_session ib))) = Ok (ib_lists ib);
}.

Definition list_fits (ib : Inbox) : Prop :=
  forall target, (Z.of_nat (length (inbox_list target (ib_lists ib))) < u64_modulus)%Z.

(** Splices are log-only events: the session always takes them. *)
Lemma append_splice_ok ib sp :
  inbox_inv ib -> has_room (ib_session ib) ->
  let s := ib_session ib in
  exists s' e, append (listeners ops) (now s) (to_event_data to_value sp) (Some intent_default) s = (s', Ok e)
    /\ ev_data e = to_event_data to_value sp /\ ss_log s' = ss_log s ++ [e]
    /\ session_inv s' /\ ss_appending s' = false /\ ss_header s' = ss_header s.
Proof.
  intros [H1 H2 _ _ _] Hroom s.
  pose proof (append_spec (listeners ops) (now s) (to_event_data to_value sp) (Some intent_default) s
    (listeners_ok ops) H1 Hroom H2) as H. cbv zeta in H.
  assert (Hok : is_ok (fold_surface (ss_log s ++ [next_event (now s) (to_event_data to_value sp) (Some intent_default) s])) = true).
  { apply accept_log_only; [by apply has_room_fits| |done].
    destruct (inv_manager _ H1) as [_ (rs & Hf)]. rewrite is_ok_fold_surface. subst s. by rewrite Hf. }
  destruct (append _ _ _ _ _) as [s' [e|e]].
  - destruct H as (-> & _ & Hl & Hi & Ha & Hh). exists s', (next_event (now s) (to_event_data to_value sp) (Some intent_default) s).
    split_and!; try done. by injection Hh.
  - destruct e; try done. destruct H as [_ H]. congruence.
Qed.

Lemma replay_snoc l events e l' :
  replay' l events = Ok l' -> replay' l (events ++ [e]) = replay_event from_value l' e.
Proof. intros H. unfold replay in *. by rewrite try_fold_snoc, H. Qed.

Lemma from_to_event sp e : typed_splice sp -> ev_data e = to_event_data to_value sp -> from_event from_value e = Some sp.
Proof. intros Ht H. unfold from_event. rewrite H. unfold to_event_data. rewrite decide_True by done. by apply codec. Qed.

(** What a mutation does to the lists, and when it is refused. *)
Lemma mutate_spec target start delete_count ins discard ib :
  inbox_inv ib -> has_room (ib_session ib) -> list_fits ib -> (0 <= start)%Z -> (0 <= delete_count)%Z ->
  let list := inbox_list target (ib_lists ib) in
  let i := Z.to_nat (Z.min start (Z.of_nat (length list))) in
  let n := Z.to_nat (Z.min delete_count (Z.of_nat (length list - i))) in
  let l' := set_inbox_list target (spliced i n ins list) (ib_lists ib) in
  if decide (no_duplicates l') then
    exists s', mutate' target start delete_count ins discard ib =
      (mk_inbox s' l' (ib_notified ib ++ (if discard then Discarded <$> take n (drop i list) else []) ++ (Inserted <$> ins)),
       Ok (take n (drop i list)))
    /\ inbox_inv (mk_inbox s' l' (ib_notified ib ++ (if discard then Discarded <$> take n (drop i list) else []) ++ (Inserted <$> ins)))
    /\ length (ss_log s') <= S (length (ss_log (ib_session ib)))
  else exists id, mutate' target start delete_count ins discard ib = (ib, Err (AlreadyPending id)).
Proof.
  intros Hinv Hroom Hfits Hs Hd list i n l'.
  assert (Hi : Z.min start (Z.of_nat (length list)) = Z.of_nat i) by lia.
  assert (Hile : i <= length list) by lia.
  assert (Hn : Z.min delete_count (Z.of_nat (length list) - Z.of_nat i) = Z.of_nat n) by lia.
  unfold mutate. fold list. rewrite Hi, Hn.
  destruct (bool_decide (Z.of_nat n = 0%Z) && bool_decide (ins = [])) eqn:E0.
  { apply andb_true_iff in E0 as [E1 E2]. apply bool_decide_eq_true in E1, E2. subst ins.
    assert (n = 0) as -> by lia.
    assert (Hl' : l' = ib_lists ib).
    { subst l'. unfold spliced. simpl. rewrite Nat.add_0_r, take_drop. subst list. by destruct target, (ib_lists ib). }
    assert (Hib : mk_inbox (ib_session ib) l' (ib_notified ib ++ (if discard then Discarded <$> take 0 (drop i list) else []) ++ (Inserted <$> [])) = ib).
    { rewrite Hl'. destruct ib, discard; simpl; by rewrite !app_nil_r. }
    rewrite decide_True by (rewrite Hl'; apply Hinv). exists (ib_session ib). rewrite Hib. split_and!; [done|done|lia]. }
  set (sp := mk_splice _ _ _ _ _).
  assert (Hrem : default 0%Z (sp_removed_count sp) = Z.of_nat n).
  { subst sp. simpl. case_bool_decide as E; simpl; lia. }
  assert (Htyped : typed_splice sp).
  { specialize (Hfits target). fold list in Hfits. unfold typed_splice. rewrite Hrem. subst sp. simpl. lia. }
  destruct (validate_apply (ib_lists ib) sp i n eq_refl Hrem) as [Hv Ha]; [subst sp; simpl; fold list; lia|apply Hfits|].
  simpl in Hv, Ha. fold list in Hv, Ha. fold l' in Hv, Ha.
  case_decide as Hnd; [|destruct Hv as (id & ->); by exists id].
  rewrite Hv. destruct (append_splice_ok ib sp Hinv Hroom) as (s' & e & -> & Hdata & Hlog & Hsi & Hidle & Hhdr).
  rewrite Ha. exists s'. split_and!; [done| |rewrite Hlog, length_app; simpl; lia].
  destruct Hinv as [I1 I2 I3 I4 I5].
  assert (Hsb : seed_boundary s' = seed_boundary (ib_session ib)) by (unfold seed_boundary; by rewrite Hhdr).
  split; simpl; try done; rewrite Hsb, Hlog.
  - rewrite length_app. lia.
  - rewrite drop_app_le by done. erewrite replay_snoc by exact I5. unfold replay_event.
    rewrite (from_to_event sp e Htyped Hdata), Hv. cbn [map_err result_bind]. by rewrite Ha.
Qed.

(** Room for the two splices an operation may write. *)
Definition has_room2 (ib : Inbox) : Prop :=
  (Z.of_nat (length (ss_log (ib_session ib))) + 2 < u64_modulus)%Z /\ list_fits ib.

Lemma has_room2_room ib : has_room2 ib -> has_room (ib_session ib).
Proof. unfold has_room2, has_room. lia. Qed.

Lemma spliced_all l n : length l <= n -> spliced 0 n [] l = [].
Proof. intros H. unfold spliced. simpl. by apply skipn_all2. Qed.

Lemma no_duplicates_shrink target i n l :
  no_duplicates l -> no_duplicates (set_inbox_list target (spliced i n [] (inbox_list target l)) l).
Proof.
  rewrite !(no_duplicates_target _ target), (proj1 (inbox_list_set _ _ _)), (proj2 (inbox_list_set _ _ _)).
  intros (H1 & H2 & H3)%NoDup_app. apply NoDup_app. split_and!; [by apply spliced_nil_NoDup| |done].
  intros x [Hx|Hx]%spliced_ids_sub; [by apply elem_of_nil in Hx|by apply H2].
Qed.

(** A deletion always succeeds. *)
Lemma mutate_delete target delete_count (discard : bool) ib :
  inbox_inv ib -> has_room (ib_session ib) -> list_fits ib -> (0 <= delete_count)%Z ->
  let xs := inbox_list target (ib_lists ib) in
  let n := Z.to_nat (Z.min delete_count (Z.of_nat (length xs))) in
  exists s' : Session, let ib' := mk_inbox s' (set_inbox_list target (drop n xs) (ib_lists ib))
                     (ib_notified ib ++ (if discard then (Discarded <$> take n xs) else @nil Notification)) in
    mutate' target 0 delete_count [] discard ib = (ib', Ok (take n xs)) /\ inbox_inv ib'
    /\ length (ss_log s') <= S (length (ss_log (ib_session ib))).
Proof.
  intros Hinv Hroom Hfits Hd xs n.
  pose proof (mutate_spec target 0 delete_count [] discard ib Hinv Hroom Hfits ltac:(lia) Hd) as H. cbv zeta in H.
  fold xs in H. replace (Z.to_nat (Z.min 0 (Z.of_nat (length xs)))) with 0 in H by lia.
  rewrite Nat.sub_0_r in H. fold n in H. unfold spliced in H. cbn [take app Nat.add] in H.
  rewrite decide_True in H.
  - destruct H as (s' & Hm & Hi & Hlen). rewrite app_nil_r, drop_0 in *. exists s'. by split_and!.
  - pose proof (no_duplicates_shrink target 0 n (ib_lists ib) (ii_unique _ Hinv)) as Hs. exact Hs.
Qed.

(** [claim]: the whole step list, and one prompt when a turn starts. *)
Lemma claim_spec target turn ib :
  inbox_inv ib -> has_room2 ib ->
  let l := ib_lists ib in
  let k := match target with NextTurn => 1 | NextStep => 0 end in
  exists ib', claim to_value now ops target turn ib = (ib', Ok (il_next_step l ++ take k (il_next_turn l)))
    /\ ib_lists ib' = mk_lists (drop k (il_next_turn l)) []
    /\ ib_notified ib' = ib_notified ib ++ ((fun m => Claimed m turn) <$> (il_next_step l ++ take k (il_next_turn l)))
    /\ inbox_inv ib'.
Proof.
  intros Hinv [Hroom Hfits] l k. subst l. pose proof (has_room2_room ib (conj Hroom Hfits)) as Hr.
  unfold claim.
  destruct (mutate_delete NextStep (Z.of_nat (length (il_next_step (ib_lists ib)))) false ib Hinv Hr Hfits ltac:(lia))
    as (s1 & -> & Hinv1 & Hlen1).
  cbn [inbox_list then_ set_inbox_list] in *. rewrite Z.min_id, Nat2Z.id, firstn_all, drop_all, app_nil_r in *.
  destruct target; cbn [then_]; subst k.
  - destruct (mutate_delete NextTurn 1 false _ Hinv1) as (s2 & -> & Hinv2 & Hlen2);
      [unfold has_room; simpl in *; lia|intros []; [apply (Hfits NextTurn)|done]|lia|].
    cbn [inbox_list then_ set_inbox_list ib_lists il_next_turn il_next_step ib_session ib_notified] in *.
    set (l := il_next_turn (ib_lists ib)) in *.
    assert (Hmin : forall f : nat -> list Message, f 0 = f 1 \/ length l <> 0 ->
      f (Z.to_nat (Z.min 1 (Z.of_nat (length l)))) = f 1).
    { intros f [Hf|Hl]; [|by replace (Z.to_nat (Z.min 1 (Z.of_nat (length l)))) with 1 by lia].
      destruct (length l) eqn:E; [done|]. by replace (Z.to_nat (Z.min 1 (Z.of_nat (S n)))) with 1 by lia. }
    assert (Ht : take (Z.to_nat (Z.min 1 (Z.of_nat (length l)))) l = take 1 l).
    { apply (Hmin (fun n => take n l)). destruct l; [by left|by right]. }
    assert (Hdr : drop (Z.to_nat (Z.min 1 (Z.of_nat (length l)))) l = drop 1 l).
    { apply (Hmin (fun n => drop n l)). destruct l; [by left|by right]. }
    rewrite Ht, Hdr, app_nil_r in *. eexists. split_and!; [done|done|done|].
    by destruct Hinv2; split.
  - rewrite take_0, drop_0, app_nil_r. eexists. split_and!; [done|done|done|]. by destruct Hinv1; split.
Qed.

(** [append] at the end of a list. *)
Lemma append_inbox_spec target m ib :
  inbox_inv ib -> has_room2 ib ->
  let l := ib_lists ib in
  if decide (msg_id m ∈ message_ids (il_next_turn l ++ il_next_step l))
  then exists id, inbox_append to_value now ops target m ib = (ib, Err (AlreadyPending id))
  else exists ib', inbox_append to_value now ops target m ib = (ib', Ok tt)
    /\ ib_lists ib' = set_inbox_list target (inbox_list target l ++ [m]) l
    /\ ib_notified ib' = ib_notified ib ++ [Inserted m] /\ inbox_inv ib'.
Proof.
  intros Hinv [Hroom Hfits] l. subst l. pose proof (has_room2_room ib (conj Hroom Hfits)) as Hr.
  unfold inbox_append, inbox_splice.
  pose proof (mutate_spec target (Z.of_nat (length (inbox_list target (ib_lists ib)))) 0 [m] true ib Hinv Hr Hfits ltac:(lia) ltac:(lia)) as H.
  cbv zeta in H. rewrite Z.min_id, Nat2Z.id, Nat.sub_diag in H.
  change (Z.to_nat (Z.min 0 (Z.of_nat 0))) with 0 in H.
  set (list := inbox_list target (ib_lists ib)) in *.
  assert (Hsp : spliced (length list) 0 [m] list = list ++ [m]).
  { unfold spliced. rewrite firstn_all, Nat.add_0_r, drop_all, app_nil_r. done. }
  rewrite Hsp in H.
  assert (Hnd : no_duplicates (set_inbox_list target (list ++ [m]) (ib_lists ib)) <->
    msg_id m ∉ message_ids (il_next_turn (ib_lists ib) ++ il_next_step (ib_lists ib))).
  { pose proof (ii_unique _ Hinv) as Hu. rewrite (no_duplicates_target _ target) in Hu. fold list in Hu.
    rewrite (no_duplicates_target _ target), (proj1 (inbox_list_set _ _ _)), (proj2 (inbox_list_set _ _ _)).
    assert (Hperm : message_ids (il_next_turn (ib_lists ib) ++ il_next_step (ib_lists ib))
      ≡ₚ message_ids list ++ message_ids (inbox_list (other target) (ib_lists ib))).
    { rewrite message_ids_app. subst list. destruct target; simpl; [done|apply Permutation_app_comm]. }
    rewrite Hperm. rewrite message_ids_app. change (message_ids [m]) with [msg_id m].
    rewrite <- app_assoc. cbn [app]. rewrite <- Permutation_middle, NoDup_cons. tauto. }
  destruct (decide (msg_id m ∈ message_ids (il_next_turn (ib_lists ib) ++ il_next_step (ib_lists ib)))) as [Hin|Hin].
  - rewrite decide_False in H by tauto. destruct H as (id & ->). by exists id.
  - rewrite decide_True in H by tauto. destruct H as (s' & -> & Hi & _). cbn [then_].
    eexists. split_and!; [done|done| |exact Hi]. by destruct (length list).
Qed.

Lemma locate_spec id l :
  match locate id l with
  | Some (target, i) => exists m, inbox_list target l !! i = Some m /\ msg_id m = id
  | None => id ∉ message_ids (il_next_turn l ++ il_next_step l)
  end.
Proof.
  assert (Hn : forall x, position (fun m => bool_decide (msg_id m = id)) x = None -> id ∉ message_ids x).
  { intros x Hx (m & -> & Hm)%list_elem_of_fmap. rewrite position_None in Hx. specialize (Hx m Hm).
    by apply bool_decide_eq_false in Hx. }
  unfold locate. destruct (position _ (il_next_turn l)) as [i|] eqn:E1.
  { apply position_Some in E1 as (m & Hm & Hid%bool_decide_eq_true & _). eauto. }
  destruct (position _ (il_next_step l)) as [i|] eqn:E2; simpl.
  { apply position_Some in E2 as (m & Hm & Hid%bool_decide_eq_true & _). eauto. }
  rewrite message_ids_app, elem_of_app. intros [H|H]; [by apply (Hn _ E1)|by apply (Hn _ E2)].
Qed.

(** One element replaced by [ins], in place. *)
Lemma mutate_one target i m ins ib :
  inbox_inv ib -> has_room2 ib -> inbox_list target (ib_lists ib) !! i = Some m ->
  let l' := set_inbox_list target (spliced i 1 ins (inbox_list target (ib_lists ib))) (ib_lists ib) in
  if decide (no_duplicates l') then
    exists s', mutate' target (Z.of_nat i) 1 ins true ib =
      (mk_inbox s' l' (ib_notified ib ++ [Discarded m] ++ (Inserted <$> ins)), Ok [m])
    /\ inbox_inv (mk_inbox s' l' (ib_notified ib ++ [Discarded m] ++ (Inserted <$> ins)))
  else exists id, mutate' target (Z.of_nat i) 1 ins true ib = (ib, Err (AlreadyPending id)).
Proof.
  intros Hinv [Hroom Hfits] Hi l'. pose proof (has_room2_room ib (conj Hroom Hfits)) as Hr.
  pose proof (lookup_lt_Some _ _ _ Hi) as Hlt.
  pose proof (mutate_spec target (Z.of_nat i) 1 ins true ib Hinv Hr Hfits ltac:(lia) ltac:(lia)) as H. cbv zeta in H.
  replace (Z.to_nat (Z.min (Z.of_nat i) (Z.of_nat (length (inbox_list target (ib_lists ib)))))) with i in H by lia.
  replace (Z.to_nat (Z.min 1 (Z.of_nat (length (inbox_list target (ib_lists ib)) - i)))) with 1 in H by lia.
  rewrite (drop_S _ m i Hi) in H. cbn [take] in H. fold l' in H. subst l'.
  destruct (decide _) as [Hd|Hd].
  - destruct H as (s' & Hm & Hv & _). exists s'. by split.
  - exact H.
Qed.

Lemma remove_spec id ib :
  inbox_inv ib -> has_room2 ib ->
  match locate id (ib_lists ib) with
  | Some (target, i) => exists ib' m, inbox_remove to_value now ops id ib = (ib', Ok true) /\ msg_id m = id
      /\ ib_lists ib' = set_inbox_list target (delete i (inbox_list target (ib_lists ib))) (ib_lists ib)
      /\ ib_notified ib' = ib_notified ib ++ [Discarded m] /\ inbox_inv ib'
  | None => inbox_remove to_value now ops id ib = (ib, Ok false)
  end.
Proof.
  intros Hinv Hr. pose proof (locate_spec id (ib_lists ib)) as Hl. unfold inbox_remove.
  destruct (locate id (ib_lists ib)) as [[target i]|]; [|done]. destruct Hl as (m & Hi & Hid).
  pose proof (mutate_one target i m [] ib Hinv Hr Hi) as H. cbv zeta in H.
  rewrite decide_True in H by (apply no_duplicates_shrink, Hinv). destruct H as (s' & Hm & Hv).
  unfold inbox_splice. rewrite Hm. cbn [then_]. eexists _, m. split_and!; [done|done| |done|exact Hv].
  cbn [ib_lists]. f_equal. unfold spliced. rewrite Nat.add_1_r. symmetry. apply delete_take_drop.
Qed.

Lemma replace_spec id m' ib :
  inbox_inv ib -> has_room2 ib ->
  match locate id (ib_lists ib) with
  | Some (target, i) =>
      let l' := set_inbox_list target (<[i := m']> (inbox_list target (ib_lists ib))) (ib_lists ib) in
      if decide (no_duplicates l') then
        exists ib' m, inbox_replace to_value now ops id m' ib = (ib', Ok true) /\ msg_id m = id
          /\ ib_lists ib' = l' /\ ib_notified ib' = ib_notified ib ++ [Discarded m; Inserted m'] /\ inbox_inv ib'
      else exists dup, inbox_replace to_value now ops id m' ib = (ib, Err (AlreadyPending dup))
  | None => inbox_replace to_value now ops id m' ib = (ib, Ok false)
  end.
Proof.
  intros Hinv Hr. pose proof (locate_spec id (ib_lists ib)) as Hl. unfold inbox_replace.
  destruct (locate id (ib_lists ib)) as [[target i]|]; [|done]. destruct Hl as (m & Hi & Hid).
  pose proof (mutate_one target i m [m'] ib Hinv Hr Hi) as H. cbv zeta in H |- *.
  assert (Hsp : spliced i 1 [m'] (inbox_list target (ib_lists ib)) = <[i := m']> (inbox_list target (ib_lists ib))).
  { unfold spliced. rewrite Nat.add_1_r. symmetry. rewrite (insert_take_drop _ _ m') by (by eapply lookup_lt_Some). done. }
  rewrite Hsp in H. unfold inbox_splice. destruct (decide _) as [Hd|Hd].
  - destruct H as (s' & Hm & Hv). rewrite Hm. cbn [then_]. eexists _, m. split_and!; [done|done|done|done|exact Hv].
  - destruct H as (dup & ->). by exists dup.
Qed.

Lemma clear_spec ib :
  inbox_inv ib -> has_room2 ib ->
  exists ib', clear to_value now ops ib = (ib', Ok tt) /\ ib_lists ib' = mk_lists [] []
    /\ ib_notified ib' = ib_notified ib ++ (Discarded <$> il_next_step (ib_lists ib)) ++ (Discarded <$> il_next_turn (ib_lists ib))
    /\ inbox_inv ib'.
Proof.
  intros Hinv [Hroom Hfits]. pose proof (has_room2_room ib (conj Hroom Hfits)) as Hr. unfold clear, inbox_splice.
  destruct (mutate_delete NextStep (Z.of_nat (length (il_next_step (ib_lists ib)))) true ib Hinv Hr Hfits ltac:(lia))
    as (s1 & -> & Hinv1 & Hlen1).
  cbn [inbox_list then_ set_inbox_list] in *. rewrite Z.min_id, Nat2Z.id, firstn_all, drop_all in *.
  cbn [ib_lists il_next_turn] in *.
  destruct (mutate_delete NextTurn (Z.of_nat (length (il_next_turn (ib_lists ib)))) true _ Hinv1) as (s2 & -> & Hinv2 & _);
    [unfold has_room; simpl in *; lia|intros []; [apply (Hfits NextTurn)|done]|lia|].
  cbn [inbox_list then_ set_inbox_list ib_lists il_next_turn il_next_step ib_session ib_notified] in *.
  rewrite Z.min_id, Nat2Z.id, firstn_all, drop_all in *.
  eexists. split_and!; [done|done| |exact Hinv2]. simpl. by rewrite app_assoc.
Qed.

(** What every inbox operation does, on a well-formed inbox.  A claim takes
    the whole step list and, when it opens a turn, one prompt, and notifies
    exactly what it took; appending a message is refused exactly when its id is
    pending in either list; removing or replacing acts on the one pending
    message with that id and reports its absence; clearing empties both lists
    and always succeeds; whatever is refused changes nothing, and every
    operation keeps the live lists equal to the replay of the durable log. *)
Theorem inbox_operations ib :
  inbox_inv ib -> has_room2 ib ->
  (forall target turn,
     let k := match target with NextTurn => 1 | NextStep => 0 end in
     let batch := il_next_step (ib_lists ib) ++ take k (il_next_turn (ib_lists ib)) in
     exists ib', claim to_value now ops target turn ib = (ib', Ok batch)
       /\ ib_lists ib' = mk_lists (drop k (il_next_turn (ib_lists ib))) []
       /\ ib_notified ib' = ib_notified ib ++ ((fun m => Claimed m turn) <$> batch) /\ inbox_inv ib')
  /\ (forall target m,
     if decide (msg_id m ∈ message_ids (il_next_turn (ib_lists ib) ++ il_next_step (ib_lists ib)))
     then exists id, inbox_append to_value now ops target m ib = (ib, Err (AlreadyPending id))
     else exists ib', inbox_append to_value now ops target m ib = (ib', Ok tt)
       /\ ib_lists ib' = set_inbox_list target (inbox_list target (ib_lists ib) ++ [m]) (ib_lists ib)
       /\ ib_notified ib' = ib_notified ib ++ [Inserted m] /\ inbox_inv ib')
  /\ (forall id,
     match locate id (ib_lists ib) with
     | Some (target, i) => exists ib' m, inbox_remove to_value now ops id ib = (ib', Ok true) /\ msg_id m = id
         /\ ib_lists ib' = set_inbox_list target (delete i (inbox_list target (ib_lists ib))) (ib_lists ib)
         /\ ib_notified ib' = ib_notified ib ++ [Discarded m] /\ inbox_inv ib'
     | None => id ∉ message_ids (il_next_turn (ib_lists ib) ++ il_next_step (ib_lists ib))
         /\ inbox_remove to_value now ops id ib = (ib, Ok false)
     end)
  /\ exists ib', clear to_value now ops ib = (ib', Ok tt) /\ ib_lists ib' = mk_lists [] [] /\ inbox_inv ib'.
Proof.
  intros Hinv Hr. split_and!.
  - intros target turn. by apply claim_spec.
  - intros target m. by apply append_inbox_spec.
  - intros id. pose proof (locate_spec id (ib_lists ib)) as Hl. pose proof (remove_spec id ib Hinv Hr) as H.
    destruct (locate id (ib_lists ib)) as [[target i]|]; [exact H|by split].
  - destruct (clear_spec ib Hinv Hr) as (ib' & ? & ? & _ & ?). by exists ib'.
Qed.

(** ** Restart *)

Lemma accepted_splice l sp l' removed :
  typed_splice sp -> no_duplicates l -> validate l sp = Ok tt -> apply l sp = Ok (l', removed) -> no_duplicates l'.
Proof.
  intros [Hs Hr] Hnd Hv Ha. unfold apply in Ha. destruct (_ || _) eqn:E; [done|].
  apply orb_false_iff in E as [E1 E2]. apply Z.ltb_ge in E1, E2.
  assert (Hstop : u64_add (sp_start sp) (default 0%Z (sp_removed_count sp)) = (sp_start sp + default 0%Z (sp_removed_count sp))%Z).
  { unfold u64_add, u64_wrap in *. destruct (decide (sp_start sp + default 0 (sp_removed_count sp) < u64_modulus)%Z) as [Hlt|Hge].
    - apply Z.mod_small. lia.
    - exfalso. rewrite <- (Z.mod_add _ (-1)) in E1 by (unfold u64_modulus; lia). rewrite Z.mod_small in E1 by lia. lia. }
  destruct (splice _ _ _ _) as [list' rem] eqn:Esp. injection Ha as <- <-. unfold splice in Esp. injection Esp as <- <-.
  rewrite Hstop in *. unfold validate in Hv. rewrite Hstop in Hv. destruct (_ <? _)%Z; [done|].
  destruct (first_duplicate _ _) eqn:Ed; [done|]. apply first_duplicate_None in Ed as [Ed _].
  rewrite (no_duplicates_target _ (sp_target sp)), (proj1 (inbox_list_set _ _ _)), (proj2 (inbox_list_set _ _ _)).
  replace (Z.to_nat (sp_start sp + default 0%Z (sp_removed_count sp) - sp_start sp)) with (Z.to_nat (default 0%Z (sp_removed_count sp))) by lia.
  exact Ed.
Qed.

Context (typed : forall v sp, from_value v = Some sp -> typed_splice sp).

Lemma replay_no_duplicates l events l' : no_duplicates l -> replay' l events = Ok l' -> no_duplicates l'.
Proof.
  intros Hl. unfold replay. apply (try_fold_invariant no_duplicates); [exact Hl|]. intros t e t' Ht. unfold replay_event, from_event.
  destruct (ev_data e); try by intros [= <-]. case_decide; [|by intros [= <-]].
  destruct (from_value data) as [sp|] eqn:E; [|by intros [= <-]].
  intros ([] & Hv & Hx)%result_bind_Ok. apply result_bind_Ok in Hx as ([l1 rm] & Ha & Hx). injection Hx as <-.
  eapply accepted_splice; [by eapply typed|done| |exact Ha]. by destruct (validate t sp).
Qed.

(** The source's clamping changes nothing. *)
Lemma spliced_clamped start count ins l :
  spliced (Z.to_nat (Z.min (Z.of_nat start) (Z.of_nat (length l))))
    (Z.to_nat (Z.min (Z.of_nat count) (Z.of_nat (length l - Z.to_nat (Z.min (Z.of_nat start) (Z.of_nat (length l))))))) ins l
  = spliced start count ins l.
Proof.
  replace (Z.to_nat (Z.min (Z.of_nat start) (Z.of_nat (length l)))) with (start `min` length l) by lia.
  replace (Z.to_nat _) with (count `min` (length l - start `min` length l)) by lia. unfold spliced.
  destruct (decide (start + count <= length l)).
  - by rewrite !Nat.min_l by lia.
  - rewrite (skipn_all2 l) by lia. rewrite (skipn_all2 (n := start + count)) by lia. f_equal.
    destruct (decide (start <= length l)); [by rewrite Nat.min_l|]. rewrite Nat.min_r by lia. by rewrite !firstn_all2 by lia.
Qed.

Lemma splice_effect target start count ins ib :
  inbox_inv ib -> has_room2 ib ->
  let l' := set_inbox_list target (spliced start count ins (inbox_list target (ib_lists ib))) (ib_lists ib) in
  if decide (no_duplicates l')
  then exists s' notes removed, inbox_splice to_value now ops target (Z.of_nat start) (Z.of_nat count) ins ib
         = (mk_inbox s' l' notes, Ok removed) /\ inbox_inv (mk_inbox s' l' notes)
  else exists id, inbox_splice to_value now ops target (Z.of_nat start) (Z.of_nat count) ins ib = (ib, Err (AlreadyPending id)).
Proof.
  intros Hinv [Hroom Hfits]. pose proof (has_room2_room ib (conj Hroom Hfits)) as Hr.
  pose proof (mutate_spec target (Z.of_nat start) (Z.of_nat count) ins true ib Hinv Hr Hfits ltac:(lia) ltac:(lia)) as H.
  cbv zeta in H |- *. rewrite spliced_clamped in H. destruct (decide _); [|exact H].
  destruct H as (s' & ? & ? & _). by eexists s', _, _.
Qed.

(** ** Every operation, said on the two lists *)

(** Operations of the agent's owner; [OtherAppend] is any append to the
    session that is not an inbox splice. *)
Inductive InboxOp :=
| DoClaim (target : InboxTarget) (turn : Z)
| DoSplice (target : InboxTarget) (start delete_count : nat) (inserted : list Message)
| DoAppend (target : InboxTarget) (m : Message)
| DoPrepend (target : InboxTarget) (m : Message)
| DoReplace (id : MessageId) (m : Message)
| DoRemove (id : MessageId)
| DoClear
| OtherAppend (time : Z) (data : SessionEventData) (intent : option SurfaceIntent).

(** What an operation answers, up to its value. *)
Definition erase {A} (r : Inbox * result A InboxError) : Inbox * result unit InboxError :=
  (fst r, match snd r with Ok _ => Ok tt | Err e => Err e end).
Definition inbox_run (ib : Inbox) (op : InboxOp) : Inbox * result unit InboxError :=
  match op with
  | DoClaim target turn => erase (claim to_value now ops target turn ib)
  | DoSplice target start count inserted =>
      erase (inbox_splice to_value now ops target (Z.of_nat start) (Z.of_nat count) inserted ib)
  | DoAppend target m => inbox_append to_value now ops target m ib
  | DoPrepend target m => inbox_prepend to_value now ops target m ib
  | DoReplace id m => erase (inbox_replace to_value now ops id m ib)
  | DoRemove id => erase (inbox_remove to_value now ops id ib)
  | DoClear => clear to_value now ops ib
  | OtherAppend time data intent =>
      (mk_inbox (fst (append (listeners ops) time data intent (ib_session ib))) (ib_lists ib) (ib_notified ib), Ok tt)
  end.
Definition not_a_splice (op : InboxOp) : Prop :=
  match op with
  | OtherAppend _ data _ => forall e, ev_data e = data -> from_event from_value e = None
  | _ => True
  end.

Definition both (f : list Message -> list Message) (l : InboxLists) : InboxLists := mk_lists (f (il_next_turn l)) (f (il_next_step l)).
(** The lists an operation means to leave. *)
Definition op_effect (op : InboxOp) (l : InboxLists) : InboxLists :=
  match op with
  | DoClaim NextTurn _ => mk_lists (tail (il_next_turn l)) []
  | DoClaim NextStep _ => mk_lists (il_next_turn l) []
  | DoSplice target start count inserted => set_inbox_list target (spliced start count inserted (inbox_list target l)) l
  | DoAppend target m => set_inbox_list target (inbox_list target l ++ [m]) l
  | DoPrepend target m => set_inbox_list target (m :: inbox_list target l) l
  | DoReplace id m => both (fmap (fun x => if decide (msg_id x = id) then m else x)) l
  | DoRemove id => both (base.filter (fun x => msg_id x <> id)) l
  | DoClear => mk_lists [] []
  | OtherAppend _ _ _ => l
  end.

Lemma spliced_append m l : spliced (length l) 0 [m] l = l ++ [m].
Proof. unfold spliced. rewrite firstn_all, Nat.add_0_r, drop_all, app_nil_r. done. Qed.
Lemma spliced_prepend m l : spliced 0 0 [m] l = m :: l.
Proof. done. Qed.

Lemma absent_kept id m l : id ∉ message_ids l ->
  ((fun x => if decide (msg_id x = id) then m else x) <$> l) = l /\ base.filter (fun x => msg_id x <> id) l = l.
Proof.
  induction l as [|x l IH]; [done|]. unfold message_ids in *. rewrite fmap_cons, not_elem_of_cons. intros [H1 H2].
  destruct (IH H2) as [IH1 IH2]. rewrite fmap_cons, filter_cons, IH1, IH2.
  rewrite decide_False by done. by rewrite decide_True by done.
Qed.
(** The one message with the id, at its place. *)
Lemma present_changed id m ins i l : l !! i = Some m -> msg_id m = id -> NoDup (message_ids l) ->
  spliced i 1 [ins] l = ((fun x => if decide (msg_id x = id) then ins else x) <$> l)
  /\ spliced i 1 [] l = base.filter (fun x => msg_id x <> id) l.
Proof.
  revert i. induction l as [|x l IH]; intros i Hi Hid Hnd; [done|]. unfold message_ids in Hnd. rewrite fmap_cons in Hnd.
  apply NoDup_cons in Hnd as [Hx Hnd]. rewrite fmap_cons, filter_cons. unfold spliced in *. destruct i as [|i].
  - injection Hi as ->. destruct (absent_kept id ins l) as [-> ->]; [by rewrite <- Hid|].
    rewrite decide_True by done. rewrite decide_False by (intros H; by apply H). cbn. by rewrite drop_0.
  - destruct (IH i Hi Hid Hnd) as [IH1 IH2]. assert (msg_id x <> id).
    { intros <-. apply Hx. rewrite <- Hid. apply list_elem_of_fmap_2. by eapply list_elem_of_lookup_2. }
    rewrite decide_False by done. rewrite decide_True by done. cbn [take app drop Nat.add]. by rewrite <- IH1, <- IH2.
Qed.

Lemma no_duplicates_apart l : no_duplicates l ->
  NoDup (message_ids (il_next_turn l)) /\ NoDup (message_ids (il_next_step l))
  /\ forall x, x ∈ message_ids (il_next_turn l) -> x ∉ message_ids (il_next_step l).
Proof. unfold no_duplicates. rewrite message_ids_app, NoDup_app. tauto. Qed.

(** Replacing and removing act at the located place. *)
Lemma located_effect id ins l : no_duplicates l ->
  match locate id l with
  | Some (target, i) =>
      set_inbox_list target (spliced i 1 [ins] (inbox_list target l)) l = op_effect (DoReplace id ins) l
      /\ set_inbox_list target (spliced i 1 [] (inbox_list target l)) l = op_effect (DoRemove id) l
  | None => op_effect (DoReplace id ins) l = l /\ op_effect (DoRemove id) l = l
  end.
Proof.
  intros (H1 & H2 & H3)%no_duplicates_apart. pose proof (locate_spec id l) as Hl. destruct l as [turn step]. cbn [op_effect both] in *.
  destruct (locate _ _) as [[[] i]|]; cbn [inbox_list set_inbox_list il_next_turn il_next_step] in *.
  - destruct Hl as (m & Hi & Hid). destruct (present_changed id m ins i turn Hi Hid H1) as [-> ->].
    unfold both. cbn. destruct (absent_kept id ins step) as [-> ->]; [|done]. apply H3. rewrite <- Hid.
    apply list_elem_of_fmap_2. by eapply list_elem_of_lookup_2.
  - destruct Hl as (m & Hi & Hid). destruct (present_changed id m ins i step Hi Hid H2) as [-> ->].
    unfold both. cbn. destruct (absent_kept id ins turn) as [-> ->]; [|done]. intros Hin. apply (H3 id Hin). rewrite <- Hid.
    apply list_elem_of_fmap_2. by eapply list_elem_of_lookup_2.
  - rewrite message_ids_app, elem_of_app in Hl. unfold both. cbn.
    destruct (absent_kept id ins turn) as [-> ->]; [tauto|]. destruct (absent_kept id ins step) as [-> ->]; [tauto|]. done.
Qed.

(** What every operation does: the lists it means to leave when their ids are
    distinct, and otherwise a refusal that changes nothing. *)
Definition op_answer (op : InboxOp) (ib : Inbox) : Prop :=
  if decide (no_duplicates (op_effect op (ib_lists ib)))
  then snd (inbox_run ib op) = Ok tt /\ ib_lists (fst (inbox_run ib op)) = op_effect op (ib_lists ib)
       /\ inbox_inv (fst (inbox_run ib op))
  else exists id, inbox_run ib op = (ib, Err (AlreadyPending id)).

Lemma splice_answer {A} target start count ins ib (a : A) op :
  inbox_inv ib -> has_room2 ib ->
  op_effect op (ib_lists ib) = set_inbox_list target (spliced start count ins (inbox_list target (ib_lists ib))) (ib_lists ib) ->
  inbox_run ib op = erase (then_ (inbox_splice to_value now ops target (Z.of_nat start) (Z.of_nat count) ins ib) (fun ib _ => (ib, Ok a))) ->
  op_answer op ib.
Proof.
  intros Hinv Hr He Hop. pose proof (splice_effect target start count ins ib Hinv Hr) as H. cbv zeta in H.
  unfold op_answer. rewrite He, Hop. destruct (decide _).
  - destruct H as (s' & notes & removed & -> & Hi). done.
  - destruct H as (id & ->). by exists id.
Qed.

Lemma op_answers ib op : inbox_inv ib -> has_room2 ib -> not_a_splice op -> op_answer op ib.
Proof.
  intros Hinv Hr Hns. pose proof (ii_unique _ Hinv) as Hu. destruct op.
  - destruct (claim_spec target turn ib Hinv Hr) as (ib' & Hc & Hl & _ & Hi).
    assert (He : op_effect (DoClaim target turn) (ib_lists ib) = ib_lists ib') by (rewrite Hl; destruct target; cbn; [by destruct (il_next_turn _)|by rewrite drop_0]).
    unfold op_answer. rewrite He, decide_True by apply Hi. cbn [inbox_run]. by rewrite Hc.
  - eapply (splice_answer target start delete_count inserted ib ()); [done|done|done|]. cbn [inbox_run]. by destruct (inbox_splice _ _ _ _ _ _ _ _) as [? []].
  - eapply (splice_answer target (length (inbox_list target (ib_lists ib))) 0 [m] ib ()); [done|done|by rewrite spliced_append|].
    cbn [inbox_run]. unfold inbox_append. by destruct (inbox_splice _ _ _ _ _ _ _ _) as [? []].
  - eapply (splice_answer target 0 0 [m] ib ()); [done|done|by rewrite spliced_prepend|].
    cbn [inbox_run]. unfold inbox_prepend. by destruct (inbox_splice _ _ _ _ _ _ _ _) as [? []].
  - pose proof (located_effect id m (ib_lists ib) Hu) as Hl. cbn [inbox_run]. destruct (locate id (ib_lists ib)) as [[target i]|] eqn:El; destruct Hl as [Hl _].
    + eapply (splice_answer target i 1 [m] ib true); [done|done|done|]. cbn [inbox_run]. unfold inbox_replace. rewrite El.
      by destruct (inbox_splice _ _ _ _ _ _ _ _) as [? []].
    + unfold op_answer. rewrite Hl, decide_True by done. cbn [inbox_run]. unfold inbox_replace. by rewrite El.
  - pose proof (located_effect id (create_user_message id [] MS_User) (ib_lists ib) Hu) as Hl. cbn [inbox_run]. destruct (locate id (ib_lists ib)) as [[target i]|] eqn:El; destruct Hl as [_ Hl].
    + eapply (splice_answer target i 1 [] ib true); [done|done|done|]. cbn [inbox_run]. unfold inbox_remove. rewrite El.
      by destruct (inbox_splice _ _ _ _ _ _ _ _) as [? []].
    + unfold op_answer. rewrite Hl, decide_True by done. cbn [inbox_run]. unfold inbox_remove. by rewrite El.
  - destruct (clear_spec ib Hinv Hr) as (ib' & Hc & Hl & _ & Hi).
    unfold op_answer. rewrite decide_True by constructor. cbn [inbox_run]. by rewrite Hc.
  - unfold op_answer. rewrite decide_True by done. cbn [inbox_run fst snd ib_lists op_effect]. split_and!; [done|done|].
    destruct Hinv as [I1 I2 I3 I4 I5].
    pose proof (append_spec (listeners ops) time data intent _ (listeners_ok ops) I1 (has_room2_room ib Hr) I2) as H.
    cbv zeta in H. destruct (append _ _ _ _ _) as [s' [e|e]]; cbn [fst].
    + destruct H as (_ & _ & Hlog & Hsi & Hidle & Hhdr). injection Hhdr as Hhdr _.
      assert (Hsb : seed_boundary s' = seed_boundary (ib_session ib)) by (unfold seed_boundary; by rewrite Hhdr).
      split; cbn [ib_session ib_lists]; try done; rewrite Hsb, Hlog.
      * rewrite length_app. lia.
      * rewrite drop_app_le by done. erewrite replay_snoc by exact I5. unfold replay_event. by rewrite Hns.
    + destruct e; try done. destruct H as [-> _]. by split.
Qed.

Definition run_inbox_op (ib : Inbox) (op : InboxOp) : Inbox := fst (inbox_run ib op).

Lemma run_inbox_op_inv ib op : inbox_inv ib -> has_room2 ib -> not_a_splice op -> inbox_inv (run_inbox_op ib op).
Proof.
  intros Hinv Hr Hns. pose proof (op_answers ib op Hinv Hr Hns) as H. unfold op_answer in H. unfold run_inbox_op.
  destruct (decide _); [by destruct H as (_ & _ & H)|]. by destruct H as (id & ->).
Qed.

(** Every inbox an agent can hold: opened over a session, then operated on. *)
Inductive inbox_reachable (is_absolute : string -> bool) : Inbox -> Prop :=
| inbox_open s ib :
    reachable is_absolute ops s -> seed_boundary s <= length (ss_log s) ->
    Inbox_new from_value s = Ok ib -> inbox_reachable is_absolute ib
| inbox_op ib op :
    inbox_reachable is_absolute ib -> has_room2 ib -> not_a_splice op ->
    inbox_reachable is_absolute (run_inbox_op ib op).

(** C28. The inbox survives a restart: whatever was done to it, no message id is
    ever pending twice, and reopening it over the session log alone - the log
    past the durable seed boundary - gives back exactly the live lists.  Every
    mutation, while the log has room, leaves exactly the lists it means to when
    their ids are distinct, and is otherwise refused as already pending,
    changing nothing. *)
Theorem inbox_durable is_absolute ib :
  inbox_reachable is_absolute ib ->
  inbox_inv ib /\ no_duplicates (ib_lists ib)
  /\ Inbox_new from_value (ib_session ib) = Ok (mk_inbox (ib_session ib) (ib_lists ib) [])
  /\ (forall op, has_room2 ib -> not_a_splice op -> op_answer op ib).
Proof.
  intros Hr. assert (Hinv : inbox_inv ib).
  { induction Hr as [s ib Hs Hsb Hn|ib op _ IH Hroom Hns]; [|by apply run_inbox_op_inv].
    destruct (reachable_inv is_absolute ops s Hs) as [Hsi Hidle].
    unfold Inbox_new in Hn. apply result_bind_Ok in Hn as (l & Hl & Hn). injection Hn as <-.
    split; try done. eapply replay_no_duplicates; [|exact Hl]. constructor. }
  split_and!; [done|apply Hinv| |by intros op Hroom Hns; apply op_answers].
  unfold Inbox_new. by rewrite (ii_replay _ Hinv).
Qed.
End spec.

(** * A codec and a witness *)

Definition splice_tuple : Type := InboxTarget * Z * option Z * list Message * option SpliceOutcome.
#[export] Instance InboxTarget_countable : Countable InboxTarget.
Proof.
  refine (inj_countable' (fun t => match t with NextTurn => true | NextStep => false end)
    (fun b : bool => if b then NextTurn else NextStep) _). by intros [].
Defined.
#[export] Instance SpliceOutcome_countable : Countable SpliceOutcome.
Proof. refine (inj_countable' (fun _ => tt) (fun _ => Canceled) _). by intros []. Defined.
#[export] Instance InboxSplice_eq_dec : EqDecision InboxSplice.
Proof. solve_decision. Defined.
#[export] Instance InboxSplice_countable : Countable InboxSplice.
Proof.
  refine (inj_countable' (fun s => (sp_target s, sp_start s, sp_removed_count s, sp_inserted s, sp_outcome s))
    (fun t : splice_tuple => mk_splice t.1.1.1.1 t.1.1.1.2 t.1.1.2 t.1.2 t.2) _). by intros [].
Defined.

Definition demo_to_value (sp : InboxSplice) : Value := Num (PosInt (Zpos (encode sp))).
Definition demo_from_value (v : Value) : option InboxSplice :=
  match v with
  | Num (PosInt (Zpos p)) => match decode p with Some sp => if decide (typed_splice sp) then Some sp else None | None => None end
  | _ => None
  end.
Lemma demo_codec sp : typed_splice sp -> demo_from_value (demo_to_value sp) = Some sp.
Proof. intros H. unfold demo_from_value, demo_to_value. rewrite decode_encode. by rewrite decide_True. Qed.
Lemma demo_typed v sp : demo_from_value v = Some sp -> typed_splice sp.
Proof.
  unfold demo_from_value. destruct v as [| |[[| |]| |]| | |]; try done. destruct (decode p); [|done].
  case_decide; [|done]. by intros [= <-].
Qed.

Definition demo_message (id : string) : Message := create_user_message id [CB_Text id] MS_User.
Definition demo_inbox : Inbox :=
  let run := run_inbox_op demo_to_value (fun _ => 4%Z) demo_ops in
  run (run (run (mk_inbox demo_session (mk_lists [] []) []) (DoAppend NextTurn (demo_message "a")))
    (DoAppend NextStep (demo_message "b"))) (DoAppend NextTurn (demo_message "c")).

Lemma demo_inbox_reachable :
  inbox_reachable demo_to_value demo_from_value (fun _ => 4%Z) demo_ops demo_absolute demo_inbox.
Proof.
  assert (H0 : reachable demo_absolute demo_ops demo_session).
  { eapply reachable_create; [|exact demo_create]. vm_compute. reflexivity. }
  unfold demo_inbox. do 3 (apply inbox_op; [|split; [by vm_compute|by intros []; vm_compute]|done]).
  apply (inbox_open _ _ _ _ _ demo_session); [exact H0|vm_compute; lia|by vm_compute].
Qed.

Lemma inbox_durable_witness :
  Inbox_new demo_from_value (ib_session demo_inbox) = Ok (mk_inbox (ib_session demo_inbox) (ib_lists demo_inbox) [])
  /\ (msg_id <$> il_next_turn (ib_lists demo_inbox)) = ["a"; "c"]%string.
Proof.
  destruct (inbox_durable demo_to_value demo_from_value (fun _ => 4%Z) demo_ops demo_codec demo_typed demo_absolute
    demo_inbox demo_inbox_reachable) as (_ & _ & H & _).
  split; [exact H|]. by vm_compute.
Defined.

Lemma inbox_operations_witness :
  exists ib', claim demo_to_value (fun _ => 4%Z) demo_ops NextTurn 1 demo_inbox = (ib', Ok [demo_message "b"; demo_message "a"])
    /\ (msg_id <$> il_next_turn (ib_lists ib')) = ["c"]%string.
Proof.
  assert (Hinv : inbox_inv demo_from_value demo_inbox).
  { apply (inbox_durable demo_to_value demo_from_value (fun _ => 4%Z) demo_ops demo_codec demo_typed demo_absolute
      demo_inbox demo_inbox_reachable). }
  assert (Hroom : has_room2 demo_inbox).
  { split; [vm_compute; reflexivity|intros []; vm_compute; reflexivity]. }
  destruct (inbox_operations demo_to_value demo_from_value (fun _ => 4%Z) demo_ops demo_codec demo_inbox Hinv Hroom)
    as (H & _). destruct (H NextTurn 1%Z) as (ib' & Hc & Hl & _). exists ib'. split; [exact Hc|].
  rewrite Hl. vm_compute. reflexivity.
Defined.

(** A malformed persisted splice whose end wraps around passes validation and
    then panics, instead of being the load failure [InvalidPersisted]. *)
Lemma wrapping_splice_panics :
  let sp := mk_splice NextTurn (u64_modulus - 1) (Some 1%Z) [] None in
  typed_splice sp /\ validate (mk_lists [] []) sp = Ok tt /\ apply (mk_lists [] []) sp = Err InboxPanicked.
Proof.
  intros sp. split; [by vm_compute|]. split; [|by vm_compute].
  unfold validate. cbn [sp sp_target inbox_list il_next_turn other il_next_step sp_inserted]. cbv zeta.
  rewrite take_nil, drop_nil. by vm_compute.
Qed.
