(* ===== verification/ToolCalls.v ===== *)
(** One step's tool-call scheduling: [crates/dsh/agent-loop/src/tool_calls.rs].

    The tool runtime and the abort signal live outside this file: an
    environment [E] with the reading of the signal and the execution of one
    call, which may itself write to the session.  [serde_json::from_str] is a
    parameter, as are the minted message ids and the clock. *)
From Stdlib Require Import ZArith Lia Ascii String.
From stdpp Require Import base tactics numbers list strings gmap.
From S2P Require Import Prelude Json Llm SessionEvents Surface HeaderFold Session Repair.
Open Scope keel_scope.

Record PlannedCall := mk_planned { pl_call_id : CallId; pl_name : string; pl_raw_arguments : string }.

(** The fields of [ToolExecutionResult] the scheduler reads. *)
Inductive ToolExecutionResult :=
| Success (content : list ContentBlock) (meta : option Value) (additional_contexts : list Message) (concludes_turn : bool)
| Failure (info : option (string * string)) (content : list ContentBlock) (meta : option Value) (additional_contexts : list Message).

Record ToolExecutionInput := mk_execution_input { xi_call_id : CallId; xi_name : string; xi_arguments : Value }.

Record ToolCallsOutcome := mk_outcome {
  oc_concluded : bool; oc_dispatched : Z; oc_denied : Z; oc_failed : Z; oc_aborted : Z
}.

Definition TOOL_ABORTED_BEFORE_DISPATCH : string := "ABORTED_BEFORE_DISPATCH".
Definition skipped_text : string := "The tool call was skipped because the step was cancelled before it started.".
Definition not_admitted_text : string :=
  "The host decision did not admit this tool for this step. Replan from the available tools.".

Section tool_calls.
Context (from_str : string -> option Value).
Context (now : Session -> Z) (mint : Session -> MessageId) (ops : Session -> SessionEvent -> list SessionOp).
(** The environment of the loop: the abort signal and the tool runtime. *)
Context {E : Type} (aborted : E -> bool)
  (execute : E -> Session -> ToolExecutionInput -> E * Session * ToolExecutionResult)
  (accept_context : E -> Session -> Message -> E * Session).

Definition parse_arguments (raw : string) : Value :=
  if decide (raw = EmptyString) then Obj [] else default (Str raw) (from_str raw).

(** [let _ = session.append(..)]: the outcome is dropped. *)
Definition append_ignored (data : SessionEventData) (intent : option SurfaceIntent) (s : Session) : Session :=
  fst (append (listeners ops) (now s) data intent s).

Definition tool_call_data (turn step : Z) (call : PlannedCall) : SessionEventData :=
  ToolCall turn step (pl_call_id call) (pl_name call) (pl_raw_arguments call).

Definition append_error_pair (turn step : Z) (call : PlannedCall) (text : string) (error : ToolErrorRef) (s : Session) : Session :=
  let s := append_ignored (tool_call_data turn step call) None s in
  let message := create_tool_result_message (mint s) (pl_call_id call) [CB_Text text] true in
  append_ignored (ToolResult turn step message (Some error) None) (Some intent_append) s.
Definition append_skipped (turn step : Z) (call : PlannedCall) (s : Session) : Session :=
  append_error_pair turn step call skipped_text (mk_tool_error_ref "ToolAbortedError" TOOL_ABORTED_BEFORE_DISPATCH) s.
Definition append_not_admitted (turn step : Z) (call : PlannedCall) (s : Session) : Session :=
  append_error_pair turn step call not_admitted_text
    (mk_tool_error_ref "ToolNotAdmittedError" "DECISION_TOOL_NOT_ADMITTED") s.

(** The locals of the loop. *)
Record LoopState := mk_loop {
  lp_env : E; lp_session : Session; lp_outcome : ToolCallsOutcome
}.
Definition accept_step (es : E * Session) (context : Message) : E * Session := accept_context es.1 es.2 context.

Definition not_admitted (admitted : option (list string)) (call : PlannedCall) : bool :=
  match admitted with Some names => negb (bool_decide (pl_name call ∈ names)) | None => false end.

(** One admitted call, from its durable marker to its committed result. *)
Definition dispatch (turn step : Z) (call : PlannedCall) (st : LoopState) : LoopState :=
  let s := append_ignored (tool_call_data turn step call) None (lp_session st) in
  let '(env, s, result) :=
    execute (lp_env st) s (mk_execution_input (pl_call_id call) (pl_name call) (parse_arguments (pl_raw_arguments call))) in
  let o := lp_outcome st in
  let '(content, is_error, error_ref, meta, contexts, concludes) :=
    match result with
    | Success content meta contexts concludes => (content, false, None, meta, contexts, concludes)
    | Failure info content meta contexts =>
        (content, true, (fun i => mk_tool_error_ref i.1 i.2) <$> info, meta, contexts, false)
    end in
  let message := create_tool_result_message (mint s) (pl_call_id call) content is_error in
  let s := append_ignored (ToolResult turn step message error_ref meta) (Some intent_append) s in
  let '(env, s) := foldl accept_step (env, s) contexts in
  mk_loop env s
    (mk_outcome (oc_concluded o || concludes) (u32_saturating_add (oc_dispatched o) 1) (oc_denied o)
       (if is_error then u32_saturating_add (oc_failed o) 1 else oc_failed o) (oc_aborted o)).

Definition deny (turn step : Z) (call : PlannedCall) (st : LoopState) : LoopState :=
  let o := lp_outcome st in
  mk_loop (lp_env st) (append_not_admitted turn step call (lp_session st))
    (mk_outcome (oc_concluded o) (oc_dispatched o) (u32_saturating_add (oc_denied o) 1) (oc_failed o) (oc_aborted o)).

Definition skip (turn step : Z) (st : LoopState) (call : PlannedCall) : LoopState :=
  let o := lp_outcome st in
  mk_loop (lp_env st) (append_skipped turn step call (lp_session st))
    (mk_outcome (oc_concluded o) (oc_dispatched o) (oc_denied o) (oc_failed o) (u32_saturating_add (oc_aborted o) 1)).

Fixpoint run_calls (turn step : Z) (admitted : option (list string)) (calls : list PlannedCall) (st : LoopState) : LoopState :=
  match calls with
  | [] => st
  | call :: rest =>
      if aborted (lp_env st) then foldl (skip turn step) st calls
      else
        let st := if not_admitted admitted call then deny turn step call st else dispatch turn step call st in
        run_calls turn step admitted rest st
  end.

Definition execute_tool_calls (turn step : Z) (calls : list PlannedCall) (admitted : option (list string))
    (env : E) (s : Session) : E * Session * ToolCallsOutcome :=
  let st := run_calls turn step admitted calls (mk_loop env s (mk_outcome false 0 0 0 0)) in
  (lp_env st, lp_session st, lp_outcome st).

(** What the calls do to the environment: only running tools and accepting
    their contexts change it. *)
Lemma run_calls_env (R : relation E) `{!PreOrder R} turn step admitted calls st :
  (forall env s x, R env (execute env s x).1.1) -> (forall env s m, R env (accept_context env s m).1) ->
  R (lp_env st) (lp_env (run_calls turn step admitted calls st)).
Proof.
  intros Hx Ha. revert st. induction calls as [|call calls IH]; intros st; cbn [run_calls]; [done|]. cbv zeta.
  destruct (aborted (lp_env st)).
  - generalize (call :: calls) as l. clear IH. intros l. revert st. induction l as [|x l IHl]; intros st; cbn [foldl]; [done|].
    by etransitivity; [|apply IHl].
  - etransitivity; [|apply IH]. destruct (not_admitted admitted call); [done|].
    unfold dispatch. cbv zeta. pose proof (Hx (lp_env st)) as Hx'.
    match goal with |- context [execute ?e ?s ?x] => pose proof (Hx e s x) as Hr; destruct (execute e s x) as [[env s2] result] end.
    cbn [fst] in Hr.
    destruct (match result with Success _ _ _ _ => _ | Failure _ _ _ _ => _ end) as [[[[[content is_error] eref] meta] contexts] concludes].
    set (s3 := append_ignored _ _ s2). clearbody s3.
    assert (Hf : R env (foldl accept_step (env, s3) contexts).1).
    { clear -Ha PreOrder0. revert env s3. induction contexts as [|m contexts IH]; intros env s3; cbn [foldl]; [done|].
      unfold accept_step at 2. cbn [fst snd]. pose proof (Ha env s3 m) as Hm. destruct (accept_context env s3 m) as [env' s'].
      etransitivity; [exact Hm|apply IH]. }
    destruct (foldl accept_step (env, s3) contexts) as [env4 s4]. cbn [lp_env fst] in *. by etransitivity.
Qed.

(** * What the log records *)

Inductive CallKind := KDispatched (failed : bool) | KDenied | KSkipped.

(** What the tools, the context callback and the tasks that run meanwhile may
    commit to the log. *)
Context (foreign : SessionEvent -> Prop).

(** The events committed for one call: its marker, whatever was written while
    the tool ran, one result message correlated with the call, and what
    accepting the result's contexts wrote. *)
Definition is_call_marker (turn step : Z) (call : PlannedCall) (e : SessionEvent) : Prop :=
  ev_data e = tool_call_data turn step call.
Definition is_call_result (turn step : Z) (call : PlannedCall) (is_error : bool) (code : option string) (e : SessionEvent) : Prop :=
  exists id content error meta,
    ev_data e = ToolResult turn step (create_tool_result_message id (pl_call_id call) content is_error) error meta
    /\ (forall c, code = Some c -> ter_code <$> error = Some c).
Definition call_record (turn step : Z) (admitted : option (list string)) (call : PlannedCall)
    (k : CallKind * list SessionEvent) : Prop :=
  match k.1 with
  | KDispatched failed => not_admitted admitted call = false
      /\ exists c nested r after, k.2 = c :: nested ++ r :: after /\ Forall foreign nested /\ Forall foreign after
         /\ is_call_marker turn step call c /\ is_call_result turn step call failed None r
  | KDenied => not_admitted admitted call = true
      /\ exists c r, k.2 = [c; r] /\ is_call_marker turn step call c
         /\ is_call_result turn step call true (Some "DECISION_TOOL_NOT_ADMITTED"%string) r
  | KSkipped => exists c r, k.2 = [c; r] /\ is_call_marker turn step call c
         /\ is_call_result turn step call true (Some TOOL_ABORTED_BEFORE_DISPATCH) r
  end.

Definition count_kind (p : CallKind -> bool) (ks : list (CallKind * list SessionEvent)) : Z :=
  Z.of_nat (length (base.filter (fun k => p k.1 = true) ks)).
Definition is_dispatched (k : CallKind) : bool := match k with KDispatched _ => true | _ => false end.
Definition is_failed (k : CallKind) : bool := match k with KDispatched f => f | _ => false end.
Definition is_denied (k : CallKind) : bool := match k with KDenied => true | _ => false end.
Definition is_skipped (k : CallKind) : bool := match k with KSkipped => true | _ => false end.

Lemma count_kind_cons p k ks : count_kind p (k :: ks) = ((if p k.1 then 1 else 0) + count_kind p ks)%Z.
Proof. unfold count_kind. rewrite filter_cons. destruct (p k.1); simpl; lia. Qed.

Lemma count_kind_bounds p ks : (0 <= count_kind p ks <= Z.of_nat (length ks))%Z.
Proof. unfold count_kind. pose proof (length_filter (fun k => p k.1 = true) ks). lia. Qed.

(** ** The session under the loop *)

Lemma listeners_log s e :
  ss_appending s = true -> ss_log (listeners ops s e) = ss_log s /\ ss_appending (listeners ops s e) = true.
Proof.
  intros Happ. unfold listeners. generalize (ops s e) as l. intros l. revert s Happ.
  induction l as [|op l IH]; intros s Happ; cbn [foldl]; [done|].
  assert (H : ss_log (run_op (fun s _ => s) s op) = ss_log s /\ ss_appending (run_op (fun s _ => s) s op) = true).
  { destruct op; cbn [run_op].
    - unfold append. by rewrite Happ.
    - unfold request_header. cbv zeta. by destruct (_ <? _).
    - unfold request_context. cbv zeta. by destruct (_ <? _).
    - unfold derive_messages. cbv zeta. destruct (bool_decide _); by destruct (try_fold _ _ _). }
  destruct H as [H1 H2]. destruct (IH _ H2) as [H3 H4]. by rewrite H3, H4.
Qed.

Lemma append_ignored_grows data intent s : ss_log s `prefix_of` ss_log (append_ignored data intent s).
Proof.
  unfold append_ignored, append. destruct (ss_appending s); [done|]. cbv zeta.
  destruct (validate_next _ _ _); [|done]. destruct (commit _ _) as [m|]; cbn [fst].
  - set (e := mk_event _ _ _ _ _ _). destruct (listeners_log (set_appending true (set_log (ss_log s ++ [e]) m s)) e) as [H _]; [done|].
    cbn [ss_log set_appending]. rewrite H. apply prefix_app_r. done.
  - by apply prefix_app_r.
Qed.

Definition good (s : Session) : Prop := session_inv s /\ ss_appending s = false.

Lemma append_ignored_ok data intent s :
  good s -> has_room s ->
  is_ok (fold_surface (ss_log s ++ [next_event (now s) data intent s])) = true ->
  exists e, ss_log (append_ignored data intent s) = ss_log s ++ [e] /\ ev_data e = data
    /\ good (append_ignored data intent s).
Proof.
  intros [Hinv Hidle] Hroom Hok. unfold append_ignored.
  pose proof (append_spec (listeners ops) (now s) data intent s (listeners_ok ops) Hinv Hroom Hidle) as H. cbv zeta in H.
  destruct (append _ _ _ _ _) as [s' [e|e]]; cbn [fst].
  - destruct H as (-> & _ & -> & ? & ? & _). eexists. split_and!; [done|done|done].
  - destruct e; try done. destruct H as [_ H]. congruence.
Qed.

Lemma good_fold s : good s -> is_ok (fold_surface (ss_log s)) = true.
Proof. intros [Hinv _]. destruct (inv_manager _ Hinv) as [_ (rs & Hf)]. by rewrite is_ok_fold_surface, Hf. Qed.

Lemma append_marker turn step call s :
  good s -> has_room s ->
  exists e, ss_log (append_ignored (tool_call_data turn step call) None s) = ss_log s ++ [e]
    /\ is_call_marker turn step call e /\ good (append_ignored (tool_call_data turn step call) None s).
Proof.
  intros Hg Hr. apply append_ignored_ok; [done|done|].
  apply accept_log_only; [by apply has_room_fits|by apply good_fold|done].
Qed.

Lemma append_result turn step message error meta s :
  good s -> has_room s ->
  exists e, ss_log (append_ignored (ToolResult turn step message error meta) (Some intent_append) s) = ss_log s ++ [e]
    /\ ev_data e = ToolResult turn step message error meta
    /\ good (append_ignored (ToolResult turn step message error meta) (Some intent_append) s).
Proof.
  intros Hg Hr. apply append_ignored_ok; [done|done|]. apply (accept_result (ss_log s)); [by apply has_room_fits|by apply good_fold|done].
Qed.

Lemma has_room_prefix s s' : ss_log s `prefix_of` ss_log s' -> has_room s' -> has_room s.
Proof. intros H%prefix_length. unfold has_room. lia. Qed.

(** Both synthetic pairs. *)
Lemma append_error_pair_ok turn step call text error s :
  good s -> has_room (append_error_pair turn step call text error s) ->
  exists c r, ss_log (append_error_pair turn step call text error s) = ss_log s ++ [c; r]
    /\ is_call_marker turn step call c /\ is_call_result turn step call true (Some (ter_code error)) r
    /\ good (append_error_pair turn step call text error s).
Proof.
  intros Hg Hroom. unfold append_error_pair in *. cbv zeta in *.
  set (s1 := append_ignored (tool_call_data turn step call) None s) in *.
  assert (H1 : has_room s1) by (eapply has_room_prefix; [apply append_ignored_grows|exact Hroom]).
  assert (H0 : has_room s) by (eapply has_room_prefix; [apply append_ignored_grows|exact H1]).
  destruct (append_marker turn step call s Hg H0) as (c & Hc & Hm & Hg1). fold s1 in Hc, Hg1.
  edestruct (append_result turn step) as (r & Hr & Hd & Hg2); [exact Hg1|exact H1|].
  exists c, r. rewrite Hr, Hc, <- app_assoc. split_and!; [done|done| |exact Hg2].
  exists (mint s1), [CB_Text text], (Some error), None. split; [done|]. by intros c' [= <-].
Qed.

(** A write by others: it only ever grows the log, with foreign events, and
    leaves the session whole and idle. *)
Definition foreign_write (s s' : Session) : Prop :=
  exists es, ss_log s' = ss_log s ++ es /\ (good s -> has_room s' -> good s' /\ Forall foreign es).

#[export] Instance foreign_write_preorder : PreOrder foreign_write.
Proof.
  split.
  - intros s. exists []. rewrite app_nil_r. split; [done|]. by split.
  - intros s1 s2 s3 (es1 & H1 & G1) (es2 & H2 & G2). exists (es1 ++ es2). rewrite H2, H1, app_assoc. split; [done|].
    intros Hg Hr. destruct G1 as [Hg2 F1]; [done| |].
    { eapply has_room_prefix; [|exact Hr]. rewrite H2. by apply prefix_app_r. }
    destruct G2 as [Hg3 F2]; [done..|]. split; [done|]. by apply Forall_app.
Qed.

Lemma foreign_write_prefix s s' : foreign_write s s' -> ss_log s `prefix_of` ss_log s'.
Proof. intros (es & -> & _). by apply prefix_app_r. Qed.

(** What the loop needs of the tool runtime and of the callback. *)
Context (execute_ok : forall env s x, let '(_, s', _) := execute env s x in foreign_write s s')
  (accept_ok : forall env s m, foreign_write s (accept_context env s m).2).

Lemma execute_grows env s x env' s' r : execute env s x = (env', s', r) -> foreign_write s s'.
Proof. intros E'. pose proof (execute_ok env s x) as H. by rewrite E' in H. Qed.

Lemma accepts_grow env s contexts : foreign_write s (foldl accept_step (env, s) contexts).2.
Proof.
  revert env s. induction contexts as [|m contexts IH]; intros env s; cbn [foldl]; [done|].
  unfold accept_step at 2. cbn [fst snd]. etransitivity; [apply (accept_ok env s m)|].
  destruct (accept_context env s m) as [env' s']. apply IH.
Qed.

(** The loop state's counters, given the records so far. *)
Definition counts (ks : list (CallKind * list SessionEvent)) (o o' : ToolCallsOutcome) : Prop :=
  oc_dispatched o' = u32_saturating_add (oc_dispatched o) (count_kind is_dispatched ks)
  /\ oc_failed o' = u32_saturating_add (oc_failed o) (count_kind is_failed ks)
  /\ oc_denied o' = u32_saturating_add (oc_denied o) (count_kind is_denied ks)
  /\ oc_aborted o' = u32_saturating_add (oc_aborted o) (count_kind is_skipped ks).
Definition counters_ok (o : ToolCallsOutcome) : Prop :=
  (0 <= oc_dispatched o <= u32_max)%Z /\ (0 <= oc_failed o <= u32_max)%Z
  /\ (0 <= oc_denied o <= u32_max)%Z /\ (0 <= oc_aborted o <= u32_max)%Z.

(** The invariant of a run over [calls] from [st] to [st']. *)
Definition run_ok (turn step : Z) (admitted : option (list string)) (calls : list PlannedCall)
    (st st' : LoopState) (ks : list (CallKind * list SessionEvent)) : Prop :=
  good (lp_session st') /\ counters_ok (lp_outcome st')
  /\ ss_log (lp_session st') = ss_log (lp_session st) ++ concat ks.*2
  /\ Forall2 (call_record turn step admitted) calls ks /\ counts ks (lp_outcome st) (lp_outcome st').

Lemma run_ok_nil turn step admitted st :
  good (lp_session st) -> counters_ok (lp_outcome st) -> run_ok turn step admitted [] st st [].
Proof.
  intros Hg (H1 & H2 & H3 & H4). split_and!; try done; simpl.
  - by rewrite app_nil_r.
  - unfold counts, count_kind, u32_saturating_add. simpl. split_and!; lia.
Qed.

Lemma run_ok_cons turn step admitted call calls st st1 st2 k ks :
  run_ok turn step admitted [call] st st1 [k] -> run_ok turn step admitted calls st1 st2 ks ->
  counters_ok (lp_outcome st) -> run_ok turn step admitted (call :: calls) st st2 (k :: ks).
Proof.
  intros (_ & _ & L1 & F1 & C1 & C2 & C3 & C4) (G & O & L2 & F2 & D1 & D2 & D3 & D4) (B1 & B2 & B3 & B4).
  split_and!; [done|done| | |].
  - rewrite L2, L1. simpl. by rewrite app_nil_r, <- app_assoc.
  - inversion F1; subst. by constructor.
  - pose proof (count_kind_bounds is_dispatched ks). pose proof (count_kind_bounds is_failed ks).
    pose proof (count_kind_bounds is_denied ks). pose proof (count_kind_bounds is_skipped ks).
    unfold counts. rewrite D1, D2, D3, D4, C1, C2, C3, C4, !count_kind_cons.
    assert (Hnil : forall p, count_kind p [] = 0%Z) by done. rewrite !Hnil.
    unfold u32_saturating_add.
    destruct (is_dispatched k.1), (is_failed k.1), (is_denied k.1), (is_skipped k.1); split_and!; lia.
Qed.

Lemma count_kind_one p k : count_kind p [k] = if p k.1 then 1%Z else 0%Z.
Proof. rewrite count_kind_cons. change (count_kind p []) with 0%Z. by destruct (p k.1). Qed.

Ltac one_counter :=
  unfold counts, counters_ok; rewrite ?count_kind_one; cbn; unfold u32_saturating_add, u32_max in *; split_and!; lia.

Lemma deny_ok turn step admitted call st :
  good (lp_session st) -> counters_ok (lp_outcome st) -> not_admitted admitted call = true ->
  has_room (lp_session (deny turn step call st)) ->
  exists k, run_ok turn step admitted [call] st (deny turn step call st) [k].
Proof.
  intros Hg Ho Hna Hroom.
  destruct (append_error_pair_ok turn step call not_admitted_text
    (mk_tool_error_ref "ToolNotAdmittedError" "DECISION_TOOL_NOT_ADMITTED") (lp_session st) Hg Hroom) as (c & r & Hl & Hc & Hr & Hg').
  exists (KDenied, [c; r]). split_and!; [exact Hg'| |exact Hl| |].
  - destruct Ho as (? & ? & ? & ?). one_counter.
  - constructor; [|constructor]. split; [done|]. by exists c, r.
  - destruct Ho as (? & ? & ? & ?). one_counter.
Qed.

Lemma skip_ok turn step admitted call st :
  good (lp_session st) -> counters_ok (lp_outcome st) -> has_room (lp_session (skip turn step st call)) ->
  exists k, run_ok turn step admitted [call] st (skip turn step st call) [k].
Proof.
  intros Hg Ho Hroom.
  destruct (append_error_pair_ok turn step call skipped_text
    (mk_tool_error_ref "ToolAbortedError" TOOL_ABORTED_BEFORE_DISPATCH) (lp_session st) Hg Hroom) as (c & r & Hl & Hc & Hr & Hg').
  exists (KSkipped, [c; r]). split_and!; [exact Hg'| |exact Hl| |].
  - destruct Ho as (? & ? & ? & ?). one_counter.
  - constructor; [|constructor]. by exists c, r.
  - destruct Ho as (? & ? & ? & ?). one_counter.
Qed.

Lemma dispatch_ok turn step admitted call st :
  good (lp_session st) -> counters_ok (lp_outcome st) -> not_admitted admitted call = false ->
  has_room (lp_session (dispatch turn step call st)) ->
  exists k, run_ok turn step admitted [call] st (dispatch turn step call st) [k].
Proof.
  intros Hg Ho Hna Hroom. unfold dispatch in *. cbv zeta in *.
  set (s1 := append_ignored (tool_call_data turn step call) None (lp_session st)) in *.
  destruct (execute (lp_env st) s1 _) as [[env s2] result] eqn:Ex.
  destruct (match result with Success _ _ _ _ => _ | Failure _ _ _ _ => _ end) as [[[[[content is_error] eref] meta] contexts] concludes] eqn:Er.
  set (s3 := append_ignored (ToolResult turn step (create_tool_result_message (mint s2) (pl_call_id call) content is_error) eref meta)
    (Some intent_append) s2) in *.
  pose proof (accepts_grow env s3 contexts) as Hacc. destruct (foldl accept_step (env, s3) contexts) as [env4 s4].
  cbn [snd lp_session] in *.
  assert (H3 : has_room s3) by (eapply has_room_prefix; [by apply foreign_write_prefix|exact Hroom]).
  assert (H2 : has_room s2) by (eapply has_room_prefix; [apply append_ignored_grows|exact H3]).
  pose proof (execute_grows _ _ _ _ _ _ Ex) as Hex.
  assert (H1 : has_room s1) by (eapply has_room_prefix; [by apply foreign_write_prefix|exact H2]).
  assert (H0 : has_room (lp_session st)) by (eapply has_room_prefix; [apply append_ignored_grows|exact H1]).
  destruct (append_marker turn step call _ Hg H0) as (c & Hc & Hm & Hg1). fold s1 in Hc, Hg1.
  destruct Hex as (nested & Hn & Hgood). destruct (Hgood Hg1 H2) as [Hg2 Fn].
  destruct (append_result turn step (create_tool_result_message (mint s2) (pl_call_id call) content is_error) eref meta
    s2 Hg2 H2) as (r & Hr & Hd & Hg3). fold s3 in Hr, Hg3.
  destruct Hacc as (after & Ha & Hgood'). destruct (Hgood' Hg3 Hroom) as [Hg4 Fa]. destruct Ho as (? & ? & ? & ?).
  exists (KDispatched is_error, c :: nested ++ r :: after). split_and!.
  - exact Hg4.
  - destruct is_error; one_counter.
  - cbn [lp_session]. rewrite Ha, Hr, Hn, Hc. cbn. by rewrite app_nil_r, <- !app_assoc.
  - constructor; [|constructor]. split; [done|]. exists c, nested, r, after. split_and!; [done|done|done|done|].
    exists (mint s2), content, eref, meta. by split.
  - destruct is_error; one_counter.
Qed.

Lemma skips_ok turn step admitted calls st :
  good (lp_session st) -> counters_ok (lp_outcome st) -> has_room (lp_session (foldl (skip turn step) st calls)) ->
  exists ks, run_ok turn step admitted calls st (foldl (skip turn step) st calls) ks.
Proof.
  revert st. induction calls as [|call calls IH]; intros st Hg Ho Hroom; [exists []; by apply run_ok_nil|].
  cbn [foldl] in *.
  assert (Hgrow : forall l st', ss_log (lp_session st') `prefix_of` ss_log (lp_session (foldl (skip turn step) st' l))).
  { induction l as [|x l IHl]; intros st'; cbn [foldl]; [done|]. etransitivity; [|apply IHl].
    cbn [skip lp_session]. unfold append_skipped, append_error_pair. cbv zeta.
    etransitivity; [|apply append_ignored_grows]. apply append_ignored_grows. }
  destruct (skip_ok turn step admitted call st Hg Ho) as (k & Hk).
  { eapply has_room_prefix; [apply Hgrow|exact Hroom]. }
  destruct (IH (skip turn step st call)) as (ks & Hks); [apply Hk|apply Hk|done|].
  exists (k :: ks). by eapply run_ok_cons.
Qed.

Lemma run_calls_grows turn step admitted calls st :
  ss_log (lp_session st) `prefix_of` ss_log (lp_session (run_calls turn step admitted calls st)).
Proof.
  assert (Hpair : forall call text error s, ss_log s `prefix_of` ss_log (append_error_pair turn step call text error s)).
  { intros. unfold append_error_pair. cbv zeta. etransitivity; [|apply append_ignored_grows]. apply append_ignored_grows. }
  revert st. induction calls as [|call calls IH]; intros st; cbn [run_calls]; [done|]. cbv zeta.
  destruct (aborted (lp_env st)).
  - generalize (call :: calls) as l. clear IH. intros l. revert st. induction l as [|x l IHl]; intros st; cbn [foldl]; [done|].
    etransitivity; [|apply IHl]. apply Hpair.
  - etransitivity; [|apply IH]. destruct (not_admitted admitted call); [apply Hpair|].
    unfold dispatch. cbv zeta. destruct (execute _ _ _) as [[env s2] result] eqn:Ex.
    pose proof (foreign_write_prefix _ _ (execute_grows _ _ _ _ _ _ Ex)) as Hpre.
    destruct (match result with Success _ _ _ _ => _ | Failure _ _ _ _ => _ end) as [[[[[content is_error] eref] meta] contexts] concludes].
    set (s3 := append_ignored _ _ s2). pose proof (foreign_write_prefix _ _ (accepts_grow env s3 contexts)) as Hacc.
    destruct (foldl accept_step (env, s3) contexts) as [env4 s4]. cbn [snd lp_session] in *.
    etransitivity; [|exact Hacc]. etransitivity; [|apply append_ignored_grows]. etransitivity; [|exact Hpre]. apply append_ignored_grows.
Qed.

Lemma run_calls_ok turn step admitted calls st :
  good (lp_session st) -> counters_ok (lp_outcome st) ->
  has_room (lp_session (run_calls turn step admitted calls st)) ->
  exists ks, run_ok turn step admitted calls st (run_calls turn step admitted calls st) ks.
Proof.
  revert st. induction calls as [|call calls IH]; intros st Hg Ho Hroom; [exists []; by apply run_ok_nil|].
  cbn [run_calls] in *. cbv zeta in *. destruct (aborted (lp_env st)); [by apply skips_ok|].
  set (st1 := if not_admitted admitted call then deny turn step call st else dispatch turn step call st) in *.
  assert (H1 : exists k, run_ok turn step admitted [call] st st1 [k]).
  { pose proof (run_calls_grows turn step admitted calls st1) as Hgrow.
    subst st1. destruct (not_admitted admitted call) eqn:Hna.
    - apply deny_ok; try done. by eapply has_room_prefix.
    - apply dispatch_ok; try done. by eapply has_room_prefix. }
  destruct H1 as (k & Hk). destruct (IH st1) as (ks & Hks); [apply Hk|apply Hk|done|].
  exists (k :: ks). by eapply run_ok_cons.
Qed.

(** C31. Every call the model made gets exactly one durable marker and exactly
    one result correlated with it, in model order, whatever the tools do and
    whenever the step is cancelled: the log grows by one record per call; a
    call the host did not admit is never dispatched and gets the not-admitted
    error; a call that was not started when the step was cancelled gets the
    aborted error; and the four counters of the outcome count exactly these
    records (up to their [u32] saturation). *)
Theorem tool_calls_recorded turn step calls admitted env s :
  good s ->
  let '(_, s', o) := execute_tool_calls turn step calls admitted env s in
  has_room s' ->
  exists ks, good s' /\ ss_log s' = ss_log s ++ concat ks.*2
    /\ Forall2 (call_record turn step admitted) calls ks
    /\ oc_dispatched o = Z.min u32_max (count_kind is_dispatched ks)
    /\ oc_failed o = Z.min u32_max (count_kind is_failed ks)
    /\ oc_denied o = Z.min u32_max (count_kind is_denied ks)
    /\ oc_aborted o = Z.min u32_max (count_kind is_skipped ks)
    /\ (count_kind is_dispatched ks + count_kind is_denied ks + count_kind is_skipped ks = Z.of_nat (length calls))%Z.
Proof.
  intros Hg. unfold execute_tool_calls. cbv zeta. intros Hroom.
  destruct (run_calls_ok turn step admitted calls (mk_loop env s (mk_outcome false 0 0 0 0)) Hg) as (ks & G & _ & L & F & C1 & C2 & C3 & C4);
    [unfold counters_ok, u32_max; cbn; lia|done|].
  exists ks. cbn [lp_session lp_outcome oc_dispatched oc_failed oc_denied oc_aborted] in *.
  unfold u32_saturating_add in *. split_and!; try done.
  rewrite (Forall2_length _ _ _ F). clear. induction ks as [|[k es] ks IH]; [done|].
  rewrite !count_kind_cons. cbn [length fst]. destruct k as [[]| |]; simpl in *; lia.
Qed.
End tool_calls.

(** * Witness *)

Definition demo_context : Message := create_user_message "ctx" [] MS_User.
Definition demo_calls : list PlannedCall :=
  [mk_planned "1" "read" ""; mk_planned "2" "write" "{"; mk_planned "3" "shell" "{}"; mk_planned "4" "read" "{}"].

(** A tool that logs an extension event, and a callback that logs the context. *)
Definition demo_foreign (e : SessionEvent) : Prop := match ev_data e with Extension _ _ => True | _ => False end.
Definition demo_write (s : Session) : Session := append_ignored (fun _ => 3%Z) demo_ops (Extension "demo" (Bool true)) None s.

Lemma demo_write_ok s : foreign_write demo_foreign s (demo_write s).
Proof.
  destruct (append_ignored_grows (fun _ => 3%Z) demo_ops (Extension "demo" (Bool true)) None s) as (es & He).
  exists es. split; [exact He|]. intros Hg Hr.
  assert (H0 : has_room s) by (eapply has_room_prefix; [apply append_ignored_grows|exact Hr]).
  destruct (append_ignored_ok (fun _ => 3%Z) demo_ops (Extension "demo" (Bool true)) None s Hg H0) as (e & Hl & Hd & Hg').
  { apply accept_log_only; [by apply has_room_fits|by apply good_fold|reflexivity]. }
  split; [exact Hg'|]. unfold demo_write in He. rewrite Hl in He. apply app_inv_head in He as <-.
  constructor; [|constructor]. unfold demo_foreign. by rewrite Hd.
Qed.

(** A tool that fails its second call, over a signal that fires afterwards. *)
Definition demo_execute (env : nat) (s : Session) (x : ToolExecutionInput) : nat * Session * ToolExecutionResult :=
  (S env, demo_write s,
   if env =? 0 then Success [CB_Text "ok"] None [demo_context] false else Failure (Some ("E", "BOOM")%string) [] None []).

Lemma tool_calls_recorded_witness :
  let '(_, s', o) :=
    execute_tool_calls (fun _ => None) (fun _ => 3%Z) (fun _ => "m"%string) demo_ops (fun env => 2 <=? env) demo_execute
      (fun env s _ => (env, demo_write s)) 1 1 demo_calls (Some ["read"; "shell"]%string) 0 demo_session in
  o = mk_outcome false 2 1 1 1
  /\ exists ks, ss_log s' = ss_log demo_session ++ concat ks.*2
     /\ Forall2 (call_record demo_foreign 1 1 (Some ["read"; "shell"]%string)) demo_calls ks.
Proof.
  assert (Hg : good demo_session).
  { apply (reachable_inv demo_absolute demo_ops). eapply reachable_create; [|exact demo_create]. vm_compute. reflexivity. }
  pose proof (tool_calls_recorded (fun _ => None) (fun _ => 3%Z) (fun _ => "m"%string) demo_ops (fun env => 2 <=? env) demo_execute
    (fun env s _ => (env, demo_write s)) demo_foreign
    (fun env s x => demo_write_ok s) (fun env s m => demo_write_ok s)
    1 1 demo_calls (Some ["read"; "shell"]%string) 0 demo_session Hg) as H.
  destruct (execute_tool_calls _ _ _ _ _ _ _ _ _ _ _ _ _) as [[env s'] o] eqn:E.
  assert (Ho : o = mk_outcome false 2 1 1 1 /\ has_room s') by (vm_compute in E; injection E as <- <- <-; by vm_compute).
  destruct Ho as [Ho Hroom]. destruct (H Hroom) as (ks & _ & L & F & _). split; [exact Ho|]. exists ks. split; [exact L|exact F].
Defined.
