(* ===== verification/Registry.v ===== *)
(** Rows, operations and clocks of the workspace registry:
    [crates/doc/src/registry.rs], up to the pending batches.

    Clocks are strings compared bytewise, as in the code; a [BTreeMap] is a
    [gmap] (no loop of this part depends on its order, [write_fields_spec]). *)
From Stdlib Require Import ZArith Lia Ascii String Sorting.Sorted.
From stdpp Require Import base tactics numbers countable list strings gmap.
From S2P Require Import Prelude Json Text.
Open Scope keel_scope.

Definition KIND_DEVICES : string := "devices".
Definition KIND_SPACES : string := "spaces".
Definition KIND_CHATS : string := "chats".
Definition KIND_SESSIONS : string := "sessions".

(** * Hybrid logical clocks *)

Definition encode_hlc (ms counter : Z) (device : string) : string :=
  pad 13 ms +:+ "-" +:+ pad 6 counter +:+ "-" +:+ device.

Definition hlc_newer (a : string) (b : option string) : bool :=
  match b with None => true | Some b => String.ltb b a end.

Record HlcClock := mk_clock { hc_last_ms : Z; hc_counter : Z }.
Definition HlcClock_default : HlcClock := mk_clock 0 0.

Definition clock_next (now_ms : Z) (device : string) (c : HlcClock) : string * HlcClock :=
  let c :=
    if (hc_last_ms c <? now_ms)%Z then mk_clock now_ms 0
    else
      let counter := u32_add (hc_counter c) 1 in
      if (999999 <? counter)%Z then mk_clock (i64_add (hc_last_ms c) 1) 0 else mk_clock (hc_last_ms c) counter in
  (encode_hlc (hc_last_ms c) (hc_counter c) device, c).

(** * Rows and operations *)

Record RegistryRow := mk_row {
  rr_kind : string; rr_id : string; rr_seq : Z; rr_deleted : bool; rr_del_hlc : option string;
  rr_fields : gmap string Value; rr_clocks : gmap string string
}.
#[export] Instance RegistryRow_eq_dec : EqDecision RegistryRow.
Proof. solve_decision. Defined.

Definition tombstone (kind id hlc : string) : RegistryRow := mk_row kind id 0 true (Some hlc) ∅ ∅.

Definition max_step (max : option string) (clock : string) : option string :=
  match max with
  | None => Some clock
  | Some m => if String.ltb m clock then Some clock else Some m
  end.
Definition max_clock (r : RegistryRow) : option string :=
  foldl max_step (rr_del_hlc r) (map_to_list (rr_clocks r)).*2.

Inductive OpKind := Upsert | Update | Delete.
#[export] Instance OpKind_eq_dec : EqDecision OpKind.
Proof. solve_decision. Defined.

Record RowOp := mk_op {
  ro_kind : string; ro_id : string; ro_op : OpKind; ro_set : option (gmap string Value);
  ro_hlc : string; ro_clocks : option (gmap string string)
}.
#[export] Instance RowOp_eq_dec : EqDecision RowOp.
Proof. solve_decision. Defined.

Definition clock_for (op : RowOp) (field : string) : string :=
  default (ro_hlc op) (c ← ro_clocks op; c !! field).

Definition is_null (v : Value) : bool := match v with Null => true | _ => false end.

(** One turn of the field loop over the row's fields and clocks. *)
Definition write_field (op : RowOp) (st : gmap string Value * gmap string string * bool) (kv : string * Value)
    : gmap string Value * gmap string string * bool :=
  let '(fields, clocks, changed) := st in
  let '(key, value) := kv in
  let clock := clock_for op key in
  if negb (hlc_newer clock (clocks !! key)) then st
  else (if is_null value then delete key fields else <[key := value]> fields, <[key := clock]> clocks, true).
Definition write_fields (op : RowOp) (set : gmap string Value) (st : gmap string Value * gmap string string * bool)
    : gmap string Value * gmap string string * bool :=
  foldl (write_field op) st (map_to_list set).

Definition with_content (r : RegistryRow) (deleted : bool) (del_hlc : option string)
    (fields : gmap string Value) (clocks : gmap string string) : RegistryRow :=
  mk_row (rr_kind r) (rr_id r) (rr_seq r) deleted del_hlc fields clocks.

Definition apply_delete (row : option RegistryRow) (op : RowOp) : option RegistryRow * bool :=
  match row with
  | None => (Some (tombstone (ro_kind op) (ro_id op) (ro_hlc op)), true)
  | Some row =>
      if (if rr_deleted row then hlc_newer (ro_hlc op) (rr_del_hlc row) else hlc_newer (ro_hlc op) (max_clock row))
      then (Some (with_content row true (Some (ro_hlc op)) ∅ ∅), true)
      else (Some row, false)
  end.

(** The row an [Upsert] or [Update] writes into: [inl] is the early return. *)
Definition write_base (row : option RegistryRow) (op : RowOp) : (option RegistryRow * bool) + RegistryRow :=
  match row with
  | None =>
      if bool_decide (ro_op op = Update) then inl (None, false)
      else inr (mk_row (ro_kind op) (ro_id op) 0 false None ∅ ∅)
  | Some row =>
      if rr_deleted row then
        if bool_decide (ro_op op = Update) || negb (hlc_newer (ro_hlc op) (rr_del_hlc row)) then inl (Some row, false)
        else inr (with_content row false (rr_del_hlc row) ∅ ∅)
      else inr row
  end.

Definition apply_write (row : option RegistryRow) (op : RowOp) : option RegistryRow * bool :=
  match write_base row op with
  | inl early => early
  | inr base =>
      let changed :=
        match row with None => true | Some r => rr_deleted r && negb (rr_deleted base) end in
      let '(fields, clocks, changed) :=
        match ro_set op with
        | Some set => write_fields op set (rr_fields base, rr_clocks base, changed)
        | None => (rr_fields base, rr_clocks base, changed)
        end in
      if changed then (Some (with_content base false (rr_del_hlc base) fields clocks), true)
      else (Some (with_content base (rr_deleted base) (rr_del_hlc base) fields clocks), false)
  end.

Definition apply_op (row : option RegistryRow) (op : RowOp) : option RegistryRow * bool :=
  if bool_decide (ro_op op = Delete) then apply_delete row op else apply_write row op.

Definition row_to_seed_op (row : RegistryRow) : RowOp :=
  if rr_deleted row then
    mk_op (rr_kind row) (rr_id row) Delete None (default (encode_hlc 0 0 "seed") (rr_del_hlc row)) None
  else
    mk_op (rr_kind row) (rr_id row) Upsert (Some (rr_fields row))
      (default (encode_hlc 0 0 "seed") (max_clock row)) (Some (rr_clocks row)).

(** * The order of clocks *)

Definition clock_fits (ms counter : Z) : Prop := (0 <= ms < 10 ^ 13)%Z /\ (0 <= counter < 10 ^ 6)%Z.

Lemma encode_hlc_compare m1 c1 d1 m2 c2 d2 :
  clock_fits m1 c1 -> clock_fits m2 c2 ->
  String.compare (encode_hlc m1 c1 d1) (encode_hlc m2 c2 d2) =
  match Z.compare m1 m2 with Eq => match Z.compare c1 c2 with Eq => String.compare d1 d2 | c => c end | c => c end.
Proof.
  intros [Hm1 Hc1] [Hm2 Hc2]. unfold encode_hlc.
  rewrite !pad_fixed by (done || lia).
  rewrite str_compare_app, fixed_compare by (rewrite ?fixed_length; done).
  destruct (Z.compare m1 m2); [|done|done].
  rewrite str_compare_app by done. cbn [String.compare]. rewrite ascii_compare_refl.
  rewrite str_compare_app, fixed_compare by (rewrite ?fixed_length; done).
  destruct (Z.compare c1 c2); [|done|done].
  rewrite str_compare_app by done. cbn [String.compare]. by rewrite ascii_compare_refl.
Qed.

(** The successive clocks of one device under a sequence of wall-clock readings. *)
Fixpoint ticks (device : string) (c : HlcClock) (nows : list Z) : list string :=
  match nows with
  | [] => []
  | now :: nows => let '(s, c) := clock_next now device c in s :: ticks device c nows
  end.

Definition clock_inv (c : HlcClock) : Prop := clock_fits (hc_last_ms c) (hc_counter c).

Lemma clock_next_spec now device c :
  clock_inv c -> (now < 10 ^ 13)%Z -> (hc_last_ms c + 1 < 10 ^ 13)%Z ->
  let '(s, c') := clock_next now device c in
  clock_inv c' /\ s = encode_hlc (hc_last_ms c') (hc_counter c') device
  /\ (hc_last_ms c' <= Z.max now (hc_last_ms c + 1))%Z
  /\ (hc_last_ms c < hc_last_ms c' \/ hc_last_ms c = hc_last_ms c' /\ hc_counter c < hc_counter c')%Z.
Proof.
  intros [[Hm0 Hm1] [Hc0 Hc1]] Hn Hr. unfold clock_next, clock_inv, clock_fits.
  destruct (hc_last_ms c <? now)%Z eqn:E; cbn [hc_last_ms hc_counter]; [split_and!; done || lia|].
  unfold u32_add. rewrite Z.mod_small by lia.
  destruct (999999 <? _)%Z eqn:E2; cbn [hc_last_ms hc_counter]; [|split_and!; done || lia].
  unfold i64_add. rewrite i64_wrap_small by (unfold i64_min, i64_max; lia). split_and!; done || lia.
Qed.

Lemma ticks_above device c nows bound :
  clock_inv c -> Forall (fun now => now <= bound)%Z nows -> (hc_last_ms c <= bound)%Z ->
  (bound + Z.of_nat (length nows) < 10 ^ 13)%Z ->
  Forall (str_lt (encode_hlc (hc_last_ms c) (hc_counter c) device)) (ticks device c nows)
  /\ Sorted.StronglySorted str_lt (ticks device c nows).
Proof.
  revert c bound. induction nows as [|now nows IH]; intros c bound Hc Hn Hb Hr; cbn [ticks]; [by repeat constructor|].
  apply Forall_cons in Hn as [Hnow Hn]. cbn [length] in Hr.
  pose proof (clock_next_spec now device c Hc ltac:(lia) ltac:(lia)) as H.
  destruct (clock_next now device c) as [s c']. destruct H as (Hc' & -> & Hle & Hlt).
  destruct (IH c' (bound + 1)%Z) as [Ha Hs]; [done| |lia|lia|].
  { eapply Forall_impl; [exact Hn|]. intros; simpl in *; lia. }
  assert (Hlt' : str_lt (encode_hlc (hc_last_ms c) (hc_counter c) device) (encode_hlc (hc_last_ms c') (hc_counter c') device)).
  { apply str_lt_compare. rewrite encode_hlc_compare by done.
    destruct Hlt as [Hlt|[Heq Hlt]]; [by rewrite (proj2 (Z.compare_lt_iff _ _) Hlt)|].
    rewrite Heq, Z.compare_refl. by rewrite (proj2 (Z.compare_lt_iff _ _) Hlt). }
  split; constructor; try done. eapply Forall_impl; [exact Ha|]. intros x Hx. by transitivity (encode_hlc (hc_last_ms c') (hc_counter c') device).
Qed.

(** The clock source never emits the same or an earlier clock twice: for
    any sequence of wall-clock readings, regressions included, the emitted
    strings increase strictly in the byte order the merge compares them by,
    and stay above the clock state they started from.  The bound says that the
    readings and the ticks fit in thirteen digits. *)
Theorem clock_strictly_monotone device c nows bound :
  clock_inv c -> Forall (fun now => now <= bound)%Z nows -> (hc_last_ms c <= bound)%Z ->
  (bound + Z.of_nat (length nows) < 10 ^ 13)%Z ->
  Sorted.StronglySorted str_lt (encode_hlc (hc_last_ms c) (hc_counter c) device :: ticks device c nows)
  /\ length (ticks device c nows) = length nows
  /\ (forall m1 c1 d1 m2 c2 d2, clock_fits m1 c1 -> clock_fits m2 c2 ->
        hlc_newer (encode_hlc m1 c1 d1) (Some (encode_hlc m2 c2 d2)) = true <->
        (m2 < m1 \/ m2 = m1 /\ (c2 < c1 \/ c2 = c1 /\ str_lt d2 d1))%Z).
Proof.
  intros Hc Hn Hb Hr. destruct (ticks_above device c nows bound Hc Hn Hb Hr) as [Ha Hs]. split_and!.
  - by constructor.
  - clear. revert c. induction nows as [|now nows IH]; intros c; cbn [ticks]; [done|].
    destruct (clock_next now device c). cbn [length]. by rewrite IH.
  - intros m1 c1 d1 m2 c2 d2 H1 H2. cbn [hlc_newer]. change (String.ltb ?a ?b = true) with (str_lt a b).
    rewrite str_lt_compare, encode_hlc_compare, (str_lt_compare d2) by done.
    destruct (Z.compare_spec m2 m1); [|split; [by left|done]|split; [done|intros [?|[? _]]; lia]].
    destruct (Z.compare_spec c2 c1); [|split; [by right; split; [|left]|done]|split; [done|intros [?|[? [?|[? _]]]]; lia]].
    split; [by right; split; [|right; split]|]. intros [?|[_ [?|[_ ?]]]]; [lia|lia|done].
Qed.

Lemma clock_strictly_monotone_witness :
  ticks "dev" (mk_clock 5000 999998) [4000; 6000; 10; 6000]%Z
    = ["0000000005000-999999-dev"; "0000000006000-000000-dev"; "0000000006000-000001-dev"; "0000000006000-000002-dev"]%string
  /\ Sorted.StronglySorted str_lt (ticks "dev" (mk_clock 5000 999998) [4000; 6000; 10; 6000]%Z).
Proof.
  split; [vm_compute; reflexivity|].
  destruct (clock_strictly_monotone "dev" (mk_clock 5000 999998) [4000; 6000; 10; 6000]%Z 6000) as [H _].
  - unfold clock_inv, clock_fits; cbn; lia.
  - repeat constructor; lia.
  - cbn; lia.
  - cbn; lia.
  - by inversion H.
Defined.

(** * The field loop *)

Definition accepts (op : RowOp) (clocks : gmap string string) (k : string) : bool := hlc_newer (clock_for op k) (clocks !! k).

Lemma hlc_newer_irrefl a : hlc_newer a (Some a) = false.
Proof. unfold hlc_newer. apply str_ltb_false. by left. Qed.

(** The loop, key by key: an accepted write sets the field (or clears it for
    [null]) and its clock; nothing else moves. *)
Lemma write_fields_list op l fields clocks changed :
  NoDup l.*1 ->
  let '(fields', clocks', changed') := foldl (write_field op) (fields, clocks, changed) l in
  (forall k, clocks' !! k = match (list_to_map l : gmap string Value) !! k with
     | Some _ => if accepts op clocks k then Some (clock_for op k) else clocks !! k | None => clocks !! k end)
  /\ (forall k, fields' !! k = match (list_to_map l : gmap string Value) !! k with
     | Some v => if accepts op clocks k then (if is_null v then None else Some v) else fields !! k | None => fields !! k end)
  /\ changed' = changed || existsb (fun kv => accepts op clocks kv.1) l.
Proof.
  revert fields clocks changed. induction l as [|[k v] l IH]; intros fields clocks changed Hnd; cbn [foldl].
  { split_and!; [done|done|]. by rewrite orb_false_r. }
  rewrite fmap_cons in Hnd. apply NoDup_cons in Hnd as [Hk Hnd]. cbn [fst] in Hk.
  assert (Hnone : (list_to_map l : gmap string Value) !! k = None) by by apply not_elem_of_list_to_map_1.
  cbn [write_field]. change (hlc_newer (clock_for op k) (clocks !! k)) with (accepts op clocks k).
  destruct (accepts op clocks k) eqn:Ha; cbn [negb].
  - set (clocks1 := <[k := clock_for op k]> clocks).
    assert (Hacc : forall j, j ∈ l.*1 -> accepts op clocks1 j = accepts op clocks j).
    { intros j Hj. unfold accepts, clocks1. rewrite lookup_insert_ne; [done|]. congruence. }
    specialize (IH (if is_null v then delete k fields else <[k := v]> fields) clocks1 true Hnd).
    destruct (foldl _ _ l) as [[f' c'] ch']. destruct IH as (Hc & Hf & Hch). split_and!.
    + intros j. rewrite Hc. rewrite list_to_map_cons. destruct (decide (j = k)) as [->|Hj].
      * rewrite Hnone, lookup_insert_eq, Ha. apply lookup_insert_eq.
      * rewrite lookup_insert_ne by done. assert (Hcc : clocks1 !! j = clocks !! j) by by apply lookup_insert_ne.
        rewrite Hcc. destruct (list_to_map l !! j) eqn:E; [|done].
        rewrite (Hacc j); [done|]. apply elem_of_list_to_map_2 in E. by apply (list_elem_of_fmap_2 fst) in E.
    + intros j. rewrite Hf. rewrite list_to_map_cons. destruct (decide (j = k)) as [->|Hj].
      * rewrite Hnone, lookup_insert_eq, Ha. destruct (is_null v); [apply lookup_delete_eq|apply lookup_insert_eq].
      * rewrite lookup_insert_ne by done. assert (Hff : (if is_null v then delete k fields else <[k:=v]> fields) !! j = fields !! j).
        { destruct (is_null v); [by rewrite lookup_delete_ne|by rewrite lookup_insert_ne]. }
        rewrite Hff. destruct (list_to_map l !! j) eqn:E; [|done].
        rewrite (Hacc j); [done|]. apply elem_of_list_to_map_2 in E. by apply (list_elem_of_fmap_2 fst) in E.
    + rewrite Hch. simpl. by rewrite Ha, !orb_true_r.
  - specialize (IH fields clocks changed Hnd). destruct (foldl _ _ l) as [[f' c'] ch']. destruct IH as (Hc & Hf & Hch).
    split_and!.
    + intros j. rewrite Hc. rewrite list_to_map_cons. destruct (decide (j = k)) as [->|Hj].
      * by rewrite Hnone, lookup_insert_eq, Ha.
      * by rewrite lookup_insert_ne.
    + intros j. rewrite Hf. rewrite list_to_map_cons. destruct (decide (j = k)) as [->|Hj].
      * by rewrite Hnone, lookup_insert_eq, Ha.
      * by rewrite lookup_insert_ne.
    + rewrite Hch. simpl. by rewrite Ha.
Qed.

Definition any_accepted (op : RowOp) (clocks : gmap string string) (set : gmap string Value) : bool :=
  existsb (fun kv => accepts op clocks kv.1) (map_to_list set).

Lemma any_accepted_spec op clocks set :
  any_accepted op clocks set = true <-> exists k v, set !! k = Some v /\ accepts op clocks k = true.
Proof.
  unfold any_accepted. rewrite existsb_exists. split.
  - intros ([k v] & Hin & Ha). apply list_elem_of_In, elem_of_map_to_list in Hin. eauto.
  - intros (k & v & Hin & Ha). exists (k, v). split; [|done]. by apply list_elem_of_In, elem_of_map_to_list.
Qed.

Lemma write_fields_spec op set fields clocks changed :
  exists fields' clocks', write_fields op set (fields, clocks, changed) = (fields', clocks', changed || any_accepted op clocks set)
  /\ (forall k, clocks' !! k = match set !! k with
       | Some _ => if accepts op clocks k then Some (clock_for op k) else clocks !! k | None => clocks !! k end)
  /\ (forall k, fields' !! k = match set !! k with
       | Some v => if accepts op clocks k then (if is_null v then None else Some v) else fields !! k | None => fields !! k end).
Proof.
  pose proof (write_fields_list op (map_to_list set) fields clocks changed (NoDup_fst_map_to_list set)) as H.
  unfold write_fields. destruct (foldl _ _ _) as [[f c] ch]. destruct H as (Hc & Hf & ->). rewrite list_to_map_to_list in *.
  by exists f, c.
Qed.

(** Nothing accepted, nothing moved. *)
Lemma write_fields_stale op set fields clocks changed :
  any_accepted op clocks set = false -> write_fields op set (fields, clocks, changed) = (fields, clocks, changed).
Proof.
  intros Ha. destruct (write_fields_spec op set fields clocks changed) as (f & c & -> & Hc & Hf).
  assert (Hno : forall k v, set !! k = Some v -> accepts op clocks k = false).
  { intros k v Hk. apply not_true_iff_false. intros E. apply not_true_iff_false in Ha. apply Ha, any_accepted_spec. eauto. }
  rewrite Ha, orb_false_r. repeat f_equal; apply map_eq; intros k.
  - rewrite Hf. destruct (set !! k) eqn:E; [by rewrite (Hno _ _ E)|done].
  - rewrite Hc. destruct (set !! k) eqn:E; [by rewrite (Hno _ _ E)|done].
Qed.

(** After a write, the same write finds nothing to do. *)
Lemma any_accepted_again op set clocks clocks' :
  (forall k, clocks' !! k = match set !! k with
     | Some _ => if accepts op clocks k then Some (clock_for op k) else clocks !! k | None => clocks !! k end) ->
  any_accepted op clocks' set = false.
Proof.
  intros Hc. apply not_true_iff_false. rewrite any_accepted_spec. intros (k & v & Hk & Ha).
  unfold accepts in Ha. rewrite Hc, Hk in Ha. destruct (accepts op clocks k) eqn:E; [by rewrite hlc_newer_irrefl in Ha|].
  unfold accepts in E. congruence.
Qed.

(** * The merge *)

Definition op_set (op : RowOp) : gmap string Value := default ∅ (ro_set op).

(** [f] and [c] are the fields and clocks after the accepted writes of [op]. *)
Definition written (op : RowOp) (fields : gmap string Value) (clocks : gmap string string)
    (f : gmap string Value) (c : gmap string string) : Prop :=
  (forall k, c !! k = match op_set op !! k with
     | Some _ => if accepts op clocks k then Some (clock_for op k) else clocks !! k | None => clocks !! k end)
  /\ (forall k, f !! k = match op_set op !! k with
     | Some v => if accepts op clocks k then (if is_null v then None else Some v) else fields !! k | None => fields !! k end).

Lemma apply_write_spec row op base :
  write_base row op = inr base ->
  let changed := match row with None => true | Some r => rr_deleted r && negb (rr_deleted base) end in
  exists f c, written op (rr_fields base) (rr_clocks base) f c
    /\ apply_write row op =
       (Some (with_content base (if changed || any_accepted op (rr_clocks base) (op_set op) then false else rr_deleted base)
                (rr_del_hlc base) f c), changed || any_accepted op (rr_clocks base) (op_set op)).
Proof.
  intros Hb changed. unfold apply_write, written, op_set. rewrite Hb. fold changed.
  destruct (ro_set op) as [set|]; cbn [default].
  - destruct (write_fields_spec op set (rr_fields base) (rr_clocks base) changed) as (f & c & -> & Hc & Hf).
    exists f, c. split; [done|]. by destruct (changed || _).
  - exists (rr_fields base), (rr_clocks base). split; [split; intros k; by rewrite lookup_empty|].
    change (any_accepted op (rr_clocks base) (id ∅)) with false. rewrite orb_false_r. by destruct changed.
Qed.

Lemma with_content_eta r : with_content r (rr_deleted r) (rr_del_hlc r) (rr_fields r) (rr_clocks r) = r.
Proof. by destruct r. Qed.

Lemma written_stale op fields clocks f c :
  written op fields clocks f c -> any_accepted op clocks (op_set op) = false -> f = fields /\ c = clocks.
Proof.
  intros [Hc Hf] Ha.
  assert (Hno : forall k v, op_set op !! k = Some v -> accepts op clocks k = false).
  { intros k v Hk. apply not_true_iff_false. intros E. apply not_true_iff_false in Ha. apply Ha, any_accepted_spec. eauto. }
  split; apply map_eq; intros k; rewrite ?Hf, ?Hc; destruct (op_set op !! k) eqn:E; rewrite ?(Hno _ _ E); done.
Qed.

Lemma written_again op fields clocks f c : written op fields clocks f c -> any_accepted op c (op_set op) = false.
Proof. intros [Hc _]. by eapply any_accepted_again. Qed.

(** A write to a live row. *)
Lemma apply_live r op :
  rr_deleted r = false -> ro_op op <> Delete ->
  exists f c, written op (rr_fields r) (rr_clocks r) f c
    /\ apply_op (Some r) op = (Some (with_content r false (rr_del_hlc r) f c), any_accepted op (rr_clocks r) (op_set op)).
Proof.
  intros Hr Hop. unfold apply_op. rewrite bool_decide_false by done.
  destruct (apply_write_spec (Some r) op r) as (f & c & Hw & ->); [unfold write_base; by rewrite Hr|].
  exists f, c. split; [done|]. rewrite Hr. simpl. by destruct (any_accepted _ _ _).
Qed.

Lemma apply_live_again r op : rr_deleted r = false -> ro_op op <> Delete -> any_accepted op (rr_clocks r) (op_set op) = false ->
  apply_op (Some r) op = (Some r, false).
Proof.
  intros Hr Hop Ha. destruct (apply_live r op Hr Hop) as (f & c & Hw & ->). rewrite Ha.
  destruct (written_stale _ _ _ _ _ Hw Ha) as [-> ->]. repeat f_equal. rewrite <- Hr. apply with_content_eta.
Qed.

(** Every clock of a row. *)
Definition row_clock (r : RegistryRow) (c : string) : Prop := rr_del_hlc r = Some c \/ exists k, rr_clocks r !! k = Some c.

Lemma hlc_newer_max a m c : hlc_newer a (max_step m c) = true <-> hlc_newer a m = true /\ str_lt c a.
Proof.
  destruct m as [b|]; simpl; [|split; [by split|by intros [_ ?]]].
  destruct (String.ltb b c) eqn:E; simpl; change (String.ltb ?x ?y = true) with (str_lt x y) in *.
  - split; [intros H; split; [by transitivity c|done]|by intros [_ ?]].
  - apply str_ltb_false in E. split; [|by intros [? _]].
    intros H. split; [done|]. destruct E as [->|E]; [done|by transitivity b].
Qed.

Lemma max_clock_newer a r : hlc_newer a (max_clock r) = true <-> forall c, row_clock r c -> str_lt c a.
Proof.
  unfold max_clock, row_clock.
  assert (Hl : forall (l : list string) m, hlc_newer a (foldl max_step m l) = true <-> hlc_newer a m = true /\ forall c, c ∈ l -> str_lt c a).
  { induction l as [|c l IH]; intros m; cbn [foldl].
    - split; [intros H; split; [done|]|by intros [? _]]. by intros c ?%elem_of_nil.
    - rewrite IH, hlc_newer_max. split.
      + intros [[H1 H2] H3]. split; [done|]. intros d [->|Hd]%elem_of_cons; auto.
      + intros [H1 H2]. split_and!; [done|apply H2; by left|]. intros d Hd. apply H2. by right. }
  rewrite Hl. assert (Hm : forall m : option string, hlc_newer a m = true <-> forall c, m = Some c -> str_lt c a).
  { intros [b|]; simpl; [|done]. split; [by intros H c [= <-]|intros H; by apply H]. }
  rewrite Hm. split.
  - intros [H1 H2] c [Hc|(k & Hk)]; [by apply H1|]. apply H2, list_elem_of_fmap. exists (k, c). split; [done|]. by apply elem_of_map_to_list.
  - intros H. split; [intros c Hc; apply H; by left|]. intros c ([k d] & -> & Hd)%list_elem_of_fmap.
    apply H. right. exists k. by apply elem_of_map_to_list.
Qed.

Lemma apply_op_idempotent row op : apply_op (fst (apply_op row op)) op = (fst (apply_op row op), false).
Proof.
  destruct (decide (ro_op op = Delete)) as [Hd|Hd]; unfold apply_op at 2 3.
  - rewrite bool_decide_true by done. unfold apply_delete at 1 2.
    assert (Hgone : forall r, rr_deleted r = true -> rr_del_hlc r = Some (ro_hlc op) -> apply_op (Some r) op = (Some r, false)).
    { intros r H1 H2. unfold apply_op. rewrite bool_decide_true by done. simpl. by rewrite H1, H2, hlc_newer_irrefl. }
    destruct row as [r|]; [|by apply Hgone].
    destruct (if rr_deleted r then _ else _) eqn:E; simpl; [by apply Hgone|].
    unfold apply_op. rewrite bool_decide_true by done. simpl. by rewrite E.
  - rewrite bool_decide_false by done. destruct (write_base row op) as [[early ch]|base] eqn:Hb.
    + unfold apply_write at 1 2. rewrite Hb. simpl.
      assert (early = row /\ ch = false) as [-> ->].
      { unfold write_base in Hb. destruct row as [r|]; repeat case_match; by simplify_eq. }
      unfold apply_op. rewrite bool_decide_false by done. unfold apply_write. by rewrite Hb.
    + destruct (apply_write_spec row op base Hb) as (f & c & Hw & ->). cbn [fst].
      assert (Hlive : rr_deleted base = false).
      { unfold write_base in Hb. destruct row as [r|]; repeat case_match; by simplify_eq. }
      rewrite Hlive. assert (Hif : forall b : bool, (if b then false else false) = false) by by intros []. rewrite Hif.
      apply apply_live_again; [done|done|]. by eapply written_again.
Qed.

(** One merge, on every branch, for any row and operation: the flag says
    exactly whether the row changed; applying the same operation again does
    nothing (what makes a re-push after a reconnect safe); an [Update] never
    creates or revives a row; a delete wins over a live row exactly when its
    clock is newer than every clock on the row, and leaves a bare tombstone;
    an upsert revives a tombstone exactly when newer, with its own fields as
    the row; and on a live row a write is last-writer-wins per field. *)
Theorem apply_op_lww row op :
  let '(row', changed) := apply_op row op in
  (changed = true <-> row' <> row)
  /\ apply_op row' op = (row', false)
  /\ (ro_op op = Update -> (forall r, row = Some r -> rr_deleted r = true) -> row' = row)
  /\ (forall r, row = Some r -> rr_deleted r = false -> ro_op op = Delete ->
        row' = if decide (changed = true) then Some (with_content r true (Some (ro_hlc op)) ∅ ∅) else Some r)
  /\ (forall r, row = Some r -> rr_deleted r = false -> ro_op op = Delete ->
        (changed = true <-> forall c, row_clock r c -> str_lt c (ro_hlc op)))
  /\ (forall r, row = Some r -> rr_deleted r = true -> ro_op op = Upsert ->
        if hlc_newer (ro_hlc op) (rr_del_hlc r)
        then exists f c, row' = Some (with_content r false (rr_del_hlc r) f c) /\ written op ∅ ∅ f c
        else row' = row)
  /\ (forall r, row = Some r -> rr_deleted r = false -> ro_op op <> Delete ->
        exists f c, row' = Some (with_content r false (rr_del_hlc r) f c) /\ written op (rr_fields r) (rr_clocks r) f c).
Proof.
  pose proof (apply_op_idempotent row op) as Hi. destruct (apply_op row op) as [row' changed] eqn:E. cbn [fst] in Hi.
  split_and!.
  - split.
    + intros -> <-. congruence.
    + intros Hne. destruct changed; [done|]. destruct Hne. revert E. unfold apply_op. case_bool_decide as Hd.
      * unfold apply_delete. destruct row as [r|]; [|done]. destruct (if rr_deleted r then _ else _); by intros [= <-].
      * destruct (write_base row op) as [[early ch]|base] eqn:Hb.
        { unfold apply_write. rewrite Hb. intros [= -> ->]. unfold write_base in Hb.
          destruct row as [r|]; repeat case_match; by simplify_eq. }
        destruct (apply_write_spec row op base Hb) as (f & c & Hw & ->). intros [= <- Hch].
        destruct row as [r|]; [|done]. apply orb_false_iff in Hch as [Hrev Ha].
        destruct (written_stale _ _ _ _ _ Hw Ha) as [-> ->]. rewrite Hrev, Ha. cbn [orb].
        assert (base = r) as -> by (unfold write_base in Hb; repeat case_match; simplify_eq; try done; by rewrite H in Hrev).
        by rewrite with_content_eta.
  - exact Hi.
  - intros Hu Hdel. revert E. unfold apply_op. rewrite Hu. simpl. unfold apply_write, write_base. rewrite Hu. simpl.
    destruct row as [r|]; [rewrite (Hdel r eq_refl); simpl|]; by intros [= <- <-].
  - intros r -> Hl Hd. revert E. unfold apply_op. rewrite Hd. simpl. rewrite Hl.
    destruct (hlc_newer _ _); by intros [= <- <-].
  - intros r -> Hl Hd. revert E. unfold apply_op. rewrite Hd. simpl. rewrite Hl, <- max_clock_newer.
    destruct (hlc_newer _ _); by intros [= <- <-].
  - intros r -> Hl Hu. destruct (hlc_newer (ro_hlc op) (rr_del_hlc r)) eqn:Hn; revert E; unfold apply_op; rewrite Hu; cbn [bool_decide decide].
    + assert (Hb : write_base (Some r) op = inr (with_content r false (rr_del_hlc r) ∅ ∅)) by (unfold write_base; by rewrite Hl, Hu, Hn).
      destruct (apply_write_spec (Some r) op _ Hb) as (f & c & Hw & Heq). simpl in *. rewrite Heq, Hl. simpl.
      intros [= <- <-]. by exists f, c.
    + simpl. unfold apply_write, write_base. rewrite Hl, Hu, Hn. simpl. by intros [= <- <-].
  - intros r -> Hl Hop. destruct (apply_live r op Hl Hop) as (f & c & Hw & Heq). rewrite Heq in E. injection E as <- <-. by exists f, c.
Qed.

Lemma hlc_newer_total x y : x <> y -> hlc_newer x (Some y) = negb (hlc_newer y (Some x)).
Proof.
  intros Hne. simpl. destruct (String.ltb x y) eqn:E; simpl.
  - apply str_ltb_false. right. exact E.
  - apply str_ltb_false in E as [E|E]; [done|exact E].
Qed.

(** What is stale against a clock is stale against every newer one. *)
Lemma hlc_newer_stale y b x : hlc_newer y b = false -> hlc_newer x b = true -> hlc_newer y (Some x) = false.
Proof.
  destruct b as [d|]; [|done]. simpl. rewrite !str_ltb_false. change (String.ltb ?a ?c = true) with (str_lt a c).
  intros [->|H] Hx; [by right|]. right. by transitivity d.
Qed.

(** Concurrent writes converge: two writes to a live row give the same row
    in either order, provided no field is written by both under one clock
    (which distinct devices, and the monotone clock of one device, exclude). *)
Theorem live_writes_commute r op1 op2 :
  rr_deleted r = false -> ro_op op1 <> Delete -> ro_op op2 <> Delete ->
  (forall k, is_Some (op_set op1 !! k) -> is_Some (op_set op2 !! k) -> clock_for op1 k <> clock_for op2 k) ->
  fst (apply_op (fst (apply_op (Some r) op1)) op2) = fst (apply_op (fst (apply_op (Some r) op2)) op1).
Proof.
  intros Hl H1 H2 Hne.
  destruct (apply_live r op1 Hl H1) as (f1 & c1 & [Hc1 Hf1] & ->).
  destruct (apply_live r op2 Hl H2) as (f2 & c2 & [Hc2 Hf2] & ->). cbn [fst].
  destruct (apply_live (with_content r false (rr_del_hlc r) f1 c1) op2 eq_refl H2) as (f12 & c12 & [Hc12 Hf12] & ->).
  destruct (apply_live (with_content r false (rr_del_hlc r) f2 c2) op1 eq_refl H1) as (f21 & c21 & [Hc21 Hf21] & ->).
  cbn [fst rr_clocks rr_fields rr_del_hlc with_content] in *.
  assert (Hk : forall k, c12 !! k = c21 !! k /\ f12 !! k = f21 !! k).
  { intros k. specialize (Hne k). rewrite Hc12, Hc21, Hf12, Hf21. unfold accepts. rewrite !Hc1, !Hc2, !Hf1, !Hf2. unfold accepts.
    destruct (op_set op1 !! k) as [v1|], (op_set op2 !! k) as [v2|]; [|by repeat case_match..].
    specialize (Hne ltac:(done) ltac:(done)). set (x := clock_for op1 k) in *. set (y := clock_for op2 k) in *.
    pose proof (hlc_newer_total x y Hne) as Hxy.
    destruct (hlc_newer x (rr_clocks r !! k)) eqn:Ex, (hlc_newer y (rr_clocks r !! k)) eqn:Ey; cbn iota.
    - rewrite Hxy. by destruct (hlc_newer y (Some x)).
    - by rewrite (hlc_newer_stale _ _ _ Ey Ex), Ex.
    - by rewrite (hlc_newer_stale _ _ _ Ex Ey).
    - by rewrite Ex. }
  assert (c12 = c21) as -> by (apply map_eq; intros k; apply Hk).
  by assert (f12 = f21) as -> by (apply map_eq; intros k; apply Hk).
Qed.

Definition demo_row : RegistryRow :=
  mk_row "chats" "c1" 7 false None {["title" := Str "a"]}%string {["title" := encode_hlc 10 0 "a"]}%string.
Definition demo_write (title : string) (ms : Z) (device : string) : RowOp :=
  mk_op "chats" "c1" Update (Some {["title"%string := Str title]}) (encode_hlc ms 0 device) None.

Lemma live_writes_commute_witness :
  fst (apply_op (fst (apply_op (Some demo_row) (demo_write "b" 20 "x"))) (demo_write "c" 20 "y"))
  = fst (apply_op (fst (apply_op (Some demo_row) (demo_write "c" 20 "y"))) (demo_write "b" 20 "x"))
  /\ (rr_fields <$> fst (apply_op (fst (apply_op (Some demo_row) (demo_write "b" 20 "x"))) (demo_write "c" 20 "y")))
     = Some {["title"%string := Str "c"]}.
Proof.
  split; [|vm_compute; reflexivity]. apply live_writes_commute; [reflexivity|discriminate|discriminate|].
  intros k _ _. vm_compute. discriminate.
Defined.
