(* ===== verification/RegistryDoc.v ===== *)
(** The local registry replica: [RegistryDoc] of [crates/doc/src/registry.rs],
    the rows it stores ([Device], [Space], [Chat], [Session] of
    [crates/proto/src/entities.rs]) and their typed writers.

    The wall clock is a function of the replica, [serde_json] at the persisted
    type, at [ChatConfig] and at the row types are parameters.  A timestamp is
    its number of milliseconds.  A [HashMap] is a [gmap]; where the code
    iterates over one, the model fixes an order. *)
From Stdlib Require Import ZArith Lia Ascii String Sorting.Sorted.
From stdpp Require Import base tactics numbers countable list strings gmap sorting.
From S2P Require Import Prelude Json Text Proto Registry.
Open Scope keel_scope.

(** * The rows of the sidebar *)

Record Device := mk_device {
  dv_id : string; dv_name : string; dv_platform : string; dv_last_seen_at : option Z; dv_created_at : option Z;
  dv_version : option string
}.
Record Space := mk_space {
  sp_id : string; sp_device_id : string; sp_path : string; sp_name : option string; sp_git_detected : bool;
  sp_git_checked_at : option Z; sp_checkout_id : option string; sp_created_at : Z
}.
Record ChatConfig := mk_config {
  cf_harness : HarnessId; cf_model : option string; cf_reasoning : option ReasoningLevel;
  cf_model_options : list (string * Value); cf_sandbox : SandboxLevel
}.
Record Chat := mk_chat {
  ch_id : string; ch_device_id : string; ch_title : option string; ch_archived : bool; ch_cwd : option string;
  ch_branch : option string; ch_checkout_id : option string; ch_config : option ChatConfig;
  ch_last_message_preview : option string; ch_last_message_at : option Z; ch_created_at : Z;
  ch_harness_session_id : option string; ch_harness_session_cwd : option string; ch_space_id : option string;
  ch_last_seen_at : option Z; ch_room_gen : option Z
}.
Inductive SessionStatus := Idle | Working | AwaitingInput | Errored.
Record SessionRow := mk_session_row {
  sr_chat_id : string; sr_device_id : string; sr_status : SessionStatus; sr_started_at : option Z;
  sr_updated_at : Z; sr_decision_activity : option DecisionActivity
}.

(** * Field helpers *)

Definition opt_str (value : option string) : Value := match value with Some v => Str v | None => Null end.
Definition opt_ms (value : option Z) : Value := match value with Some at_ => json_i64 at_ | None => Null end.
Definition fields (entries : list (string * Value)) : gmap string Value :=
  foldl (fun m kv => <[kv.1 := kv.2]> m) ∅ entries.
Definition status_value (s : SessionStatus) : Value :=
  Str match s with Idle => "idle" | Working => "working" | AwaitingInput => "awaitingInput" | Errored => "errored" end.
Definition newest (candidates : list (option Z)) : Z :=
  match omap id candidates with [] => 1%Z | x :: l => foldl Z.max x l end.

(** * The replica *)

Record PendingBatch := mk_batch { pb_batch : string; pb_ops : list RowOp; pb_in_flight : bool }.
#[export] Instance PendingBatch_eq_dec : EqDecision PendingBatch.
Proof. solve_decision. Defined.

Inductive StateOutcome := Delta | Replaced | Reseeded.

Abbreviation Table := (gmap string (gmap string RegistryRow)).

Record RegistryDoc := mk_doc {
  rd_device_id : string; rd_authoritative : Table; rd_server_seq : Z; rd_gc_floor : Z; rd_clock : HlcClock;
  rd_pending : list PendingBatch; rd_generation : Z
}.
Definition RegistryDoc_new (device_id : string) : RegistryDoc := mk_doc device_id ∅ 0 0 HlcClock_default [] 0.

Definition set_rows (t : Table) (d : RegistryDoc) : RegistryDoc :=
  mk_doc (rd_device_id d) t (rd_server_seq d) (rd_gc_floor d) (rd_clock d) (rd_pending d) (rd_generation d).
Definition set_server (seq floor : Z) (d : RegistryDoc) : RegistryDoc :=
  mk_doc (rd_device_id d) (rd_authoritative d) seq floor (rd_clock d) (rd_pending d) (rd_generation d).
Definition set_clock (c : HlcClock) (d : RegistryDoc) : RegistryDoc :=
  mk_doc (rd_device_id d) (rd_authoritative d) (rd_server_seq d) (rd_gc_floor d) c (rd_pending d) (rd_generation d).
Definition set_pending (p : list PendingBatch) (d : RegistryDoc) : RegistryDoc :=
  mk_doc (rd_device_id d) (rd_authoritative d) (rd_server_seq d) (rd_gc_floor d) (rd_clock d) p (rd_generation d).
Definition bump_generation (d : RegistryDoc) : RegistryDoc :=
  mk_doc (rd_device_id d) (rd_authoritative d) (rd_server_seq d) (rd_gc_floor d) (rd_clock d) (rd_pending d)
    (u64_succ (rd_generation d)).

Definition table_lookup (kind id : string) (t : Table) : option RegistryRow := m ← t !! kind; m !! id.
Definition table_insert (row : RegistryRow) (t : Table) : Table :=
  <[rr_kind row := <[rr_id row := row]> (default ∅ (t !! rr_kind row))]> t.
Definition table_rows (t : Table) : list RegistryRow := (map_to_list t).*2 ≫= fun m => (map_to_list m).*2.

Definition put_authoritative (row : RegistryRow) (d : RegistryDoc) : RegistryDoc :=
  set_rows (table_insert row (rd_authoritative d)) d.
Definition put_rows (rows : list RegistryRow) (d : RegistryDoc) : RegistryDoc :=
  foldl (fun d row => put_authoritative row d) d rows.

(** * Local writes *)

Definition MAX_OPS_PER_BATCH : nat := 400.

Section replica.
Context (now_ms : RegistryDoc -> Z).

Definition next_hlc (d : RegistryDoc) : string * RegistryDoc :=
  let '(hlc, clock) := clock_next (now_ms d) (rd_device_id d) (rd_clock d) in (hlc, set_clock clock d).

Fixpoint enqueue_chunks (fuel : nat) (ops : list RowOp) (d : RegistryDoc) : RegistryDoc :=
  match fuel, ops with
  | _, [] | O, _ => d
  | S fuel, _ =>
      let '(hlc, d) := next_hlc d in
      let d := set_pending (rd_pending d ++ [mk_batch ("b-" +:+ hlc) (take MAX_OPS_PER_BATCH ops) false]) d in
      enqueue_chunks fuel (drop MAX_OPS_PER_BATCH ops) d
  end.
Definition enqueue_ops (ops : list RowOp) (d : RegistryDoc) : RegistryDoc :=
  if bool_decide (ops = []) then d else enqueue_chunks (length ops) ops (bump_generation d).

Definition write (kind id : string) (op : OpKind) (set : gmap string Value) (d : RegistryDoc) : RegistryDoc :=
  let '(hlc, d) := next_hlc d in
  enqueue_ops [mk_op kind id op (Some set) hlc None] d.
Definition delete_row_ops (keys : list (string * string)) (d : RegistryDoc) : RegistryDoc :=
  let '(hlc, d) := next_hlc d in
  enqueue_ops ((fun k => mk_op k.1 k.2 Delete None hlc None) <$> keys) d.

(** * Server frames *)

Definition apply_state (seq : Z) (full : bool) (gc_floor : Z) (rows : list RegistryRow) (d : RegistryDoc)
    : RegistryDoc * StateOutcome :=
  let d := bump_generation d in
  if negb full then (set_server seq gc_floor (put_rows rows d), Delta)
  else if (seq <? rd_server_seq d)%Z then
    let seed := row_to_seed_op <$> table_rows (rd_authoritative d) in
    let d := set_server seq gc_floor (put_rows rows d) in
    ((if bool_decide (seed = []) then d else enqueue_ops seed d), Reseeded)
  else
    let incoming := foldl (fun t row => table_insert row t) ∅ rows in
    let seed := row_to_seed_op <$>
      (map_to_list (rd_authoritative d) ≫= fun kt =>
         snd <$> filter (fun ir => table_lookup kt.1 ir.1 incoming = None) (map_to_list kt.2)) in
    let d := set_server seq gc_floor (set_rows incoming d) in
    if bool_decide (seed = []) then (d, Replaced) else (enqueue_ops seed d, Reseeded).

Definition apply_rows (seq : Z) (rows : list RegistryRow) (d : RegistryDoc) : RegistryDoc :=
  let d := put_rows rows (bump_generation d) in
  if (rd_server_seq d <? seq)%Z then set_server seq (rd_gc_floor d) d else d.

Definition ack_batch (batch : string) (seq : Z) (d : RegistryDoc) : RegistryDoc * bool :=
  let before := length (rd_pending d) in
  let d := set_pending (filter (fun b => pb_batch b <> batch) (rd_pending d)) d in
  let d := if (rd_server_seq d <? seq)%Z then set_server seq (rd_gc_floor d) d else d in
  if bool_decide (length (rd_pending d) <> before) then (bump_generation d, true) else (d, false).

Definition set_in_flight (v : bool) (b : PendingBatch) : PendingBatch := mk_batch (pb_batch b) (pb_ops b) v.
Definition take_pushable (d : RegistryDoc) : RegistryDoc * list PendingBatch :=
  (set_pending (set_in_flight true <$> rd_pending d) d,
   set_in_flight true <$> filter (fun b => pb_in_flight b = false) (rd_pending d)).
Definition mark_disconnected (d : RegistryDoc) : RegistryDoc :=
  set_pending (set_in_flight false <$> rd_pending d) d.

(** * Overlay reads *)

Definition overlay_step (kind id : string) (row : option RegistryRow) (op : RowOp) : option RegistryRow :=
  if bool_decide (ro_kind op = kind) && bool_decide (ro_id op = id) then
    match fst (apply_op row op) with Some next => Some next | None => row end
  else row.
Definition overlay_pending (kind id : string) (pending : list PendingBatch) (row : option RegistryRow) : option RegistryRow :=
  foldl (fun row b => foldl (overlay_step kind id) row (pb_ops b)) row pending.
Definition live (row : option RegistryRow) : option RegistryRow :=
  r ← row; if rr_deleted r then None else Some r.
Definition overlay_row (kind id : string) (d : RegistryDoc) : option RegistryRow :=
  live (overlay_pending kind id (rd_pending d) (table_lookup kind id (rd_authoritative d))).

Definition push_id (kind : string) (ids : list string) (op : RowOp) : list string :=
  if bool_decide (ro_kind op = kind) && negb (bool_decide (ro_id op ∈ ids)) then ids ++ [ro_id op] else ids.
Definition overlay_ids (kind : string) (d : RegistryDoc) : list string :=
  foldl (fun ids b => foldl (push_id kind) ids (pb_ops b))
    (match rd_authoritative d !! kind with Some m => (map_to_list m).*1 | None => [] end) (rd_pending d).
Definition overlay_rows (kind : string) (d : RegistryDoc) : list RegistryRow :=
  omap (fun id => overlay_row kind id d) (overlay_ids kind d).
Definition row_exists (kind id : string) (d : RegistryDoc) : bool :=
  match overlay_row kind id d with Some _ => true | None => false end.

(** * The typed writers *)

(** [false], and nothing written, when the row is not there. *)
Definition update_row (kind id : string) (set : gmap string Value) (d : RegistryDoc) : RegistryDoc * bool :=
  if row_exists kind id d then (write kind id Update set d, true) else (d, false).

Definition upsert_device (device : Device) (d : RegistryDoc) : RegistryDoc :=
  write KIND_DEVICES (dv_id device) Upsert
    (fields [("id", Str (dv_id device)); ("name", Str (dv_name device)); ("platform", Str (dv_platform device));
             ("lastSeenAt", opt_ms (dv_last_seen_at device)); ("createdAt", opt_ms (dv_created_at device));
             ("version", opt_str (dv_version device))]) d.
Definition rename_device (device_id name : string) (d : RegistryDoc) : RegistryDoc * bool :=
  update_row KIND_DEVICES device_id (fields [("name", Str name)]) d.
Definition set_device_last_seen (device_id : string) (at_ : Z) (d : RegistryDoc) : RegistryDoc * bool :=
  update_row KIND_DEVICES device_id (fields [("lastSeenAt", json_i64 at_)]) d.

Definition space_fields (space : Space) : list (string * Value) :=
  [("id", Str (sp_id space)); ("deviceId", Str (sp_device_id space)); ("path", Str (sp_path space));
   ("name", opt_str (sp_name space)); ("gitDetected", Bool (sp_git_detected space));
   ("gitCheckedAt", opt_ms (sp_git_checked_at space)); ("checkoutId", opt_str (sp_checkout_id space));
   ("createdAt", json_i64 (sp_created_at space))].
Definition upsert_space (space : Space) (d : RegistryDoc) : RegistryDoc :=
  write KIND_SPACES (sp_id space) Upsert (fields (space_fields space)) d.
Definition rename_space (space_id : string) (name : option string) (d : RegistryDoc) : RegistryDoc * bool :=
  update_row KIND_SPACES space_id (fields [("name", opt_str name)]) d.
Definition set_space_git (space_id : string) (detected : bool) (checkout_id : option string) (checked_at : Z)
    (d : RegistryDoc) : RegistryDoc * bool :=
  update_row KIND_SPACES space_id
    (fields [("gitDetected", Bool detected); ("checkoutId", opt_str checkout_id); ("gitCheckedAt", json_i64 checked_at)]) d.

Definition claim_chat (chat_id : string) (cwd space_id : option string) (created_at : Z) (d : RegistryDoc) : RegistryDoc :=
  let set := fields [("id", Str chat_id); ("deviceId", Str (rd_device_id d)); ("createdAt", json_i64 created_at)] in
  let set := match cwd with Some cwd => <["cwd" := Str cwd]> set | None => set end in
  let set := match space_id with Some space_id => <["spaceId" := Str space_id]> set | None => set end in
  write KIND_CHATS chat_id Upsert set d.
Definition set_chat_seen (chat_id : string) (at_ : Z) (d : RegistryDoc) : RegistryDoc * bool :=
  match overlay_row KIND_CHATS chat_id d with
  | None => (d, false)
  | Some row =>
      let current := v ← rr_fields row !! "lastSeenAt"; as_i64 v in
      if match current with Some ms => (at_ <=? ms)%Z | None => false end then (d, true)
      else (write KIND_CHATS chat_id Update (fields [("lastSeenAt", json_i64 at_)]) d, true)
  end.
Definition rename_chat (chat_id title : string) : RegistryDoc -> RegistryDoc * bool :=
  update_row KIND_CHATS chat_id (fields [("title", Str title)]).
Definition set_chat_archived (chat_id : string) (archived : bool) : RegistryDoc -> RegistryDoc * bool :=
  update_row KIND_CHATS chat_id (fields [("archived", Bool archived)]).
Definition set_chat_room_gen (chat_id : string) (room_gen : Z) : RegistryDoc -> RegistryDoc * bool :=
  update_row KIND_CHATS chat_id (fields [("roomGen", json_i64 room_gen)]).
Definition set_chat_branch (chat_id branch : string) : RegistryDoc -> RegistryDoc * bool :=
  update_row KIND_CHATS chat_id (fields [("branch", Str branch)]).
Definition set_chat_cwd (chat_id cwd : string) : RegistryDoc -> RegistryDoc * bool :=
  update_row KIND_CHATS chat_id (fields [("cwd", Str cwd)]).
Definition set_chat_checkout (chat_id checkout_id : string) : RegistryDoc -> RegistryDoc * bool :=
  update_row KIND_CHATS chat_id (fields [("checkoutId", Str checkout_id)]).
Definition set_chat_harness_session (chat_id session_id cwd : string) : RegistryDoc -> RegistryDoc * bool :=
  update_row KIND_CHATS chat_id (fields [("harnessSessionId", Str session_id); ("harnessSessionCwd", Str cwd)]).
Definition set_chat_last_message (chat_id preview : string) (at_ : Z) : RegistryDoc -> RegistryDoc * bool :=
  update_row KIND_CHATS chat_id (fields [("lastMessagePreview", Str preview); ("lastMessageAt", json_i64 at_)]).
Definition delete_chat (chat_id : string) (d : RegistryDoc) : RegistryDoc * bool :=
  let existed := row_exists KIND_CHATS chat_id d in
  (delete_row_ops [(KIND_CHATS, chat_id); (KIND_SESSIONS, chat_id)] d, existed).

Definition session_fields (session : SessionRow) : list (string * Value) :=
  [("chatId", Str (sr_chat_id session)); ("deviceId", Str (sr_device_id session));
   ("status", status_value (sr_status session)); ("startedAt", opt_ms (sr_started_at session));
   ("updatedAt", json_i64 (sr_updated_at session))].
Definition upsert_session (session : SessionRow) (d : RegistryDoc) : RegistryDoc :=
  write KIND_SESSIONS (sr_chat_id session) Upsert (fields (session_fields session)) d.

Section codecs.
(** [serde_json::to_value] of a configuration and [from_value] at the row
    types, conversions included. *)
Context (config_to_value : ChatConfig -> option Value).
Context (value_to_device : Value -> option Device) (value_to_space : Value -> option Space)
  (value_to_chat : Value -> option Chat) (value_to_session : Value -> option SessionRow).

Definition config_value (config : option ChatConfig) : option Value :=
  match config with Some config => config_to_value config | None => Some Null end.
Definition chat_fields (chat : Chat) (config : Value) : list (string * Value) :=
  [("id", Str (ch_id chat)); ("deviceId", Str (ch_device_id chat)); ("title", opt_str (ch_title chat));
   ("archived", Bool (ch_archived chat)); ("cwd", opt_str (ch_cwd chat)); ("branch", opt_str (ch_branch chat));
   ("checkoutId", opt_str (ch_checkout_id chat)); ("config", config);
   ("lastMessagePreview", opt_str (ch_last_message_preview chat)); ("lastMessageAt", opt_ms (ch_last_message_at chat));
   ("createdAt", json_i64 (ch_created_at chat)); ("harnessSessionId", opt_str (ch_harness_session_id chat));
   ("harnessSessionCwd", opt_str (ch_harness_session_cwd chat)); ("spaceId", opt_str (ch_space_id chat));
   ("lastSeenAt", opt_ms (ch_last_seen_at chat))].
Definition upsert_chat (chat : Chat) (d : RegistryDoc) : RegistryDoc * option unit :=
  match config_value (ch_config chat) with
  | None => (d, None)
  | Some config =>
      (write KIND_CHATS (ch_id chat) Upsert
         (fields (chat_fields chat config ++ [("roomGen", match ch_room_gen chat with Some g => json_i64 g | None => Null end)])) d,
       Some tt)
  end.
Definition set_chat_config (chat_id : string) (config : ChatConfig) (d : RegistryDoc) : RegistryDoc * option bool :=
  if row_exists KIND_CHATS chat_id d then
    match config_to_value config with
    | None => (d, None)
    | Some value => (write KIND_CHATS chat_id Update (fields [("config", value)]) d, Some true)
    end
  else (d, Some false).

(** ** Typed reads *)

(** [sort_by(|a, b| a.id.cmp(&b.id))]: a stable insertion into the byte order. *)
Definition row_object (row : RegistryRow) : Value := Obj (map_to_list (rr_fields row)).
Fixpoint insert_by {A} (key : A -> string) (x : A) (l : list A) : list A :=
  match l with
  | [] => [x]
  | y :: l' => if String.ltb (key x) (key y) then x :: l else y :: insert_by key x l'
  end.
Definition sort_by {A} (key : A -> string) (l : list A) : list A := foldl (fun l x => insert_by key x l) [] l.
Definition read_kind {A} (decode : Value -> option A) (kind : string) (d : RegistryDoc) : list A :=
  omap (fun row => decode (row_object row)) (overlay_rows kind d).
Definition read_devices (d : RegistryDoc) : list Device := sort_by dv_id (read_kind value_to_device KIND_DEVICES d).
Definition read_spaces (d : RegistryDoc) : list Space := sort_by sp_id (read_kind value_to_space KIND_SPACES d).
Definition read_chats (d : RegistryDoc) : list Chat := sort_by ch_id (read_kind value_to_chat KIND_CHATS d).
Definition read_sessions (d : RegistryDoc) : list SessionRow := sort_by sr_chat_id (read_kind value_to_session KIND_SESSIONS d).
Definition space (space_id : string) (d : RegistryDoc) : option Space :=
  row ← overlay_row KIND_SPACES space_id d; value_to_space (row_object row).
Definition chat (chat_id : string) (d : RegistryDoc) : option Chat :=
  row ← overlay_row KIND_CHATS chat_id d; value_to_chat (row_object row).

Record WorkspaceState := mk_workspace {
  ws_devices : list Device; ws_spaces : list Space; ws_chats : list Chat; ws_sessions : list SessionRow
}.
Definition read_all (d : RegistryDoc) : WorkspaceState :=
  mk_workspace (read_devices d) (read_spaces d) (read_chats d) (read_sessions d).

Record DeletedSpace := mk_deleted { dl_existed : bool; dl_chat_ids : list string }.
Definition delete_space (space_id : string) (d : RegistryDoc) : RegistryDoc * DeletedSpace :=
  let existed := row_exists KIND_SPACES space_id d in
  let chat_ids := ch_id <$> filter (fun c => ch_space_id c = Some space_id) (read_chats d) in
  let keys := (chat_ids ≫= fun id => [(KIND_CHATS, id); (KIND_SESSIONS, id)]) ++ [(KIND_SPACES, space_id)] in
  (delete_row_ops keys d, mk_deleted existed chat_ids).

(** ** Migration from the legacy workspace document *)

Definition seed_op (kind id : string) (ms : Z) (set : gmap string Value) : RowOp :=
  mk_op kind id Upsert (Some set) (encode_hlc (Z.max ms 1) 0 "migration") None.
Definition device_seed (v : Device) : RowOp :=
  seed_op KIND_DEVICES (dv_id v) (newest [dv_last_seen_at v; dv_created_at v])
    (fields [("id", Str (dv_id v)); ("name", Str (dv_name v)); ("platform", Str (dv_platform v));
             ("lastSeenAt", opt_ms (dv_last_seen_at v)); ("createdAt", opt_ms (dv_created_at v)); ("version", opt_str (dv_version v))]).
Definition space_seed (v : Space) : RowOp :=
  seed_op KIND_SPACES (sp_id v) (newest [sp_git_checked_at v; Some (sp_created_at v)]) (fields (space_fields v)).
Definition chat_seed (v : Chat) (config : Value) : RowOp :=
  seed_op KIND_CHATS (ch_id v) (newest [ch_last_message_at v; ch_last_seen_at v; Some (ch_created_at v)])
    (fields (chat_fields v config)).
Definition session_seed (v : SessionRow) : RowOp :=
  seed_op KIND_SESSIONS (sr_chat_id v) (newest [Some (sr_updated_at v); sr_started_at v]) (fields (session_fields v)).

Fixpoint chunks {A} (fuel n : nat) (l : list A) : list (list A) :=
  match fuel, l with
  | _, [] | O, _ => []
  | S fuel, _ => take n l :: chunks fuel n (drop n l)
  end.
Definition seed_from_workspace (w : WorkspaceState) (d : RegistryDoc) : RegistryDoc * option nat :=
  match mapM (fun c => (chat_seed c) <$> config_value (ch_config c)) (ws_chats w) with
  | None => (d, None)
  | Some chat_ops =>
      let ops := (device_seed <$> ws_devices w) ++ (space_seed <$> ws_spaces w) ++ chat_ops ++ (session_seed <$> ws_sessions w) in
      (foldl (fun d chunk => enqueue_ops chunk d) d (chunks (length ops) MAX_OPS_PER_BATCH ops), Some (length ops))
  end.
End codecs.
End replica.

(** * Persistence *)

Record PersistedState := mk_persisted {
  ps_v : Z; ps_device_id : string; ps_server_seq : Z; ps_gc_floor : Z; ps_clock : HlcClock;
  ps_rows : list RegistryRow; ps_pending : list PendingBatch
}.
Inductive DocError := JsonError | UnknownVersion (v : Z).

Section persistence.
(** [serde_json::to_vec] and [from_slice] at [PersistedState], over its bytes. *)
Context {Bytes : Type} (to_vec : PersistedState -> Bytes) (from_slice : Bytes -> option PersistedState).

Definition to_bytes (d : RegistryDoc) : Bytes :=
  to_vec (mk_persisted 1 (rd_device_id d) (rd_server_seq d) (rd_gc_floor d) (rd_clock d)
            (table_rows (rd_authoritative d)) (rd_pending d)).
Definition from_bytes (bytes : Bytes) (device_id : string) : result RegistryDoc DocError :=
  let? state := ok_or (from_slice bytes) JsonError in
  if bool_decide (ps_v state <> 1%Z) then Err (UnknownVersion (ps_v state))
  else Ok (put_rows (ps_rows state)
    (mk_doc device_id ∅ (ps_server_seq state) (ps_gc_floor state) (ps_clock state) (ps_pending state) 0)).
End persistence.

(** * The overlay, operation by operation *)

Definition touches (kind id : string) (op : RowOp) : Prop := ro_kind op = kind /\ ro_id op = id.
#[export] Instance touches_dec kind id op : Decision (touches kind id op).
Proof. unfold touches. apply _. Defined.

Definition pending_ops (p : list PendingBatch) : list RowOp := p ≫= pb_ops.

Lemma overlay_step_touches kind id row op :
  overlay_step kind id row op =
  if decide (touches kind id op) then match fst (apply_op row op) with Some next => Some next | None => row end else row.
Proof.
  unfold overlay_step, touches. repeat case_bool_decide; simpl; case_decide as Ht; try done; tauto.
Qed.

Lemma apply_op_Some r op : exists r', fst (apply_op (Some r) op) = Some r' /\ rr_kind r' = rr_kind r /\ rr_id r' = rr_id r.
Proof.
  unfold apply_op. case_bool_decide as Hd; simpl.
  - destruct (if rr_deleted r then _ else _); by eexists.
  - destruct (write_base (Some r) op) as [[early ch]|base] eqn:Hb.
    + exists r. unfold apply_write. rewrite Hb. unfold write_base in Hb. repeat case_match; by simplify_eq.
    + destruct (apply_write_spec (Some r) op base Hb) as (f & c & _ & ->). eexists. split; [done|]. simpl.
      unfold write_base in Hb. repeat case_match; by simplify_eq.
Qed.

Lemma overlay_step_eq kind id row op :
  overlay_step kind id row op = if decide (touches kind id op) then fst (apply_op row op) else row.
Proof.
  rewrite overlay_step_touches. case_decide; [|done]. destruct row as [r|].
  - by destruct (apply_op_Some r op) as (r' & -> & _).
  - by destruct (fst (apply_op None op)).
Qed.

Lemma overlay_pending_ops kind id p row : overlay_pending kind id p row = foldl (overlay_step kind id) row (pending_ops p).
Proof.
  unfold overlay_pending, pending_ops. revert row. induction p as [|b p IH]; intros row; [done|].
  rewrite bind_cons, foldl_app. cbn [foldl]. apply IH.
Qed.

Lemma overlay_untouched kind id ops row :
  Forall (fun op => ~ touches kind id op) ops -> foldl (overlay_step kind id) row ops = row.
Proof.
  revert row. induction ops as [|op ops IH]; intros row H; [done|]. apply Forall_cons in H as [H1 H2].
  cbn [foldl]. rewrite overlay_step_eq, decide_False by done. by apply IH.
Qed.

Definition op_key (op : RowOp) : string * string := (ro_kind op, ro_id op).
Lemma touches_key kind id op : touches kind id op <-> op_key op = (kind, id).
Proof. unfold touches, op_key. split; [by intros [-> ->]|by intros [= -> ->]]. Qed.

(** A batch that touches each row at most once. *)
Lemma overlay_once kind id ops row :
  NoDup (op_key <$> ops) ->
  foldl (overlay_step kind id) row ops =
  match List.find (fun op => bool_decide (touches kind id op)) ops with Some op => fst (apply_op row op) | None => row end.
Proof.
  revert row. induction ops as [|op ops IH]; intros row H; [done|]. rewrite fmap_cons in H. apply NoDup_cons in H as [H1 H2].
  cbn [foldl List.find]. rewrite overlay_step_eq. destruct (decide (touches kind id op)) as [Ht|Ht].
  - rewrite bool_decide_true by done. apply overlay_untouched, Forall_forall. intros op' Hin Ht'.
    apply H1, list_elem_of_fmap. exists op'. split; [|done]. apply touches_key in Ht, Ht'. congruence.
  - rewrite bool_decide_false by done. by apply IH.
Qed.

(** * Rows up to the server's sequence number *)

Definition set_seq (n : Z) (r : RegistryRow) : RegistryRow :=
  mk_row (rr_kind r) (rr_id r) n (rr_deleted r) (rr_del_hlc r) (rr_fields r) (rr_clocks r).
#[export] Instance row_equiv : Equiv RegistryRow := fun a b => set_seq 0 a = set_seq 0 b.
#[export] Instance row_equivalence : Equivalence (≡@{RegistryRow}).
Proof. split; repeat intro; unfold equiv, row_equiv in *; congruence. Qed.

Lemma row_equiv_fields (a b : RegistryRow) : a ≡ b ->
  rr_kind a = rr_kind b /\ rr_id a = rr_id b /\ rr_deleted a = rr_deleted b /\ rr_del_hlc a = rr_del_hlc b
  /\ rr_fields a = rr_fields b /\ rr_clocks a = rr_clocks b.
Proof. destruct a, b. unfold equiv, row_equiv, set_seq. simpl. by intros [=]. Qed.

Lemma write_base_seq n r op :
  write_base (Some (set_seq n r)) op =
  match write_base (Some r) op with
  | inl (row, ch) => inl (set_seq n <$> row, ch)
  | inr base => inr (set_seq n base)
  end.
Proof. destruct r as [? ? ? del ? ? ?]. simpl. by destruct del; [destruct (_ || _)|]. Qed.

Lemma apply_op_seq n r op :
  apply_op (Some (set_seq n r)) op = (set_seq n <$> fst (apply_op (Some r) op), snd (apply_op (Some r) op)).
Proof.
  unfold apply_op. case_bool_decide as Hd; simpl.
  - change (max_clock (set_seq n r)) with (max_clock r). by destruct (if rr_deleted r then _ else _).
  - unfold apply_write. rewrite write_base_seq. destruct (write_base (Some r) op) as [[row ch]|base]; [done|].
    cbn [rr_fields rr_clocks rr_deleted set_seq].
    destruct (match ro_set op with Some _ => _ | None => _ end) as [[f c] changed]. by destruct changed.
Qed.

#[export] Instance apply_op_proper op : Proper ((≡) ==> (≡)) (fun row : option RegistryRow => fst (apply_op row op)).
Proof.
  intros a b Hab. destruct Hab as [a b Hab|]; [|reflexivity].
  pose proof (f_equal fst (apply_op_seq 0 a op)) as Ha. pose proof (f_equal fst (apply_op_seq 0 b op)) as Hb. cbn [fst] in *.
  rewrite Hab in Ha. rewrite Ha in Hb.
  destruct (apply_op_Some a op) as (a' & Ea & _), (apply_op_Some b op) as (b' & Eb & _). rewrite Ea, Eb in *.
  simpl in Hb. constructor. unfold equiv, row_equiv. congruence.
Qed.

#[export] Instance overlay_step_proper kind id : Proper ((≡) ==> (=) ==> (≡)) (overlay_step kind id).
Proof. intros a b Hab op ? <-. rewrite !overlay_step_eq. case_decide; [by apply (apply_op_proper op)|done]. Qed.

#[export] Instance overlay_ops_proper kind id : Proper ((≡) ==> (=) ==> (≡)) (foldl (overlay_step kind id)).
Proof.
  intros a b Hab ops ? <-. revert a b Hab. induction ops as [|op ops IH]; intros a b Hab; [done|].
  cbn [foldl]. apply IH. by apply overlay_step_proper.
Qed.

#[export] Instance live_proper : Proper ((≡) ==> (≡)) live.
Proof.
  intros a b [x y Hab|]; [|reflexivity]. simpl. apply row_equiv_fields in Hab as Hf. destruct Hf as (_ & _ & -> & _).
  destruct (rr_deleted y); by constructor.
Qed.

(** * Tables *)

Lemma table_lookup_insert kind id row t :
  table_lookup kind id (table_insert row t) =
  if decide (rr_kind row = kind /\ rr_id row = id) then Some row else table_lookup kind id t.
Proof.
  unfold table_lookup, table_insert. destruct (decide (rr_kind row = kind)) as [<-|Hk].
  - rewrite lookup_insert_eq. cbn [mbind option_bind]. destruct (decide (rr_id row = id)) as [<-|Hi].
    + rewrite lookup_insert_eq. by rewrite decide_True.
    + rewrite lookup_insert_ne by done. rewrite decide_False by tauto. by destruct (t !! rr_kind row).
  - rewrite lookup_insert_ne by done. by rewrite decide_False by tauto.
Qed.

Lemma put_rows_table rows d : rd_authoritative (put_rows rows d) = foldl (fun t row => table_insert row t) (rd_authoritative d) rows.
Proof. revert d. induction rows as [|row rows IH]; intros d; [done|]. cbn [foldl]. unfold put_rows in *. cbn [foldl]. by rewrite IH. Qed.

Lemma put_rows_rest rows d : put_rows rows d = set_rows (rd_authoritative (put_rows rows d)) d.
Proof.
  revert d. induction rows as [|row rows IH]; intros d; [by destruct d|].
  unfold put_rows in *. cbn [foldl]. rewrite IH. by destruct d.
Qed.

Definition row_key (r : RegistryRow) : string * string := (rr_kind r, rr_id r).

(** The last row of the list for a key wins. *)
Lemma table_lookup_rows kind id rows t :
  table_lookup kind id (foldl (fun t row => table_insert row t) t rows) =
  match List.find (fun r => bool_decide (row_key r = (kind, id))) (reverse rows) with
  | Some r => Some r | None => table_lookup kind id t end.
Proof.
  revert t. induction rows as [|row rows IH] using rev_ind; intros t; [done|].
  rewrite foldl_app, reverse_snoc. cbn [foldl List.find]. rewrite table_lookup_insert. unfold row_key at 1.
  case_decide as Hd; [rewrite bool_decide_true by (destruct Hd; by subst); done|].
  rewrite bool_decide_false; [apply IH|]. intros [= <- <-]. tauto.
Qed.

(** * Batches *)

Lemma pending_ops_app p q : pending_ops (p ++ q) = pending_ops p ++ pending_ops q.
Proof. apply bind_app. Qed.

Definition batch_ok (b : PendingBatch) : Prop := 1 <= length (pb_ops b) <= MAX_OPS_PER_BATCH.

Section batches.
Context (now_ms : RegistryDoc -> Z).

(** What every tick leaves alone. *)
Definition same_but_pending (d d' : RegistryDoc) : Prop :=
  rd_device_id d' = rd_device_id d /\ rd_authoritative d' = rd_authoritative d /\ rd_server_seq d' = rd_server_seq d
  /\ rd_gc_floor d' = rd_gc_floor d.

Lemma next_hlc_same d : let '(_, d') := next_hlc now_ms d in same_but_pending d d' /\ rd_pending d' = rd_pending d /\ rd_generation d' = rd_generation d.
Proof. unfold next_hlc. by destruct (clock_next _ _ _). Qed.

Lemma enqueue_chunks_spec fuel ops d :
  length ops <= fuel ->
  exists bs, same_but_pending d (enqueue_chunks now_ms fuel ops d)
    /\ rd_pending (enqueue_chunks now_ms fuel ops d) = rd_pending d ++ bs
    /\ pending_ops bs = ops /\ Forall (fun b => batch_ok b /\ pb_in_flight b = false) bs.
Proof.
  revert ops d. induction fuel as [|fuel IH]; intros ops d Hf; destruct ops as [|op ops];
    [by exists []; rewrite app_nil_r; split_and!|simpl in Hf; lia|by exists []; rewrite app_nil_r; split_and!|].
  cbn [enqueue_chunks]. pose proof (next_hlc_same d) as Hn. destruct (next_hlc now_ms d) as [hlc d1].
  destruct Hn as ((Hd & Ha & Hs & Hg) & Hp & _).
  set (b := mk_batch ("b-" +:+ hlc) (take MAX_OPS_PER_BATCH (op :: ops)) false).
  set (d2 := set_pending (rd_pending d1 ++ [b]) d1).
  destruct (IH (drop MAX_OPS_PER_BATCH (op :: ops)) d2) as (bs & (Hd' & Ha' & Hs' & Hg') & Hp' & Hops & Hok).
  { rewrite length_drop. unfold MAX_OPS_PER_BATCH. cbn [length] in *. lia. }
  exists (b :: bs). split_and!.
  - unfold same_but_pending in *. rewrite Hd', Ha', Hs', Hg'. by split_and!.
  - rewrite Hp'. subst d2. simpl. by rewrite Hp, <- app_assoc.
  - unfold pending_ops in *. rewrite bind_cons, Hops. apply take_drop.
  - constructor; [|done]. split; [|done]. unfold batch_ok. subst b. cbn [pb_ops]. rewrite length_take. unfold MAX_OPS_PER_BATCH. cbn [length]. lia.
Qed.

(** [enqueue_ops] conserves the operations, in order, in batches under the
    room's cap. *)
Lemma enqueue_ops_spec ops d :
  exists bs, same_but_pending d (enqueue_ops now_ms ops d)
    /\ rd_pending (enqueue_ops now_ms ops d) = rd_pending d ++ bs
    /\ pending_ops bs = ops /\ Forall (fun b => batch_ok b /\ pb_in_flight b = false) bs.
Proof.
  unfold enqueue_ops. case_bool_decide as Ho; [subst; by exists []; rewrite app_nil_r; split_and!|].
  destruct (enqueue_chunks_spec (length ops) ops (bump_generation d) ltac:(lia)) as (bs & H1 & H2 & H3 & H4).
  by exists bs.
Qed.

(** ** The clock under the writers *)

Context (bound : Z) (now_bounded : forall d, (now_ms d <= bound)%Z).

Definition room (n : nat) (d : RegistryDoc) : Prop :=
  (hc_last_ms (rd_clock d) + Z.of_nat n < 10 ^ 13)%Z /\ (bound + Z.of_nat n < 10 ^ 13)%Z.

Definition current_hlc (d : RegistryDoc) : string :=
  encode_hlc (hc_last_ms (rd_clock d)) (hc_counter (rd_clock d)) (rd_device_id d).

Lemma next_hlc_spec n d : clock_inv (rd_clock d) -> room (S n) d ->
  let '(hlc, d') := next_hlc now_ms d in
  hlc = current_hlc d' /\ str_lt (current_hlc d) hlc /\ clock_inv (rd_clock d') /\ room n d'.
Proof.
  intros Hc [Hr1 Hr2]. unfold next_hlc.
  pose proof (clock_next_spec (now_ms d) (rd_device_id d) (rd_clock d) Hc) as H.
  pose proof (now_bounded d).
  destruct (clock_next (now_ms d) (rd_device_id d) (rd_clock d)) as [hlc c]. destruct H as (Hc' & -> & Hle & Hlt); [lia|lia|].
  unfold current_hlc, room. cbn [rd_clock rd_device_id set_clock]. split_and!; [done| |done|lia|lia].
  apply str_lt_compare. rewrite encode_hlc_compare by done.
  destruct Hlt as [Hlt|[Heq Hlt]]; [by rewrite (proj2 (Z.compare_lt_iff _ _) Hlt)|].
  rewrite Heq, Z.compare_refl. by rewrite (proj2 (Z.compare_lt_iff _ _) Hlt).
Qed.

(** Batch ids are clock readings: distinct, and never ahead of the clock. *)
Record doc_inv (d : RegistryDoc) : Prop := {
  di_clock : clock_inv (rd_clock d);
  di_sizes : Forall batch_ok (rd_pending d);
  di_ids : NoDup (pb_batch <$> rd_pending d);
  di_old : Forall (fun b => exists hlc, pb_batch b = "b-" +:+ hlc /\ ~ str_lt (current_hlc d) hlc) (rd_pending d);
}.

Lemma not_lt_trans a b c : ~ str_lt b a -> str_lt b c -> ~ str_lt c a.
Proof. intros H1 H2 H3. apply H1. by transitivity c. Qed.

Lemma enqueue_chunks_inv fuel ops d n :
  doc_inv d -> length ops <= fuel -> room (length ops + n) d ->
  doc_inv (enqueue_chunks now_ms fuel ops d) /\ room n (enqueue_chunks now_ms fuel ops d)
  /\ ~ str_lt (current_hlc (enqueue_chunks now_ms fuel ops d)) (current_hlc d).
Proof.
  revert ops d. induction fuel as [|fuel IH]; intros ops d Hi Hf Hr; destruct ops as [|op ops];
    [|simpl in Hf; lia| |]; try (split_and!; [done|done|apply irreflexivity, _]).
  cbn [enqueue_chunks]. destruct Hi as [Hc Hs Hnd Hold].
  pose proof (next_hlc_spec (length ops + n) d Hc Hr) as Hn. pose proof (next_hlc_same d) as Hsame.
  destruct (next_hlc now_ms d) as [hlc d1]. destruct Hn as (-> & Hlt & Hc1 & Hr1). destruct Hsame as (_ & Hp & _).
  set (b := mk_batch ("b-" +:+ current_hlc d1) (take MAX_OPS_PER_BATCH (op :: ops)) false).
  set (d2 := set_pending (rd_pending d1 ++ [b]) d1).
  destruct (IH (drop MAX_OPS_PER_BATCH (op :: ops)) d2) as (Hi' & Hr' & Hle).
  - subst d2. constructor; cbn [rd_clock rd_pending set_pending]; rewrite ?Hp.
    + exact Hc1.
    + apply Forall_app. split; [done|]. constructor; [|done]. unfold batch_ok. cbn [pb_ops b].
      rewrite length_take. unfold MAX_OPS_PER_BATCH. cbn [length]. lia.
    + rewrite fmap_app. apply NoDup_app. split_and!; [done| |by apply NoDup_singleton].
      intros x (y & -> & Hy)%list_elem_of_fmap Hx. apply list_elem_of_singleton in Hx. cbn [pb_batch b] in Hx.
      rewrite Forall_forall in Hold. destruct (Hold y Hy) as (hlc & Hb & Hno). rewrite Hb in Hx.
      apply (inj (String.append _)) in Hx as ->. by apply Hno.
    + apply Forall_app. split; [|constructor; [exists (current_hlc d1); split; [done|apply irreflexivity, _]|done]].
      eapply Forall_impl; [exact Hold|]. intros y (hlc & Hb & Hno). exists hlc. split; [done|]. by eapply not_lt_trans.
  - rewrite length_drop. unfold MAX_OPS_PER_BATCH. cbn [length] in *. lia.
  - rewrite length_drop. unfold MAX_OPS_PER_BATCH, room in *. subst d2. cbn [rd_clock set_pending length] in *. lia.
  - split_and!; [done|done|]. intros H. apply Hle. change (current_hlc d2) with (current_hlc d1). by transitivity (current_hlc d).
Qed.
End batches.

(** * The pending protocol *)

(** A batch without its connection flag. *)
Definition payload (b : PendingBatch) : string * list RowOp := (pb_batch b, pb_ops b).

Lemma set_in_flight_payload v (p : list PendingBatch) : payload <$> (set_in_flight v <$> p) = payload <$> p.
Proof. rewrite <- list_fmap_compose. apply list_fmap_ext. by intros i [] _. Qed.

Lemma payload_ids (p q : list PendingBatch) : payload <$> p = payload <$> q -> pb_batch <$> p = pb_batch <$> q.
Proof.
  intros H. apply (f_equal (fmap fst)) in H. by rewrite <- !list_fmap_compose in H.
Qed.

(** The invariant only sees the payloads. *)
Lemma doc_inv_payload d d' :
  doc_inv d -> rd_clock d' = rd_clock d -> rd_device_id d' = rd_device_id d ->
  (payload <$> rd_pending d') `sublist_of` (payload <$> rd_pending d) -> doc_inv d'.
Proof.
  intros [Hc Hs Hn Ho] Hck Hd Hsub.
  assert (Hin : forall b', b' ∈ rd_pending d' -> exists b, b ∈ rd_pending d /\ payload b = payload b').
  { intros b' Hb'. pose proof (elem_of_submseteq _ _ _ (list_elem_of_fmap_2 payload _ _ Hb') (sublist_submseteq _ _ Hsub)) as Hx.
    apply list_elem_of_fmap in Hx as (b & Heq & Hb). by exists b. }
  constructor.
  - by rewrite Hck.
  - apply Forall_forall. intros b' Hb'. destruct (Hin b' Hb') as (b & Hb & [= Heq1 Heq2]).
    rewrite Forall_forall in Hs. unfold batch_ok. rewrite <- Heq2. by apply Hs.
  - apply (fmap_sublist fst) in Hsub. rewrite <- !list_fmap_compose in Hsub.
    by eapply sublist_NoDup.
  - apply Forall_forall. intros b' Hb'. destruct (Hin b' Hb') as (b & Hb & [= Heq1 Heq2]).
    rewrite Forall_forall in Ho. destruct (Ho b Hb) as (hlc & Hid & Hno). exists hlc. unfold current_hlc. by rewrite Hck, Hd, <- Heq1.
Qed.

Lemma ack_batch_spec batch seq d :
  let '(d1, existed) := ack_batch batch seq d in
  rd_pending d1 = filter (fun b => pb_batch b <> batch) (rd_pending d) /\ rd_authoritative d1 = rd_authoritative d
  /\ rd_clock d1 = rd_clock d /\ rd_device_id d1 = rd_device_id d /\ rd_server_seq d1 = Z.max (rd_server_seq d) seq
  /\ (existed = true <-> batch ∈ pb_batch <$> rd_pending d).
Proof.
  unfold ack_batch. cbn [rd_pending rd_server_seq set_pending].
  set (p := filter (fun b => pb_batch b <> batch) (rd_pending d)).
  assert (Hp : forall s, rd_pending (if (rd_server_seq d <? seq)%Z then set_server seq s (set_pending p d) else set_pending p d) = p).
  { intros s. by destruct (_ <? _)%Z. }
  rewrite Hp.
  assert (Hiff : length p <> length (rd_pending d) <-> batch ∈ pb_batch <$> rd_pending d).
  { subst p. split.
    - intros Hl. destruct (decide (batch ∈ pb_batch <$> rd_pending d)) as [|Hn]; [done|]. destruct Hl. f_equal.
      apply filter_all. intros b Hb Heq. apply Hn. rewrite <- Heq. by apply list_elem_of_fmap_2.
    - intros (b & -> & Hb)%list_elem_of_fmap Hl.
      pose proof (length_filter_lt (fun b' => pb_batch b' <> pb_batch b) (rd_pending d) b Hb ltac:(tauto)). lia. }
  case_bool_decide as Hl; destruct (rd_server_seq d <? seq)%Z eqn:E; cbn; rewrite <- ?Hiff; split_and!; try done; lia.
Qed.

Lemma take_pushable_spec d :
  let '(d1, out) := take_pushable d in
  payload <$> rd_pending d1 = payload <$> rd_pending d
  /\ payload <$> out = payload <$> filter (fun b => pb_in_flight b = false) (rd_pending d)
  /\ Forall (fun b => pb_in_flight b = true) (rd_pending d1) /\ d1 = set_pending (rd_pending d1) d.
Proof.
  unfold take_pushable. cbn [rd_pending set_pending]. rewrite !set_in_flight_payload. split_and!; try done.
  apply Forall_fmap, Forall_true. done.
Qed.

(** The pending protocol.  Enqueueing conserves the operations and their
    order in fresh batches that each fit under the room's cap, with ids
    distinct from every batch still pending; a connection pushes every batch
    that is not in flight exactly once, and nothing twice; losing the
    connection makes everything unacknowledged pushable again; an
    acknowledgement retires exactly the batch it names, and only moves the
    cursor forward.  The bound keeps the clock within its thirteen digits. *)
Theorem pending_protocol now_ms bound (now_bounded : forall d, (now_ms d <= bound)%Z) ops n d :
  doc_inv d -> room bound (length ops + n) d ->
  let d' := enqueue_ops now_ms ops d in
  doc_inv d' /\ room bound n d' /\ same_but_pending d d'
  /\ (exists bs, rd_pending d' = rd_pending d ++ bs /\ pending_ops bs = ops
        /\ Forall (fun b => batch_ok b /\ pb_in_flight b = false) bs)
  /\ (let '(d1, out) := take_pushable d' in
      doc_inv d1 /\ payload <$> out = payload <$> filter (fun b => pb_in_flight b = false) (rd_pending d')
      /\ snd (take_pushable d1) = []
      /\ payload <$> snd (take_pushable (mark_disconnected d1)) = payload <$> rd_pending d')
  /\ (forall batch seq, let '(d1, existed) := ack_batch batch seq d' in
      doc_inv d1 /\ (existed = true <-> batch ∈ pb_batch <$> rd_pending d')
      /\ rd_pending d1 = filter (fun b => pb_batch b <> batch) (rd_pending d')
      /\ rd_server_seq d1 = Z.max (rd_server_seq d') seq).
Proof.
  intros Hi Hr d'.
  assert (Hd' : doc_inv d' /\ room bound n d').
  { subst d'. unfold enqueue_ops. case_bool_decide as Ho; [subst; by split|].
    destruct (enqueue_chunks_inv now_ms bound now_bounded (length ops) ops (bump_generation d) n) as (H1 & H2 & _); try done.
    destruct Hi. by constructor. }
  destruct Hd' as [Hi' Hr']. destruct (enqueue_ops_spec now_ms ops d) as (bs & Hsame & Hp & Hops & Hok). fold d' in Hsame, Hp. clearbody d'.
  split_and!; [done|done|done|by exists bs| |].
  - pose proof (take_pushable_spec d') as H. destruct (take_pushable d') as [d1 out]. destruct H as (H1 & H2 & H3 & H4).
    split_and!.
    + apply (doc_inv_payload d'); [done|by rewrite H4|by rewrite H4|by rewrite H1].
    + done.
    + unfold take_pushable. cbn [snd]. rewrite filter_none; [done|]. rewrite Forall_forall in H3. intros b Hb. by rewrite (H3 b Hb).
    + unfold take_pushable, mark_disconnected. cbn [snd rd_pending set_pending]. rewrite set_in_flight_payload.
      rewrite filter_all; [by rewrite set_in_flight_payload|]. by intros b (b' & -> & _)%list_elem_of_fmap.
  - intros batch seq. pose proof (ack_batch_spec batch seq d') as H. destruct (ack_batch batch seq d') as [d1 existed].
    destruct H as (H1 & H2 & H3 & H4 & H5 & H6). split_and!; try done.
    apply (doc_inv_payload d'); [done..|]. rewrite H1. apply fmap_sublist, sublist_filter.
Qed.

(** * What a local write shows *)

Definition overlay_base (kind id : string) (d : RegistryDoc) : option RegistryRow :=
  overlay_pending kind id (rd_pending d) (table_lookup kind id (rd_authoritative d)).

Section local_writes.
Context (now_ms : RegistryDoc -> Z).

Lemma overlay_enqueue kind id ops d :
  overlay_base kind id (enqueue_ops now_ms ops d) = foldl (overlay_step kind id) (overlay_base kind id d) ops.
Proof.
  destruct (enqueue_ops_spec now_ms ops d) as (bs & (_ & Ha & _ & _) & Hp & Hops & _). unfold overlay_base.
  by rewrite Ha, Hp, !overlay_pending_ops, pending_ops_app, foldl_app, Hops.
Qed.

Lemma overlay_next_hlc kind id d : overlay_base kind id (snd (next_hlc now_ms d)) = overlay_base kind id d.
Proof. unfold overlay_base, next_hlc. by destruct (clock_next _ _ _). Qed.

Lemma overlay_write kind id kind' id' op set d :
  overlay_base kind' id' (write now_ms kind id op set d) =
  overlay_step kind' id' (overlay_base kind' id' d) (mk_op kind id op (Some set) (fst (next_hlc now_ms d)) None).
Proof.
  pose proof (overlay_next_hlc kind' id' d) as Hn. unfold write. destruct (next_hlc now_ms d) as [hlc d1]. cbn [fst snd] in *.
  by rewrite overlay_enqueue, Hn.
Qed.

(** The next tick is newer than every clock on the row. *)
Definition fresh (kind id : string) (d : RegistryDoc) : Prop :=
  forall r c, overlay_base kind id d = Some r -> row_clock r c -> str_lt c (fst (next_hlc now_ms d)).

(** The fields after an unopposed write of [set] over [old]. *)
Definition overwrite (set old : gmap string Value) : gmap string Value :=
  merge (fun s o => match s with Some v => if is_null v then None else Some v | None => o end) set old.

Lemma written_fresh op fields clocks f c :
  (forall k, accepts op clocks k = true) -> written op fields clocks f c -> f = overwrite (op_set op) fields.
Proof.
  intros Ha [_ Hf]. apply map_eq. intros k. unfold overwrite. rewrite lookup_merge, Hf, Ha.
  destruct (op_set op !! k) as [v|], (fields !! k); simpl; done || by destruct (is_null v).
Qed.

Lemma accepts_empty op k : accepts op ∅ k = true.
Proof. unfold accepts. by rewrite lookup_empty. Qed.

Lemma fresh_accepts kind id d r op set : fresh kind id d -> overlay_base kind id d = Some r ->
  forall k, accepts (mk_op kind id op (Some set) (fst (next_hlc now_ms d)) None) (rr_clocks r) k = true.
Proof.
  intros Hf Hr k. unfold accepts, clock_for. cbn [ro_clocks ro_hlc mbind option_bind default].
  destruct (rr_clocks r !! k) as [c|] eqn:E; [|done]. apply (Hf r c Hr). right. eauto.
Qed.

Lemma live_Some row r : live row = Some r <-> row = Some r /\ rr_deleted r = false.
Proof.
  unfold live. destruct row as [r'|]; simpl; [|by split; [|intros [? _]]].
  destruct (rr_deleted r') eqn:E; split; [done|intros [[= ->] ?]; congruence|by intros [= <-]|by intros [[= ->] _]].
Qed.

Lemma write_shows kind id op set d :
  op <> Delete -> fresh kind id d -> (op = Update -> row_exists kind id d = true) ->
  exists r', overlay_row kind id (write now_ms kind id op set d) = Some r'
    /\ rr_fields r' = overwrite set (match overlay_row kind id d with Some r => rr_fields r | None => ∅ end).
Proof.
  intros Hop Hf Hu. unfold overlay_row. fold (overlay_base kind id (write now_ms kind id op set d)). fold (overlay_base kind id d).
  rewrite overlay_write, overlay_step_eq, decide_True by done.
  set (o := mk_op kind id op (Some set) (fst (next_hlc now_ms d)) None). pose proof (apply_op_lww (overlay_base kind id d) o) as H.
  destruct (apply_op (overlay_base kind id d) o) as [row' ch] eqn:E. cbn [fst].
  destruct H as (_ & _ & _ & _ & _ & Hrev & Hlive).
  destruct (overlay_base kind id d) as [r|] eqn:Hr.
  - destruct (rr_deleted r) eqn:Hdel.
    + assert (Hns : live (Some r) = None) by (unfold live; simpl; by rewrite Hdel). rewrite Hns.
      assert (op = Upsert) as ->.
      { destruct op; [done| |done]. specialize (Hu eq_refl). unfold row_exists, overlay_row in Hu.
        fold (overlay_base kind id d) in Hu. by rewrite Hr, Hns in Hu. }
      specialize (Hrev r eq_refl Hdel eq_refl).
      assert (Hn : hlc_newer (ro_hlc o) (rr_del_hlc r) = true).
      { destruct (rr_del_hlc r) as [c|] eqn:Ed; [|done]. apply (Hf r c Hr). by left. }
      rewrite Hn in Hrev. destruct Hrev as (f & c & -> & Hw). eexists. split; [done|]. cbn [rr_fields with_content].
      by rewrite (written_fresh _ _ _ _ _ (accepts_empty _) Hw).
    + assert (Hs : live (Some r) = Some r) by (by apply live_Some). rewrite Hs.
      destruct (Hlive r eq_refl Hdel Hop) as (f & c & -> & Hw). eexists. split; [done|]. cbn [rr_fields with_content].
      apply (written_fresh _ _ _ _ _ (fresh_accepts kind id d r op set Hf Hr) Hw).
  - assert (op = Upsert) as ->.
    { destruct op; [done| |done]. specialize (Hu eq_refl). unfold row_exists, overlay_row in Hu. fold (overlay_base kind id d) in Hu. by rewrite Hr in Hu. }
    destruct (apply_write_spec None o (mk_row kind id 0 false None ∅ ∅) eq_refl) as (f & c & Hw & Heq).
    unfold apply_op in E. cbn [o ro_op] in E. rewrite bool_decide_false in E by done. fold o in E. rewrite Heq in E. injection E as <- <-.
    eexists. split; [done|]. cbn [rr_fields with_content]. apply (written_fresh _ _ _ _ _ (accepts_empty _) Hw).
Qed.

(** A row that is being deleted stays deleted. *)
Lemma deletes_shown kind id hlc keys row :
  (forall r c, row = Some r -> row_clock r c -> rr_deleted r = true \/ str_lt c hlc) ->
  live (foldl (overlay_step kind id) row ((fun k => mk_op k.1 k.2 Delete None hlc None) <$> keys)) =
  if decide ((kind, id) ∈ keys) then None else live row.
Proof.
  revert row. induction keys as [|[k i] keys IH]; intros row Hf; [done|]. rewrite fmap_cons. cbn [foldl fst snd].
  rewrite overlay_step_eq. unfold touches at 1. cbn [ro_kind ro_id].
  destruct (decide (k = kind /\ i = id)) as [[-> ->]|Hne].
  - set (o := mk_op kind id Delete None hlc None).
    assert (Hdead : exists r', fst (apply_op row o) = Some r' /\ rr_deleted r' = true).
    { unfold apply_op. cbn [o ro_op bool_decide decide]. rewrite bool_decide_true by done. unfold apply_delete. cbn [ro_hlc o].
      destruct row as [r|]; [|by eexists]. destruct (rr_deleted r) eqn:Hd; [destruct (hlc_newer _ _); by eexists|].
      assert (hlc_newer hlc (max_clock r) = true) as ->; [|by eexists].
      apply max_clock_newer. intros c Hc. destruct (Hf r c eq_refl Hc); [congruence|done]. }
    destruct Hdead as (r' & -> & Hdel). rewrite IH by (intros ? c [= <-]; by left).
    rewrite (decide_True (P := (kind, id) ∈ (kind, id) :: keys)) by by left.
    case_decide; [done|]. unfold live. simpl. by rewrite Hdel.
  - rewrite IH by done. destruct (decide ((kind, id) ∈ keys)) as [Hin|Hin]; [by rewrite decide_True by by right|].
    rewrite decide_False; [done|]. intros [[= <- <-]|?]%elem_of_cons; tauto.
Qed.

Lemma overlay_delete kind id keys d :
  overlay_row kind id (delete_row_ops now_ms keys d) =
  live (foldl (overlay_step kind id) (overlay_base kind id d)
          ((fun k => mk_op k.1 k.2 Delete None (fst (next_hlc now_ms d)) None) <$> keys)).
Proof.
  unfold overlay_row. fold (overlay_base kind id (delete_row_ops now_ms keys d)).
  pose proof (overlay_next_hlc kind id d) as Hn. unfold delete_row_ops. destruct (next_hlc now_ms d) as [hlc d1].
  cbn [fst snd] in *. by rewrite overlay_enqueue, Hn.
Qed.

(** A local write shows at once, whatever is still pending: provided the
    clock is ahead of the clocks on the row, an update changes exactly the
    fields it names (a [null] clears one) and an upsert also creates or
    revives; an update of a row that is not displayed writes nothing and says
    so; a deletion hides exactly the rows it names; no other row moves, and
    the server's rows are never touched. *)
Theorem local_writes_visible kind id op set keys d :
  op <> Delete -> fresh kind id d ->
  (forall kind' id', (kind', id') <> (kind, id) ->
     overlay_row kind' id' (write now_ms kind id op set d) = overlay_row kind' id' d)
  /\ rd_authoritative (write now_ms kind id op set d) = rd_authoritative d
  /\ (exists r, overlay_row kind id (write now_ms kind id Upsert set d) = Some r
        /\ rr_fields r = overwrite set (match overlay_row kind id d with Some r => rr_fields r | None => ∅ end))
  /\ (let '(d', existed) := update_row now_ms kind id set d in
      match overlay_row kind id d with
      | None => d' = d /\ existed = false
      | Some r => existed = true /\ exists r', overlay_row kind id d' = Some r' /\ rr_fields r' = overwrite set (rr_fields r)
      end)
  /\ (forall kind' id', ((kind', id') ∈ keys -> fresh kind' id' d) ->
        overlay_row kind' id' (delete_row_ops now_ms keys d) =
        if decide ((kind', id') ∈ keys) then None else overlay_row kind' id' d).
Proof.
  intros Hop Hf. split_and!.
  - intros kind' id' Hne. unfold overlay_row. fold (overlay_base kind' id' (write now_ms kind id op set d)). fold (overlay_base kind' id' d).
    rewrite overlay_write, overlay_step_eq, decide_False; [done|]. rewrite touches_key. unfold op_key. simpl. congruence.
  - unfold write. pose proof (next_hlc_same now_ms d) as H. destruct (next_hlc now_ms d) as [hlc d1].
    destruct H as ((_ & <- & _) & _). by destruct (enqueue_ops_spec now_ms [mk_op kind id op (Some set) hlc None] d1) as (bs & (_ & Ha & _) & _).
  - by apply write_shows.
  - unfold update_row. destruct (row_exists kind id d) eqn:He; unfold row_exists in He.
    + destruct (write_shows kind id Update set d ltac:(done) Hf) as (r' & H1 & H2); [intros _; exact He|].
      destruct (overlay_row kind id d); [|done]. split; [done|]. by exists r'.
    + by destruct (overlay_row kind id d).
  - intros kind' id' Hfr. rewrite overlay_delete. destruct (decide ((kind', id') ∈ keys)) as [Hin|Hin].
    + rewrite deletes_shown; [by rewrite decide_True|]. intros r c Hr Hc. right. by eapply Hfr.
    + rewrite overlay_untouched; [done|]. apply Forall_fmap, Forall_forall. intros [k i] Hk [H1 H2]. simpl in *. by subst.
Qed.
End local_writes.

(** * Re-seeding a server that lost state *)

(** Rows are filed under their own kind and id. *)
Definition table_wf (t : Table) : Prop :=
  forall kind id r, table_lookup kind id t = Some r -> rr_kind r = kind /\ rr_id r = id.

Lemma table_insert_wf row t : table_wf t -> table_wf (table_insert row t).
Proof. intros H kind id r. rewrite table_lookup_insert. case_decide as Hd; [by intros [= <-]|apply H]. Qed.

Lemma elem_of_table_rows r t : r ∈ table_rows t <-> exists kind id, table_lookup kind id t = Some r.
Proof.
  unfold table_rows, table_lookup. rewrite list_elem_of_bind. split.
  - intros (m & Hr & Hm). apply list_elem_of_fmap in Hm as ([kind m'] & -> & Hm), Hr as ([id r'] & -> & Hr).
    apply elem_of_map_to_list in Hm, Hr. exists kind, id. simpl in *. by rewrite Hm.
  - intros (kind & id & H). apply bind_Some in H as (m & Hm & Hr). exists m. split.
    + apply list_elem_of_fmap. exists (id, r). split; [done|]. by apply elem_of_map_to_list.
    + apply list_elem_of_fmap. exists (kind, m). split; [done|]. by apply elem_of_map_to_list.
Qed.

Lemma NoDup_bind_keys {A} (f : string * A -> list RegistryRow) (l : list (string * A)) :
  NoDup l.*1 -> (forall x r, x ∈ l -> r ∈ f x -> rr_kind r = x.1) -> (forall x, x ∈ l -> NoDup (rr_id <$> f x)) ->
  NoDup (row_key <$> (l ≫= f)).
Proof.
  induction l as [|x l IH]; intros Hnd Hk Hid; [constructor|]. rewrite fmap_cons in Hnd. apply NoDup_cons in Hnd as [Hx Hnd].
  rewrite bind_cons, fmap_app. apply NoDup_app. split_and!.
  - apply (NoDup_fmap_1 snd). rewrite <- list_fmap_compose. apply (Hid x). by left.
  - intros key (r & -> & Hr)%list_elem_of_fmap (r' & Heq & Hr')%list_elem_of_fmap.
    apply list_elem_of_bind in Hr' as (x' & Hr' & Hx'). injection Heq as Heq _.
    rewrite (Hk x r) in Heq by (done || by left). rewrite (Hk x' r') in Heq by (done || by right).
    apply Hx. rewrite Heq. by apply list_elem_of_fmap_2.
  - apply IH; [done|intros; apply Hk; [by right|done]|intros; apply Hid; by right].
Qed.

Lemma NoDup_table_part (t : Table) (P : string -> string * RegistryRow -> Prop) `{!forall k x, Decision (P k x)} :
  table_wf t -> NoDup (row_key <$> (map_to_list t ≫= fun kt => snd <$> filter (P kt.1) (map_to_list kt.2))).
Proof.
  intros Hwf.
  assert (Hin : forall kt, kt ∈ map_to_list t -> forall ir, ir ∈ map_to_list kt.2 -> rr_kind ir.2 = kt.1 /\ rr_id ir.2 = ir.1).
  { intros [kind m] Hm [id r] Hr. apply elem_of_map_to_list in Hm, Hr. apply Hwf. unfold table_lookup. simpl in *. by rewrite Hm. }
  apply NoDup_bind_keys; [apply NoDup_fst_map_to_list| |].
  - intros kt r Hm Hr. apply list_elem_of_fmap in Hr as (ir & -> & Hir). apply list_elem_of_filter in Hir as [_ Hir]. by eapply Hin.
  - intros kt Hm. rewrite <- list_fmap_compose.
    assert (Heq : (rr_id ∘ snd) <$> filter (P kt.1) (map_to_list kt.2) = fst <$> filter (P kt.1) (map_to_list kt.2)).
    { apply list_fmap_ext. intros i ir Hi. apply list_elem_of_lookup_2, list_elem_of_filter in Hi as [_ Hi]. simpl. by eapply Hin. }
    rewrite Heq. eapply sublist_NoDup; [apply (NoDup_fst_map_to_list kt.2)|]. apply fmap_sublist, sublist_filter.
Qed.

Lemma table_rows_filter t : table_rows t = map_to_list t ≫= fun kt => snd <$> filter (fun _ : string * RegistryRow => True) (map_to_list kt.2).
Proof.
  unfold table_rows. rewrite list_fmap_bind. apply list_bind_ext; [|done]. intros [k m]. simpl. by rewrite filter_all.
Qed.

Lemma seed_op_key r : op_key (row_to_seed_op r) = row_key r.
Proof. unfold row_to_seed_op. by destruct (rr_deleted r). Qed.

(** Enqueued seeds act on each row once. *)
Lemma overlay_seeds kind id rows r row :
  NoDup (row_key <$> rows) -> r ∈ rows -> row_key r = (kind, id) ->
  foldl (overlay_step kind id) row (row_to_seed_op <$> rows) = fst (apply_op row (row_to_seed_op r)).
Proof.
  intros Hnd Hin Hk. rewrite overlay_once.
  - assert (Hf : List.find (fun op => bool_decide (touches kind id op)) (row_to_seed_op <$> rows) = Some (row_to_seed_op r)).
    { induction rows as [|r' rows IH]; [by apply elem_of_nil in Hin|]. rewrite fmap_cons in *. apply NoDup_cons in Hnd as [Hn Hnd].
      cbn [List.find]. case_bool_decide as Ht.
      - apply elem_of_cons in Hin as [->|Hin]; [done|]. exfalso. apply Hn. apply touches_key in Ht. rewrite seed_op_key in Ht.
        rewrite Ht, <- Hk. by apply list_elem_of_fmap_2.
      - apply elem_of_cons in Hin as [->|Hin]; [|by apply IH]. exfalso. apply Ht, touches_key. by rewrite seed_op_key. }
    by rewrite Hf.
  - rewrite <- list_fmap_compose. erewrite list_fmap_ext; [exact Hnd|]. intros i x _. apply seed_op_key.
Qed.

(** A live row whose fields all carry their clock. *)
Definition row_wf (r : RegistryRow) : Prop :=
  rr_deleted r = false /\ forall k v, rr_fields r !! k = Some v -> v <> Null /\ is_Some (rr_clocks r !! k).

Lemma seed_written (base : option RegistryRow) (r : RegistryRow) :
  row_wf r -> (match base with Some s => rr_deleted s = false | None => True end) ->
  exists r', fst (apply_op base (row_to_seed_op r)) = Some r' /\ rr_deleted r' = false
    /\ written (row_to_seed_op r) (match base with Some s => rr_fields s | None => ∅ end)
         (match base with Some s => rr_clocks s | None => ∅ end) (rr_fields r') (rr_clocks r').
Proof.
  intros [Hl Hwf] Hb.
  assert (Hop : ro_op (row_to_seed_op r) = Upsert) by (unfold row_to_seed_op; by rewrite Hl). destruct base as [s|].
  - destruct (apply_live s (row_to_seed_op r) Hb ltac:(by rewrite Hop)) as (f & c & Hw & ->). by eexists.
  - destruct (apply_write_spec None (row_to_seed_op r) (mk_row (ro_kind (row_to_seed_op r)) (ro_id (row_to_seed_op r)) 0 false None ∅ ∅))
      as (f & c & Hw & Heq); [unfold write_base; by rewrite bool_decide_false by by rewrite Hop|].
    unfold apply_op. rewrite bool_decide_false by by rewrite Hop. rewrite Heq. by eexists.
Qed.

(** Field by field, a re-seeded row meets the server's last-writer-wins. *)
Lemma seed_fields (base : option RegistryRow) (r : RegistryRow) :
  row_wf r -> (match base with Some s => rr_deleted s = false | None => True end) ->
  exists r', fst (apply_op base (row_to_seed_op r)) = Some r' /\ rr_deleted r' = false
    /\ forall k, match rr_fields r !! k, (s ← base; rr_clocks s !! k) with
       | Some v, theirs =>
           exists c, rr_clocks r !! k = Some c
             /\ if hlc_newer c theirs then rr_fields r' !! k = Some v /\ rr_clocks r' !! k = Some c
                else rr_fields r' !! k = (s ← base; rr_fields s !! k) /\ rr_clocks r' !! k = theirs
       | None, theirs => rr_fields r' !! k = (s ← base; rr_fields s !! k) /\ rr_clocks r' !! k = theirs
       end.
Proof.
  intros Hw Hb. destruct (seed_written base r Hw Hb) as (r' & He & Hl & Hc & Hf). exists r'. split_and!; [done|done|].
  destruct Hw as [Hlive Hwf]. intros k. specialize (Hc k). specialize (Hf k).
  assert (Hset : op_set (row_to_seed_op r) = rr_fields r) by (unfold row_to_seed_op; by rewrite Hlive). rewrite Hset in Hc, Hf.
  destruct (rr_fields r !! k) as [v|] eqn:Ev.
  - destruct (Hwf k v Ev) as [Hnn [c Hck]]. exists c. split; [done|].
    assert (Hcf : clock_for (row_to_seed_op r) k = c).
    { unfold clock_for, row_to_seed_op. rewrite Hlive. cbn [ro_clocks mbind option_bind]. by rewrite Hck. }
    unfold accepts in Hc, Hf. rewrite Hcf in Hc, Hf.
    assert (Hnull : is_null v = false) by by destruct v. rewrite Hnull in Hf.
    destruct base as [s|]; cbn [mbind option_bind]; rewrite ?lookup_empty in *; [|by simpl in *]. by destruct (hlc_newer c (rr_clocks s !! k)).
  - by destruct base as [s|].
Qed.

Section reseed.
Context (now_ms : RegistryDoc -> Z).

(** The rows that a full state frame makes the replica push back. *)
Definition local_only (incoming : Table) (t : Table) : list RegistryRow :=
  map_to_list t ≫= fun kt => snd <$> filter (fun ir => table_lookup kt.1 ir.1 incoming = None) (map_to_list kt.2).

Lemma elem_of_local_only incoming t kind id r :
  table_lookup kind id t = Some r -> table_lookup kind id incoming = None -> r ∈ local_only incoming t.
Proof.
  intros H Hn. apply bind_Some in H as (m & Hm & Hr). apply list_elem_of_bind. exists (kind, m).
  split; [|by apply elem_of_map_to_list]. apply list_elem_of_fmap. exists (id, r). split; [done|].
  apply list_elem_of_filter. split; [done|]. by apply elem_of_map_to_list.
Qed.

Lemma enqueue_seeds kind id rows r d :
  NoDup (row_key <$> rows) -> r ∈ rows -> row_key r = (kind, id) ->
  overlay_base kind id (enqueue_ops now_ms (row_to_seed_op <$> rows) d) = fst (apply_op (overlay_base kind id d) (row_to_seed_op r)).
Proof. intros. rewrite overlay_enqueue. by apply overlay_seeds. Qed.

(** The seeds reach the overlay of the row exactly once. *)
Lemma apply_state_seeds seq floor rows kind id r d :
  table_wf (rd_authoritative d) -> table_lookup kind id (rd_authoritative d) = Some r ->
  Forall (fun op => ~ touches kind id op) (pending_ops (rd_pending d)) ->
  let incoming := foldl (fun t row => table_insert row t) ∅ rows in
  (seq < rd_server_seq d)%Z \/ table_lookup kind id incoming = None ->
  let '(d', outcome) := apply_state now_ms seq true floor rows d in
  outcome = Reseeded /\ rd_server_seq d' = seq
  /\ overlay_base kind id d' = fst (apply_op (table_lookup kind id (rd_authoritative d')) (row_to_seed_op r)).
Proof.
  intros Hwf Hr Hpend incoming Hwhy. destruct (Hwf kind id r Hr) as [Hk Hi].
  assert (Hbase : forall t, overlay_base kind id (set_server seq floor (set_rows t (bump_generation d))) = table_lookup kind id t).
  { intros t. unfold overlay_base. cbn [rd_pending rd_authoritative set_server set_rows bump_generation].
    by rewrite overlay_pending_ops, overlay_untouched. }
  unfold apply_state. cbn [negb rd_server_seq bump_generation rd_authoritative].
  destruct (seq <? rd_server_seq d)%Z eqn:E.
  - assert (Hin : r ∈ table_rows (rd_authoritative d)) by (apply elem_of_table_rows; eauto).
    rewrite bool_decide_false by (intros Hnil; apply fmap_nil_inv in Hnil; rewrite Hnil in Hin; by apply elem_of_nil in Hin).
    rewrite put_rows_rest. cbn [rd_authoritative set_rows bump_generation].
    set (t := rd_authoritative (put_rows rows (bump_generation d))). specialize (Hbase t).
    set (d0 := set_server seq floor (set_rows t (bump_generation d))) in *.
    destruct (enqueue_ops_spec now_ms (row_to_seed_op <$> table_rows (rd_authoritative d)) d0) as (bs & (_ & Ha & Hs & _) & _).
    split_and!; [done|by rewrite Hs|]. rewrite (enqueue_seeds kind id _ r); [by rewrite Hbase, Ha| |done|by unfold row_key; rewrite Hk, Hi].
    rewrite table_rows_filter. exact (@NoDup_table_part (rd_authoritative d) (fun _ _ => True) (fun _ _ => True_dec) Hwf).
  - destruct Hwhy as [Hlt|Hnone]; [lia|]. fold incoming.
    change (map_to_list (rd_authoritative d) ≫= _) with (local_only incoming (rd_authoritative d)).
    assert (Hin : r ∈ local_only incoming (rd_authoritative d)) by by eapply elem_of_local_only.
    rewrite bool_decide_false by (intros Hnil; apply fmap_nil_inv in Hnil; rewrite Hnil in Hin; by apply elem_of_nil in Hin).
    specialize (Hbase incoming). set (d0 := set_server seq floor (set_rows incoming (bump_generation d))) in *.
    destruct (enqueue_ops_spec now_ms (row_to_seed_op <$> local_only incoming (rd_authoritative d)) d0) as (bs & (_ & Ha & Hs & _) & _).
    split_and!; [done|by rewrite Hs|]. rewrite (enqueue_seeds kind id _ r); [by rewrite Hbase, Ha| |done|by unfold row_key; rewrite Hk, Hi].
    exact (NoDup_table_part (rd_authoritative d) (fun k ir => table_lookup k ir.1 incoming = None) Hwf).
Qed.

(** A replica that outlives its server loses nothing: when a full state
    frame shows a server behind the replica, or one that does not know a row,
    every live local row with nothing pending on it is pushed back and keeps
    showing.  A row the server does not have shows exactly its own fields,
    under their original clocks; against a row the server does have, each
    field is settled by the two clocks, as if the local write had been
    repeated. *)
Theorem reseed_keeps_rows seq floor rows kind id r d :
  table_wf (rd_authoritative d) -> table_lookup kind id (rd_authoritative d) = Some r -> row_wf r ->
  Forall (fun op => ~ touches kind id op) (pending_ops (rd_pending d)) ->
  let incoming := foldl (fun t row => table_insert row t) ∅ rows in
  (seq < rd_server_seq d)%Z \/ table_lookup kind id incoming = None ->
  let '(d', outcome) := apply_state now_ms seq true floor rows d in
  outcome = Reseeded /\ rd_server_seq d' = seq
  /\ overlay_base kind id d' = fst (apply_op (table_lookup kind id (rd_authoritative d')) (row_to_seed_op r))
  /\ match table_lookup kind id (rd_authoritative d') with
     | None => exists r', overlay_row kind id d' = Some r' /\ rr_fields r' = rr_fields r
                 /\ forall k v, rr_fields r !! k = Some v -> rr_clocks r' !! k = rr_clocks r !! k
     | Some s => rr_deleted s = false ->
         exists r', overlay_row kind id d' = Some r'
           /\ forall k v c, rr_fields r !! k = Some v -> rr_clocks r !! k = Some c ->
                if hlc_newer c (rr_clocks s !! k) then rr_fields r' !! k = Some v /\ rr_clocks r' !! k = Some c
                else rr_fields r' !! k = rr_fields s !! k
     end.
Proof.
  intros Hwf Hr Hrow Hpend incoming Hwhy.
  pose proof (apply_state_seeds seq floor rows kind id r d Hwf Hr Hpend Hwhy) as Hseed.
  destruct (apply_state now_ms seq true floor rows d) as [d' outcome]. destruct Hseed as (Ho & Hs & Hb).
  split_and!; [done|done|done|]. unfold overlay_row. fold (overlay_base kind id d'). rewrite Hb.
  destruct (table_lookup kind id (rd_authoritative d')) as [s|].
  - intros Hlive. destruct (seed_fields (Some s) r Hrow Hlive) as (r' & He & Hl & Hf). exists r'. split; [by rewrite He; apply live_Some|].
    intros k v c Hv Hc. specialize (Hf k). rewrite Hv in Hf. destruct Hf as (c' & Hc' & Hf). rewrite Hc in Hc'. injection Hc' as <-.
    simpl in Hf. by destruct (hlc_newer c (rr_clocks s !! k)); [|destruct Hf].
  - destruct (seed_fields None r Hrow I) as (r' & He & Hl & Hf). exists r'. split; [by rewrite He; apply live_Some|]. split.
    + apply map_eq. intros k. specialize (Hf k). destruct (rr_fields r !! k) as [v|]; [|by destruct Hf].
      destruct Hf as (c & _ & Hf). simpl in Hf. by destruct Hf.
    + intros k v Hv. specialize (Hf k). rewrite Hv in Hf. destruct Hf as (c & Hc & Hf). simpl in Hf. rewrite Hc. by destruct Hf.
Qed.
End reseed.

(** * Persistence *)

Section persisted.
Context {Bytes : Type} (to_vec : PersistedState -> Bytes) (from_slice : Bytes -> option PersistedState).

(** The connection flag is skipped when serializing and defaults to [false]. *)
Definition stored (s : PersistedState) : PersistedState :=
  mk_persisted (ps_v s) (ps_device_id s) (ps_server_seq s) (ps_gc_floor s) (ps_clock s) (ps_rows s)
    (set_in_flight false <$> ps_pending s).

Context (codec : forall s, from_slice (to_vec s) = Some (stored s)).

Lemma table_rebuilt t kind id : table_wf t ->
  table_lookup kind id (foldl (fun t row => table_insert row t) ∅ (table_rows t)) = table_lookup kind id t.
Proof.
  intros Hwf. rewrite table_lookup_rows.
  destruct (List.find _ _) as [r|] eqn:Hf.
  - apply List.find_some in Hf as [Hin Hk]. apply list_elem_of_In in Hin. rewrite elem_of_reverse in Hin.
    apply bool_decide_eq_true in Hk. apply elem_of_table_rows in Hin as (k & i & Hl).
    destruct (Hwf k i r Hl) as [H1 H2]. unfold row_key in Hk. congruence.
  - destruct (table_lookup kind id t) as [r|] eqn:Hl; [|by unfold table_lookup; rewrite lookup_empty]. exfalso.
    apply (List.find_none _ _) with (x := r) in Hf.
    + apply bool_decide_eq_false in Hf. apply Hf. destruct (Hwf _ _ _ Hl) as [<- <-]. done.
    + apply list_elem_of_In. rewrite elem_of_reverse. apply elem_of_table_rows. eauto.
Qed.

(** A restart loses nothing: reading back what was written gives a replica
    with the same cursor, clock and rows, and the same pending batches in the
    same order, all of them pushable again; so every row displays as before.
    A snapshot of another version is refused. *)
Theorem persisted_roundtrip d device :
  table_wf (rd_authoritative d) ->
  (exists d', from_bytes from_slice (to_bytes to_vec d) device = Ok d'
    /\ rd_server_seq d' = rd_server_seq d /\ rd_gc_floor d' = rd_gc_floor d /\ rd_clock d' = rd_clock d
    /\ payload <$> rd_pending d' = payload <$> rd_pending d
    /\ payload <$> snd (take_pushable d') = payload <$> rd_pending d
    /\ forall kind id, table_lookup kind id (rd_authoritative d') = table_lookup kind id (rd_authoritative d)
        /\ overlay_row kind id d' = overlay_row kind id d)
  /\ (forall s, ps_v s <> 1%Z -> from_bytes from_slice (to_vec s) device = Err (UnknownVersion (ps_v s))).
Proof.
  intros Hwf. split.
  - unfold from_bytes, to_bytes. rewrite codec. cbn [ok_or result_bind stored ps_v ps_rows ps_server_seq ps_gc_floor ps_clock ps_pending].
    rewrite bool_decide_false by (by intros H). eexists. split; [done|]. rewrite put_rows_rest.
    cbn [rd_server_seq rd_gc_floor rd_clock rd_pending set_rows]. split_and!; [done|done|done|apply set_in_flight_payload| |].
    + unfold take_pushable. cbn [snd rd_pending set_rows]. rewrite filter_all; [by rewrite !set_in_flight_payload|].
      by intros b (b' & -> & _)%list_elem_of_fmap.
    + intros kind id. cbn [rd_authoritative set_rows]. rewrite put_rows_table. cbn [rd_authoritative].
      rewrite table_rebuilt by done. split; [done|].
      unfold overlay_row. cbn [rd_authoritative rd_pending set_rows].
      rewrite table_rebuilt by done. f_equal. rewrite !overlay_pending_ops. f_equal.
      assert (Hp : forall q q' : list PendingBatch, payload <$> q = payload <$> q' -> pending_ops q = pending_ops q').
      { intros q. unfold pending_ops. induction q as [|b q IH]; intros [|b' q'] [=]; [done|]. rewrite !bind_cons. f_equal; [done|by apply IH]. }
      apply Hp, set_in_flight_payload.
  - intros s Hv. unfold from_bytes. rewrite codec. cbn [ok_or result_bind]. by rewrite bool_decide_true.
Qed.
End persisted.

(** * Witnesses *)

Definition demo_now (d : RegistryDoc) : Z := 1000.
Definition demo_doc : RegistryDoc :=
  upsert_session demo_now (mk_session_row "c1" "dev" Working None 5 None)
    (fst (delete_chat demo_now "c2" (claim_chat demo_now "c1" (Some "/tmp"%string) None 7 (RegistryDoc_new "dev")))).

Definition demo_ops : list RowOp := pending_ops (rd_pending demo_doc).

Lemma new_doc_inv device : doc_inv (RegistryDoc_new device).
Proof. constructor; [unfold clock_inv, clock_fits; simpl; lia|constructor..]. Qed.

Lemma pending_protocol_witness :
  let d' := enqueue_ops demo_now demo_ops (RegistryDoc_new "dev") in
  length demo_ops = 4 /\ doc_inv d'
  /\ payload <$> snd (take_pushable (mark_disconnected (fst (take_pushable d')))) = payload <$> rd_pending d'.
Proof.
  intros d'. split; [vm_compute; reflexivity|].
  assert (Hr : room 1000 (length demo_ops + 5000) (RegistryDoc_new "dev")).
  { assert (length demo_ops = 4) as -> by (vm_compute; reflexivity). unfold room. simpl. lia. }
  destruct (pending_protocol demo_now 1000 (fun _ => Z.le_refl 1000) demo_ops 5000 (RegistryDoc_new "dev") (new_doc_inv "dev") Hr)
    as (Hi & _ & _ & _ & H & _).
  fold d' in Hi, H. split; [exact Hi|]. destruct (take_pushable d') as [d1 out]. destruct H as (_ & _ & _ & H). exact H.
Defined.

Lemma local_writes_visible_witness :
  rr_fields <$> overlay_row KIND_SESSIONS "c1" demo_doc <> None
  /\ exists r, overlay_row KIND_SESSIONS "c1" (write demo_now KIND_SESSIONS "c1" Upsert {["status"%string := Str "idle"]} demo_doc) = Some r
       /\ rr_fields r !! "status"%string = Some (Str "idle") /\ rr_fields r !! "chatId"%string = Some (Str "c1").
Proof.
  split; [vm_compute; discriminate|].
  destruct (local_writes_visible demo_now KIND_SESSIONS "c1" Upsert {["status"%string := Str "idle"]} [] demo_doc) as (_ & _ & H & _);
    [discriminate| |].
  - intros r c Hr Hc. pose proof (proj2 (max_clock_newer (fst (next_hlc demo_now demo_doc)) r)) as Hm.
    apply (proj1 (max_clock_newer (fst (next_hlc demo_now demo_doc)) r)); [|exact Hc]. clear Hm Hc.
    vm_compute in Hr. injection Hr as <-. vm_compute. reflexivity.
  - destruct H as (r & H1 & H2). exists r. split; [exact H1|]. rewrite H2. split; vm_compute; reflexivity.
Defined.

Definition demo_known : RegistryDoc := put_rows [demo_row] (RegistryDoc_new "dev").

Lemma demo_known_wf : table_wf (rd_authoritative demo_known).
Proof. unfold demo_known. rewrite put_rows_table. apply table_insert_wf. intros kind id r H. discriminate H. Qed.

Lemma reseed_keeps_rows_witness :
  let '(d', outcome) := apply_state demo_now 3 true 0 [] demo_known in
  outcome = Reseeded /\ exists r', overlay_row "chats" "c1" d' = Some r' /\ rr_fields r' = rr_fields demo_row.
Proof.
  pose proof (reseed_keeps_rows demo_now 3 0 [] "chats" "c1" demo_row demo_known demo_known_wf) as H.
  assert (Hl : table_lookup "chats" "c1" (rd_authoritative demo_known) = Some demo_row) by (vm_compute; reflexivity).
  assert (Hw : row_wf demo_row).
  { split; [reflexivity|]. intros k v Hk. unfold demo_row in *. cbn [rr_fields rr_clocks] in *.
    apply lookup_singleton_Some in Hk as [<- <-]. split; [discriminate|]. rewrite lookup_singleton_eq. by eexists. }
  specialize (H Hl Hw (Forall_nil_2 _) (or_intror eq_refl)).
  assert (Hn : table_lookup "chats" "c1" (rd_authoritative (fst (apply_state demo_now 3 true 0 [] demo_known))) = None) by (vm_compute; reflexivity).
  destruct (apply_state demo_now 3 true 0 [] demo_known) as [d' outcome]. cbn [fst] in Hn.
  destruct H as (Ho & _ & _ & H). rewrite Hn in H. destruct H as (r' & H1 & H2 & _). split; [exact Ho|]. exists r'. split; [exact H1|exact H2].
Defined.

Lemma persisted_roundtrip_witness :
  exists d', from_bytes Some (to_bytes stored demo_known) "dev2" = Ok d' /\ overlay_row "chats" "c1" d' = Some demo_row.
Proof.
  destruct (persisted_roundtrip stored Some (fun _ => eq_refl) demo_known "dev2" demo_known_wf) as [(d' & H1 & _ & _ & _ & _ & _ & H2) _].
  exists d'. split; [exact H1|]. destruct (H2 "chats"%string "c1"%string) as [_ H3]. rewrite H3. vm_compute. reflexivity.
Defined.

(** * Where the code departs from its comments *)

(** A re-push is not a no-op once the row was deleted and revived: the field of
    the old write has no clock any more, so the old value comes back. *)
Lemma replay_after_revival_resurrects :
  let old := mk_op "chats" "c" Upsert (Some {["title"%string := Str "old"]}) (encode_hlc 10 0 "a") None in
  let gone := mk_op "chats" "c" Delete None (encode_hlc 20 0 "b") None in
  let again := mk_op "chats" "c" Upsert (Some {["id"%string := Str "c"]}) (encode_hlc 30 0 "b") None in
  let served := fst (apply_op (fst (apply_op (fst (apply_op None old)) gone)) again) in
  (r ← served; rr_fields r !! "title"%string) = None
  /\ (r ← fst (apply_op served old); rr_fields r !! "title"%string) = Some (Str "old").
Proof. split; vm_compute; reflexivity. Qed.

(** A field cleared by a newer write comes back from an older one after a
    re-seed: only the clocks of present fields travel. *)
Lemma seed_forgets_cleared_clock :
  let row := mk_row "chats" "c" 1 false None ∅ {["title"%string := encode_hlc 20 0 "a"]} in
  let old := mk_op "chats" "c" Update (Some {["title"%string := Str "old"]}) (encode_hlc 10 0 "b") None in
  fst (apply_op (Some row) old) = Some row
  /\ (r ← fst (apply_op (fst (apply_op None (row_to_seed_op row))) old); rr_fields r !! "title"%string) = Some (Str "old").
Proof. split; [|vm_compute; reflexivity]. vm_compute. reflexivity. Qed.

(** A pending update of a row that has to be re-seeded is lost: it is replayed
    before the seed, on a row that does not exist yet. *)
Lemma reseed_drops_pending_update :
  let d := fst (rename_chat demo_now "c1" "renamed" demo_known) in
  (r ← overlay_row "chats" "c1" d; rr_fields r !! "title"%string) = Some (Str "renamed")
  /\ (r ← overlay_row "chats" "c1" (fst (apply_state demo_now 3 true 0 [] d)); rr_fields r !! "title"%string) = Some (Str "a").
Proof. split; vm_compute; reflexivity. Qed.
