(* ===== verification/RegistrySync.v ===== *)
(** The registry room and its replicas: the frames of
    [crates/sync/src/registry.rs], the merging room of
    [crates/sync/src/registry/mock_server.rs], and the whole system of replicas
    over ordered, lossy connections.

    A connection is two queues that a disconnection throws away; presence,
    probes and timers do not touch the registry and are not modelled. *)
From Stdlib Require Import ZArith Lia Ascii String.
From stdpp Require Import base tactics numbers countable list strings gmap.
From S2P Require Import Prelude Json Text Proto Registry RegistryDoc.
Open Scope keel_scope.

(** * Frames *)

Inductive ServerFrame :=
| FState (seq : Z) (full : bool) (gc_floor : Z) (rows : list RegistryRow)
| FRows (seq : Z) (rows : list RegistryRow)
| FAck (batch : string) (seq : Z) (applied : Z)
| FPresence (device : string) (at_ : Z)
| FProbeOk (seq : Z)
| FError (code message : string).

Definition handle_frame (now_ms : RegistryDoc -> Z) (frame : ServerFrame) (d : RegistryDoc) : RegistryDoc :=
  match frame with
  | FRows seq rows => apply_rows seq rows d
  | FAck batch seq _ => fst (ack_batch batch seq d)
  | FState seq full gc_floor rows => fst (apply_state now_ms seq full gc_floor rows d)
  | FPresence _ _ | FProbeOk _ | FError _ _ => d
  end.

(** A replica that never did anything asks for the full state. *)
Definition hello_cursor (d : RegistryDoc) : option Z :=
  if bool_decide (rd_server_seq d = 0%Z) && bool_decide (rd_pending d = []) && bool_decide (rd_generation d = 0%Z)
  then None else Some (rd_server_seq d).

(** * The room *)

Record Room := mk_room { rm_rows : gmap (string * string) RegistryRow; rm_seq : Z; rm_gc_floor : Z }.

Definition room_hello (cursor : option Z) (s : Room) : ServerFrame :=
  let full := match cursor with None => true | Some c => (c <? rm_gc_floor s)%Z || (rm_seq s <? c)%Z end in
  let rows := filter (fun r => full = true \/ (default 0 cursor < rr_seq r)%Z) (map_to_list (rm_rows s)).*2 in
  FState (rm_seq s) full (rm_gc_floor s) rows.

Definition same_row (kind id : string) (r : RegistryRow) : bool :=
  bool_decide (rr_kind r = kind) && bool_decide (rr_id r = id).

(** One operation of a pushed batch, over the rows touched so far. *)
Definition push_op (s : Room) (next_seq : Z) (st : list RegistryRow * Z) (op : RowOp) : list RegistryRow * Z :=
  let '(touched, applied) := st in
  let before :=
    match List.find (same_row (ro_kind op) (ro_id op)) touched with
    | Some r => Some r
    | None => rm_rows s !! (ro_kind op, ro_id op)
    end in
  match apply_op before op with
  | (Some next, true) =>
      let next := set_seq next_seq next in
      (filter (fun r => same_row (rr_kind next) (rr_id next) r = false) touched ++ [next], u64_succ applied)
  | _ => st
  end.

Definition room_push (batch : string) (ops : list RowOp) (s : Room) : Room * option ServerFrame * ServerFrame :=
  let next_seq := u64_succ (rm_seq s) in
  let '(touched, applied) := foldl (push_op s next_seq) ([], 0%Z) ops in
  let s' :=
    if (0 <? applied)%Z then
      mk_room (foldl (fun m row => <[(rr_kind row, rr_id row) := row]> m) (rm_rows s) touched) next_seq (rm_gc_floor s)
    else s in
  (s', (if (0 <? applied)%Z then Some (FRows (rm_seq s') touched) else None), FAck batch (rm_seq s') applied).

(** * One push *)

Definition find_row (key : string * string) (rows : list RegistryRow) : option RegistryRow :=
  List.find (fun r => bool_decide (row_key r = key)) rows.

Lemma find_row_Some key rows r : NoDup (row_key <$> rows) -> find_row key rows = Some r <-> r ∈ rows /\ row_key r = key.
Proof.
  intros Hnd. split.
  - intros [H1 H2]%List.find_some. split; [by apply list_elem_of_In|by apply bool_decide_eq_true in H2].
  - intros [Hin Hk]. induction rows as [|r' rows IH]; [by apply elem_of_nil in Hin|].
    rewrite fmap_cons in Hnd. apply NoDup_cons in Hnd as [Hn Hnd]. unfold find_row. cbn [List.find]. case_bool_decide as Hk'.
    + apply elem_of_cons in Hin as [->|Hin]; [done|]. exfalso. apply Hn. rewrite Hk', <- Hk. by apply list_elem_of_fmap_2.
    + apply elem_of_cons in Hin as [->|Hin]; [done|]. by apply IH.
Qed.

Lemma find_row_None key rows : find_row key rows = None <-> key ∉ row_key <$> rows.
Proof.
  unfold find_row. split.
  - intros H Hin. apply list_elem_of_fmap in Hin as (r & -> & Hin). apply list_elem_of_In in Hin.
    apply (List.find_none _ _ H) in Hin. by apply bool_decide_eq_false in Hin.
  - intros Hn. destruct (List.find _ rows) as [r|] eqn:E; [|done]. exfalso. apply List.find_some in E as [Hin Hk].
    apply bool_decide_eq_true in Hk. apply Hn. rewrite <- Hk. by apply list_elem_of_fmap_2, list_elem_of_In.
Qed.

Lemma find_row_reverse key rows : NoDup (row_key <$> rows) -> find_row key (reverse rows) = find_row key rows.
Proof.
  intros Hnd. assert (Hr : NoDup (row_key <$> reverse rows)) by by rewrite reverse_Permutation.
  destruct (find_row key rows) as [r|] eqn:E.
  - apply find_row_Some in E as [Hin Hk]; [|done]. apply find_row_Some; [done|]. by rewrite elem_of_reverse.
  - apply find_row_None. rewrite fmap_reverse, elem_of_reverse. by apply find_row_None.
Qed.

Lemma same_row_key kind id r : same_row kind id r = bool_decide (row_key r = (kind, id)).
Proof. unfold same_row, row_key. repeat case_bool_decide; simpl; done || naive_solver. Qed.

Lemma find_same_row kind id rows : List.find (same_row kind id) rows = find_row (kind, id) rows.
Proof. induction rows as [|r rows IH]; [done|]. unfold find_row in *. cbn [List.find]. rewrite same_row_key, IH. done. Qed.

Lemma find_row_replace key r rows :
  find_row key (filter (fun r' => same_row (rr_kind r) (rr_id r) r' = false) rows ++ [r]) =
  if decide (row_key r = key) then Some r else find_row key rows.
Proof.
  induction rows as [|r' rows IH].
  - unfold find_row. simpl. by case_bool_decide; case_decide.
  - rewrite filter_cons. rewrite same_row_key. destruct (decide (row_key r' = (rr_kind r, rr_id r))) as [Hs|Hs].
    + rewrite bool_decide_true, decide_False by done. rewrite IH. unfold find_row at 2. cbn [List.find].
      case_decide as Hk; [done|]. by rewrite bool_decide_false by (rewrite Hs; exact Hk).
    + rewrite bool_decide_false, decide_True by done. unfold find_row in *. rewrite <- app_comm_cons. cbn [List.find].
      case_bool_decide as Hk; [|apply IH]. rewrite decide_False; [done|]. intros Hk'. apply Hs. by rewrite Hk, <- Hk'.
Qed.

(** Rows filed under their own key, with numbers the room has given out. *)
Definition room_wf (s : Room) : Prop :=
  (0 <= rm_seq s < u64_modulus)%Z
  /\ forall key r, rm_rows s !! key = Some r -> row_key r = key /\ (0 < rr_seq r <= rm_seq s)%Z.

Definition view (s : Room) (touched : list RegistryRow) (key : string * string) : option RegistryRow :=
  match find_row key touched with Some r => Some r | None => rm_rows s !! key end.

Lemma apply_op_key row op r ch :
  (forall r, row = Some r -> row_key r = op_key op) -> apply_op row op = (Some r, ch) -> row_key r = op_key op.
Proof.
  intros Hrow E. destruct row as [r0|].
  - destruct (apply_op_Some r0 op) as (r' & He & Hk & Hi). rewrite E in He. injection He as <-.
    rewrite <- (Hrow r0 eq_refl). unfold row_key. by rewrite Hk, Hi.
  - revert E. unfold apply_op. case_bool_decide as Hd; [by intros [= <- <-]|].
    destruct (write_base None op) as [[early ch']|base] eqn:Hb.
    + unfold apply_write. rewrite Hb. intros [= -> ->]. unfold write_base in Hb. by case_bool_decide.
    + destruct (apply_write_spec None op base Hb) as (f & c & _ & ->). intros [= <- _].
      unfold write_base in Hb. case_bool_decide; by simplify_eq.
Qed.

(** The invariant of the room's loop over a batch. *)
Record push_inv (s : Room) (next_seq : Z) (ops : list RowOp) (touched : list RegistryRow) (applied : Z) : Prop := {
  pi_keys : NoDup (row_key <$> touched);
  pi_seq : Forall (fun r => rr_seq r = next_seq) touched;
  pi_view : forall kind id, view s touched (kind, id) ≡ foldl (overlay_step kind id) (rm_rows s !! (kind, id)) ops;
  pi_applied : (0 <= applied <= Z.of_nat (length ops))%Z /\ (applied = 0%Z <-> touched = []);
}.

Lemma push_op_inv s next_seq ops touched applied op :
  room_wf s -> (Z.of_nat (length (ops ++ [op])) < u64_modulus)%Z -> push_inv s next_seq ops touched applied ->
  let '(touched', applied') := push_op s next_seq (touched, applied) op in
  push_inv s next_seq (ops ++ [op]) touched' applied'.
Proof.
  intros [_ Hwf] Hlen [Hnd Hsq Hv [Ha0 Ha1]]. rewrite length_app in Hlen. cbn [length] in Hlen. unfold push_op.
  rewrite find_same_row. change (match find_row _ touched with Some r => Some r | None => _ end) with (view s touched (ro_kind op, ro_id op)).
  assert (Hkey : forall r, view s touched (ro_kind op, ro_id op) = Some r -> row_key r = op_key op).
  { intros r. unfold view. destruct (find_row _ touched) as [r'|] eqn:E.
    - intros [= <-]. by apply find_row_Some in E as [_ ?].
    - intros Hr. by destruct (Hwf _ _ Hr). }
  assert (Hview : forall kind id, foldl (overlay_step kind id) (rm_rows s !! (kind, id)) (ops ++ [op])
            ≡ if decide (touches kind id op) then fst (apply_op (view s touched (kind, id)) op) else view s touched (kind, id)).
  { intros kind id. rewrite foldl_app. cbn [foldl]. rewrite overlay_step_eq.
    case_decide; [|by rewrite Hv]. apply (apply_op_proper op). by rewrite Hv. }
  destruct (apply_op (view s touched (ro_kind op, ro_id op)) op) as [[next|] []] eqn:E.
  - assert (Hk : row_key (set_seq next_seq next) = op_key op).
    { change (row_key (set_seq next_seq next)) with (row_key next). by apply (apply_op_key _ _ _ _ Hkey E). }
    set (next' := set_seq next_seq next) in *. constructor.
    + rewrite fmap_app. apply NoDup_app. split_and!; [|  |by apply NoDup_singleton].
      * eapply sublist_NoDup; [exact Hnd|]. apply fmap_sublist, sublist_filter.
      * intros key (r & -> & Hr)%list_elem_of_fmap Hin. apply list_elem_of_singleton in Hin.
        apply list_elem_of_filter in Hr as [Hr _]. rewrite same_row_key in Hr. by apply bool_decide_eq_false in Hr.
    + apply Forall_app. split; [|by constructor]. apply Forall_forall. intros r [_ Hr]%list_elem_of_filter.
      rewrite Forall_forall in Hsq. by apply Hsq.
    + intros kind id. rewrite Hview. unfold view at 1. rewrite find_row_replace, Hk.
      destruct (decide (touches kind id op)) as [[<- <-]|Ht].
      * rewrite decide_True by done. rewrite E. constructor. unfold equiv, row_equiv. by destruct next.
      * rewrite decide_False by by rewrite touches_key in Ht. reflexivity.
    + unfold u64_succ. rewrite u64_add_small by lia. rewrite length_app. cbn [length]. split; [lia|].
      split; [lia|]. by intros [_ ?]%app_eq_nil.
  - constructor; [done|done| |rewrite length_app; split; [lia|done]]. intros kind id. rewrite Hview.
    case_decide as Ht; [|reflexivity]. destruct Ht as [<- <-].
    pose proof (apply_op_lww (view s touched (ro_kind op, ro_id op)) op) as H. rewrite E in *. destruct H as [H _].
    cbn [fst]. destruct (decide (Some next = view s touched (ro_kind op, ro_id op))) as [->|Hne]; [done|]. by apply H in Hne.
  - constructor; [done|done| |rewrite length_app; split; [lia|done]]. intros kind id. rewrite Hview.
    case_decide as Ht; [|reflexivity]. destruct Ht as [<- <-]. rewrite E. simpl.
    destruct (view s touched (ro_kind op, ro_id op)) as [r|] eqn:Ev; [|done].
    by destruct (apply_op_Some r op) as (r' & He & _); rewrite E in He.
  - constructor; [done|done| |rewrite length_app; split; [lia|done]]. intros kind id. rewrite Hview.
    case_decide as Ht; [|reflexivity]. destruct Ht as [<- <-]. rewrite E. simpl.
    destruct (view s touched (ro_kind op, ro_id op)) as [r|] eqn:Ev; [|done].
    by destruct (apply_op_Some r op) as (r' & He & _); rewrite E in He.
Qed.

Lemma push_ops_inv s next_seq ops :
  room_wf s -> (Z.of_nat (length ops) < u64_modulus)%Z ->
  let '(touched, applied) := foldl (push_op s next_seq) ([], 0%Z) ops in push_inv s next_seq ops touched applied.
Proof.
  intros Hwf. induction ops as [|op ops IH] using rev_ind; intros Hlen.
  - constructor; [constructor|constructor|intros; reflexivity|done].
  - rewrite foldl_app. cbn [foldl]. specialize (IH ltac:(rewrite length_app in Hlen; lia)).
    destruct (foldl _ _ ops) as [touched applied]. by apply push_op_inv.
Qed.

Lemma rows_insert_lookup (key : string * string) (rows : list RegistryRow) (m : gmap (string * string) RegistryRow) :
  foldl (fun m row => <[(rr_kind row, rr_id row) := row]> m) m rows !! key =
  match find_row key (reverse rows) with Some r => Some r | None => m !! key end.
Proof.
  revert m. induction rows as [|row rows IH] using rev_ind; intros m; [done|].
  rewrite foldl_app, reverse_snoc. cbn [foldl]. unfold find_row. cbn [List.find]. change (rr_kind row, rr_id row) with (row_key row).
  case_bool_decide as Hk; [rewrite <- Hk; apply lookup_insert_eq|]. rewrite lookup_insert_ne by done. apply IH.
Qed.

Lemma table_insert_lookup (key : string * string) (rows : list RegistryRow) t :
  table_lookup key.1 key.2 (foldl (fun t row => table_insert row t) t rows) =
  match find_row key (reverse rows) with Some r => Some r | None => table_lookup key.1 key.2 t end.
Proof. rewrite table_lookup_rows. by destruct key. Qed.

(** What one push does to the room: every row becomes the merge of the batch
    into it, and the broadcast carries exactly the rows that changed. *)
Lemma room_push_spec batch ops s :
  room_wf s -> (Z.of_nat (length ops) < u64_modulus)%Z -> (rm_seq s + 1 < u64_modulus)%Z ->
  let '(s', rows, ack) := room_push batch ops s in
  exists touched applied, NoDup (row_key <$> touched) /\ Forall (fun r => rr_seq r = rm_seq s + 1)%Z touched
  /\ (rows = None /\ touched = [] /\ s' = s \/ rows = Some (FRows (rm_seq s + 1) touched) /\ rm_seq s' = (rm_seq s + 1)%Z)
  /\ ack = FAck batch (rm_seq s') applied /\ rm_gc_floor s' = rm_gc_floor s
  /\ (forall key, rm_rows s' !! key = view s touched key)
  /\ room_wf s'
  /\ (forall kind id, rm_rows s' !! (kind, id) ≡ foldl (overlay_step kind id) (rm_rows s !! (kind, id)) ops).
Proof.
  intros Hwf Hlen Hroom. unfold room_push.
  assert (Hns : u64_succ (rm_seq s) = (rm_seq s + 1)%Z) by (apply u64_add_small; destruct Hwf; lia). rewrite Hns.
  pose proof (push_ops_inv s (rm_seq s + 1)%Z ops Hwf Hlen) as Hinv.
  destruct (foldl _ ([], 0%Z) ops) as [touched applied]. destruct Hinv as [Hnd Hsq Hv [Ha0 Ha1]].
  exists touched, applied. destruct (0 <? applied)%Z eqn:E.
  - assert (Hrows : forall key, foldl (fun m row => <[(rr_kind row, rr_id row) := row]> m) (rm_rows s) touched !! key = view s touched key).
    { intros key. rewrite rows_insert_lookup, find_row_reverse by done. done. }
    split_and!; try done; cbn [rm_rows rm_seq rm_gc_floor]; [by right| |].
    + destruct Hwf as [Hs Hwf]. split; cbn [rm_seq rm_rows]; [lia|]. intros key r. rewrite Hrows. unfold view.
      destruct (find_row key touched) as [r'|] eqn:Ef.
      * intros [= <-]. apply find_row_Some in Ef as [Hin Hk]; [|done]. rewrite Forall_forall in Hsq. rewrite (Hsq _ Hin).
        split; [done|lia].
      * intros Hr. destruct (Hwf _ _ Hr) as [Hk Hb]. split; [done|lia].
    + intros kind id. rewrite Hrows. apply Hv.
  - assert (touched = []) as -> by (apply Ha1; lia). split_and!; try done. by left.
Qed.

(** * A replica against the room *)

(** What a replica with cursor [c] knows: every row the room last touched at
    or below the cursor, and no row the room never had. *)
Definition synced (t : Table) (c : Z) (s : Room) : Prop :=
  (0 <= c <= rm_seq s)%Z
  /\ forall key, match rm_rows s !! key with
     | None => table_lookup key.1 key.2 t = None
     | Some r => (rr_seq r <= c)%Z -> table_lookup key.1 key.2 t = Some r
     end.

Definition rows_of (s : Room) (t : Table) : Prop := forall key, table_lookup key.1 key.2 t = rm_rows s !! key.

Lemma synced_exact t s : room_wf s -> synced t (rm_seq s) s <-> rows_of s t.
Proof.
  intros [Hb Hwf]. split.
  - intros [_ H] key. specialize (H key). destruct (rm_rows s !! key) as [r|] eqn:E; [|done]. apply H. by apply (Hwf key).
  - intros H. split; [lia|]. intros key. rewrite H. by destruct (rm_rows s !! key).
Qed.

Lemma synced_push t c s s' touched :
  room_wf s -> synced t c s -> (forall key, rm_rows s' !! key = view s touched key) -> (rm_seq s <= rm_seq s')%Z ->
  Forall (fun r => rr_seq r = rm_seq s + 1)%Z touched -> NoDup (row_key <$> touched) -> synced t c s'.
Proof.
  intros Hwf [Hc H] Hrows Hseq Hsq Hnd. split; [lia|]. intros key. rewrite Hrows. unfold view. specialize (H key).
  destruct (find_row key touched) as [r|] eqn:Ef; [|done].
  apply find_row_Some in Ef as [Hin _]; [|done]. rewrite Forall_forall in Hsq. rewrite (Hsq _ Hin). lia.
Qed.

(** The frames on their way to a replica bring it, one by one and in order, up
    to date with the room. *)
Fixpoint queue_ok (s : Room) (t : Table) (c : Z) (q : list ServerFrame) : Prop :=
  synced t c s /\
  match q with
  | [] => c = rm_seq s
  | FRows seq rows :: q => seq = (c + 1)%Z /\ queue_ok s (foldl (fun t row => table_insert row t) t rows) seq q
  | FAck _ seq _ :: q => seq = c /\ queue_ok s t c q
  | FState seq full _ rows :: q =>
      (c <= seq)%Z
      /\ (full = true -> forall key, is_Some (table_lookup key.1 key.2 t) ->
            is_Some (table_lookup key.1 key.2 (foldl (fun t row => table_insert row t) ∅ rows)))
      /\ queue_ok s (foldl (fun t row => table_insert row t) (if full then ∅ else t) rows) seq q
  | _ :: q => queue_ok s t c q
  end.

Lemma queue_synced s t c q : queue_ok s t c q -> synced t c s.
Proof. by destruct q as [|[] q]; intros [? _]. Qed.

Lemma queue_push s s' touched t c q :
  room_wf s -> room_wf s' -> (forall key, rm_rows s' !! key = view s touched key) -> rm_seq s' = (rm_seq s + 1)%Z ->
  Forall (fun r => rr_seq r = rm_seq s + 1)%Z touched -> NoDup (row_key <$> touched) ->
  queue_ok s t c q -> queue_ok s' t c (q ++ [FRows (rm_seq s + 1) touched]).
Proof.
  intros Hwf Hwf' Hrows Hseq Hsq Hnd. revert t c. induction q as [|f q IH]; intros t c H.
  - destruct H as [Hs ->]. assert (Hs' : synced t (rm_seq s) s') by (apply (synced_push t _ s s' touched); done || lia).
    split; [done|]. split; [done|]. split; [|by rewrite Hseq]. rewrite <- Hseq. apply synced_exact; [done|].
    intros key. rewrite table_insert_lookup, find_row_reverse, Hrows by done. unfold view.
    destruct (find_row key touched); [done|]. apply synced_exact in Hs; [|done]. apply Hs.
  - rewrite <- app_comm_cons. pose proof (queue_synced _ _ _ _ H) as Hs.
    assert (Hs' : synced t c s') by (apply (synced_push t c s s' touched); done || lia).
    destruct f; cbn [queue_ok] in *; (split; [done|]); destruct H as [_ H]; try (by apply IH).
    + destruct H as (? & ? & ?). split_and!; [done|done|by apply IH].
    + destruct H as [? ?]. split; [done|by apply IH].
    + destruct H as [? ?]. split; [done|by apply IH].
Qed.

Lemma queue_ack s t c q batch applied : queue_ok s t c q -> queue_ok s t c (q ++ [FAck batch (rm_seq s) applied]).
Proof.
  revert t c. induction q as [|f q IH]; intros t c H.
  - destruct H as [Hs ->]. by split_and!.
  - rewrite <- app_comm_cons. pose proof (queue_synced _ _ _ _ H) as Hs.
    destruct f; cbn [queue_ok] in *; (split; [done|]); destruct H as [_ H]; try (by apply IH).
    + destruct H as (? & ? & ?). split_and!; [done|done|by apply IH].
    + destruct H as [? ?]. split; [done|by apply IH].
    + destruct H as [? ?]. split; [done|by apply IH].
Qed.

Lemma elem_of_room_rows s r : room_wf s -> r ∈ (map_to_list (rm_rows s)).*2 <-> rm_rows s !! row_key r = Some r.
Proof.
  intros [_ Hwf]. rewrite list_elem_of_fmap. split.
  - intros ([key r'] & -> & Hin). apply elem_of_map_to_list in Hin. simpl. by destruct (Hwf _ _ Hin) as [-> _].
  - intros H. exists (row_key r, r). split; [done|]. by apply elem_of_map_to_list.
Qed.

Lemma room_rows_NoDup s : room_wf s -> NoDup (row_key <$> (map_to_list (rm_rows s)).*2).
Proof.
  intros [_ Hwf]. rewrite <- list_fmap_compose.
  rewrite (list_fmap_ext _ fst); [apply NoDup_fst_map_to_list|]. intros i [key r] Hi.
  apply list_elem_of_lookup_2, elem_of_map_to_list in Hi. by destruct (Hwf _ _ Hi).
Qed.

(** The answer to a hello brings the replica fully up to date. *)
Lemma queue_hello s d : room_wf s -> rm_gc_floor s = 0%Z -> synced (rd_authoritative d) (rd_server_seq d) s ->
  queue_ok s (rd_authoritative d) (rd_server_seq d) [room_hello (hello_cursor d) s].
Proof.
  intros Hwf Hgc Hs. pose proof Hs as [Hc Hkeys]. unfold room_hello. rewrite Hgc.
  set (full := match hello_cursor d with None => true | Some c => _ end).
  assert (Hcur : default 0%Z (hello_cursor d) = rd_server_seq d /\ (full = true -> rd_server_seq d = 0%Z)).
  { subst full. unfold hello_cursor. destruct (_ && _) eqn:E; [|simpl; split; [done|intros [?|?]%orb_true_iff; lia]].
    apply andb_true_iff in E as [[E _]%andb_true_iff _]. apply bool_decide_eq_true in E. by rewrite E. }
  destruct Hcur as [-> Hfull]. set (rows := filter _ _).
  assert (Hnd : NoDup (row_key <$> rows)) by (eapply sublist_NoDup; [by apply (room_rows_NoDup s)|]; apply fmap_sublist, sublist_filter).
  assert (Hin : forall r, r ∈ rows <-> rm_rows s !! row_key r = Some r /\ (full = true \/ (rd_server_seq d < rr_seq r)%Z)).
  { intros r. unfold rows. rewrite list_elem_of_filter, elem_of_room_rows by done. tauto. }
  assert (Hfind : forall key, match rm_rows s !! key with
    | Some r => if decide (full = true \/ (rd_server_seq d < rr_seq r)%Z) then find_row key rows = Some r else find_row key rows = None
    | None => find_row key rows = None end).
  { intros key. destruct Hwf as [_ Hwf]. destruct (rm_rows s !! key) as [r|] eqn:E.
    - destruct (Hwf _ _ E) as [<- _]. case_decide as Hd; [apply find_row_Some; [done|]; split; [|done]; by apply Hin|].
      apply find_row_None. intros (r' & Heq & Hr')%list_elem_of_fmap. apply Hin in Hr' as [Hr' Hd']. rewrite <- Heq in Hr'. congruence.
    - apply find_row_None. intros (r' & -> & Hr')%list_elem_of_fmap. apply Hin in Hr' as [Hr' _]. congruence. }
  assert (Hexact : rows_of s (foldl (fun t row => table_insert row t) (if full then ∅ else rd_authoritative d) rows)).
  { intros key. rewrite table_insert_lookup, find_row_reverse by done. specialize (Hfind key). specialize (Hkeys key).
    destruct (rm_rows s !! key) as [r|].
    - destruct (decide (full = true \/ _)) as [Hd|Hd]; rewrite Hfind; [done|].
      destruct full; [by destruct Hd; left|]. apply Hkeys. destruct (decide (rr_seq r <= rd_server_seq d)%Z); [done|]. destruct Hd. right. lia.
    - rewrite Hfind. by destruct full. }
  cbn [queue_ok]. split_and!; [done|lia| | |done].
  - intros Hf key [r Hr]. specialize (Hexact key). rewrite Hf in Hexact. rewrite Hexact. specialize (Hkeys key).
    destruct (rm_rows s !! key); [done|congruence].
  - by apply synced_exact.
Qed.

Section delivery.
Context (now_ms : RegistryDoc -> Z).

Lemma local_only_nil incoming t :
  (forall key, is_Some (table_lookup key.1 key.2 t) -> is_Some (table_lookup key.1 key.2 incoming)) -> local_only incoming t = [].
Proof.
  intros H. destruct (local_only incoming t) as [|r l] eqn:E; [done|]. exfalso.
  assert (Hin : r ∈ local_only incoming t) by (rewrite E; by left).
  unfold local_only in Hin. apply list_elem_of_bind in Hin as ([kind m] & Hr & Hm). apply elem_of_map_to_list in Hm.
  apply list_elem_of_fmap in Hr as ([id r'] & -> & Hr). apply list_elem_of_filter in Hr as [Hn Hr]. simpl in *.
  apply elem_of_map_to_list in Hr. destruct (H (kind, id)) as [x Hx]; [|simpl in Hx; congruence].
  exists r'. unfold table_lookup. simpl. by rewrite Hm.
Qed.

(** Delivering the next frame. *)
Lemma deliver_frame s d f q :
  queue_ok s (rd_authoritative d) (rd_server_seq d) (f :: q) ->
  let d' := handle_frame now_ms f d in
  queue_ok s (rd_authoritative d') (rd_server_seq d') q
  /\ rd_pending d' = (match f with FAck batch _ _ => filter (fun b => pb_batch b <> batch) (rd_pending d) | _ => rd_pending d end)
  /\ rd_clock d' = rd_clock d /\ rd_device_id d' = rd_device_id d.
Proof.
  intros H. destruct f; cbn [queue_ok handle_frame] in *; destruct H as [Hs H]; try by split_and!.
  - destruct H as (Hc & Hfull & Hq). unfold apply_state. cbn [rd_server_seq bump_generation rd_authoritative].
    destruct full; cbn [negb].
    + destruct (seq <? rd_server_seq d)%Z eqn:E; [lia|]. set (incoming := foldl _ ∅ rows) in *.
      change (map_to_list (rd_authoritative d) ≫= _) with (local_only incoming (rd_authoritative d)).
      rewrite local_only_nil by by apply Hfull. by split_and!.
    + rewrite put_rows_rest, put_rows_table. by split_and!.
  - destruct H as [-> Hq]. unfold apply_rows. rewrite put_rows_rest, put_rows_table. cbn [rd_server_seq set_rows bump_generation rd_authoritative].
    destruct (rd_server_seq d <? rd_server_seq d + 1)%Z eqn:E; [|lia]. by split_and!.
  - destruct H as [-> Hq]. pose proof (ack_batch_spec batch (rd_server_seq d) d) as Ha.
    destruct (ack_batch batch (rd_server_seq d) d) as [d1 existed]. destruct Ha as (H1 & H2 & H3 & H4 & H5 & _). cbn [fst].
    rewrite H2, H5, Z.max_id. by split_and!.
Qed.
End delivery.

(** * The system *)

Definition Push : Type := string * list RowOp.
Record Client := mk_client { cl_doc : RegistryDoc; cl_link : option (list Push * list ServerFrame) }.
(** [sy_issued] and [sy_log] record, per replica, the batches ever written and
    the batches the room has merged, in order. *)
Record System := mk_system {
  sy_room : Room; sy_clients : gmap string Client; sy_issued : list (string * Push); sy_log : list (string * Push)
}.

Definition send_down (f : option ServerFrame) (c : Client) : Client :=
  match f, cl_link c with
  | Some f, Some (up, down) => mk_client (cl_doc c) (Some (up, down ++ [f]))
  | _, _ => c
  end.

Section system.
Context (now_ms : RegistryDoc -> Z) (bound : Z).

(** Any local writer: a tick, then the operations stamped with it. *)
Definition local_write (mk : string -> list RowOp) (d : RegistryDoc) : RegistryDoc :=
  let '(hlc, d) := next_hlc now_ms d in enqueue_ops now_ms (mk hlc) d.
Definition local_ops (mk : string -> list RowOp) (d : RegistryDoc) : list RowOp := mk (fst (next_hlc now_ms d)).

Inductive step : System -> System -> Prop :=
| Step_write i c mk sy :
    sy_clients sy !! i = Some c -> room bound (S (length (local_ops mk (cl_doc c)))) (cl_doc c) ->
    let d := local_write mk (cl_doc c) in
    step sy (mk_system (sy_room sy) (<[i := mk_client d (cl_link c)]> (sy_clients sy))
      (sy_issued sy ++ (pair i ∘ payload <$> drop (length (rd_pending (cl_doc c))) (rd_pending d))) (sy_log sy))
| Step_connect i c sy :
    sy_clients sy !! i = Some c -> cl_link c = None ->
    step sy (mk_system (sy_room sy)
      (<[i := mk_client (cl_doc c) (Some ([], [room_hello (hello_cursor (cl_doc c)) (sy_room sy)]))]> (sy_clients sy))
      (sy_issued sy) (sy_log sy))
| Step_push i c up down d out sy :
    sy_clients sy !! i = Some c -> cl_link c = Some (up, down) -> take_pushable (cl_doc c) = (d, out) ->
    step sy (mk_system (sy_room sy) (<[i := mk_client d (Some (up ++ (payload <$> out), down))]> (sy_clients sy))
      (sy_issued sy) (sy_log sy))
| Step_serve i c batch ops up down s rows ack sy :
    sy_clients sy !! i = Some c -> cl_link c = Some ((batch, ops) :: up, down) ->
    (rm_seq (sy_room sy) + 1 < u64_modulus)%Z -> room_push batch ops (sy_room sy) = (s, rows, ack) ->
    let clients := send_down rows <$> <[i := mk_client (cl_doc c) (Some (up, down))]> (sy_clients sy) in
    step sy (mk_system s (alter (send_down (Some ack)) i clients) (sy_issued sy) (sy_log sy ++ [(i, (batch, ops))]))
| Step_deliver i c up f down sy :
    sy_clients sy !! i = Some c -> cl_link c = Some (up, f :: down) ->
    step sy (mk_system (sy_room sy) (<[i := mk_client (handle_frame now_ms f (cl_doc c)) (Some (up, down))]> (sy_clients sy))
      (sy_issued sy) (sy_log sy))
| Step_drop i c sy :
    sy_clients sy !! i = Some c ->
    step sy (mk_system (sy_room sy) (<[i := mk_client (mark_disconnected (cl_doc c)) None]> (sy_clients sy))
      (sy_issued sy) (sy_log sy)).

(** A fresh room and fresh replicas. *)
Definition initial (devices : gmap string string) : System :=
  mk_system (mk_room ∅ 0 0) ((fun device => mk_client (RegistryDoc_new device) None) <$> devices) [] [].

Definition system_reachable (devices : gmap string string) (sy : System) : Prop := rtc step (initial devices) sy.

(** ** The invariant *)

Definition log_ops (log : list (string * Push)) : list RowOp := log ≫= fun x => x.2.2.

Definition link_ok (i : string) (s : Room) (issued log : list (string * Push)) (c : Client) : Prop :=
  match cl_link c with
  | None => synced (rd_authoritative (cl_doc c)) (rd_server_seq (cl_doc c)) s
            /\ Forall (fun b => pb_in_flight b = false) (rd_pending (cl_doc c))
  | Some (up, down) =>
      queue_ok s (rd_authoritative (cl_doc c)) (rd_server_seq (cl_doc c)) down
      /\ (forall b, b ∈ rd_pending (cl_doc c) -> pb_in_flight b = true ->
            payload b ∈ up \/ exists seq applied, FAck (pb_batch b) seq applied ∈ down)
      /\ (forall p, p ∈ up -> (i, p) ∈ issued)
      /\ (forall b seq applied, FAck b seq applied ∈ down -> exists ops, (i, (b, ops)) ∈ log)
  end.

Record client_inv (i : string) (s : Room) (issued log : list (string * Push)) (c : Client) : Prop := {
  ci_doc : doc_inv (cl_doc c);
  ci_link : link_ok i s issued log c;
  ci_pending : forall b, b ∈ rd_pending (cl_doc c) -> (i, payload b) ∈ issued;
  ci_kept : forall p, (i, p) ∈ issued -> p ∈ payload <$> rd_pending (cl_doc c) \/ (i, p) ∈ log;
  ci_old : forall id ops, (i, (id, ops)) ∈ issued -> exists hlc, id = "b-" +:+ hlc /\ ~ str_lt (current_hlc (cl_doc c)) hlc;
}.

Record system_inv (sy : System) : Prop := {
  si_room : room_wf (sy_room sy) /\ rm_gc_floor (sy_room sy) = 0%Z;
  si_merge : forall kind id, rm_rows (sy_room sy) !! (kind, id) ≡ foldl (overlay_step kind id) None (log_ops (sy_log sy));
  si_clients : forall i c, sy_clients sy !! i = Some c -> client_inv i (sy_room sy) (sy_issued sy) (sy_log sy) c;
  si_log : forall x, x ∈ sy_log sy -> x ∈ sy_issued sy;
  si_sizes : forall i id ops, (i, (id, ops)) ∈ sy_issued sy -> length ops <= MAX_OPS_PER_BATCH;
  si_unique : forall i id ops ops', (i, (id, ops)) ∈ sy_issued sy -> (i, (id, ops')) ∈ sy_issued sy -> ops = ops';
}.

(** ** Local writes *)

Context (now_bounded : forall d, (now_ms d <= bound)%Z).

(** New batches are stamped after everything the replica stamped before. *)
Lemma enqueue_chunks_fresh fuel ops d n b :
  clock_inv (rd_clock d) -> length ops <= fuel -> room bound (length ops + n) d ->
  b ∈ drop (length (rd_pending d)) (rd_pending (enqueue_chunks now_ms fuel ops d)) ->
  exists hlc, pb_batch b = "b-" +:+ hlc /\ str_lt (current_hlc d) hlc.
Proof.
  revert ops d. induction fuel as [|fuel IH]; intros ops d Hc Hf Hr Hb; destruct ops as [|op ops].
  1, 3: cbn [enqueue_chunks] in Hb; rewrite drop_all in Hb; by apply elem_of_nil in Hb.
  { simpl in Hf. lia. }
  cbn [enqueue_chunks] in Hb. pose proof (next_hlc_spec now_ms bound now_bounded (length ops + n) d Hc Hr) as Hn.
  pose proof (next_hlc_same now_ms d) as Hsame. destruct (next_hlc now_ms d) as [hlc d1].
  destruct Hn as (-> & Hlt & Hc1 & Hr1). destruct Hsame as (_ & Hp & _).
  set (b0 := mk_batch ("b-" +:+ current_hlc d1) (take MAX_OPS_PER_BATCH (op :: ops)) false) in *.
  set (d2 := set_pending (rd_pending d1 ++ [b0]) d1) in *.
  destruct (enqueue_chunks_spec now_ms fuel (drop MAX_OPS_PER_BATCH (op :: ops)) d2) as (bs & _ & Hpend & _).
  { rewrite length_drop. unfold MAX_OPS_PER_BATCH. cbn [length] in *. lia. }
  rewrite Hpend in Hb. unfold d2 at 1 in Hb. cbn [rd_pending set_pending] in Hb.
  rewrite Hp, <- app_assoc, drop_app_length in Hb. apply elem_of_cons in Hb as [->|Hb]; [by exists (current_hlc d1)|].
  destruct (IH (drop MAX_OPS_PER_BATCH (op :: ops)) d2) as (hlc & Hid & Hlt').
  - exact Hc1.
  - rewrite length_drop. unfold MAX_OPS_PER_BATCH. cbn [length] in *. lia.
  - rewrite length_drop. unfold MAX_OPS_PER_BATCH, room in *. cbn [rd_clock set_pending length d2] in *. lia.
  - by rewrite Hpend, drop_app_length.
  - exists hlc. split; [done|]. change (current_hlc d2) with (current_hlc d1) in Hlt'. by transitivity (current_hlc d1).
Qed.

Lemma next_hlc_inv n d : doc_inv d -> room bound (S n) d ->
  let d1 := snd (next_hlc now_ms d) in
  doc_inv d1 /\ room bound n d1 /\ same_but_pending d d1 /\ rd_pending d1 = rd_pending d /\ str_lt (current_hlc d) (current_hlc d1).
Proof.
  intros [Hc Hs Hnd Ho] Hr. pose proof (next_hlc_spec now_ms bound now_bounded n d Hc Hr) as Hn.
  pose proof (next_hlc_same now_ms d) as Hsame. destruct (next_hlc now_ms d) as [hlc d1]. cbn [snd].
  destruct Hn as (-> & Hlt & Hc1 & Hr1). destruct Hsame as (Hsame & Hp & _). split_and!; try done.
  constructor; rewrite ?Hp; try done. eapply Forall_impl; [exact Ho|]. intros b (hlc & Hid & Hno). exists hlc.
  split; [done|]. by eapply not_lt_trans.
Qed.

Lemma local_write_spec mk d : doc_inv d -> room bound (S (length (local_ops mk d))) d ->
  let d' := local_write mk d in
  exists bs, same_but_pending d d' /\ rd_pending d' = rd_pending d ++ bs /\ Forall (fun b => batch_ok b /\ pb_in_flight b = false) bs
  /\ doc_inv d' /\ ~ str_lt (current_hlc d') (current_hlc d)
  /\ forall b, b ∈ bs -> exists hlc, pb_batch b = "b-" +:+ hlc /\ str_lt (current_hlc d) hlc.
Proof.
  intros Hi Hr. pose proof (next_hlc_inv (length (local_ops mk d)) d Hi Hr) as Hn. unfold local_write, local_ops in *.
  destruct (next_hlc now_ms d) as [hlc d1]. cbn [fst snd] in *. destruct Hn as (Hi1 & Hr1 & Hsame & Hp & Hlt).
  destruct (enqueue_ops_spec now_ms (mk hlc) d1) as (bs & Hsame' & Hp' & _ & Hok). exists bs.
  assert (Hfin : doc_inv (enqueue_ops now_ms (mk hlc) d1) /\ ~ str_lt (current_hlc (enqueue_ops now_ms (mk hlc) d1)) (current_hlc d1)).
  { unfold enqueue_ops. case_bool_decide as Ho; [split; [done|apply irreflexivity, _]|].
    destruct (enqueue_chunks_inv now_ms bound now_bounded (length (mk hlc)) (mk hlc) (bump_generation d1) 0) as (H1 & _ & H3); try done.
    - by destruct Hi1.
    - by rewrite Nat.add_0_r. }
  destruct Hfin as [Hfin Hle]. split_and!; try done.
  - destruct Hsame as (? & ? & ? & ?), Hsame' as (? & ? & ? & ?). unfold same_but_pending. split_and!; congruence.
  - by rewrite Hp', Hp.
  - intros H. apply Hle. by transitivity (current_hlc d).
  - intros b Hb. unfold enqueue_ops in *. case_bool_decide as Ho; [rewrite <- (app_nil_r (rd_pending d1)) in Hp' at 1; apply app_inv_head in Hp' as <-; by apply elem_of_nil in Hb|].
    destruct (enqueue_chunks_fresh (length (mk hlc)) (mk hlc) (bump_generation d1) 0 b) as (h & H1 & H2); try done.
    + by destruct Hi1.
    + by rewrite Nat.add_0_r.
    + rewrite Hp'. change (rd_pending (bump_generation d1)) with (rd_pending d1). by rewrite drop_app_length.
    + exists h. split; [done|]. change (current_hlc (bump_generation d1)) with (current_hlc d1) in H2. by transitivity (current_hlc d1).
Qed.

(** ** Every step preserves the invariant *)

Lemma link_ok_extend i s iss iss' log log' c :
  (forall p, (i, p) ∈ iss -> (i, p) ∈ iss') -> (forall x, x ∈ log -> x ∈ log') -> link_ok i s iss log c -> link_ok i s iss' log' c.
Proof.
  intros Hi Hl. unfold link_ok. destruct (cl_link c) as [[up down]|]; [|done]. intros (H1 & H2 & H3 & H4). split_and!; try done.
  - intros p Hp. by apply Hi, H3.
  - intros b q a Hb. destruct (H4 b q a Hb) as (ops & Ho). exists ops. by apply Hl.
Qed.

Lemma client_inv_extend i s iss iss' log log' c :
  (forall p, (i, p) ∈ iss' <-> (i, p) ∈ iss) -> (forall x, x ∈ log -> x ∈ log') -> client_inv i s iss log c -> client_inv i s iss' log' c.
Proof.
  intros Hi Hl [H1 H2 H3 H4 H5]. constructor.
  - done.
  - eapply link_ok_extend; [|exact Hl|exact H2]. intros p. apply Hi.
  - intros b Hb. by apply Hi, H3.
  - intros p Hp. apply Hi, H4 in Hp as [?|?]; [by left|right; by apply Hl].
  - intros id ops Hp. by apply Hi, H5 in Hp.
Qed.

Lemma not_lt_le (a b c : string) : ~ str_lt a c -> ~ str_lt b a -> ~ str_lt b c.
Proof. intros H1 H2 H3. destruct (str_lt_total a c) as [H|[->|H]]; [done|done|]. apply H2. by transitivity c. Qed.

Lemma elem_of_issued (i j : string) (p : Push) (bs : list PendingBatch) : (j, p) ∈ (pair i ∘ payload <$> bs) <-> j = i /\ p ∈ payload <$> bs.
Proof.
  rewrite !list_elem_of_fmap. split.
  - intros (b & [= -> ->] & Hb). split; [done|]. by exists b.
  - intros [-> (b & -> & Hb)]. by exists b.
Qed.

Lemma step_write_inv i c mk sy :
  system_inv sy -> sy_clients sy !! i = Some c -> room bound (S (length (local_ops mk (cl_doc c)))) (cl_doc c) ->
  let d := local_write mk (cl_doc c) in
  system_inv (mk_system (sy_room sy) (<[i := mk_client d (cl_link c)]> (sy_clients sy))
      (sy_issued sy ++ (pair i ∘ payload <$> drop (length (rd_pending (cl_doc c))) (rd_pending d))) (sy_log sy)).
Proof.
  intros [Hroom Hmerge Hcl Hlog Hsz Hun] Hc Hr d. destruct (Hcl i c Hc) as [C1 C2 C3 C4 C5].
  destruct (local_write_spec mk (cl_doc c) C1 Hr) as (bs & (S1 & S2 & S3 & S4) & Hp & Hok & Hd & Hle & Hnew).
  fold d in S1, S2, S3, S4, Hp, Hd, Hle. rewrite Hp, drop_app_length. clearbody d.
  rewrite Forall_forall in Hok.
  assert (Hcase : forall j id ops, (j, (id, ops)) ∈ sy_issued sy ++ (pair i ∘ payload <$> bs) <->
    (j, (id, ops)) ∈ sy_issued sy \/ j = i /\ exists b, b ∈ bs /\ id = pb_batch b /\ ops = pb_ops b).
  { intros j id ops. rewrite elem_of_app, elem_of_issued, list_elem_of_fmap. unfold payload. naive_solver. }
  constructor; cbn [sy_room sy_clients sy_issued sy_log]; [done|done| | | |].
  - intros j c'. rewrite lookup_insert_Some. intros [[<- <-]|[Hne Hc']].
    + constructor; cbn [cl_doc cl_link].
      * done.
      * unfold link_ok in *. cbn [cl_doc cl_link]. rewrite S2, S3, Hp. destruct (cl_link c) as [[up down]|].
        -- destruct C2 as (Q1 & Q2 & Q3 & Q4). split_and!; [done| | |done].
           ++ intros b [Hb|Hb]%elem_of_app; [by apply Q2|]. by destruct (Hok b Hb) as [_ ->].
           ++ intros p Hp'. apply elem_of_app. left. by apply Q3.
        -- destruct C2 as [Q1 Q2]. split; [done|]. apply Forall_app. split; [done|]. apply Forall_forall. intros b Hb. by apply Hok.
      * intros b. rewrite Hp, !elem_of_app, elem_of_issued. intros [Hb|Hb]; [left; by apply C3|right; split; [done|by apply list_elem_of_fmap_2]].
      * intros p. rewrite Hp, fmap_app, !elem_of_app, elem_of_issued. intros [Hp'|[_ Hp']]; [|left; by right].
        destruct (C4 p Hp'); [left; by left|by right].
      * intros id ops [Hin|(_ & b & Hb & -> & _)]%Hcase.
        -- destruct (C5 id ops Hin) as (hlc & -> & Hno). exists hlc. split; [done|]. by eapply not_lt_le.
        -- destruct Hd as [_ _ _ Ho]. rewrite Forall_forall in Ho. apply Ho. rewrite Hp. apply elem_of_app. by right.
    + eapply client_inv_extend; [|done|by apply Hcl]. intros [id ops]. rewrite Hcase. naive_solver.
  - intros x Hx. apply elem_of_app. left. by apply Hlog.
  - intros j id ops [Hin|(_ & b & Hb & _ & ->)]%Hcase; [by eapply Hsz|]. destruct (Hok b Hb) as [[_ ?] _]. done.
  - assert (Hmix : forall id ops b, (i, (id, ops)) ∈ sy_issued sy -> b ∈ bs -> id <> pb_batch b).
    { intros id ops b Hin Hb ->. destruct (C5 _ _ Hin) as (h & Hid & Hno), (Hnew b Hb) as (h' & Hid' & Hlt).
      rewrite Hid in Hid'. apply (inj (String.append _)) in Hid' as ->. done. }
    intros j id ops ops' [H1|(-> & b & Hb & -> & ->)]%Hcase [H2|(Hj & b' & Hb' & Hid & ->)]%Hcase.
    + by eapply Hun.
    + subst. by destruct (Hmix _ _ _ H1 Hb').
    + by destruct (Hmix _ _ _ H2 Hb).
    + destruct Hd as [_ _ Hnd _]. rewrite Hp, fmap_app in Hnd. apply NoDup_app in Hnd as (_ & _ & Hnd).
      apply list_elem_of_lookup_1 in Hb as [k Hk], Hb' as [k' Hk'].
      assert (k = k') as ->; [|congruence]. eapply (NoDup_lookup _ k k' (pb_batch b) Hnd); rewrite list_lookup_fmap; [by rewrite Hk|by rewrite Hk', Hid].
Qed.

Lemma set_client_inv i c' sy :
  system_inv sy -> client_inv i (sy_room sy) (sy_issued sy) (sy_log sy) c' ->
  system_inv (mk_system (sy_room sy) (<[i := c']> (sy_clients sy)) (sy_issued sy) (sy_log sy)).
Proof.
  intros [H1 H2 H3 H4 H5 H6] Hc. constructor; try done. intros j c. cbn [sy_clients]. rewrite lookup_insert_Some.
  intros [[<- <-]|[_ ?]]; [done|by apply H3].
Qed.

(** A replica whose pending payloads do not change. *)
Lemma same_pending_inv i s iss log c d link :
  client_inv i s iss log c -> doc_inv d -> payload <$> rd_pending d = payload <$> rd_pending (cl_doc c) ->
  current_hlc d = current_hlc (cl_doc c) -> link_ok i s iss log (mk_client d link) -> client_inv i s iss log (mk_client d link).
Proof.
  intros [H1 H2 H3 H4 H5] Hd Hp Hh Hl. constructor; cbn [cl_doc]; [done|done| | |].
  - intros b Hb. apply (list_elem_of_fmap_2 payload) in Hb. rewrite Hp in Hb.
    apply list_elem_of_fmap in Hb as (b' & -> & Hb). by apply H3.
  - intros p Hin. rewrite Hp. by apply H4.
  - intros id ops Hin. rewrite Hh. by apply (H5 id ops).
Qed.

Lemma step_connect_inv i c sy :
  system_inv sy -> sy_clients sy !! i = Some c -> cl_link c = None ->
  system_inv (mk_system (sy_room sy)
    (<[i := mk_client (cl_doc c) (Some ([], [room_hello (hello_cursor (cl_doc c)) (sy_room sy)]))]> (sy_clients sy))
    (sy_issued sy) (sy_log sy)).
Proof.
  intros Hi Hc Hl. apply set_client_inv; [done|]. destruct Hi as [[R1 R2] _ Hcl _ _ _]. pose proof (Hcl i c Hc) as Hci.
  eapply same_pending_inv; [exact Hci|by destruct Hci|done|done|]. destruct Hci as [_ C2 _ _ _].
  unfold link_ok in *. rewrite Hl in C2. destruct C2 as [Q1 Q2]. cbn [cl_link cl_doc]. split_and!.
  - by apply queue_hello.
  - intros b Hb Hf. rewrite Forall_forall in Q2. rewrite (Q2 b Hb) in Hf. done.
  - by intros p ?%elem_of_nil.
  - intros b q a Hb. apply list_elem_of_singleton in Hb. by unfold room_hello in Hb.
Qed.

Lemma step_push_inv i c up down d out sy :
  system_inv sy -> sy_clients sy !! i = Some c -> cl_link c = Some (up, down) -> take_pushable (cl_doc c) = (d, out) ->
  system_inv (mk_system (sy_room sy) (<[i := mk_client d (Some (up ++ (payload <$> out), down))]> (sy_clients sy))
    (sy_issued sy) (sy_log sy)).
Proof.
  intros Hi Hc Hl Htake. apply set_client_inv; [done|]. destruct Hi as [_ _ Hcl _ _ _]. pose proof (Hcl i c Hc) as Hci.
  pose proof (take_pushable_spec (cl_doc c)) as Hspec. rewrite Htake in Hspec. destruct Hspec as (P1 & P2 & P3 & P4).
  assert (Hd : doc_inv d).
  { destruct Hci. apply (doc_inv_payload (cl_doc c)); [done|by rewrite P4|by rewrite P4|by rewrite P1]. }
  eapply same_pending_inv; [exact Hci|done|done|by rewrite P4|]. destruct Hci as [_ C2 C3 _ _].
  unfold link_ok in *. rewrite Hl in C2. destruct C2 as (Q1 & Q2 & Q3 & Q4). cbn [cl_link cl_doc].
  rewrite P4. cbn [rd_authoritative rd_server_seq set_pending rd_pending]. split_and!; [done| | |done].
  - intros b Hb _. apply (list_elem_of_fmap_2 payload) in Hb. rewrite P1 in Hb. apply list_elem_of_fmap in Hb as (b' & Heq & Hb).
    assert (Hid : pb_batch b = pb_batch b') by by injection Heq. rewrite Heq, Hid.
    destruct (pb_in_flight b') eqn:Hf.
    + destruct (Q2 b' Hb Hf); [left; apply elem_of_app; by left|by right].
    + left. apply elem_of_app. right. rewrite P2. apply list_elem_of_fmap_2. by apply list_elem_of_filter.
  - intros p [Hp|Hp]%elem_of_app; [by apply Q3|]. rewrite P2 in Hp. apply list_elem_of_fmap in Hp as (b & -> & Hb).
    apply list_elem_of_filter in Hb as [_ Hb]. by apply C3.
Qed.

Lemma step_drop_inv i c sy :
  system_inv sy -> sy_clients sy !! i = Some c ->
  system_inv (mk_system (sy_room sy) (<[i := mk_client (mark_disconnected (cl_doc c)) None]> (sy_clients sy)) (sy_issued sy) (sy_log sy)).
Proof.
  intros Hi Hc. apply set_client_inv; [done|]. destruct Hi as [_ _ Hcl _ _ _]. pose proof (Hcl i c Hc) as Hci.
  assert (Hp : payload <$> rd_pending (mark_disconnected (cl_doc c)) = payload <$> rd_pending (cl_doc c)) by apply set_in_flight_payload.
  eapply same_pending_inv; [exact Hci| |exact Hp|done|].
  - destruct Hci. apply (doc_inv_payload (cl_doc c)); [done..|]. by rewrite Hp.
  - destruct Hci as [_ C2 _ _ _]. unfold link_ok in *. cbn [cl_link cl_doc mark_disconnected rd_authoritative rd_server_seq set_pending rd_pending].
    split; [|by apply Forall_fmap, Forall_true]. destruct (cl_link c) as [[up down]|]; [|by destruct C2].
    destruct C2 as (Q1 & _). by eapply queue_synced.
Qed.

Lemma step_deliver_inv i c up f down sy :
  system_inv sy -> sy_clients sy !! i = Some c -> cl_link c = Some (up, f :: down) ->
  system_inv (mk_system (sy_room sy) (<[i := mk_client (handle_frame now_ms f (cl_doc c)) (Some (up, down))]> (sy_clients sy))
    (sy_issued sy) (sy_log sy)).
Proof.
  intros Hi Hc Hl. apply set_client_inv; [done|]. destruct Hi as [_ _ Hcl Hlog _ Hun]. destruct (Hcl i c Hc) as [C1 C2 C3 C4 C5].
  unfold link_ok in C2. rewrite Hl in C2. destruct C2 as (Q1 & Q2 & Q3 & Q4).
  destruct (deliver_frame now_ms (sy_room sy) (cl_doc c) f down Q1) as (D1 & D2 & D3 & D4).
  set (d := handle_frame now_ms f (cl_doc c)) in *. clearbody d.
  assert (Hsub : rd_pending d `sublist_of` rd_pending (cl_doc c)) by (rewrite D2; destruct f; done || apply sublist_filter).
  assert (Hin : forall b, b ∈ rd_pending d -> b ∈ rd_pending (cl_doc c)).
  { intros b Hb. by apply (elem_of_submseteq _ _ _ Hb), sublist_submseteq. }
  constructor; cbn [cl_doc].
  - apply (doc_inv_payload (cl_doc c)); [done|done|done|by apply fmap_sublist].
  - unfold link_ok. cbn [cl_link cl_doc]. split_and!; [done| |done|].
    + intros b Hb Hf. destruct (Q2 b (Hin b Hb) Hf) as [?|(q & a & Hack)]; [by left|]. right.
      apply elem_of_cons in Hack as [<-|Hack]; [|by exists q, a]. exfalso. rewrite D2 in Hb.
      apply list_elem_of_filter in Hb as [Hne _]. done.
    + intros b q a Hb. apply (Q4 b q a). by right.
  - intros b Hb. by apply C3, Hin.
  - intros p Hp. destruct (C4 p Hp) as [Hq|?]; [|by right]. rewrite D2. destruct f; try by left.
    apply list_elem_of_fmap in Hq as (b & -> & Hb). destruct (decide (pb_batch b = batch)) as [<-|Hne].
    + right. destruct (Q4 (pb_batch b) seq applied) as (ops & Ho); [by left|].
      unfold payload. by rewrite (Hun i (pb_batch b) (pb_ops b) ops Hp (Hlog _ Ho)).
    + left. apply list_elem_of_fmap_2. by apply list_elem_of_filter.
  - intros id ops Hp. unfold current_hlc. rewrite D3, D4. by apply (C5 id ops).
Qed.

(** The broadcast keeps every connection on its way to the room's new state. *)
Lemma link_broadcast j s s' touched rows iss log c :
  room_wf s -> room_wf s' -> (forall key, rm_rows s' !! key = view s touched key) ->
  Forall (fun r => rr_seq r = rm_seq s + 1)%Z touched -> NoDup (row_key <$> touched) ->
  (rows = None /\ touched = [] /\ s' = s \/ rows = Some (FRows (rm_seq s + 1) touched) /\ rm_seq s' = (rm_seq s + 1)%Z) ->
  link_ok j s iss log c -> link_ok j s' iss log (send_down rows c).
Proof.
  intros Hwf Hwf' Hrows Hsq Hnd [(-> & _ & ->)|(-> & Hseq)]; [done|]. unfold link_ok, send_down.
  destruct (cl_link c) as [[up down]|] eqn:Hl; cbn [cl_link cl_doc].
  - intros (Q1 & Q2 & Q3 & Q4). split_and!; [by apply (queue_push s s')| |done|].
    + intros b Hb Hf. destruct (Q2 b Hb Hf) as [?|(q & a & ?)]; [by left|right]. exists q, a. apply elem_of_app. by left.
    + intros b q a [Hb|Hb]%elem_of_app; [by eapply Q4|]. by apply list_elem_of_singleton in Hb.
  - rewrite Hl. intros [Hs Hp]. split; [|done]. apply (synced_push _ _ s s' touched); done || lia.
Qed.

Lemma send_down_doc f c : cl_doc (send_down f c) = cl_doc c.
Proof. unfold send_down. destruct f; [|done]. by destruct (cl_link c) as [[]|]. Qed.

Lemma send_down_twice ack rows d up down :
  send_down (Some ack) (send_down rows (mk_client d (Some (up, down)))) = mk_client d (Some (up, (down ++ option_list rows) ++ [ack])).
Proof. destruct rows; cbn; [done|by rewrite app_nil_r]. Qed.

(** A client whose document does not change. *)
Lemma same_doc_inv i s s' iss log c c' :
  client_inv i s iss log c -> cl_doc c' = cl_doc c -> link_ok i s' iss log c' -> client_inv i s' iss log c'.
Proof. intros [H1 H2 H3 H4 H5] Hd Hl. by constructor; rewrite ?Hd. Qed.

Lemma step_serve_inv i c batch ops up down s rows ack sy :
  system_inv sy -> sy_clients sy !! i = Some c -> cl_link c = Some ((batch, ops) :: up, down) ->
  (rm_seq (sy_room sy) + 1 < u64_modulus)%Z -> room_push batch ops (sy_room sy) = (s, rows, ack) ->
  let clients := send_down rows <$> <[i := mk_client (cl_doc c) (Some (up, down))]> (sy_clients sy) in
  system_inv (mk_system s (alter (send_down (Some ack)) i clients) (sy_issued sy) (sy_log sy ++ [(i, (batch, ops))])).
Proof.
  intros [[Hwf Hgc] Hmerge Hcl Hlog Hsz Hun] Hc Hl Hlt Hpush clients. destruct (Hcl i c Hc) as [C1 C2 C3 C4 C5].
  pose proof C2 as C2'. unfold link_ok in C2'. rewrite Hl in C2'. destruct C2' as (Q1 & Q2 & Q3 & Q4).
  assert (Hissued : (i, (batch, ops)) ∈ sy_issued sy) by (apply Q3; by left).
  pose proof (room_push_spec batch ops (sy_room sy) Hwf) as Hspec. rewrite Hpush in Hspec.
  destruct Hspec as (touched & applied & Hnd & Hsq & Hcase & -> & Hgc' & Hrows & Hwf' & Hm); [|done|].
  { pose proof (Hsz _ _ _ Hissued). unfold MAX_OPS_PER_BATCH, u64_modulus in *. lia. }
  set (log := sy_log sy ++ [(i, (batch, ops))]).
  assert (Hsub : forall x, x ∈ sy_log sy -> x ∈ log) by (intros x Hx; apply elem_of_app; by left).
  constructor; cbn [sy_room sy_clients sy_issued sy_log].
  - split; [done|congruence].
  - intros kind id. unfold log, log_ops. rewrite bind_app, foldl_app, Hm. cbn [mbind list_bind snd]. rewrite app_nil_r.
    by apply overlay_ops_proper.
  - intros j c'. subst clients. destruct (decide (j = i)) as [->|Hne].
    + rewrite lookup_alter_eq, lookup_fmap, lookup_insert_eq. cbn [fmap option_fmap option_map]. rewrite send_down_twice. intros [= <-].
      eapply same_doc_inv; [eapply client_inv_extend; [|exact Hsub|exact (Hcl i c Hc)]; done|done|].
      unfold link_ok. cbn [cl_link cl_doc]. split_and!.
      * apply queue_ack. destruct Hcase as [(-> & _ & ->)|(-> & Hseq)]; cbn [option_list]; [by rewrite app_nil_r|].
        by apply (queue_push (sy_room sy) s touched).
      * intros b' Hb Hf. destruct (Q2 b' Hb Hf) as [[Heq|Hu]%elem_of_cons|(q & a & Ha)].
        -- right. injection Heq as -> _. exists (rm_seq s), applied. rewrite !elem_of_app. right. by left.
        -- by left.
        -- right. exists q, a. rewrite !elem_of_app. by left; left.
      * intros p Hp. apply Q3. by right.
      * intros b' q a. rewrite !elem_of_app. intros [[Hb|Hb]|Hb].
        -- destruct (Q4 b' q a Hb) as (ops' & Ho). exists ops'. by apply Hsub.
        -- destruct Hcase as [(-> & _)|(-> & _)]; [by apply elem_of_nil in Hb|by apply list_elem_of_singleton in Hb].
        -- apply list_elem_of_singleton in Hb. injection Hb as -> _ _. exists ops. apply elem_of_app. right. by left.
    + rewrite lookup_alter_ne, lookup_fmap, lookup_insert_ne by done. intros Hj. apply fmap_Some in Hj as (cj & Hcj & ->).
      eapply same_doc_inv; [eapply client_inv_extend; [|exact Hsub|exact (Hcl j cj Hcj)]; done|apply send_down_doc|].
      eapply (link_broadcast j (sy_room sy)); try done. eapply link_ok_extend; [|exact Hsub|by apply Hcl]. done.
  - intros x [Hx|Hx]%elem_of_app; [by apply Hlog|]. apply list_elem_of_singleton in Hx as ->. done.
  - done.
  - done.
Qed.

Lemma initial_inv devices : system_inv (initial devices).
Proof.
  constructor; cbn [initial sy_room sy_clients sy_issued sy_log].
  - split; [|done]. split; [done|]. intros key r H. discriminate H.
  - intros kind id. done.
  - intros i c. rewrite lookup_fmap. intros (device & _ & ->)%fmap_Some. constructor; cbn [cl_doc].
    + constructor; [unfold clock_inv, clock_fits; simpl; lia|constructor..].
    + split; [|constructor]. split; [done|]. intros key. done.
    + by intros b ?%elem_of_nil.
    + by intros p ?%elem_of_nil.
    + by intros id ops ?%elem_of_nil.
  - by intros x ?%elem_of_nil.
  - by intros i id ops ?%elem_of_nil.
  - by intros i id ops ops' ?%elem_of_nil.
Qed.

Lemma step_inv sy sy' : step sy sy' -> system_inv sy -> system_inv sy'.
Proof.
  intros Hs Hi. destruct Hs; [by apply step_write_inv|by apply step_connect_inv|by eapply step_push_inv|
    by eapply step_serve_inv|by eapply step_deliver_inv|by apply step_drop_inv].
Qed.

Lemma reachable_system_inv devices sy : system_reachable devices sy -> system_inv sy.
Proof.
  unfold system_reachable. intros H. pose proof (initial_inv devices) as Hi. revert Hi.
  induction H as [sy|sy sy1 sy2 Hs _ IH]; [done|]. intros Hi. by eapply IH, step_inv.
Qed.

(** A replica that is connected, has received everything and has nothing left
    to push. *)
Definition quiescent (c : Client) : Prop := cl_link c = Some ([], []) /\ snd (take_pushable (cl_doc c)) = [].

Lemma quiescent_pending i c sy : system_inv sy -> sy_clients sy !! i = Some c -> quiescent c -> rd_pending (cl_doc c) = [].
Proof.
  intros Hi Hc [Hl Hp]. destruct (si_clients _ Hi i c Hc) as [_ C2 _ _ _]. unfold link_ok in C2. rewrite Hl in C2.
  destruct C2 as (_ & Q2 & _). destruct (rd_pending (cl_doc c)) as [|b p] eqn:E; [done|]. exfalso.
  destruct (pb_in_flight b) eqn:Hf.
  - destruct (Q2 b ltac:(by left) Hf) as [?%elem_of_nil|(q & a & ?%elem_of_nil)]; done.
  - unfold take_pushable in Hp. cbn [snd] in Hp. rewrite E, filter_cons_True in Hp by done. done.
Qed.

(** C14. The registry converges, over any number of replicas writing offline and
    online, any interleaving of pushes, merges, deliveries and lost
    connections (what is on its way is then lost), and any clocks: no write is
    ever lost, since each is still pending on its replica or merged by the
    room; and a replica that is connected, has received everything and has
    nothing left to push has no pending write, is at the room's cursor, and
    displays exactly the room's rows, each the merge of all the writes the
    room accepted, in its order.  So all such replicas display the same. *)
Theorem registry_converges devices sy :
  system_reachable devices sy ->
  (forall i c p, sy_clients sy !! i = Some c -> (i, p) ∈ sy_issued sy -> p ∈ payload <$> rd_pending (cl_doc c) \/ (i, p) ∈ sy_log sy)
  /\ (forall x, x ∈ sy_log sy -> x ∈ sy_issued sy)
  /\ (forall i c, sy_clients sy !! i = Some c -> quiescent c ->
        rd_pending (cl_doc c) = [] /\ (forall p, (i, p) ∈ sy_issued sy -> (i, p) ∈ sy_log sy)
        /\ rd_server_seq (cl_doc c) = rm_seq (sy_room sy)
        /\ (forall kind id, overlay_row kind id (cl_doc c) = live (rm_rows (sy_room sy) !! (kind, id))
              /\ overlay_row kind id (cl_doc c) ≡ live (foldl (overlay_step kind id) None (log_ops (sy_log sy)))))
  /\ (forall i j c c' kind id, sy_clients sy !! i = Some c -> sy_clients sy !! j = Some c' -> quiescent c -> quiescent c' ->
        overlay_row kind id (cl_doc c) = overlay_row kind id (cl_doc c')).
Proof.
  intros Hr. pose proof (reachable_system_inv devices sy Hr) as Hi.
  assert (Hq : forall i c, sy_clients sy !! i = Some c -> quiescent c ->
    rd_server_seq (cl_doc c) = rm_seq (sy_room sy)
    /\ forall kind id, overlay_row kind id (cl_doc c) = live (rm_rows (sy_room sy) !! (kind, id))).
  { intros i c Hc Hq. pose proof (quiescent_pending i c sy Hi Hc Hq) as Hp. destruct Hq as [Hl _].
    destruct (si_clients _ Hi i c Hc) as [_ C2 _ _ _]. unfold link_ok in C2. rewrite Hl in C2.
    destruct C2 as ([Hs Hcur] & _). split; [done|]. rewrite Hcur in Hs. intros kind id.
    apply synced_exact in Hs; [|apply Hi]. unfold overlay_row. rewrite Hp. cbn [overlay_pending foldl].
    by rewrite <- (Hs (kind, id)). }
  split_and!.
  - intros i c p Hc Hp. destruct (si_clients _ Hi i c Hc). auto.
  - apply Hi.
  - intros i c Hc Hqu. pose proof (quiescent_pending i c sy Hi Hc Hqu) as Hp. destruct (Hq i c Hc Hqu) as [Hseq Hrows].
    split_and!; [done| |done|].
    + intros p Hin. destruct (ci_kept _ _ _ _ _ (si_clients _ Hi i c Hc) p Hin) as [Hn|?]; [|done]. rewrite Hp in Hn. by apply elem_of_nil in Hn.
    + intros kind id. split; [done|]. rewrite Hrows. apply live_proper, Hi.
  - intros i j c c' kind id Hc Hc' Hqc Hqc'. destruct (Hq i c Hc Hqc) as [_ ->]. by destruct (Hq j c' Hc' Hqc') as [_ ->].
Qed.
End system.

(** * Witness *)

(** The steps as a function, for concrete runs. *)
Inductive Command := CWrite (mk : string -> list RowOp) | CConnect | CPush | CServe | CDeliver | CDrop.

#[export] Instance room_dec bound n d : Decision (room bound n d).
Proof. unfold room. apply _. Defined.

Definition exec (now_ms : RegistryDoc -> Z) (bound : Z) (i : string) (cmd : Command) (sy : System) : option System :=
  c ← sy_clients sy !! i;
  let set c := mk_system (sy_room sy) (<[i := c]> (sy_clients sy)) (sy_issued sy) (sy_log sy) in
  match cmd, cl_link c with
  | CWrite mk, _ =>
      if decide (room bound (S (length (local_ops now_ms mk (cl_doc c)))) (cl_doc c)) then
        let d := local_write now_ms mk (cl_doc c) in
        Some (mk_system (sy_room sy) (<[i := mk_client d (cl_link c)]> (sy_clients sy))
          (sy_issued sy ++ (pair i ∘ payload <$> drop (length (rd_pending (cl_doc c))) (rd_pending d))) (sy_log sy))
      else None
  | CConnect, None => Some (set (mk_client (cl_doc c) (Some ([], [room_hello (hello_cursor (cl_doc c)) (sy_room sy)]))))
  | CPush, Some (up, down) =>
      let '(d, out) := take_pushable (cl_doc c) in Some (set (mk_client d (Some (up ++ (payload <$> out), down))))
  | CServe, Some ((batch, ops) :: up, down) =>
      if decide (rm_seq (sy_room sy) + 1 < u64_modulus)%Z then
        let '(s, rows, ack) := room_push batch ops (sy_room sy) in
        let clients := send_down rows <$> <[i := mk_client (cl_doc c) (Some (up, down))]> (sy_clients sy) in
        Some (mk_system s (alter (send_down (Some ack)) i clients) (sy_issued sy) (sy_log sy ++ [(i, (batch, ops))]))
      else None
  | CDeliver, Some (up, f :: down) => Some (set (mk_client (handle_frame now_ms f (cl_doc c)) (Some (up, down))))
  | CDrop, _ => Some (set (mk_client (mark_disconnected (cl_doc c)) None))
  | _, _ => None
  end.

Lemma exec_step now_ms bound i cmd sy sy' : exec now_ms bound i cmd sy = Some sy' -> step now_ms bound sy sy'.
Proof.
  unfold exec. intros H. apply bind_Some in H as (c & Hc & H). cbv zeta in H.
  destruct cmd; [case_decide; simplify_eq; by eapply Step_write| | | | |by simplify_eq; eapply Step_drop].
  - destruct (cl_link c) eqn:Hl; simplify_eq. by eapply Step_connect.
  - destruct (cl_link c) as [[up down]|] eqn:Hl; [|done]. destruct (take_pushable (cl_doc c)) as [d out] eqn:Ht. simplify_eq. by eapply Step_push.
  - destruct (cl_link c) as [[[|[batch ops] up] down]|] eqn:Hl; [done| |done]. case_decide; [|done].
    destruct (room_push batch ops (sy_room sy)) as [[s rows] ack] eqn:Hp. simplify_eq. by eapply Step_serve.
  - destruct (cl_link c) as [[up [|f down]]|] eqn:Hl; simplify_eq. by eapply Step_deliver.
Qed.

Definition run (now_ms : RegistryDoc -> Z) (bound : Z) (cmds : list (string * Command)) (sy : System) : option System :=
  foldl (fun st x => sy ← st; exec now_ms bound x.1 x.2 sy) (Some sy) cmds.

Lemma run_reachable now_ms bound devices cmds sy :
  run now_ms bound cmds (initial devices) = Some sy -> system_reachable now_ms bound devices sy.
Proof.
  unfold run, system_reachable. generalize (initial devices) as s0. intros s0. revert sy.
  induction cmds as [|x cmds IH] using rev_ind; intros sy H; [simpl in H; simplify_eq; apply rtc_refl|].
  rewrite foldl_app in H. cbn [foldl] in H. apply bind_Some in H as (sy1 & H1 & H2).
  eapply rtc_r; [by apply IH|by eapply exec_step].
Qed.

(** Two replicas: one writes offline, loses its connection with a push on its
    way, pushes again, and both settle. *)
Definition demo_mk (title : string) (hlc : string) : list RowOp :=
  [mk_op "chats" "c1" Upsert (Some {["title"%string := Str title]}) hlc None].
Definition demo_commands : list (string * Command) :=
  [("a", CWrite (demo_mk "x")); ("a", CConnect); ("a", CDeliver); ("a", CPush); ("a", CServe); ("a", CDrop);
   ("b", CConnect); ("b", CDeliver); ("b", CWrite (demo_mk "y")); ("b", CPush); ("b", CServe); ("b", CDeliver); ("b", CDeliver);
   ("a", CConnect); ("a", CDeliver); ("a", CPush); ("a", CServe); ("a", CDeliver)]%string.
Definition demo_system : option System :=
  run demo_now 1000 demo_commands (initial (<["a" := "dev-a"]> {["b" := "dev-b"]})%string).
Definition demo_client (i : string) : option Client := sy ← demo_system; sy_clients sy !! i.

Definition quiescent_b (c : Client) : bool :=
  match cl_link c, snd (take_pushable (cl_doc c)) with Some ([], []), [] => true | _, _ => false end.
Lemma quiescent_b_spec c : quiescent_b c = true -> quiescent c.
Proof. unfold quiescent_b, quiescent. destruct (cl_link c) as [[[|? ?] [|? ?]]|]; try done. by destruct (snd (take_pushable (cl_doc c))). Qed.

Definition demo_settled : bool :=
  match demo_system, demo_client "a", demo_client "b" with
  | Some sy, Some a, Some b => quiescent_b a && quiescent_b b && (length (sy_log sy) =? 3)
  | _, _, _ => false
  end.

Lemma registry_converges_witness :
  exists sy a b, demo_system = Some sy /\ demo_client "a" = Some a /\ demo_client "b" = Some b
    /\ quiescent a /\ quiescent b /\ length (sy_log sy) = 3
    /\ overlay_row "chats" "c1" (cl_doc a) = overlay_row "chats" "c1" (cl_doc b).
Proof.
  assert (Hset : demo_settled = true) by (vm_compute; reflexivity). unfold demo_settled in Hset.
  unfold demo_client in *. destruct demo_system as [sy|] eqn:Hs; [|discriminate Hset]. cbn [mbind option_bind] in *.
  assert (Hr : system_reachable demo_now 1000 (<["a" := "dev-a"]> {["b" := "dev-b"]})%string sy) by (eapply run_reachable; exact Hs).
  destruct (sy_clients sy !! "a"%string) as [a|] eqn:Ha; [|discriminate Hset].
  destruct (sy_clients sy !! "b"%string) as [b|] eqn:Hb; [|discriminate Hset].
  apply andb_true_iff in Hset as [[Hqa Hqb]%andb_true_iff Hlen]. apply quiescent_b_spec in Hqa, Hqb. apply Nat.eqb_eq in Hlen.
  destruct (registry_converges demo_now 1000 (fun _ => Z.le_refl 1000) _ sy Hr) as (_ & _ & _ & H).
  exists sy, a, b. split; [reflexivity|]. split; [reflexivity|]. split; [reflexivity|]. split; [exact Hqa|]. split; [exact Hqb|].
  split; [exact Hlen|]. exact (H "a"%string "b"%string a b "chats"%string "c1"%string Ha Hb Hqa Hqb).
Defined.
