(* ===== verification/Assembler.v ===== *)
(** The chunk-to-message assembler, [crates/dsh/llm/src/assembler.rs].

    [push] is translated branch by branch over a map of partial blocks and an
    order vector.  Against it stands a reference that looks at the whole
    stream: the block of an index is the first [BlockEnd] seen for it, or else
    what its deltas concatenate to. *)
From Stdlib Require Import ZArith String.
From stdpp Require Import base tactics numbers list gmap strings pretty.
From S2P Require Import Prelude Json Llm.

(** * State *)

Record PartialBlock := mk_partial {
  pb_block_type : BlockType;
  pb_text : string;
  pb_tool_call_id : option CallId;
  pb_tool_call_name : option string;
  pb_tool_call_arguments : string;
  pb_block : option ContentBlock;
}.

Definition PartialBlock_new (bt : BlockType) : PartialBlock :=
  mk_partial bt EmptyString None None EmptyString None.

Record BlockAssembler := mk_assembler {
  partials : gmap Z PartialBlock;
  order : list Z;
  asm_usage : option TokenUsage;
  asm_finish : option FinishReason;
  asm_replay_state : option Value;
}.

Definition BlockAssembler_new : BlockAssembler := mk_assembler ∅ [] None None None.

(** * Operations *)

(** [ensure] followed by a write through the returned reference: the entry is
    created with [bt] when absent, then [f] is applied to it. *)
Definition ensure_with (index : Z) (bt : BlockType) (f : PartialBlock -> PartialBlock) (a : BlockAssembler) : BlockAssembler :=
  match partials a !! index with
  | Some p => mk_assembler (<[index := f p]> (partials a)) (order a) (asm_usage a) (asm_finish a) (asm_replay_state a)
  | None => mk_assembler (<[index := f (PartialBlock_new bt)]> (partials a)) (order a ++ [index])
              (asm_usage a) (asm_finish a) (asm_replay_state a)
  end.

(** The guarded writes: nothing happens once [BlockEnd] froze the partial. *)
Definition append_text (text : string) (p : PartialBlock) : PartialBlock :=
  match pb_block p with
  | Some _ => p
  | None => mk_partial (pb_block_type p) (pb_text p +:+ text) (pb_tool_call_id p) (pb_tool_call_name p)
              (pb_tool_call_arguments p) None
  end.
Definition append_tool_call (id : CallId) (name : option string) (arguments_delta : string) (p : PartialBlock) : PartialBlock :=
  match pb_block p with
  | Some _ => p
  | None => mk_partial (pb_block_type p) (pb_text p) (Some id)
              (match name with
               | Some n => if String.eqb n EmptyString then pb_tool_call_name p else Some n
               | None => pb_tool_call_name p
               end)
              (pb_tool_call_arguments p +:+ arguments_delta) None
  end.
Definition close_partial (block : ContentBlock) (p : PartialBlock) : PartialBlock :=
  match pb_block p with
  | Some _ => p
  | None => mk_partial (pb_block_type p) (pb_text p) (pb_tool_call_id p) (pb_tool_call_name p)
              (pb_tool_call_arguments p) (Some block)
  end.

Definition push (a : BlockAssembler) (chunk : StreamChunk) : BlockAssembler :=
  match chunk with
  | SC_BlockStart index bt => ensure_with index bt id a
  | SC_TextDelta index text => ensure_with index BT_Text (append_text text) a
  | SC_ReasoningDelta index text => ensure_with index BT_Reasoning (append_text text) a
  | SC_ToolCallDelta index id name args => ensure_with index BT_ToolCall (append_tool_call id name args) a
  | SC_BlockEnd index block => ensure_with index (block_type block) (close_partial block) a
  | SC_Usage usage => mk_assembler (partials a) (order a) (Some usage) (asm_finish a) (asm_replay_state a)
  | SC_Finish reason replay => mk_assembler (partials a) (order a) (asm_usage a) (Some reason) replay
  end.

Definition push_all (a : BlockAssembler) (chunks : list StreamChunk) : BlockAssembler := foldl push a chunks.

(** A Rust panic, with its message. *)
Inductive panic := Panic (message : string).

Definition assemble (p : PartialBlock) (index : Z) : result ContentBlock panic :=
  match pb_block p with
  | Some block => Ok block
  | None =>
      match pb_block_type p with
      | BT_Text => Ok (CB_Text (pb_text p))
      | BT_Reasoning => Ok (CB_Reasoning (pb_text p))
      | BT_ToolCall =>
          Ok (CB_ToolCall (default ("call-" +:+ pretty (Z.to_N index)) (pb_tool_call_id p))
                (default EmptyString (pb_tool_call_name p)) (pb_tool_call_arguments p))
      | _ => Err (Panic "cannot assemble incomplete block")
      end
  end.

(** [collect] over a mapped iterator whose closure can panic. *)
Fixpoint map_result {A B E} (f : A -> result B E) (l : list A) : result (list B) E :=
  match l with
  | [] => Ok []
  | x :: l' => result_bind (f x) (fun y => result_bind (map_result f l') (fun ys => Ok (y :: ys)))
  end.

Definition finish (a : BlockAssembler) : FinishReason := default FR_Stop (asm_finish a).

Definition is_tool_call (b : ContentBlock) : bool := match b with CB_ToolCall _ _ _ => true | _ => false end.

Definition blocks (a : BlockAssembler) : result (list ContentBlock) panic :=
  result_bind
    (map_result (fun index =>
       match partials a !! index with
       | None => Err (Panic "ordered index has a partial")
       | Some p => assemble p index
       end) (order a))
    (fun bs => Ok (match finish a with
                   | FR_MaxTokens => List.filter (fun b => negb (is_tool_call b)) bs
                   | _ => bs
                   end)).

(** [message]: the id is minted by the caller's environment. *)
Definition message (a : BlockAssembler) (fresh : MessageId) (source : option MessageSource) : result Message panic :=
  result_bind (blocks a) (fun bs =>
    Ok (create_message fresh R_Assistant bs (default (MS_Plugin "dsh-llm/assembler" None) source))).

(** * The whole-stream reference *)

Definition chunk_index (c : StreamChunk) : option Z :=
  match c with
  | SC_BlockStart i _ | SC_TextDelta i _ | SC_ReasoningDelta i _ | SC_ToolCallDelta i _ _ _ | SC_BlockEnd i _ => Some i
  | _ => None
  end.

(** The chunks of one index, in stream order. *)
Definition chunks_at (i : Z) (cs : list StreamChunk) : list StreamChunk :=
  filter (fun c => chunk_index c = Some i) cs.

(** Indexes in order of first appearance. *)
Fixpoint first_seen (seen : list Z) (cs : list StreamChunk) : list Z :=
  match cs with
  | [] => seen
  | c :: cs => first_seen (match chunk_index c with
                           | Some i => if decide (i ∈ seen) then seen else seen ++ [i]
                           | None => seen end) cs
  end.

Definition chunk_type (c : StreamChunk) : BlockType :=
  match c with
  | SC_BlockStart _ bt => bt
  | SC_ReasoningDelta _ _ => BT_Reasoning
  | SC_ToolCallDelta _ _ _ _ => BT_ToolCall
  | SC_BlockEnd _ b => block_type b
  | _ => BT_Text
  end.

Definition end_block (c : StreamChunk) : option ContentBlock := match c with SC_BlockEnd _ b => Some b | _ => None end.
Definition delta_text (c : StreamChunk) : string :=
  match c with SC_TextDelta _ t | SC_ReasoningDelta _ t => t | _ => EmptyString end.
Definition delta_args (c : StreamChunk) : string := match c with SC_ToolCallDelta _ _ _ a => a | _ => EmptyString end.
Definition delta_id (c : StreamChunk) : option CallId := match c with SC_ToolCallDelta _ i _ _ => Some i | _ => None end.
Definition delta_name (c : StreamChunk) : option string :=
  match c with SC_ToolCallDelta _ _ (Some n) _ => if String.eqb n EmptyString then None else Some n | _ => None end.

(** The block one index denotes: its first [BlockEnd], else its deltas. *)
Definition reference_block (i : Z) (cs : list StreamChunk) : option ContentBlock :=
  let own := chunks_at i cs in
  match omap end_block own with
  | b :: _ => Some b
  | [] =>
      match own with
      | [] => None
      | c :: _ =>
          match chunk_type c with
          | BT_Text => Some (CB_Text (concat_strings (delta_text <$> own)))
          | BT_Reasoning => Some (CB_Reasoning (concat_strings (delta_text <$> own)))
          | BT_ToolCall => Some (CB_ToolCall (default ("call-" +:+ pretty (Z.to_N i)) (last (omap delta_id own)))
                                  (default EmptyString (last (omap delta_name own)))
                                  (concat_strings (delta_args <$> own)))
          | _ => None
          end
      end
  end.

(** * Lemmas *)

(** The effect of one chunk on the partial of its own index. *)
Definition step_partial (c : StreamChunk) (p : PartialBlock) : PartialBlock :=
  match c with
  | SC_TextDelta _ t | SC_ReasoningDelta _ t => append_text t p
  | SC_ToolCallDelta _ i n a => append_tool_call i n a p
  | SC_BlockEnd _ b => close_partial b p
  | _ => p
  end.

Lemma push_eq a c :
  push a c =
  match chunk_index c with
  | Some i => ensure_with i (chunk_type c) (step_partial c) a
  | None => mk_assembler (partials a) (order a) (asm_usage (push a c)) (asm_finish (push a c)) (asm_replay_state (push a c))
  end.
Proof. by destruct c. Qed.

(** The order vector lists the keys of the map, each once. *)
Definition asm_wf (a : BlockAssembler) : Prop :=
  NoDup (order a) /\ forall i, i ∈ order a <-> is_Some (partials a !! i).

Lemma asm_wf_new : asm_wf BlockAssembler_new.
Proof. split; simpl; [constructor|]. intros i. rewrite lookup_empty, is_Some_alt. set_solver. Qed.

Lemma ensure_with_lookup i j bt f a :
  partials (ensure_with i bt f a) !! j =
  if decide (i = j) then Some (f (default (PartialBlock_new bt) (partials a !! i))) else partials a !! j.
Proof.
  unfold ensure_with. destruct (partials a !! i) eqn:E; simpl; rewrite lookup_insert; by case_decide.
Qed.

Lemma ensure_with_order i bt f a :
  asm_wf a -> order (ensure_with i bt f a) = if decide (i ∈ order a) then order a else order a ++ [i].
Proof.
  intros [_ Hdom]. unfold ensure_with. specialize (Hdom i).
  destruct (partials a !! i) eqn:E; simpl; case_decide as Hi; try done.
  - exfalso. apply Hi, Hdom. eauto.
  - apply Hdom in Hi as [? [=]].
Qed.

Lemma ensure_with_wf i bt f a : asm_wf a -> asm_wf (ensure_with i bt f a).
Proof.
  intros Hwf. pose proof Hwf as [Hnd Hdom]. split.
  - rewrite ensure_with_order by done. case_decide; [done|].
    apply NoDup_app. split_and!; [done|set_solver|apply NoDup_singleton].
  - intros j. rewrite ensure_with_order, ensure_with_lookup by done.
    destruct (decide (i = j)) as [<-|Hij].
    + rewrite is_Some_alt. case_decide; set_solver.
    + rewrite <- Hdom. case_decide; set_solver.
Qed.

Lemma push_wf a c : asm_wf a -> asm_wf (push a c).
Proof. intros H. destruct c; simpl; auto using ensure_with_wf. Qed.

#[export] Hint Resolve asm_wf_new ensure_with_wf push_wf : keel.

Lemma push_all_wf a cs : asm_wf a -> asm_wf (push_all a cs).
Proof. revert a. induction cs as [|c cs IH]; intros a H; simpl; auto with keel. Qed.

Lemma push_all_order a cs : asm_wf a -> order (push_all a cs) = first_seen (order a) cs.
Proof.
  revert a. induction cs as [|c cs IH]; intros a H; simpl; [done|].
  unfold push_all in IH. rewrite IH by auto with keel. f_equal. rewrite push_eq.
  destruct (chunk_index c); simpl; [|done]. by apply ensure_with_order.
Qed.

(** The partial of an index after a list of its own chunks. *)
Definition fold_partial (own : list StreamChunk) : option PartialBlock :=
  foldl (fun op c => Some (step_partial c (default (PartialBlock_new (chunk_type c)) op))) None own.

Lemma fold_partial_snoc own c :
  fold_partial (own ++ [c]) = Some (step_partial c (default (PartialBlock_new (chunk_type c)) (fold_partial own))).
Proof. unfold fold_partial. by rewrite foldl_app. Qed.

Lemma chunks_at_snoc i cs c :
  chunks_at i (cs ++ [c]) = chunks_at i cs ++ (if decide (chunk_index c = Some i) then [c] else []).
Proof. unfold chunks_at. rewrite filter_app, filter_cons, filter_nil. done. Qed.

Lemma push_all_lookup i cs :
  partials (push_all BlockAssembler_new cs) !! i = fold_partial (chunks_at i cs).
Proof.
  induction cs as [|c cs IH] using rev_ind; [apply lookup_empty|].
  unfold push_all in *. rewrite foldl_app. simpl. rewrite push_eq, chunks_at_snoc.
  destruct (chunk_index c) as [j|]; simpl.
  - rewrite ensure_with_lookup. destruct (decide (j = i)) as [->|Hj].
    + rewrite decide_True by done. by rewrite fold_partial_snoc, IH.
    + rewrite decide_False by congruence. by rewrite app_nil_r.
  - by rewrite app_nil_r.
Qed.

Lemma last_snoc_app {A} (l1 l2 : list A) x : last (l1 ++ x :: l2) = last (x :: l2).
Proof. rewrite last_app. by destruct (last (x :: l2)) eqn:E; [|apply last_None in E]. Qed.

(** What the fold holds: type of the first chunk, first close, and, while
    unclosed, the concatenated deltas. *)
Record partial_describes (own : list StreamChunk) (p : PartialBlock) : Prop := {
  pd_type : head (chunk_type <$> own) = Some (pb_block_type p);
  pd_block : pb_block p = head (omap end_block own);
  pd_open : pb_block p = None ->
    pb_text p = concat_strings (delta_text <$> own)
    /\ pb_tool_call_arguments p = concat_strings (delta_args <$> own)
    /\ pb_tool_call_id p = last (omap delta_id own)
    /\ pb_tool_call_name p = last (omap delta_name own);
}.

Lemma partial_describes_init c : partial_describes [c] (step_partial c (PartialBlock_new (chunk_type c))).
Proof.
  destruct c as [| | |i id [n|] a| | |]; split; simpl; try done;
    intros _; rewrite ?str_app_nil_r; split_and!; try done; by destruct (String.eqb n _).
Qed.

Lemma partial_describes_step own p c :
  partial_describes own p -> partial_describes (own ++ [c]) (step_partial c p).
Proof.
  intros [Ht Hb Ho].
  assert (Hty : head (chunk_type <$> (own ++ [c])) = head (chunk_type <$> own))
    by (destruct own; [discriminate Ht|done]).
  assert (Hend : head (omap end_block (own ++ [c])) =
      match pb_block p with Some b => Some b | None => end_block c end).
  { rewrite omap_app, Hb. destruct (omap end_block own); simpl; [|done]. by destruct c. }
  assert (Hst : pb_block_type (step_partial c p) = pb_block_type p).
  { destruct c; simpl; try done; unfold append_text, append_tool_call, close_partial; by destruct (pb_block p). }
  split.
  - by rewrite Hty, Hst.
  - rewrite Hend. destruct (pb_block p) as [b|] eqn:Eb; destruct c; simpl;
      unfold append_text, append_tool_call, close_partial; by rewrite ?Eb.
  - intros Hnone. assert (Eb : pb_block p = None).
    { destruct (pb_block p) as [b|] eqn:Eb; [|done]. exfalso. revert Hnone.
      destruct c; simpl; unfold append_text, append_tool_call, close_partial; rewrite ?Eb; congruence. }
    destruct (Ho Eb) as (H1 & H2 & H3 & H4).
    rewrite !fmap_app, !omap_app. simpl. rewrite !concat_strings_snoc.
    destruct c as [| | |i id [n|] a| | |]; simpl in *;
      unfold append_text, append_tool_call, close_partial in *; rewrite ?Eb in *; simpl in *;
      rewrite ?app_nil_r, ?str_app_nil_r, ?last_snoc; try done;
      rewrite ?H1, ?H2, ?H3, ?H4; try by split_and!.
    destruct (String.eqb n EmptyString); rewrite ?app_nil_r, ?last_snoc; by split_and!.
Qed.

Lemma fold_partial_describes own p : fold_partial own = Some p -> partial_describes own p.
Proof.
  revert p. induction own as [|c own IH] using rev_ind; intros p; [done|].
  rewrite fold_partial_snoc. intros [= <-]. destruct (fold_partial own) as [q|] eqn:E; simpl.
  - apply partial_describes_step. by apply IH.
  - assert (own = []) as ->; [|apply partial_describes_init].
    destruct own as [|x own _] using rev_ind; [done|]. by rewrite fold_partial_snoc in E.
Qed.

Lemma assemble_reference i cs p :
  partials (push_all BlockAssembler_new cs) !! i = Some p ->
  assemble p i = ok_or (reference_block i cs) (Panic "cannot assemble incomplete block").
Proof.
  rewrite push_all_lookup. intros [Ht Hb Ho]%fold_partial_describes.
  unfold assemble, reference_block. destruct (omap end_block (chunks_at i cs)) as [|b l] eqn:El; simpl in Hb.
  - destruct (Ho Hb) as (H1 & H2 & H3 & H4). rewrite Hb. destruct (chunks_at i cs) as [|c own]; [done|].
    simpl in Ht. injection Ht as Ht. rewrite Ht, <- H1, <- H2, <- H3, <- H4. by destruct (pb_block_type p).
  - by rewrite Hb.
Qed.

Lemma map_result_ext {A B E} (f g : A -> result B E) l :
  (forall x, x ∈ l -> f x = g x) -> map_result f l = map_result g l.
Proof.
  induction l as [|x l IH]; intros H; simpl; [done|]. rewrite H by set_solver.
  rewrite IH by (intros; apply H; set_solver). done.
Qed.

Lemma map_result_total {A B E} (f : A -> result B E) l :
  (forall x, x ∈ l -> exists y, f x = Ok y) -> exists ys, map_result f l = Ok ys.
Proof.
  induction l as [|x l IH]; intros H; simpl; [by eexists|].
  destruct (H x) as [y ->]; [set_solver|]. destruct IH as [ys ->]; [intros; apply H; set_solver|].
  by eexists.
Qed.

Lemma finish_push a c :
  finish (push a c) = match c with SC_Finish reason _ => reason | _ => finish a end.
Proof. unfold finish. destruct c; simpl; unfold ensure_with; try by destruct (partials a !! index). all: done. Qed.

(** The finish reason after a stream: the last [Finish] chunk's, [Stop] without one. *)
Definition reference_finish (cs : list StreamChunk) : FinishReason :=
  default FR_Stop (last (omap (fun c => match c with SC_Finish r _ => Some r | _ => None end) cs)).

Lemma push_all_finish cs : finish (push_all BlockAssembler_new cs) = reference_finish cs.
Proof.
  unfold reference_finish, push_all. induction cs as [|c cs IH] using rev_ind; [done|].
  rewrite foldl_app, omap_app. simpl. rewrite finish_push, IH.
  destruct c; simpl; rewrite ?app_nil_r, ?last_snoc; done.
Qed.

Lemma elem_of_order_push_all i cs :
  i ∈ order (push_all BlockAssembler_new cs) -> is_Some (partials (push_all BlockAssembler_new cs) !! i).
Proof. intros H. apply (proj2 (push_all_wf _ cs asm_wf_new) i). done. Qed.

(** * Properties *)

(** Whatever chunks arrive, in whatever interleaving, the
    incremental assembler computes exactly the whole-stream reference: one
    block per index in order of first appearance, each the first [BlockEnd] of
    its index or else the concatenation of its deltas, with tool calls dropped
    when the response was truncated at its token limit. *)
Theorem assembler_reference (cs : list StreamChunk) :
  blocks (push_all BlockAssembler_new cs) =
  result_bind
    (map_result (fun i => ok_or (reference_block i cs) (Panic "cannot assemble incomplete block")) (first_seen [] cs))
    (fun bs => Ok (match reference_finish cs with
                   | FR_MaxTokens => List.filter (fun b => negb (is_tool_call b)) bs
                   | _ => bs
                   end)).
Proof.
  unfold blocks. rewrite push_all_finish.
  rewrite (map_result_ext _ (fun i => ok_or (reference_block i cs) (Panic "cannot assemble incomplete block"))).
  - by rewrite push_all_order by apply asm_wf_new.
  - intros i Hi. destruct (elem_of_order_push_all i cs Hi) as [p Hp]. rewrite Hp. by apply assemble_reference.
Qed.

Definition assemblable (bt : BlockType) : bool :=
  match bt with BT_Text | BT_Reasoning | BT_ToolCall => true | _ => false end.

Lemma elem_of_first_seen i seen cs :
  i ∈ first_seen seen cs <-> i ∈ seen \/ exists c, c ∈ cs /\ chunk_index c = Some i.
Proof.
  revert seen. induction cs as [|c cs IH]; intros seen; simpl; [set_solver|].
  rewrite IH. destruct (chunk_index c) as [j|] eqn:E.
  - case_decide; set_solver.
  - set_solver.
Qed.

Lemma reference_block_total i cs c :
  c ∈ cs -> chunk_index c = Some i ->
  (forall j bt, SC_BlockStart j bt ∈ cs -> assemblable bt = true) ->
  exists b, reference_block i cs = Some b.
Proof.
  intros Hc Hi Hstart. unfold reference_block.
  destruct (omap end_block (chunks_at i cs)) as [|b l] eqn:El; [|by eexists].
  destruct (chunks_at i cs) as [|d own] eqn:Eown.
  { assert (c ∈ chunks_at i cs) as Hin by (by apply list_elem_of_filter).
    rewrite Eown in Hin. by apply not_elem_of_nil in Hin. }
  assert (d ∈ cs) as Hd.
  { assert (d ∈ chunks_at i cs) as Hd by (rewrite Eown; apply list_elem_of_here). by apply list_elem_of_filter in Hd as [_ ?]. }
  destruct d as [j bt| | | |j b| |]; try discriminate El; simpl; try by eexists.
  specialize (Hstart j bt Hd). destruct bt; try done; by eexists.
Qed.

(** The assembler's panic is unreachable for the adapters' protocol: as
    long as no [BlockStart] announces an image or tool-result block, [blocks]
    returns on every prefix of every stream. *)
Theorem assembler_never_panics (cs : list StreamChunk) :
  (forall j bt, SC_BlockStart j bt ∈ cs -> assemblable bt = true) ->
  exists bs, blocks (push_all BlockAssembler_new cs) = Ok bs.
Proof.
  intros Hstart. rewrite assembler_reference.
  destruct (map_result_total (fun i => ok_or (reference_block i cs) (Panic "cannot assemble incomplete block")) (first_seen [] cs)) as [bs ->].
  - intros i Hi. apply elem_of_first_seen in Hi as [Hi|(c & Hc & Hi)]; [set_solver|].
    destruct (reference_block_total i cs c Hc Hi Hstart) as [b ->]. by eexists.
  - by eexists.
Qed.

Lemma assembler_never_panics_witness :
  exists bs, blocks (push_all BlockAssembler_new
    [SC_BlockStart 0 BT_Text; SC_TextDelta 0 "hi"; SC_ToolCallDelta 1 "c1" (Some "read"%string) "{}"]) = Ok bs.
Proof.
  apply (assembler_never_panics [SC_BlockStart 0 BT_Text; SC_TextDelta 0 "hi"; SC_ToolCallDelta 1 "c1" (Some "read"%string) "{}"]).
  intros j bt Hin. rewrite !elem_of_cons in Hin. destruct Hin as [[= -> ->]|[[=]|[[=]|Hin]]]; [done|by apply not_elem_of_nil in Hin].
Defined.
