(* ===== verification/Serialize.v ===== *)
(** The DeepSeek request body, [crates/dsh/llm-deepseek/src/serialize.rs] and
    the request half of [wire.rs]: thinking resolution, the conversation on the
    wire, and what each keeps of the messages it was given. *)
From Stdlib Require Import ZArith String.
From stdpp Require Import base tactics list countable strings gmap.
From S2P Require Import Prelude Json Llm Model.
Open Scope keel_scope.

(** * Wire types *)

(** [kind] fields are the constant ["function"]; [arguments] is raw JSON text. *)
Record WireFunctionCall := mk_wfc { wfc_name : string; wfc_arguments : string }.
Record WireToolCall := mk_wtcall { wtcall_id : string; wtcall_kind : string; wtcall_function : WireFunctionCall }.
Record WireFunctionDef := mk_wfdef {
  wfdef_name : string;
  wfdef_description : string;
  wfdef_parameters : list (string * Value);
}.
Record WireTool := mk_wtool { wtool_kind : string; wtool_function : WireFunctionDef }.

Inductive WireMessage :=
| WM_System (content : string)
| WM_User (content : string)
| WM_Assistant (content : string) (reasoning_content : option string) (tool_calls : option (list WireToolCall))
| WM_Tool (tool_call_id content : string).

(** [stream] is always true and [stream_options] always asks for usage. *)
Record WireRequest := mk_wire_request {
  wr_model : string;
  wr_messages : list WireMessage;
  wr_stream : bool;
  wr_include_usage : bool;
  wr_thinking : option string;
  wr_reasoning_effort : option string;
  wr_tools : option (list WireTool);
  wr_temperature : option f64;
  wr_max_tokens : option Z;
  wr_stop : option (list string);
}.

(** * Thinking *)

Record RequestDefaults := mk_defaults { rd_thinking : option string; rd_reasoning_effort : option string }.
Record ResolvedThinking := mk_thinking { rt_thinking : option string; rt_reasoning_effort : option string }.

Definition quoted (s : string) : string := String (Ascii.ascii_of_nat 34) (s +:+ String (Ascii.ascii_of_nat 34) EmptyString).

Definition validated_effort (effort : string) : result string LlmError :=
  if String.eqb effort "off" || String.eqb effort "high" || String.eqb effort "max" then Ok effort
  else Err (llm_error ("DeepSeek does not support reasoning effort " +:+ quoted effort) "UNSUPPORTED_REASONING_EFFORT").

Definition resolve_thinking (options : GenerateOptions) (defaults : RequestDefaults) : result ResolvedThinking LlmError :=
  if decide (go_purpose options = Some CP_SessionTitle) then Ok (mk_thinking (Some "disabled") None)
  else
    let? effort := match go_reasoning_effort options with
                   | Some effort => let? e := validated_effort effort in Ok (Some e)
                   | None => Ok (rd_reasoning_effort defaults)
                   end in
    let fits :=
      if decide (rd_thinking defaults = Some "disabled") then
        match effort with
        | Some effort =>
            if String.eqb effort "off" then Ok tt
            else Err (llm_error ("DeepSeek deployment does not support reasoning effort " +:+ quoted effort) "UNSUPPORTED_REASONING_EFFORT")
        | None => Ok tt
        end
      else Ok tt in
    let? _ := fits in
    Ok (match effort with
        | Some effort =>
            if String.eqb effort "off" then mk_thinking (Some "disabled") None
            else if String.eqb effort "high" || String.eqb effort "max" then mk_thinking (Some "enabled") (Some effort)
            else mk_thinking (rd_thinking defaults) None
        | None => mk_thinking (rd_thinking defaults) None
        end).

(** * The conversation *)

Definition flatten_text (blocks : list ContentBlock) : string :=
  concat_strings (omap (fun b => match b with CB_Text text => Some text | _ => None end) blocks).

Definition assert_text_only (blocks : list ContentBlock) : result () LlmError :=
  if content_has_image blocks
  then Err (llm_error "The DeepSeek chat-completions adapter does not support image content." "UNSUPPORTED_CONTENT")
  else Ok tt.

Definition reasoning_text (blocks : list ContentBlock) : string :=
  concat_strings (omap (fun b => match b with CB_Reasoning text => Some text | _ => None end) blocks).
Definition wire_tool_calls (blocks : list ContentBlock) : list WireToolCall :=
  omap (fun b => match b with
    | CB_ToolCall id name arguments => Some (mk_wtcall id "function" (mk_wfc name arguments))
    | _ => None
    end) blocks.

Definition serialize_assistant (message : Message) : WireMessage :=
  let text := flatten_text (msg_content message) in
  let reasoning := reasoning_text (msg_content message) in
  let tool_calls := wire_tool_calls (msg_content message) in
  WM_Assistant text
    (if negb (bool_decide (tool_calls = [])) && negb (String.eqb reasoning "") then Some reasoning else None)
    (if negb (bool_decide (tool_calls = [])) then Some tool_calls else None).

Definition tool_results (blocks : list ContentBlock) : list (CallId * list ContentBlock) :=
  omap (fun b => match b with CB_ToolResult id content _ => Some (id, content) | _ => None end) blocks.
Definition wire_result (r : CallId * list ContentBlock) : WireMessage :=
  let flattened := flatten_text (snd r) in
  WM_Tool (fst r) (if String.eqb flattened "" then "(no output)" else flattened).

Definition serialize_user (message : Message) : list WireMessage :=
  let results := tool_results (msg_content message) in
  let text := flatten_text (msg_content message) in
  (if negb (String.eqb text "") || bool_decide (results = []) then [WM_User text] else []) ++ (wire_result <$> results).

(** The body of the loop over the messages. *)
Definition serialize_message (wire : list WireMessage) (message : Message) : result (list WireMessage) LlmError :=
  let? _ := assert_text_only (msg_content message) in
  Ok (wire ++ match msg_role message with
              | R_System => [WM_System (flatten_text (msg_content message))]
              | R_Assistant => [serialize_assistant message]
              | R_User => serialize_user message
              end).
Definition serialize_messages (messages : list Message) : result (list WireMessage) LlmError :=
  try_fold serialize_message [] messages.

Definition wire_tool (tool : ToolSchema) : WireTool :=
  mk_wtool "function" (mk_wfdef (ts_name tool) (ts_description tool) (ts_parameters tool)).

Definition serialize_request (options : GenerateOptions) (defaults : RequestDefaults) : result WireRequest LlmError :=
  let? rest := serialize_messages (go_messages options) in
  let messages := match go_system options with Some system => [WM_System system] | None => [] end ++ rest in
  let tools := match go_tools options with
               | Some [] | None => None
               | Some tools => Some (wire_tool <$> tools)
               end in
  let? resolved := resolve_thinking options defaults in
  Ok (mk_wire_request (go_model options) messages true true (rt_thinking resolved) (rt_reasoning_effort resolved)
    tools (go_temperature options) (go_max_tokens options) (go_stop options)).

(** * What the wire should say *)

(** The blocks of one kind, in their order, whatever lies between them. *)
Inductive picks {A} (p : ContentBlock -> A -> Prop) : list ContentBlock -> list A -> Prop :=
| PK_Nil : picks p [] []
| PK_Take b a l as_ : p b a -> picks p l as_ -> picks p (b :: l) (a :: as_)
| PK_Skip b l as_ : (forall a, ~ p b a) -> picks p l as_ -> picks p (b :: l) as_.
Definition is_text (b : ContentBlock) (t : string) : Prop := b = CB_Text t.
Definition is_reasoning (b : ContentBlock) (t : string) : Prop := b = CB_Reasoning t.
Definition is_call (b : ContentBlock) (c : WireToolCall) : Prop :=
  exists id name arguments, b = CB_ToolCall id name arguments /\ c = mk_wtcall id "function" (mk_wfc name arguments).
Definition is_answer (b : ContentBlock) (r : CallId * list ContentBlock) : Prop := exists is_error, b = CB_ToolResult r.1 r.2 is_error.
(** The pieces of text one after another. *)
Definition text_of (kind : ContentBlock -> string -> Prop) (l : list ContentBlock) (s : string) : Prop :=
  exists ts, picks kind l ts /\ s = foldr String.append "" ts.

(** The answer of one call: all its text, or a placeholder when it has none. *)
Definition answers (r : CallId * list ContentBlock) (w : WireMessage) : Prop :=
  exists t, text_of is_text r.2 t /\ w = WM_Tool r.1 (if decide (t = "") then "(no output)" else t).
(** What one message becomes.  A user message is its text, if it has any or
    answers nothing, and then its answers in order; reasoning goes with calls
    only; calls outside an assistant message, and answers outside a user
    message, are not sent. *)
Definition carries (m : Message) (ws : list WireMessage) : Prop :=
  exists t, text_of is_text (msg_content m) t /\
  match msg_role m with
  | R_System => ws = [WM_System t]
  | R_User => exists rs answered, picks is_answer (msg_content m) rs /\ Forall2 answers rs answered
      /\ ws = (if decide (t = "" /\ rs <> []) then [] else [WM_User t]) ++ answered
  | R_Assistant => exists reasoning calls, text_of is_reasoning (msg_content m) reasoning /\ picks is_call (msg_content m) calls
      /\ ws = [if decide (calls = []) then WM_Assistant t None None
               else WM_Assistant t (if decide (reasoning = "") then None else Some reasoning) (Some calls)]
  end.

(** An image, also inside a tool result. *)
Inductive holds_image : ContentBlock -> Prop :=
| HI_Image a : holds_image (CB_Image a)
| HI_Result id content is_error b : b ∈ content -> holds_image b -> holds_image (CB_ToolResult id content is_error).

(** A wire message the endpoint accepts: no empty tool answer, no empty call
    list, reasoning only on a turn with calls. *)
Definition wire_ok (w : WireMessage) : Prop :=
  match w with
  | WM_Assistant _ reasoning calls => calls <> Some [] /\ (is_Some reasoning -> is_Some calls) /\ reasoning <> Some ""
  | WM_Tool _ content => content <> ""
  | _ => True
  end.

Definition serialized (m : Message) : list WireMessage :=
  match msg_role m with
  | R_System => [WM_System (flatten_text (msg_content m))]
  | R_Assistant => [serialize_assistant m]
  | R_User => serialize_user m
  end.

Lemma serialize_messages_ok ms wire :
  serialize_messages ms = Ok wire <->
  Forall (fun m => content_has_image (msg_content m) = false) ms /\ wire = concat (serialized <$> ms).
Proof.
  unfold serialize_messages. revert wire. induction ms as [|m ms IH] using rev_ind; intros wire.
  - simpl. split; [intros [= <-]; by repeat constructor|by intros [_ ->]].
  - rewrite try_fold_snoc, result_bind_Ok, Forall_app, fmap_app, concat_app. split.
    + intros (w & Hw & H). apply IH in Hw as [Hall ->]. unfold serialize_message, assert_text_only in H.
      destruct (content_has_image (msg_content m)) eqn:E; [done|]. injection H as <-.
      split; [by repeat constructor|]. simpl. by rewrite app_nil_r.
    + intros [[Hall Hm] ->]. exists (concat (serialized <$> ms)). split; [by apply IH|].
      inversion Hm as [|? ? E _]. unfold serialize_message, assert_text_only. rewrite E. simpl. by rewrite app_nil_r.
Qed.

Lemma serialize_messages_err ms e :
  serialize_messages ms = Err e -> err_code e = "UNSUPPORTED_CONTENT"
  /\ Exists (fun m => content_has_image (msg_content m) = true) ms.
Proof.
  unfold serialize_messages. induction ms as [|m ms IH] using rev_ind; [done|]. rewrite try_fold_snoc.
  destruct (try_fold serialize_message [] ms) as [w|e'] eqn:E; simpl.
  - unfold serialize_message, assert_text_only. destruct (content_has_image (msg_content m)) eqn:Em; [|done].
    intros [= <-]. split; [done|]. apply Exists_app. right. by constructor.
  - intros [= ->]. destruct IH as [Hc Hex]; [done|]. split; [done|]. apply Exists_app. by left.
Qed.

Lemma picks_omap {A} (p : ContentBlock -> A -> Prop) (f : ContentBlock -> option A) l :
  (forall b, match f b with Some a => p b a | None => forall a, ~ p b a end) -> picks p l (omap f l).
Proof.
  intros H. induction l as [|b l IH]; [constructor|]. rewrite list_omap_cons. specialize (H b).
  destruct (f b); [by apply PK_Take|by apply PK_Skip].
Qed.
Lemma concat_foldr l : concat_strings l = foldr String.append "" l.
Proof. induction l as [|x l IH]; [done|]. cbn. by rewrite IH. Qed.
Lemma flatten_text_of l : text_of is_text l (flatten_text l).
Proof.
  eexists. split; [|apply concat_foldr]. apply picks_omap. intros [t| | | |]; unfold is_text; done.
Qed.
Lemma reasoning_text_of l : text_of is_reasoning l (reasoning_text l).
Proof.
  eexists. split; [|apply concat_foldr]. apply picks_omap. intros [|t| | |]; unfold is_reasoning; done.
Qed.
Lemma wire_tool_calls_picked l : picks is_call l (wire_tool_calls l).
Proof. apply picks_omap. intros [| | |id name args|]; unfold is_call; [naive_solver..|by eexists _, _, _|naive_solver]. Qed.
Lemma tool_results_picked l : picks is_answer l (tool_results l).
Proof. apply picks_omap. intros [| | | |id content e]; unfold is_answer; [naive_solver..|by exists e]. Qed.
Lemma wire_result_answers r : answers r (wire_result r).
Proof.
  exists (flatten_text r.2). split; [apply flatten_text_of|]. unfold wire_result. f_equal.
  destruct (String.eqb_spec (flatten_text r.2) ""); by case_decide.
Qed.
Lemma serialized_carries m : carries m (serialized m).
Proof.
  exists (flatten_text (msg_content m)). split; [apply flatten_text_of|]. unfold serialized. destruct (msg_role m); [done|..].
  - exists (tool_results (msg_content m)), (wire_result <$> tool_results (msg_content m)). split_and!.
    + apply tool_results_picked.
    + apply Forall2_fmap_r, Forall_Forall2_diag, Forall_forall. intros r _. apply wire_result_answers.
    + unfold serialize_user. f_equal. destruct (String.eqb_spec (flatten_text (msg_content m)) ""); cbn [negb orb].
      * case_bool_decide; case_decide; naive_solver.
      * case_decide; naive_solver.
  - exists (reasoning_text (msg_content m)), (wire_tool_calls (msg_content m)). split_and!; [apply reasoning_text_of|apply wire_tool_calls_picked|].
    unfold serialize_assistant. case_bool_decide; case_decide; try done. cbn [negb andb].
    destruct (String.eqb_spec (reasoning_text (msg_content m)) ""); by case_decide.
Qed.

Lemma has_image_spec b : block_has_image b = true <-> holds_image b.
Proof.
  induction b as [t|t|a|i n a|i c e IH] using ContentBlock_ind'; cbn [block_has_image].
  - split; [done|by inversion 1].
  - split; [done|by inversion 1].
  - split; [by constructor|done].
  - split; [done|by inversion 1].
  - rewrite existsb_exists. rewrite Forall_forall in IH. split.
    + intros (b & Hb%list_elem_of_In & Hi). apply (HI_Result i c e b); [done|]. by apply IH.
    + inversion 1 as [|? ? ? b Hb Hi]; subst. exists b. split; [by apply list_elem_of_In|by apply IH].
Qed.
Lemma content_has_image_spec l : content_has_image l = true <-> Exists holds_image l.
Proof.
  unfold content_has_image. rewrite existsb_exists, Exists_exists. split; intros (b & Hb & Hi); exists b;
    (split; [by apply list_elem_of_In|by apply has_image_spec]).
Qed.

Lemma serialized_wire_ok m : Forall wire_ok (serialized m).
Proof.
  unfold serialized. destruct (msg_role m).
  - by repeat constructor.
  - unfold serialize_user. apply Forall_app. split; [by destruct (_ || _); repeat constructor|].
    apply Forall_fmap, Forall_forall. intros [id content] _. simpl. by destruct (String.eqb_spec (flatten_text content) "").
  - constructor; [|done]. simpl. destruct (wire_tool_calls (msg_content m)) as [|c l]; simpl.
    + split_and!; [done|intros [? [=]]|done].
    + destruct (String.eqb_spec (reasoning_text (msg_content m)) ""); simpl; naive_solver.
Qed.

(** C40. The request carries the conversation faithfully, or the call is
    refused: serialisation fails exactly when a message holds an image, be it
    inside a tool result (with the content code), and otherwise the wire is
    what each message becomes, one after another: a system message its whole
    text; an assistant message its whole text, every call with its arguments
    and, when it calls, its whole reasoning; a user message its whole text and
    then every tool answer in full, never an empty one.  Each wire message is
    one the endpoint accepts. *)
Theorem serialized_conversation (ms : list Message) :
  match serialize_messages ms with
  | Err e => err_code e = "UNSUPPORTED_CONTENT" /\ Exists (fun m => Exists holds_image (msg_content m)) ms
  | Ok wire =>
      Forall (fun m => ~ Exists holds_image (msg_content m)) ms
      /\ (exists parts, Forall2 carries ms parts /\ wire = concat parts)
      /\ Forall wire_ok wire
  end.
Proof.
  destruct (serialize_messages ms) as [wire|e] eqn:E.
  - apply serialize_messages_ok in E as [Hall ->]. split_and!.
    + eapply Forall_impl; [exact Hall|]. intros m Hm Hi%content_has_image_spec. congruence.
    + exists (serialized <$> ms). split; [|done]. apply Forall2_fmap_r, Forall_Forall2_diag, Forall_forall. intros m _. apply serialized_carries.
    + apply Forall_concat, Forall_fmap, Forall_forall. intros m _. apply serialized_wire_ok.
  - apply serialize_messages_err in E as [Hc Hex]. split; [done|]. eapply Exists_impl; [exact Hex|]. intros m Hm. by apply content_has_image_spec.
Qed.

(** Thinking is resolved legally or refused: the wire never carries an
    effort other than high or max, never one without thinking enabled, and none
    at all for a title or for a deployment that disables thinking; the only
    refusals are an effort the provider does not know and one a disabled
    deployment cannot serve. *)
Theorem thinking_resolved (options : GenerateOptions) (defaults : RequestDefaults) :
  match resolve_thinking options defaults with
  | Ok r =>
      (rt_reasoning_effort r = None \/ (rt_thinking r = Some "enabled" /\
         (rt_reasoning_effort r = Some "high" \/ rt_reasoning_effort r = Some "max")))
      /\ (go_purpose options = Some CP_SessionTitle \/ rd_thinking defaults = Some "disabled" ->
          rt_thinking r = Some "disabled" /\ rt_reasoning_effort r = None)
      /\ (forall effort, go_purpose options <> Some CP_SessionTitle -> go_reasoning_effort options = Some effort ->
          (effort = "off" /\ rt_thinking r = Some "disabled") \/ rt_reasoning_effort r = Some effort)
  | Err e =>
      err_code e = "UNSUPPORTED_REASONING_EFFORT" /\ go_purpose options <> Some CP_SessionTitle
      /\ exists effort, effort <> "off" /\
           ((go_reasoning_effort options = Some effort /\ effort <> "high" /\ effort <> "max")
            \/ (rd_thinking defaults = Some "disabled"
                /\ default (rd_reasoning_effort defaults) (Some <$> go_reasoning_effort options) = Some effort))
  end.
Proof.
  unfold resolve_thinking. destruct (decide (go_purpose options = Some CP_SessionTitle)) as [Ht|Ht].
  { simpl. split_and!; [by left|done|done]. }
  unfold validated_effort. destruct (go_reasoning_effort options) as [e|]; simpl.
  - destruct (String.eqb_spec e "off") as [->|]; simpl;
      [|destruct (String.eqb_spec e "high") as [->|]; simpl; [|destruct (String.eqb_spec e "max") as [->|]; simpl]];
      try (destruct (decide (rd_thinking defaults = Some "disabled")); simpl); naive_solver.
  - destruct (decide (rd_thinking defaults = Some "disabled")) as [Hd|Hd]; destruct (rd_reasoning_effort defaults) as [e|]; simpl;
      try (destruct (String.eqb_spec e "off") as [->|]); simpl;
      try (destruct (String.eqb_spec e "high") as [->|]); simpl;
      try (destruct (String.eqb_spec e "max") as [->|]); simpl; naive_solver.
Qed.
