(* ===== verification/Retry.v ===== *)
(** Provider retry policies, [crates/dsh/llm/src/retry.rs]: validation,
    defaults, and the exact set of configurations that are accepted. *)
From Stdlib Require Import ZArith String SpecFloat.
From stdpp Require Import base tactics list countable strings gmap.
From S2P Require Import Prelude Json Llm.
Open Scope keel_scope.

(** * Configuration *)

Definition DEFAULT_MAX_RETRIES : Z := 2.
Definition DEFAULT_INITIAL_DELAY_MS : f64 := f64_of_Z 500.
Definition DEFAULT_MAX_DELAY_MS : f64 := f64_of_Z 10000.
(** 0.1, rounded to binary64. *)
Definition DEFAULT_JITTER_RATIO : f64 := S754_finite false 7205759403792794 (-56).
Definition MAX_TIMER_DELAY_MS : f64 := f64_of_Z 2147483647.
Definition EMPTY_RESPONSE : string := "EMPTY_RESPONSE".
Definition default_retryable_codes : list string := [EMPTY_RESPONSE; "RATE_LIMIT"; "SERVER"; "TIMEOUT"; "TRANSPORT"].

Record BackoffConfig := mk_backoff_config {
  bc_initial_delay_ms : option f64;
  bc_max_delay_ms : option f64;
  bc_jitter_ratio : option f64;
}.

Inductive RetryPolicyConfig :=
| RPC_Normal (max_retries : option Z) (retryable_codes : option (list string)) (backoff : option BackoffConfig)
| RPC_Always (backoff : option BackoffConfig).

Record ResolvedRetryBackoff := mk_backoff { rb_initial_delay_ms : f64; rb_max_delay_ms : f64; rb_jitter_ratio : f64 }.

Inductive ResolvedRetryPolicy :=
| RP_Normal (max_retries : Z) (retryable_codes : list string) (backoff : ResolvedRetryBackoff)
| RP_Always (backoff : ResolvedRetryBackoff).

Definition policy_backoff (p : ResolvedRetryPolicy) : ResolvedRetryBackoff :=
  match p with RP_Normal _ _ b | RP_Always b => b end.

(** * Resolution *)

Definition delay_bad (d : f64) : bool := negb (f64_is_finite d) || f64_leb d f64_zero || f64_ltb MAX_TIMER_DELAY_MS d.

Definition resolve_backoff (config : option BackoffConfig) (path : string) : result ResolvedRetryBackoff string :=
  let initial_delay_ms := default DEFAULT_INITIAL_DELAY_MS (config ≫= bc_initial_delay_ms) in
  let max_delay_ms := default DEFAULT_MAX_DELAY_MS (config ≫= bc_max_delay_ms) in
  let jitter_ratio := default DEFAULT_JITTER_RATIO (config ≫= bc_jitter_ratio) in
  if delay_bad initial_delay_ms
  then Err (path +:+ ".initialDelayMs must be a positive finite number no greater than 2147483647")
  else if delay_bad max_delay_ms
  then Err (path +:+ ".maxDelayMs must be a positive finite number no greater than 2147483647")
  else if f64_ltb max_delay_ms initial_delay_ms
  then Err (path +:+ ".initialDelayMs must be less than or equal to maxDelayMs")
  else if negb (f64_is_finite jitter_ratio) || negb (f64_leb f64_zero jitter_ratio && f64_leb jitter_ratio f64_one)
  then Err (path +:+ ".jitterRatio must be between 0 and 1")
  else Ok (mk_backoff initial_delay_ms max_delay_ms jitter_ratio).

Definition resolve_retry_policy (config : option RetryPolicyConfig) (path : string) : result ResolvedRetryPolicy string :=
  match config with
  | None =>
      let? backoff := resolve_backoff None (path +:+ ".backoff") in
      Ok (RP_Normal DEFAULT_MAX_RETRIES default_retryable_codes backoff)
  | Some (RPC_Normal max_retries retryable_codes backoff) =>
      let max_retries := default DEFAULT_MAX_RETRIES max_retries in
      let retryable_codes := default default_retryable_codes retryable_codes in
      if bool_decide (retryable_codes = []) then Err (path +:+ ".retryableCodes must not be empty")
      else if existsb (fun code => String.eqb code "") retryable_codes
      then Err (path +:+ ".retryableCodes must contain only non-empty strings")
      else if negb (size (list_to_set retryable_codes : gset string) =? length retryable_codes)
      then Err (path +:+ ".retryableCodes must not contain duplicates")
      else let? backoff := resolve_backoff backoff (path +:+ ".backoff") in
           Ok (RP_Normal max_retries retryable_codes backoff)
  | Some (RPC_Always backoff) =>
      let? backoff := resolve_backoff backoff (path +:+ ".backoff") in
      Ok (RP_Always backoff)
  end.

(** * The contract *)

Definition delay_ok (d : f64) : Prop :=
  f64_is_finite d = true /\ f64_ltb f64_zero d = true /\ f64_leb d MAX_TIMER_DELAY_MS = true.
Definition backoff_ok (b : ResolvedRetryBackoff) : Prop :=
  delay_ok (rb_initial_delay_ms b) /\ delay_ok (rb_max_delay_ms b)
  /\ f64_leb (rb_initial_delay_ms b) (rb_max_delay_ms b) = true
  /\ f64_is_finite (rb_jitter_ratio b) = true
  /\ f64_leb f64_zero (rb_jitter_ratio b) = true /\ f64_leb (rb_jitter_ratio b) f64_one = true.
Definition policy_ok (p : ResolvedRetryPolicy) : Prop :=
  backoff_ok (policy_backoff p)
  /\ match p with
     | RP_Normal _ codes _ => codes <> [] /\ "" ∉ codes /\ NoDup codes
     | RP_Always _ => True
     end.

(** The configuration with its omissions filled in: what is to be checked. *)
Definition filled_backoff (c : option BackoffConfig) : ResolvedRetryBackoff :=
  mk_backoff (default DEFAULT_INITIAL_DELAY_MS (c ≫= bc_initial_delay_ms))
    (default DEFAULT_MAX_DELAY_MS (c ≫= bc_max_delay_ms)) (default DEFAULT_JITTER_RATIO (c ≫= bc_jitter_ratio)).
Definition filled (c : option RetryPolicyConfig) : ResolvedRetryPolicy :=
  match c with
  | None => RP_Normal DEFAULT_MAX_RETRIES default_retryable_codes (filled_backoff None)
  | Some (RPC_Normal n codes b) =>
      RP_Normal (default DEFAULT_MAX_RETRIES n) (default default_retryable_codes codes) (filled_backoff b)
  | Some (RPC_Always b) => RP_Always (filled_backoff b)
  end.

Lemma delay_bad_false d : delay_bad d = false <-> delay_ok d.
Proof.
  unfold delay_bad, delay_ok. rewrite !orb_false_iff, negb_false_iff.
  assert (Hz : f64_is_finite f64_zero = true) by reflexivity.
  assert (Hm : f64_is_finite MAX_TIMER_DELAY_MS = true) by (vm_compute; reflexivity).
  split.
  - intros [[Hf H0] H1]. rewrite f64_leb_negb_ltb in H0 by done. rewrite f64_leb_negb_ltb by done.
    split_and!; [done|by apply negb_false_iff|by rewrite H1].
  - intros (Hf & H0 & H1). rewrite f64_leb_negb_ltb in H1 by done. rewrite f64_leb_negb_ltb by done.
    rewrite H0. split_and!; [done|done|by apply negb_true_iff].
Qed.

Lemma size_list_to_set_nodup (l : list string) : size (list_to_set l : gset string) = length l <-> NoDup l.
Proof.
  split; [|intros; by apply size_list_to_set].
  induction l as [|x l IH]; [constructor|]. cbn [list_to_set foldr length]. intros H.
  assert (Hle : size (list_to_set l : gset string) <= length l).
  { clear. induction l as [|x l IH]; [done|]. cbn [list_to_set foldr length].
    rewrite size_union_alt, size_singleton.
    pose proof (subseteq_size (list_to_set l ∖ {[x]}) (list_to_set l : gset string) ltac:(set_solver)). lia. }
  destruct (decide (x ∈ (list_to_set l : gset string))) as [Hx|Hx].
  - replace ({[x]} ∪ list_to_set l : gset string) with (list_to_set l : gset string) in H by set_solver. lia.
  - constructor; [set_solver|]. apply IH. rewrite size_union, size_singleton in H by set_solver. lia.
Qed.

Lemma resolve_backoff_spec c path :
  (resolve_backoff c path = Ok (filled_backoff c) /\ backoff_ok (filled_backoff c))
  \/ ((exists e, resolve_backoff c path = Err e) /\ ~ backoff_ok (filled_backoff c)).
Proof.
  unfold resolve_backoff, backoff_ok, filled_backoff. simpl.
  set (i := default _ (_ ≫= bc_initial_delay_ms)). set (m := default _ (_ ≫= bc_max_delay_ms)).
  set (j := default _ (_ ≫= bc_jitter_ratio)). clearbody i m j.
  destruct (delay_bad i) eqn:Ei.
  { right. split; [by eexists|]. rewrite <- delay_bad_false. intros [? _]. congruence. }
  destruct (delay_bad m) eqn:Em.
  { right. split; [by eexists|]. rewrite <- (delay_bad_false m). intros (_ & ? & _). congruence. }
  apply delay_bad_false in Ei, Em. pose proof Ei as (Hi & _ & _). pose proof Em as (Hm & _ & _).
  rewrite (f64_leb_negb_ltb i m) by done. destruct (f64_ltb m i); [right; split; [by eexists|intros (_ & _ & H & _); discriminate H]|].
  destruct (f64_is_finite j); [|right; split; [by eexists|intros (_ & _ & _ & [=] & _)]].
  destruct (f64_leb f64_zero j); [|right; split; [by eexists|intros (_ & _ & _ & _ & [=] & _)]].
  destruct (f64_leb j f64_one); [|right; split; [by eexists|intros (_ & _ & _ & _ & _ & [=])]].
  left. done.
Qed.

(** A retry policy is accepted exactly when it is well-formed once its
    omissions are filled in: positive finite delays within the timer's range,
    the first no longer than the longest, a jitter between zero and one, and,
    for the bounded mode, a non-empty list of distinct non-empty codes. What is
    accepted is that filled-in policy, and the defaults are always accepted. *)
Theorem retry_policy_resolved (config : option RetryPolicyConfig) (path : string) :
  (policy_ok (filled config) -> resolve_retry_policy config path = Ok (filled config))
  /\ (~ policy_ok (filled config) -> exists reason, resolve_retry_policy config path = Err reason)
  /\ policy_ok (filled None).
Proof.
  assert (H : (resolve_retry_policy config path = Ok (filled config) /\ policy_ok (filled config))
    \/ ((exists e, resolve_retry_policy config path = Err e) /\ ~ policy_ok (filled config))).
  { unfold resolve_retry_policy, policy_ok. destruct config as [[n codes b|b]|]; cbn [filled policy_backoff].
    - set (cs := default default_retryable_codes codes). clearbody cs.
      case_bool_decide as Hne; [right; split; [by eexists|tauto]|].
      destruct (existsb (fun code => String.eqb code "") cs) eqn:Eb.
      { right. split; [by eexists|]. apply existsb_exists in Eb as (x & Hx & ->%String.eqb_eq).
        apply list_elem_of_In in Hx. tauto. }
      assert (Hb : "" ∉ cs).
      { intros Hx. apply not_true_iff_false in Eb. apply Eb, existsb_exists. exists "". by rewrite <- list_elem_of_In. }
      destruct (Nat.eqb_spec (size (list_to_set cs : gset string)) (length cs)) as [Es|Es]; simpl.
      + apply size_list_to_set_nodup in Es. destruct (resolve_backoff_spec b (path +:+ ".backoff")) as [[-> ?]|[[e ->] ?]]; simpl; [by left|].
        right. split; [by eexists|tauto].
      + right. split; [by eexists|]. rewrite <- size_list_to_set_nodup. tauto.
    - destruct (resolve_backoff_spec b (path +:+ ".backoff")) as [[-> ?]|[[e ->] ?]]; simpl; [by left|]. right. split; [by eexists|tauto].
    - destruct (resolve_backoff_spec None (path +:+ ".backoff")) as [[-> ?]|[[e E] Hno]]; simpl.
      + left. split_and!; [done..|set_solver|]. by apply (bool_decide_unpack _); vm_compute.
      + exfalso. apply Hno. by vm_compute. }
  split_and!; [destruct H; tauto|destruct H; tauto|].
  split; [by vm_compute|]. cbn [filled]. split_and!; [done|set_solver|]. by apply (bool_decide_unpack _); vm_compute.
Qed.
