(* ===== verification/Translate.v ===== *)
(** DeepSeek SSE payloads into stream chunks,
    [crates/dsh/llm-deepseek/src/translate.rs] and the payload types of
    [wire.rs].

    The JSON text of a payload is parsed by serde_json (third-party) through
    the derived [Deserialize] of [WireChunk]: [parse_chunk] is a parameter.
    So is [to_uppercase], the standard library's Unicode table.  The last
    section runs the translator's output through the assembler of
    [Assembler.v]: together they are the path from the wire to the message. *)
From Stdlib Require Import ZArith String.
From stdpp Require Import base tactics numbers list gmap strings.
From S2P Require Import Prelude Json Llm Assembler.

(** * Wire data *)

Record WireFunctionDelta := mk_wfd { wfd_name : option string; wfd_arguments : option string }.
Record WireToolCallDelta := mk_wtc {
  wtc_index : Z;
  wtc_id : option string;
  wtc_function : option WireFunctionDelta;
}.
Record WireDelta := mk_wd {
  wd_content : option string;
  wd_reasoning_content : option string;
  wd_tool_calls : list WireToolCallDelta;
}.
Record WireChoice := mk_wc { wc_delta : option WireDelta; wc_finish_reason : option string }.
Record WireUsage := mk_wu {
  wu_prompt_tokens : Z;
  wu_completion_tokens : Z;
  wu_prompt_cache_hit_tokens : option Z;
  wu_prompt_tokens_details : option (option Z);
  wu_completion_tokens_details : option (option Z);
}.
Record WireChunk := mk_wchunk { wch_choices : list WireChoice; wch_usage : option WireUsage }.

(** * State *)

Inductive OpenKind := OK_Text | OK_Reasoning | OK_ToolCall.
#[export] Instance OpenKind_eq_dec : EqDecision OpenKind.
Proof. solve_decision. Defined.

Record OpenBlock := mk_open {
  ob_index : Z;
  ob_kind : OpenKind;
  ob_text : string;
  ob_call_id : option string;
  ob_name : option string;
}.

Record Translator := mk_translator {
  next_index : Z;
  text_slot : option nat;
  reasoning_slot : option nat;
  tool_slots : gmap Z nat;
  tr_order : list OpenBlock;
  pending_finish : option FinishReason;
  pending_usage : option TokenUsage;
}.
Definition Translator_new : Translator := mk_translator 0 None None ∅ [] None None.


Definition EMPTY_RESPONSE_CODE : string := "EMPTY_RESPONSE".

(** * Pure maps *)

(** [map_usage]: DeepSeek's prompt tokens include cache hits. *)
Definition map_usage (usage : WireUsage) : TokenUsage :=
  let cache_read := match mjoin (wu_prompt_tokens_details usage) with
                    | Some n => Some n
                    | None => wu_prompt_cache_hit_tokens usage
                    end in
  mk_usage (u64_saturating_sub (wu_prompt_tokens usage) (default 0%Z cache_read)) (wu_completion_tokens usage)
    cache_read None (mjoin (wu_completion_tokens_details usage)).

Definition close_block (b : OpenBlock) : ContentBlock :=
  match ob_kind b with
  | OK_Text => CB_Text (ob_text b)
  | OK_Reasoning => CB_Reasoning (ob_text b)
  | OK_ToolCall => CB_ToolCall (default EmptyString (ob_call_id b)) (default EmptyString (ob_name b)) (ob_text b)
  end.

(** * Operations *)

Definition open (kind : OpenKind) (t : Translator) : Translator * nat :=
  (mk_translator (u64_succ (next_index t)) (text_slot t) (reasoning_slot t) (tool_slots t)
     (tr_order t ++ [mk_open (next_index t) kind EmptyString None None]) (pending_finish t) (pending_usage t),
   length (tr_order t)).

(** [self.order[slot].index]; every slot handed out is in range. *)
Definition index_of (t : Translator) (slot : nat) : Z :=
  match tr_order t !! slot with Some b => ob_index b | None => 0%Z end.

(** A write through [self.order[slot]]. *)
Definition update_slot (slot : nat) (f : OpenBlock -> OpenBlock) (t : Translator) : Translator :=
  mk_translator (next_index t) (text_slot t) (reasoning_slot t) (tool_slots t)
    (alter f slot (tr_order t)) (pending_finish t) (pending_usage t).

Definition set_text_slot (slot : nat) (t : Translator) : Translator :=
  mk_translator (next_index t) (Some slot) (reasoning_slot t) (tool_slots t) (tr_order t) (pending_finish t) (pending_usage t).
Definition set_reasoning_slot (slot : nat) (t : Translator) : Translator :=
  mk_translator (next_index t) (text_slot t) (Some slot) (tool_slots t) (tr_order t) (pending_finish t) (pending_usage t).
Definition set_tool_slot (i : Z) (slot : nat) (t : Translator) : Translator :=
  mk_translator (next_index t) (text_slot t) (reasoning_slot t) (<[i := slot]> (tool_slots t)) (tr_order t) (pending_finish t) (pending_usage t).
Definition set_finish (r : FinishReason) (t : Translator) : Translator :=
  mk_translator (next_index t) (text_slot t) (reasoning_slot t) (tool_slots t) (tr_order t) (Some r) (pending_usage t).
Definition set_usage (u : TokenUsage) (t : Translator) : Translator :=
  mk_translator (next_index t) (text_slot t) (reasoning_slot t) (tool_slots t) (tr_order t) (pending_finish t) (Some u).

Definition push_text (text : string) (b : OpenBlock) : OpenBlock :=
  mk_open (ob_index b) (ob_kind b) (ob_text b +:+ text) (ob_call_id b) (ob_name b).
Definition set_call_id (id : string) (b : OpenBlock) : OpenBlock :=
  mk_open (ob_index b) (ob_kind b) (ob_text b) (Some id) (ob_name b).
Definition set_name (name : string) (b : OpenBlock) : OpenBlock :=
  mk_open (ob_index b) (ob_kind b) (ob_text b) (ob_call_id b) (Some name).

(** The slot of a kind, opened on first use, with the [BlockStart] emitted then. *)
Definition open_slot (current : option nat) (kind : OpenKind) (bt : BlockType)
    (remember : nat -> Translator -> Translator) (t : Translator) : Translator * nat * list StreamChunk :=
  match current with
  | Some slot => (t, slot, [])
  | None =>
      let '(t, slot) := open kind t in
      let t := remember slot t in
      (t, slot, [SC_BlockStart (index_of t slot) bt])
  end.

Definition feed_reasoning (reasoning : option string) (t : Translator) : Translator * list StreamChunk :=
  match reasoning with
  | None => (t, [])
  | Some text =>
      if String.eqb text EmptyString then (t, [])
      else
        let '(t, slot, out) := open_slot (reasoning_slot t) OK_Reasoning BT_Reasoning set_reasoning_slot t in
        let t := update_slot slot (push_text text) t in
        (t, out ++ [SC_ReasoningDelta (index_of t slot) text])
  end.

Definition feed_content (content : option string) (t : Translator) : Translator * list StreamChunk :=
  match content with
  | None => (t, [])
  | Some text =>
      if String.eqb text EmptyString then (t, [])
      else
        let '(t, slot, out) := open_slot (text_slot t) OK_Text BT_Text set_text_slot t in
        let t := update_slot slot (push_text text) t in
        (t, out ++ [SC_TextDelta (index_of t slot) text])
  end.

Definition feed_tool_call (call : WireToolCallDelta) (t : Translator) : Translator * list StreamChunk :=
  let '(t, slot, out) :=
    open_slot (tool_slots t !! wtc_index call) OK_ToolCall BT_ToolCall (set_tool_slot (wtc_index call)) t in
  let t := match wtc_id call with Some id => update_slot slot (set_call_id id) t | None => t end in
  let t := match f ← wtc_function call; wfd_name f with
           | Some name => update_slot slot (set_name name) t | None => t end in
  let fragment := default EmptyString (f ← wtc_function call; wfd_arguments f) in
  let t := update_slot slot (push_text fragment) t in
  let b := tr_order t !! slot in
  (t, out ++ [SC_ToolCallDelta (index_of t slot) (default EmptyString (b ≫= ob_call_id)) (b ≫= ob_name) fragment]).

(** A loop that threads the translator and appends to [out]. *)
Fixpoint feed_list {A} (f : A -> Translator -> Translator * list StreamChunk) (l : list A) (t : Translator)
    : Translator * list StreamChunk :=
  match l with
  | [] => (t, [])
  | x :: l => let '(t, out) := f x t in let '(t, out') := feed_list f l t in (t, out ++ out')
  end.

Section translate.
Context (parse_chunk : string -> option WireChunk) (to_uppercase : string -> string).

Definition map_finish_reason (reason : string) : FinishReason :=
  if String.eqb reason "stop" then FR_Stop
  else if String.eqb reason "tool_calls" then FR_ToolCalls
  else if String.eqb reason "length" then FR_MaxTokens
  else FR_Error (LlmFailure_new ("model stopped: " +:+ reason) (to_uppercase reason)).

Definition feed_finish (reason : option string) (t : Translator) : Translator :=
  match reason with Some r => set_finish (map_finish_reason r) t | None => t end.

Definition feed_choice (choice : WireChoice) (t : Translator) : Translator * list StreamChunk :=
  match wc_delta choice with
  | None => (feed_finish (wc_finish_reason choice) t, [])
  | Some delta =>
      let '(t, out1) := feed_reasoning (wd_reasoning_content delta) t in
      let '(t, out2) := feed_content (wd_content delta) t in
      let '(t, out3) := feed_list feed_tool_call (wd_tool_calls delta) t in
      (feed_finish (wc_finish_reason choice) t, out1 ++ out2 ++ out3)
  end.

Definition feed_chunk (chunk : WireChunk) (t : Translator) : Translator * list StreamChunk :=
  let '(t, out) := feed_list feed_choice (wch_choices chunk) t in
  (match wch_usage chunk with Some u => set_usage (map_usage u) t | None => t end, out).

(** [feed]: one non-[[DONE]] payload. *)
Definition feed (payload : string) (t : Translator) : result (Translator * list StreamChunk) LlmError :=
  match parse_chunk payload with
  | None => Err (llm_error ("malformed SSE payload: " +:+ chars_take 120 payload) "MALFORMED_RESPONSE")
  | Some chunk => Ok (feed_chunk chunk t)
  end.

(** [done]: the [[DONE]] sentinel. *)
Definition done (t : Translator) : Translator * list StreamChunk :=
  let ends := (fun b => SC_BlockEnd (ob_index b) (close_block b)) <$> tr_order t in
  let usage := match pending_usage t with Some u => [SC_Usage u] | None => [] end in
  let reason := default FR_Stop (pending_finish t) in
  let reason := match reason, tr_order t with
                | FR_Stop, [] => FR_Error (LlmFailure_new "model returned a completed response with no content" EMPTY_RESPONSE_CODE)
                | _, _ => reason
                end in
  (mk_translator (next_index t) (text_slot t) (reasoning_slot t) (tool_slots t) (tr_order t) None None,
   ends ++ usage ++ [SC_Finish reason None]).

(** A whole response: every payload, then the sentinel. *)
Definition feed_payloads (payloads : list string) (t : Translator) : result (Translator * list StreamChunk) LlmError :=
  try_fold (fun '(t, out) payload =>
    result_bind (feed payload t) (fun '(t, out') => Ok (t, out ++ out'))) (t, []) payloads.
Definition translate_response (payloads : list string) : result (Translator * list StreamChunk) LlmError :=
  result_bind (feed_payloads payloads Translator_new) (fun '(t, out) =>
    Ok (t, out ++ snd (done t))).
End translate.

(** * The translator's invariant *)

Lemma first_seen_app seen l1 l2 : first_seen seen (l1 ++ l2) = first_seen (first_seen seen l1) l2.
Proof. revert seen. induction l1 as [|c l1 IH]; intros seen; simpl; [done|]. by rewrite IH. Qed.

Lemma first_seen_known seen i c : chunk_index c = Some i -> i ∈ seen -> first_seen seen [c] = seen.
Proof. intros E Hi. simpl. rewrite E. by rewrite decide_True. Qed.

Definition finish_of (c : StreamChunk) : option FinishReason := match c with SC_Finish r _ => Some r | _ => None end.

(** Slot numbers as wire indexes. *)
Definition slot_index (k : nat) : Z := u64_wrap (Z.of_nat k).

Lemma slot_index_inj_small n k :
  (Z.of_nat n < u64_modulus)%Z -> k < n -> slot_index k <> slot_index n.
Proof. intros Hn Hk E. unfold slot_index in E. rewrite !u64_wrap_small in E; lia. Qed.

(** Blocks are numbered by position; the chunks emitted so far mention exactly
    these numbers, in order, and close nothing. *)
Record core_inv (t : Translator) (outs : list StreamChunk) : Prop := {
  ci_index : forall k b, tr_order t !! k = Some b -> ob_index b = slot_index k;
  ci_next : next_index t = slot_index (length (tr_order t));
  ci_seen : (Z.of_nat (length (tr_order t)) <= u64_modulus)%Z ->
    first_seen [] outs = slot_index <$> seq 0 (length (tr_order t));
  ci_open : omap end_block outs = [];
  ci_fin : omap finish_of outs = [];
}.

Record range_ok (t : Translator) : Prop := {
  ro_text : forall s, text_slot t = Some s -> s < length (tr_order t);
  ro_reasoning : forall s, reasoning_slot t = Some s -> s < length (tr_order t);
  ro_tool : forall i s, tool_slots t !! i = Some s -> s < length (tr_order t);
}.

Lemma core_inv_new : core_inv Translator_new [].
Proof. by split. Qed.
Lemma range_ok_new : range_ok Translator_new.
Proof. by split. Qed.

Lemma slot_index_succ n : u64_succ (slot_index n) = slot_index (S n).
Proof.
  unfold u64_succ, u64_add, slot_index, u64_wrap. rewrite Zplus_mod_idemp_l. f_equal. lia.
Qed.

Lemma core_inv_open t outs kind bt :
  core_inv t outs -> core_inv (fst (open kind t)) (outs ++ [SC_BlockStart (next_index t) bt]).
Proof.
  intros [Hi Hn Hs Ho Hf]. split; simpl.
  - intros k b Hk. apply lookup_snoc_Some in Hk as [[_ Hk]|[-> <-]]; [by apply Hi|]. simpl. by rewrite Hn.
  - by rewrite Hn, length_app, Nat.add_1_r, slot_index_succ.
  - rewrite length_app, Nat.add_1_r, first_seen_app, seq_S, fmap_app. intros Hlen.
    rewrite Hs by lia. cbn [first_seen chunk_index]. rewrite Hn, decide_False; [done|].
    intros (k & Hk & Hin)%list_elem_of_fmap. apply elem_of_seq in Hin.
    eapply (slot_index_inj_small (length (tr_order t)) k); [lia|lia|by rewrite <- Hk].
  - by rewrite omap_app, Ho.
  - by rewrite omap_app, Hf.
Qed.

Lemma core_inv_update t outs s f :
  (forall b, ob_index (f b) = ob_index b) -> core_inv t outs -> core_inv (update_slot s f t) outs.
Proof.
  intros Hf [Hi Hn Hs Ho Hfin]. split; simpl; rewrite ?length_alter; auto.
  intros k b Hk. destruct (decide (s = k)) as [<-|Hne].
  - rewrite list_lookup_alter_eq in Hk. destruct (tr_order t !! s) as [b'|] eqn:E; [|done].
    injection Hk as <-. rewrite Hf. by apply Hi.
  - rewrite list_lookup_alter_ne in Hk by done. by apply Hi.
Qed.

Lemma core_inv_emit t outs slot c :
  core_inv t outs -> slot < length (tr_order t) -> chunk_index c = Some (index_of t slot) ->
  end_block c = None -> finish_of c = None -> core_inv t (outs ++ [c]).
Proof.
  intros [Hi Hn Hs Ho Hf] Hslot Hc Hend Hfin. split; auto.
  - intros Hlen. rewrite first_seen_app, Hs by done. eapply first_seen_known; [done|].
    unfold index_of. destruct (lookup_lt_is_Some_2 (tr_order t) slot Hslot) as [b Hb].
    rewrite Hb, (Hi _ _ Hb). apply list_elem_of_fmap_2, elem_of_seq. lia.
  - rewrite omap_app, Ho. simpl. by rewrite Hend.
  - rewrite omap_app, Hf. simpl. by rewrite Hfin.
Qed.

Lemma core_inv_same t t' outs :
  tr_order t' = tr_order t -> next_index t' = next_index t -> core_inv t outs -> core_inv t' outs.
Proof. intros Eo En [Hi Hn Hs Ho Hf]. split; rewrite ?Eo, ?En; auto. Qed.

Lemma range_ok_update s f t : range_ok t -> range_ok (update_slot s f t).
Proof. intros [H1 H2 H3]. split; simpl; intros *; rewrite length_alter; eauto. Qed.

#[export] Hint Resolve core_inv_new range_ok_new range_ok_update : keel.

(** [open_slot] keeps both invariants, for a [remember] that only records the slot. *)
Lemma open_slot_inv current kind bt remember t outs t' slot out :
  core_inv t outs -> range_ok t ->
  (forall s, current = Some s -> s < length (tr_order t)) ->
  (forall s u, tr_order (remember s u) = tr_order u /\ next_index (remember s u) = next_index u) ->
  (forall u, range_ok u -> 0 < length (tr_order u) -> range_ok (remember (pred (length (tr_order u))) u)) ->
  open_slot current kind bt remember t = (t', slot, out) ->
  core_inv t' (outs ++ out) /\ range_ok t' /\ slot < length (tr_order t').
Proof.
  intros Hc Hr Hcur Hrem Hrr. unfold open_slot. destruct current as [s|].
  - intros [= <- <- <-]. rewrite app_nil_r. auto.
  - pose proof (core_inv_open t outs kind bt Hc) as Ho.
    destruct (open kind t) as [u s] eqn:E. unfold open in E. injection E as Eu Es. simpl in Ho.
    intros [= <- <- <-].
    assert (Hlen : length (tr_order u) = S s) by (rewrite <- Eu, <- Es; simpl; rewrite length_app; simpl; lia).
    assert (Hru : range_ok u).
    { destruct Hr as [H1 H2 H3]. rewrite <- Eu. split; simpl; intros *; rewrite length_app; simpl;
        intros Hs; [apply H1 in Hs|apply H2 in Hs|apply H3 in Hs]; lia. }
    destruct (Hrem s u) as [Eo En]. rewrite Eo. split_and!; [|replace s with (pred (length (tr_order u))) by lia; apply Hrr; [done|lia]|lia].
    eapply core_inv_same; [done|done|].
    replace (index_of (remember s u) s) with (next_index t); [done|].
    unfold index_of. rewrite Eo, <- Eu, <- Es. simpl. by rewrite list_lookup_middle by lia.
Qed.

Lemma slot_length_update s f t slot : slot < length (tr_order t) -> slot < length (tr_order (update_slot s f t)).
Proof. simpl. by rewrite length_alter. Qed.

(** Every operation of a payload: the invariants survive, the output extends
    what was emitted. *)
Definition keeps_inv (op : Translator -> Translator * list StreamChunk) : Prop :=
  forall t outs t' out, core_inv t outs -> range_ok t -> op t = (t', out) -> core_inv t' (outs ++ out) /\ range_ok t'.

Ltac solve_remember :=
  first [ by intros; split
        | let Ht := fresh in let Hr := fresh in let Ho := fresh in
          intros ? [Ht Hr Ho] ?; split; simpl;
          [ intros ? ?; simplify_eq; first [lia | by eapply Ht]
          | intros ? ?; simplify_eq; first [lia | by eapply Hr]
          | intros ? ?; rewrite ?lookup_insert_Some; intros; destruct_or?; destruct_and?; simplify_eq;
            first [lia | by eapply Ho] ] ].

Lemma feed_content_inv content : keeps_inv (feed_content content).
Proof.
  intros t outs t' out Hc Hr. unfold feed_content. destruct content as [text|]; [|intros [= <- <-]; by rewrite app_nil_r].
  destruct (String.eqb text EmptyString); [intros [= <- <-]; by rewrite app_nil_r|].
  destruct (open_slot _ _ _ _ t) as [[u slot] o] eqn:E. intros [= <- <-].
  apply (open_slot_inv _ _ _ _ _ _ _ _ _ Hc Hr) in E as (Hc' & Hr' & Hs); [|apply Hr|solve_remember|solve_remember].
  split; [|auto with keel]. rewrite app_assoc. eapply core_inv_emit; [by apply core_inv_update|by apply slot_length_update|done..].
Qed.

Lemma feed_reasoning_inv reasoning : keeps_inv (feed_reasoning reasoning).
Proof.
  intros t outs t' out Hc Hr. unfold feed_reasoning. destruct reasoning as [text|]; [|intros [= <- <-]; by rewrite app_nil_r].
  destruct (String.eqb text EmptyString); [intros [= <- <-]; by rewrite app_nil_r|].
  destruct (open_slot _ _ _ _ t) as [[u slot] o] eqn:E. intros [= <- <-].
  apply (open_slot_inv _ _ _ _ _ _ _ _ _ Hc Hr) in E as (Hc' & Hr' & Hs); [|apply Hr|solve_remember|solve_remember].
  split; [|auto with keel]. rewrite app_assoc. eapply core_inv_emit; [by apply core_inv_update|by apply slot_length_update|done..].
Qed.

Lemma update_slot_inv s f t outs :
  (forall b, ob_index (f b) = ob_index b) -> core_inv t outs -> range_ok t ->
  core_inv (update_slot s f t) outs /\ range_ok (update_slot s f t).
Proof. split; [by apply core_inv_update|by apply range_ok_update]. Qed.

Lemma feed_tool_call_inv call : keeps_inv (feed_tool_call call).
Proof.
  intros t outs t' out Hc Hr. unfold feed_tool_call.
  destruct (open_slot _ _ _ _ t) as [[u slot] o] eqn:E. intros [= <- <-].
  apply (open_slot_inv _ _ _ _ _ _ _ _ _ Hc Hr) in E as (Hc' & Hr' & Hs);
    [|intros s; apply Hr|solve_remember|solve_remember].
  set (u1 := match wtc_id call with Some _ => _ | None => u end).
  assert (core_inv u1 (outs ++ o) /\ range_ok u1 /\ slot < length (tr_order u1)) as (Hc1 & Hr1 & Hs1).
  { unfold u1. destruct (wtc_id call) as [i|]; [|done].
    destruct (update_slot_inv slot (set_call_id i) u (outs ++ o)) as [? ?]; auto using slot_length_update. }
  set (u2 := match mbind _ _ with Some _ => _ | None => u1 end).
  assert (core_inv u2 (outs ++ o) /\ range_ok u2 /\ slot < length (tr_order u2)) as (Hc2 & Hr2 & Hs2).
  { unfold u2. destruct (mbind _ _) as [n|]; [|done].
    destruct (update_slot_inv slot (set_name n) u1 (outs ++ o)) as [? ?]; auto using slot_length_update. }
  split; [|auto with keel]. rewrite app_assoc.
  eapply core_inv_emit; [by apply core_inv_update|by apply slot_length_update|done..].
Qed.

Lemma feed_list_inv {A} (f : A -> Translator -> Translator * list StreamChunk) l :
  (forall x, keeps_inv (f x)) -> keeps_inv (feed_list f l).
Proof.
  intros Hf. induction l as [|x l IH]; intros t outs t' out Hc Hr; simpl.
  - intros [= <- <-]. by rewrite app_nil_r.
  - destruct (f x t) as [t1 o1] eqn:E1. destruct (feed_list f l t1) as [t2 o2] eqn:E2. intros [= <- <-].
    destruct (Hf x _ _ _ _ Hc Hr E1) as [Hc1 Hr1]. rewrite app_assoc. by eapply IH.
Qed.

Lemma core_inv_meta t outs ts rs tls fin usage :
  core_inv t outs -> core_inv (mk_translator (next_index t) ts rs tls (tr_order t) fin usage) outs.
Proof. by apply core_inv_same. Qed.
Lemma range_ok_meta t fin usage :
  range_ok t -> range_ok (mk_translator (next_index t) (text_slot t) (reasoning_slot t) (tool_slots t) (tr_order t) fin usage).
Proof. intros []. by split. Qed.
#[export] Hint Resolve core_inv_meta range_ok_meta : keel.

Section translate_inv.
Context (parse_chunk : string -> option WireChunk) (to_uppercase : string -> string).

Lemma feed_finish_inv reason t outs :
  core_inv t outs -> range_ok t ->
  core_inv (feed_finish to_uppercase reason t) outs /\ range_ok (feed_finish to_uppercase reason t).
Proof. destruct reason; simpl; unfold set_finish; auto with keel. Qed.

Lemma feed_choice_inv choice : keeps_inv (feed_choice to_uppercase choice).
Proof.
  intros t outs t' out Hc Hr. unfold feed_choice. destruct (wc_delta choice) as [d|].
  - destruct (feed_reasoning _ t) as [t1 o1] eqn:E1. destruct (feed_content _ t1) as [t2 o2] eqn:E2.
    destruct (feed_list _ _ t2) as [t3 o3] eqn:E3. intros [= <- <-].
    destruct (feed_reasoning_inv _ _ _ _ _ Hc Hr E1) as [Hc1 Hr1].
    destruct (feed_content_inv _ _ _ _ _ Hc1 Hr1 E2) as [Hc2 Hr2].
    destruct (feed_list_inv _ _ feed_tool_call_inv _ _ _ _ Hc2 Hr2 E3) as [Hc3 Hr3].
    rewrite !app_assoc. by apply feed_finish_inv.
  - intros [= <- <-]. rewrite app_nil_r. by apply feed_finish_inv.
Qed.

Lemma feed_chunk_inv chunk : keeps_inv (feed_chunk to_uppercase chunk).
Proof.
  intros t outs t' out Hc Hr. unfold feed_chunk.
  destruct (feed_list _ _ t) as [t1 o1] eqn:E1. intros [= <- <-].
  destruct (feed_list_inv _ _ feed_choice_inv _ _ _ _ Hc Hr E1) as [Hc1 Hr1].
  destruct (wch_usage chunk); unfold set_usage; auto with keel.
Qed.

Lemma feed_payloads_inv payloads t' outs :
  feed_payloads parse_chunk to_uppercase payloads Translator_new = Ok (t', outs) ->
  core_inv t' outs /\ range_ok t'.
Proof.
  unfold feed_payloads. intros H.
  apply (try_fold_invariant (fun '(t, outs) => core_inv t outs /\ range_ok t)) in H; [done|auto with keel|].
  intros [t o] payload [u o'] [Hc Hr] Hstep. inv_ok. destruct x as [t1 o1]. inv_ok.
  unfold feed in *. destruct (parse_chunk payload); [|done]. inv_ok. simplify_eq.
  by eapply feed_chunk_inv.
Qed.
End translate_inv.

(** * The response as a message *)

Definition truncate_tool_calls (r : FinishReason) (bs : list ContentBlock) : list ContentBlock :=
  match r with FR_MaxTokens => List.filter (fun b => negb (is_tool_call b)) bs | _ => bs end.

Definition ends_of (l : list OpenBlock) : list StreamChunk :=
  (fun b => SC_BlockEnd (ob_index b) (close_block b)) <$> l.

(** In a numbered block list, the closes of one index are that block's alone. *)
Lemma ends_of_at l k b :
  (forall j b', l !! j = Some b' -> ob_index b' = slot_index j) ->
  (Z.of_nat (length l) <= u64_modulus)%Z -> l !! k = Some b ->
  omap end_block (chunks_at (slot_index k) (ends_of l)) = [close_block b].
Proof.
  intros Hi Hlen Hk. revert Hi Hlen Hk. induction l as [|x l IH] using rev_ind; intros Hi Hlen Hk; [done|].
  rewrite length_app in Hlen. simpl in Hlen. unfold ends_of. rewrite fmap_app. simpl. rewrite chunks_at_snoc, omap_app. simpl.
  assert (Hx : ob_index x = slot_index (length l)) by (apply Hi; by rewrite list_lookup_middle).
  assert (Hi' : forall j b', l !! j = Some b' -> ob_index b' = slot_index j).
  { intros j b' Hj. apply Hi. by apply lookup_app_l_Some. }
  apply lookup_snoc_Some in Hk as [[Hlt Hk]|[-> ->]].
  - rewrite decide_False.
    + rewrite app_nil_r. apply IH; [done|lia|done].
    + rewrite Hx. intros [= E]. eapply (slot_index_inj_small (length l) k); [lia|lia|by rewrite E].
  - rewrite decide_True by (by rewrite Hx). fold (ends_of l).
    assert (chunks_at (slot_index (length l)) (ends_of l) = []) as ->; [|done].
    apply elem_of_nil_inv. intros c [Hc (y & -> & Hin)%list_elem_of_fmap]%list_elem_of_filter.
    apply list_elem_of_lookup in Hin as [j Hj]. simpl in Hc. rewrite (Hi' _ _ Hj) in Hc. injection Hc as E.
    apply lookup_lt_Some in Hj. eapply (slot_index_inj_small (length l) j); [lia|lia|done].
Qed.

Lemma chunks_at_app i l1 l2 : chunks_at i (l1 ++ l2) = chunks_at i l1 ++ chunks_at i l2.
Proof. apply filter_app. Qed.

Lemma omap_filter_nil {A B} (P : A -> Prop) `{forall x, Decision (P x)} (f : A -> option B) l :
  omap f l = [] -> omap f (filter P l) = [].
Proof.
  induction l as [|x l IH]; [done|]. rewrite filter_cons. simpl.
  destruct (f x) eqn:E; [done|]. intros Hl. case_decide; simpl; rewrite ?E; auto.
Qed.

Lemma first_seen_all_known seen cs :
  (forall c i, c ∈ cs -> chunk_index c = Some i -> i ∈ seen) -> first_seen seen cs = seen.
Proof.
  induction cs as [|c cs IH]; intros H; simpl; [done|].
  destruct (chunk_index c) as [i|] eqn:E.
  - rewrite decide_True by (apply (H c); [set_solver|done]). apply IH. intros. eapply H; [|done]. set_solver.
  - apply IH. intros. eapply H; [|done]. set_solver.
Qed.

Lemma map_result_all_ok {A B C E} (f : A -> result B E) (g : C -> B) (l : list A) (m : list C) :
  Forall2 (fun x y => f x = Ok (g y)) l m -> map_result f l = Ok (g <$> m).
Proof. induction 1 as [|x y l m Hx _ IH]; simpl; [done|]. by rewrite Hx, IH. Qed.

(** The chunks [done] adds after the closes. *)
Definition done_tail (t : Translator) : list StreamChunk :=
  match pending_usage t with Some u => [SC_Usage u] | None => [] end ++
  [SC_Finish (match default FR_Stop (pending_finish t), tr_order t with
              | FR_Stop, [] => FR_Error (LlmFailure_new "model returned a completed response with no content" EMPTY_RESPONSE_CODE)
              | r, _ => r end) None].

Lemma done_eq t : snd (done t) = ends_of (tr_order t) ++ done_tail t.
Proof. unfold done, done_tail, ends_of. simpl. by destruct (default FR_Stop (pending_finish t)), (tr_order t). Qed.

Definition done_reason (t : Translator) : FinishReason :=
  match default FR_Stop (pending_finish t), tr_order t with
  | FR_Stop, [] => FR_Error (LlmFailure_new "model returned a completed response with no content" EMPTY_RESPONSE_CODE)
  | r, _ => r
  end.

Lemma done_tail_no_index t c i : c ∈ done_tail t -> chunk_index c = Some i -> False.
Proof. unfold done_tail. destruct (pending_usage t); set_solver. Qed.

(** The assembled blocks of a translated stream are the translator's own
    blocks, closed, in the order they were opened. *)
Lemma assembled_blocks t outs :
  core_inv t outs -> (Z.of_nat (length (tr_order t)) <= u64_modulus)%Z ->
  blocks (push_all BlockAssembler_new (outs ++ snd (done t))) =
  Ok (truncate_tool_calls (done_reason t) (close_block <$> tr_order t)).
Proof.
  intros [Hi Hn Hs Ho Hf] Hlen. rewrite assembler_reference, done_eq.
  assert (first_seen [] (outs ++ ends_of (tr_order t) ++ done_tail t) = slot_index <$> seq 0 (length (tr_order t))) as ->.
  { rewrite first_seen_app, Hs by done. apply first_seen_all_known.
    intros c i [Hc|Hc]%elem_of_app Hci; [|by eapply done_tail_no_index in Hc].
    apply list_elem_of_fmap in Hc as (b & -> & (k & Hk)%list_elem_of_lookup). simpl in Hci. injection Hci as <-.
    rewrite (Hi _ _ Hk). apply list_elem_of_fmap_2, elem_of_seq. apply lookup_lt_Some in Hk. lia. }
  erewrite (map_result_all_ok _ close_block _ (tr_order t)).
  - simpl. f_equal. unfold truncate_tool_calls. assert (reference_finish (outs ++ ends_of (tr_order t) ++ done_tail t) = done_reason t) as ->; [|done].
    unfold reference_finish. rewrite app_assoc. unfold done_tail. rewrite app_assoc, omap_app. simpl. by rewrite last_snoc.
  - apply Forall2_fmap_l, Forall2_same_length_lookup. rewrite length_seq. split; [done|].
    intros k j b Hk Hb. apply lookup_seq in Hk as [-> Hlt]. simpl. unfold reference_block.
    rewrite !chunks_at_app, !omap_app, (ends_of_at _ _ _ Hi Hlen Hb).
    assert (omap end_block (chunks_at (slot_index k) outs) = []) as -> by (by apply omap_filter_nil). done.
Qed.

(** * No text is lost or reordered *)

(** The text held by the blocks of one kind. *)
Definition kind_text (K : OpenKind) (b : OpenBlock) : string :=
  if decide (ob_kind b = K) then ob_text b else EmptyString.
Definition texts (K : OpenKind) (l : list OpenBlock) : string := concat_strings (kind_text K <$> l).

(** At most one block of kind [K], and the slot variable points at it. *)
Definition single (K : OpenKind) (slot : option nat) (l : list OpenBlock) : Prop :=
  forall k b, l !! k = Some b -> (ob_kind b = K <-> slot = Some k).

Record kinds_ok (t : Translator) : Prop := {
  ko_text : single OK_Text (text_slot t) (tr_order t);
  ko_reasoning : single OK_Reasoning (reasoning_slot t) (tr_order t);
  ko_tool : forall i s b, tool_slots t !! i = Some s -> tr_order t !! s = Some b -> ob_kind b = OK_ToolCall;
}.

Lemma texts_snoc K l b : texts K (l ++ [b]) = texts K l +:+ kind_text K b.
Proof. unfold texts. rewrite fmap_app. apply concat_strings_snoc. Qed.

Lemma texts_nil K l : (forall b, b ∈ l -> ob_kind b <> K) -> texts K l = EmptyString.
Proof.
  induction l as [|b l IH] using rev_ind; intros H; [done|].
  rewrite texts_snoc, IH by set_solver. unfold kind_text. rewrite decide_False by set_solver. done.
Qed.

Lemma texts_split K l1 b l2 :
  (forall c, c ∈ l1 ++ l2 -> ob_kind c <> K) -> texts K (l1 ++ b :: l2) = kind_text K b.
Proof.
  intros H. induction l2 as [|c l2 IH] using rev_ind.
  - rewrite texts_snoc, texts_nil by set_solver. by rewrite str_app_nil_l.
  - rewrite app_comm_cons, app_assoc, texts_snoc, IH by set_solver.
    unfold kind_text at 2. rewrite decide_False by set_solver. apply str_app_nil_r.
Qed.

Lemma list_split_at {A} (l : list A) s b : l !! s = Some b -> exists l1 l2, l = l1 ++ b :: l2 /\ length l1 = s.
Proof.
  intros H. exists (take s l), (drop (S s) l). rewrite length_take. apply lookup_lt_Some in H as Hlt.
  split; [by rewrite take_drop_middle|lia].
Qed.

(** Writing to a block of another kind keeps a kind's text. *)
Lemma texts_alter_other K f s l :
  (forall b, l !! s = Some b -> ob_kind b <> K) -> (forall b, ob_kind (f b) = ob_kind b) ->
  texts K (alter f s l) = texts K l.
Proof.
  intros Hs Hf. destruct (l !! s) as [b|] eqn:E.
  - destruct (list_split_at _ _ _ E) as (l1 & l2 & -> & <-). rewrite alter_app_r_alt, Nat.sub_diag by lia.
    change (alter f 0 (b :: l2)) with (f b :: l2). unfold texts. rewrite !fmap_app, !fmap_cons. do 3 f_equal.
    unfold kind_text. rewrite Hf. specialize (Hs b eq_refl). by rewrite !decide_False.
  - f_equal. rewrite <- (list_alter_id id l s) at 2 by done. apply list_alter_ext; [|done].
    intros x Hx. congruence.
Qed.

(** Appending to the kind's one block appends to its text. *)
Lemma texts_alter_self K slot l text :
  single K (Some slot) l -> slot < length l ->
  texts K (alter (push_text text) slot l) = texts K l +:+ text.
Proof.
  intros Hs Hlt. destruct (lookup_lt_is_Some_2 l slot Hlt) as [b Hb].
  assert (Hother : forall j c, j <> slot -> l !! j = Some c -> ob_kind c <> K).
  { intros j c Hj Hc E. apply (Hs j c Hc) in E. congruence. }
  assert (Hkind : ob_kind b = K) by (by apply (Hs slot b Hb)).
  destruct (list_split_at _ _ _ Hb) as (l1 & l2 & -> & <-).
  rewrite alter_app_r_alt, Nat.sub_diag by lia. change (alter _ 0 (b :: l2)) with (push_text text b :: l2).
  assert (Hrest : forall c, c ∈ l1 ++ l2 -> ob_kind c <> K).
  { intros c [Hc|Hc]%elem_of_app; apply list_elem_of_lookup in Hc as [j Hj].
    - apply lookup_lt_Some in Hj as Hjl. apply (Hother j); [lia|by apply lookup_app_l_Some].
    - apply (Hother (length l1 + S j)); [lia|]. rewrite lookup_app_r by lia. by replace (_ - _) with (S j) by lia. }
  rewrite !texts_split by done. unfold kind_text. by rewrite !decide_True.
Qed.

Lemma single_alter K slot f s l :
  (forall b, ob_kind (f b) = ob_kind b) -> single K slot l -> single K slot (alter f s l).
Proof.
  intros Hf Hs k b. rewrite list_lookup_alter. case_decide as Hk; [|apply Hs].
  subst k. destruct (l !! s) as [c|] eqn:E; [|done]. intros [= <-]. rewrite Hf. by apply Hs.
Qed.

Lemma single_snoc_other K slot l b : ob_kind b <> K -> (forall s, slot = Some s -> s < length l) ->
  single K slot l -> single K slot (l ++ [b]).
Proof.
  intros Hb Hr Hs k c [[_ Hk]|[-> <-]]%lookup_snoc_Some; [by apply Hs|].
  split; [done|]. intros E%Hr. lia.
Qed.

Lemma single_snoc_self K l b : ob_kind b = K -> single K None l -> single K (Some (length l)) (l ++ [b]).
Proof.
  intros Hb Hs k c [[Hlt Hk]|[-> <-]]%lookup_snoc_Some; [|by split].
  rewrite (Hs k c Hk). split; [done|]. intros [= E]. lia.
Qed.

Lemma kinds_ok_new : kinds_ok Translator_new.
Proof. by split. Qed.

Lemma kinds_ok_update s f t : (forall b, ob_kind (f b) = ob_kind b) -> kinds_ok t -> kinds_ok (update_slot s f t).
Proof.
  intros Hf [H1 H2 H3]. split; simpl; auto using single_alter.
  intros i k b Hi. rewrite list_lookup_alter. case_decide; [|by eapply H3].
  subst k. destruct (tr_order t !! s) as [c|] eqn:E; [|done]. intros [= <-]. rewrite Hf. by eapply H3.
Qed.

(** What one operation adds to the visible text and to the reasoning. *)
Definition adds (content reasoning : string) (t t' : Translator) : Prop :=
  texts OK_Text (tr_order t') = texts OK_Text (tr_order t) +:+ content /\
  texts OK_Reasoning (tr_order t') = texts OK_Reasoning (tr_order t) +:+ reasoning.

Lemma adds_nothing t t' : tr_order t' = tr_order t -> adds EmptyString EmptyString t t'.
Proof. intros E. unfold adds. by rewrite E, !str_app_nil_r. Qed.

Lemma adds_trans c1 r1 c2 r2 t1 t2 t3 : adds c1 r1 t1 t2 -> adds c2 r2 t2 t3 -> adds (c1 +:+ c2) (r1 +:+ r2) t1 t3.
Proof. intros [H1 H2] [H3 H4]. unfold adds. by rewrite H3, H4, H1, H2, !str_app_assoc. Qed.

(** A new block with text [text], or [text] appended to the kind's block. *)
Lemma texts_snoc_other K l b : ob_kind b <> K -> texts K (l ++ [b]) = texts K l.
Proof. intros H. rewrite texts_snoc. unfold kind_text. rewrite decide_False by done. apply str_app_nil_r. Qed.

Lemma alter_last {A} f (l : list A) b : alter f (length l) (l ++ [b]) = l ++ [f b].
Proof. rewrite alter_app_r_alt, Nat.sub_diag by lia. done. Qed.

Lemma single_None K slot l k b : slot = None -> single K slot l -> l !! k = Some b -> ob_kind b <> K.
Proof. intros -> Hs Hk E. by apply (Hs k b Hk) in E. Qed.

Lemma range_single K slot l : single K slot l -> (forall s, slot = Some s -> s < length l) ->
  forall s, slot = Some s -> exists b, l !! s = Some b /\ ob_kind b = K.
Proof.
  intros Hs Hr s E. destruct (lookup_lt_is_Some_2 l s) as [b Hb]; [by apply Hr|].
  exists b. split; [done|]. by apply (Hs s b Hb).
Qed.

Lemma feed_content_text content t t' out :
  kinds_ok t -> range_ok t -> feed_content content t = (t', out) ->
  kinds_ok t' /\ adds (default EmptyString content) EmptyString t t'.
Proof.
  intros Hk Hr. unfold feed_content. destruct content as [text|]; simpl; [|intros [= <- <-]; by split; [|apply adds_nothing]].
  destruct (String.eqb_spec text EmptyString) as [->|_]; [intros [= <- <-]; by split; [|apply adds_nothing]|].
  unfold open_slot. destruct (text_slot t) as [s|] eqn:E; intros [= <- <-].
  - split; [by apply kinds_ok_update|].
    destruct (range_single _ _ _ (ko_text _ Hk) (ro_text _ Hr) s E) as (b & Hb & Hbk).
    split; simpl.
    + apply texts_alter_self; [rewrite <- E; apply Hk|by eapply lookup_lt_Some].
    + rewrite texts_alter_other, str_app_nil_r; [done| |done]. intros c Hc. congruence.
  - simpl. destruct Hk as [H1 H2 H3], Hr as [R1 R2 R3]. split.
    + apply (kinds_ok_update (length (tr_order t))); [done|]. rewrite E in H1. split; simpl.
      * by apply single_snoc_self.
      * by apply single_snoc_other.
      * intros i k b Hi [[Hlt Hb]|[-> <-]]%lookup_snoc_Some; [by eapply H3|]. apply R3 in Hi. lia.
    + unfold adds. simpl. rewrite alter_last. split.
      * by rewrite texts_snoc.
      * by rewrite texts_snoc_other, str_app_nil_r.
Qed.

Lemma feed_reasoning_text reasoning t t' out :
  kinds_ok t -> range_ok t -> feed_reasoning reasoning t = (t', out) ->
  kinds_ok t' /\ adds EmptyString (default EmptyString reasoning) t t'.
Proof.
  intros Hk Hr. unfold feed_reasoning. destruct reasoning as [text|]; simpl; [|intros [= <- <-]; by split; [|apply adds_nothing]].
  destruct (String.eqb_spec text EmptyString) as [->|_]; [intros [= <- <-]; by split; [|apply adds_nothing]|].
  unfold open_slot. destruct (reasoning_slot t) as [s|] eqn:E; intros [= <- <-].
  - split; [by apply kinds_ok_update|].
    destruct (range_single _ _ _ (ko_reasoning _ Hk) (ro_reasoning _ Hr) s E) as (b & Hb & Hbk).
    split; simpl.
    + rewrite texts_alter_other, str_app_nil_r; [done| |done]. intros c Hc. congruence.
    + apply texts_alter_self; [rewrite <- E; apply Hk|by eapply lookup_lt_Some].
  - simpl. destruct Hk as [H1 H2 H3], Hr as [R1 R2 R3]. split.
    + apply (kinds_ok_update (length (tr_order t))); [done|]. rewrite E in H2. split; simpl.
      * by apply single_snoc_other.
      * by apply single_snoc_self.
      * intros i k b Hi [[Hlt Hb]|[-> <-]]%lookup_snoc_Some; [by eapply H3|]. apply R3 in Hi. lia.
    + unfold adds. simpl. rewrite alter_last. split.
      * by rewrite texts_snoc_other, str_app_nil_r.
      * by rewrite texts_snoc.
Qed.

(** Writes to a tool call's block leave both texts alone. *)
Lemma tool_update_text slot f t :
  (forall b, ob_kind (f b) = ob_kind b) -> kinds_ok t ->
  (forall b, tr_order t !! slot = Some b -> ob_kind b = OK_ToolCall) ->
  kinds_ok (update_slot slot f t) /\ adds EmptyString EmptyString t (update_slot slot f t) /\
  (forall b, tr_order (update_slot slot f t) !! slot = Some b -> ob_kind b = OK_ToolCall).
Proof.
  intros Hf Hk Hs. split_and!; [by apply kinds_ok_update| |].
  - split; simpl; rewrite texts_alter_other, str_app_nil_r; try done; intros b Hb; by rewrite (Hs b Hb).
  - simpl. intros b. rewrite list_lookup_alter_eq. destruct (tr_order t !! slot) as [c|] eqn:E; [|done].
    intros [= <-]. rewrite Hf. by apply Hs.
Qed.

Lemma open_tool_slot_text i t t' slot out :
  kinds_ok t -> range_ok t ->
  open_slot (tool_slots t !! i) OK_ToolCall BT_ToolCall (set_tool_slot i) t = (t', slot, out) ->
  kinds_ok t' /\ adds EmptyString EmptyString t t' /\
  (forall b, tr_order t' !! slot = Some b -> ob_kind b = OK_ToolCall).
Proof.
  intros [H1 H2 H3] [R1 R2 R3]. unfold open_slot. destruct (tool_slots t !! i) as [s|] eqn:E; intros [= <- <- <-].
  - split_and!; [by split|by apply adds_nothing|]. intros b Hb. by eapply H3.
  - split_and!.
    + split; simpl; [by apply single_snoc_other..|].
      intros j k b Hj [[Hlt Hb]|[-> <-]]%lookup_snoc_Some; [|done].
      apply lookup_insert_Some in Hj as [[_ <-]|[_ Hj]]; [lia|by eapply H3].
    + unfold adds. simpl. by rewrite !texts_snoc_other, !str_app_nil_r.
    + simpl. intros b. rewrite list_lookup_middle by done. by intros [= <-].
Qed.

Lemma feed_tool_call_text call t t' out :
  kinds_ok t -> range_ok t -> feed_tool_call call t = (t', out) ->
  kinds_ok t' /\ adds EmptyString EmptyString t t'.
Proof.
  intros Hk Hr. unfold feed_tool_call.
  destruct (open_slot _ _ _ _ t) as [[u slot] o] eqn:E. intros [= <- _].
  apply (open_tool_slot_text _ _ _ _ _ Hk Hr) in E as (Hk0 & Ha0 & Hs0).
  set (u1 := match wtc_id call with Some _ => _ | None => u end).
  assert (kinds_ok u1 /\ adds EmptyString EmptyString t u1 /\ (forall b, tr_order u1 !! slot = Some b -> ob_kind b = OK_ToolCall)) as (Hk1 & Ha1 & Hs1).
  { unfold u1. destruct (wtc_id call) as [i|]; [|done].
    destruct (tool_update_text slot (set_call_id i) u) as (? & Ha & ?); [done..|]. split_and!; try done.
    by apply (adds_trans _ _ _ _ _ _ _ Ha0 Ha). }
  set (u2 := match mbind _ _ with Some _ => _ | None => u1 end).
  assert (kinds_ok u2 /\ adds EmptyString EmptyString t u2 /\ (forall b, tr_order u2 !! slot = Some b -> ob_kind b = OK_ToolCall)) as (Hk2 & Ha2 & Hs2).
  { unfold u2. destruct (mbind _ _) as [n|]; [|done].
    destruct (tool_update_text slot (set_name n) u1) as (? & Ha & ?); [done..|]. split_and!; try done.
    by apply (adds_trans _ _ _ _ _ _ _ Ha1 Ha). }
  set (frag := default EmptyString _).
  destruct (tool_update_text slot (push_text frag) u2) as (? & Ha & ?); [done..|]. split; [done|].
  by apply (adds_trans _ _ _ _ _ _ _ Ha2 Ha).
Qed.

(** All invariants together, and what an operation adds. *)
Definition adds_op (op : Translator -> Translator * list StreamChunk) (content reasoning : string) : Prop :=
  forall t outs t' out, core_inv t outs -> range_ok t -> kinds_ok t -> op t = (t', out) ->
  core_inv t' (outs ++ out) /\ range_ok t' /\ kinds_ok t' /\ adds content reasoning t t'.

Lemma feed_list_adds {A} (f : A -> Translator -> Translator * list StreamChunk) (c r : A -> string) l :
  (forall x, adds_op (f x) (c x) (r x)) ->
  adds_op (feed_list f l) (concat_strings (c <$> l)) (concat_strings (r <$> l)).
Proof.
  intros Hf. induction l as [|x l IH]; intros t outs t' out Hc Hr Hk; simpl.
  - intros [= <- <-]. rewrite app_nil_r. split_and!; auto using adds_nothing.
  - destruct (f x t) as [t1 o1] eqn:E1. destruct (feed_list f l t1) as [t2 o2] eqn:E2. intros [= <- <-].
    destruct (Hf x _ _ _ _ Hc Hr Hk E1) as (Hc1 & Hr1 & Hk1 & Ha1).
    destruct (IH _ _ _ _ Hc1 Hr1 Hk1 E2) as (Hc2 & Hr2 & Hk2 & Ha2).
    rewrite app_assoc. split_and!; eauto using adds_trans.
Qed.

(** The visible text and the reasoning a payload carries. *)
Definition choice_content (c : WireChoice) : string := default EmptyString (d ← wc_delta c; wd_content d).
Definition choice_reasoning (c : WireChoice) : string := default EmptyString (d ← wc_delta c; wd_reasoning_content d).
Definition chunk_content (c : WireChunk) : string := concat_strings (choice_content <$> wch_choices c).
Definition chunk_reasoning (c : WireChunk) : string := concat_strings (choice_reasoning <$> wch_choices c).

Lemma concat_strings_empties {A} (l : list A) : concat_strings ((fun _ => EmptyString) <$> l) = EmptyString.
Proof. induction l as [|x l IH]; [done|]. exact IH. Qed.

Lemma kinds_ok_meta t fin usage :
  kinds_ok t -> kinds_ok (mk_translator (next_index t) (text_slot t) (reasoning_slot t) (tool_slots t) (tr_order t) fin usage).
Proof. intros []. by split. Qed.

Section translate_text.
Context (parse_chunk : string -> option WireChunk) (to_uppercase : string -> string).

Lemma feed_finish_kinds reason t : kinds_ok t -> kinds_ok (feed_finish to_uppercase reason t).
Proof. destruct reason; simpl; [apply kinds_ok_meta|done]. Qed.
Lemma feed_finish_order reason t : tr_order (feed_finish to_uppercase reason t) = tr_order t.
Proof. by destruct reason. Qed.

Lemma feed_choice_adds choice :
  adds_op (feed_choice to_uppercase choice) (choice_content choice) (choice_reasoning choice).
Proof.
  intros t outs t' out Hc Hr Hk E.
  destruct (feed_choice_inv to_uppercase choice _ _ _ _ Hc Hr E) as [Hc' Hr']. split_and!; [done..| |];
  revert E; unfold feed_choice, choice_content, choice_reasoning; destruct (wc_delta choice) as [d|]; simpl;
    try (intros [= <- <-]; first [by apply feed_finish_kinds | by apply adds_nothing, feed_finish_order]);
  destruct (feed_reasoning _ t) as [t1 o1] eqn:E1; destruct (feed_content _ t1) as [t2 o2] eqn:E2;
  destruct (feed_list _ _ t2) as [t3 o3] eqn:E3; intros [= <- <-];
  destruct (feed_reasoning_inv _ _ _ _ _ Hc Hr E1) as [Hc1 Hr1];
  destruct (feed_content_inv _ _ _ _ _ Hc1 Hr1 E2) as [Hc2 Hr2];
  destruct (feed_reasoning_text _ _ _ _ Hk Hr E1) as [Hk1 Ha1];
  destruct (feed_content_text _ _ _ _ Hk1 Hr1 E2) as [Hk2 Ha2];
  destruct (feed_list_adds feed_tool_call (fun _ => EmptyString) (fun _ => EmptyString) (wd_tool_calls d)
    ltac:(intros c ???? H1 H2 H3 H4; destruct (feed_tool_call_inv c _ _ _ _ H1 H2 H4);
          destruct (feed_tool_call_text _ _ _ _ H3 H2 H4); by split_and!) _ _ _ _ Hc2 Hr2 Hk2 E3)
    as (Hc3 & Hr3 & Hk3 & Ha3); rewrite !concat_strings_empties in Ha3.
  - by apply feed_finish_kinds.
  - pose proof (adds_trans _ _ _ _ _ _ _ (adds_trans _ _ _ _ _ _ _ Ha1 Ha2) Ha3) as Ha.
    rewrite !str_app_nil_r in Ha. unfold adds. by rewrite feed_finish_order.
Qed.

Lemma feed_chunk_adds chunk : adds_op (feed_chunk to_uppercase chunk) (chunk_content chunk) (chunk_reasoning chunk).
Proof.
  intros t outs t' out Hc Hr Hk E.
  destruct (feed_chunk_inv to_uppercase chunk _ _ _ _ Hc Hr E) as [Hc' Hr']. revert E. unfold feed_chunk.
  destruct (feed_list _ _ t) as [t1 o1] eqn:E1. intros [= <- <-].
  destruct (feed_list_adds _ _ _ _ feed_choice_adds _ _ _ _ Hc Hr Hk E1) as (_ & _ & Hk1 & Ha1).
  split_and!; try done; destruct (wch_usage chunk); try done. by apply kinds_ok_meta.
Qed.

(** The content of a payload sequence; a payload that does not parse aborts
    the stream, so its content never counts. *)
Definition payload_content (p : string) : string := default EmptyString (chunk_content <$> parse_chunk p).
Definition payload_reasoning (p : string) : string := default EmptyString (chunk_reasoning <$> parse_chunk p).

Lemma feed_payloads_text payloads t' outs :
  feed_payloads parse_chunk to_uppercase payloads Translator_new = Ok (t', outs) ->
  core_inv t' outs /\ range_ok t' /\ kinds_ok t' /\
  texts OK_Text (tr_order t') = concat_strings (payload_content <$> payloads) /\
  texts OK_Reasoning (tr_order t') = concat_strings (payload_reasoning <$> payloads).
Proof.
  unfold feed_payloads. revert t' outs. induction payloads as [|p ps IH] using rev_ind; intros t' outs.
  - simpl. intros [= <- <-]. split_and!; auto using core_inv_new, range_ok_new, kinds_ok_new.
  - rewrite try_fold_snoc. intros ([t o] & Hpre & H)%result_bind_Ok.
    destruct (IH _ _ Hpre) as (Hc & Hr & Hk & Ht & Hrs). inv_ok. destruct x as [t1 o1]. inv_ok. simplify_eq.
    unfold feed in *. destruct (parse_chunk p) as [chunk|] eqn:Ep; [|done]. inv_ok.
    destruct (feed_chunk_adds chunk _ _ _ _ Hc Hr Hk ltac:(eassumption)) as (Hc1 & Hr1 & Hk1 & [Ha1 Ha2]).
    split_and!; [done..| |]; rewrite fmap_app; simpl; rewrite concat_strings_snoc.
    + rewrite Ha1, Ht. unfold payload_content at 3. by rewrite Ep.
    + rewrite Ha2, Hrs. unfold payload_reasoning at 3. by rewrite Ep.
Qed.

(** C15. From the wire to the message.  For every response whose payloads
    parse, the assembler fed with the translator's chunks yields the
    translator's blocks, closed, in the order they were first opened (less
    the tool calls when the response hit its token limit); and the visible
    text and the reasoning in these blocks are exactly the concatenation of
    the [content] and [reasoning_content] fragments of the payloads: nothing
    is lost, duplicated or reordered.  The bound says that no [u64] block
    index wrapped. *)
Theorem translated_response_blocks (payloads : list string) (t : Translator) (chunks : list StreamChunk) :
  translate_response parse_chunk to_uppercase payloads = Ok (t, chunks) ->
  (Z.of_nat (length (tr_order t)) <= u64_modulus)%Z ->
  blocks (push_all BlockAssembler_new chunks) =
    Ok (truncate_tool_calls (done_reason t) (close_block <$> tr_order t)) /\
  texts OK_Text (tr_order t) = concat_strings (payload_content <$> payloads) /\
  texts OK_Reasoning (tr_order t) = concat_strings (payload_reasoning <$> payloads).
Proof.
  unfold translate_response. intros ([u outs] & Hf & [= <- <-])%result_bind_Ok Hlen.
  destruct (feed_payloads_text _ _ _ Hf) as (Hc & Hr & Hk & Ht & Hrs).
  split; [by apply assembled_blocks|done].
Qed.
End translate_text.

(** A concrete response: two payloads, text and a tool call. *)
Definition sample_parse (s : string) : option WireChunk :=
  if String.eqb s "p1" then
    Some (mk_wchunk [mk_wc (Some (mk_wd (Some "Hel"%string) (Some ""%string) [])) None] None)
  else if String.eqb s "p2" then
    Some (mk_wchunk [mk_wc (Some (mk_wd (Some "lo"%string) None
      [mk_wtc 0 (Some "c1"%string) (Some (mk_wfd (Some "read"%string) (Some "{}"%string)))])) (Some "tool_calls"%string)] None)
  else None.

Lemma translated_response_blocks_witness :
  exists t chunks,
    translate_response sample_parse id ["p1"; "p2"] = Ok (t, chunks) /\
    blocks (push_all BlockAssembler_new chunks) = Ok [CB_Text "Hello"; CB_ToolCall "c1" "read" "{}"].
Proof.
  eexists _, _. split; [reflexivity|].
  destruct (translated_response_blocks sample_parse id ["p1"; "p2"] _ _ eq_refl ltac:(vm_compute; discriminate)) as [E _].
  rewrite E. reflexivity.
Defined.
