(* ===== verification/Sse.v ===== *)
(** Server-sent-event decoding ([crates/dsh/llm-deepseek/src/sse.rs]): the
    incremental decoder over raw byte chunks, a whole-stream reference, and the
    agreement of the two for every chunking of the transport. *)
From Stdlib Require Import ZArith Lia Ascii String.
From stdpp Require Import base tactics numbers list strings.
From S2P Require Import Prelude Text Utf8.

(** * The decoder *)

Definition DONE : string := "[DONE]".

Record SseDecoder := mk_decoder {
  buffer : string;
  data_lines : list string;
  partial : string;
  stripped_bom : bool
}.
Definition SseDecoder_new : SseDecoder := mk_decoder "" [] "" false.

(** U+FEFF. *)
Definition BOM : string :=
  String (ascii_of_nat 239) (String (ascii_of_nat 187) (String (ascii_of_nat 191) EmptyString)).

(** What a call to [feed] hands back: the dispatched payloads, and the comment
    lines shown to the hook. *)
Definition Fed : Type := list string * list string.
Definition fed_app (a b : Fed) : Fed := (fst a ++ fst b, snd a ++ snd b).

(** One complete line, without its newline: the pending [data] lines
    afterwards, a payload to dispatch, a comment to report. *)
Definition process_line (line : string) (data : list string) : list string * Fed :=
  let line := pop_cr line in
  match line with
  | EmptyString =>
      match data with [] => ([], ([], [])) | _ => ([], ([join (String newline EmptyString) data], [])) end
  | _ =>
      match strip_prefix ":" line with
      | Some comment => (data, ([], [default comment (strip_prefix " " comment)]))
      | None =>
          let '(field, value) :=
            match split_once ":" line with
            | Some (field, value) => (field, default value (strip_prefix " " value))
            | None => (line, "")
            end in
          ((if String.eqb field "data" then data ++ [value] else data), ([], []))
      end
  end.

(** The [while let Some(newline) = self.buffer.find('\n')] loop: every turn
    takes at least the newline off the buffer, whose length is fuel enough
    ([drain_lines_reference]). *)
Fixpoint drain_lines (fuel : nat) (buffer : string) (data : list string) : string * list string * Fed :=
  match split_once newline buffer with
  | None => (buffer, data, ([], []))
  | Some (line, rest) =>
      match fuel with
      | O => (buffer, data, ([], []))
      | S fuel =>
          let '(data, out) := process_line line data in
          let '(buffer, data, outs) := drain_lines fuel rest data in
          (buffer, data, fed_app out outs)
      end
  end.

Definition feed (bytes : string) (d : SseDecoder) : SseDecoder * Fed :=
  let partial := partial d +:+ bytes in
  let decoded := valid_prefix partial in
  let partial := valid_rest partial in
  let buffer := buffer d +:+ decoded in
  let '(buffer, stripped_bom) :=
    if stripped_bom d then (buffer, true)
    else let buffer := default buffer (strip_prefix BOM buffer) in
         (buffer, negb (String.eqb buffer "")) in
  let '(buffer, data, out) := drain_lines (String.length buffer) buffer (data_lines d) in
  (mk_decoder buffer data partial stripped_bom, out).

(** The reads of one response, in order. *)
Fixpoint feed_all (chunks : list string) (d : SseDecoder) : SseDecoder * Fed :=
  match chunks with
  | [] => (d, ([], []))
  | c :: chunks =>
      let '(d, out) := feed c d in
      let '(d, outs) := feed_all chunks d in
      (d, fed_app out outs)
  end.

(** * The whole-stream reference *)

(** The terminated lines of a text and its unterminated tail. *)
Fixpoint complete_lines (s : string) : list string * string :=
  match s with
  | EmptyString => ([], "")
  | String c s' =>
      let '(ls, tail) := complete_lines s' in
      if ascii_dec c newline then (EmptyString :: ls, tail)
      else match ls with [] => ([], String c tail) | l :: ls => (String c l :: ls, tail) end
  end.

Fixpoint parse_lines (data : list string) (ls : list string) : list string * Fed :=
  match ls with
  | [] => (data, ([], []))
  | l :: ls =>
      let '(data, out) := process_line l data in
      let '(data, outs) := parse_lines data ls in
      (data, fed_app out outs)
  end.

(** The text of a stream: the decodable bytes, one byte-order mark dropped. *)
Definition stream_text (bytes : string) : string :=
  let text := valid_prefix bytes in default text (strip_prefix BOM text).

Definition decode_stream (bytes : string) : SseDecoder * Fed :=
  let text := stream_text bytes in
  let '(ls, tail) := complete_lines text in
  let '(data, out) := parse_lines [] ls in
  (mk_decoder tail data (valid_rest bytes) (negb (String.eqb text "")), out).

(** * The encoder of the other side *)

Definition split_lines (s : string) : list string := let '(ls, tail) := complete_lines s in ls ++ [tail].
(** One event: a [data:] line per line of the payload and a blank line. *)
Definition encode_event (payload : string) : string :=
  concat_strings ((fun l => "data: " +:+ l +:+ String newline "") <$> split_lines payload) +:+ String newline "".
Definition encode_stream (payloads : list string) : string := concat_strings (encode_event <$> payloads).

(** * Lines *)

Lemma fed_app_nil_l o : fed_app ([], []) o = o.
Proof. by destruct o. Qed.
Lemma fed_app_nil_r o : fed_app o ([], []) = o.
Proof. destruct o. unfold fed_app. simpl. by rewrite !app_nil_r. Qed.
Lemma fed_app_assoc a b c : fed_app a (fed_app b c) = fed_app (fed_app a b) c.
Proof. unfold fed_app. simpl. by rewrite !app_assoc. Qed.

Lemma parse_lines_app data l1 l2 :
  parse_lines data (l1 ++ l2) =
  let '(data, o1) := parse_lines data l1 in let '(data, o2) := parse_lines data l2 in (data, fed_app o1 o2).
Proof.
  revert data. induction l1 as [|l l1 IH]; intros data; simpl.
  - destruct (parse_lines data l2) as [d o]. by rewrite fed_app_nil_l.
  - destruct (process_line l data) as [d o]. rewrite IH. destruct (parse_lines d l1) as [d' o'].
    destruct (parse_lines d' l2) as [d'' o'']. by rewrite fed_app_assoc.
Qed.

Lemma complete_lines_app s t :
  complete_lines (s +:+ t) =
  let '(ls, r) := complete_lines s in let '(ls', r') := complete_lines (r +:+ t) in (ls ++ ls', r').
Proof.
  induction s as [|c s IH]; simpl.
  - by destruct (complete_lines ("" +:+ t)).
  - rewrite IH. destruct (complete_lines s) as [ls r]. destruct (ascii_dec c newline).
    + by destruct (complete_lines (r +:+ t)).
    + destruct ls as [|l ls]; simpl.
      * destruct (complete_lines (r +:+ t)) as [ls' r'] eqn:E.
        destruct (ascii_dec c newline) eqn:Ec; [done|]. by destruct ls'.
      * by destruct (complete_lines (r +:+ t)).
Qed.

Lemma complete_lines_split s :
  match split_once newline s with
  | None => complete_lines s = ([], s)
  | Some (line, rest) => complete_lines s = let '(ls, tail) := complete_lines rest in (line :: ls, tail)
  end.
Proof.
  induction s as [|c s IH]; [done|]. cbn [split_once complete_lines]. destruct (ascii_dec c newline).
  - done.
  - destruct (split_once newline s) as [[line rest]|]; simpl.
    + rewrite IH. by destruct (complete_lines rest).
    + by rewrite IH.
Qed.

(** The loop empties the buffer of its complete lines. *)
Lemma drain_lines_reference f s data :
  String.length s <= f ->
  drain_lines f s data =
  let '(ls, tail) := complete_lines s in let '(data, out) := parse_lines data ls in (tail, data, out).
Proof.
  revert s data. induction f as [|f IH]; intros s data Hf; cbn [drain_lines].
  - destruct s; [done|simpl in Hf; lia].
  - pose proof (complete_lines_split s) as Hc. destruct (split_once newline s) as [[line rest]|] eqn:E.
    + apply split_once_Some in E. subst s. rewrite str_length_app in Hf. simpl in Hf. rewrite Hc.
      destruct (complete_lines rest) as [ls tail] eqn:Hr. simpl.
      destruct (process_line line data) as [d o]. rewrite IH, Hr by lia. by destruct (parse_lines d ls).
    + by rewrite Hc.
Qed.

(** * Chunking *)

Lemma starts_with_app p s t : starts_with p s = true -> starts_with p (s +:+ t) = true.
Proof. intros (u & ->)%starts_with_spec. apply starts_with_spec. exists (u +:+ t). by rewrite str_app_assoc. Qed.

(** A byte-order mark is decided by the first scalar value alone. *)
Lemma strip_bom_stable p q :
  is_utf8 p -> p <> "" -> default (p +:+ q) (strip_prefix BOM (p +:+ q)) = default p (strip_prefix BOM p) +:+ q.
Proof.
  intros Hp Hne. destruct (strip_prefix BOM p) as [t|] eqn:E.
  - apply strip_prefix_Some in E as ->. rewrite <- str_app_assoc.
    by assert (strip_prefix BOM (BOM +:+ (t +:+ q)) = Some (t +:+ q)) as -> by by apply strip_prefix_Some.
  - simpl. destruct (strip_prefix BOM (p +:+ q)) as [u|] eqn:E'; [|done]. exfalso.
    apply strip_prefix_Some in E'. assert (Hw : utf8_width p <> 0).
    { unfold is_utf8 in Hp. rewrite valid_up_to_eq in Hp. destruct (utf8_width p); [|done]. by destruct p. }
    pose proof (utf8_width_app p q Hw) as Hpq. pose proof (utf8_width_bound p) as [_ Hl].
    rewrite E' in Hpq. change (utf8_width (BOM +:+ u)) with 3 in Hpq. rewrite <- Hpq in Hl.
    destruct p as [|a [|b [|c p]]]; try (simpl in Hl; lia). rewrite !str_app_cons in E'.
    injection E' as -> -> -> _.
    assert (strip_prefix BOM (BOM +:+ p) = Some p) by by apply strip_prefix_Some.
    unfold BOM in H, E. rewrite !str_app_cons, str_app_nil_l in H. congruence.
Qed.

(** The decoder has caught up with the bytes it was fed. *)
Definition caught_up (bytes : string) (d : SseDecoder) (out : Fed) : Prop :=
  let text := stream_text bytes in
  let '(ls, tail) := complete_lines text in
  buffer d = tail /\ (data_lines d, out) = parse_lines [] ls /\ partial d = valid_rest bytes
  /\ stripped_bom d = negb (String.eqb text "").

Lemma stream_text_app bytes c :
  starts_with (BOM +:+ BOM) (bytes +:+ c) = false ->
  let text := stream_text bytes in
  let decoded := valid_prefix (valid_rest bytes +:+ c) in
  stream_text (bytes +:+ c) =
    if String.eqb text "" then default decoded (strip_prefix BOM decoded) else text +:+ decoded.
Proof.
  intros Hbom. unfold stream_text. destruct (valid_split_app bytes c) as [E _]. rewrite E.
  generalize (valid_prefix_utf8 bytes). destruct (decide (valid_prefix bytes = "")) as [->|Hne]; [done|]. intros Hp.
  rewrite strip_bom_stable by done.
  destruct (String.eqb_spec (default (valid_prefix bytes) (strip_prefix BOM (valid_prefix bytes))) "") as [Ht|Ht]; [|done].
  rewrite Ht, str_app_nil_l. destruct (strip_prefix BOM (valid_prefix bytes)) as [t|] eqn:Es; simpl in Ht; [|done].
  subst t. apply strip_prefix_Some in Es. rewrite str_app_nil_r in Es.
  destruct (strip_prefix BOM (valid_prefix (valid_rest bytes +:+ c))) as [u|] eqn:Eu; [|done].
  apply strip_prefix_Some in Eu. exfalso. apply not_true_iff_false in Hbom. apply Hbom. apply starts_with_spec.
  exists (u +:+ valid_rest (bytes +:+ c)). pose proof (valid_prefix_rest (bytes +:+ c)) as R.
  rewrite E, Es, Eu in R. by rewrite <- R at 1; rewrite !str_app_assoc.
Qed.

Lemma feed_caught_up bytes c d out d' o :
  starts_with (BOM +:+ BOM) (bytes +:+ c) = false ->
  caught_up bytes d out -> feed c d = (d', o) -> caught_up (bytes +:+ c) d' (fed_app out o).
Proof.
  intros Hbom Hd. unfold caught_up in *. pose proof (stream_text_app bytes c Hbom) as Ht. cbn zeta in Ht.
  destruct (complete_lines (stream_text bytes)) as [ls tail] eqn:Els. destruct Hd as (Hb & Hdata & Hp & Hs).
  unfold feed. cbn zeta. rewrite Hp, Hb, Hs. destruct (valid_split_app bytes c) as [_ Hr].
  assert (Hbuf : (if negb (String.eqb (stream_text bytes) "") then (tail +:+ valid_prefix (valid_rest bytes +:+ c), true)
      else let buf := tail +:+ valid_prefix (valid_rest bytes +:+ c) in
        (default buf (strip_prefix BOM buf), negb (String.eqb (default buf (strip_prefix BOM buf)) ""))) =
     (if String.eqb (stream_text bytes) "" then stream_text (bytes +:+ c) else tail +:+ valid_prefix (valid_rest bytes +:+ c),
      negb (String.eqb (stream_text (bytes +:+ c)) ""))).
  { rewrite Ht. destruct (String.eqb_spec (stream_text bytes) "") as [E0|E0]; simpl.
    - rewrite E0 in Els. injection Els as <- <-. by rewrite str_app_nil_l.
    - by destruct (stream_text bytes). }
  cbn zeta in Hbuf. rewrite Hbuf. clear Hbuf. rewrite drain_lines_reference by done.
  destruct (complete_lines (if String.eqb (stream_text bytes) "" then _ else _)) as [ls' tail'] eqn:Els'.
  destruct (parse_lines (data_lines d) ls') as [data o'] eqn:Ep. intros [= <- <-].
  assert (E : complete_lines (stream_text (bytes +:+ c)) = (ls ++ ls', tail')).
  { rewrite Ht. destruct (String.eqb_spec (stream_text bytes) "") as [E0|E0].
    - rewrite E0 in Els. injection Els as <- <-. rewrite Ht in Els'. by rewrite Els'.
    - rewrite complete_lines_app, Els, Els'. done. }
  rewrite E. simpl. split_and!; try done. by rewrite parse_lines_app, <- Hdata, Ep.
Qed.

Lemma feed_all_caught_up chunks bytes d out d' o :
  starts_with (BOM +:+ BOM) (bytes +:+ concat_strings chunks) = false ->
  caught_up bytes d out -> feed_all chunks d = (d', o) -> caught_up (bytes +:+ concat_strings chunks) d' (fed_app out o).
Proof.
  revert bytes d out o. induction chunks as [|c chunks IH]; intros bytes d out o Hbom Hd; simpl.
  - intros [= <- <-]. by rewrite str_app_nil_r, fed_app_nil_r.
  - destruct (feed c d) as [d1 o1] eqn:E1. destruct (feed_all chunks d1) as [d2 o2] eqn:E2. intros [= <- <-].
    cbn [concat_strings] in Hbom. rewrite str_app_assoc in Hbom |- *. rewrite fed_app_assoc. eapply IH; [done| |done].
    eapply feed_caught_up; [|done..]. destruct (starts_with (BOM +:+ BOM) (bytes +:+ c)) eqn:E; [|done].
    by rewrite (starts_with_app _ _ (concat_strings chunks) E) in Hbom.
Qed.

Lemma chunked_decode (chunks : list string) :
  starts_with (BOM +:+ BOM) (concat_strings chunks) = false ->
  feed_all chunks SseDecoder_new = decode_stream (concat_strings chunks).
Proof.
  intros Hbom. destruct (feed_all chunks SseDecoder_new) as [d o] eqn:E.
  assert (H : caught_up ("" +:+ concat_strings chunks) d (fed_app ([], []) o)).
  { eapply feed_all_caught_up; [done| |done]. done. }
  rewrite str_app_nil_l, fed_app_nil_l in H. unfold caught_up in H. unfold decode_stream.
  destruct (complete_lines _) as [ls tail]. destruct H as (Hb & Hd & Hp & Hs). rewrite <- Hd, <- Hb, <- Hp, <- Hs. by destruct d.
Qed.

(** The transport may cut the stream anywhere: for a response that does not
    open with two byte-order marks, feeding its reads one by one leaves the
    decoder, and hands out the payloads and the comments, of the whole byte
    sequence decoded at once: its longest valid UTF-8 prefix, less one
    byte-order mark, cut into complete lines and parsed line by line. *)
Theorem sse_chunking (chunks : list string) :
  starts_with (BOM +:+ BOM) (concat_strings chunks) = false ->
  feed_all chunks SseDecoder_new = decode_stream (concat_strings chunks).
Proof.
  apply chunked_decode.
Qed.

(** Euro sign and a two-line event, cut in the middle of the sign and of the CRLF. *)
Definition sample_chunks : list string :=
  [BOM +:+ "data: a" +:+ String (ascii_of_nat 226) ""; String (ascii_of_nat 130) (String (ascii_of_nat 172) (String carriage_return ""));
   String newline ("data:b" +:+ String newline (": ping" +:+ String newline "")); String newline "data"].

Lemma sse_chunking_witness :
  starts_with (BOM +:+ BOM) (concat_strings sample_chunks) = false
  /\ feed_all sample_chunks SseDecoder_new = decode_stream (concat_strings sample_chunks)
  /\ snd (decode_stream (concat_strings sample_chunks)) =
     (["a" +:+ String (ascii_of_nat 226) (String (ascii_of_nat 130) (String (ascii_of_nat 172) (String newline "b")))], ["ping"]).
Proof.
  split; [vm_compute; reflexivity|]. split; [|vm_compute; reflexivity].
  apply sse_chunking. vm_compute. reflexivity.
Defined.

(** * Round trip *)

Lemma utf8_width_newline a b : utf8_width a = 0 -> a <> "" -> utf8_width (a +:+ String newline b) = 0.
Proof.
  assert (H3 : forall x, second_of_three x newline = false)
    by (intros x; unfold second_of_three; cbn -[byte_in]; by rewrite !andb_false_r).
  assert (H4 : forall x, second_of_four x newline = false)
    by (intros x; unfold second_of_four; cbn -[byte_in]; by rewrite !andb_false_r).
  assert (Hc : is_continuation newline = false) by reflexivity.
  destruct a as [|x [|y [|z [|w a]]]]; rewrite ?str_app_cons, ?str_app_nil_l; cbn [utf8_width]; intros E Hne; [done|..].
  all: destruct (byte_in 0 127 x); [done|].
  all: rewrite ?H3, ?H4, ?Hc, ?andb_false_r in *; simpl andb; try (destruct (byte_in 194 223 x && is_continuation y); [done|]).
  all: try (destruct (second_of_three x y && is_continuation z); [done|]); rewrite ?andb_false_r; simpl andb; repeat split_match; try done.
Qed.

Lemma is_utf8_newline a b : is_utf8 (a +:+ String newline b) -> is_utf8 a /\ is_utf8 b.
Proof.
  assert (Hcons : forall s, valid_up_to (String newline s) = S (valid_up_to s)) by (intros s; by rewrite valid_up_to_eq).
  induction a as [a Hw|a Hw IH] using utf8_ind; unfold is_utf8 in *; intros H.
  - destruct (decide (a = "")) as [->|Hne].
    + rewrite str_app_nil_l, Hcons in H. simpl in H. split; [done|]. lia.
    + rewrite valid_up_to_eq, utf8_width_newline in H by done. rewrite str_length_app in H. simpl in H. lia.
  - pose proof (utf8_width_bound a) as [_ Hl]. rewrite valid_up_to_eq, utf8_width_app in H by done.
    rewrite (valid_up_to_eq a). destruct (utf8_width a) as [|w]; [done|]. rewrite str_drop_app_l in H by done.
    rewrite str_length_app in H. destruct IH as [IH1 IH2].
    { rewrite str_length_app, str_length_drop. lia. }
    split; [|done]. rewrite IH1, str_length_drop. lia.
Qed.

Definition line_ok (l : string) : Prop := is_utf8 l /\ split_once newline l = None /\ pop_cr l = l.

Lemma join_cons sep l ls : ls <> [] -> join sep (l :: ls) = l +:+ sep +:+ join sep ls.
Proof. by destruct ls. Qed.

Lemma split_lines_join s : join (String newline "") (split_lines s) = s.
Proof.
  unfold split_lines. induction s as [|c s IH]; [done|]. cbn [complete_lines].
  destruct (complete_lines s) as [ls tail]. destruct (ascii_dec c newline) as [->|].
  - cbn [app]. rewrite join_cons by (by destruct ls). by rewrite IH, str_app_nil_l, str_app_cons, str_app_nil_l.
  - destruct ls as [|l ls]; cbn [app] in *; [by rewrite <- IH|].
    rewrite join_cons in IH |- * by (by destruct ls). by rewrite str_app_cons, IH.
Qed.

Lemma split_lines_no_newline s : Forall (fun l => split_once newline l = None) (split_lines s).
Proof.
  unfold split_lines. induction s as [|c s IH]; [by repeat constructor|]. cbn [complete_lines].
  destruct (complete_lines s) as [ls tail]. destruct (ascii_dec c newline) as [->|Hc].
  - by constructor.
  - destruct ls as [|l ls]; inversion IH as [|? ? H1 H2]; subst; constructor; try done; simpl.
    + destruct (ascii_dec c newline); [done|]. by rewrite H1.
    + destruct (ascii_dec c newline); [done|]. by rewrite H1.
Qed.

Lemma join_utf8 ls : is_utf8 (join (String newline "") ls) -> Forall is_utf8 ls.
Proof.
  induction ls as [|l [|l' ls] IH]; cbn [join]; [by constructor| |].
  - intros H. by repeat constructor.
  - intros H. rewrite str_app_cons, str_app_nil_l in H. apply is_utf8_newline in H as [H1 H2]. constructor; auto.
Qed.

Lemma split_lines_ok p :
  is_utf8 p -> Forall (fun l => pop_cr l = l) (split_lines p) -> Forall line_ok (split_lines p).
Proof.
  intros Hu Hcr. rewrite <- (split_lines_join p) in Hu. apply join_utf8 in Hu.
  pose proof (split_lines_no_newline p) as Hn. unfold line_ok. rewrite !Forall_and. done.
Qed.

Lemma split_lines_nonempty s : split_lines s <> [].
Proof. unfold split_lines. destruct (complete_lines s). by destruct l. Qed.

Lemma complete_lines_line l rest :
  split_once newline l = None ->
  complete_lines (l +:+ String newline rest) = let '(ls, tail) := complete_lines rest in (l :: ls, tail).
Proof.
  intros Hl. rewrite complete_lines_app. pose proof (complete_lines_split l) as E. rewrite Hl in E. rewrite E.
  pose proof (complete_lines_split (l +:+ String newline rest)) as E'.
  assert (Hs : split_once newline (l +:+ String newline rest) = Some (l, rest)).
  { clear E E'. induction l as [|c l IH]; [done|]. rewrite str_app_cons. simpl in Hl |- *.
    destruct (ascii_dec c newline); [done|]. rewrite IH; [done|]. by destruct (split_once newline l). }
  rewrite Hs in E'. rewrite E'. by destruct (complete_lines rest).
Qed.

Lemma split_once_data l : split_once newline l = None -> split_once newline ("data: " +:+ l) = None.
Proof. intros Hl. rewrite !str_app_cons, str_app_nil_l. cbn. by rewrite Hl. Qed.

Lemma process_data_line l data :
  pop_cr l = l -> process_line ("data: " +:+ l) data = (data ++ [l], ([], [])).
Proof.
  intros Hl. unfold process_line.
  assert (E : pop_cr ("data: " +:+ l) = "data: " +:+ l).
  { rewrite !str_app_cons, str_app_nil_l. destruct l as [|c l]; [done|].
    change (pop_cr (String "d" (String "a" (String "t" (String "a" (String ":" (String " " (String c l)))))))) with
      (String "d" (String "a" (String "t" (String "a" (String ":" (String " " (pop_cr (String c l)))))))). by rewrite Hl. }
  rewrite E. by rewrite !str_app_cons, str_app_nil_l.
Qed.

Lemma parse_data_lines ls data :
  Forall line_ok ls -> parse_lines data ((fun l => "data: " +:+ l) <$> ls) = (data ++ ls, ([], [])).
Proof.
  intros Hls. revert data. induction Hls as [|l ls (_ & _ & Hl) Hls IH]; intros data; [by rewrite app_nil_r|].
  rewrite fmap_cons. cbn [parse_lines]. rewrite process_data_line by done. rewrite IH. by rewrite <- app_assoc.
Qed.

(** An encoded event is its data lines and a blank line. *)
Lemma complete_lines_event p rest :
  Forall line_ok (split_lines p) ->
  complete_lines (encode_event p +:+ rest) =
  let '(ls, tail) := complete_lines rest in (((fun l => "data: " +:+ l) <$> split_lines p) ++ EmptyString :: ls, tail).
Proof.
  unfold encode_event. generalize (split_lines p) as ls. intros ls Hls.
  rewrite <- str_app_assoc, str_app_cons, str_app_nil_l.
  induction Hls as [|l ls (_ & Hn & _) Hls IH].
  - change (concat_strings _ +:+ String newline rest) with (String newline rest).
    change (complete_lines (String newline rest)) with (let '(ls, tail) := complete_lines rest in ("" :: ls, tail)).
    by destruct (complete_lines rest).
  - rewrite !fmap_cons. cbn [concat_strings]. rewrite <- !str_app_assoc, (str_app_assoc "data: ").
    rewrite (str_app_cons newline), str_app_nil_l. rewrite complete_lines_line by by apply split_once_data.
    rewrite IH. by destruct (complete_lines rest).
Qed.

Definition payload_ok (p : string) : Prop := is_utf8 p /\ Forall (fun l => pop_cr l = l) (split_lines p).

Lemma encode_event_utf8 p : payload_ok p -> is_utf8 (encode_event p).
Proof.
  intros [Hu Hcr]. pose proof (split_lines_ok p Hu Hcr) as Hl. unfold encode_event. apply is_utf8_concat; [|reflexivity].
  clear Hcr. induction Hl as [|l ls (Hlu & _) _ IH]; [reflexivity|]. rewrite fmap_cons. cbn [concat_strings].
  apply is_utf8_concat; [|exact IH]. apply is_utf8_concat; [reflexivity|].
  apply is_utf8_concat; [done|reflexivity].
Qed.

Lemma encode_stream_lines payloads :
  Forall payload_ok payloads ->
  exists ls, complete_lines (encode_stream payloads) = (ls, "") /\ parse_lines [] ls = ([], (payloads, [])).
Proof.
  induction 1 as [|p payloads [Hu Hcr] Hps (ls & E & Ep)]; [by exists []|].
  pose proof (split_lines_ok p Hu Hcr) as Hl. eexists. unfold encode_stream. rewrite fmap_cons. cbn [concat_strings].
  rewrite complete_lines_event by done. unfold encode_stream in E. rewrite E. split; [done|].
  rewrite parse_lines_app, parse_data_lines by done. cbn [parse_lines app]. unfold process_line at 1. cbn [pop_cr].
  pose proof (split_lines_join p) as Hj. pose proof (split_lines_nonempty p) as Hne.
  destruct (split_lines p) as [|l0 ls0]; [done|]. rewrite Ep, Hj. done.
Qed.

Lemma stream_decoded (payloads chunks : list string) :
  Forall payload_ok payloads -> concat_strings chunks = encode_stream payloads ->
  exists bom, feed_all chunks SseDecoder_new = (mk_decoder "" [] "" bom, (payloads, [])).
Proof.
  intros Hps Hc. destruct (encode_stream_lines payloads Hps) as (ls & E & Ep).
  assert (Hu : is_utf8 (encode_stream payloads)).
  { unfold encode_stream. clear -Hps. induction Hps as [|p payloads Hp _ IH]; [done|].
    rewrite fmap_cons. apply is_utf8_concat; [by apply encode_event_utf8|done]. }
  assert (Hb : starts_with BOM (encode_stream payloads) = false).
  { unfold encode_stream. destruct payloads as [|p ps]; [done|]. rewrite fmap_cons. cbn [concat_strings]. unfold encode_event.
    pose proof (split_lines_nonempty p). destruct (split_lines p) as [|l0 ls0]; [done|]. rewrite fmap_cons. cbn [concat_strings].
    by rewrite <- !str_app_assoc. }
  eexists. rewrite chunked_decode.
  - rewrite Hc. unfold decode_stream, stream_text. destruct (valid_prefix_id _ Hu) as [-> ->].
    rewrite (proj2 (strip_prefix_None BOM _)) by done. simpl. by rewrite E, Ep.
  - rewrite Hc. destruct (starts_with (BOM +:+ BOM) (encode_stream payloads)) eqn:Eb; [|done].
    apply starts_with_spec in Eb as (u & Eb). rewrite Eb, <- str_app_assoc in Hb.
    apply not_true_iff_false in Hb. destruct Hb. apply starts_with_spec. by eexists.
Qed.

(** Round trip over any transport: payloads encoded as events (one [data:]
    line per line) and delivered in any cut of the byte stream come out
    unchanged, in order and exactly once, with no comment and nothing left
    behind. A payload is any UTF-8 text without a carriage return at a line's
    end, which the line rules of the format cannot carry. *)
Theorem sse_roundtrip (payloads chunks : list string) :
  Forall payload_ok payloads -> concat_strings chunks = encode_stream payloads ->
  exists bom, feed_all chunks SseDecoder_new = (mk_decoder "" [] "" bom, (payloads, [])).
Proof. apply stream_decoded. Qed.

Lemma sse_roundtrip_witness :
  let payloads := ["{}"; String newline "x"; DONE] in
  let chunks := ["dat"; "a: {}" +:+ String newline (String newline "data: "); String newline ("data: x" +:+ String newline (String newline "d"));
                 "ata: [DONE]" +:+ String newline ""; String newline ""] in
  (Forall payload_ok payloads /\ concat_strings chunks = encode_stream payloads)
  /\ exists bom, feed_all chunks SseDecoder_new = (mk_decoder "" [] "" bom, (payloads, [])).
Proof.
  cbn zeta.
  assert (Hp : Forall payload_ok ["{}"; String newline "x"; DONE])
    by (repeat apply Forall_cons_2; try apply Forall_nil_2; (split; [reflexivity|repeat constructor])).
  assert (Hc : concat_strings ["dat"; "a: {}" +:+ String newline (String newline "data: ");
     String newline ("data: x" +:+ String newline (String newline "d")); "ata: [DONE]" +:+ String newline ""; String newline ""]
     = encode_stream ["{}"; String newline "x"; DONE]) by (vm_compute; reflexivity).
  split; [by split|]. exact (sse_roundtrip _ _ Hp Hc).
Defined.

(** * A byte that is never valid *)

(** [from_utf8] reports an invalid byte like an incomplete tail, and the
    decoder holds it back: every later read is appended behind it and nothing
    is decoded any more, whatever the stream goes on to say. *)
Lemma invalid_byte_stalls chunks d :
  starts_with (String (ascii_of_nat 255) "") (partial d) = true -> split_once newline (buffer d) = None ->
  stripped_bom d = true -> snd (feed_all chunks d) = ([], []).
Proof.
  revert d. induction chunks as [|c chunks IH]; intros d Hp Hb Hs; [done|]. cbn [feed_all].
  assert (E : feed c d = (mk_decoder (buffer d) (data_lines d) (partial d +:+ c) true, ([], []))).
  { apply (starts_with_app _ _ c) in Hp. apply starts_with_spec in Hp as (u & Hu).
    assert (Hv : valid_up_to (partial d +:+ c) = 0) by (rewrite Hu, valid_up_to_eq; by destruct u as [|? [|? [|? ?]]]).
    unfold feed, valid_prefix, valid_rest. rewrite Hv, Hs. cbn [str_take str_drop]. rewrite str_app_nil_r.
    by destruct (String.length (buffer d)); cbn [drain_lines]; rewrite Hb. }
  rewrite E. specialize (IH (mk_decoder (buffer d) (data_lines d) (partial d +:+ c) true)).
  destruct (feed_all chunks _) as [d1 o]. cbn [snd fst partial buffer stripped_bom] in IH |- *.
  rewrite IH by (try done; by apply starts_with_app). done.
Qed.
