(* ===== verification/Adapter.v ===== *)
(** The DeepSeek adapter, [crates/dsh/llm-deepseek/src/adapter.rs]: model
    metadata, HTTP failures, and the transport loop that drives the event
    decoder ([Sse.v]) and the translator ([Translate.v]) over the reads of one
    response.

    The network is the environment: a call takes the answer to the request and
    then one [Turn] per iteration of the transport loop.  reqwest's headers,
    serde_json's parse of a body, the [regex] classifiers of provider wording
    and chrono's date parser are parameters. *)
From Stdlib Require Import ZArith String Ascii SpecFloat.
From stdpp Require Import base tactics numbers list gmap strings.
From S2P Require Import Prelude Json Text Utf8 Llm Model Retry Assembler Serialize Translate Sse.
Open Scope keel_scope.

(** * Connection facts and model metadata *)

Definition DEFAULT_STREAM_IDLE_TIMEOUT_MS : Z := 300000.
Definition DEFAULT_CONTEXT_WINDOW : Z := 1000000.
Definition DEFAULT_MAX_TOKENS : Z := 256000.

Record DeepSeekCatalogModel := mk_catalog_model {
  cm_id : string;
  cm_name : option string;
  cm_description : option string;
  cm_context_window : option Z;
  cm_max_tokens : option Z;
}.

Record DeepSeekConnectionOptions := mk_connection {
  co_base_url : string;
  co_api_key_env : string;
  co_defaults : RequestDefaults;
  co_max_tokens : Z;
  co_default_context_window : Z;
  co_models : list DeepSeekCatalogModel;
  co_stream_idle_timeout_ms : Z;
  co_retry_policy : ResolvedRetryPolicy;
}.

Definition model_info (provider : string) (model : DeepSeekCatalogModel) : LlmModelInfo :=
  mk_model_info provider (cm_id model) (default (cm_id model) (cm_name model)) (cm_description model) (Some [MM_Text]).

Definition efforts (off_only : bool) : list LlmReasoningEffortInfo :=
  mk_effort "off" "Off" None :: (if off_only then [] else [mk_effort "high" "High" None; mk_effort "max" "Max" None]).

Definition provider_info (provider : string) : LlmProviderInfo := mk_provider_info provider "DeepSeek".
Definition list_models (connection : DeepSeekConnectionOptions) (provider : string) : list LlmModelInfo :=
  model_info provider <$> co_models connection.

Definition resolve_model (connection : DeepSeekConnectionOptions) (provider model : string) : LlmResolvedModelInfo :=
  let configured := List.find (fun entry => String.eqb (cm_id entry) model) (co_models connection) in
  let context_window := default (co_default_context_window connection) (configured ≫= cm_context_window) in
  let base := match configured with
              | None => mk_model_info provider model model None (Some [MM_Text])
              | Some entry => model_info provider entry
              end in
  let thinking_disabled := bool_decide (rd_thinking (co_defaults connection) = Some "disabled") in
  let default_effort :=
    if thinking_disabled then "off"
    else match rd_reasoning_effort (co_defaults connection) with
         | Some e => if String.eqb e "off" then "off" else if String.eqb e "max" then "max" else "high"
         | None => "high"
         end in
  mk_resolved_model (mi_provider base) (mi_id base) (mi_name base) (mi_description base) (mi_input_modalities base)
    (Some context_window)
    (Some (default (co_max_tokens connection) (configured ≫= cm_max_tokens)))
    (Some (mk_reasoning_info (efforts thinking_disabled) (Some default_effort))).

(** * HTTP failures *)

Record WireErrorDetail := mk_error_detail {
  wed_message : option string;
  wed_kind : option string;
  wed_error_type : option string;
  wed_code : option string;
}.
Definition WireError : Type := option WireErrorDetail.

(** A header by name: absent, present but not visible ASCII, or its text. *)
Definition Headers : Type := string -> option (option string).

Section adapter.
Context (is_quota_exceeded_error is_context_window_exceeded_error : string -> bool).
Context (parse_date : string -> option Z) (now : Z).
Context (parse_chunk : string -> option WireChunk) (to_uppercase : string -> string).

Definition f64_mul (a b : f64) : f64 := SFmul f64_prec f64_emax a b.
(** [str::parse::<f64>] of decimal digits: the correctly rounded integer. *)
Definition digits_value (s : string) : Z :=
  foldl (fun n c => n * 10 + (Z.of_nat (nat_of_ascii c) - 48))%Z 0%Z (String.list_ascii_of_string s).
Definition all_digits (s : string) : bool := forallb (fun c => byte_in 48 57 c) (String.list_ascii_of_string s).

Definition provider_retry_after (value : option string) : option f64 :=
  value ← value;
  if all_digits value && negb (String.eqb value "") then
    let delay := f64_mul (f64_of_Z (digits_value value)) (f64_of_Z 1000) in
    if f64_is_finite delay && f64_ltb f64_zero delay then Some delay else None
  else
    date ← parse_date value;
    let delay := f64_of_Z (i64_wrap (date - now)) in
    if f64_ltb f64_zero delay then Some delay else None.

Definition response_request_id (headers : Headers) : option ProviderRequestId :=
  value ← match headers "x-request-id" with Some v => Some v | None => headers "x-deepseek-request-id" end;
  value ← value;
  if negb (String.eqb value "") then Some value else None.

Definition http_error_code (status : Z) (error : option WireErrorDetail) : string :=
  if (status =? 401)%Z || (status =? 403)%Z then "AUTH"
  else
    let detail := match error with
                  | Some e => join " " (omap id [wed_code e; wed_error_type e; wed_message e])
                  | None => ""
                  end in
    if is_quota_exceeded_error detail then "QUOTA"
    else if (status =? 429)%Z then "RATE_LIMIT"
    else if (status =? 400)%Z then
      if is_context_window_exceeded_error detail then "CONTEXT_WINDOW_EXCEEDED" else "INVALID_REQUEST"
    else if (500 <=? status)%Z then "SERVER"
    else "HTTP_" +:+ decimal status.

(** The error yielded for a non-success status; [None] is a panic of
    [LlmError::new] or [with_facts]. *)
Definition http_error (status : Z) (headers : Headers) (parsed : option WireError) : option LlmError :=
  let delay := provider_retry_after (mjoin (headers "retry-after")) in
  let id := response_request_id headers in
  let provider_error := mjoin parsed in
  let message := default ("DeepSeek API error (HTTP " +:+ decimal status +:+ ")") (provider_error ≫= wed_message) in
  e ← LlmError_new message (http_error_code status provider_error);
  with_facts (Some status) delay id e.

(** * The transport loop *)

Definition Yield : Type := result StreamChunk LlmError.

Inductive Read := RD_Timeout | RD_Eof | RD_Error | RD_Bytes (item : string).
(** One iteration as the environment plays it: the signals' state at the head
    of the loop, the outcome of the read, the signals' state after it. *)
Record Turn := mk_turn { turn_signals : AbortSignal -> bool; turn_read : Read; turn_signals_after : AbortSignal -> bool }.

(** Whether the stream returned, panicked, or is still waiting for a read. *)
Inductive Ending := Ended | Panicked | Waiting.

Definition aborted (options : GenerateOptions) (signals : AbortSignal -> bool) : bool :=
  match go_signal options with Some s => signals s | None => false end.
Definition ABORTED : LlmError := llm_error "DeepSeek request aborted by caller" "ABORTED".

Inductive PayloadEnd := PE_More (t : Translator) | PE_Finished | PE_Failed.

(** [for payload in decoder.feed(&item, ..)]. *)
Fixpoint payload_loop (payloads : list string) (t : Translator) : list Yield * PayloadEnd :=
  match payloads with
  | [] => ([], PE_More t)
  | payload :: payloads =>
      if String.eqb payload DONE then (Ok <$> snd (Translate.done t), PE_Finished)
      else match Translate.feed parse_chunk to_uppercase payload t with
           | Ok (t, chunks) => let '(ys, e) := payload_loop payloads t in ((Ok <$> chunks) ++ ys, e)
           | Err error => ([Err error], PE_Failed)
           end
  end.

Fixpoint transport (options : GenerateOptions) (connection : DeepSeekConnectionOptions) (turns : list Turn)
    (d : SseDecoder) (t : Translator) : list Yield * Ending :=
  match turns with
  | [] => ([], Waiting)
  | turn :: turns =>
      if aborted options (turn_signals turn) then ([Err ABORTED], Ended)
      else match turn_read turn with
           | RD_Timeout =>
               ([Err (llm_error ("DeepSeek stream idle timeout after " +:+ decimal (co_stream_idle_timeout_ms connection) +:+ "ms") "TIMEOUT")], Ended)
           | RD_Eof => ([Err (llm_error "SSE stream ended without [DONE]" "STREAM_CLOSED")], Ended)
           | RD_Error =>
               ([Err (if aborted options (turn_signals_after turn) then ABORTED
                      else llm_error ("DeepSeek API stream from " +:+ co_base_url connection +:+ " failed") "TRANSPORT")], Ended)
           | RD_Bytes item =>
               let '(d, (payloads, _)) := Sse.feed item d in
               match payload_loop payloads t with
               | (ys, PE_More t) => let '(ys', e) := transport options connection turns d t in (ys ++ ys', e)
               | (ys, _) => (ys, Ended)
               end
           end
  end.

(** What the network answers to the request itself. *)
Inductive Answer :=
| AN_Failed (signals_after : AbortSignal -> bool)
| AN_Response (status : Z) (headers : Headers) (body : option WireError) (turns : list Turn).

(** [stream]: one resolution of connection and credential, one request. *)
Definition stream (connection : DeepSeekConnectionOptions) (api_key : result string LlmError) (answer : WireRequest -> Answer)
    (options : GenerateOptions) : list Yield * Ending :=
  match api_key with
  | Err error => ([Err error], Ended)
  | Ok _ =>
      match serialize_request options (co_defaults connection) with
      | Err error => ([Err error], Ended)
      | Ok body =>
          match answer body with
          | AN_Failed signals =>
              ([Err (if aborted options signals then ABORTED
                     else llm_error ("DeepSeek API request to " +:+ co_base_url connection +:+ " failed") "TRANSPORT")], Ended)
          | AN_Response status headers parsed turns =>
              if negb ((200 <=? status)%Z && (status <? 300)%Z) then
                match http_error status headers parsed with
                | Some e => ([Err e], Ended)
                | None => ([], Panicked)
                end
              else transport options connection turns SseDecoder_new Translator_new
          end
      end
  end.
End adapter.

(** * The stream protocol *)

(** A stream still open (chunks, no finish), and a closed one: its last item is
    the only finish chunk or the only failure. *)
Definition open_stream (ys : list Yield) : Prop := exists cs : list StreamChunk, ys = Ok <$> cs /\ omap finish_of cs = [].
Definition terminal (y : Yield) : Prop := match y with Ok c => is_Some (finish_of c) | Err _ => True end.
Definition closed_stream (ys : list Yield) : Prop := exists front y, ys = front ++ [y] /\ open_stream front /\ terminal y.

Lemma open_nil : open_stream [].
Proof. by exists []. Qed.
Lemma closed_one y : terminal y -> closed_stream [y].
Proof. intros. exists [], y. auto using open_nil. Qed.
Lemma open_app a b : open_stream a -> open_stream b -> open_stream (a ++ b).
Proof.
  intros (ca & -> & Ha) (cb & -> & Hb). exists (ca ++ cb). by rewrite fmap_app, omap_app, Ha, Hb.
Qed.
Lemma closed_app a b : open_stream a -> closed_stream b -> closed_stream (a ++ b).
Proof. intros Ha (f & y & -> & Hf & Hy). exists (a ++ f), y. rewrite app_assoc. auto using open_app. Qed.
#[export] Hint Resolve open_nil closed_one open_app closed_app : keel.

Section protocol.
Context (parse_chunk : string -> option WireChunk) (to_uppercase : string -> string).
Local Abbreviation payload_loop := (payload_loop parse_chunk to_uppercase).
Local Abbreviation transport := (transport parse_chunk to_uppercase).

Lemma payload_loop_app ps1 ps2 t :
  payload_loop (ps1 ++ ps2) t =
  match payload_loop ps1 t with
  | (ys, PE_More t) => let '(ys', e) := payload_loop ps2 t in (ys ++ ys', e)
  | r => r
  end.
Proof.
  revert t. induction ps1 as [|p ps1 IH]; intros t; cbn [app Adapter.payload_loop].
  - by destruct (payload_loop ps2 t).
  - destruct (String.eqb p DONE); [done|]. destruct (Translate.feed _ _ p t) as [[t1 cs]|e]; [|done]. rewrite IH.
    destruct (payload_loop ps1 t1) as [ys [t2| |]]; [|done..].
    destruct (payload_loop ps2 t2) as [ys' e']. by rewrite app_assoc.
Qed.

Lemma omap_fresh (outs cs : list StreamChunk) : omap finish_of (outs ++ cs) = [] -> omap finish_of cs = [].
Proof. rewrite omap_app. by intros [_ ?]%app_eq_nil. Qed.

Lemma done_closed t : closed_stream (Ok <$> snd (Translate.done t)).
Proof.
  unfold Translate.done. cbn [snd]. set (r := match _, tr_order t with | FR_Stop, [] => _ | _, _ => _ end). clearbody r.
  rewrite app_assoc, fmap_app. eexists _, (Ok (SC_Finish r None)). split; [done|]. split; [|by eexists].
  eexists. split; [done|]. rewrite omap_app. destruct (pending_usage t); cbn [omap list_omap app]; rewrite ?app_nil_r;
    (induction (tr_order t) as [|b l IH]; [done|]; rewrite fmap_cons, list_omap_cons; done).
Qed.

(** One read's payloads: chunks and a translator in step, or the end. *)
Lemma payload_loop_shape ps t outs :
  core_inv t outs -> range_ok t ->
  let '(ys, e) := payload_loop ps t in
  match e with
  | PE_More t' => exists cs, ys = Ok <$> cs /\ core_inv t' (outs ++ cs) /\ range_ok t' /\ open_stream ys
  | PE_Finished | PE_Failed => closed_stream ys
  end.
Proof.
  revert t outs. induction ps as [|p ps IH]; intros t outs Hc Hr; cbn [Adapter.payload_loop].
  - exists []. rewrite app_nil_r. auto with keel.
  - destruct (String.eqb p DONE); [apply done_closed|]. unfold Translate.feed. destruct (parse_chunk p) as [ch|]; [|by apply closed_one].
    destruct (feed_chunk to_uppercase ch t) as [t1 cs] eqn:Ef.
    destruct (feed_chunk_inv _ _ _ _ _ _ Hc Hr Ef) as [Hc1 Hr1].
    assert (Ho : open_stream (Ok <$> cs)) by (eexists; split; [done|]; eapply omap_fresh, ci_fin, Hc1).
    specialize (IH t1 (outs ++ cs) Hc1 Hr1). destruct (payload_loop ps t1) as [ys [t2| |]]; [|by apply closed_app..].
    destruct IH as (cs' & -> & Hc2 & Hr2 & Ho2). exists (cs ++ cs'). rewrite fmap_app, app_assoc. auto with keel.
Qed.

(** A turn that ends any transport loop that reaches it. *)
Definition final_turn (options : GenerateOptions) (turn : Turn) : bool :=
  aborted options (turn_signals turn) || match turn_read turn with RD_Bytes _ => false | _ => true end.

Lemma transport_shape options connection turns d t outs :
  core_inv t outs -> range_ok t ->
  let '(ys, e) := transport options connection turns d t in
  match e with
  | Ended => closed_stream ys
  | Panicked => False
  | Waiting => open_stream ys /\ existsb (final_turn options) turns = false
  end.
Proof.
  revert d t outs. induction turns as [|turn turns IH]; intros d t outs Hc Hr; cbn [Adapter.transport]; [auto with keel|].
  cbn [existsb]. unfold final_turn at 1. destruct (aborted options (turn_signals turn)); [by apply closed_one|].
  destruct (turn_read turn) as [| | |item]; [by apply closed_one..|].
  destruct (Sse.feed item d) as [d1 [ps cm]]. pose proof (payload_loop_shape ps t outs Hc Hr) as Hp.
  destruct (payload_loop ps t) as [ys [t1| |]]; [|done..]. destruct Hp as (cs & -> & Hc1 & Hr1 & Ho).
  specialize (IH d1 t1 _ Hc1 Hr1). destruct (transport options connection turns d1 t1) as [ys' []]; [by apply closed_app|done|].
  destruct IH as [Ho' E]. simpl. auto with keel.
Qed.

(** * Delivery *)

(** A turn that delivers bytes, with no abort. *)
Definition delivers (options : GenerateOptions) (turn : Turn) (item : string) : Prop :=
  turn_read turn = RD_Bytes item /\ aborted options (turn_signals turn) = false.

Lemma transport_bytes options connection turns chunks rest d t :
  Forall2 (delivers options) turns chunks ->
  transport options connection (turns ++ rest) d t =
  let '(d', (ps, _)) := feed_all chunks d in
  match payload_loop ps t with
  | (ys, PE_More t') => let '(ys', e) := transport options connection rest d' t' in (ys ++ ys', e)
  | (ys, _) => (ys, Ended)
  end.
Proof.
  intros H. revert d t. induction H as [|turn item turns chunks [Hr Ha] _ IH]; intros d t; cbn [app Adapter.transport feed_all].
  - cbn. by destruct (transport options connection rest d t).
  - rewrite Ha, Hr. destruct (Sse.feed item d) as [d1 [ps1 cm1]]. specialize (IH d1).
    destruct (feed_all chunks d1) as [d2 [ps2 cm2]]. cbn [fed_app fst snd]. rewrite payload_loop_app.
    destruct (payload_loop ps1 t) as [ys1 [t1| |]]; [|done..]. rewrite IH.
    destruct (payload_loop ps2 t1) as [ys2 [t2| |]]; [|done..].
    destruct (transport options connection rest d2 t2). by rewrite app_assoc.
Qed.

(** Some payloads are translated, and the next one is malformed. *)
Definition malformed_after (ps : list string) (t : Translator) (e : LlmError) (outs : list StreamChunk) : Prop :=
  exists good bad more t', ps = good ++ bad :: more /\ feed_payloads parse_chunk to_uppercase good t = Ok (t', outs)
    /\ Translate.feed parse_chunk to_uppercase bad t' = Err e.
Lemma payload_loop_response ps t :
  DONE ∉ ps ->
  match feed_payloads parse_chunk to_uppercase ps t with
  | Ok (t', outs) => payload_loop ps t = (Ok <$> outs, PE_More t')
  | Err e => exists outs, malformed_after ps t e outs /\ payload_loop ps t = ((Ok <$> outs) ++ [Err e], PE_Failed)
  end.
Proof.
  unfold feed_payloads. induction ps as [|p ps IH] using rev_ind; intros Hd; [done|].
  rewrite try_fold_snoc, payload_loop_app. specialize (IH ltac:(set_solver)).
  destruct (try_fold _ (t, []) ps) as [[t1 o1]|e] eqn:Ef; cbn [result_bind].
  - rewrite IH. cbn [Adapter.payload_loop]. rewrite (proj2 (String.eqb_neq p DONE)) by set_solver.
    destruct (Translate.feed _ _ p t1) as [[t2 o2]|e] eqn:Eb; cbn [result_bind].
    + by rewrite app_nil_r, fmap_app.
    + exists o1. split; [|done]. by exists ps, p, [], t1.
  - destruct IH as (o & (good & bad & more & t' & -> & Hg & Hb) & ->). exists o. split; [|done].
    exists good, bad, (more ++ [p]), t'. by rewrite <- app_assoc.
Qed.

(** C20. From the socket to the loop. A response that says [payloads] and then
    [[DONE]], its bytes cut anywhere into reads, yields exactly the chunks of
    the translated response, in order, and ends there whatever follows; when a
    payload is malformed it yields exactly the chunks of the payloads before it
    and then that failure. *)
Theorem adapter_delivers (options : GenerateOptions) (connection : DeepSeekConnectionOptions)
    (payloads chunks : list string) (turns rest : list Turn) :
  Forall payload_ok payloads -> DONE ∉ payloads ->
  concat_strings chunks = encode_stream (payloads ++ [DONE]) -> Forall2 (delivers options) turns chunks ->
  match translate_response parse_chunk to_uppercase payloads with
  | Ok (_, outs) => transport options connection (turns ++ rest) SseDecoder_new Translator_new = (Ok <$> outs, Ended)
  | Err e => exists outs, malformed_after payloads Translator_new e outs /\
      transport options connection (turns ++ rest) SseDecoder_new Translator_new = ((Ok <$> outs) ++ [Err e], Ended)
  end.
Proof.
  intros Hp Hd Hc Ht. destruct (stream_decoded (payloads ++ [DONE]) chunks) as [bom Hf]; [|done|].
  { apply Forall_app. split; [done|]. repeat constructor. }
  rewrite (transport_bytes _ _ _ _ _ _ _ Ht), Hf, payload_loop_app.
  pose proof (payload_loop_response payloads Translator_new Hd) as H. unfold translate_response.
  destruct (feed_payloads _ _ payloads Translator_new) as [[t outs]|e]; cbn [result_bind].
  - rewrite H. cbn [Adapter.payload_loop]. by rewrite String.eqb_refl, fmap_app.
  - destruct H as (outs & Hm & ->). by exists outs.
Qed.

(** * Failures and the end of a stream *)

Context (is_quota_exceeded_error is_context_window_exceeded_error : string -> bool).
Context (parse_date : string -> option Z) (now : Z).

(** The answers on which the error constructors can panic: a status outside
    100..599, an empty provider message; a [retry-after] date is left open. *)
Definition may_panic (status : Z) (headers : Headers) (parsed : option WireError) : Prop :=
  ~ (100 <= status <= 599)%Z \/ mjoin parsed ≫= wed_message = Some ""
  \/ exists v, mjoin (headers "retry-after") = Some v /\ all_digits v && negb (String.eqb v "") = false.

Lemma http_error_defined status headers parsed :
  ~ may_panic status headers parsed ->
  is_Some (http_error is_quota_exceeded_error is_context_window_exceeded_error parse_date now status headers parsed).
Proof.
  unfold may_panic, http_error. intros Hp.
  set (m := default _ (_ ≫= wed_message)). set (code := http_error_code _ _ status _).
  assert (Hm : m <> "").
  { unfold m. destruct (mjoin parsed ≫= wed_message) as [m'|]; simpl; [|done]. intros ->. apply Hp. by right; left. }
  assert (Hc : code <> "").
  { unfold code, http_error_code. repeat case_match; done. }
  unfold LlmError_new. rewrite (proj2 (String.eqb_neq _ _) Hm), (proj2 (String.eqb_neq _ _) Hc). cbn [orb mbind option_bind].
  unfold with_facts. destruct (decide (100 <= status <= 599)%Z) as [[H1 H2]|]; [|exfalso; apply Hp; by left].
  apply Z.leb_le in H1, H2. rewrite H1, H2. cbn [andb negb orb].
  assert (Hd : match provider_retry_after parse_date now (mjoin (headers "retry-after")) with
      Some d => negb (f64_is_finite d && f64_ltb f64_zero d) | None => false end = false).
  { unfold provider_retry_after. destruct (mjoin (headers "retry-after")) as [v|] eqn:Ev; [|done]. cbn [mbind option_bind].
    destruct (all_digits v && negb (String.eqb v "")) eqn:Ed; [|exfalso; apply Hp; right; right; eauto].
    destruct (f64_is_finite (f64_mul _ _) && _) eqn:Ef; [|done]. by rewrite Ef. }
  rewrite Hd. unfold response_request_id. destruct (match headers "x-request-id" with Some _ => _ | None => _ end) as [[v|]|]; try by eexists.
  cbn [mbind option_bind]. destruct (String.eqb v "") eqn:Ev; cbn [negb orb]; [by eexists|]. rewrite Ev. by eexists.
Qed.

(** Both panics are reachable: a status the [http] crate admits and the
    assertion does not, and a provider that sends an empty message. *)
Lemma status_600_panics headers parsed :
  http_error is_quota_exceeded_error is_context_window_exceeded_error parse_date now 600 headers parsed = None.
Proof. unfold http_error. destruct (LlmError_new _ _) as [e|]; reflexivity. Qed.
Lemma empty_message_panics status headers error :
  wed_message error = Some "" ->
  http_error is_quota_exceeded_error is_context_window_exceeded_error parse_date now status headers (Some (Some error)) = None.
Proof. intros E. unfold http_error. simpl. by rewrite E. Qed.

Local Abbreviation stream :=
  (stream is_quota_exceeded_error is_context_window_exceeded_error parse_date now parse_chunk to_uppercase).

(** The answer gives the stream an end: anything but an accepted response
    whose reads so far are all bytes, with no abort seen. *)
Definition conclusive (options : GenerateOptions) (a : Answer) : bool :=
  match a with
  | AN_Failed _ => true
  | AN_Response status _ _ turns =>
      negb ((200 <=? status)%Z && (status <? 300)%Z) || existsb (final_turn options) turns
  end.

Lemma stream_shape (connection : DeepSeekConnectionOptions) (api_key : result string LlmError)
    (answer : WireRequest -> Answer) (options : GenerateOptions) :
  let '(ys, e) := stream connection api_key answer options in
  match e with
  | Ended => closed_stream ys
  | Waiting => open_stream ys /\ exists body, conclusive options (answer body) = false
  | Panicked => ys = [] /\ exists body status headers parsed turns,
      answer body = AN_Response status headers parsed turns /\ ~ (200 <= status < 300)%Z /\ may_panic status headers parsed
  end.
Proof.
  unfold Adapter.stream. destruct api_key as [key|error]; [|by apply closed_one].
  destruct (serialize_request options (co_defaults connection)) as [body|error]; [|by apply closed_one].
  destruct (answer body) as [sg|status headers parsed turns] eqn:Ea; [by apply closed_one|].
  destruct ((200 <=? status)%Z && (status <? 300)%Z) eqn:Es; cbn [negb].
  - pose proof (transport_shape options connection turns SseDecoder_new Translator_new [] core_inv_new range_ok_new) as H.
    destruct (transport _ _ _ _ _) as [ys []]; [done|done|]. destruct H as [Ho E]. split; [done|]. exists body.
    rewrite Ea. cbn [conclusive]. by rewrite Es, E.
  - destruct (http_error _ _ _ _ status headers parsed) as [e|] eqn:Ee; [by apply closed_one|]. split; [done|].
    exists body, status, headers, parsed, turns. split_and!; [done|lia|]. destruct (decide ((100 <= status <= 599)%Z)); [|by left].
    destruct (decide (mjoin parsed ≫= wed_message = Some "")); [by right; left|].
    destruct (mjoin (headers "retry-after")) as [v|] eqn:Ev.
    + destruct (all_digits v && negb (String.eqb v "")) eqn:Ed; [|right; right; eauto].
      exfalso. destruct (http_error_defined status headers parsed) as [? ?]; [|congruence].
      unfold may_panic. rewrite Ev. intros [?|[?|(v' & [= <-] & ?)]]; [done|done|congruence].
    + exfalso. destruct (http_error_defined status headers parsed) as [? ?]; [|congruence].
      unfold may_panic. rewrite Ev. intros [?|[?|(v' & ? & ?)]]; done.
Qed.

(** The adapter keeps the stream protocol, whatever the network does. The
    items of a stream that has ended are chunks and then one terminal item, a
    finish chunk or a typed failure, with nothing after it and no finish
    before; a stream still waiting has only yielded chunks; and every answer
    that reaches its end of file, an idle timeout, a transport failure, an
    abort or a non-success status ends the stream. The task panics at most for
    a non-success response with a status outside 100..599, an empty provider
    message or a [retry-after] date. *)
Theorem adapter_stream_terminates (connection : DeepSeekConnectionOptions) (api_key : result string LlmError)
    (answer : WireRequest -> Answer) (options : GenerateOptions) :
  let '(ys, e) := stream connection api_key answer options in
  match e with
  | Ended => closed_stream ys
  | Waiting => open_stream ys /\ exists body, conclusive options (answer body) = false
  | Panicked => ys = [] /\ exists body status headers parsed turns,
      answer body = AN_Response status headers parsed turns /\ ~ (200 <= status < 300)%Z /\ may_panic status headers parsed
  end.
Proof. apply stream_shape. Qed.

End protocol.

(** Two payloads and the sentinel, in three reads. *)
Definition sample_options : GenerateOptions := mk_options "deepseek" "deepseek-chat" None [] None None None None None None None None true.
Definition sample_connection : DeepSeekConnectionOptions :=
  mk_connection "https://api" "KEY" (mk_defaults None None) 256000 1000000 [] 300000 (filled None).
Definition sample_bytes : string := encode_stream ["p1"; "p2"; DONE].
Definition sample_reads : list string := [str_take 5 sample_bytes; str_take 11 (str_drop 5 sample_bytes); str_drop 16 sample_bytes].
Definition sample_turn (item : string) : Turn := mk_turn (fun _ => false) (RD_Bytes item) (fun _ => false).

Lemma adapter_delivers_witness :
  exists outs t,
    translate_response sample_parse id ["p1"; "p2"] = Ok (t, outs)
    /\ transport sample_parse id sample_options sample_connection (sample_turn <$> sample_reads) SseDecoder_new Translator_new
       = (Ok <$> outs, Ended) /\ length outs = 8.
Proof.
  eexists _, _. split; [vm_compute; reflexivity|]. split; [|reflexivity].
  rewrite <- (app_nil_r (sample_turn <$> sample_reads)).
  refine (adapter_delivers sample_parse id sample_options sample_connection ["p1"; "p2"] sample_reads (sample_turn <$> sample_reads) [] _ _ _ _).
  - repeat apply Forall_cons_2; try apply Forall_nil_2; (split; [reflexivity|repeat constructor]).
  - intros H. apply list_elem_of_In in H. by vm_compute in H; intuition discriminate.
  - vm_compute. reflexivity.
  - by repeat constructor.
Defined.
