(* ===== verification/LlmRuntime.v ===== *)
(** The [llm] service, [crates/dsh/llm/src/runtime.rs]: the adapter registry
    and its registration handles, the configurable-provider directory, model
    metadata and call resolution, prepared calls, and the stream every consumer
    sees.

    An adapter is a record of the operations of the [LlmAdapter] trait and the
    identity of its [Rc]; what it answers is what it answers at that call.  A
    context effect ([cordis]) runs at once or fails on an inactive fiber: the
    environment says which.  Listeners of the [llm/stream] waterfall are a
    parameter. *)
From Stdlib Require Import ZArith String Ascii.
From stdpp Require Import base tactics numbers list gmap strings.
From S2P Require Import Prelude Json Text Llm Model Retry Assembler Serialize Translate Sse Adapter.
Open Scope keel_scope.

(** * Errors *)

(** An [anyhow::Error] as the runtime looks at it. *)
Inductive AnyError :=
| AE_Llm (e : LlmError)
| AE_Harness (message code : string)
| AE_Other (message : string).
Definition any_message (e : AnyError) : string :=
  match e with AE_Llm e => err_message e | AE_Harness m _ | AE_Other m => m end.

Definition normalize_llm_failure (error : AnyError) : LlmFailure :=
  match error with
  | AE_Llm e => err_failure e
  | AE_Harness message code => LlmFailure_new message code
  | AE_Other message => LlmFailure_new (if String.eqb message "" then "LLM adapter failed" else message) "UNKNOWN"
  end.

Definition failure_chunk (error : AnyError) (signal_aborted : bool) : StreamChunk :=
  let failure := normalize_llm_failure error in
  let aborted := signal_aborted || String.eqb (failure_code failure) "ABORTED" in
  SC_Finish (if aborted then FR_Aborted failure else FR_Error failure) None.

(** A fallible call that may also panic ([LlmError::new] on an empty message). *)
Definition call (A : Type) : Type := option (result A LlmError).
Definition call_bind {A B} (c : call A) (k : A -> call B) : call B :=
  match c with Some (Ok a) => k a | Some (Err e) => Some (Err e) | None => None end.
Notation "'let!' x := c 'in' k" := (call_bind c (fun x => k)) (at level 10, x pattern, c at level 100, k at level 200) : keel_scope.
Definition of_result {A} (r : result A LlmError) : call A := Some r.
(** [.map_err(|error| LlmError::new(error.to_string(), code))]. *)
Definition wrap_error {A} (code : string) (r : result A AnyError) : call A :=
  match r with Ok a => Some (Ok a) | Err e => e' ← LlmError_new (any_message e) code; Some (Err e') end.

(** * State *)

Record LlmAdapter := mk_adapter {
  ad_ptr : nat;
  ad_provider_info : string -> LlmProviderInfo;
  ad_retry_policy : string -> option ResolvedRetryPolicy;
  ad_list_models : string -> result (list LlmModelInfo) AnyError;
  ad_resolve_model : string -> string -> result LlmResolvedModelInfo AnyError;
  ad_stream : GenerateOptions -> list (result StreamChunk AnyError) * Ending;
}.
Definition ptr_eq (a b : LlmAdapter) : bool := ad_ptr a =? ad_ptr b.

Record AdapterRegistration := mk_registration {
  ar_adapter : LlmAdapter;
  ar_provider : LlmProviderInfo;
  ar_retry_policy : ResolvedRetryPolicy;
}.

Record LlmConfigurableProvider := mk_configurable {
  cp_provider : string;
  cp_display_name : string;
  cp_settings_ns : string;
  cp_settings_path : list string;
  cp_declared : option bool;
}.

Record LlmModelDiscoveryRequest := mk_discovery_request {
  dr_provider : option string;
  dr_base_url : option string;
  dr_api : option string;
  dr_api_key : option string;
  dr_signal : option AbortSignal;
}.
Record LlmDiscoveredModel := mk_discovered {
  dm_id : string;
  dm_name : option string;
  dm_context_window : option Z;
  dm_max_tokens : option Z;
}.
Definition DiscoverFn : Type := LlmModelDiscoveryRequest -> result (list LlmDiscoveredModel) AnyError.

(** [updates] counts the announcements of [llm/adapters-updated]. *)
Record LlmRuntime := mk_runtime {
  adapters : gmap string AdapterRegistration;
  adapter_order : list string;
  directory : gmap string LlmConfigurableProvider;
  directory_order : list string;
  discoveries : gmap string DiscoverFn;
  updates : nat;
}.
Definition LlmRuntime_new : LlmRuntime := mk_runtime ∅ [] ∅ [] ∅ 0.

Definition emit_adapters_updated (r : LlmRuntime) : LlmRuntime :=
  mk_runtime (adapters r) (adapter_order r) (directory r) (directory_order r) (discoveries r) (S (updates r)).

(** The cells a registration handle shares with its disposer. *)
Record AdapterHandle := mk_handle { h_adapter : LlmAdapter; h_owned : gset string; h_released : bool }.
Record DirectoryHandle := mk_dir_handle { dh_held : list LlmConfigurableProvider; dh_disposed : bool }.

(** * Routes *)

Definition quote (s : string) : string := quoted s.

Definition prepare_route (r : LlmRuntime) (adapter : LlmAdapter) (owned : gset string)
    (st : gset string * list AdapterRegistration) (provider : string) : result (gset string * list AdapterRegistration) LlmError :=
  let '(unique, registrations) := st in
  if String.eqb provider "" then Err (llm_error "adapter provider names must be non-empty" "INVALID_ADAPTER")
  else if bool_decide (provider ∈ unique) || bool_decide (is_Some (adapters r !! provider)) && negb (bool_decide (provider ∈ owned))
  then Err (llm_error ("an adapter for provider " +:+ quote provider +:+ " is already registered") "DUPLICATE_ADAPTER")
  else
    let info := ad_provider_info adapter provider in
    if negb (String.eqb (pi_id info) provider) || String.eqb (pi_name info) ""
    then Err (llm_error ("adapter metadata for provider " +:+ quote provider +:+ " must preserve its id and have a non-empty name") "INVALID_ADAPTER")
    else
      let? retry_policy :=
        match ad_retry_policy adapter provider with
        | Some policy => Ok policy
        | None => map_err (fun reason => llm_error reason "INVALID_ADAPTER")
                    (resolve_retry_policy None ("llm: provider " +:+ quote provider +:+ " retryPolicy"))
        end in
      Ok ({[provider]} ∪ unique, registrations ++ [mk_registration adapter info retry_policy]).

Definition prepare_routes (r : LlmRuntime) (providers : list string) (adapter : LlmAdapter) (owned : gset string)
    : result (list AdapterRegistration) LlmError :=
  let? st := try_fold (prepare_route r adapter owned) (∅, []) providers in Ok (snd st).

(** [for provider in owned { adapters.remove(..); order.retain(..) }]: the
    iteration order of the [HashSet] does not matter. *)
Definition remove_routes (owned : gset string) (r : LlmRuntime) : LlmRuntime :=
  mk_runtime (base.filter (fun kv => kv.1 ∉ owned) (adapters r)) (base.filter (fun id => id ∉ owned) (adapter_order r))
    (directory r) (directory_order r) (discoveries r) (updates r).
Definition insert_route (st : LlmRuntime * gset string) (registration : AdapterRegistration) : LlmRuntime * gset string :=
  let '(r, owned) := st in
  let id := pi_id (ar_provider registration) in
  (mk_runtime (<[id := registration]> (adapters r)) (adapter_order r ++ [id]) (directory r) (directory_order r) (discoveries r) (updates r),
   {[id]} ∪ owned).
Definition commit_routes (owned : gset string) (registrations : list AdapterRegistration) (r : LlmRuntime) : LlmRuntime * gset string :=
  let '(r, owned) := foldl insert_route (remove_routes owned r, ∅) registrations in (emit_adapters_updated r, owned).

(** [register_adapter]; [active]: whether the context's fiber accepts effects. *)
Definition register_adapter (active : bool) (providers : list string) (adapter : LlmAdapter) (r : LlmRuntime)
    : LlmRuntime * result AdapterHandle LlmError :=
  if bool_decide (providers = []) then (r, Err (llm_error "an adapter must register at least one provider" "INVALID_ADAPTER"))
  else match prepare_routes r providers adapter ∅ with
       | Err e => (r, Err e)
       | Ok prepared =>
           let '(r, owned) := commit_routes ∅ prepared r in
           if active then (r, Ok (mk_handle adapter owned false))
           else (r, Err (llm_error "cannot create effect on inactive context" "INVALID_ADAPTER"))
       end.

Definition handle_replace (providers : list string) (r : LlmRuntime) (h : AdapterHandle)
    : LlmRuntime * AdapterHandle * result () LlmError :=
  if h_released h
  then (r, h, Err (llm_error "a disposed adapter registration cannot replace its routes" "REGISTRATION_DISPOSED"))
  else match prepare_routes r providers (h_adapter h) (h_owned h) with
       | Err e => (r, h, Err e)
       | Ok prepared =>
           let '(r, owned) := commit_routes (h_owned h) prepared r in (r, mk_handle (h_adapter h) owned false, Ok tt)
       end.

(** The registration's disposer; an effect runs its disposers once. *)
Definition handle_dispose (r : LlmRuntime) (h : AdapterHandle) : LlmRuntime * AdapterHandle :=
  if h_released h then (r, h)
  else (emit_adapters_updated (remove_routes (h_owned h) r), mk_handle (h_adapter h) ∅ true).

Definition list_providers (r : LlmRuntime) : list LlmProviderInfo :=
  omap (fun id => ar_provider <$> adapters r !! id) (adapter_order r).

Definition registration (r : LlmRuntime) (provider : string) : result AdapterRegistration LlmError :=
  ok_or (adapters r !! provider) (llm_error ("no adapter registered for provider " +:+ quote provider) "NO_ADAPTER").
Definition provider_retry_policy (r : LlmRuntime) (provider : string) : result ResolvedRetryPolicy LlmError :=
  let? reg := registration r provider in Ok (ar_retry_policy reg).

(** * The configurable-provider directory *)

Definition check_entry (r : LlmRuntime) (own : gset string) (detached : list LlmConfigurableProvider) (entry : LlmConfigurableProvider)
    : result (list LlmConfigurableProvider) LlmError :=
  if String.eqb (cp_provider entry) "" || String.eqb (cp_display_name entry) "" || String.eqb (cp_settings_ns entry) ""
  then Err (llm_error "configurable providers need a non-empty provider, displayName, and settingsNs" "INVALID_DIRECTORY")
  else if existsb (fun segment => String.eqb segment "") (cp_settings_path entry)
  then Err (llm_error ("configurable provider " +:+ quote (cp_provider entry) +:+ " has an empty settingsPath segment") "INVALID_DIRECTORY")
  else if bool_decide (is_Some (directory r !! cp_provider entry)) && negb (bool_decide (cp_provider entry ∈ own))
          || existsb (fun seen => String.eqb (cp_provider seen) (cp_provider entry)) detached
  then Err (llm_error ("configurable provider " +:+ quote (cp_provider entry) +:+ " is already declared") "DUPLICATE_DIRECTORY")
  else Ok (detached ++ [entry]).

Definition remove_declared (r : LlmRuntime) (entry : LlmConfigurableProvider) : LlmRuntime :=
  mk_runtime (adapters r) (adapter_order r) (delete (cp_provider entry) (directory r))
    (base.filter (fun id => id <> cp_provider entry) (directory_order r)) (discoveries r) (updates r).
Definition insert_declared (r : LlmRuntime) (entry : LlmConfigurableProvider) : LlmRuntime :=
  mk_runtime (adapters r) (adapter_order r) (<[cp_provider entry := entry]> (directory r))
    (directory_order r ++ [cp_provider entry]) (discoveries r) (updates r).

Definition commit_directory (held candidates : list LlmConfigurableProvider) (r : LlmRuntime)
    : LlmRuntime * result (list LlmConfigurableProvider) LlmError :=
  let own : gset string := list_to_set (cp_provider <$> held) in
  match try_fold (check_entry r own) [] candidates with
  | Err e => (r, Err e)
  | Ok detached =>
      (emit_adapters_updated (foldl insert_declared (foldl remove_declared r held) detached), Ok detached)
  end.

Definition register_configurable_providers (active : bool) (entries : list LlmConfigurableProvider) (r : LlmRuntime)
    : LlmRuntime * result DirectoryHandle LlmError :=
  if bool_decide (entries = [])
  then (r, Err (llm_error "a configurable-provider registration must declare at least one provider" "INVALID_DIRECTORY"))
  else match commit_directory [] entries r with
       | (r, Err e) => (r, Err e)
       | (r, Ok held) =>
           if active then (r, Ok (mk_dir_handle held false))
           else (r, Err (llm_error "cannot create effect on inactive context" "INVALID_DIRECTORY"))
       end.
Definition directory_replace (entries : list LlmConfigurableProvider) (r : LlmRuntime) (h : DirectoryHandle)
    : LlmRuntime * DirectoryHandle * result () LlmError :=
  if dh_disposed h then (r, h, Err (llm_error "this configurable-provider registration was disposed" "REGISTRATION_DISPOSED"))
  else match commit_directory (dh_held h) entries r with
       | (r, Err e) => (r, h, Err e)
       | (r, Ok held) => (r, mk_dir_handle held false, Ok tt)
       end.
Definition directory_dispose (r : LlmRuntime) (h : DirectoryHandle) : LlmRuntime * DirectoryHandle :=
  if dh_disposed h then (r, h)
  else (emit_adapters_updated (foldl remove_declared r (dh_held h)), mk_dir_handle (dh_held h) true).

Definition list_configurable_providers (r : LlmRuntime) : list LlmConfigurableProvider :=
  omap (fun id => directory r !! id) (directory_order r).

(** * Model metadata *)

(** The catalogue loop: [seen] is the set of ids so far. *)
Definition check_model (provider : string) (seen : gset string) (model : LlmModelInfo) : result (gset string) LlmError :=
  if negb (String.eqb (mi_provider model) provider) || String.eqb (mi_id model) "" || String.eqb (mi_name model) ""
     || bool_decide (mi_id model ∈ seen)
  then Err (llm_error ("adapter returned invalid or duplicate model metadata for provider " +:+ quote provider) "INVALID_CATALOG")
  else Ok ({[mi_id model]} ∪ seen).
Definition runtime_list_models (r : LlmRuntime) (provider : string) : call (list LlmModelInfo) :=
  let! reg := of_result (registration r provider) in
  let! models := wrap_error "INVALID_CATALOG" (ad_list_models (ar_adapter reg) provider) in
  let! _ := of_result (try_fold (check_model provider) ∅ models) in
  of_result (Ok models).

Definition for_model (provider model : string) : string := " for provider " +:+ quote provider +:+ " model " +:+ quote model.
Definition check_effort (provider model : string) (seen : gset string) (effort : LlmReasoningEffortInfo) : result (gset string) LlmError :=
  if String.eqb (eff_id effort) "" || String.eqb (eff_name effort) "" || bool_decide (eff_id effort ∈ seen)
  then Err (llm_error ("adapter returned invalid or duplicate reasoning effort metadata" +:+ for_model provider model) "INVALID_MODEL_REASONING")
  else Ok ({[eff_id effort]} ∪ seen).

Definition check_reasoning (provider model : string) (reasoning : LlmModelReasoningInfo) : result () LlmError :=
  if bool_decide (length (ri_efforts reasoning) = 0)
  then Err (llm_error ("adapter returned invalid reasoning metadata" +:+ for_model provider model) "INVALID_MODEL_REASONING")
  else
    let? seen := try_fold (check_effort provider model) ∅ (ri_efforts reasoning) in
    match ri_default_effort reasoning with
    | Some default_effort =>
        if bool_decide (default_effort ∈ seen) then Ok tt
        else Err (llm_error ("adapter returned an unknown default reasoning effort" +:+ for_model provider model) "INVALID_MODEL_REASONING")
    | None => Ok tt
    end.

Definition check_resolved (provider model : string) (resolved : LlmResolvedModelInfo) : result () LlmError :=
  if negb (String.eqb (rm_provider resolved) provider) || negb (String.eqb (rm_id resolved) model) || String.eqb (rm_name resolved) ""
  then Err (llm_error ("adapter returned invalid exact model metadata" +:+ for_model provider model) "INVALID_MODEL_INFO")
  else if match rm_context resolved with Some window => (window =? 0)%Z | None => false end
  then Err (llm_error ("adapter returned invalid context metadata" +:+ for_model provider model) "INVALID_MODEL_CONTEXT")
  else if match rm_default_max_tokens resolved with Some n => (n =? 0)%Z | None => false end
  then Err (llm_error ("adapter returned invalid default maxTokens" +:+ for_model provider model) "INVALID_MODEL_MAX_TOKENS")
  else match rm_reasoning resolved with
       | Some reasoning => check_reasoning provider model reasoning
       | None => Ok tt
       end.

Definition resolve_model_info_for (reg : AdapterRegistration) (model : string) : call LlmResolvedModelInfo :=
  let provider := pi_id (ar_provider reg) in
  let! resolved := wrap_error "INVALID_MODEL_INFO" (ad_resolve_model (ar_adapter reg) provider model) in
  let! _ := of_result (check_resolved provider model resolved) in
  of_result (Ok resolved).
Definition resolve_model_info (r : LlmRuntime) (provider model : string) : call LlmResolvedModelInfo :=
  let! reg := of_result (registration r provider) in resolve_model_info_for reg model.

Definition unsupported_effort (config : LlmCallConfig) (effort : ReasoningEffortId) : LlmError :=
  llm_error ("provider " +:+ quote (cfg_provider config) +:+ " model " +:+ quote (cfg_model config)
    +:+ " does not support reasoning effort " +:+ quote effort) "UNSUPPORTED_REASONING_EFFORT".

Definition with_resolution (config : LlmCallConfig) (effort : option ReasoningEffortId) (max_tokens : option Z) : LlmCallConfig :=
  mk_call_config (cfg_provider config) (cfg_model config) effort (cfg_temperature config) max_tokens (cfg_stop config).

Definition resolve_with (info : LlmResolvedModelInfo) (config : LlmCallConfig) : result (LlmCallConfig * option Z) LlmError :=
  let max_tokens := match cfg_max_tokens config with Some n => Some n | None => rm_default_max_tokens info end in
  let requested := cfg_reasoning_effort config in
  match rm_reasoning info with
  | None =>
      match requested with
      | Some requested => Err (unsupported_effort config requested)
      | None => Ok (with_resolution config None max_tokens, rm_context info)
      end
  | Some reasoning =>
      match match requested with Some e => Some e | None => ri_default_effort reasoning end with
      | Some effective =>
          if existsb (fun effort => String.eqb (eff_id effort) effective) (ri_efforts reasoning)
          then Ok (with_resolution config (Some effective) max_tokens, rm_context info)
          else Err (unsupported_effort config effective)
      | None => Ok (with_resolution config None max_tokens, rm_context info)
      end
  end.
Definition resolve_call_for (reg : AdapterRegistration) (config : LlmCallConfig) : call (LlmCallConfig * option Z) :=
  let! info := resolve_model_info_for reg (cfg_model config) in of_result (resolve_with info config).
Definition resolve_call_config (r : LlmRuntime) (config : LlmCallConfig) : call LlmCallConfig :=
  let! reg := of_result (registration r (cfg_provider config)) in
  let! resolved := resolve_call_for reg config in of_result (Ok (fst resolved)).

(** ** Discovery *)

Definition register_model_discovery (active : bool) (settings_ns : string) (discover : DiscoverFn) (r : LlmRuntime)
    : LlmRuntime * result () LlmError :=
  if String.eqb settings_ns "" then (r, Err (llm_error "model discovery needs a non-empty settings namespace" "INVALID_DISCOVERY"))
  else if bool_decide (is_Some (discoveries r !! settings_ns))
  then (r, Err (llm_error ("model discovery for " +:+ quote settings_ns +:+ " is already registered") "DUPLICATE_DISCOVERY"))
  else if active
  then (mk_runtime (adapters r) (adapter_order r) (directory r) (directory_order r) (<[settings_ns := discover]> (discoveries r)) (updates r), Ok tt)
  else (r, Err (llm_error "cannot create effect on inactive context" "INVALID_DISCOVERY")).
(** The registration's disposer. *)
Definition dispose_model_discovery (settings_ns : string) (r : LlmRuntime) : LlmRuntime :=
  mk_runtime (adapters r) (adapter_order r) (directory r) (directory_order r) (delete settings_ns (discoveries r)) (updates r).

Definition keep_discovered (st : gset string * list LlmDiscoveredModel) (model : LlmDiscoveredModel) : gset string * list LlmDiscoveredModel :=
  let '(seen, models) := st in
  if String.eqb (dm_id model) "" || bool_decide (dm_id model ∈ seen) then (seen, models)
  else ({[dm_id model]} ∪ seen, models ++ [model]).
Definition discover_models (r : LlmRuntime) (settings_ns : string) (request : LlmModelDiscoveryRequest) : call (list LlmDiscoveredModel) :=
  match discoveries r !! settings_ns with
  | None => of_result (Err (llm_error ("no model discovery is registered for " +:+ quote settings_ns) "NO_DISCOVERY"))
  | Some discover =>
      if String.eqb (default "" (dr_provider request)) "" && String.eqb (default "" (dr_base_url request)) ""
      then of_result (Err (llm_error "model discovery needs a provider route or a baseURL" "INVALID_DISCOVERY"))
      else
        let! discovered := wrap_error "DISCOVERY_FAILED" (discover request) in
        of_result (Ok (snd (foldl keep_discovered (∅, []) discovered)))
  end.

(** * Calls *)

Record PreparedLlmCall := mk_prepared {
  pc_config : LlmCallConfig;
  pc_retry_policy : ResolvedRetryPolicy;
  pc_context : option Z;
  pc_adapter_defaults : LlmCallConfigAdapterDefaults;
  pc_registration : AdapterRegistration;
  pc_dispatched : bool;
}.

Definition then_some_true (b : bool) : option bool := if b then Some true else None.
Definition prepare_call (r : LlmRuntime) (config : LlmCallConfig) : call PreparedLlmCall :=
  let! reg := of_result (registration r (cfg_provider config)) in
  let! resolution := resolve_call_for reg config in
  let '(resolved, context) := resolution in
  let adapter_defaults := mk_adapter_defaults
    (then_some_true (negb (bool_decide (is_Some (cfg_reasoning_effort config))) && bool_decide (is_Some (cfg_reasoning_effort resolved))))
    (then_some_true (negb (bool_decide (is_Some (cfg_max_tokens config))) && bool_decide (is_Some (cfg_max_tokens resolved)))) in
  of_result (Ok (mk_prepared resolved (ar_retry_policy reg) context adapter_defaults reg false)).

(** [for_adapter]: replay state of another adapter's route is dropped. *)
Definition strip_replay (r : LlmRuntime) (adapter : LlmAdapter) (m : Message) : Message :=
  match msg_source m with
  | MS_Model p =>
      match prov_replay_state p with
      | None => m
      | Some _ =>
          if match adapters r !! prov_provider p with Some reg => ptr_eq (ar_adapter reg) adapter | None => false end then m
          else mk_message (msg_id m) (msg_role m) (msg_content m) (MS_Model (mk_provenance (prov_provider p) (prov_model p) None))
      end
  | _ => m
  end.
Definition for_adapter (r : LlmRuntime) (adapter : LlmAdapter) (options : GenerateOptions) : GenerateOptions :=
  set_messages (strip_replay r adapter <$> go_messages options) options.

(** A consumer's stream: chunks, and whether it has ended. *)
Definition ChunkStream : Type := list StreamChunk * Ending.

(** The loop over the adapter's items; [signal_aborted]: the caller's signal at
    the failure. *)
Fixpoint relay (signal_aborted : bool) (items : list (result StreamChunk AnyError)) (e : Ending) : ChunkStream :=
  match items with
  | [] => ([], e)
  | Ok chunk :: items => let '(cs, e) := relay signal_aborted items e in (chunk :: cs, e)
  | Err error :: _ => ([failure_chunk error signal_aborted], Ended)
  end.

Definition adapter_setup (r : LlmRuntime) (options : GenerateOptions) (prepared : option (AdapterRegistration * LlmCallConfig))
    : call (list (result StreamChunk AnyError) * Ending) :=
  let! selected :=
    match prepared with
    | Some (reg, config) =>
        if options_match_config options config then of_result (Ok (reg, config))
        else of_result (Err (llm_error "prepared LLM call config changed before adapter dispatch" "INVALID_PREPARED_CALL"))
    | None =>
        let! reg := of_result (registration r (go_provider options)) in
        let! resolved := resolve_call_for reg (config_of options) in
        of_result (Ok (reg, fst resolved))
    end in
  let '(reg, config) := selected in
  of_result (Ok (ad_stream (ar_adapter reg) (for_adapter r (ar_adapter reg) (apply_to config options)))).

Definition adapter_stream (r : LlmRuntime) (signal_aborted : bool) (prepared : option (AdapterRegistration * LlmCallConfig))
    (options : GenerateOptions) : ChunkStream :=
  match adapter_setup r options prepared with
  | Some (Ok (items, e)) => relay signal_aborted items e
  | Some (Err error) => ([failure_chunk (AE_Llm error) signal_aborted], Ended)
  | None => ([], Panicked)
  end.

(** The [llm/stream] waterfall: the registered listeners around the adapter. *)
Definition Waterfall : Type := (GenerateOptions -> ChunkStream) -> GenerateOptions -> result ChunkStream AnyError.
Definition no_listeners : Waterfall := fun next options => Ok (next options).

Definition stream_with_registration (r : LlmRuntime) (waterfall : Waterfall) (signal_aborted : bool)
    (prepared : option (AdapterRegistration * LlmCallConfig)) (options : GenerateOptions) : ChunkStream :=
  match waterfall (adapter_stream r signal_aborted prepared) options with
  | Ok inner => inner
  | Err error => ([failure_chunk error signal_aborted], Ended)
  end.
Definition runtime_stream (r : LlmRuntime) (waterfall : Waterfall) (signal_aborted : bool) (options : GenerateOptions) : ChunkStream :=
  stream_with_registration r waterfall signal_aborted None options.

(** [PreparedLlmCall::stream]. *)
Definition prepared_stream (r : LlmRuntime) (waterfall : Waterfall) (signal_aborted : bool) (options : GenerateOptions) (c : PreparedLlmCall)
    : PreparedLlmCall * result ChunkStream LlmError :=
  if pc_dispatched c then (c, Err (llm_error "a prepared LLM call can only be dispatched once" "INVALID_PREPARED_CALL"))
  else if negb (options_match_config options (pc_config c))
  then (c, Err (llm_error "prepared LLM call config changed before adapter dispatch" "INVALID_PREPARED_CALL"))
  else (mk_prepared (pc_config c) (pc_retry_policy c) (pc_context c) (pc_adapter_defaults c) (pc_registration c) true,
        Ok (stream_with_registration r waterfall signal_aborted (Some (pc_registration c, pc_config c)) options)).

(** * Ordered maps: a [HashMap] and the registration order beside it *)

Section ordered.
Context {V : Type} (key : V -> string).
Implicit Types (m : gmap string V) (o : list string) (l : list V).

Definition ordered m o : Prop := NoDup o /\ (forall k, k ∈ o <-> is_Some (m !! k)) /\ (forall k v, m !! k = Some v -> key v = k).

Lemma ordered_empty : ordered ∅ [].
Proof. split_and!; [constructor|intros k; rewrite lookup_empty; split; [set_solver|by intros [? [=]]]|intros k v; by rewrite lookup_empty]. Qed.

Lemma ordered_delete m o k : ordered m o -> ordered (delete k m) (base.filter (fun id => id <> k) o).
Proof.
  intros (Hn & Hk & Hv). split_and!.
  - by apply NoDup_filter.
  - intros k'. rewrite list_elem_of_filter, Hk, lookup_delete_is_Some. naive_solver.
  - intros k' v [_ ?]%lookup_delete_Some. eauto.
Qed.

Lemma ordered_filter m o (ks : gset string) :
  ordered m o -> ordered (base.filter (fun kv => kv.1 ∉ ks) m) (base.filter (fun id => id ∉ ks) o).
Proof.
  intros (Hn & Hk & Hv). split_and!.
  - by apply NoDup_filter.
  - intros k. rewrite list_elem_of_filter, Hk. split.
    + intros [Hks [v Hkv]]. exists v. by apply map_lookup_filter_Some.
    + intros [v [Hkv Hks]%map_lookup_filter_Some]. eauto.
  - intros k v [? _]%map_lookup_filter_Some. eauto.
Qed.

Lemma ordered_insert m o v : ordered m o -> m !! key v = None -> ordered (<[key v := v]> m) (o ++ [key v]).
Proof.
  intros (Hn & Hk & Hv) Hnew. split_and!.
  - apply NoDup_app. split_and!; [done| |apply NoDup_singleton].
    intros k Hko ->%list_elem_of_singleton. apply Hk in Hko as [? ?]. congruence.
  - intros k. rewrite elem_of_app, list_elem_of_singleton, Hk, lookup_insert_is_Some. destruct (decide (key v = k)); naive_solver.
  - intros k w [[<- <-]|[_ ?]]%lookup_insert_Some; eauto.
Qed.

Lemma ordered_inserts m o l :
  ordered m o -> NoDup (key <$> l) -> (forall v, v ∈ l -> m !! key v = None) ->
  ordered (foldl (fun m v => <[key v := v]> m) m l) (o ++ (key <$> l)).
Proof.
  revert m o. induction l as [|v l IH]; intros m o Ho Hn Hf; cbn [foldl]; [by rewrite app_nil_r|].
  rewrite fmap_cons in Hn |- *. apply NoDup_cons in Hn as [Hv Hn]. rewrite (cons_middle (key v)), app_assoc. apply IH; [|done|].
  - apply ordered_insert; [done|]. apply Hf. set_solver.
  - intros w Hw. rewrite lookup_insert_ne; [apply Hf; set_solver|]. intros E. apply Hv. rewrite E. by apply list_elem_of_fmap_2.
Qed.

Lemma foldl_insert_lookup m l k v :
  NoDup (key <$> l) ->
  foldl (fun m v => <[key v := v]> m) m l !! k = Some v <->
  (v ∈ l /\ key v = k) \/ (m !! k = Some v /\ k ∉ key <$> l).
Proof.
  revert m. induction l as [|w l IH]; intros m Hn; cbn [foldl].
  { set_solver. }
  rewrite fmap_cons in Hn |- *. apply NoDup_cons in Hn as [Hw Hn]. rewrite IH by done. rewrite lookup_insert_Some, not_elem_of_cons.
  rewrite elem_of_cons. split.
  - intros [[Hv E]|[[[E ->]|[Hne Hm]] Hk]]; [by left; auto|by left; auto|right; naive_solver].
  - intros [[[->|Hv] E]|[Hm [Hne Hk]]]; [right; split; [by left|by rewrite <- E]|by left|right; naive_solver].
Qed.
End ordered.

(** * The registry's invariant *)

Record Service := mk_service { sys_runtime : LlmRuntime; sys_handles : list AdapterHandle; sys_dirs : list DirectoryHandle }.

Inductive RtOp :=
| O_Register (active : bool) (providers : list string) (adapter : LlmAdapter)
| O_Replace (h : nat) (providers : list string)
| O_Dispose (h : nat)
| O_RegisterDirectory (active : bool) (entries : list LlmConfigurableProvider)
| O_ReplaceDirectory (h : nat) (entries : list LlmConfigurableProvider)
| O_DisposeDirectory (h : nat).

(** One call on the service or a handle: the system afterwards and the error
    it answered with. *)
Definition rt_step (s : Service) (op : RtOp) : Service * option LlmError :=
  let r := sys_runtime s in
  match op with
  | O_Register active providers adapter =>
      match register_adapter active providers adapter r with
      | (r, Ok h) => (mk_service r (sys_handles s ++ [h]) (sys_dirs s), None)
      | (r, Err e) => (mk_service r (sys_handles s) (sys_dirs s), Some e)
      end
  | O_Replace i providers =>
      match sys_handles s !! i with
      | Some h =>
          let '(r, h, res) := handle_replace providers r h in
          (mk_service r (<[i := h]> (sys_handles s)) (sys_dirs s), match res with Ok _ => None | Err e => Some e end)
      | None => (s, None)
      end
  | O_Dispose i =>
      match sys_handles s !! i with
      | Some h => let '(r, h) := handle_dispose r h in (mk_service r (<[i := h]> (sys_handles s)) (sys_dirs s), None)
      | None => (s, None)
      end
  | O_RegisterDirectory active entries =>
      match register_configurable_providers active entries r with
      | (r, Ok h) => (mk_service r (sys_handles s) (sys_dirs s ++ [h]), None)
      | (r, Err e) => (mk_service r (sys_handles s) (sys_dirs s), Some e)
      end
  | O_ReplaceDirectory i entries =>
      match sys_dirs s !! i with
      | Some h =>
          let '(r, h, res) := directory_replace entries r h in
          (mk_service r (sys_handles s) (<[i := h]> (sys_dirs s)), match res with Ok _ => None | Err e => Some e end)
      | None => (s, None)
      end
  | O_DisposeDirectory i =>
      match sys_dirs s !! i with
      | Some h => let '(r, h) := directory_dispose r h in (mk_service r (sys_handles s) (<[i := h]> (sys_dirs s)), None)
      | None => (s, None)
      end
  end.

Definition reg_key (reg : AdapterRegistration) : string := pi_id (ar_provider reg).

(** What a live directory handle holds; a disposed one keeps its list but owns
    nothing. *)
Definition dir_owned (h : DirectoryHandle) : list LlmConfigurableProvider := if dh_disposed h then [] else dh_held h.

Record service_wf (s : Service) : Prop := {
  wf_routes : ordered reg_key (adapters (sys_runtime s)) (adapter_order (sys_runtime s));
  wf_named : forall k reg, adapters (sys_runtime s) !! k = Some reg -> k <> "" /\ pi_name (ar_provider reg) <> "";
  wf_owned : forall i h k, sys_handles s !! i = Some h -> k ∈ h_owned h ->
    exists reg, adapters (sys_runtime s) !! k = Some reg /\ ar_adapter reg = h_adapter h;
  wf_exclusive : forall i j hi hj k, sys_handles s !! i = Some hi -> sys_handles s !! j = Some hj ->
    k ∈ h_owned hi -> k ∈ h_owned hj -> i = j;
  wf_released : forall i h, sys_handles s !! i = Some h -> h_released h = true -> h_owned h = ∅;
  wf_directory : ordered cp_provider (directory (sys_runtime s)) (directory_order (sys_runtime s));
  wf_declared : forall k e, directory (sys_runtime s) !! k = Some e ->
    cp_provider e <> "" /\ cp_display_name e <> "" /\ cp_settings_ns e <> "" /\ "" ∉ cp_settings_path e;
  wf_held : forall i h e, sys_dirs s !! i = Some h -> e ∈ dir_owned h -> directory (sys_runtime s) !! cp_provider e = Some e;
  wf_held_exclusive : forall i j hi hj ei ej, sys_dirs s !! i = Some hi -> sys_dirs s !! j = Some hj ->
    ei ∈ dir_owned hi -> ej ∈ dir_owned hj -> cp_provider ei = cp_provider ej -> i = j;
}.

Definition reg_ok (r : LlmRuntime) (adapter : LlmAdapter) (owned : gset string) (reg : AdapterRegistration) : Prop :=
  ar_adapter reg = adapter /\ reg_key reg <> "" /\ pi_name (ar_provider reg) <> ""
  /\ (adapters r !! reg_key reg = None \/ reg_key reg ∈ owned).

Lemma prepare_routes_ok r providers adapter owned regs :
  prepare_routes r providers adapter owned = Ok regs ->
  reg_key <$> regs = providers /\ NoDup providers /\ Forall (reg_ok r adapter owned) regs.
Proof.
  unfold prepare_routes. intros ([u regs'] & H & [= <-])%result_bind_Ok. simpl.
  assert (u = list_to_set providers /\ reg_key <$> regs' = providers /\ NoDup providers /\ Forall (reg_ok r adapter owned) regs') as (_ & ?); [|done].
  revert u regs' H. induction providers as [|p ps IH] using rev_ind; intros u regs H; simpl in H.
  - injection H as <- <-. split_and!; try done; by constructor.
  - rewrite try_fold_snoc in H. apply result_bind_Ok in H as ([u1 regs1] & H1 & H). destruct (IH _ _ H1) as (-> & E & Hn & Hall).
    unfold prepare_route in H. destruct (String.eqb_spec p "") as [|Hp]; [done|].
    case_bool_decide as Hu; [done|]. cbn [orb] in H.
    destruct (bool_decide (is_Some (adapters r !! p)) && negb (bool_decide (p ∈ owned))) eqn:Eo; [done|].
    destruct (String.eqb_spec (pi_id (ad_provider_info adapter p)) p) as [Ei|]; [|done].
    destruct (String.eqb_spec (pi_name (ad_provider_info adapter p)) "") as [|Hname]; [done|]. cbn [negb orb] in H.
    apply result_bind_Ok in H as (policy & _ & [= <- <-]).
    split_and!.
    + set_solver.
    + rewrite fmap_app, E. unfold reg_key. cbn. by rewrite Ei.
    + apply NoDup_app. split_and!; [done|set_solver|apply NoDup_singleton].
    + apply Forall_app. split; [done|]. constructor; [|done]. unfold reg_ok, reg_key. simpl. rewrite Ei. split_and!; [done..|].
      destruct (adapters r !! p) eqn:Ep; [|by left]. right. rewrite bool_decide_eq_true_2 in Eo by eauto.
      by apply andb_false_iff in Eo as [|?%negb_false_iff%bool_decide_eq_true].
Qed.

Lemma insert_routes_eq regs r owned :
  foldl insert_route (r, owned) regs =
  (mk_runtime (foldl (fun m reg => <[reg_key reg := reg]> m) (adapters r) regs) (adapter_order r ++ (reg_key <$> regs))
     (directory r) (directory_order r) (discoveries r) (updates r), list_to_set (reg_key <$> regs) ∪ owned).
Proof.
  revert r owned. induction regs as [|reg regs IH]; intros r owned.
  - cbn. rewrite app_nil_r. destruct r. f_equal. set_solver.
  - cbn [foldl insert_route]. rewrite IH. rewrite fmap_cons. cbn [adapters adapter_order directory directory_order updates list_to_set foldr].
    rewrite <- app_assoc. f_equal. unfold reg_key. set_solver.
Qed.

(** The routes after a commit: those removed are gone, those prepared are in. *)
Lemma commit_routes_eq owned regs r :
  commit_routes owned regs r =
  (mk_runtime (foldl (fun m reg => <[reg_key reg := reg]> m) (base.filter (fun kv => kv.1 ∉ owned) (adapters r)) regs)
     (base.filter (fun id => id ∉ owned) (adapter_order r) ++ (reg_key <$> regs)) (directory r) (directory_order r) (discoveries r) (S (updates r)),
   list_to_set (reg_key <$> regs)).
Proof. unfold commit_routes. rewrite insert_routes_eq. cbn. f_equal. set_solver. Qed.

Lemma commit_lookup owned regs r k reg :
  NoDup (reg_key <$> regs) ->
  adapters (fst (commit_routes owned regs r)) !! k = Some reg <->
  (reg ∈ regs /\ reg_key reg = k) \/ (adapters r !! k = Some reg /\ k ∉ owned /\ k ∉ reg_key <$> regs).
Proof.
  intros Hn. rewrite commit_routes_eq. cbn [fst adapters]. rewrite foldl_insert_lookup by done. rewrite map_lookup_filter_Some. tauto.
Qed.

Lemma commit_wf s i h regs :
  service_wf s -> sys_handles s !! i = Some h -> NoDup (reg_key <$> regs) ->
  Forall (reg_ok (sys_runtime s) (h_adapter h) (h_owned h)) regs ->
  let '(r, owned) := commit_routes (h_owned h) regs (sys_runtime s) in
  service_wf (mk_service r (<[i := mk_handle (h_adapter h) owned false]> (sys_handles s)) (sys_dirs s)).
Proof.
  intros Hs Hi Hn Hall. rewrite Forall_forall in Hall. pose proof (commit_lookup (h_owned h) regs (sys_runtime s)) as Hlk.
  rewrite commit_routes_eq in *. cbn [fst] in Hlk. set (r' := mk_runtime _ _ _ _ _ _) in *.
  assert (Hold : forall j hj k, i <> j -> sys_handles s !! j = Some hj -> k ∈ h_owned hj -> k ∉ h_owned h /\ k ∉ reg_key <$> regs).
  { intros j hj k Hne Hj Hk. assert (Hk' : k ∉ h_owned h) by (intros Hk'; apply Hne; by eapply (wf_exclusive _ Hs)). split; [done|].
    intros (reg & -> & Hreg)%list_elem_of_fmap. destruct (Hall _ Hreg) as (_ & _ & _ & [Hnone|Ho]); [|done].
    destruct (wf_owned _ Hs _ _ _ Hj Hk) as (? & ? & _). congruence. }
  assert (Hlen : i < length (sys_handles s)) by by eapply lookup_lt_Some.
  split; cbn [sys_runtime sys_handles sys_dirs].
  - apply ordered_inserts; [apply ordered_filter, Hs|done|]. intros reg Hreg. apply map_lookup_filter_None.
    destruct (Hall _ Hreg) as (_ & _ & _ & [|Ho]); [by left|]. right. intros ? _. simpl. tauto.
  - intros k reg [[Hreg <-]|(Hk & _)]%Hlk; [|by eapply wf_named|done]. destruct (Hall _ Hreg) as (_ & ? & ? & _). done.
  - intros j hj k [(<- & <- & _)|[Hne Hj]]%list_lookup_insert_Some Hk; simpl in *.
    + apply elem_of_list_to_set, list_elem_of_fmap in Hk as (reg & -> & Hreg). exists reg. split; [by apply Hlk; auto|]. apply (Hall _ Hreg).
    + destruct (wf_owned _ Hs _ _ _ Hj Hk) as (reg & Hreg & ?). exists reg. split; [|done]. apply Hlk; [done|]. right.
      destruct (Hold _ _ _ Hne Hj Hk). auto.
  - intros j1 j2 h1 h2 k [(<- & <- & _)|[Hne1 Hj1]]%list_lookup_insert_Some [(<- & <- & _)|[Hne2 Hj2]]%list_lookup_insert_Some Hk1 Hk2;
      simpl in *; [done|..]; rewrite ?elem_of_list_to_set in *.
    + by destruct (Hold _ _ _ Hne2 Hj2 Hk2).
    + by destruct (Hold _ _ _ Hne1 Hj1 Hk1).
    + by eapply (wf_exclusive _ Hs).
  - intros j hj [(<- & <- & _)|[Hne Hj]]%list_lookup_insert_Some; [done|]. by eapply (wf_released _ Hs).
  - apply Hs.
  - apply Hs.
  - apply Hs.
  - apply Hs.
Qed.

Lemma register_wf_handle s adapter : service_wf s -> service_wf (mk_service (sys_runtime s) (sys_handles s ++ [mk_handle adapter ∅ false]) (sys_dirs s)).
Proof.
  intros Hs. assert (Hh : forall i h, (sys_handles s ++ [mk_handle adapter ∅ false]) !! i = Some h ->
    sys_handles s !! i = Some h \/ h_owned h = ∅ /\ h_released h = false).
  { intros i h [?|[_ [_ <-]%list_lookup_singleton_Some]]%lookup_app_Some; auto. }
  split; cbn [sys_runtime sys_handles sys_dirs]; try apply Hs.
  - intros i h k [Hi|[E _]]%Hh Hk; [by eapply (wf_owned _ Hs)|]. rewrite E in Hk. set_solver.
  - intros i j hi hj k [Hi|[Ei _]]%Hh [Hj|[Ej _]]%Hh Hki Hkj; [by eapply (wf_exclusive _ Hs)|rewrite Ej in Hkj; set_solver|rewrite Ei in Hki; set_solver..].
  - intros i h [Hi|[E _]]%Hh ?; [by eapply (wf_released _ Hs)|done].
Qed.

(** Forgetting the last handle only forgets who owns its routes. *)
Lemma drop_handle_wf r hs h ds : service_wf (mk_service r (hs ++ [h]) ds) -> service_wf (mk_service r hs ds).
Proof.
  intros Hs. assert (Hl : forall i h', hs !! i = Some h' -> (hs ++ [h]) !! i = Some h') by (intros; by apply lookup_app_l_Some).
  split; try apply Hs; cbn [sys_runtime sys_handles sys_dirs].
  - intros i h' k Hi. by eapply (wf_owned _ Hs), Hl.
  - intros i j hi hj k Hi Hj. eapply (wf_exclusive _ Hs); by apply Hl.
  - intros i h' Hi. eapply (wf_released _ Hs). by apply Hl.
Qed.

Lemma dispose_wf s i h : service_wf s -> sys_handles s !! i = Some h ->
  let '(r, h') := handle_dispose (sys_runtime s) h in service_wf (mk_service r (<[i := h']> (sys_handles s)) (sys_dirs s)).
Proof.
  intros Hs Hi. unfold handle_dispose. destruct (h_released h) eqn:Er.
  { rewrite list_insert_id by done. by destruct s. }
  split; cbn [sys_runtime sys_handles sys_dirs emit_adapters_updated remove_routes adapters adapter_order directory directory_order]; try apply Hs.
  - apply ordered_filter, Hs.
  - intros k reg [Hk _]%map_lookup_filter_Some. by eapply wf_named.
  - intros j hj k [(<- & <- & _)|[Hne Hj]]%list_lookup_insert_Some Hk; [simpl in Hk; set_solver|].
    destruct (wf_owned _ Hs _ _ _ Hj Hk) as (reg & Hreg & ?). exists reg. split; [|done]. apply map_lookup_filter_Some. split; [done|].
    intros Hk'. apply Hne. by eapply (wf_exclusive _ Hs).
  - intros j1 j2 h1 h2 k [(<- & <- & _)|[Hne1 Hj1]]%list_lookup_insert_Some [(<- & <- & _)|[Hne2 Hj2]]%list_lookup_insert_Some Hk1 Hk2;
      simpl in *; try set_solver. by eapply (wf_exclusive _ Hs).
  - intros j hj [(<- & <- & _)|[Hne Hj]]%list_lookup_insert_Some; [done|]. by eapply (wf_released _ Hs).
Qed.

(** ** The directory *)

Definition entry_ok (r : LlmRuntime) (own : gset string) (e : LlmConfigurableProvider) : Prop :=
  cp_provider e <> "" /\ cp_display_name e <> "" /\ cp_settings_ns e <> "" /\ "" ∉ cp_settings_path e
  /\ (directory r !! cp_provider e = None \/ cp_provider e ∈ own).

Lemma existsb_false_elem {A} (f : A -> bool) l : existsb f l = false <-> forall x, x ∈ l -> f x = false.
Proof.
  induction l as [|x l IH]; cbn [existsb]; [set_solver|]. rewrite orb_false_iff, IH. set_solver.
Qed.

Lemma check_entries_ok r own entries detached :
  try_fold (check_entry r own) [] entries = Ok detached ->
  detached = entries /\ NoDup (cp_provider <$> entries) /\ Forall (entry_ok r own) entries.
Proof.
  revert detached. induction entries as [|e es IH] using rev_ind; intros detached H.
  { injection H as <-. split_and!; try done; constructor. }
  rewrite try_fold_snoc in H. apply result_bind_Ok in H as (l & (-> & Hn & Hall)%IH & H). unfold check_entry in H.
  destruct (String.eqb_spec (cp_provider e) ""), (String.eqb_spec (cp_display_name e) ""), (String.eqb_spec (cp_settings_ns e) ""); try done.
  cbn [orb] in H. destruct (existsb (fun segment => String.eqb segment "") (cp_settings_path e)) eqn:Ep; [done|].
  destruct (bool_decide (is_Some (directory r !! cp_provider e)) && negb (bool_decide (cp_provider e ∈ own))) eqn:Eo; [done|].
  destruct (existsb (fun seen => String.eqb (cp_provider seen) (cp_provider e)) es) eqn:Es; [done|]. injection H as <-.
  rewrite existsb_false_elem in Ep. rewrite existsb_false_elem in Es. split_and!; [done| |].
  - rewrite fmap_app. apply NoDup_app. split_and!; [done| |apply NoDup_singleton].
    intros k (x & -> & Hx)%list_elem_of_fmap Hk%list_elem_of_singleton. specialize (Es x Hx). by rewrite Hk, String.eqb_refl in Es.
  - apply Forall_app. split; [done|]. constructor; [|done]. split_and!; [done..| |].
    + intros Hx. by specialize (Ep _ Hx).
    + destruct (directory r !! cp_provider e) eqn:Ed; [|by left]. right. rewrite bool_decide_eq_true_2 in Eo by eauto.
      by apply andb_false_iff in Eo as [|?%negb_false_iff%bool_decide_eq_true].
Qed.

Lemma remove_entries_eq r l :
  foldl remove_declared r l =
  mk_runtime (adapters r) (adapter_order r) (foldl (fun m k => delete k m) (directory r) (cp_provider <$> l))
    (foldl (fun o k => base.filter (fun id => id <> k) o) (directory_order r) (cp_provider <$> l)) (discoveries r) (updates r).
Proof. revert r. induction l as [|e l IH]; intros r; [by destruct r|]. cbn [foldl]. by rewrite IH. Qed.
Lemma insert_entries_eq r l :
  foldl insert_declared r l =
  mk_runtime (adapters r) (adapter_order r) (foldl (fun m e => <[cp_provider e := e]> m) (directory r) l)
    (directory_order r ++ (cp_provider <$> l)) (discoveries r) (updates r).
Proof. revert r. induction l as [|e l IH]; intros r; [destruct r; by rewrite app_nil_r|]. cbn [foldl]. rewrite IH. cbn. by rewrite <- app_assoc. Qed.

Lemma foldl_delete_ordered {V} (key : V -> string) (ks : list string) (m : gmap string V) o :
  ordered key m o ->
  ordered key (foldl (fun m k => delete k m) m ks) (foldl (fun o k => base.filter (fun id => id <> k) o) o ks).
Proof. revert m o. induction ks as [|k ks IH]; intros m o Ho; [done|]. cbn [foldl]. by apply IH, ordered_delete. Qed.
Lemma foldl_delete_lookup {V} (ks : list string) (m : gmap string V) k v :
  foldl (fun m k => delete k m) m ks !! k = Some v <-> m !! k = Some v /\ k ∉ ks.
Proof.
  revert m. induction ks as [|k' ks IH]; intros m; cbn [foldl]; [set_solver|]. rewrite IH, lookup_delete_Some, not_elem_of_cons. naive_solver.
Qed.

(** Replacing what handle [i] holds. *)
Lemma directory_wf s i h entries :
  service_wf s -> sys_dirs s !! i = Some h -> NoDup (cp_provider <$> entries) ->
  Forall (entry_ok (sys_runtime s) (list_to_set (cp_provider <$> dir_owned h))) entries ->
  let r := foldl insert_declared (foldl remove_declared (sys_runtime s) (dir_owned h)) entries in
  forall disposed, (disposed = true -> entries = []) -> 
  forall held, (disposed = false -> held = entries) ->
  service_wf (mk_service (emit_adapters_updated r) (sys_handles s) (<[i := mk_dir_handle held disposed]> (sys_dirs s))).
Proof.
  intros Hs Hi Hn Hall r disposed Hdisp held Hheld. rewrite Forall_forall in Hall.
  assert (Hlk : forall k e, directory r !! k = Some e <->
    (e ∈ entries /\ cp_provider e = k) \/ (directory (sys_runtime s) !! k = Some e /\ k ∉ cp_provider <$> dir_owned h /\ k ∉ cp_provider <$> entries)).
  { intros k e. unfold r. rewrite insert_entries_eq, remove_entries_eq. cbn [directory]. rewrite foldl_insert_lookup, foldl_delete_lookup by done. tauto. }
  assert (Hown : forall e, e ∈ dir_owned (mk_dir_handle held disposed) -> e ∈ entries).
  { unfold dir_owned. simpl. destruct disposed; [set_solver|]. by rewrite Hheld. }
  assert (Hold : forall j hj e, i <> j -> sys_dirs s !! j = Some hj -> e ∈ dir_owned hj ->
    cp_provider e ∉ cp_provider <$> dir_owned h /\ cp_provider e ∉ cp_provider <$> entries).
  { intros j hj e Hne Hj He. assert (Hk : cp_provider e ∉ cp_provider <$> dir_owned h).
    { intros (e' & E & He')%list_elem_of_fmap. apply Hne. by eapply (wf_held_exclusive _ Hs). }
    split; [done|]. intros (e' & E & He')%list_elem_of_fmap. destruct (Hall _ He') as (_ & _ & _ & _ & [Hnone|Ho]).
    - pose proof (wf_held _ Hs _ _ _ Hj He) as Hd. rewrite E in Hd. congruence.
    - apply elem_of_list_to_set in Ho. by rewrite E in Hk. }
  split; cbn [sys_runtime sys_handles sys_dirs emit_adapters_updated adapters adapter_order directory directory_order].
  - unfold r. rewrite insert_entries_eq, remove_entries_eq. apply Hs.
  - unfold r. rewrite insert_entries_eq, remove_entries_eq. apply Hs.
  - unfold r. rewrite insert_entries_eq, remove_entries_eq. apply Hs.
  - apply Hs.
  - apply Hs.
  - unfold r. rewrite insert_entries_eq, remove_entries_eq. cbn. apply ordered_inserts; [apply foldl_delete_ordered, Hs|done|].
    intros e He. apply eq_None_not_Some. intros [e' [Hd Hk]%foldl_delete_lookup]. destruct (Hall _ He) as (_ & _ & _ & _ & [Hnone|Ho]); [congruence|].
    apply elem_of_list_to_set in Ho. done.
  - intros k e [[He <-]|(Hk & _)]%Hlk; [|by eapply (wf_declared _ Hs)]. destruct (Hall _ He) as (? & ? & ? & ? & _). done.
  - intros j hj e [(<- & <- & _)|[Hne Hj]]%list_lookup_insert_Some He; apply Hlk; [left; auto|]. right.
    split; [by eapply (wf_held _ Hs)|by eapply Hold].
  - intros j1 j2 h1 h2 e1 e2 [(<- & <- & _)|[Hne1 Hj1]]%list_lookup_insert_Some [(<- & <- & _)|[Hne2 Hj2]]%list_lookup_insert_Some He1 He2 E; [done|..].
    + apply Hown in He1. destruct (Hold _ _ _ Hne2 Hj2 He2) as [_ []]. rewrite <- E. by apply list_elem_of_fmap_2.
    + apply Hown in He2. destruct (Hold _ _ _ Hne1 Hj1 He1) as [_ []]. rewrite E. by apply list_elem_of_fmap_2.
    + by eapply (wf_held_exclusive _ Hs).
Qed.

Definition Service_new : Service := mk_service LlmRuntime_new [] [].

Lemma service_new_wf : service_wf Service_new.
Proof.
  split; cbn; try (by intros ? ? ?); try apply ordered_empty; intros ? ? H; by rewrite lookup_empty in H.
Qed.

Lemma append_dir_wf s : service_wf s -> service_wf (mk_service (sys_runtime s) (sys_handles s) (sys_dirs s ++ [mk_dir_handle [] false])).
Proof.
  intros Hs. assert (Hh : forall i h e, (sys_dirs s ++ [mk_dir_handle [] false]) !! i = Some h -> e ∈ dir_owned h -> sys_dirs s !! i = Some h).
  { intros i h e [?|[_ [_ <-]%list_lookup_singleton_Some]]%lookup_app_Some He; [done|]. cbn in He. set_solver. }
  split; cbn [sys_runtime sys_handles sys_dirs]; try apply Hs.
  - intros i h e Hi He. eapply (wf_held _ Hs); eauto.
  - intros i j hi hj ei ej Hi Hj Hei Hej. eapply (wf_held_exclusive _ Hs); eauto.
Qed.
Lemma drop_dir_wf r hs ds h : service_wf (mk_service r hs (ds ++ [h])) -> service_wf (mk_service r hs ds).
Proof.
  intros Hs. assert (Hl : forall i h', ds !! i = Some h' -> (ds ++ [h]) !! i = Some h') by (intros; by apply lookup_app_l_Some).
  split; try apply Hs; cbn [sys_runtime sys_handles sys_dirs].
  - intros i h' e Hi. eapply (wf_held _ Hs), Hl, Hi.
  - intros i j hi hj ei ej Hi Hj. eapply (wf_held_exclusive _ Hs); by apply Hl.
Qed.

Lemma insert_snoc {A} (l : list A) x y : <[length l := y]> (l ++ [x]) = l ++ [y].
Proof. rewrite insert_app_r_alt by done. by rewrite Nat.sub_diag. Qed.

Lemma register_step_wf s active providers adapter : service_wf s -> service_wf (fst (rt_step s (O_Register active providers adapter))).
Proof.
  intros Hs. cbn [rt_step]. unfold register_adapter. case_bool_decide; [by destruct s|].
  destruct (prepare_routes (sys_runtime s) providers adapter ∅) as [regs|e] eqn:Ep; [|by destruct s].
  apply prepare_routes_ok in Ep as (E & Hn & Hall).
  pose proof (commit_wf _ (length (sys_handles s)) (mk_handle adapter ∅ false) regs (register_wf_handle s adapter Hs)) as Hc.
  cbn [sys_runtime sys_handles sys_dirs h_owned h_adapter] in Hc. rewrite lookup_app_r, Nat.sub_diag in Hc by done.
  specialize (Hc eq_refl ltac:(by rewrite E) Hall). destruct (commit_routes ∅ regs (sys_runtime s)) as [r owned].
  rewrite insert_snoc in Hc. destruct active; cbn [fst]; [done|]. by eapply drop_handle_wf.
Qed.

Lemma replace_step_wf s i providers : service_wf s -> service_wf (fst (rt_step s (O_Replace i providers))).
Proof.
  intros Hs. cbn [rt_step]. destruct (sys_handles s !! i) as [h|] eqn:Hi; [|done]. unfold handle_replace.
  assert (Hid : service_wf (mk_service (sys_runtime s) (<[i:=h]> (sys_handles s)) (sys_dirs s))) by (rewrite list_insert_id by done; by destruct s).
  destruct (h_released h); [done|]. destruct (prepare_routes _ providers _ _) as [regs|e] eqn:Ep; [|done].
  apply prepare_routes_ok in Ep as (E & Hn & Hall). pose proof (commit_wf s i h regs Hs Hi ltac:(by rewrite E) Hall) as Hc.
  by destruct (commit_routes (h_owned h) regs (sys_runtime s)).
Qed.

Lemma register_directory_step_wf s active entries : service_wf s -> service_wf (fst (rt_step s (O_RegisterDirectory active entries))).
Proof.
  intros Hs. cbn [rt_step]. unfold register_configurable_providers, commit_directory. case_bool_decide; [by destruct s|].
  destruct (try_fold (check_entry _ _) [] entries) as [detached|e] eqn:Ec; [|by destruct s].
  apply check_entries_ok in Ec as (-> & Hn & Hall).
  pose proof (directory_wf _ (length (sys_dirs s)) (mk_dir_handle [] false) entries (append_dir_wf s Hs)) as Hd.
  cbn [sys_runtime sys_handles sys_dirs] in Hd. rewrite lookup_app_r, Nat.sub_diag in Hd by done.
  specialize (Hd eq_refl Hn Hall false ltac:(done) entries ltac:(done)). rewrite insert_snoc in Hd.
  destruct active; cbn [fst]; [done|]. by eapply drop_dir_wf.
Qed.

Lemma replace_directory_step_wf s i entries : service_wf s -> service_wf (fst (rt_step s (O_ReplaceDirectory i entries))).
Proof.
  intros Hs. cbn [rt_step]. destruct (sys_dirs s !! i) as [h|] eqn:Hi; [|done]. unfold directory_replace, commit_directory.
  assert (Hid : service_wf (mk_service (sys_runtime s) (sys_handles s) (<[i:=h]> (sys_dirs s)))) by (rewrite list_insert_id by done; by destruct s).
  destruct (dh_disposed h) eqn:Ed; [done|]. destruct (try_fold (check_entry _ _) [] entries) as [detached|e] eqn:Ec; [|done].
  apply check_entries_ok in Ec as (-> & Hn & Hall).
  assert (Eo : dir_owned h = dh_held h) by (unfold dir_owned; by rewrite Ed).
  pose proof (directory_wf s i h entries Hs Hi Hn) as Hd. rewrite Eo in Hd. cbn [fst]. by apply Hd.
Qed.

Lemma dispose_directory_step_wf s i : service_wf s -> service_wf (fst (rt_step s (O_DisposeDirectory i))).
Proof.
  intros Hs. cbn [rt_step]. destruct (sys_dirs s !! i) as [h|] eqn:Hi; [|done]. unfold directory_dispose.
  destruct (dh_disposed h) eqn:Ed; cbn [fst]; [rewrite list_insert_id by done; by destruct s|].
  assert (Eo : dir_owned h = dh_held h) by (unfold dir_owned; by rewrite Ed).
  pose proof (directory_wf s i h [] Hs Hi ltac:(constructor) ltac:(done)) as Hd. rewrite Eo in Hd. by apply Hd.
Qed.

Lemma rt_step_wf s op : service_wf s -> service_wf (fst (rt_step s op)).
Proof.
  intros Hs. destruct op.
  - by apply register_step_wf.
  - by apply replace_step_wf.
  - cbn [rt_step]. destruct (sys_handles s !! h) as [hd|] eqn:Hi; [|done]. pose proof (dispose_wf s h hd Hs Hi).
    by destruct (handle_dispose (sys_runtime s) hd).
  - by apply register_directory_step_wf.
  - by apply replace_directory_step_wf.
  - by apply dispose_directory_step_wf.
Qed.

Definition rt_run (ops : list RtOp) : Service := foldl (fun s op => fst (rt_step s op)) Service_new ops.

(** The error of a context that accepts no effects. *)
Definition inactive (op : RtOp) : bool :=
  match op with O_Register active _ _ | O_RegisterDirectory active _ => negb active | _ => false end.

Lemma rejected_unchanged s op e : inactive op = false -> snd (rt_step s op) = Some e -> fst (rt_step s op) = s.
Proof.
  destruct op as [active ps a|i ps|i|active es|i es|i]; cbn [rt_step inactive]; intros Hact.
  - apply negb_false_iff in Hact as ->. unfold register_adapter. case_bool_decide; [by destruct s|].
    destruct (prepare_routes _ _ _ _); [by destruct (commit_routes _ _ _)|by destruct s].
  - destruct (sys_handles s !! i) as [h|] eqn:Hi; [|done]. unfold handle_replace.
    destruct (h_released h); [cbn; rewrite list_insert_id by done; by destruct s|].
    destruct (prepare_routes _ _ _ _); [by destruct (commit_routes _ _ _)|cbn; rewrite list_insert_id by done; by destruct s].
  - destruct (sys_handles s !! i); [|done]. by destruct (handle_dispose _ _).
  - apply negb_false_iff in Hact as ->. unfold register_configurable_providers, commit_directory. case_bool_decide; [by destruct s|].
    destruct (try_fold _ _ _); [done|by destruct s].
  - destruct (sys_dirs s !! i) as [h|] eqn:Hi; [|done]. unfold directory_replace, commit_directory.
    destruct (dh_disposed h); [cbn; rewrite list_insert_id by done; by destruct s|].
    destruct (try_fold _ _ _); [done|cbn; rewrite list_insert_id by done; by destruct s].
  - destruct (sys_dirs s !! i); [|done]. by destruct (directory_dispose _ _).
Qed.

(** Routes are owned, exclusively and all-or-nothing. Whatever the sequence
    of registrations, replacements and disposals, the registry and its order
    list hold the same routes, once each, under their own non-empty ids and
    names; every route of a live handle is served by that handle's adapter and
    belongs to no other handle, and a released handle owns none; likewise for
    the configurable-provider directory. And a call refused on an active
    context leaves the whole system as it was. *)
Theorem routes_exclusive (ops : list RtOp) (op : RtOp) (e : LlmError) :
  service_wf (rt_run ops)
  /\ (inactive op = false -> snd (rt_step (rt_run ops) op) = Some e -> fst (rt_step (rt_run ops) op) = rt_run ops).
Proof.
  split; [|apply rejected_unchanged]. unfold rt_run.
  induction ops as [|o ops IH] using rev_ind; [apply service_new_wf|]. rewrite foldl_app. by apply rt_step_wf.
Qed.

(** The registration that fails on an inactive context has already published
    its routes, and returns no handle to remove them with. *)
Lemma inactive_registration_leaks adapter provider :
  provider <> "" -> pi_id (ad_provider_info adapter provider) = provider -> pi_name (ad_provider_info adapter provider) <> "" ->
  is_Some (ad_retry_policy adapter provider) ->
  let '(r, res) := register_adapter false [provider] adapter LlmRuntime_new in
  is_ok res = false /\ list_providers r = [ad_provider_info adapter provider].
Proof.
  intros Hp Hid Hname [policy Hpol]. unfold register_adapter. rewrite bool_decide_eq_false_2 by done.
  assert (E : prepare_routes LlmRuntime_new [provider] adapter ∅ = Ok [mk_registration adapter (ad_provider_info adapter provider) policy]).
  { unfold prepare_routes. cbn [try_fold]. unfold prepare_route. rewrite (proj2 (String.eqb_neq _ _) Hp).
    rewrite (bool_decide_eq_false_2 (provider ∈ ∅)) by set_solver. cbn [adapters LlmRuntime_new]. rewrite lookup_empty.
    rewrite bool_decide_eq_false_2 by (by intros [? ?]). cbn [andb orb]. rewrite Hid, String.eqb_refl.
    rewrite (proj2 (String.eqb_neq _ _) Hname), Hpol. done. }
  rewrite E, commit_routes_eq. split; [done|]. unfold list_providers. cbn [foldl adapters adapter_order reg_key ar_provider fmap list_fmap].
  cbn. unfold reg_key. cbn. by rewrite Hid, lookup_insert_eq.
Qed.

(** * The stream a consumer sees *)

(** What the runtime asks of an adapter: the stream protocol of [Adapter.v]. *)
Definition any_open (ys : list (result StreamChunk AnyError)) : Prop :=
  exists cs : list StreamChunk, ys = Ok <$> cs /\ omap finish_of cs = [].
Definition any_closed (ys : list (result StreamChunk AnyError)) : Prop :=
  exists front y, ys = front ++ [y] /\ any_open front /\ match y with Ok c => is_Some (finish_of c) | Err _ => True end.
Class StreamProtocol (a : LlmAdapter) : Prop := stream_protocol o :
  match ad_stream a o with
  | (ys, Ended) => any_closed ys
  | (ys, Waiting) => any_open ys
  | (ys, Panicked) => ys = []
  end.

(** A consumer's stream: one finish chunk and nothing after it. *)
Definition finished_once (cs : list StreamChunk) : Prop :=
  exists front reason replay, cs = front ++ [SC_Finish reason replay] /\ omap finish_of front = [].

Lemma relay_open sa cs rest e :
  relay sa ((Ok <$> cs) ++ rest) e = (cs ++ fst (relay sa rest e), snd (relay sa rest e)).
Proof.
  induction cs as [|c cs IH]; cbn [fmap list_fmap app]; [by destruct (relay sa rest e)|].
  cbn [relay]. rewrite IH. done.
Qed.

Lemma relay_protocol sa ys e :
  match e with Ended => any_closed ys | Waiting => any_open ys | Panicked => ys = [] end ->
  match relay sa ys e with
  | (cs, Ended) => e = Ended /\ finished_once cs
  | (cs, Waiting) => e = Waiting /\ omap finish_of cs = []
  | (cs, Panicked) => e = Panicked /\ cs = []
  end.
Proof.
  destruct e; [|by intros ->|].
  - intros (front & y & -> & (cs & -> & Hcs) & Hy). rewrite relay_open. destruct y as [c|err]; cbn [relay fst snd].
    + destruct c; try (by destruct Hy). split; [done|]. by eexists _, _, _.
    + split; [done|]. by eexists _, _, _.
  - intros (cs & -> & Hcs). rewrite <- (app_nil_r (Ok <$> cs)), relay_open. cbn [relay fst snd]. by rewrite app_nil_r.
Qed.

Lemma finished_one error sa : finished_once [failure_chunk error sa].
Proof. by exists [], (if sa || String.eqb (failure_code (normalize_llm_failure error)) "ABORTED"
  then FR_Aborted (normalize_llm_failure error) else FR_Error (normalize_llm_failure error)), None. Qed.

(** ** The DeepSeek adapter under the runtime *)

Section deepseek.
Context (is_quota_exceeded_error is_context_window_exceeded_error : string -> bool).
Context (parse_date : string -> option Z) (now : Z).
Context (parse_chunk : string -> option WireChunk) (to_uppercase : string -> string).
Context (ptr : nat) (connection : DeepSeekConnectionOptions) (api_key : result string LlmError) (answer : WireRequest -> Answer).

Definition deepseek_adapter : LlmAdapter :=
  mk_adapter ptr provider_info (fun _ => Some (co_retry_policy connection))
    (fun provider => Ok (list_models connection provider)) (fun provider model => Ok (resolve_model connection provider model))
    (fun options =>
       let '(ys, e) := Adapter.stream is_quota_exceeded_error is_context_window_exceeded_error parse_date now parse_chunk to_uppercase
         connection api_key answer options in
       (map_err AE_Llm <$> ys, e)).

Lemma open_any ys : open_stream ys -> any_open (map_err AE_Llm <$> ys).
Proof. intros (cs & -> & H). exists cs. split; [|done]. rewrite <- list_fmap_compose. done. Qed.

#[export] Instance deepseek_protocol : StreamProtocol deepseek_adapter.
Proof.
  intros o. cbn [ad_stream deepseek_adapter].
  pose proof (stream_shape parse_chunk to_uppercase is_quota_exceeded_error is_context_window_exceeded_error parse_date now
    connection api_key answer o) as H.
  destruct (Adapter.stream _ _ _ _ _ _ _ _ _ o) as [ys []].
  - destruct H as (front & y & -> & Ho & Hy). exists (map_err AE_Llm <$> front), (map_err AE_Llm y).
    rewrite fmap_app. split_and!; [done|by apply open_any|by destruct y].
  - by destruct H as [-> _].
  - by apply open_any, H.
Qed.

Lemma conclusive_signal o o' a : go_signal o = go_signal o' -> conclusive o a = conclusive o' a.
Proof.
  intros E. destruct a as [|status hd b turns]; [done|]. cbn [conclusive]. f_equal.
  induction turns as [|t turns IH]; cbn [existsb]; [done|]. rewrite IH. f_equal. unfold final_turn, aborted. by rewrite E.
Qed.

(** The model info DeepSeek answers passes every check the runtime makes, or
    is refused with an error; it never panics. *)
Lemma deepseek_resolution reg config : ar_adapter reg = deepseek_adapter -> is_Some (resolve_call_for reg config).
Proof.
  intros E. unfold resolve_call_for, resolve_model_info_for. rewrite E. cbn [ad_resolve_model deepseek_adapter wrap_error call_bind].
  unfold of_result. destruct (check_resolved _ _ _); by eexists.
Qed.

(** Where a call goes: to the adapter it was prepared for, or to the one its
    provider names, if any. *)
Definition over_deepseek (r : LlmRuntime) (provider : string) (prepared : option (AdapterRegistration * LlmCallConfig)) : Prop :=
  match prepared with
  | Some (reg, _) => ar_adapter reg = deepseek_adapter
  | None => forall reg, adapters r !! provider = Some reg -> ar_adapter reg = deepseek_adapter
  end.
(** Listeners that hand the call on once, with the provider and the signal it
    had, and pass its stream on, or fail the call. *)
Definition hands_on (waterfall : Waterfall) (options : GenerateOptions) : Prop := forall next,
  (exists o, go_provider o = go_provider options /\ go_signal o = go_signal options /\ waterfall next options = Ok (next o))
  \/ exists error, waterfall next options = Err error.

Lemma setup_selects (r : LlmRuntime) options prepared :
  over_deepseek r (go_provider options) prepared ->
  (exists e, adapter_setup r options prepared = Some (Err e))
  \/ exists o, go_signal o = go_signal options /\ adapter_setup r options prepared = Some (Ok (ad_stream deepseek_adapter o)).
Proof.
  unfold adapter_setup, over_deepseek. destruct prepared as [[reg config]|].
  - intros E. destruct (options_match_config options config); cbn [of_result call_bind]; [right|left; by eexists].
    rewrite E. by eexists (for_adapter r deepseek_adapter (apply_to config options)).
  - intros Hreg. unfold registration. destruct (adapters r !! go_provider options) as [reg|] eqn:Er; cbn [ok_or of_result call_bind]; [|left; by eexists].
    specialize (Hreg reg eq_refl). destruct (deepseek_resolution reg (config_of options) Hreg) as [[[config ctx]|e] ->];
      cbn [call_bind of_result]; [right|left; by eexists]. cbn [fst]. rewrite Hreg.
    by eexists (for_adapter r deepseek_adapter (apply_to config options)).
Qed.

Lemma adapter_finishes (r : LlmRuntime) (signal_aborted : bool) (options : GenerateOptions) prepared :
  over_deepseek r (go_provider options) prepared -> (forall body, conclusive options (answer body) = true) ->
  (forall body status headers parsed turns, answer body = AN_Response status headers parsed turns -> ~ may_panic status headers parsed) ->
  exists cs, adapter_stream r signal_aborted prepared options = (cs, Ended) /\ finished_once cs.
Proof.
  intros Hover Hconc Hpanic. unfold adapter_stream.
  destruct (setup_selects r options prepared Hover) as [[e ->]|(o & Es & ->)]; [eauto using finished_one|].
  pose proof (stream_shape parse_chunk to_uppercase is_quota_exceeded_error is_context_window_exceeded_error parse_date now
    connection api_key answer o) as H. pose proof (deepseek_protocol o) as Hproto. cbn [ad_stream deepseek_adapter] in *.
  destruct (Adapter.stream _ _ _ _ _ _ _ _ _ o) as [ys []].
  - pose proof (relay_protocol signal_aborted _ Ended Hproto) as Hrel. revert Hrel.
    destruct (relay signal_aborted _ Ended) as [cs []]; [|by intros []..]. intros [_ Hcs]. by exists cs.
  - destruct H as [_ (body & status & hd & parsed & turns & Ha & _ & Hp)]. by destruct (Hpanic _ _ _ _ _ Ha).
  - destruct H as [_ [body Hc]]. rewrite (conclusive_signal o options) in Hc by done. by rewrite Hconc in Hc.
Qed.

(** C25. A model call always finishes, once. Through the runtime, prepared
    beforehand or not, under listeners that hand the call on once and pass its
    stream on, or fail it, and over the DeepSeek adapter, every call whose
    answer is conclusive (it reaches an end of file, a timeout, a failure, an
    abort or an error status) and on which the error constructors do not panic
    produces a stream that ends, whose last chunk is a finish chunk and the
    only one: the loop that folds it never waits for a finish that does not
    come and never sees a second one, whether or not the route, the credential
    or the request was any good. *)
Theorem model_call_finishes (r : LlmRuntime) (waterfall : Waterfall) (signal_aborted : bool)
    (prepared : option (AdapterRegistration * LlmCallConfig)) (options : GenerateOptions) :
  hands_on waterfall options -> over_deepseek r (go_provider options) prepared ->
  (forall body, conclusive options (answer body) = true) ->
  (forall body status headers parsed turns, answer body = AN_Response status headers parsed turns -> ~ may_panic status headers parsed) ->
  exists cs, stream_with_registration r waterfall signal_aborted prepared options = (cs, Ended) /\ finished_once cs.
Proof.
  intros Hw Hover Hconc Hpanic. unfold stream_with_registration.
  destruct (Hw (adapter_stream r signal_aborted prepared)) as [(o & Hp & Hs & ->)|[error ->]]; [|eauto using finished_one].
  apply adapter_finishes; [by rewrite Hp| |done]. intros body. by rewrite (conclusive_signal o options).
Qed.
End deepseek.

(** * Prepared calls *)

Lemma check_efforts_ok provider model efforts seen :
  try_fold (check_effort provider model) ∅ efforts = Ok seen -> forall e, e ∈ efforts -> eff_id e <> "".
Proof.
  revert seen. induction efforts as [|e l IH] using rev_ind; intros seen H x Hx; [set_solver|].
  rewrite try_fold_snoc in H. apply result_bind_Ok in H as (s & Hs & H). unfold check_effort in H.
  apply elem_of_app in Hx as [Hx| ->%list_elem_of_singleton]; [by eapply IH|].
  destruct (String.eqb_spec (eff_id e) ""); [done|done].
Qed.

Lemma call_bind_ok {A B} (c : call A) (k : A -> call B) b : call_bind c k = Some (Ok b) <-> exists a, c = Some (Ok a) /\ k a = Some (Ok b).
Proof. destruct c as [[a|e]|]; simpl; naive_solver. Qed.

(** What the caller asked for, completed by what the adapter declares. *)
Definition completes (info : LlmResolvedModelInfo) (asked given : LlmCallConfig) : Prop :=
  cfg_provider given = cfg_provider asked /\ cfg_model given = cfg_model asked
  /\ cfg_temperature given = cfg_temperature asked /\ cfg_stop given = cfg_stop asked
  /\ cfg_max_tokens given = match cfg_max_tokens asked with Some n => Some n | None => rm_default_max_tokens info end
  /\ (forall e, cfg_reasoning_effort asked = Some e -> cfg_reasoning_effort given = Some e)
  /\ (forall e, cfg_reasoning_effort given = Some e ->
        exists reasoning, rm_reasoning info = Some reasoning /\ e ∈ eff_id <$> ri_efforts reasoning
          /\ (cfg_reasoning_effort asked = None -> ri_default_effort reasoning = Some e)).

Lemma resolve_with_completes info config given ctx : resolve_with info config = Ok (given, ctx) -> completes info config given.
Proof.
  unfold resolve_with, completes. destruct (rm_reasoning info) as [reasoning|].
  - destruct (cfg_reasoning_effort config) as [e|] eqn:Ee; [|destruct (ri_default_effort reasoning) as [e|] eqn:Ed];
      try (destruct (existsb _ (ri_efforts reasoning)) eqn:Ex; [|done]); intros [= <- <-]; cbn; split_and!; try done; try naive_solver.
    all: apply existsb_exists in Ex as (x & Hx & <-%String.eqb_eq); apply list_elem_of_In in Hx; intros ? [= <-];
      eexists; split_and!; [done|by apply list_elem_of_fmap_2|done].
  - destruct (cfg_reasoning_effort config); [done|]. by intros [= <- <-].
Qed.

(** A prepared call is the caller's request completed by the very adapter
    that will serve it. Preparation keeps every explicit value and only fills
    what was omitted, with an effort the adapter declares (and flags what it
    filled); the call is then dispatched to the registration captured here,
    whatever happens to the registry meanwhile, at most once, and only with the
    configuration that was prepared. *)
Theorem prepared_call_sound (r : LlmRuntime) (config : LlmCallConfig) (c : PreparedLlmCall) :
  prepare_call r config = Some (Ok c) ->
  (exists info, adapters r !! cfg_provider config = Some (pc_registration c)
     /\ ad_resolve_model (ar_adapter (pc_registration c)) (reg_key (pc_registration c)) (cfg_model config) = Ok info
     /\ check_resolved (reg_key (pc_registration c)) (cfg_model config) info = Ok tt
     /\ completes info config (pc_config c))
  /\ (ad_reasoning_effort (pc_adapter_defaults c) = Some true <->
        cfg_reasoning_effort config = None /\ is_Some (cfg_reasoning_effort (pc_config c)))
  /\ (ad_max_tokens (pc_adapter_defaults c) = Some true <-> cfg_max_tokens config = None /\ is_Some (cfg_max_tokens (pc_config c)))
  /\ (forall r' w sa options,
        let '(c', res) := prepared_stream r' w sa options c in
        if options_match_config options (pc_config c)
        then res = Ok (stream_with_registration r' w sa (Some (pc_registration c, pc_config c)) options)
             /\ forall r'' w' sa' options', is_ok (snd (prepared_stream r'' w' sa' options' c')) = false
        else c' = c /\ is_ok res = false).
Proof.
  unfold prepare_call. intros (reg & Hreg & H)%call_bind_ok. apply call_bind_ok in H as ([given ctx] & Hres & [= <-]).
  unfold of_result, registration in Hreg. destruct (adapters r !! cfg_provider config) as [reg'|] eqn:Er; [|done]. injection Hreg as ->.
  unfold resolve_call_for in Hres. apply call_bind_ok in Hres as (info & Hinfo & [= Hw]).
  unfold resolve_model_info_for in Hinfo. apply call_bind_ok in Hinfo as (info' & Hi & Hc). apply call_bind_ok in Hc as ([] & [= Hc] & [= ->]).
  unfold wrap_error in Hi. destruct (ad_resolve_model _ _ _) as [info'|e] eqn:Ea; [injection Hi as ->|by destruct (LlmError_new _ _)].
  cbn [pc_registration pc_config pc_adapter_defaults ad_reasoning_effort ad_max_tokens]. split_and!.
  - exists info. split_and!; [done..|]. by eapply resolve_with_completes.
  - unfold then_some_true. destruct (cfg_reasoning_effort config), (cfg_reasoning_effort given); simpl; naive_solver.
  - unfold then_some_true. destruct (cfg_max_tokens config), (cfg_max_tokens given); simpl; naive_solver.
  - intros r' w sa options. unfold prepared_stream. cbn [pc_dispatched pc_config pc_registration].
    destruct (options_match_config options given) eqn:Em; cbn [negb]; [|done]. split; [done|]. done.
Qed.

(** Discovery answers distinct non-empty ids, those the endpoint named, in its
    order of first mention. *)
Lemma keep_discovered_spec l :
  let '(seen, models) := foldl keep_discovered (∅, []) l in
  seen = list_to_set (dm_id <$> models) /\ NoDup (dm_id <$> models) /\ "" ∉ dm_id <$> models
  /\ models `sublist_of` l /\ (forall m, m ∈ l -> dm_id m <> "" -> dm_id m ∈ dm_id <$> models).
Proof.
  induction l as [|m l IH] using rev_ind; [split_and!; try done; [constructor|set_solver|set_solver]|].
  rewrite foldl_app. cbn [foldl]. destruct (foldl keep_discovered (∅, []) l) as [seen models]. destruct IH as (-> & Hn & He & Hs & Hall).
  unfold keep_discovered. destruct (String.eqb_spec (dm_id m) "") as [E|E]; cbn [orb].
  { split_and!; [done..|by apply sublist_inserts_r|]. intros x [?| ->%list_elem_of_singleton]%elem_of_app ?; [by apply Hall|done]. }
  case_bool_decide as Hseen.
  { split_and!; [done..|by apply sublist_inserts_r|]. intros x [?| ->%list_elem_of_singleton]%elem_of_app ?; [by apply Hall|].
    by apply elem_of_list_to_set in Hseen. }
  rewrite fmap_app. split_and!.
  - set_solver.
  - apply NoDup_app. split_and!; [done| |apply NoDup_singleton]. intros x Hx ->%list_elem_of_singleton. apply Hseen. by apply elem_of_list_to_set.
  - set_solver.
  - by apply sublist_app.
  - intros x [?| ->%list_elem_of_singleton]%elem_of_app ?; apply elem_of_app; [left; by apply Hall|right; set_solver].
Qed.

(** * Concrete instances *)

(** An adapter for any route, one effort, that streams one text chunk. *)
Definition sample_adapter (ptr : nat) : LlmAdapter :=
  mk_adapter ptr (fun p => mk_provider_info p "Sample") (fun _ => Some (filled None)) (fun _ => Ok [])
    (fun p m => Ok (mk_resolved_model p m m None None (Some 1000%Z) (Some 64%Z) (Some (mk_reasoning_info [mk_effort "high" "High" None] (Some "high")))))
    (fun _ => ([Ok (SC_TextDelta 0 "x"); Ok (SC_Finish FR_Stop None)], Ended)).
Definition sample_ops : list RtOp := [O_Register true ["a"; "b"] (sample_adapter 0)].

Lemma routes_exclusive_witness :
  let op := O_Register true ["b"] (sample_adapter 1) in
  exists e, err_code e = "DUPLICATE_ADAPTER" /\ snd (rt_step (rt_run sample_ops) op) = Some e
  /\ fst (rt_step (rt_run sample_ops) op) = rt_run sample_ops.
Proof.
  cbn zeta. eexists. split; [|split; [vm_compute; reflexivity|]]; [reflexivity|].
  eapply (routes_exclusive sample_ops (O_Register true ["b"] (sample_adapter 1)) _); [reflexivity|vm_compute; reflexivity].
Defined.

Definition sample_config : LlmCallConfig := mk_call_config "a" "m" None None None None.

Lemma prepared_call_sound_witness :
  exists c, prepare_call (sys_runtime (rt_run sample_ops)) sample_config = Some (Ok c)
  /\ cfg_reasoning_effort (pc_config c) = Some "high" /\ ad_reasoning_effort (pc_adapter_defaults c) = Some true.
Proof.
  eexists. split; [vm_compute; reflexivity|]. split; [reflexivity|].
  eapply (prepared_call_sound (sys_runtime (rt_run sample_ops)) sample_config _); [vm_compute; reflexivity|].
  split; [reflexivity|by eexists].
Defined.

(** A DeepSeek call whose connection drops before the sentinel. *)
Definition dropped (body : WireRequest) : Answer :=
  AN_Response 200 (fun _ => None) None [sample_turn "data: p1"; mk_turn (fun _ => false) RD_Eof (fun _ => false)].
Definition sample_deepseek : LlmAdapter :=
  deepseek_adapter (fun _ => false) (fun _ => false) (fun _ => None) 0 sample_parse id 0 sample_connection (Ok "key") dropped.
Definition sample_runtime : LlmRuntime := fst (register_adapter true ["deepseek"] sample_deepseek LlmRuntime_new).

Lemma model_call_finishes_witness :
  exists cs, runtime_stream sample_runtime no_listeners false sample_options = (cs, Ended) /\ finished_once cs.
Proof.
  apply (model_call_finishes (fun _ => false) (fun _ => false) (fun _ => None) 0 sample_parse id 0 sample_connection (Ok "key") dropped
    sample_runtime no_listeners false None sample_options).
  - intros next. left. by exists sample_options.
  - intros reg H. vm_compute in H. injection H as <-. reflexivity.
  - intros body. reflexivity.
  - intros body status headers parsed turns [= <- <- <- <-] [H|[H|(v & H & _)]]; [lia|discriminate H|discriminate H].
Defined.
