(* ===== verification/Scope.v ===== *)
(** Scope identities, their parent links and the scope-aware tables:
    [crates/dsh/scope/src/lib.rs] and [store.rs].

    A [ScopeKey] is its minted id; the parent cells of all keys are one finite
    map.  The walk to the root is bounded by fuel, and [scope_chains_end] shows
    that the fuel of one more than the number of links is enough. *)
From Stdlib Require Import ZArith Lia Ascii String.
From stdpp Require Import base tactics numbers list gmap strings.
From S2P Require Import Prelude.
Open Scope keel_scope.

(** * Keys and their parents *)

Abbreviation ScopeKey := Z (only parsing).

Inductive ScopeError := AlreadyBound | WouldCycle.

(** [NEXT_KEY] and the [parent] cells. *)
Record Scopes := mk_scopes { sc_next : Z; sc_parent : gmap Z Z }.
Definition Scopes_new : Scopes := mk_scopes 0 ∅.

Definition ScopeKey_new (s : Scopes) : Scopes * ScopeKey :=
  let id := u64_succ (sc_next s) in (mk_scopes id (sc_parent s), id).

Definition scope_parent_of (parent : gmap Z Z) (key : ScopeKey) : option ScopeKey := parent !! key.

(** The [while let Some(current) = cursor] loops; [None] when the fuel ends. *)
Fixpoint chain_from (fuel : nat) (parent : gmap Z Z) (cursor : option ScopeKey) : option (list ScopeKey) :=
  match cursor with
  | None => Some []
  | Some current =>
      match fuel with
      | O => None
      | S fuel => cons current <$> chain_from fuel parent (scope_parent_of parent current)
      end
  end.
Definition chain_fuel (parent : gmap Z Z) : nat := S (size parent).
Definition scope_chain_of (parent : gmap Z Z) (key : option ScopeKey) : option (list ScopeKey) :=
  chain_from (chain_fuel parent) parent key.

(** The outer [option] is the divergence of the walk. *)
Definition link_scope_parent (key parent : ScopeKey) (s : Scopes) : option (Scopes * result unit ScopeError) :=
  chain ← scope_chain_of (sc_parent s) (Some parent);
  Some (if decide (key ∈ chain) then (s, Err WouldCycle)
        else (mk_scopes (sc_next s) (<[key := parent]> (sc_parent s)), Ok tt)).
Definition rebind (key parent : ScopeKey) (s : Scopes) : option (Scopes * result unit ScopeError) :=
  link_scope_parent key parent s.
Definition bind_scope_parent (key parent : ScopeKey) (s : Scopes) : option (Scopes * result unit ScopeError) :=
  match sc_parent s !! key with
  | Some _ => Some (s, Err AlreadyBound)
  | None => link_scope_parent key parent s
  end.

(** [CarrierData::admits]: [tag] is the listener's scope, [base_filter] what
    the preserved filter answers for it. *)
Definition admits (parent : gmap Z Z) (key : option ScopeKey) (base_filter : option bool) (tag : option ScopeKey) : option bool :=
  match base_filter with
  | Some false => Some false
  | _ =>
      match tag with
      | None => Some true
      | Some tag => (fun chain => bool_decide (tag ∈ chain)) <$> scope_chain_of parent key
      end
  end.

(** ** Every walk ends *)

(** No key reaches itself: from every key the walk ends. *)
Definition acyclic (parent : gmap Z Z) : Prop := forall key, exists fuel chain, chain_from fuel parent (Some key) = Some chain.

Lemma chain_mono fuel fuel' parent cursor chain :
  fuel <= fuel' -> chain_from fuel parent cursor = Some chain -> chain_from fuel' parent cursor = Some chain.
Proof.
  revert fuel' cursor chain. induction fuel as [|fuel IH]; intros fuel' [k|] chain Hle; cbn [chain_from]; try done;
    destruct fuel' as [|fuel']; try lia; cbn [chain_from]; try done.
  intros (l & Hl & ->)%fmap_Some. apply fmap_Some. exists l. split; [|done]. apply IH; [lia|done].
Qed.

Lemma chain_head fuel parent k chain : chain_from fuel parent (Some k) = Some chain -> exists l, chain = k :: l.
Proof. destruct fuel; cbn [chain_from]; [done|]. intros (l & _ & ->)%fmap_Some. eauto. Qed.

(** A member of a chain has a chain of its own, the rest of it. *)
Lemma chain_suffix fuel parent cursor chain k :
  chain_from fuel parent cursor = Some chain -> k ∈ chain ->
  exists l l', chain = l ++ l' /\ chain_from fuel parent (Some k) = Some l'.
Proof.
  revert cursor chain. induction fuel as [|fuel IH]; intros [c|] chain; cbn [chain_from].
  - done.
  - intros [= <-] []%not_elem_of_nil.
  - intros (l & Hl & ->)%fmap_Some [->|Hk]%elem_of_cons.
    + exists [], (c :: l). split; [done|]. apply fmap_Some. by exists l.
    + destruct (IH _ _ Hl Hk) as (l1 & l2 & -> & H). exists (c :: l1), l2. split; [done|].
      exact (chain_mono fuel (S fuel) _ _ _ (Nat.le_succ_diag_r _) H).
  - intros [= <-] []%not_elem_of_nil.
Qed.

Lemma chain_unique fuel fuel' parent cursor c1 c2 :
  chain_from fuel parent cursor = Some c1 -> chain_from fuel' parent cursor = Some c2 -> c1 = c2.
Proof.
  intros H1 H2. apply (chain_mono _ (fuel + fuel')) in H1; [|lia]. apply (chain_mono _ (fuel + fuel')) in H2; [|lia]. congruence.
Qed.

Lemma chain_NoDup fuel parent cursor chain : chain_from fuel parent cursor = Some chain -> NoDup chain.
Proof.
  revert cursor chain. induction fuel as [|fuel IH]; intros [c|] chain; cbn [chain_from]; try done.
  - intros [= <-]. constructor.
  - intros (l & Hl & ->)%fmap_Some. constructor; [|by eapply IH]. intros Hc.
    destruct (chain_suffix _ _ _ _ _ Hl Hc) as (l1 & l2 & -> & H).
    assert (E : chain_from (S fuel) parent (Some c) = Some (c :: l1 ++ l2)) by (apply fmap_Some; by exists (l1 ++ l2)).
    pose proof (chain_unique _ _ _ _ _ _ H E) as Eq. apply (f_equal length) in Eq.
    cbn [length] in Eq. rewrite length_app in Eq. lia.
  - intros [= <-]. constructor.
Qed.

Lemma chain_linked fuel parent cursor chain :
  chain_from fuel parent cursor = Some chain -> forall k, k ∈ removelast chain -> is_Some (parent !! k).
Proof.
  revert cursor chain. induction fuel as [|fuel IH]; intros [c|] chain; cbn [chain_from]; try done.
  - intros [= <-] k []%not_elem_of_nil.
  - intros (l & Hl & ->)%fmap_Some k Hk. destruct l as [|x l]; [by apply elem_of_nil in Hk|].
    apply elem_of_cons in Hk as [->|Hk]; [|by eapply IH].
    unfold scope_parent_of in Hl. destruct (parent !! c) as [p|] eqn:E; [done|].
    destruct fuel; cbn [chain_from] in Hl; discriminate Hl.
  - intros [= <-] k []%not_elem_of_nil.
Qed.

Lemma chain_from_length fuel parent cursor chain :
  chain_from fuel parent cursor = Some chain -> chain_from (length chain) parent cursor = Some chain.
Proof.
  revert cursor chain. induction fuel as [|fuel IH]; intros [c|] chain; cbn [chain_from]; try done.
  - by intros [= <-].
  - intros (l & Hl & ->)%fmap_Some. cbn [length chain_from]. apply fmap_Some. exists l. split; [by apply IH|done].
  - by intros [= <-].
Qed.

(** The fuel is enough: only linked keys have a successor. *)
Lemma chain_fuel_enough fuel parent cursor chain :
  chain_from fuel parent cursor = Some chain -> chain_from (chain_fuel parent) parent cursor = Some chain.
Proof.
  intros H. apply (chain_mono (length chain)); [|by eapply chain_from_length].
  pose proof (chain_NoDup _ _ _ _ H) as Hnd. pose proof (chain_linked _ _ _ _ H) as Hl.
  unfold chain_fuel. destruct (decide (chain = [])) as [->|Hne]; [simpl; lia|].
  pose proof (app_removelast_last 0%Z Hne) as Ec.
  assert (Hlen : length chain = length (removelast chain) + 1) by (rewrite Ec at 1; by rewrite length_app).
  assert (length (removelast chain) <= size parent); [|lia].
  rewrite Ec in Hnd. apply NoDup_app in Hnd as (Hnd & _ & _).
  rewrite <- (size_list_to_set (C := gset Z)) by done. rewrite <- (size_dom (D := gset Z)).
  apply subseteq_size. intros k Hk%elem_of_list_to_set. apply elem_of_dom. by apply Hl.
Qed.

Lemma chain_insert fuel parent key p cursor chain :
  chain_from fuel parent cursor = Some chain -> key ∉ chain -> chain_from fuel (<[key := p]> parent) cursor = Some chain.
Proof.
  revert cursor chain. induction fuel as [|fuel IH]; intros [c|] chain; cbn [chain_from]; try done.
  intros (l & Hl & ->)%fmap_Some Hk. apply not_elem_of_cons in Hk as [Hne Hk]. apply fmap_Some. exists l. split; [|done].
  unfold scope_parent_of in *. rewrite lookup_insert_ne by done. by apply IH.
Qed.

Lemma acyclic_link parent key p chain :
  acyclic parent -> scope_chain_of parent (Some p) = Some chain -> key ∉ chain -> acyclic (<[key := p]> parent).
Proof.
  intros Ha Hp Hk. apply (chain_insert _ _ key p) in Hp; [|done].
  assert (H : forall fuel cursor l, chain_from fuel parent cursor = Some l ->
    exists l', chain_from (fuel + S (chain_fuel parent)) (<[key := p]> parent) cursor = Some l').
  { induction fuel as [|fuel IH]; intros [c|] l; cbn [chain_from]; try done; cbn [Nat.add chain_from]; [eauto| |eauto].
    intros (l0 & Hl & _)%fmap_Some. unfold scope_parent_of in *. destruct (decide (c = key)) as [->|Hne].
    - rewrite lookup_insert_eq. apply (chain_mono _ (fuel + S (chain_fuel parent))) in Hp; [|lia]. rewrite Hp. by eexists.
    - rewrite lookup_insert_ne by done. destruct (IH _ _ Hl) as (l' & ->). by eexists. }
  intros k. destruct (Ha k) as (fuel & l & Hl). destruct (H _ _ _ Hl) as (l' & Hl'). eauto.
Qed.

Inductive ScopeOp := SO_New | SO_Bind (key parent : ScopeKey) | SO_Rebind (key parent : ScopeKey).
Definition scope_step (s : Scopes) (op : ScopeOp) : option (Scopes * result unit ScopeError) :=
  match op with
  | SO_New => Some (fst (ScopeKey_new s), Ok tt)
  | SO_Bind key parent => bind_scope_parent key parent s
  | SO_Rebind key parent => rebind key parent s
  end.
(** The whole run; [None] when some walk does not end. *)
Fixpoint scope_run (s : Scopes) (ops : list ScopeOp) : option Scopes :=
  match ops with
  | [] => Some s
  | op :: ops => '(s, _) ← scope_step s op; scope_run s ops
  end.

Lemma acyclic_chain parent key : acyclic parent -> is_Some (scope_chain_of parent key).
Proof.
  intros Ha. destruct key as [key|]; [|by eexists]. destruct (Ha key) as (fuel & chain & H).
  exists chain. by eapply chain_fuel_enough.
Qed.

Lemma link_ends key parent s :
  acyclic (sc_parent s) -> exists s' r, link_scope_parent key parent s = Some (s', r) /\ acyclic (sc_parent s').
Proof.
  intros Ha. unfold link_scope_parent. destruct (acyclic_chain _ (Some parent) Ha) as (chain & Hc). rewrite Hc. cbn [mbind option_bind].
  destruct (decide (key ∈ chain)) as [Hk|Hk]; eexists _, _; (split; [done|]); [done|]. by eapply acyclic_link.
Qed.

Lemma scope_step_ends s op :
  acyclic (sc_parent s) -> exists s' r, scope_step s op = Some (s', r) /\ acyclic (sc_parent s').
Proof.
  intros Ha. destruct op as [|key parent|key parent]; cbn [scope_step].
  - by eexists _, _.
  - unfold bind_scope_parent. destruct (sc_parent s !! key); [by eexists _, _|]. by apply link_ends.
  - by apply link_ends.
Qed.

Lemma acyclic_empty : acyclic ∅.
Proof. intros key. exists 1, [key]. cbn. unfold scope_parent_of. by rewrite lookup_empty. Qed.

(** No sequence of binds and rebinds, accepted or refused, ever closes a
    parent cycle: every operation's own walk to the root ends within one more
    step than there are links, and so does, in the state reached, the walk of
    [scope_chain_of] and of [admits] from any key; the walk starts at the key,
    repeats no key and follows parent links. *)
Theorem scope_chains_end (ops : list ScopeOp) :
  exists s, scope_run Scopes_new ops = Some s /\
    forall key, exists chain, scope_chain_of (sc_parent s) (Some key) = Some (key :: chain) /\ NoDup (key :: chain)
      /\ (forall filter tag, is_Some (admits (sc_parent s) (Some key) filter tag)).
Proof.
  assert (H : forall s, acyclic (sc_parent s) -> exists s', scope_run s ops = Some s' /\ acyclic (sc_parent s')).
  { induction ops as [|op ops IH]; intros s Ha; cbn [scope_run]; [eauto|].
    destruct (scope_step_ends s op Ha) as (s1 & r & -> & Ha1). by apply IH. }
  destruct (H Scopes_new acyclic_empty) as (s & Hs & Ha). exists s. split; [done|]. intros key.
  destruct (acyclic_chain _ (Some key) Ha) as (chain & Hc). destruct (chain_head _ _ _ _ Hc) as (l & ->).
  exists l. split_and!; [done|by eapply chain_NoDup|].
  intros filter tag. unfold admits. rewrite Hc. destruct filter as [[]|], tag; eauto.
Qed.

(** * Entry tables *)

(** [NamedEntries]: insertion order; the undo of an insertion, spent at its
    first run, retains the entries of other names. *)
Section tables.
Context {V E : Type}.
Definition NamedEntries : Type := list (string * V).
Definition named_insert (duplicate_error : string -> E) (name : string) (value : V) (t : NamedEntries)
    : NamedEntries * result string E :=
  if existsb (fun e => bool_decide (e.1 = name)) t then (t, Err (duplicate_error name))
  else (t ++ [(name, value)], Ok name).
Definition named_undo (name : string) (t : NamedEntries) : NamedEntries :=
  base.filter (fun e => e.1 <> name) t.
Definition named_get (name : string) (t : NamedEntries) : option V :=
  snd <$> List.find (fun e => bool_decide (e.1 = name)) t.

(** [AnonymousEntries]: identified by a counter. *)
Record AnonymousEntries := mk_anonymous { an_next : Z; an_items : list (Z * V) }.
Definition AnonymousEntries_new : AnonymousEntries := mk_anonymous 0 [].
Definition anonymous_append (value : V) (t : AnonymousEntries) : AnonymousEntries * Z :=
  let id := u64_succ (an_next t) in (mk_anonymous id (an_items t ++ [(id, value)]), id).
Definition anonymous_undo (id : Z) (t : AnonymousEntries) : AnonymousEntries :=
  mk_anonymous (an_next t) (base.filter (fun e => e.1 <> id) (an_items t)).
Definition anonymous_values (t : AnonymousEntries) : list V := (an_items t).*2.

(** [merge]: a shadow keeps the original insertion position. *)
Fixpoint merge_entry (merged : NamedEntries) (name : string) (value : V) : NamedEntries :=
  match merged with
  | [] => [(name, value)]
  | (existing, v) :: merged =>
      if decide (existing = name) then (existing, value) :: merged else (existing, v) :: merge_entry merged name value
  end.
Definition merge_tables (global : NamedEntries) (chain : list NamedEntries) : NamedEntries :=
  foldl (fun merged t => foldl (fun merged e => merge_entry merged e.1 e.2) merged t) global chain.

Lemma named_get_cons name n v t : named_get name ((n, v) :: t) = if decide (n = name) then Some v else named_get name t.
Proof. unfold named_get. cbn [List.find fst]. case_bool_decide; case_decide; done. Qed.

Lemma merge_entry_get merged name value x :
  named_get x (merge_entry merged name value) = if decide (x = name) then Some value else named_get x merged.
Proof.
  induction merged as [|[n v] merged IH]; cbn [merge_entry].
  - rewrite named_get_cons. repeat case_decide; try congruence.
  - destruct (decide (n = name)) as [->|Hne]; rewrite !named_get_cons.
    + repeat case_decide; congruence.
    + rewrite IH. repeat case_decide; congruence.
Qed.

Lemma merge_entry_names merged name value :
  (merge_entry merged name value).*1 = merged.*1 ++ (if decide (name ∈ merged.*1) then [] else [name]).
Proof.
  induction merged as [|[n v] merged IH]; cbn [merge_entry].
  - rewrite decide_False by apply not_elem_of_nil. done.
  - destruct (decide (n = name)) as [->|Hne]; rewrite !fmap_cons; cbn [fst].
    + destruct (decide (name ∈ name :: merged.*1)) as [|[]]; [by rewrite app_nil_r|left].
    + rewrite IH. cbn [app]. f_equal. f_equal.
      destruct (decide (name ∈ merged.*1)) as [Hi|Hi], (decide (name ∈ n :: merged.*1)) as [Hj|Hj]; try done; exfalso.
      * apply Hj. by right.
      * apply elem_of_cons in Hj as [->|Hj]; done.
Qed.

Lemma named_get_snoc x t e : named_get x (t ++ [e]) = match named_get x t with Some v => Some v | None => if decide (e.1 = x) then Some e.2 else None end.
Proof.
  destruct e as [n v]. induction t as [|[m w] t IH]; cbn [app]; [by rewrite named_get_cons|].
  rewrite !named_get_cons, IH. by destruct (decide (m = x)).
Qed.

Lemma merge_table_get merged t x :
  NoDup t.*1 ->
  named_get x (foldl (fun merged e => merge_entry merged e.1 e.2) merged t)
  = match named_get x t with Some v => Some v | None => named_get x merged end.
Proof.
  induction t as [|e t IH] using rev_ind; [done|]. rewrite fmap_app. intros (Hnd & Hdis & _)%NoDup_app.
  rewrite foldl_app, named_get_snoc. cbn [foldl]. rewrite merge_entry_get, IH by done.
  destruct (decide (x = e.1)) as [->|Hne].
  - rewrite decide_True by done. destruct (named_get e.1 t) as [v|] eqn:Hg; [|done]. exfalso.
    unfold named_get in Hg. apply fmap_Some in Hg as ([n w] & Hf & _). apply List.find_some in Hf as [Hin Hn].
    apply bool_decide_eq_true in Hn. cbn in Hn. subst n. apply (Hdis e.1).
    + apply list_elem_of_fmap. exists (e.1, w). split; [done|]. by apply list_elem_of_In.
    + rewrite fmap_cons. left.
  - destruct (named_get x t); [done|]. by rewrite decide_False by congruence.
Qed.

(** The nearest table that has the name: the last one. *)
Definition nearest (x : string) (tables : list NamedEntries) : option V :=
  foldl (fun found t => match named_get x t with Some v => Some v | None => found end) None tables.

Lemma merge_table_names t merged : NoDup merged.*1 -> NoDup (foldl (fun merged e => merge_entry merged e.1 e.2) merged t).*1.
Proof.
  revert merged. induction t as [|e t IH]; intros merged Hnd; cbn [foldl]; [done|]. apply IH.
  rewrite merge_entry_names. destruct (decide (e.1 ∈ merged.*1)); [by rewrite app_nil_r|].
  apply NoDup_app. split_and!; [done|set_solver|apply NoDup_singleton].
Qed.

Lemma merge_tables_get x global chain :
  Forall (fun t : NamedEntries => NoDup t.*1) (global :: chain) ->
  named_get x (merge_tables global chain) = nearest x (global :: chain) /\ NoDup (merge_tables global chain).*1.
Proof.
  intros [Hg Hc]%Forall_cons. unfold merge_tables, nearest. cbn [foldl].
  assert (Hid : named_get x global = match named_get x global with Some v => Some v | None => None end) by by destruct (named_get x global).
  rewrite <- Hid. clear Hid. revert global Hg. induction Hc as [|t chain Ht _ IH]; intros global Hg; cbn [foldl]; [done|].
  rewrite <- merge_table_get by done. apply IH. by apply merge_table_names.
Qed.

Lemma named_get_elem (t : NamedEntries) n v : NoDup t.*1 -> named_get n t = Some v <-> (n, v) ∈ t.
Proof.
  induction t as [|[m w] t IH]; [by split; [|intros ?%elem_of_nil]|]. rewrite fmap_cons. intros [Hm Hnd]%NoDup_cons.
  rewrite named_get_cons, elem_of_cons. destruct (decide (m = n)) as [->|Hne].
  - split; [intros [= ->]; by left|]. intros [[= ->]|Hin]; [done|]. destruct Hm. apply list_elem_of_fmap. by exists (n, v).
  - rewrite IH by done. split; [by right|]. by intros [[= -> ->]|].
Qed.

Lemma named_insert_names (err : string -> E) name value t t' r :
  named_insert err name value t = (t', r) -> NoDup t.*1 -> NoDup t'.*1.
Proof.
  unfold named_insert. destruct (existsb _ t) eqn:Ee; intros [= <- <-] Hnd; [done|].
  rewrite fmap_app. apply NoDup_app. split_and!; [done| |apply NoDup_singleton].
  intros n Hn Hn'. apply list_elem_of_singleton in Hn'. cbn in Hn'. subst n. apply list_elem_of_fmap in Hn as (e & En & He).
  apply not_true_iff_false in Ee. apply Ee, existsb_exists. exists e. split; [by apply list_elem_of_In|by apply bool_decide_eq_true].
Qed.
End tables.
Arguments NamedEntries V : clear implicits.
Arguments AnonymousEntries V : clear implicits.
