(* ===== verification/SystemPrompt.v ===== *)
(** The [systemPrompt] service, [crates/dsh/system-prompt/src/lib.rs] and
    [invariant.rs]: the layered registry of prompt inputs, one assembly, tool
    ordering, and the rendering of [{{variable}}] templates.

    A provider is a function of the assembly's context.  The listeners of the
    assemble waterfall are a parameter.  A diagnostic carries the values the
    message is made of. *)
From Stdlib Require Import ZArith Lia Ascii String Sorting.Sorted.
From stdpp Require Import base tactics numbers list gmap strings.
From S2P Require Import Prelude Json Text Llm Scope.
Open Scope keel_scope.

Definition PERSONA_SECTION : string := "deployment:persona".
Definition TOOL_ORDER_REST : string := "<unlisted-tools>".
Definition HARNESS_IDENTITY : string := "You are an AI agent powered by DeepSeek Harness.".
Definition open_braces : string := "{{".
Definition close_braces : string := "}}".

Inductive PromptError :=
| MalformedReference (snippet kind owner : string)
| MalformedName (name kind owner : string)
| UnknownVariable (name kind owner : string) (known : list string)
| ValuelessVariable (name kind owner : string)
| DuplicateInOrder (name : string)
| NoRestEntry
| ReservedToolName
| UnregisteredTools (names known : list string)
| MultipleComplete (names : list string)
| NotFinite (kind name : string)
| AlreadyRegistered (kind name : string)
| InvalidVariableName (name : string)
| AssembleListener (message : string).

(** * Data *)

Record AssembleContext (P : Type) := mk_assemble_context { ac_scope : option ScopeKey; ac_payload : option P }.
Arguments mk_assemble_context {P}.
Arguments ac_scope {P}.
Arguments ac_payload {P}.

Record AssembledSection := mk_assembled { as_name : string; as_text : string }.
Record PromptAssembly := mk_assembly {
  pa_sections : list AssembledSection;
  pa_contexts : list AssembledSection;
  pa_tools : list ToolSchema;
  pa_variables : gmap string (option string);
}.

(** [ContextSnapshotSection]. *)
Abbreviation ContextSnapshotSection := (string * string)%type (only parsing).

(** * Rendering *)

Definition ascii_between (lo hi : nat) (c : ascii) : bool := (lo <=? nat_of_ascii c) && (nat_of_ascii c <=? hi).
Definition is_lower (c : ascii) : bool := ascii_between 97 122 c.
Definition is_name_char (c : ascii) : bool := is_lower c || ascii_between 48 57 c || ascii_between 95 95 c.
(** A continuation byte is no ASCII character, so bytes and characters agree. *)
Definition is_variable_name (name : string) : bool :=
  match name with
  | EmptyString => false
  | String c s => is_lower c && forallb is_name_char (String.list_ascii_of_string s)
  end.

(** [s.find(['{', '}'])]. *)
Definition is_brace (c : ascii) : bool := ascii_between 123 123 c || ascii_between 125 125 c.
Fixpoint find_brace (s : string) : option nat :=
  match s with
  | EmptyString => None
  | String c s' => if is_brace c then Some 0 else S <$> find_brace s'
  end.

Definition group_at (text : string) : option (string * nat) :=
  rest ← strip_prefix open_braces text;
  special ← find_brace rest;
  if starts_with close_braces (str_drop special rest) then Some (str_take special rest, 2 + special + 2) else None.

(** The names of a [BTreeMap], in order. *)
Definition sorted_keys {A} (m : gmap string A) : list string := sort_by string_leb (map_to_list m).*1.

(** The loop: [rest] is [text[last..]]; [None] when the fuel ends. *)
Fixpoint interpolate_loop (fuel : nat) (owner kind : string) (variables : gmap string (option string))
    (rest out : string) : option (result string PromptError) :=
  match fuel with
  | O => None
  | S fuel =>
      match str_find open_braces rest with
      | None => Some (Ok (out +:+ rest))
      | Some found =>
          let before := str_take found rest in
          let at_open := str_drop found rest in
          match group_at at_open with
          | None =>
              let after := str_drop 2 at_open in
              if contains close_braces after
              then Some (Err (MalformedReference (chars_take 16 at_open) kind owner))
              else interpolate_loop fuel owner kind variables after (out +:+ before +:+ open_braces)
          | Some (name, len) =>
              if negb (is_variable_name name) then Some (Err (MalformedName name kind owner))
              else match variables !! name with
                   | None => Some (Err (UnknownVariable name kind owner (sorted_keys variables)))
                   | Some None => Some (Err (ValuelessVariable name kind owner))
                   | Some (Some value) =>
                       interpolate_loop fuel owner kind variables (str_drop len at_open) (out +:+ before +:+ value)
                   end
          end
      end
  end.
Definition interpolate (owner text : string) (variables : gmap string (option string)) (kind : string)
    : option (result string PromptError) :=
  interpolate_loop (S (String.length text)) owner kind variables text EmptyString.

Definition section_separator : string := String newline (String newline EmptyString).

(** The loops of [render_prompt] and [render_context_sections]. *)
Fixpoint rendered (kind : string) (variables : gmap string (option string)) (entries : list AssembledSection)
    : option (result (list ContextSnapshotSection) PromptError) :=
  match entries with
  | [] => Some (Ok [])
  | entry :: entries =>
      r ← interpolate (as_name entry) (as_text entry) variables kind;
      match r with
      | Err e => Some (Err e)
      | Ok text =>
          rest ← rendered kind variables entries;
          Some (let? rest := rest in
                Ok (if decide (text = EmptyString) then rest else (as_name entry, text) :: rest))
      end
  end.
Definition render_prompt (assembly : PromptAssembly) : option (result string PromptError) :=
  r ← rendered "section" (pa_variables assembly) (pa_sections assembly);
  Some (let? texts := r in Ok (join section_separator texts.*2)).
Definition render_context_sections (assembly : PromptAssembly) : option (result (list ContextSnapshotSection) PromptError) :=
  rendered "context" (pa_variables assembly) (pa_contexts assembly).
Definition context_preamble : string :=
  "Current runtime context. This snapshot supersedes earlier runtime-context snapshots.".
Definition join_context_sections (sections : list ContextSnapshotSection) : string :=
  let body := join section_separator sections.*2 in
  if decide (body = EmptyString) then EmptyString else context_preamble +:+ section_separator +:+ body.
Definition render_context_snapshot (assembly : PromptAssembly) : option (result string PromptError) :=
  r ← render_context_sections assembly; Some (let? sections := r in Ok (join_context_sections sections)).

(** * Tool order *)

Definition validate_tool_order (tool_order : option (list string)) : result (option (list string)) PromptError :=
  match tool_order with
  | None => Ok None
  | Some order =>
      match first_duplicate ∅ order with
      | Some name => Err (DuplicateInOrder name)
      | None => if decide (TOOL_ORDER_REST ∈ order) then Ok (Some order) else Err NoRestEntry
      end
  end.

Definition tool_leb (a b : ToolSchema) : bool := string_leb (ts_name a) (ts_name b).
(** One entry of the configured order; the first marker takes the rest. *)
Definition order_step (tools : list ToolSchema) (st : list ToolSchema * list ToolSchema) (name : string)
    : list ToolSchema * list ToolSchema :=
  let '(done, rest) := st in
  if decide (name = TOOL_ORDER_REST) then (done ++ rest, [])
  else (done ++ base.filter (fun t => ts_name t = name) tools, rest).
Definition order_tools (tools : list ToolSchema) (tool_order : option (list string)) (known : gset string)
    : result (list ToolSchema) PromptError :=
  if existsb (fun t => bool_decide (ts_name t = TOOL_ORDER_REST)) tools then Err ReservedToolName
  else
    match tool_order with
    | None => Ok (sort_by tool_leb tools)
    | Some order =>
        match base.filter (fun name => name <> TOOL_ORDER_REST /\ name ∉ known) order with
        | [] =>
            let rest := sort_by tool_leb (base.filter (fun t => ts_name t ∉ order) tools) in
            Ok (fst (foldl (order_step tools) ([], rest) order))
        | unknown => Err (UnregisteredTools unknown (sort_by string_leb (elements known)))
        end
    end.

(** * The assembly invariant *)

Inductive AssemblyViolation :=
| EmptySectionName | DuplicateSection (name : string)
| EmptyContextName | DuplicateContext (name : string)
| EmptyToolName | BadVariableName (name : string).

Fixpoint check_names (empty : AssemblyViolation) (duplicated : string -> AssemblyViolation) (seen : gset string) (names : list string)
    : result unit AssemblyViolation :=
  match names with
  | [] => Ok tt
  | name :: names =>
      if decide (name = EmptyString) then Err empty
      else if decide (name ∈ seen) then Err (duplicated name)
      else check_names empty duplicated ({[name]} ∪ seen) names
  end.
(** [validate_assembly]: the first violation wins. *)
Definition validate_assembly (assembly : PromptAssembly) : result unit AssemblyViolation :=
  let? _ := check_names EmptySectionName DuplicateSection ∅ (as_name <$> pa_sections assembly) in
  let? _ := check_names EmptyContextName DuplicateContext ∅ (as_name <$> pa_contexts assembly) in
  if existsb (fun t => bool_decide (ts_name t = EmptyString)) (pa_tools assembly) then Err EmptyToolName
  else match base.filter (fun name => is_variable_name name = false) (sorted_keys (pa_variables assembly)) with
       | [] => Ok tt
       | name :: _ => Err (BadVariableName name)
       end.

(** * The registry *)

Section registry.
Context {P : Type}.

Record PromptSection := mk_section { ps_name : string; ps_order : f64; ps_text : AssembleContext P -> string; ps_complete : bool }.
Record PromptContext := mk_context { px_name : string; px_order : f64; px_text : AssembleContext P -> string }.
Record ToolProviderResult := mk_provided { tp_schemas : list ToolSchema; tp_known_names : option (list string) }.

Record PromptLayer := mk_layer {
  ly_sections : NamedEntries PromptSection;
  ly_contexts : NamedEntries PromptContext;
  ly_suppressors : AnonymousEntries unit;
  ly_tool_providers : AnonymousEntries (AssembleContext P -> ToolProviderResult);
  ly_variables : NamedEntries (AssembleContext P -> option string);
}.
Definition PromptLayer_new : PromptLayer := mk_layer [] [] AnonymousEntries_new AnonymousEntries_new [].
Definition layer_is_empty (l : PromptLayer) : bool :=
  match ly_sections l, ly_contexts l, an_items (ly_suppressors l), an_items (ly_tool_providers l), ly_variables l with
  | [], [], [], [], [] => true
  | _, _, _, _, _ => false
  end.

Record SystemPrompt := mk_system_prompt {
  sp_global : PromptLayer;
  sp_scoped : gmap Z PromptLayer;
  sp_tool_order : option (list string);
}.

(** [ScopedLayers::effect]: [action] runs on the layer of the registering
    scope, which is created for it and reclaimed if the action fails. *)
Definition effect {A} (scope : option ScopeKey) (action : PromptLayer -> PromptLayer * result A PromptError) (s : SystemPrompt)
    : SystemPrompt * result A PromptError :=
  match scope with
  | None => let '(l, r) := action (sp_global s) in (mk_system_prompt l (sp_scoped s) (sp_tool_order s), r)
  | Some key =>
      let existing := sp_scoped s !! key in
      let '(l, r) := action (default PromptLayer_new existing) in
      match r with
      | Ok _ => (mk_system_prompt (sp_global s) (<[key := l]> (sp_scoped s)) (sp_tool_order s), r)
      | Err _ =>
          let scoped := if bool_decide (existing = None) && layer_is_empty l then delete key (sp_scoped s) else <[key := l]> (sp_scoped s) in
          (mk_system_prompt (sp_global s) scoped (sp_tool_order s), r)
      end
  end.
(** The rollback of an effect. *)
Definition rollback (scope : option ScopeKey) (undo : PromptLayer -> PromptLayer) (s : SystemPrompt) : SystemPrompt :=
  match scope with
  | None => mk_system_prompt (undo (sp_global s)) (sp_scoped s) (sp_tool_order s)
  | Some key =>
      match sp_scoped s !! key with
      | None => s
      | Some l =>
          let l := undo l in
          mk_system_prompt (sp_global s) (if layer_is_empty l then delete key (sp_scoped s) else <[key := l]> (sp_scoped s)) (sp_tool_order s)
      end
  end.

Definition set_sections v l := mk_layer v (ly_contexts l) (ly_suppressors l) (ly_tool_providers l) (ly_variables l).
Definition set_contexts v l := mk_layer (ly_sections l) v (ly_suppressors l) (ly_tool_providers l) (ly_variables l).
Definition set_suppressors v l := mk_layer (ly_sections l) (ly_contexts l) v (ly_tool_providers l) (ly_variables l).
Definition set_tool_providers v l := mk_layer (ly_sections l) (ly_contexts l) (ly_suppressors l) v (ly_variables l).
Definition set_variables v l := mk_layer (ly_sections l) (ly_contexts l) (ly_suppressors l) (ly_tool_providers l) v.

Definition register_section (scope : option ScopeKey) (x : PromptSection) (s : SystemPrompt) : SystemPrompt * result string PromptError :=
  if negb (f64_is_finite (ps_order x)) then (s, Err (NotFinite "section" (ps_name x)))
  else effect scope (fun l => let '(t, r) := named_insert (AlreadyRegistered "section") (ps_name x) x (ly_sections l) in (set_sections t l, r)) s.
Definition register_context (scope : option ScopeKey) (x : PromptContext) (s : SystemPrompt) : SystemPrompt * result string PromptError :=
  if negb (f64_is_finite (px_order x)) then (s, Err (NotFinite "context" (px_name x)))
  else effect scope (fun l => let '(t, r) := named_insert (AlreadyRegistered "context") (px_name x) x (ly_contexts l) in (set_contexts t l, r)) s.
Definition suppress_runtime_context (scope : option ScopeKey) (s : SystemPrompt) : SystemPrompt * result Z PromptError :=
  effect scope (fun l => let '(t, id) := anonymous_append tt (ly_suppressors l) in (set_suppressors t l, Ok id)) s.
Definition register_tools (scope : option ScopeKey) (provider : AssembleContext P -> ToolProviderResult) (s : SystemPrompt)
    : SystemPrompt * result Z PromptError :=
  effect scope (fun l => let '(t, id) := anonymous_append provider (ly_tool_providers l) in (set_tool_providers t l, Ok id)) s.
Definition register_variable (scope : option ScopeKey) (name : string) (provider : AssembleContext P -> option string) (s : SystemPrompt)
    : SystemPrompt * result string PromptError :=
  if negb (is_variable_name name) then (s, Err (InvalidVariableName name))
  else effect scope (fun l => let '(t, r) := named_insert (AlreadyRegistered "variable") name provider (ly_variables l) in (set_variables t l, r)) s.

(** [SystemPrompt::new]: the built-in registrations on the global layer. *)
Record Config := mk_config { cf_identity : bool; cf_runtime_context : bool; cf_persona : string; cf_tool_order : option (list string) }.
Definition SystemPrompt_new (config : Config) : result SystemPrompt PromptError :=
  let? tool_order := validate_tool_order (cf_tool_order config) in
  let s := mk_system_prompt PromptLayer_new ∅ tool_order in
  let? s :=
    if cf_identity config
    then let '(s, r) := register_section None (mk_section "harness:identity" (f64_of_Z (-100)) (fun _ => HARNESS_IDENTITY) false) s in
         let? _ := r in Ok s
    else Ok s in
  let '(s, r) := register_section None (mk_section PERSONA_SECTION f64_zero (fun _ => cf_persona config) false) s in
  let? _ := r in
  if cf_runtime_context config then Ok s
  else let '(s, r) := suppress_runtime_context None s in let? _ := r in Ok s.

(** * One assembly *)

(** [f64::total_cmp] on the finite orders registration admits. *)
Definition total_leb (a b : f64) : bool :=
  if f64_eqb a b then match a, b with
                      | SpecFloat.S754_zero sa, SpecFloat.S754_zero sb => sa || negb sb
                      | _, _ => true
                      end
  else f64_ltb a b.
Definition section_leb (a b : PromptSection) : bool := total_leb (ps_order a) (ps_order b).
Definition context_leb (a b : PromptContext) : bool := total_leb (px_order a) (px_order b).

(** [chain_layers]: existing overlays, farthest ancestor first. *)
Definition chain_layers (parent : gmap Z Z) (scope : option ScopeKey) (s : SystemPrompt) : option (list PromptLayer) :=
  (fun chain => omap (fun key => sp_scoped s !! key) (reverse chain)) <$> scope_chain_of parent scope.

Definition collect_variables (context : AssembleContext P) (variables : gmap string (option string))
    (table : NamedEntries (AssembleContext P -> option string)) : gmap string (option string) :=
  foldl (fun variables e => <[e.1 := e.2 context]> variables) variables table.

Definition collect_tools (context : AssembleContext P) (st : list ToolSchema * gset string)
    (provider : AssembleContext P -> ToolProviderResult) : list ToolSchema * gset string :=
  let r := provider context in
  (st.1 ++ tp_schemas r, st.2 ∪ list_to_set (default (ts_name <$> tp_schemas r) (tp_known_names r))).

Definition is_suppressed (layers : list PromptLayer) : bool :=
  existsb (fun l => negb (bool_decide (an_items (ly_suppressors l) = []))) layers.

Definition assembled_section (context : AssembleContext P) (x : PromptSection) : AssembledSection :=
  mk_assembled (ps_name x) (ps_text x context).
Definition assembled_context (context : AssembleContext P) (x : PromptContext) : AssembledSection :=
  mk_assembled (px_name x) (px_text x context).

(** [None]: the walk to the root scope does not end. *)
Definition assemble (waterfall : PromptAssembly -> result PromptAssembly PromptError) (parent : gmap Z Z)
    (context : AssembleContext P) (s : SystemPrompt) : option (result PromptAssembly PromptError) :=
  chain ← chain_layers parent (ac_scope context) s;
  let layers := sp_global s :: chain in
  let suppressed := is_suppressed layers in
  let variables := foldl (collect_variables context) ∅ (ly_variables <$> layers) in
  let section_by_name := merge_tables (ly_sections (sp_global s)) (ly_sections <$> chain) in
  let context_by_name := merge_tables (ly_contexts (sp_global s)) (ly_contexts <$> chain) in
  let providers := concat ((fun l => anonymous_values (ly_tool_providers l)) <$> layers) in
  let '(collected, known) := foldl (collect_tools context) ([], ∅) providers in
  let definitions := sort_by section_leb section_by_name.*2 in
  let complete_definitions := base.filter (fun x => ps_complete x = true) definitions in
  Some (
    if 1 <? length complete_definitions then Err (MultipleComplete (ps_name <$> complete_definitions))
    else
      let complete_section := assembled_section context <$> last complete_definitions in
      let sections := assembled_section context <$> definitions in
      let contexts := if suppressed then [] else assembled_context context <$> sort_by context_leb context_by_name.*2 in
      let? tools := order_tools collected (sp_tool_order s) known in
      let? transformed := waterfall (mk_assembly sections contexts tools variables) in
      if bool_decide (complete_section = None) && negb suppressed then Ok transformed
      else Ok (mk_assembly (match complete_section with Some x => [x] | None => pa_sections transformed end)
                 (if suppressed then [] else pa_contexts transformed) (pa_tools transformed) (pa_variables transformed))).

End registry.
Arguments PromptSection P : clear implicits.
Arguments PromptContext P : clear implicits.
Arguments PromptLayer P : clear implicits.
Arguments SystemPrompt P : clear implicits.

(** * Templates *)

Lemma starts_with_length p s : starts_with p s = true -> String.length p <= String.length s.
Proof. intros (t & ->)%starts_with_spec. rewrite str_length_app. lia. Qed.


(** The fuel of the loop is never the limit. *)
Lemma interpolate_loop_total fuel owner kind variables rest out :
  String.length rest < fuel -> is_Some (interpolate_loop fuel owner kind variables rest out).
Proof.
  revert rest out. induction fuel as [|fuel IH]; intros rest out Hf; [lia|]. cbn [interpolate_loop].
  destruct (str_find open_braces rest) as [found|] eqn:Ef; [|eauto]. cbv zeta.
  apply str_find_Some, starts_with_length in Ef. rewrite str_length_drop in Ef. change (String.length open_braces) with 2 in Ef.
  destruct (group_at (str_drop found rest)) as [[name len]|] eqn:Eg.
  - destruct (negb _); [eauto|]. destruct (variables !! name) as [[value|]|]; [|eauto|eauto].
    apply IH. rewrite !str_length_drop. unfold group_at in Eg.
    apply bind_Some in Eg as (t & _ & Eg). apply bind_Some in Eg as (special & _ & Eg).
    destruct (starts_with _ _); [|done]. injection Eg as _ <-. lia.
  - destruct (contains _ _); [eauto|]. apply IH. rewrite !str_length_drop. lia.
Qed.

(** A template: literal text and references. *)
Inductive Piece := Lit (text : string) | Ref (name : string).
Definition spell_piece (p : Piece) : string :=
  match p with Lit text => text | Ref name => open_braces +:+ name +:+ close_braces end.
Definition spell (ps : list Piece) : string := concat_strings (spell_piece <$> ps).

(** Literal text without an opening brace; a name without braces. *)
Fixpoint no_open (s : string) : bool :=
  match s with EmptyString => true | String c s => negb (ascii_between 123 123 c) && no_open s end.
Definition piece_ok (p : Piece) : bool :=
  match p with Lit text => no_open text | Ref name => bool_decide (find_brace name = None) end.

Definition lookup_variable (owner kind : string) (variables : gmap string (option string)) (name : string) : result string PromptError :=
  if negb (is_variable_name name) then Err (MalformedName name kind owner)
  else match variables !! name with
       | None => Err (UnknownVariable name kind owner (sorted_keys variables))
       | Some None => Err (ValuelessVariable name kind owner)
       | Some (Some value) => Ok value
       end.
(** The value of a template: the pieces' values in order, or the error of the
    first reference that has none. *)
Fixpoint template_value (owner kind : string) (variables : gmap string (option string)) (ps : list Piece) : result string PromptError :=
  match ps with
  | [] => Ok EmptyString
  | p :: ps =>
      let? v := match p with Lit text => Ok text | Ref name => lookup_variable owner kind variables name end in
      let? rest := template_value owner kind variables ps in
      Ok (v +:+ rest)
  end.

Lemma no_open_app s t : no_open (s +:+ t) = no_open s && no_open t.
Proof. induction s as [|c s IH]; [done|]. rewrite str_app_cons. cbn [no_open]. by rewrite IH, andb_assoc. Qed.

Lemma open_brace_code c : ascii_between 123 123 c = true <-> c = "{"%char.
Proof.
  unfold ascii_between. rewrite andb_true_iff, !Nat.leb_le. split; [|by intros ->].
  intros H. rewrite <- (ascii_nat_embedding c). by replace (nat_of_ascii c) with 123 by lia.
Qed.

Lemma starts_with_no_open c s : ascii_between 123 123 c = false -> starts_with open_braces (String c s) = false.
Proof.
  intros H. unfold open_braces. cbn [starts_with]. destruct (ascii_dec _ c) as [<-|]; [|done]. discriminate H.
Qed.

Lemma str_find_skip pre s : no_open pre = true -> str_find open_braces (pre +:+ s) = Nat.add (String.length pre) <$> str_find open_braces s.
Proof.
  induction pre as [|c pre IH]; cbn [no_open]; [intros _; rewrite str_app_nil_l; by destruct (str_find open_braces s)|].
  intros [Hc Hp]%andb_true_iff. apply negb_true_iff in Hc. rewrite str_app_cons.
  change (str_find open_braces (String c (pre +:+ s))) with
    (if starts_with open_braces (String c (pre +:+ s)) then Some 0 else S <$> str_find open_braces (pre +:+ s)).
  rewrite starts_with_no_open, IH by done. by destruct (str_find open_braces s).
Qed.

Lemma str_find_none pre : no_open pre = true -> str_find open_braces pre = None.
Proof. intros H. rewrite <- (str_app_nil_r pre), str_find_skip by done. done. Qed.

Lemma find_brace_name name s : find_brace name = None -> find_brace (name +:+ close_braces +:+ s) = Some (String.length name).
Proof.
  induction name as [|c name IH]; cbn [find_brace]; [done|]. rewrite str_app_cons. cbn [find_brace].
  destruct (is_brace c); [done|]. intros H%fmap_None. by rewrite IH.
Qed.

Lemma str_take_app s t : str_take (String.length s) (s +:+ t) = s.
Proof. induction s as [|c s IH]; [by destruct t|]. rewrite str_app_cons. cbn. by rewrite IH. Qed.

Lemma group_at_ref name s :
  find_brace name = None ->
  group_at (open_braces +:+ name +:+ close_braces +:+ s) = Some (name, String.length (open_braces +:+ name +:+ close_braces)).
Proof.
  intros H. unfold group_at. rewrite (proj2 (strip_prefix_Some _ _ _) eq_refl). cbn [mbind option_bind].
  rewrite find_brace_name by done. cbn [mbind option_bind]. rewrite str_drop_app, str_take_app.
  rewrite (proj2 (starts_with_spec _ _)) by (by exists s). rewrite !str_length_app. done.
Qed.


Lemma interpolate_template fuel owner kind variables pre ps out :
  no_open pre = true -> forallb piece_ok ps = true -> String.length (pre +:+ spell ps) < fuel ->
  interpolate_loop fuel owner kind variables (pre +:+ spell ps) out
  = Some (let? v := template_value owner kind variables ps in Ok (out +:+ pre +:+ v)).
Proof.
  revert fuel pre out. induction ps as [|p ps IH]; intros fuel pre out Hpre Hps Hf.
  { destruct fuel as [|fuel]; [lia|]. cbn [interpolate_loop]. change (spell []) with EmptyString. rewrite !str_app_nil_r.
    rewrite str_find_none by done. cbn. by rewrite !str_app_nil_r. }
  cbn [forallb] in Hps. apply andb_true_iff in Hps as [Hp Hps].
  change (spell (p :: ps)) with (spell_piece p +:+ spell ps) in *. destruct p as [text|name]; cbn [piece_ok spell_piece] in *.
  - rewrite str_app_assoc in Hf |- *. rewrite IH; [|by rewrite no_open_app, Hpre|done|done].
    cbn [template_value result_bind]. destruct (template_value _ _ _ ps); cbn [result_bind]; [|done].
    by rewrite !str_app_assoc.
  - apply bool_decide_eq_true in Hp. destruct fuel as [|fuel]; [lia|]. cbn [interpolate_loop].
    rewrite str_find_skip by done. rewrite <- !(str_app_assoc open_braces), <- (str_app_assoc name), str_find_self. cbn [fmap option_fmap option_map].
    rewrite Nat.add_0_r. cbv zeta. rewrite str_drop_app, str_take_app, group_at_ref by done.
    cbn [template_value]. unfold lookup_variable. destruct (negb (is_variable_name name)); [done|].
    destruct (variables !! name) as [[value|]|]; [|done|done]. cbn [result_bind].
    rewrite !str_app_assoc, <- (str_app_assoc open_braces), str_drop_app.
    rewrite <- (str_app_nil_l (spell ps)), IH; [|done|done|].
    + destruct (template_value _ _ _ ps); cbn [result_bind]; [|done]. rewrite str_app_nil_l, !str_app_assoc. done.
    + rewrite str_app_nil_l. rewrite !str_length_app in Hf. cbn in Hf. lia.
Qed.

(** Rendering always answers, on any text, and a template of literal text
    and references is rendered by its meaning: the literals as they are, every
    reference by its variable's value, which is not scanned again, and the
    first reference that is malformed, unregistered or without a value gives
    that error. *)
Theorem template_rendered owner kind (variables : gmap string (option string)) :
  (forall text, is_Some (interpolate owner text variables kind))
  /\ forall ps, forallb piece_ok ps = true ->
     interpolate owner (spell ps) variables kind = Some (template_value owner kind variables ps).
Proof.
  split.
  - intros text. apply interpolate_loop_total. lia.
  - intros ps Hps. unfold interpolate. rewrite <- (str_app_nil_l (spell ps)), interpolate_template; [|done|done|lia].
    by destruct (template_value owner kind variables ps).
Qed.

(** * Tool order *)

(** The entry of the order a tool goes to, and its place. *)
Definition order_entry (order : list string) (t : ToolSchema) : string :=
  if decide (ts_name t ∈ order) then ts_name t else TOOL_ORDER_REST.
Definition order_place (order : list string) (t : ToolSchema) : nat :=
  default (length order) (position (fun name => bool_decide (name = order_entry order t)) order).

Section order.
Context (tools : list ToolSchema) (rest : list ToolSchema).
Definition order_chunk (name : string) : list ToolSchema :=
  if decide (name = TOOL_ORDER_REST) then rest else base.filter (fun t => ts_name t = name) tools.

Lemma order_steps_plain order d r :
  TOOL_ORDER_REST ∉ order -> foldl (order_step tools) (d, r) order = (d ++ concat (order_chunk <$> order), r).
Proof.
  revert d. induction order as [|name order IH]; intros d Hn; cbn [foldl]; [by rewrite app_nil_r|].
  apply not_elem_of_cons in Hn as [Hne Hn]. unfold order_step at 2. rewrite decide_False by done. rewrite IH by done.
  rewrite fmap_cons. cbn [concat]. unfold order_chunk at 2. rewrite decide_False by done. by rewrite app_assoc.
Qed.

Lemma order_steps order d :
  NoDup order -> fst (foldl (order_step tools) (d, rest) order) = d ++ concat (order_chunk <$> order).
Proof.
  revert d. induction order as [|name order IH]; intros d Hnd; cbn [foldl]; [by rewrite app_nil_r|].
  apply NoDup_cons in Hnd as [Hn Hnd]. unfold order_step at 2. rewrite fmap_cons. cbn [concat]. unfold order_chunk at 1.
  destruct (decide (name = TOOL_ORDER_REST)) as [->|Hne].
  - rewrite order_steps_plain by done. cbn [fst]. by rewrite app_assoc.
  - rewrite IH by done. by rewrite app_assoc.
Qed.
End order.

(** Chunks selected by a key partition the list. *)
Lemma partition_permutation {A K} `{EqDecision K} (f : A -> K) (ks : list K) l :
  NoDup ks -> concat ((fun k => base.filter (fun x => f x = k) l) <$> ks) ≡ₚ base.filter (fun x => f x ∈ ks) l.
Proof.
  induction ks as [|k ks IH]; intros Hnd.
  - cbn [fmap list_fmap concat]. rewrite filter_none; [done|]. intros x _ H%elem_of_nil. done.
  - apply NoDup_cons in Hnd as [Hk Hnd]. rewrite fmap_cons. cbn [concat]. rewrite IH by done. clear IH.
    induction l as [|x l IH]; [done|]. rewrite !filter_cons.
    destruct (decide (f x = k)) as [E|E], (decide (f x ∈ ks)) as [Hi|Hi], (decide (f x ∈ k :: ks)) as [Hj|Hj];
      try (exfalso; set_solver).
    + cbn [app]. by rewrite IH.
    + by rewrite <- Permutation_middle, IH.
    + exact IH.
Qed.

Lemma chunks_sorted {A} (chunk : string -> list A) (place : A -> nat) order pre suf :
  order = pre ++ suf -> NoDup order ->
  (forall pre' name suf' x, order = pre' ++ name :: suf' -> x ∈ chunk name -> place x = length pre') ->
  StronglySorted (fun x y => place x <= place y) (concat (chunk <$> suf))
  /\ Forall (fun x => length pre <= place x) (concat (chunk <$> suf)).
Proof.
  revert pre. induction suf as [|name suf IH]; intros pre E Hnd Hp; [split; constructor|].
  destruct (IH (pre ++ [name])) as [Hs Hf]; [by rewrite <- app_assoc|done|done|]. rewrite fmap_cons. cbn [concat].
  assert (Hc : Forall (fun x => place x = length pre) (chunk name)).
  { apply Forall_forall. intros x Hx. by eapply Hp. }
  rewrite length_app in Hf. cbn [length] in Hf. split.
  - induction Hc as [|x l Hx Hl IHl]; [done|]. cbn [app]. constructor; [done|]. apply Forall_app. split.
    + eapply Forall_impl; [exact Hl|]. intros y Hy. cbn in Hy. lia.
    + eapply Forall_impl; [exact Hf|]. intros y Hy. cbn in Hy. lia.
  - apply Forall_app. split; (eapply Forall_impl; [eassumption|]); intros y Hy; cbn in Hy; lia.
Qed.

Lemma filter_order_entry order name tools :
  TOOL_ORDER_REST ∈ order -> Forall (fun t => ts_name t <> TOOL_ORDER_REST) tools -> name ∈ order -> name <> TOOL_ORDER_REST ->
  base.filter (fun t => ts_name t = name) tools = base.filter (fun t => order_entry order t = name) tools.
Proof.
  intros Hr Ht Hn Hne. apply filter_ext_on. intros t Hin. unfold order_entry. case_decide as Hd; [done|].
  split; [|congruence]. intros <-. done.
Qed.

Lemma order_chunk_entries order tools name :
  TOOL_ORDER_REST ∈ order -> Forall (fun t => ts_name t <> TOOL_ORDER_REST) tools -> name ∈ order ->
  order_chunk tools (sort_by tool_leb (base.filter (fun t => ts_name t ∉ order) tools)) name
  ≡ₚ base.filter (fun t => order_entry order t = name) tools.
Proof.
  intros Hr Ht Hn. unfold order_chunk. destruct (decide (name = TOOL_ORDER_REST)) as [->|Hne].
  - rewrite sort_by_permutation. apply reflexive_eq, filter_ext_on. intros t Hin. rewrite Forall_forall in Ht.
    specialize (Ht t Hin). unfold order_entry. case_decide as Hd; naive_solver.
  - by rewrite (filter_order_entry order).
Qed.

Lemma valid_order o order : validate_tool_order o = Ok (Some order) -> NoDup order /\ TOOL_ORDER_REST ∈ order.
Proof.
  unfold validate_tool_order. destruct o as [o|]; [|done]. destruct (first_duplicate ∅ o) eqn:Ed; [done|].
  destruct (decide (TOOL_ORDER_REST ∈ o)) as [Hr|]; [|done]. intros [= <-]. by apply first_duplicate_None in Ed as [Hnd _].
Qed.

Lemma tool_leb_total a b : tool_leb a b = true \/ tool_leb b a = true.
Proof. apply string_leb_total. Qed.
Lemma tool_leb_trans a b c : tool_leb a b = true -> tool_leb b c = true -> tool_leb a c = true.
Proof. apply string_leb_trans. Qed.
Lemma tool_leb_same name a b : ts_name a = name -> ts_name b = name -> tool_leb a b = true.
Proof. unfold tool_leb. intros -> ->. by destruct (string_leb_total name name). Qed.

Lemma sorted_tools tools :
  sort_by tool_leb tools ≡ₚ tools
  /\ (forall name, base.filter (fun t => ts_name t = name) (sort_by tool_leb tools) = base.filter (fun t => ts_name t = name) tools)
  /\ StronglySorted (fun a b => tool_leb a b = true) (sort_by tool_leb tools).
Proof.
  split_and!; [apply sort_by_permutation| |apply sort_by_sorted; [apply tool_leb_total|apply tool_leb_trans]].
  intros name. apply sort_by_stable. intros a b. by apply tool_leb_same.
Qed.

Lemma filter_concat {A} (Q : A -> Prop) `{!forall x, Decision (Q x)} (ls : list (list A)) :
  base.filter Q (concat ls) = concat (base.filter Q <$> ls).
Proof. induction ls as [|l ls IH]; [done|]. rewrite fmap_cons. cbn [concat]. by rewrite filter_app, IH. Qed.

Lemma concat_single {A} (g : string -> list A) order name :
  NoDup order -> name ∈ order -> (forall x, x ∈ order -> x <> name -> g x = []) -> concat (g <$> order) = g name.
Proof.
  induction order as [|x order IH]; [by intros _ ?%elem_of_nil|]. intros [Hx Hnd]%NoDup_cons Hin Hg.
  rewrite fmap_cons. cbn [concat]. destruct (decide (x = name)) as [->|Hne].
  - assert (E : concat (g <$> order) = []).
    { apply concat_nil_Forall, Forall_fmap, Forall_forall. intros y Hy. apply Hg; [by right|congruence]. }
    by rewrite E, app_nil_r.
  - rewrite Hg by (by left || done). apply elem_of_cons in Hin as [->|Hin]; [done|]. apply IH; [done|done|].
    intros y Hy. apply Hg. by right.
Qed.

Section configured.
Context (tools : list ToolSchema) (order : list string) (Hnd : NoDup order) (Hr : TOOL_ORDER_REST ∈ order)
  (Ht : Forall (fun t => ts_name t <> TOOL_ORDER_REST) tools).
Let unlisted : list ToolSchema := sort_by tool_leb (base.filter (fun t => ts_name t ∉ order) tools).
Let chunk : string -> list ToolSchema := order_chunk tools unlisted.

Lemma elem_of_chunk name t : name ∈ order -> t ∈ chunk name -> t ∈ tools /\ order_entry order t = name.
Proof.
  intros Hn Hin. unfold chunk, unlisted in Hin. rewrite (order_chunk_entries order tools name Hr Ht Hn) in Hin.
  apply list_elem_of_filter in Hin. tauto.
Qed.

Lemma chunks_permutation : concat (chunk <$> order) ≡ₚ tools.
Proof.
  transitivity (concat ((fun k => base.filter (fun t => order_entry order t = k) tools) <$> order)).
  - assert (H : forall ks, (forall k, k ∈ ks -> k ∈ order) ->
      concat (chunk <$> ks) ≡ₚ concat ((fun k => base.filter (fun t => order_entry order t = k) tools) <$> ks)); [|by apply H].
    induction ks as [|k ks IH]; intros Hks; [done|]. rewrite !fmap_cons. cbn [concat].
    rewrite IH by (intros; apply Hks; by right). apply Permutation_app_tail. unfold chunk, unlisted.
    apply order_chunk_entries; [done|done|]. apply Hks. by left.
  - rewrite partition_permutation by done. apply reflexive_eq, filter_all. intros t _. unfold order_entry. by case_decide.
Qed.

Lemma chunk_filter name t : name ∈ order -> t ∈ chunk name -> ts_name t ∉ order -> name = TOOL_ORDER_REST.
Proof. intros Hn Hin Hl. destruct (elem_of_chunk _ _ Hn Hin) as [_ <-]. unfold order_entry. by case_decide. Qed.

Lemma chunks_named name : base.filter (fun t => ts_name t = name) (concat (chunk <$> order)) = base.filter (fun t => ts_name t = name) tools.
Proof.
  rewrite filter_concat, <- list_fmap_compose. set (target := if decide (name ∈ order) then name else TOOL_ORDER_REST).
  rewrite (concat_single _ _ target); [|done|subst target; by case_decide|].
  - unfold compose, chunk, order_chunk. destruct (decide (target = TOOL_ORDER_REST)) as [E|E].
    + unfold unlisted. rewrite sort_by_stable by (intros a b; by apply tool_leb_same). rewrite list_filter_filter.
      apply filter_ext_on. intros t Hin. split; [by intros [? _]|]. intros Hn. split; [done|]. subst target.
      case_decide as Hd; [|by rewrite Hn]. rewrite Forall_forall in Ht. destruct (Ht t Hin). by rewrite Hn.
    + subst target. destruct (decide (name ∈ order)) as [Hd|]; [|done]. rewrite list_filter_filter.
      apply filter_ext_on. intros t _. tauto.
  - intros x Hx Hne. unfold compose. apply filter_none. intros t Hin Hn.
    destruct (elem_of_chunk _ _ Hx Hin) as [_ E]. apply Hne. rewrite <- E. subst target. unfold order_entry. by rewrite Hn.
Qed.

Lemma chunks_unlisted : base.filter (fun t => ts_name t ∉ order) (concat (chunk <$> order)) = unlisted.
Proof.
  rewrite filter_concat, <- list_fmap_compose. rewrite (concat_single _ _ TOOL_ORDER_REST); [|done|done|].
  - unfold compose, chunk, order_chunk. rewrite decide_True by done. apply filter_all.
    intros t Hin. unfold unlisted in Hin. rewrite sort_by_permutation in Hin. by apply list_elem_of_filter in Hin as [? _].
  - intros x Hx Hne. unfold compose. apply filter_none. intros t Hin Hl. apply Hne. by eapply chunk_filter.
Qed.

Lemma ordered_tools :
  let sorted := fst (foldl (order_step tools) ([], unlisted) order) in
  sorted ≡ₚ tools
  /\ (forall name, base.filter (fun t => ts_name t = name) sorted = base.filter (fun t => ts_name t = name) tools)
  /\ StronglySorted (fun a b => order_place order a <= order_place order b) sorted
  /\ StronglySorted (fun a b => tool_leb a b = true) (base.filter (fun t => ts_name t ∉ order) sorted).
Proof.
  cbv zeta. rewrite order_steps by done. cbn [app]. fold chunk.
  split_and!; [apply chunks_permutation|apply chunks_named| |].
  - apply (chunks_sorted chunk (order_place order) order [] order); [done|done|].
    intros pre name suf t E Hin. assert (Hn : name ∈ order) by (rewrite E; set_solver).
    destruct (elem_of_chunk _ _ Hn Hin) as [_ He]. unfold order_place. rewrite He. rewrite E at 2.
    rewrite position_app; [done| |by apply bool_decide_eq_true].
    intros y Hy. apply bool_decide_eq_false. intros ->. rewrite E in Hnd. apply NoDup_app in Hnd as (_ & Hd & _).
    apply (Hd name Hy). left.
  - rewrite chunks_unlisted. apply sort_by_sorted; [apply tool_leb_total|apply tool_leb_trans].
Qed.
End configured.

(** Tool ordering loses, invents and renames nothing. Without a configured
    order the tools come sorted by name; with a valid one (no name twice, the
    rest marker present) they come in the order of their entries, the unlisted
    ones sorted by name at the marker, and tools of one name keep their
    collection order. Assembly fails exactly when a provider returns the
    reserved name or the order lists a name no provider knows. *)
Theorem tools_ordered tools tool_order known order :
  validate_tool_order tool_order = Ok order ->
  match order_tools tools order known with
  | Ok sorted =>
      sorted ≡ₚ tools
      /\ (forall name, base.filter (fun t => ts_name t = name) sorted = base.filter (fun t => ts_name t = name) tools)
      /\ match order with
         | None => StronglySorted (fun a b => tool_leb a b = true) sorted
         | Some order =>
             StronglySorted (fun a b => order_place order a <= order_place order b) sorted
             /\ StronglySorted (fun a b => tool_leb a b = true) (base.filter (fun t => ts_name t ∉ order) sorted)
         end
  | Err e =>
      (e = ReservedToolName /\ Exists (fun t => ts_name t = TOOL_ORDER_REST) tools)
      \/ exists names l, e = UnregisteredTools names l /\ names <> []
         /\ forall name, name ∈ names <-> name ∈ default [] order /\ name <> TOOL_ORDER_REST /\ name ∉ known
  end.
Proof.
  intros Hv. unfold order_tools. destruct (existsb _ tools) eqn:Er.
  { left. split; [done|]. apply existsb_exists in Er as (t & Ht & E). apply bool_decide_eq_true in E.
    apply Exists_exists. exists t. split; [by apply list_elem_of_In|done]. }
  assert (Ht : Forall (fun t => ts_name t <> TOOL_ORDER_REST) tools).
  { apply Forall_forall. intros t Hin E. apply not_true_iff_false in Er. apply Er, existsb_exists.
    exists t. split; [by apply list_elem_of_In|by apply bool_decide_eq_true]. }
  destruct order as [order|]; [|by apply sorted_tools].
  apply valid_order in Hv as [Hnd Hr].
  destruct (base.filter _ order) as [|n names] eqn:Ef; [|right; exists (n :: names); eexists; split_and!; [done|done|]].
  - by apply ordered_tools.
  - intros name. rewrite <- Ef, list_elem_of_filter. cbn [default]. tauto.
Qed.

(** * Assembly *)

Section assembly.
Context {P : Type}.
Implicit Types (s : SystemPrompt P) (l : PromptLayer P).

(** What registration keeps of every layer. *)
Record layer_wf l : Prop := {
  lw_sections : NoDup (ly_sections l).*1 /\ Forall (fun e => e.1 = ps_name e.2 /\ f64_is_finite (ps_order e.2) = true) (ly_sections l);
  lw_contexts : NoDup (ly_contexts l).*1 /\ Forall (fun e => e.1 = px_name e.2 /\ f64_is_finite (px_order e.2) = true) (ly_contexts l);
  lw_variables : NoDup (ly_variables l).*1 /\ Forall (fun e => is_variable_name e.1 = true) (ly_variables l);
}.
Definition prompt_wf s : Prop := layer_wf (sp_global s) /\ map_Forall (fun _ l => layer_wf l) (sp_scoped s).

Lemma layer_wf_new : layer_wf PromptLayer_new.
Proof. split; split; constructor. Qed.

Lemma effect_wf {A} scope (action : PromptLayer P -> PromptLayer P * result A PromptError) s :
  (forall l, layer_wf l -> layer_wf (fst (action l))) -> prompt_wf s -> prompt_wf (fst (effect scope action s)).
Proof.
  intros Ha [Hg Hs]. unfold effect. destruct scope as [key|].
  - assert (Hl : layer_wf (default PromptLayer_new (sp_scoped s !! key))).
    { destruct (sp_scoped s !! key) eqn:E; [by eapply Hs|apply layer_wf_new]. }
    apply Ha in Hl. destruct (action _) as [l [a|e]]; cbn [fst] in *; (split; [exact Hg|]); cbn [sp_scoped].
    + by apply map_Forall_insert_2.
    + destruct (_ && _); [by apply map_Forall_delete|by apply map_Forall_insert_2].
  - apply Ha in Hg. destruct (action _) as [l r]; cbn [fst] in *. by split.
Qed.

Lemma rollback_wf scope undo s :
  (forall l, layer_wf l -> layer_wf (undo l)) -> prompt_wf s -> prompt_wf (rollback scope undo s).
Proof.
  intros Hu [Hg Hs]. unfold rollback. destruct scope as [key|]; [|split; [by apply Hu|done]].
  destruct (sp_scoped s !! key) as [l|] eqn:E; [|by split]. split; [done|]. cbn [sp_scoped].
  destruct (layer_is_empty _); [by apply map_Forall_delete|]. apply map_Forall_insert_2; [|done]. apply Hu. by eapply Hs.
Qed.

Lemma named_insert_Forall {V} (Q : string * V -> Prop) (err : string -> PromptError) name value (t t' : NamedEntries V) r :
  named_insert err name value t = (t', r) -> Q (name, value) -> Forall Q t -> Forall Q t'.
Proof.
  unfold named_insert. destruct (existsb _ t); intros [= <- <-] Hq Ht; [done|]. apply Forall_app. by repeat constructor.
Qed.

Lemma register_section_wf scope x s : prompt_wf s -> prompt_wf (fst (register_section scope x s)).
Proof.
  intros H. unfold register_section. destruct (f64_is_finite (ps_order x)) eqn:Ef; [|done]. cbn [negb]. apply effect_wf; [|done].
  intros l [[H1 H2] H3 H4]. destruct (named_insert _ _ _ _) as [t r] eqn:E. split; [|exact H3|exact H4].
  split; [by eapply named_insert_names|by eapply named_insert_Forall].
Qed.
Lemma register_context_wf scope x s : prompt_wf s -> prompt_wf (fst (register_context scope x s)).
Proof.
  intros H. unfold register_context. destruct (f64_is_finite (px_order x)) eqn:Ef; [|done]. cbn [negb]. apply effect_wf; [|done].
  intros l [H3 [H1 H2] H4]. destruct (named_insert _ _ _ _) as [t r] eqn:E. split; [exact H3| |exact H4].
  split; [by eapply named_insert_names|by eapply named_insert_Forall].
Qed.
Lemma register_variable_wf scope name provider s : prompt_wf s -> prompt_wf (fst (register_variable scope name provider s)).
Proof.
  intros H. unfold register_variable. destruct (is_variable_name name) eqn:Ef; [|done]. cbn [negb]. apply effect_wf; [|done].
  intros l [H3 H4 [H1 H2]]. destruct (named_insert _ _ _ _) as [t r] eqn:E. split; [exact H3|exact H4|].
  split; [by eapply named_insert_names|by eapply named_insert_Forall].
Qed.
Lemma suppress_wf scope s : prompt_wf s -> prompt_wf (fst (suppress_runtime_context scope s)).
Proof. intros H. apply effect_wf; [|done]. by intros l [H1 H2 H3]. Qed.
Lemma register_tools_wf scope provider s : prompt_wf s -> prompt_wf (fst (register_tools scope provider s)).
Proof. intros H. apply effect_wf; [|done]. by intros l [H1 H2 H3]. Qed.

(** The service as its clients drive it: registrations and the undos of
    registrations made before. *)
Inductive PromptOp :=
| PO_Section (scope : option ScopeKey) (x : PromptSection P) | PO_DropSection (scope : option ScopeKey) (name : string)
| PO_Context (scope : option ScopeKey) (x : PromptContext P) | PO_DropContext (scope : option ScopeKey) (name : string)
| PO_Suppress (scope : option ScopeKey) | PO_Unsuppress (scope : option ScopeKey) (id : Z)
| PO_Tools (scope : option ScopeKey) (provider : AssembleContext P -> ToolProviderResult) | PO_DropTools (scope : option ScopeKey) (id : Z)
| PO_Variable (scope : option ScopeKey) (name : string) (provider : AssembleContext P -> option string)
| PO_DropVariable (scope : option ScopeKey) (name : string).
Definition prompt_step s (op : PromptOp) : SystemPrompt P :=
  match op with
  | PO_Section scope x => fst (register_section scope x s)
  | PO_DropSection scope name => rollback scope (fun l => set_sections (named_undo name (ly_sections l)) l) s
  | PO_Context scope x => fst (register_context scope x s)
  | PO_DropContext scope name => rollback scope (fun l => set_contexts (named_undo name (ly_contexts l)) l) s
  | PO_Suppress scope => fst (suppress_runtime_context scope s)
  | PO_Unsuppress scope id => rollback scope (fun l => set_suppressors (anonymous_undo id (ly_suppressors l)) l) s
  | PO_Tools scope provider => fst (register_tools scope provider s)
  | PO_DropTools scope id => rollback scope (fun l => set_tool_providers (anonymous_undo id (ly_tool_providers l)) l) s
  | PO_Variable scope name provider => fst (register_variable scope name provider s)
  | PO_DropVariable scope name => rollback scope (fun l => set_variables (named_undo name (ly_variables l)) l) s
  end.

Lemma named_undo_wf {V} (Q : string * V -> Prop) name (t : NamedEntries V) :
  NoDup t.*1 /\ Forall Q t -> NoDup (named_undo name t).*1 /\ Forall Q (named_undo name t).
Proof.
  intros [Hnd HQ]. unfold named_undo, NamedEntries in *. split.
  - induction t as [|e t IH]; [done|]. rewrite fmap_cons in Hnd. apply NoDup_cons in Hnd as [He Hnd]. apply Forall_cons in HQ as [_ HQ].
    rewrite filter_cons. destruct (decide _); [|by apply IH]. rewrite fmap_cons. constructor; [|by apply IH].
    intros Hin. apply He. apply list_elem_of_fmap in Hin as (x & -> & [_ Hx]%list_elem_of_filter). apply list_elem_of_fmap. by exists x.
  - rewrite Forall_forall in *. intros e [_ He]%list_elem_of_filter. by apply HQ.
Qed.

Lemma prompt_step_wf s op : prompt_wf s -> prompt_wf (prompt_step s op).
Proof.
  intros H. destruct op; cbn [prompt_step];
    eauto using register_section_wf, register_context_wf, register_variable_wf, suppress_wf, register_tools_wf.
  all: apply rollback_wf; [|exact H]; intros l [H1 H2 H3]; split; cbn; auto using named_undo_wf.
Qed.

Lemma SystemPrompt_new_wf config s : SystemPrompt_new (P := P) config = Ok s -> prompt_wf s.
Proof.
  unfold SystemPrompt_new. intros (order & _ & H)%result_bind_Ok.
  assert (H0 : prompt_wf (mk_system_prompt PromptLayer_new ∅ order)) by (split; [apply layer_wf_new|apply map_Forall_empty]).
  apply result_bind_Ok in H as (s1 & H1 & H).
  assert (Hw1 : prompt_wf s1).
  { destruct (cf_identity config); [|by injection H1 as <-].
    pose proof (register_section_wf None (mk_section "harness:identity" (f64_of_Z (-100)) (fun _ => HARNESS_IDENTITY) false) _ H0) as Hw.
    destruct (register_section _ _ _) as [s' r]. apply result_bind_Ok in H1 as (x & _ & H1). by injection H1 as <-. }
  pose proof (register_section_wf None (mk_section PERSONA_SECTION f64_zero (fun _ => cf_persona config) false) _ Hw1) as Hw2.
  destruct (register_section _ _ s1) as [s2 r]. apply result_bind_Ok in H as (x & _ & H).
  destruct (cf_runtime_context config); [by injection H as <-|].
  pose proof (suppress_wf None s2 Hw2) as Hw3. destruct (suppress_runtime_context None s2) as [s3 r'].
  apply result_bind_Ok in H as (y & _ & H). by injection H as <-.
Qed.

(** The layers an assembly for [scope] sees. *)
Definition visible_layers s (chain : list (PromptLayer P)) : list (PromptLayer P) := sp_global s :: chain.

Lemma chain_layers_wf parent scope s chain :
  prompt_wf s -> chain_layers parent scope s = Some chain -> Forall layer_wf (visible_layers s chain).
Proof.
  intros [Hg Hs] (keys & _ & ->)%fmap_Some. constructor; [done|]. apply Forall_forall. intros l (key & _ & Hl)%list_elem_of_omap.
  by eapply Hs.
Qed.

Lemma collect_variables_lookup (context : AssembleContext P) tables name :
  Forall (fun t : NamedEntries (AssembleContext P -> option string) => NoDup t.*1) tables ->
  foldl (collect_variables context) ∅ tables !! name = (fun f => f context) <$> nearest name tables.
Proof.
  intros Ht. unfold nearest.
  assert (H : forall (vars : gmap string (option string)) found, vars !! name = (fun f => f context) <$> found ->
    foldl (collect_variables context) vars tables !! name
    = (fun f => f context) <$> foldl (fun found t => match named_get name t with Some v => Some v | None => found end) found tables);
    [|by apply H; rewrite lookup_empty].
  induction Ht as [|t tables Hnd _ IH]; intros vars found Hv; cbn [foldl]; [done|]. apply IH. clear IH.
  unfold collect_variables. revert vars found Hv Hnd. induction t as [|[n f] t IHt]; intros vars found Hv Hnd; cbn [foldl]; [done|].
  rewrite fmap_cons in Hnd. apply NoDup_cons in Hnd as [Hn Hnd]. rewrite named_get_cons. cbn [fst snd].
  destruct (decide (n = name)) as [->|Hne].
  - rewrite (IHt _ (Some f)); [|by rewrite lookup_insert_eq|done].
    destruct (named_get name t) as [g|] eqn:Eg; [|done]. apply named_get_elem in Eg; [|done]. destruct Hn. by apply (list_elem_of_fmap_2 fst) in Eg.
  - apply IHt; [|done]. by rewrite lookup_insert_ne.
Qed.

Lemma merged_elem {V} (nm : V -> string) global chain :
  Forall (fun t : NamedEntries V => NoDup t.*1 /\ Forall (fun e => e.1 = nm e.2) t) (global :: chain) ->
  (forall x : V, x ∈ (merge_tables global chain).*2 <-> nearest (nm x) (global :: chain) = Some x)
  /\ NoDup (nm <$> (merge_tables global chain).*2).
Proof.
  intros H.
  assert (Hget : forall x, named_get x (merge_tables global chain) = nearest x (global :: chain) /\ NoDup (merge_tables global chain).*1).
  { intros x. apply merge_tables_get. eapply Forall_impl; [exact H|]. by intros t [? _]. }
  destruct (Hget "") as [_ Hnd].
  assert (Hn : forall e, e ∈ merge_tables global chain -> e.1 = nm e.2).
  { intros [n v] He. destruct (Hget n) as [Hg _]. rewrite (proj2 (named_get_elem _ n v Hnd) He) in Hg. symmetry in Hg. revert Hg. unfold nearest.
    assert (Hf : forall tables found, Forall (fun t : NamedEntries V => NoDup t.*1 /\ Forall (fun e => e.1 = nm e.2) t) tables ->
      (forall v, found = Some v -> n = nm v) ->
      foldl (fun found (t : NamedEntries V) => match named_get n t with Some v => Some v | None => found end) found tables = Some v -> n = nm v);
      [|by apply Hf].
    clear. intros tables found Ht. revert found. induction Ht as [|t tables [Hnd Hall] _ IH]; intros found Hfound; cbn [foldl]; [apply Hfound|].
    apply IH. intros w. destruct (named_get n t) as [u|] eqn:E; [|by apply Hfound]. intros [= ->].
    apply named_get_elem in E; [|done]. rewrite Forall_forall in Hall. by apply (Hall (n, w)). }
  split.
  - intros x. rewrite <- (proj1 (Hget (nm x))), named_get_elem by done. split.
    + intros ([n v] & -> & He)%list_elem_of_fmap. pose proof (Hn _ He) as E. cbn in *. by rewrite <- E.
    + intros He. apply list_elem_of_fmap. by exists (nm x, x).
  - rewrite <- list_fmap_compose. erewrite list_fmap_ext; [exact Hnd|]. intros i e He. cbn. symmetry. apply Hn. by eapply list_elem_of_lookup_2.
Qed.

(** In every state of the service that registrations and their undos reach,
    an assembly offers the waterfall one section per visible name, the one of
    the nearest layer of the scope chain, in registration order within equal
    orders, and the variables resolved the same way; what the waterfall returns
    is the assembly, except that an effective complete section replaces all
    sections and a suppressed scope has no dynamic context; two complete
    sections never assemble. *)
Theorem assembly_shadows config s0 ops waterfall parent context a :
  SystemPrompt_new (P := P) config = Ok s0 ->
  let s := foldl prompt_step s0 ops in
  assemble waterfall parent context s = Some (Ok a) ->
  exists chain defs proposal t,
    chain_layers parent (ac_scope context) s = Some chain
    /\ (forall x, x ∈ defs <-> nearest (ps_name x) (ly_sections <$> visible_layers s chain) = Some x)
    /\ NoDup (ps_name <$> defs)
    /\ pa_sections proposal = assembled_section context <$> defs
    /\ (forall name, pa_variables proposal !! name = (fun f => f context) <$> nearest name (ly_variables <$> visible_layers s chain))
    /\ waterfall proposal = Ok t
    /\ pa_sections a = (match base.filter (fun x => ps_complete x = true) defs with
                        | [] => pa_sections t
                        | x :: more => [assembled_section context x]
                        end)
    /\ length (base.filter (fun x => ps_complete x = true) defs) <= 1
    /\ pa_contexts a = (if is_suppressed (visible_layers s chain) then [] else pa_contexts t)
    /\ pa_tools a = pa_tools t /\ pa_variables a = pa_variables t.
Proof.
  intros Hnew s Ha. assert (Hw : prompt_wf s).
  { subst s. apply SystemPrompt_new_wf in Hnew. clear Ha. revert s0 Hnew. induction ops as [|op ops IH]; intros s0 H0; cbn [foldl]; [done|].
    apply IH. by apply prompt_step_wf. }
  unfold assemble in Ha. apply bind_Some in Ha as (chain & Hc & Ha). pose proof (chain_layers_wf _ _ _ _ Hw Hc) as Hl.
  cbv zeta in Ha. change (sp_global s :: chain) with (visible_layers s chain) in Ha.
  destruct (foldl (collect_tools context) _ _) as [collected known].
  set (defs := sort_by section_leb (merge_tables (ly_sections (sp_global s)) (ly_sections <$> chain)).*2) in *.
  apply (inj Some) in Ha. destruct (1 <? length (base.filter (fun x => ps_complete x = true) defs)) eqn:El; [done|].
  apply Nat.ltb_ge in El. apply result_bind_Ok in Ha as (tools & _ & Ha). apply result_bind_Ok in Ha as (t & Ht & Ha).
  assert (Hs : Forall (fun t : NamedEntries (PromptSection P) => NoDup t.*1 /\ Forall (fun e => e.1 = ps_name e.2) t)
    (ly_sections <$> visible_layers s chain)).
  { apply Forall_fmap. eapply Forall_impl; [exact Hl|]. intros l [[H1 H2] _ _]. split; [done|]. eapply Forall_impl; [exact H2|]. by intros e [? _]. }
  exists chain, defs, (mk_assembly (assembled_section context <$> defs)
    (if is_suppressed (visible_layers s chain) then [] else assembled_context context <$>
       sort_by context_leb (merge_tables (ly_contexts (sp_global s)) (ly_contexts <$> chain)).*2) tools
    (foldl (collect_variables context) ∅ (ly_variables <$> visible_layers s chain))), t.
  split; [done|]. split.
  { intros x. unfold defs. rewrite sort_by_permutation. by apply (merged_elem ps_name). }
  split.
  { unfold defs. rewrite sort_by_permutation. apply (merged_elem ps_name _ _ Hs). }
  split; [done|]. split.
  { intros name. apply collect_variables_lookup, Forall_fmap. eapply Forall_impl; [exact Hl|]. by intros l [_ _ [? _]]. }
  split; [exact Ht|]. clear Hl Hs Ht Hc. revert Ha. generalize (is_suppressed (visible_layers s chain)) as sup. intros sup Ha.
  destruct (base.filter (fun x => ps_complete x = true) defs) as [|x [|y more]]; cbn [length] in El; [| |lia];
    cbn [last fmap option_fmap option_map] in Ha; [rewrite bool_decide_true in Ha by done|rewrite bool_decide_false in Ha by done];
    destruct sup; cbn [andb negb] in Ha; injection Ha as <-; cbn; auto 10.
Qed.
End assembly.

(** * Witnesses *)

Definition demo_variables : gmap string (option string) := <["cwd" := Some "/tmp/{{x}}"]> (<["none" := None]> ∅).
Definition demo_template : list Piece := [Lit "in "; Ref "cwd"; Lit "}}, "; Ref "cwd"; Lit "!"].

Lemma template_rendered_witness :
  interpolate "s" (spell demo_template) demo_variables "section" = Some (Ok "in /tmp/{{x}}}}, /tmp/{{x}}!")
  /\ interpolate "s" (spell (demo_template ++ [Ref "none"; Ref "Bad"])) demo_variables "section"
     = Some (Err (ValuelessVariable "none" "section" "s"))
  /\ is_Some (interpolate "s" "a {{ b {{{" demo_variables "section").
Proof.
  split; [|split].
  - rewrite (proj2 (template_rendered "s" "section" demo_variables) demo_template) by reflexivity. vm_compute. reflexivity.
  - rewrite (proj2 (template_rendered "s" "section" demo_variables) (demo_template ++ [Ref "none"; Ref "Bad"])) by reflexivity.
    vm_compute. reflexivity.
  - apply (proj1 (template_rendered "s" "section" demo_variables)).
Defined.

Definition demo_tool (name : string) : ToolSchema := mk_tool_schema name "" [].
Definition demo_order : list string := ["read"; TOOL_ORDER_REST; "bash"; "hidden"].

Lemma tools_ordered_witness :
  let tools := demo_tool <$> ["write"; "bash"; "glob"; "read"] in
  order_tools tools (Some demo_order) {["read"; "bash"; "hidden"; "glob"; "write"]} = Ok (demo_tool <$> ["read"; "glob"; "write"; "bash"])
  /\ demo_tool <$> ["read"; "glob"; "write"; "bash"] ≡ₚ tools.
Proof.
  intros tools.
  assert (E : order_tools tools (Some demo_order) {["read"; "bash"; "hidden"; "glob"; "write"]}
    = Ok (demo_tool <$> ["read"; "glob"; "write"; "bash"])) by (vm_compute; reflexivity).
  split; [exact E|].
  pose proof (tools_ordered tools (Some demo_order) {["read"; "bash"; "hidden"; "glob"; "write"]} (Some demo_order) eq_refl) as H.
  rewrite E in H. exact (proj1 H).
Defined.

(** A scope below the global layer shadows the persona with a complete section. *)
Definition demo_persona : PromptSection unit := mk_section PERSONA_SECTION f64_zero (fun _ => "scoped") true.
Definition demo_prompt_config : Config := mk_config true true "global" None.
Definition demo_prompt_ops : list (PromptOp (P := unit)) := [PO_Section (Some 1%Z) demo_persona; PO_Variable None "cwd" (fun _ => Some "/")].

Lemma assembly_shadows_witness :
  exists s0 a, SystemPrompt_new (P := unit) demo_prompt_config = Ok s0
  /\ assemble (fun p => Ok p) ∅ (mk_assemble_context (Some 1%Z) None) (foldl prompt_step s0 demo_prompt_ops) = Some (Ok a)
  /\ pa_sections a = [mk_assembled PERSONA_SECTION "scoped"]
  /\ pa_variables a !! "cwd" = Some (Some "/").
Proof.
  destruct (SystemPrompt_new (P := unit) demo_prompt_config) as [s0|e] eqn:E0; [|discriminate E0].
  pose proof E0 as E. vm_compute in E. injection E as E.
  destruct (assemble (fun p => Ok p) ∅ (mk_assemble_context (Some 1%Z) None) (foldl prompt_step s0 demo_prompt_ops)) as [[a|e]|] eqn:Ea;
    [|subst s0; vm_compute in Ea; discriminate Ea|subst s0; vm_compute in Ea; discriminate Ea].
  exists s0, a. split; [reflexivity|]. split; [exact Ea|].
  destruct (assembly_shadows demo_prompt_config s0 demo_prompt_ops (fun p => Ok p) ∅ _ a E0 Ea)
    as (chain & defs & proposal & t & Hc & _ & _ & _ & Hv & Ht & Hs & _ & _ & _ & Hva).
  injection Ht as <-. split.
  - subst s0. vm_compute in Ea. injection Ea as <-. reflexivity.
  - rewrite Hva, Hv. subst s0. vm_compute in Hc. injection Hc as <-. vm_compute. reflexivity.
Defined.
