(* ===== verification/RuntimeContext.v ===== *)
(** The retained runtime-context snapshot: [crates/dsh/agent-loop/src/runtime_context.rs].

    The projection holds no copy of the session: the session is the argument of
    every operation. *)
From Stdlib Require Import ZArith String.
From stdpp Require Import base tactics numbers list strings gmap.
From S2P Require Import Prelude Json Llm SessionEvents Surface HeaderFold Session.
Open Scope keel_scope.

Definition SOURCE : string := "dsh-system-prompt".
Definition CLEARED : string := "Current runtime context: none. Earlier runtime-context snapshots no longer apply.".

Definition is_owned (message : Message) : bool :=
  match msg_source message with MS_Plugin plugin _ => bool_decide (plugin = SOURCE) | _ => false end.
Definition text_of (message : Message) : option string :=
  match msg_content message with [CB_Text text] => Some text | _ => None end.

Inductive Retained := R_Never | R_None | R_Some (seq : Z) (text : option string).
Record RuntimeContextProjection := mk_projection { rp_retained : Retained; rp_consumed : nat }.

(** The backward scan of [new]: [events] in reverse order. *)
Fixpoint restore_scan (surface : list Z) (retained : Retained) (events : list SessionEvent) : Retained :=
  match events with
  | [] => retained
  | event :: events =>
      match ev_data event with
      | UserMessage message =>
          if is_owned message then
            let retained := match retained with R_Never => R_None | _ => retained end in
            if bool_decide (ev_seq event ∈ surface) then R_Some (ev_seq event) (text_of message)
            else restore_scan surface retained events
          else restore_scan surface retained events
      | _ => restore_scan surface retained events
      end
  end.
Definition RuntimeContextProjection_new (s : Session) : RuntimeContextProjection :=
  mk_projection (restore_scan (surface_nodes s) R_Never (reverse (ss_log s))) (length (ss_log s)).

Definition follow_event (retained : Retained) (event : SessionEvent) : Retained :=
  let shadow :=
    match retained with
    | R_Some seq _ =>
        if is_replacement_surface_event event
           && match ev_source_event_seqs event with Some sources => bool_decide (seq ∈ sources) | None => false end
        then R_None else retained
    | _ => retained
    end in
  match ev_data event with
  | UserMessage message => if is_owned message then R_Some (ev_seq event) (text_of message) else shadow
  | _ => shadow
  end.
Definition catch_up (s : Session) (p : RuntimeContextProjection) : RuntimeContextProjection :=
  mk_projection (foldl follow_event (rp_retained p) (drop (rp_consumed p) (ss_log s))) (length (ss_log s)).

(** [project], with the id the message gets. *)
Definition project (fresh : MessageId) (s : Session) (current : string) (sections : list (string * string))
    (p : RuntimeContextProjection) : RuntimeContextProjection * option Message :=
  let p := catch_up s p in
  let snapshot := if decide (current = EmptyString) then CLEARED else current in
  let proposal :=
    create_user_message fresh [CB_Text snapshot]
      (MS_Plugin SOURCE (if bool_decide (sections = []) then None else Some (CF_Snapshot sections))) in
  match rp_retained p with
  | R_Never => if decide (current = EmptyString) then (p, None) else (p, Some proposal)
  | R_Some _ (Some text) => if decide (text = snapshot) then (p, None) else (p, Some proposal)
  | _ => (p, Some proposal)
  end.
