(* ===== verification/AgentLoop.v ===== *)
(** The agent driver, [crates/dsh/agent-loop/src/agent.rs]: turns, steps, model
    requests, the decision focus of a step, and the operations other tasks
    perform on a live agent.

    The driver is one cooperative task.  Between two awaits nothing else runs;
    at every await the environment says which operations other tasks performed
    meanwhile ([interfere]) and what the awaited future answered, [None] being
    a future that never resolves (or panics).  An abort controller is its index
    in [al_signals], which holds the reason it was aborted with. *)
From Stdlib Require Import ZArith Lia Ascii String.
From stdpp Require Import base tactics numbers list strings gmap pretty.
From S2P Require Import Prelude Json Text Proto Llm Model Retry Assembler SessionEvents Surface HeaderFold Session Repair Inbox ToolCalls Adapter LlmRuntime Scope SystemPrompt RuntimeContext.
Open Scope keel_scope.

(** * Decision focus *)

Definition focus_text (id : string) : option string :=
  if decide (id = "inspect") then Some "Inspect relevant evidence before making a change. Choose exact reads or searches yourself."%string
  else if decide (id = "implement") then
    Some "Continue the requested implementation with the admitted file tools. Formulate exact edits yourself."%string
  else if decide (id = "verify") then
    Some "Check the current change with focused shell commands. Existing shell permissions still govern execution."%string
  else if decide (id = "answer") then
    Some "Respond based on verified results, or ask for missing information when necessary. Do not claim unperformed checks."%string
  else None.

Definition named_tools (names : list string) (tools : list ToolSchema) : list string :=
  ts_name <$> base.filter (fun tool => ts_name tool ∈ names) tools.
Definition keep_names (p : string -> bool) (names : list string) : option (list string) :=
  if existsb p names then Some names else None.
Definition admitted_tool_names (focus : option string) (tools : list ToolSchema) : option (list string) :=
  match focus with
  | None => None
  | Some focus =>
      if decide (focus = "inspect") then keep_names (fun _ => true) (named_tools ["read"; "grep"; "glob"] tools)
      else if decide (focus = "implement") then
        keep_names (fun name => bool_decide (name ∈ ["write"; "edit"]%string))
          (named_tools ["read"; "grep"; "glob"; "write"; "edit"] tools)
      else if decide (focus = "verify") then
        keep_names (fun name => bool_decide (name = "bash"%string)) (named_tools ["read"; "grep"; "glob"; "bash"] tools)
      else if decide (focus = "answer") then Some []
      else None
  end.

Definition FOCUS_CHOICES : list (string * string) :=
  [("inspect", "Read or search available evidence; no file edits or shell.");
   ("implement", "Edit files with available write/edit tools; no shell.");
   ("verify", "Run shell checks and read evidence; write/edit tools are hidden.");
   ("answer", "Respond without tools when enough evidence is available.")]%string.
Record PreparedFocus := mk_focus { pf_id : string; pf_description : string; pf_admitted : list string }.
Definition prepare_focus_choices (tools : list ToolSchema) : list PreparedFocus :=
  omap (fun c => mk_focus c.1 c.2 <$> admitted_tool_names (Some c.1) tools) FOCUS_CHOICES.

Inductive FocusMode := FM_Laya | FM_Jev | FM_Normal.
#[export] Instance FocusMode_eq_dec : EqDecision FocusMode.
Proof. solve_decision. Defined.
(** What reading the mode file gives. *)
Inductive ModeFile := MF_Missing | MF_Unreadable | MF_Text (value : string).
Definition focus_mode (file : option ModeFile) : FocusMode :=
  match file with
  | None | Some MF_Missing => FM_Laya
  | Some MF_Unreadable => FM_Normal
  | Some (MF_Text value) =>
      if decide (trim value = "laya") then FM_Laya else if decide (trim value = "jev") then FM_Jev else FM_Normal
  end.

Record FocusSelection := mk_selection {
  fs_backend : DecisionBackend;
  fs_revision : Z;
  fs_candidates : list PreparedFocus;
  fs_selected : option PreparedFocus;
  fs_confidence : option f64;
  fs_selected_probability : option f64;
  fs_fit : option f64;
  fs_fallback : option string;
}.
Definition set_fallback (reason : string) (x : FocusSelection) : FocusSelection :=
  mk_selection (fs_backend x) (fs_revision x) (fs_candidates x) (fs_selected x) (fs_confidence x)
    (fs_selected_probability x) (fs_fit x) (Some reason).
Definition clear_selected (reason : string) (x : FocusSelection) : FocusSelection :=
  mk_selection (fs_backend x) (fs_revision x) (fs_candidates x) None (fs_confidence x)
    (fs_selected_probability x) (fs_fit x) (Some reason).

Definition latest_user_task (messages : list Message) : option string :=
  message ← List.find (fun m => bool_decide (msg_role m = R_User) && match msg_source m with MS_User => true | _ => false end)
              (reverse messages);
  let text := concat_strings (omap (fun b => match b with CB_Text text => Some text | _ => None end) (msg_content message)) in
  if decide (trim text = EmptyString) then None else Some (chars_take 3000 text).

(** [jev_core::SelectionInput] and the part of the outcome the loop reads. *)
Record SelectionInput := mk_selection_input {
  si_task : string; si_context : string; si_state_version : Z; si_candidates : list (string * string)
}.
Record SelectionOutcome := mk_selection_outcome {
  so_selected_id : option string; so_confidence : option f64; so_selected_probability : option f64;
  so_fit : option f64; so_fallback : option string
}.

Definition selection_input (local : bool) (turn step : Z) (task : string) (tools : list ToolSchema) (x : FocusSelection) : SelectionInput :=
  let tool_names := join ", " (ts_name <$> tools) in
  mk_selection_input
    (if local then chars_take 900 task else task)
    (if local
     then "Coding turn " +:+ pretty turn +:+ ", step " +:+ pretty step +:+ ". Tools: " +:+ chars_take 120 tool_names +:+ ". Choose focus only."
     else "Current coding loop turn " +:+ pretty turn +:+ ", step " +:+ pretty step +:+ ". Available tool names: "
          +:+ chars_take 800 tool_names +:+ ". Select one admitted tool bundle; do not create a command or patch.")
    (fs_revision x) ((fun c => (pf_id c, pf_description c)) <$> fs_candidates x).

(** The selection after the selector answered. *)
Definition apply_outcome (local : bool) (o : SelectionOutcome) (x : FocusSelection) : FocusSelection :=
  let selected := id ← so_selected_id o; List.find (fun c => bool_decide (pf_id c = id)) (fs_candidates x) in
  mk_selection (fs_backend x) (fs_revision x) (fs_candidates x) selected (so_confidence o)
    (if local then so_selected_probability o else None) (if local then None else so_fit o)
    (match selected with
     | Some _ => fs_fallback x
     | None =>
         Some (match so_selected_id o with
               | Some _ => "unprepared_choice"
               | None => default "selector_abstained" (so_fallback o)
               end)
     end)%string.

Definition revision_of (turn step : Z) : Z := Z.lor (u64_wrap (Z.shiftl turn 32)) (Z.land step (2 ^ 32 - 1)).
Definition new_selection (mode : FocusMode) (turn step : Z) (tools : list ToolSchema) : FocusSelection :=
  mk_selection (match mode with FM_Jev => Jev | _ => Laya end) (revision_of turn step) (prepare_focus_choices tools)
    None None None None None.

(** * State *)

Inductive AgentStatus := AS_Idle | AS_Running.
#[export] Instance AgentStatus_eq_dec : EqDecision AgentStatus.
Proof. solve_decision. Defined.

Inductive Phase :=
| Idle (last_turn : Z)
| Maintenance (abort : nat) (wake_requested : bool)
| Running (abort : nat) (turn step : Z) (wake_requested : bool).
Definition phase_status (p : Phase) : AgentStatus :=
  match p with Idle _ | Maintenance _ _ => AS_Idle | Running _ _ _ _ => AS_Running end.

Record AgentOptions := mk_agent_options { ao_provider : option string; ao_model : option string; ao_max_tokens : option Z }.

Inductive LoopError :=
| LE_Aborted
| LE_NotRunning
| LE_NoRoute
| LE_Session (e : SessionError)
| LE_Inbox (e : InboxError)
| LE_Llm (e : LlmError)
| LE_Prompt (e : PromptError)
| LE_Listener (message : string).

(** [Driver]: spawned drivers that have not started. *)
Record Loop (W : Type) := mk_agent {
  al_inbox : Inbox;
  al_phase : Phase;
  al_signals : list (option string);
  al_logged : bool;
  al_context : RuntimeContextProjection;
  al_mode : FocusMode;
  al_status : list AgentStatus;
  al_spawned : nat;
  al_errors : list (Z * Z * LoopError);
  al_world : W;
}.
Arguments mk_agent {W}.
Arguments al_inbox {W}.
Arguments al_phase {W}.
Arguments al_signals {W}.
Arguments al_logged {W}.
Arguments al_context {W}.
Arguments al_mode {W}.
Arguments al_status {W}.
Arguments al_spawned {W}.
Arguments al_errors {W}.
Arguments al_world {W}.

(** Requests other tasks make while the driver waits. *)
Inductive AgentOp :=
| AO_Send (message : Message) (target : InboxTarget) (wakeup : bool)
| AO_Cancel (cause : AgentCancelCause) (keep_inbox : bool)
| AO_Append (data : SessionEventData) (intent : option SurfaceIntent).

Inductive outcome (A : Type) :=
| Ret (a : A)
| Throw (e : LoopError)
| Hang
| NoFuel.
Arguments Ret {A} a.
Arguments Throw {A} e.
Arguments Hang {A}.
Arguments NoFuel {A}.

Section loop.
Context {W : Type}.
Abbreviation St := (Loop W) (only parsing).
Implicit Types (st : Loop W).

Definition set_inbox (v : Inbox) st : St := mk_agent v (al_phase st) (al_signals st) (al_logged st) (al_context st) (al_mode st) (al_status st) (al_spawned st) (al_errors st) (al_world st).
Definition put_phase (v : Phase) st : St := mk_agent (al_inbox st) v (al_signals st) (al_logged st) (al_context st) (al_mode st) (al_status st) (al_spawned st) (al_errors st) (al_world st).
Definition set_signals (v : list (option string)) st : St := mk_agent (al_inbox st) (al_phase st) v (al_logged st) (al_context st) (al_mode st) (al_status st) (al_spawned st) (al_errors st) (al_world st).
Definition set_logged (v : bool) st : St := mk_agent (al_inbox st) (al_phase st) (al_signals st) v (al_context st) (al_mode st) (al_status st) (al_spawned st) (al_errors st) (al_world st).
Definition set_context (v : RuntimeContextProjection) st : St := mk_agent (al_inbox st) (al_phase st) (al_signals st) (al_logged st) v (al_mode st) (al_status st) (al_spawned st) (al_errors st) (al_world st).
Definition set_mode (v : FocusMode) st : St := mk_agent (al_inbox st) (al_phase st) (al_signals st) (al_logged st) (al_context st) v (al_status st) (al_spawned st) (al_errors st) (al_world st).
Definition set_status (v : list AgentStatus) st : St := mk_agent (al_inbox st) (al_phase st) (al_signals st) (al_logged st) (al_context st) (al_mode st) v (al_spawned st) (al_errors st) (al_world st).
Definition set_spawned (v : nat) st : St := mk_agent (al_inbox st) (al_phase st) (al_signals st) (al_logged st) (al_context st) (al_mode st) (al_status st) v (al_errors st) (al_world st).
Definition set_errors (v : list (Z * Z * LoopError)) st : St := mk_agent (al_inbox st) (al_phase st) (al_signals st) (al_logged st) (al_context st) (al_mode st) (al_status st) (al_spawned st) v (al_world st).
Definition set_world (v : W) st : St := mk_agent (al_inbox st) (al_phase st) (al_signals st) (al_logged st) (al_context st) (al_mode st) (al_status st) (al_spawned st) (al_errors st) v.

Definition al_session st : Session := ib_session (al_inbox st).
Definition set_session (s : Session) st : St := set_inbox (mk_inbox s (ib_lists (al_inbox st)) (ib_notified (al_inbox st))) st.

(** * The monad of the driver *)

Definition M (A : Type) : Type := St -> St * outcome A.
Definition ret {A} (a : A) : M A := fun st => (st, Ret a).
Definition throw {A} (e : LoopError) : M A := fun st => (st, Throw e).
Definition hang {A} : M A := fun st => (st, Hang).
Definition no_fuel {A} : M A := fun st => (st, NoFuel).
Definition bind {A B} (m : M A) (k : A -> M B) : M B := fun st =>
  match m st with
  | (st, Ret a) => k a st
  | (st, Throw e) => (st, Throw e)
  | (st, Hang) => (st, Hang)
  | (st, NoFuel) => (st, NoFuel)
  end.
Definition gets {A} (f : St -> A) : M A := fun st => (st, Ret (f st)).
Definition modify (f : St -> St) : M unit := fun st => (f st, Ret tt).
Definition state {A} (f : St -> St * A) : M A := fun st => let '(st, a) := f st in (st, Ret a).
Definition of_res {A} (r : result A LoopError) : M A := match r with Ok a => ret a | Err e => throw e end.
(** The answer of a future, [None] when there is none. *)
Definition answer {A} (r : option (result A LoopError)) : M A := match r with Some r => of_res r | None => hang end.
(** A fallible computation whose error is a value. *)
Definition attempt {A} (m : M A) : M (result A LoopError) := fun st =>
  match m st with
  | (st, Ret a) => (st, Ret (Ok a))
  | (st, Throw e) => (st, Ret (Err e))
  | (st, Hang) => (st, Hang)
  | (st, NoFuel) => (st, NoFuel)
  end.
End loop.
Notation "'let^' x := m 'in' k" := (bind m (fun x => k)) (at level 10, x pattern, m at level 100, k at level 200) : keel_scope.

(** What the driver asks of everything outside this file: the clock, minted
    ids, serde, the mode file, other tasks, and the awaited services. *)
Record Env (W : Type) := mk_env {
  e_id : SessionId;
  e_options : AgentOptions;
  e_now : Session -> Z;
  e_mint : Session -> MessageId;
  e_ops : Session -> SessionEvent -> list SessionOp;
  e_splice_value : InboxSplice -> Value;
  e_cause_to_string : AgentCancelCause -> option string;
  e_cause_of_string : string -> option AgentCancelCause;
  e_schema_to_string : ToolSchema -> option string;
  e_arguments : string -> option Value;
  e_error_chain : LoopError -> string;
  e_receipt_value : DecisionEvent -> option Value;
  e_receipt_id : Loop W -> string;
  e_clock_ms : Loop W -> Z;
  e_mode_file : Loop W -> option ModeFile;
  e_interfere : Loop W -> W * list AgentOp;
  e_assemble : Loop W -> option (result PromptAssembly LoopError);
  e_pre_step : Loop W -> list Message -> Z -> Z -> option (result (option (list Message)) LoopError);
  e_request : Loop W -> LlmCallConfig -> Z -> Z -> option (result LlmCallConfig LoopError);
  e_request_error : Loop W -> LlmFailure -> option ResolvedRetryPolicy -> option (result bool LoopError);
  e_turn_stopping : Loop W -> Z -> option unit;
  e_selector : FocusMode -> bool;
  e_select : Loop W -> FocusMode -> SelectionInput -> option (option SelectionOutcome);
  e_runtime : Loop W -> LlmRuntime;
  e_waterfall : Loop W -> Waterfall;
  e_stream_aborted : Loop W -> bool;
  e_open_stream : W -> W;
  e_tool : Loop W -> ToolExecutionInput -> W * list AgentOp * ToolExecutionResult;
}.
Arguments e_id {W}. Arguments e_options {W}. Arguments e_now {W}. Arguments e_mint {W}. Arguments e_ops {W}.
Arguments e_splice_value {W}. Arguments e_cause_to_string {W}. Arguments e_cause_of_string {W}.
Arguments e_schema_to_string {W}. Arguments e_arguments {W}. Arguments e_error_chain {W}. Arguments e_receipt_value {W}.
Arguments e_receipt_id {W}. Arguments e_clock_ms {W}. Arguments e_mode_file {W}. Arguments e_interfere {W}.
Arguments e_assemble {W}. Arguments e_pre_step {W}. Arguments e_request {W}. Arguments e_request_error {W}.
Arguments e_turn_stopping {W}. Arguments e_selector {W}. Arguments e_select {W}. Arguments e_runtime {W}.
Arguments e_waterfall {W}. Arguments e_stream_aborted {W}. Arguments e_open_stream {W}. Arguments e_tool {W}.

Section driver.
Context {W : Type} (E : Env W).
Implicit Types (st : Loop W).

(** * Abort controllers *)

Definition is_aborted (signal : nat) st : bool :=
  match al_signals st !! signal with Some (Some _) => true | _ => false end.
Definition abort_reason (signal : nat) st : option string := al_signals st !! signal ≫= id.
(** [abort]: the first abort wins. *)
Definition abort (signal : nat) (reason : string) st : Loop W :=
  if is_aborted signal st then st else set_signals (<[signal := Some reason]> (al_signals st)) st.
Definition encode_cause (cause : AgentCancelCause) : string := default "user" (e_cause_to_string E cause).
Definition cancel_cause_of (signal : nat) st : AgentCancelCause :=
  default ACC_User (reason ← abort_reason signal st; e_cause_of_string E reason).
(** [AbortController::new()]. *)
Definition new_controller st : Loop W * nat := (set_signals (al_signals st ++ [None]) st, length (al_signals st)).

(** * Phases *)

Definition set_phase (next : Phase) st : Loop W :=
  let previous := phase_status (al_phase st) in
  let st := put_phase next st in
  if decide (phase_status next = previous) then st else set_status (al_status st ++ [phase_status next]) st.

Definition set_wake (b : bool) (p : Phase) : Phase :=
  match p with
  | Idle n => Idle n
  | Maintenance abort _ => Maintenance abort b
  | Running abort turn step _ => Running abort turn step b
  end.

Definition disposed (signal : nat) st : bool :=
  match abort_reason signal st with Some reason => contains "disposed" reason | None => false end.

Definition wake_driver (wake_after_abort : bool) st : Loop W :=
  match al_phase st with
  | Maintenance abort _ => if disposed abort st then st else put_phase (set_wake true (al_phase st)) st
  | Running abort _ _ _ =>
      if negb (disposed abort st) && wake_after_abort then put_phase (set_wake true (al_phase st)) st else st
  | Idle last_turn =>
      let '(st, controller) := new_controller st in
      let st := set_phase (Running controller last_turn 0 false) st in
      set_spawned (S (al_spawned st)) st
  end.

(** * The operations of the [Agent] trait *)

Definition inbox_call {A} (f : Inbox -> Inbox * result A InboxError) st : Loop W * result A InboxError :=
  let '(ib, r) := f (al_inbox st) in (set_inbox ib st, r).
Definition al_append (target : InboxTarget) (message : Message) : Inbox -> Inbox * result unit InboxError :=
  inbox_append (e_splice_value E) (e_now E) (e_ops E) target message.

Definition send (message : Message) (target : InboxTarget) (wakeup : bool) st : Loop W :=
  let waking_after_abort := wakeup &&
    match al_phase st with Idle _ => false | Maintenance abort _ | Running abort _ _ _ => is_aborted abort st end in
  let resolved := if waking_after_abort then NextTurn else target in
  let '(st, _) := inbox_call (al_append resolved message) st in
  if wakeup then wake_driver waking_after_abort st else st.
Definition followup (message : Message) st : Loop W := send message NextTurn true st.
Definition steer (message : Message) st : Loop W := send message NextStep true st.
Definition inject (message : Message) st : Loop W := send message NextStep false st.

Definition cancel (cause : AgentCancelCause) (keep_inbox : bool) st : Loop W :=
  let st :=
    if keep_inbox then st
    else
      let '(st, _) := inbox_call (Inbox.clear (e_splice_value E) (e_now E) (e_ops E)) st in
      put_phase (set_wake false (al_phase st)) st in
  match al_phase st with
  | Maintenance a _ | Running a _ _ _ => abort a (encode_cause cause) st
  | Idle _ => st
  end.

Definition agent_op st (op : AgentOp) : Loop W :=
  match op with
  | AO_Send message target wakeup => send message target wakeup st
  | AO_Cancel cause keep_inbox => cancel cause keep_inbox st
  | AO_Append data intent =>
      set_session (fst (append (listeners (e_ops E)) (e_now E (al_session st)) data intent (al_session st))) st
  end.

(** An await: the other tasks run. *)
Definition interference st : Loop W :=
  let '(w, ops) := e_interfere E st in foldl agent_op (set_world w st) ops.
Definition await : M (W := W) unit := modify interference.

(** * Effects of the driver *)

Definition ensure_live (signal : nat) : M (W := W) unit :=
  let^ stop := gets (is_aborted signal) in if stop then throw LE_Aborted else ret tt.
Definition session_append (data : SessionEventData) (intent : option SurfaceIntent) : M (W := W) SessionEvent := fun st =>
  let '(s, r) := append (listeners (e_ops E)) (e_now E (al_session st)) data intent (al_session st) in
  (set_session s st, match r with Ok e => Ret e | Err e => Throw (LE_Session e) end).
Definition session_append_ (data : SessionEventData) : M (W := W) unit :=
  let^ _ := attempt (session_append data None) in ret tt.
Definition get_messages : M (W := W) (list Message) := fun st =>
  let '(s, r) := derive_messages (al_session st) in
  (set_session s st, match r with Ok ms => Ret ms | Err _ => Hang end).
Definition get_header : M (W := W) (option EpochHeader) :=
  state (fun st => let '(s, h) := request_header (al_session st) in (set_session s st, h)).
Definition get_request_context : M (W := W) (option RequestContext) :=
  state (fun st => let '(s, c) := request_context (al_session st) in (set_session s st, c)).

Definition emit_error (turn step : Z) (e : LoopError) : M (W := W) unit :=
  modify (fun st => set_errors (al_errors st ++ [(turn, step, e)]) st).

Fixpoint for_each {A} (f : A -> M (W := W) unit) (l : list A) : M (W := W) unit :=
  match l with [] => ret tt | x :: l => let^ _ := f x in for_each f l end.

(** * The decision of a step *)

Definition select_decision_focus (turn step : Z) (tools : list ToolSchema) (signal : nat) : M (W := W) (option FocusSelection) :=
  let^ mode := gets al_mode in
  if decide (mode = FM_Normal) then ret None
  else
    let x := new_selection mode turn step tools in
    if bool_decide (fs_candidates x = [])
       || negb (bool_decide (tools = [])) && match fs_candidates x with [c] => bool_decide (pf_id c = "answer"%string) | _ => false end
    then ret (Some (set_fallback "no_enforceable_tool_bundle" x))
    else
      let^ messages := get_messages in
      match latest_user_task messages with
      | None => ret (Some (set_fallback "no_user_task" x))
      | Some task =>
          let local := bool_decide (mode = FM_Laya) in
          if negb (e_selector E mode) then ret (Some (set_fallback "selector_unavailable" x))
          else
            let^ _ := await in
            let^ st := gets id in
            match e_select E st mode (selection_input local turn step task tools x) with
            | None => hang
            | Some None => ret None
            | Some (Some o) => ret (Some (apply_outcome local o x))
            end
      end.

Definition receipt_event (turn step : Z) (x : FocusSelection) (observed : string) st : DecisionEvent :=
  let e := DecisionEvent_new ("dsh-" +:+ pretty turn +:+ "-" +:+ pretty step +:+ "-" +:+ e_receipt_id E st) (fs_revision x) (fs_backend x)
             DSt_PreStep ((fun c => mk_candidate (pf_id c) (pf_description c)) <$> fs_candidates x)
             (match fs_selected x with Some c => Selected (pf_id c) | None => Abstained end)
             (match fs_selected x with Some _ => DV_Accepted | None => DV_Rejected end)
             (Z.min (e_clock_ms E st) i64_max) in
  let e := with_observed_outcome observed e in
  let e := match fs_fallback x with Some fallback => with_fallback fallback e | None => e end in
  let e := match fs_confidence x with Some c => with_confidence c e | None => e end in
  let e := match fs_selected_probability x with Some p => with_selected_probability p e | None => e end in
  match fs_fit x with Some f => with_fit f e | None => e end.
(** [FocusReceipt::drop]. *)
Definition drop_receipt (turn step : Z) (x : FocusSelection) (observed : string) : M (W := W) unit :=
  let^ st := gets id in
  match e_receipt_value E (receipt_event turn step x observed st) with
  | None => ret tt
  | Some data => session_append_ (Extension "decision/receipt" data)
  end.
(** The receipt is dropped however the body ends; the body gives the outcome
    observed when it ends well. *)
Definition with_receipt {A} (turn step : Z) (selection : option FocusSelection) (body : M (W := W) (A * string)) : M (W := W) A :=
  match selection with
  | None => let^ r := body in ret r.1
  | Some x =>
      let^ r := attempt body in
      match r with
      | Ok (a, observed) => let^ _ := drop_receipt turn step x observed in ret a
      | Err e => let^ _ := drop_receipt turn step x "bundle_bound_step_incomplete" in throw e
      end
  end.

(** * Building a request *)

Definition request_proposal (header : EpochHeader) : LlmCallConfig :=
  let c := eh_config header in
  match eh_adapter_defaults header with
  | None => c
  | Some d =>
      mk_call_config (cfg_provider c) (cfg_model c)
        (if bool_decide (ad_reasoning_effort d = Some true) then None else cfg_reasoning_effort c)
        (cfg_temperature c)
        (if bool_decide (ad_max_tokens d = Some true) then None else cfg_max_tokens c) (cfg_stop c)
  end.

Definition default_config : LlmCallConfig := mk_call_config EmptyString EmptyString None None None None.
Definition seed_config (logged : bool) (options : AgentOptions) (persisted : option EpochHeader) : LlmCallConfig :=
  let route_provider := default EmptyString (ao_provider options) in
  let route_model := default EmptyString (ao_model options) in
  if logged then default default_config (request_proposal <$> persisted)
  else
    let effort :=
      header ← persisted;
      if bool_decide (cfg_provider (eh_config header) = route_provider) && bool_decide (cfg_model (eh_config header) = route_model)
         && negb (bool_decide ((eh_adapter_defaults header ≫= ad_reasoning_effort) = Some true))
      then cfg_reasoning_effort (eh_config header) else None in
    mk_call_config route_provider route_model effort None (ao_max_tokens options) None.

Definition NO_ADAPTER : string := "NO_ADAPTER".

(** [prepare_call(..).await] with its [NO_ADAPTER] case. *)
Definition prepare (proposed : LlmCallConfig) : M (W := W) (LlmCallConfig * option PreparedLlmCall) :=
  let^ _ := await in
  let^ st := gets id in
  match prepare_call (e_runtime E st) proposed with
  | None => hang
  | Some (Ok prepared) => ret (pc_config prepared, Some prepared)
  | Some (Err error) => if String.eqb (err_code error) NO_ADAPTER then ret (proposed, None) else throw (LE_Llm error)
  end.

(** The header's logging. *)
Definition log_header (header : EpochHeader) : M (W := W) unit :=
  let^ baseline := get_header in
  let^ logged := gets al_logged in
  if negb logged then
    let reason := match baseline with None => RH_Initial | Some _ => RH_Resume end in
    let^ _ := session_append (RequestHeader header reason) None in
    modify (set_logged true)
  else if match baseline with Some b => negb (header_equals (e_schema_to_string E) b header) | None => true end then
    let^ _ := session_append (RequestHeader header RH_Change) None in ret tt
  else ret tt.

(** The derived [PartialEq] of [RequestContext]. *)
Definition request_context_eqb (a b : RequestContext) : bool :=
  bool_decide (rc_provider a = rc_provider b) && bool_decide (rc_model a = rc_model b)
  && bool_decide (rc_context_window a = rc_context_window b).
Definition log_context (context : RequestContext) : M (W := W) unit :=
  let^ previous := get_request_context in
  if match previous with Some p => request_context_eqb p context | None => false end then ret tt
  else let^ _ := session_append (RequestContextEvent context) None in ret tt.

Definition build_request (turn step : Z) (tools : list ToolSchema) (system : string) (signal : nat)
    : M (W := W) (GenerateOptions * option PreparedLlmCall) :=
  let^ persisted := get_header in
  let^ logged := gets al_logged in
  let seed := seed_config logged (e_options E) persisted in
  let^ _ := await in
  let^ st := gets id in
  let^ proposed := answer (e_request E st seed turn step) in
  let^ _ := ensure_live signal in
  if String.eqb (cfg_provider proposed) EmptyString || String.eqb (cfg_model proposed) EmptyString then throw LE_NoRoute
  else
    let^ r := prepare proposed in
    let '(config, prepared) := r in
    let^ _ := ensure_live signal in
    let header := canonical_header (mk_epoch_header config (pc_adapter_defaults <$> prepared)
      (if String.eqb system EmptyString then None else Some system) (if bool_decide (tools = []) then None else Some tools)) in
    let^ _ := log_header header in
    let^ _ := log_context (mk_request_context (cfg_provider config) (cfg_model config) (prepared ≫= pc_context)) in
    let^ _ := ensure_live signal in
    let^ messages := get_messages in
    let request := mk_options EmptyString EmptyString None messages (eh_system header) (eh_tools header) None None None
                     (Some signal) (Some (e_id E)) None false in
    ret (mark_agent_loop_request (apply_to (eh_config header) request), prepared).

(** * One step *)

(** The loop over the stream's chunks. *)
Fixpoint consume (turn step : Z) (signal : nat) (chunks : list StreamChunk) (ending : Ending) (asm : BlockAssembler) (seqs : list Z)
    : M (W := W) (BlockAssembler * list Z) :=
  let^ _ := await in
  match chunks with
  | [] => match ending with Ended => ret (asm, seqs) | _ => hang end
  | chunk :: chunks =>
      let^ _ := ensure_live signal in
      let^ event := session_append (AssistantChunk turn step chunk) None in
      consume turn step signal chunks ending (push asm chunk) (seqs ++ [ev_seq event])
  end.

Definition open_stream (request : GenerateOptions) (prepared : option PreparedLlmCall) : M (W := W) ChunkStream :=
  let^ st := gets id in
  let r := match prepared with
           | Some p => snd (prepared_stream (e_runtime E st) (e_waterfall E st) (e_stream_aborted E st) request p)
           | None => Ok (runtime_stream (e_runtime E st) (e_waterfall E st) (e_stream_aborted E st) request)
           end in
  let^ _ := modify (fun st => set_world (e_open_stream E (al_world st)) st) in
  of_res (map_err LE_Llm r).

Definition planned_calls (content : list ContentBlock) : list PlannedCall :=
  omap (fun b => match b with CB_ToolCall id name arguments => Some (mk_planned id name arguments) | _ => None end) content.

Definition run_tool st (s : Session) (x : ToolExecutionInput) : Loop W * Session * ToolExecutionResult :=
  let st := set_session s st in
  let '(w, ops, r) := e_tool E st x in
  let st := foldl agent_op (set_world w st) ops in
  (st, al_session st, r).
Definition accept_context st (s : Session) (m : Message) : Loop W * Session :=
  let '(st, _) := inbox_call (al_append NextStep m) (set_session s st) in (st, al_session st).
Definition execute_calls (turn step : Z) (calls : list PlannedCall) (admitted : option (list string)) (signal : nat)
    : M (W := W) ToolCallsOutcome :=
  state (fun st =>
    let '(st', s, o) := execute_tool_calls (e_arguments E) (e_now E) (e_mint E) (e_ops E) (is_aborted signal) run_tool accept_context
      turn step calls admitted st (al_session st) in
    (set_session s st', o)).

Definition bool_text (b : bool) : string := if b then "true" else "false".
Definition outcome_text (o : ToolCallsOutcome) : string :=
  "tools_dispatched=" +:+ pretty (oc_dispatched o) +:+ ",denied=" +:+ pretty (oc_denied o) +:+ ",failed=" +:+ pretty (oc_failed o)
  +:+ ",aborted=" +:+ pretty (oc_aborted o) +:+ ",concluded=" +:+ bool_text (oc_concluded o).

(** The end of a step: the assistant message, and the calls it made. *)
Definition finish_step (turn step : Z) (request : GenerateOptions) (admitted : option (list string)) (signal : nat)
    (asm : BlockAssembler) (seqs : list Z) : M (W := W) (option TurnEndReason * string) :=
  let^ s := gets al_session in
  match blocks asm with
  | Err _ => hang
  | Ok content =>
      let message := create_message (e_mint E s) R_Assistant content
                       (MS_Model (mk_provenance (go_provider request) (go_model request) (asm_replay_state asm))) in
      let calls := planned_calls content in
      let^ _ := session_append (AssistantMessage turn step message (asm_usage asm)) (Some (intent_append_with_sources seqs)) in
      match finish asm with
      | FR_MaxTokens => ret (Some TE_MaxTokens, "model_max_tokens"%string)
      | _ =>
          if bool_decide (calls = []) then ret (Some TE_Completed, "completed_without_tool_calls"%string)
          else
            let^ o := execute_calls turn step calls admitted signal in
            ret (if oc_concluded o then Some TE_Completed else None, outcome_text o)
      end
  end.

Definition finish_failure (r : FinishReason) : option LlmFailure :=
  match r with FR_Error failure | FR_Aborted failure => Some failure | _ => None end.

(** One attempt per unit of fuel. *)
Fixpoint request_loop (fuel : nat) (turn step : Z) (tools : list ToolSchema) (system : string) (admitted : option (list string))
    (signal : nat) : M (W := W) (option TurnEndReason * string) :=
  match fuel with
  | O => no_fuel
  | S fuel =>
      let^ r := build_request turn step tools system signal in
      let '(request, prepared) := r in
      let^ stream := open_stream request prepared in
      let^ _ := ensure_live signal in
      let^ c := consume turn step signal stream.1 stream.2 BlockAssembler_new [] in
      let '(asm, seqs) := c in
      let^ _ := ensure_live signal in
      match finish_failure (finish asm) with
      | Some failure =>
          let^ _ := await in
          let^ st := gets id in
          let^ retry := answer (e_request_error E st failure (pc_retry_policy <$> prepared)) in
          let^ _ := ensure_live signal in
          if retry then request_loop fuel turn step tools system admitted signal
          else match LlmError_new (failure_message failure) (failure_code failure) with
               | None => hang
               | Some error => throw (LE_Llm error)
               end
      | None => finish_step turn step request admitted signal asm seqs
      end
  end.

(** Rendering is total, so the [None] of its fuel is no behaviour. *)
Definition of_rendered {A} (r : option (result A PromptError)) : M (W := W) A :=
  match r with None => no_fuel | Some r => of_res (map_err LE_Prompt r) end.

Definition host_selected : string :=
  section_separator +:+ "Host-selected step (tool availability is enforced): ".

(** The boundary check of the selected bundle. *)
Definition recheck (tools : list ToolSchema) (x : FocusSelection) : FocusSelection :=
  match fs_selected x with
  | Some c =>
      if bool_decide (admitted_tool_names (Some (pf_id c)) tools = Some (pf_admitted c)) then x
      else clear_selected "stale_tool_bundle" x
  | None => x
  end.

Definition step_tools (admitted : option (list string)) (tools : list ToolSchema) : list ToolSchema :=
  match admitted with Some names => base.filter (fun t => ts_name t ∈ names) tools | None => tools end.

Definition step_body (fuel : nat) (turn step : Z) (assembly : PromptAssembly) (signal : nat) : M (W := W) (option TurnEndReason) :=
  let^ system := of_rendered (render_prompt assembly) in
  let^ selection := select_decision_focus turn step (pa_tools assembly) signal in
  let selection := recheck (pa_tools assembly) <$> selection in
  let selected := selection ≫= fs_selected in
  let admitted := pf_admitted <$> selected in
  match selected with
  | Some c =>
      match focus_text (pf_id c) with
      | None => hang
      | Some text =>
          with_receipt turn step selection
            (let^ _ := ensure_live signal in
             request_loop fuel turn step (step_tools admitted (pa_tools assembly)) (system +:+ host_selected +:+ text) admitted signal)
      end
  | None =>
      with_receipt turn step selection
        (let^ _ := ensure_live signal in
         request_loop fuel turn step (step_tools admitted (pa_tools assembly)) system admitted signal)
  end.

(** * One turn *)

Definition pre_step (target : InboxTarget) (turn step : Z) (signal : nat) : M (W := W) (option (list Message * PromptAssembly)) :=
  let^ r := state (inbox_call (claim (e_splice_value E) (e_now E) (e_ops E) target turn)) in
  let^ claimed := of_res (map_err LE_Inbox r) in
  let^ _ := await in
  let^ st := gets id in
  let^ assembly := answer (e_assemble E st) in
  let^ _ := ensure_live signal in
  let^ sections := of_rendered (render_context_sections assembly) in
  let^ context := state (fun st =>
    let '(p, m) := project (e_mint E (al_session st)) (al_session st) (join_context_sections sections) sections (al_context st) in
    (set_context p st, m)) in
  let proposed := claimed ++ option_list context in
  let^ _ := await in
  let^ st := gets id in
  let^ decision := answer (e_pre_step E st proposed turn step) in
  let^ _ := ensure_live signal in
  ret ((fun messages => (messages, assembly)) <$> decision).

Definition running_step st : option Z := match al_phase st with Running _ _ step _ => Some step | _ => None end.
Definition set_running_step (step : Z) st : Loop W :=
  match al_phase st with Running a turn _ wake => put_phase (Running a turn step wake) st | _ => st end.
Definition set_running_turn (turn : Z) st : Loop W :=
  match al_phase st with Running a _ step wake => put_phase (Running a turn step wake) st | _ => st end.

Definition next_step_empty st : bool := bool_decide (il_next_step (ib_lists (al_inbox st)) = []).
Definition append_user (message : Message) : M (W := W) unit :=
  let^ _ := session_append (UserMessage message) (Some intent_append) in ret tt.

(** The end-of-step checks; whether the turn ends. *)
Definition close_step (turn : Z) (signal : nat) (turn_ends : option TurnEndReason) : M (W := W) bool :=
  let^ _ := ensure_live signal in
  let ending := bool_decide (is_Some turn_ends) in
  let^ quiet := gets next_step_empty in
  let^ _ :=
    if ending && quiet then
      let^ _ := await in
      let^ st := gets id in
      let^ _ := match e_turn_stopping E st turn with Some _ => ret tt | None => hang end in
      ensure_live signal
    else ret tt in
  let^ quiet := gets next_step_empty in
  ret (ending && quiet).

(** From the step's start event to its end event, which is attempted however
    the step ends. *)
Definition run_step (fuel : nat) (turn step : Z) (messages : list Message) (assembly : PromptAssembly) (signal : nat)
    : M (W := W) (option TurnEndReason) :=
  let^ _ := session_append (StepStart turn step) None in
  let^ _ := modify (set_running_step step) in
  let^ step_outcome := attempt (let^ _ := for_each append_user messages in step_body fuel turn step assembly signal) in
  let^ _ := session_append_ (StepEnd turn step) in
  of_res step_outcome.

(** What one iteration decides: the turn is over, or the next one. *)
Definition turn_iteration (fuel : nat) (signal : nat) (turn : Z) (turn_ends : option TurnEndReason) (target : InboxTarget)
    : M (W := W) (option TurnEndReason * bool) :=
  let^ _ := ensure_live signal in
  let^ current := gets running_step in
  match current with
  | None => throw LE_NotRunning
  | Some current =>
      let step := u64_succ current in
      let^ decision := pre_step target turn step signal in
      match decision with
      | None => ret (Some TE_Blocked, true)
      | Some (messages, assembly) =>
          let^ current := gets (fun st => default 0%Z (running_step st)) in
          if bool_decide (is_Some turn_ends) && bool_decide (messages = []) then ret (turn_ends, true)
          else if bool_decide (current = 0%Z) && bool_decide (messages = []) then ret (Some TE_Completed, true)
          else
            let^ _ := ensure_live signal in
            let^ step_end := run_step fuel turn step messages assembly signal in
            let turn_ends := if bool_decide (turn_ends = Some TE_MaxTokens) then turn_ends else step_end in
            let^ over := close_step turn signal turn_ends in
            ret (turn_ends, over)
      end
  end.
Fixpoint turn_loop (fuel : nat) (signal : nat) (turn : Z) (turn_ends : option TurnEndReason) (target : InboxTarget)
    : M (W := W) (option TurnEndReason) :=
  match fuel with
  | O => no_fuel
  | S fuel' =>
      let^ r := turn_iteration fuel signal turn turn_ends target in
      if r.2 then ret r.1 else turn_loop fuel' signal turn r.1 NextStep
  end.

Definition failure_of (e : LoopError) : LlmFailure :=
  match e with LE_Llm e => err_failure e | _ => LlmFailure_new (e_error_chain E e) "UNKNOWN" end.

(** How a turn that started ends. *)
Definition turn_close (signal : nat) (turn : Z) (r : result (option TurnEndReason) LoopError) : M (W := W) (option TurnEndReason) :=
  match r with
  | Ok turn_ends => ret turn_ends
  | Err e =>
      let^ stopped := gets (is_aborted signal) in
      if stopped then let^ cause := gets (cancel_cause_of signal) in ret (Some (TE_Aborted cause))
      else
        let^ step := gets (fun st => default 0%Z (running_step st)) in
        let^ _ := emit_error turn step e in
        ret (Some (TE_Error (failure_of e)))
  end.
(** The steps of a turn and its end event, which is attempted however they end. *)
Definition run_turn (fuel : nat) (signal : nat) (turn : Z) : M (W := W) (result (option TurnEndReason) LoopError) :=
  let^ r := attempt (turn_loop fuel signal turn None NextTurn) in
  let^ turn_ends := turn_close signal turn r in
  let^ _ := session_append_ (TurnEnd turn (default TE_Completed turn_ends)) in
  ret r.

Definition turn (fuel : nat) : M (W := W) bool :=
  let^ _ := modify (fun st => set_mode (focus_mode (e_mode_file E st)) st) in
  let^ phase := gets al_phase in
  match phase with
  | Running signal last _ _ =>
      let turn := u64_succ last in
      let^ _ := ensure_live signal in
      let^ _ := session_append (TurnStart turn) None in
      let^ _ := modify (set_running_turn turn) in
      let^ r := run_turn fuel signal turn in
      match r with
      | Err _ => ret false
      | Ok _ =>
          let^ pending := gets (fun st => has_pending (al_inbox st)) in
          if negb pending then ret false
          else
            let^ _ := modify (fun st =>
              match al_phase st with
              | Running _ turn _ _ => let '(st, controller) := new_controller st in put_phase (Running controller turn 0 false) st
              | _ => st
              end) in
            ret true
      end
  | _ => throw LE_NotRunning
  end.

(** * The driver and maintenance *)

(** One turn per unit of fuel, each with that many attempts. *)
Fixpoint turns (fuel : nat) : M (W := W) unit :=
  match fuel with
  | O => no_fuel
  | S fuel' =>
      let^ r := attempt (turn fuel) in
      match r with Ok true => turns fuel' | Ok false | Err _ => ret tt end
  end.
Definition kick (fuel : nat) : M (W := W) unit :=
  let^ _ := turns fuel in
  modify (fun st =>
    match al_phase st with
    | Running _ turn _ wake =>
        let st := set_phase (Idle turn) st in
        if wake && has_pending (al_inbox st) then wake_driver false st else st
    | _ => st
    end).

(** [run_maintenance] up to its task, and after it; [None]: refused. *)
Definition begin_maintenance st : option (Loop W * Z * nat) :=
  match al_phase st with
  | Idle last_turn =>
      let '(st, controller) := new_controller st in
      Some (put_phase (Maintenance controller false) st, last_turn, controller)
  | _ => None
  end.
Definition end_maintenance (last_turn : Z) st : Loop W :=
  let wake := match al_phase st with Maintenance _ wake => wake | _ => false end in
  let st := set_phase (Idle last_turn) st in
  if wake && has_pending (al_inbox st) then wake_driver false st else st.

(** [ReactLoopAgent::new_with_decisions], over a loaded inbox. *)
Definition last_turn_of (log : list SessionEvent) : Z :=
  default 0%Z (e ← rfind (fun e => match ev_data e with TurnStart _ => true | _ => false end) log;
               match ev_data e with TurnStart turn => Some turn | _ => None end).
Definition agent_new (file : option ModeFile) (ib : Inbox) (w : W) : Loop W :=
  mk_agent ib (Idle (last_turn_of (ss_log (ib_session ib)))) [] false (RuntimeContextProjection_new (ib_session ib))
    (focus_mode file) [] 0 [] w.
End driver.
