(* ===== verification/AgentTurns.v ===== *)
(** What the agent driver guarantees: turns are bracketed and balanced in the
    log, one driver at a time, and a turn ends.

    The reasoning is by a small program logic for the driver's monad: [spec]
    states what a computation may write to the log when it returns and when it
    throws, and how it may change the phase. *)
From Stdlib Require Import ZArith Lia Ascii String.
From stdpp Require Import base tactics numbers list strings gmap pretty.
From S2P Require Import Prelude Json Text Proto Llm Model Retry Assembler SessionEvents Surface HeaderFold Session Repair Inbox ToolCalls Adapter LlmRuntime Scope SystemPrompt RuntimeContext AgentLoop.
Open Scope keel_scope.

(** * Events *)

Definition is_boundary (d : SessionEventData) : bool := match d with TurnStart _ | TurnEnd _ _ => true | _ => false end.
(** Events the crash scan ignores. *)
Definition inert_data (d : SessionEventData) : bool :=
  match d with
  | TurnStart _ | TurnEnd _ _ | StepStart _ _ | StepEnd _ _ | AssistantMessage _ _ _ _ | ToolCall _ _ _ _ _ | ToolResult _ _ _ _ _ => false
  | _ => true
  end.
Definition inert (e : SessionEvent) : Prop := inert_data (ev_data e) = true.

(** Event lists that leave an open step, or an open turn, as they found it. *)
Definition no_boundary (es : list SessionEvent) : Prop := Forall (fun e => is_boundary (ev_data e) = false) es.
Definition within_step (es : list SessionEvent) : Prop :=
  no_boundary es /\ forall o s, foldl scan_event (mk_scan o s []) es = mk_scan o s [].
Definition within_turn (es : list SessionEvent) : Prop :=
  no_boundary es /\ forall o, foldl scan_event (mk_scan o None []) es = mk_scan o None [].
Definition single (P : SessionEventData -> Prop) (es : list SessionEvent) : Prop := exists e, es = [e] /\ P (ev_data e).

Lemma inert_scan s e : inert e -> scan_event s e = s.
Proof. unfold inert, scan_event. by destruct (ev_data e). Qed.
Lemma inert_boundary e : inert e -> is_boundary (ev_data e) = false.
Proof. unfold inert. by destruct (ev_data e). Qed.

Lemma inerts_scan s es : Forall inert es -> foldl scan_event s es = s.
Proof. intros H. revert s. induction H as [|e es He _ IH]; intros s; cbn [foldl]; [done|]. by rewrite inert_scan. Qed.
Lemma inerts_no_boundary es : Forall inert es -> no_boundary es.
Proof. intros H. eapply Forall_impl; [exact H|]. apply inert_boundary. Qed.

Lemma inert_within_step es : Forall inert es -> within_step es.
Proof. intros H. split; [by apply inerts_no_boundary|]. intros o s. by apply inerts_scan. Qed.
Lemma within_step_turn es : within_step es -> within_turn es.
Proof. intros [H1 H2]. split; [done|]. intros o. apply H2. Qed.
Lemma within_step_app a b : within_step a -> within_step b -> within_step (a ++ b).
Proof. intros [A1 A2] [B1 B2]. split; [by apply Forall_app|]. intros o s. by rewrite foldl_app, A2, B2. Qed.
Lemma within_turn_app a b : within_turn a -> within_turn b -> within_turn (a ++ b).
Proof. intros [A1 A2] [B1 B2]. split; [by apply Forall_app|]. intros o. by rewrite foldl_app, A2, B2. Qed.
Lemma within_turn_step turn step a b mid :
  single (fun d => d = StepStart turn step) a -> within_step mid -> single (fun d => d = StepEnd turn step) b ->
  within_turn (a ++ mid ++ b).
Proof.
  intros (x & -> & Hx) [M1 M2] (y & -> & Hy). split.
  - constructor; [by rewrite Hx|]. apply Forall_app. split; [done|]. constructor; [by rewrite Hy|constructor].
  - intros o. cbn [app foldl]. rewrite foldl_app. unfold scan_event at 3. rewrite Hx. cbn [rs_open_turn rs_pending].
    rewrite M2. cbn [foldl]. unfold scan_event. by rewrite Hy.
Qed.

(** ** The events of a step's tool calls *)

Lemma start_call_filter id seq p : base.filter (fun x => pc_call_id x <> id) (start_call id seq p) = base.filter (fun x => pc_call_id x <> id) p.
Proof.
  induction p as [|x p IH]; [done|]. cbn [start_call]. unfold same_call. case_bool_decide as Hx.
  - rewrite !filter_cons. cbn [pc_call_id]. rewrite Hx. by rewrite !decide_False by tauto.
  - rewrite !filter_cons, IH. done.
Qed.

Lemma call_scan turn step call c middle r after o s p is_error code :
  is_call_marker turn step call c -> Forall inert middle -> is_call_result turn step call is_error code r -> Forall inert after ->
  foldl scan_event (mk_scan o s p) (c :: middle ++ r :: after)
  = mk_scan o s (base.filter (fun x => pc_call_id x <> pl_call_id call) p).
Proof.
  intros Hc Hm (id & content & error & meta & Hr & _) Ha. cbn [foldl]. unfold scan_event at 2. rewrite Hc. unfold tool_call_data.
  cbn [rs_open_turn rs_open_step rs_pending]. rewrite foldl_app. cbn [foldl]. rewrite (inerts_scan _ after Ha), (inerts_scan _ middle Hm).
  unfold scan_event. rewrite Hr. cbn. f_equal. apply start_call_filter.
Qed.

Lemma call_no_boundary turn step call c middle r after is_error code :
  is_call_marker turn step call c -> Forall inert middle -> is_call_result turn step call is_error code r -> Forall inert after ->
  no_boundary (c :: middle ++ r :: after).
Proof.
  intros Hc Hm (id & content & error & meta & Hr & _) Ha. constructor; [by rewrite Hc|]. apply Forall_app.
  split; [by apply inerts_no_boundary|]. constructor; [by rewrite Hr|]. by apply inerts_no_boundary.
Qed.

Lemma record_scan turn step admitted call k o s p :
  call_record inert turn step admitted call k ->
  no_boundary k.2 /\ foldl scan_event (mk_scan o s p) k.2 = mk_scan o s (base.filter (fun x => pc_call_id x <> pl_call_id call) p).
Proof.
  destruct k as [kind es]. unfold call_record. cbn [fst snd]. destruct kind.
  - intros (_ & c & nested & r & after & -> & Hn & Ha & Hc & Hr). split; [by eapply call_no_boundary|by eapply call_scan].
  - intros (_ & c & r & -> & Hc & Hr). split; [by eapply (call_no_boundary _ _ _ c [] r [])|by eapply (call_scan _ _ _ c [] r [])].
  - intros (c & r & -> & Hc & Hr). split; [by eapply (call_no_boundary _ _ _ c [] r [])|by eapply (call_scan _ _ _ c [] r [])].
Qed.

Lemma records_scan turn step admitted calls ks o s p :
  Forall2 (call_record inert turn step admitted) calls ks ->
  no_boundary (concat ks.*2)
  /\ foldl scan_event (mk_scan o s p) (concat ks.*2) = mk_scan o s (base.filter (fun x => pc_call_id x ∉ pl_call_id <$> calls) p).
Proof.
  intros H. revert p. induction H as [|call k calls ks Hk _ IH]; intros p.
  - split; [constructor|]. cbn. f_equal. symmetry. apply filter_all. intros x _ Hx. by apply elem_of_nil in Hx.
  - rewrite !fmap_cons. cbn [concat]. destruct (record_scan _ _ _ _ _ o s p Hk) as [B S].
    destruct (IH (base.filter (fun x => pc_call_id x <> pl_call_id call) p)) as [B' S'].
    split; [by apply Forall_app|]. rewrite foldl_app, S, S'. f_equal. rewrite list_filter_filter. apply filter_ext_on.
    intros x _. rewrite not_elem_of_cons. tauto.
Qed.

(** * Writes to the session *)

Definition writes (X : list SessionEvent -> Prop) (s s' : Session) : Prop :=
  exists es, ss_log s' = ss_log s ++ es /\ (good s -> has_room s' -> good s' /\ X es).
Abbreviation writes_inert := (writes (Forall inert)).

Lemma writes_refl (X : list SessionEvent -> Prop) s : X [] -> writes X s s.
Proof. intros H. exists []. rewrite app_nil_r. by split. Qed.

Lemma writes_trans (X Y Z : list SessionEvent -> Prop) s1 s2 s3 :
  (forall a b, X a -> Y b -> Z (a ++ b)) -> writes X s1 s2 -> writes Y s2 s3 -> writes Z s1 s3.
Proof.
  intros Hc (es1 & H1 & G1) (es2 & H2 & G2). exists (es1 ++ es2). rewrite H2, H1, app_assoc. split; [done|].
  intros Hg Hr. destruct G1 as [Hg2 F1]; [done| |].
  { eapply has_room_prefix; [|exact Hr]. rewrite H2. by apply prefix_app_r. }
  destruct G2 as [Hg3 F2]; [done..|]. split; [done|]. by apply Hc.
Qed.

Lemma writes_weaken (X Y : list SessionEvent -> Prop) s s' : (forall es, X es -> Y es) -> writes X s s' -> writes Y s s'.
Proof. intros H (es & He & G). exists es. split; [done|]. intros Hg Hr. destruct (G Hg Hr) as [? ?]. auto. Qed.

Lemma writes_foreign s s' : writes_inert s s' <-> foreign_write inert s s'.
Proof. done. Qed.

#[export] Instance writes_inert_preorder : PreOrder writes_inert.
Proof. apply foreign_write_preorder. Qed.

(** A read of a derived value changes no event. *)
Lemma writes_same_log (X : list SessionEvent -> Prop) s s' :
  X [] -> ss_log s' = ss_log s -> (good s -> good s') -> writes X s s'.
Proof. intros H Hl Hg. exists []. rewrite app_nil_r. split; [done|]. intros G _. split; [by apply Hg|done]. Qed.

Section appending.
Context (ops : Session -> SessionEvent -> list SessionOp).

(** An append, whatever is appended. *)
Lemma append_writes now data intent s :
  let '(s', r) := append (listeners ops) now data intent s in
  match r with
  | Ok e => writes (fun es => es = [e] /\ ev_data e = data) s s'
  | Err _ => writes (fun es => es = []) s s'
  end.
Proof.
  pose proof (append_ignored_grows (fun _ => now) ops data intent s) as Hgrow. unfold append_ignored in Hgrow.
  destruct (append (listeners ops) now data intent s) as [s' r] eqn:Ea. cbn [fst] in Hgrow. destruct Hgrow as (es & He).
  assert (Hspec : good s -> has_room s ->
    match r with
    | Ok e => e = next_event now data intent s /\ ss_log s' = ss_log s ++ [e] /\ good s'
    | Err _ => s' = s
    end).
  { intros [Hinv Hidle] Hroom. pose proof (append_spec (listeners ops) now data intent s (listeners_ok ops) Hinv Hroom Hidle) as H.
    cbv zeta in H. rewrite Ea in H. destruct r as [e|err].
    - destruct H as (-> & _ & Hl & Hi & Ha & _). by split_and!.
    - by destruct err; try done; destruct H. }
  destruct r as [e|err]; exists es; (split; [exact He|]); intros Hg Hr.
  - destruct (Hspec Hg) as (-> & Hl & Hg'); [eapply has_room_prefix; [|exact Hr]; rewrite He; by apply prefix_app_r|].
    rewrite Hl in He. apply app_inv_head in He as <-. by split_and!.
  - assert (E : s' = s) by (apply Hspec; [done|]; eapply has_room_prefix; [|exact Hr]; rewrite He; by apply prefix_app_r).
    subst s'. split; [done|]. rewrite <- (app_nil_r (ss_log s)) in He at 1. by apply app_inv_head in He.
Qed.

(** An append to the log only is never refused. *)
Lemma append_log_only now data s :
  is_surface_eligible_type (data_type data) = false ->
  let '(s', r) := append (listeners ops) now data None s in
  match r with
  | Ok e => writes (single (fun d => d = data)) s s'
  | Err _ => writes (fun _ => False) s s'
  end.
Proof.
  intros Hlog. pose proof (append_writes now data None s) as Hw.
  destruct (append (listeners ops) now data None s) as [s' [e|err]] eqn:Ea.
  - eapply writes_weaken; [|exact Hw]. intros es [-> He]. by exists e.
  - destruct Hw as (es & He & G). exists es. split; [exact He|]. intros Hg Hr. exfalso.
    destruct (G Hg Hr) as [_ ->]. rewrite app_nil_r in He.
    assert (Hroom : has_room s) by (unfold has_room in *; by rewrite <- He). destruct Hg as [Hinv Hidle].
    pose proof (append_spec (listeners ops) now data None s (listeners_ok ops) Hinv Hroom Hidle) as H. cbv zeta in H. rewrite Ea in H.
    assert (Hok : is_ok (fold_surface (ss_log s ++ [next_event now data None s])) = true).
    { apply accept_log_only; [by apply has_room_fits| |done]. apply good_fold. by split. }
    destruct err; try done. destruct H as [_ H]. congruence.
Qed.
End appending.

(** * Writes of the inbox *)

Section inbox_writes.
Context (to_value : InboxSplice -> Value) (now : Session -> Z) (ops : Session -> SessionEvent -> list SessionOp).

Lemma mutate_writes target start delete_count inserted discard ib :
  writes_inert (ib_session ib) (ib_session (fst (mutate to_value now ops target start delete_count inserted discard ib))).
Proof.
  unfold mutate. cbv zeta. destruct (_ && _); [done|]. destruct (validate _ _); [|done].
  match goal with |- context [append (listeners ops) ?n ?d ?i ?s] => pose proof (append_writes ops n d i s) as H end.
  destruct (append _ _ _ _ _) as [s [e|err]].
  - assert (Hw : writes_inert (ib_session ib) s).
    { eapply writes_weaken; [|exact H]. intros es [-> He]. constructor; [|constructor]. unfold inert. by rewrite He. }
    destruct (apply _ _) as [[l removed]|]; exact Hw.
  - eapply writes_weaken; [|exact H]. intros es ->. constructor.
Qed.

Lemma then_writes {A B} (r : Inbox * result A InboxError) (k : Inbox -> A -> Inbox * result B InboxError) s :
  writes_inert s (ib_session (fst r)) -> (forall ib a, writes_inert (ib_session ib) (ib_session (fst (k ib a)))) ->
  writes_inert s (ib_session (fst (then_ r k))).
Proof. intros H Hk. destruct r as [ib [a|e]]; [|exact H]. etransitivity; [exact H|]. apply Hk. Qed.

Lemma clear_writes ib : writes_inert (ib_session ib) (ib_session (fst (Inbox.clear to_value now ops ib))).
Proof.
  apply then_writes; [apply mutate_writes|]. intros ib' _. apply then_writes; [apply mutate_writes|]. by intros.
Qed.
Lemma inbox_append_writes target message ib :
  writes_inert (ib_session ib) (ib_session (fst (inbox_append to_value now ops target message ib))).
Proof. apply then_writes; [apply mutate_writes|]. by intros. Qed.
Lemma claim_writes target turn ib : writes_inert (ib_session ib) (ib_session (fst (claim to_value now ops target turn ib))).
Proof.
  apply then_writes; [apply mutate_writes|]. intros ib' claimed. apply then_writes; [|done].
  destruct target; [|done]. apply then_writes; [apply mutate_writes|]. by intros.
Qed.
End inbox_writes.

(** * How the agent's state evolves *)

Section evolution.
Context {W : Type} (E : Env W).
Implicit Types (st : Loop W).

(** A running phase keeps its controller and its turn; [same_run] also its step. *)
Definition same_run (p p' : Phase) : Prop :=
  forall a t s w, p = Running a t s w -> exists w', p' = Running a t s w'.
Definition same_turn (p p' : Phase) : Prop :=
  forall a t s w, p = Running a t s w -> exists s' w', p' = Running a t s' w'.
#[export] Instance same_run_preorder : PreOrder same_run.
Proof.
  split; [by intros p a t s w ->; eauto|]. intros p1 p2 p3 H1 H2 a t s w Hp. destruct (H1 _ _ _ _ Hp) as (w' & ->). eauto.
Qed.
#[export] Instance same_turn_preorder : PreOrder same_turn.
Proof.
  split; [by intros p a t s w ->; eauto|]. intros p1 p2 p3 H1 H2 a t s w Hp. destruct (H1 _ _ _ _ Hp) as (s' & w' & ->). eauto.
Qed.
Lemma same_run_turn p p' : same_run p p' -> same_turn p p'.
Proof. intros H a t s w Hp. destruct (H _ _ _ _ Hp) as (w' & ->). eauto. Qed.

(** Controllers are never removed, and an aborted one keeps its first reason. *)
Definition signals_le (l l' : list (option string)) : Prop :=
  length l <= length l' /\ forall i r, l !! i = Some (Some r) -> l' !! i = Some (Some r).
#[export] Instance signals_le_preorder : PreOrder signals_le.
Proof. split; [done|]. intros l1 l2 l3 [? ?] [? ?]. split; [lia|auto]. Qed.

(** While a driver runs, no other is spawned. *)
Definition same_drivers st st' : Prop :=
  forall a t s w, al_phase st = Running a t s w -> al_spawned st' = al_spawned st.

Record frame (F : Phase -> Phase -> Prop) st st' : Prop := {
  fr_phase : F (al_phase st) (al_phase st');
  fr_signals : signals_le (al_signals st) (al_signals st');
  fr_drivers : same_drivers st st';
}.
#[export] Instance frame_run_preorder : PreOrder (frame same_run).
Proof.
  split; [by split; [..|intros ?]|]. intros st1 st2 st3 [P1 S1 D1] [P2 S2 D2]. split; [by etransitivity..|].
  intros a t s w Hp. destruct (P1 _ _ _ _ Hp) as (w' & Hp'). erewrite D2, D1 by done. done.
Qed.
#[export] Instance frame_turn_preorder : PreOrder (frame same_turn).
Proof.
  split; [by split; [..|intros ?]|]. intros st1 st2 st3 [P1 S1 D1] [P2 S2 D2]. split; [by etransitivity..|].
  intros a t s w Hp. destruct (P1 _ _ _ _ Hp) as (s' & w' & Hp'). erewrite D2, D1 by done. done.
Qed.
Lemma frame_run_turn st st' : frame same_run st st' -> frame same_turn st st'.
Proof. intros [P S D]. split; [by apply same_run_turn|done|done]. Qed.

Lemma frame_same st st' :
  al_phase st' = al_phase st -> al_signals st' = al_signals st -> al_spawned st' = al_spawned st -> frame same_run st st'.
Proof. intros Hp Hs Hd. split; [by rewrite Hp|by rewrite Hs|]. by intros ?. Qed.

(** ** The operations of other tasks *)

Definition foreign_op (op : AgentOp) : Prop := match op with AO_Append data _ => inert_data data = true | _ => True end.

Lemma set_phase_fields next st :
  al_phase (set_phase next st) = next /\ al_signals (set_phase next st) = al_signals st
  /\ al_spawned (set_phase next st) = al_spawned st /\ al_session (set_phase next st) = al_session st
  /\ al_inbox (set_phase next st) = al_inbox st /\ al_world (set_phase next st) = al_world st.
Proof. unfold set_phase. cbv zeta. by destruct (decide (phase_status next = phase_status (al_phase st))). Qed.

Lemma wake_idle b st n :
  al_phase st = Idle n ->
  let st' := wake_driver b st in
  al_phase st' = Running (length (al_signals st)) n 0 false /\ al_signals st' = al_signals st ++ [None]
  /\ al_spawned st' = S (al_spawned st) /\ al_session st' = al_session st /\ al_inbox st' = al_inbox st
  /\ al_world st' = al_world st.
Proof.
  intros Hp. unfold wake_driver. rewrite Hp. cbn [new_controller].
  match goal with |- context [set_phase ?p ?s] => destruct (set_phase_fields p s) as (H1 & H2 & H3 & H4 & H5 & H6) end.
  cbn [al_phase al_signals al_spawned set_spawned al_inbox al_world]. cbv zeta. rewrite H1, H2, H3, H5, H6.
  split_and!; try done.
Qed.

Lemma wake_frame b st : frame same_run st (wake_driver b st) /\ al_session (wake_driver b st) = al_session st.
Proof.
  destruct (al_phase st) as [n|a w|a t s w] eqn:Hp.
  - destruct (wake_idle b st n Hp) as (_ & Hs & _ & Hse & _). split; [|done]. split.
    + intros ????. by rewrite Hp.
    + rewrite Hs. split; [rewrite length_app; lia|]. intros i r Hi. by apply lookup_app_l_Some.
    + intros ????. by rewrite Hp.
  - unfold wake_driver. rewrite Hp. destruct (disposed a st); [done|]. split; [|done].
    split; [|done|]; intros ????; by rewrite Hp.
  - unfold wake_driver. rewrite Hp. destruct (_ && _); [|done]. split; [|done]. split; [|done|by intros ????].
    intros a' t' s' w' H. rewrite Hp in H. injection H as <- <- <- <-. cbn. eauto.
Qed.

Lemma inbox_call_frame {A} (f : Inbox -> Inbox * result A InboxError) st :
  (forall ib, writes_inert (ib_session ib) (ib_session (fst (f ib)))) ->
  let '(st', _) := inbox_call f st in frame same_run st st' /\ writes_inert (al_session st) (al_session st').
Proof.
  intros Hf. unfold inbox_call. specialize (Hf (al_inbox st)). destruct (f (al_inbox st)) as [ib r]. split; [|exact Hf].
  by apply frame_same.
Qed.

Lemma abort_frame a reason st : frame same_run st (abort a reason st) /\ al_session (abort a reason st) = al_session st.
Proof.
  unfold abort. destruct (is_aborted a st) eqn:Ha; [done|]. split; [|done]. split; [done| |by intros ?].
  cbn. split; [by rewrite length_insert|]. intros i r Hi. destruct (decide (a = i)) as [<-|Hne].
  - exfalso. unfold is_aborted in Ha. by rewrite Hi in Ha.
  - by rewrite list_lookup_insert_ne.
Qed.

Lemma agent_op_evolves st op :
  foreign_op op -> frame same_run st (agent_op E st op) /\ writes_inert (al_session st) (al_session (agent_op E st op)).
Proof.
  destruct op as [message target wakeup|cause keep|data intent]; cbn [agent_op foreign_op]; intros Hf.
  - unfold send. cbv zeta. pose proof (inbox_call_frame (al_append E
      (if wakeup && match al_phase st with Idle _ => false | Maintenance abort _ | Running abort _ _ _ => is_aborted abort st end
       then NextTurn else target) message) st) as H.
    destruct (inbox_call _ st) as [st1 r]. destruct H as [F1 W1]; [intros; apply inbox_append_writes|].
    destruct wakeup; [|done]. match goal with |- context [wake_driver ?b st1] => destruct (wake_frame b st1) as [F2 W2] end.
    split; [by etransitivity|]. by rewrite W2.
  - unfold cancel. cbv zeta. set (st1 := if keep then st else _).
    assert (H1 : frame same_run st st1 /\ writes_inert (al_session st) (al_session st1)).
    { subst st1. destruct keep; [done|].
      pose proof (inbox_call_frame (Inbox.clear (e_splice_value E) (e_now E) (e_ops E)) st) as H.
      destruct (inbox_call _ st) as [st1 r]. destruct H as [F1 W1]; [intros; apply clear_writes|]. split; [|exact W1].
      etransitivity; [exact F1|]. split; [|done|by intros ?]. intros a t s w Hp. cbn. rewrite Hp. cbn. eauto. }
    destruct H1 as [F1 W1]. clearbody st1.
    destruct (al_phase st1); [by split|..]; (match goal with |- context [abort ?a ?r st1] => destruct (abort_frame a r st1) as [F2 W2] end;
      split; [by etransitivity|by rewrite W2]).
  - pose proof (append_writes (e_ops E) (e_now E (al_session st)) data intent (al_session st)) as H.
    destruct (append _ _ _ _ _) as [s r]. split; [by apply frame_same|]. cbn [fst].
    destruct r; (eapply writes_weaken; [|exact H]); [intros es [-> He]; constructor; [unfold inert; by rewrite He|constructor]|].
    intros es ->. constructor.
Qed.

Lemma agent_ops_evolve ops st :
  Forall foreign_op ops ->
  frame same_run st (foldl (agent_op E) st ops) /\ writes_inert (al_session st) (al_session (foldl (agent_op E) st ops)).
Proof.
  intros H. revert st. induction H as [|op ops Hop _ IH]; intros st; cbn [foldl]; [done|].
  destruct (agent_op_evolves st op Hop) as [F1 W1]. destruct (IH (agent_op E st op)) as [F2 W2]. split; by etransitivity.
Qed.

(** * A logic for the driver's monad *)

(** [spec F X T Q m]: returning, [m] gives a value in [Q] and writes events in
    [X]; throwing, it writes events in [T]; either way the state changes within
    the frame. *)
Definition spec {A} (F : Phase -> Phase -> Prop) (X T : list SessionEvent -> Prop) (Q : A -> Prop) (m : M (W := W) A) : Prop :=
  forall st,
    match m st with
    | (st', Ret a) => Q a /\ frame F st st' /\ writes X (al_session st) (al_session st')
    | (st', Throw _) => frame F st st' /\ writes T (al_session st) (al_session st')
    | _ => True
    end.

Section rules.
Context (F : Phase -> Phase -> Prop) `{!PreOrder (frame F)}.
Context {A B : Type}.

Lemma spec_ret X T (Q : A -> Prop) a : X [] -> Q a -> spec F X T Q (ret a).
Proof. intros HX HQ st. split_and!; [done|done|]. by apply writes_refl. Qed.
Lemma spec_throw X T (Q : A -> Prop) e : T [] -> spec F X T Q (throw e).
Proof. intros HT st. split; [done|]. by apply writes_refl. Qed.
Lemma spec_hang X T (Q : A -> Prop) : spec F X T Q hang.
Proof. by intros st. Qed.
Lemma spec_no_fuel X T (Q : A -> Prop) : spec F X T Q no_fuel.
Proof. by intros st. Qed.
Lemma spec_gets X T (Q : A -> Prop) f : X [] -> (forall st, Q (f st)) -> spec F X T Q (gets f).
Proof. intros HX HQ st. split_and!; [done|done|]. by apply writes_refl. Qed.

Lemma spec_bind (X Y Z T1 T2 T : list SessionEvent -> Prop) (P : A -> Prop) (Q : B -> Prop) m k :
  spec F X T1 P m -> (forall a, P a -> spec F Y T2 Q (k a)) ->
  (forall a b, X a -> Y b -> Z (a ++ b)) -> (forall a b, X a -> T2 b -> T (a ++ b)) -> (forall a, T1 a -> T a) ->
  spec F Z T Q (bind m k).
Proof.
  intros Hm Hk HZ HT2 HT1 st. unfold bind. specialize (Hm st). destruct (m st) as [st1 [a|e| |]]; try done.
  - destruct Hm as (HP & F1 & W1). specialize (Hk a HP st1). destruct (k a st1) as [st2 [b|e| |]]; try done.
    + destruct Hk as (HQ & F2 & W2). split_and!; [done|by etransitivity|by eapply writes_trans].
    + destruct Hk as (F2 & W2). split; [by etransitivity|by eapply writes_trans].
  - destruct Hm as (F1 & W1). split; [done|]. by eapply writes_weaken.
Qed.

Lemma spec_attempt (X : list SessionEvent -> Prop) (Q : A -> Prop) m T :
  spec F X X Q m -> spec F X T (fun r => match r with Ok a => Q a | Err _ => True end) (attempt m).
Proof.
  intros Hm st. unfold attempt. specialize (Hm st). destruct (m st) as [st1 [a|e| |]]; try done.
Qed.

Lemma spec_weaken (X X' T T' : list SessionEvent -> Prop) (Q Q' : A -> Prop) m :
  spec F X T Q m -> (forall es, X es -> X' es) -> (forall es, T es -> T' es) -> (forall a, Q a -> Q' a) -> spec F X' T' Q' m.
Proof.
  intros Hm HX HT HQ st. specialize (Hm st). destruct (m st) as [st1 [a|e| |]]; try done.
  - destruct Hm as (? & ? & ?). split_and!; [auto|done|by eapply writes_weaken].
  - destruct Hm as (? & ?). split; [done|by eapply writes_weaken].
Qed.
End rules.

Lemma spec_run_turn {A} X T (Q : A -> Prop) m : spec same_run X T Q m -> spec same_turn X T Q m.
Proof.
  intros Hm st. specialize (Hm st). destruct (m st) as [st1 [a|e| |]]; try done.
  - destruct Hm as (? & ? & ?). split_and!; [done|by apply frame_run_turn|done].
  - destruct Hm as (? & ?). split; [by apply frame_run_turn|done].
Qed.

(** Computations that write only events the crash scan ignores. *)
Definition calm {A} (m : M (W := W) A) : Prop := spec same_run (Forall inert) (Forall inert) (fun _ => True) m.

Lemma calm_bind {A B} (m : M (W := W) A) (k : A -> M (W := W) B) : calm m -> (forall a, calm (k a)) -> calm (bind m k).
Proof.
  intros Hm Hk. eapply spec_bind; [apply _|exact Hm|intros a _; apply Hk| | |done]; intros; by apply Forall_app.
Qed.
Lemma calm_ret {A} (a : A) : calm (ret a).
Proof. by apply spec_ret; [apply _|constructor|]. Qed.
Lemma calm_throw {A} e : calm (A := A) (throw e).
Proof. by apply spec_throw; [apply _|constructor]. Qed.
Lemma calm_hang {A} : calm (A := A) hang.
Proof. by intros st. Qed.
Lemma calm_no_fuel {A} : calm (A := A) no_fuel.
Proof. by intros st. Qed.
Lemma calm_gets {A} (f : Loop W -> A) : calm (gets f).
Proof. by apply spec_gets; [apply _|constructor|]. Qed.
Lemma calm_attempt {A} (m : M (W := W) A) : calm m -> calm (attempt m).
Proof. intros Hm. eapply spec_weaken; [exact (spec_attempt same_run (Forall inert) _ m (Forall inert) Hm)|done|done|done]. Qed.
Lemma calm_of_res {A} (r : result A LoopError) : calm (of_res r).
Proof. destruct r; [apply calm_ret|apply calm_throw]. Qed.
Lemma calm_answer {A} (r : option (result A LoopError)) : calm (answer r).
Proof. destruct r; [apply calm_of_res|apply calm_hang]. Qed.
Lemma calm_rendered {A} (r : option (result A PromptError)) : calm (of_rendered r).
Proof. destruct r; [apply calm_of_res|apply calm_no_fuel]. Qed.
(** A change of fields the frame does not cover. *)
Lemma calm_state {A} (f : Loop W -> Loop W * A) :
  (forall st, frame same_run st (f st).1 /\ writes_inert (al_session st) (al_session (f st).1)) -> calm (state f).
Proof. intros Hf st. unfold state. specialize (Hf st). destruct (f st) as [st' a]. by destruct Hf. Qed.
Lemma calm_modify (f : Loop W -> Loop W) :
  (forall st, frame same_run st (f st) /\ writes_inert (al_session st) (al_session (f st))) -> calm (modify f).
Proof. intros Hf st. by destruct (Hf st). Qed.

(** What the theorems ask of the tasks that share the session with the driver:
    the events they append are none of the driver's own. *)
Class WellBehaved : Prop := {
  wb_interfere st : Forall foreign_op (e_interfere E st).2;
  wb_tool st x : Forall foreign_op (e_tool E st x).1.2;
}.
Context {WB : WellBehaved}.

Lemma calm_await : calm (await E).
Proof.
  apply calm_modify. intros st. unfold interference. pose proof (wb_interfere st) as H. destruct (e_interfere E st) as [w ops].
  destruct (agent_ops_evolve ops (set_world w st) H) as [F1 W1]. split; [|exact W1].
  etransitivity; [|exact F1]. by apply frame_same.
Qed.

Lemma calm_append data intent : inert_data data = true -> calm (session_append E data intent).
Proof.
  intros Hd st. unfold session_append.
  pose proof (append_writes (e_ops E) (e_now E (al_session st)) data intent (al_session st)) as H.
  destruct (append _ _ _ _ _) as [s [e|err]]; [split; [done|]|]; (split; [by apply frame_same|]); (eapply writes_weaken; [|exact H]).
  - intros es [-> He]. constructor; [unfold inert; by rewrite He|constructor].
  - intros es ->. constructor.
Qed.

Lemma calm_messages : calm get_messages.
Proof.
  intros st. unfold get_messages. pose proof (derive_messages_spec (al_session st)) as H.
  assert (Hl : ss_log (derive_messages (al_session st)).1 = ss_log (al_session st)).
  { unfold derive_messages. cbv zeta. destruct (bool_decide _); by destruct (try_fold _ _ _). }
  destruct (derive_messages (al_session st)) as [s r]. destruct r as [ms|err]; [|done].
  split_and!; [done|by apply frame_same|]. apply writes_same_log; [constructor|exact Hl|].
  intros [Hi Ha]. destruct (H Hi) as (_ & ? & _ & _ & Ha' & _). split; [done|exact (eq_trans Ha' Ha)].
Qed.
Lemma calm_header : calm get_header.
Proof.
  apply calm_state. intros st. pose proof (request_header_spec (al_session st)) as H.
  assert (Hl : ss_log (request_header (al_session st)).1 = ss_log (al_session st)) by (unfold request_header; cbv zeta; by destruct (_ <? _)).
  destruct (request_header (al_session st)) as [s h]. split; [by apply frame_same|]. apply writes_same_log; [constructor|exact Hl|].
  intros [Hi Ha]. destruct (H Hi) as (_ & ? & _ & _ & Ha' & _). split; [done|exact (eq_trans Ha' Ha)].
Qed.
Lemma calm_request_context : calm get_request_context.
Proof.
  apply calm_state. intros st. pose proof (request_context_spec (al_session st)) as H.
  assert (Hl : ss_log (request_context (al_session st)).1 = ss_log (al_session st)) by (unfold request_context; cbv zeta; by destruct (_ <? _)).
  destruct (request_context (al_session st)) as [s h]. split; [by apply frame_same|]. apply writes_same_log; [constructor|exact Hl|].
  intros [Hi Ha]. destruct (H Hi) as (_ & ? & _ & _ & Ha' & _). split; [done|exact (eq_trans Ha' Ha)].
Qed.
Lemma calm_live signal : calm (ensure_live signal).
Proof. apply calm_bind; [apply calm_gets|]. intros []; [apply calm_throw|apply calm_ret]. Qed.
Lemma calm_for_each {A} (f : A -> M (W := W) unit) l : (forall x, calm (f x)) -> calm (for_each f l).
Proof. intros Hf. induction l as [|x l IH]; cbn [for_each]; [apply calm_ret|]. by apply calm_bind. Qed.
End evolution.

(** Goes through a computation by its structure. *)
Create HintDb calm.
#[export] Hint Resolve calm_ret calm_throw calm_hang calm_no_fuel calm_gets calm_of_res calm_answer calm_rendered calm_await
  calm_messages calm_header calm_request_context calm_live : calm.
#[export] Hint Extern 1 (calm (session_append _ _ _)) => (apply calm_append; reflexivity) : calm.
Ltac calm_go :=
  repeat first
    [ progress cbv beta zeta
    | solve [eauto with calm]
    | apply calm_bind; [|intros ?]
    | apply calm_attempt
    | apply calm_for_each; intros ?
    | match goal with |- calm (match ?x with _ => _ end) => destruct x end
    | match goal with |- calm (if ?x then _ else _) => destruct x end ].

(** * The driver's parts *)

Section parts.
Context {W : Type} (E : Env W) {WB : WellBehaved E}.
Implicit Types (st : Loop W).

Lemma calm_inbox {A} (f : Inbox -> Inbox * result A InboxError) :
  (forall ib, writes_inert (ib_session ib) (ib_session (fst (f ib)))) -> calm (W := W) (state (inbox_call f)).
Proof.
  intros Hf. apply calm_state. intros st. pose proof (inbox_call_frame f st Hf) as H. by destruct (inbox_call f st).
Qed.

Lemma calm_prepare proposed : calm (prepare E proposed).
Proof. unfold prepare. calm_go. Qed.
Lemma calm_log_header header : calm (log_header E header).
Proof. unfold log_header. calm_go. apply calm_modify. intros st. split; [by apply frame_same|done]. Qed.
Lemma calm_log_context context : calm (log_context E context).
Proof. unfold log_context. calm_go. Qed.

Hint Resolve calm_prepare calm_log_header calm_log_context : calm.

Lemma calm_build_request turn step tools system signal : calm (build_request E turn step tools system signal).
Proof. unfold build_request. calm_go. Qed.
Lemma calm_open_stream request prepared : calm (open_stream E request prepared).
Proof. unfold open_stream. calm_go. apply calm_modify. intros st. split; [by apply frame_same|done]. Qed.
Lemma calm_consume turn step signal chunks ending asm seqs : calm (consume E turn step signal chunks ending asm seqs).
Proof.
  revert asm seqs. induction chunks as [|chunk chunks IH]; intros asm seqs; cbn [consume].
  - calm_go.
  - apply calm_bind; [apply calm_await; done|]. intros _. apply calm_bind; [apply calm_live|]. intros _.
    apply calm_bind; [by apply calm_append|]. intros event. apply IH.
Qed.
Lemma calm_select turn step tools signal : calm (select_decision_focus E turn step tools signal).
Proof. unfold select_decision_focus. calm_go. Qed.
Lemma calm_append_ data : inert_data data = true -> calm (session_append_ E data).
Proof. intros Hd. unfold session_append_. apply calm_bind; [|intros _; apply calm_ret]. by apply calm_attempt, calm_append. Qed.
Lemma calm_drop_receipt turn step x observed : calm (drop_receipt E turn step x observed).
Proof. unfold drop_receipt. calm_go. Qed.
Lemma calm_pre_step target turn step signal : calm (pre_step E target turn step signal).
Proof.
  unfold pre_step. apply calm_bind; [apply calm_inbox; intros; apply claim_writes|]. intros r. calm_go.
  apply calm_state. intros st. destruct (project _ _ _ _ _) as [p m]. split; [by apply frame_same|done].
Qed.
Lemma calm_append_user m : calm (append_user E m).
Proof. unfold append_user. calm_go. Qed.
Lemma calm_close_step turn signal turn_ends : calm (close_step E turn signal turn_ends).
Proof. unfold close_step. calm_go. Qed.

(** ** A step *)

(** The turn reasons a step gives. *)
Definition step_reason (r : option TurnEndReason) : Prop := r = None \/ r = Some TE_Completed \/ r = Some TE_MaxTokens.

(** What computations inside a step satisfy. *)
Definition stepping {A} (Q : A -> Prop) (m : M (W := W) A) : Prop := spec same_run within_step within_step Q m.

Lemma stepping_calm {A} (m : M (W := W) A) : calm m -> stepping (fun _ => True) m.
Proof. intros Hm. eapply spec_weaken; [exact Hm|apply inert_within_step|apply inert_within_step|done]. Qed.
Lemma stepping_bind {A B} (Q : A -> Prop) (Q' : B -> Prop) (m : M (W := W) A) (k : A -> M (W := W) B) :
  stepping Q m -> (forall a, Q a -> stepping Q' (k a)) -> stepping Q' (bind m k).
Proof. intros Hm Hk. eapply spec_bind; [apply _|exact Hm|exact Hk|apply within_step_app|apply within_step_app|done]. Qed.
Lemma stepping_after {A B} (Q : B -> Prop) (m : M (W := W) A) (k : A -> M (W := W) B) :
  calm m -> (forall a, stepping Q (k a)) -> stepping Q (bind m k).
Proof. intros Hm Hk. eapply stepping_bind; [by apply stepping_calm|]. intros a _. apply Hk. Qed.
Lemma stepping_ret {A} (Q : A -> Prop) a : Q a -> stepping Q (ret a).
Proof. intros HQ. apply spec_ret; [apply _| |done]. by apply inert_within_step. Qed.
Lemma stepping_throw {A} (Q : A -> Prop) e : stepping Q (throw e).
Proof. apply spec_throw; [apply _|]. by apply inert_within_step. Qed.


(** The tool calls of a step, recorded by [ToolCalls]. *)
Lemma run_tool_evolves st s x : frame same_run st (run_tool E st s x).1.1 /\ writes_inert s (run_tool E st s x).1.2.
Proof.
  unfold run_tool. pose proof (wb_tool E (set_session s st) x) as H. destruct (e_tool E (set_session s st) x) as [[w ops] r].
  destruct (agent_ops_evolve E ops (set_world w (set_session s st)) H) as [F1 W1]. split; [|exact W1].
  etransitivity; [|exact F1]. by apply frame_same.
Qed.
Lemma accept_evolves st s m : frame same_run st (accept_context E st s m).1 /\ writes_inert s (accept_context E st s m).2.
Proof.
  unfold accept_context. pose proof (inbox_call_frame (al_append E NextStep m) (set_session s st)) as H.
  destruct (inbox_call _ _) as [st' r]. destruct H as [F1 W1]; [intros; apply inbox_append_writes|]. split; [|exact W1].
  etransitivity; [|exact F1]. by apply frame_same.
Qed.

Definition recorded (turn step : Z) (admitted : option (list string)) (calls : list PlannedCall) (es : list SessionEvent) : Prop :=
  exists ks, es = concat ks.*2 /\ Forall2 (call_record inert turn step admitted) calls ks.

Lemma execute_calls_spec turn step calls admitted signal st :
  exists o, (execute_calls E turn step calls admitted signal st).2 = Ret o
  /\ frame same_run st (execute_calls E turn step calls admitted signal st).1
  /\ writes (recorded turn step admitted calls) (al_session st) (al_session (execute_calls E turn step calls admitted signal st).1).
Proof.
  unfold execute_calls, state, execute_tool_calls. cbv zeta.
  set (st0 := mk_loop st (al_session st) (mk_outcome false 0 0 0 0)).
  assert (Hx : forall env s x, let '(_, s', _) := run_tool E env s x in foreign_write inert s s').
  { intros env s x. pose proof (run_tool_evolves env s x) as [_ H]. by destruct (run_tool E env s x) as [[? ?] ?]. }
  assert (Ha : forall env s m, foreign_write inert s (accept_context E env s m).2) by (intros; apply accept_evolves).
  pose proof (run_calls_env (e_arguments E) (e_now E) (e_mint E) (e_ops E) (is_aborted signal) (run_tool E) (accept_context E)
    (frame same_run) turn step admitted calls st0 (fun env s x => proj1 (run_tool_evolves env s x))
    (fun env s m => proj1 (accept_evolves env s m))) as Hf.
  pose proof (run_calls_grows (e_arguments E) (e_now E) (e_mint E) (e_ops E) (is_aborted signal) (run_tool E) (accept_context E) inert Hx Ha
    turn step admitted calls st0) as Hg.
  pose proof (run_calls_ok (e_arguments E) (e_now E) (e_mint E) (e_ops E) (is_aborted signal) (run_tool E) (accept_context E) inert Hx Ha
    turn step admitted calls st0) as Hok.
  set (st1 := run_calls _ _ _ _ _ _ _ turn step admitted calls st0) in *. clearbody st1. exists (lp_outcome st1).
  split; [done|]. split.
  - etransitivity; [exact Hf|]. by apply frame_same.
  - destruct Hg as (es & He). exists es. split; [exact He|]. intros Hgood Hroom.
    destruct Hok as (ks & G & _ & L & F & _); [exact Hgood| |exact Hroom|].
    { unfold counters_ok, u32_max. cbn. lia. }
    split; [exact G|]. exists ks. split; [|exact F]. rewrite L in He. apply app_inv_head in He. by symmetry.
Qed.

Lemma planned_ids content : pl_call_id <$> planned_calls content = omap tool_call_id content.
Proof. unfold planned_calls. induction content as [|[] content IH]; cbn; rewrite ?IH; done. Qed.

Lemma blocks_max_tokens asm content : blocks asm = Ok content -> finish asm = FR_MaxTokens -> omap tool_call_id content = [].
Proof.
  unfold blocks. intros (bs & _ & H)%result_bind_Ok Hf. rewrite Hf in H. injection H as <-.
  induction bs as [|[] bs IH]; cbn; auto.
Qed.

(** An assistant message followed by the record of its calls leaves nothing pending. *)
Lemma message_within_step turn step message usage e admitted calls es :
  ev_data e = AssistantMessage turn step message usage -> omap tool_call_id (msg_content message) = pl_call_id <$> calls ->
  recorded turn step admitted calls es -> within_step (e :: es).
Proof.
  intros He Hc (ks & -> & Hks). split.
  - constructor; [by rewrite He|]. by apply (records_scan _ _ _ _ _ None None [] Hks).
  - intros o s. cbn [foldl]. unfold scan_event at 2. rewrite He. cbn [rs_open_turn rs_open_step rs_pending app].
    rewrite (proj2 (records_scan _ _ _ _ _ o s _ Hks)). f_equal. rewrite Hc. apply filter_none.
    intros x (id & -> & Hid)%list_elem_of_fmap Hx. done.
Qed.
Lemma recorded_nil turn step admitted : recorded turn step admitted [] [].
Proof. by exists []. Qed.

Lemma append_message_spec turn step message usage seqs st :
  match session_append E (AssistantMessage turn step message usage) (Some (intent_append_with_sources seqs)) st with
  | (st', Ret _) => frame same_run st st'
      /\ writes (fun es => exists e, es = [e] /\ ev_data e = AssistantMessage turn step message usage) (al_session st) (al_session st')
  | (st', Throw _) => frame same_run st st' /\ writes within_step (al_session st) (al_session st')
  | _ => True
  end.
Proof.
  unfold session_append.
  pose proof (append_writes (e_ops E) (e_now E (al_session st)) (AssistantMessage turn step message usage)
    (Some (intent_append_with_sources seqs)) (al_session st)) as H.
  destruct (append _ _ _ _ _) as [s [e|err]]; (split; [by apply frame_same|]); (eapply writes_weaken; [|exact H]).
  - intros es [-> He]. by exists e.
  - intros es ->. by apply inert_within_step.
Qed.

Lemma finish_step_spec turn step request admitted signal asm seqs :
  stepping (fun r => step_reason r.1) (finish_step E turn step request admitted signal asm seqs).
Proof.
  intros st. unfold finish_step, gets, bind at 1. destruct (blocks asm) as [content|] eqn:Hb; [|done]. cbv zeta.
  set (message := create_message _ _ content _). unfold bind at 1.
  pose proof (append_message_spec turn step message (asm_usage asm) seqs st) as H.
  destruct (session_append E _ _ st) as [st1 [e|e| |]]; try done. destruct H as [F1 W1].
  assert (Hplain : forall r : option TurnEndReason * string, step_reason r.1 -> planned_calls content = [] ->
    step_reason r.1 /\ frame same_run st st1 /\ writes within_step (al_session st) (al_session st1)).
  { intros r Hr Hc. split_and!; [done|done|]. eapply writes_weaken; [|exact W1]. intros es (x & -> & Hx).
    eapply (message_within_step _ _ _ _ x None []); [exact Hx| |apply recorded_nil]. change (msg_content message) with content.
    by rewrite <- planned_ids, Hc. }
  destruct (finish asm) eqn:Hf.
  3: { apply (Hplain (Some TE_MaxTokens, _)); [by right; right|]. pose proof (blocks_max_tokens _ _ Hb Hf) as Hn.
    rewrite <- planned_ids in Hn. by apply fmap_nil_inv in Hn. }
  all: case_bool_decide as Hc; [by apply (Hplain (Some TE_Completed, _)); [right; left|]|].
  all: unfold bind; destruct (execute_calls_spec turn step (planned_calls content) admitted signal st1) as (o & Ho & F2 & W2).
  all: destruct (execute_calls E _ _ _ _ _ st1) as [st2 r]; cbn [fst snd] in *; subst r; cbn.
  all: split_and!; [destruct (oc_concluded o); [by right; left|by left]|by etransitivity|].
  all: eapply writes_trans; [|exact W1|exact W2]; intros a b (x & -> & Hx) Hr; eapply message_within_step; [exact Hx| |exact Hr].
  all: change (msg_content message) with content; by rewrite planned_ids.
Qed.

Lemma request_loop_spec fuel turn step tools system admitted signal :
  stepping (fun r => step_reason r.1) (request_loop E fuel turn step tools system admitted signal).
Proof.
  induction fuel as [|fuel IH]; cbn [request_loop]; [by intros st|].
  apply stepping_after; [apply calm_build_request|]. intros [request prepared].
  apply stepping_after; [apply calm_open_stream|]. intros stream.
  apply stepping_after; [apply calm_live|]. intros _. apply stepping_after; [apply calm_consume|]. intros [asm seqs].
  apply stepping_after; [apply calm_live|]. intros _. destruct (finish_failure _) as [failure|]; [|apply finish_step_spec].
  apply stepping_after; [by apply calm_await|]. intros _. apply stepping_after; [apply calm_gets|]. intros st.
  apply stepping_after; [apply calm_answer|]. intros retry. apply stepping_after; [apply calm_live|]. intros _.
  destruct retry; [exact IH|]. destruct (LlmError_new _ _); [apply stepping_throw|by intros ?].
Qed.

Lemma with_receipt_spec {A} (Q : A -> Prop) turn step selection (body : M (W := W) (A * string)) :
  stepping (fun r => Q r.1) body -> stepping Q (with_receipt E turn step selection body).
Proof.
  intros Hb. unfold with_receipt. destruct selection as [x|].
  - eapply stepping_bind; [exact (spec_attempt same_run within_step _ body within_step Hb)|].
    intros [[a observed]|e] Hr; cbn in Hr; (apply stepping_after; [apply calm_drop_receipt|]); intros _; [by apply stepping_ret|apply stepping_throw].
  - eapply stepping_bind; [exact Hb|]. intros r Hr. by apply stepping_ret.
Qed.

Lemma step_body_spec fuel turn step assembly signal : stepping step_reason (step_body E fuel turn step assembly signal).
Proof.
  unfold step_body. apply stepping_after; [apply calm_rendered|]. intros system. apply stepping_after; [apply calm_select|].
  intros selection. cbv zeta. destruct (_ ≫= fs_selected) as [c|].
  - destruct (focus_text _); [|by intros ?]. apply with_receipt_spec. apply stepping_after; [apply calm_live|]. intros _. apply request_loop_spec.
  - apply with_receipt_spec. apply stepping_after; [apply calm_live|]. intros _. apply request_loop_spec.
Qed.
End parts.

(** * Turns *)

Section turns.
Context {W : Type} (E : Env W) {WB : WellBehaved E}.
Implicit Types (st : Loop W).

Definition turning {A} (Q : A -> Prop) (m : M (W := W) A) : Prop := spec same_turn within_turn within_turn Q m.

Lemma turning_calm {A} (m : M (W := W) A) : calm m -> turning (fun _ => True) m.
Proof.
  intros Hm. apply spec_run_turn in Hm. eapply spec_weaken; [exact Hm| | |done]; intros es H; by apply within_step_turn, inert_within_step.
Qed.
Lemma turning_bind {A B} (Q : A -> Prop) (Q' : B -> Prop) (m : M (W := W) A) (k : A -> M (W := W) B) :
  turning Q m -> (forall a, Q a -> turning Q' (k a)) -> turning Q' (bind m k).
Proof. intros Hm Hk. eapply spec_bind; [apply _|exact Hm|exact Hk|apply within_turn_app|apply within_turn_app|done]. Qed.
Lemma turning_after {A B} (Q : B -> Prop) (m : M (W := W) A) (k : A -> M (W := W) B) :
  calm m -> (forall a, turning Q (k a)) -> turning Q (bind m k).
Proof. intros Hm Hk. eapply turning_bind; [by apply turning_calm|]. intros a _. apply Hk. Qed.
Lemma within_turn_nil : within_turn [].
Proof. by apply within_step_turn, inert_within_step. Qed.
Lemma turning_ret {A} (Q : A -> Prop) a : Q a -> turning Q (ret a).
Proof. intros HQ. apply spec_ret; [apply _| |done]. apply within_turn_nil. Qed.
Lemma turning_throw {A} (Q : A -> Prop) e : turning Q (throw e).
Proof. apply spec_throw; [apply _|]. apply within_turn_nil. Qed.

(** Events of the log only are never refused. *)
Lemma append_data_spec data st :
  is_surface_eligible_type (data_type data) = false ->
  match session_append E data None st with
  | (st', Ret _) => frame same_run st st' /\ writes (single (fun d => d = data)) (al_session st) (al_session st')
      /\ al_inbox st' = mk_inbox (al_session st') (ib_lists (al_inbox st)) (ib_notified (al_inbox st))
  | (st', Throw _) => frame same_run st st' /\ writes (fun _ => False) (al_session st) (al_session st')
  | _ => False
  end.
Proof.
  intros Hd. unfold session_append.
  pose proof (append_log_only (e_ops E) (e_now E (al_session st)) data (al_session st) Hd) as H.
  destruct (append _ _ _ _ _) as [s [e|err]]; [split_and!|split]; try done; by apply frame_same.
Qed.
Lemma append_data_spec_ data st :
  is_surface_eligible_type (data_type data) = false ->
  exists st', session_append_ E data st = (st', Ret tt) /\ frame same_run st st'
    /\ writes (single (fun d => d = data)) (al_session st) (al_session st').
Proof.
  intros Hd. unfold session_append_, bind, attempt. pose proof (append_data_spec data st Hd) as H.
  destruct (session_append E data None st) as [st' [a|e| |]]; try done; eexists; (split; [done|]).
  - destruct H as (? & ? & _). by split.
  - destruct H as [F1 W1]. split; [done|]. eapply writes_weaken; [|exact W1]. done.
Qed.

Lemma running_step_frame step st : frame same_turn st (set_running_step step st).
Proof.
  unfold set_running_step. destruct (al_phase st) eqn:Hp; [done..|]. split; [|done|by intros ????].
  intros a t s w H. rewrite Hp in H. injection H as -> -> -> ->. cbn. eauto.
Qed.
Lemma running_step_session step st : al_session (set_running_step step st) = al_session st.
Proof. unfold set_running_step. by destruct (al_phase st). Qed.

Lemma run_step_spec fuel turn step messages assembly signal :
  turning step_reason (run_step E fuel turn step messages assembly signal).
Proof.
  intros st. unfold run_step, bind at 1. pose proof (append_data_spec (StepStart turn step) st eq_refl) as H0.
  destruct (session_append E (StepStart turn step) None st) as [st0 [e|e| |]]; try done.
  2: { destruct H0 as [F0 W0]. split; [by apply frame_run_turn|]. by eapply writes_weaken; [|exact W0]. }
  destruct H0 as (F0 & W0 & _). unfold bind at 1, modify. set (st1 := set_running_step step st0).
  assert (F1 : frame same_turn st st1) by (etransitivity; [by apply frame_run_turn|apply running_step_frame]).
  assert (W1 : writes (single (fun d => d = StepStart turn step)) (al_session st) (al_session st1)).
  { subst st1. by rewrite running_step_session. }
  clearbody st1. unfold bind at 1.
  assert (Hbody : stepping step_reason (let^ _ := for_each (append_user E) messages in step_body E fuel turn step assembly signal)).
  { apply stepping_after; [|intros _; by apply step_body_spec]. apply calm_for_each. intros; apply calm_append_user. }
  specialize (Hbody st1). unfold attempt.
  assert (Hclose : forall st2, frame same_run st1 st2 /\ writes within_step (al_session st1) (al_session st2) ->
    exists st3, session_append_ E (StepEnd turn step) st2 = (st3, Ret tt)
      /\ frame same_turn st st3 /\ writes within_turn (al_session st) (al_session st3)).
  { intros st2 [F2 W2]. destruct (append_data_spec_ (StepEnd turn step) st2 eq_refl) as (st3 & E3 & F3 & W3).
    exists st3. split_and!; [exact E3| |].
    - etransitivity; [exact F1|]. etransitivity; by apply frame_run_turn.
    - assert (W23 : writes (fun es => exists b c, es = b ++ c /\ within_step b /\ single (fun d => d = StepEnd turn step) c)
        (al_session st1) (al_session st3)).
      { eapply writes_trans; [|exact W2|exact W3]. intros b c Hb Hc. by exists b, c. }
      eapply writes_trans; [|exact W1|exact W23]. intros b rest Hb (mid & c & -> & Hm & Hc). by eapply within_turn_step. }
  destruct (bind _ _ st1) as [st2 [r|err| |]]; try done; unfold bind.
  - destruct Hbody as (Hr & H2). destruct (Hclose st2 H2) as (st3 & -> & F3 & W3). by split_and!.
  - destruct (Hclose st2 Hbody) as (st3 & -> & F3 & W3). by split_and!.
Qed.

Definition turn_reason (r : option TurnEndReason) : Prop := step_reason r \/ r = Some TE_Blocked.

Lemma turn_iteration_spec fuel signal turn turn_ends target :
  step_reason turn_ends ->
  turning (fun r => turn_reason r.1 /\ (r.2 = false -> step_reason r.1)) (turn_iteration E fuel signal turn turn_ends target).
Proof.
  intros Hends. unfold turn_iteration. apply turning_after; [apply calm_live|]. intros _.
  apply turning_after; [apply calm_gets|]. intros [current|]; [|apply turning_throw]. cbv zeta.
  apply turning_after; [by apply calm_pre_step|]. intros [[messages assembly]|].
  2: { apply turning_ret. split; [by right|done]. }
  apply turning_after; [apply calm_gets|]. intros now.
  destruct (_ && _); [apply turning_ret; split; [by left|done]|].
  destruct (_ && _); [apply turning_ret; split; [left; by right; left|done]|].
  apply turning_after; [apply calm_live|]. intros _.
  eapply turning_bind; [apply run_step_spec|]. intros step_end Hse.
  assert (Hnew : step_reason (if bool_decide (turn_ends = Some TE_MaxTokens) then turn_ends else step_end)) by by case_bool_decide.
  apply turning_after; [by apply calm_close_step|]. intros over. apply turning_ret. split; [by left|done].
Qed.

Lemma turn_loop_spec fuel signal turn turn_ends target :
  step_reason turn_ends -> turning turn_reason (turn_loop E fuel signal turn turn_ends target).
Proof.
  revert turn_ends target. induction fuel as [|fuel IH]; intros turn_ends target Hends; [by intros st|].
  change (turn_loop E (S fuel) signal turn turn_ends target) with
    (let^ r := turn_iteration E (S fuel) signal turn turn_ends target in
     if r.2 then ret r.1 else turn_loop E fuel signal turn r.1 NextStep).
  eapply turning_bind; [by apply turn_iteration_spec|]. intros [r over] [Hr Hgo]. cbn [fst snd] in *.
  destruct over; [by apply turning_ret|]. apply IH. by apply Hgo.
Qed.

(** The events of one turn, from its start to its end. *)
Definition bracket (turn : Z) (reason : TurnEndReason) (es : list SessionEvent) : Prop :=
  exists first mid end_, es = first :: mid ++ [end_] /\ ev_data first = TurnStart turn
    /\ ev_data end_ = TurnEnd turn reason /\ within_turn mid.
(** A turn is cancelled only if its controller was aborted, and the driver
    never writes the marker of crash repair. *)
Definition reason_ok (signal : nat) st (reason : TurnEndReason) : Prop :=
  match reason with TE_Interrupted => False | TE_Aborted _ => is_aborted signal st = true | _ => True end.
(** The endings of a turn that failed or was cancelled. *)
Definition failing (reason : TurnEndReason) : bool := match reason with TE_Error _ | TE_Aborted _ => true | _ => false end.
(** A turn is continued exactly when it did not fail and input is pending. *)
Definition turn_events (signal : nat) (turn : Z) st (again : bool) (es : list SessionEvent) : Prop :=
  exists reason, bracket turn reason es /\ reason_ok signal st reason /\ again = has_pending (al_inbox st) && negb (failing reason).

Lemma is_aborted_le a st st' : signals_le (al_signals st) (al_signals st') -> is_aborted a st = true -> is_aborted a st' = true.
Proof.
  intros [_ H]. unfold is_aborted. destruct (al_signals st !! a) as [[r|]|] eqn:Ha; try done. by rewrite (H _ _ Ha).
Qed.

Lemma running_turn_fields turn st a last step wake :
  al_phase st = Running a last step wake ->
  al_phase (set_running_turn turn st) = Running a turn step wake /\ al_session (set_running_turn turn st) = al_session st
  /\ al_signals (set_running_turn turn st) = al_signals st /\ al_spawned (set_running_turn turn st) = al_spawned st.
Proof. intros Hp. unfold set_running_turn. by rewrite Hp. Qed.

Lemma turn_close_spec signal turn r st :
  (forall turn_ends, r = Ok turn_ends -> turn_reason turn_ends) ->
  exists st' turn_ends, turn_close E signal turn r st = (st', Ret turn_ends)
    /\ frame same_run st st' /\ al_session st' = al_session st /\ al_inbox st' = al_inbox st
    /\ reason_ok signal st' (default TE_Completed turn_ends) /\ failing (default TE_Completed turn_ends) = negb (is_ok r).
Proof.
  intros Hr. destruct r as [turn_ends|e]; unfold turn_close.
  - exists st, turn_ends. split_and!; try done; by destruct (Hr _ eq_refl) as [[->|[->| ->]]| ->].
  - unfold bind, gets. destruct (is_aborted signal st) eqn:Ha; eexists _, _; (split; [done|]); [by split_and!|].
    split_and!; [by apply frame_same|done..].
Qed.

(** The whole turn, once its start is recorded. *)
Lemma run_turn_spec fuel signal turn st :
  match run_turn E fuel signal turn st with
  | (st', Ret r) => frame same_turn st st'
      /\ writes (fun es => exists mid end_ reason, es = mid ++ [end_] /\ within_turn mid /\ ev_data end_ = TurnEnd turn reason
                   /\ reason_ok signal st' reason /\ failing reason = negb (is_ok r)) (al_session st) (al_session st')
  | (_, Throw _) => False
  | _ => True
  end.
Proof.
  unfold run_turn, bind, attempt.
  pose proof (turn_loop_spec fuel signal turn None NextTurn (or_introl eq_refl) st) as Hl.
  assert (Hend : forall st1 r, (forall turn_ends, r = Ok turn_ends -> turn_reason turn_ends) ->
    frame same_turn st st1 /\ writes within_turn (al_session st) (al_session st1) ->
    exists st3, (let^ turn_ends := turn_close E signal turn r in
      let^ _ := session_append_ E (TurnEnd turn (default TE_Completed turn_ends)) in ret r) st1 = (st3, Ret r)
    /\ frame same_turn st st3
    /\ writes (fun es => exists mid end_ reason, es = mid ++ [end_] /\ within_turn mid /\ ev_data end_ = TurnEnd turn reason
                 /\ reason_ok signal st3 reason /\ failing reason = negb (is_ok r)) (al_session st) (al_session st3)).
  { intros st1 r Hr [F1 W1]. destruct (turn_close_spec signal turn r st1 Hr) as (st2 & turn_ends & E2 & F2 & S2 & _ & Hok & Hfail).
    unfold bind. rewrite E2.
    destruct (append_data_spec_ (TurnEnd turn (default TE_Completed turn_ends)) st2 eq_refl) as (st3 & -> & F3 & W3).
    exists st3. split; [done|]. split.
    - etransitivity; [exact F1|]. etransitivity; by apply frame_run_turn.
    - rewrite S2 in W3. eapply writes_trans; [|exact W1|exact W3]. intros mid es Hm (end_ & -> & He).
      exists mid, end_, (default TE_Completed turn_ends). split_and!; [done|done|done| |done].
      destruct (default TE_Completed turn_ends); try done. cbn in *. eapply is_aborted_le; [|exact Hok]. by destruct F3. }
  destruct (turn_loop E fuel signal turn None NextTurn st) as [st1 [r|e| |]]; try done.
  - destruct Hl as [Hr Hl]. destruct (Hend st1 (Ok r)) as (st3 & E3 & H3); [by intros ? [= <-]|done|].
    unfold bind in E3. by rewrite E3.
  - destruct (Hend st1 (Err e)) as (st3 & E3 & H3); [done|done|]. unfold bind in E3. by rewrite E3.
Qed.

Lemma turn_spec fuel st a last step wake :
  al_phase st = Running a last step wake ->
  match turn E fuel st with
  | (st', Ret again) =>
      writes (turn_events a (u64_succ last) st' again) (al_session st) (al_session st')
      /\ signals_le (al_signals st) (al_signals st') /\ al_spawned st' = al_spawned st
      /\ if again
         then exists fresh, al_phase st' = Running fresh (u64_succ last) 0 false /\ al_signals st' !! fresh = Some None
                /\ length (al_signals st) <= fresh /\ has_pending (al_inbox st') = true
         else exists s w, al_phase st' = Running a (u64_succ last) s w
  | (st', Throw e) => writes (fun es => es = []) (al_session st) (al_session st') /\ frame same_run st st'
  | _ => True
  end.
Proof.
  intros Hp. unfold turn. unfold bind at 1, modify. set (st0 := set_mode _ st). unfold bind at 1, gets. cbn [fst snd].
  change (al_phase st0) with (al_phase st). rewrite Hp. cbv zeta. set (n := u64_succ last).
  assert (F0 : frame same_run st st0) by by apply frame_same. assert (Hp0 : al_phase st0 = Running a last step wake) by done.
  change (al_session st) with (al_session st0). change (al_signals st) with (al_signals st0). change (al_spawned st) with (al_spawned st0).
  clearbody st0. unfold bind at 1, ensure_live, bind at 1, gets. destruct (is_aborted a st0) eqn:Ha; cbn.
  { split; [by apply writes_refl|exact F0]. }
  unfold bind at 1. pose proof (append_data_spec (TurnStart n) st0 eq_refl) as H1.
  destruct (session_append E (TurnStart n) None st0) as [st1 [e|err| |]]; try done.
  2: { destruct H1 as [F1 W1]. split; [by eapply writes_weaken; [|exact W1]|by etransitivity]. }
  destruct H1 as (F1 & W1 & _). unfold bind at 1, modify.
  destruct (fr_phase _ _ _ F1 _ _ _ _ Hp0) as (wake1 & Hp1).
  destruct (running_turn_fields n st1 _ _ _ _ Hp1) as (Hp2 & S2 & G2 & D2). set (st2 := set_running_turn n st1) in *. clearbody st2.
  unfold bind at 1. pose proof (run_turn_spec fuel a n st2) as H3.
  destruct (run_turn E fuel a n st2) as [st3 [r|err| |]]; try done. destruct H3 as [F3 W3].
  destruct (fr_phase _ _ _ F3 _ _ _ _ Hp2) as (step3 & wake3 & Hp3).
  assert (Wall : forall again, (forall reason, failing reason = negb (is_ok r) -> again = has_pending (al_inbox st3) && negb (failing reason)) ->
    writes (turn_events a n st3 again) (al_session st0) (al_session st3)).
  { intros again Hagain. rewrite S2 in W3. eapply writes_trans; [|exact W1|exact W3]. intros x y (f & -> & Hf) (mid & l & reason & -> & Hm & Hl & Hok & Hfail).
    exists reason. split_and!; [by exists f, mid, l|exact Hok|by apply Hagain]. }
  assert (G : signals_le (al_signals st0) (al_signals st3)).
  { etransitivity; [apply (fr_signals _ _ _ F1)|]. rewrite <- G2. apply (fr_signals _ _ _ F3). }
  assert (D : al_spawned st3 = al_spawned st0).
  { rewrite (fr_drivers _ _ _ F3 _ _ _ _ Hp2), D2. apply (fr_drivers _ _ _ F1 _ _ _ _ Hp0). }
  destruct r as [r|err].
  2: { cbn. split_and!; [|exact G|exact D|by exists step3, wake3]. apply Wall. intros reason ->. by rewrite andb_false_r. }
  unfold bind, gets. destruct (has_pending (al_inbox st3)) eqn:Hpend; cbn [negb].
  2: { cbn. split_and!; [|exact G|exact D|by exists step3, wake3]. by apply Wall. }
  unfold modify. cbn [fst snd ret]. rewrite Hp3. cbn [new_controller].
  assert (Hw : writes (turn_events a n (put_phase (Running (length (al_signals st3)) n 0 false) (set_signals (al_signals st3 ++ [None]) st3)) true)
    (al_session st0) (al_session st3)).
  { eapply writes_weaken; [|apply (Wall true); by intros reason ->].
    intros es (reason & Hb & Hok & Hfail). exists reason. split_and!; [done| |exact Hfail]. destruct reason; try done.
    cbn in *. eapply is_aborted_le; [|exact Hok]. cbn. split; [rewrite length_app; lia|]. intros i x Hi. by apply lookup_app_l_Some. }
  split_and!; [exact Hw| |exact D|].
  - cbn. etransitivity; [exact G|]. split; [rewrite length_app; lia|]. intros i x Hi. by apply lookup_app_l_Some.
  - exists (length (al_signals st3)). split_and!; [done| |by destruct G|done]. cbn. by apply list_lookup_middle.
Qed.
End turns.

(** * The live agent *)

Section agent.
Context {W : Type} (E : Env W) {WB : WellBehaved E}.
Implicit Types (st : Loop W).

(** The crash scan finds nothing open. *)
Definition closed (log : list SessionEvent) : Prop := scan log = mk_scan None None [].

Lemma last_turn_snoc log e :
  last_turn_of (log ++ [e]) = match ev_data e with TurnStart turn => turn | _ => last_turn_of log end.
Proof. unfold last_turn_of, rfind. rewrite reverse_snoc. cbn [List.find]. destruct (ev_data e) eqn:He; cbn; try done. by rewrite He. Qed.

Lemma last_turn_quiet log es : no_boundary es -> last_turn_of (log ++ es) = last_turn_of log.
Proof.
  induction es as [|e es IH] using rev_ind; intros H; [by rewrite app_nil_r|].
  apply Forall_app in H as [H [He _]%Forall_cons]. rewrite app_assoc, last_turn_snoc, IH by done. by destruct (ev_data e).
Qed.

(** What a run of the driver appends: the log stays closed, and its last turn
    goes from [n] to [n']. *)
Definition driven (n n' : Z) (es : list SessionEvent) : Prop :=
  (forall log, closed log -> closed (log ++ es)) /\ (forall log, last_turn_of log = n -> last_turn_of (log ++ es) = n').
Lemma driven_app n1 n2 n3 a b : driven n1 n2 a -> driven n2 n3 b -> driven n1 n3 (a ++ b).
Proof. intros [A1 A2] [B1 B2]. split; intros log H; rewrite app_assoc; auto. Qed.
Lemma driven_inert n es : Forall inert es -> driven n n es.
Proof.
  intros H. split; intros log Hl.
  - unfold closed. by rewrite scan_app, inerts_scan.
  - rewrite last_turn_quiet; [done|]. by apply inerts_no_boundary.
Qed.
Lemma driven_bracket n turn reason es : bracket turn reason es -> driven n turn es.
Proof.
  intros (f & mid & l & -> & Hf & Hl & [Hb Hs]). split; intros log Hlog.
  - unfold closed. rewrite scan_app, Hlog. cbn [foldl]. unfold scan_event at 2. rewrite Hf. rewrite foldl_app, Hs. cbn [foldl].
    unfold scan_event. by rewrite Hl.
  - replace (log ++ f :: mid ++ [l]) with (((log ++ [f]) ++ mid) ++ [l]) by by rewrite <- !app_assoc.
    rewrite last_turn_snoc, Hl, last_turn_quiet, last_turn_snoc, Hf by done. done.
Qed.

Lemma turns_spec fuel st a n s w :
  al_phase st = Running a n s w ->
  match turns E fuel st with
  | (st', Ret _) => exists a' n' s' w', al_phase st' = Running a' n' s' w' /\ al_spawned st' = al_spawned st
      /\ writes (driven n n') (al_session st) (al_session st')
  | (_, Throw _) => False
  | _ => True
  end.
Proof.
  revert st a n s w. induction fuel as [|fuel IH]; intros st a n s w Hp; [done|].
  change (turns E (S fuel) st) with
    ((let^ r := attempt (turn E (S fuel)) in match r with Ok true => turns E fuel | Ok false | Err _ => ret tt end) st).
  unfold bind, attempt. pose proof (turn_spec E (S fuel) st a n s w Hp) as Ht.
  destruct (turn E (S fuel) st) as [st1 [[]|e| |]]; try done.
  - destruct Ht as (W1 & _ & D1 & fresh & Hp1 & _). specialize (IH _ _ _ _ _ Hp1).
    destruct (turns E fuel st1) as [st2 [r|e| |]]; try done. destruct IH as (a' & n' & s' & w' & Hp2 & D2 & W2).
    exists a', n', s', w'. split_and!; [done|congruence|]. eapply writes_trans; [|exact W1|exact W2].
    intros x y (reason & Hb & _) Hd. eapply driven_app; [by eapply driven_bracket|exact Hd].
  - destruct Ht as (W1 & _ & D1 & s1 & w1 & Hp1). exists a, (u64_succ n), s1, w1. split_and!; [done|done|].
    eapply writes_weaken; [|exact W1]. intros es (reason & Hb & _). by eapply driven_bracket.
  - destruct Ht as (W1 & F1). destruct (fr_phase _ _ _ F1 _ _ _ _ Hp) as (w1 & Hp1). exists a, n, s, w1.
    split_and!; [done|by eapply (fr_drivers _ _ _ F1)|]. eapply writes_weaken; [|exact W1]. intros es ->. by apply driven_inert.
Qed.

(** ** Operations at rest *)

(** Who drives: nobody, a maintenance task, or one spawned driver. *)
Definition rested (p : Phase) (k : nat) (n : Z) : Prop :=
  match p with Idle m => k = 0 /\ m = n | Running _ m s _ => k = 1 /\ m = n /\ s = 0%Z | Maintenance _ _ => False end.
(** During maintenance. *)
Definition maintained (p : Phase) (k : nat) : Prop := match p with Maintenance _ _ => k = 0 | _ => False end.

Lemma wake_rested b st n : rested (al_phase st) (al_spawned st) n -> rested (al_phase (wake_driver b st)) (al_spawned (wake_driver b st)) n.
Proof.
  intros Hr. destruct (al_phase st) as [m|a w|a m s w] eqn:Hp; cbn in Hr.
  - destruct Hr as [Hk ->]. destruct (wake_idle b st n Hp) as (-> & _ & -> & _). by rewrite Hk.
  - done.
  - destruct (wake_frame b st) as [F _]. destruct (fr_phase _ _ _ F _ _ _ _ Hp) as (w' & ->).
    by rewrite (fr_drivers _ _ _ F _ _ _ _ Hp).
Qed.
Lemma wake_maintained b st : maintained (al_phase st) (al_spawned st) -> maintained (al_phase (wake_driver b st)) (al_spawned (wake_driver b st)).
Proof. unfold wake_driver. destruct (al_phase st) as [m|a w|a m s w] eqn:Hp; cbn; try done. by destruct (disposed a st); cbn; rewrite ?Hp. Qed.

Lemma agent_op_phase (P : Phase -> nat -> Prop) st op :
  (forall b st, P (al_phase st) (al_spawned st) -> P (al_phase (wake_driver b st)) (al_spawned (wake_driver b st))) ->
  (forall b p k, P p k -> P (set_wake b p) k) ->
  P (al_phase st) (al_spawned st) -> P (al_phase (agent_op E st op)) (al_spawned (agent_op E st op)).
Proof.
  intros Hwake Hset HP. destruct op as [message target wakeup|cause keep|data intent]; cbn [agent_op]; [| |exact HP].
  - unfold send. cbv zeta. unfold inbox_call. destruct (al_append E _ message (al_inbox st)) as [ib r].
    destruct wakeup; [|exact HP]. by apply Hwake.
  - unfold cancel. cbv zeta. set (st1 := if keep then st else _).
    assert (H1 : P (al_phase st1) (al_spawned st1)).
    { subst st1. destruct keep; [done|]. unfold inbox_call. destruct (Inbox.clear _ _ _ _) as [ib r]. by apply Hset. }
    clearbody st1. assert (Ha : forall a r, al_phase (abort a r st1) = al_phase st1 /\ al_spawned (abort a r st1) = al_spawned st1).
    { intros a r. unfold abort. by destruct (is_aborted a st1). }
    destruct (al_phase st1) eqn:Hp; [by rewrite Hp|..]; (match goal with |- context [abort ?a ?r st1] => destruct (Ha a r) as [-> ->] end); exact H1.
Qed.

Lemma rested_wake b p k n : rested p k n -> rested (set_wake b p) k n.
Proof. by destruct p. Qed.
Lemma maintained_wake b p k : maintained p k -> maintained (set_wake b p) k.
Proof. by destruct p. Qed.

Lemma agent_ops_maintained ops st :
  maintained (al_phase st) (al_spawned st) ->
  maintained (al_phase (foldl (agent_op E) st ops)) (al_spawned (foldl (agent_op E) st ops)).
Proof.
  revert st. induction ops as [|op ops IH]; intros st Hm; cbn [foldl]; [done|]. apply IH.
  by apply (agent_op_phase maintained); [apply wake_maintained|apply maintained_wake|].
Qed.

(** What happens to a live agent: another task calls an operation, a spawned
    driver runs until nothing is owed, a maintenance task runs while other
    tasks call operations. *)
Inductive agent_step : Loop W -> Loop W -> Prop :=
| AS_Op st op : foreign_op op -> agent_step st (agent_op E st op)
| AS_Drive fuel st k st' : al_spawned st = S k -> kick E fuel (set_spawned k st) = (st', Ret tt) -> agent_step st st'
| AS_Maintain st st1 last_turn controller ops :
    begin_maintenance st = Some (st1, last_turn, controller) -> Forall foreign_op ops ->
    agent_step st (end_maintenance last_turn (foldl (agent_op E) st1 ops)).
Inductive agent_reachable : Loop W -> Prop :=
| AR_New file ib w : good (ib_session ib) -> closed (ss_log (ib_session ib)) -> agent_reachable (agent_new file ib w)
| AR_Step st st' : agent_reachable st -> agent_step st st' -> agent_reachable st'.

Definition agent_inv st : Prop :=
  has_room (al_session st) ->
  good (al_session st) /\ closed (ss_log (al_session st))
  /\ rested (al_phase st) (al_spawned st) (last_turn_of (ss_log (al_session st))).

Lemma writes_room X s s' : writes X s s' -> has_room s' -> has_room s.
Proof. intros (es & He & _). apply has_room_prefix. rewrite He. by apply prefix_app_r. Qed.

(** The invariant moves along a write. *)
Lemma inv_writes n n' st s' :
  agent_inv st -> (has_room (al_session st) -> rested (al_phase st) (al_spawned st) n) -> writes (driven n n') (al_session st) s' -> has_room s' ->
  good s' /\ closed (ss_log s') /\ last_turn_of (ss_log s') = n'.
Proof.
  intros Hinv Hn Hw Hroom. pose proof (writes_room _ _ _ Hw Hroom) as Hr. destruct (Hinv Hr) as (Hg & Hc & Hrest).
  destruct Hw as (es & -> & G). destruct (G Hg Hroom) as [Hg' [D1 D2]]. split_and!; [done|by apply D1|]. apply D2.
  specialize (Hn Hr). destruct (al_phase st); cbn in *; try done; destruct Hrest, Hn; naive_solver congruence.
Qed.

Lemma wake_session b st : al_session (wake_driver b st) = al_session st.
Proof. apply wake_frame. Qed.

Lemma step_op_inv st op : agent_inv st -> foreign_op op -> agent_inv (agent_op E st op).
Proof.
  intros Hinv Hop Hroom. destruct (agent_op_evolves E st op Hop) as [_ Hw]. pose proof (writes_room _ _ _ Hw Hroom) as Hr.
  destruct (Hinv Hr) as (_ & _ & Hrest). set (n := last_turn_of (ss_log (al_session st))) in *.
  destruct (inv_writes n n st (al_session (agent_op E st op)) Hinv) as (Hg & Hc & Hl); [done| |done|].
  { eapply writes_weaken; [|exact Hw]. intros es. apply driven_inert. }
  split_and!; [done|done|]. rewrite Hl.
  by apply (agent_op_phase (fun p k => rested p k n)); [intros; by apply wake_rested|intros; by apply rested_wake|].
Qed.

Lemma kick_not_running fuel st st' r :
  (forall a n s w, al_phase st <> Running a n s w) -> kick E fuel st = (st', Ret r) -> al_session st' = al_session st.
Proof.
  intros Hp. unfold kick, bind. destruct fuel as [|fuel]; [done|]. cbn [turns]. unfold bind at 1, attempt, turn.
  unfold bind, modify, gets. cbn. destruct (al_phase st) eqn:E'; [cbn..|by destruct (Hp _ _ _ _ eq_refl)]; intros [= <- _]; cbn; by rewrite E'.
Qed.

Lemma finish_kick_rested n wake st a s :
  al_phase st = Running a n s wake -> al_spawned st = 0 ->
  let st' := (let st1 := set_phase (Idle n) st in if wake && has_pending (al_inbox st1) then wake_driver false st1 else st1) in
  rested (al_phase st') (al_spawned st') n /\ al_session st' = al_session st.
Proof.
  intros Hp Hk. cbv zeta. destruct (set_phase_fields (Idle n) st) as (P1 & _ & D1 & S1 & _).
  assert (Hr : rested (al_phase (set_phase (Idle n) st)) (al_spawned (set_phase (Idle n) st)) n) by by rewrite P1, D1, Hk.
  destruct (_ && _); [|by split]. split; [by apply wake_rested|]. by rewrite wake_session.
Qed.

Lemma step_drive_inv fuel st k st' :
  agent_inv st -> al_spawned st = S k -> kick E fuel (set_spawned k st) = (st', Ret tt) -> agent_inv st'.
Proof.
  intros Hinv Hk Hkick Hroom. destruct (al_phase st) as [m|a w|a m s w] eqn:Hp.
  1,2: exfalso; assert (Hs : al_session st' = al_session st) by
    (apply (kick_not_running fuel (set_spawned k st) st' tt); [cbn; intros; congruence|exact Hkick]);
    rewrite Hs in Hroom; destruct (Hinv Hroom) as (_ & _ & Hrest); rewrite Hp, Hk in Hrest; cbn in Hrest; first [done|lia].
  pose proof (turns_spec fuel (set_spawned k st) a m s w Hp) as Ht. unfold kick, bind in Hkick.
  destruct (turns E fuel (set_spawned k st)) as [st1 [r|e| |]]; try done.
  destruct Ht as (a1 & n1 & s1 & w1 & Hp1 & D1 & W1). cbn in D1. unfold modify in Hkick. injection Hkick as Hst'. rewrite Hp1 in Hst'.
  assert (Hsess : al_session st' = al_session st1).
  { subst st'. destruct (set_phase_fields (Idle n1) st1) as (_ & _ & _ & S1 & _). destruct (_ && _); [by rewrite wake_session|done]. }
  rewrite Hsess in *. pose proof (writes_room _ _ _ W1 Hroom) as Hr. change (al_session (set_spawned k st)) with (al_session st) in *.
  destruct (Hinv Hr) as (_ & _ & Hrest). rewrite Hp, Hk in Hrest. destruct Hrest as (Hk1 & Hm & _).
  destruct (inv_writes m n1 st (al_session st1) Hinv) as (Hg & Hc & Hl); [|done|done|].
  { intros _. rewrite Hp. destruct (Hinv Hr) as (_ & _ & Hrest'). rewrite Hp in Hrest'. cbn in *. naive_solver. }
  split_and!; [done|done|]. rewrite Hl. subst st'. apply (finish_kick_rested n1 w1 st1 a1 s1 Hp1). lia.
Qed.

Lemma step_maintain_inv st st1 last_turn controller ops :
  agent_inv st -> begin_maintenance st = Some (st1, last_turn, controller) -> Forall foreign_op ops ->
  agent_inv (end_maintenance last_turn (foldl (agent_op E) st1 ops)).
Proof.
  intros Hinv Hb Hops Hroom. unfold begin_maintenance in Hb. destruct (al_phase st) as [m|a w|a m s w] eqn:Hp; try done.
  cbn in Hb. injection Hb as <- <- _. set (st0 := put_phase _ _) in *.
  destruct (agent_ops_evolve E ops st0 Hops) as [_ Hw]. pose proof (agent_ops_maintained ops st0) as Hm.
  set (st2 := foldl (agent_op E) st0 ops) in *. clearbody st2.
  assert (Hsess : al_session (end_maintenance m st2) = al_session st2).
  { unfold end_maintenance. cbv zeta. destruct (set_phase_fields (Idle m) st2) as (_ & _ & _ & S1 & _).
    destruct (_ && _); [by rewrite wake_session|done]. }
  rewrite Hsess in *. change (al_session st0) with (al_session st) in Hw.
  pose proof (writes_room _ _ _ Hw Hroom) as Hr. destruct (Hinv Hr) as (_ & _ & Hrest). rewrite Hp in Hrest. destruct Hrest as [Hk Hmn].
  destruct (inv_writes m m st (al_session st2) Hinv) as (Hg & Hc & Hl); [|by eapply writes_weaken; [|exact Hw]; intros es; apply driven_inert|done|].
  { intros _. rewrite Hp. by split. }
  split_and!; [done|done|]. rewrite Hl. specialize (Hm Hk).
  assert (Hk2 : al_spawned st2 = 0) by by destruct (al_phase st2).
  unfold end_maintenance. cbv zeta. destruct (set_phase_fields (Idle m) st2) as (P1 & _ & D1 & _ & _).
  assert (Hrr : rested (al_phase (set_phase (Idle m) st2)) (al_spawned (set_phase (Idle m) st2)) m) by by rewrite P1, D1, Hk2.
  destruct (_ && _); [by apply wake_rested|done].
Qed.

Lemma agent_reachable_inv st : agent_reachable st -> agent_inv st.
Proof.
  induction 1 as [file ib w Hg Hc|st st' _ IH Hstep].
  - intros _. by split_and!.
  - revert IH. destruct Hstep; intros IH; [by apply step_op_inv|by eapply step_drive_inv|by eapply step_maintain_inv].
Qed.

(** C5. A live agent at rest never leaves anything for crash repair, whatever
    turns it ran, however they ended, and whatever other tasks sent, cancelled
    or appended at any await meanwhile: the scan of its log finds no open turn,
    no open step and no pending call; the phase's turn number is that of the
    last turn in the log; and there is exactly one spawned driver when the
    agent is running and none when it is idle. *)
Theorem agent_always_balanced st :
  agent_reachable st -> has_room (al_session st) ->
  interrupted_turn_closers (ss_log (al_session st)) = []
  /\ scan (ss_log (al_session st)) = mk_scan None None []
  /\ match al_phase st with
     | Idle last_turn => al_spawned st = 0 /\ last_turn = last_turn_of (ss_log (al_session st))
     | Running _ last_turn _ _ => al_spawned st = 1 /\ last_turn = last_turn_of (ss_log (al_session st))
     | Maintenance _ _ => False
     end.
Proof.
  intros Hst Hroom. destruct (agent_reachable_inv st Hst Hroom) as (_ & Hc & Hrest). split_and!.
  - unfold interrupted_turn_closers. by rewrite Hc.
  - exact Hc.
  - destruct (al_phase st); cbn in Hrest; naive_solver.
Qed.

(** C7. A turn that the driver opens is one bracket in the log: its start, then
    events that open and close steps and resolve every call they announce, then
    its end; it is the next turn number; it ends as aborted only if its
    controller was, never as interrupted; and another turn follows, on a fresh
    controller, exactly when input is pending and the turn neither failed nor
    was cancelled.  A turn that does not open writes nothing. *)
Theorem turn_bracketed fuel st a last step wake :
  al_phase st = Running a last step wake -> good (al_session st) -> scan (ss_log (al_session st)) = mk_scan None None [] ->
  match turn E fuel st with
  | (st', Ret again) => has_room (al_session st') ->
      good (al_session st') /\ scan (ss_log (al_session st')) = mk_scan None None []
      /\ (exists first mid end_ reason,
            ss_log (al_session st') = ss_log (al_session st) ++ first :: mid ++ [end_]
            /\ ev_data first = TurnStart (u64_succ last) /\ ev_data end_ = TurnEnd (u64_succ last) reason
            /\ Forall (fun e => is_boundary (ev_data e) = false) mid
            /\ reason <> TE_Interrupted /\ (forall cause, reason = TE_Aborted cause -> is_aborted a st' = true)
            /\ again = has_pending (al_inbox st') && negb (failing reason))
      /\ if again
         then exists fresh, al_phase st' = Running fresh (u64_succ last) 0 false /\ is_aborted fresh st' = false
         else exists s w, al_phase st' = Running a (u64_succ last) s w
  | (st', Throw _) => has_room (al_session st') -> ss_log (al_session st') = ss_log (al_session st)
  | _ => True
  end.
Proof.
  intros Hp Hg Hc. pose proof (turn_spec E fuel st a last step wake Hp) as H.
  destruct (turn E fuel st) as [st' [again|e| |]]; try done; intros Hroom.
  - destruct H as ((es & Hes & Hw) & _ & _ & Hnext). destruct (Hw Hg Hroom) as (Hg' & reason & Hb & Hok & Hagain).
    split_and!; [done| | |].
    + rewrite Hes. exact (proj1 (driven_bracket last _ _ _ Hb) _ Hc).
    + destruct Hb as (f & mid & l & -> & Hf & Hl & [Hm _]). exists f, mid, l, reason. split_and!; try done.
      * by intros ->.
      * by intros cause ->.
    + clear Hagain. destruct again; [|exact Hnext]. destruct Hnext as (fresh & ? & Hs & _ & ?). exists fresh. split; [done|].
      unfold is_aborted. by rewrite Hs.
  - destruct H as [(es & -> & Hw) _]. destruct (Hw Hg Hroom) as [_ ->]. by rewrite app_nil_r.
Qed.
End agent.

(** * Witnesses *)

(** A service whose first model call asks for a tool and whose second answers,
    a task that logs an event while the tool runs, and a listener that refuses
    the sixth request. *)
Definition demo_chunks (opened : nat) : list StreamChunk :=
  match opened with
  | O => [SC_BlockStart 0 BT_ToolCall; SC_ToolCallDelta 0 "c" (Some "read") "{}"%string;
          SC_BlockEnd 0 (CB_ToolCall "c" "read" "{}"); SC_Finish FR_ToolCalls None]
  | S _ => [SC_BlockStart 0 BT_Text; SC_TextDelta 0 "done"; SC_BlockEnd 0 (CB_Text "done"); SC_Finish FR_Stop None]
  end.
Definition demo_env : Env nat := {|
  e_id := "s"; e_options := mk_agent_options (Some "p"%string) (Some "m"%string) None;
  e_now := fun _ => 5%Z; e_mint := fun s => ("m" +:+ pretty (length (ss_log s)))%string; e_ops := demo_ops;
  e_splice_value := demo_to_value; e_cause_to_string := fun _ => Some "user"%string; e_cause_of_string := fun _ => None;
  e_schema_to_string := fun _ => None; e_arguments := fun _ => Some (Bool true); e_error_chain := fun _ => "error"%string;
  e_receipt_value := fun _ => None; e_receipt_id := fun _ => EmptyString; e_clock_ms := fun _ => 0%Z;
  e_mode_file := fun _ => Some (MF_Text "normal"); e_interfere := fun st => (al_world st, []);
  e_assemble := fun _ => Some (Ok (mk_assembly [] [] [] ∅));
  e_pre_step := fun _ proposed _ _ => Some (Ok (Some proposed));
  e_request := fun st config _ _ => Some (if al_world st <? 5 then Ok config else Err (LE_Listener "limit")); e_request_error := fun _ _ _ => Some (Ok false);
  e_turn_stopping := fun _ _ => Some tt; e_selector := fun _ => false; e_select := fun _ _ _ => Some None;
  e_runtime := fun _ => LlmRuntime_new; e_waterfall := fun st _ _ => Ok (demo_chunks (al_world st), Ended);
  e_stream_aborted := fun _ => false; e_open_stream := S;
  e_tool := fun st _ => (al_world st, [AO_Append (Extension "demo" (Bool true)) None], Success [CB_Text "ok"] None [] false);
|}.
#[export] Instance demo_well_behaved : WellBehaved demo_env.
Proof. split; [intros st; constructor|]. intros st x. by constructor. Qed.

Definition demo_agent : Loop nat :=
  agent_new (Some (MF_Text "normal")) (mk_inbox demo_session (mk_lists [] []) []) 0.
Definition demo_woken : Loop nat := followup demo_env (demo_message "q") demo_agent.
Definition demo_kick : Loop nat * outcome unit := kick demo_env 8 (set_spawned 0 demo_woken).

Lemma demo_woken_reachable : agent_reachable demo_env demo_woken.
Proof.
  apply AR_Step with (st := demo_agent); [|by apply (AS_Op demo_env _ (AO_Send (demo_message "q") NextTurn true))].
  apply AR_New; [|vm_compute; reflexivity].
  apply (reachable_inv demo_absolute demo_ops). eapply reachable_create; [|exact demo_create]. vm_compute. reflexivity.
Qed.
Lemma demo_woken_good : good (al_session demo_woken).
Proof. apply (agent_reachable_inv demo_env); [exact demo_woken_reachable|vm_compute; reflexivity]. Qed.
Lemma demo_agent_reachable : agent_reachable demo_env demo_kick.1.
Proof.
  apply AR_Step with (st := demo_woken).
  - exact demo_woken_reachable.
  - apply (AS_Drive demo_env 8 demo_woken 0); [vm_compute; reflexivity|].
    assert (H : demo_kick.2 = Ret tt) by (vm_compute; reflexivity). revert H. unfold demo_kick.
    destruct (kick demo_env 8 (set_spawned 0 demo_woken)) as [st r]. by intros [= ->].
Qed.

Definition is_result (e : SessionEvent) : bool := match ev_data e with ToolResult _ _ _ _ _ => true | _ => false end.
Lemma agent_always_balanced_witness :
  interrupted_turn_closers (ss_log (al_session demo_kick.1)) = []
  /\ al_phase demo_kick.1 = Idle 1 /\ length (ss_log (al_session demo_kick.1)) = 24
  /\ length (base.filter is_result (ss_log (al_session demo_kick.1))) = 1.
Proof.
  assert (Hr : has_room (al_session demo_kick.1)) by (vm_compute; reflexivity).
  split; [exact (proj1 (agent_always_balanced demo_env demo_kick.1 demo_agent_reachable Hr))|].
  repeat (split; [vm_compute; reflexivity|]). vm_compute. reflexivity.
Defined.

Lemma turn_bracketed_witness :
  exists first mid end_ reason,
    ss_log (al_session (turn demo_env 8 demo_woken).1) = ss_log (al_session demo_woken) ++ first :: mid ++ [end_]
    /\ ev_data first = TurnStart 1 /\ ev_data end_ = TurnEnd 1 reason /\ length mid = 21.
Proof.
  pose proof (turn_bracketed demo_env 8 demo_woken 0 0 0 false eq_refl demo_woken_good eq_refl) as H.
  assert (Hr : has_room (al_session (turn demo_env 8 demo_woken).1)) by by vm_compute.
  assert (Hl : length (ss_log (al_session (turn demo_env 8 demo_woken).1)) = 24) by by vm_compute.
  assert (Hw : length (ss_log (al_session demo_woken)) = 1) by by vm_compute.
  assert (Hok : (turn demo_env 8 demo_woken).2 = Ret false) by by vm_compute.
  destruct (turn demo_env 8 demo_woken) as [st' r]. cbn in Hok. subst r. destruct (H Hr) as (_ & _ & (f & m & e & reason & Hs & Hf & He & _) & _).
  exists f, m, e, reason. split; [exact Hs|]. split; [exact Hf|]. split; [exact He|].
  cbn [fst] in *. rewrite Hs in Hl. rewrite length_app, Hw in Hl. cbn in Hl. rewrite length_app in Hl. cbn in Hl. lia.
Defined.
