(* ===== verification/AgentLive.v ===== *)
(** The agent driver answers, [crates/dsh/agent-loop/src/agent.rs]: with
    services that answer and a bounded number of model calls a turn ends.

    [runs n P m]: from a state whose remaining budget is [n], [m] neither waits
    for ever nor exhausts its fuel; a value it gives is in [P] with the budget
    that is left.  The one panic left open is a read of a session that has
    outgrown its room. *)
From Stdlib Require Import ZArith Lia Ascii String.
From stdpp Require Import base tactics numbers list strings gmap pretty.
From S2P Require Import Prelude Json Text Proto Llm Model Retry Assembler SessionEvents Surface HeaderFold Session Repair Inbox ToolCalls Adapter LlmRuntime Scope SystemPrompt RuntimeContext AgentLoop AgentTurns.
Open Scope keel_scope.

(** A stream the driver can finish: it ends, its failure has a message and a code,
    and a response assembles. *)
Definition sound_assembly (asm : BlockAssembler) : Prop :=
  match finish_failure (finish asm) with
  | Some failure => is_Some (LlmError_new (failure_message failure) (failure_code failure))
  | None => exists content, blocks asm = Ok content
  end.
Definition sound_stream (stream : ChunkStream) : Prop :=
  stream.2 = Ended /\ sound_assembly (foldl push BlockAssembler_new stream.1).

(** Services that answer, over a world with a budget of model calls: the
    request listeners refuse when nothing is left, and opening a stream
    spends. *)
Class Answering {W} (E : Env W) (budget : W -> nat) : Prop := {
  an_assemble st : is_Some (e_assemble E st);
  an_pre_step st messages turn step : is_Some (e_pre_step E st messages turn step);
  an_request st config turn step : is_Some (e_request E st config turn step);
  an_refuses st config turn step proposed : e_request E st config turn step = Some (Ok proposed) -> 0 < budget (al_world st);
  an_request_error st failure policy : is_Some (e_request_error E st failure policy);
  an_turn_stopping st turn : is_Some (e_turn_stopping E st turn);
  an_select st mode input : is_Some (e_select E st mode input);
  an_prepare st config : is_Some (prepare_call (e_runtime E st) config);
  an_stream st registration request :
    sound_stream (stream_with_registration (e_runtime E st) (e_waterfall E st) (e_stream_aborted E st) registration request);
  an_open w : 0 < budget w -> budget (e_open_stream E w) < budget w;
  an_interfere st : budget (e_interfere E st).1 = budget (al_world st);
  an_tool st x : budget (e_tool E st x).1.1 = budget (al_world st);
}.

Section live.
Context {W : Type} (E : Env W) {WB : WellBehaved E} (budget : W -> nat) {AN : Answering E budget}.
Implicit Types (st : Loop W) (n fuel : nat).

Definition wrote (s s' : Session) : Prop := writes (fun _ => True) s s'.
Lemma wrote_trans s1 s2 s3 : wrote s1 s2 -> wrote s2 s3 -> wrote s1 s3.
Proof. intros H1 H2. by eapply writes_trans; [|exact H1|exact H2]. Qed.
Lemma wrote_any X s s' : writes X s s' -> wrote s s'.
Proof. by apply writes_weaken. Qed.
Lemma wrote_refl s : wrote s s.
Proof. by apply writes_refl. Qed.

Definition left st : nat := budget (al_world st).

(** The session of a driver that panicked on a read. *)
Definition outgrown s s' : Prop := exists s1, wrote s s1 /\ ~ good s1 /\ ss_log s1 = ss_log s'.

Definition runs {A} (n : nat) (P : A -> nat -> Prop) (m : M (W := W) A) : Prop :=
  forall st, left st = n ->
    match m st with
    | (st', Ret a) => wrote (al_session st) (al_session st') /\ P a (left st')
    | (st', Throw _) => wrote (al_session st) (al_session st')
    | (st', Hang) => outgrown (al_session st) (al_session st')
    | (_, NoFuel) => False
    end.

Lemma outgrown_after s1 s2 s3 : wrote s1 s2 -> outgrown s2 s3 -> outgrown s1 s3.
Proof. intros H (s & H1 & H2). exists s. split; [by eapply wrote_trans|done]. Qed.

Lemma runs_bind {A B} n (P : A -> nat -> Prop) (Q : B -> nat -> Prop) (m : M (W := W) A) (k : A -> M (W := W) B) :
  runs n P m -> (forall a n', P a n' -> runs n' Q (k a)) -> runs n Q (bind m k).
Proof.
  intros Hm Hk st Hn. unfold bind. specialize (Hm st Hn). destruct (m st) as [st1 [a|e| |]]; try done.
  destruct Hm as [W1 HP]. specialize (Hk a _ HP st1 eq_refl). destruct (k a st1) as [st2 [b|e| |]]; try done.
  - destruct Hk as [W2 HQ]. split; [by eapply wrote_trans|done].
  - by eapply wrote_trans.
  - by eapply outgrown_after.
Qed.
Lemma runs_weaken {A} n (P Q : A -> nat -> Prop) (m : M (W := W) A) :
  runs n P m -> (forall a n', P a n' -> Q a n') -> runs n Q m.
Proof. intros Hm H st Hn. specialize (Hm st Hn). destruct (m st) as [st1 [a|e| |]]; try done. destruct Hm; auto. Qed.
Lemma runs_attempt {A} n (P : A -> nat -> Prop) (m : M (W := W) A) :
  runs n P m -> runs n (fun r n' => match r with Ok a => P a n' | Err _ => True end) (attempt m).
Proof. intros Hm st Hn. unfold attempt. specialize (Hm st Hn). by destruct (m st) as [st1 [a|e| |]]. Qed.
Lemma runs_throw {A} n (P : A -> nat -> Prop) e : runs n P (throw e).
Proof. intros st _. apply wrote_refl. Qed.
Lemma runs_return {A} n (P : A -> nat -> Prop) a : P a n -> runs n P (ret a).
Proof. intros H st <-. split; [apply wrote_refl|done]. Qed.

(** Computations that spend nothing. *)
Definition keeps {A} n (P : A -> Prop) (m : M (W := W) A) : Prop := runs n (fun a n' => n' = n /\ P a) m.
Definition any {A} (a : A) : Prop := True.

Lemma keeps_bind {A B} n (P : A -> Prop) (Q : B -> Prop) (m : M (W := W) A) (k : A -> M (W := W) B) :
  keeps n P m -> (forall a, P a -> keeps n Q (k a)) -> keeps n Q (bind m k).
Proof. intros Hm Hk. eapply runs_bind; [exact Hm|]. intros a n' [-> HP]. by apply Hk. Qed.
Lemma keeps_then {A B} n (Q : B -> Prop) (m : M (W := W) A) (k : A -> M (W := W) B) :
  keeps n any m -> (forall a, keeps n Q (k a)) -> keeps n Q (bind m k).
Proof. intros Hm Hk. eapply keeps_bind; [exact Hm|]. intros a _. apply Hk. Qed.
Lemma runs_then {A B} n (Q : B -> nat -> Prop) (m : M (W := W) A) (k : A -> M (W := W) B) :
  keeps n any m -> (forall a, runs n Q (k a)) -> runs n Q (bind m k).
Proof. intros Hm Hk. eapply runs_bind; [exact Hm|]. intros a n' [-> _]. apply Hk. Qed.
Lemma keeps_weaken {A} n (P Q : A -> Prop) (m : M (W := W) A) : keeps n P m -> (forall a, P a -> Q a) -> keeps n Q m.
Proof. intros Hm H. eapply runs_weaken; [exact Hm|]. intros a n' [? ?]. auto. Qed.
Lemma keeps_ret {A} n (P : A -> Prop) a : P a -> keeps n P (ret a).
Proof. intros H. by apply runs_return. Qed.
Lemma keeps_throw {A} n (P : A -> Prop) e : keeps n P (throw e).
Proof. apply runs_throw. Qed.
Lemma keeps_gets {A} n (P : A -> Prop) (f : Loop W -> A) : (forall st, left st = n -> P (f st)) -> keeps n P (gets f).
Proof. intros H st Hn. split; [apply wrote_refl|]. auto. Qed.

Lemma keeps_of_res {A} n (r : result A LoopError) : keeps n any (of_res r).
Proof. destruct r; [by apply keeps_ret|apply keeps_throw]. Qed.
Lemma keeps_answer {A} n (P : A -> Prop) (r : option (result A LoopError)) :
  is_Some r -> (forall a, r = Some (Ok a) -> P a) -> keeps n P (answer r).
Proof. intros [[a|e] ->] H; [by apply keeps_ret, H|apply keeps_throw]. Qed.
Lemma keeps_modify n (f : Loop W -> Loop W) :
  (forall st, wrote (al_session st) (al_session (f st)) /\ left (f st) = left st) -> keeps n any (modify f).
Proof. intros H st <-. by destruct (H st). Qed.
Lemma keeps_state {A} n (f : Loop W -> Loop W * A) :
  (forall st, wrote (al_session st) (al_session (f st).1) /\ left (f st).1 = left st) -> keeps n any (state f).
Proof. intros H st <-. unfold state. specialize (H st). destruct (f st) as [st' a]. by destruct H. Qed.

Lemma ops_world ops st : al_world (foldl (agent_op E) st ops) = al_world st.
Proof.
  assert (Hcall : forall A (f : Inbox -> Inbox * result A InboxError) st, al_world (inbox_call f st).1 = al_world st).
  { intros A f st0. unfold inbox_call. by destruct (f (al_inbox st0)). }
  assert (Hwake : forall b st, al_world (wake_driver b st) = al_world st).
  { intros b st0. unfold wake_driver. destruct (al_phase st0) as [m|a w|a t s w]; [|by destruct (disposed _ _)|by destruct (_ && _)].
    cbn. by destruct (set_phase_fields (Running (length (al_signals st0)) m 0 false) (set_signals (al_signals st0 ++ [None]) st0)) as (_ & _ & _ & _ & _ & ->). }
  revert st. induction ops as [|op ops IH]; intros st; cbn [foldl]; [done|]. rewrite IH. destruct op as [message target wakeup|cause keep|data intent]; cbn.
  - unfold send. cbv zeta. match goal with |- context [inbox_call ?f st] => pose proof (Hcall _ f st) as H; destruct (inbox_call f st) as [st1 r] end.
    destruct wakeup; [by rewrite Hwake|done].
  - unfold cancel. cbv zeta. set (st1 := if keep then st else _).
    assert (H : al_world st1 = al_world st).
    { subst st1. destruct keep; [done|]. match goal with |- context [inbox_call ?f st] => pose proof (Hcall _ f st) as H; by destruct (inbox_call f st) end. }
    clearbody st1. rewrite <- H. destruct (al_phase st1) as [m|a w|a m s w]; [done|..]; unfold abort; by destruct (is_aborted a st1).
  - done.
Qed.

Lemma keeps_await n : keeps n any (await E).
Proof.
  apply keeps_modify. intros st. unfold interference. pose proof (wb_interfere E st) as Hf. pose proof (an_interfere st) as Hb.
  destruct (e_interfere E st) as [w ops]. split; [|unfold left; by rewrite ops_world].
  destruct (agent_ops_evolve E ops (set_world w st) Hf) as [_ H]. by eapply wrote_any.
Qed.
Lemma append_wrote data intent st :
  let '(s, _) := append (listeners (e_ops E)) (e_now E (al_session st)) data intent (al_session st) in wrote (al_session st) s.
Proof.
  pose proof (append_writes (e_ops E) (e_now E (al_session st)) data intent (al_session st)) as H.
  destruct (append _ _ _ _ _) as [s [e|err]]; by eapply wrote_any.
Qed.
Lemma keeps_append n data intent : keeps n any (session_append E data intent).
Proof.
  intros st <-. unfold session_append. pose proof (append_wrote data intent st) as H.
  by destruct (append _ _ _ _ _) as [s [e|err]].
Qed.
Lemma keeps_append_ n data : keeps n any (session_append_ E data).
Proof.
  intros st <-. unfold session_append_, bind, attempt, session_append. pose proof (append_wrote data None st) as H.
  by destruct (append _ _ _ _ _) as [s [e|err]].
Qed.

Lemma derive_log s : ss_log (derive_messages s).1 = ss_log s.
Proof. unfold derive_messages. cbv zeta. destruct (bool_decide _); by destruct (try_fold _ _ _). Qed.
Lemma keeps_messages n : keeps n any get_messages.
Proof.
  intros st <-. unfold get_messages. pose proof (derive_messages_spec (al_session st)) as H. pose proof (derive_log (al_session st)) as Hl.
  destruct (derive_messages (al_session st)) as [s [ms|err]].
  - split; [|done]. apply writes_same_log; [done|exact Hl|].
    intros [Hi Ha]. destruct (H Hi) as (_ & ? & _ & _ & Ha' & _). split; [done|exact (eq_trans Ha' Ha)].
  - exists (al_session st). split_and!; [apply wrote_refl| |by symmetry]. intros [Hi _]. by destruct (H Hi) as [? _].
Qed.
Lemma keeps_header n : keeps n any get_header.
Proof.
  apply keeps_state. intros st. pose proof (request_header_spec (al_session st)) as H.
  assert (Hl : ss_log (request_header (al_session st)).1 = ss_log (al_session st)) by (unfold request_header; cbv zeta; by destruct (_ <? _)).
  destruct (request_header (al_session st)) as [s h]. split; [|done]. apply writes_same_log; [done|exact Hl|].
  intros [Hi Ha]. destruct (H Hi) as (_ & ? & _ & _ & Ha' & _). split; [done|exact (eq_trans Ha' Ha)].
Qed.
Lemma keeps_context n : keeps n any get_request_context.
Proof.
  apply keeps_state. intros st. pose proof (request_context_spec (al_session st)) as H.
  assert (Hl : ss_log (request_context (al_session st)).1 = ss_log (al_session st)) by (unfold request_context; cbv zeta; by destruct (_ <? _)).
  destruct (request_context (al_session st)) as [s h]. split; [|done]. apply writes_same_log; [done|exact Hl|].
  intros [Hi Ha]. destruct (H Hi) as (_ & ? & _ & _ & Ha' & _). split; [done|exact (eq_trans Ha' Ha)].
Qed.
Lemma keeps_live n signal : keeps n any (ensure_live signal).
Proof. apply keeps_then; [by apply keeps_gets|]. intros []; [apply keeps_throw|by apply keeps_ret]. Qed.
Lemma keeps_for_each {A} n (f : A -> M (W := W) unit) l : (forall x, keeps n any (f x)) -> keeps n any (for_each f l).
Proof. intros Hf. induction l as [|x l IH]; cbn [for_each]; [by apply keeps_ret|]. by apply keeps_then. Qed.
Lemma keeps_rendered {A} n (r : option (result A PromptError)) : is_Some r -> keeps n any (of_rendered r).
Proof. intros [x ->]. apply keeps_of_res. Qed.
Lemma keeps_inbox {A} n (f : Inbox -> Inbox * result A InboxError) :
  (forall ib, writes_inert (ib_session ib) (ib_session (fst (f ib)))) -> keeps n any (state (inbox_call f)).
Proof.
  intros Hf. apply keeps_state. intros st. pose proof (inbox_call_frame f st Hf) as H. unfold inbox_call in *.
  destruct (f (al_inbox st)) as [ib r]. split; [|done]. destruct H as [_ H]. by eapply wrote_any.
Qed.
End live.

(** Goes through a computation that spends nothing by its structure. *)
Create HintDb keeps.
#[export] Hint Resolve keeps_throw keeps_of_res keeps_await keeps_append keeps_append_ keeps_messages keeps_header keeps_context
  keeps_live : keeps.
Ltac keeps_go :=
  repeat first
    [ progress cbv beta zeta
    | solve [eauto with keeps]
    | apply keeps_ret; exact I
    | apply keeps_gets; intros ? _; exact I
    | apply keeps_then; [|intros ?]
    | apply keeps_for_each; intros ?
    | match goal with |- keeps _ _ _ (match ?x with _ => _ end) => destruct x end
    | match goal with |- keeps _ _ _ (if ?x then _ else _) => destruct x end ].

(** * The driver's parts *)

Section parts.
Context {W : Type} (E : Env W) {WB : WellBehaved E} (budget : W -> nat) {AN : Answering E budget}.
Implicit Types (st : Loop W) (n fuel : nat).
Abbreviation keeps := (keeps budget).
Abbreviation runs := (runs budget).

(** Rendering always answers. *)
Lemma rendered_total kind variables entries : is_Some (rendered kind variables entries).
Proof.
  induction entries as [|entry entries [rest IH]]; cbn [rendered]; [eauto|].
  assert (Hi : is_Some (interpolate (as_name entry) (as_text entry) variables kind)).
  { unfold interpolate. apply interpolate_loop_total. lia. }
  destruct Hi as [[text|e] ->]; cbn; [rewrite IH|]; cbn; eauto.
Qed.
Lemma render_prompt_total assembly : is_Some (render_prompt assembly).
Proof. unfold render_prompt. destruct (rendered_total "section" (pa_variables assembly) (pa_sections assembly)) as [r ->]. by eexists. Qed.

Lemma keeps_prepare n proposed : keeps n any (prepare E proposed).
Proof.
  unfold prepare. do 2 (apply keeps_then; [keeps_go|intros ?]). destruct (an_prepare a0 proposed) as [[p|e] ->]; keeps_go.
Qed.
Lemma keeps_log_header n header : keeps n any (log_header E header).
Proof. unfold log_header. keeps_go; (apply keeps_modify; intros st; split; [apply wrote_refl|done]). Qed.
Lemma keeps_log_context n context : keeps n any (log_context E context).
Proof. unfold log_context. keeps_go. Qed.
Hint Resolve keeps_prepare keeps_log_header keeps_log_context : keeps.

Lemma keeps_build_request n turn step tools system signal :
  keeps n (fun _ => 0 < n) (build_request E turn step tools system signal).
Proof.
  unfold build_request. do 2 (apply keeps_then; [keeps_go|intros ?]). cbv zeta. apply keeps_then; [keeps_go|]. intros _.
  eapply keeps_bind; [apply (keeps_gets budget n (fun st => left budget st = n)); done|]. intros st Hst. cbv beta.
  eapply keeps_bind; [apply (keeps_answer budget n (fun _ => 0 < n)); [apply an_request|]|].
  { intros proposed Hp. apply an_refuses in Hp. unfold left in Hst. lia. }
  intros proposed Hn. apply (keeps_weaken budget n any); [|intros ? _; exact Hn]. keeps_go.
Qed.

Lemma runs_open_stream n request prepared :
  0 < n -> runs n (fun stream n' => n' < n /\ sound_stream stream) (open_stream E request prepared).
Proof.
  intros Hn. unfold open_stream. eapply runs_then; [by apply keeps_gets|]. intros st. cbv zeta.
  eapply (runs_bind _ _ (fun _ n' => n' < n)).
  { intros st1 Hst. unfold modify. split; [apply wrote_refl|]. unfold left in *. cbn. rewrite <- Hst. apply an_open. lia. }
  intros _ n' Hn'. destruct prepared as [p|]; [unfold prepared_stream; destruct (pc_dispatched p); [apply runs_throw|];
    destruct (negb _); [apply runs_throw|]|]; (apply runs_return; split; [done|]); unfold runtime_stream; apply an_stream.
Qed.

Lemma keeps_consume n turn step signal chunks asm seqs :
  keeps n (fun r => r.1 = foldl push asm chunks) (consume E turn step signal chunks Ended asm seqs).
Proof.
  revert asm seqs. induction chunks as [|chunk chunks IH]; intros asm seqs; cbn [consume foldl].
  - apply keeps_then; [keeps_go|]. intros _. by apply keeps_ret.
  - do 3 (apply keeps_then; [keeps_go|intros ?]). apply IH.
Qed.

(** A selected candidate has a text. *)
Definition selects_known (x : option FocusSelection) : Prop :=
  forall c, x ≫= fs_selected = Some c -> is_Some (focus_text (pf_id c)).

Lemma prepared_known tools c : c ∈ prepare_focus_choices tools -> is_Some (focus_text (pf_id c)).
Proof.
  unfold prepare_focus_choices. rewrite list_elem_of_omap. intros (choice & Hin & Hc). apply fmap_Some in Hc as (names & _ & ->). cbn.
  unfold FOCUS_CHOICES in Hin. repeat (apply elem_of_cons in Hin as [->|Hin]; [cbn; eexists; reflexivity|]). by apply elem_of_nil in Hin.
Qed.
Lemma applied_known local o mode turn step tools : selects_known (Some (apply_outcome local o (new_selection mode turn step tools))).
Proof.
  intros c. cbn. intros H. destruct (so_selected_id o) as [id|]; [|done]. cbn in H. apply find_some in H as [Hin _].
  apply (prepared_known tools). by apply list_elem_of_In.
Qed.

Lemma keeps_select n turn step tools signal : keeps n selects_known (select_decision_focus E turn step tools signal).
Proof.
  unfold select_decision_focus. apply keeps_then; [keeps_go|]. intros mode. destruct (decide _); [by apply keeps_ret|]. cbv zeta.
  destruct (_ || _); [by apply keeps_ret|]. apply keeps_then; [keeps_go|]. intros messages.
  destruct (latest_user_task messages) as [task|]; [|by apply keeps_ret]. cbv zeta. destruct (negb _); [by apply keeps_ret|].
  apply keeps_then; [keeps_go|]. intros _. apply keeps_then; [keeps_go|]. intros st.
  match goal with |- keeps _ _ (match e_select E ?a ?b ?c with _ => _ end) => destruct (an_select a b c) as [[o|] ->] end;
    apply keeps_ret; [apply applied_known|done].
Qed.
Lemma recheck_known tools x : selects_known x -> selects_known (recheck tools <$> x).
Proof.
  intros Hx c. destruct x as [x|]; [|done]. cbn. unfold recheck. destruct (fs_selected x) as [d|] eqn:Hd; [|by rewrite Hd].
  case_bool_decide; [|done]. rewrite Hd. intros [= <-]. by apply Hx.
Qed.

Lemma keeps_drop_receipt n turn step x observed : keeps n any (drop_receipt E turn step x observed).
Proof. unfold drop_receipt. keeps_go. Qed.

Definition same_left st st' : Prop := left budget st = left budget st'.
Instance same_left_preorder : PreOrder same_left.
Proof. split; [done|]. intros x y z. apply eq_trans. Qed.

Lemma keeps_execute n turn step calls admitted signal : keeps n any (execute_calls E turn step calls admitted signal).
Proof.
  intros st <-. destruct (execute_calls_spec E turn step calls admitted signal st) as (o & Ho & _ & Hw).
  assert (Hb : left budget (execute_calls E turn step calls admitted signal st).1 = left budget st).
  { unfold execute_calls, state, execute_tool_calls. cbv zeta. cbn.
    match goal with |- left _ (set_session _ ?x) = _ => change (left budget x = left budget st) end.
    symmetry. pose (st0 := mk_loop st (al_session st) (mk_outcome false 0 0 0 0)). change st with (lp_env st0) at 1.
    apply (run_calls_env (e_arguments E) (e_now E) (e_mint E) (e_ops E) (is_aborted signal) (run_tool E) (accept_context E) same_left).
    - intros env s x. unfold run_tool. pose proof (an_tool (set_session s env) x) as H. destruct (e_tool E (set_session s env) x) as [[w ops] r].
      cbn in *. unfold same_left, left. by rewrite ops_world.
    - intros env s m. unfold same_left, accept_context, inbox_call. by destruct (al_append _ _ _ _). }
  destruct (execute_calls E _ _ _ _ _ st) as [st' r]. cbn in *. subst r. split; [by eapply wrote_any|by split].
Qed.

Lemma keeps_finish_step n turn step request admitted signal asm seqs content :
  blocks asm = Ok content -> keeps n any (finish_step E turn step request admitted signal asm seqs).
Proof.
  intros Hb. unfold finish_step. apply keeps_then; [keeps_go|]. intros s. rewrite Hb. cbv zeta.
  apply keeps_then; [keeps_go|]. intros _.
  destruct (finish asm); try (by apply keeps_ret); (case_bool_decide; [by apply keeps_ret|]; apply keeps_then; [apply keeps_execute|]; intros o; by apply keeps_ret).
Qed.

(** ** The loops *)

Definition less {A} (n : nat) (a : A) (n' : nat) : Prop := n' < n.

Lemma runs_request_loop fuel n turn step tools system admitted signal :
  n < fuel -> runs n (less n) (request_loop E fuel turn step tools system admitted signal).
Proof.
  revert n. induction fuel as [|fuel IH]; intros n Hf; [lia|]. cbn [request_loop].
  eapply runs_bind; [apply keeps_build_request|]. intros [request prepared] n' [-> Hn].
  eapply runs_bind; [by apply runs_open_stream|]. intros stream k (Hk & Hended & Hsound). rewrite Hended.
  apply (runs_then budget); [keeps_go|]. intros _.
  eapply runs_bind; [apply keeps_consume|]. intros [asm seqs] k' [-> Hasm]. cbn [fst] in Hasm. subst asm.
  apply (runs_then budget); [keeps_go|]. intros _. unfold sound_assembly in Hsound.
  destruct (finish_failure _) as [failure|].
  - do 2 (apply (runs_then budget); [keeps_go|intros ?]).
    eapply runs_bind; [apply (keeps_answer budget k any); [apply an_request_error|done]|]. intros retry k' [-> _].
    apply (runs_then budget); [keeps_go|]. intros _. destruct retry.
    + eapply runs_weaken; [apply IH; lia|]. unfold less. intros; lia.
    + destruct Hsound as [error ->]. apply runs_throw.
  - destruct Hsound as [content Hb]. eapply runs_weaken; [by eapply keeps_finish_step|]. unfold less. intros a n' [-> _]. lia.
Qed.

Lemma runs_with_receipt {A} n turn step selection (body : M (W := W) (A * string)) :
  runs n (less n) body -> runs n (less n) (with_receipt E turn step selection body).
Proof.
  intros Hb. unfold with_receipt. destruct selection as [x|].
  - eapply runs_bind; [by apply runs_attempt|]. intros [[a observed]|e] n' Hn'.
    + apply (runs_then budget); [apply keeps_drop_receipt|]. intros _. by apply runs_return.
    + apply (runs_then budget); [apply keeps_drop_receipt|]. intros _. apply runs_throw.
  - eapply runs_bind; [exact Hb|]. intros r n' Hn'. by apply runs_return.
Qed.

Lemma runs_step_body fuel n turn step assembly signal :
  n < fuel -> runs n (less n) (step_body E fuel turn step assembly signal).
Proof.
  intros Hf. unfold step_body.
  eapply runs_bind; [apply keeps_rendered, render_prompt_total|]. intros system n' [-> _].
  eapply runs_bind; [apply keeps_select|]. intros selection n' [-> Hs]. cbv zeta. apply (recheck_known (pa_tools assembly)) in Hs.
  destruct (_ ≫= fs_selected) as [c|] eqn:Hc.
  - destruct (Hs c Hc) as [text ->]. apply runs_with_receipt. apply (runs_then budget); [keeps_go|]. intros _. by apply runs_request_loop.
  - apply runs_with_receipt. apply (runs_then budget); [keeps_go|]. intros _. by apply runs_request_loop.
Qed.

Lemma keeps_set_step n step : keeps n any (modify (set_running_step step)).
Proof. apply keeps_modify. intros st. rewrite running_step_session. split; [apply wrote_refl|]. unfold left, set_running_step. by destruct (al_phase st). Qed.

Lemma runs_run_step fuel n turn step messages assembly signal :
  n < fuel -> runs n (less n) (run_step E fuel turn step messages assembly signal).
Proof.
  intros Hf. unfold run_step. apply (runs_then budget); [keeps_go|]. intros _. apply (runs_then budget); [apply keeps_set_step|]. intros _.
  eapply runs_bind.
  { apply runs_attempt. apply (runs_then budget); [|intros _; by apply runs_step_body].
    unfold append_user. keeps_go. }
  intros r n' Hr. apply (runs_then budget); [keeps_go|]. intros _. destruct r; [by apply runs_return|apply runs_throw].
Qed.

Lemma keeps_pre_step n target turn step signal : keeps n any (pre_step E target turn step signal).
Proof.
  unfold pre_step. apply keeps_then; [apply keeps_inbox; intros; apply claim_writes|]. intros r.
  do 3 (apply keeps_then; [keeps_go|intros ?]).
  apply keeps_then; [apply keeps_answer; [apply an_assemble|done]|]. intros assembly.
  apply keeps_then; [keeps_go|]. intros _.
  apply keeps_then; [apply keeps_rendered, rendered_total|]. intros sections.
  apply keeps_then; [apply keeps_state; intros st; destruct (project _ _ _ _ _); split; [apply wrote_refl|done]|]. intros context. cbv zeta.
  do 2 (apply keeps_then; [keeps_go|intros ?]).
  apply keeps_then; [apply keeps_answer; [apply an_pre_step|done]|]. intros decision. keeps_go.
Qed.

Lemma keeps_close_step n turn signal turn_ends : keeps n any (close_step E turn signal turn_ends).
Proof.
  unfold close_step. apply keeps_then; [keeps_go|]. intros _. cbv zeta. apply keeps_then; [keeps_go|]. intros quiet.
  apply keeps_then; [|intros _; keeps_go]. destruct (_ && _); [|keeps_go].
  do 2 (apply keeps_then; [keeps_go|intros ?]). destruct (an_turn_stopping a0 turn) as [u ->]. keeps_go.
Qed.

Lemma runs_turn_iteration fuel n signal turn turn_ends target :
  n < fuel -> runs n (fun r n' => r.2 = false -> n' < n) (turn_iteration E fuel signal turn turn_ends target).
Proof.
  intros Hf. unfold turn_iteration. do 2 (apply (runs_then budget); [keeps_go|intros ?]).
  destruct a0 as [current|]; [|apply runs_throw]. cbv zeta.
  apply (runs_then budget); [apply keeps_pre_step|]. intros [[messages assembly]|]; [|by apply runs_return].
  apply (runs_then budget); [keeps_go|]. intros now. destruct (_ && _); [by apply runs_return|]. destruct (_ && _); [by apply runs_return|].
  apply (runs_then budget); [keeps_go|]. intros _.
  eapply runs_bind; [by apply runs_run_step|]. intros step_end n' Hn'.
  apply (runs_then budget); [apply keeps_close_step|]. intros over. by apply runs_return.
Qed.

Lemma runs_turn_loop fuel n signal turn turn_ends target :
  n < fuel -> runs n (fun _ _ => True) (turn_loop E fuel signal turn turn_ends target).
Proof.
  revert n turn_ends target. induction fuel as [|fuel IH]; intros n turn_ends target Hf; [lia|].
  change (turn_loop E (S fuel) signal turn turn_ends target) with
    (let^ r := turn_iteration E (S fuel) signal turn turn_ends target in
     if r.2 then ret r.1 else turn_loop E fuel signal turn r.1 NextStep).
  eapply runs_bind; [by apply runs_turn_iteration|]. intros [r over] n' Hn'. cbn [fst snd] in *.
  destruct over; [by apply runs_return|]. apply IH. specialize (Hn' eq_refl). lia.
Qed.

Lemma runs_turn fuel n : n < fuel -> runs n (fun _ _ => True) (turn E fuel).
Proof.
  intros Hf. unfold turn.
  apply (runs_then budget); [apply keeps_modify; intros st; split; [apply wrote_refl|done]|]. intros _.
  apply (runs_then budget); [keeps_go|]. intros phase. destruct phase as [m|a w|signal last step wake]; [apply runs_throw..|]. cbv zeta.
  do 2 (apply (runs_then budget); [keeps_go|intros _]).
  apply (runs_then budget).
  { apply keeps_modify. intros st. unfold set_running_turn. destruct (al_phase st); by (split; [apply wrote_refl|]). }
  intros _. unfold run_turn. eapply (runs_bind _ _ (fun _ _ => True)).
  { eapply runs_bind; [apply runs_attempt, runs_turn_loop; exact Hf|]. intros r n' _.
    eapply (runs_bind _ _ (fun _ _ => True)).
    - intros st _. unfold turn_close. destruct r as [x|e]; [by split; [apply wrote_refl|]|]. unfold bind, gets.
      by destruct (is_aborted signal st); (split; [apply wrote_refl|]).
    - intros turn_ends k _. apply (runs_then budget); [keeps_go|]. intros _. by apply runs_return. }
  intros [x|e] n' _; [|by apply runs_return]. apply (runs_then budget); [keeps_go|]. intros pending.
  destruct (negb pending); [by apply runs_return|]. apply (runs_then budget); [|intros _; by apply runs_return].
  apply keeps_modify. intros st. destruct (al_phase st); by (split; [apply wrote_refl|]).
Qed.
End parts.

(** C9. With services that answer and request listeners that refuse once a
    budget of model calls is spent, a turn ends: whatever tools do, however many
    attempts and steps the budget allows and whatever other tasks perform at the
    awaits, fuel above the budget is enough and no await is left hanging, as
    long as the session keeps its room. *)
Theorem turn_answers {W} (E : Env W) (budget : W -> nat) fuel st :
  WellBehaved E -> Answering E budget -> budget (al_world st) < fuel ->
  good (al_session st) -> has_room (al_session (turn E fuel st).1) ->
  (exists again, (turn E fuel st).2 = Ret again) \/ (exists e, (turn E fuel st).2 = Throw e).
Proof.
  intros HW HA Hf Hg. pose proof (runs_turn E budget fuel (budget (al_world st)) Hf st eq_refl) as H.
  destruct (turn E fuel st) as [st' [again|e| |]]; cbn; [by left; exists again|by right; exists e| |done].
  intros Hroom. exfalso. destruct H as (s1 & (es & Hes & Hw) & Hbad & Hlog). apply Hbad. apply (Hw Hg).
  unfold has_room in *. by rewrite Hlog.
Qed.

(** * Witness *)

Definition demo_budget (w : nat) : nat := 5 - w.
Lemma demo_answers : Answering demo_env demo_budget.
Proof.
  split; try (intros; by eexists); try (intros; reflexivity).
  - intros st config turn step proposed. unfold demo_budget. cbn. destruct (al_world st <=? 4) eqn:H; [|done]. apply Nat.leb_le in H. lia.
  - intros st registration request. split; [done|]. unfold sound_assembly. change (stream_with_registration _ _ _ _ _).1 with (demo_chunks (al_world st)).
    destruct (al_world st); vm_compute; eexists; reflexivity.
  - intros w. unfold demo_budget. cbn. lia.
Qed.

Lemma turn_answers_witness :
  (exists again, (turn demo_env 8 demo_woken).2 = Ret again) /\ (turn demo_env 8 demo_woken).2 = Ret false.
Proof.
  assert (Hf : demo_budget (al_world demo_woken) < 8) by (vm_compute; lia).
  assert (Hr : has_room (al_session (turn demo_env 8 demo_woken).1)) by (vm_compute; reflexivity).
  assert (Hok : (turn demo_env 8 demo_woken).2 = Ret false) by (vm_compute; reflexivity).
  split; [|exact Hok].
  destruct (turn_answers demo_env demo_budget 8 demo_woken demo_well_behaved demo_answers Hf demo_woken_good Hr) as [H|[e H]]; [exact H|].
  rewrite Hok in H. discriminate H.
Defined.
