(* ===== verification/SessionDoc.v ===== *)
(** The session document, [crates/doc/src/schema.rs]: the entries and the
    command ledger of one chat, written through Loro containers and read back
    as JSON, and the writer that streams a live segment into its entry.

    Loro is a parameter: [Loro D X] is a document type with its container
    operations, whose only law is what a successful operation does to the
    container tree.  The serde codecs of the part payloads and the passage of a
    JSON value through a [LoroValue] are parameters as well.  The derived
    deserializers of the structs declared in the file are written out. *)
From Stdlib Require Import ZArith Lia Ascii String.
From stdpp Require Import base tactics numbers list strings pretty gmap.
From S2P Require Import Prelude Json Text Proto Parts TranscriptDelta SystemPrompt.
Open Scope keel_scope.

(** * The container tree *)

(** What a part map holds under a key: a value, or a [LoroText]. *)
Inductive Leaf := LVal (v : Value) | LText (s : string).
(** An element of a parts list, a value of an entry map, an element of a root
    list.  A container the code never opens reads like the value it renders. *)
Inductive Item := IMap (m : gmap string Leaf) | IVal (v : Value).
Inductive Slot := SLeaf (l : Leaf) | SList (items : list Item).
Inductive Row := RMap (m : gmap string Slot) | RVal (v : Value).

Inductive RootList := L_Messages | L_Commands.
Record View := mk_view { vw_meta : gmap string Leaf; vw_messages : list Row; vw_commands : list Row }.
Definition empty_view : View := mk_view ∅ [] [].
Definition rows (l : RootList) (v : View) : list Row :=
  match l with L_Messages => vw_messages v | L_Commands => vw_commands v end.
Definition set_rows (l : RootList) (rs : list Row) (v : View) : View :=
  match l with
  | L_Messages => mk_view (vw_meta v) rs (vw_commands v)
  | L_Commands => mk_view (vw_meta v) (vw_messages v) rs
  end.

(** A container operation; a container is named by its position. *)
Inductive LoroOp :=
| MetaInsert (key : string) (v : Value)
| PushRow (l : RootList)
| RowInsert (l : RootList) (i : nat) (key : string) (v : Value)
| RowInsertList (l : RootList) (i : nat) (key : string)
| PushItem (i : nat)
| ItemInsert (i j : nat) (key : string) (v : Value)
| ItemInsertText (i j : nat) (key : string)
| TextInsert (i j : nat) (key : string) (at_ : nat) (s : string)
| TextUpdate (i j : nat) (key : string) (s : string).

Definition alter_row (l : RootList) (i : nat) (f : gmap string Slot -> option (gmap string Slot)) (v : View) : option View :=
  match rows l v !! i with
  | Some (RMap m) => m' ← f m; Some (set_rows l (<[i := RMap m']> (rows l v)) v)
  | _ => None
  end.
Definition PARTS : string := "parts".
Definition alter_items (i : nat) (f : list Item -> option (list Item)) (v : View) : option View :=
  alter_row L_Messages i (fun m =>
    match m !! PARTS with Some (SList items) => items' ← f items; Some (<[PARTS := SList items']> m) | _ => None end) v.
Definition alter_item (i j : nat) (f : gmap string Leaf -> option (gmap string Leaf)) (v : View) : option View :=
  alter_items i (fun items =>
    match items !! j with Some (IMap m) => m' ← f m; Some (<[j := IMap m']> items) | _ => None end) v.
Definition alter_text (i j : nat) (key : string) (f : string -> string) (v : View) : option View :=
  alter_item i j (fun m => match m !! key with Some (LText s) => Some (<[key := LText (f s)]> m) | _ => None end) v.
(** [LoroText::insert] counts characters. *)
Definition text_insert (at_ : nat) (s t : string) : string :=
  let before := chars_take at_ t in before +:+ s +:+ str_drop (String.length before) t.

Definition apply_view (op : LoroOp) (v : View) : option View :=
  match op with
  | MetaInsert key x => Some (mk_view (<[key := LVal x]> (vw_meta v)) (vw_messages v) (vw_commands v))
  | PushRow l => Some (set_rows l (rows l v ++ [RMap ∅]) v)
  | RowInsert l i key x => alter_row l i (fun m => Some (<[key := SLeaf (LVal x)]> m)) v
  | RowInsertList l i key => alter_row l i (fun m => Some (<[key := SList []]> m)) v
  | PushItem i => alter_items i (fun items => Some (items ++ [IMap ∅])) v
  | ItemInsert i j key x => alter_item i j (fun m => Some (<[key := LVal x]> m)) v
  | ItemInsertText i j key => alter_item i j (fun m => Some (<[key := LText EmptyString]> m)) v
  | TextInsert i j key at_ s => alter_text i j key (text_insert at_ s) v
  | TextUpdate i j key s => alter_text i j key (fun _ => s) v
  end.

(** The documents.  An operation that fails leaves the document as it was. *)
Class Loro (D X : Type) := {
  lr_new : D;
  lr_view : D -> View;
  lr_apply : LoroOp -> D -> result D X;
  lr_new_view : lr_view lr_new = empty_view;
  lr_apply_view op d d' : lr_apply op d = Ok d' -> apply_view op (lr_view d) = Some (lr_view d');
}.

(** * JSON *)

(** The JSON of a map, in key order. *)
Definition json_object {A} (f : A -> Value) (m : gmap string A) : Value :=
  Obj ((fun kv => (kv.1, f kv.2)) <$> sort_by (fun a b => string_leb a.1 b.1) (map_to_list m)).
Definition leaf_json (l : Leaf) : Value := match l with LVal v => v | LText s => Str s end.
Definition item_json (x : Item) : Value := match x with IMap m => json_object leaf_json m | IVal v => v end.
Definition slot_json (s : Slot) : Value := match s with SLeaf l => leaf_json l | SList items => Arr (item_json <$> items) end.
Definition row_json (r : Row) : Value := match r with RMap m => json_object slot_json m | RVal v => v end.

(** The fields of a struct as a derived deserializer sees them: an object by
    name, an array by position. *)
Definition struct_fields (count : nat) (v : Value) : option (nat -> string -> option Value) :=
  match v with
  | Obj m => Some (fun _ key => assoc key m)
  | Arr l => if length l <=? count then Some (fun i _ => l !! i) else None
  | _ => None
  end.
(** [#[serde(default)]] on an [Option]. *)
Definition opt_field {A} (parse : Value -> option A) (o : option Value) : option (option A) :=
  match o with
  | None | Some Null => Some None
  | Some v => Some <$> parse v
  end.
Definition list_field {A} (parse : Value -> option A) (o : option Value) : option (list A) :=
  match o with
  | None => Some []
  | Some (Arr l) => mapM parse l
  | Some _ => None
  end.
(** A unit variant: its name, or an object of its name and null. *)
Definition variant_name (v : Value) : option string :=
  match v with Str s => Some s | Obj [(s, Null)] => Some s | _ => None end.

Definition role_str (r : MessageRole) : string :=
  match r with MR_User => "user" | MR_Assistant => "assistant" | MR_System => "system" end.
Definition role_of_json (v : Value) : option MessageRole :=
  name ← variant_name v;
  if decide (name = "user"%string) then Some MR_User
  else if decide (name = "assistant"%string) then Some MR_Assistant
  else if decide (name = "system"%string) then Some MR_System else None.
Definition status_str (s : MessageStatus) : string :=
  match s with MSt_Streaming => "streaming" | MSt_Complete => "complete" | MSt_Aborted => "aborted" end.
Definition status_of_json (v : Value) : option MessageStatus :=
  name ← variant_name v;
  if decide (name = "streaming"%string) then Some MSt_Streaming
  else if decide (name = "complete"%string) then Some MSt_Complete
  else if decide (name = "aborted"%string) then Some MSt_Aborted else None.

Inductive DocError (X : Type) := DE_Loro (e : X) | DE_Schema (message : string) | DE_Json.
Arguments DE_Loro {X} e.
Arguments DE_Schema {X} message.
Arguments DE_Json {X}.

(** * Parts *)

Record DocPartJson := mk_doc_part {
  dp_id : string;
  dp_kind : string;
  dp_text : option string;
  dp_call : option Value;
  dp_is_error : option bool;
  dp_questions : option Value;
  dp_resolved : option bool;
  dp_message : option string;
  dp_decision : option Value;
  dp_output : option string;
  dp_diff : option Value;
  dp_output_ref : option string;
  dp_output_bytes : option Z;
  dp_diff_ref : option string;
  dp_diff_stats : option Value;
}.

(** The serde codec of one payload type. *)
Record Codec (A : Type) := mk_codec { enc : A -> option Value; dec : Value -> option A }.
Arguments enc {A}.
Arguments dec {A}.

(** The payload codecs, JSON through [LoroValue::from] and back, and
    [format!("{:016x}", hash(v.to_string()))]. *)
Class Codecs := {
  calls : Codec ToolCall;
  diffs : Codec ToolDiff;
  stats : Codec (list ToolDiffStat);
  questions : Codec (list UserInputQuestion);
  events : Codec DecisionEvent;
  loro_json : Value -> Value;
  stable_hash : Value -> string;
}.

Section parts.
Context {CD : Codecs}.

(** [opt.as_ref().map(serde_json::to_value).transpose()?]. *)
Definition enc_opt {A} (c : Codec A) (o : option A) : option (option Value) :=
  match o with None => Some None | Some a => Some <$> enc c a end.

(** [None]: the error of [serde_json::to_value]. *)
Definition to_doc_part (p : MessagePart) : option DocPartJson :=
  match p with
  | MP_Text id text => Some (mk_doc_part id "text" (Some text) None None None None None None None None None None None None)
  | MP_Tool t =>
      call ← enc calls (tp_call t);
      diff ← enc_opt diffs (tp_diff t);
      diff_stats ← enc_opt stats (tp_diff_stats t);
      Some (mk_doc_part (tp_id t) "tool" None (Some call) (if tp_resolved t then Some (tp_is_error t) else None) None None None None
              (tp_output t) diff (tp_output_ref t) (tp_output_bytes t) (tp_diff_ref t) diff_stats)
  | MP_Input _ request_id qs resolved =>
      q ← enc questions qs;
      Some (mk_doc_part request_id "input" None None None (Some q) (Some resolved) None None None None None None None None)
  | MP_Error id message => Some (mk_doc_part id "error" None None None None None (Some message) None None None None None None None)
  | MP_Decision id event =>
      decision ← enc events (bounded event);
      Some (mk_doc_part id "decision" None None None None None None (Some decision) None None None None None None)
  end.

Definition from_doc_part (p : DocPartJson) : MessagePart :=
  if decide (dp_kind p = "tool"%string) then
    match dp_call p ≫= dec calls with
    | Some call =>
        MP_Tool (mk_tool_part (dp_id p) call (default false (dp_is_error p)) (bool_decide (is_Some (dp_is_error p))) (dp_output p)
          (dp_diff p ≫= dec diffs) (dp_output_ref p) (dp_output_bytes p) (dp_diff_ref p) (dp_diff_stats p ≫= dec stats))
    | None => MP_Text (dp_id p) EmptyString
    end
  else if decide (dp_kind p = "input"%string) then
    MP_Input (dp_id p) (dp_id p) (default [] (dp_questions p ≫= dec questions)) (default false (dp_resolved p))
  else if decide (dp_kind p = "error"%string) then MP_Error (dp_id p) (default EmptyString (dp_message p))
  else if decide (dp_kind p = "decision"%string) then
    match dp_decision p ≫= dec events with
    | Some event => MP_Decision (dp_id p) (bounded event)
    | None => MP_Text (dp_id p) EmptyString
    end
  else MP_Text (dp_id p) (default EmptyString (dp_text p)).

(** The derived deserializer of [DocPartJson]. *)
Definition doc_part_of_json (v : Value) : option DocPartJson :=
  field ← struct_fields 15 v;
  id ← field 0 "id"%string ≫= as_str;
  kind ← field 1 "kind"%string ≫= as_str;
  text ← opt_field as_str (field 2 "text"%string);
  call ← opt_field Some (field 3 "call"%string);
  is_error ← opt_field as_bool (field 4 "isError"%string);
  qs ← opt_field Some (field 5 "questions"%string);
  resolved ← opt_field as_bool (field 6 "resolved"%string);
  message ← opt_field as_str (field 7 "message"%string);
  decision ← opt_field Some (field 8 "decision"%string);
  output ← opt_field as_str (field 9 "output"%string);
  diff ← opt_field Some (field 10 "diff"%string);
  output_ref ← opt_field as_str (field 11 "outputRef"%string);
  output_bytes ← opt_field as_u64 (field 12 "outputBytes"%string);
  diff_ref ← opt_field as_str (field 13 "diffRef"%string);
  diff_stats ← opt_field Some (field 14 "diffStats"%string);
  Some (mk_doc_part id kind text call is_error qs resolved message decision output diff output_ref output_bytes diff_ref diff_stats).

Definition salvage_part (part : Value) (entry_id : string) (ix : nat) : option MessagePart :=
  obj ← as_object part;
  let id := default (entry_id +:+ "#recovered-" +:+ pretty ix) (assoc "id" obj ≫= as_str) in
  match assoc "text" obj ≫= as_str with
  | Some text => Some (MP_Text id text)
  | None =>
      match assoc "call" obj ≫= dec calls with
      | Some call =>
          Some (MP_Tool (mk_tool_part id call (default false (assoc "isError" obj ≫= as_bool)) (default true (assoc "resolved" obj ≫= as_bool))
                  (assoc "output" obj ≫= as_str) None None None None None))
      | None => MP_Error id <$> (assoc "message" obj ≫= as_str)
      end
  end.

(** * Entries *)

Definition salvaged_parts (id : string) (l : list Value) : list MessagePart :=
  omap (fun ip => match doc_part_of_json ip.2 with Some p => Some (from_doc_part p) | None => salvage_part ip.2 id ip.1 end) (imap pair l).
Definition salvage_entry (v : Value) : option SessionMessageEntry :=
  obj ← as_object v;
  let id := default ("recovered-" +:+ stable_hash v) (assoc "id" obj ≫= as_str) in
  Some (mk_entry id (default MR_Assistant (assoc "role" obj ≫= role_of_json))
    (match assoc "parts" obj with Some (Arr l) => salvaged_parts id l | _ => [] end)
    (default 0%Z (assoc "createdAt" obj ≫= as_i64)) (default EmptyString (assoc "deviceId" obj ≫= as_str))
    (assoc "status" obj ≫= status_of_json) (assoc "continuationOf" obj ≫= as_str)).

(** The strict shape; what it rejects is salvaged field by field. *)
Definition raw_entry_of_json (v : Value) : option SessionMessageEntry :=
  field ← struct_fields 7 v;
  id ← field 0 "id"%string ≫= as_str;
  role ← field 1 "role"%string ≫= role_of_json;
  parts ← list_field doc_part_of_json (field 2 "parts"%string);
  created_at ← field 3 "createdAt"%string ≫= as_i64;
  device_id ← field 4 "deviceId"%string ≫= as_str;
  status ← opt_field status_of_json (field 5 "status"%string);
  continuation_of ← opt_field as_str (field 6 "continuationOf"%string);
  Some (mk_entry id role (from_doc_part <$> parts) created_at device_id status continuation_of).
Definition entry_from_json (v : Value) : option SessionMessageEntry :=
  match raw_entry_of_json v with Some e => Some e | None => salvage_entry v end.

(** [read_entries]: what cannot be salvaged is skipped. *)
Definition read_entries (v : View) : list SessionMessageEntry := omap entry_from_json (row_json <$> vw_messages v).

Definition chat_id (v : View) : option string :=
  match vw_meta v !! "chatId"%string with Some (LVal (Str s)) => Some s | _ => None end.

End parts.

(** * Writing *)

(** State and error: a failing operation keeps what was written before it. *)
Section monad.
Context {D X : Type} `{!Loro D X}.
Definition DM (A : Type) : Type := D -> D * result A (DocError X).
Definition dret {A} (a : A) : DM A := fun d => (d, Ok a).
Definition dfail {A} (e : DocError X) : DM A := fun d => (d, Err e).
Definition dbind {A B} (m : DM A) (k : A -> DM B) : DM B := fun d =>
  match m d with (d, Ok a) => k a d | (d, Err e) => (d, Err e) end.
Definition dview {A} (f : View -> A) : DM A := fun d => (d, Ok (f (lr_view d))).
Definition op (o : LoroOp) : DM unit := fun d =>
  match lr_apply o d with Ok d' => (d', Ok tt) | Err e => (d, Err (DE_Loro e)) end.
Definition dopt {A} (o : option A) : DM A := match o with Some a => dret a | None => dfail DE_Json end.
Fixpoint deach {A} (f : A -> DM unit) (l : list A) : DM unit :=
  match l with [] => dret tt | x :: l => dbind (f x) (fun _ => deach f l) end.
End monad.
Arguments DM D X A : clear implicits.
Notation "'let*' x := m 'in' k" := (dbind m (fun x => k)) (at level 10, x pattern, m at level 100, k at level 200) : keel_scope.

Section writing.
Context {CD : Codecs} {D X : Type} `{!Loro D X}.
Abbreviation DM := (DM D X).

(** [SessionDoc::init]. *)
Definition SESSION_SCHEMA_VERSION : Z := 1.
Definition init (id : string) : D * result unit (DocError X) :=
  (let* _ := op (MetaInsert "chatId" (Str id)) in op (MetaInsert "schemaVersion" (json_i64 SESSION_SCHEMA_VERSION))) lr_new.

Definition put_row (l : RootList) (i : nat) (fields : list (string * option Value)) : DM unit :=
  deach (fun kv => match kv.2 with Some v => op (RowInsert l i kv.1 v) | None => dret tt end) fields.
Definition put_item (i j : nat) (fields : list (string * option Value)) : DM unit :=
  deach (fun kv => match kv.2 with Some v => op (ItemInsert i j kv.1 v) | None => dret tt end) fields.

(** The keys and values of [write_entry_scalar_fields], in order. *)
Definition entry_scalars (e : SessionMessageEntry) : list (string * option Value) :=
  [("id", Some (Str (en_id e))); ("role", Some (Str (role_str (en_role e)))); ("createdAt", Some (json_i64 (en_created_at e)));
   ("deviceId", Some (Str (en_device_id e))); ("status", Str ∘ status_str <$> en_status e);
   ("continuationOf", Str <$> en_continuation_of e)]%string.
Definition write_entry_scalar_fields (i : nat) (e : SessionMessageEntry) : DM unit := put_row L_Messages i (entry_scalars e).

(** [output_bytes as i64]. *)
Definition u64_as_i64 (n : Z) : Z := i64_wrap n.
(** What a part writes under its keys besides [id], [kind], [text] and
    [decision], in order. *)
Definition part_values (p : DocPartJson) : list (string * option Value) :=
  [("call", loro_json <$> dp_call p); ("isError", Bool <$> dp_is_error p); ("questions", loro_json <$> dp_questions p);
   ("resolved", Bool <$> dp_resolved p); ("message", Str <$> dp_message p)]%string.
Definition part_outputs (p : DocPartJson) : list (string * option Value) :=
  [("output", Str <$> dp_output p); ("diff", loro_json <$> dp_diff p); ("outputRef", Str <$> dp_output_ref p);
   ("outputBytes", json_i64 ∘ u64_as_i64 <$> dp_output_bytes p); ("diffRef", Str <$> dp_diff_ref p);
   ("diffStats", loro_json <$> dp_diff_stats p)]%string.

Definition items_of (i : nat) (v : View) : option (list Item) :=
  match rows L_Messages v !! i with
  | Some (RMap m) => match m !! PARTS with Some (SList items) => Some items | _ => None end
  | _ => None
  end.
Definition item_count (i : nat) (v : View) : nat := length (default [] (items_of i v)).

Definition push_part (i : nat) (p : MessagePart) : DM unit :=
  let* j := dview (item_count i) in
  let* _ := op (PushItem i) in
  let* dp := dopt (to_doc_part p) in
  let* _ := put_item i j [("id", Some (Str (dp_id dp))); ("kind", Some (Str (dp_kind dp)))]%string in
  let* _ := match dp_text dp with
            | Some text => let* _ := op (ItemInsertText i j "text") in op (TextInsert i j "text" 0 text)
            | None => dret tt
            end in
  let* _ := put_item i j (part_values dp) in
  let* _ := put_item i j [("decision", loro_json <$> dp_decision dp)]%string in
  put_item i j (part_outputs dp).

Definition push_message (e : SessionMessageEntry) : DM unit :=
  let* i := dview (fun v => length (rows L_Messages v)) in
  let* _ := op (PushRow L_Messages) in
  let* _ := write_entry_scalar_fields i e in
  let* _ := op (RowInsertList L_Messages i PARTS) in
  deach (push_part i) (en_parts e).

(** The first map of a list whose [id] is the string. *)
Definition row_is (id : string) (r : Row) : bool :=
  match r with
  | RMap m => match m !! "id"%string with Some (SLeaf (LVal (Str s))) => bool_decide (s = id) | _ => false end
  | RVal _ => false
  end.
Definition set_message_status (id : string) (status : MessageStatus) : DM bool :=
  let* found := dview (fun v => position (row_is id) (rows L_Messages v)) in
  match found with
  | Some i => let* _ := op (RowInsert L_Messages i "status" (Str (status_str status))) in dret true
  | None => dret false
  end.

Definition leaf_is (key s : string) (m : gmap string Leaf) : bool :=
  match m !! key with Some (LVal (Str t)) => bool_decide (t = s) | _ => false end.
Definition item_is (p : gmap string Leaf -> bool) (x : Item) : bool := match x with IMap m => p m | IVal _ => false end.
Definition row_items (r : Row) : option (list Item) :=
  match r with RMap m => match m !! PARTS with Some (SList items) => Some items | _ => None end | RVal _ => None end.

Definition append_error_part (message_id part_id message : string) : DM bool :=
  let* found := dview (fun v => position (fun r => row_is message_id r && bool_decide (is_Some (row_items r))) (rows L_Messages v)) in
  match found with
  | None => dret false
  | Some i =>
      let* items := dview (fun v => default [] (items_of i v)) in
      if existsb (item_is (leaf_is "id" part_id)) items then dret true
      else let* _ := push_part i (MP_Error part_id message) in dret true
  end.

(** The first input part of the request, wherever it is. *)
Fixpoint find_input (request_id : string) (i : nat) (rs : list Row) : option (nat * nat) :=
  match rs with
  | [] => None
  | r :: rs =>
      match row_items r ≫= position (item_is (fun m => leaf_is "kind" "input" m && leaf_is "id" request_id m)) with
      | Some j => Some (i, j)
      | None => find_input request_id (S i) rs
      end
  end.
Definition resolve_input_part (request_id : string) : DM bool :=
  let* found := dview (fun v => find_input request_id 0 (rows L_Messages v)) in
  match found with
  | Some (i, j) => let* _ := op (ItemInsert i j "resolved" (Bool true)) in dret true
  | None => dret false
  end.

(** * Continuations and the tail *)

Definition join_step (st : list SessionMessageEntry * gmap string nat) (e : SessionMessageEntry) : list SessionMessageEntry * gmap string nat :=
  let '(out, root_index) := st in
  match en_continuation_of e with
  | Some root_id =>
      match root_index !! root_id with
      | Some at_ =>
          (alter (fun r => mk_entry (en_id r) (en_role r) (en_parts r ++ en_parts e) (en_created_at r) (en_device_id r) (en_status r)
                             (en_continuation_of r)) at_ out, root_index)
      | None => (out ++ [e], root_index)
      end
  | None => (out ++ [e], <[en_id e := length out]> root_index)
  end.
Definition join_continuation_entries (entries : list SessionMessageEntry) : list SessionMessageEntry :=
  if existsb (fun e => bool_decide (is_Some (en_continuation_of e))) entries then (foldl join_step ([], ∅) entries).1 else entries.

Definition TAIL_MESSAGE_COUNT : nat := 64.
Record SessionTail := mk_tail { st_chat_id : string; st_schema_version : Z; st_messages : list SessionMessageEntry; st_total : nat; st_updated_at : Z }.
Definition materialize_tail (v : View) (now : Z) (tail_count : nat) : SessionTail :=
  let all := join_continuation_entries (read_entries v) in
  let start := length all - (if tail_count =? 0 then TAIL_MESSAGE_COUNT else tail_count) in
  mk_tail (default EmptyString (chat_id v)) SESSION_SCHEMA_VERSION (drop start all) (length all) now.

(** * The segment writer *)

Record SegmentWriter := mk_writer { sw_entry_index : nat; sw_written : list MessagePart }.

Definition segment_entry (entry_id device_id : string) (created_at : Z) : SessionMessageEntry :=
  mk_entry entry_id MR_Assistant [] created_at device_id (Some MSt_Streaming) None.
Definition segment_begin (entry_id device_id : string) (created_at : Z) : DM SegmentWriter :=
  let* i := dview (fun v => length (rows L_Messages v)) in
  let* _ := op (PushRow L_Messages) in
  let* _ := write_entry_scalar_fields i (segment_entry entry_id device_id created_at) in
  let* _ := op (RowInsertList L_Messages i PARTS) in
  dret (mk_writer i []).

Definition entry_map (i : nat) : DM unit :=
  let* r := dview (fun v => rows L_Messages v !! i) in
  match r with Some (RMap _) => dret tt | _ => dfail (DE_Schema "streaming entry map missing") end.
Definition parts_list (i : nat) : DM unit :=
  let* _ := entry_map i in
  let* items := dview (items_of i) in
  match items with Some _ => dret tt | None => dfail (DE_Schema "streaming entry parts list missing") end.
Definition part_map_at (i j : nat) : DM (gmap string Leaf) :=
  let* items := dview (items_of i) in
  match items ≫= lookup j with
  | Some (IMap m) => dret m
  | _ => dfail (DE_Schema ("part map missing at " +:+ pretty j))
  end.

Definition update_part_fields (i j : nat) (p : MessagePart) : DM unit :=
  let* dp := dopt (to_doc_part p) in
  let* _ := put_item i j (part_values dp) in
  let* _ := put_item i j (part_outputs dp) in
  match dp_text dp with
  | None => dret tt
  | Some text =>
      let* m := part_map_at i j in
      match m !! "text"%string with Some (LText _) => op (TextUpdate i j "text" text) | _ => dret tt end
  end.

(** A part that changed, at its position. *)
Definition refresh_part (i j : nat) (prev part : MessagePart) : DM unit :=
  match prev, part with
  | MP_Text _ old, MP_Text _ new =>
      if starts_with old new then
        let delta := str_drop (String.length old) new in
        if decide (delta = EmptyString) then dret tt
        else
          let* m := part_map_at i j in
          match m !! "text"%string with
          | Some (LText t) => op (TextInsert i j "text" (chars_count t) delta)
          | _ => dfail (DE_Schema "text part missing LoroText")
          end
      else let* _ := part_map_at i j in update_part_fields i j part
  | _, _ => let* _ := part_map_at i j in update_part_fields i j part
  end.

(** The loop of [sync] from position [j]; the list written so far is kept when
    it fails. *)
Fixpoint sync_parts (i j : nat) (folded written : list MessagePart) (d : D) : D * list MessagePart * result unit (DocError X) :=
  match folded with
  | [] => (d, written, Ok tt)
  | part :: folded =>
      match written !! j with
      | None =>
          match push_part i part d with
          | (d, Ok _) => sync_parts i (S j) folded (written ++ [part]) d
          | (d, Err e) => (d, written, Err e)
          end
      | Some prev =>
          if part_eqb prev part then sync_parts i (S j) folded written d
          else
            match refresh_part i j prev part d with
            | (d, Ok _) => sync_parts i (S j) folded (<[j := part]> written) d
            | (d, Err e) => (d, written, Err e)
            end
      end
  end.
Definition sync (folded : list MessagePart) (w : SegmentWriter) (d : D) : D * SegmentWriter * result unit (DocError X) :=
  match parts_list (sw_entry_index w) d with
  | (d, Err e) => (d, w, Err e)
  | (d, Ok _) =>
      let '(d, written, r) := sync_parts (sw_entry_index w) 0 folded (sw_written w) d in
      (d, mk_writer (sw_entry_index w) written, r)
  end.
Definition segment_finish (folded : list MessagePart) (status : MessageStatus) (w : SegmentWriter) (d : D) : D * result unit (DocError X) :=
  match sync folded w d with
  | (d, _, Err e) => (d, Err e)
  | (d, w, Ok _) =>
      (let* _ := entry_map (sw_entry_index w) in
       op (RowInsert L_Messages (sw_entry_index w) "status" (Str (status_str status)))) d
  end.
End writing.
