(* ===== verification/Segment.v ===== *)
(** The segment writer keeps its entry equal to the folded parts,
    [crates/doc/src/schema.rs] and the segment functions of
    [crates/engine/src/sessions.rs]: what a part looks like in the document,
    what reading it back gives, and the streaming of one assistant entry. *)
From Stdlib Require Import ZArith Lia Ascii String.
From stdpp Require Import base tactics numbers list strings pretty gmap.
From S2P Require Import Prelude Json Text Proto Parts TranscriptDelta Utf8 SystemPrompt SessionDoc.
Open Scope keel_scope.

(** * JSON objects *)

Lemma assoc_permutation {V} (k : string) (l l' : list (string * V)) :
  l ≡ₚ l' -> NoDup l.*1 -> assoc k l = assoc k l'.
Proof.
  intros Hp Hn. assert (Hn' : NoDup l'.*1) by by rewrite <- Hp.
  assert (Hin : forall (l : list (string * V)) v, NoDup l.*1 -> (k, v) ∈ l -> assoc k l = Some v).
  { clear. intros l v. induction l as [|[k' w] l IH]; [by intros _ ?%elem_of_nil|].
    cbn. intros [Hk Hn]%NoDup_cons [[= <- <-]|H]%elem_of_cons; [by rewrite decide_True|].
    rewrite decide_False; [by apply IH|]. intros <-. apply Hk. apply list_elem_of_fmap. by exists (k, v). }
  destruct (assoc k l) as [v|] eqn:E.
  - symmetry. apply Hin; [done|]. rewrite <- Hp. by apply assoc_Some_elem.
  - destruct (assoc k l') as [v|] eqn:E'; [|done]. apply assoc_Some_elem in E'. rewrite <- Hp in E'. by rewrite (Hin _ _ Hn E') in E.
Qed.

Lemma assoc_map_to_list {V} (k : string) (m : gmap string V) : assoc k (map_to_list m) = m !! k.
Proof.
  destruct (m !! k) as [v|] eqn:E.
  - apply elem_of_map_to_list in E. pose proof (NoDup_fst_map_to_list m) as Hn. revert E Hn.
    induction (map_to_list m) as [|[k' w] l IH]; [by intros ?%elem_of_nil|]. cbn.
    intros [[= <- <-]|H]%elem_of_cons [Hk Hn]%NoDup_cons; [by rewrite decide_True|].
    rewrite decide_False; [by apply IH|]. intros <-. apply Hk. apply list_elem_of_fmap. by exists (k, v).
  - destruct (assoc k (map_to_list m)) as [v|] eqn:E'; [|done]. apply assoc_Some_elem, elem_of_map_to_list in E'. congruence.
Qed.

Lemma assoc_fmap {A B} (f : A -> B) k (l : list (string * A)) : assoc k ((fun kv => (kv.1, f kv.2)) <$> l) = f <$> assoc k l.
Proof. induction l as [|[k' w] l IH]; [done|]. cbn. by destruct (decide (k = k')). Qed.

Lemma json_object_field {A} (f : A -> Value) (m : gmap string A) n :
  exists field, struct_fields n (json_object f m) = Some field /\ forall i k, field i k = f <$> m !! k.
Proof.
  eexists. split; [done|]. intros i k. cbn. rewrite assoc_fmap. f_equal.
  rewrite <- assoc_map_to_list. symmetry. apply assoc_permutation; [by rewrite sort_by_permutation|apply NoDup_fst_map_to_list].
Qed.

(** * What a part looks like *)

(** The writes of a list of optional fields. *)
Definition put_fields {A} (f : Value -> A) (m : gmap string A) (fields : list (string * option Value)) : gmap string A :=
  foldl (fun m kv => match kv.2 with Some v => <[kv.1 := f v]> m | None => m end) m fields.
Definition put_opts : gmap string Leaf -> list (string * option Value) -> gmap string Leaf := put_fields LVal.
Definition put_slots : gmap string Slot -> list (string * option Value) -> gmap string Slot := put_fields (SLeaf ∘ LVal).

Lemma put_fields_lookup {A} (f : Value -> A) fields m k :
  NoDup fields.*1 -> put_fields f m fields !! k = match assoc k fields with Some (Some v) => Some (f v) | _ => m !! k end.
Proof.
  revert m. induction fields as [|[k' v] fields IH]; intros m; [done|]. cbn [fmap list_fmap fst]. intros [Hk Hn]%NoDup_cons.
  unfold put_fields. cbn [foldl fst snd]. fold (put_fields f (match v with Some v => <[k' := f v]> m | None => m end) fields).
  rewrite IH by done. cbn [assoc]. destruct (decide (k = k')) as [->|Hne].
  - assert (E : assoc k' fields = None).
    { destruct (assoc k' fields) eqn:E; [|done]. exfalso. apply Hk. apply assoc_is_Some. by rewrite E. }
    rewrite E. destruct v; [by rewrite lookup_insert_eq|done].
  - destruct (assoc k fields) as [[w|]|]; [done|..]; (destruct v; [by rewrite lookup_insert_ne|done]).
Qed.
Lemma put_opts_lookup fields m k :
  NoDup fields.*1 -> put_opts m fields !! k = match assoc k fields with Some (Some v) => Some (LVal v) | _ => m !! k end.
Proof. apply put_fields_lookup. Qed.

#[local] Arguments json_i64 : simpl never.
#[local] Arguments as_i64 : simpl never.

Section node.
Context {CD : Codecs}.

Definition part_head (p : DocPartJson) : list (string * option Value) :=
  [("id", Some (Str (dp_id p))); ("kind", Some (Str (dp_kind p)))]%string.
Definition part_decision (p : DocPartJson) : list (string * option Value) := [("decision"%string, loro_json <$> dp_decision p)].
Definition put_text (text : option string) (m : gmap string Leaf) : gmap string Leaf :=
  match text with Some text => <["text"%string := LText text]> m | None => m end.
(** The map [push_part] leaves. *)
Definition part_node (p : DocPartJson) : gmap string Leaf :=
  put_opts (put_opts (put_opts (put_text (dp_text p) (put_opts ∅ (part_head p))) (part_values p)) (part_decision p)) (part_outputs p).

Lemma part_node_lookup p k :
  part_node p !! k =
    match assoc k (part_outputs p) with Some (Some v) => Some (LVal v) | _ =>
    match assoc k (part_decision p) with Some (Some v) => Some (LVal v) | _ =>
    match assoc k (part_values p) with Some (Some v) => Some (LVal v) | _ =>
      if decide (k = "text"%string) then LText <$> dp_text p
      else match assoc k (part_head p) with Some (Some v) => Some (LVal v) | _ => None end
    end end end.
Proof.
  unfold part_node. rewrite !put_opts_lookup by (apply (bool_decide_unpack _); reflexivity).
  destruct (assoc k (part_outputs p)) as [[]|]; [done|..]; (destruct (assoc k (part_decision p)) as [[]|]; [done|..]);
    (destruct (assoc k (part_values p)) as [[]|]; [done|..]); unfold put_text;
    (destruct (decide (k = "text"%string)) as [->|Hne];
     [destruct (dp_text p); [by rewrite lookup_insert_eq|by rewrite put_opts_lookup by (apply (bool_decide_unpack _); reflexivity)]
     |destruct (dp_text p); [rewrite lookup_insert_ne by done|]; by rewrite put_opts_lookup by (apply (bool_decide_unpack _); reflexivity)]).
Qed.

(** What the document stores of a part. *)
Definition stored (p : DocPartJson) : DocPartJson :=
  mk_doc_part (dp_id p) (dp_kind p) (dp_text p) (loro_json <$> dp_call p) (dp_is_error p) (loro_json <$> dp_questions p) (dp_resolved p)
    (dp_message p) (loro_json <$> dp_decision p) (dp_output p) (loro_json <$> dp_diff p) (dp_output_ref p) (dp_output_bytes p)
    (dp_diff_ref p) (loro_json <$> dp_diff_stats p).

Definition not_null (o : option Value) : Prop := forall v, o = Some v -> loro_json v <> Null.
Record part_storable (p : DocPartJson) : Prop := {
  ps_call : not_null (dp_call p); ps_questions : not_null (dp_questions p); ps_decision : not_null (dp_decision p);
  ps_diff : not_null (dp_diff p); ps_stats : not_null (dp_diff_stats p);
  ps_bytes : forall n, dp_output_bytes p = Some n -> (0 <= n <= i64_max)%Z;
}.

(** What reads as the JSON [v] of an optional field. *)
Abbreviation shows p k v := (leaf_json <$> part_node p !! k = v) (only parsing).
Ltac read_node o := rewrite part_node_lookup; unfold part_outputs, part_decision, part_values, part_head; destruct o; reflexivity.
Lemma node_id p : shows p "id"%string (Some (Str (dp_id p))).
Proof. by rewrite part_node_lookup. Qed.
Lemma node_kind p : shows p "kind"%string (Some (Str (dp_kind p))).
Proof. by rewrite part_node_lookup. Qed.
Lemma node_text p : shows p "text"%string (Str <$> dp_text p).
Proof. read_node (dp_text p). Qed.
Lemma node_call p : shows p "call"%string (loro_json <$> dp_call p).
Proof. read_node (dp_call p). Qed.
Lemma node_is_error p : shows p "isError"%string (Bool <$> dp_is_error p).
Proof. read_node (dp_is_error p). Qed.
Lemma node_questions p : shows p "questions"%string (loro_json <$> dp_questions p).
Proof. read_node (dp_questions p). Qed.
Lemma node_resolved p : shows p "resolved"%string (Bool <$> dp_resolved p).
Proof. read_node (dp_resolved p). Qed.
Lemma node_message p : shows p "message"%string (Str <$> dp_message p).
Proof. read_node (dp_message p). Qed.
Lemma node_decision p : shows p "decision"%string (loro_json <$> dp_decision p).
Proof. read_node (dp_decision p). Qed.
Lemma node_output p : shows p "output"%string (Str <$> dp_output p).
Proof. read_node (dp_output p). Qed.
Lemma node_diff p : shows p "diff"%string (loro_json <$> dp_diff p).
Proof. read_node (dp_diff p). Qed.
Lemma node_output_ref p : shows p "outputRef"%string (Str <$> dp_output_ref p).
Proof. read_node (dp_output_ref p). Qed.
Lemma node_output_bytes p : shows p "outputBytes"%string (json_i64 ∘ u64_as_i64 <$> dp_output_bytes p).
Proof. read_node (dp_output_bytes p). Qed.
Lemma node_diff_ref p : shows p "diffRef"%string (Str <$> dp_diff_ref p).
Proof. read_node (dp_diff_ref p). Qed.
Lemma node_diff_stats p : shows p "diffStats"%string (loro_json <$> dp_diff_stats p).
Proof. read_node (dp_diff_stats p). Qed.

(** An optional field that was written reads back. *)
Lemma opt_field_read {A B} (parse : Value -> option B) (f : A -> Value) (g : A -> B) (o : option A) :
  (forall a, o = Some a -> f a <> Null /\ parse (f a) = Some (g a)) -> opt_field parse (f <$> o) = Some (g <$> o).
Proof. intros H. destruct o as [a|]; [|done]. cbn. destruct (H a eq_refl) as [Hn Hp]. rewrite Hp. by destruct (f a). Qed.
Lemma opt_field_value (o : option Value) : not_null o -> opt_field Some (loro_json <$> o) = Some (loro_json <$> o).
Proof. intros H. apply opt_field_read. intros v Hv. split; [by apply H|done]. Qed.
Lemma opt_field_str (o : option string) : opt_field as_str (Str <$> o) = Some o.
Proof. by destruct o. Qed.
Lemma opt_field_bool (o : option bool) : opt_field as_bool (Bool <$> o) = Some o.
Proof. by destruct o. Qed.
Lemma json_i64_nonneg n : (0 <= n <= i64_max)%Z -> json_i64 (u64_as_i64 n) = Num (PosInt n).
Proof.
  intros H. unfold json_i64, u64_as_i64. rewrite i64_wrap_small by (unfold i64_min, i64_max in *; lia).
  by rewrite (proj2 (Z.leb_le 0 n)) by lia.
Qed.
Lemma opt_field_bytes (o : option Z) :
  (forall n, o = Some n -> (0 <= n <= i64_max)%Z) -> opt_field as_u64 (json_i64 ∘ u64_as_i64 <$> o) = Some o.
Proof. intros H. destruct o as [n|]; [|done]. cbn -[json_i64 u64_as_i64]. by rewrite json_i64_nonneg by by apply H. Qed.

Lemma stored_parses p : part_storable p -> doc_part_of_json (item_json (IMap (part_node p))) = Some (stored p).
Proof.
  intros [H1 H2 H3 H4 H5 H6]. unfold doc_part_of_json. cbn [item_json].
  destruct (json_object_field leaf_json (part_node p) 15) as (field & -> & Hf). cbn [mbind option_bind].
  rewrite !Hf, node_id, node_kind, node_text, node_call, node_is_error, node_questions, node_resolved, node_message, node_decision,
    node_output, node_diff, node_output_ref, node_output_bytes, node_diff_ref, node_diff_stats.
  cbn [mbind option_bind as_str]. rewrite !opt_field_str, !opt_field_bool, !opt_field_value, opt_field_bytes by done. done.
Qed.

(** * What reading a part gives *)

(** The codec law: the payload survives serde, Loro and serde. *)
Definition kept {A} (c : Codec A) (a : A) : Prop := exists v, enc c a = Some v /\ loro_json v <> Null /\ dec c (loro_json v) = Some a.
Definition kept_opt {A} (c : Codec A) (o : option A) : Prop := forall a, o = Some a -> kept c a.

Definition storable (p : MessagePart) : Prop :=
  match p with
  | MP_Text _ _ | MP_Error _ _ => True
  | MP_Tool t =>
      kept calls (tp_call t) /\ kept_opt diffs (tp_diff t) /\ kept_opt stats (tp_diff_stats t)
      /\ forall n, tp_output_bytes t = Some n -> (0 <= n <= i64_max)%Z
  | MP_Input _ _ qs _ => kept questions qs
  | MP_Decision _ event => kept events (bounded event) /\ bounded (bounded event) = bounded event
  end.
(** A part as every reader of the document sees it: an unresolved call carries
    no error flag, a question is named by its request, a receipt is bounded. *)
Definition doc_view (p : MessagePart) : MessagePart :=
  match p with
  | MP_Tool t =>
      MP_Tool (mk_tool_part (tp_id t) (tp_call t) (tp_resolved t && tp_is_error t) (tp_resolved t) (tp_output t) (tp_diff t)
        (tp_output_ref t) (tp_output_bytes t) (tp_diff_ref t) (tp_diff_stats t))
  | MP_Input _ request_id qs resolved => MP_Input request_id request_id qs resolved
  | MP_Decision id event => MP_Decision id (bounded event)
  | MP_Text _ _ | MP_Error _ _ => p
  end.

Lemma enc_opt_kept {A} (c : Codec A) (o : option A) :
  kept_opt c o -> exists v, enc_opt c o = Some v /\ not_null v /\ (loro_json <$> v) ≫= dec c = o.
Proof.
  intros H. destruct o as [a|]; [|by exists None]. destruct (H a eq_refl) as (v & Hv & Hn & Hd). exists (Some v). cbn. rewrite Hv.
  split_and!; [done| |done]. by intros ? [= <-].
Qed.

Lemma part_roundtrips p :
  storable p -> exists dp, to_doc_part p = Some dp /\ part_storable dp /\ from_doc_part (stored dp) = doc_view p.
Proof.
  destruct p as [id text|t|id rid qs resolved|id message|id event]; cbn [storable to_doc_part].
  - intros _. eexists. split; [done|]. by split.
  - intros ((v & Hv & Hn & Hd) & Hdiff & Hstats & Hbytes).
    destruct (enc_opt_kept _ _ Hdiff) as (w & Hw & Hwn & Hwd). destruct (enc_opt_kept _ _ Hstats) as (x & Hx & Hxn & Hxd).
    rewrite Hv. cbn [mbind option_bind]. rewrite Hw. cbn [mbind option_bind]. rewrite Hx. cbn [mbind option_bind].
    eexists. split; [done|]. split; [split; try done; by intros ? [= <-]|].
    unfold from_doc_part, stored, doc_view. cbn -[decide]. rewrite decide_True by done. rewrite Hd. rewrite Hwd, Hxd. by destruct (tp_resolved t).
  - intros (v & Hv & Hn & Hd). rewrite Hv. eexists. split; [done|]. split; [split; try done; by intros ? [= <-]|].
    unfold from_doc_part, stored. cbn -[decide]. rewrite decide_False, decide_True by done. by rewrite Hd.
  - intros _. eexists. split; [done|]. by split.
  - intros [(v & Hv & Hn & Hd) Hb]. rewrite Hv. eexists. split; [done|]. split; [split; try done; by intros ? [= <-]|].
    unfold from_doc_part, stored. cbn -[decide bounded]. rewrite !decide_False, decide_True by done. rewrite Hd. cbn [doc_view]. by rewrite Hb.
Qed.
End node.

(** * The writes *)

Section writes.
Context {CD : Codecs} {D X : Type} `{!Loro D X}.
Implicit Types (d : D) (v : View) (items : list Item) (i j : nat).

(** The view with the parts of entry [i] replaced. *)
Definition set_items i items v : View :=
  match rows L_Messages v !! i with
  | Some (RMap m) => set_rows L_Messages (<[i := RMap (<[PARTS := SList items]> m)]> (rows L_Messages v)) v
  | _ => v
  end.

Lemma items_of_Some i v items :
  items_of i v = Some items -> exists m, rows L_Messages v !! i = Some (RMap m) /\ m !! PARTS = Some (SList items).
Proof.
  unfold items_of. destruct (rows L_Messages v !! i) as [[m|]|]; [|done|done]. intros H. exists m. split; [done|].
  destruct (m !! PARTS) as [[|]|]; try done. by injection H as ->.
Qed.
Lemma alter_items_set i f v items :
  items_of i v = Some items -> alter_items i f v = (fun items' => set_items i items' v) <$> f items.
Proof.
  intros (m & Hm & Hp)%items_of_Some. unfold alter_items, alter_row, set_items. rewrite Hm, Hp. by destruct (f items).
Qed.
Lemma set_items_of i v items items' : items_of i v = Some items -> items_of i (set_items i items' v) = Some items'.
Proof.
  intros (m & Hm & Hp)%items_of_Some. unfold set_items, items_of. rewrite Hm. cbn.
  rewrite list_lookup_insert_eq by by eapply lookup_lt_Some. by rewrite lookup_insert_eq.
Qed.
Lemma set_items_twice i v a b : set_items i a (set_items i b v) = set_items i a v.
Proof.
  unfold set_items. destruct (rows L_Messages v !! i) as [[m|]|] eqn:Hm; [|by rewrite Hm|by rewrite Hm]. cbn.
  rewrite list_lookup_insert_eq by by eapply lookup_lt_Some. cbn. by rewrite list_insert_insert_eq, insert_insert_eq.
Qed.
Lemma set_items_same i v items : items_of i v = Some items -> set_items i items v = v.
Proof.
  intros (m & Hm & Hp)%items_of_Some. unfold set_items. rewrite Hm, insert_id by done. rewrite list_insert_id by done. by destruct v.
Qed.

(** ** Growth *)

(** How a part of a live segment changes from one fold to the next. *)
Definition tool_grows (a b : ToolPart) : Prop :=
  tp_id b = tp_id a /\ (tp_resolved a = true -> tp_resolved b = true)
  /\ (is_Some (tp_output a) -> is_Some (tp_output b)) /\ (is_Some (tp_diff a) -> is_Some (tp_diff b))
  /\ (is_Some (tp_output_ref a) -> is_Some (tp_output_ref b)) /\ (is_Some (tp_output_bytes a) -> is_Some (tp_output_bytes b))
  /\ (is_Some (tp_diff_ref a) -> is_Some (tp_diff_ref b)) /\ (is_Some (tp_diff_stats a) -> is_Some (tp_diff_stats b)).
Definition part_grows (p q : MessagePart) : Prop :=
  match p, q with
  | MP_Text id old, MP_Text id' new => id' = id /\ starts_with old new = true
  | MP_Tool a, MP_Tool b => tool_grows a b
  | MP_Input _ rid _ _, MP_Input _ rid' _ _ => rid' = rid
  | MP_Error id _, MP_Error id' _ => id' = id
  | MP_Decision id e, MP_Decision id' e' => id' = id /\ e' = e
  | _, _ => False
  end.

(** A part refreshed in place: nothing it wrote is taken back. *)
Definition dp_refreshes (dp dp' : DocPartJson) : Prop :=
  dp_id dp' = dp_id dp /\ dp_kind dp' = dp_kind dp /\ dp_text dp = None /\ dp_text dp' = None /\ dp_decision dp' = dp_decision dp
  /\ Forall2 (fun a b : string * option Value => b.1 = a.1 /\ (is_Some a.2 -> is_Some b.2))
       (part_values dp ++ part_outputs dp) (part_values dp' ++ part_outputs dp').

Lemma Forall2_present k (l l' : list (string * option Value)) x :
  Forall2 (fun a b => b.1 = a.1 /\ (is_Some a.2 -> is_Some b.2)) l l' ->
  assoc k l = Some (Some x) -> is_Some (mjoin (assoc k l')).
Proof.
  induction 1 as [|[k1 a] [k2 b] l l' [Hk Hp] _ IH]; [done|]. cbn in *. subst k2. destruct (decide (k = k1)); [|done].
  intros [= ->]. by apply Hp.
Qed.

Lemma enc_opt_None {A} (c : Codec A) (o : option A) x : enc_opt c o = Some x -> is_Some x <-> is_Some o.
Proof. destruct o as [a|]; cbn; [|intros [= <-]; by split; intros []]. intros (y & _ & ->)%fmap_Some. by split; eauto. Qed.

Lemma grows_refreshes p q dp dq :
  to_doc_part p = Some dp -> to_doc_part q = Some dq -> part_grows p q -> (forall id t, p <> MP_Text id t) -> dp_refreshes dp dq.
Proof.
  intros Hp Hq Hg Ht. destruct p as [id old|a|id rid qs r|id m|id e], q as [id' new|b|id' rid' qs' r'|id' m'|id' e']; try done; cbn in *.
  - by destruct (Ht id old).
  - apply bind_Some in Hp as (ca & _ & Hp). apply bind_Some in Hp as (da & Hda & Hp). apply bind_Some in Hp as (sa & Hsa & [= <-]).
    apply bind_Some in Hq as (cb & _ & Hq). apply bind_Some in Hq as (db & Hdb & Hq). apply bind_Some in Hq as (sb & Hsb & [= <-]).
    apply enc_opt_None in Hda, Hsa, Hdb, Hsb. destruct Hg as (Hid & Hr & Ho & Hd & Hor & Hob & Hdr & Hds).
    split_and!; try done. unfold part_values, part_outputs. cbn.
    repeat (constructor; [split; [done|cbn; rewrite ?fmap_is_Some; try tauto; try (by intros _; eexists)]|]); [|constructor].
    destruct (tp_resolved a); [|by intros [? ?]]. by rewrite Hr.
  - apply bind_Some in Hp as (x & _ & [= <-]). apply bind_Some in Hq as (y & _ & [= <-]). split_and!; try done.
    repeat (constructor; [split; [done|cbn; by eauto]|]). constructor.
  - injection Hp as <-. injection Hq as <-. split_and!; try done. repeat (constructor; [split; [done|cbn; by eauto]|]). constructor.
  - destruct Hg as [-> ->]. apply bind_Some in Hp as (x & Hx & [= <-]). rewrite Hx in Hq. injection Hq as <-. split_and!; try done.
    repeat (constructor; [split; [done|cbn; by eauto]|]). constructor.
Qed.

Lemma chars_take_all n s : chars_count s <= n -> chars_take n s = s.
Proof.
  revert n. induction s as [|c s IH]; intros n; [by destruct n|]. cbn [chars_count chars_take]. destruct (is_continuation c).
  - intros H. by rewrite IH by lia.
  - intros H. destruct n as [|n]; [lia|]. by rewrite IH by lia.
Qed.
Lemma text_insert_end s t : text_insert (chars_count s) t s = s +:+ t.
Proof.
  unfold text_insert. cbv zeta. rewrite chars_take_all by lia. by rewrite str_drop_all, str_app_nil_r.
Qed.
Definition text_part (id text : string) : DocPartJson :=
  mk_doc_part id "text" (Some text) None None None None None None None None None None None None.
Lemma node_text_leaf id text : part_node (text_part id text) !! "text"%string = Some (LText text).
Proof. by rewrite part_node_lookup. Qed.
Lemma text_node_insert id s t : <["text"%string := LText t]> (part_node (text_part id s)) = part_node (text_part id t).
Proof. unfold part_node. cbn. by rewrite insert_insert_eq. Qed.


(** [edits i v items m P]: on the view [v] with the parts [items] at [i], [m]
    only changes those parts; a value it gives is in [P] with them. *)
Definition edits {A} i v items (m : DM D X A) (P : A -> list Item -> Prop) : Prop :=
  forall d, lr_view d = set_items i items v ->
    match m d with
    | (d', Ok a) => exists items', lr_view d' = set_items i items' v /\ P a items'
    | (d', Err _) => exists items', lr_view d' = set_items i items' v
    end.

Lemma edits_bind {A B} i v items (m : DM D X A) (k : A -> DM D X B) P Q :
  edits i v items m P -> (forall a items', P a items' -> edits i v items' (k a) Q) -> edits i v items (dbind m k) Q.
Proof.
  intros Hm Hk d Hd. unfold dbind. specialize (Hm d Hd). destruct (m d) as [d1 [a|e]]; [|done].
  destruct Hm as (items' & Hd1 & HP). by apply (Hk a items' HP d1).
Qed.
Lemma edits_ret {A} i v items (a : A) (P : A -> list Item -> Prop) : P a items -> edits i v items (dret a) P.
Proof. intros H d Hd. by exists items. Qed.
Lemma edits_fail {A} i v items e (P : A -> list Item -> Prop) : edits i v items (dfail e) P.
Proof. intros d Hd. by exists items. Qed.
Lemma edits_weaken {A} i v items (m : DM D X A) (P Q : A -> list Item -> Prop) :
  edits i v items m P -> (forall a items', P a items' -> Q a items') -> edits i v items m Q.
Proof. intros Hm H d Hd. specialize (Hm d Hd). destruct (m d) as [d1 [a|e]]; [|done]. destruct Hm as (items' & ? & ?). eauto. Qed.

Section at_entry.
Context (i : nat) (v : View) (items0 : list Item) (Hv : items_of i v = Some items0).

Lemma edits_view {A} items (f : View -> A) (P : A -> list Item -> Prop) :
  P (f (set_items i items v)) items -> edits i v items (dview f) P.
Proof. intros H d Hd. exists items. by rewrite Hd. Qed.
Lemma edits_op items o f :
  (forall w, apply_view o w = alter_items i f w) ->
  edits i v items (op o) (fun _ items' => f items = Some items').
Proof.
  intros Ho d Hd. unfold op. destruct (lr_apply o d) as [d'|e] eqn:E; [|by exists items].
  apply lr_apply_view in E. rewrite Ho, Hd in E.
  rewrite (alter_items_set i f _ items) in E by by eapply set_items_of. destruct (f items) as [items'|]; [|done].
  injection E as E. exists items'. by rewrite <- E, set_items_twice.
Qed.

Lemma edits_item items j o f m :
  items !! j = Some (IMap m) -> (forall w, apply_view o w = alter_item i j f w) ->
  edits i v items (op o) (fun _ items' => exists m', f m = Some m' /\ items' = <[j := IMap m']> items).
Proof.
  intros Hj Ho. eapply edits_weaken.
  { apply (edits_op items o (fun items => match items !! j with Some (IMap m) => m' ← f m; Some (<[j := IMap m']> items) | _ => None end)). exact Ho. }
  cbn. intros _ items' H. rewrite Hj in H. apply bind_Some in H as (m' & Hm' & [= <-]). by exists m'.
Qed.

Lemma edits_put_item items j m fields :
  items !! j = Some (IMap m) ->
  edits i v items (put_item i j fields) (fun _ items' => items' = <[j := IMap (put_opts m fields)]> items).
Proof.
  revert items m. induction fields as [|[k [x|]] fields IH]; intros items m Hj.
  - apply edits_ret. by rewrite list_insert_id.
  - unfold put_item. cbn [deach snd fst]. eapply edits_bind.
    { apply (edits_item items j _ (fun m => Some (<[k := LVal x]> m)) m Hj). done. }
    intros _ items' (m' & [= <-] & ->). eapply edits_weaken; [apply (IH _ (<[k := LVal x]> m))|].
    + by rewrite list_lookup_insert_eq by by eapply lookup_lt_Some.
    + intros _ items'' ->. by rewrite list_insert_insert_eq.
  - by apply IH.
Qed.

Lemma edits_push_part items p dp :
  to_doc_part p = Some dp -> edits i v items (push_part i p) (fun _ items' => items' = items ++ [IMap (part_node dp)]).
Proof.
  intros Hp. unfold push_part. eapply edits_bind; [by apply (edits_view items _ (fun j items' => j = length items /\ items' = items));
    unfold item_count; rewrite (set_items_of _ _ _ _ Hv)|]. intros j items' [-> ->].
  eapply edits_bind; [by apply (edits_op items _ (fun items => Some (items ++ [IMap ∅])))|]. intros _ items' [= <-].
  rewrite Hp. eapply edits_bind; [by apply (edits_ret _ _ _ _ (fun a items' => a = dp /\ items' = items ++ [IMap ∅]))|]. intros ? ? [-> ->].
  assert (Hl : forall x : Item, (items ++ [x]) !! length items = Some x) by (intros; by apply list_lookup_middle).
  assert (Hi : forall x y : Item, <[length items := y]> (items ++ [x]) = items ++ [y]).
  { intros. rewrite insert_app_r_alt by done. by rewrite Nat.sub_diag. }
  eapply edits_bind; [apply edits_put_item, Hl|]. intros _ ? ->. rewrite Hi.
  eapply (edits_bind _ _ _ _ _ (fun _ items' => items' = items ++ [IMap (put_text (dp_text dp) (put_opts ∅ (part_head dp)))])).
  { destruct (dp_text dp) as [text|]; [|by apply edits_ret].
    eapply edits_bind; [eapply edits_item with (f := fun m => Some (<["text"%string := LText EmptyString]> m)); [apply Hl|done]|].
    intros _ ? (m' & [= <-] & ->). rewrite Hi.
    eapply edits_weaken; [eapply edits_item with (f := fun m => match m !! "text"%string with Some (LText s) => Some (<["text"%string := LText (text_insert 0 text s)]> m) | _ => None end); [apply Hl|done]|].
    intros _ ? (m' & Hm' & ->). rewrite lookup_insert_eq in Hm'. injection Hm' as <-. rewrite Hi, insert_insert_eq. unfold put_text, text_insert. cbn.
    by rewrite str_app_nil_r. }
  intros _ ? ->. eapply edits_bind; [apply edits_put_item, Hl|]. intros _ ? ->. rewrite Hi.
  eapply edits_bind; [apply edits_put_item, Hl|]. intros _ ? ->. rewrite Hi.
  eapply edits_weaken; [apply edits_put_item, Hl|]. intros _ ? ->. by rewrite Hi.
Qed.

Lemma part_keys (dp dp' : DocPartJson) : (part_values dp).*1 = (part_values dp').*1 /\ (part_outputs dp).*1 = (part_outputs dp').*1.
Proof. done. Qed.

Lemma assoc_app {V} k (l1 l2 : list (string * V)) : assoc k (l1 ++ l2) = match assoc k l1 with Some v => Some v | None => assoc k l2 end.
Proof. induction l1 as [|[k' w] l1 IH]; [done|]. cbn. by destruct (decide (k = k')). Qed.

Lemma assoc_same_keys {V} k (l l' : list (string * V)) : l.*1 = l'.*1 -> is_Some (assoc k l) <-> is_Some (assoc k l').
Proof. intros H. by rewrite !assoc_is_Some, H. Qed.

Lemma refreshed_node dp dp' :
  dp_refreshes dp dp' -> put_opts (put_opts (part_node dp) (part_values dp')) (part_outputs dp') = part_node dp'.
Proof.
  intros (Hid & Hk & Ht & Ht' & Hd & Hp). apply map_eq. intros k.
  rewrite !put_opts_lookup by (apply (bool_decide_unpack _); reflexivity). rewrite !part_node_lookup.
  pose proof (fun x => Forall2_present k _ _ x Hp) as Hp'. clear Hp. rename Hp' into Hp. rewrite !assoc_app in Hp. destruct (part_keys dp dp') as [Kv Ko].
  assert (Ev := assoc_same_keys k _ _ Kv). assert (Eo := assoc_same_keys k _ _ Ko).
  unfold part_decision, part_head. rewrite Hid, Hk, Hd, Ht, Ht'.
  destruct (assoc k (part_outputs dp')) as [[x|]|] eqn:E1; [done| |].
  - destruct (assoc k (part_values dp')) as [[y|]|] eqn:E2.
    + exfalso. assert (Hn : k ∈ (part_values dp').*1) by (apply assoc_is_Some; by rewrite E2).
      assert (Hn' : k ∈ (part_outputs dp').*1) by (apply assoc_is_Some; by rewrite E1).
      revert Hn Hn'. cbn. set_solver.
    + exfalso. assert (Hn : k ∈ (part_values dp').*1) by (apply assoc_is_Some; by rewrite E2).
      assert (Hn' : k ∈ (part_outputs dp').*1) by (apply assoc_is_Some; by rewrite E1).
      revert Hn Hn'. cbn. set_solver.
    + assert (E3 : assoc k (part_values dp) = None).
      { destruct (assoc k (part_values dp)) eqn:E; [|done]. destruct (proj1 Ev) as [? ?]; [by eexists|]. done. }
      rewrite E3 in Hp |- *. destruct (assoc k (part_outputs dp)) as [[x|]|] eqn:E4; [|done|done].
      destruct (Hp x eq_refl) as [? ?]. done.
  - assert (E3 : assoc k (part_outputs dp) = None).
    { destruct (assoc k (part_outputs dp)) eqn:E; [|done]. destruct (proj1 Eo) as [? ?]; [by eexists|]. done. }
    rewrite E3 in Hp |- *. destruct (assoc k (part_values dp')) as [[y|]|] eqn:E2.
    + assert (E5 : assoc k [("decision"%string, loro_json <$> dp_decision dp)] = None).
      { assert (Hn : k ∈ (part_values dp').*1) by (apply assoc_is_Some; by rewrite E2). cbn. destruct (decide (k = _)) as [->|]; [|done].
        exfalso. revert Hn. cbn. set_solver. }
      by rewrite E5.
    + destruct (assoc k (part_values dp)) as [[x|]|] eqn:E4; [|done|done]. destruct (Hp x eq_refl) as [? ?]. done.
    + by destruct (assoc k (part_values dp)) as [[x|]|] eqn:E4; [destruct (proj1 Ev) as [? ?]; [by eexists|]|destruct (proj1 Ev) as [? ?]; [by eexists|]|].
Qed.

Lemma edits_map_at items j m (P : gmap string Leaf -> list Item -> Prop) :
  items !! j = Some (IMap m) -> P m items -> edits i v items (part_map_at i j) P.
Proof.
  intros Hj HP. unfold part_map_at. eapply edits_bind.
  { apply (edits_view items _ (fun x items' => x = Some items /\ items' = items)). split; [|done]. by eapply set_items_of. }
  intros ? ? [-> ->]. cbn. rewrite Hj. by apply edits_ret.
Qed.

Lemma edits_update items j p dp dp' :
  items !! j = Some (IMap (part_node dp)) -> to_doc_part p = Some dp' -> dp_refreshes dp dp' ->
  edits i v items (update_part_fields i j p) (fun _ items' => items' = <[j := IMap (part_node dp')]> items).
Proof.
  intros Hj Hp Hr. unfold update_part_fields. rewrite Hp.
  eapply edits_bind; [by apply (edits_ret _ _ _ _ (fun a items' => a = dp' /\ items' = items))|]. intros ? ? [-> ->].
  eapply edits_bind; [by apply edits_put_item|]. intros _ ? ->.
  eapply edits_bind; [apply edits_put_item; by rewrite list_lookup_insert_eq by by eapply lookup_lt_Some|]. intros _ ? ->.
  rewrite list_insert_insert_eq, refreshed_node by done. destruct Hr as (_ & _ & _ & -> & _). by apply edits_ret.
Qed.

Lemma edits_refresh items j prev part dp dp' :
  items !! j = Some (IMap (part_node dp)) -> to_doc_part prev = Some dp -> to_doc_part part = Some dp' -> part_grows prev part ->
  edits i v items (refresh_part i j prev part) (fun _ items' => items' = <[j := IMap (part_node dp')]> items).
Proof.
  intros Hj Hp Hq Hg.
  assert (Hother : dp_refreshes dp dp' -> edits i v items (let* _ := part_map_at i j in update_part_fields i j part)
    (fun _ items' => items' = <[j := IMap (part_node dp')]> items)).
  { intros Hr. eapply edits_bind; [by apply (edits_map_at items j _ (fun _ items' => items' = items) Hj)|]. intros ? ? ->. by eapply edits_update. }
  destruct prev as [id old|a|id rid qs r|id m|id e], part as [id' new|b|id' rid' qs' r'|id' m'|id' e']; try done.
  2-5: apply Hother; eapply grows_refreshes; [done..|by intros ? ? [=]].
  destruct Hg as [Hid Hs]. rewrite Hid in *. clear Hid id'. injection Hp as <-. injection Hq as <-. cbn [refresh_part]. rewrite Hs.
  apply starts_with_spec in Hs as (t & ->). cbv zeta. rewrite str_drop_app. destruct (decide (t = EmptyString)) as [->|Ht].
  { apply edits_ret. by rewrite str_app_nil_r, list_insert_id. }
  eapply edits_bind; [by apply (edits_map_at items j _ (fun m items' => items' = items /\ m = part_node (text_part id old)) Hj)|].
  intros ? ? [-> ->]. assert (Hl := node_text_leaf id old). rewrite Hl. eapply edits_weaken.
  { eapply edits_item with (f := fun m => match m !! "text"%string with Some (LText s) => Some (<["text"%string := LText (text_insert (chars_count old) t s)]> m) | _ => None end); [exact Hj|done]. }
  intros _ ? (m' & Hm' & ->). unfold text_part in Hl. rewrite Hl in Hm'. injection Hm' as <-. do 2 f_equal. rewrite text_insert_end. apply text_node_insert.
Qed.

(** ** One pass over the folded parts *)

Definition node_of (p : MessagePart) (x : Item) : Prop := exists dp, to_doc_part p = Some dp /\ x = IMap (part_node dp).
Definition encodable (p : MessagePart) : Prop := is_Some (to_doc_part p).

Lemma sync_parts_spec folded : forall written items j d,
  lr_view d = set_items i items v -> Forall2 node_of written items -> Forall encodable folded ->
  (forall k p q, written !! (j + k) = Some p -> folded !! k = Some q -> part_eqb p q = true \/ part_grows p q) ->
  j <= length written <= j + length folded ->
  match sync_parts i j folded written d with
  | (d', written', Ok _) => exists items', lr_view d' = set_items i items' v /\ Forall2 node_of written' items'
      /\ exists tail, written' = take j written ++ tail /\ Forall2 part_equiv tail folded
  | (_, _, Err _) => True
  end.
Proof.
  induction folded as [|q folded IH]; intros written items j d Hd Hw He Hg Hl.
  { exists items. split_and!; [done..|]. exists []. split; [|constructor]. rewrite app_nil_r, take_ge; [done|cbn in Hl; lia]. }
  apply Forall_cons in He as [[dq Hq] He]. cbn [sync_parts]. cbn [length] in Hl.
  destruct (written !! j) as [p|] eqn:Hp.
  - assert (Hrec : forall w' items' d', lr_view d' = set_items i items' v -> Forall2 node_of w' items' -> length w' = length written ->
      (forall k, j < k -> w' !! k = written !! k) -> (exists p', part_equiv p' q /\ take (S j) w' = take j written ++ [p']) ->
      match sync_parts i (S j) folded w' d' with
      | (d'', written', Ok _) => exists items', lr_view d'' = set_items i items' v /\ Forall2 node_of written' items'
          /\ exists tail, written' = take j written ++ tail /\ Forall2 part_equiv tail (q :: folded)
      | (_, _, Err _) => True
      end).
    { intros w' items' d' Hd' Hw' Hlen Hsame (p' & Hp' & Ht).
      assert (H := IH w' items' (S j) d' Hd' Hw' He). rewrite Hlen in H. apply lookup_lt_Some in Hp.
      ospecialize (H _ _); [|lia|].
      { intros k p0 q0 Hp0 Hq0. rewrite Hsame in Hp0 by lia. apply (Hg (S k)); [by rewrite Nat.add_succ_r|done]. }
      destruct (sync_parts i (S j) folded w' d') as [[d'' w''] [u|e]]; [|done]. destruct H as (items'' & ? & ? & tail & -> & Hf).
      exists items''. split_and!; [done..|]. exists (p' :: tail). rewrite Ht, <- app_assoc. split; [done|]. by constructor. }
    destruct (part_eqb p q) eqn:E.
    + apply (Hrec written items d); [done..|]. exists p. split; [by right|]. by apply take_S_r.
    + destruct (Hg 0 p q) as [?|Hpq]; [by rewrite Nat.add_0_r|done|congruence|].
      destruct (Forall2_lookup_l _ _ _ _ _ Hw Hp) as (x & Hx & dp & Hdp & ->).
      assert (H := edits_refresh items j p q dp dq Hx Hdp Hq Hpq d Hd).
      destruct (refresh_part i j p q d) as [d' [u|e]]; [|done]. destruct H as (items' & Hd' & ->).
      apply (Hrec _ (<[j := IMap (part_node dq)]> items)); [done| | | |].
      * apply Forall2_insert; [done|by exists dq].
      * apply length_insert.
      * intros k Hk. apply list_lookup_insert_ne. lia.
      * exists q. split; [by left|]. rewrite (take_S_r _ _ q) by by apply list_lookup_insert_eq, (lookup_lt_Some _ _ _ Hp).
        by rewrite take_insert_ge by lia.
  - apply lookup_ge_None in Hp. assert (H := edits_push_part items q dq Hq d Hd).
    destruct (push_part i q d) as [d' [u|e]]; [|done]. destruct H as (items' & Hd' & ->).
    assert (H := IH (written ++ [q]) _ (S j) d' Hd'). ospecialize (H _ He _ _).
    + apply Forall2_app; [done|]. constructor; [by exists dq|constructor].
    + intros k p0 q0 Hp0 _. apply lookup_lt_Some in Hp0. rewrite length_app in Hp0. cbn in Hp0. lia.
    + rewrite length_app. cbn. lia.
    + destruct (sync_parts i (S j) folded (written ++ [q]) d') as [[d'' w''] [u'|e]]; [|done].
      destruct H as (items'' & ? & ? & tail & -> & Hf). exists items''. split_and!; [done..|]. exists (q :: tail).
      rewrite take_ge by (rewrite length_app; cbn; lia). rewrite (take_ge written) by lia. rewrite <- app_assoc. split; [done|]. constructor; [by left|done].
Qed.
End at_entry.
End writes.

(** * The segments of a run, [crates/engine/src/sessions.rs] *)

Definition render_part (p : MessagePart) : MessagePart :=
  match p with
  | MP_Tool t =>
      MP_Tool (mk_tool_part (tp_id t) (sanitize_tool_call (tp_call t)) (tp_is_error t) (tp_resolved t) (tp_output t) (tp_diff t)
        (tp_output_ref t) (tp_output_bytes t) (tp_diff_ref t) (tp_diff_stats t))
  | other => other
  end.
Definition render_parts (parts : list MessagePart) : list MessagePart := render_part <$> parts.
Definition folded_text (parts : list MessagePart) : string :=
  join newline_str (omap (fun p => match p with MP_Text _ text => Some text | _ => None end) parts).

Section engine.
Context {CD : Codecs} {D X : Type} `{!Loro D X}.
Implicit Types (d : D) (folded : list MessagePart).

(** The writer of the segment, begun when there is something to write. *)
Definition sync_segment (entry_id device_id : string) (started_at : Z) folded (writer : option SegmentWriter) d
  : D * option SegmentWriter * result unit (DocError X) :=
  if decide (folded = []) then (d, writer, Ok tt)
  else
    let rendered := render_parts folded in
    let '(d, writer) :=
      match writer with
      | Some w => (d, Ok w)
      | None => segment_begin entry_id device_id started_at d
      end in
    match writer with
    | Err e => (d, None, Err e)
    | Ok w => let '(d, w, r) := sync rendered w d in (d, Some w, r)
    end.
Definition finish_segment (entry_id device_id : string) (started_at : Z) folded (status : MessageStatus) (writer : option SegmentWriter) d
  : D * result unit (DocError X) :=
  let rendered := render_parts folded in
  match writer with
  | Some w => segment_finish rendered status w d
  | None =>
      if decide (folded = []) then (d, Ok tt)
      else dbind (segment_begin entry_id device_id started_at) (segment_finish rendered status) d
  end.
End engine.

(** ** Nothing but the last entry is touched *)

Section frame.
Context {CD : Codecs} {D X : Type} `{!Loro D X}.

(** [m] leaves the first [n] entries, the metadata and the commands alone. *)
Definition same_below (n : nat) (v v' : View) : Prop :=
  vw_meta v' = vw_meta v /\ vw_commands v' = vw_commands v /\ n <= length (vw_messages v')
  /\ take n (vw_messages v') = take n (vw_messages v).
Definition frames {A} (n : nat) (m : DM D X A) : Prop :=
  forall d, n <= length (vw_messages (lr_view d)) -> same_below n (lr_view d) (lr_view (m d).1).

Lemma same_below_refl n v : n <= length (vw_messages v) -> same_below n v v.
Proof. intros ?. by unfold same_below. Qed.
Lemma same_below_trans n v1 v2 v3 : same_below n v1 v2 -> same_below n v2 v3 -> same_below n v1 v3.
Proof. intros (? & ? & ? & ?) (? & ? & ? & ?). unfold same_below. split_and!; congruence || lia. Qed.

Lemma frames_bind {A B} n (m : DM D X A) (k : A -> DM D X B) : frames n m -> (forall a, frames n (k a)) -> frames n (dbind m k).
Proof.
  intros Hm Hk d Hd. specialize (Hm d Hd). unfold dbind. destruct (m d) as [d1 [a|e]]; [|done].
  eapply same_below_trans; [exact Hm|]. apply Hk, Hm.
Qed.
Lemma frames_ret {A} n (a : A) : frames n (dret (D:=D) (X:=X) a).
Proof. intros d Hd. by apply same_below_refl. Qed.
Lemma frames_fail {A} n (e : DocError X) : frames n (dfail (D:=D) e : DM D X A).
Proof. intros d Hd. by apply same_below_refl. Qed.
Lemma frames_view {A} n (f : View -> A) : frames n (dview (D:=D) (X:=X) f).
Proof. intros d Hd. by apply same_below_refl. Qed.
Lemma frames_opt {A} n (o : option A) : frames n (dopt (D:=D) (X:=X) o).
Proof. destruct o; [apply frames_ret|apply frames_fail]. Qed.
Lemma frames_each {A} n (f : A -> DM D X unit) l : (forall a, frames n (f a)) -> frames n (deach f l).
Proof. intros Hf. induction l as [|x l IH]; [apply frames_ret|]. apply frames_bind; [apply Hf|by intros _]. Qed.

Definition op_at_least (n : nat) (o : LoroOp) : Prop :=
  match o with
  | PushRow L_Messages => True
  | RowInsert L_Messages i _ _ | RowInsertList L_Messages i _ => n <= i
  | PushItem i | ItemInsert i _ _ _ | ItemInsertText i _ _ | TextInsert i _ _ _ _ | TextUpdate i _ _ _ => n <= i
  | _ => False
  end.
Lemma alter_row_below n i f v v' : n <= i -> n <= length (vw_messages v) -> alter_row L_Messages i f v = Some v' -> same_below n v v'.
Proof.
  intros Hi Hn. unfold alter_row. cbn. destruct (vw_messages v !! i) as [[m|]|]; [|done|done].
  intros (m' & _ & [= <-])%bind_Some. unfold same_below. split_and!; cbn; [done|done|by rewrite length_insert|by apply take_insert_ge].
Qed.
Lemma frames_op n o : op_at_least n o -> frames n (op o).
Proof.
  intros Ho d Hd. unfold op. destruct (lr_apply o d) as [d'|e] eqn:E; [|by apply same_below_refl]. cbn [fst].
  apply lr_apply_view in E. revert E. destruct o; repeat match goal with l : RootList |- _ => destruct l end; try done; cbn [apply_view op_at_least] in *; intros E;
    try (by eapply alter_row_below; [exact Ho|exact Hd|exact E]).
  injection E as E. rewrite <- E. unfold same_below. split_and!; cbn; [done|done|rewrite length_app; lia|by rewrite take_app_le by done].
Qed.


#[local] Hint Resolve frames_ret frames_fail frames_view frames_opt : core.
Lemma frames_put_row n i fields : n <= i -> frames n (put_row L_Messages i fields).
Proof. intros Hi. apply frames_each. intros [k [x|]]; [by apply frames_op|done]. Qed.
Lemma frames_put_item n i j fields : n <= i -> frames n (put_item i j fields).
Proof. intros Hi. apply frames_each. intros [k [x|]]; [by apply frames_op|done]. Qed.

Ltac frame := repeat first [apply frames_bind; [|intros ?]|apply frames_ret|apply frames_fail|apply frames_view|apply frames_opt
  |by apply frames_put_item|by apply frames_put_row|by apply frames_op|case_match].

Lemma frames_push_part n i p : n <= i -> frames n (push_part i p).
Proof. intros Hi. unfold push_part. frame. Qed.
Lemma frames_entry_map n i : frames n (entry_map i).
Proof. unfold entry_map. frame. Qed.
Lemma frames_parts_list n i : frames n (parts_list i).
Proof. unfold parts_list. apply frames_bind; [apply frames_entry_map|intros _; frame]. Qed.
Lemma frames_refresh n i j p q : n <= i -> frames n (refresh_part i j p q).
Proof. intros Hi. unfold refresh_part, update_part_fields, part_map_at. frame. Qed.

Lemma frames_sync_parts n i folded : forall j written d, n <= i -> n <= length (vw_messages (lr_view d)) ->
  same_below n (lr_view d) (lr_view (sync_parts i j folded written d).1.1).
Proof.
  induction folded as [|q folded IH]; intros j written d Hi Hd; [by apply same_below_refl|]. cbn [sync_parts].
  assert (Hgo : forall (m : DM D X unit) w', frames n m ->
    same_below n (lr_view d) (lr_view (match m d with (d, Ok _) => sync_parts i (S j) folded w' d | (d, Err e) => (d, written, Err e) end).1.1)).
  { intros m w' Hm. specialize (Hm d Hd). destruct (m d) as [d' [u|e]]; [|done]. cbn [fst] in Hm. eapply same_below_trans; [exact Hm|].
    apply IH; [done|]. apply Hm. }
  destruct (written !! j) as [p|]; [|by apply Hgo, frames_push_part]. destruct (part_eqb p q); [by apply IH|]. by apply Hgo, frames_refresh.
Qed.
Lemma frames_sync n w folded d : n <= sw_entry_index w -> n <= length (vw_messages (lr_view d)) ->
  same_below n (lr_view d) (lr_view (sync folded w d).1.1) /\ sw_entry_index (sync folded w d).1.2 = sw_entry_index w.
Proof.
  intros Hi Hd. unfold sync. pose proof (frames_parts_list n (sw_entry_index w) d Hd) as Hp.
  destruct (parts_list (sw_entry_index w) d) as [d1 [u|e]]; [|done]. cbn [fst] in Hp.
  pose proof (frames_sync_parts n (sw_entry_index w) folded 0 (sw_written w) d1 Hi ltac:(apply Hp)) as Hs.
  destruct (sync_parts _ _ _ _ d1) as [[d2 w2] r]. split; [|done]. cbn in *. by eapply same_below_trans.
Qed.
Lemma frames_segment_finish n w folded status : n <= sw_entry_index w -> frames n (segment_finish folded status w).
Proof.
  intros Hi d Hd. unfold segment_finish. destruct (frames_sync n w folded d Hi Hd) as [Hs He].
  destruct (sync folded w d) as [[d1 w1] [u|e]]; [|done]. cbn [fst snd] in *. eapply same_below_trans; [exact Hs|].
  apply (frames_bind n); [apply frames_entry_map|intros _; apply frames_op; cbn; lia|apply Hs].
Qed.
Lemma frames_segment_begin n entry_id device_id started_at : forall d, n <= length (vw_messages (lr_view d)) ->
  let r := segment_begin entry_id device_id started_at d in
  same_below n (lr_view d) (lr_view r.1) /\ forall w, r.2 = Ok w -> n <= sw_entry_index w.
Proof.
  intros d Hd. unfold segment_begin. cbn zeta.
  assert (Hf : frames n (let* _ := op (PushRow L_Messages) in
      let* _ := write_entry_scalar_fields (length (vw_messages (lr_view d))) (segment_entry entry_id device_id started_at) in
      let* _ := op (RowInsertList L_Messages (length (vw_messages (lr_view d))) PARTS) in
      dret (mk_writer (length (vw_messages (lr_view d))) []) : DM D X SegmentWriter)).
  { unfold write_entry_scalar_fields. frame. }
  split; [by apply Hf|]. intros w. unfold dbind at 1, dview. unfold dbind.
  destruct (op _ d) as [d1 [?|?]]; [|done]. destruct (write_entry_scalar_fields _ _ d1) as [d2 [?|?]]; [|done].
  destruct (op _ d2) as [d3 [?|?]]; [|done]. by intros [= <-].
Qed.

End frame.

(** ** The entry being streamed *)

(** From one flush to the next, the parts of the fold grow in place. *)
Definition parts_grow (l l' : list MessagePart) : Prop := exists l1 l2, l' = l1 ++ l2 /\ Forall2 part_grows l l1.

Lemma tool_part_eqb_fields a b :
  tool_part_eqb a b = true ->
  tp_id a = tp_id b /\ tp_resolved a = tp_resolved b /\ tp_output a = tp_output b /\ tp_diff a = tp_diff b
  /\ tp_output_ref a = tp_output_ref b /\ tp_output_bytes a = tp_output_bytes b /\ tp_diff_ref a = tp_diff_ref b
  /\ tp_diff_stats a = tp_diff_stats b.
Proof. unfold tool_part_eqb. rewrite !andb_true_iff, !bool_decide_eq_true. tauto. Qed.

Lemma equiv_grows p q r : part_equiv p q -> part_grows q r -> part_eqb p r = true \/ part_grows p r.
Proof.
  intros [->|E] Hg; [by right|].
  destruct p as [id old|a|id rid qs b|id m|id e], q as [id' old'|a'|id' rid' qs' b'|id' m'|id' e']; try done; cbn [part_eqb] in E.
  - apply andb_true_iff in E as [?%bool_decide_eq_true ?%bool_decide_eq_true]. subst. by right.
  - right. apply tool_part_eqb_fields in E as (? & ? & ? & ? & ? & ? & ? & ?). destruct r; try done. destruct a, a'; cbn in *; by subst.
  - apply andb_true_iff in E as [E _]. apply andb_true_iff in E as [E _]. apply andb_true_iff in E as [_ ?%bool_decide_eq_true]. subst. by right.
  - apply andb_true_iff in E as [?%bool_decide_eq_true ?%bool_decide_eq_true]. subst. by right.
  - left. destruct r; try done. cbn in *. by destruct Hg as [-> ->].
Qed.
Lemma part_grows_render p q : part_grows p q -> part_grows (render_part p) (render_part q).
Proof. destruct p, q; try done. Qed.
Lemma parts_grow_render l l' : parts_grow l l' -> parts_grow (render_parts l) (render_parts l').
Proof.
  intros (l1 & l2 & -> & H). exists (render_parts l1), (render_parts l2). split; [apply fmap_app|].
  apply Forall2_fmap. eapply Forall2_impl; [exact H|]. apply part_grows_render.
Qed.
Lemma grow_pointwise written l l' k p q :
  Forall2 part_equiv written l -> parts_grow l l' -> written !! k = Some p -> l' !! k = Some q -> part_eqb p q = true \/ part_grows p q.
Proof.
  intros Hw (l1 & l2 & -> & Hg) Hp Hq. destruct (Forall2_lookup_l _ _ _ _ _ Hw Hp) as (p' & Hp' & He).
  destruct (Forall2_lookup_l _ _ _ _ _ Hg Hp') as (q' & Hq' & Hg'). rewrite lookup_app_l in Hq by by eapply lookup_lt_Some.
  rewrite Hq' in Hq. injection Hq as ->. by eapply equiv_grows.
Qed.
Lemma grow_length l l' : parts_grow l l' -> length l <= length l'.
Proof. intros (l1 & l2 & -> & H). rewrite length_app, (Forall2_length _ _ _ H). lia. Qed.


(** ** The fold grows *)

(** An unresolved call carries no output. *)
Definition clean_part (p : MessagePart) : Prop :=
  match p with
  | MP_Tool t =>
      tp_resolved t = false ->
      tp_output t = None /\ tp_diff t = None /\ tp_output_ref t = None /\ tp_output_bytes t = None /\ tp_diff_ref t = None /\ tp_diff_stats t = None
  | _ => True
  end.
(** Events that take nothing back: no boundary over parts, no second result of
    a call, no second receipt of a decision. *)
Definition fresh_event (out : list MessagePart) (event : AgentEvent) : bool :=
  match event with
  | AE_SessionStarted _ _ _ _ _ _ | AE_Steered _ _ => bool_decide (out = [])
  | AE_ToolResult id _ _ _ => negb (existsb (fun p => is_tool_id id p && match p with MP_Tool t => tp_resolved t | _ => false end) out)
  | AE_Decision event => negb (existsb (is_decision_id ("decision-" +:+ de_id (bounded event))) out)
  | _ => true
  end.
Fixpoint fresh_events (text_diff : string -> string -> Z * Z) (out : list MessagePart) (events : list AgentEvent) : bool :=
  match events with
  | [] => true
  | event :: events => fresh_event out event && fresh_events text_diff (fold_event_into_parts text_diff out event) events
  end.

Lemma starts_with_refl s : starts_with s s = true.
Proof. apply starts_with_spec. exists EmptyString. by rewrite str_app_nil_r. Qed.
Lemma part_grows_refl p : part_grows p p.
Proof. destruct p; try done. cbn. split; [done|apply starts_with_refl]. Qed.
#[local] Hint Resolve part_grows_refl : core.
Lemma Forall2_grows_refl l : Forall2 part_grows l l.
Proof. induction l; by constructor. Qed.
Lemma parts_grow_map l l' : Forall2 part_grows l l' -> parts_grow l l'.
Proof. intros H. exists l', []. by rewrite app_nil_r. Qed.
Lemma parts_grow_push l p : parts_grow l (l ++ [p]).
Proof. exists l, [p]. split; [done|apply Forall2_grows_refl]. Qed.
Lemma parts_grow_refl l : parts_grow l l.
Proof. apply parts_grow_map, Forall2_grows_refl. Qed.

Lemma starts_with_trans a b c : starts_with a b = true -> starts_with b c = true -> starts_with a c = true.
Proof. intros (t & ->)%starts_with_spec (u & ->)%starts_with_spec. apply starts_with_spec. exists (t +:+ u). by rewrite str_app_assoc. Qed.
Lemma part_grows_trans p q r : part_grows p q -> part_grows q r -> part_grows p r.
Proof.
  destruct p, q, r; try done; cbn; unfold tool_grows; [|intuition congruence..].
  intros [-> H1] [-> H2]. split; [done|]. by eapply starts_with_trans.
Qed.
Lemma parts_grow_trans l1 l2 l3 : parts_grow l1 l2 -> parts_grow l2 l3 -> parts_grow l1 l3.
Proof.
  intros (a & b & -> & H1) (c & e & -> & H2). apply Forall2_app_inv_l in H2 as (c1 & c2 & H2 & _ & ->).
  exists c1, (c2 ++ e). split; [by rewrite app_assoc|]. revert c1 H2.
  induction H1 as [|x y l l' Hxy _ IH]; intros c1 H2; inversion H2; subst; constructor; [by eapply part_grows_trans|by apply IH].
Qed.

Section fold_grows.
Context (text_diff : string -> string -> Z * Z).

Lemma fold_event_grows out event :
  Forall clean_part out -> fresh_event out event = true ->
  parts_grow out (fold_event_into_parts text_diff out event) /\ Forall clean_part (fold_event_into_parts text_diff out event).
Proof.
  assert (Hpush : forall p, Forall clean_part out -> clean_part p -> parts_grow out (out ++ [p]) /\ Forall clean_part (out ++ [p])).
  { intros p Hc Hp. split; [apply parts_grow_push|]. apply Forall_app. by rewrite Forall_singleton. }
  intros Hc Hf. destruct event; try (by split; [apply parts_grow_refl|done]); cbn [fold_event_into_parts fresh_event] in *.
  - apply bool_decide_eq_true in Hf as ->. split; [apply parts_grow_refl|done].
  - pose proof (append_tail_text_spec text out) as H. destruct (append_tail_text text out) as [out'|]; [|by apply Hpush].
    destruct H as (l & id & tail & -> & ->). split.
    + apply parts_grow_map, Forall2_app; [apply Forall2_grows_refl|]. constructor; [|constructor]. split; [done|]. apply starts_with_spec. by exists text.
    + apply Forall_app in Hc as [? _]. apply Forall_app. by rewrite Forall_singleton.
  - pose proof (update_first_spec (is_decision_id ("decision-" +:+ de_id (bounded event))) (set_decision (bounded event)) out) as H.
    destruct (update_first _ _ out); [|by apply Hpush]. destruct H as (l1 & x & l2 & -> & Hx & _). rewrite existsb_app in Hf.
    cbn [existsb] in Hf. rewrite Hx in Hf. by destruct (existsb _ l1).
  - pose proof (update_first_spec (is_tool_id id) (set_tool_call call) out) as H.
    destruct (update_first _ _ out); [|by apply Hpush]. destruct H as (l1 & x & l2 & -> & Hx & _ & ->).
    apply Forall_app in Hc as [Hc1 [Hcx Hc2]%Forall_cons]. destruct x as [|t| | |]; try done. split.
    + apply parts_grow_map, Forall2_app; [apply Forall2_grows_refl|]. by constructor; [|apply Forall2_grows_refl].
    + apply Forall_app. split; [done|]. by constructor.
  - clear Hpush. apply negb_true_iff in Hf. split.
    + apply parts_grow_map. induction out as [|p out IH]; [constructor|]. cbn [existsb] in Hf. apply orb_false_iff in Hf as [Hp Hf].
      apply Forall_cons in Hc as [Hcp Hc]. cbn [fmap list_fmap]. constructor; [|by apply IH]. destruct p as [|t| | |]; try apply part_grows_refl.
      cbn in *. destruct (decide (tp_id t = id)) as [E|]; [|apply (part_grows_refl (MP_Tool t))]. rewrite bool_decide_eq_true_2 in Hp by done. cbn in Hp.
      unfold tool_grows. cbn. destruct (Hcp Hp) as (-> & -> & -> & -> & -> & ->). rewrite Hp. split_and!; try done; by intros [? ?].
    + clear Hf. induction Hc as [|p out Hp Hc IH]; [constructor|]. cbn [fmap list_fmap]. constructor; [|done].
      destruct p as [|t| | |]; try done. cbn. by destruct (decide (tp_id t = id)).
  - by apply Hpush.
  - destruct (existsb _ out); [by split; [apply parts_grow_refl|]|]. by apply Hpush.
  - clear Hpush Hf. split.
    + apply parts_grow_map. induction out as [|p out IH]; [constructor|]. apply Forall_cons in Hc as [_ Hc]. constructor; [|by apply IH].
      destruct p; try apply part_grows_refl. cbn [resolve_input]. by destruct (decide _).
    + induction Hc as [|p out Hp Hc IH]; [constructor|]. constructor; [|done]. destruct p; try done. cbn. by destruct (decide _).
  - apply bool_decide_eq_true in Hf as ->. split; [apply parts_grow_refl|done].
  - destruct error; [by apply Hpush|]. by split; [apply parts_grow_refl|].
Qed.

Lemma fold_events_grow events : forall out,
  Forall clean_part out -> fresh_events text_diff out events = true ->
  parts_grow out (fold_events text_diff out events) /\ Forall clean_part (fold_events text_diff out events).
Proof.
  induction events as [|event events IH]; intros out Hc Hf; [by split; [apply parts_grow_refl|]|].
  cbn in Hf. apply andb_true_iff in Hf as [He Hf]. destruct (fold_event_grows out event Hc He) as [Hg Hc'].
  destruct (IH _ Hc' Hf) as [Hg' Hc'']. split; [by eapply parts_grow_trans|done].
Qed.
End fold_grows.

Section stream.
Context {CD : Codecs} {D X : Type} `{!Loro D X}.
Context (entry_id device_id : string) (started_at : Z).

(** The entry as [segment_begin] leaves it, and with parts. *)
Definition begun : gmap string Slot := put_slots ∅ (entry_scalars (segment_entry entry_id device_id started_at)).
Definition entry_row (items : list Item) : Row := RMap (<[PARTS := SList items]> begun).

Lemma op_Ok (o : LoroOp) (d d' : D) u : op o d = (d', Ok u) -> apply_view o (lr_view d) = Some (lr_view d').
Proof. unfold op. destruct (lr_apply o d) eqn:E; [|done]. intros [= <- _]. by apply lr_apply_view. Qed.
Lemma dbind_Ok {A B} (m : DM D X A) (k : A -> DM D X B) d d' b :
  dbind m k d = (d', Ok b) -> exists d1 a, m d = (d1, Ok a) /\ k a d1 = (d', Ok b).
Proof. unfold dbind. destruct (m d) as [d1 [a|e]] eqn:E; [|done]. eauto. Qed.

Lemma put_row_Ok fields : forall i m (d d' : D) u,
  vw_messages (lr_view d) !! i = Some (RMap m) -> put_row L_Messages i fields d = (d', Ok u) ->
  vw_messages (lr_view d') = <[i := RMap (put_slots m fields)]> (vw_messages (lr_view d)).
Proof.
  induction fields as [|[k [x|]] fields IH]; intros i m d d' u Hi.
  - intros [= <- _]. by rewrite list_insert_id.
  - intros (d1 & a & H1%op_Ok & H2)%dbind_Ok. cbn in H1. unfold alter_row in H1. cbn in H1. rewrite Hi in H1. injection H1 as H1.
    apply (f_equal vw_messages) in H1. cbn in H1. eapply IH in H2.
    + rewrite H2, <- H1. by rewrite list_insert_insert_eq.
    + rewrite <- H1. by apply list_lookup_insert_eq, (lookup_lt_Some _ _ _ Hi).
  - by apply IH.
Qed.

Lemma segment_begin_Ok d d' w :
  segment_begin entry_id device_id started_at d = (d', Ok w) ->
  w = mk_writer (length (vw_messages (lr_view d))) [] /\ vw_messages (lr_view d') = vw_messages (lr_view d) ++ [entry_row []].
Proof.
  unfold segment_begin. intros (d0 & n & [= <- <-] & H)%dbind_Ok. apply dbind_Ok in H as (d1 & ? & H1%op_Ok & H).
  apply dbind_Ok in H as (d2 & ? & H2 & H). apply dbind_Ok in H as (d3 & ? & H3%op_Ok & [= <- <-]).
  cbn in H1, H3. injection H1 as H1. apply (f_equal vw_messages) in H1. cbn in H1. split; [done|].
  unfold write_entry_scalar_fields in H2. eapply put_row_Ok in H2; [|rewrite <- H1; by apply list_lookup_middle].
  rewrite <- H1, insert_app_r_alt, Nat.sub_diag in H2 by done. cbn [insert list_insert] in H2.
  unfold alter_row in H3. cbn in H3. rewrite H2 in H3. rewrite list_lookup_middle in H3 by done. cbn in H3.
  injection H3 as H3. apply (f_equal vw_messages) in H3. cbn in H3. rewrite <- H3, insert_app_r_alt, Nat.sub_diag by done. done.
Qed.

(** The writer and the document agree on the last entry. *)
Definition tracking (before : list Row) (w : SegmentWriter) (d : D) : Prop :=
  sw_entry_index w = length before /\ exists items, vw_messages (lr_view d) = before ++ [entry_row items]
    /\ Forall2 node_of (sw_written w) items.

Lemma tracking_items before items v :
  vw_messages v = before ++ [entry_row items] ->
  items_of (length before) v = Some items
  /\ forall items', vw_messages (set_items (length before) items' v) = before ++ [entry_row items'].
Proof.
  intros H. unfold items_of, set_items. cbn. rewrite H, list_lookup_middle by done. cbn. rewrite lookup_insert_eq. split; [done|].
  intros items'. rewrite insert_app_r_alt, Nat.sub_diag by done. cbn. unfold entry_row. by rewrite insert_insert_eq.
Qed.
Lemma parts_list_same i (d : D) : (parts_list (X:=X) i d).1 = d.
Proof.
  unfold parts_list, entry_map, dbind, dview. destruct (rows L_Messages (lr_view d) !! i) as [[m|]|]; [|done|done]. cbn. by destruct (items_of i (lr_view d)).
Qed.

Lemma sync_tracking before w l folded d d' w' u :
  tracking before w d -> Forall2 part_equiv (sw_written w) l -> parts_grow l folded -> Forall encodable folded ->
  sync folded w d = (d', w', Ok u) -> tracking before w' d' /\ Forall2 part_equiv (sw_written w') folded.
Proof.
  intros [Hi (items & Hd & Hw)] Hl Hg He. unfold sync. pose proof (parts_list_same (sw_entry_index w) d) as Hp.
  destruct (parts_list (sw_entry_index w) d) as [d0 [u0|e]]; [|done]. cbn in Hp. subst d0. rewrite Hi.
  destruct (tracking_items _ _ _ Hd) as [Hit Hset].
  assert (H := sync_parts_spec (length before) _ items Hit folded (sw_written w) items 0 d (eq_sym (set_items_same _ _ _ Hit)) Hw He).
  ospecialize (H _ _).
  - intros k p q. by apply grow_pointwise with (l := l).
  - split; [lia|]. rewrite (Forall2_length _ _ _ Hl). by apply grow_length.
  - destruct (sync_parts _ _ _ _ d) as [[d1 w1] r]. intros [= -> <- ->]. destruct H as (items' & Hd' & Hw' & tail & -> & Ht).
    cbn in *. split; [|done]. split; [done|]. exists items'. split; [|done]. by rewrite Hd', Hset.
Qed.

Lemma sync_parts_Forall (P : MessagePart -> Prop) i folded : forall j written (d : D),
  Forall P written -> Forall P folded -> Forall P (sync_parts (X:=X) i j folded written d).1.2.
Proof.
  induction folded as [|q folded IH]; intros j written d Hw Hf; [done|]. apply Forall_cons in Hf as [Hq Hf]. cbn [sync_parts].
  destruct (written !! j) as [p|].
  - destruct (part_eqb p q); [by apply IH|]. destruct (refresh_part i j p q d) as [d1 [u|e]]; [|done].
    apply IH; [by apply Forall_insert|done].
  - destruct (push_part i q d) as [d1 [u|e]]; [|done]. apply IH; [|done]. apply Forall_app. by rewrite Forall_singleton.
Qed.
Lemma sync_Forall (P : MessagePart -> Prop) w folded (d : D) :
  Forall P (sw_written w) -> Forall P folded -> Forall P (sw_written (sync (X:=X) folded w d).1.2).
Proof.
  intros Hw Hf. unfold sync. destruct (parts_list (sw_entry_index w) d) as [d1 [u|e]]; [|done].
  pose proof (sync_parts_Forall P (sw_entry_index w) folded 0 (sw_written w) d1 Hw Hf) as H.
  by destruct (sync_parts _ _ _ _ d1) as [[d2 w2] r].
Qed.

Definition finished_row (status : MessageStatus) (items : list Item) : Row :=
  RMap (<["status"%string := SLeaf (LVal (Str (status_str status)))]> (<[PARTS := SList items]> begun)).

Lemma finish_Ok before w l folded status d d' u :
  tracking before w d -> Forall2 part_equiv (sw_written w) l -> parts_grow l folded -> Forall encodable folded ->
  Forall storable (sw_written w) -> Forall storable folded ->
  segment_finish folded status w d = (d', Ok u) ->
  exists written items, vw_messages (lr_view d') = before ++ [finished_row status items]
    /\ Forall2 node_of written items /\ Forall2 part_equiv written folded /\ Forall storable written.
Proof.
  intros Ht Hl Hg He Hsw Hsf. unfold segment_finish. pose proof (sync_Forall storable w folded d Hsw Hsf) as Hst.
  destruct (sync folded w d) as [[d1 w1] [u1|e]] eqn:E; [|done]. cbn in Hst.
  destruct (sync_tracking _ _ _ _ _ _ _ _ Ht Hl Hg He E) as [[Hi (items & Hm & Hw)] Hq].
  intros (d2 & ? & H2 & H3%op_Ok)%dbind_Ok.
  assert (d2 = d1) as -> by (revert H2; unfold entry_map, dbind, dview; by repeat case_match; intros [= <-]).
  cbn in H3. unfold alter_row in H3. cbn in H3. rewrite Hi, Hm, list_lookup_middle in H3 by done. cbn in H3.
  injection H3 as H3. apply (f_equal vw_messages) in H3. cbn in H3. rewrite insert_app_r_alt, Nat.sub_diag in H3 by done.
  exists (sw_written w1), items. by rewrite <- H3.
Qed.

(** Reading the parts and the entry back. *)
Lemma storable_encodable p : storable p -> encodable p.
Proof. intros (dp & H & _)%part_roundtrips. by exists dp. Qed.
Lemma nodes_read written items :
  Forall2 node_of written items -> Forall storable written ->
  (mapM doc_part_of_json (item_json <$> items)) = Some (stored <$> default [] (mapM to_doc_part written))
  /\ from_doc_part <$> (stored <$> default [] (mapM to_doc_part written)) = doc_view <$> written.
Proof.
  induction 1 as [|p x written items (dp & Hp & ->) _ IH]; [done|]. intros [Hs Hf]%Forall_cons. destruct (IH Hf) as [IH1 IH2].
  destruct (part_roundtrips p Hs) as (dp' & Hp' & Hst & Hv). rewrite Hp in Hp'. injection Hp' as <-.
  cbn [fmap list_fmap mapM]. rewrite Hp. cbn [mbind option_bind]. rewrite stored_parses by done. cbn [mbind option_bind]. rewrite IH1.
  cbn [mbind option_bind]. assert (Hm : exists dps, mapM to_doc_part written = Some dps).
  { apply mapM_is_Some_2. eapply Forall_impl; [exact Hf|]. apply storable_encodable. }
  destruct Hm as (dps & Hm). rewrite Hm in *. cbn. split; [done|]. f_equal; [done|]. exact IH2.
Qed.

Lemma as_i64_int z : (i64_min <= z <= i64_max)%Z -> as_i64 (json_i64 z) = Some z.
Proof. intros H. unfold json_i64. destruct (0 <=? z)%Z; [|done]. unfold as_i64. by rewrite (proj2 (Z.leb_le z _)) by lia. Qed.
Ltac look := unfold begun; cbn; repeat first [rewrite lookup_insert_eq; reflexivity|rewrite lookup_insert_ne by done]; reflexivity.
Lemma finished_reads status items written :
  (i64_min <= started_at <= i64_max)%Z -> Forall2 node_of written items -> Forall storable written ->
  entry_from_json (row_json (finished_row status items))
  = Some (mk_entry entry_id MR_Assistant (doc_view <$> written) started_at device_id (Some status) None).
Proof.
  intros Hat Hn Hst. destruct (nodes_read written items Hn Hst) as [Hr Hv]. unfold entry_from_json, raw_entry_of_json. cbn [row_json finished_row].
  set (m := <["status"%string := _]> _). destruct (json_object_field slot_json m 7) as (field & -> & Hf).
  assert (H1 : m !! "id"%string = Some (SLeaf (LVal (Str entry_id)))) by look.
  assert (H2 : m !! "role"%string = Some (SLeaf (LVal (Str "assistant")))) by look.
  assert (H3 : m !! "parts"%string = Some (SList items)) by look.
  assert (H4 : m !! "createdAt"%string = Some (SLeaf (LVal (json_i64 started_at)))) by look.
  assert (H5 : m !! "deviceId"%string = Some (SLeaf (LVal (Str device_id)))) by look.
  assert (H6 : m !! "status"%string = Some (SLeaf (LVal (Str (status_str status))))) by look.
  assert (H7 : m !! "continuationOf"%string = None) by look.
  cbn [mbind option_bind]. rewrite !Hf, H1, H2, H3, H4, H5, H6, H7. cbn [fmap option_fmap option_map slot_json leaf_json mbind option_bind as_str list_field].
  rewrite Hr. cbn [mbind option_bind]. rewrite as_i64_int by done. cbn [mbind option_bind]. rewrite <- Hv. by destruct status.
Qed.

(** ** A whole segment *)

(** The writer so far, [prev] the fold it was last synced with. *)
Definition writing (before : list Row) (prev : list MessagePart) (writer : option SegmentWriter) (d : D) : Prop :=
  match writer with
  | None => vw_messages (lr_view d) = before /\ prev = []
  | Some w => prev <> [] /\ tracking before w d /\ Forall2 part_equiv (sw_written w) (render_parts prev) /\ Forall storable (sw_written w)
  end.

Lemma parts_grow_nil l : parts_grow [] l.
Proof. by exists [], l. Qed.
Lemma storable_encodables l : Forall storable l -> Forall encodable l.
Proof. intros H. eapply Forall_impl; [exact H|]. apply storable_encodable. Qed.

Lemma begun_writing before d d' w :
  vw_messages (lr_view d) = before -> segment_begin entry_id device_id started_at d = (d', Ok w) -> tracking before w d' /\ sw_written w = [].
Proof. intros <- [-> Hm]%segment_begin_Ok. split; [|done]. split; [done|]. exists []. by split. Qed.

Lemma sync_segment_writing before prev folded writer d d' writer' u :
  writing before prev writer d -> parts_grow prev folded -> Forall storable (render_parts folded) ->
  sync_segment entry_id device_id started_at folded writer d = (d', writer', Ok u) -> writing before folded writer' d'.
Proof.
  intros Hw Hg Hs. unfold sync_segment. destruct (decide (folded = [])) as [->|Hne].
  { intros [= <- <- _]. destruct writer as [w|]; [|by destruct Hw].
    destruct Hw as [Hp _]. destruct prev; [done|]. apply grow_length in Hg. cbn in Hg. lia. }
  assert (Hsync : forall w l d d' w' u, tracking before w d -> Forall2 part_equiv (sw_written w) l -> parts_grow l (render_parts folded) ->
    Forall storable (sw_written w) -> sync (render_parts folded) w d = (d', w', Ok u) -> writing before folded (Some w') d').
  { intros w l e e' w' u' Ht Hl Hgl Hst E. pose proof (sync_Forall storable w (render_parts folded) e Hst Hs) as Hst'. rewrite E in Hst'.
    destruct (sync_tracking _ _ _ _ _ _ _ _ Ht Hl Hgl (storable_encodables _ Hs) E). by split_and!. }
  destruct writer as [w|].
  - destruct Hw as (Hp & Ht & Hl & Hst). destruct (sync (render_parts folded) w d) as [[d1 w1] r] eqn:E. intros [= <- <- ->].
    by eapply Hsync, E; [..|apply parts_grow_render|].
  - destruct Hw as [Hb ->]. destruct (segment_begin entry_id device_id started_at d) as [d1 [w|e]] eqn:Eb; [|done].
    destruct (begun_writing _ _ _ _ Hb Eb) as [Ht Hwr]. destruct (sync (render_parts folded) w d1) as [[d2 w2] r] eqn:E. intros [= <- <- ->].
    eapply Hsync, E; [done|by rewrite Hwr|apply parts_grow_nil|by rewrite Hwr].
Qed.

(** The entry a segment ends as. *)
Definition finished_entry (parts : list MessagePart) (status : MessageStatus) : SessionMessageEntry :=
  mk_entry entry_id MR_Assistant parts started_at device_id (Some status) None.

Lemma finish_segment_reads before prev folded status writer d d' u :
  (i64_min <= started_at <= i64_max)%Z ->
  writing before prev writer d -> parts_grow prev folded -> Forall storable (render_parts folded) ->
  finish_segment entry_id device_id started_at folded status writer d = (d', Ok u) ->
  exists written, Forall2 part_equiv written (render_parts folded)
    /\ read_entries (lr_view d') = omap entry_from_json (row_json <$> before)
         ++ (if decide (folded = []) then [] else [finished_entry (doc_view <$> written) status]).
Proof.
  intros Hat Hw Hg Hs. unfold finish_segment.
  assert (Hfin : forall w l d d' u, folded <> [] -> tracking before w d -> Forall2 part_equiv (sw_written w) l -> parts_grow l (render_parts folded) ->
    Forall storable (sw_written w) -> segment_finish (render_parts folded) status w d = (d', Ok u) ->
    exists written, Forall2 part_equiv written (render_parts folded)
    /\ read_entries (lr_view d') = omap entry_from_json (row_json <$> before) ++ (if decide (folded = []) then [] else [finished_entry (doc_view <$> written) status])).
  { intros w l e e' u' Hne Ht Hl Hgl Hst E. destruct (finish_Ok _ _ _ _ _ _ _ _ Ht Hl Hgl (storable_encodables _ Hs) Hst Hs E) as (written & items & Hm & Hn & Hq & Hws).
    exists written. split; [done|]. unfold read_entries. rewrite Hm, fmap_app, omap_app. cbn [fmap list_fmap omap list_omap].
    rewrite (finished_reads status items written) by done. by rewrite decide_False. }
  destruct writer as [w|].
  - destruct Hw as (Hp & Ht & Hl & Hst). intros E. eapply Hfin, E; [|done..|by apply parts_grow_render|done].
    intros ->. destruct prev; [done|]. apply grow_length in Hg. cbn in Hg. lia.
  - destruct Hw as [Hb ->]. destruct (decide (folded = [])) as [->|Hne].
    + intros [= <- _]. exists []. split; [constructor|]. unfold read_entries. by rewrite Hb, app_nil_r.
    + intros (d1 & w & Eb & E)%dbind_Ok. destruct (begun_writing _ _ _ _ Hb Eb) as [Ht Hwr].
      eapply Hfin, E; [done|done|by rewrite Hwr|apply parts_grow_nil|by rewrite Hwr].
Qed.

(** A segment: the fold flushed between batches of events, then finished.  A
    failed flush is logged and the run goes on. *)
Context (text_diff : string -> string -> Z * Z).
Fixpoint stream_segment (batches : list (list AgentEvent)) (folded : list MessagePart) (status : MessageStatus)
    (writer : option SegmentWriter) (d : D) : D * bool :=
  match batches with
  | [] => let '(d, r) := finish_segment entry_id device_id started_at folded status writer d in (d, is_ok r)
  | events :: batches =>
      let folded := fold_events text_diff folded events in
      let '(d, writer, r) := sync_segment entry_id device_id started_at folded writer d in
      let '(d, rest) := stream_segment batches folded status writer d in
      (d, is_ok r && rest)
  end.

(** The folds a segment flushes. *)
Fixpoint flushed (batches : list (list AgentEvent)) (folded : list MessagePart) : list (list MessagePart) :=
  match batches with
  | [] => []
  | events :: batches => let folded := fold_events text_diff folded events in folded :: flushed batches folded
  end.

Lemma frames_sync_segment n folded writer d :
  n <= length (vw_messages (lr_view d)) -> (forall w, writer = Some w -> n <= sw_entry_index w) ->
  let r := sync_segment (X:=X) entry_id device_id started_at folded writer d in
  same_below n (lr_view d) (lr_view r.1.1) /\ forall w, r.1.2 = Some w -> n <= sw_entry_index w.
Proof.
  intros Hn Hw. cbn zeta. unfold sync_segment. destruct (decide (folded = [])); [by split; [apply same_below_refl|]|].
  assert (Hs : forall w e, n <= sw_entry_index w -> same_below n (lr_view d) (lr_view e) ->
    let r := let '(d, w, r) := sync (X:=X) (render_parts folded) w e in (d, Some w, r) in
    same_below n (lr_view d) (lr_view r.1.1) /\ forall w, r.1.2 = Some w -> n <= sw_entry_index w).
  { intros w e Hi He. cbn zeta. destruct (frames_sync n w (render_parts folded) e Hi ltac:(apply He)) as [H1 H2].
    destruct (sync _ w e) as [[d1 w1] r]. cbn in *. split; [by eapply same_below_trans|]. intros ? [= <-]. by rewrite H2. }
  destruct writer as [w|]; [by apply Hs; [apply Hw|apply same_below_refl]|].
  destruct (frames_segment_begin (X:=X) n entry_id device_id started_at d Hn) as [Hb Hbw].
  destruct (segment_begin _ _ _ d) as [d1 [w|e]]; [|done]. apply Hs; [by apply Hbw|done].
Qed.
Lemma frames_finish_segment n folded status writer d :
  n <= length (vw_messages (lr_view d)) -> (forall w, writer = Some w -> n <= sw_entry_index w) ->
  same_below n (lr_view d) (lr_view (finish_segment (X:=X) entry_id device_id started_at folded status writer d).1).
Proof.
  intros Hn Hw. unfold finish_segment. destruct writer as [w|]; [by apply frames_segment_finish; [apply Hw|]|].
  destruct (decide (folded = [])); [by apply same_below_refl|]. unfold dbind.
  destruct (frames_segment_begin (X:=X) n entry_id device_id started_at d Hn) as [Hb Hbw].
  destruct (segment_begin _ _ _ d) as [d1 [w|e]]; [|done]. eapply same_below_trans; [exact Hb|].
  apply frames_segment_finish; [by apply Hbw|apply Hb].
Qed.
Lemma frames_stream n status batches : forall folded writer d,
  n <= length (vw_messages (lr_view d)) -> (forall w, writer = Some w -> n <= sw_entry_index w) ->
  same_below n (lr_view d) (lr_view (stream_segment batches folded status writer d).1).
Proof.
  induction batches as [|events batches IH]; intros folded writer d Hn Hw; cbn [stream_segment].
  { pose proof (frames_finish_segment n folded status writer d Hn Hw) as H. by destruct (finish_segment _ _ _ _ _ _ d). }
  cbn zeta. destruct (frames_sync_segment n (fold_events text_diff folded events) writer d Hn Hw) as [H1 H2].
  destruct (sync_segment _ _ _ _ writer d) as [[d1 w1] r]. cbn in H1, H2.
  pose proof (IH (fold_events text_diff folded events) w1 d1 ltac:(apply H1) H2) as H.
  destruct (stream_segment batches _ status w1 d1). cbn in *. by eapply same_below_trans.
Qed.

Lemma stream_reads before status batches : forall prev folded writer d d',
  (i64_min <= started_at <= i64_max)%Z -> writing before prev writer d -> parts_grow prev folded -> Forall clean_part folded ->
  fresh_events text_diff folded (concat batches) = true -> Forall storable (render_parts folded) ->
  Forall (fun f => Forall storable (render_parts f)) (flushed batches folded) ->
  stream_segment batches folded status writer d = (d', true) ->
  let final := fold_events text_diff folded (concat batches) in
  exists written, Forall2 part_equiv written (render_parts final)
    /\ read_entries (lr_view d') = omap entry_from_json (row_json <$> before)
         ++ (if decide (final = []) then [] else [finished_entry (doc_view <$> written) status]).
Proof.
  induction batches as [|events batches IH]; intros prev folded writer d d' Hat Hw Hg Hc Hf Hs Hfl; cbn [stream_segment concat flushed] in *.
  { destruct (finish_segment _ _ _ _ _ _ d) as [d1 [u|e]] eqn:E; [|done]. intros [= <-]. by eapply finish_segment_reads. }
  assert (Hfe : fresh_events text_diff folded events = true /\ fresh_events text_diff (fold_events text_diff folded events) (concat batches) = true).
  { revert Hf. clear. revert folded. induction events as [|e events IH]; intros folded; [done|]. cbn. rewrite !andb_true_iff.
    intros [? H]. apply IH in H as [? ?]. done. }
  destruct Hfe as [He Hf']. destruct (fold_events_grow text_diff events folded Hc He) as [Hg' Hc'].
  apply Forall_cons in Hfl as [Hs' Hfl]. cbn zeta. destruct (sync_segment _ _ _ _ writer d) as [[d1 w1] [u|e]] eqn:E.
  - destruct (stream_segment batches _ status w1 d1) as [d2 ok] eqn:E2. intros [= <- ->].
    assert (Hw1 : writing before (fold_events text_diff folded events) w1 d1) by (eapply sync_segment_writing; [exact Hw|by eapply parts_grow_trans|done|exact E]).
    specialize (IH _ _ _ _ _ Hat Hw1 (parts_grow_refl _) Hc' Hf' Hs' Hfl E2). cbn zeta in IH. unfold fold_events in IH |- *. by rewrite foldl_app.
  - by destruct (stream_segment batches _ status w1 d1) as [d2 ok].
Qed.

(** C3. A streamed assistant entry ends up being the fold of its events: after
    any batches of events, each followed by a flush that writes only what
    changed, and the final write, when every write succeeds the entries read
    from the document are the earlier ones followed by exactly one entry whose
    parts are the rendered fold of all the events (up to [PartialEq]) with the
    final status, or no entry when the fold is empty.  This needs events that
    take nothing back ([fresh_events]: no session start or steer over parts
    already folded, no second result of a call, no second receipt of a decision
    - the document keeps the first one, see [decision_refresh_lost]), parts that
    the codecs give back as they were at every flush ([storable]), a start time
    in range, and that nobody else writes the entry list while the segment
    streams (the flushes are run one after the other on the document).  Without
    any of the first three conditions, and whatever fails on the way, the
    earlier entries, the metadata and the commands are as they were. *)
Theorem segment_mirrors_fold batches status (d : D) :
  let '(d', ok) := stream_segment batches [] status None d in
  let final := fold_events text_diff [] (concat batches) in
  same_below (length (vw_messages (lr_view d))) (lr_view d) (lr_view d')
  /\ (ok = true -> (i64_min <= started_at <= i64_max)%Z -> fresh_events text_diff [] (concat batches) = true ->
      Forall (fun f => Forall storable (render_parts f)) (flushed batches []) ->
      exists written, Forall2 part_equiv written (render_parts final)
        /\ read_entries (lr_view d') = read_entries (lr_view d)
             ++ (if decide (final = []) then [] else [finished_entry (doc_view <$> written) status])).
Proof.
  pose proof (frames_stream (length (vw_messages (lr_view d))) status batches [] None d) as Hfr.
  destruct (stream_segment batches [] status None d) as [d' ok] eqn:E. cbn zeta. split; [by apply Hfr|].
  intros -> Hat Hf Hst. by eapply (stream_reads _ status batches [] [] None d d' Hat (conj eq_refl eq_refl) (parts_grow_refl [])).
Qed.
End stream.

(** ** A message pushed whole *)

Section push.
Context {CD : Codecs} {D X : Type} `{!Loro D X}.

Lemma edits_push_parts i v items0 (Hv : items_of i v = Some items0) parts : forall items written,
  Forall2 node_of written items -> Forall encodable parts ->
  edits (D:=D) (X:=X) i v items (deach (push_part i) parts) (fun _ items' => Forall2 node_of (written ++ parts) items').
Proof.
  induction parts as [|p parts IH]; intros items written Hw He; [apply edits_ret; by rewrite app_nil_r|].
  apply Forall_cons in He as [[dp Hp] He]. cbn [deach]. eapply edits_bind; [by apply (edits_push_part i v items0 Hv items p dp)|].
  intros _ ? ->. replace (written ++ p :: parts) with ((written ++ [p]) ++ parts) by by rewrite <- app_assoc.
  apply IH; [|done]. apply Forall2_app; [done|]. constructor; [by exists dp|constructor].
Qed.

(** A message written whole reads back as it was written, after the entries
    that were there: the role, the device, the time, the status and the
    continuation, and every part as the document shows it. *)
Theorem message_roundtrips e (d d' : D) u :
  (i64_min <= en_created_at e <= i64_max)%Z -> Forall storable (en_parts e) ->
  push_message (X:=X) e d = (d', Ok u) ->
  read_entries (lr_view d') = read_entries (lr_view d)
    ++ [mk_entry (en_id e) (en_role e) (doc_view <$> en_parts e) (en_created_at e) (en_device_id e) (en_status e) (en_continuation_of e)].
Proof.
  intros Hat Hs. unfold push_message. intros (d0 & n & [= <- <-] & H)%dbind_Ok. apply dbind_Ok in H as (d1 & ? & H1%op_Ok & H).
  apply dbind_Ok in H as (d2 & ? & H2 & H). apply dbind_Ok in H as (d3 & ? & H3%op_Ok & H).
  cbn in H1, H3. injection H1 as H1. apply (f_equal vw_messages) in H1. cbn in H1.
  unfold write_entry_scalar_fields in H2. eapply put_row_Ok in H2; [|rewrite <- H1; by apply list_lookup_middle].
  remember (put_slots ∅ (entry_scalars e)) as m eqn:Em.
  rewrite <- H1, insert_app_r_alt, Nat.sub_diag in H2 by done. cbn [insert list_insert] in H2.
  unfold alter_row in H3. cbn in H3. rewrite H2 in H3. rewrite list_lookup_middle in H3 by done. cbn in H3.
  injection H3 as H3. apply (f_equal vw_messages) in H3. cbn in H3. rewrite insert_app_r_alt, Nat.sub_diag in H3 by done. cbn in H3. clear H1 H2.
  assert (Hit : items_of (length (vw_messages (lr_view d))) (lr_view d3) = Some []).
  { unfold items_of. cbn. rewrite <- H3, list_lookup_middle by done. cbn. by rewrite lookup_insert_eq. }
  assert (Hp := edits_push_parts _ _ _ Hit (en_parts e) [] [] (List.Forall2_nil _) (storable_encodables _ Hs) d3 (eq_sym (set_items_same _ _ _ Hit))).
  rewrite H in Hp. destruct Hp as (items & Hd' & Hn). cbn [app] in Hn. destruct (nodes_read _ _ Hn Hs) as [Hr Hv].
  unfold read_entries. rewrite Hd'. unfold set_items. cbn [rows]. rewrite <- H3, list_lookup_middle by done. cbn [set_rows vw_messages].
  rewrite insert_app_r_alt, Nat.sub_diag, insert_insert_eq by done. cbn [insert list_insert]. rewrite fmap_app, omap_app. f_equal. cbn [fmap list_fmap omap list_omap].
  unfold entry_from_json, raw_entry_of_json. cbn [row_json].
  destruct (json_object_field slot_json (<[PARTS := SList items]> m) 7) as (field & -> & Hf). cbn [mbind option_bind].
  assert (Hlook : forall k, k <> PARTS -> <[PARTS := SList items]> m !! k = match assoc k (entry_scalars e) with Some (Some v) => Some (SLeaf (LVal v)) | _ => None end).
  { intros k Hk. rewrite lookup_insert_ne by done. rewrite Em. unfold put_slots. by rewrite put_fields_lookup by (apply (bool_decide_unpack _); reflexivity). }
  rewrite !Hf. rewrite (Hlook "id"%string), (Hlook "role"%string), (Hlook "createdAt"%string), (Hlook "deviceId"%string),
    (Hlook "status"%string), (Hlook "continuationOf"%string) by done.
  change "parts"%string with PARTS. rewrite lookup_insert_eq. change (assoc "id" (entry_scalars e)) with (Some (Some (Str (en_id e)))).
  change (assoc "role" (entry_scalars e)) with (Some (Some (Str (role_str (en_role e))))).
  change (assoc "createdAt" (entry_scalars e)) with (Some (Some (json_i64 (en_created_at e)))).
  change (assoc "deviceId" (entry_scalars e)) with (Some (Some (Str (en_device_id e)))).
  change (assoc "status" (entry_scalars e)) with (Some (Str ∘ status_str <$> en_status e)).
  change (assoc "continuationOf" (entry_scalars e)) with (Some (Str <$> en_continuation_of e)).
  cbn. rewrite as_i64_int by done. rewrite Hr. rewrite <- Hv.
  by destruct (en_role e), (en_status e) as [[]|], (en_continuation_of e).
Qed.
End push.

(** ** A refreshed receipt is not written *)

(** The values of [part_values] and [part_outputs] leave out [decision]. *)
Lemma decision_refresh_lost `{!Codecs} {D X : Type} `{!Loro D X} i v items0 items j m id e e' :
  items_of i v = Some items0 -> items !! j = Some (IMap m) ->
  edits (D:=D) (X:=X) i v items (refresh_part i j (MP_Decision id e) (MP_Decision id e')) (fun _ items' => items' = items).
Proof.
  intros Hv Hj. cbn [refresh_part]. eapply edits_bind; [by apply (edits_map_at i v items0 Hv items j m (fun _ items' => items' = items))|].
  intros ? ? ->. unfold update_part_fields. cbn [to_doc_part]. destruct (enc events (bounded e')) as [x|]; [|by apply edits_fail].
  by apply edits_ret.
Qed.

(** ** A concrete document *)

#[export, refine] Instance view_loro : Loro View string := {
  lr_new := empty_view; lr_view v := v;
  lr_apply o v := match apply_view o v with Some v' => Ok v' | None => Err "no such container"%string end;
}.
Proof. all: try done. intros o v v' H. destruct (apply_view o v); [by injection H as ->|done]. Defined.

Definition demo_codec {A} (f : A -> option Value) (g : Value -> option A) : Codec A := mk_codec A f g.
#[export] Instance demo_codecs : Codecs := {
  calls := demo_codec (fun c => match c with TC_Exec command => Some (Str command) | _ => None end)
             (fun v => TC_Exec <$> as_str v);
  diffs := demo_codec (fun _ => None) (fun _ => None);
  stats := demo_codec (fun _ => None) (fun _ => None);
  questions := demo_codec (fun qs => match qs with [] => Some (Arr []) | _ => None end) (fun v => match v with Arr [] => Some [] | _ => None end);
  events := demo_codec (fun _ => None) (fun _ => None);
  loro_json v := v;
  stable_hash _ := "0000000000000000"%string;
}.
Definition demo_diff (_ _ : string) : Z * Z := (1, 1)%Z.

Definition demo_batches : list (list AgentEvent) :=
  [[AE_TextDelta "Hel"; AE_TextDelta "lo"]; []; [AE_TextDelta "!"; AE_ToolCall "c1" (TC_Exec "ls")];
   [AE_ToolResult "c1" false (Some "a"%string) None; AE_TextDelta "Done."; AE_InputRequested "q" []]; [AE_InputResolved "q"]].

Lemma demo_storable : Forall (fun f => Forall storable (render_parts f)) (flushed demo_diff demo_batches []).
Proof.
  repeat constructor; try done; try (by eexists; split_and!; [vm_compute; reflexivity|done|vm_compute; reflexivity]); by intros ? [=].
Defined.

Lemma segment_mirrors_fold_witness :
  let '(d', ok) := stream_segment "m1" "dev" 7 demo_diff demo_batches [] MSt_Complete None (lr_new : View) in
  exists written, Forall2 part_equiv written (render_parts (fold_events demo_diff [] (concat demo_batches)))
    /\ read_entries (lr_view d') = [finished_entry "m1" "dev" 7 (doc_view <$> written) MSt_Complete].
Proof.
  pose proof (segment_mirrors_fold "m1" "dev" 7 demo_diff demo_batches MSt_Complete (lr_new : View)) as H.
  assert (Hok : (stream_segment "m1" "dev" 7 demo_diff demo_batches [] MSt_Complete None (lr_new : View)).2 = true) by (vm_compute; reflexivity).
  destruct (stream_segment _ _ _ _ _ _ _ _ _) as [d' ok]. cbn [snd] in Hok. destruct H as [_ H].
  destruct (H Hok) as (written & Hw & Hr); [unfold i64_min, i64_max; lia|vm_compute; reflexivity|exact demo_storable|].
  exists written. split; [exact Hw|]. exact Hr.
Defined.

Lemma message_roundtrips_witness :
  let e := mk_entry "u1" MR_User [MP_Text "t0" "hi"; MP_Error "e1" "no"] 5 "dev" None (Some "u0"%string) in
  read_entries (lr_view (push_message (X:=string) e (lr_new : View)).1) = [e].
Proof.
  cbv zeta. set (e := mk_entry _ _ _ _ _ _ _).
  assert (E : exists d', push_message (X:=string) e (lr_new : View) = (d', Ok tt)) by (eexists; vm_compute; reflexivity).
  destruct E as [d' E]. rewrite E. cbn [fst].
  refine (message_roundtrips e _ d' tt _ _ E); [unfold i64_min, i64_max; cbn; lia|by repeat constructor].
Defined.
