(* ===== verification/Commands.v ===== *)
(** The command ledger of a chat, [crates/doc/src/commands.rs], the ledger
    functions of [crates/doc/src/schema.rs] and the drain of
    [crates/engine/src/doc_host.rs]: which command runs, in what order the
    processed ledger, the execution and the outcome are written, and what that
    gives across crashes and concurrent drains.

    What a command is executed with (the sessions engine and the workspace row
    of the chat) is the interface [Executor]. *)
From Stdlib Require Import ZArith Lia Ascii String.
From stdpp Require Import base tactics numbers list strings pretty gmap.
From S2P Require Import Prelude Json Text Proto Parts TranscriptDelta SystemPrompt RegistryDoc SessionDoc.
Open Scope keel_scope.

(** * Entries *)

Inductive SessionCommandKind := CK_Run | CK_Steer | CK_Interrupt | CK_RespondInput.
#[export] Instance SessionCommandKind_eq_dec : EqDecision SessionCommandKind.
Proof. solve_decision. Defined.
Inductive SessionCommandStatus := CS_Pending | CS_Applied | CS_Rejected | CS_Expired | CS_Superseded | CS_Cancelled.
#[export] Instance SessionCommandStatus_eq_dec : EqDecision SessionCommandStatus.
Proof. solve_decision. Defined.
Record UserInputAnswer := mk_answer { ans_question_id : string; ans_labels : list string }.
Inductive SessionCommandPayload :=
| CP_Run (request : RunRequest) (message_id : string)
| CP_Steer (prompt : string) (message_id : option string)
| CP_Interrupt
| CP_RespondInput (request_id : string) (answers : list UserInputAnswer).
Definition payload_kind (p : SessionCommandPayload) : SessionCommandKind :=
  match p with CP_Run _ _ => CK_Run | CP_Steer _ _ => CK_Steer | CP_Interrupt => CK_Interrupt | CP_RespondInput _ _ => CK_RespondInput end.
Record CommandBasedOn := mk_based_on { cb_turn_id : option string; cb_frontier : option string }.
Record SessionCommandEntry := mk_command {
  ce_id : string;
  ce_payload : SessionCommandPayload;
  ce_issued_by : string;
  ce_issued_at : Z;
  ce_based_on : option CommandBasedOn;
  ce_expires_at : option Z;
  ce_status : SessionCommandStatus;
  ce_resolution : option string;
}.
Definition ce_kind (e : SessionCommandEntry) : SessionCommandKind := payload_kind (ce_payload e).
Definition COMMAND_DEFAULT_TTL_MS : Z := 24 * 60 * 60 * 1000.
(** The sum wraps, as in a release build. *)
Definition effective_expiry (e : SessionCommandEntry) : Z :=
  default (i64_wrap (ce_issued_at e + COMMAND_DEFAULT_TTL_MS)) (ce_expires_at e).
Definition can_composer_cancel (e : SessionCommandEntry) (device_id : string) : bool :=
  bool_decide (ce_status e = CS_Pending) && bool_decide (ce_issued_by e = device_id).

(** * Evaluation *)

Inductive CommandDisposition := CD_Skip | CD_Expired | CD_Superseded | CD_Execute.
Record EvaluationContext := mk_eval {
  ev_is_processed : string -> bool;
  ev_now_ms : Z;
  ev_entries : list SessionCommandEntry;
  ev_current_turn_id : option string;
  ev_turn_is_past : string -> bool;
}.
Definition newer_same_kind (e other : SessionCommandEntry) : bool :=
  negb (bool_decide (ce_id other = ce_id e)) && bool_decide (ce_kind other = ce_kind e)
  && bool_decide (ce_status other = CS_Pending) && (ce_issued_at e <? ce_issued_at other)%Z.
Definition past_turn (e : SessionCommandEntry) (cx : EvaluationContext) : bool :=
  match ce_kind e, ce_based_on e ≫= cb_turn_id with
  | CK_Interrupt, Some turn_id => negb (bool_decide (ev_current_turn_id cx = Some turn_id)) && ev_turn_is_past cx turn_id
  | _, _ => false
  end.
Definition evaluate_command (e : SessionCommandEntry) (cx : EvaluationContext) : CommandDisposition :=
  if ev_is_processed cx (ce_id e) then CD_Skip
  else if (effective_expiry e <=? ev_now_ms cx)%Z then CD_Expired
  else if match ce_kind e with CK_Steer | CK_Interrupt => existsb (newer_same_kind e) (ev_entries cx) | _ => false end then CD_Superseded
  else if past_turn e cx then CD_Superseded
  else CD_Execute.

(** * The ledger in the document *)

Definition kind_str (k : SessionCommandKind) : string :=
  match k with CK_Run => "run" | CK_Steer => "steer" | CK_Interrupt => "interrupt" | CK_RespondInput => "respondInput" end.
Definition command_status_str (s : SessionCommandStatus) : string :=
  match s with
  | CS_Pending => "pending" | CS_Applied => "applied" | CS_Rejected => "rejected"
  | CS_Expired => "expired" | CS_Superseded => "superseded" | CS_Cancelled => "cancelled"
  end.
Definition command_status_of_json (v : Value) : option SessionCommandStatus :=
  name ← variant_name v;
  List.find (fun s => bool_decide (command_status_str s = name)) [CS_Pending; CS_Applied; CS_Rejected; CS_Expired; CS_Superseded; CS_Cancelled].
Definition based_on_json (b : CommandBasedOn) : Value := Obj [("turnId", opt_str (cb_turn_id b)); ("frontier", opt_str (cb_frontier b))]%string.
Definition based_on_of_json (v : Value) : option CommandBasedOn :=
  field ← struct_fields 2 v;
  turn_id ← opt_field as_str (field 0 "turnId"%string);
  frontier ← opt_field as_str (field 1 "frontier"%string);
  Some (mk_based_on turn_id frontier).

Section ledger.
Context {CD : Codecs} (payloads : Codec SessionCommandPayload).

Definition command_of_json (v : Value) : option SessionCommandEntry :=
  field ← struct_fields 8 v;
  id ← field 0 "id"%string ≫= as_str;
  payload ← field 1 "payload"%string ≫= dec payloads;
  issued_by ← field 2 "issuedBy"%string ≫= as_str;
  issued_at ← field 3 "issuedAt"%string ≫= as_i64;
  based_on ← opt_field based_on_of_json (field 4 "basedOn"%string);
  expires_at ← opt_field as_i64 (field 5 "expiresAt"%string);
  status ← field 6 "status"%string ≫= command_status_of_json;
  resolution ← opt_field as_str (field 7 "resolution"%string);
  Some (mk_command id payload issued_by issued_at based_on expires_at status resolution).
(** [read_commands]: a malformed entry is skipped. *)
Definition read_commands (v : View) : list SessionCommandEntry := omap command_of_json (row_json <$> vw_commands v).

Context {D X : Type} `{!Loro D X}.

Definition queue_command (e : SessionCommandEntry) : DM D X unit :=
  let* i := dview (fun v => length (rows L_Commands v)) in
  let* _ := op (PushRow L_Commands) in
  let* _ := put_row L_Commands i [("id", Some (Str (ce_id e))); ("kind", Some (Str (kind_str (ce_kind e))))]%string in
  let* payload := dopt (enc payloads (ce_payload e)) in
  let* _ := put_row L_Commands i [("payload", Some (loro_json payload)); ("issuedBy", Some (Str (ce_issued_by e)));
                                  ("issuedAt", Some (json_i64 (ce_issued_at e)))]%string in
  put_row L_Commands i [("basedOn", loro_json ∘ based_on_json <$> ce_based_on e); ("expiresAt", json_i64 <$> ce_expires_at e);
                        ("status", Some (Str (command_status_str (ce_status e))))]%string.

(** [set_command_status]: the first command of that id. *)
Definition set_command_status (command_id : string) (status : SessionCommandStatus) (resolution : option string) : DM D X unit :=
  let* found := dview (fun v => position (row_is command_id) (rows L_Commands v)) in
  match found with
  | Some i => put_row L_Commands i [("status", Some (Str (command_status_str status))); ("resolution", Str <$> resolution)]%string
  | None => dfail (DE_Schema ("command " +:+ command_id +:+ " not found"))
  end.
End ledger.

(** * Execution *)

Inductive SteerOutcome := SO_Accepted | SO_NotSteerable.

Definition em_dash : string := String (ascii_of_nat 226) (String (ascii_of_nat 128) (String (ascii_of_nat 148) EmptyString)).
Definition respond_input_prompt (qs : list UserInputQuestion) (answers : list UserInputAnswer) : string :=
  join newline_str ("Answering your earlier question:"%string ::
    ((fun answer =>
        let picked := join ", " (ans_labels answer) in
        match List.find (fun q => bool_decide (q_id q = ans_question_id answer)) qs with
        | Some q => let text := trim (q_question q) in
                    if decide (text = EmptyString) then picked else text +:+ " " +:+ em_dash +:+ " " +:+ picked
        | None => picked
        end) <$> answers)).

(** What [execute] calls, on the engine's state [HS]: the chat's document, the
    workspace host when one is wired, and the sessions engine.  An error is
    its message. *)
Class Executor (D HS : Type) := {
  x_doc : HS -> D;
  x_set_doc : D -> HS -> HS;
  x_has_sessions : HS -> bool;
  x_is_host : HS -> bool;
  x_has_workspace : HS -> bool;
  x_claim_chat : option string -> HS -> HS * result unit string;
  x_chat : HS -> result (option Chat) string;
  x_chat_config : HS -> option ChatConfig;
  x_set_chat_config : ChatConfig -> HS -> HS;
  x_default_harness : HarnessId;
  x_last_request : HS -> option RunRequest;
  x_dispatch : HarnessId -> RunRequest -> option string -> HS -> HS * result unit string;
  x_steer : string -> option string -> HS -> HS * result SteerOutcome string;
  x_interrupt : HS -> HS * result unit string;
  x_respond_input : string -> list UserInputAnswer -> HS -> HS * result bool string;
}.

(** The calls that fail end the command with their error. *)
Definition xbind {HS A B} (m : HS * result A string) (k : A -> HS -> HS * result B string) : HS * result B string :=
  match m with (s, Ok a) => k a s | (s, Err e) => (s, Err e) end.
Notation "'let+' x , s := m 'in' k" := (xbind m (fun x s => k)) (at level 10, x pattern, s name, m at level 100, k at level 200) : keel_scope.

Section execute.
Context {CD : Codecs} {D X HS : Type} `{!Loro D X} `{!Executor D HS}.
Implicit Types (s : HS).

Definition harness_for s : HarnessId :=
  if x_has_workspace s then match x_chat_config s with Some config => cf_harness config | None => x_default_harness end else x_default_harness.
Definition harness_for_request (request : RunRequest) s : HarnessId := default (harness_for s) (rr_harness request).

Definition request_from_chat_row (prompt : string) s : option RunRequest :=
  if x_has_workspace s then
    match x_chat s with
    | Ok (Some chat) =>
        let config := ch_config chat in
        Some (mk_run_request prompt (cf_harness <$> config) (config ≫= cf_model) (config ≫= cf_reasoning)
                (default [] (cf_model_options <$> config)) (default EmptyString (ch_cwd chat))
                (default WorkspaceWrite (cf_sandbox <$> config)) false None [])
    | _ => None
    end
  else None.

Definition with_prompt (prompt : string) (r : RunRequest) : RunRequest :=
  mk_run_request prompt (rr_harness r) (rr_model r) (rr_reasoning r) (rr_model_options r) (rr_cwd r) (rr_sandbox r) (rr_auto_approve r) None [].
Definition fallback_request (prompt : string) s : option RunRequest :=
  match x_last_request s with Some r => Some r | None => request_from_chat_row prompt s end.

(** The questions of the last settled entry that still asks the request. *)
Definition open_question (request_id : string) (p : MessagePart) : option (list UserInputQuestion) :=
  match p with MP_Input _ rid qs false => if decide (rid = request_id) then Some qs else None | _ => None end.
Definition orphan_questions (request_id : string) (entries : list SessionMessageEntry) : option (list UserInputQuestion) :=
  head (omap (fun e => head (omap (open_question request_id) (en_parts e)))
          (base.filter (fun e => en_status e <> Some MSt_Streaming) (rev entries))).

Abbreviation Outcome := (SessionCommandStatus * option string)%type.
Definition execute (e : SessionCommandEntry) s : HS * result Outcome string :=
  match ce_payload e with
  | CP_Run request message_id =>
      let+ _, s := if x_has_workspace s then x_claim_chat (Some (rr_cwd request)) s else (s, Ok tt) in
      let harness := harness_for_request request s in
      let s := if x_has_workspace s && negb (bool_decide (is_Some (x_chat_config s)))
               then x_set_chat_config (mk_config harness (rr_model request) (rr_reasoning request) (rr_model_options request) (rr_sandbox request)) s
               else s in
      let+ _, s := x_dispatch harness request (Some message_id) s in
      (s, Ok (CS_Applied, None))
  | CP_Steer prompt message_id =>
      let+ outcome, s := x_steer prompt message_id s in
      match outcome with
      | SO_Accepted => (s, Ok (CS_Applied, None))
      | SO_NotSteerable =>
          match fallback_request prompt s with
          | None => (s, Ok (CS_Rejected, Some "no live run and no prior run config"%string))
          | Some request =>
              let request := with_prompt prompt request in
              let+ _, s := x_dispatch (harness_for_request request s) request message_id s in
              (s, Ok (CS_Applied, Some "queued as new turn"%string))
          end
      end
  | CP_Interrupt =>
      let+ _, s := x_interrupt s in (s, Ok (CS_Applied, None))
  | CP_RespondInput request_id answers =>
      let+ live, s := x_respond_input request_id answers s in
      if live then (s, Ok (CS_Applied, None))
      else
        match orphan_questions request_id (read_entries (lr_view (x_doc s))) with
        | None => (s, Ok (CS_Rejected, Some "no pending input request"%string))
        | Some qs =>
            match fallback_request EmptyString s with
            | None => (s, Ok (CS_Rejected, Some "no pending input request and no prior run config"%string))
            | Some request =>
                let request := with_prompt (respond_input_prompt qs answers) request in
                let s := x_set_doc (resolve_input_part request_id (x_doc s)).1 s in
                let+ _, s := x_dispatch (harness_for_request request s) request None s in
                (s, Ok (CS_Applied, Some "answered as new turn"%string))
            end
        end
  end.

(** A failed outcome write is logged. *)
Definition resolve_command (command_id : string) (status : SessionCommandStatus) (resolution : option string) s : HS :=
  x_set_doc (set_command_status command_id status resolution (x_doc s)).1 s.
Definition execute_and_resolve (e : SessionCommandEntry) s : HS :=
  let '(s, r) := execute e s in
  let '(status, resolution) := match r with Ok outcome => outcome | Err message => (CS_Rejected, Some message) end in
  resolve_command (ce_id e) status resolution s.
End execute.
