(* ===== verification/Drain.v ===== *)
(** Draining the command ledger, [DocHost::drain_commands] of
    [crates/engine/src/doc_host.rs] over [SyncStore::is_processed] and
    [mark_processed] of [crates/sync/src/store.rs]: the tasks that drain, their
    interleaving and the crashes, with what they guarantee and what they do not. *)
From Stdlib Require Import ZArith Lia Ascii String.
From stdpp Require Import base tactics numbers list strings pretty gmap relations.
From S2P Require Import Prelude Json Text Proto Parts TranscriptDelta SystemPrompt RegistryDoc SessionDoc Segment Commands.
Open Scope keel_scope.

(** * The processed ledger *)

(** What one access finds: whether reading the ledger works for an id, whether
    writing it does, and the clock. *)
Record Oracle := mk_oracle { or_reads : string -> bool; or_marks : bool; or_now : Z }.
(** [is_processed(id).unwrap_or(false)]. *)
Definition is_processed (o : Oracle) (ledger : gset string) (id : string) : bool := or_reads o id && bool_decide (id ∈ ledger).
(** Whether this call claimed the command, and the ledger. *)
Definition mark_processed (o : Oracle) (id : string) (ledger : gset string) : gset string * option bool :=
  if or_marks o then ({[id]} ∪ ledger, Some (negb (bool_decide (id ∈ ledger)))) else (ledger, None).

(** * One drain *)

Section drain.
Context {CD : Codecs} (payloads : Codec SessionCommandPayload) {D X HS : Type} {LD : Loro D X} {EX : Executor D HS}.
Implicit Types (s : HS) (o : Oracle) (ledger skipped : gset string).

(** Where a drain is: each access to the document or the ledger is a step. *)
Inductive Pc :=
| PC_Idle
| PC_Scan (skipped : gset string)
| PC_Found (skipped : gset string) (e : SessionCommandEntry) (commands : list SessionCommandEntry)
| PC_Evaluated (skipped : gset string) (e : SessionCommandEntry) (disposition : CommandDisposition)
| PC_Claimed (skipped : gset string) (e : SessionCommandEntry) (disposition : CommandDisposition).

Definition commands_of s : list SessionCommandEntry := read_commands payloads (lr_view (x_doc s)).
Definition next_command o ledger skipped (commands : list SessionCommandEntry) : option SessionCommandEntry :=
  List.find (fun c => bool_decide (ce_status c = CS_Pending) && negb (bool_decide (ce_id c ∈ skipped)) && negb (is_processed o ledger (ce_id c))) commands.
Definition drain_context o ledger s (commands : list SessionCommandEntry) : EvaluationContext :=
  let messages := read_entries (lr_view (x_doc s)) in
  mk_eval (is_processed o ledger) (or_now o) commands (en_id <$> last messages)
    (fun turn_id => existsb (fun m => bool_decide (en_id m = turn_id)) messages).

(** The next access of a drain; the last component is the command it executed. *)
Definition drain_step o (pc : Pc) s ledger : Pc * HS * gset string * option string :=
  match pc with
  | PC_Idle => (if x_has_sessions s && x_is_host s then PC_Scan ∅ else PC_Idle, s, ledger, None)
  | PC_Scan skipped =>
      let commands := commands_of s in
      (match next_command o ledger skipped commands with Some e => PC_Found skipped e commands | None => PC_Idle end, s, ledger, None)
  | PC_Found skipped e commands => (PC_Evaluated skipped e (evaluate_command e (drain_context o ledger s commands)), s, ledger, None)
  | PC_Evaluated skipped e disposition =>
      let '(ledger, claimed) := mark_processed o (ce_id e) ledger in
      (match claimed with Some _ => PC_Claimed skipped e disposition | None => PC_Idle end, s, ledger, None)
  | PC_Claimed skipped e disposition =>
      match disposition with
      | CD_Skip => (PC_Scan ({[ce_id e]} ∪ skipped), s, ledger, None)
      | CD_Expired => (PC_Scan skipped, resolve_command (ce_id e) CS_Expired None s, ledger, None)
      | CD_Superseded => (PC_Scan skipped, resolve_command (ce_id e) CS_Superseded None s, ledger, None)
      | CD_Execute => (PC_Scan skipped, execute_and_resolve e s, ledger, Some (ce_id e))
      end
  end.

(** * Drains side by side *)

(** The document and the engine, the ledger, every command executed so far, and
    the drains of the chat. *)
Record World := mk_world { w_state : HS; w_ledger : gset string; w_ran : list string; w_drains : list Pc }.

Inductive world_step (reliable : bool) : World -> World -> Prop :=
| step_drain w k pc o pc' s' ledger' ran :
    w_drains w !! k = Some pc -> (reliable = true -> forall id, or_reads o id = true) ->
    drain_step o pc (w_state w) (w_ledger w) = (pc', s', ledger', ran) ->
    world_step reliable w (mk_world s' ledger' (w_ran w ++ from_option (fun id => [id]) [] ran) (<[k := pc']> (w_drains w)))
| step_other w s' :
    (* an import, a run, a local write *)
    world_step reliable w (mk_world s' (w_ledger w) (w_ran w) (w_drains w))
| step_crash w s' :
    (* the document restarts from any saved state, the ledger is durable *)
    world_step reliable w (mk_world s' (w_ledger w) (w_ran w) (const PC_Idle <$> w_drains w)).
Definition reaches (reliable : bool) : World -> World -> Prop := rtc (world_step reliable).
Definition started (drains : nat) s ledger : World := mk_world s ledger [] (replicate drains PC_Idle).

(** * One drain executes a command at most once *)

Definition drain_inv (ledger : gset string) (ran : list string) (pc : Pc) : Prop :=
  match pc with
  | PC_Idle | PC_Scan _ => True
  | PC_Found _ e _ | PC_Evaluated _ e _ => ce_id e ∉ ledger
  | PC_Claimed _ e _ => ce_id e ∈ ledger /\ ce_id e ∉ ran
  end.
Record world_inv (w : World) : Prop := {
  wi_once : NoDup (w_ran w);
  wi_claimed id : id ∈ w_ran w -> id ∈ w_ledger w;
  wi_drain : exists pc, w_drains w = [pc] /\ drain_inv (w_ledger w) (w_ran w) pc;
}.

Lemma next_command_spec o ledger skipped commands e :
  next_command o ledger skipped commands = Some e ->
  e ∈ commands /\ ce_status e = CS_Pending /\ ce_id e ∉ skipped /\ is_processed o ledger (ce_id e) = false.
Proof.
  intros [Hin H]%find_some. rewrite !andb_true_iff, bool_decide_eq_true, !negb_true_iff, bool_decide_eq_false in H.
  apply list_elem_of_In in Hin. tauto.
Qed.

Lemma world_step_inv w w' : world_step true w w' -> world_inv w -> world_inv w'.
Proof.
  intros Hs [H1 H2 (pc0 & Hd & H3)]. destruct Hs as [w k pc o pc' s' ledger' ran Hk Ho Hstep|w s'|w s'].
  - rewrite Hd in Hk. destruct k as [|k]; [|done]. injection Hk as ->. specialize (Ho eq_refl).
    assert (Hp : forall id, is_processed o (w_ledger w) id = bool_decide (id ∈ w_ledger w)) by (intros id; unfold is_processed; by rewrite Ho).
    destruct pc as [|skipped|skipped e commands|skipped e disposition|skipped e disposition]; cbn in Hstep, H3.
    + injection Hstep as <- <- <- <-. split; cbn; rewrite ?app_nil_r; [done|done|]. rewrite Hd. eexists. split; [done|]. by case_match.
    + injection Hstep as <- <- <- <-. split; cbn; rewrite ?app_nil_r; [done|done|]. rewrite Hd. eexists. split; [done|].
      destruct (next_command _ _ _ _) as [e|] eqn:E; [|done]. apply next_command_spec in E as (_ & _ & _ & E). rewrite Hp in E. by apply bool_decide_eq_false in E.
    + injection Hstep as <- <- <- <-. split; cbn; rewrite ?app_nil_r; [done|done|]. rewrite Hd. by eexists.
    + unfold mark_processed in Hstep. destruct (or_marks o); injection Hstep as <- <- <- <-; (split; cbn; rewrite ?app_nil_r; [done|set_solver|]);
        rewrite Hd; eexists; (split; [done|]); [|done]. split; [set_solver|]. intros Hin. by apply H3, H2.
    + destruct H3 as [Hl Hr]. destruct disposition; injection Hstep as <- <- <- <-; (split; cbn; rewrite ?app_nil_r; [..|rewrite Hd; by eexists]); try done.
      * apply NoDup_app. split_and!; [done|intros id Hid ->%list_elem_of_singleton; done|apply NoDup_singleton].
      * intros id [?| ->%list_elem_of_singleton]%elem_of_app; [by apply H2|done].
  - split; [done|done|]. by eexists.
  - split; [done|done|]. cbn. rewrite Hd. by exists PC_Idle.
Qed.

(** C1. With one drain for the chat and a ledger that can be read, no command is
    ever executed twice: in any interleaving with imports, runs and other
    writers, over any number of crashes that lose the document back to any
    earlier state, the executed commands are distinct and each is in the
    ledger. *)
Theorem executed_at_most_once s ledger w :
  reaches true (started 1 s ledger) w -> NoDup (w_ran w) /\ forall id, id ∈ w_ran w -> id ∈ w_ledger w.
Proof.
  intros Hr. assert (Hi : world_inv (started 1 s ledger)) by (split; [constructor|by intros id ?%elem_of_nil|by exists PC_Idle]).
  enough (world_inv w) as [H1 H2 _] by done. induction Hr as [w|w1 w2 w3 Hs _ IH]; [done|]. apply IH. by eapply world_step_inv.
Qed.

(** * A drain ends *)

(** A drain that runs by itself; it stops where it goes idle. *)
Fixpoint drain_run (clock : nat -> Oracle) (fuel : nat) (pc : Pc) s ledger (ran : list string) : Pc * HS * gset string * list string :=
  match fuel with
  | O => (pc, s, ledger, ran)
  | S fuel =>
      match pc with
      | PC_Idle => (pc, s, ledger, ran)
      | _ =>
          let '(pc, s, ledger, id) := drain_step (clock fuel) pc s ledger in
          drain_run clock fuel pc s ledger (ran ++ from_option (fun id => [id]) [] id)
      end
  end.

(** What the executor promises the drain: the calls of a run leave the command
    list alone, the document is the one set. *)
Definition keeps_commands {R} (m : HS -> HS * R) : Prop := forall s, vw_commands (lr_view (x_doc (m s).1)) = vw_commands (lr_view (x_doc s)).
Class ExecutorLaws := {
  xl_set_doc d s : x_doc (x_set_doc d s) = d;
  xl_claim_chat cwd : keeps_commands (x_claim_chat cwd);
  xl_set_chat_config config : keeps_commands (fun s => (x_set_chat_config config s, tt));
  xl_dispatch harness request id : keeps_commands (x_dispatch harness request id);
  xl_steer prompt id : keeps_commands (x_steer prompt id);
  xl_interrupt : keeps_commands x_interrupt;
  xl_respond_input id answers : keeps_commands (x_respond_input id answers);
}.
Context {EL : ExecutorLaws}.

Definition command_ids s : gset string := list_to_set (ce_id <$> commands_of s).

Lemma kept_xbind {A B} (m : HS * result A string) (k : A -> HS -> HS * result B string) (l : list Row) :
  vw_commands (lr_view (x_doc m.1)) = l -> (forall a s, vw_commands (lr_view (x_doc s)) = l -> vw_commands (lr_view (x_doc (k a s).1)) = l) ->
  vw_commands (lr_view (x_doc (xbind m k).1)) = l.
Proof. intros Hm Hk. destruct m as [s [a|e]]; [by apply Hk|done]. Qed.

Lemma resolve_input_commands request_id (d : D) : vw_commands (lr_view (resolve_input_part (X:=X) request_id d).1) = vw_commands (lr_view d).
Proof.
  assert (Hfr : frames (X:=X) 0 (resolve_input_part (D:=D) request_id)).
  { unfold resolve_input_part. apply frames_bind; [apply frames_view|]. intros [[i j]|]; [|apply frames_ret].
    apply frames_bind; [by apply frames_op, Nat.le_0_l|]. intros _. apply frames_ret. }
  by destruct (Hfr d (Nat.le_0_l _)) as (_ & ? & _).
Qed.

Lemma execute_commands e s : vw_commands (lr_view (x_doc (execute (X:=X) e s).1)) = vw_commands (lr_view (x_doc s)).
Proof.
  unfold execute. destruct (ce_payload e) as [request message_id|prompt message_id| |request_id answers].
  - apply kept_xbind; [destruct (x_has_workspace s); [apply xl_claim_chat|done]|]. intros _ s1 H1. apply kept_xbind; [|by intros _ s2 H2].
    rewrite xl_dispatch. destruct (_ && _); [|done]. etrans; [apply (xl_set_chat_config _ s1)|done].
  - apply kept_xbind; [apply xl_steer|]. intros outcome s1 H1. destruct outcome; [done|].
    destruct (fallback_request prompt s1); [|done]. apply kept_xbind; [by rewrite xl_dispatch|by intros _ s2 H2].
  - apply kept_xbind; [apply xl_interrupt|by intros _ s2 H2].
  - apply kept_xbind; [apply xl_respond_input|]. intros live s1 H1. destruct live; [done|].
    destruct (orphan_questions _ _); [|done]. destruct (fallback_request _ s1); [|done].
    apply kept_xbind; [|by intros _ s2 H2]. by rewrite xl_dispatch, xl_set_doc, resolve_input_commands.
Qed.

(** A row keeps its id when its status is written. *)
Lemma command_row_id m v id :
  m !! "id"%string = Some (SLeaf (LVal (Str id))) -> command_of_json payloads (row_json (RMap m)) = Some v -> ce_id v = id.
Proof.
  intros Hid. unfold command_of_json. cbn [row_json]. destruct (json_object_field slot_json m 8) as (field & -> & Hf).
  cbn [mbind option_bind]. rewrite (Hf 0), Hid. cbn [fmap option_fmap option_map slot_json leaf_json mbind option_bind as_str].
  intros H. repeat (apply bind_Some in H as (? & _ & H)). by injection H as <-.
Qed.

Definition ids_of (rs : list Row) : gset string := list_to_set (ce_id <$> omap (command_of_json payloads) (row_json <$> rs)).
Lemma ids_of_insert rs i m id : m !! "id"%string = Some (SLeaf (LVal (Str id))) -> ids_of (<[i := RMap m]> rs) ⊆ {[id]} ∪ ids_of rs.
Proof.
  intros Hid x. unfold ids_of. rewrite !elem_of_union, !elem_of_list_to_set, !list_elem_of_fmap.
  intros (e & -> & He). apply list_elem_of_omap in He as (j & Hj & He). apply list_elem_of_fmap in Hj as (r & -> & Hr).
  apply list_elem_of_lookup in Hr as [k Hk]. apply list_lookup_insert_Some in Hk as [(-> & <- & _)|(_ & Hk)].
  - left. apply elem_of_singleton. by eapply command_row_id.
  - right. exists e. split; [done|]. apply list_elem_of_omap. exists (row_json r). split; [|done]. apply list_elem_of_fmap. exists r. split; [done|]. by apply list_elem_of_lookup_2 in Hk.
Qed.

Lemma put_status_ids fields : forall i id m (d : D),
  "id"%string ∉ fields.*1 -> vw_commands (lr_view d) !! i = Some (RMap m) -> m !! "id"%string = Some (SLeaf (LVal (Str id))) ->
  ids_of (vw_commands (lr_view (put_row (X:=X) L_Commands i fields d).1)) ⊆ {[id]} ∪ ids_of (vw_commands (lr_view d)).
Proof.
  induction fields as [|[k [x|]] fields IH]; intros i id m d Hf Hi Hid; [set_solver| |].
  - unfold put_row. cbn [deach fst snd]. unfold dbind, op. destruct (lr_apply (RowInsert L_Commands i k x) d) as [d'|e] eqn:E; [|set_solver].
    apply lr_apply_view in E. cbn in E. unfold alter_row in E. cbn in E. rewrite Hi in E. injection E as E.
    apply (f_equal vw_commands) in E. cbn in E. assert (Hk : k <> "id"%string) by (intros ->; apply Hf; left).
    assert (Hid' : <[k := SLeaf (LVal x)]> m !! "id"%string = Some (SLeaf (LVal (Str id)))) by by rewrite lookup_insert_ne.
    specialize (IH i id (<[k := SLeaf (LVal x)]> m) d'). ospecialize (IH _ _ Hid').
    + set_solver.
    + rewrite <- E. by apply list_lookup_insert_eq, (lookup_lt_Some _ _ _ Hi).
    + etrans; [exact IH|]. rewrite <- E. pose proof (ids_of_insert (vw_commands (lr_view d)) i _ id Hid'). set_solver.
  - apply (IH i id m); [set_solver|done|done].
Qed.

Lemma resolve_command_ids id status resolution s : command_ids (resolve_command (X:=X) id status resolution s) ⊆ {[id]} ∪ command_ids s.
Proof.
  unfold command_ids, commands_of, read_commands, resolve_command. rewrite xl_set_doc. unfold set_command_status, dbind, dview. cbn [rows].
  destruct (position (row_is id) (vw_commands (lr_view (x_doc s)))) as [i|] eqn:Hp; [|set_solver].
  apply position_Some in Hp as (r & Hr & Hi & _). destruct r as [m|]; [|done]. cbn in Hi.
  destruct (m !! "id"%string) as [[[[]|]|]|] eqn:Hid; try done. apply bool_decide_eq_true in Hi as ->.
  apply (put_status_ids _ i id m); [|done|done]. cbn. set_solver.
Qed.

Lemma executed_ids e s : command_ids (execute_and_resolve (X:=X) e s) ⊆ {[ce_id e]} ∪ command_ids s.
Proof.
  unfold execute_and_resolve. pose proof (execute_commands e s) as He. destruct (execute e s) as [s1 r]. cbn in He.
  assert (E : command_ids s1 = command_ids s) by (unfold command_ids, commands_of, read_commands; by rewrite He).
  destruct (match r with Ok outcome => _ | Err message => _ end) as [status resolution]. rewrite <- E. apply resolve_command_ids.
Qed.

(** What the drain has left to claim. *)
Definition left s ledger : nat := size (command_ids s ∖ ledger).

Lemma next_command_left o ledger skipped s e :
  (forall id, or_reads o id = true) -> next_command o ledger skipped (commands_of s) = Some e -> ce_id e ∈ command_ids s ∖ ledger.
Proof.
  intros Ho (Hin & _ & _ & Hp)%next_command_spec. unfold is_processed in Hp. rewrite Ho in Hp. apply bool_decide_eq_false in Hp.
  apply elem_of_difference. split; [|done]. apply elem_of_list_to_set, list_elem_of_fmap. eauto.
Qed.
Lemma left_claimed s s' ledger id :
  command_ids s' ⊆ {[id]} ∪ command_ids s -> id ∈ command_ids s ∖ ledger -> left s' ({[id]} ∪ ledger) < left s ledger.
Proof.
  intros Hs Hid. unfold left. apply subset_size. split; [set_solver|]. intros Hc. specialize (Hc id Hid). set_solver.
Qed.

Definition settled s ledger : Prop := forall c, c ∈ commands_of s -> ce_status c = CS_Pending -> ce_id c ∈ ledger.

(** A drain that nobody disturbs ends, and leaves nothing behind: four
    accesses for each command not yet claimed and one more are enough for it to
    go idle, with every pending command in the ledger, whatever the commands
    do when they are executed. *)
Theorem drain_settles (clock : nat -> Oracle) :
  (forall n, or_marks (clock n) = true /\ forall id, or_reads (clock n) id = true) ->
  forall s ledger ran,
  let '(pc, s', ledger', _) := drain_run clock (S (4 * left s ledger)) (PC_Scan ∅) s ledger ran in
  pc = PC_Idle /\ settled s' ledger'.
Proof.
  intros Hc s ledger ran.
  enough (forall n m s ledger ran, left s ledger <= n -> m = S (4 * n) ->
    let '(pc, s', ledger', _) := drain_run clock m (PC_Scan ∅) s ledger ran in pc = PC_Idle /\ settled s' ledger') as Hall by exact (Hall _ _ s ledger ran (Nat.le_refl _) eq_refl).
  clear s ledger ran. induction n as [n IH] using lt_wf_ind. intros m s ledger ran Hn ->. cbn [drain_run drain_step].
  destruct (Hc (4 * n)) as [_ Hr]. destruct (next_command (clock (4 * n)) ledger ∅ (commands_of s)) as [e|] eqn:He.
  - pose proof (next_command_left _ _ _ _ _ Hr He) as Hid.
    assert (Hn0 : left s ledger <> 0). { unfold left. intros ?%size_empty_inv. set_solver. }
    destruct n as [|n]; [lia|]. replace (4 * S n) with (S (S (S (S (4 * n))))) by lia. cbn [drain_run drain_step].
    unfold mark_processed. destruct (Hc (S (S (4 * n)))) as [-> _]. cbn [from_option]. rewrite !app_nil_r. cbn [drain_run drain_step].
    assert (Hpr : is_processed (clock (S (S (S (4 * n))))) ledger (ce_id e) = false).
    { unfold is_processed. destruct (Hc (S (S (S (4 * n))))) as [_ ->]. apply bool_decide_eq_false. set_solver. }
    assert (Hgo : forall s' ran', command_ids s' ⊆ {[ce_id e]} ∪ command_ids s ->
      let '(pc, s', ledger', _) := drain_run clock (S (4 * n)) (PC_Scan ∅) s' ({[ce_id e]} ∪ ledger) ran' in pc = PC_Idle /\ settled s' ledger').
    { intros s' ran' Hs'. apply (IH n); [lia| |lia]. pose proof (left_claimed _ _ _ _ Hs' Hid). lia. }
    destruct (evaluate_command e _) eqn:Hd.
    + exfalso. revert Hd. unfold evaluate_command, drain_context. cbn [ev_is_processed]. rewrite Hpr. by repeat case_match.
    + apply Hgo, resolve_command_ids.
    + apply Hgo, resolve_command_ids.
    + apply Hgo, executed_ids.
  - cbn [from_option]. rewrite app_nil_r. assert (Hs : settled s ledger).
    { intros c Hc' Hp. unfold next_command in He. apply list_elem_of_In in Hc'. pose proof (find_none _ _ He c Hc') as Hf. cbn in Hf.
      rewrite Hp, bool_decide_eq_true_2 in Hf by done. rewrite bool_decide_eq_false_2 in Hf by set_solver. cbn in Hf.
      apply negb_false_iff in Hf. unfold is_processed in Hf. rewrite Hr in Hf. by apply bool_decide_eq_true in Hf. }
    destruct n; [done|]. by cbn.
Qed.

(** * Schedules *)

(** Drains taking turns; a drain that is not there does nothing. *)
Definition drain_at (k : nat) o (w : World) : World :=
  match w_drains w !! k with
  | Some pc =>
      let '(pc, s, ledger, ran) := drain_step o pc (w_state w) (w_ledger w) in
      mk_world s ledger (w_ran w ++ from_option (fun id => [id]) [] ran) (<[k := pc]> (w_drains w))
  | None => w
  end.
Definition schedule (turns : list (nat * Oracle)) (w : World) : World := foldl (fun w t => drain_at t.1 t.2 w) w turns.

Lemma schedule_reaches reliable turns : forall w,
  (reliable = true -> Forall (fun t => forall id, or_reads t.2 id = true) turns) -> reaches reliable w (schedule turns w).
Proof.
  induction turns as [|[k o] turns IH]; intros w Hr; [constructor|]. cbn [schedule foldl fst snd].
  assert (Hk : reaches reliable w (drain_at k o w)).
  { unfold drain_at. destruct (w_drains w !! k) as [pc|] eqn:E; [|constructor].
    destruct (drain_step o pc (w_state w) (w_ledger w)) as [[[pc' s'] ledger'] ran] eqn:Es. apply rtc_once.
    eapply step_drain; [exact E| |exact Es]. intros Hrel. by apply Hr, Forall_cons in Hrel as [? _]. }
  etrans; [exact Hk|]. apply IH. intros Hrel. by apply Hr, Forall_cons in Hrel as [_ ?].
Qed.
End drain.

(** * A concrete chat *)

Definition demo_payloads : Codec SessionCommandPayload :=
  demo_codec (fun p => match p with CP_Steer prompt None => Some (Str prompt) | _ => None end) (fun v => (fun prompt => CP_Steer prompt None) <$> as_str v).
Definition demo_request : RunRequest := mk_run_request "" None None None [] "/" WorkspaceWrite false None [].
(** A host whose runs accept every steer. *)
#[export] Instance demo_executor : Executor View View := {
  x_doc s := s; x_set_doc d _ := d; x_has_sessions _ := true; x_is_host _ := true; x_has_workspace _ := false; x_claim_chat _ s := (s, Ok tt);
  x_chat _ := Ok None; x_chat_config _ := None; x_set_chat_config _ s := s; x_default_harness := Dsh; x_last_request _ := Some demo_request;
  x_dispatch _ _ _ s := (s, Ok tt); x_steer _ _ s := (s, Ok SO_Accepted); x_interrupt s := (s, Ok tt); x_respond_input _ _ s := (s, Ok false);
}.
#[export] Instance demo_executor_laws : ExecutorLaws (EX := demo_executor).
Proof. by split. Qed.

Definition demo_steer (id : string) (at_ : Z) : SessionCommandEntry := mk_command id (CP_Steer ("do " +:+ id) None) "dev" at_ None None CS_Pending None.
Definition demo_queue (es : list SessionCommandEntry) : View := (deach (queue_command (X:=string) demo_payloads) es empty_view).1.
Definition clear_sky : Oracle := mk_oracle (fun _ => true) true 100.

Lemma drain_settles_witness :
  let s := demo_queue [demo_steer "a" 5; demo_steer "b" 3; demo_steer "c" 9] in
  let '(pc, s', ledger', ran) := drain_run (X:=string) demo_payloads (fun _ => clear_sky) (S (4 * left demo_payloads s ∅)) (PC_Scan ∅) s ∅ [] in
  pc = PC_Idle /\ settled demo_payloads s' ledger'.
Proof.
  assert (Hc : forall n : nat, or_marks ((fun _ : nat => clear_sky) n) = true /\ forall id, or_reads ((fun _ : nat => clear_sky) n) id = true) by by intros n.
  cbv zeta. set (s := demo_queue _). clearbody s. exact (drain_settles (X:=string) demo_payloads (fun _ => clear_sky) Hc s ∅ []).
Defined.

Lemma executed_at_most_once_witness :
  let w := schedule (X:=string) demo_payloads (replicate 12 (0, clear_sky)) (started 1 (demo_queue [demo_steer "a" 5; demo_steer "b" 8]) ∅) in
  (w_ran w = ["b"%string] /\ w_ledger w = {["a"%string; "b"%string]}) /\ NoDup (w_ran w).
Proof.
  cbv zeta. split; [split; vm_compute; reflexivity|].
  refine (proj1 (executed_at_most_once demo_payloads (X:=string) (demo_queue [demo_steer "a" 5; demo_steer "b" 8]) ∅ _ _)).
  apply schedule_reaches. intros _. by apply Forall_replicate.
Defined.

(** ** What does not hold *)

(** Two drains of one chat read the ledger before either claims: both execute
    the command, the second although its claim was refused. *)
Lemma two_drains_execute_twice :
  exists w, reaches (X:=string) demo_payloads true (started 2 (demo_queue [demo_steer "a" 5]) ∅) w /\ w_ran w = ["a"; "a"]%string.
Proof.
  set (turns := (fun k => (k, clear_sky)) <$> [0; 1; 0; 1; 0; 1; 0; 1; 0; 1]%nat). eexists. split.
  - apply (schedule_reaches _ true turns). intros _. subst turns. by repeat constructor.
  - vm_compute. reflexivity.
Qed.

(** A ledger that cannot be read counts as one without the command: after a
    crash that loses the outcome the command is executed again. *)
Lemma unreadable_ledger_executes_twice :
  exists w, reaches (X:=string) demo_payloads false (started 1 (demo_queue [demo_steer "a" 5]) ∅) w /\ w_ran w = ["a"; "a"]%string.
Proof.
  set (s := demo_queue [demo_steer "a" 5]). set (storm := mk_oracle (fun _ => false) true 100).
  set (w1 := schedule (X:=string) demo_payloads (replicate 5 (0, clear_sky)) (started 1 s ∅)).
  exists (schedule (X:=string) demo_payloads (replicate 5 (0, storm)) (mk_world s (w_ledger w1) (w_ran w1) (const PC_Idle <$> w_drains w1))). split.
  - etrans; [by apply (schedule_reaches demo_payloads false (replicate 5 (0, clear_sky)))|].
    etrans; [apply rtc_once, (step_crash demo_payloads false w1 s)|]. by apply schedule_reaches.
  - vm_compute. reflexivity.
Qed.

(** The newer steer supersedes the older one only while it is pending: queued
    before it in the document, it runs first, and the older one after it. *)
Lemma older_steer_runs_after_newer :
  w_ran (schedule (X:=string) demo_payloads (replicate 12 (0, clear_sky)) (started 1 (demo_queue [demo_steer "new" 8; demo_steer "old" 5]) ∅))
  = ["new"; "old"]%string.
Proof. vm_compute. reflexivity. Qed.
