(* ===== verification/RunJournal.v ===== *)
(** The event journal of a run, [crates/engine/src/run_journal.rs]: one
    append-only file of JSON lines per chat, written as a run streams, torn by
    crashes, replayed to subscribers and scanned at boot.

    The disk is a map from file stems to bytes.  The line codec (serde) is a
    parameter; a write may stop after any number of bytes. *)
From Stdlib Require Import ZArith Lia Ascii String.
From stdpp Require Import base tactics numbers list strings pretty gmap.
From S2P Require Import Prelude Json Text Utf8 Proto.
Open Scope keel_scope.

(** * The store *)

Inductive JournalError := JE_Io | JE_Json.
Record ChatJournal := mk_journal { cj_next_seq : Z; cj_needs_newline : bool }.
(** The journal files, the resume-budget files, and the open files. *)
Record RunJournal := mk_run_journal {
  rj_files : gmap string string;
  rj_resume : gmap string string;
  rj_open : gmap string ChatJournal;
}.
(** [RunJournal::open] on the disk as it is. *)
Definition journal_open (j : RunJournal) : RunJournal := mk_run_journal (rj_files j) (rj_resume j) ∅.

Definition safe_char (c : ascii) : bool :=
  let n := nat_of_ascii c in
  (48 <=? n) && (n <=? 57) || (65 <=? n) && (n <=? 90) || (97 <=? n) && (n <=? 122) || (n =? 45) || (n =? 95).
(** One [_] per unsafe character. *)
Definition sanitize_id (chat_id : string) : string :=
  concat_strings ((fun c => match c with String a EmptyString => if safe_char a then c else "_"%string | _ => "_"%string end) <$> chars chat_id).

(** The outcome of the file system: whether a file opens, whether it reads,
    and after how many bytes a write stops. *)
Record Io := mk_io { io_opens : bool; io_reads : bool; io_writes : option nat }.

(** [bytes.last()]. *)
Fixpoint last_byte (s : string) : option ascii :=
  match s with EmptyString => None | String c EmptyString => Some c | String _ s => last_byte s end.

Definition nl : string := String newline EmptyString.

Section journal.
Context (to_line : Z -> AgentEvent -> option string) (of_line : string -> option (Z * AgentEvent)).

(** [BufRead::lines]: a line that is not UTF-8 is an error; a malformed one is
    skipped. *)
Definition parse_journal (ls : list string) : list (Z * AgentEvent) :=
  omap of_line (base.filter (fun l => trim l <> EmptyString) ls).
Definition read_lines (io : Io) (content : option string) : result (list (Z * AgentEvent)) JournalError :=
  match content with
  | None => Ok []
  | Some bytes =>
      if io_reads io && forallb (fun l => bool_decide (valid_up_to l = String.length l)) (lines bytes)
      then Ok (parse_journal (lines bytes)) else Err JE_Io
  end.
Definition ends_mid_line (bytes : string) : bool := match last_byte bytes with Some c => negb (bool_decide (c = newline)) | None => false end.
Definition scan_tail (io : Io) (content : option string) : result (Z * bool) JournalError :=
  match content with
  | None => Ok (1%Z, false)
  | Some bytes =>
      if io_reads io then
        let? l := read_lines io content in
        Ok (match last l with Some (seq, _) => (seq + 1)%Z | None => 1%Z end, ends_mid_line bytes)
      else Err JE_Io
  end.

Definition OPEN_FILE_CAP : nat := 16.
Definition write_file (stem bytes : string) (j : RunJournal) : RunJournal :=
  mk_run_journal (<[stem := default EmptyString (rj_files j !! stem) +:+ bytes]> (rj_files j)) (rj_resume j) (rj_open j).
Definition set_open (f : gmap string ChatJournal -> gmap string ChatJournal) (j : RunJournal) : RunJournal :=
  mk_run_journal (rj_files j) (rj_resume j) (f (rj_open j)).

(** The entry of the chat, opened when it is not. *)
Definition ensure_open (io : Io) (chat_id : string) (j : RunJournal) : RunJournal * result ChatJournal JournalError :=
  match rj_open j !! chat_id with
  | Some cj => (j, Ok cj)
  | None =>
      let j := if OPEN_FILE_CAP <=? size (rj_open j) then set_open (fun _ => ∅) j else j in
      match scan_tail io (rj_files j !! sanitize_id chat_id) with
      | Err e => (j, Err e)
      | Ok (next_seq, needs_newline) =>
          if io_opens io then
            let cj := mk_journal next_seq needs_newline in
            (set_open (insert chat_id cj) (write_file (sanitize_id chat_id) EmptyString j), Ok cj)
          else (j, Err JE_Io)
      end
  end.
Definition line_bytes (cj : ChatJournal) (line : string) : string :=
  (if cj_needs_newline cj then nl else EmptyString) +:+ line +:+ nl.
Definition append (io : Io) (chat_id : string) (event : AgentEvent) (j : RunJournal) : RunJournal * result Z JournalError :=
  match ensure_open io chat_id j with
  | (j, Err e) => (j, Err e)
  | (j, Ok cj) =>
      let seq := cj_next_seq cj in
      match to_line seq event with
      | None => (j, Err JE_Json)
      | Some line =>
          let buf := line_bytes cj line in
          match io_writes io with
          | Some n => (write_file (sanitize_id chat_id) (str_take n buf) j, Err JE_Io)
          | None => (set_open (insert chat_id (mk_journal (seq + 1) false)) (write_file (sanitize_id chat_id) buf j), Ok seq)
          end
      end
  end.

Definition replay (io : Io) (chat_id : string) (after_seq : Z) (j : RunJournal) : result (list (Z * AgentEvent)) JournalError :=
  let? all := read_lines io (rj_files j !! sanitize_id chat_id) in
  let last_seq := match last all with Some (seq, _) => seq | None => 0%Z end in
  let from := if (last_seq <? after_seq)%Z then 0%Z else after_seq in
  Ok (base.filter (fun e => (from < e.1)%Z) all).
Definition last_event (io : Io) (chat_id : string) (j : RunJournal) : result (option (Z * AgentEvent)) JournalError :=
  let? all := read_lines io (rj_files j !! sanitize_id chat_id) in Ok (last all).

Definition is_done (e : AgentEvent) : bool := match e with AE_Done _ _ _ _ => true | _ => false end.
(** The scan of one file. *)
Definition is_stale (io : Io) (content : string) : result bool JournalError :=
  let? all := read_lines io (Some content) in
  Ok (match last all with Some (_, e) => negb (is_done e) | None => false end).
(** The stale stems, sorted; one unreadable file fails the whole scan. *)
Definition stale_sessions (io : Io) (j : RunJournal) : result (list string) JournalError :=
  let? stale := try_fold (fun acc (f : string * string) => let? b := is_stale io f.2 in Ok (if (b : bool) then acc ++ [f.1] else acc)) [] (map_to_list (rj_files j)) in
  Ok (sort_by string_leb stale).

Definition discard (chat_id : string) (j : RunJournal) : RunJournal :=
  mk_run_journal (delete (sanitize_id chat_id) (rj_files j)) (rj_resume j) (delete chat_id (rj_open j)).

(** ** The resume budget *)

(** [u32::from_str]. *)
Context (parse_u32 : string -> option Z).
Definition resume_attempts (chat_id : string) (j : RunJournal) : Z :=
  default 0%Z (s ← rj_resume j !! sanitize_id chat_id; parse_u32 (trim s)).
Definition note_resume_attempt (chat_id : string) (writes : bool) (j : RunJournal) : RunJournal * Z :=
  let next := u32_add (resume_attempts chat_id j) 1 in
  (if writes then mk_run_journal (rj_files j) (<[sanitize_id chat_id := pretty next]> (rj_resume j)) (rj_open j) else j, next).
Definition clear_resume_attempts (chat_id : string) (j : RunJournal) : RunJournal :=
  mk_run_journal (rj_files j) (delete (sanitize_id chat_id) (rj_resume j)) (rj_open j).
End journal.

(** * Files of lines *)

(** No newline and no carriage return. *)
Fixpoint plain (s : string) : bool :=
  match s with EmptyString => true | String c s => negb (bool_decide (c = newline)) && negb (bool_decide (c = carriage_return)) && plain s end.
Definition file (ls : list string) (tail : string) : string := concat_strings ((fun l => l +:+ nl) <$> ls) +:+ tail.
Definition tail_line (tail : string) : list string := if decide (tail = EmptyString) then [] else [tail].

Lemma string_rev_app_app s t acc : string_rev_app (s +:+ t) acc = string_rev_app t (string_rev_app s acc).
Proof. revert acc. induction s as [|c s IH]; intros acc; [done|]. apply IH. Qed.
Lemma string_rev_app_acc s acc : string_rev_app s acc = string_rev_app s EmptyString +:+ acc.
Proof.
  revert acc. induction s as [|c s IH]; intros acc; [done|]. cbn [string_rev_app]. rewrite (IH (String c acc)), (IH (String c EmptyString)).
  by rewrite <- str_app_assoc.
Qed.
Lemma string_rev_app_inv s acc : string_rev_app (string_rev_app s acc) EmptyString = string_rev_app acc s.
Proof. revert acc. induction s as [|c s IH]; intros acc; [done|]. cbn [string_rev_app]. by rewrite IH. Qed.

Lemma lines_aux_plain l cur rest : plain l = true -> lines_aux cur (l +:+ rest) = lines_aux (string_rev_app l cur) rest.
Proof.
  revert cur. induction l as [|c l IH]; intros cur Hp; [done|]. cbn [plain] in Hp. rewrite !andb_true_iff, !negb_true_iff, !bool_decide_eq_false in Hp.
  destruct Hp as [[Hc _] Hp]. rewrite str_app_cons. cbn [lines_aux string_rev_app]. destruct (ascii_dec c newline); [done|]. by apply IH.
Qed.
Lemma plain_no_cr l : plain l = true -> strip_cr_rev (string_rev_app l EmptyString) = string_rev_app l EmptyString.
Proof.
  intros Hp. enough (forall acc, (forall c s, acc = String c s -> c <> carriage_return) -> strip_cr_rev (string_rev_app l acc) = string_rev_app l acc) as Hall by by apply Hall.
  induction l as [|c l IH]; intros acc Hacc.
  - cbn. destruct acc as [|c s]; [done|]. cbn. destruct (ascii_dec c carriage_return); [by destruct (Hacc c s)|done].
  - cbn [plain] in Hp. rewrite !andb_true_iff, !negb_true_iff, !bool_decide_eq_false in Hp. destruct Hp as [[_ Hc] Hp].
    cbn [string_rev_app]. apply IH; [done|]. by intros ? ? [= <- _].
Qed.
Lemma lines_cons l rest : plain l = true -> lines (l +:+ String newline rest) = l :: lines rest.
Proof.
  intros Hp. unfold lines. rewrite lines_aux_plain by done. cbn [lines_aux]. destruct (ascii_dec newline newline); [|done].
  rewrite plain_no_cr by done. by rewrite string_rev_app_inv.
Qed.
Lemma lines_tail l : plain l = true -> lines l = tail_line l.
Proof.
  intros Hp. unfold lines, tail_line. rewrite <- (str_app_nil_r l) at 1. rewrite lines_aux_plain by done. cbn [lines_aux].
  destruct (decide (l = EmptyString)) as [->|Hne]; [done|]. pose proof (string_rev_app_inv l EmptyString) as H.
  destruct (string_rev_app l EmptyString) as [|c s]; [by cbn in H; subst|]. cbn in H |- *. by rewrite H.
Qed.
Lemma lines_file ls tail : Forall (fun l => plain l = true) ls -> plain tail = true -> lines (file ls tail) = ls ++ tail_line tail.
Proof.
  intros Hls Ht. unfold file. induction Hls as [|l ls Hl Hls IH]; [by apply lines_tail|].
  cbn [fmap list_fmap concat_strings]. rewrite <- !str_app_assoc. unfold nl at 1. rewrite str_app_cons, str_app_nil_l, lines_cons by done. cbn. by f_equal.
Qed.

Lemma last_byte_app s t : t <> EmptyString -> last_byte (s +:+ t) = last_byte t.
Proof.
  intros Ht. induction s as [|c s IH]; [done|]. rewrite str_app_cons. cbn [last_byte].
  destruct (s +:+ t) as [|c' s'] eqn:E; [|by rewrite <- IH]. exfalso. destruct s; [by rewrite str_app_nil_l in E|by rewrite str_app_cons in E].
Qed.
Lemma last_byte_plain l : plain l = true -> l <> EmptyString -> exists c, last_byte l = Some c /\ c <> newline.
Proof.
  induction l as [|c l IH]; [done|]. cbn [plain]. rewrite !andb_true_iff, !negb_true_iff, !bool_decide_eq_false. intros [[Hc _] Hp] _.
  destruct l as [|c' l]; [by exists c|]. cbn [last_byte] in *. by apply IH.
Qed.
Lemma ends_mid_line_file ls tail : plain tail = true -> ends_mid_line (file ls tail) = negb (bool_decide (tail = EmptyString)).
Proof.
  intros Hp. unfold ends_mid_line, file. destruct (decide (tail = EmptyString)) as [->|Hne].
  - rewrite str_app_nil_r. destruct ls as [|l ls] using rev_ind; [done|]. rewrite fmap_app. cbn [fmap list_fmap]. rewrite concat_strings_snoc.
    rewrite last_byte_app by (by destruct l). by rewrite last_byte_app.
  - rewrite last_byte_app by done. destruct (last_byte_plain _ Hp Hne) as (c & -> & Hc). by rewrite !bool_decide_eq_false_2.
Qed.

(** * The journal keeps what was written *)

Section durable.
Context (to_line : Z -> AgentEvent -> option string) (of_line : string -> option (Z * AgentEvent)).

(** A line of the codec: it reads back, it is one line of text, and no proper
    prefix of it reads as an event. *)
Record good_line (seq : Z) (event : AgentEvent) (l : string) : Prop := {
  gl_line : to_line seq event = Some l;
  gl_reads : of_line l = Some (seq, event);
  gl_utf8 : is_utf8 l;
  gl_plain : plain l = true;
  gl_text : trim l <> EmptyString;
  gl_prefix n : n < String.length l -> of_line (str_take n l) = None;
}.
Definition encodes (event : AgentEvent) : Prop := forall seq, (0 < seq)%Z -> exists l, good_line seq event l.

Abbreviation parse := (parse_journal of_line).
Definition good_text (l : string) : Prop := plain l = true /\ is_utf8 l.
(** The bytes of a file that holds the events. *)
Definition holds (content : string) (evs : list (Z * AgentEvent)) : Prop :=
  exists ls tail, content = file ls tail /\ Forall good_text ls /\ good_text tail /\ parse (ls ++ tail_line tail) = evs.
Definition numbered (events : list AgentEvent) : list (Z * AgentEvent) := imap (fun i e => (Z.of_nat (S i), e)) events.

Lemma parse_app l1 l2 : parse (l1 ++ l2) = parse l1 ++ parse l2.
Proof. unfold parse_journal. by rewrite filter_app, omap_app. Qed.
Lemma numbered_snoc events e : numbered (events ++ [e]) = numbered events ++ [(Z.of_nat (S (length events)), e)].
Proof. unfold numbered. rewrite imap_app. cbn. by rewrite Nat.add_0_r. Qed.
Lemma last_numbered events : match last (numbered events) with Some (seq, _) => (seq + 1)%Z | None => 1%Z end = Z.of_nat (S (length events)).
Proof.
  destruct events as [|e events _] using rev_ind; [done|]. rewrite numbered_snoc, last_snoc, length_app. cbn. lia.
Qed.

Lemma holds_empty : holds EmptyString [].
Proof. exists [], EmptyString. by split_and!. Qed.
Lemma holds_lines content evs : holds content evs -> Forall is_utf8 (lines content) /\ parse (lines content) = evs.
Proof.
  intros (ls & tail & -> & Hls & [Hp Hu] & He). rewrite lines_file; [|by eapply Forall_impl; [exact Hls|intros ? [? _]]|done].
  split; [|done]. apply Forall_app. split; [by eapply Forall_impl; [exact Hls|intros ? [_ ?]]|].
  unfold tail_line. destruct (decide (tail = EmptyString)); by repeat constructor.
Qed.
Lemma holds_reads io content evs : io_reads io = true -> holds content evs -> read_lines of_line io (Some content) = Ok evs.
Proof.
  intros Hio [Hu He]%holds_lines. unfold read_lines. rewrite Hio. cbn [andb]. rewrite (proj2 (forallb_forall _ _)); [by rewrite He|].
  intros l Hl. apply bool_decide_eq_true. apply list_elem_of_In in Hl. by apply (proj1 (Forall_forall _ _) Hu).
Qed.
Lemma holds_tail io content events : io_reads io = true -> holds content (numbered events) ->
  scan_tail of_line io (Some content) = Ok (Z.of_nat (S (length events)), ends_mid_line content).
Proof.
  intros Hio Hh. unfold scan_tail. rewrite Hio. rewrite (holds_reads io content _ Hio Hh). cbn [result_bind]. by rewrite last_numbered.
Qed.

Lemma parse_good l seq event : good_line seq event l -> parse [l] = [(seq, event)].
Proof.
  intros [_ Hr _ _ Ht _]. unfold parse_journal. rewrite filter_cons_True by done. cbn. by rewrite Hr.
Qed.
Lemma parse_torn l seq event n : good_line seq event l -> n < String.length l -> parse (tail_line (str_take n l)) = [].
Proof.
  intros Hl Hn. unfold tail_line. destruct (decide (str_take n l = EmptyString)); [done|]. unfold parse_journal.
  rewrite filter_cons. destruct (decide _); [|done]. cbn. by rewrite (gl_prefix _ _ _ Hl).
Qed.
Lemma plain_take n l : plain l = true -> plain (str_take n l) = true.
Proof.
  revert n. induction l as [|c l IH]; intros n Hp; [by destruct n|]. destruct n as [|n]; [done|]. cbn in *.
  apply andb_true_iff in Hp as [Hc Hp]. by rewrite Hc, IH.
Qed.
Lemma utf8_empty : is_utf8 EmptyString.
Proof. done. Qed.

Lemma file_end ls tail : file (ls ++ [tail]) EmptyString = file ls tail +:+ nl.
Proof. unfold file. rewrite fmap_app. cbn [fmap list_fmap]. by rewrite concat_strings_snoc, str_app_nil_r, str_app_assoc. Qed.
Lemma file_more ls a b : file ls (a +:+ b) = file ls a +:+ b.
Proof. unfold file. by rewrite str_app_assoc. Qed.

(** What a write leaves, after the fresh line was started. *)
Lemma holds_line ls event l n :
  Forall good_text ls -> good_line (Z.of_nat (S (length (parse ls)))) event l -> is_utf8 (str_take n (l +:+ nl)) ->
  forall seqs, parse ls = seqs ->
  holds (file ls EmptyString +:+ str_take n (l +:+ nl))
    (if String.length l <=? n then seqs ++ [(Z.of_nat (S (length seqs)), event)] else seqs).
Proof.
  intros Hls Hl Hu seqs <-. rewrite <- file_more, str_app_nil_l. destruct (String.length l <=? n) eqn:E.
  - apply Nat.leb_le in E. destruct (decide (n = String.length l)) as [->|Hne].
    + rewrite str_take_length_app in Hu |- * by lia. rewrite str_take_all in *. exists ls, l. split_and!; [done|done|by split; [apply Hl|]|].
      rewrite parse_app. f_equal. unfold tail_line. destruct (decide (l = EmptyString)) as [->|]; [by destruct (gl_text _ _ _ Hl)|]. by apply parse_good.
    + assert (Hall : str_take n (l +:+ nl) = l +:+ nl).
      { replace n with (String.length l + S (n - S (String.length l))) by lia. rewrite str_take_add. rewrite str_drop_app. rewrite str_take_length_app, str_take_all by lia. cbn. by destruct (n - S (String.length l)). }
      rewrite Hall, file_more, <- file_end. exists (ls ++ [l]), EmptyString. split_and!; [done| |done|].
      * apply Forall_app. split; [done|]. repeat constructor; apply Hl.
      * cbn. rewrite app_nil_r, parse_app. f_equal. by apply parse_good.
  - apply Nat.leb_gt in E. rewrite str_take_length_app in Hu |- * by lia. exists ls, (str_take n l). split_and!; [done|done|split; [apply plain_take, Hl|done]|].
    rewrite parse_app. by rewrite (parse_torn l _ _ n Hl E), app_nil_r.
Qed.

(** ** Appends, crashes and restarts *)

Definition content_of (chat_id : string) (j : RunJournal) : string := default EmptyString (rj_files j !! sanitize_id chat_id).
(** The file of the chat holds the events, and an open entry knows its end. *)
Definition journals (chat_id : string) (events : list AgentEvent) (j : RunJournal) : Prop :=
  holds (content_of chat_id j) (numbered events)
  /\ forall cj, rj_open j !! chat_id = Some cj -> cj = mk_journal (Z.of_nat (S (length events))) (ends_mid_line (content_of chat_id j)).

Definition steady : Io := mk_io true true None.
Inductive JournalOp :=
| JO_Append (chat_id : string) (event : AgentEvent)
| JO_Crash (chat_id : string) (event : AgentEvent) (written : nat)  (* the process dies inside the write *)
| JO_Restart.
Definition run_op (o : JournalOp) (j : RunJournal) : RunJournal :=
  match o with
  | JO_Append chat_id event => (append to_line of_line steady chat_id event j).1
  | JO_Crash chat_id event written => journal_open (append to_line of_line (mk_io true true (Some written)) chat_id event j).1
  | JO_Restart => journal_open j
  end.
(** The bytes an append writes. *)
Definition pending_bytes (chat_id : string) (event : AgentEvent) (j : RunJournal) : string :=
  match (ensure_open of_line steady chat_id j).2 with
  | Ok cj => match to_line (cj_next_seq cj) event with Some line => line_bytes cj line | None => EmptyString end
  | Err _ => EmptyString
  end.
(** The events of a chat that were written whole, but for the last newline. *)
Definition run_log (c : string) (o : JournalOp) (j : RunJournal) : list AgentEvent :=
  match o with
  | JO_Append chat_id event => if decide (chat_id = c) then [event] else []
  | JO_Crash chat_id event written =>
      if decide (chat_id = c) then (if String.length (pending_bytes c event j) <=? S written then [event] else []) else []
  | JO_Restart => []
  end.
Fixpoint run_ops (os : list JournalOp) (j : RunJournal) : RunJournal :=
  match os with [] => j | o :: os => run_ops os (run_op o j) end.
Fixpoint history (c : string) (os : list JournalOp) (j : RunJournal) : list AgentEvent :=
  match os with [] => [] | o :: os => run_log c o j ++ history c os (run_op o j) end.

(** Writes tear between characters, and other chats have other files. *)
Definition op_fair (c : string) (o : JournalOp) (j : RunJournal) : Prop :=
  match o with
  | JO_Append chat_id event => encodes event /\ (sanitize_id chat_id = sanitize_id c -> chat_id = c)
  | JO_Crash chat_id event written =>
      encodes event /\ (sanitize_id chat_id = sanitize_id c -> chat_id = c) /\ is_utf8 (str_take written (pending_bytes chat_id event j))
  | JO_Restart => True
  end.
Fixpoint ops_fair (c : string) (os : list JournalOp) (j : RunJournal) : Prop :=
  match os with [] => True | o :: os => op_fair c o j /\ ops_fair c os (run_op o j) end.

Lemma journals_restart c events j : journals c events j -> journals c events (journal_open j).
Proof. intros [Hh _]. split; [done|]. intros cj. cbn. by rewrite lookup_empty. Qed.

Lemma ensure_open_ok io c events j :
  io_reads io = true -> io_opens io = true -> journals c events j ->
  exists j', ensure_open of_line io c j = (j', Ok (mk_journal (Z.of_nat (S (length events))) (ends_mid_line (content_of c j))))
    /\ content_of c j' = content_of c j /\ journals c events j'.
Proof.
  intros Hr Ho Hj. pose proof Hj as [Hh Hopen]. unfold ensure_open. destruct (rj_open j !! c) as [cj|] eqn:E.
  { rewrite (Hopen cj eq_refl). by exists j. }
  set (j1 := if OPEN_FILE_CAP <=? size (rj_open j) then set_open (fun _ => ∅) j else j).
  assert (Hf : rj_files j1 = rj_files j) by (subst j1; by destruct (_ <=? _)). rewrite Hf.
  assert (Hs : scan_tail of_line io (rj_files j !! sanitize_id c) = Ok (Z.of_nat (S (length events)), ends_mid_line (content_of c j))).
  { unfold content_of in *. destruct (rj_files j !! sanitize_id c) as [bytes|]; [by apply holds_tail|]. cbn in *.
    destruct (holds_lines _ _ Hh) as [_ He]. by destruct events. }
  rewrite Hs, Ho. eexists. split; [done|].
  assert (Hc : content_of c (set_open (insert c (mk_journal (Z.of_nat (S (length events))) (ends_mid_line (content_of c j)))) (write_file (sanitize_id c) EmptyString j1)) = content_of c j).
  { unfold content_of. cbn. rewrite lookup_insert_eq, Hf. cbn. apply str_app_nil_r. }
  split; [exact Hc|]. split; [by rewrite Hc|]. intros cj. rewrite Hc. cbn. rewrite lookup_insert_eq. by intros [= <-].
Qed.

Lemma leb_iff a b c d : (a <= b <-> c <= d) -> (a <=? b) = (c <=? d).
Proof. intros H. destruct (Nat.leb_spec a b), (Nat.leb_spec c d); lia || done. Qed.
Lemma write_holds content events event l n :
  holds content (numbered events) -> good_line (Z.of_nat (S (length events))) event l ->
  let buf := line_bytes (mk_journal (Z.of_nat (S (length events))) (ends_mid_line content)) l in
  is_utf8 (str_take n buf) ->
  holds (content +:+ str_take n buf) (numbered (events ++ if String.length buf <=? S n then [event] else [])).
Proof.
  intros Hh Hl. cbn zeta. assert (Hn : forall (b : bool), numbered (events ++ if b then [event] else []) = (if b then numbered events ++ [(Z.of_nat (S (length (numbered events))), event)] else numbered events)).
  { intros []; [|by rewrite app_nil_r]. rewrite numbered_snoc. unfold numbered. by rewrite length_imap. }
  rewrite Hn. destruct Hh as (ls & tail & -> & Hls & [Hp Hu] & He). rewrite ends_mid_line_file by done. unfold line_bytes. cbn [cj_needs_newline].
  assert (Hlen : length (numbered events) = length events) by (unfold numbered; by rewrite length_imap).
  destruct (decide (tail = EmptyString)) as [->|Hne].
  - rewrite bool_decide_eq_true_2 by done. cbn [negb]. rewrite str_app_nil_l. intros Hut. cbn in He. rewrite app_nil_r in He.
    rewrite (leb_iff _ (S n) (String.length l) n) by (rewrite str_length_app; cbn; lia).
    apply holds_line; [done|by rewrite He, Hlen|done|done].
  - rewrite bool_decide_eq_false_2 by done. cbn [negb]. intros Hut. unfold tail_line in He. rewrite decide_False in He by done.
    assert (Hls' : Forall good_text (ls ++ [tail])) by (apply Forall_app; split; [done|]; by repeat constructor).
    destruct n as [|k].
    + cbn [str_take]. rewrite str_app_nil_r.
      rewrite (proj2 (Nat.leb_gt _ _)) by (rewrite !str_length_app; cbn; lia).
      exists ls, tail. split_and!; [done|done|done|]. unfold tail_line. by rewrite decide_False.
    + change (nl +:+ (l +:+ nl)) with (String newline (l +:+ nl)) in Hut |- *. cbn [str_take] in Hut |- *.
      assert (Hk : is_utf8 (str_take k (l +:+ nl))).
      { pose proof (is_utf8_app nl (str_take k (l +:+ nl)) eq_refl) as H. change (nl +:+ str_take k (l +:+ nl)) with (String newline (str_take k (l +:+ nl))) in H.
        unfold is_utf8 in Hut |- *. rewrite H in Hut. change (String.length (String newline ?x)) with (S (String.length x)) in Hut. cbn [String.length nl] in Hut. lia. }
      assert (Hc : file ls tail +:+ String newline (str_take k (l +:+ nl)) = file (ls ++ [tail]) EmptyString +:+ str_take k (l +:+ nl)).
      { rewrite file_end, <- str_app_assoc. done. }
      rewrite Hc. rewrite (leb_iff _ (S (S k)) (String.length l) k) by (rewrite ?str_length_app; cbn; rewrite ?str_length_app; cbn; lia).
      apply holds_line; [done|by rewrite He, Hlen|done|done].
Qed.

Lemma ends_mid_line_nl content l : ends_mid_line (content +:+ l +:+ nl) = false.
Proof. unfold ends_mid_line. rewrite last_byte_app; [|by destruct l]. by rewrite last_byte_app. Qed.

(** An append on a journal of the chat, whole or stopped. *)
Lemma append_journals io c events event j :
  io_opens io = true -> io_reads io = true -> encodes event -> journals c events j ->
  is_utf8 (str_take (default (String.length (pending_bytes c event j)) (io_writes io)) (pending_bytes c event j)) ->
  let '(j', r) := append to_line of_line io c event j in
  match io_writes io with
  | None => r = Ok (Z.of_nat (S (length events))) /\ journals c (events ++ [event]) j'
  | Some n => journals c (events ++ if String.length (pending_bytes c event j) <=? S n then [event] else []) (journal_open j')
  end.
Proof.
  intros Ho Hr He Hj Hu. destruct (He (Z.of_nat (S (length events))) ltac:(lia)) as [l Hl].
  destruct (ensure_open_ok steady c events j eq_refl eq_refl Hj) as (j0 & E0 & _).
  assert (Hp : pending_bytes c event j = line_bytes (mk_journal (Z.of_nat (S (length events))) (ends_mid_line (content_of c j))) l).
  { unfold pending_bytes. rewrite E0. cbn. by rewrite (gl_line _ _ _ Hl). }
  rewrite Hp in Hu |- *. set (buf := line_bytes _ l) in *.
  destruct (ensure_open_ok io c events j Hr Ho Hj) as (j1 & E1 & Hc1 & [Hh1 _]). unfold append. rewrite E1. cbn [cj_next_seq]. rewrite (gl_line _ _ _ Hl). fold buf.
  assert (Hcont : forall b, content_of c (write_file (sanitize_id c) b j1) = content_of c j +:+ b).
  { intros b. unfold content_of at 1. cbn. rewrite lookup_insert_eq. cbn. by rewrite <- Hc1. }
  pose proof (fun n => write_holds (content_of c j) events event l n (proj1 Hj) Hl) as Hw. cbn zeta in Hw. fold buf in Hw.
  destruct (io_writes io) as [n|]; cbn [default from_option] in Hu.
  - split; [|intros cj; cbn; by rewrite lookup_empty]. specialize (Hw n Hu). unfold content_of, journal_open in *. cbn. rewrite lookup_insert_eq. cbn. by rewrite Hc1.
  - split; [done|]. specialize (Hw (String.length buf) Hu). rewrite str_take_all, (proj2 (Nat.leb_le _ _)) in Hw by lia.
    assert (Hc2 : content_of c (set_open (insert c (mk_journal (Z.of_nat (S (length events)) + 1) false)) (write_file (sanitize_id c) buf j1)) = content_of c j +:+ buf) by apply Hcont.
    split; [by rewrite Hc2|]. intros cj. rewrite Hc2. cbn. rewrite lookup_insert_eq. intros [= <-]. rewrite length_app. cbn. f_equal; [lia|].
    unfold buf, line_bytes. by rewrite (str_app_assoc (content_of c j)), ends_mid_line_nl.
Qed.

Lemma append_other io c c' event events j :
  sanitize_id c' <> sanitize_id c -> journals c events j -> journals c events (append to_line of_line io c' event j).1.
Proof.
  intros Hne Hj. assert (Hcc : c' <> c) by congruence.
  assert (Hfr : forall f j1, (forall cj, f !! c = Some cj -> rj_open j !! c = Some cj) -> rj_files j1 !! sanitize_id c = rj_files j !! sanitize_id c -> rj_open j1 = f -> journals c events j1).
  { intros f j1 Hop Hf <-. destruct Hj as [Hh Hopen]. unfold journals, content_of. rewrite Hf. split; [done|]. intros cj Hcj. apply Hopen, Hop, Hcj. }
  assert (He : exists j1 r, ensure_open of_line io c' j = (j1, r) /\ rj_files j1 !! sanitize_id c = rj_files j !! sanitize_id c /\ forall cj, rj_open j1 !! c = Some cj -> rj_open j !! c = Some cj).
  { unfold ensure_open. destruct (rj_open j !! c') as [cj|]; [by exists j, (Ok cj)|].
    set (j1 := if OPEN_FILE_CAP <=? size (rj_open j) then set_open (fun _ => ∅) j else j).
    assert (Hf : rj_files j1 = rj_files j) by (subst j1; by destruct (_ <=? _)).
    assert (Hop : forall cj, rj_open j1 !! c = Some cj -> rj_open j !! c = Some cj) by (subst j1; destruct (_ <=? _); [intros cj; cbn; by rewrite lookup_empty|done]).
    rewrite Hf. destruct (scan_tail _ _ _) as [[n b]|e]; [|exists j1, (Err e); split_and!; [done|by rewrite Hf|done]].
    destruct (io_opens io); eexists _, _; (split; [done|]); cbn; rewrite ?Hf, ?lookup_insert_ne by done; (split; [done|]); intros cj; rewrite ?lookup_insert_ne by done; apply Hop. }
  destruct He as (j1 & r & E & Hf & Hop). unfold append. rewrite E. destruct r as [cj|e]; [|by eapply Hfr].
  destruct (to_line _ _); [|by eapply Hfr]. destruct (io_writes io); cbn; (eapply Hfr; [..|done]); cbn; rewrite ?lookup_insert_ne by done; done.
Qed.

Lemma run_op_journals c events o j : journals c events j -> op_fair c o j -> journals c (events ++ run_log c o j) (run_op o j).
Proof.
  intros Hj Hf. destruct o as [c' event|c' event n|]; cbn [run_op run_log op_fair] in *.
  - destruct Hf as [He Hs]. destruct (decide (c' = c)) as [->|Hne].
    + pose proof (append_journals steady c events event j eq_refl eq_refl He Hj) as H. cbn [io_writes steady default] in H. rewrite str_take_all in H.
      destruct (append _ _ steady c event j) as [j' r]. apply H. unfold pending_bytes.
      destruct (ensure_open_ok steady c events j eq_refl eq_refl Hj) as (j0 & -> & _). cbn. destruct (He (Z.of_nat (S (length events))) ltac:(lia)) as [l Hl].
      rewrite (gl_line _ _ _ Hl). unfold line_bytes. cbn. destruct (ends_mid_line _); repeat apply is_utf8_concat; try apply Hl; done.
    + rewrite app_nil_r. apply append_other; [|done]. intros E. by apply Hne, Hs.
  - destruct Hf as (He & Hs & Hu). destruct (decide (c' = c)) as [->|Hne].
    + pose proof (append_journals (mk_io true true (Some n)) c events event j eq_refl eq_refl He Hj Hu) as H. cbn [io_writes] in H.
      by destruct (append _ _ _ c event j).
    + rewrite app_nil_r. apply journals_restart, append_other; [|done]. intros E. by apply Hne, Hs.
  - rewrite app_nil_r. by apply journals_restart.
Qed.

Lemma run_ops_journals c os : forall events j, journals c events j -> ops_fair c os j -> journals c (events ++ history c os j) (run_ops os j).
Proof.
  induction os as [|o os IH]; intros events j Hj Hf; [by rewrite app_nil_r|]. destruct Hf as [Ho Hf]. cbn [history run_ops]. rewrite app_assoc.
  apply IH; [|done]. by apply run_op_journals.
Qed.

Lemma filter_numbered events from : (0 <= from)%Z ->
  base.filter (fun e : Z * AgentEvent => (from < e.1)%Z) (numbered events) = drop (Z.to_nat from) (numbered events).
Proof.
  intros Hfrom. induction events as [|e events IH] using rev_ind; [cbn; by rewrite drop_nil|]. rewrite numbered_snoc, filter_app, IH.
  assert (Hl : length (numbered events) = length events) by (unfold numbered; apply length_imap).
  rewrite filter_cons, filter_nil. cbn [fst]. destruct (decide (from < Z.of_nat (S (length events)))%Z) as [Hlt|Hge].
  - by rewrite drop_app_le by (rewrite Hl; lia).
  - rewrite (drop_ge (numbered events)), drop_ge by (rewrite ?length_app; cbn; rewrite Hl; lia). done.
Qed.

(** C11. The journal of a chat survives crashes: after any appends, restarts and
    crashes that stop a write at any character, a replay gives the events whose
    lines were written, in order and numbered from one without a gap, from
    after the cursor (from the beginning for a cursor that is ahead), and the
    next append gets the next number. *)
Theorem journal_survives c os j0 (after : Z) event :
  rj_files j0 !! sanitize_id c = None -> rj_open j0 = ∅ -> ops_fair c os j0 -> (0 <= after)%Z -> encodes event ->
  let events := history c os j0 in
  let from := if decide (after <= Z.of_nat (length events))%Z then Z.to_nat after else 0 in
  replay of_line steady c after (run_ops os j0) = Ok (drop from (numbered events))
  /\ (append to_line of_line steady c event (run_ops os j0)).2 = Ok (Z.of_nat (S (length events))).
Proof.
  intros Hfile Hopen Hf Ha He events from.
  assert (Hj : journals c events (run_ops os j0)).
  { apply (run_ops_journals c os [] j0); [|done]. split; [unfold content_of; rewrite Hfile; apply holds_empty|]. intros cj. rewrite Hopen. by rewrite lookup_empty. }
  split.
  - unfold replay. assert (Hread : read_lines of_line steady (rj_files (run_ops os j0) !! sanitize_id c) = Ok (numbered events)).
    { destruct Hj as [Hh _]. unfold content_of in Hh. destruct (rj_files (run_ops os j0) !! sanitize_id c) as [bytes|]; [by apply holds_reads|].
      destruct (holds_lines _ _ Hh) as [_ E]. cbn in E. by rewrite <- E. }
    rewrite Hread. cbn [result_bind]. f_equal.
    assert (Hl : match last (numbered events) with Some (seq, _) => seq | None => 0%Z end = Z.of_nat (length events)).
    { destruct events as [|e evs _] using rev_ind; [done|]. rewrite numbered_snoc, last_snoc, length_app. cbn. lia. }
    rewrite Hl. subst from. destruct (decide (after <= Z.of_nat (length events))%Z) as [Hle|Hgt].
    + rewrite (proj2 (Z.ltb_ge _ _)) by lia. by apply filter_numbered.
    + rewrite (proj2 (Z.ltb_lt _ _)) by lia. by apply (filter_numbered events 0).
  - pose proof (append_journals steady c events event (run_ops os j0) eq_refl eq_refl He Hj) as H. cbn [io_writes steady default] in H. rewrite str_take_all in H.
    destruct (append _ _ steady c event (run_ops os j0)) as [j' r]. apply H. unfold pending_bytes.
    destruct (ensure_open_ok steady c events _ eq_refl eq_refl Hj) as (j1 & -> & _). cbn. destruct (He (Z.of_nat (S (length events))) ltac:(lia)) as [l Hl].
    rewrite (gl_line _ _ _ Hl). unfold line_bytes. cbn. destruct (ends_mid_line _); repeat apply is_utf8_concat; try apply Hl; done.
Qed.
End durable.

(** * A concrete codec *)

Lemma drop_ws_kept l g : g ∈ l -> char_is_whitespace g = false -> exists l1 l2, drop_ws l = l1 ++ g :: l2.
Proof.
  induction l as [|x l IH]; [by intros ?%elem_of_nil|]. cbn. intros [->|Hin]%elem_of_cons Hg; [rewrite Hg; by exists [], l|].
  destruct (char_is_whitespace x); [by apply IH|]. apply list_elem_of_split in Hin as (l1 & l2 & ->). by exists (x :: l1), l2.
Qed.
(** A line that starts with a visible character is not blank. *)
Lemma trim_visible c s : head_continuation s = false -> char_is_whitespace (String c EmptyString) = false -> trim (String c s) <> EmptyString.
Proof.
  intros Hs Hc. unfold trim, trim_start. rewrite chars_cons_lead by done. cbn [drop_ws]. rewrite Hc.
  rewrite <- (chars_cons_lead c s) by done. rewrite concat_chars. unfold trim_end. rewrite chars_cons_lead by done.
  destruct (drop_ws_kept (reverse (String c EmptyString :: chars s)) (String c EmptyString)) as (l1 & l2 & ->); [|done|].
  - rewrite elem_of_reverse. left.
  - rewrite reverse_app, reverse_cons, !concat_strings_app. cbn. by destruct (concat_strings (reverse l2)).
Qed.

(** The sequence number in unary, for events that carry nothing. *)
Definition demo_event : AgentEvent := AE_InputResolved "q".
Fixpoint tally (n : nat) : string := match n with O => "}" | S n => String "i" (tally n) end.
Fixpoint untally (s : string) : option nat :=
  match s with String "}" EmptyString => Some 0 | String "i" s => S <$> untally s | _ => None end.
Definition demo_to_line (seq : Z) (e : AgentEvent) : option string :=
  match e with AE_InputResolved _ => Some (String "{" (tally (Z.to_nat seq))) | AE_TextDelta t => Some t | _ => None end.
Definition demo_of_line (s : string) : option (Z * AgentEvent) :=
  match s with String "{" s => (fun n => (Z.of_nat n, demo_event)) <$> untally s | _ => None end.

Lemma untally_tally n : untally (tally n) = Some n.
Proof. induction n as [|n IH]; [done|]. cbn. by rewrite IH. Qed.
Lemma untally_torn k n : k < String.length (tally n) -> untally (str_take k (tally n)) = None.
Proof.
  revert k. induction n as [|n IH]; intros k Hk; destruct k as [|k]; [done|cbn in Hk; lia|done|]. cbn in Hk |- *. by rewrite IH by lia.
Qed.
Lemma is_utf8_cons c s : byte_in 0 127 c = true -> is_utf8 s -> is_utf8 (String c s).
Proof.
  intros Hc Hs. apply (is_utf8_concat (String c EmptyString) s); [|done]. unfold is_utf8, valid_up_to. cbn [valid_scan utf8_width String.length]. by rewrite Hc.
Qed.
Lemma demo_good seq : (0 < seq)%Z -> good_line demo_to_line demo_of_line seq demo_event (String "{" (tally (Z.to_nat seq))).
Proof.
  intros Hs. split.
  - done.
  - cbn. rewrite untally_tally. cbn. do 2 f_equal. lia.
  - apply is_utf8_cons; [done|]. induction (Z.to_nat seq) as [|n IH]; [done|]. by apply is_utf8_cons.
  - induction (Z.to_nat seq) as [|n IH]; done.
  - apply trim_visible; [|done]. by destruct (Z.to_nat seq).
  - intros k Hk. destruct k as [|k]; [done|]. cbn in Hk |- *. by rewrite untally_torn by lia.
Qed.
Lemma demo_encodes : encodes demo_to_line demo_of_line demo_event.
Proof. intros seq Hs. eexists. by apply demo_good. Qed.

Definition empty_journal : RunJournal := mk_run_journal ∅ ∅ ∅.
(** Two appends, a crash inside the third, a crash that loses only the last
    newline of the fourth, and two more. *)
Definition demo_journal_ops : list JournalOp :=
  [JO_Append "chat" demo_event; JO_Append "chat" demo_event; JO_Crash "chat" demo_event 2; JO_Append "other" demo_event;
   JO_Crash "chat" demo_event 7; JO_Append "chat" demo_event; JO_Restart; JO_Append "chat" demo_event].

Lemma journal_survives_witness :
  history demo_to_line demo_of_line "chat" demo_journal_ops empty_journal = replicate 5 demo_event
  /\ replay demo_of_line steady "chat" 3 (run_ops demo_to_line demo_of_line demo_journal_ops empty_journal) = Ok [(4%Z, demo_event); (5%Z, demo_event)].
Proof.
  assert (Hh : history demo_to_line demo_of_line "chat" demo_journal_ops empty_journal = replicate 5 demo_event) by (vm_compute; reflexivity).
  split; [exact Hh|].
  assert (Hf : ops_fair demo_to_line demo_of_line "chat" demo_journal_ops empty_journal).
  { repeat split; try exact demo_encodes; try (intros H; vm_compute in H; by simplify_eq); vm_compute; reflexivity. }
  pose proof (journal_survives demo_to_line demo_of_line "chat" demo_journal_ops empty_journal 3 demo_event eq_refl eq_refl Hf ltac:(lia) demo_encodes) as H.
  cbv zeta in H. rewrite Hh in H. exact (proj1 H).
Defined.

(** ** What is not survived *)

(** A write torn inside a character: no line of the chat can be read or written
    again, and the boot scan fails for every chat. *)
Definition e_acute : string := String (ascii_of_nat 195) (String (ascii_of_nat 169) EmptyString).
Lemma torn_character_blocks_the_journal :
  let crashed := run_ops demo_to_line demo_of_line
    [JO_Append "fine" demo_event; JO_Append "chat" demo_event; JO_Crash "chat" (AE_TextDelta e_acute) 1] empty_journal in
  replay demo_of_line steady "chat" 0 crashed = Err JE_Io
  /\ (append demo_to_line demo_of_line steady "chat" demo_event crashed).2 = Err JE_Io
  /\ stale_sessions demo_of_line steady crashed = Err JE_Io.
Proof. vm_compute. by repeat split. Qed.

(** A write that fails part-way while the process lives leaves its entry as it
    was: the next append is glued to the torn line and, although it succeeds,
    is never read. *)
Lemma failed_write_loses_the_next :
  let failed := (append demo_to_line demo_of_line (mk_io true true (Some 2)) "chat" demo_event empty_journal).1 in
  let '(j, r) := append demo_to_line demo_of_line steady "chat" demo_event failed in
  r = Ok 1%Z /\ replay demo_of_line steady "chat" 0 j = Ok [].
Proof. vm_compute. by split. Qed.
