(* ===== verification/ChatEngine.v ===== *)
(** The sessions engine of one chat, [crates/engine/src/sessions.rs], and the
    message writes of [crates/engine/src/doc_host.rs]: the live run's handle,
    the status row, the harness session to resume, and the operations commands
    perform on them.

    The journal and the workspace row of the chat are interfaces.  A clock is
    an argument, as are fresh ids; the titler and the turn listener, which are
    told of turns and answer nothing, are left out. *)
From Stdlib Require Import ZArith Lia Ascii String.
From stdpp Require Import base tactics numbers list strings pretty gmap.
From S2P Require Import Prelude Json Text Proto Parts TranscriptDelta SystemPrompt RegistryDoc SessionDoc Segment Commands RunJournal.
Open Scope keel_scope.

(** * What the engine calls *)

(** The journal of the chat; a failed append is logged. *)
Class RunLog (J : Type) := {
  log_append : AgentEvent -> J -> J;
  log_replay : J -> option (list AgentEvent);
  log_attempts : J -> Z;
  log_note_attempt : J -> J * Z;
  log_clear_attempts : J -> J;
}.
(** The workspace row of the chat. *)
Class ChatRow (W : Type) := {
  row_record_session : SessionRow -> W -> W;
  row_note_message : string -> W -> W;
  row_set_harness_session : string -> string -> W -> W;
  row_harness_session : W -> option (string * option string);
  row_set_config : ChatConfig -> W -> W;
}.

(** The journal of [crates/engine/src/run_journal.rs] is one. *)
#[export] Instance journal_run_log (to_line : Z -> AgentEvent -> option string) (of_line : string -> option (Z * AgentEvent))
    (parse_u32 : string -> option Z) (io : Io) (chat_id : string) : RunLog RunJournal := {
  log_append e j := (append to_line of_line io chat_id e j).1;
  log_replay j := match replay of_line io chat_id 0 j with Ok l => Some (snd <$> l) | Err _ => None end;
  log_attempts j := resume_attempts parse_u32 chat_id j;
  log_note_attempt j := note_resume_attempt parse_u32 chat_id true j;
  log_clear_attempts j := clear_resume_attempts chat_id j;
}.

(** * State *)

Record RoutedSteer := mk_routed { rs_prompt : string; rs_message_id : string }.
Record RunHandle := mk_handle {
  rh_run_id : string;
  rh_steerable : bool;
  rh_mailbox : list (string * option string);  (* the steering channel; closed with its receiver *)
  rh_mailbox_open : bool;
  rh_interrupted : bool;                       (* the harness token *)
  rh_cancelled : bool;                         (* the run task's cancel *)
  rh_events : list AgentEvent;                 (* the engine's own channel into the run *)
  rh_pending : list string;                    (* the request ids of the parked resolvers *)
}.
Record ChatEngine (D J W : Type) := mk_engine {
  eg_run : option RunHandle;
  eg_session : option SessionRow;
  eg_last_request : option RunRequest;
  eg_harness_session : option (string * string);
  eg_log : J;
  eg_row : option W;
  eg_doc : D;
  eg_routed : gmap string (list RoutedSteer);         (* the ledger of every run, shared with who accepted a steer *)
  eg_answers : list (string * list UserInputAnswer);  (* what parked questions were answered with *)
}.
Arguments mk_engine {D J W}.
Arguments eg_run {D J W}.
Arguments eg_session {D J W}.
Arguments eg_last_request {D J W}.
Arguments eg_harness_session {D J W}.
Arguments eg_log {D J W}.
Arguments eg_row {D J W}.
Arguments eg_doc {D J W}.
Arguments eg_routed {D J W}.
Arguments eg_answers {D J W}.

Definition with_pending (pending : list string) (h : RunHandle) : RunHandle :=
  mk_handle (rh_run_id h) (rh_steerable h) (rh_mailbox h) (rh_mailbox_open h) (rh_interrupted h) (rh_cancelled h) (rh_events h) pending.
Definition with_mailbox (mailbox : list (string * option string)) (h : RunHandle) : RunHandle :=
  mk_handle (rh_run_id h) (rh_steerable h) mailbox (rh_mailbox_open h) (rh_interrupted h) (rh_cancelled h) (rh_events h) (rh_pending h).
Definition with_events (events : list AgentEvent) (h : RunHandle) : RunHandle :=
  mk_handle (rh_run_id h) (rh_steerable h) (rh_mailbox h) (rh_mailbox_open h) (rh_interrupted h) (rh_cancelled h) events (rh_pending h).
Definition with_cancelled (h : RunHandle) : RunHandle :=
  mk_handle (rh_run_id h) (rh_steerable h) (rh_mailbox h) (rh_mailbox_open h) true true (rh_events h) (rh_pending h).
Definition with_token (h : RunHandle) : RunHandle :=
  mk_handle (rh_run_id h) (rh_steerable h) (rh_mailbox h) (rh_mailbox_open h) true (rh_cancelled h) (rh_events h) (rh_pending h).

Section engine.
Context {CD : Codecs} {D X J W : Type} {LD : Loro D X} {RL : RunLog J} {CR : ChatRow W}.
Context (chat_id device_id : string).
Abbreviation Engine := (ChatEngine D J W).
Implicit Types (g : Engine) (now : Z).

Definition with_run (f : option RunHandle) g : Engine :=
  mk_engine f (eg_session g) (eg_last_request g) (eg_harness_session g) (eg_log g) (eg_row g) (eg_doc g) (eg_routed g) (eg_answers g).
Definition on_handle (f : RunHandle -> RunHandle) g : Engine := with_run (f <$> eg_run g) g.
Definition with_session (s : option SessionRow) g : Engine :=
  mk_engine (eg_run g) s (eg_last_request g) (eg_harness_session g) (eg_log g) (eg_row g) (eg_doc g) (eg_routed g) (eg_answers g).
Definition with_last_request (r : RunRequest) g : Engine :=
  mk_engine (eg_run g) (eg_session g) (Some r) (eg_harness_session g) (eg_log g) (eg_row g) (eg_doc g) (eg_routed g) (eg_answers g).
Definition with_harness_session (hs : string * string) g : Engine :=
  mk_engine (eg_run g) (eg_session g) (eg_last_request g) (Some hs) (eg_log g) (eg_row g) (eg_doc g) (eg_routed g) (eg_answers g).
Definition on_log (f : J -> J) g : Engine :=
  mk_engine (eg_run g) (eg_session g) (eg_last_request g) (eg_harness_session g) (f (eg_log g)) (eg_row g) (eg_doc g) (eg_routed g) (eg_answers g).
Definition on_row (f : W -> W) g : Engine :=
  mk_engine (eg_run g) (eg_session g) (eg_last_request g) (eg_harness_session g) (eg_log g) (f <$> eg_row g) (eg_doc g) (eg_routed g) (eg_answers g).
Definition with_doc (d : D) g : Engine :=
  mk_engine (eg_run g) (eg_session g) (eg_last_request g) (eg_harness_session g) (eg_log g) (eg_row g) d (eg_routed g) (eg_answers g).
Definition answered (request_ids : list string) (answers : list UserInputAnswer) g : Engine :=
  mk_engine (eg_run g) (eg_session g) (eg_last_request g) (eg_harness_session g) (eg_log g) (eg_row g) (eg_doc g) (eg_routed g)
    (eg_answers g ++ ((fun id => (id, answers)) <$> request_ids)).

(** * Status *)

Definition record_session (s : SessionRow) g : Engine := on_row (row_record_session s) (with_session (Some s) g).
Definition is_active (s : SessionStatus) : bool := match s with Working | AwaitingInput => true | Idle | Errored => false end.
Definition set_status (status : SessionStatus) (fresh_start : bool) now g : Engine :=
  let entry := default (mk_session_row chat_id device_id status None now None) (eg_session g) in
  let was_active := is_active (sr_status entry) in
  let activity := match status with Idle | Errored => None | _ => sr_decision_activity entry end in
  let started := match status with
                 | Working => if fresh_start || negb was_active then Some now else sr_started_at entry
                 | AwaitingInput => sr_started_at entry
                 | Idle | Errored => None
                 end in
  record_session (mk_session_row (sr_chat_id entry) (sr_device_id entry) status started now activity) g.
Definition set_decision_activity (activity : option DecisionActivity) now g : Engine :=
  let entry := default (mk_session_row chat_id device_id Working (Some now) now None) (eg_session g) in
  let restart := bool_decide (is_Some activity) && match sr_status entry with Working => false | _ => true end in
  record_session (mk_session_row (sr_chat_id entry) (sr_device_id entry) (if restart then Working else sr_status entry)
    (if restart then Some now else sr_started_at entry) now activity) g.
Definition TOUCH_THROTTLE_MS : Z := 10000.
Definition touch_session now g : Engine :=
  match eg_session g with
  | None => g
  | Some entry =>
      if (now - sr_updated_at entry <? TOUCH_THROTTLE_MS)%Z then g
      else record_session (mk_session_row (sr_chat_id entry) (sr_device_id entry) (sr_status entry) (sr_started_at entry) now (sr_decision_activity entry)) g
  end.

(** * The journal and the workspace row *)

(** The broadcast to live subscribers is not a part of the state. *)
Definition publish (event : AgentEvent) g : Engine := on_log (log_append event) g.
Definition note_message (text : string) g : Engine := if decide (text = EmptyString) then g else on_row (row_note_message text) g.
Definition remember_harness_session (session_id cwd : string) g : Engine :=
  if decide (session_id = EmptyString) then g
  else on_row (row_set_harness_session session_id cwd) (with_harness_session (session_id, cwd) g).

Definition scan_session (st : string * option (string * string)) (event : AgentEvent) : string * option (string * string) :=
  let '(current_cwd, found) := st in
  match event with
  | AE_SessionStarted _ _ _ cwd session_id _ => (cwd, if decide (session_id = EmptyString) then found else Some (session_id, cwd))
  | AE_Done _ _ _ (Some session_id) => (current_cwd, if decide (session_id = EmptyString) then found else Some (session_id, current_cwd))
  | _ => (current_cwd, found)
  end.
Definition journal_harness_session g : option (string * string) :=
  match log_replay (eg_log g) with Some events => (foldl scan_session (EmptyString, None) events).2 | None => None end.

Definition cwd_ok (session_cwd cwd : string) : bool := bool_decide (session_cwd = EmptyString) || bool_decide (session_cwd = cwd).
Definition resumable (session_id session_cwd cwd : string) : option string :=
  if negb (bool_decide (session_id = EmptyString)) && cwd_ok session_cwd cwd then Some session_id else None.
Definition resume_for (cwd : string) g : Engine * option string :=
  match eg_harness_session g with
  | Some (session_id, session_cwd) => (g, resumable session_id session_cwd cwd)
  | None =>
      match eg_row g ≫= row_harness_session with
      | Some (session_id, session_cwd) => (g, resumable session_id (default EmptyString session_cwd) cwd)
      | None =>
          match journal_harness_session g with
          | None => (g, None)
          | Some (session_id, session_cwd) =>
              (remember_harness_session session_id session_cwd g, if cwd_ok session_cwd cwd then Some session_id else None)
          end
      end
  end.

(** * The live run *)

Definition is_live (run_id : string) g : bool :=
  match eg_run g with Some h => bool_decide (rh_run_id h = run_id) | None => false end.
Definition remove_run (run_id : string) g : Engine := if is_live run_id g then with_run None g else g.

Definition MAILBOX : nat := 32.
(** [try_send]. *)
Definition try_steer (message : string * option string) g : option Engine :=
  match eg_run g with
  | Some h =>
      if rh_steerable h && rh_mailbox_open h && (length (rh_mailbox h) <? MAILBOX)
      then Some (with_run (Some (with_mailbox (rh_mailbox h ++ [message]) h)) g) else None
  | None => None
  end.

Definition user_entry (message_id text : string) (at_ : Z) : SessionMessageEntry :=
  mk_entry message_id MR_User [MP_Text "t0" text] at_ device_id (Some MSt_Complete) None.
Definition write_once (e : SessionMessageEntry) g : Engine * result unit (DocError X) :=
  if existsb (fun e' => bool_decide (en_id e' = en_id e)) (read_entries (lr_view (eg_doc g))) then (g, Ok tt)
  else let '(d, r) := push_message e (eg_doc g) in (with_doc d g, r).
Definition write_user_message (message_id text : string) (at_ : Z) g : Engine * result unit (DocError X) :=
  write_once (user_entry message_id text at_) g.
Definition decision_entry (event : DecisionEvent) : SessionMessageEntry :=
  mk_entry ("decision-" +:+ de_id event) MR_System [MP_Decision "decision" event] (de_created_at event) device_id (Some MSt_Complete) None.
Definition write_decision_event (event : DecisionEvent) g : Engine * result unit (DocError X) := write_once (decision_entry (bounded event)) g.

(** The ledger of a run: accepted steers no boundary has confirmed. *)
Definition routed_of (run_id : string) g : list RoutedSteer := default [] (eg_routed g !! run_id).
Definition set_routed (run_id : string) (l : list RoutedSteer) g : Engine :=
  mk_engine (eg_run g) (eg_session g) (eg_last_request g) (eg_harness_session g) (eg_log g) (eg_row g) (eg_doc g)
    (<[run_id := l]> (eg_routed g)) (eg_answers g).
(** The entry taken back, unless the exit of the run claimed it. *)
Definition reclaim (run_id user_id : string) g : Engine * bool :=
  let kept := base.filter (fun s => rs_message_id s <> user_id) (routed_of run_id g) in
  (set_routed run_id kept g, negb (length kept =? length (routed_of run_id g))).

(** [meanwhile]: what other tasks did between the send and the last check. *)
Definition steer (prompt : string) (message_id : option string) (new_id : string) (meanwhile : Engine -> Engine) now g
  : Engine * result SteerOutcome (DocError X) :=
  match eg_run g with
  | None => (g, Ok SO_NotSteerable)
  | Some h =>
      match try_steer (prompt, message_id) g with
      | None => (g, Ok SO_NotSteerable)
      | Some g =>
          let user_id := default new_id message_id in
          let run_id := rh_run_id h in
          let g := set_routed run_id (routed_of run_id g ++ [mk_routed prompt user_id]) g in
          match write_user_message user_id prompt now g with
          | (g, Err e) => (g, Err e)
          | (g, Ok _) =>
              let g := meanwhile g in
              if is_live run_id g then (note_message prompt (set_status Working false now g), Ok SO_Accepted)
              else
                let '(g, reclaimed) := reclaim run_id user_id g in
                if reclaimed then (g, Ok SO_NotSteerable) else (note_message prompt g, Ok SO_Accepted)
          end
      end
  end.

(** The parked questions answered empty, and both cancellations; the bounded
    wait for the run to settle changes nothing itself. *)
Definition interrupt g : Engine * bool :=
  match eg_run g with
  | None => (g, false)
  | Some h => (with_run (Some (with_cancelled (with_pending [] h))) (answered (rh_pending h) [] g), true)
  end.

Definition respond_input (request_id : string) (answers : list UserInputAnswer) g : Engine * bool :=
  match eg_run g with
  | None => (g, false)
  | Some h =>
      if decide (request_id ∈ rh_pending h) then
        let h := with_events (rh_events h ++ [AE_InputResolved request_id]) (with_pending (base.filter (fun id => id <> request_id) (rh_pending h)) h) in
        (with_run (Some h) (answered [request_id] answers g), true)
      else (g, false)
  end.
(** The input bridge: the harness asks. *)
Definition request_input (request_id : string) (qs : list UserInputQuestion) g : Engine :=
  on_handle (fun h => with_events (rh_events h ++ [AE_InputRequested request_id qs]) (with_pending (rh_pending h ++ [request_id]) h)) g.

(** * Dispatch *)

(** The home directory of the host, ids, the clock, the registry (whether a
    harness exists, and takes steers), the decision backend, and what other
    tasks do while the operation waits. *)
Record DispatchEnv := mk_dispatch_env {
  dx_home : string;
  dx_message_id : string;
  dx_run_id : string;
  dx_now : Z;
  dx_resolve : HarnessId -> option bool;
  dx_route : RunRequest -> option (HarnessId * option string) * option DecisionEvent;
  dx_meanwhile : Engine -> Engine;
  dx_settle : Engine -> Engine;
}.
Definition expand_home (home cwd : string) : string :=
  match cwd with
  | String "~" EmptyString => home
  | String "~" (String "/" rest) => home +:+ "/" +:+ rest
  | _ => cwd
  end.
Definition set_cwd (cwd : string) (r : RunRequest) : RunRequest :=
  mk_run_request (rr_prompt r) (rr_harness r) (rr_model r) (rr_reasoning r) (rr_model_options r) cwd (rr_sandbox r) (rr_auto_approve r) (rr_resume r) (rr_attachments r).
Definition set_resume (resume : option string) (r : RunRequest) : RunRequest :=
  mk_run_request (rr_prompt r) (rr_harness r) (rr_model r) (rr_reasoning r) (rr_model_options r) (rr_cwd r) (rr_sandbox r) (rr_auto_approve r) resume (rr_attachments r).
Definition JEV_ROUTED : string := "jevRouted".
Definition routed_to (choice : HarnessId * option string) (r : RunRequest) : RunRequest :=
  mk_run_request (rr_prompt r) (Some choice.1) choice.2 (rr_reasoning r) [(JEV_ROUTED, Bool true)] (rr_cwd r) (rr_sandbox r) (rr_auto_approve r) (rr_resume r) (rr_attachments r).
Definition is_jev_routed (r : RunRequest) : bool := match assoc JEV_ROUTED (rr_model_options r) with Some (Bool true) => true | _ => false end.
(** The options the harness is given. *)
Definition host_option (kv : string * Value) : Prop := kv.1 = "jevAuto"%string \/ kv.1 = JEV_ROUTED.
#[export] Instance host_option_dec kv : Decision (host_option kv).
Proof. unfold host_option. apply _. Defined.
Definition provider_request (r : RunRequest) : RunRequest :=
  mk_run_request (rr_prompt r) (rr_harness r) (rr_model r) (rr_reasoning r) (base.filter (fun kv => ~ host_option kv) (rr_model_options r)) (rr_cwd r) (rr_sandbox r)
    (rr_auto_approve r) (rr_resume r) (rr_attachments r).

(** What the run task is started with. *)
Record RunStart := mk_start {
  rn_run_id : string; rn_harness : HarnessId; rn_request : RunRequest; rn_user_message_id : string; rn_resume_injected : bool; rn_startup_retry : bool
}.
Inductive DispatchError := DE_UnknownHarness | DE_Doc (e : DocError X).
Inductive Dispatched := DD_Routed (run_id : string) | DD_Started (start : RunStart).

(** A message sent into the live run; [None] when it has to be replaced. *)
Definition route_into (x : DispatchEnv) (request : RunRequest) (message_id : option string) (h : RunHandle) g
  : Engine * result (option string * option string) (DocError X) :=
  (* the run that takes the message, and the message id from here on *)
  match try_steer (rr_prompt request, message_id) g with
  | None => (g, Ok (None, message_id))
  | Some g =>
      let user_id := default (dx_message_id x) message_id in
      let run_id := rh_run_id h in
      let g := set_routed run_id (routed_of run_id g ++ [mk_routed (rr_prompt request) user_id]) g in
      match write_user_message user_id (rr_prompt request) (dx_now x) g with
      | (g, Err e) => (g, Err e)
      | (g, Ok _) =>
          let g := dx_meanwhile x g in
          if is_live run_id g then (note_message (rr_prompt request) (set_status Working false (dx_now x) g), Ok (Some run_id, message_id))
          else
            let '(g, reclaimed) := reclaim run_id user_id g in
            if reclaimed then (g, Ok (None, Some user_id)) else (note_message (rr_prompt request) g, Ok (Some run_id, message_id))
      end
  end.

(** The receipt of the route, after the message it routed. *)
Definition route_receipt now (user_at : Z) (e : DecisionEvent) : DecisionEvent :=
  let e := mk_decision_event (de_schema_version e) (de_id e) (de_task_revision e) (de_backend e) (de_stage e) (de_candidates e) (de_result e) (de_validation e)
             (de_confidence e) (de_selected_probability e) (de_fit e) (de_fallback e) (de_observed_outcome e) (Z.max now (i64_saturating_add user_at 1)) in
  match de_observed_outcome e with Some _ => e | None => with_observed_outcome "Selected coding route scheduled" e end.

(** A fresh run. *)
Definition start_run (x : DispatchEnv) (harness_id : HarnessId) (request : RunRequest) (message_id : option string) (startup_retry : bool) g
  : Engine * result Dispatched DispatchError :=
  let '(g, known) := match rr_resume request with
                     | Some r => (g, Some r)
                     | None => if startup_retry then (g, Some EmptyString) else resume_for (rr_cwd request) g
                     end in
  let '(choice, route_event) := match known with Some _ => (None, None) | None => dx_route x request end in
  let harness_id := match choice with Some c => c.1 | None => harness_id end in
  let request := match choice with Some c => routed_to c request | None => request end in
  match dx_resolve x harness_id with
  | None => (g, Err DE_UnknownHarness)
  | Some steerable =>
      let user_id := default (dx_message_id x) message_id in
      match write_user_message user_id (rr_prompt request) (dx_now x) g with
      | (g, Err e) => (g, Err (DE_Doc e))
      | (g, Ok _) =>
          let g := if is_jev_routed request
                   then on_row (row_set_config (mk_config harness_id (rr_model request) (rr_reasoning request) (rr_model_options request) (rr_sandbox request))) g
                   else g in
          let '(g, resume) := match rr_resume request with Some r => (g, Some r) | None => resume_for (rr_cwd request) g end in
          let resume_injected := negb (bool_decide (is_Some (rr_resume request))) && bool_decide (is_Some resume) in
          let request := set_resume resume request in
          let g := with_last_request request g in
          let g := with_run (Some (mk_handle (dx_run_id x) steerable [] true false false [] [])) g in
          let g := set_routed (dx_run_id x) [] g in
          let g := note_message (rr_prompt request) (set_status Working true (dx_now x) g) in
          let g := match route_event with Some e => (write_decision_event (route_receipt (dx_now x) (dx_now x) e) g).1 | None => g end in
          (g, Ok (DD_Started (mk_start (dx_run_id x) harness_id (provider_request request) user_id resume_injected startup_retry)))
      end
  end.

Definition dispatch_inner (x : DispatchEnv) (harness_id : HarnessId) (request : RunRequest) (message_id : option string) (startup_retry : bool) g
  : Engine * result Dispatched DispatchError :=
  let request := set_cwd (expand_home (dx_home x) (rr_cwd request)) request in
  match eg_run g with
  | None => start_run x harness_id request message_id startup_retry g
  | Some h =>
      match route_into x request message_id h g with
      | (g, Err e) => (g, Err (DE_Doc e))
      | (g, Ok (Some run_id, _)) => (g, Ok (DD_Routed run_id))
      | (g, Ok (None, message_id)) =>
          let '(g, _) := interrupt g in
          start_run x harness_id request message_id startup_retry (dx_settle x g)
      end
  end.

(** * Boot recovery *)

Definition MAX_AUTO_RESUME : Z := 3.
Definition RESUME_FRESH_MS : Z := 12 * 60 * 60 * 1000.
Definition RECOVERY_PART (entry_id : string) : string := entry_id +:+ "-recovery".
(** The entries this device left streaming, stamped and given an error part;
    the first failing stamp ends it. *)
Fixpoint abandon (note : string) (entries : list SessionMessageEntry) (d : D) : D * result (list string) (DocError X) :=
  match entries with
  | [] => (d, Ok [])
  | e :: entries =>
      if bool_decide (en_role e = MR_Assistant) && bool_decide (en_status e = Some MSt_Streaming) && bool_decide (en_device_id e = device_id) then
        match set_message_status (en_id e) MSt_Aborted d with
        | (d, Err x) => (d, Err x)
        | (d, Ok false) => abandon note entries d
        | (d, Ok true) =>
            let '(d, _) := append_error_part (X:=X) (en_id e) (RECOVERY_PART (en_id e)) note d in
            let '(d, r) := abandon note entries d in
            (d, let? l := r in Ok (en_id e :: l))
        end
      else abandon note entries d
  end.
Definition mark_abandoned_streams (note : string) (d : D) : D * result (list string) (DocError X) := abandon note (read_entries (lr_view d)) d.

(** The prompt of the last user message, to be run again. *)
Definition revival_prompt (entries : list SessionMessageEntry) : option (string * string) :=
  e ← List.find (fun e => bool_decide (en_role e = MR_User)) (rev entries);
  head (omap (fun p => match p with MP_Text _ text => Some (en_id e, text) | _ => None end) (en_parts e)).
Definition revival_fresh now (entries : list SessionMessageEntry) : bool :=
  match List.find (fun e => bool_decide (en_status e = Some MSt_Streaming)) (rev entries) with
  | Some e => (now - en_created_at e <? RESUME_FRESH_MS)%Z
  | None => false
  end.
Definition recovery_note (will_resume : bool) : string :=
  if will_resume then "Run interrupted by engine restart " +:+ em_dash +:+ " resuming" else "Run interrupted by engine restart".

(** The recovery of one stale chat: the prompt to run again, when it is. *)
Definition recover_chat now g : Engine * result (option (string * string)) (DocError X) :=
  let g := match journal_harness_session g with Some (session_id, cwd) => remember_harness_session session_id cwd g | None => g end in
  let entries := read_entries (lr_view (eg_doc g)) in
  let prompt := revival_prompt entries in
  let will_resume := revival_fresh now entries && bool_decide (is_Some prompt) && (log_attempts (eg_log g) <? MAX_AUTO_RESUME)%Z in
  let note := recovery_note will_resume in
  let g := publish (AE_Done DS_Interrupted None (Some note) None) g in
  let '(d, r) := mark_abandoned_streams note (eg_doc g) in
  let g := with_doc d g in
  match r with
  | Err e => (g, Err e)
  | Ok _ =>
      let g := set_status Idle false now g in
      if will_resume then (on_log (fun j => (log_note_attempt j).1) g, Ok prompt) else (g, Ok None)
  end.
End engine.
