(* ===== verification/RunDriver.v ===== *)
(** The run task, [drive_run] of [crates/engine/src/sessions.rs]: one loop that
    waits for the harness stream, the engine's own events, a cancellation and
    its timers, folds what it admits, streams the fold into the document, and
    parks a completed turn until it is resumed, reaped or replaced.

    Every arm of the [select!] is a wake; between two wakes other tasks change
    the engine's state.  The arms are tried in order, so a wake is taken only
    when it is enabled; which enabled wake comes first is left open. *)
From Stdlib Require Import ZArith Lia Ascii String.
From stdpp Require Import base tactics numbers list strings pretty gmap relations.
From S2P Require Import Prelude Json Text Proto Parts TranscriptDelta SystemPrompt RegistryDoc SessionDoc Segment Commands ChatEngine.
Open Scope keel_scope.

(** * State *)

Definition LIVE_PLAN_TOOL_ID : string := "acp-plan".
Definition STREAM_COMMIT_MS : Z := 120.
Definition SESSION_IDLE : Z := 30 * 60 * 1000.
Definition INTERRUPT_GRACE : Z := 3000.
Definition RESUME_GATE : Z := 1000.

(** What the loop was started with. *)
Record RunConfig := mk_run_config {
  rc_start : RunStart;
  rc_steerable : bool;
  rc_quiesce_after : option Z;
  rc_self_quiesce_after : option Z;
}.
(** [KEEL_TURN_QUIESCE_MS] and [KEEL_SELF_TURN_QUIESCE_MS], parsed. *)
Definition quiesce_knob (fallback : Z) (set : option Z) : option Z :=
  match set with Some 0%Z => None | Some ms => Some ms | None => Some fallback end.

(** What became of what the loop admitted. *)
Inductive Act :=
| A_Published (event : AgentEvent)
| A_Segment (entry_id : string) (folded : list MessagePart) (status : MessageStatus).
Record RunLoop := mk_loop {
  rd_folded : list MessagePart;
  rd_seen_tools : gset string;
  rd_entry_id : string;
  rd_segment_started : Z;
  rd_writer : option SegmentWriter;
  rd_dirty : bool;
  rd_flush_at : Z;
  rd_interrupt_deadline : option Z;
  rd_interrupted : bool;
  rd_saw_session_started : bool;
  rd_idle_since : option Z;
  rd_last_activity : Z;
  rd_self_continued : bool;
  rd_retry_left : bool;
  rd_history : list Act;  (* not a variable of the loop *)
}.
Definition loop_start (entry_id : string) (now t : Z) : RunLoop :=
  mk_loop [] ∅ entry_id now None false t None false false None t false true [].

Inductive StreamItem := SI_Event (e : AgentEvent) | SI_Error (message : string) | SI_End.
Inductive Wake := WK_Cancelled | WK_Deadline | WK_Heartbeat | WK_Reap | WK_Engine (e : AgentEvent) | WK_Stream (item : StreamItem) | WK_Flush | WK_Quiesce.
(** The monotonic clock, the wall clock, and the next fresh id. *)
Record Moment := mk_moment { mo_t : Z; mo_now : Z; mo_id : string }.

Inductive Next := NX_Continue | NX_Finish (status : SessionStatus) | NX_Retry.

(** * Updates *)

Definition set_folded (folded : list MessagePart) (r : RunLoop) : RunLoop :=
  mk_loop folded (rd_seen_tools r) (rd_entry_id r) (rd_segment_started r) (rd_writer r) (rd_dirty r) (rd_flush_at r) (rd_interrupt_deadline r)
    (rd_interrupted r) (rd_saw_session_started r) (rd_idle_since r) (rd_last_activity r) (rd_self_continued r) (rd_retry_left r) (rd_history r).
Definition set_seen (seen : gset string) (r : RunLoop) : RunLoop :=
  mk_loop (rd_folded r) seen (rd_entry_id r) (rd_segment_started r) (rd_writer r) (rd_dirty r) (rd_flush_at r) (rd_interrupt_deadline r)
    (rd_interrupted r) (rd_saw_session_started r) (rd_idle_since r) (rd_last_activity r) (rd_self_continued r) (rd_retry_left r) (rd_history r).
(** A new segment: the id and the time of its entry. *)
Definition rotate (entry_id : string) (now : Z) (r : RunLoop) : RunLoop :=
  mk_loop (rd_folded r) (rd_seen_tools r) entry_id now (rd_writer r) (rd_dirty r) (rd_flush_at r) (rd_interrupt_deadline r)
    (rd_interrupted r) (rd_saw_session_started r) (rd_idle_since r) (rd_last_activity r) (rd_self_continued r) (rd_retry_left r) (rd_history r).
Definition set_writer (w : option SegmentWriter) (r : RunLoop) : RunLoop :=
  mk_loop (rd_folded r) (rd_seen_tools r) (rd_entry_id r) (rd_segment_started r) w (rd_dirty r) (rd_flush_at r) (rd_interrupt_deadline r)
    (rd_interrupted r) (rd_saw_session_started r) (rd_idle_since r) (rd_last_activity r) (rd_self_continued r) (rd_retry_left r) (rd_history r).
Definition set_dirty (dirty : bool) (flush_at : Z) (r : RunLoop) : RunLoop :=
  mk_loop (rd_folded r) (rd_seen_tools r) (rd_entry_id r) (rd_segment_started r) (rd_writer r) dirty flush_at (rd_interrupt_deadline r)
    (rd_interrupted r) (rd_saw_session_started r) (rd_idle_since r) (rd_last_activity r) (rd_self_continued r) (rd_retry_left r) (rd_history r).
Definition set_interrupted (deadline : Z) (r : RunLoop) : RunLoop :=
  mk_loop (rd_folded r) (rd_seen_tools r) (rd_entry_id r) (rd_segment_started r) (rd_writer r) (rd_dirty r) (rd_flush_at r) (Some deadline)
    true (rd_saw_session_started r) (rd_idle_since r) (rd_last_activity r) (rd_self_continued r) (rd_retry_left r) (rd_history r).
Definition set_saw_started (r : RunLoop) : RunLoop :=
  mk_loop (rd_folded r) (rd_seen_tools r) (rd_entry_id r) (rd_segment_started r) (rd_writer r) (rd_dirty r) (rd_flush_at r) (rd_interrupt_deadline r)
    (rd_interrupted r) true (rd_idle_since r) (rd_last_activity r) (rd_self_continued r) (rd_retry_left r) (rd_history r).
Definition set_idle (idle : option Z) (r : RunLoop) : RunLoop :=
  mk_loop (rd_folded r) (rd_seen_tools r) (rd_entry_id r) (rd_segment_started r) (rd_writer r) (rd_dirty r) (rd_flush_at r) (rd_interrupt_deadline r)
    (rd_interrupted r) (rd_saw_session_started r) idle (rd_last_activity r) (rd_self_continued r) (rd_retry_left r) (rd_history r).
Definition set_activity (t : Z) (r : RunLoop) : RunLoop :=
  mk_loop (rd_folded r) (rd_seen_tools r) (rd_entry_id r) (rd_segment_started r) (rd_writer r) (rd_dirty r) (rd_flush_at r) (rd_interrupt_deadline r)
    (rd_interrupted r) (rd_saw_session_started r) (rd_idle_since r) t (rd_self_continued r) (rd_retry_left r) (rd_history r).
Definition set_self_continued (b : bool) (r : RunLoop) : RunLoop :=
  mk_loop (rd_folded r) (rd_seen_tools r) (rd_entry_id r) (rd_segment_started r) (rd_writer r) (rd_dirty r) (rd_flush_at r) (rd_interrupt_deadline r)
    (rd_interrupted r) (rd_saw_session_started r) (rd_idle_since r) (rd_last_activity r) b (rd_retry_left r) (rd_history r).
Definition take_retry (r : RunLoop) : RunLoop :=
  mk_loop (rd_folded r) (rd_seen_tools r) (rd_entry_id r) (rd_segment_started r) (rd_writer r) (rd_dirty r) (rd_flush_at r) (rd_interrupt_deadline r)
    (rd_interrupted r) (rd_saw_session_started r) (rd_idle_since r) (rd_last_activity r) (rd_self_continued r) false (rd_history r).
Definition note_act (a : Act) (r : RunLoop) : RunLoop :=
  mk_loop (rd_folded r) (rd_seen_tools r) (rd_entry_id r) (rd_segment_started r) (rd_writer r) (rd_dirty r) (rd_flush_at r) (rd_interrupt_deadline r)
    (rd_interrupted r) (rd_saw_session_started r) (rd_idle_since r) (rd_last_activity r) (rd_self_continued r) (rd_retry_left r) (rd_history r ++ [a]).

(** * The loop *)

Section run.
Context {CD : Codecs} {D X J W : Type} {LD : Loro D X} {RL : RunLog J} {CR : ChatRow W}.
Context (chat_id device_id : string) (text_diff : string -> string -> Z * Z) (c : RunConfig).
Abbreviation Engine := (ChatEngine D J W).
Abbreviation run_id := (rn_run_id (rc_start c)).
Implicit Types (g : Engine) (r : RunLoop) (m : Moment).

Definition status_to (status : SessionStatus) (fresh_start : bool) m g : Engine := set_status chat_id device_id status fresh_start (mo_now m) g.

(** The coalesced commit. *)
Definition flush g r : Engine * RunLoop :=
  let '(d, w, _) := sync_segment (rd_entry_id r) device_id (rd_segment_started r) (rd_folded r) (rd_writer r) (eg_doc g) in
  (with_doc d g, set_dirty false (rd_flush_at r) (set_writer w r)).
(** [finish_segment] with the writer taken, and the preview. *)
Definition finish (status : MessageStatus) g r : Engine * RunLoop :=
  let '(d, _) := finish_segment (rd_entry_id r) device_id (rd_segment_started r) (rd_folded r) status (rd_writer r) (eg_doc g) in
  (note_message (folded_text (rd_folded r)) (with_doc d g), note_act (A_Segment (rd_entry_id r) (rd_folded r) status) (set_writer None r)).
(** The fold cleared for the next segment. *)
Definition clear_segment m r : RunLoop := rotate (mo_id m) (mo_now m) (set_dirty false (rd_flush_at r) (set_folded [] r)).
Definition park m g r : Engine * RunLoop := (status_to Idle false m g, set_self_continued false (set_idle (Some (mo_t m)) (clear_segment m r))).

(** Nothing in flight. *)
Definition in_flight (p : MessagePart) : bool :=
  match p with
  | MP_Tool t => negb (tp_resolved t) && negb (bool_decide (tp_id t = LIVE_PLAN_TOOL_ID))
  | MP_Input _ _ _ resolved => negb resolved
  | _ => false
  end.
Definition quiesce_window r : Z :=
  let window := default 0%Z (rc_quiesce_after c) in
  if rd_self_continued r then match rc_self_quiesce_after c with Some short => Z.min window short | None => window end else window.
Definition quiesce m g r : Engine * RunLoop :=
  let '(g, r) := if bool_decide (rd_folded r = []) && negb (bool_decide (is_Some (rd_writer r))) then (g, r) else finish MSt_Complete g r in
  park m g r.

Definition parked r : bool := bool_decide (is_Some (rd_idle_since r)).
(** The condition of each arm. *)
Definition enabled (w : Wake) (t : Z) r : bool :=
  match w with
  | WK_Cancelled => negb (rd_interrupted r)
  | WK_Deadline => match rd_interrupt_deadline r with Some at_ => (at_ <=? t)%Z | None => false end
  | WK_Reap => match rd_idle_since r with Some at_ => (at_ + SESSION_IDLE <=? t)%Z | None => false end
  | WK_Flush => rd_dirty r && (rd_flush_at r <=? t)%Z
  | WK_Quiesce =>
      bool_decide (is_Some (rc_quiesce_after c)) && negb (parked r) && negb (rd_interrupted r) && rc_steerable c
      && negb (existsb in_flight (rd_folded r)) && (rd_last_activity r + quiesce_window r <=? t)%Z
  | WK_Heartbeat | WK_Engine _ | WK_Stream _ => true
  end.

(** ** One event *)

Definition is_tool_part (id : string) (p : MessagePart) : bool := is_tool_id id p.
(** A tool folded in an earlier segment. *)
Definition stale_tool (id : string) r : bool :=
  negb (bool_decide (id = LIVE_PLAN_TOOL_ID)) && negb (existsb (is_tool_part id) (rd_folded r)) && bool_decide (id ∈ rd_seen_tools r).
Definition self_continues (t : Z) (e : AgentEvent) r : bool :=
  match rd_idle_since r with Some at_ => (RESUME_GATE <=? t - at_)%Z | None => false end
  && match e with
     | AE_TextDelta text => negb (bool_decide (text = EmptyString))
     | AE_ToolCall id _ => bool_decide (id = LIVE_PLAN_TOOL_ID) || negb (bool_decide (id ∈ rd_seen_tools r))
     | _ => false
     end.
Definition pending_inputs g : list string := match eg_run g with Some h => rh_pending h | None => [] end.
(** [None]: dropped. *)
Definition parked_gate m (e : AgentEvent) g r : Engine * option RunLoop :=
  if negb (parked r) then (g, Some r)
  else if self_continues (mo_t m) e r then
    (status_to Working true m g, Some (rotate (mo_id m) (mo_now m) (set_self_continued true (set_idle None r))))
  else
    match e with
    | AE_Steered _ _ => (status_to Working true m g, Some (set_idle None r))
    | AE_Done _ _ _ _ => (g, Some (set_idle None r))
    | AE_InputRequested id _ =>
        (if decide (id ∈ pending_inputs g)
         then answered [id] [] (on_handle (fun h => with_pending (base.filter (fun i => i <> id) (rh_pending h)) h) g) else g, None)
    | _ => (g, None)
    end.
(** Echoes of tools of an earlier segment are dropped; a new tool is seen. *)
Definition echo_gate (e : AgentEvent) r : option RunLoop :=
  match e with
  | AE_ToolCall id _ =>
      if bool_decide (id = LIVE_PLAN_TOOL_ID) then Some r
      else if stale_tool id r then None else Some (set_seen ({[id]} ∪ rd_seen_tools r) r)
  | AE_ToolResult id _ _ _ => if stale_tool id r then None else Some r
  | _ => Some r
  end.
Definition retries (e : AgentEvent) r : bool :=
  rn_resume_injected (rc_start c) && negb (rn_startup_retry (rc_start c)) && negb (rd_saw_session_started r)
  && bool_decide (rd_folded r = []) && negb (rd_interrupted r)
  && match e with AE_Done DS_Errored _ _ _ => true | _ => false end && rd_retry_left r.

(** A steer boundary. *)
Definition handle_steered m (next_id : option string) (e : AgentEvent) g r : Engine * RunLoop :=
  let g := publish e g in
  let r := set_self_continued false (note_act (A_Published e) r) in
  let '(g, r) := finish MSt_Complete g r in
  let r := rotate (default (mo_id m) next_id) (mo_now m) (set_dirty false (rd_flush_at r) (set_folded [] r)) in
  let g := status_to Working true m g in
  (if is_live run_id g then set_routed run_id (tail (routed_of run_id g)) g else g, r).

(** What an event tells the engine, before it is published. *)
Definition notice m (e : AgentEvent) g r : Engine * RunLoop :=
  match e with
  | AE_SessionStarted _ _ _ cwd session_id _ => (remember_harness_session session_id cwd g, set_saw_started r)
  | AE_Done _ _ _ (Some session_id) => (remember_harness_session session_id (rr_cwd (rn_request (rc_start c))) g, r)
  | AE_InputRequested _ _ => (status_to AwaitingInput false m g, r)
  | AE_InputResolved _ => (status_to Working false m g, r)
  | _ => (g, r)
  end.
Definition fold_step (e : AgentEvent) r : RunLoop :=
  match e with
  | AE_SessionStarted _ _ _ _ _ _ => if bool_decide (rd_folded r = []) then set_folded (fold_event_into_parts text_diff (rd_folded r) e) r else r
  | _ => set_folded (fold_event_into_parts text_diff (rd_folded r) e) r
  end.

Definition resolve_inputs (parts : list MessagePart) : list MessagePart :=
  (fun p => match p with MP_Input id request_id qs _ => MP_Input id request_id qs true | _ => p end) <$> parts.
(** The end of a turn: it parks, or the run finishes. *)
Definition handle_done m (status : DoneStatus) g r : Engine * RunLoop * Next :=
  let g := if is_live run_id g then answered (pending_inputs g) [] (on_handle (with_pending []) g) else g in
  let message_status := match status with DS_Interrupted => MSt_Aborted | DS_Completed | DS_Errored => MSt_Complete end in
  let r := set_folded (resolve_inputs (rd_folded r)) r in
  let '(g, r) := if negb (bool_decide (is_Some (rd_writer r))) && bool_decide (rd_folded r = []) then (g, r) else finish message_status g r in
  let g := match status with DS_Completed => on_log log_clear_attempts g | _ => g end in
  if bool_decide (status = DS_Completed) && rc_steerable c && negb (rd_interrupted r) then
    let '(g, r) := park m g (set_saw_started r) in (g, r, NX_Continue)
  else (g, r, NX_Finish (match status with DS_Errored => Errored | _ => Idle end)).

(** What passes the gates. *)
Definition handle_admitted m (e : AgentEvent) g r : Engine * RunLoop * Next :=
  if retries e r then (remove_run run_id g, take_retry r, NX_Retry)
  else
    match e with
    | AE_Steered _ next_id => let '(g, r) := handle_steered m next_id e g r in (g, r, NX_Continue)
    | _ =>
        let '(g, r) := notice m e g r in
        let g := publish e g in
        let r := fold_step e (note_act (A_Published e) r) in
        match e with
        | AE_Done status _ _ _ => handle_done m status g r
        | _ => (g, if negb (bool_decide (rd_folded r = [])) && negb (rd_dirty r) then set_dirty true (mo_t m + STREAM_COMMIT_MS)%Z r else r, NX_Continue)
        end
    end.
Definition heartbeat (e : AgentEvent) : bool := match e with AE_ReasoningDelta text => bool_decide (text = EmptyString) | _ => false end.
(** The gates. *)
Definition handle_known m (e : AgentEvent) g r : Engine * RunLoop * Next :=
  match parked_gate m e g r with
  | (g, None) => (g, r, NX_Continue)
  | (g, Some r) =>
      if heartbeat e then (g, r, NX_Continue)
      else match echo_gate e r with
           | None => (g, r, NX_Continue)
           | Some r => handle_admitted m e g r
           end
  end.
(** The input bridge is the sole authority on questions. *)
Definition unknown_input (e : AgentEvent) g : bool :=
  match e with AE_InputRequested id _ => negb (bool_decide (id ∈ pending_inputs g)) | _ => false end.
Definition handle_event m (e : AgentEvent) g r : Engine * RunLoop * Next :=
  let g := touch_session (mo_now m) g in
  let r := set_activity (mo_t m) r in
  match e with
  | AE_DecisionActivity activity =>
      (match rn_harness (rc_start c) with Dsh => set_decision_activity chat_id device_id activity (mo_now m) g | _ => g end, r, NX_Continue)
  | _ => if unknown_input e g then (g, r, NX_Continue) else handle_known m e g r
  end.

Definition done_event (status : DoneStatus) (error : option string) : AgentEvent := AE_Done status None error None.
(** One pass of the loop. *)
Definition wake (w : Wake) m g r : Engine * RunLoop * Next :=
  match w with
  | WK_Cancelled => (g, set_interrupted (mo_t m + INTERRUPT_GRACE)%Z r, NX_Continue)
  | WK_Deadline => handle_event m (done_event DS_Interrupted None) g r
  | WK_Heartbeat => (touch_session (mo_now m) g, r, NX_Continue)
  | WK_Reap => (if is_live run_id g then on_handle with_token g else g, r, NX_Finish Idle)
  | WK_Engine e | WK_Stream (SI_Event e) => handle_event m e g r
  | WK_Stream (SI_Error message) =>
      if parked r then (g, r, NX_Finish Idle) else handle_event m (done_event DS_Errored (Some message)) g r
  | WK_Stream SI_End =>
      if rd_interrupted r then handle_event m (done_event DS_Interrupted None) g r
      else if parked r then (g, r, NX_Finish Idle)
      else handle_event m (done_event DS_Errored (Some "harness stream ended without Done"%string)) g r
  | WK_Flush => let '(g, r) := flush g r in (g, r, NX_Continue)
  | WK_Quiesce => let '(g, r) := quiesce m g r in (g, r, NX_Continue)
  end.

(** ** Around the loop *)

(** The harness does not start. *)
Definition start_failed (message : string) m g : Engine :=
  let g := publish (AE_Error message) g in
  let g := publish (done_event DS_Errored (Some message)) g in
  status_to Errored false m (remove_run run_id g).
Definition orphan_request (s : RoutedSteer) g : option RunRequest := with_prompt (rs_prompt s) <$> eg_last_request g.
End run.

(** * What the loop keeps *)

(** The text of what was published, the parts of the segments finished, and
    the tools they show; the plan is a singleton of every segment. *)
Definition published_text (h : list Act) : string :=
  concat_strings (omap (fun a => match a with A_Published (AE_TextDelta text) => Some text | _ => None end) h).
Definition segment_parts (a : Act) : list MessagePart := match a with A_Segment _ parts _ => parts | A_Published _ => [] end.
Definition segments (h : list Act) : list MessagePart := h ≫= segment_parts.
Definition tool_of (p : MessagePart) : option string :=
  match p with MP_Tool t => if decide (tp_id t = LIVE_PLAN_TOOL_ID) then None else Some (tp_id t) | _ => None end.
Abbreviation tools := (omap tool_of).

Record accounts (h : list Act) (folded : list MessagePart) (seen : gset string) : Prop := {
  ac_text : rendered_text (segments h ++ folded) = published_text h;
  ac_tools : NoDup (tools (segments h ++ folded));
  ac_seen : forall id, id ∈ tools (segments h ++ folded) -> id ∈ seen;
}.

Lemma segments_snoc h a : segments (h ++ [a]) = segments h ++ segment_parts a.
Proof. unfold segments. rewrite bind_app. cbn. by rewrite app_nil_r. Qed.
Lemma published_snoc h a : published_text (h ++ [a]) = published_text h +:+ match a with A_Published (AE_TextDelta text) => text | _ => EmptyString end.
Proof.
  unfold published_text. rewrite omap_app, concat_strings_app. f_equal.
  destruct a as [[]|]; cbn; rewrite ?str_app_nil_r; done.
Qed.
Lemma accounts_finish h folded seen id status : accounts h folded seen -> accounts (h ++ [A_Segment id folded status]) [] seen.
Proof.
  intros [H1 H2 H3]. rewrite <- (app_nil_r (segments h ++ folded)) in H2, H3.
  split; rewrite segments_snoc; [|done..]. by rewrite app_nil_r, published_snoc, str_app_nil_r.
Qed.

Lemma tools_in_place f out out' : (forall p, tool_of (f p) = tool_of p) -> Forall2 (in_place f) out out' -> tools out' = tools out.
Proof. intros Hf H. induction H as [|p q l l' [->| ->] _ IH]; cbn; rewrite ?Hf, ?IH; done. Qed.
Lemma tools_snoc l p : tools (l ++ [p]) = tools l ++ match tool_of p with Some id => [id] | None => [] end.
Proof. rewrite omap_app. cbn. by destruct (tool_of p). Qed.
Lemma update_first_found {A} (p : A -> bool) f (l : list A) : bool_decide (is_Some (update_first p f l)) = existsb p l.
Proof.
  induction l as [|x l IH]; [done|]. cbn. destruct (p x); [done|]. cbn. rewrite <- IH. by destruct (update_first p f l).
Qed.

Section fold_tools.
Context (text_diff : string -> string -> Z * Z).
Local Abbreviation fold_event := (fold_event_into_parts text_diff).

(** Only a call of a tool the fold does not show adds one. *)
Lemma fold_event_tools out e :
  tools (fold_event out e) = match e with
    | AE_SessionStarted _ _ _ _ _ _ | AE_Steered _ _ => []
    | AE_ToolCall id _ => if existsb (is_tool_id id) out || bool_decide (id = LIVE_PLAN_TOOL_ID) then tools out else tools out ++ [id]
    | _ => tools out
    end.
Proof.
  destruct e; cbn; try done.
  - pose proof (append_tail_text_spec text out) as H. destruct (append_tail_text text out) as [out'|].
    + destruct H as (l & id & tail & -> & ->). by rewrite !tools_snoc.
    + rewrite tools_snoc. apply app_nil_r.
  - destruct (update_first _ _ out) as [out'|] eqn:E; [|rewrite tools_snoc; apply app_nil_r].
    eapply tools_in_place, (update_first_in_place _ _ _ _ E). intros p. cbv beta. case (is_decision_id _ p); by destruct p.
  - pose proof (update_first_found (is_tool_id id) (set_tool_call call) out) as Hf.
    destruct (update_first _ _ out) as [out'|] eqn:E; rewrite <- Hf; cbn.
    + eapply tools_in_place, (update_first_in_place _ _ _ _ E). intros p. cbv beta. case (is_tool_id _ p); by destruct p.
    + rewrite tools_snoc. cbn. destruct (decide (id = LIVE_PLAN_TOOL_ID)); [by rewrite bool_decide_true, app_nil_r|by rewrite bool_decide_false].
  - apply (tools_in_place (resolve_tool text_diff id is_error diff)), Forall2_in_place_fmap. intros []; cbn; try done. by case_decide.
  - rewrite tools_snoc. apply app_nil_r.
  - destruct (existsb _ out); [done|]. rewrite tools_snoc. apply app_nil_r.
  - apply (tools_in_place (resolve_input request_id)), Forall2_in_place_fmap. intros []; cbn; try done. by case_decide.
  - destruct error; [|done]. rewrite tools_snoc. apply app_nil_r.
Qed.

(** An event the run publishes and folds. *)
Definition plain (e : AgentEvent) : bool := match e with AE_SessionStarted _ _ _ _ _ _ | AE_Steered _ _ => false | _ => true end.
Lemma accounts_fold h folded seen e :
  plain e = true -> (forall id call, e = AE_ToolCall id call -> existsb (is_tool_id id) folded = false -> id <> LIVE_PLAN_TOOL_ID -> id ∉ tools (segments h ++ folded)) ->
  (forall id call, e = AE_ToolCall id call -> id = LIVE_PLAN_TOOL_ID \/ id ∈ seen) ->
  accounts h folded seen -> accounts (h ++ [A_Published e]) (fold_event folded e) seen.
Proof.
  intros Hp Hnew Hseen [H1 H2 H3]. assert (Ht : tools (segments h ++ fold_event folded e) = tools (segments h ++ folded)
    \/ exists id call, e = AE_ToolCall id call /\ id <> LIVE_PLAN_TOOL_ID /\ existsb (is_tool_id id) folded = false
                       /\ tools (segments h ++ fold_event folded e) = tools (segments h ++ folded) ++ [id]).
  { rewrite !omap_app, fold_event_tools. destruct e; try (by left); try done.
    destruct (existsb _ folded) eqn:Hx; cbn; [by left|]. destruct (bool_decide (id = LIVE_PLAN_TOOL_ID)) eqn:Hid; [by left|]. right. exists id, call.
    apply bool_decide_eq_false in Hid. split_and!; try done. by rewrite app_assoc. }
  split; rewrite segments_snoc, app_nil_r.
  - rewrite published_snoc, <- H1, rendered_text_app, fold_event_text, rendered_text_app. destruct e; try done; cbn; by rewrite ?str_app_nil_r, ?str_app_assoc.
  - destruct Ht as [->|(id & call & -> & Hid & Hx & ->)]; [done|]. apply NoDup_app. split_and!; [done| |repeat constructor; set_solver].
    intros x Hin ->%list_elem_of_singleton. by apply (Hnew id call).
  - destruct Ht as [->|(id & call & -> & Hid & Hx & ->)]; [done|]. intros x [Hin|Hin%list_elem_of_singleton]%elem_of_app; [by apply H3|]. subst x. by destruct (Hseen id call).
Qed.
End fold_tools.

Lemma resolve_inputs_text parts : rendered_text (resolve_inputs parts) = rendered_text parts.
Proof. apply (rendered_text_in_place (fun p => match p with MP_Input id rid qs _ => MP_Input id rid qs true | _ => p end)), Forall2_in_place_fmap. by intros []. Qed.
Lemma resolve_inputs_tools parts : tools (resolve_inputs parts) = tools parts.
Proof. apply (tools_in_place (fun p => match p with MP_Input id rid qs _ => MP_Input id rid qs true | _ => p end)), Forall2_in_place_fmap. by intros []. Qed.
Lemma accounts_resolve h folded seen : accounts h folded seen -> accounts h (resolve_inputs folded) seen.
Proof.
  intros [H1 H2 H3]. rewrite rendered_text_app, omap_app in *.
  split; rewrite ?rendered_text_app, ?omap_app, ?resolve_inputs_text, ?resolve_inputs_tools; done.
Qed.

Section run_facts.
Context {CD : Codecs} {D X J W : Type} {LD : Loro D X} {RL : RunLog J} {CR : ChatRow W}.
Context (chat_id device_id : string) (text_diff : string -> string -> Z * Z) (c : RunConfig).
Local Abbreviation Engine := (ChatEngine D J W).
Local Abbreviation run_id := (rn_run_id (rc_start c)).
Implicit Types (g : Engine) (r : RunLoop) (m : Moment).
Local Abbreviation handle_done := (handle_done chat_id device_id c).
Local Abbreviation handle_admitted := (handle_admitted chat_id device_id text_diff c).
Local Abbreviation handle_known := (handle_known chat_id device_id text_diff c).
Local Abbreviation handle_event := (handle_event chat_id device_id text_diff c).
Local Abbreviation handle_steered := (handle_steered chat_id device_id c).
Local Abbreviation park := (park chat_id device_id).
Local Abbreviation finish := (finish device_id).
Local Abbreviation wake := (wake chat_id device_id text_diff c).

Record run_inv r : Prop := {
  ri_accounts : accounts (rd_history r) (rd_folded r) (rd_seen_tools r);
  ri_parked : parked r = true -> rd_folded r = [] /\ rd_writer r = None /\ rd_dirty r = false /\ rd_self_continued r = false;
  ri_deadline : rd_interrupted r = bool_decide (is_Some (rd_interrupt_deadline r));
}.
(** What an outcome leaves: at the end nothing is left out of a segment. *)
Definition kept_by (n : Next) r : Prop :=
  match n with NX_Continue => run_inv r | _ => accounts (rd_history r) [] (rd_seen_tools r) end.

Lemma finish_accounts status g r : run_inv r ->
  let r' := (finish status g r).2 in
  rd_writer r' = None /\ accounts (rd_history r') [] (rd_seen_tools r')
  /\ rd_interrupted r' = rd_interrupted r /\ rd_interrupt_deadline r' = rd_interrupt_deadline r /\ rd_idle_since r' = rd_idle_since r
  /\ rd_self_continued r' = rd_self_continued r.
Proof.
  intros [H _ _]. unfold RunDriver.finish. destruct (finish_segment _ _ _ _ _ _ _) as [d x]. cbn. split_and!; try done. by apply accounts_finish.
Qed.
Lemma park_inv m g r : accounts (rd_history r) [] (rd_seen_tools r) -> rd_writer r = None ->
  rd_interrupted r = bool_decide (is_Some (rd_interrupt_deadline r)) -> run_inv (park m g r).2.
Proof. intros Ha Hw Hd. split; cbn; [done|by rewrite Hw|done]. Qed.
Lemma handle_done_kept m status g r : run_inv r -> parked r = false -> let '(_, r', n) := handle_done m status g r in kept_by n r'.
Proof.
  intros [Ha _ Hd] Hp. unfold RunDriver.handle_done. set (g0 := if is_live run_id g then _ else g).
  assert (Hr : run_inv (set_folded (resolve_inputs (rd_folded r)) r)) by (split; [by apply accounts_resolve|unfold parked in *; cbn; by rewrite Hp|done]).
  set (r0 := set_folded (resolve_inputs (rd_folded r)) r) in *. set (st := match status with DS_Interrupted => MSt_Aborted | _ => MSt_Complete end).
  set (x := if negb (bool_decide (is_Some (rd_writer r0))) && bool_decide (rd_folded r0 = []) then (g0, r0) else finish st g0 r0).
  assert (Hx : rd_writer x.2 = None /\ accounts (rd_history x.2) [] (rd_seen_tools x.2)
    /\ rd_interrupted x.2 = rd_interrupted r0 /\ rd_interrupt_deadline x.2 = rd_interrupt_deadline r0).
  { unfold x. destruct (negb _ && _) eqn:E; [|by destruct (finish_accounts st g0 r0 Hr) as (? & ? & ? & ? & ?)].
    apply andb_true_iff in E as [E1 E2%bool_decide_eq_true]. destruct (rd_writer r0) eqn:Ew; [done|]. cbn. split_and!; try done. rewrite <- E2. apply Hr. }
  destruct x as [g1 r1]. cbn in Hx. destruct Hx as (Hw & Hx & Hi & Hdl).
  destruct (bool_decide (status = DS_Completed) && rc_steerable c && negb (rd_interrupted r1)); [|done].
  apply (park_inv m g1 (set_saw_started r1)); cbn; by rewrite ?Hi, ?Hdl.
Qed.
Lemma accounts_note h e folded seen : match e with AE_TextDelta _ => false | _ => true end = true ->
  accounts h folded seen -> accounts (h ++ [A_Published e]) folded seen.
Proof.
  intros He [H1 H2 H3]. split; rewrite segments_snoc, app_nil_r; [|done..]. rewrite published_snoc, <- H1. destruct e; try done; by rewrite str_app_nil_r.
Qed.
Lemma handle_steered_inv m next_id e g r : match e with AE_TextDelta _ => false | _ => true end = true ->
  run_inv r -> parked r = false -> run_inv (handle_steered m next_id e g r).2.
Proof.
  intros He [Ha _ Hd] Hp. unfold RunDriver.handle_steered. set (r0 := set_self_continued false (note_act (A_Published e) r)).
  assert (Hr : run_inv r0) by (split; [by apply accounts_note|by unfold parked in *; cbn; rewrite Hp|done]).
  pose proof (finish_accounts MSt_Complete (publish e g) r0 Hr) as Hf. cbn zeta in Hf. destruct (finish _ _ r0) as [g1 r1]. cbn in *.
  destruct Hf as (Hw & Hac & Hi & Hdl & Hidle & _). split; cbn; [done| |by rewrite Hi, Hdl]. unfold parked in *. cbn. by rewrite Hidle, Hp.
Qed.

Lemma parked_gate_inv m e g r g' r' : run_inv r -> parked_gate chat_id device_id m e g r = (g', Some r') ->
  run_inv r' /\ parked r' = false /\ (parked r = true -> rd_folded r' = []).
Proof.
  intros Hr. pose proof Hr as [Ha Hp Hd]. unfold parked_gate. destruct (parked r) eqn:Epk; cbn [negb]; [|intros [= <- <-]; by split_and!].
  destruct (Hp eq_refl) as (Hf & Hw & Hdi & Hs). destruct (self_continues _ _ _); [intros [= <- <-]; by split_and!|].
  destruct e; intros E; try discriminate; injection E as <- <-; by split_and!.
Qed.
Lemma echo_gate_spec e r r' : run_inv r -> parked r = false -> echo_gate e r = Some r' ->
  run_inv r' /\ parked r' = false
  /\ (forall id call, e = AE_ToolCall id call -> existsb (is_tool_id id) (rd_folded r') = false -> id <> LIVE_PLAN_TOOL_ID -> id ∉ tools (segments (rd_history r') ++ rd_folded r'))
  /\ (forall id call, e = AE_ToolCall id call -> id = LIVE_PLAN_TOOL_ID \/ id ∈ rd_seen_tools r').
Proof.
  intros Hr Hp. pose proof Hr as [[H1 H2 H3] _ Hd].
  destruct e; cbn; try (intros [= <-]; by split_and!).
  - destruct (decide (id = LIVE_PLAN_TOOL_ID)) as [Hid|Hid]; [rewrite bool_decide_true by done|rewrite bool_decide_false by done].
    { intros [= <-]. split_and!; try done; intros ? ? [= <- <-]; first [by left|by intros]. }
    destruct (stale_tool id r) eqn:Es; [done|]. intros [= <-]. split_and!; [|done|..].
    + split; cbn; [split; [done..|set_solver]|unfold parked in *; cbn; by rewrite Hp|done].
    + intros ? ? [= <- <-] Hx Hne Hin. cbn [set_seen rd_history rd_folded] in Hin, Hx. apply H3 in Hin. unfold stale_tool in Es.
      rewrite bool_decide_false in Es by done. change (is_tool_part id) with (is_tool_id id) in Es. rewrite Hx, (bool_decide_true (id ∈ _)) in Es by done. done.
    + intros ? ? [= <- <-]. cbn. set_solver.
  - destruct (stale_tool id r); [done|]. intros [= <-]. by split_and!.
Qed.

Lemma fold_step_inv e r : plain e || match e with AE_SessionStarted _ _ _ _ _ _ => true | _ => false end = true -> run_inv r -> parked r = false ->
  (forall id call, e = AE_ToolCall id call -> existsb (is_tool_id id) (rd_folded r) = false -> id <> LIVE_PLAN_TOOL_ID -> id ∉ tools (segments (rd_history r) ++ rd_folded r)) ->
  (forall id call, e = AE_ToolCall id call -> id = LIVE_PLAN_TOOL_ID \/ id ∈ rd_seen_tools r) ->
  run_inv (fold_step text_diff e (note_act (A_Published e) r)) /\ parked (fold_step text_diff e (note_act (A_Published e) r)) = false.
Proof.
  intros He [Ha _ Hd] Hp H1 H2.
  assert (E : accounts (rd_history r ++ [A_Published e]) (rd_folded (fold_step text_diff e (note_act (A_Published e) r))) (rd_seen_tools r)).
  { destruct e; cbn [fold_step note_act set_folded rd_folded]; try (by apply accounts_fold); try done.
    cbn [note_act rd_folded]. destruct (bool_decide (rd_folded r = [])) eqn:Hf; [apply bool_decide_eq_true in Hf; cbn; rewrite <- Hf|cbn]; by apply accounts_note. }
  assert (Hsame : forall q, q = fold_step text_diff e (note_act (A_Published e) r) -> rd_history q = rd_history r ++ [A_Published e] /\ rd_seen_tools q = rd_seen_tools r
    /\ parked q = parked r /\ rd_interrupted q = rd_interrupted r /\ rd_interrupt_deadline q = rd_interrupt_deadline r).
  { intros q ->. destruct e; cbn; try done. destruct (bool_decide (rd_folded r = [])); by split_and!. }
  destruct (Hsame _ eq_refl) as (Q1 & Q2 & Q3 & Q4 & Q5). rewrite Hp in Q3. split; [|done].
  split; [by rewrite Q1, Q2|by rewrite Q3|by rewrite Q4, Q5].
Qed.
Lemma notice_inv m e g r : run_inv r -> parked r = false -> let '(_, r') := notice chat_id device_id c m e g r in
  run_inv r' /\ parked r' = false /\ rd_folded r' = rd_folded r /\ rd_history r' = rd_history r /\ rd_seen_tools r' = rd_seen_tools r.
Proof.
  intros Hr Hp. pose proof Hr as [H1 H2 H3]. destruct e; cbn; try done. by destruct session_id.
Qed.
Lemma set_dirty_inv b t r : run_inv r -> parked r = false -> run_inv (set_dirty b t r).
Proof. intros [H1 _ H3] Hp. split; [done|unfold parked in *; cbn; by rewrite Hp|done]. Qed.

Lemma handle_admitted_kept m e g r : run_inv r -> parked r = false ->
  (forall id call, e = AE_ToolCall id call -> existsb (is_tool_id id) (rd_folded r) = false -> id <> LIVE_PLAN_TOOL_ID -> id ∉ tools (segments (rd_history r) ++ rd_folded r)) ->
  (forall id call, e = AE_ToolCall id call -> id = LIVE_PLAN_TOOL_ID \/ id ∈ rd_seen_tools r) ->
  let '(_, r', n) := handle_admitted m e g r in kept_by n r'.
Proof.
  intros Hr Hp Hn Hs. unfold RunDriver.handle_admitted. destruct (retries c e r) eqn:Er.
  { unfold retries in Er. rewrite !andb_true_iff in Er. destruct Er as [[[[_ Hf%bool_decide_eq_true] _] _] _]. cbn. rewrite <- Hf. apply Hr. }
  destruct (plain e || match e with AE_SessionStarted _ _ _ _ _ _ => true | _ => false end) eqn:He.
  - pose proof (notice_inv m e g r Hr Hp) as Hx. destruct (notice _ _ _ _ _ _ _) as [g1 r1]. destruct Hx as (Hr1 & Hp1 & Q1 & Q2 & Q3).
    rewrite <- Q1, <- Q2 in Hn. rewrite <- Q3 in Hs. destruct (fold_step_inv e r1 He Hr1 Hp1 Hn Hs) as [Hr2 Hp2].
    set (r2 := fold_step text_diff e (note_act (A_Published e) r1)) in *. cbn zeta. fold r2. clearbody r2.
    assert (Hd : run_inv (if negb (bool_decide (rd_folded r2 = [])) && negb (rd_dirty r2) then set_dirty true (mo_t m + STREAM_COMMIT_MS)%Z r2 else r2))
      by (destruct (_ && _); [by apply set_dirty_inv|done]).
    destruct e; try exact Hd; [done|by apply handle_done_kept].
  - destruct e as [| | | | | | | | | | | | |a n|]; try done.
    pose proof (handle_steered_inv m n (AE_Steered a n) g r eq_refl Hr Hp) as Hx. by destruct (handle_steered _ _ _ _ _).
Qed.
Lemma handle_known_kept m e g r : run_inv r -> let '(_, r', n) := handle_known m e g r in kept_by n r'.
Proof.
  intros Hr. unfold RunDriver.handle_known. destruct (parked_gate _ _ _ _ _ _) as [g1 [r1|]] eqn:Eg; [|done].
  destruct (parked_gate_inv _ _ _ _ _ _ Hr Eg) as (Hr1 & Hp1 & _). destruct (heartbeat e); [done|].
  destruct (echo_gate e r1) as [r2|] eqn:Ee; [|done]. destruct (echo_gate_spec _ _ _ Hr1 Hp1 Ee) as (Hr2 & Hp2 & Hn & Hs).
  by apply handle_admitted_kept.
Qed.
(** An event is dropped, tells of a decision, or goes to the gates. *)
Lemma handle_event_cases m e g r : let r' := set_activity (mo_t m) r in
  (exists g', handle_event m e g r = (g', r', NX_Continue)) \/ handle_event m e g r = handle_known m e (touch_session (mo_now m) g) r'.
Proof.
  cbn zeta. unfold RunDriver.handle_event. destruct (match e with AE_DecisionActivity _ => true | _ => false end) eqn:Ed.
  { left. destruct e; try done. by eexists. }
  destruct (unknown_input e (touch_session (mo_now m) g)) eqn:Eu; [left; destruct e; try done; by eexists|right; by destruct e].
Qed.
Lemma handle_event_kept m e g r : run_inv r -> let '(_, r', n) := handle_event m e g r in kept_by n r'.
Proof.
  intros Hr. assert (Hr0 : run_inv (set_activity (mo_t m) r)) by (destruct Hr; by split).
  destruct (handle_event_cases m e g r) as [[g' ->]| ->]; [done|by apply handle_known_kept].
Qed.

Lemma wake_kept w m g r : run_inv r -> enabled c w (mo_t m) r = true -> let '(_, r', n) := wake w m g r in kept_by n r'.
Proof.
  intros Hr He. pose proof Hr as [Ha Hp Hd].
  assert (Hparked : parked r = true -> accounts (rd_history r) [] (rd_seen_tools r)).
  { intros H. destruct (Hp H) as [Hf _]. by rewrite <- Hf. }
  destruct w as [| | | |e|[e|message|]| |]; cbn [RunDriver.wake].
  - split; cbn; [done..|]. reflexivity.
  - by apply handle_event_kept.
  - done.
  - apply Hparked. cbn in He. unfold parked. by destruct (rd_idle_since r).
  - by apply handle_event_kept.
  - by apply handle_event_kept.
  - destruct (parked r) eqn:E; [by apply Hparked|by apply handle_event_kept].
  - destruct (rd_interrupted r) eqn:E; [by apply handle_event_kept|]. destruct (parked r) eqn:E'; [by apply Hparked|by apply handle_event_kept].
  - unfold flush. destruct (sync_segment _ _ _ _ _ _) as [[d w] x]. split; cbn; [done| |done].
    unfold parked in *. cbn. intros H. destruct (Hp H) as (? & ? & Hdirty & ?). cbn in He. by rewrite Hdirty in He.
  - unfold quiesce. destruct (bool_decide (rd_folded r = []) && negb (bool_decide (is_Some (rd_writer r)))) eqn:Eb.
    + apply andb_true_iff in Eb as [Ef%bool_decide_eq_true Ew]. apply (park_inv m g r); [by rewrite <- Ef|by destruct (rd_writer r)|done].
    + pose proof (finish_accounts MSt_Complete g r Hr) as Hf. cbn zeta in Hf. destruct (finish MSt_Complete g r) as [g1 r1].
      destruct Hf as (? & ? & Hi & Hdl & _). apply (park_inv m g1 r1); cbn in *; [done..|by rewrite Hi, Hdl].
Qed.

(** The run: wakes of the loop, and whatever other tasks do between them. *)
Inductive run_step : Engine * RunLoop -> Engine * RunLoop -> Prop :=
| run_step_wake w m g r g' r' : enabled c w (mo_t m) r = true -> wake w m g r = (g', r', NX_Continue) -> run_step (g, r) (g', r')
| run_step_other g g' r : run_step (g, r) (g', r).

Lemma loop_start_inv id now t : run_inv (loop_start id now t).
Proof. split; [|done..]. split; cbn; [done|constructor|set_solver]. Qed.
Lemma run_step_inv s s' : run_step s s' -> run_inv s.2 -> run_inv s'.2.
Proof. intros [w m g r g' r' He E|] Hr; [|done]. pose proof (wake_kept w m g r Hr He) as H. by rewrite E in H. Qed.
Lemma run_steps_inv s s' : rtc run_step s s' -> run_inv s.2 -> run_inv s'.2.
Proof. induction 1; eauto using run_step_inv. Qed.
Lemma drive_reachable_inv id now t g0 g r : rtc run_step (g0, loop_start id now t) (g, r) -> run_inv r.
Proof. intros H%run_steps_inv; [done|]. apply loop_start_inv. Qed.

(** C2. The transcript of a run, whatever the harness streams, whenever
    segments are cut by steers, completed turns and the quiesce watchdog, and
    whatever other tasks do meanwhile: the text of the finished segments and
    of the current fold is the published text, every byte once and in order;
    no tool call is shown twice over the segments of the run (the plan apart,
    a singleton of each), so an echo of a tool of an earlier segment never
    splits the text; a parked run holds no fold, no writer and no pending
    commit; and when the run ends nothing published is left out of a
    segment. *)
Theorem run_transcript id now t g0 g r : rtc run_step (g0, loop_start id now t) (g, r) ->
  run_inv r
  /\ forall w m, enabled c w (mo_t m) r = true -> let '(_, r', n) := wake w m g r in
     n <> NX_Continue -> rendered_text (segments (rd_history r')) = published_text (rd_history r') /\ NoDup (tools (segments (rd_history r'))).
Proof.
  intros Hr%drive_reachable_inv. split; [done|]. intros w m He. pose proof (wake_kept w m g r Hr He) as Hk.
  destruct (wake w m g r) as [[g' r'] n]. destruct n; [done| |]; intros _; destruct Hk as [H1 H2 _]; by rewrite app_nil_r in H1, H2.
Qed.

(** ** How turns and runs end *)

(** The row of a session nothing works on. *)
Definition settled (status : SessionStatus) g : Prop :=
  match eg_session g with
  | Some row => sr_status row = status /\ sr_started_at row = None /\ sr_decision_activity row = None
  | None => False
  end.
Lemma status_settles status m g : is_active status = false -> settled status (status_to chat_id device_id status false m g).
Proof. by destruct status. Qed.
Definition open_question (p : MessagePart) : bool := match p with MP_Input _ _ _ resolved => negb resolved | _ => false end.
Lemma resolve_inputs_closed parts : existsb open_question (resolve_inputs parts) = false.
Proof. induction parts as [|p l IH]; [done|]. by destruct p. Qed.

(** The states a [Done] is handled in. *)
Definition unpark t r : RunLoop := let r := set_activity t r in if parked r then set_idle None r else r.
Definition end_of_turn status r : Next :=
  if bool_decide (status = DS_Completed) && rc_steerable c && negb (rd_interrupted r) then NX_Continue
  else NX_Finish (match status with DS_Errored => Errored | _ => Idle end).
Definition end_status (status : DoneStatus) : MessageStatus := match status with DS_Interrupted => MSt_Aborted | DS_Completed | DS_Errored => MSt_Complete end.

Lemma finish_keeps status g r : let '(g', r') := finish status g r in
  (eg_run g' = eg_run g /\ eg_answers g' = eg_answers g) /\ rd_interrupted r' = rd_interrupted r
  /\ rd_history r' = rd_history r ++ [A_Segment (rd_entry_id r) (rd_folded r) status].
Proof.
  unfold RunDriver.finish. destruct (finish_segment _ _ _ _ _ _ _) as [d x]. unfold note_message. by case_decide.
Qed.
(** The answers a live run's parked questions get when its turn ends. *)
Definition closing_answers g : list (string * list UserInputAnswer) :=
  if is_live run_id g then (fun id => (id, [])) <$> pending_inputs g else [].
Lemma handle_done_ends m status g r : let '(g', r', n) := handle_done m status g r in
  n = end_of_turn status r /\ (is_live run_id g = true -> pending_inputs g' = []) /\ eg_answers g' = eg_answers g ++ closing_answers g
  /\ (n = NX_Continue -> parked r' = true /\ settled Idle g')
  /\ rd_history r' = rd_history r
       ++ (if negb (bool_decide (is_Some (rd_writer r))) && bool_decide (resolve_inputs (rd_folded r) = []) then []
           else [A_Segment (rd_entry_id r) (resolve_inputs (rd_folded r)) (end_status status)]).
Proof.
  unfold RunDriver.handle_done.
  set (g0 := if is_live run_id g then answered (pending_inputs g) [] (on_handle (with_pending []) g) else g).
  assert (Hg0 : is_live run_id g = true -> pending_inputs g0 = []).
  { intros Hl. unfold g0. rewrite Hl. unfold pending_inputs. cbn. by destruct (eg_run g). }
  assert (Ha0 : eg_answers g0 = eg_answers g ++ closing_answers g).
  { unfold g0, closing_answers. destruct (is_live run_id g); [done|by rewrite app_nil_r]. }
  clearbody g0. set (r0 := set_folded (resolve_inputs (rd_folded r)) r).
  set (x := if negb (bool_decide (is_Some (rd_writer r0))) && bool_decide (rd_folded r0 = []) then (g0, r0) else finish (end_status status) g0 r0).
  assert (Hx : (eg_run x.1 = eg_run g0 /\ eg_answers x.1 = eg_answers g0) /\ rd_interrupted x.2 = rd_interrupted r0
    /\ rd_history x.2 = rd_history r ++ (if negb (bool_decide (is_Some (rd_writer r))) && bool_decide (resolve_inputs (rd_folded r) = []) then []
           else [A_Segment (rd_entry_id r) (resolve_inputs (rd_folded r)) (end_status status)])).
  { unfold x. change (rd_writer r0) with (rd_writer r). change (rd_folded r0) with (resolve_inputs (rd_folded r)). destruct (_ && _).
    - by rewrite app_nil_r.
    - pose proof (finish_keeps (end_status status) g0 r0) as Hf. by destruct (finish _ g0 r0). }
  change (match status with DS_Interrupted => MSt_Aborted | _ => MSt_Complete end) with (end_status status). fold x.
  destruct x as [g1 r1]. cbn in Hx. destruct Hx as ((Hrun & Hans) & Hi & Hh). rewrite <- Hans in Ha0.
  assert (Hp : is_live run_id g = true -> pending_inputs g1 = []) by (unfold pending_inputs in *; by rewrite Hrun).
  unfold end_of_turn. rewrite Hi. change (rd_interrupted r0) with (rd_interrupted r).
  destruct (bool_decide (status = DS_Completed)) eqn:Es; cbn [andb].
  - apply bool_decide_eq_true in Es as ->. by destruct (rc_steerable c && negb (rd_interrupted r)).
  - split_and!; try done; by destruct status.
Qed.

Lemma touch_keeps_run now g : eg_run (touch_session now g) = eg_run g /\ eg_answers (touch_session now g) = eg_answers g.
Proof. unfold touch_session. destruct (eg_session g); [|done]. by destruct (_ <? _)%Z. Qed.
Lemma handle_event_done m status res err sid g r : let e := AE_Done status res err sid in let r1 := unpark (mo_t m) r in
  exists g1, (eg_run g1 = eg_run g /\ eg_answers g1 = eg_answers g)
    /\ handle_event m e g r = if retries c e r1 then (remove_run run_id g1, take_retry r1, NX_Retry) else handle_done m status g1 (fold_step text_diff e (note_act (A_Published e) r1)).
Proof.
  cbn zeta. unfold RunDriver.handle_event, unknown_input, RunDriver.handle_known, RunDriver.handle_admitted, parked_gate, self_continues, unpark. rewrite andb_false_r.
  set (r0 := set_activity (mo_t m) r). set (r1 := if parked r0 then set_idle None r0 else r0).
  assert (E : (if negb (parked r0) then (touch_session (mo_now m) g, Some r0) else (touch_session (mo_now m) g, Some (set_idle None r0)))
    = (touch_session (mo_now m) g, Some r1)) by (unfold r1; by destruct (parked r0)).
  rewrite E. cbn [echo_gate heartbeat]. clearbody r1. destruct (retries c _ r1) eqn:Er.
  { eexists. split; [|done]. apply touch_keeps_run. }
  destruct sid as [sid|]; cbn [notice]; eexists; (split; [|reflexivity]); cbn; [|apply touch_keeps_run].
  unfold remember_harness_session. case_decide; cbn; apply touch_keeps_run.
Qed.


(** The fold of a turn about to end, and what its end writes. *)
Definition last_fold e r : list MessagePart := resolve_inputs (rd_folded (fold_step text_diff e (note_act (A_Published e) r))).

(** When an error is answered by a retry: before the harness started a session
    or streamed anything, in a run that resumed one, was not interrupted and
    has neither been relaunched for it nor retried yet. *)
Definition retry_due status r : Prop :=
  status = DS_Errored /\ rd_saw_session_started r = false /\ rd_folded r = [] /\ rd_interrupted r = false
  /\ rn_resume_injected (rc_start c) = true /\ rn_startup_retry (rc_start c) = false /\ rd_retry_left r = true.
#[local] Instance retry_due_dec status r : Decision (retry_due status r).
Proof. unfold retry_due. solve_decision. Defined.
(** What a [Done] does. *)
Definition done_outcome m status (e : AgentEvent) g r (out : Engine * RunLoop * Next) : Prop :=
  let '(g', r', n) := out in
  if decide (retry_due status r)
  then n = NX_Retry /\ rd_retry_left r' = false /\ is_live run_id g' = false /\ rd_history r' = rd_history r /\ eg_answers g' = eg_answers g
  else
    n = end_of_turn status r /\ (is_live run_id g = true -> pending_inputs g' = []) /\ eg_answers g' = eg_answers g ++ closing_answers g
    /\ (n = NX_Continue -> parked r' = true /\ settled Idle g')
    /\ existsb open_question (last_fold e (unpark (mo_t m) r)) = false
    /\ rd_history r' = rd_history r ++ [A_Published e]
         ++ (if negb (bool_decide (is_Some (rd_writer r))) && bool_decide (last_fold e (unpark (mo_t m) r) = []) then []
             else [A_Segment (rd_entry_id r) (last_fold e (unpark (mo_t m) r)) (end_status status)]).

Lemma retries_due m status res err sid r : retries c (AE_Done status res err sid) (unpark (mo_t m) r) = true <-> retry_due status r.
Proof.
  unfold retries, retry_due.
  assert (Hu : rd_saw_session_started (unpark (mo_t m) r) = rd_saw_session_started r /\ rd_folded (unpark (mo_t m) r) = rd_folded r
    /\ rd_interrupted (unpark (mo_t m) r) = rd_interrupted r /\ rd_retry_left (unpark (mo_t m) r) = rd_retry_left r).
  { unfold unpark. cbn. by destruct (parked _). }
  destruct Hu as (-> & -> & -> & ->). rewrite !andb_true_iff, !negb_true_iff, bool_decide_eq_true.
  destruct status; (split; [intros [[[[[[H1 H2] H3] H4] H5] H6] H7]|intros (H1 & H2 & H3 & H4 & H5 & H6 & H7)]); try discriminate; by split_and!.
Qed.
Lemma done_handled m status res err sid g r :
  done_outcome m status (AE_Done status res err sid) g r (handle_event m (AE_Done status res err sid) g r).
Proof.
  destruct (handle_event_done m status res err sid g r) as (g1 & [Hrun Hans] & ->). unfold done_outcome.
  pose proof (retries_due m status res err sid r) as Hdue. destruct (retries c _ (unpark (mo_t m) r)) eqn:Er.
  - rewrite decide_True by by apply Hdue. split_and!; [done|by unfold unpark| | |].
    + unfold remove_run. destruct (is_live run_id g1) eqn:El; [|exact El]. done.
    + unfold unpark. cbn. by destruct (parked _).
    + rewrite <- Hans. unfold remove_run. by destruct (is_live run_id g1).
  - assert (Hno : ~ retry_due status r) by (intros H; by apply Hdue in H).
    pose proof (handle_done_ends m status g1 (fold_step text_diff (AE_Done status res err sid) (note_act (A_Published (AE_Done status res err sid)) (unpark (mo_t m) r)))) as Hh.
    destruct (handle_done _ _ _ _) as [[g' r'] n]. destruct Hh as (H1 & H2 & H3 & H4 & H5). rewrite decide_False by done. split_and!; [| | |exact H4|apply resolve_inputs_closed|].
    + rewrite H1. unfold end_of_turn, unpark. cbn. by destruct (parked (set_activity (mo_t m) r)).
    + intros Hl. apply H2. unfold is_live in *. by rewrite Hrun.
    + rewrite H3, Hans. f_equal. unfold closing_answers, is_live, pending_inputs. by rewrite Hrun.
    + rewrite H5, app_assoc. f_equal; [|]; unfold last_fold, unpark; cbn; by destruct (parked (set_activity (mo_t m) r)).
Qed.

(** C13. The end of a turn.  A [Done] is handled in one of two ways.  Exactly
    when it reports an error before the harness started a session or streamed
    anything, in an uninterrupted run that resumed a session and has not been
    retried, it is answered by the one retry, which no later error gets again.
    Otherwise the event is published; what was folded and streamed is finished
    as one segment, aborted exactly when the turn was interrupted, with every
    question in it closed, and nothing is written when nothing was streamed;
    every question still parked is answered, each once and with no answer, so
    that no late answer reopens the turn; and a completed turn of a harness
    that takes steers parks, its row idle with no timer, unless the run was
    interrupted: every other run ends. *)
Theorem turn_ends m status res err sid g r : let e := AE_Done status res err sid in
  done_outcome m status e g r (handle_event m e g r).
Proof. apply done_handled. Qed.


(** ** What these do not say *)

(** A boundary finishes the segment as it is: a question open in it stays open
    in the document, and its answer is folded into the next segment, which does
    not show it. *)
Lemma steer_leaves_question m next_id e g r :
  exists id, rd_history (handle_steered m next_id e g r).2 = rd_history r ++ [A_Published e; A_Segment id (rd_folded r) MSt_Complete].
Proof.
  unfold RunDriver.handle_steered. set (r0 := set_self_continued false (note_act (A_Published e) r)). exists (rd_entry_id r0).
  pose proof (finish_keeps MSt_Complete (publish e g) r0) as Hf. destruct (finish _ _ r0) as [g1 r1]. destruct Hf as (_ & _ & Hh).
  cbn in Hh. rewrite <- app_assoc in Hh. cbn. by rewrite Hh.
Qed.

(** The retry, and a harness that does not start, remove the run with its
    ledger unclaimed: a steer it accepted is neither run nor refused. *)
Lemma retry_leaves_steers m e g r : retries c e r = true -> is_live run_id g = true ->
  let '(g', _, n) := handle_admitted m e g r in n = NX_Retry /\ is_live run_id g' = false /\ routed_of run_id g' = routed_of run_id g.
Proof. intros Hr Hl. unfold RunDriver.handle_admitted. rewrite Hr. unfold remove_run. by rewrite Hl. Qed.
Lemma start_failure_leaves_steers message m g : is_live run_id g = true ->
  is_live run_id (start_failed chat_id device_id c message m g) = false /\ routed_of run_id (start_failed chat_id device_id c message m g) = routed_of run_id g.
Proof.
  intros Hl. unfold start_failed, remove_run. set (g0 := publish _ (publish _ g)). change (is_live run_id g) with (is_live run_id g0) in Hl. by rewrite Hl.
Qed.

(** A run by its wakes. *)
Fixpoint drive (ws : list (Wake * Moment)) (s : Engine * RunLoop) : option (Engine * RunLoop) :=
  match ws with
  | [] => Some s
  | (w, m) :: ws =>
      if enabled c w (mo_t m) s.2 then match wake w m s.1 s.2 with (g, r, NX_Continue) => drive ws (g, r) | _ => None end else None
  end.
Lemma drive_reaches ws : forall s s', drive ws s = Some s' -> rtc run_step s s'.
Proof.
  induction ws as [|[w m] ws IH]; intros [g r] s'; cbn [drive fst snd]; [by intros [= <-]|].
  destruct (enabled c w (mo_t m) r) eqn:He; [|done]. destruct (wake w m g r) as [[g' r'] []] eqn:Ew; try done. intros H%IH.
  eapply rtc_l; [by eapply run_step_wake|done].
Qed.
End run_facts.

(** * A concrete run *)

#[export] Instance demo_run_log : RunLog (list AgentEvent) := {
  log_append e j := j ++ [e]; log_replay j := Some j; log_attempts _ := 0%Z; log_note_attempt j := (j, 1%Z); log_clear_attempts j := j;
}.
#[export] Instance demo_chat_row : ChatRow unit := {
  row_record_session _ w := w; row_note_message _ w := w; row_set_harness_session _ _ w := w; row_harness_session _ := None; row_set_config _ w := w;
}.
Definition demo_run_config : RunConfig :=
  mk_run_config (mk_start "run" ClaudeCode (mk_run_request "hi" None None None [] "/w" WorkspaceWrite false None []) "u1" true false) true (Some 120000%Z) (Some 20000%Z).
Definition demo_engine : ChatEngine View (list AgentEvent) unit :=
  mk_engine (Some (mk_handle "run" true [] true false false [] ["q"%string])) None None None [] None empty_view {["run"%string := [mk_routed "more" "u2"]]} [].
Definition at_ (t : Z) (id : string) : Moment := mk_moment t (1000 + t)%Z id.
(** Text and a tool, flushed; a question; a steer; an echo of the tool; the end
    of the turn; and output no prompt asked for. *)
Definition demo_wakes : list (Wake * Moment) :=
  [(WK_Stream (SI_Event (AE_TextDelta "Build")), at_ 10 "e2"); (WK_Stream (SI_Event (AE_ToolCall "c1" (TC_Exec "make"))), at_ 20 "e2"); (WK_Flush, at_ 130 "e2");
   (WK_Engine (AE_InputRequested "q" []), at_ 140 "e2"); (WK_Stream (SI_Event (AE_Steered None (Some "s2"%string))), at_ 150 "e2");
   (WK_Stream (SI_Event (AE_ToolResult "c1" false None None)), at_ 160 "e3"); (WK_Stream (SI_Event (AE_TextDelta "ing")), at_ 170 "e3");
   (WK_Stream (SI_Event (AE_Done DS_Completed None None None)), at_ 180 "e3"); (WK_Stream (SI_Event (AE_TextDelta "noise")), at_ 190 "e4");
   (WK_Stream (SI_Event (AE_TextDelta "Done.")), at_ 2000 "e4")]%Z.
Definition demo_run : option (ChatEngine View (list AgentEvent) unit * RunLoop) :=
  drive (X:=string) "chat" "dev" demo_diff demo_run_config demo_wakes (demo_engine, loop_start "e1" 1000 0).
Example demo_run_segments : (fun s => rendered_text (segments (rd_history s.2)) +:+ "|" +:+ rendered_text (rd_folded s.2)) <$> demo_run = Some "Building|Done."%string.
Proof. vm_compute. reflexivity. Qed.

Lemma demo_run_reaches : exists s, demo_run = Some s /\ rtc (run_step "chat" "dev" demo_diff demo_run_config) (demo_engine, loop_start "e1" 1000 0) s.
Proof.
  destruct demo_run as [s|] eqn:E; [|vm_compute in E; discriminate E]. exists s. split; [done|]. exact (drive_reaches _ _ _ _ _ _ _ E).
Defined.

Lemma run_transcript_witness : exists s, demo_run = Some s /\ run_inv s.2.
Proof.
  destruct demo_run_reaches as ([g r] & E & H). exists (g, r). split; [exact E|].
  exact (proj1 (run_transcript "chat" "dev" demo_diff demo_run_config "e1" 1000 0 demo_engine g r H)).
Defined.
(** The question the steer cut off stays open in the first segment. *)
Example demo_question_left : (fun s => existsb open_question (segments (rd_history s.2))) <$> demo_run = Some true.
Proof. vm_compute. reflexivity. Qed.
