(* ===== verification/ChatFrames.v ===== *)
(** The frames of a chat room, [crates/sync/src/chat_frames.rs]: a type byte,
    the length of the header as four little-endian bytes, the header as JSON,
    and an opaque payload.

    Bytes are strings.  The JSON codec is a parameter. *)
From Stdlib Require Import ZArith Lia Ascii String.
From stdpp Require Import base tactics numbers list strings.
From S2P Require Import Prelude Json Text Utf8.
Open Scope keel_scope.

(** * Frame types *)

Definition HELLO : Z := 1.
Definition STATE : Z := 2.
Definition ROWS_REQ : Z := 3.
Definition ROW : Z := 4.
Definition ROWS_DONE : Z := 5.
Definition PUSH : Z := 6.
Definition ACK : Z := 7.
Definition PRESENCE : Z := 8.
Definition PROBE : Z := 9.
Definition PROBE_OK : Z := 10.
Definition ERROR : Z := 11.

Definition MAX_HEADER_BYTES : nat := N.to_nat 4096.

Record WireFrame := mk_frame { wf_kind : Z; wf_header : Value; wf_payload : string }.

(** [serde_json::to_vec] and [from_slice]. *)
Class JsonBytes := { to_vec : Value -> string; from_slice : string -> option Value }.

Definition byte_of (z : Z) : ascii := ascii_of_N (Z.to_N (z mod 256)).
Definition byte_val (c : ascii) : Z := Z.of_N (N_of_ascii c).
(** [u32::to_le_bytes] and [u32::from_le_bytes]. *)
Definition u32_to_le (n : Z) : string :=
  String (byte_of n) (String (byte_of (Z.shiftr n 8)) (String (byte_of (Z.shiftr n 16)) (String (byte_of (Z.shiftr n 24)) EmptyString))).
Definition u32_from_le (s : string) : option Z :=
  match s with
  | String a (String b (String c (String d EmptyString))) => Some (byte_val a + 256 * byte_val b + 65536 * byte_val c + 16777216 * byte_val d)%Z
  | _ => None
  end.

Section frames.
Context {JB : JsonBytes}.

Definition encode (kind : Z) (header : Value) (payload : string) : string :=
  let header := to_vec header in
  String (byte_of kind) (u32_to_le (Z.of_nat (String.length header) mod 2 ^ 32)) +:+ header +:+ payload.

Definition decode (bytes : string) : option WireFrame :=
  match bytes with
  | String kind rest =>
      if String.length bytes <? 5 then None
      else
        header_len ← u32_from_le (str_take 4 rest);
        let header_len := Z.to_nat header_len in
        if (MAX_HEADER_BYTES <? header_len) || (String.length bytes <? 5 + header_len) then None
        else
          header ← from_slice (str_take header_len (str_drop 4 rest));
          if is_object header then Some (mk_frame (byte_val kind) header (str_drop header_len (str_drop 4 rest))) else None
  | EmptyString => None
  end.
End frames.

(** * Headers *)

Definition hello_header (cursor : Z) (device : string) : Value := Obj [("cursor"%string, Num (PosInt cursor)); ("device"%string, Str device)].
Definition rows_req_header (after : Z) (exclude_own : bool) : Value := Obj [("after"%string, Num (PosInt after)); ("excludeOwn"%string, Bool exclude_own)].
Definition push_header (batch_id : string) : Value := Obj [("batchId"%string, Str batch_id)].
Definition presence_out_header (at_ : Z) : Value := Obj [("at"%string, json_i64 at_)].
Definition probe_header : Value := Obj [].

(** The fields of a derived [Deserialize]: a missing field is its default, when
    it has one; a field of another type fails. *)
Definition req {A} (f : Value -> option A) (k : string) (v : Value) : option A := get k v ≫= f.
Definition dft {A} (f : Value -> option A) (d : A) (k : string) (v : Value) : option A := match get k v with Some x => f x | None => Some d end.

Record StateHeader := mk_state {
  st_head_seq : Z; st_seq_floor : Z; st_checkpoint_seq : Z; st_checkpoint_size : Z; st_row_count : Z; st_row_bytes : Z
}.
Definition parse_state (v : Value) : option StateHeader :=
  h ← req as_u64 "headSeq" v; f ← req as_u64 "seqFloor" v; c ← req as_u64 "checkpointSeq" v; z ← req as_u64 "checkpointSize" v;
  n ← dft as_u64 0%Z "rowCount" v; b ← dft as_u64 0%Z "rowBytes" v; Some (mk_state h f c z n b).
Record RowHeader := mk_row { rw_seq : Z; rw_device : string; rw_batch_id : string }.
Definition parse_row (v : Value) : option RowHeader :=
  s ← req as_u64 "seq" v; d ← req as_str "device" v; b ← req as_str "batchId" v; Some (mk_row s d b).
Definition parse_rows_done (v : Value) : option Z := req as_u64 "headSeq" v.
Record AckHeader := mk_ack { ak_batch_id : string; ak_seq : Z; ak_dup : bool }.
Definition parse_ack (v : Value) : option AckHeader :=
  b ← req as_str "batchId" v; s ← req as_u64 "seq" v; d ← dft as_bool false "dup" v; Some (mk_ack b s d).
Definition parse_probe_ok (v : Value) : option Z := req as_u64 "headSeq" v.

(** * The codec *)

Lemma byte_val_of z : byte_val (byte_of z) = (z mod 256)%Z.
Proof.
  unfold byte_val, byte_of. pose proof (Z.mod_pos_bound z 256 ltac:(lia)). rewrite N_ascii_embedding by lia. lia.
Qed.
Lemma u32_le_roundtrip n : (0 <= n < 2 ^ 32)%Z -> u32_from_le (u32_to_le n) = Some n.
Proof.
  intros Hn. unfold u32_to_le, u32_from_le. rewrite !byte_val_of, !Z.shiftr_div_pow2 by lia. f_equal.
  change (2 ^ 8)%Z with 256%Z. change (2 ^ 16)%Z with 65536%Z. change (2 ^ 24)%Z with 16777216%Z. change (2 ^ 32)%Z with 4294967296%Z in Hn.
  Z.to_euclidean_division_equations. lia.
Qed.

Lemma str_take_app_length s t : str_take (String.length s) (s +:+ t) = s.
Proof. rewrite str_take_length_app by lia. apply str_take_all. Qed.
Lemma u32_to_le_length n : String.length (u32_to_le n) = 4.
Proof. done. Qed.
Lemma str_take_le n k t : str_take (4 + k) (u32_to_le n +:+ t) = u32_to_le n +:+ str_take k t.
Proof. reflexivity. Qed.
Lemma str_take_4 n t : str_take 4 (u32_to_le n +:+ t) = u32_to_le n.
Proof. reflexivity. Qed.
Lemma str_drop_4 n t : str_drop 4 (u32_to_le n +:+ t) = t.
Proof. reflexivity. Qed.

Section codec.
Context {JB : JsonBytes}.

Lemma encode_parts kind h p : encode kind h p = String (byte_of kind) (u32_to_le (Z.of_nat (String.length (to_vec h)) mod 2 ^ 32) +:+ (to_vec h +:+ p)).
Proof. unfold encode. by rewrite str_app_cons. Qed.

Lemma decode_encoded kind h p : (0 <= kind < 256)%Z -> (Z.of_nat (String.length (to_vec h)) < 2 ^ 32)%Z ->
  decode (encode kind h p) =
    if MAX_HEADER_BYTES <? String.length (to_vec h) then None
    else header ← from_slice (to_vec h); if is_object header then Some (mk_frame kind header p) else None.
Proof.
  intros Hk Hl. rewrite encode_parts. cbn [decode]. set (z := (_ mod 2 ^ 32)%Z).
  assert (Hlen : String.length (String (byte_of kind) (u32_to_le z +:+ (to_vec h +:+ p))) = 5 + String.length (to_vec h) + String.length p).
  { cbn. rewrite !str_length_app. rewrite u32_to_le_length. lia. }
  rewrite Hlen. replace (_ <? 5) with false by (symmetry; apply Nat.ltb_ge; lia).
  rewrite str_take_4, str_drop_4, u32_le_roundtrip by (apply Z.mod_pos_bound; lia). cbn [mbind option_bind]. unfold z. rewrite Z.mod_small, Nat2Z.id by lia.
  rewrite str_take_app_length, str_drop_app, byte_val_of, Z.mod_small by lia.
  replace (5 + String.length (to_vec h) + String.length p <? 5 + String.length (to_vec h)) with false by (symmetry; apply Nat.ltb_ge; lia).
  by rewrite orb_false_r.
Qed.

(** The wire layout: a frame whose header is an object the JSON codec
    reads back decodes to the kind, the header and the payload it was encoded
    from, whatever bytes the payload holds; a frame whose header exceeds the
    limit never decodes; and a frame cut anywhere before its payload never
    decodes, so a header is never read from a torn frame. *)
Theorem frame_roundtrips kind h p : (0 <= kind < 256)%Z -> from_slice (to_vec h) = Some h -> is_object h = true ->
  (Z.of_nat (String.length (to_vec h)) < 2 ^ 32)%Z ->
  (String.length (to_vec h) <= MAX_HEADER_BYTES -> decode (encode kind h p) = Some (mk_frame kind h p))
  /\ (MAX_HEADER_BYTES < String.length (to_vec h) -> decode (encode kind h p) = None)
  /\ forall n, n < 5 + String.length (to_vec h) -> decode (str_take n (encode kind h p)) = None.
Proof.
  intros Hk Hj Ho Hl. rewrite decode_encoded by done. split_and!.
  - intros H. replace (_ <? _) with false by (symmetry; apply Nat.ltb_ge; lia). rewrite Hj. cbn. by rewrite Ho.
  - intros H. by replace (_ <? _) with true by (symmetry; apply Nat.ltb_lt; lia).
  - intros n Hn. rewrite encode_parts. destruct n as [|n]; [done|]. set (z := (_ mod 2 ^ 32)%Z). set (body := to_vec h +:+ p).
    change (str_take (S n) (String (byte_of kind) (u32_to_le z +:+ body))) with (String (byte_of kind) (str_take n (u32_to_le z +:+ body))).
    set (cut := str_take n (u32_to_le z +:+ body)). cbn [decode]. assert (Hc : String.length cut <= n) by (unfold cut; rewrite str_length_take; lia).
    destruct (String.length (String (byte_of kind) cut) <? 5) eqn:E5; [done|]. apply Nat.ltb_ge in E5. cbn [String.length] in E5.
    assert (Hcut : cut = u32_to_le z +:+ str_take (n - 4) body) by (unfold cut; replace n with (4 + (n - 4)) at 1 by lia; apply str_take_le).
    rewrite Hcut, str_take_4, u32_le_roundtrip by (apply Z.mod_pos_bound; lia). rewrite <- Hcut. cbn [mbind option_bind].
    unfold z. rewrite Z.mod_small, Nat2Z.id by lia.
    replace (_ || _) with true; [done|]. symmetry. apply orb_true_iff. right. apply Nat.ltb_lt. cbn [String.length]. lia.
Qed.
End codec.

(** A codec of a few headers. *)
#[export] Instance demo_json_bytes : JsonBytes := {
  to_vec v := match v with Obj [] => "{}"%string | Obj [("batchId"%string, Str s)] => "B"%string +:+ s | _ => EmptyString end;
  from_slice s := match s with "{}"%string => Some (Obj []) | String "B" s => Some (push_header s) | _ => None end;
}.
Lemma frame_roundtrips_witness : decode (encode PUSH (push_header "b1") "xyz") = Some (mk_frame PUSH (push_header "b1") "xyz").
Proof.
  apply (frame_roundtrips PUSH (push_header "b1") "xyz"); [unfold PUSH; lia|vm_compute; reflexivity|vm_compute; reflexivity|vm_compute; reflexivity|].
  apply Nat.leb_le. vm_compute. reflexivity.
Defined.
