(* ===== verification/ChatClient.v ===== *)
(** The client of a chat room, [crates/sync/src/chat_client.rs]: the catch-up
    plan, the frames it handles, the queue of unacknowledged batches, one
    session as a machine over its inputs, and the actor that redials.

    The document sink is an interface, as is the checkpoint fetch; the pipe is
    how many more frames it takes.  Times are milliseconds of the monotonic
    clock. *)
From Stdlib Require Import ZArith Lia Ascii String.
From stdpp Require Import base tactics numbers list strings sorting gmap.
From S2P Require Import Prelude Json Text ChatFrames.
Open Scope keel_scope.

(** * Constants *)

Definition HELLO_DEADLINE : Z := 15000.
Definition BACKFILL_DEADLINE : Z := 120000.
Definition PROBE_DEADLINE : Z := 10000.
Definition BACKOFF_BASE : Z := 250.
Definition BACKOFF_CAP : Z := 30000.
Definition QUOTA_RETRY : Z := 5000.
Definition MAX_PUSH_BYTES : nat := N.to_nat (1024 * 1024 - 4096).

(** * The catch-up plan *)

Inductive ChatEvent := CE_Connected | CE_CaughtUp (head_seq : Z) | CE_Applied | CE_Disconnected | CE_Presence | CE_ServerReset | CE_PushRejected.

Inductive CatchUpPlan := CP_RowsOnly (after : Z) | CP_CheckpointThenRows (after : Z).
Definition plan_after (p : CatchUpPlan) : Z := match p with CP_RowsOnly a | CP_CheckpointThenRows a => a end.
Definition plan_catch_up (cursor : Z) (state : StateHeader) (frontier_contained : bool) : CatchUpPlan :=
  let cursor := if (st_head_seq state <? cursor)%Z then 0%Z else cursor in
  if (st_checkpoint_size state =? 0)%Z then CP_RowsOnly cursor
  else if frontier_contained then CP_RowsOnly (Z.max cursor (st_checkpoint_seq state))
  else CP_CheckpointThenRows (st_checkpoint_seq state).

(** * State *)

Class ChatDocSink (S : Type) := {
  sk_apply_row : string -> Z -> S -> S;
  sk_apply_checkpoint : string -> Z -> S -> S * bool;
  sk_contains_frontier : string -> S -> bool;
  sk_advance_cursor : Z -> S -> S;
}.

(** A row of the room's log, and what the rest of the client is promised about
    the sink: which rows its document holds, while the document is there at all
    ([sk_live]).  Importing a row, a checkpoint or a new cursor never loses
    one; a row of the log that arrives is held afterwards, which is so for bytes
    the document can import. *)
Record LogRow := mk_log_row { lg_seq : Z; lg_device : string; lg_bytes : string }.
Class HoldingSink (S : Type) := { sk_live : S -> Prop; sk_holds : S -> LogRow -> Prop }.
Definition sink_keeps {S} `{HoldingSink S} (s s' : S) : Prop := (sk_live s -> sk_live s') /\ forall r, sk_holds s r -> sk_holds s' r.
Class LawfulSink (S : Type) `{ChatDocSink S, HoldingSink S} (log : list LogRow) : Prop := {
  ls_row_keeps s bytes seq : sink_keeps s (sk_apply_row bytes seq s);
  ls_row_held s r : sk_live s -> r ∈ log -> sk_holds (sk_apply_row (lg_bytes r) (lg_seq r) s) r;
  ls_checkpoint_keeps s blob seq : sink_keeps s (sk_apply_checkpoint blob seq s).1;
  ls_advance_keeps s seq : sink_keeps s (sk_advance_cursor seq s);
}.

Record PendingPush := mk_push { pp_batch_id : string; pp_bytes : string }.
Record Shared := mk_shared {
  sh_cursor : Z;
  sh_pending : list PendingPush;
  sh_server : option StateHeader;
  sh_retry_at : option Z;
  sh_quota_blocked : bool;
}.
Record Flags := mk_flags { fl_connected : bool; fl_rejoins : Z; fl_disconnects : Z; fl_rejected : Z; fl_server_resets : Z }.

Record Client (S : Type) := mk_client {
  cl_shared : Shared;
  cl_flags : Flags;
  cl_sink : S;
  cl_events : list ChatEvent;
  cl_resumed : bool;
  cl_joining : bool;           (* the first join is not answered yet *)
}.
Arguments mk_client {S}.
Arguments cl_shared {S}.
Arguments cl_flags {S}.
Arguments cl_sink {S}.
Arguments cl_events {S}.
Arguments cl_resumed {S}.
Arguments cl_joining {S}.

Definition with_cursor (z : Z) (s : Shared) : Shared := mk_shared z (sh_pending s) (sh_server s) (sh_retry_at s) (sh_quota_blocked s).
Definition with_pending (l : list PendingPush) (s : Shared) : Shared := mk_shared (sh_cursor s) l (sh_server s) (sh_retry_at s) (sh_quota_blocked s).
Definition with_server (v : option StateHeader) (s : Shared) : Shared := mk_shared (sh_cursor s) (sh_pending s) v (sh_retry_at s) (sh_quota_blocked s).
Definition with_retry (t : option Z) (s : Shared) : Shared := mk_shared (sh_cursor s) (sh_pending s) (sh_server s) t (sh_quota_blocked s).
Definition with_quota (b : bool) (s : Shared) : Shared := mk_shared (sh_cursor s) (sh_pending s) (sh_server s) (sh_retry_at s) b.

Section client.
Context {SK : Type} {HS : ChatDocSink SK} {JB : JsonBytes} (device_id : string) (probe_quiet : Z).
Abbreviation Client := (Client SK).
Implicit Types (c : Client) (now : Z) (room : nat).

Definition on_shared (f : Shared -> Shared) c : Client := mk_client (f (cl_shared c)) (cl_flags c) (cl_sink c) (cl_events c) (cl_resumed c) (cl_joining c).
Definition on_flags (f : Flags -> Flags) c : Client := mk_client (cl_shared c) (f (cl_flags c)) (cl_sink c) (cl_events c) (cl_resumed c) (cl_joining c).
Definition emit (e : ChatEvent) c : Client := mk_client (cl_shared c) (cl_flags c) (cl_sink c) (cl_events c ++ [e]) (cl_resumed c) (cl_joining c).
Definition with_sink (sink : SK) c : Client := mk_client (cl_shared c) (cl_flags c) sink (cl_events c) (cl_resumed c) (cl_joining c).
Definition joined c : Client := mk_client (cl_shared c) (cl_flags c) (cl_sink c) (cl_events c) true false.

Definition set_connected (b : bool) (f : Flags) : Flags := mk_flags b (fl_rejoins f) (fl_disconnects f) (fl_rejected f) (fl_server_resets f).
Definition add_rejoin (f : Flags) : Flags := mk_flags (fl_connected f) (u64_succ (fl_rejoins f)) (fl_disconnects f) (fl_rejected f) (fl_server_resets f).
Definition add_disconnect (f : Flags) : Flags := mk_flags (fl_connected f) (fl_rejoins f) (u64_succ (fl_disconnects f)) (fl_rejected f) (fl_server_resets f).
Definition add_rejected (f : Flags) : Flags := mk_flags (fl_connected f) (fl_rejoins f) (fl_disconnects f) (u64_succ (fl_rejected f)) (fl_server_resets f).
Definition add_reset (f : Flags) : Flags := mk_flags (fl_connected f) (fl_rejoins f) (fl_disconnects f) (fl_rejected f) (u64_succ (fl_server_resets f)).

Definition initial (cursor : Z) (sink : SK) : Client :=
  mk_client (mk_shared cursor [] None None false) (mk_flags false 0 0 0 0) sink [] false true.

(** ** The host's side *)

Definition enqueue_update (bytes batch_id : string) c : Client :=
  if MAX_PUSH_BYTES <? String.length bytes then emit CE_PushRejected (on_flags add_rejected c)
  else on_shared (fun s => with_pending (sh_pending s ++ [mk_push batch_id bytes]) s) c.
Definition covered_to (seq_covered size : Z) (v : StateHeader) : StateHeader := mk_state (st_head_seq v) seq_covered seq_covered size 0 0.
Definition note_checkpoint (seq_covered size : Z) c : Client :=
  on_shared (fun s => with_server (covered_to seq_covered size <$> sh_server s) s) c.

(** ** Frames *)

Definition push_frame (p : PendingPush) : string := encode PUSH (push_header (pp_batch_id p)) (pp_bytes p).
(** What the pipe took of the frames, and whether it took them all. *)
Definition send_all room (frames : list string) : list string * bool := (take room frames, length frames <=? room).
Definition push_pending room c : list string * bool := send_all room (push_frame <$> sh_pending (cl_shared c)).
Definition push_head room c : list string * bool := send_all room (push_frame <$> take 1 (sh_pending (cl_shared c))).

Definition permanent (code : string) : bool := bool_decide (code = "too_large"%string) || bool_decide (code = "empty"%string) || bool_decide (code = "bad_push"%string).
Definition field_str (k : string) (header : Value) (d : string) : string := default d (get k header ≫= as_str).
Definition retire (batch_id : string) (l : list PendingPush) : list PendingPush := base.filter (fun p => pp_batch_id p <> batch_id) l.
Definition raise_cursor (seq : Z) (s : Shared) : Shared := with_cursor (Z.max (sh_cursor s) seq) s.
Definition acked now (s : Shared) : Shared :=
  if sh_quota_blocked s then
    if decide (sh_pending s = []) then with_quota false s else with_retry (Some now) s
  else s.
Definition raise_head (head : Z) (v : StateHeader) : StateHeader :=
  mk_state (Z.max (st_head_seq v) head) (st_seq_floor v) (st_checkpoint_seq v) (st_checkpoint_size v) (st_row_count v) (st_row_bytes v).

(** False: the session breaks down. *)
Definition handle_frame now (f : WireFrame) c : Client * bool :=
  let k := wf_kind f in
  if (k =? ROW)%Z then
    match parse_row (wf_header f) with
    | None => (c, false)
    | Some row =>
        let c := with_sink (sk_apply_row (wf_payload f) (rw_seq row) (cl_sink c)) c in
        (emit CE_Applied (on_shared (raise_cursor (rw_seq row)) c), true)
    end
  else if (k =? ACK)%Z then
    match parse_ack (wf_header f) with
    | None => (c, false)
    | Some ack =>
        let c := on_shared (fun s => acked now (raise_cursor (ak_seq ack) (with_pending (retire (ak_batch_id ack) (sh_pending s)) s))) c in
        let cursor := sh_cursor (cl_shared c) in
        (emit CE_Applied (with_sink (sk_advance_cursor cursor (cl_sink c)) c), true)
    end
  else if (k =? PRESENCE)%Z then (emit CE_Presence c, true)
  else if (k =? PROBE_OK)%Z then
    (match parse_probe_ok (wf_header f) with
     | Some head => on_shared (fun s => with_server (raise_head head <$> sh_server s) s) c
     | None => c
     end, true)
  else if (k =? STATE)%Z then
    (match parse_state (wf_header f) with Some v => on_shared (with_server (Some v)) c | None => c end, true)
  else if (k =? ERROR)%Z then
    let c := on_flags add_rejected c in
    let code := field_str "code" (wf_header f) "?" in
    let batch_id := field_str "batchId" (wf_header f) EmptyString in
    if permanent code && negb (bool_decide (batch_id = EmptyString)) then
      let pending := sh_pending (cl_shared c) in
      let c := on_shared (with_pending (retire batch_id pending)) c in
      (if length (retire batch_id pending) =? length pending then c else emit CE_PushRejected c, true)
    else if bool_decide (code = "quota"%string) then (on_shared (fun s => with_retry (Some (now + QUOTA_RETRY)%Z) (with_quota true s)) c, true)
    else (c, true)
  else (c, true).

(** ** One session *)

Inductive Phase :=
| PH_Hello (cursor deadline : Z)
| PH_Fetch (cursor : Z) (state : StateHeader)
| PH_Backfill (deadline : Z)
| PH_Steady (last_frame : Z) (probe_deadline : option Z).
Inductive Input :=
| IN_Frame (bytes : string)
| IN_Closed
| IN_Deadline                       (* of the handshake, the fetch, the backfill or a probe *)
| IN_Fetched (blob : option string)
| IN_Nudge | IN_Presence (at_ : Z) (payload : string) | IN_Probe | IN_Redial | IN_Retry | IN_Quiet | IN_Shutdown.
Inductive Outcome := OC_On (ph : Phase) | OC_Reconnect | OC_Stop.

(** What each phase waits for. *)
Definition takes (ph : Phase) now c (i : Input) : bool :=
  match ph, i with
  | PH_Hello _ _, (IN_Frame _ | IN_Closed) | PH_Backfill _, (IN_Frame _ | IN_Closed) => true
  | PH_Hello _ d, IN_Deadline | PH_Backfill d, IN_Deadline => (d <=? now)%Z
  | PH_Fetch _ _, (IN_Fetched _ | IN_Deadline | IN_Shutdown) => true
  | PH_Steady _ _, (IN_Frame _ | IN_Closed | IN_Nudge | IN_Presence _ _ | IN_Probe | IN_Redial | IN_Shutdown) => true
  | PH_Steady _ d, IN_Deadline => match d with Some d => (d <=? now)%Z | None => false end
  | PH_Steady _ _, IN_Retry => match sh_retry_at (cl_shared c) with Some t => (t <=? now)%Z | None => false end
  | PH_Steady last _, IN_Quiet => (last + probe_quiet <=? now)%Z
  | _, _ => false
  end.

Definition sent (r : list string * bool) (ph : Phase) : list string * Outcome := (r.1, if r.2 then OC_On ph else OC_Reconnect).
Definition session_start room now c : list string * Outcome :=
  let cursor := sh_cursor (cl_shared c) in
  sent (send_all room [encode HELLO (hello_header cursor device_id) EmptyString]) (PH_Hello cursor (now + HELLO_DEADLINE)%Z).
(** The rows after [after] are asked for. *)
Definition request_rows room now (cursor after : Z) c : Client * (list string * Outcome) :=
  let c := if (after <? cursor)%Z then on_shared (with_cursor after) c else c in
  (c, sent (send_all room [encode ROWS_REQ (rows_req_header after (cl_resumed c)) EmptyString]) (PH_Backfill (now + BACKFILL_DEADLINE)%Z)).
(** The answer to the hello. *)
Definition greeted room now (cursor : Z) (f : WireFrame) c : Client * (list string * Outcome) :=
  match parse_state (wf_header f) with
  | None => (c, ([], OC_Reconnect))
  | Some state =>
      let c := on_flags (set_connected true) (on_shared (with_server (Some state)) c) in
      let c := emit CE_Connected (if cl_joining c then c else on_flags add_rejoin c) in
      let c := if (st_head_seq state <? cursor)%Z then emit CE_ServerReset (on_flags add_reset c) else c in
      let contained := (st_checkpoint_size state =? 0)%Z || sk_contains_frontier (wf_payload f) (cl_sink c) in
      match plan_catch_up cursor state contained with
      | CP_RowsOnly after => request_rows room now cursor after c
      | CP_CheckpointThenRows _ => (c, ([], OC_On (PH_Fetch cursor state)))
      end
  end.
(** The checkpoint arrives. *)
Definition fetched room now (cursor : Z) (state : StateHeader) (blob : string) c : Client * (list string * Outcome) :=
  match sk_apply_checkpoint blob (st_checkpoint_seq state) (cl_sink c) with
  | (sink, false) => (mk_client (cl_shared c) (cl_flags c) sink (cl_events c) (cl_resumed c) (cl_joining c), ([], OC_Reconnect))
  | (sink, true) =>
      let c := emit CE_Applied (on_shared (raise_cursor (st_checkpoint_seq state)) (with_sink sink c)) in
      request_rows room now cursor (st_checkpoint_seq state) c
  end.
Definition send_probe room now (last : Z) (probe_deadline : option Z) : list string * Outcome :=
  sent (send_all room [encode PROBE probe_header EmptyString]) (PH_Steady last (Some (default (now + PROBE_DEADLINE)%Z probe_deadline))).

Definition session_step room now (i : Input) (ph : Phase) c : Client * (list string * Outcome) :=
  match ph, i with
  | PH_Hello cursor _, IN_Frame bytes =>
      match decode bytes with
      | None => (c, ([], OC_Reconnect))
      | Some f => if (wf_kind f =? STATE)%Z then greeted room now cursor f c else (c, ([], OC_On ph))
      end
  | PH_Fetch cursor state, IN_Fetched (Some blob) => fetched room now cursor state blob c
  | PH_Fetch _ _, IN_Fetched None => (c, ([], OC_Reconnect))
  | PH_Fetch _ _, IN_Shutdown => (c, ([], OC_Stop))
  | PH_Backfill _, IN_Frame bytes =>
      match decode bytes with
      | None => (c, ([], OC_Reconnect))
      | Some f =>
          if (wf_kind f =? ROWS_DONE)%Z then
            match parse_rows_done (wf_header f) with
            | None => (c, ([], OC_Reconnect))
            | Some head => let c := emit (CE_CaughtUp head) (joined c) in (c, sent (push_pending room c) (PH_Steady now None))
            end
          else let '(c, ok) := handle_frame now f c in (c, ([], if ok then OC_On ph else OC_Reconnect))
      end
  | PH_Steady _ _, IN_Frame bytes =>
      match decode bytes with
      | None => (c, ([], OC_Reconnect))
      | Some f => let '(c, ok) := handle_frame now f c in (c, ([], if ok then OC_On (PH_Steady now None) else OC_Reconnect))
      end
  | PH_Steady _ _, IN_Nudge => (c, sent (push_pending room c) ph)
  | PH_Steady _ _, IN_Presence at_ payload => (c, sent (send_all room [encode PRESENCE (presence_out_header at_) payload]) ph)
  | PH_Steady last d, IN_Probe => (c, send_probe room now last d)
  | PH_Steady _ d, IN_Quiet => (c, send_probe room now now d)
  | PH_Steady _ _, IN_Retry => let c := on_shared (with_retry None) c in (c, sent (push_head room c) ph)
  | PH_Steady _ _, IN_Shutdown => (c, ([], OC_Stop))
  | _, (IN_Closed | IN_Deadline | IN_Redial) => (c, ([], OC_Reconnect))
  | _, _ => (c, ([], OC_On ph))
  end.

(** ** The actor *)

Inductive Actor := AC_Dial (backoff : Z) | AC_Session (backoff : Z) (ph : Phase) | AC_Sleep (backoff : Z) | AC_Stopped.
Inductive ActorInput := AI_Dialled (ok : bool) | AI_Session (i : Input) | AI_Slept | AI_Shutdown.

Definition next_backoff (b : Z) : Z := Z.min (b * 2) BACKOFF_CAP.
(** After a failed dial or a lost session: the first join is given up. *)
Definition back_off (backoff : Z) c : Client * Actor :=
  if cl_joining c then (mk_client (cl_shared c) (cl_flags c) (cl_sink c) (cl_events c) (cl_resumed c) false, AC_Stopped)
  else (c, AC_Sleep backoff).
Definition settle (backoff : Z) (o : Outcome) c : Client * Actor :=
  match o with
  | OC_On ph => (c, AC_Session backoff ph)
  | OC_Stop => (c, AC_Stopped)
  | OC_Reconnect => back_off backoff (emit CE_Disconnected (on_flags (fun f => add_disconnect (set_connected false f)) c))
  end.
Definition actor_step room now (i : ActorInput) (a : Actor) c : Client * Actor * list string :=
  match a, i with
  | AC_Dial backoff, AI_Dialled true =>
      let '(out, o) := session_start room now c in let '(c, a) := settle backoff o c in (c, a, out)
  | AC_Dial backoff, AI_Dialled false => let '(c, a) := back_off backoff c in (c, a, [])
  | AC_Session backoff ph, AI_Session i =>
      if takes ph now c i then
        let '(c, (out, o)) := session_step room now i ph c in let '(c, a) := settle backoff o c in (c, a, out)
      else (c, a, [])
  | AC_Sleep backoff, AI_Slept => (c, AC_Dial (next_backoff backoff), [])
  | (AC_Sleep _ | AC_Dial _), AI_Shutdown => (c, AC_Stopped, [])
  | _, _ => (c, a, [])
  end.
End client.

(** * The room's log *)

Section facts.
Context {SK : Type} {HS : ChatDocSink SK} {HH : HoldingSink SK} {JB : JsonBytes} (device_id : string) (probe_quiet : Z).
Local Abbreviation Client := (Client SK).
Local Abbreviation session_step := (session_step (SK:=SK)).
Implicit Types (c : Client) (log : list LogRow).
Local Abbreviation cursor c := (sh_cursor (cl_shared c)).
Local Abbreviation held c := (sk_holds (cl_sink c)).

(** The document holds the rows of the log up to [last]. *)
Definition holds_to log (last : Z) c : Prop := forall r, r ∈ log -> (lg_seq r <= last)%Z -> held c r.
Definition no_gap log c : Prop := holds_to log (cursor c) c.

(** The request as the room reads it off the wire. *)
Definition asked (out : list string) : option (Z * bool) :=
  match out with
  | [bytes] =>
      f ← decode bytes;
      if (wf_kind f =? ROWS_REQ)%Z then
        after ← get "after" (wf_header f) ≫= as_u64;
        exclude_own ← get "excludeOwn" (wf_header f) ≫= as_bool;
        Some (after, exclude_own)
      else None
  | _ => None
  end.
(** JSON of a request reads back. *)
Definition request_readable (after : Z) : Prop := forall b,
  from_slice (to_vec (rows_req_header after b)) = Some (rows_req_header after b) /\ String.length (to_vec (rows_req_header after b)) <= MAX_HEADER_BYTES.

(** What the room sends a session that asked for the rows after [last]: the
    rows in the order of the log, from there on, acknowledgements among them,
    and anything else between.  It leaves out nothing but rows of this device,
    and those only when it was asked to, or when they were [mine] already: rows
    the document held when the session began, acknowledged rather than sent. *)
Inductive feed (exclude_own : bool) (mine : LogRow -> Prop) : Z -> list LogRow -> list WireFrame -> Z -> list LogRow -> Prop :=
| feed_cut last l : feed exclude_own mine last l [] last l
| feed_noise last l f fs last' l' : wf_kind f <> ROW -> wf_kind f <> ACK -> feed exclude_own mine last l fs last' l' -> feed exclude_own mine last l (f :: fs) last' l'
| feed_row last r l f fs row last' l' : wf_kind f = ROW -> parse_row (wf_header f) = Some row -> rw_seq row = lg_seq r -> wf_payload f = lg_bytes r ->
    feed exclude_own mine (lg_seq r) l fs last' l' -> feed exclude_own mine last (r :: l) (f :: fs) last' l'
| feed_row_again last l f fs row last' l' : wf_kind f = ROW -> parse_row (wf_header f) = Some row -> (rw_seq row <= last)%Z ->
    feed exclude_own mine last l fs last' l' -> feed exclude_own mine last l (f :: fs) last' l'
| feed_own last r l fs last' l' : lg_device r = device_id -> exclude_own = true \/ mine r ->
    feed exclude_own mine (lg_seq r) l fs last' l' -> feed exclude_own mine last (r :: l) fs last' l'
| feed_ack last l f fs ack last' l' : wf_kind f = ACK -> parse_ack (wf_header f) = Some ack -> (ak_seq ack <= last)%Z ->
    feed exclude_own mine last l fs last' l' -> feed exclude_own mine last l (f :: fs) last' l'.

(** The inputs of a session, with the room in the pipe and the time of each. *)
Fixpoint play (ins : list (nat * Z * Input)) (ph : Phase) c : Client * Outcome :=
  match ins with
  | [] => (c, OC_On ph)
  | (room, now, i) :: ins =>
      if takes probe_quiet ph now c i then
        match session_step room now i ph c with
        | (c, (_, OC_On ph)) => play ins ph c
        | (c, (_, o)) => (c, o)
        end
      else play ins ph c
  end.
Definition received (ins : list (nat * Z * Input)) : list WireFrame :=
  omap (fun x => match x.2 with IN_Frame bytes => decode bytes | _ => None end) ins.

(** The room's checkpoint and its frontier say the truth about the log: a
    document that imported the one, or includes the other, holds the rows the
    checkpoint covers. *)
Definition checkpoint_covers log (blob : string) (seq : Z) : Prop := forall s s',
  sk_live s -> sk_apply_checkpoint blob seq s = (s', true) -> forall r, r ∈ log -> (lg_seq r <= seq)%Z -> sk_holds s' r.
Definition frontier_covers log (frontier : string) (seq : Z) : Prop := forall s,
  sk_live s -> sk_contains_frontier frontier s = true -> forall r, r ∈ log -> (lg_seq r <= seq)%Z -> sk_holds s r.

(** From the answer to the hello to the request for rows: what is sent, and the
    client that waits for the answer. *)
Inductive asks log c (state : StateHeader) : list string -> Client -> Phase -> Prop :=
| asks_rows room now f out c' d : parse_state (wf_header f) = Some state ->
    (st_checkpoint_size state <> 0%Z -> frontier_covers log (wf_payload f) (st_checkpoint_seq state)) ->
    greeted room now (cursor c) f c = (c', (out, OC_On (PH_Backfill d))) -> asks log c state out c' (PH_Backfill d)
| asks_checkpoint room now f out c1 room' now' blob out' c' ph : parse_state (wf_header f) = Some state ->
    greeted room now (cursor c) f c = (c1, (out, OC_On (PH_Fetch (cursor c) state))) -> checkpoint_covers log blob (st_checkpoint_seq state) ->
    fetched room' now' (cursor c) state blob c1 = (c', (out', OC_On ph)) -> asks log c state out' c' ph.

Definition keeps c c' : Prop := sink_keeps (cl_sink c) (cl_sink c').
Lemma keeps_same c c' : cl_sink c' = cl_sink c -> keeps c c'.
Proof. intros E. unfold keeps. rewrite E. by split. Qed.
Lemma holds_to_grow log last c c' : keeps c c' -> holds_to log last c -> holds_to log last c'.
Proof. intros [_ Hk] H r Hr Hl. by apply Hk, H. Qed.

(** ** Frames and the cursor *)

(** In the phases after the request a frame is handled, or ends the session. *)
Definition after_request (ph : Phase) : bool := match ph with PH_Backfill _ | PH_Steady _ _ => true | _ => false end.

Section gap.
Context {log : list LogRow} {LS : LawfulSink SK log}.

Lemma acked_cursor now s : sh_cursor (acked now s) = sh_cursor s.
Proof. unfold acked. destruct (sh_quota_blocked s); [|done]. by case_decide. Qed.

(** What a frame does to the cursor and the document. *)
Record moves (f : WireFrame) c c' : Prop := {
  mv_keeps : keeps c c';
  mv_row row : wf_kind f = ROW -> parse_row (wf_header f) = Some row ->
    cursor c' = Z.max (cursor c) (rw_seq row)
    /\ (sk_live (cl_sink c) -> forall r, r ∈ log -> lg_bytes r = wf_payload f -> lg_seq r = rw_seq row -> held c' r);
  mv_ack ack : wf_kind f = ACK -> parse_ack (wf_header f) = Some ack -> cursor c' = Z.max (cursor c) (ak_seq ack);
  mv_other : wf_kind f <> ROW -> wf_kind f <> ACK -> cursor c' = cursor c;
}.
Lemma moves_noise f c c' : wf_kind f <> ROW -> wf_kind f <> ACK -> cursor c' = cursor c -> cl_sink c' = cl_sink c -> moves f c c'.
Proof. intros Hr Ha Hc Hs. split; [by apply keeps_same|done..]. Qed.
Lemma handle_frame_moves now f c : moves f c (handle_frame now f c).1.
Proof.
  destruct (decide (wf_kind f = ROW)) as [Hk|Hr]; [|destruct (decide (wf_kind f = ACK)) as [Hk|Ha]].
  - unfold handle_frame. rewrite Hk. cbn. destruct (parse_row _) as [row|] eqn:Ep.
    + split; [apply ls_row_keeps| |by rewrite Hk|done]. intros ? _ E. rewrite Ep in E. injection E as <-. split; [done|]. cbn. intros Hl r Hin <- <-. by apply ls_row_held.
    + split; [by apply keeps_same|by rewrite Ep|by rewrite Hk|done].
  - unfold handle_frame. rewrite Hk. cbn. destruct (parse_ack _) as [ack|] eqn:Ep.
    + split; [apply ls_advance_keeps|by rewrite Hk| |done]. intros ? _ E. rewrite Ep in E. injection E as <-. cbn. by rewrite acked_cursor.
    + split; [by apply keeps_same|by rewrite Hk|by rewrite Ep|done].
  - apply moves_noise; [done|done|..]; unfold handle_frame; apply Z.eqb_neq in Hr, Ha; rewrite Hr, Ha;
      (destruct (_ =? PRESENCE)%Z; [done|]); (destruct (_ =? PROBE_OK)%Z; [by destruct (parse_probe_ok _)|]);
      (destruct (_ =? STATE)%Z; [by destruct (parse_state _)|]); (destruct (_ =? ERROR)%Z; [|done]);
      (destruct (_ && _); [by destruct (_ =? _)|]); by destruct (bool_decide _).
Qed.

Lemma session_step_quiet room now i ph c : after_request ph = true -> (forall b, i <> IN_Frame b) ->
  let '(c', (_, o)) := session_step room now i ph c in
  cursor c' = cursor c /\ cl_sink c' = cl_sink c /\ forall ph', o = OC_On ph' -> after_request ph' = true.
Proof.
  intros Hp Hi. destruct ph; try done; destruct i; try (by destruct (Hi bytes)); cbn [ChatClient.session_step];
    unfold send_probe, sent; try destruct (_.2); split_and!; try done; intros ? Ho; by simplify_eq.
Qed.
Lemma session_step_frame room now bytes ph c : after_request ph = true ->
  let '(c', (_, o)) := session_step room now (IN_Frame bytes) ph c in
  (forall ph', o = OC_On ph' -> after_request ph' = true)
  /\ match decode bytes with
     | None => c' = c /\ o = OC_Reconnect
     | Some f => moves f c c'
     end.
Proof.
  intros Hp. assert (Hh : forall f ph', after_request ph' = true -> let '(c', (_, o)) := let '(c, ok) := handle_frame now f c in (c, ([] : list string, if ok then OC_On ph' else OC_Reconnect)) in
    (forall ph', o = OC_On ph' -> after_request ph' = true) /\ moves f c c').
  { intros f ph' Hp'. pose proof (handle_frame_moves now f c) as Hm. destruct (handle_frame now f c) as [c' []]; (split; [|done]); intros ? Ho; by simplify_eq. }
  destruct ph; try done; cbn [ChatClient.session_step]; destruct (decode bytes) as [f|]; try (by split); [|by apply Hh].
  destruct (wf_kind f =? ROWS_DONE)%Z eqn:E; [|by apply Hh]. apply Z.eqb_eq in E.
  destruct (parse_rows_done _); unfold sent; cbn; [destruct (_ <=? _)|]; (split; [intros ? Ho; by simplify_eq|by apply moves_noise; rewrite ?E]).
Qed.

(** The rows up to [last] are held, and the rest of the log is to come. *)
Record tracked (skipped : LogRow -> Prop) (last : Z) (l : list LogRow) c : Prop := {
  tk_live : sk_live (cl_sink c);
  tk_held : holds_to log last c;
  tk_skipped : forall r, r ∈ log -> lg_device r = device_id -> skipped r -> held c r;
  tk_cursor : (cursor c <= last)%Z;
  tk_rest : forall r, r ∈ log -> (lg_seq r <= last)%Z \/ r ∈ l;
  tk_log : Forall (.∈ log) l;
  tk_sorted : StronglySorted (fun r r' => (lg_seq r < lg_seq r')%Z) l;
  tk_after : Forall (fun r => (last < lg_seq r)%Z) l;
}.
Lemma tracked_no_gap sk last l c : tracked sk last l c -> no_gap log c.
Proof. intros H r Hr Hl. apply (tk_held _ _ _ _ H); [done|]. pose proof (tk_cursor _ _ _ _ H). lia. Qed.
Lemma tracked_same sk last l c c' : (cursor c' <= Z.max (cursor c) last)%Z -> keeps c c' -> tracked sk last l c -> tracked sk last l c'.
Proof.
  intros Hc Hm [H1 H2 H3 H4 H5 H6 H7 H8]. split; [by apply Hm|by eapply holds_to_grow| |lia|done..].
  intros r Hr Hd Hs. by apply Hm, H3.
Qed.
Lemma tracked_next sk last r l c c' : tracked sk last (r :: l) c -> (cursor c' <= Z.max (cursor c) (lg_seq r))%Z -> keeps c c' -> held c' r ->
  tracked sk (lg_seq r) l c'.
Proof.
  intros [H1 H2 H3 H4 H5 H6 H7 H8] Hc Hm Hr. inversion_clear H6 as [|? ? Hin Hl]. inversion_clear H7 as [|? ? Hs Hall]. inversion_clear H8 as [|? ? Hlt Hafter].
  pose proof (holds_to_grow _ _ _ _ Hm H2) as H2'. split; [by apply Hm| |intros x Hx Hd Hs'; by apply Hm, H3|lia| |done..].
  - intros x Hx Hle. destruct (H5 x Hx) as [|[->|Hix]%elem_of_cons]; [by apply H2'|done|]. rewrite Forall_forall in Hall. specialize (Hall x Hix). lia.
  - intros x Hx. destruct (H5 x Hx) as [|[->|Hix]%elem_of_cons]; [left; lia|by left|by right].
Qed.
Lemma tracked_own sk last r l c : lg_device r = device_id -> sk r -> tracked sk last (r :: l) c -> tracked sk (lg_seq r) l c.
Proof. intros Hd Hs Ht. eapply (tracked_next _ _ _ _ c); [done|lia|by apply keeps_same|]. destruct Ht as [_ _ H3 _ _ H6 _ _]. inversion_clear H6. by apply H3. Qed.

Section feed.
Context (excl : bool) (mine : LogRow -> Prop).
Local Abbreviation skipped := (fun r => excl = true \/ mine r).
Lemma feed_end last l last' l' c : feed excl mine last l [] last' l' -> tracked skipped last l c -> tracked skipped last' l' c.
Proof. remember [] as fs eqn:E. induction 1; try done. intros Ht. apply IHfeed; [done|]. by eapply (tracked_own skipped). Qed.
Lemma feed_step last l f fs last' l' c c' : feed excl mine last l (f :: fs) last' l' -> moves f c c' -> tracked skipped last l c ->
  exists last1 l1, feed excl mine last1 l1 fs last' l' /\ tracked skipped last1 l1 c'.
Proof.
  intros H [Mk Mr Ma Mo]. remember (f :: fs) as all eqn:E. revert E.
  induction H as [|last l g gs last' l' K1 K2 Hf _|last r l g gs row last' l' K Hp Hq Hb Hf _|last l g gs row last' l' K Hp Hq Hf _|last r l gs last' l' Hd Hx Hf IH|last l g gs ack last' l' K Hp Hq Hf _];
    intros E Ht; try discriminate E; try (injection E as -> ->).
  - pose proof (Mo K1 K2). exists last, l. split; [done|]. apply (tracked_same _ _ _ c); [lia|done..].
  - destruct (Mr row K Hp) as [Hc Hh]. exists (lg_seq r), l. split; [done|].
    assert (Hr : r ∈ log) by (pose proof (tk_log _ _ _ _ Ht) as HF; by inversion_clear HF).
    eapply tracked_next; [exact Ht|lia|done|]. by apply (Hh (tk_live _ _ _ _ Ht)).
  - destruct (Mr row K Hp) as [Hc _]. exists last, l. split; [done|]. apply (tracked_same _ _ _ c); [lia|done..].
  - apply IH; [done|]. by eapply (tracked_own skipped).
  - pose proof (Ma ack K Hp). exists last, l. split; [done|]. apply (tracked_same _ _ _ c); [lia|done..].
Qed.

Lemma play_tracked ins : forall ph c last l last' l', after_request ph = true -> feed excl mine last l (received ins) last' l' -> tracked skipped last l c ->
  let '(c', o) := play ins ph c in no_gap log c' /\ forall ph', o = OC_On ph' -> tracked skipped last' l' c'.
Proof.
  induction ins as [|[[room now] i] ins IH]; intros ph c last l last' l' Hp Hf Ht; cbn [play].
  { pose proof (feed_end _ _ _ _ _ Hf Ht) as He. split; [by eapply tracked_no_gap|done]. }
  assert (Hcase : (exists b, i = IN_Frame b) \/ forall b, i <> IN_Frame b) by (destruct i; first [by left; eexists|by right]).
  destruct Hcase as [[b ->]|Hi].
  - assert (Htk : takes probe_quiet ph now c (IN_Frame b) = true) by (by destruct ph). rewrite Htk.
    pose proof (session_step_frame room now b ph c Hp) as Hs. destruct (session_step room now (IN_Frame b) ph c) as [c' [out o]]. destruct Hs as [Hon Hs].
    unfold received in Hf. rewrite list_omap_cons in Hf. cbn in Hf. destruct (decode b) as [f|].
    + destruct (feed_step _ _ _ _ _ _ _ _ Hf Hs Ht) as (last1 & l1 & Hf1 & Ht1).
      destruct o as [ph'| |]; [by eapply IH; [apply Hon|..]|by (split; [by eapply tracked_no_gap|])..].
    + destruct Hs as [-> ->]. split; [by eapply tracked_no_gap|done].
  - assert (Hf' : feed excl mine last l (received ins) last' l').
    { unfold received in *. rewrite list_omap_cons in Hf. destruct i; try exact Hf. by destruct (Hi bytes). }
    destruct (takes probe_quiet ph now c i); [|by eapply IH].
    pose proof (session_step_quiet room now i ph c Hp Hi) as Hs. destruct (session_step room now i ph c) as [c' [out o]].
    destruct Hs as (Hc & Hm & Hon).
    assert (Ht' : tracked skipped last l c') by (apply (tracked_same _ _ _ c); [lia|by apply keeps_same|done]).
    destruct o as [ph'| |]; [by eapply IH; [apply Hon|..]|by (split; [by eapply tracked_no_gap|])..].
Qed.
End feed.

(** ** The request *)

Lemma request_rows_spec room now cur after c : let '(c', (out, o)) := request_rows room now cur after c in
  cl_sink c' = cl_sink c /\ cursor c' = (if (after <? cur)%Z then after else cursor c)
  /\ forall ph, o = OC_On ph -> after_request ph = true /\ out = [encode ROWS_REQ (rows_req_header after (cl_resumed c)) EmptyString].
Proof.
  unfold request_rows, sent, send_all. destruct room as [|room]; destruct (_ <? _)%Z; cbn; (split_and!; [done..|]); intros ? Ho; simplify_eq; by rewrite ?take_nil.
Qed.
Lemma greeted_spec room now f c state : parse_state (wf_header f) = Some state ->
  exists c1, cursor c1 = cursor c /\ cl_sink c1 = cl_sink c /\ cl_resumed c1 = cl_resumed c
    /\ greeted room now (cursor c) f c = match plan_catch_up (cursor c) state ((st_checkpoint_size state =? 0)%Z || sk_contains_frontier (wf_payload f) (cl_sink c)) with
       | CP_RowsOnly after => request_rows room now (cursor c) after c1
       | CP_CheckpointThenRows _ => (c1, ([], OC_On (PH_Fetch (cursor c) state)))
       end.
Proof.
  intros Hp. unfold greeted. rewrite Hp. cbn.
  destruct (cl_joining c), (st_head_seq state <? cursor c)%Z; cbn; (eexists; split_and!; [..|reflexivity]); done.
Qed.
Lemma asked_request a b : request_readable a -> asked [encode ROWS_REQ (rows_req_header a b) EmptyString] = Some (a, b).
Proof.
  intros H. destruct (H b) as [Hj Hl]. unfold asked.
  rewrite decode_encoded by (first [done|unfold MAX_HEADER_BYTES in Hl; lia]).
  replace (_ <? _) with false by (symmetry; apply Nat.ltb_ge; lia). by rewrite Hj.
Qed.

Lemma asks_covered c state out c1 ph : Forall (fun r => (0 < lg_seq r)%Z) log -> sk_live (cl_sink c) ->
  ((cursor c <= st_head_seq state)%Z -> no_gap log c) -> Forall request_readable [0; cursor c; st_checkpoint_seq state]%Z -> asks log c state out c1 ph ->
  exists after, asked out = Some (after, cl_resumed c) /\ after_request ph = true /\ keeps c c1 /\ holds_to log after c1 /\ (cursor c1 <= after)%Z.
Proof.
  intros Hpos Hlive Hg Hj Ha. rewrite !Forall_cons in Hj. destruct Hj as (J0 & Jc & Js & _).
  assert (Hbase : holds_to log (if (st_head_seq state <? cursor c)%Z then 0 else cursor c)%Z c).
  { destruct (st_head_seq state <? cursor c)%Z eqn:E; [|apply Hg; by apply Z.ltb_ge].
    intros r Hr Hl. rewrite Forall_forall in Hpos. specialize (Hpos r Hr). lia. }
  destruct Ha as [room now f out c' d Hs Hfront Hgr|room now f out c2 room' now' blob out' c' ph Hs Hgr Hblob Hf];
    destruct (greeted_spec room now f c state Hs) as (c3 & Hc & Hsink & Hres & E); rewrite E in Hgr.
  - destruct (plan_catch_up _ _ _) as [after|after] eqn:Hplan; [|by injection Hgr].
    pose proof (request_rows_spec room now (cursor c) after c3) as Hr. rewrite Hgr in Hr. destruct Hr as (Hm & Hcur & Hon).
    destruct (Hon _ eq_refl) as [Hp ->]. rewrite Hres. exists after.
    assert (Hk : keeps c c') by (apply keeps_same; by rewrite Hm).
    assert (Hafter : request_readable after /\ holds_to log after c).
    { unfold plan_catch_up in Hplan. destruct (st_checkpoint_size state =? 0)%Z eqn:Ez; cbn in Hplan.
      { injection Hplan as <-. split; [by destruct (_ <? _)%Z|done]. }
      destruct (sk_contains_frontier _ _) eqn:Ec; [|done]. injection Hplan as <-. split.
      - destruct (Z.max_spec (if (st_head_seq state <? cursor c)%Z then 0 else cursor c)%Z (st_checkpoint_seq state)) as [[_ ->]|[_ ->]]; [done|by destruct (_ <? _)%Z].
      - intros r Hr Hl. apply Z.eqb_neq in Ez. destruct (Z.le_gt_cases (lg_seq r) (st_checkpoint_seq state)) as [Hle|Hgt]; [by apply (Hfront Ez (cl_sink c))|].
        apply Hbase; [done|lia]. }
    destruct Hafter as [Hread Hold]. split_and!; [by apply asked_request|done|done|by eapply holds_to_grow|].
    rewrite Hcur. destruct (after <? cursor c)%Z eqn:Elt; [lia|]. apply Z.ltb_ge in Elt. lia.
  - assert (H23 : c2 = c3).
    { destruct (plan_catch_up _ _ _); [|by injection Hgr]. pose proof (request_rows_spec room now (cursor c) after c3) as Hr. rewrite Hgr in Hr.
      destruct Hr as (_ & _ & Hon). by destruct (Hon _ eq_refl). }
    subst c3. unfold fetched in Hf. pose proof (ls_checkpoint_keeps (cl_sink c2) blob (st_checkpoint_seq state)) as Hck.
    destruct (sk_apply_checkpoint _ _ _) as [sink []] eqn:Eck; [|by injection Hf]. cbn in Hck.
    set (c4 := emit CE_Applied _) in Hf. pose proof (request_rows_spec room' now' (cursor c) (st_checkpoint_seq state) c4) as Hr. rewrite Hf in Hr.
    destruct Hr as (Hm & Hcur & Hon). destruct (Hon _ eq_refl) as [Hp ->]. exists (st_checkpoint_seq state).
    replace (cl_resumed c4) with (cl_resumed c) by (unfold c4; by cbn). split_and!; [by apply asked_request|done|..].
    + unfold keeps. rewrite Hm. unfold c4. cbn. by rewrite <- Hsink.
    + intros r Hr Hl. rewrite Hm. unfold c4. cbn. eapply Hblob; [|exact Eck|done..]. by rewrite Hsink.
    + rewrite Hcur. destruct (st_checkpoint_seq state <? cursor c)%Z eqn:Elt; [lia|]. apply Z.ltb_ge in Elt. unfold c4. cbn. lia.
Qed.

Lemma sorted_rest last l : StronglySorted (fun r r' => (lg_seq r < lg_seq r')%Z) l ->
  StronglySorted (fun r r' => (lg_seq r < lg_seq r')%Z) (base.filter (fun r => (last < lg_seq r)%Z) l).
Proof.
  induction 1 as [|r l Hs IH Hall]; [constructor|]. rewrite filter_cons. case_decide; [|done]. constructor; [done|].
  rewrite Forall_forall in *. intros x [_ Hx]%list_elem_of_filter. by apply Hall.
Qed.

(** C6. The cursor never runs ahead of the document.  Take a client whose
    document is there and holds every row at or below its cursor (or whose
    cursor is ahead of a room that was reset), and the answer to its hello, with
    or without a checkpoint to fetch.  The request it then sends reads on the
    wire as the rows after some sequence number, the device's own rows left
    out exactly when the client has caught up once before; and whatever inputs
    the session then has, cut anywhere, if the room sends the rows it was asked
    for in the order of its log, leaving out only rows of this device that it
    was asked to leave out or that the document held already, then the document
    holds every row at or below the cursor, so the next session asks for
    nothing too late, and once all rows have come it holds the whole log.

    What this needs of the world: the sink imports the rows of the log
    ([LawfulSink]: a row whose bytes do not import is skipped by the code and
    the cursor passes it); the room's checkpoint and frontier cover the rows
    they claim to; and a client that has caught up once holds the rows of its
    own device, because it wrote or received them in this process. *)
Theorem chat_no_gap c state out c1 ph :
  StronglySorted (fun r r' => (lg_seq r < lg_seq r')%Z) log -> Forall (fun r => (0 < lg_seq r)%Z) log ->
  sk_live (cl_sink c) -> ((cursor c <= st_head_seq state)%Z -> no_gap log c) ->
  (cl_resumed c = true -> forall r, r ∈ log -> lg_device r = device_id -> held c r) ->
  Forall request_readable [0; cursor c; st_checkpoint_seq state]%Z ->
  asks log c state out c1 ph ->
  exists after, asked out = Some (after, cl_resumed c)
    /\ forall ins last l, feed (cl_resumed c) (held c) after (base.filter (fun r => (after < lg_seq r)%Z) log) (received ins) last l ->
       let '(c', o) := play ins ph c1 in
       no_gap log c' /\ ((exists ph', o = OC_On ph') -> l = [] -> forall r, r ∈ log -> held c' r).
Proof.
  intros Hs Hpos Hlive Hg Hown Hj Ha. destruct (asks_covered c state out c1 ph Hpos Hlive Hg Hj Ha) as (after & Hask & Hp & Hk & Hh & Hc).
  exists after. split; [exact Hask|]. intros ins last l Hf.
  assert (Ht : tracked (fun r => cl_resumed c = true \/ held c r) after (base.filter (fun r => (after < lg_seq r)%Z) log) c1).
  { split; [by apply Hk|done| |done| | |by apply sorted_rest|].
    - intros r Hr Hd [Hx|Hx]; apply Hk; [by apply Hown|done].
    - intros r Hr. destruct (Z.le_gt_cases (lg_seq r) after); [by left|right]. apply list_elem_of_filter. split; [lia|done].
    - apply Forall_forall. by intros x [_ Hx]%list_elem_of_filter.
    - apply Forall_forall. by intros x [Hx _]%list_elem_of_filter. }
  pose proof (play_tracked _ _ ins ph c1 after _ last l Hp Hf Ht) as Hplay. destruct (play ins ph c1) as [c' o]. destruct Hplay as [Hn Hon].
  split; [done|]. intros [ph' ->] -> r Hr. destruct (Hon ph' eq_refl) as [_ H1 _ _ H3 _ _ _]. destruct (H3 r Hr) as [Hl|Hin]; [by apply H1|set_solver].
Qed.
End gap.

(** ** The queue *)

(** The batch a frame is the verdict on. *)
Definition verdict_of (f : WireFrame) : option string :=
  if (wf_kind f =? ACK)%Z then ak_batch_id <$> parse_ack (wf_header f)
  else if (wf_kind f =? ERROR)%Z then
    let batch_id := field_str "batchId" (wf_header f) EmptyString in
    if permanent (field_str "code" (wf_header f) "?") && negb (bool_decide (batch_id = EmptyString)) then Some batch_id else None
  else None.
Local Abbreviation pending c := (sh_pending (cl_shared c)).
Definition without (gone : list string) (l : list PendingPush) : list PendingPush := base.filter (fun p => pp_batch_id p ∉ gone) l.

Lemma without_nil l : without [] l = l.
Proof. unfold without. apply filter_all. set_solver. Qed.
Lemma without_cons b gone l : without gone (retire b l) = without (b :: gone) l.
Proof.
  unfold without, retire. rewrite list_filter_filter. apply filter_ext_on. set_solver.
Qed.
Lemma handle_frame_pending now f c : pending (handle_frame now f c).1 = match verdict_of f with Some b => retire b (pending c) | None => pending c end.
Proof.
  unfold handle_frame, verdict_of.
  destruct (wf_kind f =? ROW)%Z eqn:E1; [apply Z.eqb_eq in E1; rewrite E1; cbn; by destruct (parse_row _)|].
  destruct (wf_kind f =? ACK)%Z; [destruct (parse_ack _) as [a|]; cbn; [|done]|].
  { unfold acked. cbn. destruct (sh_quota_blocked _); [|done]. by case_decide. }
  destruct (wf_kind f =? PRESENCE)%Z eqn:E2; [apply Z.eqb_eq in E2; by rewrite E2|].
  destruct (wf_kind f =? PROBE_OK)%Z eqn:E3; [apply Z.eqb_eq in E3; rewrite E3; cbn; by destruct (parse_probe_ok _)|].
  destruct (wf_kind f =? STATE)%Z eqn:E4; [apply Z.eqb_eq in E4; rewrite E4; cbn; by destruct (parse_state _)|].
  destruct (wf_kind f =? ERROR)%Z; [|done]. destruct (permanent _ && _); cbn; [by destruct (_ =? _)|]. by destruct (bool_decide _).
Qed.
Lemma session_step_pending room now i ph c : after_request ph = true -> (forall b, i <> IN_Frame b) -> pending (session_step room now i ph c).1 = pending c.
Proof. intros Hp Hi. destruct ph; try done; destruct i; try done; by destruct (Hi bytes). Qed.
Lemma session_step_frame_pending room now b ph c : after_request ph = true ->
  pending (session_step room now (IN_Frame b) ph c).1 = without (match decode b with Some f => option_list (verdict_of f) | None => [] end) (pending c).
Proof.
  intros Hp. assert (Hf : forall f, pending (handle_frame now f c).1 = without (option_list (verdict_of f)) (pending c)).
  { intros f. rewrite handle_frame_pending. destruct (verdict_of f) as [v|]; cbn; [by rewrite <- without_cons, without_nil|by rewrite without_nil]. }
  destruct ph; try done; cbn [ChatClient.session_step]; destruct (decode b) as [f|]; try (by rewrite without_nil).
  - destruct (wf_kind f =? ROWS_DONE)%Z eqn:E.
    + apply Z.eqb_eq in E. unfold verdict_of. rewrite E. cbn [option_list]. rewrite without_nil. by destruct (parse_rows_done _).
    + specialize (Hf f). by destruct (handle_frame now f c).
  - specialize (Hf f). by destruct (handle_frame now f c).
Qed.

Lemma session_step_frame_phase room now b ph c : after_request ph = true ->
  let '(_, (_, o)) := session_step room now (IN_Frame b) ph c in forall ph', o = OC_On ph' -> after_request ph' = true.
Proof.
  intros Hp. destruct ph; try done; cbn [ChatClient.session_step]; (destruct (decode b) as [f|]; [|done]).
  - destruct (_ =? _)%Z; [destruct (parse_rows_done _); [|done]; unfold sent; destruct (_.2); intros ? Ho; by simplify_eq|].
    destruct (handle_frame now f c) as [? []]; intros ? Ho; by simplify_eq.
  - destruct (handle_frame now f c) as [? []]; intros ? Ho; by simplify_eq.
Qed.
Lemma received_cons x ins : received (x :: ins) = option_list (match x.2 with IN_Frame b => decode b | _ => None end) ++ received ins.
Proof. unfold received. rewrite list_omap_cons. by destruct (match x.2 with IN_Frame b => decode b | _ => None end). Qed.
Lemma without_app gone gone' l : without gone' (without gone l) = without (gone ++ gone') l.
Proof. unfold without. rewrite list_filter_filter. apply filter_ext_on. set_solver. Qed.
(** One input: the phase after it, and the batches it takes from the queue. *)
Lemma session_step_queue room now i ph c : after_request ph = true ->
  let '(c', (_, o)) := session_step room now i ph c in
  (forall ph', o = OC_On ph' -> after_request ph' = true) /\ pending c' = without (omap verdict_of (received [(room, now, i)])) (pending c).
Proof.
  intros Hp. assert (Hcase : (exists b, i = IN_Frame b) \/ forall b, i <> IN_Frame b) by (destruct i; first [by left; eexists|by right]).
  destruct Hcase as [[b ->]|Hi].
  - pose proof (session_step_frame_phase room now b ph c Hp) as Hs. pose proof (session_step_frame_pending room now b ph c Hp) as Hq.
    destruct (session_step room now (IN_Frame b) ph c) as [c' [out o]]. split; [done|]. cbn [fst] in Hq. rewrite Hq. f_equal.
    unfold received. cbn. destruct (decode b) as [f|]; [|done]. by destruct (verdict_of f) eqn:E; cbn; rewrite ?E.
  - pose proof (session_step_quiet room now i ph c Hp Hi) as Hs. pose proof (session_step_pending room now i ph c Hp Hi) as Hq.
    destruct (session_step room now i ph c) as [c' [out o]]. destruct Hs as (_ & _ & Hon). split; [done|]. cbn in Hq. rewrite Hq.
    unfold received. cbn. destruct i; try (by rewrite without_nil). by destruct (Hi bytes).
Qed.

Lemma play_queue ins : forall ph c, after_request ph = true ->
  exists used unused, ins = used ++ unused /\ play used ph c = play ins ph c
    /\ ((exists ph', (play ins ph c).2 = OC_On ph') -> unused = [])
    /\ (forall before i after, used = before ++ i :: after -> exists ph', (play before ph c).2 = OC_On ph')
    /\ pending (play ins ph c).1 = without (omap verdict_of (received used)) (pending c).
Proof.
  induction ins as [|[[room now] i] ins IH]; intros ph c Hp.
  { exists [], []. split_and!; [done..|by intros [] ? ?|]. cbn. by rewrite without_nil. }
  cbn [play]. destruct (takes probe_quiet ph now c i) eqn:Htk.
  - pose proof (session_step_queue room now i ph c Hp) as Hs. destruct (session_step room now i ph c) as [c' [out o]] eqn:Est. destruct Hs as [Hon Hq].
    destruct o as [ph'| |]; [|exists [(room, now, i)], ins; split_and!; [done| | | |done]..].
    + destruct (IH ph' c' (Hon _ eq_refl)) as (used & unused & -> & Hu & Hn & Hb & E). exists ((room, now, i) :: used), unused. split_and!; [done| |done| |].
      * cbn [play]. by rewrite Htk, Est.
      * intros [|x before] j after; [by eexists|]. intros [= <- ->]. cbn [play]. rewrite Htk, Est. by eapply Hb.
      * rewrite E, Hq, without_app, <- omap_app, (received_cons (room, now, i) used). unfold received at 1. cbn. by rewrite ?app_nil_r.
    + cbn [play]. by rewrite Htk, Est.
    + by intros [? [=]].
    + intros [|x before] j after; [by eexists|]. intros [= _ E]. by destruct before.
    + cbn [play]. by rewrite Htk, Est.
    + by intros [? [=]].
    + intros [|x before] j after; [by eexists|]. intros [= _ E]. by destruct before.
  - destruct (IH ph c Hp) as (used & unused & -> & Hu & Hn & Hb & E). exists ((room, now, i) :: used), unused. split_and!; [done| |done| |].
    + cbn [play]. by rewrite Htk.
    + intros [|x before] j after; [by eexists|]. intros [= <- ->]. cbn [play]. rewrite Htk. by eapply Hb.
    + rewrite E, received_cons. cbn [snd]. by destruct i; try done; destruct ph.
Qed.

(** C18. A queued batch leaves the queue by a verdict on it and by nothing
    else, and every verdict takes its batch.  After its request for rows a
    session handles its inputs one after the other up to the one that ends it
    ([used]: the session is still on after each part of it that leaves something
    out, and nothing is left unused while it is on); the queue is then the
    earlier one less exactly the batches that the frames among these
    acknowledged or permanently rejected, in the order they were queued.  So a
    lost session leaves the rest queued, and the end of the next catch-up pushes
    every batch still queued, in that order.  A batch no frame can carry never
    enters the queue. *)
Theorem queue_keeps_batches ins ph c : after_request ph = true ->
  (exists used unused, ins = used ++ unused /\ play used ph c = play ins ph c
     /\ ((exists ph', (play ins ph c).2 = OC_On ph') -> unused = [])
     /\ (forall before i after, used = before ++ i :: after -> exists ph', (play before ph c).2 = OC_On ph')
     /\ pending (play ins ph c).1 = without (omap verdict_of (received used)) (pending c))
  /\ (forall room now d b f head, decode b = Some f -> wf_kind f = ROWS_DONE -> parse_rows_done (wf_header f) = Some head -> length (pending c) <= room ->
       (session_step room now (IN_Frame b) (PH_Backfill d) c).2 = (push_frame <$> pending c, OC_On (PH_Steady now None)))
  /\ (forall bytes id, pending (enqueue_update bytes id c) = pending c ++ (if MAX_PUSH_BYTES <? String.length bytes then [] else [mk_push id bytes])).
Proof.
  intros Hp. split_and!.
  - by apply play_queue.
  - intros room now d b f head Hd Hk Hh Hroom. cbn [ChatClient.session_step]. rewrite Hd, Hk, Hh. cbn. unfold sent, push_pending, send_all. cbn.
    rewrite length_fmap, take_ge by (by rewrite length_fmap). by replace (_ <=? _) with true by (symmetry; by apply Nat.leb_le).
  - intros bytes id. unfold enqueue_update. destruct (_ <? _); cbn; by rewrite ?app_nil_r.
Qed.

(** ** What these do not say *)

(** A permanent rejection takes the head of a queue that is drained one grant
    at a time, and asks for nothing in return: the rest waits for the next
    update, or the next session. *)
Lemma rejection_stalls_drain now f c b : verdict_of f = Some b -> wf_kind f = ERROR -> sh_quota_blocked (cl_shared c) = true -> sh_retry_at (cl_shared c) = None ->
  let c' := (handle_frame now f c).1 in pending c' = retire b (pending c) /\ sh_quota_blocked (cl_shared c') = true /\ sh_retry_at (cl_shared c') = None.
Proof.
  intros Hv Hk Hq Hr. cbn zeta. rewrite handle_frame_pending, Hv. unfold handle_frame, verdict_of in *. rewrite Hk in *. cbn in *.
  destruct (permanent _ && _); [|done]. destruct (_ =? _); by split_and!.
Qed.
(** The wait before a redial is never shortened again, not by a session that
    caught up and stayed for a day. *)
Definition backoff_of (a : Actor) : option Z := match a with AC_Dial b | AC_Session b _ | AC_Sleep b => Some b | AC_Stopped => None end.
Lemma backoff_never_resets room now i a c b : backoff_of a = Some b -> (0 <= b <= BACKOFF_CAP)%Z ->
  let '(_, a', _) := actor_step device_id probe_quiet room now i a c in a' = AC_Stopped \/ exists b', backoff_of a' = Some b' /\ (b <= b' <= BACKOFF_CAP)%Z.
Proof.
  intros Ha Hb. assert (Hs : forall o c0, let '(_, a') := settle b o c0 in a' = AC_Stopped \/ backoff_of a' = Some b).
  { intros [ph| |] c0; cbn; [by right| |by left]. unfold back_off. destruct (cl_joining _); [by left|by right]. }
  destruct a as [b'|b' ph|b'|]; cbn in Ha; try done; injection Ha as <-.
  - destruct i as [[]| | |]; cbn [actor_step].
    + destruct (session_start _ _ _ _) as [out o]. specialize (Hs o c). destruct (settle b' o c) as [c' a']. destruct Hs as [->|E]; [by left|right; exists b'; split; [done|lia]].
    + unfold back_off. destruct (cl_joining c); [by left|right; exists b'; split; [done|lia]].
    + right. exists b'. split; [done|lia].
    + right. exists b'. split; [done|lia].
    + by left.
  - destruct i as [|i| |]; cbn [actor_step]; try (right; exists b'; split; [done|lia]).
    destruct (takes _ _ _ _ _); [|right; exists b'; split; [done|lia]]. destruct (session_step room now i ph c) as [c1 [out o]].
    specialize (Hs o c1). destruct (settle b' o c1) as [c' a']. destruct Hs as [->|E]; [by left|right; exists b'; split; [done|lia]].
  - destruct i; cbn [actor_step]; try (right; exists b'; split; [done|lia]); [|by left].
    right. exists (next_backoff b'). split; [done|]. unfold next_backoff. lia.
Qed.
End facts.

(** * A concrete room *)

#[export] Instance demo_sink : ChatDocSink (list Z) := {
  sk_apply_row _ seq s := s ++ [seq]; sk_apply_checkpoint _ seq s := (s ++ [seq], true); sk_contains_frontier _ _ := false; sk_advance_cursor _ s := s;
}.
#[export] Instance demo_holding : HoldingSink (list Z) := { sk_live _ := True; sk_holds s r := lg_seq r ∈ s }.
#[export] Instance demo_lawful log : LawfulSink (list Z) log.
Proof. split; intros; try (split; [done|]); cbn in *; set_solver. Qed.
Definition u64_field (n : Z) : Value := Num (PosInt n).
Definition demo_row (n : Z) : Value := Obj [("seq"%string, u64_field n); ("device"%string, Str "peer"); ("batchId"%string, Str "b")].
Definition demo_chat_json : JsonBytes := {|
  to_vec v := match get "excludeOwn" v with Some (Bool b) => if b then "x" else "y" | _ => EmptyString end;
  from_slice s := match s with
    | "1"%string => Some (demo_row 1) | "2"%string => Some (demo_row 2) | "3"%string => Some (demo_row 3)
    | "s"%string => Some (Obj [("headSeq"%string, u64_field 2); ("seqFloor"%string, u64_field 0); ("checkpointSeq"%string, u64_field 0); ("checkpointSize"%string, u64_field 0)])
    | "x"%string => Some (rows_req_header 0 true) | "y"%string => Some (rows_req_header 0 false)
    | "d"%string => Some (Obj [("headSeq"%string, u64_field 2)])
    | _ => None
    end;
|}.
Definition raw (kind : Z) (header payload : string) : string :=
  String (byte_of kind) (u32_to_le (Z.of_nat (String.length header))) +:+ header +:+ payload.
Definition demo_frame (header payload : string) (i : nat) : nat * Z * Input :=
  (64, Z.of_nat i, IN_Frame (raw (match header with "d"%string => ROWS_DONE | "s"%string => STATE | _ => ROW end) header payload)).
Definition demo_log (n : nat) : list LogRow := (fun i => mk_log_row (Z.of_nat i) "peer" "x") <$> seq 1 n.
Definition demo_state : StateHeader := mk_state 2 0 0 0 0 0.
Definition demo_hello : WireFrame :=
  mk_frame STATE (Obj [("headSeq"%string, u64_field 2); ("seqFloor"%string, u64_field 0); ("checkpointSeq"%string, u64_field 0); ("checkpointSize"%string, u64_field 0)]) EmptyString.
Definition demo_asking : Client (list Z) := (greeted (JB:=demo_chat_json) 64 0 0 demo_hello (initial 0 [])).1.
Definition demo_request : list string := (greeted (JB:=demo_chat_json) 64 0 0 demo_hello (initial 0 ([] : list Z))).2.1.

Lemma demo_asks : asks (JB:=demo_chat_json) (demo_log 2) (initial 0 ([] : list Z)) demo_state demo_request demo_asking (PH_Backfill 120000).
Proof. eapply (asks_rows (JB:=demo_chat_json) _ _ _ 64 0%Z demo_hello); [vm_compute; reflexivity|done|vm_compute; reflexivity]. Defined.

Lemma chat_no_gap_witness :
  asked (JB:=demo_chat_json) demo_request = Some (0%Z, false)
  /\ let '(c', o) := play (JB:=demo_chat_json) 900000 [demo_frame "1" "x" 1; demo_frame "2" "x" 2; demo_frame "d" "" 3] (PH_Backfill 120000) demo_asking in
     no_gap (demo_log 2) c' /\ ((exists ph', o = OC_On ph') -> @nil LogRow = [] -> forall r, r ∈ demo_log 2 -> sk_holds (cl_sink c') r).
Proof.
  destruct (chat_no_gap (JB:=demo_chat_json) "me" 900000 (log:=demo_log 2) (initial 0 []) demo_state demo_request demo_asking (PH_Backfill 120000)) as (after & Ha & Hp).
  - repeat constructor.
  - repeat constructor.
  - done.
  - intros _ r Hr Hl. apply list_elem_of_fmap in Hr as (i & -> & Hi%elem_of_seq). cbn in Hl. lia.
  - done.
  - assert (H0 : request_readable (JB:=demo_chat_json) 0) by (intros []; (split; [vm_compute; reflexivity|apply Nat.leb_le; vm_compute; reflexivity])).
    repeat (apply Forall_cons_2; [exact H0|]). apply Forall_nil_2.
  - exact demo_asks.
  - vm_compute in Ha. injection Ha as <-. split; [by vm_compute|].
    refine (Hp [demo_frame "1" "x" 1; demo_frame "2" "x" 2; demo_frame "d" "" 3] 2%Z [] _).
    eapply feed_row; [vm_compute; reflexivity..|]. eapply feed_row; [vm_compute; reflexivity..|]. apply feed_noise; [vm_compute; discriminate..|]. apply feed_cut.
Defined.
Lemma queue_keeps_batches_witness :
  exists used unused, [demo_frame "1" "x" 1] = used ++ unused
    /\ sh_pending (cl_shared (play (JB:=demo_chat_json) 900000 [demo_frame "1" "x" 1] (PH_Backfill 120000) (enqueue_update "up" "b1" demo_asking)).1)
       = without (omap verdict_of (received (JB:=demo_chat_json) used)) [mk_push "b1" "up"].
Proof.
  destruct (proj1 (queue_keeps_batches (JB:=demo_chat_json) 900000 [demo_frame "1" "x" 1] (PH_Backfill 120000) (enqueue_update "up" "b1" demo_asking) eq_refl))
    as (used & unused & E & _ & _ & _ & Hq).
  exists used, unused. split; [exact E|exact Hq].
Defined.

(** A row relayed to a session that is still waiting for older ones: the
    cursor passes them, and a session cut here never asks for them again. *)
Lemma relayed_row_skips : exists ins, let '(c', o) := play (JB:=demo_chat_json) 900000 ins (PH_Backfill 120000) demo_asking in
  o = OC_Reconnect /\ sh_cursor (cl_shared c') = 3%Z /\ ~ no_gap (demo_log 3) c'
  /\ plan_catch_up (sh_cursor (cl_shared c')) (mk_state 3 0 0 0 0 0) true = CP_RowsOnly 3.
Proof.
  exists [demo_frame "3" "x" 1; (64, 2%Z, IN_Closed)]. destruct (play _ _ _ _) as [c' o] eqn:E.
  assert (Hc : c' = (play (JB:=demo_chat_json) 900000 [demo_frame "3" "x" 1; (64, 2%Z, IN_Closed)] (PH_Backfill 120000) demo_asking).1) by (by rewrite E).
  assert (Ho : o = (play (JB:=demo_chat_json) 900000 [demo_frame "3" "x" 1; (64, 2%Z, IN_Closed)] (PH_Backfill 120000) demo_asking).2) by (by rewrite E).
  clear E. vm_compute in Ho. vm_compute in Hc. subst c' o. split_and!; [done|done| |done].
  intros H. specialize (H (mk_log_row 1 "peer" "x") ltac:(by left) ltac:(done)). cbn in H. set_solver.
Qed.
