(* ===== verification/ChatHost.v ===== *)
(** The engine's side of a chat room, [crates/engine/src/chat2_host.rs]: the
    sink that imports what the room sends and persists the document with the
    cursor, and the checkpoint download that resumes where it was cut.

    The document and its store are interfaces; the HTTP server answers each
    attempt as it likes. *)
From Stdlib Require Import ZArith Lia Ascii String.
From stdpp Require Import base tactics numbers list strings gmap.
From S2P Require Import Prelude Text Utf8 ChatFrames ChatClient.
Open Scope keel_scope.

(** * The sink *)

(** The Loro document: an import can fail, a version vector may not decode. *)
Class ChatDoc (D : Type) := {
  cd_import : string -> D -> option D;
  cd_export : D -> option string;
  cd_includes : string -> D -> option bool;
}.
Definition CHAT2_DOC_EPOCH : Z := 2.
(** The document, unless its handle was evicted, and the stored snapshot. *)
Record EngineSink (D : Type) := mk_engine_sink { es_doc : option D; es_stored : option (string * Z * Z); es_store_ok : bool }.
Arguments mk_engine_sink {D}.
Arguments es_doc {D}.
Arguments es_stored {D}.
Arguments es_store_ok {D}.

Section sink.
Context {D : Type} {CD : ChatDoc D}.
Abbreviation EngineSink := (EngineSink D).

Definition persist_with_cursor (cursor : Z) (s : EngineSink) : EngineSink :=
  match es_doc s ≫= cd_export with
  | Some bytes => if es_store_ok s then mk_engine_sink (es_doc s) (Some (bytes, cursor, CHAT2_DOC_EPOCH)) (es_store_ok s) else s
  | None => s
  end.
Definition with_chat_doc (d : D) (s : EngineSink) : EngineSink := mk_engine_sink (Some d) (es_stored s) (es_store_ok s).
(** Bytes that do not import cost the row, not the document. *)
Definition apply_row (bytes : string) (cursor : Z) (s : EngineSink) : EngineSink :=
  match es_doc s with
  | None => s
  | Some d => persist_with_cursor cursor (match cd_import bytes d with Some d => with_chat_doc d s | None => s end)
  end.
Definition apply_checkpoint (bytes : string) (cursor : Z) (s : EngineSink) : EngineSink * bool :=
  match es_doc s with
  | None => (s, false)
  | Some d => match cd_import bytes d with Some d => (persist_with_cursor cursor (with_chat_doc d s), true) | None => (s, false) end
  end.
Definition contains_frontier (frontier : string) (s : EngineSink) : bool :=
  match es_doc s with
  | None => true
  | Some d => if decide (frontier = EmptyString) then true else default false (cd_includes frontier d)
  end.
#[export] Instance engine_sink : ChatDocSink EngineSink := {
  sk_apply_row := apply_row; sk_apply_checkpoint := apply_checkpoint; sk_contains_frontier := contains_frontier; sk_advance_cursor := persist_with_cursor;
}.

(** ** What the client relies on

    For a document that takes in what an import brings, loses nothing by one,
    and imports the rows of the log, the engine's sink keeps its promise to the
    client as long as the handle is not evicted; and a frontier that is not
    empty covers what the documents that include it contain. *)
Context (contains : D -> LogRow -> Prop) (log : list LogRow).
Hypothesis import_keeps : forall bytes d d' r, cd_import bytes d = Some d' -> contains d r -> contains d' r.
Hypothesis import_row : forall d r, r ∈ log -> exists d', cd_import (lg_bytes r) d = Some d' /\ contains d' r.
#[local] Instance engine_holding : HoldingSink EngineSink := {
  sk_live s := is_Some (es_doc s); sk_holds s r := exists d, es_doc s = Some d /\ contains d r;
}.
Lemma persist_keeps_doc cursor s : es_doc (persist_with_cursor cursor s) = es_doc s.
Proof. unfold persist_with_cursor. destruct (_ ≫= _); [|done]. by destruct (es_store_ok s). Qed.
Lemma sink_keeps_doc s s' : (es_doc s' = es_doc s \/ exists bytes d d', es_doc s = Some d /\ cd_import bytes d = Some d' /\ es_doc s' = Some d') -> sink_keeps s s'.
Proof.
  intros [E|(bytes & d & d' & E & Hi & E')]; split; cbn; [by rewrite E|by rewrite E|by rewrite E'|].
  intros r (d0 & Hd & Hc). rewrite E in Hd. injection Hd as ->. exists d'. split; [done|]. by eapply import_keeps.
Qed.
Lemma engine_lawful : LawfulSink EngineSink log.
Proof.
  split; cbn.
  - intros s bytes seq. apply sink_keeps_doc. unfold apply_row. destruct (es_doc s) as [d|] eqn:E; [|by left]. rewrite persist_keeps_doc.
    destruct (cd_import bytes d) as [d'|] eqn:Ei; [right; by exists bytes, d, d'|by left].
  - intros s r [d E] Hr. unfold apply_row. rewrite E, persist_keeps_doc. destruct (import_row d r Hr) as (d' & -> & Hc). by exists d'.
  - intros s blob seq. apply sink_keeps_doc. unfold apply_checkpoint. destruct (es_doc s) as [d|] eqn:E; [|by left].
    destruct (cd_import blob d) as [d'|] eqn:Ei; cbn; [rewrite persist_keeps_doc; right; by exists blob, d, d'|by left].
  - intros s seq. apply sink_keeps_doc. left. apply persist_keeps_doc.
Qed.
Lemma engine_frontier frontier seq : frontier <> EmptyString ->
  (forall d, cd_includes frontier d = Some true -> forall r, r ∈ log -> (lg_seq r <= seq)%Z -> contains d r) -> frontier_covers log frontier seq.
Proof.
  intros Hne Hf s [d E] Hc r Hr Hl. cbn in *. unfold contains_frontier in Hc. rewrite E in Hc. rewrite decide_False in Hc by done.
  destruct (cd_includes frontier d) as [[]|] eqn:Ei; [|done..]. exists d. split; [done|]. by apply Hf.
Qed.
Lemma engine_checkpoint blob seq :
  (forall d d', cd_import blob d = Some d' -> forall r, r ∈ log -> (lg_seq r <= seq)%Z -> contains d' r) -> checkpoint_covers log blob seq.
Proof.
  intros Hb s s' [d E] Hc r Hr Hl. cbn in *. unfold apply_checkpoint in Hc. rewrite E in Hc. destruct (cd_import blob d) as [d'|] eqn:Ei; [|done].
  injection Hc as <-. rewrite persist_keeps_doc. exists d'. split; [done|]. by eapply Hb.
Qed.
End sink.

(** * The checkpoint download *)

(** A response: the checkpoint it is stamped with, its status, its body as far
    as it came, and whether the body ended. *)
Record Response := mk_response { rp_seq : option string; rp_status : Z; rp_chunks : list string; rp_ended : bool }.
Inductive FetchError := FE_Auth | FE_Range | FE_Missing | FE_Status (code : Z) | FE_Exhausted.
Definition ATTEMPTS : nat := 4.

Section fetch.
(** The bearer token, and the answer to an attempt and its range; [None] is a
    failed request. *)
Context (bearer : nat -> bool) (serve : nat -> option nat -> option Response).

Definition range_of (got : string) : option nat := if decide (got = EmptyString) then None else Some (String.length got).
Definition replaced (seq seen : option string) : bool := bool_decide (is_Some seq) && bool_decide (is_Some seen) && negb (bool_decide (seq = seen)).
Definition keep_seq (seq seen : option string) : option string := match seq with Some _ => seq | None => seen end.
Fixpoint fetch_from (budget attempt : nat) (got : string) (seen : option string) : result string FetchError :=
  match budget with
  | O => Err FE_Exhausted
  | S budget =>
      if negb (bearer attempt) then Err FE_Auth
      else
        match serve attempt (range_of got) with
        | None => fetch_from budget (S attempt) got seen
        | Some r =>
            if replaced (rp_seq r) seen then fetch_from budget (S attempt) EmptyString (rp_seq r)
            else
              let seen := keep_seq (rp_seq r) seen in
              let start := if (rp_status r =? 200)%Z then Some EmptyString else if (rp_status r =? 206)%Z then Some got else None in
              match start with
              | Some got =>
                  let got := got +:+ concat_strings (rp_chunks r) in
                  if rp_ended r then Ok got else fetch_from budget (S attempt) got seen
              | None => Err (if (rp_status r =? 416)%Z then FE_Range else if (rp_status r =? 404)%Z then FE_Missing else FE_Status (rp_status r))
              end
        end
  end.
Definition fetch : result string FetchError := fetch_from ATTEMPTS 0 EmptyString None.

(** ** One checkpoint or none *)

Definition str_prefix (s t : string) : Prop := exists u, t = s +:+ u.
(** A server that stamps every answer, and sends the body the status promises
    from the offset asked for. *)
Definition honest (blob : string -> string) : Prop := forall attempt range r, serve attempt range = Some r ->
  exists q, rp_seq r = Some q
    /\ (rp_status r = 200%Z -> str_prefix (concat_strings (rp_chunks r)) (blob q) /\ (rp_ended r = true -> concat_strings (rp_chunks r) = blob q))
    /\ (rp_status r = 206%Z -> let rest := str_drop (default 0 range) (blob q) in
          str_prefix (concat_strings (rp_chunks r)) rest /\ (rp_ended r = true -> concat_strings (rp_chunks r) = rest)).

Lemma fetch_from_whole blob budget : honest blob -> forall attempt got seen b,
  (got = EmptyString \/ exists q, seen = Some q /\ str_prefix got (blob q)) -> fetch_from budget attempt got seen = Ok b -> exists q, b = blob q.
Proof.
  intros Hs. induction budget as [|budget IH]; intros attempt got seen b Hgot; cbn [fetch_from]; [done|].
  destruct (bearer attempt); cbn [negb]; [|done]. destruct (serve attempt (range_of got)) as [r|] eqn:Er; [|by apply IH].
  destruct (Hs _ _ _ Er) as (q & Hq & H200 & H206). destruct (replaced (rp_seq r) seen) eqn:Erep; [apply IH; by left|].
  rewrite Hq. cbn [keep_seq]. destruct (rp_status r =? 200)%Z eqn:E2.
  - apply Z.eqb_eq in E2. destruct (H200 E2) as [Hp He]. rewrite str_app_nil_l. destruct (rp_ended r); [intros [= <-]; exists q; by apply He|].
    apply IH. right. by exists q.
  - destruct (rp_status r =? 206)%Z eqn:E6; [|done]. apply Z.eqb_eq in E6. destruct (H206 E6) as [Hp He].
    assert (Hpre : str_prefix got (blob q)).
    { destruct Hgot as [->|(q' & -> & Hg)]; [by exists (blob q)|]. unfold replaced in Erep. rewrite Hq in Erep. cbn in Erep.
      destruct (decide (Some q = Some q')) as [[= ->]|Hne]; [done|]. by rewrite bool_decide_false in Erep. }
    destruct Hpre as [u Hu].
    assert (Hrest : str_drop (default 0 (range_of got)) (blob q) = u).
    { unfold range_of. case_decide as Hn; cbn; [by rewrite Hu, Hn|]. by rewrite Hu, str_drop_app. }
    rewrite Hrest in Hp, He. destruct (rp_ended r).
    + intros [= <-]. exists q. by rewrite Hu, He.
    + apply IH. right. exists q. split; [done|]. destruct Hp as [v Hv]. exists v. by rewrite Hu, Hv, str_app_assoc.
Qed.

(** A checkpoint that is downloaded is one checkpoint, whole: whatever the
    attempts that fail, the bodies that are cut, and the checkpoints committed
    while it goes on, from a server that stamps its answers with the
    checkpoint and honours the range, never the head of one and the tail of
    another.  At most four requests are made. *)
Theorem checkpoint_is_whole blob b : honest blob -> fetch = Ok b -> exists q, b = blob q.
Proof. intros Hs Hf. eapply fetch_from_whole; [exact Hs|by left|exact Hf]. Qed.
End fetch.

(** A download cut after three bytes, whose checkpoint is then replaced. *)
Definition demo_blob (q : string) : string := match q with "7"%string => "abcdef" | _ => "uvwxyz!" end.
Definition demo_serve (attempt : nat) (range : option nat) : option Response :=
  match attempt with
  | 0 => Some (mk_response (Some "7"%string) (match range with Some _ => 206 | None => 200 end)%Z [if range then EmptyString else "abc"%string] false)
  | 1 => None
  | _ => Some (mk_response (Some "8"%string) (match range with Some _ => 206 | None => 200 end)%Z [str_drop (default 0 range) "uvwxyz!"] true)
  end.
Lemma checkpoint_is_whole_witness : exists q, "uvwxyz!"%string = demo_blob q.
Proof.
  apply (checkpoint_is_whole (fun _ => true) demo_serve); [|vm_compute; reflexivity].
  intros [|[|n]] range r E; [| |]; cbn in E; try discriminate E; injection E as <-; [exists "7"%string|exists "8"%string].
  - split_and!; [done|..]; destruct range as [k|]; cbn [rp_status rp_chunks rp_ended concat_strings default]; try done; intros _; (split; [|done]).
    + by exists "def"%string.
    + exists (str_drop k (demo_blob "7")). by rewrite !str_app_nil_l.
  - split_and!; [done|..]; destruct range as [k|]; cbn [rp_status rp_chunks rp_ended concat_strings default]; try done; intros _; rewrite str_app_nil_r; (split; [|done]).
    + exists EmptyString. by rewrite str_app_nil_r.
    + exists EmptyString. by rewrite str_app_nil_r.
Defined.
(** Without the stamp two checkpoints are spliced. *)
Lemma unstamped_splice : fetch (fun _ => true) (fun attempt range => match attempt with
    | 0 => Some (mk_response None 200 ["abc"%string] false) | _ => Some (mk_response None 206 [str_drop (default 0 range) "uvwxyz!"] true) end) = Ok "abcxyz!"%string.
Proof. vm_compute. reflexivity. Qed.
