(* ===== verification/Workflow.v ===== *)
(** Prepared actions of bounded workflow decisions,
    [crates/engine/src/workflow.rs]: what a selector is offered, the checks
    before selection and before dispatch, and what an outcome records. *)
From Stdlib Require Import ZArith Lia Ascii String.
From stdpp Require Import base tactics numbers list strings gmap relations.
From S2P Require Import Prelude Text.
Open Scope keel_scope.

(** * State *)

Record TaskState := mk_task { ts_revision : Z; ts_cancelled : bool; ts_completed : gset string }.
Definition task_new (revision : Z) : TaskState := mk_task revision false ∅.
(** [checked_add(1).expect(..)]: [None] panics. *)
Definition invalidate (s : TaskState) : option TaskState :=
  if (ts_revision s + 1 <=? u64_max)%Z then Some (mk_task (ts_revision s + 1)%Z (ts_cancelled s) (ts_completed s)) else None.
Definition is_completed (id : string) (s : TaskState) : bool := bool_decide (id ∈ ts_completed s).

Inductive Precondition := PC_Completed (id : string).
Record PreparedAction (T : Type) := mk_action {
  pa_id : string;
  pa_description : string;
  pa_payload : T;
  pa_prepared_at_revision : Z;
  pa_preconditions : list Precondition;
  pa_read_set_fingerprint : option string;
  pa_expires_at_ms : option Z;
}.
Arguments mk_action {T}.
Arguments pa_id {T}.
Arguments pa_description {T}.
Arguments pa_payload {T}.
Arguments pa_prepared_at_revision {T}.
Arguments pa_preconditions {T}.
Arguments pa_read_set_fingerprint {T}.
Arguments pa_expires_at_ms {T}.
Record ValidationContext := mk_context { vc_now_ms : Z; vc_current_read_set_fingerprint : option string; vc_authorized : bool }.

Inductive RejectReason := RR_Cancelled | RR_InvalidId | RR_WrongSelection | RR_StaleRevision | RR_Expired | RR_UnmetPrecondition | RR_StaleReadSet | RR_Unauthorized.
#[export] Instance RejectReason_eq_dec : EqDecision RejectReason.
Proof. solve_decision. Defined.
Record ValidationTrace := mk_trace { vt_action_id : string; vt_task_revision : Z; vt_accepted : bool; vt_rejection : option RejectReason }.

Inductive ExecutionOutcome := EO_Verified | EO_Failed | EO_Unverified.
Inductive OutcomeStatus := OS_Verified | OS_ExecutionFailed | OS_VerificationFailed | OS_Rejected.
#[export] Instance OutcomeStatus_eq_dec : EqDecision OutcomeStatus.
Proof. solve_decision. Defined.
Record OutcomeTrace := mk_outcome { ot_action_id : string; ot_task_revision : Z; ot_status : OutcomeStatus; ot_rejection : option RejectReason }.

(** * Checks *)

Section actions.
Context {T : Type}.
Implicit Types (a : PreparedAction T) (s : TaskState) (x : ValidationContext).

Definition expired (now : Z) (deadline : option Z) : bool := match deadline with Some d => (d <=? now)%Z | None => false end.
Definition unmet s (p : Precondition) : bool := match p with PC_Completed id => negb (is_completed id s) end.
Definition rejection_of s a (selected_id : string) x : option RejectReason :=
  if ts_cancelled s then Some RR_Cancelled
  else if bool_decide (trim (pa_id a) = EmptyString) || bool_decide (pa_id a = "escalate"%string) then Some RR_InvalidId
  else if negb (bool_decide (pa_id a = selected_id)) then Some RR_WrongSelection
  else if negb (ts_revision s =? pa_prepared_at_revision a)%Z then Some RR_StaleRevision
  else if expired (vc_now_ms x) (pa_expires_at_ms a) then Some RR_Expired
  else if existsb (unmet s) (pa_preconditions a) then Some RR_UnmetPrecondition
  else if negb (bool_decide (pa_read_set_fingerprint a = vc_current_read_set_fingerprint x)) then Some RR_StaleReadSet
  else if negb (vc_authorized x) then Some RR_Unauthorized
  else None.
Definition validate_selected s a (selected_id : string) x : ValidationTrace :=
  let rejection := rejection_of s a selected_id x in
  mk_trace (pa_id a) (ts_revision s) (match rejection with None => true | Some _ => false end) rejection.
Definition eligible s a x : bool := vt_accepted (validate_selected s a (pa_id a) x).

(** [None]: the revision is exhausted. *)
Definition record_outcome a (v : ValidationTrace) (outcome : ExecutionOutcome) s : option (TaskState * OutcomeTrace) :=
  let rejected := negb (vt_accepted v) || negb (bool_decide (vt_action_id v = pa_id a)) || negb (vt_task_revision v =? ts_revision s)%Z
                  || negb (ts_revision s =? pa_prepared_at_revision a)%Z || ts_cancelled s in
  let trace s status := mk_outcome (pa_id a) (ts_revision s) status
        (if bool_decide (status = OS_Rejected) then Some (default RR_StaleRevision (vt_rejection v)) else None) in
  if rejected then Some (s, trace s OS_Rejected)
  else
    match outcome with
    | EO_Verified => s ← invalidate (mk_task (ts_revision s) (ts_cancelled s) ({[pa_id a]} ∪ ts_completed s)); Some (s, trace s OS_Verified)
    | EO_Failed => Some (s, trace s OS_ExecutionFailed)
    | EO_Unverified => Some (s, trace s OS_VerificationFailed)
    end.

(** [fingerprint_of], over the digest of the snapshot's bytes. *)
Definition fingerprint_of {R} (to_bytes : R -> option string) (digest : string -> string) (value : R) : option string :=
  digest <$> to_bytes value.

(** ** What acceptance means *)

Lemma accepted_spec s a id x : vt_accepted (validate_selected s a id x) = true <->
  ts_cancelled s = false /\ trim (pa_id a) <> EmptyString /\ pa_id a <> "escalate"%string /\ pa_id a = id /\ ts_revision s = pa_prepared_at_revision a
  /\ (forall d, pa_expires_at_ms a = Some d -> (vc_now_ms x < d)%Z)
  /\ (forall i, PC_Completed i ∈ pa_preconditions a -> i ∈ ts_completed s)
  /\ pa_read_set_fingerprint a = vc_current_read_set_fingerprint x /\ vc_authorized x = true.
Proof.
  unfold validate_selected, rejection_of. cbn.
  destruct (ts_cancelled s); [naive_solver|]. cbn.
  destruct (decide (trim (pa_id a) = EmptyString)) as [Ht|Ht]; [rewrite bool_decide_true by done; naive_solver|rewrite bool_decide_false by done].
  destruct (decide (pa_id a = "escalate"%string)) as [He|He]; [rewrite bool_decide_true by done; naive_solver|rewrite bool_decide_false by done]. cbn.
  destruct (decide (pa_id a = id)) as [Hi|Hi]; [rewrite bool_decide_true by done|rewrite bool_decide_false by done; naive_solver]. cbn.
  destruct (ts_revision s =? pa_prepared_at_revision a)%Z eqn:Er; cbn; [apply Z.eqb_eq in Er|apply Z.eqb_neq in Er; naive_solver].
  assert (Hx : expired (vc_now_ms x) (pa_expires_at_ms a) = false <-> forall d, pa_expires_at_ms a = Some d -> (vc_now_ms x < d)%Z).
  { unfold expired. destruct (pa_expires_at_ms a) as [d|]; [|naive_solver]. rewrite Z.leb_gt. naive_solver. }
  destruct (expired _ _); [split; [done|intros (_ & _ & _ & _ & _ & H & _); by apply Hx in H]|].
  assert (Hu : existsb (unmet s) (pa_preconditions a) = false <-> forall i, PC_Completed i ∈ pa_preconditions a -> i ∈ ts_completed s).
  { rewrite <- not_true_iff_false, existsb_exists. split.
    - intros H i Hin. destruct (decide (i ∈ ts_completed s)); [done|]. destruct H. exists (PC_Completed i).
      split; [by apply list_elem_of_In|]. unfold unmet, is_completed. by rewrite bool_decide_false.
    - intros H ([i] & Hin%list_elem_of_In & Hn). unfold unmet, is_completed in Hn. rewrite bool_decide_true in Hn; [done|]. by apply H. }
  destruct (existsb _ _); [split; [done|intros (_ & _ & _ & _ & _ & _ & H & _); by apply Hu in H]|].
  destruct (decide (pa_read_set_fingerprint a = vc_current_read_set_fingerprint x)) as [Hf|Hf]; [rewrite bool_decide_true by done|rewrite bool_decide_false by done; naive_solver].
  destruct (vc_authorized x); cbn; naive_solver.
Qed.

(** * A task over time *)

(** The state, and the actions verified so far with the revision of each. *)
Record Task := mk_run { tk_state : TaskState; tk_tickets : list ValidationTrace; tk_verified : list (string * Z) }.
(** The host validates, records outcomes against the tickets it was given, and
    the task is changed or cancelled. *)
Inductive task_step : Task -> Task -> Prop :=
| ts_validate a id x t : task_step t (mk_run (tk_state t) (validate_selected (tk_state t) a id x :: tk_tickets t) (tk_verified t))
| ts_outcome a v o t s' tr : v ∈ tk_tickets t -> record_outcome a v o (tk_state t) = Some (s', tr) ->
    task_step t (mk_run s' (tk_tickets t) (if decide (ot_status tr = OS_Verified) then (pa_id a, ts_revision (tk_state t)) :: tk_verified t else tk_verified t))
| ts_invalidate t s' : invalidate (tk_state t) = Some s' -> task_step t (mk_run s' (tk_tickets t) (tk_verified t))
| ts_cancel t : task_step t (mk_run (mk_task (ts_revision (tk_state t)) true (ts_completed (tk_state t))) (tk_tickets t) (tk_verified t)).

Record task_inv (t : Task) : Prop := {
  ti_completed : forall id, id ∈ ts_completed (tk_state t) <-> id ∈ (tk_verified t).*1;
  ti_once : NoDup (tk_verified t).*2;
  ti_past : Forall (fun iv => (iv.2 < ts_revision (tk_state t))%Z) (tk_verified t);
}.

Lemma invalidate_revision s s' : invalidate s = Some s' -> ts_revision s' = (ts_revision s + 1)%Z /\ ts_completed s' = ts_completed s /\ ts_cancelled s' = ts_cancelled s.
Proof. unfold invalidate. destruct (_ <=? _)%Z; [|done]. by intros [= <-]. Qed.
Lemma Forall_past l r r' : (r <= r')%Z -> Forall (fun iv : string * Z => (iv.2 < r)%Z) l -> Forall (fun iv => (iv.2 < r')%Z) l.
Proof. intros Hr H. eapply Forall_impl; [exact H|]. intros iv Hiv. cbn in *. lia. Qed.
Lemma record_outcome_cases a v o s s' tr : record_outcome a v o s = Some (s', tr) ->
  (s' = s /\ ot_status tr <> OS_Verified)
  \/ (o = EO_Verified /\ ot_status tr = OS_Verified /\ vt_accepted v = true /\ vt_action_id v = pa_id a /\ vt_task_revision v = ts_revision s
      /\ ts_revision s = pa_prepared_at_revision a /\ ts_cancelled s = false /\ ts_revision s' = (ts_revision s + 1)%Z
      /\ ts_completed s' = {[pa_id a]} ∪ ts_completed s).
Proof.
  unfold record_outcome. destruct (_ || ts_cancelled s) eqn:E; [intros [= <- <-]; by left|].
  rewrite !orb_false_iff, !negb_false_iff in E. destruct E as [[[[E1 E2%bool_decide_eq_true] E3%Z.eqb_eq] E4%Z.eqb_eq] E5].
  destruct o; [|intros [= <- <-]; by left..]. destruct (invalidate _) as [s1|] eqn:Ei; [|done]. intros [= <- <-]. right.
  destruct (invalidate_revision _ _ Ei) as (H1 & H2 & _). by split_and!.
Qed.
Lemma task_step_inv t t' : task_step t t' -> task_inv t -> task_inv t'.
Proof.
  intros [a id x t0|a v o t0 s' tr _ Ho|t0 s' Hi|t0] [H1 H2 H3]; [by split| | |by split].
  - destruct (record_outcome_cases _ _ _ _ _ _ Ho) as [[-> Hs]|(-> & Hs & _ & _ & _ & _ & _ & Hrev & Hc)].
    + rewrite decide_False by done. by split.
    + rewrite decide_True by done. split; cbn.
      * intros i. rewrite Hc, elem_of_union, elem_of_singleton, elem_of_cons, H1. done.
      * constructor; [|done]. intros Hin. apply list_elem_of_fmap in Hin as ([i r] & Hr & Hin). rewrite Forall_forall in H3. specialize (H3 _ Hin). cbn in *. lia.
      * rewrite Hrev. constructor; [cbn; lia|]. eapply Forall_past; [|done]. lia.
  - destruct (invalidate_revision _ _ Hi) as (Hrev & Hc & _). split; cbn; [by rewrite Hc|done|]. rewrite Hrev. eapply Forall_past; [|done]. lia.
Qed.

(** C32. A ticket is spent once and only where it was issued.  From a new task,
    through any validations, outcomes, changes of the task and cancellations,
    with tickets the host was given at any time: the completed set is exactly
    what was verified, and no two actions are verified at one revision.  An
    outcome is recorded as verified only when its ticket was accepted for that
    very action at the present revision of a task that is not cancelled, and it
    moves the task to the next revision, where every earlier ticket is
    rejected. *)
Theorem tickets_spent_once revision t : rtc task_step (mk_run (task_new revision) [] []) t ->
  task_inv t
  /\ forall (a : PreparedAction T) v o s' tr, record_outcome a v o (tk_state t) = Some (s', tr) -> ot_status tr = OS_Verified ->
       o = EO_Verified /\ vt_accepted v = true /\ vt_action_id v = pa_id a /\ vt_task_revision v = ts_revision (tk_state t) /\ ts_cancelled (tk_state t) = false
       /\ ts_revision s' = (ts_revision (tk_state t) + 1)%Z
       /\ forall (b : PreparedAction T) w o' s'' tr', (vt_task_revision w <= ts_revision (tk_state t))%Z -> record_outcome b w o' s' = Some (s'', tr') -> ot_status tr' = OS_Rejected.
Proof.
  intros H. split.
  - assert (Hi : task_inv (mk_run (task_new revision) [] [])) by (split; cbn; [set_solver|constructor|constructor]).
    revert Hi. induction H as [|? ? ? Hs _ IH]; [done|]. intros Hi. apply IH. by eapply task_step_inv.
  - intros a v o s' tr Ho Hv. destruct (record_outcome_cases _ _ _ _ _ _ Ho) as [[_ Hn]|(Hov & _ & H1 & H2 & H3 & _ & H5 & H6 & _)]; [done|]. split_and!; try done.
    intros b w o' s'' tr' Hw Hr. unfold record_outcome in Hr.
    replace (vt_task_revision w =? ts_revision s')%Z with false in Hr by (symmetry; apply Z.eqb_neq; lia). rewrite !orb_true_r in Hr. cbn in Hr. by injection Hr as _ <-.
Qed.
End actions.

(** A task whose action is validated and verified. *)
Definition demo_action : PreparedAction nat := mk_action "inspect" "read" 0 7 [] (Some "v1"%string) (Some 100%Z).
Definition demo_context : ValidationContext := mk_context 99 (Some "v1"%string) true.
Definition demo_ticket : ValidationTrace := validate_selected (task_new 7) demo_action "inspect" demo_context.
Lemma tickets_spent_once_witness : exists t : Task, rtc (task_step (T:=nat)) (mk_run (task_new 7) [] []) t /\ tk_verified t = [("inspect"%string, 7%Z)] /\ task_inv t.
Proof.
  set (s := mk_task 8 false {["inspect"%string]}).
  assert (Ho : record_outcome demo_action demo_ticket EO_Verified (task_new 7) = Some (s, mk_outcome "inspect" 8 OS_Verified None)) by (vm_compute; reflexivity).
  assert (Hr : rtc (task_step (T:=nat)) (mk_run (task_new 7) [] []) (mk_run s [demo_ticket] [("inspect"%string, 7%Z)])).
  { eapply rtc_l; [apply (ts_validate demo_action "inspect" demo_context)|]. eapply rtc_l; [|apply rtc_refl].
    exact (ts_outcome demo_action demo_ticket EO_Verified (mk_run (task_new 7) [demo_ticket] []) s _ ltac:(by left) Ho). }
  exists (mk_run s [demo_ticket] [("inspect"%string, 7%Z)]). split; [exact Hr|]. split; [reflexivity|]. exact (proj1 (tickets_spent_once 7 _ Hr)).
Defined.
