(* ===== verification/JevRouting.v ===== *)
(** The choice of a provider and model for a new task,
    [crates/engine/src/jev_routing.rs]: the routes the registry offers, the
    selector's answer, and the checks of the answer against the registry as
    it is by then.

    The registry is what it answers at each of the moments the code asks; the
    selectors are parameters, of which [JevCore.select] is one.  [Debug] of
    the sandbox in the context of a question is a parameter. *)
From Stdlib Require Import ZArith Lia Ascii String.
From stdpp Require Import base tactics numbers list strings pretty gmap.
From S2P Require Import Prelude Json Text Proto Workflow JevCore.
Open Scope keel_scope.

(** * The registry and the routes *)

Definition MAX_ROUTES : nat := 16.
Definition MAX_MODELS_PER_HARNESS : nat := 3.
Definition MAX_LOCAL_ROUTES : nat := 8.

Record Descriptor := mk_descriptor { ds_id : HarnessId; ds_name : string; ds_installed : bool; ds_enabled : option bool }.
Record Model := mk_model { ml_id : string; ml_label : string; ml_description : option string; ml_reasoning_levels : list ReasoningLevel }.
(** A harness that does not resolve, or does not answer in time, has no
    models. *)
Record Registry := mk_registry { rg_descriptors : list Descriptor; rg_models : HarnessId -> option (list Model); rg_deepseek_key : bool }.

Record RouteChoice := mk_choice { ch_harness : HarnessId; ch_model : option string }.
Record PreparedRoute := mk_route {
  pr_id : string; pr_choice : RouteChoice; pr_description : string; pr_provider_name : string; pr_model_label : string; pr_reasoning_levels : list ReasoningLevel
}.
#[export] Instance RouteChoice_eq_dec : EqDecision RouteChoice.
Proof. solve_decision. Defined.
#[export] Instance PreparedRoute_eq_dec : EqDecision PreparedRoute.
Proof. solve_decision. Defined.
Record RouteDecision := mk_decision { rd_choice : option RouteChoice; rd_event : option DecisionEvent }.
Definition skipped : RouteDecision := mk_decision None None.

(** What a selector answers. *)
Record Selection := mk_answered { sl_selected : option string; sl_fallback : option string; sl_confidence : option f64; sl_selected_probability : option f64; sl_fit : option f64 }.
Inductive RouteBackend := RB_LocalLaya | RB_TypeSafeJev.

Definition model_option (k : string) (r : RunRequest) : option bool := assoc k (rr_model_options r) ≫= as_bool.
Definition requested (r : RunRequest) : bool :=
  bool_decide (model_option "jevAuto" r = Some true) && negb (bool_decide (model_option "jevRouted" r = Some true))
  && forallb (fun kv => bool_decide (kv.1 = "jevAuto"%string) || bool_decide (kv.1 = "jevRouted"%string)) (rr_model_options r).

Definition reasoning_compatible (wanted : option ReasoningLevel) (offered : list ReasoningLevel) : bool :=
  match wanted with Some level => bool_decide (level ∈ offered) | None => true end.

Section routes.
(** The harnesses enabled when nothing is said. *)
Context (default_enabled : HarnessId -> bool).

Definition descriptor_enabled (d : Descriptor) : bool := match ds_enabled d with Some b => b | None => default_enabled (ds_id d) end.
Definition probed (g : Registry) (d : Descriptor) : bool :=
  ds_installed d && descriptor_enabled d && negb (bool_decide (ds_id d = Mock)) && (negb (bool_decide (ds_id d = Dsh)) || rg_deepseek_key g).
Definition route_of (d : Descriptor) (m : Model) (n : nat) : PreparedRoute :=
  mk_route ("route_" +:+ pretty n) (mk_choice (ds_id d) (Some (ml_id m)))
    (ds_name d +:+ " coding agent, model " +:+ ml_label m +:+ ". " +:+ default EmptyString (ml_description m)) (ds_name d) (ml_label m) (ml_reasoning_levels m).
Fixpoint add_models (wanted : option ReasoningLevel) (d : Descriptor) (models : list Model) (routes : list PreparedRoute) : list PreparedRoute :=
  match models with
  | [] => routes
  | m :: models =>
      if MAX_ROUTES <=? length routes then routes
      else add_models wanted d models (if reasoning_compatible wanted (ml_reasoning_levels m) then routes ++ [route_of d m (length routes)] else routes)
  end.
Definition prepare_routes (g : Registry) (wanted : option ReasoningLevel) : list PreparedRoute :=
  let probes := omap (fun d => (fun models => (d, models)) <$> rg_models g (ds_id d)) (base.filter (fun d => probed g d = true) (rg_descriptors g)) in
  foldl (fun routes p => add_models wanted p.1 (take MAX_MODELS_PER_HARNESS p.2) routes) [] probes.

(** ** The local model's eight *)

Fixpoint providers_of (seen : list HarnessId) (routes : list PreparedRoute) : list HarnessId :=
  match routes with
  | [] => seen
  | r :: routes => providers_of (if decide (ch_harness (pr_choice r) ∈ seen) then seen else seen ++ [ch_harness (pr_choice r)]) routes
  end.
Definition nth_of (prepared : list PreparedRoute) (p : HarnessId) (n : nat) : option PreparedRoute :=
  base.filter (fun r => ch_harness (pr_choice r) = p) prepared !! n.
(** True: the limit is reached, which ends both loops. *)
Fixpoint take_round (prepared : list PreparedRoute) (n : nat) (providers : list HarnessId) (selected : list PreparedRoute) : list PreparedRoute * bool :=
  match providers with
  | [] => (selected, false)
  | p :: providers =>
      match nth_of prepared p n with
      | Some r => let selected := selected ++ [r] in
          if length selected =? MAX_LOCAL_ROUTES then (selected, true) else take_round prepared n providers selected
      | None => take_round prepared n providers selected
      end
  end.
Fixpoint take_rounds (prepared : list PreparedRoute) (rounds : list nat) (selected : list PreparedRoute) : list PreparedRoute :=
  match rounds with
  | [] => selected
  | n :: rounds => let '(selected, full) := take_round prepared n (providers_of [] prepared) selected in if full : bool then selected else take_rounds prepared rounds selected
  end.
Definition compact_local_routes (prepared : list PreparedRoute) : list PreparedRoute := take_rounds prepared (seq 0 MAX_MODELS_PER_HARNESS) [].

(** * The choice *)

(** What the code reads, in order: the clock of each reading, and the registry
    when the routes are prepared, prepared again, looked up and asked for its
    models. *)
Record RouteEnv := mk_env {
  ev_now : nat -> Z;
  ev_prepared : Registry;
  ev_again : Registry;
  ev_descriptors : list Descriptor;
  ev_models : HarnessId -> option (list Model);
  ev_laya : SelectionInput -> Selection;
  ev_jev : SelectionInput -> option Selection;  (* [None]: the selector does not start *)
  ev_sandbox : SandboxLevel -> string;
}.
Context (to_bytes : list PreparedRoute -> option string) (digest : string -> string).

(** The digest of the routes, without the names shown. *)
Definition route_fingerprint (routes : list PreparedRoute) : option string := fingerprint_of to_bytes digest routes.
Definition action_of (revision now : Z) (fp : string) (r : PreparedRoute) : PreparedAction RouteChoice :=
  mk_action (pr_id r) (pr_description r) (pr_choice r) revision [] (Some fp) (Some (i64_saturating_add now 45000)).

Definition jev_context (x : RouteEnv) (r : RunRequest) : string :=
  "Coding task. Sandbox: " +:+ ev_sandbox x (rr_sandbox r) +:+ ". Image attachments: " +:+ pretty (length (rr_attachments r))
  +:+ ". Select one available coding provider/model that can address the task. The host retains execution and permission authority.".
Definition laya_context (x : RouteEnv) (r : RunRequest) : string :=
  "Choose a coding agent/model. Sandbox " +:+ ev_sandbox x (rr_sandbox r) +:+ "; " +:+ pretty (length (rr_attachments r)) +:+ " attachments. Host enforces permissions.".
Definition local_label (r : PreparedRoute) : string := pr_provider_name r +:+ ": " +:+ pr_model_label r.
Definition jev_input (x : RouteEnv) (revision : Z) (r : RunRequest) (prepared : list PreparedRoute) : SelectionInput :=
  mk_selection (mk_decision_state (chars_take 6000 (rr_prompt r)) (jev_context x r) revision) ((fun p => mk_cand (pr_id p) (pr_description p)) <$> prepared).
Definition laya_input (x : RouteEnv) (revision : Z) (r : RunRequest) (local : list PreparedRoute) : SelectionInput :=
  mk_selection (mk_decision_state (chars_take 900 (rr_prompt r)) (laya_context x r) revision) ((fun p => mk_cand (pr_id p) (chars_take 90 (local_label p))) <$> local).

(** The backend asked, the candidates as recorded, and its answer. *)
Definition ask (x : RouteEnv) (backend : RouteBackend) (revision : Z) (r : RunRequest) (prepared : list PreparedRoute)
  : option (DecisionBackend * list DecisionCandidate * Selection) :=
  match backend with
  | RB_TypeSafeJev =>
      s ← ev_jev x (jev_input x revision r prepared);
      Some (Jev, (fun p => mk_candidate (pr_id p) (pr_description p)) <$> prepared, mk_answered (sl_selected s) (sl_fallback s) (sl_confidence s) None (sl_fit s))
  | RB_LocalLaya =>
      let local := compact_local_routes prepared in
      let s := ev_laya x (laya_input x revision r local) in
      Some (Laya, (fun p => mk_candidate (pr_id p) (local_label p)) <$> local, mk_answered (sl_selected s) (sl_fallback s) (sl_confidence s) (sl_selected_probability s) None)
  end.

Definition with_measures (s : Selection) (e : DecisionEvent) : DecisionEvent :=
  mk_decision_event (de_schema_version e) (de_id e) (de_task_revision e) (de_backend e) (de_stage e) (de_candidates e) (de_result e) (de_validation e)
    (sl_confidence s) (sl_selected_probability s) (sl_fit s) (de_fallback e) (de_observed_outcome e) (de_created_at e).
Definition with_validation (v : DecisionValidation) (e : DecisionEvent) : DecisionEvent :=
  mk_decision_event (de_schema_version e) (de_id e) (de_task_revision e) (de_backend e) (de_stage e) (de_candidates e) (de_result e) v
    (de_confidence e) (de_selected_probability e) (de_fit e) (de_fallback e) (de_observed_outcome e) (de_created_at e).
Definition route_event (backend : DecisionBackend) (considered : list DecisionCandidate) (s : Selection) (revision now : Z) : DecisionEvent :=
  let e := DecisionEvent_new ("intake-" +:+ pretty revision) revision backend DSt_Intake considered
             (match sl_selected s with Some id => Selected id | None => Abstained end) DV_Accepted now in
  let e := bounded (with_measures s e) in
  match sl_fallback s with Some reason => with_fallback reason e | None => e end.
Definition RETAINED : string := "Original harness retained".
Definition retained (v : DecisionValidation) (why : string) (e : DecisionEvent) : RouteDecision :=
  mk_decision None (Some (with_observed_outcome RETAINED (with_fallback why (with_validation v e)))).
Definition validation_of (r : option RejectReason) : DecisionValidation :=
  match r with
  | Some RR_Expired => DV_Expired
  | Some RR_Unauthorized => DV_Unauthorized
  | Some RR_StaleReadSet | Some RR_StaleRevision => DV_Stale
  | _ => DV_Rejected
  end.
Definition model_valid (models : option (list Model)) (choice : RouteChoice) (wanted : option ReasoningLevel) : bool :=
  match models ≫= List.find (fun m => bool_decide (Some (ml_id m) = ch_model choice)) with
  | Some m => reasoning_compatible wanted (ml_reasoning_levels m)
  | None => false
  end.

Definition choose_with_report (x : RouteEnv) (r : RunRequest) (backend : RouteBackend) : RouteDecision :=
  if negb (requested r) then skipped
  else
    let prepared := prepare_routes (ev_prepared x) (rr_reasoning r) in
    if bool_decide (prepared = []) then skipped
    else
      let state := task_new (Z.max 0 (ev_now x 0)) in
      match route_fingerprint prepared with
      | None => skipped
      | Some fp =>
          let actions := imap (fun n p => action_of (ts_revision state) (ev_now x (1 + n)) fp p) prepared in
          let k := 1 + length prepared in
          if negb (forallb (fun a => eligible state a (mk_context (ev_now x k) (Some fp) true)) actions) then skipped
          else
            match ask x backend (ts_revision state) r prepared with
            | None => skipped
            | Some (name, considered, s) =>
                let e := route_event name considered s (ts_revision state) (ev_now x (k + 1)) in
                match sl_selected s with
                | None => mk_decision None (Some (with_observed_outcome RETAINED e))
                | Some selected =>
                    match List.find (fun a => bool_decide (pa_id a = selected)) actions with
                    | None => retained DV_Rejected "Unknown route ID" e
                    | Some action =>
                        match route_fingerprint (prepare_routes (ev_again x) (rr_reasoning r)) with
                        | None => retained DV_Stale "Route catalog unavailable" e
                        | Some live =>
                            let still := existsb (fun d => bool_decide (ds_id d = ch_harness (pa_payload action)) && ds_installed d && descriptor_enabled d) (ev_descriptors x) in
                            let v := validate_selected state action selected (mk_context (ev_now x (k + 2)) (Some live) still) in
                            if negb (vt_accepted v) then retained (validation_of (vt_rejection v)) "Route changed before dispatch" e
                            else if model_valid (ev_models x (ch_harness (pa_payload action))) (pa_payload action) (rr_reasoning r) then
                              mk_decision (Some (pa_payload action)) (Some e)
                            else retained DV_Stale "Selected model unavailable" e
                        end
                    end
                end
            end
      end.

(** * What the routes are *)

(** A route the registry offers: its place, a harness that is installed and
    enabled, and one of its first models. *)
Definition offers (g : Registry) (wanted : option ReasoningLevel) (n : nat) (p : PreparedRoute) : Prop :=
  exists d m models, d ∈ rg_descriptors g /\ probed g d = true /\ rg_models g (ds_id d) = Some models /\ m ∈ take MAX_MODELS_PER_HARNESS models
    /\ reasoning_compatible wanted (ml_reasoning_levels m) = true /\ p = route_of d m n.
Definition routes_ok (g : Registry) (wanted : option ReasoningLevel) (routes : list PreparedRoute) : Prop :=
  length routes <= MAX_ROUTES /\ forall n p, routes !! n = Some p -> offers g wanted n p.

Lemma add_models_ok g wanted d models all : d ∈ rg_descriptors g -> probed g d = true -> rg_models g (ds_id d) = Some all ->
  (forall m, m ∈ models -> m ∈ take MAX_MODELS_PER_HARNESS all) -> forall routes, routes_ok g wanted routes -> routes_ok g wanted (add_models wanted d models routes).
Proof.
  intros Hd Hp Hm. induction models as [|m models IH]; intros Hin routes Hr; cbn [add_models]; [done|].
  destruct (MAX_ROUTES <=? length routes) eqn:El; [done|]. apply Nat.leb_gt in El. apply IH; [set_solver|].
  destruct (reasoning_compatible wanted _) eqn:Ec; [|done]. destruct Hr as [_ Hr]. split; [rewrite length_app; cbn; lia|].
  intros n p [[_ Hn]|[-> <-]]%lookup_snoc_Some; [by apply Hr|]. exists d, m, all. split_and!; try done. set_solver.
Qed.
Lemma routes_prepared_ok g wanted : routes_ok g wanted (prepare_routes g wanted).
Proof.
  unfold prepare_routes. set (ds := base.filter _ _).
  assert (Hds : forall d, d ∈ ds -> d ∈ rg_descriptors g /\ probed g d = true) by (intros d [? ?]%list_elem_of_filter; done).
  clearbody ds. assert (H0 : routes_ok g wanted []) by (split; [cbn; lia|done]). revert H0. generalize (@nil PreparedRoute) as routes.
  induction ds as [|d ds IH]; intros routes Hr; [done|]. rewrite list_omap_cons. destruct (rg_models g (ds_id d)) as [all|] eqn:Em; cbn.
  - apply IH; [set_solver|]. destruct (Hds d) as [? ?]; [set_solver|]. by eapply add_models_ok.
  - apply IH; [set_solver|done].
Qed.
Lemma pretty_nat_inj (a b : nat) : pretty a = pretty b -> a = b.
Proof. apply (inj pretty). Qed.
Lemma routes_ok_ids g wanted routes : routes_ok g wanted routes -> NoDup (pr_id <$> routes).
Proof.
  intros [_ H]. apply NoDup_alt. intros i j x Hi Hj. rewrite list_lookup_fmap in Hi, Hj.
  destruct (routes !! i) as [p|] eqn:Ei; [|done]. destruct (routes !! j) as [q|] eqn:Ej; [|done].
  destruct (H _ _ Ei) as (? & ? & ? & _ & _ & _ & _ & _ & ->). destruct (H _ _ Ej) as (? & ? & ? & _ & _ & _ & _ & _ & ->). cbn in Hi, Hj.
  apply pretty_nat_inj, (inj (String.append "route_")). congruence.
Qed.

(** ** The local model's eight *)

Lemma take_round_spec prepared n providers : forall selected, let '(l, full) := take_round prepared n providers selected in
  exists more, l = selected ++ more /\ (forall r, r ∈ more -> exists p, p ∈ providers /\ nth_of prepared p n = Some r)
    /\ (full = false -> forall p r, p ∈ providers -> nth_of prepared p n = Some r -> r ∈ more)
    /\ (length selected < MAX_LOCAL_ROUTES -> length l <= MAX_LOCAL_ROUTES /\ (full = false -> length l < MAX_LOCAL_ROUTES)).
Proof.
  induction providers as [|p providers IH]; intros selected; cbn [take_round].
  { exists []. rewrite app_nil_r. split_and!; try done; [set_solver|set_solver|]. intros H. split; [lia|done]. }
  destruct (nth_of prepared p n) as [r|] eqn:Er.
  - destruct (length (selected ++ [r]) =? MAX_LOCAL_ROUTES) eqn:El.
    + apply Nat.eqb_eq in El. exists [r]. split_and!; [done| |done|lia]. intros x ->%list_elem_of_singleton. exists p. split; [by left|done].
    + apply Nat.eqb_neq in El. specialize (IH (selected ++ [r])). destruct (take_round prepared n providers (selected ++ [r])) as [l full].
      destruct IH as (more & -> & H1 & H2 & H3). exists (r :: more). rewrite <- app_assoc. split_and!; [done|..].
      * intros x [->|Hx]%elem_of_cons; [exists p; split; [by left|done]|]. destruct (H1 x Hx) as (q & Hq & E). exists q. split; [by right|done].
      * intros Hf q x [->|Hq]%elem_of_cons E; [rewrite Er in E; injection E as <-; by left|right; by eapply H2].
      * intros Hl. rewrite length_app in El, H3. cbn in El, H3. rewrite <- app_assoc in H3. apply H3. lia.
  - specialize (IH selected). destruct (take_round prepared n providers selected) as [l full]. destruct IH as (more & -> & H1 & H2 & H3). exists more.
    split_and!; [done|..]; [|intros Hf q x [->|Hq]%elem_of_cons E; [by rewrite Er in E|by eapply H2]|done].
    intros x Hx. destruct (H1 x Hx) as (q & Hq & E). exists q. split; [by right|done].
Qed.
Lemma providers_of_elem routes : forall seen p, p ∈ providers_of seen routes <-> p ∈ seen \/ exists r, r ∈ routes /\ ch_harness (pr_choice r) = p.
Proof.
  induction routes as [|r routes IH]; intros seen p; cbn [providers_of]; [set_solver|]. rewrite IH. case_decide as Hs; set_solver.
Qed.
Lemma nth_of_provider prepared p n r : nth_of prepared p n = Some r -> p ∈ providers_of [] prepared.
Proof. intros Hn%list_elem_of_lookup_2. apply list_elem_of_filter in Hn as [Hp Hr]. apply providers_of_elem. right. by exists r. Qed.
Lemma take_rounds_fair prepared k : forall n selected, length selected < MAX_LOCAL_ROUTES ->
  (forall m q r, m < n -> nth_of prepared q m = Some r -> r ∈ selected) ->
  let l := take_rounds prepared (seq n k) selected in
  length l <= MAX_LOCAL_ROUTES /\ (forall x, x ∈ selected -> x ∈ l) /\ (forall x, x ∈ l -> x ∈ selected \/ x ∈ prepared)
  /\ forall m m' p q r r', nth_of prepared p m = Some r -> r ∈ l -> r ∉ selected -> m' < m -> (forall i, nth_of prepared p i = Some r -> i = m) -> nth_of prepared q m' = Some r' -> r' ∈ l.
Proof.
  induction k as [|k IH]; intros n selected Hl Hs; cbn [seq take_rounds].
  { split_and!; [lia|done|by left|]. intros m m' p q r r' _ Hin Hn. done. }
  pose proof (take_round_spec prepared n (providers_of [] prepared) selected) as Hr. destruct (take_round _ _ _ _) as [l full].
  destruct Hr as (more & -> & H1 & H2 & H3). destruct (H3 Hl) as [Hb Hb'].
  assert (Hmore : forall x, x ∈ more -> x ∈ prepared).
  { intros x Hx. destruct (H1 x Hx) as (p & _ & E%list_elem_of_lookup_2). by apply list_elem_of_filter in E as [_ ?]. }
  destruct full.
  - split_and!; [done|set_solver|set_solver|]. intros m m' p q r r' Em Hin Hnot Hlt Huniq Eq. apply elem_of_app. left.
    apply elem_of_app in Hin as [?|Hin]; [done|]. destruct (H1 r Hin) as (p' & _ & E').
    assert (Hm : m = n).
    { pose proof (list_elem_of_lookup_2 _ _ _ Em) as [Hp _]%list_elem_of_filter. pose proof (list_elem_of_lookup_2 _ _ _ E') as [Hp' _]%list_elem_of_filter.
      rewrite Hp in Hp'. subst p'. symmetry. by apply Huniq. }
    subst m. by eapply Hs.
  - assert (Hs' : forall m q r, m < S n -> nth_of prepared q m = Some r -> r ∈ selected ++ more).
    { intros m q r Hm E. apply elem_of_app. destruct (decide (m < n)); [left; by eapply Hs|right]. replace m with n in E by lia.
      eapply H2; [done| |exact E]. by eapply nth_of_provider. }
    destruct (IH (S n) (selected ++ more) (Hb' eq_refl) Hs') as (I1 & I2 & I3 & I4). split_and!; [done|intros x Hx; apply I2; set_solver| |].
    + intros x [[?|?]%elem_of_app|?]%I3; [by left|right; by apply Hmore|by right].
    + intros m m' p q r r' Em Hin Hnot Hlt Huniq Eq. destruct (decide (r ∈ selected ++ more)) as [Hr|Hr].
      * apply elem_of_app in Hr as [?|Hr]; [done|]. destruct (H1 r Hr) as (p' & _ & E').
        pose proof (list_elem_of_lookup_2 _ _ _ Em) as [Hp _]%list_elem_of_filter. pose proof (list_elem_of_lookup_2 _ _ _ E') as [Hp' _]%list_elem_of_filter.
        rewrite Hp in Hp'. subst p'. rewrite <- (Huniq n E') in Hlt. apply I2, elem_of_app. left. by eapply Hs.
      * exact (I4 m m' p q r r' Em Hin Hr Hlt Huniq Eq).
Qed.

(** The eight are routes of the set, and no provider has a second place while
    another has a route left out. *)
Lemma compact_routes_fair g wanted : let prepared := prepare_routes g wanted in let l := compact_local_routes prepared in
  length l <= MAX_LOCAL_ROUTES /\ (forall x, x ∈ l -> x ∈ prepared)
  /\ forall m m' p q r r', nth_of prepared p m = Some r -> r ∈ l -> m' < m -> nth_of prepared q m' = Some r' -> r' ∈ l.
Proof.
  cbn zeta. set (prepared := prepare_routes g wanted).
  destruct (take_rounds_fair prepared MAX_MODELS_PER_HARNESS 0 []) as (H1 & _ & H3 & H4); [unfold MAX_LOCAL_ROUTES; cbn; lia|lia|].
  split_and!; [done|intros x [Hx|Hx]%H3; [set_solver|done]|]. intros m m' p q r r' Em Hin Hlt Eq. eapply (H4 m m' p q r r'); try done; [set_solver|].
  intros i Ei. assert (Hnd : NoDup (base.filter (fun r => ch_harness (pr_choice r) = p) prepared)).
  { apply NoDup_filter. eapply NoDup_fmap_1, (routes_ok_ids g wanted), routes_prepared_ok. }
  by eapply NoDup_lookup.
Qed.

(** ** The choice *)

(** C23. A route is the host's, whatever the selector answers.  A choice is
    made only for a new task that asked for one.  It is the payload of a route
    that was prepared from the registry, of a harness that was installed and
    enabled and is not the mock, with a model it offered for the effort asked
    for; its identifier is the one the selector returned; and by the last
    check the routes have the same fingerprint, some descriptor of that
    harness is installed and enabled, and the model is offered for that effort
    still.  At most sixteen routes are prepared, under distinct identifiers,
    and a receipt is written exactly when a selector was asked. *)
Theorem route_is_prepared x r backend :
  let prepared := prepare_routes (ev_prepared x) (rr_reasoning r) in
  (length prepared <= MAX_ROUTES /\ NoDup (pr_id <$> prepared))
  /\ (rd_choice (choose_with_report x r backend) <> None -> rd_event (choose_with_report x r backend) <> None)
  /\ forall choice, rd_choice (choose_with_report x r backend) = Some choice ->
      requested r = true
      /\ exists n p name considered s, prepared !! n = Some p /\ offers (ev_prepared x) (rr_reasoning r) n p /\ pr_choice p = choice /\ ch_harness choice <> Mock
         /\ ask x backend (Z.max 0 (ev_now x 0)) r prepared = Some (name, considered, s) /\ sl_selected s = Some (pr_id p)
         /\ route_fingerprint (prepare_routes (ev_again x) (rr_reasoning r)) = route_fingerprint prepared
         /\ (exists d, d ∈ ev_descriptors x /\ ds_id d = ch_harness choice /\ ds_installed d = true /\ descriptor_enabled d = true)
         /\ (exists models m, ev_models x (ch_harness choice) = Some models /\ m ∈ models /\ Some (ml_id m) = ch_model choice /\ reasoning_compatible (rr_reasoning r) (ml_reasoning_levels m) = true).
Proof.
  cbn zeta. pose proof (routes_prepared_ok (ev_prepared x) (rr_reasoning r)) as Hok. split; [split; [apply Hok|by eapply routes_ok_ids]|].
  unfold choose_with_report. destruct (requested r) eqn:Hreq; cbn [negb]; [|done]. set (prepared := prepare_routes (ev_prepared x) (rr_reasoning r)) in *.
  destruct (bool_decide (prepared = [])); [done|]. destruct (route_fingerprint prepared) as [fp|] eqn:Hfp; [|done].
  set (actions := imap _ prepared). destruct (negb (forallb _ actions)); [done|].
  change (ts_revision (task_new (Z.max 0 (ev_now x 0)))) with (Z.max 0 (ev_now x 0)).
  destruct (ask x backend (Z.max 0 (ev_now x 0)) r prepared) as [[[name considered] s]|] eqn:Hask; [|done]. set (e := route_event _ _ _ _ _).
  destruct (sl_selected s) as [selected|] eqn:Hsel; [|done]. destruct (List.find _ actions) as [action|] eqn:Hfind; [|done].
  destruct (route_fingerprint (prepare_routes (ev_again x) (rr_reasoning r))) as [live|] eqn:Hlive; [|done].
  destruct (vt_accepted _) eqn:Hacc; cbn [negb]; [|done]. destruct (model_valid _ _ _) eqn:Hmodel; [|done].
  split; [done|]. intros choice [= <-]. split; [done|].
  apply List.find_some in Hfind as [Hin Hid%bool_decide_eq_true]. apply list_elem_of_In, list_elem_of_lookup in Hin as [n Hn].
  unfold actions in Hn. rewrite list_lookup_imap in Hn. destruct (prepared !! n) as [p|] eqn:Hp; [|done]. injection Hn as <-.
  apply accepted_spec in Hacc as (_ & _ & _ & _ & _ & _ & _ & Hread & Hauth). cbn in *.
  destruct Hok as [_ Hok]. pose proof (Hok _ _ Hp) as Ho.
  assert (Hmock : ch_harness (pr_choice p) <> Mock).
  { destruct Ho as (d & m & all & _ & Hprobed & _ & _ & _ & ->). cbn. unfold probed in Hprobed. rewrite !andb_true_iff in Hprobed.
    destruct Hprobed as [[_ Hm%negb_true_iff%bool_decide_eq_false] _]. done. }
  exists n, p, name, considered, s. split_and!; try done; [by rewrite Hsel, Hid| |].
  - apply existsb_exists in Hauth as (d & Hd & Hc). rewrite !andb_true_iff in Hc. destruct Hc as [[H1%bool_decide_eq_true H2] H3]. exists d. split_and!; try done. by apply list_elem_of_In.
  - unfold model_valid in Hmodel. destruct (ev_models x (ch_harness (pr_choice p))) as [models|]; cbn in Hmodel; [|done].
    destruct (List.find _ models) as [m|] eqn:Hm; [|done]. apply List.find_some in Hm as [Hin Heq%bool_decide_eq_true]. exists models, m. split_and!; try done. by apply list_elem_of_In.
Qed.
End routes.

(** * A concrete choice *)

Definition demo_registry : Registry :=
  mk_registry [mk_descriptor ClaudeCode "Claude" true (Some true); mk_descriptor Mock "Mock" true (Some true); mk_descriptor Codex "Codex" true None]
    (fun h => match h with ClaudeCode => Some [mk_model "opus" "Opus" None []; mk_model "sonnet" "Sonnet" None []] | Codex => Some [mk_model "gpt" "GPT" None []] | _ => Some [] end) false.
Definition demo_request : RunRequest := mk_run_request "Fix it" None None None [("jevAuto"%string, Bool true)] "/w" WorkspaceWrite false None [].
Definition demo_route_env (answer : option string) : RouteEnv :=
  mk_env (fun n => 1000 + Z.of_nat n)%Z demo_registry demo_registry (rg_descriptors demo_registry) (rg_models demo_registry)
    (fun _ => mk_answered answer None None None None) (fun _ => None) (fun _ => "WorkspaceWrite"%string).
Definition demo_choose (answer : option string) : RouteDecision :=
  choose_with_report (fun h => bool_decide (h = Codex)) (fun rs => Some (concat_strings (pr_id <$> rs))) (fun s => s) (demo_route_env answer) demo_request RB_LocalLaya.
Example route_chosen : rd_choice (demo_choose (Some "route_2"%string)) = Some (mk_choice Codex (Some "gpt"%string)).
Proof. vm_compute. reflexivity. Qed.
Example route_unknown : rd_choice (demo_choose (Some "rm -rf"%string)) = None /\ rd_choice (demo_choose None) = None.
Proof. vm_compute. by split. Qed.
Example first_routes_first : pr_id <$> compact_local_routes (prepare_routes (fun h => bool_decide (h = Codex)) demo_registry None) = ["route_0"; "route_2"; "route_1"]%string.
Proof. vm_compute. reflexivity. Qed.
