(* ===== verification/JsonSchema.v ===== *)
(** The enforced JSON Schema subset of [crates/dsh/tools/src/json_schema.rs]:
    the schema checker, the value validator, and the grammar of supported
    schemas they are compared with.

    The walks recurse through [map.get(key)]; [with_key] is that lookup with
    the continuation inside, which keeps the recursion structural.  Violations
    are returned in walk order where the code pushes them on a [Vec].
    [serde_json::to_string] is a parameter: it only spells diagnostics. *)
From Stdlib Require Import ZArith String.
From Stdlib Require Import Floats.SpecFloat.
From stdpp Require Import base tactics sets list numbers strings pretty.
From S2P Require Import Prelude Json Text.
Open Scope string_scope.
Open Scope list_scope.

(** * Accessors of [serde_json::Value] *)

Definition as_array (v : Value) : option (list Value) := match v with Arr l => Some l | _ => None end.
Definition is_array (v : Value) : bool := match v with Arr _ => true | _ => false end.
Definition is_string (v : Value) : bool := match v with Str _ => true | _ => false end.
Definition is_boolean (v : Value) : bool := match v with Bool _ => true | _ => false end.
Definition is_number (v : Value) : bool := match v with Num _ => true | _ => false end.
Definition is_null_value (v : Value) : bool := match v with Null => true | _ => false end.
Definition contains_key (k : string) (m : list (string * Value)) : bool :=
  match assoc k m with Some _ => true | None => false end.

(** [match map.get(k) { Some(v) => some(v), None => none }]. *)
Definition with_key {R} (k : string) (some : Value -> R) (none : R) : list (string * Value) -> R :=
  fix go m := match m with
  | [] => none
  | (k', v) :: m' => if decide (k = k') then some v else go m'
  end.

Lemma with_key_assoc {R} k (some : Value -> R) none m :
  with_key k some none m = match assoc k m with Some v => some v | None => none end.
Proof. induction m as [|[k' v] m IH]; simpl; [done|]. by case_decide. Qed.

(** [for (index, x) in l.iter().enumerate()], with the pushed items. *)
Definition each_indexed {A B} (f : nat -> A -> list B) : nat -> list A -> list B :=
  fix go i l := match l with [] => [] | x :: l' => f i x ++ go (S i) l' end.
Definition each {A B} (f : A -> list B) : list A -> list B :=
  fix go l := match l with [] => [] | x :: l' => f x ++ go l' end.

Lemma each_indexed_nil {A B} (f : nat -> A -> list B) i l :
  each_indexed f i l = [] <-> forall j x, l !! j = Some x -> f (i + j) x = [].
Proof.
  revert i. induction l as [|x l IH]; intros i; simpl; [done|]. rewrite app_nil, IH. split.
  - intros [Hx Hl] [|j] y; simpl; [intros [= <-]; by rewrite Nat.add_0_r|]. intros Hj.
    rewrite Nat.add_succ_r. by apply (Hl j).
  - intros H. split; [rewrite <- (Nat.add_0_r i); by apply (H 0)|]. intros j y Hj.
    specialize (H (S j) y Hj). by rewrite Nat.add_succ_r in H.
Qed.
Lemma each_indexed_nil_all {A B} (f : nat -> A -> list B) (P : A -> Prop) i l :
  (forall j x, x ∈ l -> f j x = [] <-> P x) -> each_indexed f i l = [] <-> Forall P l.
Proof.
  revert i. induction l as [|x l IH]; intros i Hf; simpl; [by split|].
  rewrite app_nil, Forall_cons, (Hf i x), IH by set_solver. done.
Qed.
Lemma each_nil {A B} (f : A -> list B) l : each f l = [] <-> Forall (fun x => f x = []) l.
Proof. induction l as [|x l IH]; simpl; [by split|]. by rewrite app_nil, Forall_cons, IH. Qed.
Lemma each_nil_all {A B} (f : A -> list B) (P : A -> Prop) l :
  (forall x, x ∈ l -> f x = [] <-> P x) -> each f l = [] <-> Forall P l.
Proof.
  induction l as [|x l IH]; intros Hf; simpl; [by split|].
  rewrite app_nil, Forall_cons, (Hf x), IH by set_solver. done.
Qed.

(** * Schema types *)

Inductive JsonSchemaType := TyObject | TyArray | TyString | TyNumber | TyInteger | TyBoolean | TyNull.
#[export] Instance JsonSchemaType_eq_dec : EqDecision JsonSchemaType.
Proof. solve_decision. Defined.

Definition type_str (t : JsonSchemaType) : string :=
  match t with
  | TyObject => "object" | TyArray => "array" | TyString => "string" | TyNumber => "number"
  | TyInteger => "integer" | TyBoolean => "boolean" | TyNull => "null"
  end.
Definition parse_type (value : string) : option JsonSchemaType :=
  if String.eqb value "object" then Some TyObject
  else if String.eqb value "array" then Some TyArray
  else if String.eqb value "string" then Some TyString
  else if String.eqb value "number" then Some TyNumber
  else if String.eqb value "integer" then Some TyInteger
  else if String.eqb value "boolean" then Some TyBoolean
  else if String.eqb value "null" then Some TyNull
  else None.

Lemma parse_type_str t : parse_type (type_str t) = Some t.
Proof. by destruct t. Qed.
Lemma parse_type_Some s t : parse_type s = Some t <-> s = type_str t.
Proof.
  split; [|intros ->; apply parse_type_str]. unfold parse_type.
  repeat match goal with |- context [String.eqb s ?x] =>
    destruct (String.eqb_spec s x) as [->|]; [intros H; injection H as <-; reflexivity|] end. discriminate.
Qed.

Definition CONSTRAINT_KEYWORDS : list string :=
  ["type"; "oneOf"; "properties"; "required"; "additionalProperties"; "items"; "enum"; "const"].
Definition ANNOTATION_KEYWORDS : list string := ["description"; "title"; "default"; "examples"].
Definition ONE_OF_SIBLING_KEYWORDS : list string :=
  ["properties"; "required"; "additionalProperties"; "items"; "enum"; "const"].

(** [.get("type").and_then(Value::as_str).and_then(JsonSchemaType::parse)]. *)
Definition schema_type_of (node : list (string * Value)) : option JsonSchemaType := (assoc "type" node ≫= as_str) ≫= parse_type.

(** ** Numbers *)

(** [f == 0.0 && f.is_sign_negative()]. *)
Definition is_negative_zero (f : f64) : bool := match f with S754_zero true => true | _ => false end.
Definition is_json_number (value : Value) : bool :=
  match as_f64 value with Some f => negb (is_negative_zero f) | None => false end.
(** [f.fract() == 0.0]: the fraction of an infinity or a NaN is a NaN. *)
Definition fract_is_zero (f : f64) : bool :=
  match f with
  | S754_zero _ => true
  | S754_finite _ m e => (0 <=? e)%Z || (Z.pos m mod 2 ^ (- e) =? 0)%Z
  | _ => false
  end.
Definition is_integer (value : Value) : bool :=
  match as_f64 value with Some f => is_json_number value && fract_is_zero f | None => false end.
Definition scalar_matches (schema_type : JsonSchemaType) (value : Value) : bool :=
  match schema_type with
  | TyString => is_string value
  | TyNumber => is_json_number value
  | TyInteger => is_integer value
  | TyBoolean => is_boolean value
  | TyNull => is_null_value value
  | TyObject | TyArray => false
  end.

(** * The schema checker *)

Definition when (b : bool) (message : string) : list string := if b then [message] else [].
Definition in_keys (k : string) (keys : list string) : bool := bool_decide (k ∈ keys).
Definition declared_properties (node : list (string * Value)) : list (string * Value) :=
  default [] (assoc "properties" node ≫= as_object).

Definition check_object_schema_tail (node : list (string * Value)) (path : string) : list string :=
  match assoc "required" node with
  | None => []
  | Some required =>
      match entries ← as_array required; mapM as_str entries with
      | None => [path +:+ ".required must be an array of strings"]
      | Some names =>
          each (fun name => when (negb (contains_key name (declared_properties node)))
            (path +:+ ".required names " +:+ dquoted name +:+ " which is not in properties")) names
      end
  end
  ++ match assoc "additionalProperties" node with
     | Some additional => when (negb (is_boolean additional)) (path +:+ ".additionalProperties must be a boolean")
     | None => []
     end.

(** The keyword, description and title checks that open [check_schema_node]. *)
Definition check_keywords (map : list (string * Value)) (path : string) : list string :=
  each (fun kv : string * Value => when (negb (in_keys kv.1 CONSTRAINT_KEYWORDS || in_keys kv.1 ANNOTATION_KEYWORDS))
    (path +:+ "." +:+ kv.1 +:+ " is not a supported keyword (subset: type/oneOf/properties/required/additionalProperties/items/enum/const + annotations)")) map
  ++ match assoc "description" map with
     | Some d => when (negb (is_string d)) (path +:+ ".description must be a string")
     | None => [] end
  ++ match assoc "title" map with
     | Some t => when (negb (is_string t)) (path +:+ ".title must be a string")
     | None => [] end.

Definition SCALAR_TYPES : list JsonSchemaType := [TyString; TyNumber; TyInteger; TyBoolean; TyNull].
Definition allowed_for : list (string * list JsonSchemaType) :=
  [("properties", [TyObject]); ("required", [TyObject]); ("additionalProperties", [TyObject]); ("items", [TyArray]);
   ("enum", SCALAR_TYPES); ("const", SCALAR_TYPES)].
Definition check_allowed (map : list (string * Value)) (schema_type : JsonSchemaType) (path : string) : list string :=
  each (fun kt : string * list JsonSchemaType =>
    when (contains_key kt.1 map && negb (bool_decide (schema_type ∈ kt.2)))
      (path +:+ "." +:+ kt.1 +:+ " is not supported on type " +:+ dquoted (type_str schema_type))) allowed_for.

Definition enum_valid (scalar : JsonSchemaType) (allowed : option Value) : bool :=
  match allowed ≫= as_array with
  | Some entries => negb (bool_decide (entries = [])) && forallb (scalar_matches scalar) entries
  | None => false
  end.
Definition check_scalar_schema (map : list (string * Value)) (scalar : JsonSchemaType) (path : string) : list string :=
  let allowed := assoc "enum" map in
  when (bool_decide (is_Some allowed) && negb (enum_valid scalar allowed))
    (path +:+ ".enum must be a non-empty array of " +:+ type_str scalar +:+ " values")
  ++ match assoc "const" map with
     | None => []
     | Some declared =>
         if negb (scalar_matches scalar declared) then [path +:+ ".const must be a " +:+ type_str scalar +:+ " value"]
         else if enum_valid scalar allowed then
           when (negb (existsb (fun e => value_eqb e declared) (default [] (allowed ≫= as_array))))
             (path +:+ ".const must be one of " +:+ path +:+ ".enum when both are declared")
         else []
     end.

Fixpoint check_schema_node (node : Value) (path : string) {struct node} : list string :=
  match node with
  | Obj map =>
      check_keywords map path
      ++ (if contains_key "type" map && contains_key "oneOf" map then [path +:+ " cannot declare both type and oneOf"]
          else if negb (contains_key "type" map) && negb (contains_key "oneOf" map) then
            each (fun key => when (contains_key key map) (path +:+ "." +:+ key +:+ " requires type or oneOf")) ONE_OF_SIBLING_KEYWORDS
          else if contains_key "oneOf" map then
            with_key "oneOf" (fun one_of => match one_of with
              | Arr branches =>
                  if (2 <=? length branches)%nat then
                    each_indexed (fun index branch => check_schema_node branch (path +:+ ".oneOf[" +:+ pretty index +:+ "]")) 0 branches
                  else [path +:+ ".oneOf must be an array of at least two schemas"]
              | _ => [path +:+ ".oneOf must be an array of at least two schemas"]
              end) [] map
            ++ each (fun key => when (contains_key key map) (path +:+ "." +:+ key +:+ " is not supported beside oneOf")) ONE_OF_SIBLING_KEYWORDS
          else
            match schema_type_of map with
            | None =>
                [if default false (is_array <$> assoc "type" map)
                 then path +:+ ".type must be a single type string (type arrays are not supported)"
                 else path +:+ ".type must be one of object/array/string/number/integer/boolean/null"]
            | Some schema_type =>
                check_allowed map schema_type path
                ++ match schema_type with
                   | TyObject =>
                       with_key "properties" (fun properties => match properties with
                         | Obj entries => each (fun '(name, child) => check_schema_node child (path +:+ ".properties." +:+ name)) entries
                         | _ => [path +:+ ".properties must be an object of schemas"]
                         end) [] map
                       ++ check_object_schema_tail map path
                   | TyArray => with_key "items" (fun items => check_schema_node items (path +:+ ".items")) [] map
                   | scalar => check_scalar_schema map scalar path
                   end
            end)
  | _ => [path +:+ " must be a schema object"]
  end.

Record JsonSchemaError := mk_schema_error { violations : list string }.
Definition UNSUPPORTED_SCHEMA : string := "UNSUPPORTED_SCHEMA".

Definition assert_supported_json_schema (schema : Value) : result unit JsonSchemaError :=
  match check_schema_node schema "schema" with [] => Ok tt | vs => Err (mk_schema_error vs) end.
Definition assert_object_json_schema (schema : Value) : result unit JsonSchemaError :=
  let vs := check_schema_node schema "schema" in
  let vs := if bool_decide (vs = []) && negb (bool_decide ((get "type" schema ≫= as_str) = Some "object"))
            then vs ++ ["schema.type must be " +:+ dquoted "object" +:+ " (structured output is object-rooted)"] else vs in
  match vs with [] => Ok tt | _ => Err (mk_schema_error vs) end.

(** * The value validator *)

Section validate.
Context (to_string : Value -> string).

Definition diagnostic_path (path : string) : string := if String.eqb path "" then "arguments" else path.
Definition property_path (path key : string) : string := if String.eqb path "" then key else path +:+ "." +:+ key.

Definition scalar_constraint_violations (node : list (string * Value)) (value : Value) (path : string) : list string :=
  match assoc "enum" node ≫= as_array with
  | Some allowed =>
      if existsb (fun e => value_eqb e value) allowed then
        match assoc "const" node with
        | Some declared => when (negb (value_eqb value declared)) (dquoted (diagnostic_path path) +:+ " must be " +:+ to_string declared)
        | None => []
        end
      else [dquoted (diagnostic_path path) +:+ " must be one of " +:+ to_string (Arr allowed)]
  | None =>
      match assoc "const" node with
      | Some declared => when (negb (value_eqb value declared)) (dquoted (diagnostic_path path) +:+ " must be " +:+ to_string declared)
      | None => []
      end
  end.

Definition missing_required (node record : list (string * Value)) (path : string) : list string :=
  match assoc "required" node ≫= as_array with
  | Some required =>
      each (fun key => when (negb (contains_key key record))
        ("missing required property " +:+ dquoted (property_path path key))) (omap as_str required)
  | None => []
  end.
Definition undeclared_keys (node record : list (string * Value)) (path : string) : list string :=
  if bool_decide (assoc "additionalProperties" node = Some (Bool false)) then
    each (fun key => when (negb (contains_key key (declared_properties node)))
      (dquoted (property_path path key) +:+ " is not a declared property (additionalProperties: false)")) record.*1
  else [].

(** The scalar arms of [check_value]. *)
Definition check_scalar (node : list (string * Value)) (scalar : JsonSchemaType) (value : Value) (path : string) : list string :=
  let constrained := scalar_constraint_violations node value path in
  let must_be text := [dquoted (diagnostic_path path) +:+ text] in
  match scalar with
  | TyString => if is_string value then constrained else must_be " must be a string"
  | TyNumber =>
      if negb (is_number value) then must_be " must be a number"
      else if negb (is_json_number value) then must_be " must be a finite JSON number"
      else constrained
  | TyInteger => if is_integer value then constrained else must_be " must be an integer"
  | TyBoolean => if is_boolean value then constrained else must_be " must be a boolean"
  | TyNull => if is_null_value value then constrained else must_be " must be null"
  | TyObject | TyArray => []
  end.

Fixpoint check_value (schema value : Value) (path : string) {struct schema} : list string :=
  match schema with
  | Obj node =>
      match assoc "oneOf" node ≫= as_array with
      | Some _ =>
          with_key "oneOf" (fun one_of => match one_of with
            | Arr branches =>
                let matches := length (List.filter (fun branch => bool_decide (check_value branch value path = [])) branches) in
                when (negb (matches =? 1)%nat) (dquoted (diagnostic_path path)
                  +:+ " must match exactly one oneOf branch (matched " +:+ pretty matches +:+ ")")
            | _ => []
            end) [] node
      | None =>
          match schema_type_of node with
          | None => []
          | Some schema_type =>
              match schema_type with
              | TyObject =>
                  match value with
                  | Obj record =>
                      missing_required node record path
                      ++ with_key "properties" (fun properties => match properties with
                           | Obj entries => each (fun '(key, child_schema) => match assoc key record with
                               | Some child_value => check_value child_schema child_value (property_path path key)
                               | None => [] end) entries
                           | _ => []
                           end) [] node
                      ++ undeclared_keys node record path
                  | _ => [dquoted (diagnostic_path path) +:+ " must be an object"]
                  end
              | TyArray =>
                  match value with
                  | Arr items =>
                      with_key "items" (fun item_schema =>
                        each_indexed (fun index entry => check_value item_schema entry (path +:+ "[" +:+ pretty index +:+ "]")) 0 items) [] node
                  | _ => [dquoted (diagnostic_path path) +:+ " must be an array"]
                  end
              | scalar => check_scalar node scalar value path
              end
          end
      end
  | _ => []
  end.
Definition validate_json_schema_value (schema value : Value) (path : string) : list string := check_value schema value path.
End validate.

(** * The grammar of supported schemas *)

(** What the checker admits_value, stated without paths or messages. *)
Definition keywords_ok (m : list (string * Value)) : Prop :=
  Forall (fun k => k ∈ CONSTRAINT_KEYWORDS \/ k ∈ ANNOTATION_KEYWORDS) m.*1
  /\ (forall d, assoc "description" m = Some d -> exists s, d = Str s)
  /\ (forall t, assoc "title" m = Some t -> exists s, t = Str s).
Definition only_keys (keys : list string) (m : list (string * Value)) : Prop :=
  forall k, k ∈ ONE_OF_SIBLING_KEYWORDS -> is_Some (assoc k m) -> k ∈ keys.
Definition type_is (t : JsonSchemaType) (m : list (string * Value)) : Prop :=
  assoc "type" m = Some (Str (type_str t)) /\ assoc "oneOf" m = None.
Definition literals_ok (t : JsonSchemaType) (m : list (string * Value)) : Prop :=
  (forall v, assoc "enum" m = Some v -> exists l, v = Arr l /\ l <> [] /\ Forall (fun e => scalar_matches t e = true) l)
  /\ (forall v, assoc "const" m = Some v -> scalar_matches t v = true
      /\ forall l, assoc "enum" m = Some (Arr l) -> Exists (fun e => value_eqb e v = true) l).

Inductive supported : Value -> Prop :=
| supported_any m : keywords_ok m -> assoc "type" m = None -> assoc "oneOf" m = None -> only_keys [] m -> supported (Obj m)
| supported_one_of m branches :
    keywords_ok m -> assoc "type" m = None -> assoc "oneOf" m = Some (Arr branches) -> only_keys [] m ->
    2 <= length branches -> Forall supported branches -> supported (Obj m)
| supported_object m :
    keywords_ok m -> type_is TyObject m -> only_keys ["properties"; "required"; "additionalProperties"] m ->
    (forall v, assoc "properties" m = Some v -> exists entries, v = Obj entries /\ Forall (fun kv => supported kv.2) entries) ->
    (forall v, assoc "required" m = Some v -> exists names, v = Arr (Str <$> names) /\ Forall (fun n => n ∈ (declared_properties m).*1) names) ->
    (forall v, assoc "additionalProperties" m = Some v -> exists b, v = Bool b) ->
    supported (Obj m)
| supported_array m :
    keywords_ok m -> type_is TyArray m -> only_keys ["items"] m -> (forall v, assoc "items" m = Some v -> supported v) ->
    supported (Obj m)
| supported_scalar t m :
    keywords_ok m -> t ∈ SCALAR_TYPES -> type_is t m -> only_keys ["enum"; "const"] m -> literals_ok t m -> supported (Obj m).

(** ** Lemmas *)

Lemma when_nil b message : when b message = [] <-> b = false.
Proof. by destruct b. Qed.

Lemma contains_key_true k m : contains_key k m = true <-> is_Some (assoc k m).
Proof. unfold contains_key. destruct (assoc k m); split; try done; by intros []. Qed.
Lemma contains_key_false k m : contains_key k m = false <-> assoc k m = None.
Proof. unfold contains_key. by destruct (assoc k m). Qed.
Lemma contains_key_elem k m : contains_key k m = true <-> k ∈ m.*1.
Proof. by rewrite contains_key_true, assoc_is_Some. Qed.

Lemma in_keys_true k keys : in_keys k keys = true <-> k ∈ keys.
Proof. apply bool_decide_eq_true. Qed.

Lemma check_keywords_nil m path : check_keywords m path = [] <-> keywords_ok m.
Proof.
  unfold check_keywords, keywords_ok. rewrite !app_nil, each_nil, Forall_fmap. f_equiv; [|f_equiv].
  - apply Forall_proper; [|done]. intros kv. simpl. rewrite when_nil, negb_false_iff, orb_true_iff, !in_keys_true. done.
  - destruct (assoc "description" m) as [v|]; simpl; [|naive_solver]. rewrite when_nil, negb_false_iff.
    destruct v; simpl; naive_solver.
  - destruct (assoc "title" m) as [v|]; simpl; [|naive_solver]. rewrite when_nil, negb_false_iff.
    destruct v; simpl; naive_solver.
Qed.

Lemma only_keys_Forall keys m :
  only_keys keys m <-> Forall (fun k => contains_key k m = false \/ k ∈ keys) ONE_OF_SIBLING_KEYWORDS.
Proof.
  rewrite Forall_forall. unfold only_keys. apply forall_proper. intros k. apply forall_proper. intros _.
  rewrite contains_key_false. destruct (assoc k m) as [v|]; split; try naive_solver; by intros _ [].
Qed.

Lemma siblings_nil (f : string -> string) m :
  each (fun key => when (contains_key key m) (f key)) ONE_OF_SIBLING_KEYWORDS = [] <-> only_keys [] m.
Proof.
  rewrite each_nil, only_keys_Forall. apply Forall_proper; [|done]. intros k. rewrite when_nil. set_solver.
Qed.

(** What each type keyword may stand beside. *)
Definition companions (t : JsonSchemaType) : list string :=
  match t with
  | TyObject => ["properties"; "required"; "additionalProperties"]
  | TyArray => ["items"]
  | _ => ["enum"; "const"]
  end.

Lemma check_allowed_nil m t path : check_allowed m t path = [] <-> only_keys (companions t) m.
Proof.
  unfold check_allowed. rewrite each_nil, only_keys_Forall. unfold allowed_for, ONE_OF_SIBLING_KEYWORDS.
  rewrite !Forall_cons, !Forall_nil. simpl. rewrite !when_nil, <- (bool_decide_eq_true ("properties" ∈ companions t)),
    <- (bool_decide_eq_true ("required" ∈ companions t)), <- (bool_decide_eq_true ("additionalProperties" ∈ companions t)),
    <- (bool_decide_eq_true ("items" ∈ companions t)), <- (bool_decide_eq_true ("enum" ∈ companions t)),
    <- (bool_decide_eq_true ("const" ∈ companions t)).
  destruct t; repeat match goal with
    | |- context [bool_decide (?x ∈ ?l)] => let b := eval vm_compute in (bool_decide (x ∈ l)) in change (bool_decide (x ∈ l)) with b
    end; cbn [negb]; rewrite ?andb_true_r, ?andb_false_r; intuition congruence.
Qed.

#[export] Instance Str_inj : Inj (=) (=) Str.
Proof. by intros s t [= ->]. Qed.

Lemma as_strings entries names : mapM as_str entries = Some names <-> entries = Str <$> names.
Proof.
  rewrite mapM_Some. split.
  - induction 1 as [|v n entries names Hv _ IH]; simpl; [done|]. destruct v; simplify_eq/=. done.
  - intros ->. induction names as [|n names IH]; simpl; by constructor.
Qed.

Lemma object_tail_nil m path :
  check_object_schema_tail m path = [] <->
  (forall v, assoc "required" m = Some v -> exists names, v = Arr (Str <$> names) /\ Forall (fun n => n ∈ (declared_properties m).*1) names)
  /\ (forall v, assoc "additionalProperties" m = Some v -> exists b, v = Bool b).
Proof.
  unfold check_object_schema_tail. rewrite app_nil. f_equiv.
  - destruct (assoc "required" m) as [v|]; [|naive_solver].
    transitivity (exists names, v = Arr (Str <$> names) /\ Forall (fun n => n ∈ (declared_properties m).*1) names); [|naive_solver].
    destruct v as [| | | |l|]; simpl; try naive_solver.
    destruct (mapM as_str l) as [names|] eqn:E.
    + apply as_strings in E as ->. rewrite each_nil. split.
      * intros H. exists names. split; [done|]. eapply Forall_impl; [exact H|]. intros n. simpl.
        rewrite when_nil, negb_false_iff, contains_key_elem. done.
      * intros (names' & [= Hn] & H). apply (inj (fmap Str)) in Hn as <-.
        eapply Forall_impl; [exact H|]. intros n. simpl. rewrite when_nil, negb_false_iff, contains_key_elem. done.
    + split; [done|]. intros (names & [= ->] & _). by rewrite (proj2 (as_strings (Str <$> names) names) eq_refl) in E.
  - destruct (assoc "additionalProperties" m) as [v|]; [|naive_solver]. rewrite when_nil, negb_false_iff.
    destruct v; simpl; naive_solver.
Qed.

Lemma forallb_Forall_true {A} (p : A -> bool) l : forallb p l = true <-> Forall (fun x => p x = true) l.
Proof. induction l as [|x l IH]; simpl; [by split|]. by rewrite andb_true_iff, Forall_cons, IH. Qed.
Lemma existsb_Exists_true {A} (p : A -> bool) l : existsb p l = true <-> Exists (fun x => p x = true) l.
Proof. induction l as [|x l IH]; simpl; [by rewrite Exists_nil|]. by rewrite orb_true_iff, Exists_cons, IH. Qed.

Definition enum_ok (t : JsonSchemaType) (v : Value) : Prop :=
  exists l, v = Arr l /\ l <> [] /\ Forall (fun e => scalar_matches t e = true) l.
Lemma enum_valid_true t v : enum_valid t (Some v) = true <-> enum_ok t v.
Proof.
  unfold enum_valid, enum_ok. destruct v as [| | | |l|]; simpl; try naive_solver.
  rewrite andb_true_iff, negb_true_iff, bool_decide_eq_false, forallb_Forall_true. naive_solver.
Qed.

Lemma and_under (P Q R : Prop) : (P -> (Q <-> R)) -> P /\ Q <-> P /\ R.
Proof. tauto. Qed.

Lemma check_scalar_nil m t path : check_scalar_schema m t path = [] <-> literals_ok t m.
Proof.
  unfold check_scalar_schema, literals_ok. rewrite app_nil, when_nil.
  assert (He : bool_decide (is_Some (assoc "enum" m)) && negb (enum_valid t (assoc "enum" m)) = false
    <-> forall v, assoc "enum" m = Some v -> enum_ok t v).
  { destruct (assoc "enum" m) as [v|]; simpl; [|naive_solver]. rewrite negb_false_iff, enum_valid_true. naive_solver. }
  rewrite He. clear He. apply and_under. intros Hen. destruct (assoc "const" m) as [c|]; [|naive_solver].
  destruct (scalar_matches t c) eqn:Ec; simpl; [|split; [done|]; intros H; destruct (H c eq_refl); congruence].
  destruct (assoc "enum" m) as [v|] eqn:Ev.
  - pose proof (Hen v eq_refl) as Hv. rewrite (proj2 (enum_valid_true t v) Hv). destruct Hv as (l & -> & _).
    cbn [mbind option_bind as_array default]. rewrite when_nil, negb_false_iff, existsb_Exists_true. naive_solver.
  - simpl. naive_solver.
Qed.

(** Induction with the hypothesis for the children and the grandchildren of a
    value, which is as deep as one step of the walks looks. *)
Definition children (v : Value) : list Value :=
  match v with Arr l => l | Obj m => m.*2 | _ => [] end.
Lemma Value_ind2 (P : Value -> Prop) :
  (forall v, (forall w, w ∈ children v -> P w /\ forall u, u ∈ children w -> P u) -> P v) -> forall v, P v.
Proof.
  intros step v. cut (P v /\ forall u, u ∈ children v -> P u); [by intros []|].
  induction v as [| | | |l IH|m IH] using Value_ind'; simpl.
  all: try (split; [apply step; simpl; set_solver|set_solver]).
  - rewrite Forall_forall in IH. split; [apply step; simpl; exact IH|]. intros u Hu. by apply IH.
  - rewrite Forall_forall in IH.
    assert (IH' : forall w, w ∈ m.*2 -> P w /\ forall u, u ∈ children w -> P u).
    { intros w (kv & -> & Hkv)%list_elem_of_fmap. by apply IH. }
    split; [by apply step|]. intros u Hu. by apply IH'.
Qed.
Lemma assoc_children k m v : assoc k m = Some v -> v ∈ children (Obj m).
Proof. intros H%assoc_Some_elem. apply list_elem_of_fmap. by exists (k, v). Qed.

(** The four shapes of a node, by its [type] and [oneOf] keys. *)
Definition one_of_check (m : list (string * Value)) (path : string) (one_of : Value) : list string :=
  match one_of with
  | Arr branches =>
      if (2 <=? length branches)%nat then
        each_indexed (fun index branch => check_schema_node branch (path +:+ ".oneOf[" +:+ pretty index +:+ "]")) 0 branches
      else [path +:+ ".oneOf must be an array of at least two schemas"]
  | _ => [path +:+ ".oneOf must be an array of at least two schemas"]
  end.
Definition typed_check (m : list (string * Value)) (path : string) (t : JsonSchemaType) : list string :=
  match t with
  | TyObject =>
      match assoc "properties" m with
      | Some (Obj entries) => each (fun '(name, child) => check_schema_node child (path +:+ ".properties." +:+ name)) entries
      | Some _ => [path +:+ ".properties must be an object of schemas"]
      | None => []
      end ++ check_object_schema_tail m path
  | TyArray => match assoc "items" m with Some items => check_schema_node items (path +:+ ".items") | None => [] end
  | scalar => check_scalar_schema m scalar path
  end.

Lemma check_schema_shape m path :
  check_schema_node (Obj m) path = [] <->
  keywords_ok m /\ match assoc "type" m, assoc "oneOf" m with
  | Some _, Some _ => False
  | None, None => only_keys [] m
  | None, Some v => one_of_check m path v = [] /\ only_keys [] m
  | Some v, None => exists t, v = Str (type_str t) /\ only_keys (companions t) m /\ typed_check m path t = []
  end.
Proof.
  cbn [check_schema_node]. rewrite app_nil, check_keywords_nil, !with_key_assoc. apply and_under. intros _.
  unfold schema_type_of. destruct (assoc "type" m) as [ty|] eqn:Ety, (assoc "oneOf" m) as [one|] eqn:Eone.
  all: repeat match goal with
    | H : assoc ?k ?m = None |- context [contains_key ?k ?m] => rewrite (proj2 (contains_key_false k m) H)
    | H : assoc ?k ?m = Some _ |- context [contains_key ?k ?m] => rewrite (proj2 (contains_key_true k m) (mk_is_Some _ _ H))
    end; cbn [andb negb].
  - done.
  - cbn [mbind option_bind]. destruct (as_str ty ≫= parse_type) as [t|] eqn:Et.
    + destruct ty as [| | |s| |]; try done. apply parse_type_Some in Et as ->. rewrite app_nil, check_allowed_nil.
      transitivity (only_keys (companions t) m /\ typed_check m path t = []); [by destruct t|]. split; [naive_solver|].
      intros (t' & [= Ht] & H). apply (f_equal parse_type) in Ht. rewrite !parse_type_str in Ht. by injection Ht as ->.
    + split; [done|]. intros (t & -> & _). simpl in Et. by rewrite parse_type_str in Et.
  - rewrite app_nil, siblings_nil. done.
  - apply siblings_nil.
Qed.

Lemma length_ge_2 {A} (l : list A) : (2 <=? length l)%nat = true <-> 2 <= length l.
Proof. apply Nat.leb_le. Qed.

(** The grammar by shape. *)
Definition typed_ok (m : list (string * Value)) (t : JsonSchemaType) : Prop :=
  match t with
  | TyObject =>
      (forall v, assoc "properties" m = Some v -> exists entries, v = Obj entries /\ Forall (fun kv => supported kv.2) entries)
      /\ (forall v, assoc "required" m = Some v -> exists names, v = Arr (Str <$> names) /\ Forall (fun n => n ∈ (declared_properties m).*1) names)
      /\ (forall v, assoc "additionalProperties" m = Some v -> exists b, v = Bool b)
  | TyArray => forall v, assoc "items" m = Some v -> supported v
  | _ => literals_ok t m
  end.
Lemma supported_shape m :
  supported (Obj m) <->
  keywords_ok m /\ match assoc "type" m, assoc "oneOf" m with
  | Some _, Some _ => False
  | None, None => only_keys [] m
  | None, Some v => (exists branches, v = Arr branches /\ 2 <= length branches /\ Forall supported branches) /\ only_keys [] m
  | Some v, None => exists t, v = Str (type_str t) /\ only_keys (companions t) m /\ typed_ok m t
  end.
Proof.
  split.
  - inversion 1 as [m' Hk Ht Ho Hs|m' bs Hk Ht Ho Hs Hl Hf|m' Hk [Ht Ho] Hs Hp Hr Ha|m' Hk [Ht Ho] Hs Hi|t m' Hk Hin [Ht Ho] Hs Hl];
      subst m'; (split; [done|]); rewrite Ht, Ho.
    + done.
    + split; [by exists bs|done].
    + by exists TyObject.
    + by exists TyArray.
    + exists t. unfold SCALAR_TYPES in Hin. split_and!; try done; destruct t; try done; set_solver.
  - intros [Hk H]. destruct (assoc "type" m) as [ty|] eqn:Ety, (assoc "oneOf" m) as [one|] eqn:Eone; [done| | |].
    + destruct H as (t & -> & Ho & Ht).
      destruct t; [destruct Ht as (? & ? & ?); by apply supported_object|by apply supported_array|..].
      all: eapply supported_scalar; try done; unfold SCALAR_TYPES; set_solver.
    + destruct H as ((bs & -> & Hl & Hb) & Hs). by eapply supported_one_of.
    + by apply supported_any.
Qed.

Lemma one_of_nil m path v :
  (forall u, u ∈ children v -> forall path, check_schema_node u path = [] <-> supported u) ->
  one_of_check m path v = [] <-> exists branches, v = Arr branches /\ 2 <= length branches /\ Forall supported branches.
Proof.
  intros Hsub. destruct v as [| | | |bs|]; try (split; [done|naive_solver]). unfold one_of_check.
  destruct (Nat.leb_spec 2 (length bs)); [|split; [done|]; intros (? & [= ->] & ? & _); lia].
  rewrite (each_indexed_nil_all _ supported); [naive_solver|]. intros j x Hx. by apply Hsub.
Qed.

Lemma typed_nil m path t :
  (forall k v, assoc k m = Some v -> (forall path, check_schema_node v path = [] <-> supported v)
    /\ forall u, u ∈ children v -> forall path, check_schema_node u path = [] <-> supported u) ->
  typed_check m path t = [] <-> typed_ok m t.
Proof.
  intros Hsub. destruct t; simpl; try apply check_scalar_nil.
  - rewrite app_nil, object_tail_nil. f_equiv. destruct (assoc "properties" m) as [v|] eqn:Ev; [|naive_solver].
    destruct (Hsub _ _ Ev) as [_ Hs]. destruct v as [| | | | |entries]; try (split; [done|naive_solver]).
    rewrite (each_nil_all _ (fun kv => supported kv.2)); [naive_solver|]. intros [name child] Hin.
    apply Hs. simpl. apply list_elem_of_fmap. by exists (name, child).
  - destruct (assoc "items" m) as [v|] eqn:Ev; [|naive_solver]. rewrite (proj1 (Hsub _ _ Ev)). naive_solver.
Qed.

(** The schema checker admits_value exactly the grammar. *)
Lemma check_schema_supported node path : check_schema_node node path = [] <-> supported node.
Proof.
  revert path. induction node as [node IH] using Value_ind2; intros path.
  destruct node as [| | | | |m]; try (split; [done|by inversion 1]).
  assert (Hsub : forall k v, assoc k m = Some v -> (forall path, check_schema_node v path = [] <-> supported v)
    /\ forall u, u ∈ children v -> forall path, check_schema_node u path = [] <-> supported u).
  { intros k v Hk. apply IH. by eapply assoc_children. }
  clear IH. rewrite check_schema_shape, supported_shape. apply and_under. intros _.
  destruct (assoc "type" m) as [ty|] eqn:Ety, (assoc "oneOf" m) as [one|] eqn:Eone; [done| | |done].
  - apply exist_proper. intros t. by rewrite typed_nil.
  - rewrite one_of_nil by (by apply (Hsub "oneOf")). done.
Qed.

Lemma assert_supported_ok schema : assert_supported_json_schema schema = Ok tt <-> supported schema.
Proof.
  rewrite <- (check_schema_supported schema "schema"). unfold assert_supported_json_schema.
  by destruct (check_schema_node schema "schema").
Qed.
