(* ===== verification/ToolSchema.v ===== *)
(** The author-facing schema DSL of [crates/dsh/tools/src/schema.rs]: the
    specs, their author syntax in both directions, their compilation to the
    enforced JSON Schema subset, argument validation and [define_tool].

    The main theorem gives each spec a direct meaning, [admits_value], and shows
    that compiling and validating implement it. *)
From Stdlib Require Import ZArith String Lia.
From Stdlib Require Import Sorting.Sorted Floats.SpecFloat.
From stdpp Require Import base tactics sets list numbers strings pretty.
From S2P Require Import Prelude Json Text JsonSchema.
Open Scope string_scope.
Open Scope list_scope.

(** * Objects under construction *)

(** [serde_json::Map::insert] on the ordered map. *)
Fixpoint obj_insert (k : string) (v : Value) (m : list (string * Value)) : list (string * Value) :=
  match m with
  | [] => [(k, v)]
  | (k', v') :: m' =>
      if decide (k = k') then (k, v) :: m'
      else if String.ltb k k' then (k, v) :: m else (k', v') :: obj_insert k v m'
  end.
(** [json!({ ... })]. *)
Definition json_map (kvs : list (string * Value)) : list (string * Value) := foldl (fun m kv => obj_insert kv.1 kv.2 m) [] kvs.
Definition insert_some {A} (k : string) (to_json : A -> Value) (o : option A) (m : list (string * Value)) : list (string * Value) :=
  match o with Some a => obj_insert k (to_json a) m | None => m end.
(** [Map::remove]. *)
Definition obj_remove (k : string) (m : list (string * Value)) : list (string * Value) := base.filter (fun kv => kv.1 <> k) m.

Lemma assoc_obj_insert k v k' m : assoc k' (obj_insert k v m) = if decide (k' = k) then Some v else assoc k' m.
Proof.
  induction m as [|[x w] m IH]; simpl; [done|]. destruct (decide (k = x)) as [->|Hx]; simpl.
  - by destruct (decide (k' = x)).
  - destruct (String.ltb k x); simpl; [done|]. rewrite IH. repeat case_decide; congruence.
Qed.
Lemma assoc_insert_some {A} k (to_json : A -> Value) o k' m :
  assoc k' (insert_some k to_json o m) = if decide (k' = k) then match o with Some a => Some (to_json a) | None => assoc k' m end else assoc k' m.
Proof. destruct o as [a|]; simpl; [apply assoc_obj_insert|by case_decide]. Qed.
Lemma assoc_obj_remove k k' m : assoc k' (obj_remove k m) = if decide (k' = k) then None else assoc k' m.
Proof.
  induction m as [|[x w] m IH]; simpl; [by case_decide|]. unfold obj_remove in *. rewrite filter_cons. simpl.
  destruct (decide (x <> k)) as [Hx|Hx%dec_stable]; simpl; rewrite IH; repeat case_decide; congruence.
Qed.

(** Ordered maps hold each key once, in order. *)
Definition obj_sorted (m : list (string * Value)) : Prop := StronglySorted str_lt m.*1.
Lemma obj_insert_keys k v m x : x ∈ (obj_insert k v m).*1 <-> x = k \/ x ∈ m.*1.
Proof. rewrite <- !assoc_is_Some, assoc_obj_insert. case_decide; naive_solver. Qed.
Lemma obj_insert_sorted k v m : obj_sorted m -> obj_sorted (obj_insert k v m).
Proof.
  unfold obj_sorted. induction m as [|[x w] m IH]; simpl; intros Hm.
  { repeat constructor. }
  inversion Hm as [|? ? Hs Hx]; subst. destruct (decide (k = x)) as [->|Hne]; [done|].
  destruct (String.ltb k x) eqn:E; simpl.
  - constructor; [done|]. constructor; [done|]. eapply Forall_impl; [exact Hx|]. intros y Hy. by transitivity x.
  - constructor; [by apply IH|]. apply str_ltb_false in E as [E|E]; [congruence|].
    apply Forall_forall. intros y [->|Hy]%obj_insert_keys; [done|]. rewrite Forall_forall in Hx. by apply Hx.
Qed.
Lemma obj_sorted_NoDup m : obj_sorted m -> NoDup m.*1.
Proof.
  unfold obj_sorted. induction 1 as [|x l _ IH Hx]; constructor; [|done].
  intros Hin. rewrite Forall_forall in Hx. specialize (Hx x Hin). by apply (irreflexivity str_lt) in Hx.
Qed.
Lemma assoc_elem_sorted m k v : obj_sorted m -> (k, v) ∈ m <-> assoc k m = Some v.
Proof.
  intros Hs%obj_sorted_NoDup. split; [|apply assoc_Some_elem].
  induction m as [|[x w] m IH]; simpl; [set_solver|]. apply NoDup_cons in Hs as [Hx Hs]. intros Hin.
  apply elem_of_cons in Hin as [[= -> ->]|Hin]; [by rewrite decide_True by done|].
  rewrite decide_False; [by apply IH|]. intros ->. apply Hx. apply list_elem_of_fmap. by exists (x, v).
Qed.

(** * Specs *)

Record ValueSchemaAnnotations := mk_annotations {
  va_description : option string; va_title : option string; va_default : option Value; va_examples : option Value
}.
(** The four scalar specs differ in the type of their literals. *)
Record LiteralSpec (A : Type) := mk_literal { ls_annotations : ValueSchemaAnnotations; ls_enum : option (list A); ls_const : option A }.
Arguments mk_literal {A} _ _ _.
Arguments ls_annotations {A} _.
Arguments ls_enum {A} _.
Arguments ls_const {A} _.
Record PropertyOf (S : Type) := mk_property { pp_required : bool; pp_spec : S }.
Arguments mk_property {S} _ _.
Arguments pp_required {S} _.
Arguments pp_spec {S} _.

Inductive ValueSchemaSpec :=
| VS_String (s : LiteralSpec string)
| VS_Number (s : LiteralSpec f64)
| VS_Integer (s : LiteralSpec Z)
| VS_Boolean (s : LiteralSpec bool)
| VS_Null (a : ValueSchemaAnnotations)
| VS_Array (a : ValueSchemaAnnotations) (items : option ValueSchemaSpec)
| VS_Object (a : ValueSchemaAnnotations) (properties : option (list (string * PropertyOf ValueSchemaSpec))) (additional_properties : bool)
| VS_Json (a : ValueSchemaAnnotations)
| VS_OneOf (a : ValueSchemaAnnotations) (branches : list ValueSchemaSpec).
Abbreviation ParameterPropertySpec := (PropertyOf ValueSchemaSpec).
Abbreviation ParameterSchemaSpec := (list (string * PropertyOf ValueSchemaSpec)).

Section spec_ind.
Context (P : ValueSchemaSpec -> Prop)
  (HString : forall s, P (VS_String s)) (HNumber : forall s, P (VS_Number s)) (HInteger : forall s, P (VS_Integer s))
  (HBoolean : forall s, P (VS_Boolean s)) (HNull : forall a, P (VS_Null a))
  (HArray : forall a items, (forall s, items = Some s -> P s) -> P (VS_Array a items))
  (HObject : forall a props b, (forall ps, props = Some ps -> Forall (fun np => P (pp_spec np.2)) ps) -> P (VS_Object a props b))
  (HJson : forall a, P (VS_Json a)) (HOneOf : forall a bs, Forall P bs -> P (VS_OneOf a bs)).
Fixpoint Spec_ind' (s : ValueSchemaSpec) : P s :=
  match s with
  | VS_String s => HString s
  | VS_Number s => HNumber s
  | VS_Integer s => HInteger s
  | VS_Boolean s => HBoolean s
  | VS_Null a => HNull a
  | VS_Array a items => HArray a items (fun s' E => match items as o return o = Some s' -> P s' with
      | Some x => fun E => eq_ind x P (Spec_ind' x) s' (f_equal (default x) E)
      | None => fun E => match E in _ = y return match y with Some _ => P s' | None => True end with eq_refl => I end
      end E)
  | VS_Object a props b => HObject a props b (fun ps E => match props as o return o = Some ps -> Forall (fun np => P (pp_spec np.2)) ps with
      | Some x => fun E => eq_ind x (fun l => Forall (fun np => P (pp_spec np.2)) l)
          ((fix go (l : ParameterSchemaSpec) : Forall (fun np => P (pp_spec np.2)) l := match l with
            | [] => Forall_nil_2 _
            | np :: l => Forall_cons_2 _ _ _ (Spec_ind' (pp_spec np.2)) (go l) end) x) ps (f_equal (default x) E)
      | None => fun E => match E in _ = y return match y with Some l => Forall (fun np => P (pp_spec np.2)) l | None => True end with eq_refl => I end
      end E)
  | VS_Json a => HJson a
  | VS_OneOf a bs => HOneOf a bs ((fix go bs : Forall P bs := match bs with
      | [] => Forall_nil_2 _
      | b :: bs => Forall_cons_2 _ _ _ (Spec_ind' b) (go bs) end) bs)
  end.
End spec_ind.

Definition annotations (s : ValueSchemaSpec) : ValueSchemaAnnotations :=
  match s with
  | VS_String s => ls_annotations s
  | VS_Number s => ls_annotations s
  | VS_Integer s => ls_annotations s
  | VS_Boolean s => ls_annotations s
  | VS_Null a | VS_Array a _ | VS_Object a _ _ | VS_Json a | VS_OneOf a _ => a
  end.

(** * Compilation to the enforced subset *)

(** [serde_json::to_value] of the literals: a non-finite float becomes [null]. *)
Definition f64_to_json (f : f64) : Value := if f64_is_finite f then Num (Float f) else Null.
Definition scalar_author_value {A} (to_json : A -> Value) (type_name : string) (enum_values : option (list A)) (const_value : option A)
  : list (string * Value) :=
  insert_some "const" to_json const_value
    (insert_some "enum" (fun vs => Arr (to_json <$> vs)) enum_values (json_map [("type", Str type_name)])).

Definition write_annotations (a : ValueSchemaAnnotations) (node : list (string * Value)) : list (string * Value) :=
  insert_some "examples" id (va_examples a)
    (insert_some "default" id (va_default a)
      (insert_some "title" Str (va_title a)
        (insert_some "description" Str (va_description a) node))).

Definition scalar_node (s : ValueSchemaSpec) : list (string * Value) :=
  match s with
  | VS_String s => scalar_author_value Str "string" (ls_enum s) (ls_const s)
  | VS_Number s => scalar_author_value f64_to_json "number" (ls_enum s) (ls_const s)
  | VS_Integer s => scalar_author_value json_i64 "integer" (ls_enum s) (ls_const s)
  | VS_Boolean s => scalar_author_value Bool "boolean" (ls_enum s) (ls_const s)
  | VS_Null _ => json_map [("type", Str "null")]
  | _ => []
  end.

Definition required_names (spec : ParameterSchemaSpec) : list string :=
  omap (fun np : string * ParameterPropertySpec => if pp_required np.2 then Some np.1 else None) spec.
Definition insert_required (required : list string) (node : list (string * Value)) : list (string * Value) :=
  if bool_decide (required = []) then node else obj_insert "required" (Arr (Str <$> required)) node.

(** The property map under a compiler for the property schemas. *)
Definition property_map (compile : ValueSchemaSpec -> list (string * Value)) : ParameterSchemaSpec -> list (string * Value) -> list (string * Value) :=
  fix go spec m := match spec with
  | [] => m
  | (name, property) :: spec' => go spec' (obj_insert name (Obj (compile (pp_spec property))) m)
  end.

Fixpoint compile_value (spec : ValueSchemaSpec) : list (string * Value) :=
  write_annotations (annotations spec)
    match spec with
    | VS_OneOf _ branches => json_map [("oneOf", Arr ((fun b => Obj (compile_value b)) <$> branches))]
    | VS_Json _ => json_map []
    | VS_Object _ properties additional =>
        let node := json_map [("type", Str "object"); ("additionalProperties", Bool additional)] in
        match properties with
        | None => node
        | Some properties =>
            insert_required (required_names properties)
              (obj_insert "properties" (Obj (property_map compile_value properties [])) node)
        end
    | VS_Array _ items => insert_some "items" (fun s => Obj (compile_value s)) items (json_map [("type", Str "array")])
    | scalar => scalar_node scalar
    end.
Definition compile_property_map (spec : ParameterSchemaSpec) : list (string * Value) * list string :=
  (property_map compile_value spec [], required_names spec).

Definition value_schema_spec_to_json_schema (spec : ValueSchemaSpec) : result Value JsonSchemaError :=
  let schema := Obj (compile_value spec) in
  result_bind (assert_supported_json_schema schema) (fun _ => Ok schema).
Definition parameter_root (spec : ParameterSchemaSpec) : list (string * Value) :=
  let (properties, required) := compile_property_map spec in
  insert_required required (json_map [("type", Str "object"); ("properties", Obj properties)]).
Definition parameter_schema_spec_to_json_schema (spec : ParameterSchemaSpec) : result Value JsonSchemaError :=
  let schema := Obj (parameter_root spec) in
  result_bind (assert_supported_json_schema schema) (fun _ => Ok schema).

Definition INVALID_ARGS : string := "INVALID_ARGS".
Definition validate_args (to_string : Value -> string) (spec : ParameterSchemaSpec) (args : Value) : result (list string) JsonSchemaError :=
  result_bind (parameter_schema_spec_to_json_schema spec) (fun schema => Ok (validate_json_schema_value to_string schema args "")).

(** * What a compiled spec accepts *)

(** A literal constraint compares with [serde_json]'s equality of the compiled
    literal. *)
Definition literal_accepted {A} (to_json : A -> Value) (s : LiteralSpec A) (v : Value) : bool :=
  match ls_enum s with Some l => existsb (fun a => value_eqb (to_json a) v) l | None => true end
  && match ls_const s with Some a => value_eqb v (to_json a) | None => true end.

(** The values that pass: one clause per spec, no schema in between. *)
Fixpoint accepts_value (spec : ValueSchemaSpec) (v : Value) : bool :=
  match spec with
  | VS_String s => is_string v && literal_accepted Str s v
  | VS_Number s => is_json_number v && literal_accepted f64_to_json s v
  | VS_Integer s => is_integer v && literal_accepted json_i64 s v
  | VS_Boolean s => is_boolean v && literal_accepted Bool s v
  | VS_Null _ => is_null_value v
  | VS_Array _ items =>
      match v with
      | Arr l => match items with Some s => forallb (accepts_value s) l | None => true end
      | _ => false
      end
  | VS_Object _ properties additional =>
      match v with
      | Obj record =>
          match properties with
          | Some ps =>
              forallb (fun np : string * ParameterPropertySpec => match assoc np.1 record with
                | Some x => accepts_value (pp_spec np.2) x
                | None => negb (pp_required np.2) end) ps
              && (additional || forallb (fun k => bool_decide (k ∈ ps.*1)) record.*1)
          | None => additional || bool_decide (record = [])
          end
      | _ => false
      end
  | VS_Json _ => true
  | VS_OneOf _ branches => bool_decide (length (List.filter (fun b => accepts_value b v) branches) = 1)
  end.

(** * What a spec means

    A literal constraint means the values it names: a string or a boolean is
    itself, and a number is whatever JSON spelling has the same numerical
    value, as in the JSON Schema the models are shown. *)
Definition float_is (f : f64) (n : Z) : bool :=
  match f with
  | S754_zero _ => bool_decide (n = 0%Z)
  | S754_finite s m e =>
      let m := if s then Z.neg m else Z.pos m in
      if (0 <=? e)%Z then bool_decide (m * 2 ^ e = n)%Z else bool_decide (m = n * 2 ^ (- e))%Z
  | _ => false
  end.
Definition number_means (f : f64) (v : Value) : bool :=
  match v with Num (PosInt n) | Num (NegInt n) => float_is f n | Num (Float g) => f64_eqb f g | _ => false end.
Definition integer_means (n : Z) (v : Value) : bool :=
  match v with Num (PosInt k) | Num (NegInt k) => bool_decide (k = n) | Num (Float f) => float_is f n | _ => false end.
Definition string_means (s : string) (v : Value) : bool := match v with Str t => bool_decide (s = t) | _ => false end.
Definition boolean_means (b : bool) (v : Value) : bool := match v with Bool c => bool_decide (b = c) | _ => false end.
Definition literal_admits {A} (means : A -> Value -> bool) (s : LiteralSpec A) (v : Value) : bool :=
  match ls_enum s with Some l => existsb (fun a => means a v) l | None => true end
  && match ls_const s with Some a => means a v | None => true end.

Fixpoint admits_value (spec : ValueSchemaSpec) (v : Value) : bool :=
  match spec with
  | VS_String s => is_string v && literal_admits string_means s v
  | VS_Number s => is_json_number v && literal_admits number_means s v
  | VS_Integer s => is_integer v && literal_admits integer_means s v
  | VS_Boolean s => is_boolean v && literal_admits boolean_means s v
  | VS_Null _ => is_null_value v
  | VS_Array _ items =>
      match v with
      | Arr l => match items with Some s => forallb (admits_value s) l | None => true end
      | _ => false
      end
  | VS_Object _ properties additional =>
      match v with
      | Obj record =>
          match properties with
          | Some ps =>
              forallb (fun np : string * ParameterPropertySpec => match assoc np.1 record with
                | Some x => admits_value (pp_spec np.2) x
                | None => negb (pp_required np.2) end) ps
              && (additional || forallb (fun k => bool_decide (k ∈ ps.*1)) record.*1)
          | None => additional || bool_decide (record = [])
          end
      | _ => false
      end
  | VS_Json _ => true
  | VS_OneOf _ branches => bool_decide (length (List.filter (fun b => admits_value b v) branches) = 1)
  end.
(** The implicit open parameter object. *)
Definition args_spec (spec : ParameterSchemaSpec) : ValueSchemaSpec := VS_Object (mk_annotations None None None None) (Some spec) true.

(** The spelling of a number counts only where a number literal is an integer
    or an integer literal meets a number not spelled as one. *)
Definition fractional (f : f64) : bool := f64_is_finite f && negb (fract_is_zero f).
Definition literals {A} (s : LiteralSpec A) : list A := default [] (ls_enum s) ++ option_list (ls_const s).
Fixpoint number_literals_fractional (spec : ValueSchemaSpec) : bool :=
  match spec with
  | VS_Number s => forallb fractional (literals s)
  | VS_Array _ (Some s) => number_literals_fractional s
  | VS_Object _ (Some ps) _ => forallb (fun np : string * ParameterPropertySpec => number_literals_fractional (pp_spec np.2)) ps
  | VS_OneOf _ bs => forallb number_literals_fractional bs
  | _ => true
  end.
Fixpoint integer_literals (spec : ValueSchemaSpec) : bool :=
  match spec with
  | VS_Integer s => negb (bool_decide (literals s = []))
  | VS_Array _ (Some s) => integer_literals s
  | VS_Object _ (Some ps) _ => existsb (fun np : string * ParameterPropertySpec => integer_literals (pp_spec np.2)) ps
  | VS_OneOf _ bs => existsb integer_literals bs
  | _ => false
  end.
(** Integers are spelled as integers. *)
Fixpoint plain_numbers (v : Value) : bool :=
  match v with
  | Num (PosInt n) => (0 <=? n)%Z
  | Num (NegInt n) => (n <? 0)%Z
  | Num (Float f) => fractional f
  | Arr l => forallb plain_numbers l
  | Obj r => forallb (fun kv : string * Value => plain_numbers kv.2) r
  | _ => true
  end.
Definition comparable (spec : ValueSchemaSpec) (v : Value) : Prop :=
  number_literals_fractional spec = true /\ (integer_literals spec = false \/ plain_numbers v = true).

(** Every property name is declared once. *)
Fixpoint distinct_names (spec : ValueSchemaSpec) : bool :=
  match spec with
  | VS_Array _ (Some s) => distinct_names s
  | VS_Object _ (Some ps) _ =>
      bool_decide (NoDup ps.*1) && forallb (fun np : string * ParameterPropertySpec => distinct_names (pp_spec np.2)) ps
  | VS_OneOf _ bs => forallb distinct_names bs
  | _ => true
  end.

(** The specs the compiled-schema assertion lets through. *)
Definition literals_supported {A} (to_json : A -> Value) (t : JsonSchemaType) (s : LiteralSpec A) : bool :=
  match ls_enum s with Some l => negb (bool_decide (length l = 0)) && forallb (fun a => scalar_matches t (to_json a)) l | None => true end
  && match ls_const s with
     | Some a => scalar_matches t (to_json a)
                 && match ls_enum s with Some l => existsb (fun e => value_eqb (to_json e) (to_json a)) l | None => true end
     | None => true end.
Fixpoint spec_supported (spec : ValueSchemaSpec) : bool :=
  match spec with
  | VS_String s => literals_supported Str TyString s
  | VS_Number s => literals_supported f64_to_json TyNumber s
  | VS_Integer s => literals_supported json_i64 TyInteger s
  | VS_Boolean s => literals_supported Bool TyBoolean s
  | VS_Null _ | VS_Json _ => true
  | VS_Array _ items => match items with Some s => spec_supported s | None => true end
  | VS_Object _ properties _ =>
      match properties with
      | Some ps => forallb (fun np : string * ParameterPropertySpec => spec_supported (pp_spec np.2)) ps
      | None => true end
  | VS_OneOf _ branches => (2 <=? length branches)%nat && forallb spec_supported branches
  end.

(** * Lemmas *)

(** Lookups in literal objects. *)
Ltac key_decide :=
  repeat match goal with
  | |- context [decide (?a = ?a)] => rewrite (decide_True (P := a = a)) by reflexivity
  | |- context [decide (?a = ?b)] => rewrite (decide_False (P := a = b)) by discriminate
  end.
Ltac assoc_keys := rewrite ?assoc_insert_some, ?assoc_obj_insert; simpl assoc; key_decide.

Definition agree (m m' : list (string * Value)) : Prop := forall k, k ∈ CONSTRAINT_KEYWORDS -> assoc k m = assoc k m'.

Lemma agree_contains m m' k : agree m m' -> k ∈ CONSTRAINT_KEYWORDS -> contains_key k m = contains_key k m'.
Proof. intros H Hk. unfold contains_key. by rewrite H. Qed.
Lemma agree_declared m m' : agree m m' -> declared_properties m = declared_properties m'.
Proof. intros H. unfold declared_properties. rewrite H; [done|]. unfold CONSTRAINT_KEYWORDS. set_solver. Qed.
Ltac agree_rewrite H := repeat match type of H with agree ?m ?m' => match goal with
  | |- context [assoc ?k m] => rewrite (H k) by (unfold CONSTRAINT_KEYWORDS; set_solver)
  | |- context [declared_properties m] => rewrite (agree_declared m m' H)
  end end.

Lemma agree_only_keys m m' keys : agree m m' -> only_keys keys m <-> only_keys keys m'.
Proof.
  intros H. unfold only_keys. apply forall_proper. intros k. split; intros Hk Hin; specialize (Hk Hin).
  - rewrite <- H; [done|]. unfold ONE_OF_SIBLING_KEYWORDS, CONSTRAINT_KEYWORDS in *. set_solver.
  - rewrite H; [done|]. unfold ONE_OF_SIBLING_KEYWORDS, CONSTRAINT_KEYWORDS in *. set_solver.
Qed.
Lemma agree_typed_ok m m' t : agree m m' -> typed_ok m t <-> typed_ok m' t.
Proof. intros H. destruct t; unfold typed_ok, literals_ok; agree_rewrite H; done. Qed.
Lemma agree_supported m m' : agree m m' -> keywords_ok m -> keywords_ok m' -> supported (Obj m) <-> supported (Obj m').
Proof.
  intros H Hm Hm'. rewrite !supported_shape. agree_rewrite H.
  destruct (assoc "type" m') as [ty|], (assoc "oneOf" m') as [one|]; rewrite ?(agree_only_keys m m') by done; try naive_solver.
  setoid_rewrite (agree_typed_ok m m' _ H). setoid_rewrite (agree_only_keys m m' _ H). naive_solver.
Qed.
Lemma agree_check_value to_string m m' v path : agree m m' -> check_value to_string (Obj m) v path = check_value to_string (Obj m') v path.
Proof.
  intros H. destruct v; cbn [check_value]; rewrite !with_key_assoc;
    unfold schema_type_of, missing_required, undeclared_keys, check_scalar, scalar_constraint_violations; agree_rewrite H; done.
Qed.

(** Annotations change neither the verdict nor the diagnostics. *)
Lemma assoc_write_annotations a k node : k ∉ ANNOTATION_KEYWORDS -> assoc k (write_annotations a node) = assoc k node.
Proof.
  unfold ANNOTATION_KEYWORDS. intros Hk. unfold write_annotations. rewrite !assoc_insert_some.
  rewrite !decide_False by (intros ->; apply Hk; set_solver). done.
Qed.
Lemma agree_annotations a node : agree (write_annotations a node) node.
Proof.
  intros k Hk. apply assoc_write_annotations. unfold CONSTRAINT_KEYWORDS, ANNOTATION_KEYWORDS in *.
  repeat (apply elem_of_cons in Hk as [->|Hk]; [by vm_compute; set_solver|]). set_solver.
Qed.

Definition constraint_keys (m : list (string * Value)) : Prop := Forall (fun k => k ∈ CONSTRAINT_KEYWORDS) m.*1.
Lemma constraint_keys_assoc m : constraint_keys m <-> forall k, is_Some (assoc k m) -> k ∈ CONSTRAINT_KEYWORDS.
Proof. unfold constraint_keys. rewrite Forall_forall. by setoid_rewrite <- assoc_is_Some. Qed.
Lemma constraint_keys_insert k v m : k ∈ CONSTRAINT_KEYWORDS -> constraint_keys m -> constraint_keys (obj_insert k v m).
Proof. rewrite !constraint_keys_assoc. intros Hk H x. rewrite assoc_obj_insert. case_decide; naive_solver. Qed.
Lemma constraint_keys_insert_some {A} k (f : A -> Value) o m :
  k ∈ CONSTRAINT_KEYWORDS -> constraint_keys m -> constraint_keys (insert_some k f o m).
Proof. destruct o; [apply constraint_keys_insert|done]. Qed.

Lemma constraint_keywords_ok a node : constraint_keys node -> keywords_ok (write_annotations a node).
Proof.
  rewrite constraint_keys_assoc. intros H. unfold keywords_ok. rewrite Forall_forall.
  setoid_rewrite <- assoc_is_Some. split_and!.
  - intros k Hk. unfold write_annotations in Hk. rewrite !assoc_insert_some in Hk.
    destruct (decide (k ∈ ANNOTATION_KEYWORDS)) as [|Hn]; [by right|left]. apply H. revert Hk.
    unfold ANNOTATION_KEYWORDS in Hn. rewrite !decide_False by (intros ->; apply Hn; set_solver). done.
  - intros d. unfold write_annotations. assoc_keys. destruct (va_description a); [naive_solver|].
    intros Hd. exfalso. assert (Hin : "description" ∈ CONSTRAINT_KEYWORDS) by (apply H; eauto). revert Hin. vm_compute. set_solver.
  - intros d. unfold write_annotations. assoc_keys. destruct (va_title a); [naive_solver|].
    intros Hd. exfalso. assert (Hin : "title" ∈ CONSTRAINT_KEYWORDS) by (apply H; eauto). revert Hin. vm_compute. set_solver.
Qed.
Lemma no_annotations_ok node : constraint_keys node -> keywords_ok node.
Proof. apply (constraint_keywords_ok (mk_annotations None None None None)). Qed.
Lemma supported_annotated a node : constraint_keys node -> supported (Obj (write_annotations a node)) <-> supported (Obj node).
Proof.
  intros H. apply agree_supported; [apply agree_annotations|by apply constraint_keywords_ok|by apply no_annotations_ok].
Qed.

(** ** Which specs compile *)

Ltac in_constraints := apply (bool_decide_unpack (_ ∈ CONSTRAINT_KEYWORDS)); vm_compute; exact I.
Ltac constraint_keys_tac :=
  repeat (apply constraint_keys_insert; [in_constraints|]);
  repeat (apply Forall_cons; split; [in_constraints|]); apply Forall_nil_2.
Lemma scalar_constraint_keys {A} (f : A -> Value) n enum const : constraint_keys (scalar_author_value f n enum const).
Proof.
  unfold scalar_author_value. do 2 (apply constraint_keys_insert_some; [in_constraints|]).
  apply constraint_keys_insert; [in_constraints|constructor].
Qed.
Lemma scalar_keys {A} (f : A -> Value) n enum const k :
  assoc k (scalar_author_value f n enum const) =
    if decide (k = "const") then f <$> const
    else if decide (k = "enum") then (fun vs => Arr (f <$> vs)) <$> enum
    else if decide (k = "type") then Some (Str n) else None.
Proof.
  unfold scalar_author_value. rewrite !assoc_insert_some. simpl.
  destruct const, enum; simpl; repeat case_decide; subst; try done; congruence.
Qed.

Lemma scalar_type t m : t ∈ SCALAR_TYPES -> companions t = ["enum"; "const"] /\ typed_ok m t = literals_ok t m.
Proof. unfold SCALAR_TYPES. intros Ht. repeat (apply elem_of_cons in Ht as [->|Ht]; [done|]). by apply not_elem_of_nil in Ht. Qed.

Lemma enum_side {A} (f : A -> Value) t l :
  (forall v, Some (Arr (f <$> l)) = Some v -> exists l', v = Arr l' /\ l' <> [] /\ Forall (fun e => scalar_matches t e = true) l')
  <-> negb (bool_decide (length l = 0)) && forallb (fun a => scalar_matches t (f a)) l = true.
Proof.
  rewrite andb_true_iff, negb_true_iff, bool_decide_eq_false, forallb_Forall_true. split.
  - intros H. destruct (H _ eq_refl) as (l' & [= <-] & Hne & Hf). rewrite Forall_fmap in Hf. split; [|done].
    by destruct l.
  - intros [Hne Hf] v [= <-]. exists (f <$> l). rewrite Forall_fmap. split_and!; [done|by destruct l|done].
Qed.
Lemma const_side {A} (f : A -> Value) t l c :
  (forall v, Some (f c) = Some v -> scalar_matches t v = true
    /\ forall l', Some (Arr (f <$> l)) = Some (Arr l') -> Exists (fun e => value_eqb e v = true) l')
  <-> scalar_matches t (f c) && existsb (fun e => value_eqb (f e) (f c)) l = true.
Proof.
  rewrite andb_true_iff, existsb_Exists_true. split.
  - intros H. destruct (H _ eq_refl) as [Hc He]. split; [done|]. specialize (He _ eq_refl). by rewrite Exists_fmap in He.
  - intros [Hc He] v [= <-]. split; [done|]. intros l' [= <-]. by rewrite Exists_fmap.
Qed.

Lemma scalar_supported {A} (f : A -> Value) t s :
  t ∈ SCALAR_TYPES ->
  supported (Obj (write_annotations (ls_annotations s) (scalar_author_value f (type_str t) (ls_enum s) (ls_const s))))
  <-> literals_supported f t s = true.
Proof.
  intros Ht. rewrite supported_annotated by apply scalar_constraint_keys.
  transitivity (literals_ok t (scalar_author_value f (type_str t) (ls_enum s) (ls_const s))).
  - rewrite supported_shape, !scalar_keys. key_decide. split.
    + intros (_ & t' & [= E] & _ & Hl). apply (f_equal parse_type) in E. rewrite !parse_type_str in E. injection E as <-.
      by rewrite (proj2 (scalar_type t _ Ht)) in Hl.
    + intros Hl. split; [apply no_annotations_ok, scalar_constraint_keys|]. exists t. split_and!; [done| |].
      * rewrite (proj1 (scalar_type t [] Ht)). intros k Hk. rewrite scalar_keys, <- not_eq_None_Some.
        unfold ONE_OF_SIBLING_KEYWORDS in Hk. repeat case_decide; subst; set_solver.
      * by rewrite (proj2 (scalar_type t _ Ht)).
  - unfold literals_ok, literals_supported. rewrite !scalar_keys. key_decide.
    rewrite andb_true_iff. destruct (ls_enum s) as [l|], (ls_const s) as [c|]; simpl.
    + by rewrite enum_side, const_side.
    + rewrite enum_side. naive_solver.
    + rewrite andb_true_r. naive_solver.
    + naive_solver.
Qed.

(** A property map binds each name to its last declaration. *)
Lemma property_map_foldl f ps m : property_map f ps m = foldl (fun m np => obj_insert np.1 (Obj (f (pp_spec np.2))) m) m ps.
Proof. revert m. induction ps as [|[n p] ps IH]; intros m; simpl; [done|]. by rewrite IH. Qed.
Lemma property_map_sorted f ps m : obj_sorted m -> obj_sorted (property_map f ps m).
Proof. revert m. induction ps as [|[n p] ps IH]; intros m Hm; simpl; [done|]. by apply IH, obj_insert_sorted. Qed.
Lemma assoc_property_map_other f ps m k : k ∉ ps.*1 -> assoc k (property_map f ps m) = assoc k m.
Proof.
  revert m. induction ps as [|[n p] ps IH]; intros m Hk; simpl in *; [done|].
  rewrite IH by set_solver. rewrite assoc_obj_insert, decide_False by set_solver. done.
Qed.
Lemma property_map_elem f ps k v :
  NoDup ps.*1 -> (k, v) ∈ property_map f ps [] <-> exists p, (k, p) ∈ ps /\ v = Obj (f (pp_spec p)).
Proof.
  intros Hnd. rewrite assoc_elem_sorted by (apply property_map_sorted; constructor).
  enough (H : forall m, assoc k (property_map f ps m) = Some v <->
    (exists p, (k, p) ∈ ps /\ v = Obj (f (pp_spec p))) \/ (k ∉ ps.*1 /\ assoc k m = Some v)).
  { rewrite H. simpl. naive_solver. }
  induction ps as [|[n p] ps IH]; intros m; simpl in *.
  { split; [intros Hm; right; split; [set_solver|done]|intros [(p & Hp & _)|[_ Hm]]; [set_solver|done]]. }
  apply NoDup_cons in Hnd as [Hn Hnd]. rewrite IH by done. rewrite assoc_obj_insert.
  assert (Hnot : forall q, (n, q) ∉ ps). { intros q Hq. apply Hn, list_elem_of_fmap. by exists (n, q). }
  split.
  - intros [(q & Hq & ->)|[Hk Hm]]; [left; exists q; set_solver|]. case_decide as E; [|right; set_solver].
    subst. injection Hm as <-. left. exists p. set_solver.
  - intros [(q & Hq & ->)|[Hk Hm]].
    + apply elem_of_cons in Hq as [[= -> ->]|Hq]; [|left; by exists q]. right. by rewrite decide_True.
    + right. rewrite decide_False by set_solver. set_solver.
Qed.
Lemma property_map_names f ps k : k ∈ (property_map f ps []).*1 <-> k ∈ ps.*1.
Proof.
  rewrite property_map_foldl. enough (H : forall m, k ∈ (foldl (fun m np => obj_insert np.1 (Obj (f (pp_spec np.2))) m) m ps).*1 <-> k ∈ ps.*1 \/ k ∈ m.*1).
  { rewrite H. set_solver. }
  induction ps as [|[n p] ps IH]; intros m; simpl; [set_solver|]. rewrite IH, obj_insert_keys. set_solver.
Qed.

Lemma assoc_insert_required names k m :
  assoc k (insert_required names m) =
    if decide (k = "required") then (if decide (names = []) then assoc k m else Some (Arr (Str <$> names))) else assoc k m.
Proof.
  unfold insert_required. case_bool_decide as E.
  - rewrite (decide_True (P := names = [])) by done. by case_decide.
  - rewrite assoc_obj_insert, (decide_False (P := names = [])) by done. by case_decide.
Qed.
Lemma required_names_elem ps n : n ∈ required_names ps <-> exists p, (n, p) ∈ ps /\ pp_required p = true.
Proof.
  unfold required_names. rewrite list_elem_of_omap. split.
  - intros ([n' p] & Hin & H). simpl in H. destruct (pp_required p) eqn:E; [|done]. injection H as ->. by exists p.
  - intros (p & Hin & H). exists (n, p). simpl. by rewrite H.
Qed.

(** The schema of an object spec, open parameter roots included. *)
Definition object_schema (f : ValueSchemaSpec -> list (string * Value)) (properties : option ParameterSchemaSpec) (additional : option bool)
  (node : list (string * Value)) : Prop :=
  constraint_keys node /\ assoc "type" node = Some (Str "object") /\ assoc "oneOf" node = None
  /\ assoc "items" node = None /\ assoc "enum" node = None /\ assoc "const" node = None
  /\ assoc "properties" node = (fun ps => Obj (property_map f ps [])) <$> properties
  /\ assoc "required" node = (ps ← properties; if decide (required_names ps = []) then None else Some (Arr (Str <$> required_names ps)))
  /\ assoc "additionalProperties" node = Bool <$> additional.

Lemma object_node_schema f properties additional :
  object_schema f properties (Some additional)
    (let node := json_map [("type", Str "object"); ("additionalProperties", Bool additional)] in
     match properties with
     | None => node
     | Some ps => insert_required (required_names ps) (obj_insert "properties" (Obj (property_map f ps [])) node)
     end).
Proof.
  unfold object_schema, json_map. simpl foldl. destruct properties as [ps|]; cbv zeta; split_and!.
  1: unfold insert_required; case_bool_decide; constraint_keys_tac.
  9: constraint_keys_tac.
  all: rewrite ?assoc_insert_required; assoc_keys; try done.
Qed.
Lemma parameter_root_schema spec : object_schema compile_value (Some spec) None (parameter_root spec).
Proof.
  unfold object_schema, parameter_root, compile_property_map, json_map. simpl foldl. split_and!.
  1: unfold insert_required; case_bool_decide; constraint_keys_tac.
  all: rewrite ?assoc_insert_required; assoc_keys; try done.
Qed.

Lemma object_schema_supported f properties additional node :
  object_schema f properties additional node -> (forall ps, properties = Some ps -> NoDup ps.*1) ->
  supported (Obj node) <-> forall ps, properties = Some ps -> Forall (fun np => supported (Obj (f (pp_spec np.2)))) ps.
Proof.
  intros (Hk & Hty & Hone & Hit & Hen & Hco & Hp & Hr & Ha) Hnd.
  rewrite supported_shape, Hty, Hone.
  transitivity (typed_ok node TyObject).
  { split.
    - intros (_ & t & [= E] & _ & Ht). change "object" with (type_str TyObject) in E.
      apply (f_equal parse_type) in E. rewrite !parse_type_str in E. by injection E as <-.
    - intros Ht. split; [by apply no_annotations_ok|]. exists TyObject. split; [done|split; [|done]].
      apply only_keys_Forall. unfold ONE_OF_SIBLING_KEYWORDS. rewrite !Forall_cons, Forall_nil.
      split_and!; [right; simpl; set_solver..|left; by apply contains_key_false|left; by apply contains_key_false
        |left; by apply contains_key_false|done]. }
  unfold typed_ok, declared_properties. rewrite Hp, Hr, Ha. split.
  - intros (H & _ & _) ps ->. destruct (H _ eq_refl) as (entries & [= <-] & Hf). rewrite Forall_forall in Hf. apply Forall_forall.
    intros [n p] Hin. apply (Hf (n, Obj (f (pp_spec p)))). apply property_map_elem; [by apply Hnd|by exists p].
  - intros H. split_and!.
    + intros v Hv. destruct properties as [ps|]; [|done]. injection Hv as <-. eexists. split; [done|].
      apply Forall_forall. intros [n v] (p & Hin & ->)%property_map_elem; [|by apply Hnd].
      specialize (H ps eq_refl). rewrite Forall_forall in H. apply (H (n, p) Hin).
    + intros v Hv. destruct properties as [ps|]; [|done]. simpl in Hv. case_decide; [done|]. injection Hv as <-.
      exists (required_names ps). split; [done|]. apply Forall_forall. intros n (p & Hin & _)%required_names_elem.
      simpl. apply property_map_names, list_elem_of_fmap. by exists (n, p).
    + intros v Hv. destruct additional; [|done]. injection Hv as <-. eauto.
Qed.

Lemma compile_supported spec : distinct_names spec = true -> supported (Obj (compile_value spec)) <-> spec_supported spec = true.
Proof.
  induction spec as [s|s|s|s|a|a items IH|a props additional IH|a|a bs IH] using Spec_ind'; intros Hd.
  - apply (scalar_supported Str TyString s). unfold SCALAR_TYPES. set_solver.
  - apply (scalar_supported f64_to_json TyNumber s). unfold SCALAR_TYPES. set_solver.
  - apply (scalar_supported json_i64 TyInteger s). unfold SCALAR_TYPES. set_solver.
  - apply (scalar_supported Bool TyBoolean s). unfold SCALAR_TYPES. set_solver.
  - apply (scalar_supported (fun _ : unit => Null) TyNull (mk_literal a None None)). unfold SCALAR_TYPES. set_solver.
  - cbn [compile_value annotations]. rewrite supported_annotated by (destruct items; unfold json_map; simpl; constraint_keys_tac).
    rewrite supported_shape. unfold json_map. simpl foldl. assoc_keys.
    transitivity (forall s, items = Some s -> supported (Obj (compile_value s))).
    + split.
      * intros (_ & t & [= E] & _ & Ht) s ->. change "array" with (type_str TyArray) in E.
        apply (f_equal parse_type) in E. rewrite !parse_type_str in E. injection E as <-. by apply (Ht (Obj (compile_value s))).
      * intros H. split; [apply no_annotations_ok; destruct items; simpl; constraint_keys_tac|].
        exists TyArray. split; [done|]. split.
        -- apply only_keys_Forall. unfold ONE_OF_SIBLING_KEYWORDS. rewrite !Forall_cons, Forall_nil.
           split_and!; [left..|right; simpl; set_solver|left|left|done]; apply contains_key_false; assoc_keys; done.
        -- intros v. assoc_keys. destruct items as [s|]; [|done]. intros [= <-]. by apply H.
    + destruct items as [s|]; simpl in *; [|naive_solver]. specialize (IH s eq_refl Hd). naive_solver.
  - cbn [compile_value annotations].
    pose proof (object_node_schema compile_value props additional) as Hn.
    rewrite supported_annotated by apply Hn.
    rewrite (object_schema_supported _ _ _ _ Hn).
    + destruct props as [ps|]; simpl in *; [|naive_solver]. apply andb_true_iff in Hd as [_ Hd]. rewrite forallb_Forall_true in Hd.
      rewrite forallb_Forall_true. transitivity (Forall (fun np => supported (Obj (compile_value (pp_spec np.2)))) ps); [naive_solver|].
      specialize (IH ps eq_refl). revert Hd IH. clear. induction ps as [|np ps IHps]; [by rewrite !Forall_nil|].
      rewrite !Forall_cons. intros [Hd1 Hd2] [H1 H2]. rewrite IHps, H1 by done. done.
    + intros ps ->. simpl in Hd. apply andb_true_iff in Hd as [Hd _]. by apply bool_decide_eq_true in Hd.
  - split; [done|]. intros _. apply supported_annotated; [constructor|]. apply supported_any; [|done..|].
    + apply no_annotations_ok. constructor.
    + intros k _ [v Hv]. done.
  - cbn [compile_value annotations]. rewrite supported_annotated by (unfold json_map; simpl; constraint_keys_tac).
    rewrite supported_shape. unfold json_map. simpl foldl. assoc_keys. cbn [spec_supported]. rewrite andb_true_iff, Nat.leb_le, forallb_Forall_true.
    transitivity (2 <= length bs /\ Forall (fun b => supported (Obj (compile_value b))) bs).
    + split.
      * intros (_ & (bs' & [= <-] & Hl & Hf) & _). rewrite length_fmap in Hl. rewrite Forall_fmap in Hf. done.
      * intros [Hl Hf]. split; [apply no_annotations_ok; constraint_keys_tac|]. split.
        -- eexists. split; [done|]. rewrite length_fmap, Forall_fmap. done.
        -- apply only_keys_Forall. unfold ONE_OF_SIBLING_KEYWORDS. rewrite !Forall_cons, Forall_nil. split_and!; try done; by left.
    + f_equiv. simpl in Hd. rewrite forallb_Forall_true in Hd. revert Hd IH. clear. induction bs as [|b bs IHbs]; [by rewrite !Forall_nil|].
      rewrite !Forall_cons. intros [Hd1 Hd2] [H1 H2]. rewrite IHbs, H1 by done. done.
Qed.

(** ** Validation implements the meaning *)

Section meaning.
Context (to_string : Value -> string).
Local Abbreviation check := (check_value to_string).

Lemma existsb_fmap {A B} (f : A -> B) (p : B -> bool) l : existsb p (f <$> l) = existsb (fun x => p (f x)) l.
Proof. induction l as [|x l IH]; [done|]. rewrite fmap_cons. cbn [existsb]. by rewrite IH. Qed.

Lemma constraint_violations_nil {A} (f : A -> Value) n s v path :
  scalar_constraint_violations to_string (scalar_author_value f n (ls_enum s) (ls_const s)) v path = [] <-> literal_accepted f s v = true.
Proof.
  unfold scalar_constraint_violations, literal_accepted. rewrite !scalar_keys. key_decide. rewrite andb_true_iff.
  assert (Hc : match f <$> ls_const s with
      | Some declared => when (negb (value_eqb v declared)) (dquoted (diagnostic_path path) +:+ " must be " +:+ to_string declared)
      | None => [] end = [] <-> match ls_const s with Some a => value_eqb v (f a) | None => true end = true).
  { destruct (ls_const s) as [c|]; simpl; [|done]. by rewrite when_nil, negb_false_iff. }
  destruct (ls_enum s) as [l|]; simpl; [|rewrite Hc; naive_solver].
  rewrite existsb_fmap. destruct (existsb _ l); [rewrite Hc; naive_solver|]. split; [done|by intros []].
Qed.

Lemma scalar_accepts {A} (f : A -> Value) t s v path :
  t ∈ SCALAR_TYPES ->
  check (Obj (write_annotations (ls_annotations s) (scalar_author_value f (type_str t) (ls_enum s) (ls_const s)))) v path = []
  <-> scalar_matches t v && literal_accepted f s v = true.
Proof.
  intros Ht. rewrite (agree_check_value _ _ _ _ _ (agree_annotations _ _)).
  cbn [check_value]. rewrite !with_key_assoc, scalar_keys. key_decide. cbn [mbind option_bind].
  unfold schema_type_of. rewrite scalar_keys. key_decide. cbn [mbind option_bind as_str]. rewrite parse_type_str.
  transitivity (check_scalar to_string (scalar_author_value f (type_str t) (ls_enum s) (ls_const s)) t v path = []).
  { unfold SCALAR_TYPES in Ht. repeat (apply elem_of_cons in Ht as [->|Ht]; [done|]). by apply not_elem_of_nil in Ht. }
  rewrite andb_true_iff, <- (constraint_violations_nil f (type_str t) s v path).
  unfold check_scalar, SCALAR_TYPES in *. cbv zeta.
  repeat (apply elem_of_cons in Ht as [->|Ht]); [..|by apply not_elem_of_nil in Ht]; cbn [scalar_matches].
  - destruct (is_string v); naive_solver.
  - assert (is_json_number v = true -> is_number v = true) by (by destruct v).
    destruct (is_number v); simpl; [destruct (is_json_number v); naive_solver|]. split; [done|]. intros [Hv _]. naive_solver.
  - destruct (is_integer v); naive_solver.
  - destruct (is_boolean v); naive_solver.
  - destruct (is_null_value v); naive_solver.
Qed.

Lemma property_path_any (P : string -> Prop) : (forall path, P path) -> forall path key, P (property_path path key).
Proof. eauto. Qed.

(** The two object walks against the declared properties. *)
Lemma properties_nil ps record path :
  NoDup ps.*1 ->
  (forall n p v path, (n, p) ∈ ps -> check (Obj (compile_value (pp_spec p))) v path = [] <-> accepts_value (pp_spec p) v = true) ->
  missing_required (insert_required (required_names ps) []) record path
  ++ each (fun '(key, child_schema) => match assoc key record with
       | Some child_value => check child_schema child_value (property_path path key)
       | None => [] end) (property_map compile_value ps []) = []
  <-> forallb (fun np : string * ParameterPropertySpec => match assoc np.1 record with
        | Some x => accepts_value (pp_spec np.2) x
        | None => negb (pp_required np.2) end) ps = true.
Proof.
  intros Hnd Hps. rewrite app_nil, forallb_Forall_true, Forall_forall.
  assert (Hreq : missing_required (insert_required (required_names ps) []) record path = []
    <-> forall n p, (n, p) ∈ ps -> pp_required p = true -> is_Some (assoc n record)).
  { unfold missing_required. rewrite assoc_insert_required. key_decide. case_decide as E; cbn [mbind option_bind as_array].
    - split; [|done]. intros _ n p Hin Hp. assert (Hn : n ∈ required_names ps) by (apply required_names_elem; eauto).
      rewrite E in Hn. by apply not_elem_of_nil in Hn.
    - assert (omap as_str (Str <$> required_names ps) = required_names ps) as ->.
      { generalize (required_names ps). intros l. induction l as [|n l IH]; [done|]. rewrite fmap_cons, list_omap_cons, IH. done. }
      rewrite each_nil, Forall_forall. setoid_rewrite when_nil. setoid_rewrite negb_false_iff.
      setoid_rewrite contains_key_true. setoid_rewrite required_names_elem. naive_solver. }
  rewrite Hreq, each_nil, Forall_forall. split.
  - intros [H1 H2] [n p] Hin. simpl. destruct (assoc n record) as [x|] eqn:Ex.
    + apply (Hps n p x (property_path path n)); [done|]. specialize (H2 (n, Obj (compile_value (pp_spec p)))). simpl in H2.
      rewrite Ex in H2. apply H2. apply property_map_elem; eauto.
    + apply negb_true_iff. destruct (pp_required p) eqn:Er; [|done]. destruct (H1 n p Hin Er) as [x Hx]. congruence.
  - intros H. split.
    + intros n p Hin Hr. specialize (H _ Hin). simpl in H. destruct (assoc n record); [by eexists|]. by rewrite Hr in H.
    + intros [n v] (p & Hin & ->)%property_map_elem; [|done]. specialize (H _ Hin). simpl in H.
      destruct (assoc n record) as [x|] eqn:Ex; [|done]. by apply (Hps n p).
Qed.

Lemma object_accepts a properties additional node v path :
  object_schema compile_value properties additional node ->
  (forall ps, properties = Some ps -> NoDup ps.*1 /\ forall n p v path, (n, p) ∈ ps ->
    check (Obj (compile_value (pp_spec p))) v path = [] <-> accepts_value (pp_spec p) v = true) ->
  check (Obj node) v path = [] <-> accepts_value (VS_Object a properties (default true additional)) v = true.
Proof.
  intros (_ & Hty & Hone & _ & _ & _ & Hp & Hr & Ha) Hps.
  cbn [check_value]. rewrite !with_key_assoc. unfold schema_type_of. rewrite Hty, Hone. cbn [mbind option_bind as_str].
  change (parse_type "object") with (Some TyObject). cbv iota. destruct v as [| | | | |record]; try (split; [done|discriminate]).
  cbn [accepts_value].
  assert (Hm : missing_required node record path = missing_required
      (match properties with Some ps => insert_required (required_names ps) [] | None => [] end) record path).
  { unfold missing_required. rewrite Hr. destruct properties as [ps|]; [|done].
    rewrite assoc_insert_required. key_decide. simpl. case_decide; done. }
  assert (Hu : undeclared_keys node record path = [] <-> default true additional = true \/
    forall k, k ∈ record.*1 -> k ∈ (default [] properties).*1).
  { unfold undeclared_keys, declared_properties. rewrite Ha, Hp. destruct additional as [[]|]; simpl.
    - split; [naive_solver|done].
    - rewrite each_nil, Forall_forall. setoid_rewrite when_nil.
      setoid_rewrite negb_false_iff. setoid_rewrite contains_key_elem.
      destruct properties as [ps|]; simpl; [|naive_solver]. setoid_rewrite property_map_names. naive_solver.
    - split; [naive_solver|done]. }
  rewrite with_key_assoc, Hp, Hm, app_assoc, app_nil, Hu. destruct properties as [ps|]; cbn [fmap option_fmap option_map default].
  - destruct (Hps ps eq_refl) as [Hnd Hchild]. rewrite (properties_nil ps record path Hnd Hchild), andb_true_iff, orb_true_iff.
    f_equiv. f_equiv. rewrite forallb_Forall_true, Forall_forall. setoid_rewrite bool_decide_eq_true. done.
  - rewrite orb_true_iff, bool_decide_eq_true. simpl. split.
    + intros [_ [H|H]]; [by left|right]. destruct record as [|[k x] r]; [done|]. exfalso.
      specialize (H k ltac:(simpl; set_solver)). by apply not_elem_of_nil in H.
    + intros [H| ->]; (split; [done|]); [by left|right; set_solver].
Qed.

Lemma compile_accepts spec v path :
  distinct_names spec = true -> check (Obj (compile_value spec)) v path = [] <-> accepts_value spec v = true.
Proof.
  revert v path. induction spec as [s|s|s|s|a|a items IH|a props additional IH|a|a bs IH] using Spec_ind'; intros v path Hd.
  - apply (scalar_accepts Str TyString s). unfold SCALAR_TYPES. set_solver.
  - apply (scalar_accepts f64_to_json TyNumber s). unfold SCALAR_TYPES. set_solver.
  - apply (scalar_accepts json_i64 TyInteger s). unfold SCALAR_TYPES. set_solver.
  - apply (scalar_accepts Bool TyBoolean s). unfold SCALAR_TYPES. set_solver.
  - rewrite (scalar_accepts (fun _ : unit => Null) TyNull (mk_literal a None None)) by (unfold SCALAR_TYPES; set_solver).
    by rewrite andb_true_r.
  - cbn [compile_value annotations]. rewrite (agree_check_value _ _ _ _ _ (agree_annotations _ _)).
    cbn [check_value]. rewrite !with_key_assoc. unfold schema_type_of, json_map. simpl foldl. assoc_keys.
    cbn [mbind option_bind as_str]. change (parse_type "array") with (Some TyArray). cbv iota.
    destruct v as [| | | |l|]; try (split; [done|discriminate]). cbn [accepts_value].
    destruct items as [s|]; [|done]. rewrite forallb_Forall_true.
    apply each_indexed_nil_all. intros j x _. by apply (IH s).
  - cbn [compile_value annotations]. rewrite (agree_check_value _ _ _ _ _ (agree_annotations _ _)).
    apply (object_accepts a props (Some additional)); [apply object_node_schema|]. intros ps ->. simpl in Hd.
    apply andb_true_iff in Hd as [Hnd Hd]. apply bool_decide_eq_true in Hnd. split; [done|].
    intros n p v' path' Hin. specialize (IH ps eq_refl). rewrite Forall_forall in IH. rewrite forallb_Forall_true, Forall_forall in Hd.
    apply (IH (n, p) Hin). by apply (Hd (n, p)).
  - cbn [compile_value annotations]. rewrite (agree_check_value _ _ _ _ _ (agree_annotations _ _)). done.
  - cbn [compile_value annotations]. rewrite (agree_check_value _ _ _ _ _ (agree_annotations _ _)).
    unfold json_map. simpl foldl. cbn [check_value]. rewrite !with_key_assoc. simpl assoc. key_decide. cbn [mbind option_bind as_array].
    cbv zeta. rewrite when_nil, negb_false_iff, Nat.eqb_eq. cbn [accepts_value]. rewrite bool_decide_eq_true.
    enough (List.filter (fun branch => bool_decide (check branch v path = [])) ((fun b => Obj (compile_value b)) <$> bs)
      = (fun b => Obj (compile_value b)) <$> List.filter (fun b => accepts_value b v) bs) as -> by (by rewrite length_fmap).
    simpl in Hd. rewrite forallb_Forall_true in Hd. revert Hd IH. clear. induction bs as [|b bs IHbs]; [done|].
    rewrite !Forall_cons. intros [Hd1 Hd2] [H1 H2]. rewrite fmap_cons. cbn [List.filter]. rewrite IHbs by done.
    assert (bool_decide (check (Obj (compile_value b)) v path = []) = accepts_value b v) as ->; [|by destruct (accepts_value b v)].
    destruct (accepts_value b v) eqn:Eb; [apply bool_decide_eq_true_2|apply bool_decide_eq_false_2]; rewrite H1 by done; congruence.
Qed.
End meaning.

Lemma assert_compiled node (P : bool) :
  (supported (Obj node) <-> P = true) ->
  is_ok (result_bind (assert_supported_json_schema (Obj node)) (fun _ => Ok (Obj node) : result Value JsonSchemaError)) = P
  /\ forall schema, result_bind (assert_supported_json_schema (Obj node)) (fun _ => Ok (Obj node) : result Value JsonSchemaError) = Ok schema -> schema = Obj node.
Proof.
  intros H. pose proof (assert_supported_ok (Obj node)) as Ha. rewrite H in Ha.
  destruct (assert_supported_json_schema (Obj node)) as [[]|e]; simpl.
  - split; [symmetry; by apply Ha|]. by intros schema [= <-].
  - split; [|done]. destruct P; [|done]. by assert (Err e = Ok tt) by (by apply Ha).
Qed.

Lemma compiled_schema_accepts (to_string : Value -> string) spec : distinct_names spec = true ->
  is_ok (value_schema_spec_to_json_schema spec) = spec_supported spec
  /\ forall schema, value_schema_spec_to_json_schema spec = Ok schema ->
     forall v path, validate_json_schema_value to_string schema v path = [] <-> accepts_value spec v = true.
Proof.
  intros Hd. unfold value_schema_spec_to_json_schema. cbv zeta.
  destruct (assert_compiled _ _ (compile_supported spec Hd)) as [Hok Hs]. split; [exact Hok|].
  intros schema ->%Hs v path. by apply compile_accepts.
Qed.
Lemma validate_args_accepts (to_string : Value -> string) spec : distinct_names (args_spec spec) = true ->
  forall args, is_ok (validate_args to_string spec args) = forallb (fun np : string * ParameterPropertySpec => spec_supported (pp_spec np.2)) spec
  /\ forall vs, validate_args to_string spec args = Ok vs -> (vs = [] <-> accepts_value (args_spec spec) args = true).
Proof.
  intros Hd args. pose proof (parameter_root_schema spec) as Hr.
  assert (Hnd : NoDup spec.*1 /\ Forall (fun np : string * ParameterPropertySpec => distinct_names (pp_spec np.2) = true) spec).
  { simpl in Hd. apply andb_true_iff in Hd as [H1 H2]. by rewrite bool_decide_eq_true in H1; rewrite forallb_Forall_true in H2. }
  destruct Hnd as [Hnd Hds]. rewrite Forall_forall in Hds.
  assert (Hsup : supported (Obj (parameter_root spec)) <-> forallb (fun np : string * ParameterPropertySpec => spec_supported (pp_spec np.2)) spec = true).
  { rewrite (object_schema_supported _ _ _ _ Hr) by (by intros ps [= <-]). rewrite forallb_Forall_true, !Forall_forall. split.
    - intros H np Hin. specialize (H spec eq_refl). rewrite Forall_forall in H. apply compile_supported; [by apply Hds|by apply H].
    - intros H ps [= <-]. apply Forall_forall. intros np Hin. apply compile_supported; [by apply Hds|by apply H]. }
  destruct (assert_compiled _ _ Hsup) as [Hok Hs]. unfold validate_args, parameter_schema_spec_to_json_schema in *. cbv zeta in *.
  destruct (result_bind _ _) as [schema|e] eqn:E; simpl in *; [|by split].
  split; [done|]. intros vs [= <-]. rewrite (Hs _ eq_refl). apply (object_accepts to_string (mk_annotations None None None None) (Some spec) None); [done|].
  intros ps [= <-]. split; [done|]. intros n p v path Hin. apply compile_accepts. by apply (Hds (n, p)).
Qed.

(** ** Accepting is admitting where the spelling of numbers does not count *)

Lemma f64_eqb_sym a b : f64_eqb a b = f64_eqb b a.
Proof.
  unfold f64_eqb, SFeqb, SFcompare. destruct a as [[]|[]| |[] m e], b as [[]|[]| |[] m' e']; try done;
    rewrite (Z.compare_antisym e e'); destruct (e ?= e')%Z; try done; cbn [CompOpp];
    pose proof (Pos.compare_cont_antisym m m' Eq : CompOpp (PosDef.Pos.compare_cont Eq m m') = PosDef.Pos.compare_cont Eq m' m) as E;
    rewrite <- E; by destruct (PosDef.Pos.compare_cont Eq m m').
Qed.
Lemma fractional_is f n : fractional f = true -> float_is f n = false.
Proof.
  unfold fractional, fract_is_zero, float_is. destruct f as [| | |s m e]; try done. cbn [f64_is_finite andb].
  rewrite negb_true_iff, orb_false_iff. intros [He Hm]. rewrite He. apply bool_decide_eq_false_2. intros E. apply Z.eqb_neq in Hm. apply Hm.
  apply Z.leb_gt in He. assert (2 ^ (- e) <> 0)%Z by (apply Z.pow_nonzero; lia).
  destruct s; [|rewrite E; by apply Z.mod_mul]. replace (Z.pos m) with ((- n) * 2 ^ (- e))%Z by lia. by apply Z.mod_mul.
Qed.
Lemma number_literal_means f v :
  fractional f = true -> value_eqb (f64_to_json f) v = number_means f v /\ value_eqb v (f64_to_json f) = number_means f v.
Proof.
  intros Hf. unfold f64_to_json. assert (f64_is_finite f = true) as -> by (by apply andb_true_iff in Hf as [? _]).
  destruct v as [| |[n|n|g]| | |]; try done; cbn [value_eqb number_eqb number_means]; [by rewrite fractional_is..|]. by rewrite (f64_eqb_sym g f).
Qed.
Lemma integer_literal_means n v :
  plain_numbers v = true -> value_eqb (json_i64 n) v = integer_means n v /\ value_eqb v (json_i64 n) = integer_means n v.
Proof.
  intros Hv. unfold json_i64. destruct v as [| |[k|k|g]| | |]; try (by destruct (0 <=? n)%Z); cbn [plain_numbers integer_means] in *.
  - apply Z.leb_le in Hv. destruct (Z.leb_spec 0 n); cbn [value_eqb number_eqb]; [split; apply bool_decide_ext; lia|].
    rewrite bool_decide_eq_false_2 by lia. done.
  - apply Z.ltb_lt in Hv. destruct (Z.leb_spec 0 n); cbn [value_eqb number_eqb]; [|split; apply bool_decide_ext; lia].
    rewrite bool_decide_eq_false_2 by lia. done.
  - rewrite fractional_is by done. by destruct (0 <=? n)%Z.
Qed.
Lemma string_literal_means s v : value_eqb (Str s) v = string_means s v /\ value_eqb v (Str s) = string_means s v.
Proof. destruct v; try done. cbn. split; apply bool_decide_ext; naive_solver. Qed.
Lemma boolean_literal_means b v : value_eqb (Bool b) v = boolean_means b v /\ value_eqb v (Bool b) = boolean_means b v.
Proof. destruct v; try done. cbn. split; apply bool_decide_ext; naive_solver. Qed.
Lemma literal_means {A} (to_json : A -> Value) means s v :
  (forall a, a ∈ literals s -> value_eqb (to_json a) v = means a v /\ value_eqb v (to_json a) = means a v) ->
  literal_accepted to_json s v = literal_admits means s v.
Proof.
  unfold literals, literal_accepted, literal_admits. intros H. f_equal.
  - destruct (ls_enum s) as [l|]; [|done]. cbn [default] in H. induction l as [|a l IH]; [done|]. cbn [existsb].
    rewrite (proj1 (H a ltac:(set_solver))). f_equal. apply IH. set_solver.
  - destruct (ls_const s) as [a|]; [|done]. apply (H a). cbn. set_solver.
Qed.

Lemma plain_field record k x : plain_numbers (Obj record) = true -> assoc k record = Some x -> plain_numbers x = true.
Proof.
  cbn [plain_numbers]. induction record as [|[k' v'] record IH]; [done|]. cbn [forallb assoc]. rewrite andb_true_iff. intros [H1 H2].
  case_decide; [by intros [= <-]|by apply IH].
Qed.
Lemma forallb_ext_in {A} (p q : A -> bool) l : (forall x, x ∈ l -> p x = q x) -> forallb p l = forallb q l.
Proof. induction l as [|x l IH]; [done|]. intros H. cbn. rewrite H, IH by set_solver. done. Qed.
Lemma existsb_false_in {A} (p : A -> bool) l x : existsb p l = false -> x ∈ l -> p x = false.
Proof. induction l as [|y l IH]; [set_solver|]. cbn. rewrite orb_false_iff. intros [H1 H2] [->|H]%elem_of_cons; [done|by apply IH]. Qed.

Lemma accepts_admits spec v : comparable spec v -> accepts_value spec v = admits_value spec v.
Proof.
  revert v. induction spec as [s|s|s|s|a|a items IH|a props additional IH|a|a bs IH] using Spec_ind'; intros v [Hn Hi];
    cbn [accepts_value admits_value number_literals_fractional integer_literals] in *.
  - f_equal. apply literal_means. intros; apply string_literal_means.
  - f_equal. apply literal_means. rewrite forallb_Forall_true, Forall_forall in Hn. intros f Hf. by apply number_literal_means, Hn.
  - f_equal. apply literal_means. intros n Hin. destruct Hi as [Hi|Hi]; [|by apply integer_literal_means].
    rewrite negb_false_iff in Hi. apply bool_decide_eq_true in Hi. rewrite Hi in Hin. by apply not_elem_of_nil in Hin.
  - f_equal. apply literal_means. intros; apply boolean_literal_means.
  - done.
  - destruct v as [| | | |l|]; try done. destruct items as [s|]; [|done]. apply forallb_ext_in. intros x Hx. apply (IH s eq_refl). split; [done|].
    destruct Hi as [Hi|Hi]; [by left|right]. cbn in Hi. rewrite forallb_Forall_true, Forall_forall in Hi. by apply Hi.
  - destruct v as [| | | | |record]; try done. destruct props as [ps|]; [|done]. f_equal. apply forallb_ext_in. intros np Hnp.
    destruct (assoc np.1 record) as [x|] eqn:E; [|done]. specialize (IH ps eq_refl). rewrite Forall_forall in IH. apply (IH np Hnp).
    rewrite forallb_Forall_true, Forall_forall in Hn. split; [by apply (Hn np)|]. destruct Hi as [Hi|Hi]; [left; by apply (existsb_false_in _ _ np Hi)|right; by eapply plain_field].
  - done.
  - apply bool_decide_ext. assert (E : List.filter (fun b => accepts_value b v) bs = List.filter (fun b => admits_value b v) bs); [|by rewrite E].
    apply List.filter_ext_in. intros b Hb%list_elem_of_In. rewrite Forall_forall in IH. apply (IH b Hb).
    rewrite forallb_Forall_true, Forall_forall in Hn. split; [by apply (Hn b)|]. destruct Hi as [Hi|Hi]; [left; by apply (existsb_false_in _ _ b Hi)|by right].
Qed.

(** C17. A schema spec compiles exactly when it is supported (literals of their
    type, a non-empty enum that holds the const, at least two branches of a
    oneOf), and validating a value against the compiled schema then reports no
    violation exactly on the values the spec means; the same for the implicit
    parameter object and [validate_args].  A spec declares each property name
    once ([distinct_names]).  A literal means its numerical value; the code
    compares how a number is spelled ([1] against [1.0]), so the second half is
    about specs and values where that is the same ([comparable]): the literals
    of number specs are fractions, and where an integer spec has literals the
    integers of the value are written as integers.  [number_enum_rejects_integers]
    and [integer_enum_rejects_floats] show what happens elsewhere. *)
Theorem compiled_schema_means (to_string : Value -> string) :
  (forall spec, distinct_names spec = true ->
    is_ok (value_schema_spec_to_json_schema spec) = spec_supported spec
    /\ forall schema, value_schema_spec_to_json_schema spec = Ok schema ->
       forall v path, comparable spec v -> validate_json_schema_value to_string schema v path = [] <-> admits_value spec v = true)
  /\ (forall spec, distinct_names (args_spec spec) = true ->
    forall args, is_ok (validate_args to_string spec args) = forallb (fun np : string * ParameterPropertySpec => spec_supported (pp_spec np.2)) spec
    /\ forall vs, validate_args to_string spec args = Ok vs -> comparable (args_spec spec) args -> (vs = [] <-> admits_value (args_spec spec) args = true)).
Proof.
  split.
  - intros spec Hd. destruct (compiled_schema_accepts to_string spec Hd) as [Hok Hs]. split; [exact Hok|].
    intros schema E v path Hc. rewrite <- accepts_admits by exact Hc. by apply Hs.
  - intros spec Hd args. destruct (validate_args_accepts to_string spec Hd args) as [Hok Hs]. split; [exact Hok|].
    intros vs E Hc. rewrite <- accepts_admits by exact Hc. by apply Hs.
Qed.

(** A number literal is compared as JSON: the float [1.0] of the spec is not
    the integer [1] a model writes, and the integer [1] of the spec is not a
    [1.0] it writes. *)
Definition demo_one_or_two : ValueSchemaSpec := VS_Number (mk_literal (mk_annotations None None None None) (Some [f64_of_Z 1; f64_of_Z 2]) None).
Definition demo_integer_one : ValueSchemaSpec := VS_Integer (mk_literal (mk_annotations None None None None) (Some [1%Z]) None).
Example number_enum_rejects_integers :
  spec_supported demo_one_or_two = true
  /\ admits_value demo_one_or_two (Num (PosInt 1)) = true
  /\ validate_json_schema_value (fun _ => "") (Obj (compile_value demo_one_or_two)) (Num (PosInt 1)) "" <> []
  /\ validate_json_schema_value (fun _ => "") (Obj (compile_value demo_one_or_two)) (Num (Float (f64_of_Z 1))) "" = [].
Proof. by vm_compute. Qed.
Example integer_enum_rejects_floats :
  spec_supported demo_integer_one = true
  /\ is_integer (Num (Float (f64_of_Z 1))) = true
  /\ admits_value demo_integer_one (Num (Float (f64_of_Z 1))) = true
  /\ validate_json_schema_value (fun _ => "") (Obj (compile_value demo_integer_one)) (Num (Float (f64_of_Z 1))) "" <> [].
Proof. by vm_compute. Qed.

Definition no_annotations : ValueSchemaAnnotations := mk_annotations None None None None.
Definition demo_parameters : ParameterSchemaSpec :=
  [("path", mk_property true (VS_String (mk_literal (mk_annotations (Some "File to read") None None None) None None)));
   ("limit", mk_property false (VS_OneOf no_annotations [VS_Integer (mk_literal no_annotations (Some [10; 20]%Z) None); VS_Null no_annotations]));
   ("lines", mk_property false (VS_Array no_annotations (Some (VS_Object no_annotations
      (Some [("from", mk_property true (VS_Number (mk_literal no_annotations None None)))]) false))))].
Definition demo_args (limit : Z) : Value :=
  Obj [("limit", Num (PosInt limit)); ("lines", Arr [Obj [("from", Num (PosInt 3))]]); ("path", Str "a.rs")].

Lemma compiled_schema_means_witness :
  validate_args (fun _ => "") demo_parameters (demo_args 10) = Ok []
  /\ (exists vs, validate_args (fun _ => "") demo_parameters (demo_args 11) = Ok vs /\ vs <> [])
  /\ is_ok (value_schema_spec_to_json_schema (VS_OneOf no_annotations [VS_Null no_annotations])) = false.
Proof.
  destruct (compiled_schema_means (fun _ => "")) as [Hspec Hargs]. split_and!.
  - destruct (Hargs demo_parameters ltac:(by vm_compute) (demo_args 10)) as [Hok Hv].
    destruct (validate_args (fun _ => "") demo_parameters (demo_args 10)) as [vs|e] eqn:E; [|by vm_compute in E].
    f_equal. apply (Hv vs eq_refl); [split; [|right]; by vm_compute|by vm_compute].
  - destruct (Hargs demo_parameters ltac:(by vm_compute) (demo_args 11)) as [Hok Hv].
    destruct (validate_args (fun _ => "") demo_parameters (demo_args 11)) as [vs|e] eqn:E; [|by vm_compute in E].
    exists vs. split; [done|]. intros ->. destruct (Hv [] eq_refl) as [H _]; [split; [|right]; by vm_compute|]. specialize (H eq_refl). by vm_compute in H.
  - rewrite (proj1 (Hspec (VS_OneOf no_annotations [VS_Null no_annotations]) ltac:(by vm_compute))). by vm_compute.
Defined.
