(* ===== verification/ToolAuthor.v ===== *)
(** The author syntax of schema specs and [define_tool]
    ([crates/dsh/tools/src/schema.rs]): parsing untyped author input,
    projecting specs back, and the execute-time argument gate. *)
From Stdlib Require Import ZArith String Lia.
From Stdlib Require Import Sorting.Sorted Floats.SpecFloat.
From stdpp Require Import base tactics sets list numbers strings pretty.
From S2P Require Import Prelude Json Text JsonSchema ToolSchema.
Open Scope string_scope.
Open Scope list_scope.

(** * Parsing author input *)

Definition AUTHOR_ANNOTATION_KEYS : list string := ["description"; "title"; "default"; "examples"].
Definition author_error {A} (message : string) : result A JsonSchemaError := Err (mk_schema_error [message]).

Definition optional_string (map : list (string * Value)) (key path : string) : result (option string) JsonSchemaError :=
  match assoc key map with
  | None => Ok None
  | Some (Str text) => Ok (Some text)
  | Some _ => author_error (path +:+ "." +:+ key +:+ " must be a string")
  end.
Definition parse_annotations (map : list (string * Value)) (path : string) : result ValueSchemaAnnotations JsonSchemaError :=
  result_bind (optional_string map "description" path) (fun description =>
  result_bind (optional_string map "title" path) (fun title =>
  Ok (mk_annotations description title (assoc "default" map) (assoc "examples" map)))).

Fixpoint assert_author_keys (map : list (string * Value)) (path : string) (allowed : list string) : result unit JsonSchemaError :=
  match map with
  | [] => Ok tt
  | (key, _) :: map' =>
      if negb (in_keys key AUTHOR_ANNOTATION_KEYS) && negb (in_keys key allowed)
      then author_error (path +:+ "." +:+ key +:+ " is not supported by the value schema DSL")
      else assert_author_keys map' path allowed
  end.

Definition parse_enum {A} (parse : Value -> option A) (map : list (string * Value)) (path type_name : string) : result (option (list A)) JsonSchemaError :=
  match assoc "enum" map with
  | None => Ok None
  | Some (Arr ((_ :: _) as entries)) =>
      match mapM parse entries with
      | Some values => Ok (Some values)
      | None => author_error (path +:+ ".enum must be a non-empty array of " +:+ type_name +:+ " values")
      end
  | Some _ => author_error (path +:+ ".enum must be a non-empty array of " +:+ type_name +:+ " values")
  end.
Definition parse_const {A} (parse : Value -> option A) (map : list (string * Value)) (path type_name : string) : result (option A) JsonSchemaError :=
  match assoc "const" map with
  | None => Ok None
  | Some value =>
      match parse value with
      | Some parsed => Ok (Some parsed)
      | None => author_error (path +:+ ".const must be a " +:+ type_name +:+ " value")
      end
  end.
Definition parse_scalar_list {A} (map : list (string * Value)) (path type_name : string) (parse : Value -> option A)
  : result (option (list A) * option A) JsonSchemaError :=
  result_bind (parse_enum parse map path type_name) (fun enum_values =>
  result_bind (parse_const parse map path type_name) (fun const_value => Ok (enum_values, const_value))).

(** [f as i64]: truncation, saturating at the bounds. *)
Definition f64_as_i64 (f : f64) : Z :=
  match f with
  | S754_zero _ | S754_nan => 0
  | S754_infinity s => if s then i64_min else i64_max
  | S754_finite s m e =>
      let z := if (0 <=? e)%Z then (Z.pos m * 2 ^ e)%Z else (Z.pos m / 2 ^ (- e))%Z in
      Z.max i64_min (Z.min i64_max (if s then - z else z))
  end.
Definition parse_integer (v : Value) : option Z :=
  f ← as_f64 v; if fract_is_zero f then Some (f64_as_i64 f) else None.

Definition scalar_spec {A} (make : LiteralSpec A -> ValueSchemaSpec) (type_name : string) (parse : Value -> option A)
  (annotations : ValueSchemaAnnotations) (map : list (string * Value)) (path : string) : result ValueSchemaSpec JsonSchemaError :=
  result_bind (assert_author_keys map path ["type"; "enum"; "const"]) (fun _ =>
  result_bind (parse_scalar_list map path type_name parse) (fun '(enum_values, const_value) =>
  Ok (make (mk_literal annotations enum_values const_value)))).

(** [iter().map(f).collect::<Result<Vec<_>, _>>()]. *)
Definition collect_indexed {A B E} (f : nat -> A -> result B E) : nat -> list A -> result (list B) E :=
  fix go i l := match l with
  | [] => Ok []
  | x :: l' => result_bind (f i x) (fun y => result_bind (go (S i) l') (fun ys => Ok (y :: ys)))
  end.
Definition collect {A B E} (f : A -> result B E) : list A -> result (list B) E :=
  fix go l := match l with
  | [] => Ok []
  | x :: l' => result_bind (f x) (fun y => result_bind (go l') (fun ys => Ok (y :: ys)))
  end.

(** A property's [required] marker, taken off before its spec is parsed. *)
Definition parse_required (record : list (string * Value)) (property_path : string) : result bool JsonSchemaError :=
  match assoc "required" record with
  | None => Ok false
  | Some (Bool true) => Ok true
  | Some _ => author_error (property_path +:+ ".required must be true when present")
  end.

(** The arms of [match type_name]. *)
Inductive AuthorType := AT_Json | AT_Object | AT_Array | AT_String | AT_Number | AT_Integer | AT_Boolean | AT_Null.
Definition author_type (type_name : option string) : option AuthorType :=
  match type_name with
  | None => None
  | Some s =>
      if String.eqb s "json" then Some AT_Json
      else if String.eqb s "object" then Some AT_Object
      else if String.eqb s "array" then Some AT_Array
      else if String.eqb s "string" then Some AT_String
      else if String.eqb s "number" then Some AT_Number
      else if String.eqb s "integer" then Some AT_Integer
      else if String.eqb s "boolean" then Some AT_Boolean
      else if String.eqb s "null" then Some AT_Null
      else None
  end.

(** [ValueSchemaSpec::from_author_value] of [input], or of [input] without its
    [required] key when [bare] is set: that is the [bare] map the property loop
    builds, kept as a flag so that the recursion stays structural (the keys it
    looks under are not [required]; see [from_author_bare]). *)
Fixpoint from_author (bare : bool) (input : Value) (path : string) {struct input} : result ValueSchemaSpec JsonSchemaError :=
  match input with
  | Obj full =>
      let map := if bare then obj_remove "required" full else full in
      result_bind (parse_annotations map path) (fun annotations =>
      if contains_key "oneOf" map then
        result_bind (assert_author_keys map path ["oneOf"; "type"]) (fun _ =>
        if contains_key "type" map then author_error (path +:+ " cannot declare both type and oneOf")
        else with_key "oneOf" (fun one_of => match one_of with
          | Arr entries =>
              result_bind (collect_indexed (fun index branch => from_author false branch (path +:+ ".oneOf[" +:+ pretty index +:+ "]")) 0 entries)
                (fun branches => Ok (VS_OneOf annotations branches))
          | _ => author_error (path +:+ ".oneOf must be an array of at least two value schemas")
          end) (author_error (path +:+ ".oneOf must be an array of at least two value schemas")) full)
      else
        match author_type (assoc "type" map ≫= as_str) with
        | Some AT_Json =>
            result_bind (assert_author_keys map path ["type"]) (fun _ => Ok (VS_Json annotations))
        | Some AT_Object =>
            result_bind (assert_author_keys map path ["type"; "properties"; "additionalProperties"]) (fun _ =>
            match assoc "additionalProperties" map ≫= as_bool with
            | None => author_error (path +:+ ".additionalProperties must be explicitly true or false")
            | Some additional =>
                result_bind (with_key "properties" (fun value =>
                    match value with
                    | Obj properties =>
                        result_bind (collect (fun '(name, property) =>
                            let property_path := path +:+ ".properties." +:+ name in
                            match property with
                            | Obj record =>
                                result_bind (parse_required record property_path) (fun required =>
                                result_bind (from_author true property property_path) (fun spec =>
                                Ok (name, mk_property required spec)))
                            | _ => author_error (property_path +:+ " must be a value schema object")
                            end) properties) (fun ps => Ok (Some ps))
                    | _ => author_error (path +:+ ".properties must be an object of value schemas")
                    end) (Ok None) full)
                  (fun properties => Ok (VS_Object annotations properties additional))
            end)
        | Some AT_Array =>
            result_bind (assert_author_keys map path ["type"; "items"]) (fun _ =>
            result_bind (with_key "items" (fun value => result_bind (from_author false value (path +:+ ".items")) (fun s => Ok (Some s))) (Ok None) full)
              (fun items => Ok (VS_Array annotations items)))
        | Some AT_String => scalar_spec VS_String "string" as_str annotations map path
        | Some AT_Number => scalar_spec VS_Number "number" as_f64 annotations map path
        | Some AT_Integer => scalar_spec VS_Integer "integer" parse_integer annotations map path
        | Some AT_Boolean => scalar_spec VS_Boolean "boolean" as_bool annotations map path
        | Some AT_Null =>
            result_bind (assert_author_keys map path ["type"; "enum"; "const"]) (fun _ => Ok (VS_Null annotations))
        | None => author_error (path +:+ ".type must be string/number/integer/boolean/null/array/object/json, or use oneOf")
        end)
  | _ => author_error (path +:+ " must be a value schema object")
  end.
Definition from_author_value : Value -> string -> result ValueSchemaSpec JsonSchemaError := from_author false.

(** [ParameterSchemaSpec::from_author_value]. *)
Definition parameters_from_author (input : Value) (path : string) : result ParameterSchemaSpec JsonSchemaError :=
  match input with
  | Obj map =>
      collect (fun '(name, property) =>
        let property_path := path +:+ "." +:+ name in
        match property with
        | Obj record =>
            result_bind (parse_required record property_path) (fun required =>
            result_bind (from_author_value (Obj (obj_remove "required" record)) property_path) (fun spec =>
            Ok (name, mk_property required spec)))
        | _ => author_error (property_path +:+ " must be a value schema object")
        end) map
  | _ => author_error (path +:+ " must be an object of value schemas")
  end.

(** * Projecting specs back *)

Definition property_author_map (to_author : ValueSchemaSpec -> list (string * Value)) : ParameterSchemaSpec -> list (string * Value) -> list (string * Value) :=
  fix go spec m := match spec with
  | [] => m
  | (name, property) :: spec' =>
      let node := to_author (pp_spec property) in
      go spec' (obj_insert name (Obj (if pp_required property then obj_insert "required" (Bool true) node else node)) m)
  end.

Fixpoint to_author (spec : ValueSchemaSpec) : list (string * Value) :=
  write_annotations (annotations spec)
    match spec with
    | VS_OneOf _ branches => json_map [("oneOf", Arr ((fun b => Obj (to_author b)) <$> branches))]
    | VS_Json _ => json_map [("type", Str "json")]
    | VS_Object _ properties additional =>
        insert_some "properties" (fun ps => Obj (property_author_map to_author ps [])) properties
          (json_map [("type", Str "object"); ("additionalProperties", Bool additional)])
    | VS_Array _ items => insert_some "items" (fun s => Obj (to_author s)) items (json_map [("type", Str "array")])
    | scalar => scalar_node scalar
    end.
Definition to_author_value (spec : ValueSchemaSpec) : Value := Obj (to_author spec).
Definition parameters_to_author (spec : ParameterSchemaSpec) : Value := Obj (property_author_map to_author spec []).

(** * Round trip *)

(** Specs the author syntax can carry: non-empty literal lists whose literals
    survive JSON, and property names in the order a JSON object keeps. *)
Definition survives {A} `{EqDecision A} (to_json : A -> Value) (parse : Value -> option A) (a : A) : bool := bool_decide (parse (to_json a) = Some a).
Definition literals_survive {A} `{EqDecision A} (to_json : A -> Value) (parse : Value -> option A) (s : LiteralSpec A) : bool :=
  match ls_enum s with Some l => negb (bool_decide (length l = 0)) && forallb (survives to_json parse) l | None => true end
  && match ls_const s with Some a => survives to_json parse a | None => true end.
Fixpoint sorted_names (l : list string) : bool :=
  match l with
  | x :: ((y :: _) as l') => String.ltb x y && sorted_names l'
  | _ => true
  end.
Fixpoint canonical (spec : ValueSchemaSpec) : bool :=
  match spec with
  | VS_String s => literals_survive Str as_str s
  | VS_Number s => literals_survive f64_to_json as_f64 s
  | VS_Integer s => literals_survive json_i64 parse_integer s
  | VS_Boolean s => literals_survive Bool as_bool s
  | VS_Null _ | VS_Json _ => true
  | VS_Array _ items => match items with Some s => canonical s | None => true end
  | VS_Object _ properties _ =>
      match properties with
      | Some ps => sorted_names ps.*1 && forallb (fun np : string * ParameterPropertySpec => canonical (pp_spec np.2)) ps
      | None => true end
  | VS_OneOf _ bs => forallb canonical bs
  end.

(** ** Lemmas *)

(** The flag is the removal of the key. *)
Lemma from_author_bare m path : from_author true (Obj m) path = from_author_value (Obj (obj_remove "required" m)) path.
Proof.
  unfold from_author_value. cbn [from_author].
  assert (Hk : forall R k (some : Value -> R) none, k <> "required" -> with_key k some none (obj_remove "required" m) = with_key k some none m).
  { intros R k some none Hk. by rewrite !with_key_assoc, assoc_obj_remove, decide_False. }
  destruct (parse_annotations _ _) as [a|e]; [|done]. cbn [result_bind].
  destruct (contains_key "oneOf" _).
  { destruct (assert_author_keys _ _ _); [|done]. cbn [result_bind]. by rewrite Hk. }
  destruct (author_type _) as [[]|]; try done.
  all: destruct (assert_author_keys _ _ _); [|done]; cbn [result_bind].
  - destruct (assoc "additionalProperties" _ ≫= as_bool); [|done]. by rewrite Hk.
  - by rewrite Hk.
Qed.

Lemma from_author_properties properties path :
  collect (fun '(name, property) =>
    let property_path := path +:+ "." +:+ name in
    match property with
    | Obj record =>
        result_bind (parse_required record property_path) (fun required =>
        result_bind (from_author true property property_path) (fun spec => Ok (name, mk_property required spec)))
    | _ => author_error (property_path +:+ " must be a value schema object")
    end) properties = parameters_from_author (Obj properties) path.
Proof.
  cbn [parameters_from_author]. induction properties as [|[name property] l IH]; [done|]. cbn [collect]. cbv zeta. rewrite IH.
  destruct property as [| | | | |record]; try done. by rewrite from_author_bare.
Qed.

Lemma assert_author_keys_ok map path allowed :
  (forall k, is_Some (assoc k map) -> k ∈ AUTHOR_ANNOTATION_KEYS \/ k ∈ allowed) -> assert_author_keys map path allowed = Ok tt.
Proof.
  intros H. assert (Hk : Forall (fun k => k ∈ AUTHOR_ANNOTATION_KEYS \/ k ∈ allowed) map.*1).
  { apply Forall_forall. intros k Hin. apply H. by apply assoc_is_Some. }
  clear H. induction map as [|[k v] map IH]; simpl in *; [done|]. apply Forall_cons in Hk as [Hk Hl].
  rewrite <- !in_keys_true in Hk. destruct (in_keys k AUTHOR_ANNOTATION_KEYS), (in_keys k allowed); simpl; try by apply IH.
  by destruct Hk.
Qed.

Lemma collect_indexed_ok {A B E} (f : nat -> A -> result B E) (g : B -> A) i l :
  (forall j b, b ∈ l -> f j (g b) = Ok b) -> collect_indexed f i (g <$> l) = Ok l.
Proof.
  revert i. induction l as [|b l IH]; intros i H; [done|]. rewrite fmap_cons. cbn [collect_indexed].
  rewrite H by set_solver. simpl. rewrite IH by (intros; apply H; set_solver). done.
Qed.
Lemma collect_ok {A B E} (f : A -> result B E) (g : B -> A) l :
  (forall b, b ∈ l -> f (g b) = Ok b) -> collect f (g <$> l) = Ok l.
Proof.
  induction l as [|b l IH]; intros H; [done|]. rewrite fmap_cons. cbn [collect].
  rewrite H by set_solver. simpl. rewrite IH by (intros; apply H; set_solver). done.
Qed.

Lemma sorted_names_strong l : sorted_names l = true -> StronglySorted str_lt l.
Proof.
  intros H. apply Sorted_StronglySorted; [intros x y z; apply transitivity|].
  induction l as [|x [|y l] IH]; [constructor|repeat constructor|]. apply andb_true_iff in H as [Hx H].
  constructor; [by apply IH|]. by constructor.
Qed.
Lemma obj_insert_last k v m : Forall (fun x => str_lt x k) m.*1 -> obj_insert k v m = m ++ [(k, v)].
Proof.
  induction m as [|[x w] m IH]; simpl; [done|]. intros [Hx Hm]%Forall_cons.
  rewrite decide_False by (intros ->; by apply (irreflexivity str_lt) in Hx).
  assert (String.ltb k x = false) as ->; [|by rewrite IH].
  destruct (String.ltb k x) eqn:E; [|done]. exfalso. apply (irreflexivity str_lt k). by transitivity x.
Qed.

Definition property_node (np : string * ParameterPropertySpec) : string * Value :=
  (np.1, Obj (if pp_required np.2 then obj_insert "required" (Bool true) (to_author (pp_spec np.2)) else to_author (pp_spec np.2))).
Lemma property_author_map_sorted ps m :
  StronglySorted str_lt (m.*1 ++ ps.*1) -> property_author_map to_author ps m = m ++ (property_node <$> ps).
Proof.
  revert m. induction ps as [|[n p] ps IH]; intros m Hs; simpl in *; [by rewrite app_nil_r|].
  assert (Hlt : Forall (fun x => str_lt x n) m.*1).
  { apply Forall_forall. intros x Hx. revert Hs Hx. clear. induction (m.*1) as [|y l IHl]; simpl; [set_solver|].
    intros Hs Hx. inversion Hs as [|? ? Hs' Hy]; subst. apply elem_of_cons in Hx as [->|Hx]; [|by apply IHl].
    rewrite Forall_forall in Hy. apply Hy. set_solver. }
  rewrite obj_insert_last by done. rewrite IH.
  - by rewrite <- app_assoc.
  - rewrite fmap_app. simpl. by rewrite <- app_assoc.
Qed.

Lemma survives_mapM {A} `{EqDecision A} (f : A -> Value) parse l :
  forallb (survives f parse) l = true -> mapM parse (f <$> l) = Some l.
Proof.
  rewrite forallb_Forall_true. induction 1 as [|a l Ha _ IH]; [done|]. rewrite fmap_cons. simpl.
  apply bool_decide_eq_true in Ha. by rewrite Ha, IH.
Qed.
Lemma parse_scalar_list_back {A} `{EqDecision A} (f : A -> Value) parse s map path type_name :
  literals_survive f parse s = true ->
  assoc "enum" map = (fun vs => Arr (f <$> vs)) <$> ls_enum s -> assoc "const" map = f <$> ls_const s ->
  parse_scalar_list map path type_name parse = Ok (ls_enum s, ls_const s).
Proof.
  unfold literals_survive, parse_scalar_list, parse_enum, parse_const. intros [He Hc]%andb_true_iff -> ->.
  assert ((match (fun vs => Arr (f <$> vs)) <$> ls_enum s with
    | Some (Arr ((_ :: _) as entries)) => match mapM parse entries with Some values => Ok (Some values)
        | None => author_error (path +:+ ".enum must be a non-empty array of " +:+ type_name +:+ " values") end
    | None => Ok None
    | Some _ => author_error (path +:+ ".enum must be a non-empty array of " +:+ type_name +:+ " values") end) = Ok (ls_enum s)) as ->.
  { destruct (ls_enum s) as [[|a l]|]; [done| |done]. apply andb_true_iff in He as [_ He].
    pose proof (survives_mapM f parse (a :: l) He) as Hm. rewrite fmap_cons in Hm.
    change ((fun vs => Arr (f <$> vs)) <$> Some (a :: l)) with (Some (Arr (f <$> a :: l))). rewrite fmap_cons. cbv iota. by rewrite Hm. }
  destruct (ls_const s) as [c|]; simpl; [|done]. apply bool_decide_eq_true in Hc. by rewrite Hc.
Qed.

Lemma parse_annotations_back a node map path :
  (forall k, assoc k map = assoc k (write_annotations a node)) -> constraint_keys node -> parse_annotations map path = Ok a.
Proof.
  intros Hm Hk. rewrite constraint_keys_assoc in Hk.
  assert (Hnone : forall k, k ∉ CONSTRAINT_KEYWORDS -> assoc k node = None).
  { intros k Hn. destruct (assoc k node) eqn:E; [|done]. exfalso. apply Hn, Hk. by eexists. }
  unfold parse_annotations, optional_string. rewrite !Hm. unfold write_annotations. assoc_keys.
  rewrite !Hnone by (vm_compute; set_solver). destruct a as [[d|] [t|] [df|] [ex|]]; done.
Qed.

(** The author node under its annotations. *)
Definition author_node (spec : ValueSchemaSpec) : list (string * Value) :=
  match spec with
  | VS_OneOf _ branches => json_map [("oneOf", Arr ((fun b => Obj (to_author b)) <$> branches))]
  | VS_Json _ => json_map [("type", Str "json")]
  | VS_Object _ properties additional =>
      insert_some "properties" (fun ps => Obj (property_author_map to_author ps [])) properties
        (json_map [("type", Str "object"); ("additionalProperties", Bool additional)])
  | VS_Array _ items => insert_some "items" (fun s => Obj (to_author s)) items (json_map [("type", Str "array")])
  | scalar => scalar_node scalar
  end.
Lemma to_author_node spec : to_author spec = write_annotations (annotations spec) (author_node spec).
Proof. by destruct spec. Qed.
Lemma author_node_keys spec : constraint_keys (author_node spec).
Proof.
  destruct spec as [s|s|s|s|a|a items|a props b|a|a bs]; simpl; try apply scalar_constraint_keys; unfold json_map; simpl.
  - constraint_keys_tac.
  - destruct items; simpl; constraint_keys_tac.
  - destruct props; simpl; constraint_keys_tac.
  - constraint_keys_tac.
  - constraint_keys_tac.
Qed.

Lemma to_author_required spec : assoc "required" (to_author spec) = None.
Proof.
  rewrite to_author_node, assoc_write_annotations by (vm_compute; set_solver).
  destruct spec as [s|s|s|s|a|a items|a props b|a|a bs]; cbn [author_node scalar_node];
    rewrite ?scalar_keys; unfold json_map; simpl foldl; assoc_keys; done.
Qed.

Definition reads_as (bare : bool) (full : list (string * Value)) (spec : ValueSchemaSpec) : Prop :=
  forall k, assoc k (if bare then obj_remove "required" full else full) = assoc k (to_author spec).
Lemma reads_full bare full spec k :
  reads_as bare full spec -> k ∈ CONSTRAINT_KEYWORDS -> k <> "required" -> assoc k full = assoc k (author_node spec).
Proof.
  intros H Hk Hr. rewrite <- (agree_annotations (annotations spec) (author_node spec) k Hk), <- to_author_node, <- (H k).
  destruct bare; [|done]. by rewrite assoc_obj_remove, decide_False.
Qed.
Lemma reads_map bare full spec k :
  reads_as bare full spec -> k ∈ CONSTRAINT_KEYWORDS ->
  assoc k (if bare then obj_remove "required" full else full) = assoc k (author_node spec).
Proof. intros H Hk. by rewrite (H k), to_author_node, (agree_annotations (annotations spec) (author_node spec) k Hk). Qed.
Lemma reads_annotations bare full spec path :
  reads_as bare full spec -> parse_annotations (if bare then obj_remove "required" full else full) path = Ok (annotations spec).
Proof. intros H. apply (parse_annotations_back _ (author_node spec)); [|apply author_node_keys]. intros k. by rewrite (H k), to_author_node. Qed.
Lemma reads_keys bare full spec path allowed :
  reads_as bare full spec -> (forall k, is_Some (assoc k (author_node spec)) -> k ∈ allowed) ->
  assert_author_keys (if bare then obj_remove "required" full else full) path allowed = Ok tt.
Proof.
  intros H Hk. apply assert_author_keys_ok. intros k Hs. rewrite (H k), to_author_node in Hs.
  destruct (decide (k ∈ AUTHOR_ANNOTATION_KEYS)) as [|Hn]; [by left|right]. apply Hk. by rewrite assoc_write_annotations in Hs.
Qed.

(** A property's node reads as its spec under its [required] marker. *)
Lemma property_node_reads p path :
  let node := if pp_required p then obj_insert "required" (Bool true) (to_author (pp_spec p)) else to_author (pp_spec p) in
  reads_as true node (pp_spec p) /\ parse_required node path = Ok (pp_required p).
Proof.
  pose proof (to_author_required (pp_spec p)) as Hq. unfold reads_as, parse_required. destruct (pp_required p); split.
  - intros k. rewrite assoc_obj_remove, assoc_obj_insert. by case_decide; subst.
  - rewrite assoc_obj_insert. by key_decide.
  - intros k. rewrite assoc_obj_remove. by case_decide; subst.
  - by rewrite Hq.
Qed.

(** The keys of a node written out. *)
Ltac keys_tac :=
  let Hk := fresh "Hk" in
  intros [? Hk]; rewrite ?assoc_insert_some in Hk; simpl in Hk; repeat case_decide; subst;
  first [apply (bool_decide_unpack _); vm_compute; exact I|discriminate Hk|vm_compute in Hk; discriminate Hk].
Lemma scalar_back {A} `{EqDecision A} (make : LiteralSpec A -> ValueSchemaSpec) (f : A -> Value) parse type_name s bare full path :
  author_node (make s) = scalar_author_value f type_name (ls_enum s) (ls_const s) -> annotations (make s) = ls_annotations s ->
  literals_survive f parse s = true -> reads_as bare full (make s) ->
  scalar_spec make type_name parse (ls_annotations s) (if bare then obj_remove "required" full else full) path = Ok (make s).
Proof.
  intros Hn Ha Hl Hr. unfold scalar_spec. rewrite (reads_keys bare full (make s)) by (try done; rewrite Hn; intros k; rewrite scalar_keys; keys_tac). cbn [result_bind].
  rewrite (parse_scalar_list_back f parse s) by (try done; rewrite (reads_map bare full (make s)) by (try done; in_constraints); rewrite Hn, scalar_keys; key_decide; done).
  cbn [result_bind]. by destruct s.
Qed.

Ltac read_keys :=
  repeat match goal with
  | Hr : reads_as ?b ?full ?s |- context [assoc ?k (if ?b then obj_remove "required" ?full else ?full)] =>
      rewrite (reads_map b full s k Hr) by in_constraints
  | Hr : reads_as ?b ?full ?s |- context [assoc ?k ?full] =>
      rewrite (reads_full b full s k Hr); [|in_constraints|discriminate]
  end.

Lemma from_author_back spec bare full path :
  canonical spec = true -> reads_as bare full spec -> from_author bare (Obj full) path = Ok spec.
Proof.
  revert bare full path. induction spec as [s|s|s|s|a|a items IH|a props additional IH|a|a bs IH] using Spec_ind'; intros bare full path Hc Hr.
  all: cbn [from_author]; rewrite (reads_annotations bare full _ path Hr); cbn [result_bind annotations].
  all: unfold contains_key; read_keys; cbn [author_node].
  - cbn [scalar_node]. rewrite !scalar_keys. key_decide. cbn [mbind option_bind as_str]; simpl author_type; cbv iota. by apply (scalar_back VS_String Str as_str).
  - cbn [scalar_node]. rewrite !scalar_keys. key_decide. cbn [mbind option_bind as_str]; simpl author_type; cbv iota. by apply (scalar_back VS_Number f64_to_json as_f64).
  - cbn [scalar_node]. rewrite !scalar_keys. key_decide. cbn [mbind option_bind as_str]; simpl author_type; cbv iota. by apply (scalar_back VS_Integer json_i64 parse_integer).
  - cbn [scalar_node]. rewrite !scalar_keys. key_decide. cbn [mbind option_bind as_str]; simpl author_type; cbv iota. by apply (scalar_back VS_Boolean Bool as_bool).
  - cbn [scalar_node]. unfold json_map. simpl foldl. simpl assoc. key_decide. cbn [mbind option_bind as_str]; simpl author_type; cbv iota.
    rewrite (reads_keys _ _ _ _ _ Hr); [done|]. intros k. simpl. keys_tac.
  - unfold json_map. simpl foldl. assoc_keys. cbn [mbind option_bind as_str]; simpl author_type; cbv iota. rewrite (reads_keys _ _ _ _ _ Hr).
    2: { intros k. cbn [author_node]. keys_tac. }
    cbn [result_bind]. rewrite with_key_assoc. read_keys. cbn [author_node]. unfold json_map. simpl foldl. assoc_keys.
    destruct items as [s|]; [|done]. simpl in Hc. rewrite (IH s eq_refl); [done|done|]. by intros k.
  - unfold json_map. simpl foldl. assoc_keys. cbn [mbind option_bind as_str]; simpl author_type; cbv iota. rewrite (reads_keys _ _ _ _ _ Hr).
    2: { intros k. cbn [author_node]. keys_tac. }
    cbn [result_bind]. rewrite with_key_assoc. read_keys. cbn [author_node]. unfold json_map. simpl foldl. assoc_keys. cbn [mbind option_bind as_bool].
    destruct props as [ps|]; [|done]. simpl in Hc. apply andb_true_iff in Hc as [Hs%sorted_names_strong Hc].
    rewrite property_author_map_sorted by done. rewrite app_nil_l.
    rewrite (collect_ok _ property_node); [done|]. intros [n p] Hin. specialize (IH ps eq_refl). rewrite Forall_forall in IH.
    rewrite forallb_Forall_true, Forall_forall in Hc. unfold property_node. cbn [fst snd]. cbv zeta.
    destruct (property_node_reads p (path +:+ ".properties." +:+ n)) as [Hread ->]. cbn [result_bind]. rewrite (IH (n, p) Hin) by (try done; by apply (Hc (n, p))). by destruct p.
  - cbn [scalar_node]. unfold json_map. simpl foldl. simpl assoc. key_decide. cbn [mbind option_bind as_str]; simpl author_type; cbv iota.
    rewrite (reads_keys _ _ _ _ _ Hr); [done|]. intros k. simpl. keys_tac.
  - unfold json_map. simpl foldl. simpl assoc. key_decide. rewrite (reads_keys _ _ _ _ _ Hr).
    2: { intros k. simpl. keys_tac. }
    cbn [result_bind]. rewrite with_key_assoc. read_keys. cbn [author_node]. unfold json_map. simpl foldl. simpl assoc. key_decide.
    cbv iota. rewrite (collect_indexed_ok _ (fun b => Obj (to_author b))); [done|]. intros j b Hin. rewrite Forall_forall in IH.
    simpl in Hc. rewrite forallb_Forall_true, Forall_forall in Hc. apply (IH b Hin); [by apply Hc|]. by intros k.
Qed.

Lemma property_node_back p path :
  canonical (pp_spec p) = true ->
  let node := if pp_required p then obj_insert "required" (Bool true) (to_author (pp_spec p)) else to_author (pp_spec p) in
  parse_required node path = Ok (pp_required p) /\ from_author true (Obj node) path = Ok (pp_spec p).
Proof.
  intros Hc node. destruct (property_node_reads p path) as [Hr Hp]. split; [exact Hp|]. by apply from_author_back.
Qed.

(** A canonical spec projected to the author syntax parses back to itself,
    at every path; so does a canonical parameter map. *)
Theorem author_roundtrips :
  (forall spec path, canonical spec = true -> from_author_value (to_author_value spec) path = Ok spec)
  /\ (forall ps path, canonical (VS_Object no_annotations (Some ps) true) = true ->
      parameters_from_author (parameters_to_author ps) path = Ok ps).
Proof.
  assert (Hspec : forall spec path, canonical spec = true -> from_author_value (to_author_value spec) path = Ok spec).
  { intros spec path Hc. apply (from_author_back spec false); [done|]. by intros k. }
  split; [exact Hspec|]. intros ps path Hc.
  pose proof (Hspec (VS_Object no_annotations (Some ps) true) "" Hc) as H.
  unfold parameters_to_author. simpl in Hc. apply andb_true_iff in Hc as [Hs%sorted_names_strong Hc].
  rewrite forallb_Forall_true, Forall_forall in Hc. rewrite property_author_map_sorted, app_nil_l by done.
  cbn [parameters_from_author]. apply (collect_ok _ property_node). intros [n p] Hin. unfold property_node. cbn [fst snd]. cbv zeta.
  destruct (property_node_back p (path +:+ "." +:+ n)) as [-> Hb]; [by apply (Hc (n, p))|]. cbn [result_bind].
  rewrite <- from_author_bare, Hb. by destruct p.
Qed.

Definition demo_author : ValueSchemaSpec :=
  VS_Object (mk_annotations (Some "edit") None (Some Null) None)
    (Some [("count", mk_property true (VS_Integer (mk_literal no_annotations (Some [1; -7; 9007199254740992]%Z) (Some 1%Z))));
           ("limits", mk_property false (VS_Array no_annotations (Some (VS_OneOf no_annotations
              [VS_Number (mk_literal no_annotations None (Some (f64_of_Z 3))); VS_Null no_annotations]))));
           ("mode", mk_property true (VS_String (mk_literal no_annotations (Some ["a"; "b"]) None)))]) false.
Lemma author_roundtrips_witness :
  from_author_value (to_author_value demo_author) "schema" = Ok demo_author
  /\ parameters_from_author (parameters_to_author [("x", mk_property true demo_author)]) "parameters" = Ok [("x", mk_property true demo_author)].
Proof.
  destruct author_roundtrips as [Hs Hp]. split; [apply Hs; by vm_compute|apply Hp; by vm_compute].
Defined.

(** Integer literals pass through a float: past [2^53] an odd one comes back as
    its neighbour. *)
Example large_integer_literal_moves :
  from_author_value (to_author_value (VS_Integer (mk_literal no_annotations None (Some 9007199254740993%Z)))) "schema"
    = Ok (VS_Integer (mk_literal no_annotations None (Some 9007199254740992%Z))).
Proof. by vm_compute. Qed.
