(* ===== verification/ToolRegistry.v ===== *)
(** The tool registry, [crates/dsh/tools/src/runtime.rs] up to the pipeline,
    [define_tool] of [schema.rs] and the scoped layers of
    [crates/dsh/scope/src/store.rs]: definitions, registration, restrictions,
    guards, and the view one scope has of the tools.

    Async code is a program [Prog]: steps on the world and on the execution it
    was handed, and, in a waterfall listener, calls of [next]. *)
From Stdlib Require Import ZArith String Lia.
From stdpp Require Import base tactics sets list numbers strings pretty gmap.
From S2P Require Import Prelude Json Text Llm Scope JsonSchema ToolSchema.
Open Scope string_scope.
Open Scope list_scope.
Open Scope keel_scope.

(** * Results *)

Definition TOOL_ABORTED : string := "ABORTED".
Definition TOOL_ABORTED_BEFORE_DISPATCH : string := "ABORTED_BEFORE_DISPATCH".
Definition RUN_CODE_NAME : string := "run_code".

Record ToolErrorInfo := mk_error_info { ei_name : string; ei_code : string }.
Record ToolFailure := mk_failure_detail { tf_message : string; tf_info : option ToolErrorInfo }.

(** The error classes [error_info] knows; any other [anyhow::Error] is its text. *)
Inductive ToolError :=
| TE_NotFound (tool_name : string) (reachable_from : option string)
| TE_Output (tool_name : string) (violations : list string)
| TE_Args (violations : list string)
| TE_Schema (violations : list string)
| TE_Harness (message code : string)
| TE_Other (message : string).

Definition error_message (e : ToolError) : string :=
  match e with
  | TE_NotFound name None => "unknown tool " +:+ dquoted name
  | TE_NotFound name (Some route) => "unknown tool " +:+ dquoted name +:+ ": " +:+ route
  | TE_Output name vs => "tool " +:+ dquoted name +:+ " returned invalid output: " +:+ join "; " vs
  | TE_Args vs => "invalid arguments: " +:+ join "; " vs
  | TE_Schema vs => "unsupported JSON schema: " +:+ join "; " vs
  | TE_Harness message _ => message
  | TE_Other message => message
  end.
Definition error_info (e : ToolError) : option ToolErrorInfo :=
  match e with
  | TE_NotFound _ _ => Some (mk_error_info "ToolNotFoundError" "UNKNOWN_TOOL")
  | TE_Output _ _ => Some (mk_error_info "ToolOutputError" "INVALID_TOOL_OUTPUT")
  | TE_Args _ => Some (mk_error_info "ToolArgsError" INVALID_ARGS)
  | TE_Schema _ => Some (mk_error_info "JsonSchemaError" UNSUPPORTED_SCHEMA)
  | TE_Harness _ code => Some (mk_error_info "HarnessError" code)
  | TE_Other _ => None
  end.

Inductive ToolExecutionResult :=
| TR_Success (value : Value) (content : list ContentBlock) (meta : option Value) (additional_contexts : list Message) (concludes_turn : bool)
| TR_Failure (error : ToolFailure) (content : list ContentBlock) (meta : option Value) (additional_contexts : list Message).

Definition tr_is_error (r : ToolExecutionResult) : bool := match r with TR_Failure _ _ _ _ => true | _ => false end.
Definition tr_content (r : ToolExecutionResult) : list ContentBlock :=
  match r with TR_Success _ c _ _ _ => c | TR_Failure _ c _ _ => c end.
Definition tr_contexts (r : ToolExecutionResult) : list Message :=
  match r with TR_Success _ _ _ x _ => x | TR_Failure _ _ _ x => x end.
Definition tr_value (r : ToolExecutionResult) : option Value := match r with TR_Success v _ _ _ _ => Some v | _ => None end.
Definition tr_error (r : ToolExecutionResult) : option ToolFailure := match r with TR_Failure e _ _ _ => Some e | _ => None end.
Definition tr_meta (r : ToolExecutionResult) : option Value :=
  match r with TR_Success _ _ m _ _ => m | TR_Failure _ _ m _ => m end.
Definition tr_concludes_turn (r : ToolExecutionResult) : bool := match r with TR_Success _ _ _ _ b => b | _ => false end.
Definition tr_with_content (c : list ContentBlock) (r : ToolExecutionResult) : ToolExecutionResult :=
  match r with TR_Success v _ m x b => TR_Success v c m x b | TR_Failure e _ m x => TR_Failure e c m x end.
Definition with_additional_contexts (x : list Message) (r : ToolExecutionResult) : ToolExecutionResult :=
  match r with TR_Success v c m _ b => TR_Success v c m x b | TR_Failure e c m _ => TR_Failure e c m x end.

Definition text_block (text : string) : ContentBlock := CB_Text text.
Definition tool_error_result (e : ToolError) : ToolExecutionResult :=
  TR_Failure (mk_failure_detail (error_message e) (error_info e)) [text_block ("Error: " +:+ error_message e)] None [].
Definition aborted_failure (message code : string) (prior : option ToolExecutionResult) : ToolExecutionResult :=
  TR_Failure (mk_failure_detail message (Some (mk_error_info "AbortError" code))) [text_block ("Error: " +:+ message)] None
    (match prior with Some p => tr_contexts p | None => [] end).
Definition tool_aborted_result (prior : option ToolExecutionResult) : ToolExecutionResult :=
  aborted_failure "tool call aborted" TOOL_ABORTED prior.
Definition tool_aborted_before_dispatch_result (prior : option ToolExecutionResult) : ToolExecutionResult :=
  aborted_failure "tool call aborted before dispatch" TOOL_ABORTED_BEFORE_DISPATCH prior.

(** The serde tag of a content block. *)
Definition block_type_name (b : ContentBlock) : string :=
  match block_type b with
  | BT_Text => "text" | BT_Reasoning => "reasoning" | BT_Image => "image" | BT_ToolCall => "tool-call" | BT_ToolResult => "tool-result"
  end.
Definition failure_message_from_content (content : list ContentBlock) : string :=
  let joined := join (String newline EmptyString)
    ((fun b => match b with CB_Text text => text | other => "[" +:+ block_type_name other +:+ " content]" end) <$> content) in
  if String.eqb joined "" then "tool result blocked by post-execute policy" else joined.

(** * Executions *)

(** A fused signal ([AbortSignal::any]) is the list of its sources. *)
Definition Signal : Type := list Z.
Definition signal_any (a b : Signal) : Signal := a ++ b.

Inductive ToolExecutionMode := EM_Parallel | EM_Exclusive.

Record ExecInner := mk_exec {
  xe_token : Z; xe_call_id : CallId; xe_root_call_id : CallId; xe_name : string; xe_arguments : Value;
  xe_agent : option Z; xe_parent : option Z; xe_caller_signal : Signal;
}.
(** Its cells: the visible signal, whether the body was invoked, whether it
    concludes the turn, the contexts it deferred. *)
Record ExecCells := mk_cells {
  xc_signal : Signal; xc_body_invoked : bool; xc_concludes : bool; xc_deferred : list Message
}.

Section runtime.
Context {W : Type}.

(** What async code the runtime calls may do between its awaits: change the
    world, read and write the public cells of its execution, and, in a
    listener, call [next]. *)
Inductive Prog (N A : Type) :=
| P_Ret (a : A)
| P_World (f : W -> W) (k : W -> ExecCells -> Prog N A)
| P_SetSignal (signal : Signal) (k : Prog N A)
| P_Defer (context : Message) (k : Prog N A)
| P_Conclude (k : Prog N A)
| P_Next (k : N -> Prog N A).

Record St := mk_st { st_world : W; st_cells : ExecCells }.
Definition set_tool_world (f : W -> W) (s : St) : St := mk_st (f (st_world s)) (st_cells s).
Definition set_signal (signal : Signal) (s : St) : St :=
  let c := st_cells s in mk_st (st_world s) (mk_cells signal (xc_body_invoked c) (xc_concludes c) (xc_deferred c)).
Definition defer_context (context : Message) (s : St) : St :=
  let c := st_cells s in mk_st (st_world s) (mk_cells (xc_signal c) (xc_body_invoked c) (xc_concludes c) (xc_deferred c ++ [context])).
Definition conclude_turn (s : St) : St :=
  let c := st_cells s in mk_st (st_world s) (mk_cells (xc_signal c) (xc_body_invoked c) true (xc_deferred c)).
Definition set_body_invoked (s : St) : St :=
  let c := st_cells s in mk_st (st_world s) (mk_cells (xc_signal c) true (xc_concludes c) (xc_deferred c)).

Fixpoint run_prog {N A} (next : St -> N * St) (p : Prog N A) (s : St) : A * St :=
  match p with
  | P_Ret _ _ a => (a, s)
  | P_World _ _ f k => let s := set_tool_world f s in run_prog next (k (st_world s) (st_cells s)) s
  | P_SetSignal _ _ signal k => run_prog next k (set_signal signal s)
  | P_Defer _ _ context k => run_prog next k (defer_context context s)
  | P_Conclude _ _ k => run_prog next k (conclude_turn s)
  | P_Next _ _ k => let '(n, s) := next s in run_prog next (k n) s
  end.
(** A body has no [next]; calling one does nothing. *)
Definition run_body {A} (p : Prog unit A) (s : St) : A * St := run_prog (fun s => (tt, s)) p s.

(** * Definitions *)

Abbreviation ToolExecuteFn := (Value -> ExecInner -> Prog unit (result Value ToolError)).
Abbreviation ToolRenderFn := (Value -> Value -> result (list ContentBlock) string).
Abbreviation ToolMetaFn := (Value -> Value -> result Value string).
Abbreviation ToolFinalizeFn := (ExecInner -> ToolExecutionResult -> option (list ContentBlock)).
Abbreviation ToolGuardFn := (ExecInner -> St -> option string).

Record ToolOutputDefinition := mk_output { od_schema : Value; od_render : ToolRenderFn; od_presentation_meta : option ToolMetaFn }.
(** The presenters ([present_call], [present_result]) only feed a display and
    are left out. *)
Record ToolDefinition := mk_definition {
  td_name : string; td_description : string; td_parameters : list (string * Value); td_output : ToolOutputDefinition;
  td_execute : ToolExecuteFn; td_finalize_content : option ToolFinalizeFn; td_timeout_ms : option f64;
  td_is_concurrency_safe : option (Value -> bool);
}.

(** ** [define_tool] *)

Record DefineToolOptions := mk_options {
  do_name : string; do_description : string; do_parameters : ParameterSchemaSpec; do_output_schema : ValueSchemaSpec;
  do_render : ToolRenderFn; do_presentation_meta : option ToolMetaFn; do_timeout_ms : option f64;
  do_is_concurrency_safe : option (Value -> bool); do_execute : ToolExecuteFn; do_finalize_content : option ToolFinalizeFn
}.
Definition bad_timeout (timeout_ms : option f64) : bool :=
  match timeout_ms with Some t => negb (f64_is_finite t) || f64_leb t f64_zero | None => false end.
Definition schema_error {A} (r : result A JsonSchemaError) : result A ToolError :=
  map_err (fun e => TE_Schema (violations e)) r.

Definition define_tool (to_string : Value -> string) (options : DefineToolOptions) : result ToolDefinition ToolError :=
  if bad_timeout (do_timeout_ms options)
  then Err (TE_Other ("define_tool(" +:+ do_name options +:+ "): timeoutMs must be a positive finite number"))
  else
    let? parameters := schema_error (parameter_schema_spec_to_json_schema (do_parameters options)) in
    let? output_schema := schema_error (value_schema_spec_to_json_schema (do_output_schema options)) in
    let parameters_map := default [] (as_object parameters) in
    let validate := fun args => validate_json_schema_value to_string (Obj parameters_map) args "" in
    let execute : ToolExecuteFn := fun args exec =>
      match validate args with
      | [] => do_execute options args exec
      | vs => P_Ret _ _ (Err (TE_Args vs))
      end in
    let is_concurrency_safe := (fun user args => match validate args with [] => user args | _ => false end) <$> do_is_concurrency_safe options in
    Ok (mk_definition (do_name options) (do_description options) parameters_map
          (mk_output output_schema (do_render options) (do_presentation_meta options))
          execute (do_finalize_content options) (do_timeout_ms options) is_concurrency_safe).

(** * Scoped layers *)

Record CompiledToolRestriction := mk_restriction { rs_allow : option (list string); rs_deny : option (list string) }.
Record ToolLayer := mk_tool_layer {
  tl_tools : NamedEntries ToolDefinition; tl_restrictions : AnonymousEntries CompiledToolRestriction; tl_guards : AnonymousEntries ToolGuardFn
}.
Definition ToolLayer_new : ToolLayer := mk_tool_layer [] AnonymousEntries_new AnonymousEntries_new.
Definition tl_is_empty (l : ToolLayer) : bool :=
  match tl_tools l, an_items (tl_restrictions l), an_items (tl_guards l) with [], [], [] => true | _, _, _ => false end.
Definition layer_admits (name : string) (l : ToolLayer) : bool :=
  forallb (fun filter =>
    match rs_allow filter with Some allow => bool_decide (name ∈ allow) | None => true end
    && match rs_deny filter with Some deny => negb (bool_decide (name ∈ deny)) | None => true end)
    (anonymous_values (tl_restrictions l)).
Fixpoint find_map {A B} (f : A -> option B) (l : list A) : option B :=
  match l with [] => None | x :: l' => match f x with Some b => Some b | None => find_map f l' end end.
Definition layer_guard_reason (exec : ExecInner) (s : St) (l : ToolLayer) : option string :=
  find_map (fun guard => guard exec s) (anonymous_values (tl_guards l)).

(** [ScopedLayers]. *)
Record ToolRuntime := mk_runtime { tr_global : ToolLayer; tr_scoped : gmap Z ToolLayer; tr_max_parallel_sub_calls : Z }.

Definition peek (scope : option ScopeKey) (r : ToolRuntime) : option ToolLayer := key ← scope; tr_scoped r !! key.
(** [chain_layers] with the key of each layer, which is what [Rc::ptr_eq]
    tells apart.  The walk ends ([Scope.scope_chains_end]). *)
Definition tool_chain (parent : gmap Z Z) (scope : option ScopeKey) (r : ToolRuntime) : list (ScopeKey * ToolLayer) :=
  omap (fun key => (fun l => (key, l)) <$> tr_scoped r !! key) (reverse (default [] (scope_chain_of parent scope))).

(** [ScopedLayers::effect]: the layer of the registering scope is created for
    the action and reclaimed if it fails and leaves it empty.  Its undo runs
    when the effect is disposed. *)
Definition layer_effect {A} (scope : option ScopeKey) (action : ToolLayer -> ToolLayer * result A ToolError) (r : ToolRuntime)
    : ToolRuntime * result A ToolError :=
  match scope with
  | None => let '(l, x) := action (tr_global r) in (mk_runtime l (tr_scoped r) (tr_max_parallel_sub_calls r), x)
  | Some key =>
      let existing := tr_scoped r !! key in
      let '(l, x) := action (default ToolLayer_new existing) in
      match x with
      | Ok _ => (mk_runtime (tr_global r) (<[key := l]> (tr_scoped r)) (tr_max_parallel_sub_calls r), x)
      | Err _ =>
          let created := match existing with Some _ => false | None => true end in
          (mk_runtime (tr_global r) (if created && tl_is_empty l then delete key (tr_scoped r) else <[key := l]> (tr_scoped r))
             (tr_max_parallel_sub_calls r), x)
      end
  end.
Definition layer_rollback (scope : option ScopeKey) (undo : ToolLayer -> ToolLayer) (r : ToolRuntime) : ToolRuntime :=
  match scope with
  | None => mk_runtime (undo (tr_global r)) (tr_scoped r) (tr_max_parallel_sub_calls r)
  | Some key =>
      match tr_scoped r !! key with
      | None => r
      | Some l => mk_runtime (tr_global r) (if tl_is_empty (undo l) then delete key (tr_scoped r) else <[key := undo l]> (tr_scoped r))
                    (tr_max_parallel_sub_calls r)
      end
  end.

(** * The view of a scope *)

Record ToolView := mk_view { vw_visible : NamedEntries ToolDefinition; vw_known_names : list string; vw_restrictable_names : list string }.
Definition push_known (known : list string) (name : string) : list string :=
  if bool_decide (name ∈ known) then known else known ++ [name].
Definition inherited_tools (scope : option ScopeKey) (chain : list (ScopeKey * ToolLayer)) (r : ToolRuntime) : NamedEntries ToolDefinition :=
  merge_tables (tl_tools (tr_global r))
    ((fun kl => tl_tools kl.2) <$> base.filter (fun kl : ScopeKey * ToolLayer => ~ (Some kl.1 = scope)) chain).
Definition tool_view (parent : gmap Z Z) (scope : option ScopeKey) (r : ToolRuntime) : ToolView :=
  let chain := tool_chain parent scope r in
  let own := peek scope r in
  let inherited := inherited_tools scope chain r in
  let known := foldl push_known [] inherited.*1 in
  let visible := base.filter (fun e : string * ToolDefinition => forallb (fun kl => layer_admits e.1 kl.2) chain = true) inherited in
  match own with
  | None => mk_view visible known inherited.*1
  | Some own =>
      mk_view (foldl (fun visible e => merge_entry visible e.1 e.2) visible (tl_tools own))
        (foldl push_known known (tl_tools own).*1) inherited.*1
  end.
Definition get_tool (parent : gmap Z Z) (name : string) (scope : option ScopeKey) (r : ToolRuntime) : option ToolDefinition :=
  named_get name (vw_visible (tool_view parent scope r)).
Definition schema_of (d : ToolDefinition) : ToolSchema := mk_tool_schema (td_name d) (td_description d) (td_parameters d).
Definition schemas (parent : gmap Z Z) (scope : option ScopeKey) (r : ToolRuntime) : list ToolSchema :=
  (fun e => schema_of e.2) <$> vw_visible (tool_view parent scope r).
Definition wire_schemas (parent : gmap Z Z) (scope : option ScopeKey) (r : ToolRuntime) : list ToolSchema * list string :=
  let v := tool_view parent scope r in ((fun e => schema_of e.2) <$> vw_visible v, vw_known_names v).
Definition execution_mode (parent : gmap Z Z) (scope : option ScopeKey) (name : string) (arguments : Value) (r : ToolRuntime) : ToolExecutionMode :=
  match get_tool parent name scope r with
  | None => EM_Exclusive
  | Some tool =>
      match td_is_concurrency_safe tool with
      | Some classify => if classify arguments then EM_Parallel else EM_Exclusive
      | None => EM_Exclusive
      end
  end.
Definition guard_reason (parent : gmap Z Z) (scope : option ScopeKey) (exec : ExecInner) (s : St) (r : ToolRuntime) : option string :=
  match layer_guard_reason exec s (tr_global r) with
  | Some reason => Some reason
  | None => key ← scope; find_map (fun kl => layer_guard_reason exec s kl.2) (tool_chain parent (Some key) r)
  end.

(** * Registration *)

Inductive ToolPresentationMode := PM_Native | PM_Code | PM_Both.
Definition ToolRuntime_provide (mode : option ToolPresentationMode) (max_parallel_sub_calls : option Z) : result ToolRuntime ToolError :=
  match default PM_Native mode with
  | PM_Native =>
      let n := default 10%Z max_parallel_sub_calls in
      if (n <? 1)%Z then Err (TE_Other "maxParallelSubCalls must be a positive integer")
      else Ok (mk_runtime ToolLayer_new ∅ n)
  | PM_Code => Err (TE_Other "dsh-tools: mode Code is not implemented in this port — Code Mode needs an embedded JS runtime; use native")
  | PM_Both => Err (TE_Other "dsh-tools: mode Both is not implemented in this port — Code Mode needs an embedded JS runtime; use native")
  end.

Definition duplicate_tool (scope : option ScopeKey) (name : string) : ToolError :=
  TE_Other ("tool " +:+ dquoted name +:+ match scope with
    | Some _ => " is already registered in this scope"
    | None => " is already registered (for a per-agent variant, register through that agent's `agent.ctx` instead)" end).
Definition set_tools t l := mk_tool_layer t (tl_restrictions l) (tl_guards l).
Definition register (scope : option ScopeKey) (definition : ToolDefinition) (r : ToolRuntime) : ToolRuntime * result string ToolError :=
  match schema_error (assert_supported_json_schema (od_schema (td_output definition))) with
  | Err e => (r, Err e)
  | Ok _ =>
      if bad_timeout (td_timeout_ms definition)
      then (r, Err (TE_Other ("tool " +:+ dquoted (td_name definition) +:+ " timeoutMs must be a positive finite number")))
      else if String.eqb (td_name definition) RUN_CODE_NAME
      then (r, Err (TE_Other ("tool name " +:+ dquoted RUN_CODE_NAME +:+ " is reserved for the Code Mode presentation transport and cannot be registered or shadowed")))
      else layer_effect scope (fun l =>
             let '(t, x) := named_insert (duplicate_tool scope) (td_name definition) definition (tl_tools l) in (set_tools t l, x)) r
  end.

Record ToolRestriction := mk_tool_restriction { rt_allow : option (list string); rt_deny : option (list string) }.
Definition set_restrictions t l := mk_tool_layer (tl_tools l) t (tl_guards l).
Definition restrict (parent : gmap Z Z) (scope : option ScopeKey) (filter : ToolRestriction) (r : ToolRuntime) : ToolRuntime * result Z ToolError :=
  match scope with
  | None => (r, Err (TE_Other "tools.restrict() requires a scoped context (agent.ctx): a context-global restriction would mask every agent — deny the tool for the intended agent instead"))
  | Some _ =>
      match rt_allow filter, rt_deny filter with
      | None, None => (r, Err (TE_Other "tools.restrict() with no filter is a no-op: pass allow and/or deny (an empty filter is almost always a materialized-empty-config bug)"))
      | _, _ =>
          let named := default [] (rt_allow filter) ++ default [] (rt_deny filter) in
          if bool_decide (RUN_CODE_NAME ∈ named)
          then (r, Err (TE_Other ("tools.restrict() cannot name reserved Code Mode presentation transport " +:+ dquoted RUN_CODE_NAME +:+ "; restrict end-capability tools instead")))
          else
            let known := vw_restrictable_names (tool_view parent scope r) in
            let unknown := dquoted <$> base.filter (fun name => name ∉ known) named in
            match unknown with
            | [] =>
                layer_effect scope (fun l => let '(t, id) := anonymous_append (mk_restriction (rt_allow filter) (rt_deny filter)) (tl_restrictions l) in
                  (set_restrictions t l, Ok id)) r
            | _ =>
                let plural := if (1 <? length unknown)%nat then "s" else "" in
                let known_text := match sort_by string_leb known with [] => "(none)" | sorted => join ", " sorted end in
                (r, Err (TE_Other ("tools.restrict() names unknown global tool" +:+ plural +:+ " " +:+ join ", " unknown +:+ "; known global tools: " +:+ known_text)))
            end
      end
  end.
Definition set_guards t l := mk_tool_layer (tl_tools l) (tl_restrictions l) t.
Definition register_guard (scope : option ScopeKey) (guard : ToolGuardFn) (r : ToolRuntime) : ToolRuntime * result Z ToolError :=
  layer_effect scope (fun l => let '(t, id) := anonymous_append guard (tl_guards l) in (set_guards t l, Ok id)) r.
Definition dispose_tool (scope : option ScopeKey) (name : string) : ToolRuntime -> ToolRuntime :=
  layer_rollback scope (fun l => set_tools (named_undo name (tl_tools l)) l).
Definition dispose_restriction (scope : option ScopeKey) (id : Z) : ToolRuntime -> ToolRuntime :=
  layer_rollback scope (fun l => set_restrictions (anonymous_undo id (tl_restrictions l)) l).
Definition dispose_guard (scope : option ScopeKey) (id : Z) : ToolRuntime -> ToolRuntime :=
  layer_rollback scope (fun l => set_guards (anonymous_undo id (tl_guards l)) l).

(** * What a scope sees *)

(** Any registrations, restrictions, guards and disposals, by any scopes and
    under any parent links. *)
Inductive ToolOp :=
| TO_Register (scope : option ScopeKey) (definition : ToolDefinition)
| TO_Restrict (parent : gmap Z Z) (scope : option ScopeKey) (filter : ToolRestriction)
| TO_Guard (scope : option ScopeKey) (guard : ToolGuardFn)
| TO_DisposeTool (scope : option ScopeKey) (name : string)
| TO_DisposeRestriction (scope : option ScopeKey) (id : Z)
| TO_DisposeGuard (scope : option ScopeKey) (id : Z).
Definition tool_step (r : ToolRuntime) (op : ToolOp) : ToolRuntime :=
  match op with
  | TO_Register scope d => (register scope d r).1
  | TO_Restrict parent scope filter => (restrict parent scope filter r).1
  | TO_Guard scope guard => (register_guard scope guard r).1
  | TO_DisposeTool scope name => dispose_tool scope name r
  | TO_DisposeRestriction scope id => dispose_restriction scope id r
  | TO_DisposeGuard scope id => dispose_guard scope id r
  end.

(** A registered definition. *)
Definition definition_ok (name : string) (d : ToolDefinition) : Prop :=
  td_name d = name /\ name <> RUN_CODE_NAME /\ supported (od_schema (td_output d)) /\ bad_timeout (td_timeout_ms d) = false.
Definition tool_layer_ok (l : ToolLayer) : Prop :=
  NoDup (tl_tools l).*1 /\ Forall (fun e => definition_ok e.1 e.2) (tl_tools l).
Definition runtime_ok (r : ToolRuntime) : Prop :=
  tool_layer_ok (tr_global r) /\ map_Forall (fun _ l => tool_layer_ok l) (tr_scoped r).

Lemma filter_names_NoDup {V} (P : string * V -> Prop) `{!forall e, Decision (P e)} (t : NamedEntries V) :
  NoDup t.*1 -> NoDup (base.filter P t).*1.
Proof. intros Hnd. eapply sublist_NoDup; [exact Hnd|]. apply fmap_sublist, sublist_filter. Qed.

Lemma tool_layer_new_ok : tool_layer_ok ToolLayer_new.
Proof. split; constructor. Qed.
Lemma layer_effect_ok {A} scope (action : ToolLayer -> ToolLayer * result A ToolError) r :
  runtime_ok r -> (forall l, tool_layer_ok l -> tool_layer_ok (action l).1) -> runtime_ok (layer_effect scope action r).1.
Proof.
  intros [Hg Hs] Ha. unfold layer_effect. destruct scope as [key|].
  - assert (Hl : tool_layer_ok (default ToolLayer_new (tr_scoped r !! key))).
    { destruct (tr_scoped r !! key) as [l|] eqn:E; [by apply (Hs key)|apply tool_layer_new_ok]. }
    specialize (Ha _ Hl). destruct (action _) as [l [x|e]]; simpl in *; split; simpl; try done.
    + by apply map_Forall_insert_2.
    + destruct (_ && _); [by apply map_Forall_delete|by apply map_Forall_insert_2].
  - specialize (Ha _ Hg). by destruct (action _).
Qed.
Lemma layer_rollback_ok scope undo r :
  runtime_ok r -> (forall l, tool_layer_ok l -> tool_layer_ok (undo l)) -> runtime_ok (layer_rollback scope undo r).
Proof.
  intros [Hg Hs] Hu. unfold layer_rollback. destruct scope as [key|]; [|split; simpl; auto].
  destruct (tr_scoped r !! key) as [l|] eqn:E; [|done]. split; simpl; [done|].
  destruct (tl_is_empty _); [by apply map_Forall_delete|]. apply map_Forall_insert_2; [|done]. apply Hu. by apply (Hs key).
Qed.

Lemma register_ok scope d r : runtime_ok r -> runtime_ok (register scope d r).1.
Proof.
  intros Hr. unfold register. destruct (assert_supported_json_schema _) as [[]|e] eqn:Es; simpl; [|done].
  apply assert_supported_ok in Es. destruct (bad_timeout _) eqn:Et; [done|]. destruct (String.eqb_spec (td_name d) RUN_CODE_NAME) as [|Hn]; [done|].
  apply layer_effect_ok; [done|]. intros l [Hnd Hd]. destruct (named_insert _ _ _ _) as [t x] eqn:Ei. simpl.
  pose proof (named_insert_names _ _ _ _ _ _ Ei Hnd) as Hnd'. split; simpl; [done|].
  unfold named_insert in Ei. destruct (existsb _ _); injection Ei as <- <-; [done|].
  apply Forall_app. split; [done|]. by constructor.
Qed.
Lemma restrict_ok parent scope filter r : runtime_ok r -> runtime_ok (restrict parent scope filter r).1.
Proof.
  intros Hr. unfold restrict. destruct scope as [key|]; [|done].
  assert (Hany : forall (named : list string), runtime_ok (if bool_decide (RUN_CODE_NAME ∈ named)
    then (r, Err (TE_Other ("tools.restrict() cannot name reserved Code Mode presentation transport " +:+ dquoted RUN_CODE_NAME +:+ "; restrict end-capability tools instead")))
    else let known := vw_restrictable_names (tool_view parent (Some key) r) in
      let unknown := dquoted <$> base.filter (fun name => name ∉ known) named in
      match unknown with
      | [] => layer_effect (Some key) (fun l => let '(t, id) := anonymous_append (mk_restriction (rt_allow filter) (rt_deny filter)) (tl_restrictions l) in
                (set_restrictions t l, Ok id)) r
      | _ => let plural := if (1 <? length unknown)%nat then "s" else "" in
             let known_text := match sort_by string_leb known with [] => "(none)" | sorted => join ", " sorted end in
             (r, Err (TE_Other ("tools.restrict() names unknown global tool" +:+ plural +:+ " " +:+ join ", " unknown +:+ "; known global tools: " +:+ known_text)))
      end).1).
  { intros named. case_bool_decide; [done|]. cbv zeta. destruct (dquoted <$> _); [|done].
    apply layer_effect_ok; [done|]. intros l Hl. exact Hl. }
  destruct (rt_allow filter), (rt_deny filter); [apply Hany..|exact Hr].
Qed.
Lemma tool_step_ok r op : runtime_ok r -> runtime_ok (tool_step r op).
Proof.
  intros Hr. destruct op as [scope d|parent scope filter|scope guard|scope name|scope id|scope id]; simpl.
  - by apply register_ok.
  - by apply restrict_ok.
  - apply layer_effect_ok; [done|]. intros l Hl. exact Hl.
  - apply layer_rollback_ok; [done|]. intros l [Hnd Hd]. unfold named_undo. split; simpl.
    + by apply filter_names_NoDup.
    + rewrite Forall_forall in Hd. apply Forall_forall. intros e [_ He]%list_elem_of_filter. by apply Hd.
  - apply layer_rollback_ok; [done|]. intros l Hl. exact Hl.
  - apply layer_rollback_ok; [done|]. intros l Hl. exact Hl.
Qed.
Lemma tool_ops_ok ops mode n r : ToolRuntime_provide mode n = Ok r -> runtime_ok (foldl tool_step r ops).
Proof.
  intros Hp. assert (Hr : runtime_ok r).
  { unfold ToolRuntime_provide in Hp. destruct (default _ _); [|done..]. destruct (_ <? _)%Z; [done|]. injection Hp as <-.
    split; [apply tool_layer_new_ok|apply map_Forall_empty]. }
  clear Hp. revert r Hr. induction ops as [|op ops IH]; intros r Hr; simpl; [done|]. by apply IH, tool_step_ok.
Qed.

(** ** The view *)

Lemma named_get_filter {V} (p : string -> bool) (t : list (string * V)) x :
  named_get x (base.filter (fun e => p e.1 = true) t) = if p x then named_get x t else None.
Proof.
  induction t as [|[n v] t IH]; [by destruct (p x)|]. rewrite filter_cons, named_get_cons. cbn [fst].
  destruct (decide (p n = true)) as [Hn|Hn]; [rewrite named_get_cons|]; rewrite IH; case_decide; subst; [|done| |done].
  - by rewrite Hn.
  - apply not_true_iff_false in Hn. by rewrite Hn.
Qed.

Lemma tool_chain_layers parent scope r key l : (key, l) ∈ tool_chain parent scope r -> tr_scoped r !! key = Some l.
Proof.
  unfold tool_chain. rewrite list_elem_of_omap. intros (k & _ & H). destruct (tr_scoped r !! k) eqn:E; [|done]. by injection H as -> ->.
Qed.
Lemma chain_tables_ok parent scope r :
  runtime_ok r -> Forall (fun kl : ScopeKey * ToolLayer => NoDup (tl_tools kl.2).*1) (tool_chain parent scope r).
Proof.
  intros [_ Hs]. apply Forall_forall. intros [key l] Hin%tool_chain_layers. simpl. by destruct (Hs key l Hin).
Qed.

(** The lookup through the chain of layers. *)
Definition chain_sees (parent : gmap Z Z) (scope : option ScopeKey) (r : ToolRuntime) (name : string) : option ToolDefinition :=
  match own ← peek scope r; named_get name (tl_tools own) with
  | Some d => Some d
  | None =>
      if forallb (fun kl => layer_admits name kl.2) (tool_chain parent scope r)
      then nearest name (tl_tools (tr_global r) :: ((fun kl => tl_tools kl.2) <$>
             base.filter (fun kl : ScopeKey * ToolLayer => ~ (Some kl.1 = scope)) (tool_chain parent scope r)))
      else None
  end.

Lemma inherited_get parent scope r name :
  runtime_ok r ->
  named_get name (inherited_tools scope (tool_chain parent scope r) r)
  = nearest name (tl_tools (tr_global r) :: ((fun kl => tl_tools kl.2) <$>
      base.filter (fun kl : ScopeKey * ToolLayer => ~ (Some kl.1 = scope)) (tool_chain parent scope r)))
  /\ NoDup (inherited_tools scope (tool_chain parent scope r) r).*1.
Proof.
  intros Hr. apply merge_tables_get. constructor; [apply Hr|]. apply Forall_fmap, Forall_forall.
  intros kl [_ Hkl]%list_elem_of_filter. pose proof (chain_tables_ok parent scope r Hr) as Hc. rewrite Forall_forall in Hc. by apply Hc.
Qed.

Lemma view_get parent scope r name :
  runtime_ok r -> get_tool parent name scope r = chain_sees parent scope r name /\ NoDup (vw_visible (tool_view parent scope r)).*1.
Proof.
  intros Hr. destruct (inherited_get parent scope r name Hr) as [Hi Hnd]. unfold get_tool, tool_view, chain_sees. cbv zeta.
  set (vis := base.filter (fun e : string * ToolDefinition => forallb (fun kl => layer_admits e.1 kl.2) (tool_chain parent scope r) = true) _).
  assert (Hv : named_get name vis = if forallb (fun kl => layer_admits name kl.2) (tool_chain parent scope r) then
      nearest name (tl_tools (tr_global r) :: ((fun kl => tl_tools kl.2) <$>
        base.filter (fun kl : ScopeKey * ToolLayer => ~ (Some kl.1 = scope)) (tool_chain parent scope r))) else None).
  { etransitivity; [apply (named_get_filter (fun n => forallb (fun kl => layer_admits n kl.2) (tool_chain parent scope r)))|]. by rewrite Hi. }
  assert (Hn : NoDup vis.*1) by by apply filter_names_NoDup.
  destruct (peek scope r) as [own|] eqn:Ho; simpl; [|done].
  assert (Hown : NoDup (tl_tools own).*1).
  { destruct scope as [key|]; [|done]. destruct Hr as [_ Hs]. by destruct (Hs key own Ho). }
  split; [|by apply merge_table_names]. rewrite merge_table_get by done. by destruct (named_get name (tl_tools own)).
Qed.

Lemma nearest_Some {V} x (tables : list (NamedEntries V)) v : nearest x tables = Some v -> exists t, t ∈ tables /\ named_get x t = Some v.
Proof.
  unfold nearest. induction tables as [|t tables IH] using rev_ind; [done|]. rewrite foldl_app. simpl.
  destruct (named_get x t) as [w|] eqn:E.
  - intros [= ->]. exists t. set_solver.
  - intros (t' & Hin & Hg)%IH. exists t'. set_solver.
Qed.
Lemma chain_sees_ok parent scope r name d : runtime_ok r -> chain_sees parent scope r name = Some d -> definition_ok name d.
Proof.
  intros Hr.
  assert (Hin : forall l : ToolLayer, tool_layer_ok l -> named_get name (tl_tools l) = Some d -> definition_ok name d).
  { intros l [Hl1 Hl2] Hg. apply named_get_elem in Hg; [|done]. rewrite Forall_forall in Hl2. apply (Hl2 (name, d) Hg). }
  assert (Hnear : (if forallb (fun kl => layer_admits name kl.2) (tool_chain parent scope r)
      then nearest name (tl_tools (tr_global r) :: ((fun kl => tl_tools kl.2) <$>
             base.filter (fun kl : ScopeKey * ToolLayer => ~ (Some kl.1 = scope)) (tool_chain parent scope r)))
      else None) = Some d -> definition_ok name d).
  { destruct (forallb _ _); [|done]. intros (t & [->|Ht]%elem_of_cons & Hg)%nearest_Some; [apply (Hin (tr_global r)); [apply Hr|done]|].
    apply list_elem_of_fmap in Ht as ([key l] & -> & [_ Hkl]%list_elem_of_filter).
    apply tool_chain_layers in Hkl. destruct Hr as [_ Hs]. apply (Hin l); [by apply (Hs key)|done]. }
  unfold chain_sees. destruct (peek scope r) as [own|] eqn:Ho; simpl; [|exact Hnear].
  destruct (named_get name (tl_tools own)) eqn:Em; [|exact Hnear]. intros [= ->]. apply (Hin own); [|done].
  destruct scope as [key|]; [|done]. destruct Hr as [_ Hs]. by apply (Hs key).
Qed.

(** ** What a scope should see, said by the parent links alone *)

(** Some filter of the layer has an allow list without the name, or a deny list
    with it. *)
Definition restricts (l : ToolLayer) (name : string) : Prop :=
  exists f, f ∈ anonymous_values (tl_restrictions l)
    /\ ((exists allow, rs_allow f = Some allow /\ name ∉ allow) \/ (exists deny, rs_deny f = Some deny /\ name ∈ deny)).
Definition own_definition (r : ToolRuntime) (name : string) (key : ScopeKey) : option ToolDefinition :=
  l ← tr_scoped r !! key; named_get name (tl_tools l).
(** The nearest definition, walking up from a cursor. *)
Inductive inherits (parent : gmap Z Z) (r : ToolRuntime) (name : string) : option ScopeKey -> option ToolDefinition -> Prop :=
| IN_Global : inherits parent r name None (named_get name (tl_tools (tr_global r)))
| IN_Here key d : own_definition r name key = Some d -> inherits parent r name (Some key) (Some d)
| IN_Up key v : own_definition r name key = None -> inherits parent r name (parent !! key) v -> inherits parent r name (Some key) v.
(** The scope or an ancestor restricts the name. *)
Definition restricted (parent : gmap Z Z) (r : ToolRuntime) (name : string) (key : ScopeKey) : Prop :=
  exists k l, rtc (fun a b => parent !! a = Some b) key k /\ tr_scoped r !! k = Some l /\ restricts l name.
Inductive scope_sees (parent : gmap Z Z) (r : ToolRuntime) (name : string) : option ScopeKey -> option ToolDefinition -> Prop :=
| SS_Global : scope_sees parent r name None (named_get name (tl_tools (tr_global r)))
| SS_Own key d : own_definition r name key = Some d -> scope_sees parent r name (Some key) (Some d)
| SS_Restricted key : own_definition r name key = None -> restricted parent r name key -> scope_sees parent r name (Some key) None
| SS_Inherited key v : own_definition r name key = None -> ~ restricted parent r name key ->
    inherits parent r name (parent !! key) v -> scope_sees parent r name (Some key) v.

Lemma forallb_Exists {A} (f : A -> bool) l : forallb f l = false -> exists x, x ∈ l /\ f x = false.
Proof.
  induction l as [|x l IH]; [done|]. cbn. destruct (f x) eqn:E; [|exists x; split; [by left|done]].
  intros (y & Hy & Hf)%IH. exists y. split; [by right|done].
Qed.
Lemma layer_admits_spec name (l : ToolLayer) : if layer_admits name l then ~ restricts l name else restricts l name.
Proof.
  destruct (layer_admits name l) eqn:E; unfold layer_admits in E.
  - intros (f & Hf & Hr). rewrite forallb_forall in E. apply list_elem_of_In, E, andb_true_iff in Hf as [Ha Hd].
    destruct Hr as [(allow & E' & Hn)|(deny & E' & Hn)]; [rewrite E' in Ha|rewrite E' in Hd].
    + by apply bool_decide_eq_true in Ha.
    + apply negb_true_iff, bool_decide_eq_false in Hd. done.
  - apply forallb_Exists in E as (f & Hf & [E|E]%andb_false_iff); exists f; (split; [done|]).
    + destruct (rs_allow f) as [allow|]; [|done]. apply bool_decide_eq_false in E. left. by exists allow.
    + destruct (rs_deny f) as [deny|]; [|done]. apply negb_false_iff, bool_decide_eq_true in E. right. by exists deny.
Qed.

Lemma chain_path fuel parent key chain k :
  chain_from fuel parent (Some key) = Some chain -> (k ∈ chain <-> rtc (fun a b => parent !! a = Some b) key k).
Proof.
  revert key chain. induction fuel as [|fuel IH]; intros key chain; cbn [chain_from]; [done|].
  intros (l & Hl & ->)%fmap_Some. unfold scope_parent_of in Hl. rewrite elem_of_cons. split.
  - intros [->|Hk]; [apply rtc_refl|]. destruct (parent !! key) as [p|] eqn:E; [|destruct fuel; injection Hl as <-; by apply elem_of_nil in Hk].
    eapply rtc_l; [exact E|]. by apply (IH p l).
  - intros Hr. inversion Hr as [|? p ? Hp Hr']; subst; [by left|]. right. rewrite Hp in Hl. by apply (IH p l).
Qed.

Lemma nearest_snoc {V} x (ts : list (NamedEntries V)) t :
  nearest x (ts ++ [t]) = match named_get x t with Some v => Some v | None => nearest x ts end.
Proof. unfold nearest. by rewrite foldl_app. Qed.

Lemma nearest_one {V} x (t : NamedEntries V) : nearest x [t] = named_get x t.
Proof. unfold nearest. cbn. by destruct (named_get x t). Qed.

(** The tables along a chain, farthest first. *)
Definition chain_tables (r : ToolRuntime) (keys : list ScopeKey) : list (NamedEntries ToolDefinition) :=
  omap (fun key => tl_tools <$> tr_scoped r !! key) (reverse keys).
Lemma chain_inherits parent (r : ToolRuntime) name fuel cursor keys :
  chain_from fuel parent cursor = Some keys -> inherits parent r name cursor (nearest name (tl_tools (tr_global r) :: chain_tables r keys)).
Proof.
  revert cursor keys. induction fuel as [|fuel IH]; intros [key|] keys; cbn [chain_from]; [done| | |];
    try (intros [= <-]; change (chain_tables r []) with (@nil (NamedEntries ToolDefinition)); rewrite nearest_one; apply IN_Global).
  intros (l & Hl & ->)%fmap_Some. apply IH in Hl. unfold chain_tables in *. rewrite reverse_cons, omap_app. cbn [omap list_omap].
  destruct (tr_scoped r !! key) as [layer|] eqn:El; cbn [fmap option_fmap option_map].
  - rewrite app_comm_cons, nearest_snoc. destruct (named_get name (tl_tools layer)) as [d|] eqn:Ed.
    + apply IN_Here. unfold own_definition. by rewrite El.
    + apply IN_Up; [unfold own_definition; by rewrite El|done].
  - rewrite app_nil_r. apply IN_Up; [unfold own_definition; by rewrite El|done].
Qed.

Lemma tool_chain_tables scope (r : ToolRuntime) (keys : list ScopeKey) :
  (fun kl : ScopeKey * ToolLayer => tl_tools kl.2) <$> base.filter (fun kl : ScopeKey * ToolLayer => ~ (Some kl.1 = scope))
     (omap (fun key => (fun l => (key, l)) <$> tr_scoped r !! key) keys)
  = omap (fun key => tl_tools <$> tr_scoped r !! key) (base.filter (fun key => ~ (Some key = scope)) keys).
Proof.
  induction keys as [|k keys IH]; [done|]. rewrite filter_cons, list_omap_cons.
  destruct (tr_scoped r !! k) as [l|] eqn:E; cbn [fmap option_fmap option_map].
  - rewrite filter_cons. cbn [fst]. case_decide; [|done]. rewrite fmap_cons, list_omap_cons, E, IH. done.
  - rewrite IH. case_decide; [|done]. by rewrite list_omap_cons, E.
Qed.

Lemma chain_sees_spec parent scope (r : ToolRuntime) name : acyclic parent -> scope_sees parent r name scope (chain_sees parent scope r name).
Proof.
  intros Ha. unfold chain_sees, tool_chain. destruct scope as [key|].
  2: { cbn [peek mbind option_bind]. change (reverse _) with (@nil ScopeKey). cbn [omap list_omap]. cbn [forallb].
       change (base.filter _ []) with (@nil (ScopeKey * ToolLayer)). cbn [fmap list_fmap]. rewrite nearest_one. apply SS_Global. }
  destruct (acyclic_chain parent (Some key) Ha) as (chain & Hc). rewrite Hc. cbn [default from_option peek mbind option_bind].
  change (tr_scoped r !! key ≫= fun own : ToolLayer => named_get name (tl_tools own)) with (own_definition r name key). change (id chain) with chain.
  destruct (own_definition r name key) as [d|] eqn:Eo; [by apply SS_Own|].
  unfold scope_chain_of, chain_fuel in Hc. pose proof (chain_NoDup _ _ _ _ Hc) as Hnd.
  destruct (forallb _ _) eqn:Ef.
  - apply SS_Inherited; [done| |].
    + intros (k & l & Hk & El & Hr). rewrite forallb_forall in Ef. pose proof (layer_admits_spec name l) as Hs.
      assert (layer_admits name l = true) as E; [|by rewrite E in Hs].
      apply (Ef (k, l)). apply list_elem_of_In, list_elem_of_omap. exists k. split; [|by rewrite El]. apply elem_of_reverse. by apply (chain_path _ _ _ _ _ Hc).
    + rewrite tool_chain_tables. cbn [chain_from] in Hc. apply fmap_Some in Hc as (l & Hl & ->).
      apply NoDup_cons in Hnd as [Hk _]. rewrite reverse_cons, filter_app, filter_cons, filter_nil. rewrite decide_False by (intros Hn; by apply Hn). rewrite app_nil_r.
      rewrite filter_all; [exact (chain_inherits parent r name _ _ _ Hl)|].
      intros k Hin [= ->]. rewrite elem_of_reverse in Hin. done.
  - apply SS_Restricted; [done|]. apply forallb_Exists in Ef as ([k l] & (k' & Hk & E)%list_elem_of_omap & Hn).
    apply fmap_Some in E as (l' & El & [= -> ->]). exists k', l'. split_and!; [|done|].
    + apply (chain_path _ _ _ _ _ Hc). by apply elem_of_reverse.
    + pose proof (layer_admits_spec name l') as Hs. cbn in Hn. by rewrite Hn in Hs.
Qed.

(** C36. After any registrations, restrictions, guards and disposals, and under
    parent links without cycles, a scope sees a name exactly as its own layer
    defines it, or else as the nearest of its ancestors does, or the global
    layer, unless its own layer or one of an ancestor restricts the name; every
    name is seen once, under its own name, never the reserved one, and with a
    supported output schema and a usable timeout; the wire schemas are those of
    the visible definitions. *)
Theorem tool_visibility ops mode n r0 parent scope name :
  ToolRuntime_provide mode n = Ok r0 -> acyclic parent ->
  let r := foldl tool_step r0 ops in
  scope_sees parent r name scope (get_tool parent name scope r)
  /\ NoDup (ts_name <$> schemas parent scope r)
  /\ schemas parent scope r = (wire_schemas parent scope r).1
  /\ (forall d, get_tool parent name scope r = Some d -> definition_ok name d /\ schema_of d ∈ schemas parent scope r)
  /\ (get_tool parent name scope r = None -> name ∉ ts_name <$> schemas parent scope r).
Proof.
  intros Hp Ha r. pose proof (tool_ops_ok ops mode n r0 Hp) as Hr. fold r in Hr.
  destruct (view_get parent scope r name Hr) as [Hget Hnd].
  assert (Hdef : forall m d, (m, d) ∈ vw_visible (tool_view parent scope r) -> definition_ok m d).
  { intros m d Hin%named_get_elem; [|done]. destruct (view_get parent scope r m Hr) as [Hs _].
    unfold get_tool in Hs. rewrite Hs in Hin. by eapply chain_sees_ok. }
  assert (Hnames : ts_name <$> schemas parent scope r = (vw_visible (tool_view parent scope r)).*1).
  { unfold schemas. rewrite <- list_fmap_compose. apply list_fmap_ext. intros i [m d] Hi.
    apply list_elem_of_lookup_2, Hdef in Hi. simpl. apply Hi. }
  split_and!; [rewrite Hget; by apply chain_sees_spec|by rewrite Hnames|done| |].
  - intros d Hd. apply named_get_elem in Hd; [|done]. split; [by apply Hdef|]. unfold schemas. apply list_elem_of_fmap. by exists (name, d).
  - rewrite Hnames. intros Hnone ([m d] & -> & Hin)%list_elem_of_fmap. apply named_get_elem in Hin; [|done].
    unfold get_tool in Hnone. simpl in Hnone. congruence.
Qed.
End runtime.

(** * A registry with two scopes *)

Definition demo_tool_body : Value -> ExecInner -> Prog (W := unit) unit (result Value ToolError) := fun args _ => P_Ret _ _ (Ok args).
Definition demo_definition (name description : string) : ToolDefinition (W := unit) :=
  mk_definition name description [] (mk_output (Obj [("type", Str "object")]) (fun _ _ => Ok []) None) demo_tool_body None (Some (f64_of_Z 500)) None.
(** Scope 2 is nested in scope 1: the parent hides [edit] from what it passes
    on, the child brings its own. *)
Definition demo_parents : gmap Z Z := <[2%Z := 1%Z]> ∅.
Definition demo_tool_ops : list (ToolOp (W := unit)) :=
  [TO_Register None (demo_definition "read" "global"); TO_Register None (demo_definition "edit" "global");
   TO_Register None (demo_definition "run_code" "refused"); TO_Restrict demo_parents (Some 1%Z) (mk_tool_restriction None (Some ["edit"]));
   TO_Register (Some 1%Z) (demo_definition "read" "parent"); TO_Register (Some 2%Z) (demo_definition "edit" "child")].
Definition demo_runtime : ToolRuntime (W := unit) := mk_runtime ToolLayer_new ∅ 10.

Lemma demo_parents_acyclic : acyclic demo_parents.
Proof.
  intros key. exists 3. destruct (decide (key = 2%Z)) as [->|H2]; [by eexists|]. cbn. unfold scope_parent_of, demo_parents.
  rewrite lookup_insert_ne by done. by eexists.
Qed.
Lemma tool_visibility_witness :
  let r := foldl tool_step demo_runtime demo_tool_ops in
  td_description <$> get_tool demo_parents "edit" (Some 2%Z) r = Some "child"
  /\ td_description <$> get_tool demo_parents "read" (Some 2%Z) r = Some "parent"
  /\ get_tool demo_parents "edit" (Some 1%Z) r = None
  /\ td_description <$> get_tool demo_parents "edit" None r = Some "global"
  /\ scope_sees demo_parents r "read" (Some 2%Z) (get_tool demo_parents "read" (Some 2%Z) r)
  /\ NoDup (ts_name <$> schemas demo_parents (Some 2%Z) r).
Proof.
  assert (Hp : ToolRuntime_provide (W := unit) None None = Ok demo_runtime) by reflexivity.
  destruct (tool_visibility demo_tool_ops None None demo_runtime demo_parents (Some 2%Z) "read" Hp demo_parents_acyclic) as (H1 & H2 & _).
  cbv zeta in *. split_and!; [by vm_compute..|exact H1|exact H2].
Defined.
