(* ===== verification/ToolPipeline.v ===== *)
(** The tool execution pipeline of [crates/dsh/tools/src/runtime.rs]:
    pre-execute and guards, the around-dispatch waterfall and the body,
    post-execute, finalization and the final notification.

    The registry, the scope links, the approval seam and the aborted signals
    are read from the world at the moment the code reads them; the listeners of
    the three waterfalls and the tool bodies are programs ([Prog]) that may
    change it, the tools of the registry included.  A listener passes on the
    execution it was given. *)
From Stdlib Require Import ZArith String Lia.
From stdpp Require Import base tactics sets list numbers strings gmap.
From S2P Require Import Prelude Json Text Llm Scope JsonSchema ToolSchema ToolRegistry.
Open Scope string_scope.
Open Scope list_scope.
Open Scope keel_scope.

Inductive PreToolDecision := PD_Allow | PD_Deny (reason : string) | PD_Ask (reason : option string).
Inductive PostAcceptReplacement := AR_Content (content : list ContentBlock) | AR_Value (value : Value).
Inductive PostToolDecision :=
| PO_Accept (replace : option PostAcceptReplacement) (additional_contexts : list Message)
| PO_Block (feedback : list ContentBlock) (additional_contexts : list Message).
Definition accept : PostToolDecision := PO_Accept None [].
Inductive ApprovalOutcome := AP_AllowedOnce | AP_Rejected | AP_Cancelled | AP_Unavailable.

Inductive ScheduledToolPreparation :=
| SP_Dispatch
| SP_PostResult (result : ToolExecutionResult)
| SP_FinalResult (result : ToolExecutionResult).
Inductive ScheduledToolDispatch :=
| SD_PostResult (result : ToolExecutionResult)
| SD_FinalResult (result : ToolExecutionResult).

Record ToolExecutionInput := mk_tool_input {
  in_call_id : CallId; in_root_call_id : option CallId; in_name : string; in_arguments : Value;
  in_agent : option Z; in_parent : option Z; in_signal : Signal
}.

Abbreviation ToolFinalizeFn := (ExecInner -> ToolExecutionResult -> option (list ContentBlock)).

Section pipeline.
Context {W : Type}.
(** What the world shows: the registry, the scope links, the approval service,
    whether a signal source is aborted; and the scope an agent's context has. *)
Context (registry_of : W -> ToolRuntime (W := W)) (parent_of : W -> gmap Z Z)
  (approval_of : W -> option (ExecInner -> option string -> Prog (W := W) unit ApprovalOutcome))
  (is_aborted : W -> Z -> bool) (scope_of_agent : Z -> option ScopeKey).
(** The composed listeners of [tools/pre-execute], [tools/execute] and
    [tools/post-execute] for an execution. *)
Context (pre_listeners : ExecInner -> Prog (W := W) PreToolDecision (result PreToolDecision ToolError))
  (around_listeners : ExecInner -> Prog (W := W) ToolExecutionResult (result ToolExecutionResult ToolError))
  (post_listeners : ExecInner -> ToolExecutionResult -> Prog (W := W) PostToolDecision (result PostToolDecision ToolError)).
Context (to_string : Value -> string).

Definition signal_aborted (signal : Signal) (s : St) : bool := existsb (is_aborted (st_world s)) signal.
Definition agent_scope (agent : option Z) : option ScopeKey := a ← agent; scope_of_agent a.
Definition get_at (exec : ExecInner) (s : St) : option ToolDefinition :=
  get_tool (parent_of (st_world s)) (xe_name exec) (agent_scope (xe_agent exec)) (registry_of (st_world s)).

(** The execution, its finalizer, and its cells at the start. *)
Definition create_execution (token : Z) (input : ToolExecutionInput) (w : W) : ExecInner * option ToolFinalizeFn * St :=
  let exec := mk_exec token (in_call_id input) (default (in_call_id input) (in_root_call_id input)) (in_name input) (in_arguments input)
    (in_agent input) (in_parent input) (in_signal input) in
  let s := mk_st w (mk_cells (in_signal input) false false []) in
  (exec, get_at exec s ≫= td_finalize_content, s).
(** [mint_token]. *)
Definition mint_token (next : Z) : Z := u64_succ next.

(** * Stage 1 *)

Definition service_ask (exec : ExecInner) (reason : option string) (s : St) : (option string * bool) * St :=
  match approval_of (st_world s) with
  | None => ((Some (default ("tool " +:+ dquoted (xe_name exec) +:+ " requires approval (not yet supported)") reason), false), s)
  | Some approval =>
      match xe_agent exec with
      | None => ((Some ("tool " +:+ dquoted (xe_name exec) +:+ " requires approval, but the call has no agent to route it through"), false), s)
      | Some _ =>
          let '(outcome, s) := run_body (approval exec reason) s in
          match outcome with
          | AP_AllowedOnce => ((None, false), s)
          | AP_Rejected => ((Some ("the user rejected tool " +:+ dquoted (xe_name exec)), false), s)
          | AP_Cancelled => ((Some ("approval for tool " +:+ dquoted (xe_name exec) +:+ " was cancelled"), true), s)
          | AP_Unavailable => ((Some ("tool " +:+ dquoted (xe_name exec) +:+ " requires approval, but no approval channel is available"), false), s)
          end
      end
  end.

Definition denied_result (reason : string) : ToolExecutionResult :=
  TR_Failure (mk_failure_detail reason None) [text_block ("Error: " +:+ reason)] None [].
Definition guard_at (exec : ExecInner) (s : St) : option string :=
  guard_reason (parent_of (st_world s)) (agent_scope (xe_agent exec)) exec s (registry_of (st_world s)).

Definition prepare_tool (exec : ExecInner) (s : St) : ScheduledToolPreparation * St :=
  if signal_aborted (xe_caller_signal exec) s then (SP_FinalResult (tool_aborted_before_dispatch_result None), s)
  else
    let '(gate, s) := run_prog (fun s => (PD_Allow, s)) (pre_listeners exec) s in
    match gate with
    | Err error => (SP_FinalResult (tool_error_result error), s)
    | Ok gate =>
        let '((deny_reason, approval_cancelled), s) :=
          match gate with
          | PD_Allow => ((None, false), s)
          | PD_Deny reason => ((Some reason, false), s)
          | PD_Ask reason => service_ask exec reason s
          end in
        if signal_aborted (xe_caller_signal exec) s && approval_cancelled
        then (SP_PostResult (tool_aborted_before_dispatch_result None), s)
        else
          match (match deny_reason with Some reason => Some reason | None => guard_at exec s end) with
          | Some reason => (SP_PostResult (denied_result reason), s)
          | None =>
              if signal_aborted (xe_caller_signal exec) s then (SP_PostResult (tool_aborted_before_dispatch_result None), s)
              else (SP_Dispatch, s)
          end
    end.

(** * Stage 2 *)

Definition cancellation_result (s : St (W := W)) (prior : option ToolExecutionResult) : ToolExecutionResult :=
  if xc_body_invoked (st_cells s) then tool_aborted_result prior else tool_aborted_before_dispatch_result prior.

Definition create_success_result (exec : ExecInner) (tool : ToolDefinition (W := W)) (value : Value) (s : St (W := W)) : result ToolExecutionResult ToolError :=
  match validate_json_schema_value to_string (od_schema (td_output tool)) value "value" with
  | (_ :: _) as vs => Err (TE_Output (td_name tool) vs)
  | [] =>
      let? content := map_err (fun e => TE_Output (td_name tool) ["output.render failed: " +:+ e]) (od_render (td_output tool) (xe_arguments exec) value) in
      let? meta := match xe_parent exec, od_presentation_meta (td_output tool) with
        | None, Some project =>
            match project (xe_arguments exec) value with
            | Ok m => Ok (Some m)
            | Err e => Err (TE_Output (td_name tool) ["output.presentationMeta failed: " +:+ e])
            end
        | _, _ => Ok None
        end in
      Ok (TR_Success value content meta [] (xc_concludes (st_cells s)))
  end.

Definition dispatch_tool_body (exec : ExecInner) (s : St) : ToolExecutionResult * St :=
  let wrapper := xc_signal (st_cells s) in
  let fused := signal_any (xe_caller_signal exec) wrapper in
  if signal_aborted fused s then (tool_aborted_before_dispatch_result None, s)
  else
    let s := set_signal fused s in
    let '(outcome, s) :=
      match get_at exec s with
      | None => (Err (TE_NotFound (xe_name exec) None), s)
      | Some tool =>
          let s := set_body_invoked s in
          let '(returned, s) := run_body (td_execute tool (xe_arguments exec) exec) s in
          match returned with
          | Err e => (Err e, s)
          | Ok value =>
              match create_success_result exec tool value s with
              | Err e => (Err e, s)
              | Ok r => (Ok (if signal_aborted fused s then tool_aborted_result (Some r) else r), s)
              end
          end
      end in
    let s := set_signal wrapper s in
    (match outcome with Ok r => r | Err e => tool_error_result e end, s).

Definition normalize_dispatch_result (exec : ExecInner) (r : ToolExecutionResult) (s : St) : result ToolExecutionResult ToolError :=
  match r with
  | TR_Failure _ _ _ _ => Ok r
  | TR_Success value _ _ additional_contexts _ =>
      match get_at exec s with
      | None => Err (TE_NotFound (xe_name exec) None)
      | Some tool =>
          let? normalized := create_success_result exec tool value s in Ok (with_additional_contexts additional_contexts normalized)
      end
  end.

Definition dispatch_tool (exec : ExecInner) (s : St) : ScheduledToolDispatch * St :=
  let '(outcome, s) := run_prog (dispatch_tool_body exec) (around_listeners exec) s in
  match outcome with
  | Err error => (SD_FinalResult (tool_error_result error), s)
  | Ok r =>
      match normalize_dispatch_result exec r s with
      | Err error => (SD_FinalResult (tool_error_result error), s)
      | Ok normalized =>
          let deferred := xc_deferred (st_cells s) in
          let with_contexts := match deferred with
            | [] => normalized
            | _ => with_additional_contexts (deferred ++ tr_contexts normalized) normalized
            end in
          (SD_PostResult (if signal_aborted (xe_caller_signal exec) s && negb (tr_is_error with_contexts)
                          then cancellation_result s (Some with_contexts) else with_contexts), s)
      end
  end.

(** * Stages 3 and 4 *)

Definition post_execute (exec : ExecInner) (r : ToolExecutionResult) (s : St) : result ToolExecutionResult ToolError * St :=
  let '(decision, s) := run_prog (fun s => (accept, s)) (post_listeners exec r) s in
  (let? decision := decision in
   match decision with
   | PO_Block feedback additional_contexts =>
       Ok (TR_Failure (mk_failure_detail (failure_message_from_content feedback) None) feedback None additional_contexts)
   | PO_Accept replace decision_contexts =>
       let contexts := tr_contexts r ++ decision_contexts in
       match replace with
       | None => Ok (with_additional_contexts contexts r)
       | Some (AR_Content content) => Ok (with_additional_contexts contexts (tr_with_content content r))
       | Some (AR_Value value) =>
           if tr_is_error r then Err (TE_Other "tools/post-execute cannot replace the value of a failed result")
           else
             match get_at exec s with
             | None => Err (TE_NotFound (xe_name exec) None)
             | Some tool => let? replaced := create_success_result exec tool value s in Ok (with_additional_contexts contexts replaced)
             end
       end
   end, s).

(** What [finish] answers and what it notifies. *)
Definition finish_tool (exec : ExecInner) (finalizer : option ToolFinalizeFn) (r : ToolExecutionResult) : ToolExecutionResult * list (ExecInner * ToolExecutionResult) :=
  let finalized := match finalizer with
    | Some finalize => match finalize exec r with Some content => tr_with_content content r | None => r end
    | None => r
    end in
  (finalized, [(exec, finalized)]).
Definition finalize (exec : ExecInner) (finalizer : option ToolFinalizeFn) (r : ToolExecutionResult) (s : St)
    : (ToolExecutionResult * list (ExecInner * ToolExecutionResult)) * St :=
  let '(post, s) := post_execute exec r s in
  match post with
  | Ok post =>
      let r := if signal_aborted (xe_caller_signal exec) s && negb (tr_is_error post) then cancellation_result s (Some post) else post in
      (finish_tool exec finalizer r, s)
  | Err error => (finish_tool exec finalizer (tool_error_result error), s)
  end.

Definition execute_tool (token : Z) (input : ToolExecutionInput) (w : W) : (ToolExecutionResult * list (ExecInner * ToolExecutionResult)) * St :=
  let '(exec, finalizer, s) := create_execution token input w in
  let '(preparation, s) := prepare_tool exec s in
  match preparation with
  | SP_Dispatch =>
      let '(outcome, s) := dispatch_tool exec s in
      match outcome with
      | SD_PostResult r => finalize exec finalizer r s
      | SD_FinalResult r => (finish_tool exec finalizer r, s)
      end
  | SP_PostResult r => finalize exec finalizer r s
  | SP_FinalResult r => (finish_tool exec finalizer r, s)
  end.

(** * What the gate lets through *)

(** The call was not cancelled, the listeners allowed it or an approval was
    asked for and granted, and no guard denied it. *)
Definition gate_open (exec : ExecInner) (s0 s1 : St) : Prop :=
  signal_aborted (xe_caller_signal exec) s0 = false
  /\ (exists gate s', run_prog (fun s => (PD_Allow, s)) (pre_listeners exec) s0 = (Ok gate, s')
      /\ ((gate = PD_Allow /\ s1 = s')
          \/ exists reason approval agent, gate = PD_Ask reason /\ approval_of (st_world s') = Some approval
             /\ xe_agent exec = Some agent /\ run_body (approval exec reason) s' = (AP_AllowedOnce, s1)))
  /\ guard_at exec s1 = None
  /\ signal_aborted (xe_caller_signal exec) s1 = false.

Definition invoked (s : St (W := W)) : bool := xc_body_invoked (st_cells s).

Lemma run_prog_invoked {N A} (next : St -> N * St) (p : Prog N A) s :
  (forall s, invoked (next s).2 = invoked s) -> invoked (run_prog next p s).2 = invoked s.
Proof.
  intros Hn. revert s. induction p as [a|f k IH|signal k IH|context k IH|k IH|k IH]; intros s; simpl; try done; try by rewrite IH.
  specialize (Hn s). destruct (next s) as [n s']. by rewrite IH.
Qed.

Lemma prepare_invoked exec s : invoked (prepare_tool exec s).2 = invoked s.
Proof.
  unfold prepare_tool. destruct (signal_aborted _ s); [done|].
  pose proof (run_prog_invoked (fun s => (PD_Allow, s)) (pre_listeners exec) s (fun _ => eq_refl)) as Hp.
  destruct (run_prog _ (pre_listeners exec) s) as [[gate|e] s1]; simpl in *; [|done].
  assert (Hq : invoked (match gate with PD_Allow => ((None, false), s1) | PD_Deny reason => ((Some reason, false), s1)
    | PD_Ask reason => service_ask exec reason s1 end : (option string * bool) * St).2 = invoked s).
  { destruct gate as [|reason|reason]; [done|done|]. unfold service_ask. destruct (approval_of _) as [approval|]; [|done].
    destruct (xe_agent exec); [|done].
    pose proof (run_prog_invoked (fun s => (tt, s)) (approval exec reason) s1 (fun _ => eq_refl)) as Ha. unfold run_body.
    destruct (run_prog _ (approval exec reason) s1) as [[] s2]; simpl in *; congruence. }
  destruct (match gate with PD_Allow => _ | PD_Deny _ => _ | PD_Ask _ => _ end) as [[deny cancelled] s2]. simpl in Hq.
  destruct (_ && cancelled); [done|]. destruct (match deny with Some reason => Some reason | None => guard_at exec s2 end); [done|].
  by destruct (signal_aborted _ s2).
Qed.

(** A preparation either opens the gate or answers a failure. *)
Lemma prepare_cases exec s :
  match prepare_tool exec s with
  | (SP_Dispatch, s1) => gate_open exec s s1
  | (SP_PostResult r, _) | (SP_FinalResult r, _) => tr_is_error r = true
  end.
Proof.
  unfold prepare_tool, gate_open. destruct (signal_aborted _ s) eqn:E0; [done|].
  destruct (run_prog _ (pre_listeners exec) s) as [[gate|e] s1] eqn:Ep; [|done].
  destruct gate as [|reason|reason].
  - rewrite andb_false_r. destruct (guard_at exec s1) eqn:Eg; [done|]. destruct (signal_aborted _ s1) eqn:E1; [done|].
    split_and!; eauto 10.
  - by rewrite andb_false_r.
  - unfold service_ask. destruct (approval_of (st_world s1)) as [approval|] eqn:Ea; [|by rewrite andb_false_r].
    destruct (xe_agent exec) as [agent|] eqn:Eag; [|by rewrite andb_false_r].
    destruct (run_body (approval exec reason) s1) as [[] s2] eqn:Eb; rewrite ?andb_false_r, ?andb_true_r; try done.
    + destruct (guard_at exec s2) eqn:Eg; [done|]. destruct (signal_aborted _ s2) eqn:E2; [done|].
      split_and!; try done. exists (PD_Ask reason), s1. split; [done|]. right. eauto 10.
    + by destruct (signal_aborted _ s2).
Qed.

(** ** Outcomes keep the output contract *)

Definition valid_for (tool : ToolDefinition (W := W)) (r : ToolExecutionResult) : Prop :=
  exists value, tr_value r = Some value /\ validate_json_schema_value to_string (od_schema (td_output tool)) value "value" = [].

Lemma create_success_valid exec tool value s r :
  create_success_result exec tool value s = Ok r -> tr_is_error r = false /\ valid_for tool r.
Proof.
  unfold create_success_result, valid_for. destruct (validate_json_schema_value _ _ _ _) eqn:Ev; [|done].
  intros (content & _ & H)%result_bind_Ok. apply result_bind_Ok in H as (meta & _ & [= <-]). split; [done|]. by exists value.
Qed.
Lemma valid_with_contexts tool x r : valid_for tool (with_additional_contexts x r) <-> valid_for tool r.
Proof. by destruct r. Qed.
Lemma valid_with_content tool c r : valid_for tool (tr_with_content c r) <-> valid_for tool r.
Proof. by destruct r. Qed.
Lemma error_with_contexts x r : tr_is_error (with_additional_contexts x r) = tr_is_error r.
Proof. by destruct r. Qed.
Lemma error_with_content c r : tr_is_error (tr_with_content c r) = tr_is_error r.
Proof. by destruct r. Qed.
Lemma cancelled_error s prior : tr_is_error (cancellation_result s prior) = true.
Proof. unfold cancellation_result. by destruct (xc_body_invoked _). Qed.

(** A dispatched success satisfies the contract of the tool as it is then. *)
Lemma dispatch_valid exec s :
  match dispatch_tool exec s with
  | (SD_PostResult r, s2) => tr_is_error r = true \/ exists tool, get_at exec s2 = Some tool /\ valid_for tool r
  | (SD_FinalResult r, _) => tr_is_error r = true
  end.
Proof.
  unfold dispatch_tool. destruct (run_prog _ (around_listeners exec) s) as [[r|e] s2]; [|done].
  destruct (normalize_dispatch_result exec r s2) as [n|e] eqn:En; [|done].
  set (wc := match xc_deferred (st_cells s2) with [] => n | _ => _ end).
  assert (Hwc : tr_is_error wc = tr_is_error n /\ forall tool, valid_for tool wc <-> valid_for tool n).
  { unfold wc. destruct (xc_deferred _); [done|]. split; [apply error_with_contexts|intros tool; apply valid_with_contexts]. }
  destruct (signal_aborted _ s2 && negb (tr_is_error wc)); [left; apply cancelled_error|].
  destruct r as [value c m x b|]; simpl in En.
  - destruct (get_at exec s2) as [tool|] eqn:Eg; [|done]. apply result_bind_Ok in En as (n' & Hn & [= <-]).
    apply create_success_valid in Hn as [_ Hv]. right. exists tool. split; [done|]. apply Hwc. by apply valid_with_contexts.
  - injection En as <-. left. by rewrite (proj1 Hwc).
Qed.

Lemma post_valid exec r s post s' :
  post_execute exec r s = (Ok post, s') ->
  tr_is_error post = true \/ (tr_is_error r = false /\ ((forall tool, valid_for tool r -> valid_for tool post)
    \/ exists tool, get_at exec s' = Some tool /\ valid_for tool post)).
Proof.
  unfold post_execute. destruct (run_prog _ (post_listeners exec r) s) as [[d|e] s1]; [|done].
  intros [= H <-]. destruct d as [[[content|value]|] x|feedback x]; simpl in H.
  - injection H as <-. rewrite error_with_contexts, error_with_content. destruct (tr_is_error r); [by left|right]. split; [done|]. left.
    intros tool Hv. by apply valid_with_contexts, valid_with_content.
  - destruct (tr_is_error r); [done|]. destruct (get_at exec s1) as [tool|] eqn:Eg; [|done].
    apply result_bind_Ok in H as (n & Hn & [= <-]). apply create_success_valid in Hn as [_ Hv]. right. split; [done|]. right.
    exists tool. split; [done|]. by apply valid_with_contexts.
  - injection H as <-. rewrite error_with_contexts. destruct (tr_is_error r); [by left|right]. split; [done|]. left.
    intros tool Hv. by apply valid_with_contexts.
  - injection H as <-. by left.
Qed.
Lemma post_invoked exec r s : invoked (post_execute exec r s).2 = invoked s.
Proof.
  unfold post_execute. pose proof (run_prog_invoked (fun s => (accept, s)) (post_listeners exec r) s (fun _ => eq_refl)) as H.
  by destruct (run_prog _ (post_listeners exec r) s).
Qed.

Lemma finish_spec exec finalizer r :
  (finish_tool exec finalizer r).2 = [(exec, (finish_tool exec finalizer r).1)]
  /\ tr_is_error (finish_tool exec finalizer r).1 = tr_is_error r
  /\ forall tool, valid_for tool (finish_tool exec finalizer r).1 <-> valid_for tool r.
Proof.
  unfold finish_tool. destruct finalizer as [f|]; simpl; [|done]. destruct (f exec r) as [c|]; simpl; [|done].
  split_and!; [done|apply error_with_content|intros tool; apply valid_with_content].
Qed.

Lemma finalize_spec exec finalizer r s :
  let '((x, notified), s') := finalize exec finalizer r s in
  notified = [(exec, x)] /\ invoked s' = invoked s
  /\ (tr_is_error x = false -> tr_is_error r = false /\ signal_aborted (xe_caller_signal exec) s' = false
      /\ ((forall tool, valid_for tool r -> valid_for tool x) \/ exists tool, get_at exec s' = Some tool /\ valid_for tool x)).
Proof.
  unfold finalize. pose proof (post_invoked exec r s) as Hi. destruct (post_execute exec r s) as [[post|e] s'] eqn:Ep; simpl in Hi.
  - set (y := if signal_aborted (xe_caller_signal exec) s' && negb (tr_is_error post) then cancellation_result s' (Some post) else post).
    destruct (finish_spec exec finalizer y) as (Hn & He & Hv). destruct (finish_tool exec finalizer y) as [x notified]. simpl in *.
    split_and!; [done|done|]. rewrite He. intros Hy. unfold y in *.
    destruct (signal_aborted _ s') eqn:Ea; simpl in *.
    { destruct (tr_is_error post) eqn:Epo; simpl in *; [congruence|]. by rewrite cancelled_error in Hy. }
    destruct (post_valid _ _ _ _ _ Ep) as [Hpe|(Hr & Hp)]; [congruence|]. split_and!; [done|done|].
    destruct Hp as [Hp|(tool & Ht & Hp)]; [left|right; exists tool]; setoid_rewrite Hv; auto.
  - destruct (finish_spec exec finalizer (tool_error_result e)) as (Hn & He & _).
    destruct (finish_tool exec finalizer (tool_error_result e)) as [x notified]. simpl in *. split_and!; [done|done|].
    rewrite He. done.
Qed.

(** C12. However the listeners, guards, approvals, bodies and the registry
    behave, a call ends with one notification of the answer it returns; a body
    was invoked, and a success answered, only after the gate opened; and a
    success is of a call whose caller has not aborted by then, with a value that
    satisfies the output schema of the tool the registry shows after the
    dispatch or the post-execute policy. *)
Theorem tool_execution_gated token input w :
  let '(exec, finalizer, s0) := create_execution token input w in
  let '((r, notified), s) := execute_tool token input w in
  notified = [(exec, r)]
  /\ (invoked s = true -> exists s1, gate_open exec s0 s1)
  /\ (tr_is_error r = false ->
      signal_aborted (xe_caller_signal exec) s = false
      /\ exists s1 tool, gate_open exec s0 s1
         /\ (get_at exec (dispatch_tool exec s1).2 = Some tool \/ get_at exec s = Some tool) /\ valid_for tool r).
Proof.
  unfold execute_tool. destruct (create_execution token input w) as [[exec finalizer] s0] eqn:Ec.
  assert (H0 : invoked s0 = false) by (by injection Ec as _ _ <-). clear Ec.
  pose proof (prepare_cases exec s0) as Hc. pose proof (prepare_invoked exec s0) as Hi.
  destruct (prepare_tool exec s0) as [[|r|r] s1]; simpl in Hi.
  - pose proof (dispatch_valid exec s1) as Hd. destruct (dispatch_tool exec s1) as [[r|r] s2] eqn:Ed.
    + pose proof (finalize_spec exec finalizer r s2) as Hf. destruct (finalize exec finalizer r s2) as [[x notified] s].
      destruct Hf as (Hn & _ & Hx). split_and!; [done|eauto|]. intros He. destruct (Hx He) as (Hr & Ha & Hv).
      split; [done|]. exists s1. rewrite Ed. simpl. destruct Hv as [Hv|(tool & Ht & Hv)]; [|eauto 10].
      destruct Hd as [Hd|(tool & Ht & Hd)]; [congruence|]. exists tool. eauto 10.
    + destruct (finish_spec exec finalizer r) as (Hn & He & _). destruct (finish_tool exec finalizer r) as [x notified].
      simpl in *. split_and!; [done|eauto|]. congruence.
  - pose proof (finalize_spec exec finalizer r s1) as Hf. destruct (finalize exec finalizer r s1) as [[x notified] s].
    destruct Hf as (Hn & Hs & Hx). split_and!; [done|congruence|]. intros He. destruct (Hx He) as (Hr & _). congruence.
  - destruct (finish_spec exec finalizer r) as (Hn & He & _). destruct (finish_tool exec finalizer r) as [x notified].
    simpl in *. split_and!; [done|congruence|]. congruence.
Qed.
End pipeline.

(** * One call, allowed, denied by a guard and cancelled *)

Definition demo_tool_call (ops : list (ToolOp (W := unit))) (aborted : bool) (arguments : Value) : ToolExecutionResult * list (ExecInner * ToolExecutionResult) :=
  (execute_tool (fun _ => foldl tool_step demo_runtime ops) (fun _ => ∅) (fun _ => None) (fun _ _ => aborted) (fun _ => None)
    (fun _ => P_Next _ _ (fun d => P_Ret _ _ (Ok d))) (fun _ => P_Next _ _ (fun r => P_Ret _ _ (Ok r))) (fun _ _ => P_Next _ _ (fun d => P_Ret _ _ (Ok d)))
    (fun _ => "") 1 (mk_tool_input "call" None "read" arguments None None [0%Z]) tt).1.
Example call_allowed : (demo_tool_call demo_tool_ops false (Obj [])).1 = TR_Success (Obj []) [] None [] false.
Proof. reflexivity. Qed.
Example call_denied :
  tr_error (demo_tool_call (demo_tool_ops ++ [TO_Guard None (fun _ _ => Some "no")]) false (Obj [])).1 = Some (mk_failure_detail "no" None).
Proof. reflexivity. Qed.
Example call_invalid_output :
  tr_error (demo_tool_call demo_tool_ops false (Str "x")).1 ≫= tf_info = Some (mk_error_info "ToolOutputError" "INVALID_TOOL_OUTPUT").
Proof. reflexivity. Qed.
Example call_cancelled :
  tr_error (demo_tool_call demo_tool_ops true (Obj [])).1 ≫= tf_info = Some (mk_error_info "AbortError" TOOL_ABORTED_BEFORE_DISPATCH).
Proof. reflexivity. Qed.
