(* ===== verification/FsText.v ===== *)
(** The text side of the filesystem capability: line endings and the literal
    edit of [crates/dsh/fs/src/local.rs].  A string is its UTF-8 bytes; an
    offset of [find] is a byte offset, as in the source. *)
From Stdlib Require Import ZArith String Ascii Lia.
From stdpp Require Import base tactics list numbers strings.
From S2P Require Import Prelude Text.
Open Scope string_scope.
Open Scope list_scope.

(** * Non-overlapping matches *)

(** [s.split(pat)] for a non-empty literal: [skip] bytes of a match are left. *)
Fixpoint split_skip (pat : string) (skip : nat) (s : string) : list string :=
  match s with
  | EmptyString => [EmptyString]
  | String c s' =>
      match skip with
      | S k => split_skip pat k s'
      | O =>
          if starts_with pat s then EmptyString :: split_skip pat (String.length pat - 1) s'
          else match split_skip pat 0 s' with
               | p :: ps => String c p :: ps
               | [] => [String c EmptyString]
               end
      end
  end.
Definition str_split (pat s : string) : list string := split_skip pat 0 s.
(** [s.replace(pat, to)] and [s.matches(pat).count()]. *)
Definition str_replace (pat to s : string) : string := join to (str_split pat s).
Definition match_count (pat s : string) : nat := length (str_split pat s) - 1.

(** * Line endings *)

Definition lf : string := String newline EmptyString.
Definition crlf : string := String carriage_return lf.

Definition normalize_line_endings (content : string) : string := str_replace crlf lf content.

Inductive LineEndings := Lf | Crlf.

Definition detect_line_endings (raw : string) : LineEndings :=
  let sample := chars_take 4096 raw in
  let n_crlf := match_count crlf sample in
  let n_lf := match_count lf sample - n_crlf in
  if (n_lf <? n_crlf)%nat then Crlf else Lf.

Definition restore_line_endings (content : string) (endings : LineEndings) : string :=
  match endings with
  | Lf => content
  | Crlf => str_replace lf crlf (normalize_line_endings content)
  end.

(** * Errors *)

Inductive FsErrorCode :=
| NotFound | NotDirectory | NotText | NotRegularFile | TooLarge | PermissionDenied
| IoError | StaleVersion | NotObserved | AmbiguousEdit | EditNotFound | Aborted.

Definition FsErrorCode_as_str (c : FsErrorCode) : string :=
  match c with
  | NotFound => "FS_NOT_FOUND"
  | NotDirectory => "FS_NOT_DIRECTORY"
  | NotText => "FS_NOT_TEXT"
  | NotRegularFile => "FS_NOT_REGULAR_FILE"
  | TooLarge => "FS_TOO_LARGE"
  | PermissionDenied => "FS_PERMISSION_DENIED"
  | IoError => "FS_IO_ERROR"
  | StaleVersion => "FS_STALE_VERSION"
  | NotObserved => "FS_NOT_OBSERVED"
  | AmbiguousEdit => "FS_AMBIGUOUS_EDIT"
  | EditNotFound => "FS_EDIT_NOT_FOUND"
  | Aborted => "FS_ABORTED"
  end.

Record FsError := mk_fs_error { fe_message : string; fe_code : FsErrorCode }.

(** * The literal edit *)

(** The loop of [count_occurrences]: [rest] is [content[index..]]; every turn
    drops at least the needle, so the length of the content is enough fuel. *)
Fixpoint count_loop (fuel : nat) (needle rest : string) : nat :=
  match fuel with
  | O => 0
  | S fuel =>
      match str_find needle rest with
      | None => 0
      | Some found => S (count_loop fuel needle (str_drop (found + String.length needle) rest))
      end
  end.
Definition count_occurrences (content needle : string) : nat :=
  if String.eqb needle EmptyString then 0 else count_loop (S (String.length content)) needle content.

Definition apply_literal_edit (content old_string new_string : string) (replace_all : bool) (display_path : string)
    : result (string * nat) FsError :=
  let old := normalize_line_endings old_string in
  if String.eqb old EmptyString then Err (mk_fs_error "old_string must be a non-empty string" EditNotFound)
  else
    let new := normalize_line_endings new_string in
    let replacements := count_occurrences content old in
    if (replacements =? 0)%nat then
      Err (mk_fs_error ("old_string was not found in " +:+ dquoted display_path) EditNotFound)
    else if negb replace_all && (1 <? replacements)%nat then
      Err (mk_fs_error
        ("old_string matched " +:+ decimal (Z.of_nat replacements) +:+ " times in " +:+ dquoted display_path +:+
         "; provide a more specific old_string or set replace_all to true") AmbiguousEdit)
    else Ok (str_replace old new content, replacements).

(** The text part of [edit_text]: the basis, the edited text and what is stored. *)
Record FsEditRequest := mk_edit_request { er_old_string : string; er_new_string : string; er_replace_all : bool }.
Definition edit_content (raw : string) (edit : FsEditRequest) (display_path : string)
    : result (string * string * string) FsError :=
  let endings := detect_line_endings raw in
  let content := normalize_line_endings raw in
  (let? (edited, _) := apply_literal_edit content (er_old_string edit) (er_new_string edit) (er_replace_all edit) display_path in
   Ok (content, edited, restore_line_endings edited endings))%keel.

(** * Splitting and replacing *)

Lemma split_skip_drop pat k s : split_skip pat k s = str_split pat (str_drop k s).
Proof.
  revert k. induction s as [|c s IH]; intros k; [by destruct k|].
  destruct k as [|k]; [done|]. cbn [split_skip str_drop]. apply IH.
Qed.

Lemma split_skip_nonempty pat k s : split_skip pat k s <> [].
Proof.
  revert k. induction s as [|c s IH]; intros k; [done|].
  destruct k as [|k]; cbn [split_skip]; [|apply IH].
  destruct (starts_with pat _); [done|]. by destruct (split_skip pat 0 s).
Qed.

Lemma split_match pat s :
  pat <> EmptyString -> starts_with pat s = true -> str_split pat s = EmptyString :: str_split pat (str_drop (String.length pat) s).
Proof.
  intros Hp Hs. destruct s as [|c s]; [destruct pat; done|].
  unfold str_split at 1. cbn [split_skip]. rewrite Hs. f_equal. rewrite split_skip_drop.
  destruct pat as [|d pat]; [done|]. cbn [String.length str_drop]. by rewrite Nat.sub_1_r.
Qed.

Lemma split_step pat c s p ps :
  starts_with pat (String c s) = false -> str_split pat s = p :: ps -> str_split pat (String c s) = String c p :: ps.
Proof. intros Hs E. unfold str_split in *. cbn [split_skip]. by rewrite Hs, E. Qed.

Lemma join_cons_nonempty sep p l : l <> [] -> join sep (p :: l) = p +:+ sep +:+ join sep l.
Proof. by destruct l. Qed.

Lemma join_head sep c p ps : join sep (String c p :: ps) = String c (join sep (p :: ps)).
Proof. destruct ps; [done|]. cbn [join]. by rewrite str_app_cons. Qed.

Lemma replace_nil pat to : str_replace pat to EmptyString = EmptyString.
Proof. done. Qed.

Lemma replace_match pat to s :
  pat <> EmptyString -> starts_with pat s = true ->
  str_replace pat to s = to +:+ str_replace pat to (str_drop (String.length pat) s).
Proof.
  intros. unfold str_replace. rewrite split_match by done. rewrite join_cons_nonempty by apply split_skip_nonempty.
  by rewrite str_app_nil_l.
Qed.

Lemma replace_step pat to c s :
  starts_with pat (String c s) = false -> str_replace pat to (String c s) = String c (str_replace pat to s).
Proof.
  intros. unfold str_replace. destruct (str_split pat s) as [|p ps] eqn:E; [by destruct (split_skip_nonempty pat 0 s)|].
  by rewrite (split_step _ _ _ p ps), join_head.
Qed.


Lemma str_length_ind (P : string -> Prop) :
  (forall s, (forall t, String.length t < String.length s -> P t) -> P s) -> forall s, P s.
Proof.
  intros H s. remember (String.length s) as n eqn:E. revert s E.
  induction (lt_wf n) as [n _ IH]. intros s ->. apply H. intros t Ht. by apply (IH _ Ht).
Qed.

Lemma starts_with_drop p s : starts_with p s = true -> s = p +:+ str_drop (String.length p) s.
Proof. intros (t & ->)%starts_with_spec. by rewrite str_drop_app. Qed.

(** Induction over the matches of a non-empty literal. *)
Lemma match_ind pat (Hp : pat <> EmptyString) (P : string -> Prop) :
  P EmptyString ->
  (forall t, P t -> P (pat +:+ t)) ->
  (forall c t, starts_with pat (String c t) = false -> P t -> P (String c t)) ->
  forall s, P s.
Proof.
  intros H0 Hm Hs s. induction s as [s IH] using str_length_ind.
  destruct s as [|c s]; [done|]. destruct (starts_with pat (String c s)) eqn:E.
  - rewrite (starts_with_drop _ _ E) in IH |- *. apply Hm, IH.
    rewrite str_length_app. destruct pat; [done|]. cbn. lia.
  - apply Hs; [done|]. apply IH. cbn. lia.
Qed.

Lemma starts_with_self_app p t : starts_with p (p +:+ t) = true.
Proof. apply starts_with_spec. by exists t. Qed.

Lemma split_app_match pat t : pat <> EmptyString -> str_split pat (pat +:+ t) = EmptyString :: str_split pat t.
Proof. intros. rewrite split_match by auto using starts_with_self_app. by rewrite str_drop_app. Qed.

Lemma replace_app_match pat to t : pat <> EmptyString -> str_replace pat to (pat +:+ t) = to +:+ str_replace pat to t.
Proof. intros. rewrite replace_match by auto using starts_with_self_app. by rewrite str_drop_app. Qed.

Lemma join_split pat s : pat <> EmptyString -> join pat (str_split pat s) = s.
Proof.
  intros Hp. change (str_replace pat pat s = s).
  induction s as [|t IH|c t E IH] using (match_ind pat Hp); [done| |].
  - by rewrite replace_app_match, IH.
  - by rewrite replace_step, IH.
Qed.

(** No piece of a split holds the literal. *)
Lemma split_pieces_free pat s : pat <> EmptyString -> Forall (fun p => contains pat p = false) (str_split pat s).
Proof.
  intros Hp. induction s as [|t IH|c t E IH] using (match_ind pat Hp).
  - constructor; [|done]. by destruct pat.
  - rewrite split_app_match by done. constructor; [by destruct pat|done].
  - destruct (str_split pat t) as [|p ps] eqn:Es; [by destruct (split_skip_nonempty pat 0 t)|].
    rewrite (split_step _ _ _ p ps) by done. apply Forall_cons in IH as [Hhd IH]. constructor; [|done].
    cbn [contains]. rewrite Hhd, orb_false_r. apply not_true_iff_false. intros (u & Hu)%starts_with_spec.
    apply not_true_iff_false in E. apply E, starts_with_spec.
    assert (exists v, t = p +:+ v) as (v & ->).
    { rewrite <- (join_split pat t), Es by done. destruct ps; [exists EmptyString; by rewrite str_app_nil_r|by eexists]. }
    exists (u +:+ v). by rewrite str_app_assoc, <- Hu, str_app_cons.
Qed.

(** Two adjacent pieces meet only at a leftmost match: no match starts inside
    a piece, even one that would reach over its end. *)
Lemma split_leftmost pat s p ps :
  pat <> EmptyString -> str_split pat s = p :: ps -> forall i, i < String.length p -> starts_with pat (str_drop i s) = false.
Proof.
  intros Hp. revert p ps. induction s as [|t IH|c t E IH] using (match_ind pat Hp); intros p ps.
  - intros [= <- <-] i. cbn. lia.
  - rewrite split_app_match by done. intros [= <- <-] i. cbn. lia.
  - destruct (str_split pat t) as [|q qs] eqn:Es; [by destruct (split_skip_nonempty pat 0 t)|].
    rewrite (split_step _ _ _ q qs) by done. intros [= <- <-] i Hi. destruct i as [|i]; [done|].
    cbn [str_drop]. apply (IH q qs eq_refl). cbn in Hi. lia.
Qed.

Lemma match_count_app pat t : pat <> EmptyString -> match_count pat (pat +:+ t) = S (match_count pat t).
Proof.
  intros. unfold match_count. rewrite split_app_match by done. cbn [length].
  destruct (str_split pat t) eqn:E; [by destruct (split_skip_nonempty pat 0 t)|]. cbn. lia.
Qed.

Lemma match_count_step pat c t : starts_with pat (String c t) = false -> match_count pat (String c t) = match_count pat t.
Proof.
  intros. unfold match_count. destruct (str_split pat t) as [|p ps] eqn:E; [by destruct (split_skip_nonempty pat 0 t)|].
  by rewrite (split_step _ _ _ p ps).
Qed.

(** The search loop counts the matches of the standard library's iterator. *)
Lemma count_loop_step fuel needle c t :
  starts_with needle (String c t) = false -> count_loop (S fuel) needle (String c t) = count_loop (S fuel) needle t.
Proof.
  intros E. cbn [count_loop]. change (str_find needle (String c t)) with
    (if starts_with needle (String c t) then Some 0 else S <$> str_find needle t). rewrite E.
  by destruct (str_find needle t).
Qed.

Lemma count_loop_matches needle fuel s : needle <> EmptyString -> String.length s < fuel -> count_loop fuel needle s = match_count needle s.
Proof.
  intros Hp. revert fuel. induction s as [|t IH|c t E IH] using (match_ind needle Hp); intros fuel Hf;
    (destruct fuel as [|fuel]; [cbn in Hf; lia|]).
  - by destruct needle.
  - rewrite match_count_app by done. cbn [count_loop]. rewrite str_find_self. f_equal. cbn [Nat.add].
    rewrite str_drop_app. apply IH. rewrite str_length_app in Hf. destruct needle; [done|]. cbn in Hf. lia.
  - rewrite count_loop_step, match_count_step by done. apply IH. cbn in Hf. lia.
Qed.

Lemma count_occurrences_matches content needle :
  needle <> EmptyString -> count_occurrences content needle = match_count needle content.
Proof.
  intros. unfold count_occurrences. destruct (String.eqb_spec needle EmptyString); [done|].
  apply count_loop_matches; [done|lia].
Qed.

(** * Line endings *)

(** No [\r] precedes a [\n]; every [\n] follows an [\r]. *)
Definition lf_only (s : string) : bool := negb (contains crlf s).
Fixpoint crlf_after (cr : bool) (s : string) : bool :=
  match s with
  | EmptyString => true
  | String c s' => (negb (Ascii.eqb c newline) || cr) && crlf_after (Ascii.eqb c carriage_return) s'
  end.
Definition crlf_only (s : string) : bool := crlf_after false s.

Lemma crlf_ne : crlf <> EmptyString. Proof. done. Qed.
Lemma lf_ne : lf <> EmptyString. Proof. done. Qed.
#[local] Hint Resolve crlf_ne lf_ne : core.

Lemma starts_with_lf c s : starts_with lf (String c s) = Ascii.eqb c newline.
Proof.
  cbn [starts_with lf]. destruct (ascii_dec newline c) as [<-|]; [by rewrite Ascii.eqb_refl|].
  symmetry. apply Ascii.eqb_neq. congruence.
Qed.

Lemma starts_with_crlf c s :
  starts_with crlf (String c s) = Ascii.eqb c carriage_return && match s with String d _ => Ascii.eqb d newline | _ => false end.
Proof.
  cbn [starts_with crlf]. destruct (ascii_dec carriage_return c) as [<-|]; [rewrite Ascii.eqb_refl|].
  - destruct s as [|d s]; [done|]. by rewrite starts_with_lf.
  - replace (Ascii.eqb c carriage_return) with false; [done|]. symmetry. apply Ascii.eqb_neq. congruence.
Qed.

Lemma normalize_lf_only s : lf_only s = true -> normalize_line_endings s = s.
Proof.
  unfold lf_only. rewrite negb_true_iff. unfold normalize_line_endings.
  induction s as [|c s IH]; [done|]. cbn [contains]. intros [E H]%orb_false_iff. by rewrite replace_step, IH.
Qed.

(** Restoring to CRLF and normalizing again is the identity on any text. *)
Lemma normalize_to_crlf t : normalize_line_endings (str_replace lf crlf t) = t.
Proof.
  unfold normalize_line_endings. induction t as [|t IH|c t E IH] using (match_ind lf lf_ne); [done| |].
  - rewrite replace_app_match, replace_app_match, IH by done. done.
  - rewrite (replace_step lf crlf) by done. rewrite replace_step; [by rewrite IH|].
    rewrite starts_with_crlf. destruct (str_replace lf crlf t) as [|d u] eqn:Ed; [by rewrite andb_false_r|].
    apply andb_false_iff. right. destruct t as [|e t]; [done|].
    destruct (starts_with lf (String e t)) eqn:Ee.
    + rewrite replace_match in Ed by done. change (crlf +:+ ?x) with (String carriage_return (lf +:+ x)) in Ed.
      by injection Ed as <- _.
    + rewrite replace_step in Ed by done. injection Ed as <- _. by rewrite <- (starts_with_lf e t).
Qed.

Lemma to_crlf_normalize s : crlf_only s = true -> str_replace lf crlf (normalize_line_endings s) = s.
Proof.
  unfold normalize_line_endings, crlf_only.
  induction s as [|t IH|c t E IH] using (match_ind crlf crlf_ne); [done| |].
  - intros H. rewrite replace_app_match by done. change (crlf_after false t = true) in H.
    rewrite replace_app_match by done. by rewrite IH.
  - cbn [crlf_after]. rewrite orb_false_r. intros [Hc Ht]%andb_true_iff.
    rewrite replace_step by done. rewrite replace_step, IH; [done| |by rewrite starts_with_lf, <- negb_true_iff].
    rewrite starts_with_crlf in E. destruct (Ascii.eqb c carriage_return); [|done].
    destruct t as [|d t]; [done|]. cbn [andb] in E. cbn [crlf_after] in *. by rewrite E in *.
Qed.

Lemma replace_lf_app to a b : str_replace lf to (a +:+ b) = str_replace lf to a +:+ str_replace lf to b.
Proof.
  induction a as [|t IH|c t E IH] using (match_ind lf lf_ne); [done| |].
  - rewrite <- str_app_assoc, !replace_app_match by done. by rewrite IH, <- str_app_assoc.
  - rewrite str_app_cons, !replace_step; [by rewrite IH, str_app_cons|done|].
    rewrite starts_with_lf in *. done.
Qed.

Lemma replace_lf_join to sep l : str_replace lf to (join sep l) = join (str_replace lf to sep) (str_replace lf to <$> l).
Proof.
  induction l as [|p [|q l] IH]; [done..|]. rewrite fmap_cons, !join_cons_nonempty by done.
  by rewrite !replace_lf_app, IH.
Qed.

Lemma contains_app_l n a b : contains n a = true -> contains n (a +:+ b) = true.
Proof. rewrite !contains_spec. intros (x & y & ->). exists x, (y +:+ b). by rewrite <- !str_app_assoc. Qed.

Lemma match_count_zero pat s : pat <> EmptyString -> contains pat s = false -> match_count pat s = 0.
Proof.
  intros Hp. induction s as [|t IH|c t E IH] using (match_ind pat Hp); [done| |].
  - intros H. rewrite (contains_app_l pat pat t) in H; [done|]. apply contains_spec. exists EmptyString, EmptyString.
    by rewrite str_app_nil_r.
  - cbn [contains]. rewrite E. intros H. by rewrite match_count_step, IH.
Qed.

Lemma match_count_pos pat s : pat <> EmptyString -> contains pat s = true -> 0 < match_count pat s.
Proof.
  intros Hp. induction s as [|t IH|c t E IH] using (match_ind pat Hp).
  - destruct pat; [done|discriminate].
  - rewrite match_count_app by done. lia.
  - cbn [contains]. rewrite E, match_count_step by done. done.
Qed.

Lemma crlf_after_prefix cr a b : crlf_after cr (a +:+ b) = true -> crlf_after cr a = true.
Proof.
  revert cr. induction a as [|c a IH]; intros cr; [done|]. rewrite str_app_cons. cbn [crlf_after].
  rewrite !andb_true_iff. intros [? ?]. eauto.
Qed.

Lemma crlf_only_counts s : crlf_only s = true -> match_count crlf s = match_count lf s.
Proof.
  unfold crlf_only. induction s as [|t IH|c t E IH] using (match_ind crlf crlf_ne); [done| |].
  - intros H. change (crlf_after false t = true) in H. rewrite match_count_app by done.
    change (crlf +:+ t) with (String carriage_return (lf +:+ t)).
    rewrite match_count_step, match_count_app by done. by rewrite IH.
  - cbn [crlf_after]. rewrite orb_false_r. intros [Hc Ht]%andb_true_iff.
    rewrite !match_count_step; [apply IH|by rewrite starts_with_lf, <- negb_true_iff|done].
    rewrite starts_with_crlf in E. destruct (Ascii.eqb c carriage_return); [|done].
    destruct t as [|d t]; [done|]. cbn [andb] in E. cbn [crlf_after] in *. by rewrite E in *.
Qed.

Lemma detect_lf s : lf_only s = true -> detect_line_endings s = Lf.
Proof.
  unfold lf_only, detect_line_endings. rewrite negb_true_iff. intros H.
  destruct (chars_take_prefix 4096 s) as (t & E). rewrite (match_count_zero crlf).
  - by destruct (match_count lf _ - 0).
  - done.
  - apply not_true_iff_false. intros Hc. apply not_true_iff_false in H. apply H. rewrite E. by apply contains_app_l.
Qed.

(** Without a newline in the sampled head the file counts as LF. *)
Lemma detect_unsampled s : contains lf (chars_take 4096 s) = false -> detect_line_endings s = Lf.
Proof.
  unfold detect_line_endings. intros H. rewrite (match_count_zero crlf); [by destruct (match_count lf _ - 0)|done|].
  apply not_true_iff_false. intros (x & y & E)%contains_spec. apply not_true_iff_false in H. apply H, contains_spec.
  exists (x +:+ String carriage_return EmptyString), y. rewrite E. rewrite <- !str_app_assoc. done.
Qed.

Lemma detect_crlf s : crlf_only s = true -> contains lf (chars_take 4096 s) = true -> detect_line_endings s = Crlf.
Proof.
  unfold crlf_only, detect_line_endings. intros H Hlf. destruct (chars_take_prefix 4096 s) as (t & E).
  rewrite E in H. apply crlf_after_prefix in H. apply crlf_only_counts in H. rewrite H.
  pose proof (match_count_pos lf _ lf_ne Hlf). replace (match_count lf _ - match_count lf _) with 0 by lia.
  destruct (match_count lf (chars_take 4096 s)); [lia|done].
Qed.

(** * The literal edit *)

Lemma apply_literal_edit_Ok content old_string new_string all path edited n :
  apply_literal_edit content old_string new_string all path = Ok (edited, n) <->
  normalize_line_endings old_string <> EmptyString /\
  n = match_count (normalize_line_endings old_string) content /\ 0 < n /\ (all = false -> n = 1) /\
  edited = str_replace (normalize_line_endings old_string) (normalize_line_endings new_string) content.
Proof.
  unfold apply_literal_edit. destruct (String.eqb_spec (normalize_line_endings old_string) EmptyString) as [E|E]; [naive_solver|].
  rewrite count_occurrences_matches by done. set (k := match_count _ _).
  destruct (Nat.eqb_spec k 0) as [Hz|Hz].
  - split; [done|]. lia.
  - destruct (Nat.ltb_spec 1 k) as [H1|H1]; destruct all; cbn [negb andb].
    all: split; [intros [=]; subst; split_and!; try done; lia|intros (? & -> & ? & Ha & ->)]; try done; specialize (Ha eq_refl); lia.
Qed.

Lemma match_count_pieces pat s : length (str_split pat s) = S (match_count pat s).
Proof. unfold match_count. destruct (str_split pat s) eqn:E; [by destruct (split_skip_nonempty pat 0 s)|]. cbn. lia. Qed.

(** The old string matched with overlaps counts once, so an edit of [aa] in
    [aaa] is taken as unambiguous. *)
Example overlapping_match_accepted : apply_literal_edit "aaa" "aa" "b" false "f" = Ok ("ba", 1).
Proof. reflexivity. Qed.

(** C30. An edit replaces exactly the matched text.  The basis is the text
    between the matches joined by the old string, with at least one match and
    exactly one unless all are replaced, no match inside a piece; the edited
    text is the same pieces joined by the new string.  A file without CRLF is
    stored as edited, and a file whose every newline is CRLF, one of them in
    the sampled head (the first 4096 characters), keeps its endings: what is
    stored is the old file with the old string in CRLF form replaced by the new
    one in CRLF form, unless the edit itself joined a CR to an LF.  A file with
    no newline in the sampled head is stored with LF endings. *)
Theorem edit_changes_only_matches raw edit path content edited stored :
  edit_content raw edit path = Ok (content, edited, stored) ->
  let old := normalize_line_endings (er_old_string edit) in
  let new := normalize_line_endings (er_new_string edit) in
  exists pieces,
    content = normalize_line_endings raw /\ content = join old pieces /\ edited = join new pieces /\
    2 <= length pieces /\ (er_replace_all edit = false -> length pieces = 2) /\
    Forall (fun p => contains old p = false) pieces /\
    (lf_only raw = true -> raw = join old pieces /\ stored = join new pieces) /\
    (contains lf (chars_take 4096 raw) = false -> stored = edited) /\
    (crlf_only raw = true -> contains lf (chars_take 4096 raw) = true ->
     let to_crlf := str_replace lf crlf in
     raw = join (to_crlf old) (to_crlf <$> pieces) /\
     (lf_only edited = true -> stored = join (to_crlf new) (to_crlf <$> pieces))).
Proof.
  unfold edit_content. intros ((ed & n) & Ha & E)%result_bind_Ok. injection E as <- <- <-.
  apply apply_literal_edit_Ok in Ha as (Hne & -> & Hpos & Hone & ->). cbv zeta.
  set (old := normalize_line_endings (er_old_string edit)) in *.
  exists (str_split old (normalize_line_endings raw)). pose proof (match_count_pieces old (normalize_line_endings raw)) as Hlen.
  pose proof (join_split old (normalize_line_endings raw) Hne) as Hj.
  split_and!; try done; [lia|intros H1; specialize (Hone H1); lia|by apply split_pieces_free| | |].
  - intros Hlf. rewrite Hj, detect_lf, normalize_lf_only by done. done.
  - intros Hs. by rewrite detect_unsampled.
  - intros Hcr Hs. rewrite detect_crlf, <- replace_lf_join, Hj, to_crlf_normalize by done. split; [done|].
    intros He. cbn [restore_line_endings]. rewrite normalize_lf_only by done. by rewrite <- replace_lf_join.
Qed.

Definition demo_crlf : string := "a" +:+ crlf +:+ "bc" +:+ crlf.
Lemma edit_changes_only_matches_witness :
  edit_content demo_crlf (mk_edit_request ("a" +:+ lf) ("x" +:+ lf +:+ "y") false) "f" =
    Ok ("a" +:+ lf +:+ "bc" +:+ lf, "x" +:+ lf +:+ "ybc" +:+ lf, "x" +:+ crlf +:+ "ybc" +:+ crlf) /\
  exists pieces, 2 <= length pieces /\ demo_crlf = join ("a" +:+ crlf) (str_replace lf crlf <$> pieces).
Proof.
  split; [reflexivity|].
  destruct (edit_changes_only_matches demo_crlf (mk_edit_request ("a" +:+ lf) ("x" +:+ lf +:+ "y") false) "f"
    ("a" +:+ lf +:+ "bc" +:+ lf) ("x" +:+ lf +:+ "ybc" +:+ lf) ("x" +:+ crlf +:+ "ybc" +:+ crlf) eq_refl)
    as (ps & _ & _ & _ & Hl & _ & _ & _ & _ & Hc).
  exists ps. split; [done|]. exact (proj1 (Hc eq_refl eq_refl)).
Defined.
