(* ===== verification/FsRead.v ===== *)
(** The read presentation of [crates/dsh/fs/src/read_render.rs]: the bounded,
    line-numbered window over a decoded text, the envelope the model sees, and
    the narrowing of persisted metadata and of the envelope back into a card. *)
From Stdlib Require Import ZArith String Ascii Lia.
From stdpp Require Import base tactics list numbers strings.
From S2P Require Import Prelude Json Text Utf8 ToolSchema FsText.
Open Scope string_scope.
Open Scope nat_scope.
Open Scope list_scope.

Definition READ_LIMIT : Z := 2000.
Definition READ_MAX_LINE_LENGTH : nat := 2000.
Definition READ_MAX_BYTES : nat := 50 * 1024.

Record ReadWindow := mk_read_window { rw_offset : Z; rw_limit : Z; rw_max_line_length : nat; rw_max_bytes : nat }.
Record ReadFileLine := mk_read_line { rl_number : Z; rl_text : string }.
Record WindowResult := mk_window_result { wr_lines : list ReadFileLine; wr_total_lines : Z; wr_truncated_by_bytes : bool }.

#[export] Instance ReadFileLine_eq_dec : EqDecision ReadFileLine.
Proof. solve_decision. Defined.

Definition truncate_line (line : string) (max_line_length : nat) : string :=
  if max_line_length <? chars_count line
  then chars_take max_line_length line +:+ "... (line truncated to " +:+ decimal (Z.of_nat max_line_length) +:+ " chars)"
  else line.

(** [text.split('\n')] with a trailing empty part popped. *)
Definition text_parts (text : string) : list string :=
  if String.eqb text EmptyString then []
  else let parts := str_split lf text in
       if bool_decide (last parts = Some EmptyString) then take (length parts - 1) parts else parts.

(** One turn of the loop over the parts. *)
Record WindowScan := mk_window_scan { sc_lines : list ReadFileLine; sc_total : Z; sc_bytes : nat; sc_truncated : bool }.
Definition render_line (request : ReadWindow) (raw : string) : string := truncate_line (pop_cr raw) (rw_max_line_length request).
Definition scan_line (request : ReadWindow) (s : WindowScan) (raw : string) : WindowScan :=
  let total := (sc_total s + 1)%Z in
  if sc_truncated s || (total <? rw_offset request)%Z || (rw_limit request <=? Z.of_nat (length (sc_lines s)))%Z
  then mk_window_scan (sc_lines s) total (sc_bytes s) (sc_truncated s)
  else
    let rendered := render_line request raw in
    let bytes := String.length rendered + (if sc_lines s is [] then 0 else 1) in
    if (rw_max_bytes request <? sc_bytes s + bytes)%nat
    then mk_window_scan (sc_lines s) total (sc_bytes s) true
    else mk_window_scan (sc_lines s ++ [mk_read_line total rendered]) total (sc_bytes s + bytes) false.

Definition window_scan (request : ReadWindow) (text : string) : WindowScan :=
  foldl (scan_line request) (mk_window_scan [] 0 0 false) (text_parts text).

Definition build_window (text : string) (request : ReadWindow) (display_path : string) : result WindowResult FsError :=
  let s := window_scan request text in
  if negb (sc_truncated s) && (sc_total s <? rw_offset request)%Z && negb ((sc_total s =? 0)%Z && (rw_offset request =? 1)%Z)
  then Err (mk_fs_error
    ("offset " +:+ decimal (rw_offset request) +:+ " is out of range for " +:+ dquoted display_path +:+ " (" +:+
     decimal (sc_total s) +:+ " lines)") NotFound)
  else Ok (mk_window_result (sc_lines s) (sc_total s) (sc_truncated s)).

(** * The envelope *)

Record FileReadOutcome := mk_read_outcome { ro_offset : Z; ro_lines : list ReadFileLine; ro_total_lines : Z; ro_truncated_by_bytes : bool }.

Definition end_line_of (lines : list ReadFileLine) (offset : Z) : Z :=
  match last lines with Some line => rl_number line | None => u64_saturating_sub offset 1 end.

Definition footer_of (outcome_text : FileReadOutcome) : string :=
  let end_line := end_line_of (ro_lines outcome_text) (ro_offset outcome_text) in
  if ro_truncated_by_bytes outcome_text then
    "(Output capped. Showing lines " +:+ decimal (ro_offset outcome_text) +:+ "-" +:+ decimal end_line +:+
    ". Use offset=" +:+ decimal (end_line + 1) +:+ " to continue.)"
  else if (end_line <? ro_total_lines outcome_text)%Z then
    "(Showing lines " +:+ decimal (ro_offset outcome_text) +:+ "-" +:+ decimal end_line +:+ " of " +:+
    decimal (ro_total_lines outcome_text) +:+ ". Use offset=" +:+ decimal (end_line + 1) +:+ " to continue.)"
  else "(End of file - total " +:+ decimal (ro_total_lines outcome_text) +:+ " lines)".

Definition numbered_line (line : ReadFileLine) : string := decimal (rl_number line) +:+ ": " +:+ rl_text line.
Definition read_result_body (outcome_text : FileReadOutcome) : string :=
  if ro_lines outcome_text is [] then footer_of outcome_text
  else join lf (numbered_line <$> ro_lines outcome_text) +:+ lf +:+ lf +:+ footer_of outcome_text.

Definition envelope_separator : string := "</path>" +:+ lf +:+ "<type>file</type>" +:+ lf +:+ "<content>" +:+ lf.
Definition envelope_end : string := lf +:+ "</content>".
Definition format_read_output (display_path : string) (outcome_text : FileReadOutcome) : string :=
  "<path>" +:+ display_path +:+ envelope_separator +:+ read_result_body outcome_text +:+ envelope_end.

(** * The metadata *)

Definition LANG_BY_EXTENSION : list (string * string) :=
  [("ts", "ts"); ("tsx", "tsx"); ("mts", "ts"); ("cts", "ts"); ("js", "js"); ("jsx", "jsx"); ("mjs", "js"); ("cjs", "js");
   ("json", "json"); ("jsonc", "json"); ("py", "py"); ("rb", "rb"); ("go", "go"); ("rs", "rs"); ("java", "java"); ("c", "c");
   ("h", "c"); ("cc", "cpp"); ("cpp", "cpp"); ("hpp", "cpp"); ("cxx", "cpp"); ("cs", "cs"); ("kt", "kotlin");
   ("swift", "swift"); ("php", "php"); ("sh", "sh"); ("bash", "sh"); ("zsh", "sh"); ("yaml", "yaml"); ("yml", "yaml");
   ("toml", "toml"); ("ini", "ini"); ("md", "md"); ("markdown", "md"); ("mdx", "mdx"); ("html", "html"); ("htm", "html");
   ("css", "css"); ("scss", "scss"); ("less", "less"); ("sql", "sql"); ("xml", "xml"); ("lua", "lua")].

(** The last segment after a slash of either kind; [s.rfind('.')]. *)
Definition is_slash (c : ascii) : bool := Ascii.eqb c "/" || Ascii.eqb c "\".
Fixpoint last_segment (cur s : string) : string :=
  match s with
  | EmptyString => cur
  | String c s' => if is_slash c then last_segment s' s' else last_segment cur s'
  end.
Fixpoint str_rfind (c : ascii) (s : string) : option nat :=
  match s with
  | EmptyString => None
  | String d s' =>
      match str_rfind c s' with
      | Some i => Some (S i)
      | None => if Ascii.eqb d c then Some 0 else None
      end
  end.

Record FsReadMeta := mk_read_meta { rm_path : string; rm_offset : Z; rm_lines : list ReadFileLine; rm_total_lines : Z; rm_lang : option string }.

Definition file_text_line (value : Value) : option ReadFileLine :=
  map ← as_object value;
  number ← assoc "number" map ≫= as_u64;
  if (number <? 1)%Z then None
  else text ← assoc "text" map ≫= as_str;
       Some (mk_read_line number text).

(** The check that the numbers increase from the offset and stay in the file. *)
Fixpoint lines_increase (previous total : Z) (lines : list ReadFileLine) : bool :=
  match lines with
  | [] => true
  | line :: lines =>
      if (rl_number line <=? previous)%Z || (total <? rl_number line)%Z then false
      else lines_increase (rl_number line) total lines
  end.

Definition meta_lang (lang : option Value) : option (option string) :=
  match lang with
  | None | Some Null => Some None
  | Some (Str lang) => Some (Some lang)
  | Some _ => None
  end.

Definition read_meta_from_meta (meta : Value) : option FsReadMeta :=
  map ← as_object meta;
  path ← assoc "path" map ≫= as_str;
  offset ← assoc "offset" map ≫= as_u64;
  if (offset <? 1)%Z then None else
  total_lines ← assoc "totalLines" map ≫= as_u64;
  items ← assoc "lines" map ≫= (fun v => match v with Arr l => Some l | _ => None end);
  lines ← mapM file_text_line items;
  lang ← meta_lang (assoc "lang" map);
  if lines_increase (offset - 1) total_lines lines then Some (mk_read_meta path offset lines total_lines lang) else None.

Section lang.
(** [str::to_lowercase], of which only ASCII results reach the table. *)
Variable to_lowercase : string -> string.

Definition lang_from_path (path : string) : option string :=
  let base := last_segment path path in
  dot ← str_rfind "." base;
  if (dot =? 0)%nat then None
  else assoc (to_lowercase (str_drop (dot + 1) base)) LANG_BY_EXTENSION.

(** What the tool returns for a window, and the metadata kept with it. *)
Definition line_value (line : ReadFileLine) : Value :=
  Obj (json_map [("number", Num (PosInt (rl_number line))); ("text", Str (rl_text line))]).
Definition read_value (display_path : string) (offset : Z) (w : WindowResult) : Value :=
  Obj (json_map [("path", Str display_path); ("offset", Num (PosInt offset)); ("lines", Arr (line_value <$> wr_lines w));
                 ("totalLines", Num (PosInt (wr_total_lines w)))]).

(** [value[key]]: [Null] where there is none. *)
Definition index (key : string) (v : Value) : Value := default Null (get key v).

Definition read_presentation_meta (value : Value) : Value :=
  let meta := json_map [("path", index "path" value); ("offset", index "offset" value); ("lines", index "lines" value);
                        ("totalLines", index "totalLines" value)] in
  match as_str (index "path" value) ≫= lang_from_path with
  | Some lang => Obj (obj_insert "lang" (Str lang) meta)
  | None => Obj meta
  end.
End lang.

(** [read_lines_of] and the rendering of the value. *)
Definition read_lines_of (value : Value) : list ReadFileLine :=
  match index "lines" value with
  | Arr lines => (fun line => mk_read_line (default 0%Z (as_u64 (index "number" line))) (default EmptyString (as_str (index "text" line)))) <$> lines
  | _ => []
  end.
Definition read_outcome_of (read_limit : Z) (args value : Value) : FileReadOutcome :=
  let limit := default read_limit (as_u64 (index "limit" args)) in
  let lines := read_lines_of value in
  let offset := default 1%Z (as_u64 (index "offset" value)) in
  let total_lines := default 0%Z (as_u64 (index "totalLines" value)) in
  let end_line := end_line_of lines offset in
  mk_read_outcome offset lines total_lines ((Z.of_nat (length lines) <? limit)%Z && (end_line <? total_lines)%Z).
Definition read_render (read_limit : Z) (args value : Value) : string :=
  format_read_output (default EmptyString (as_str (index "path" value))) (read_outcome_of read_limit args value).

(** * The card *)

(** [s.split_once(sep)] and [s.strip_suffix(suf)]. *)
Definition str_split_once (sep s : string) : option (string * string) :=
  found ← str_find sep s;
  Some (str_take found s, str_drop (found + String.length sep) s).
Definition strip_suffix (suf s : string) : option string :=
  let n := String.length s - String.length suf in
  if String.eqb (str_drop n s) suf then Some (str_take n s) else None.

(** The body of a read result: the envelope of [present_result] stripped. *)
Definition envelope_body (text : string) : option string :=
  rest ← strip_prefix "<path>" text;
  '(_, rest) ← str_split_once envelope_separator rest;
  strip_suffix envelope_end rest.

(** * The window *)

Fixpoint numbered_from (from : Z) (l : list string) : list ReadFileLine :=
  match l with [] => [] | t :: l => mk_read_line from t :: numbered_from (from + 1) l end.

Lemma numbered_app from l1 l2 : numbered_from from (l1 ++ l2) = numbered_from from l1 ++ numbered_from (from + Z.of_nat (length l1)) l2.
Proof.
  revert from. induction l1 as [|t l1 IH]; intros from; cbn [numbered_from app length].
  - by rewrite Z.add_0_r.
  - rewrite IH. do 3 f_equal. lia.
Qed.

Lemma numbered_length from l : length (numbered_from from l) = length l.
Proof. revert from. induction l; intros; cbn; auto. Qed.

Lemma numbered_texts from l : rl_text <$> numbered_from from l = l.
Proof. revert from. induction l as [|t l IH]; intros from; cbn; [done|]. by rewrite IH. Qed.

Lemma end_line_numbered from l : l <> [] -> end_line_of (numbered_from from l) from = (from + Z.of_nat (length l) - 1)%Z.
Proof.
  intros Hl. destruct (exists_last Hl) as (l' & x & ->). rewrite numbered_app. unfold end_line_of. cbn [numbered_from].
  rewrite last_snoc, length_app. cbn. lia.
Qed.

(** What the scan has done after some parts: the lines are a run of the
    rendered parts from the offset; without truncation the run is as long as
    the limit and the parts allow, with it the next line did not fit. *)
Definition line_cost (first : bool) (rendered : string) : nat := String.length rendered + (if first then 0 else 1).
Definition joined_bytes (l : list string) : nat := String.length (join lf l).

Lemma joined_bytes_snoc l t : joined_bytes (l ++ [t]) = joined_bytes l + line_cost (if l is [] then true else false) t.
Proof.
  unfold joined_bytes, line_cost. induction l as [|x [|y l] IH]; cbn [app].
  - cbn. lia.
  - cbn [join]. rewrite !str_length_app. cbn. lia.
  - rewrite !(join_cons_nonempty _ x) by done. rewrite !str_length_app. cbn [app] in IH. rewrite IH. lia.
Qed.

Definition scanned (request : ReadWindow) (done_ : list string) (s : WindowScan) : Prop :=
  let rendered := drop (Z.to_nat (rw_offset request - 1)) (render_line request <$> done_) in
  sc_total s = Z.of_nat (length done_) /\
  exists k,
    sc_lines s = numbered_from (rw_offset request) (take k rendered) /\ k <= length rendered /\ k <= Z.to_nat (rw_limit request) /\
    sc_bytes s = joined_bytes (take k rendered) /\ sc_bytes s <= rw_max_bytes request /\
    if sc_truncated s
    then k < Z.to_nat (rw_limit request) /\ exists next, rendered !! k = Some next /\ rw_max_bytes request < joined_bytes (take (S k) rendered)
    else k = Z.to_nat (rw_limit request) `min` length rendered.

Lemma scan_scanned request parts :
  (1 <= rw_offset request)%Z -> scanned request parts (foldl (scan_line request) (mk_window_scan [] 0 0 false) parts).
Proof.
  intros Ho. induction parts as [|x parts IH] using rev_ind.
  - split; [done|]. exists 0. cbn. rewrite drop_nil. split_and!; cbn; try done; lia.
  - rewrite foldl_snoc. set (s := foldl _ _ parts) in *. destruct IH as (Ht & k & Hl & Hk & Hkl & Hb & Hbm & Hc).
    unfold scanned, scan_line. rewrite fmap_app, Ht. cbn [fmap list_fmap].
    set (rs := render_line request <$> parts) in *. assert (Hlen : length rs = length parts) by apply length_fmap.
    assert (Hll : length (sc_lines s) = k) by (rewrite Hl, numbered_length, length_take; lia).
    set (p := Z.to_nat (rw_offset request - 1)) in *.
    assert (Htot : (Z.of_nat (length parts) + 1)%Z = Z.of_nat (length (parts ++ [x]))) by (rewrite length_app; cbn; lia).
    destruct (decide (length rs < p)) as [Hp|Hp].
    + replace (Z.of_nat (length parts) + 1 <? rw_offset request)%Z with true by (symmetry; apply Z.ltb_lt; lia).
      rewrite orb_true_r. cbn [orb]. split; [done|]. exists k.
      rewrite (drop_ge (rs ++ _)) by (rewrite length_app; cbn; lia). rewrite (drop_ge rs) in Hl, Hk, Hb, Hc by lia. done.
    + replace (Z.of_nat (length parts) + 1 <? rw_offset request)%Z with false by (symmetry; apply Z.ltb_ge; lia).
      rewrite orb_false_r, (drop_app_le rs) by lia. set (rd := drop p rs) in *. rewrite Hll.
      destruct (sc_truncated s) eqn:Etr; cbn [orb].
      { split; [done|]. exists k. destruct Hc as [Hc (next & Hn & Hmax)]. pose proof (lookup_lt_Some _ _ _ Hn).
        rewrite length_app, (take_app_le rd _ k), (take_app_le rd _ (S k)) by lia.
        cbn [sc_truncated sc_lines sc_bytes]. split_and!; try done; [lia|]. exists next. by rewrite lookup_app_l. }
      destruct (Z.leb_spec (rw_limit request) (Z.of_nat k)) as [Hge|Hlt].
      { split; [done|]. exists k. cbn. rewrite length_app, (take_app_le rd _ k) by lia. cbn. split_and!; try done; lia. }
      assert (k = length rd) as -> by lia. rewrite take_ge in Hl, Hb by done.
      assert (Ecost : (if sc_lines s is [] then 0 else 1) = if rd is [] then 0 else 1).
      { rewrite Hl. by destruct rd. }
      rewrite Ecost.
      assert (Hbytes : sc_bytes s + (String.length (render_line request x) + (if rd is [] then 0 else 1)) = joined_bytes (rd ++ [render_line request x])).
      { rewrite joined_bytes_snoc, Hb. unfold line_cost. by destruct rd. }
      rewrite Hbytes. destruct (Nat.ltb_spec (rw_max_bytes request) (joined_bytes (rd ++ [render_line request x]))) as [Hm|Hm].
      * split; [done|]. exists (length rd). cbn. rewrite take_app_length, length_app. cbn.
        split_and!; try done; try lia. exists (render_line request x). rewrite lookup_app_r, Nat.sub_diag, take_ge by (rewrite ?length_app; cbn; lia). done.
      * split; [done|]. exists (S (length rd)). cbn. rewrite length_app, take_ge by (rewrite length_app; cbn; lia). cbn.
        split_and!; try done; try lia. rewrite numbered_app, Hl. cbn. do 3 f_equal. subst rd. rewrite length_drop. lia.
Qed.

Definition rendered_lines (request : ReadWindow) (text : string) : list string := render_line request <$> text_parts text.

(** A window is the longest run of rendered lines from its offset that the
    line limit and the byte cap allow, with the exact line count; an offset
    past the end is the only failure. *)
Lemma build_window_exact text request path :
  (1 <= rw_offset request)%Z ->
  let rendered := drop (Z.to_nat (rw_offset request - 1)) (rendered_lines request text) in
  let n := length (text_parts text) in
  match build_window text request path with
  | Ok w =>
      wr_total_lines w = Z.of_nat n /\
      exists k,
        wr_lines w = numbered_from (rw_offset request) (take k rendered) /\ k <= length rendered /\ k <= Z.to_nat (rw_limit request) /\
        joined_bytes (take k rendered) <= rw_max_bytes request /\
        if wr_truncated_by_bytes w
        then k < length rendered /\ k < Z.to_nat (rw_limit request) /\ rw_max_bytes request < joined_bytes (take (S k) rendered)
        else k = Z.to_nat (rw_limit request) `min` length rendered
  | Err e => fe_code e = NotFound /\ (Z.of_nat n < rw_offset request)%Z
  end.
Proof.
  intros Ho. cbv zeta. pose proof (scan_scanned request (text_parts text) Ho) as (Ht & k & Hl & Hk & Hkl & Hb & Hbm & Hc).
  unfold build_window, window_scan. set (s := foldl _ _ (text_parts text)) in *.
  fold (rendered_lines request text) in *. set (rd := drop _ (rendered_lines request text)) in *.
  destruct (negb (sc_truncated s) && _ && _) eqn:E.
  - apply andb_true_iff in E as [[_ E%Z.ltb_lt]%andb_true_iff _]. rewrite <- Ht. done.
  - split; [done|]. exists k. cbn. rewrite <- Hb. split_and!; try done. destruct (sc_truncated s); [|done].
    destruct Hc as [? (next & Hn & ?)]. apply lookup_lt_Some in Hn. done.
Qed.

Lemma build_window_in_range text request path :
  (1 <= rw_offset request <= Z.of_nat (length (text_parts text)))%Z \/ (text_parts text = [] /\ rw_offset request = 1%Z) ->
  exists w, build_window text request path = Ok w.
Proof.
  intros H. pose proof (scan_scanned request (text_parts text)) as Hs. destruct Hs as [Ht _]; [lia|].
  unfold build_window, window_scan. set (s := foldl _ _ (text_parts text)) in *. rewrite Ht.
  destruct H as [H|[-> ->]].
  - replace (Z.of_nat (length (text_parts text)) <? rw_offset request)%Z with false by (symmetry; apply Z.ltb_ge; lia).
    rewrite andb_false_r. eauto.
  - cbn. rewrite andb_false_r. eauto.
Qed.

(** * Following the footer *)

(** What the footer tells the reader to ask for next. *)
Definition next_offset (outcome_text : FileReadOutcome) : option Z :=
  let end_line := end_line_of (ro_lines outcome_text) (ro_offset outcome_text) in
  if ro_truncated_by_bytes outcome_text || (end_line <? ro_total_lines outcome_text)%Z then Some (end_line + 1)%Z else None.

Lemma footer_names_next outcome_text :
  match next_offset outcome_text with
  | Some n => exists pre, footer_of outcome_text = pre +:+ "Use offset=" +:+ decimal n +:+ " to continue.)"
  | None => exists pre, footer_of outcome_text = "(End of file" +:+ pre
  end.
Proof.
  unfold next_offset, footer_of. set (e := end_line_of _ _).
  destruct (ro_truncated_by_bytes outcome_text); cbn [orb]; [|destruct (_ <? _)%Z];
    generalize (decimal (ro_offset outcome_text)) (decimal e) (decimal (e + 1)) (decimal (ro_total_lines outcome_text)); intros a b c d.
  - exists ("(Output capped. Showing lines " +:+ a +:+ "-" +:+ b +:+ ". "). by rewrite <- !str_app_assoc.
  - exists ("(Showing lines " +:+ a +:+ "-" +:+ b +:+ " of " +:+ d +:+ ". "). by rewrite <- !str_app_assoc.
  - by exists (" - total " +:+ d +:+ " lines)").
Qed.

Lemma read_value_fields path offset w :
  index "path" (read_value path offset w) = Str path /\
  index "offset" (read_value path offset w) = Num (PosInt offset) /\
  index "lines" (read_value path offset w) = Arr (line_value <$> wr_lines w) /\
  index "totalLines" (read_value path offset w) = Num (PosInt (wr_total_lines w)).
Proof. split_and!; reflexivity. Qed.

Lemma read_lines_of_value path offset w : read_lines_of (read_value path offset w) = wr_lines w.
Proof.
  unfold read_lines_of. rewrite (proj1 (proj2 (proj2 (read_value_fields path offset w)))).
  rewrite <- list_fmap_compose. rewrite <- (list_fmap_id (wr_lines w)) at 2. apply list_fmap_ext. by intros ? [].
Qed.

Lemma next_offset_of_value limit args path offset w :
  next_offset (read_outcome_of limit args (read_value path offset w)) =
  let end_line := end_line_of (wr_lines w) offset in
  if (end_line <? wr_total_lines w)%Z then Some (end_line + 1)%Z else None.
Proof.
  unfold next_offset, read_outcome_of. rewrite read_lines_of_value.
  destruct (read_value_fields path offset w) as (_ & -> & _ & ->). cbn.
  destruct (end_line_of (wr_lines w) offset <? wr_total_lines w)%Z; [|by rewrite andb_false_r].
  by rewrite orb_true_r.
Qed.

(** ** The lines of a file, said byte by byte *)

(** A newline ends a line; what follows the last newline is a line when it is
    not empty. *)
Fixpoint file_lines (text : string) : list string :=
  match text with
  | EmptyString => []
  | String c rest =>
      if ascii_dec c newline then EmptyString :: file_lines rest
      else match file_lines rest with
           | [] => [String c EmptyString]
           | l :: ls => String c l :: ls
           end
  end.

(** What is shown of a line: without one carriage return at its end, whole up
    to the cap of characters, and otherwise cut at the cap and marked. *)
Definition cut_mark (cap : nat) : string := "... (line truncated to " +:+ decimal (Z.of_nat cap) +:+ " chars)".
Definition shown_line (cap : nat) (raw t : string) : Prop :=
  exists line,
    (raw = line +:+ String carriage_return EmptyString \/ raw = line /\ forall l, raw <> l +:+ String carriage_return EmptyString)
    /\ (chars_count line <= cap /\ t = line
        \/ exists cut rest, line = cut +:+ rest /\ chars_count cut = cap /\ rest <> EmptyString /\ head_continuation rest = false
           /\ t = cut +:+ cut_mark cap).

Lemma split_lines_of text :
  str_split lf text = file_lines text ++ [EmptyString]
  \/ str_split lf text = file_lines text /\ file_lines text <> [] /\ last (file_lines text) <> Some EmptyString.
Proof.
  induction text as [|c rest IH]; [by left|]. cbn [file_lines]. destruct (ascii_dec c newline) as [->|Hc].
  - assert (E : str_split lf (String newline rest) = EmptyString :: str_split lf rest).
    { rewrite split_match by done. done. }
    rewrite E. destruct IH as [->|(-> & Hne & Hl)]; [by left|right]. split_and!; [done|done|]. by destruct (file_lines rest).
  - assert (Hs : starts_with lf (String c rest) = false) by (rewrite starts_with_lf; by apply Ascii.eqb_neq).
    destruct IH as [E|(E & Hne & Hl)]; destruct (file_lines rest) as [|l ls]; try done.
    + right. rewrite (split_step _ _ _ _ _ Hs E). done.
    + left. by rewrite (split_step _ _ _ _ _ Hs E).
    + right. rewrite (split_step _ _ _ _ _ Hs E). split_and!; [done|done|]. by destruct ls.
Qed.
Lemma text_parts_lines text : text_parts text = file_lines text.
Proof.
  unfold text_parts. destruct (String.eqb_spec text EmptyString) as [->|Ht]; [done|]. cbv zeta.
  destruct (split_lines_of text) as [->|(-> & Hne & Hl)].
  - rewrite bool_decide_true by apply last_snoc. rewrite length_app, Nat.add_sub. by rewrite take_app_length.
  - by rewrite bool_decide_false.
Qed.

Lemma pop_cr_end raw : raw = pop_cr raw +:+ String carriage_return EmptyString \/ pop_cr raw = raw /\ forall l, raw <> l +:+ String carriage_return EmptyString.
Proof.
  induction raw as [|c raw IH]; [right; split; [done|]; by intros [|? ?]|]. cbn [pop_cr]. destruct raw as [|d raw].
  - destruct (ascii_dec c carriage_return) as [->|Hc]; [by left|right]. split; [done|].
    intros [|e l]; [by intros [= ?]|]. rewrite str_app_cons. intros [= _ E]. by destruct l.
  - destruct IH as [E|[E H]]; [left; by rewrite str_app_cons, <- E|right; rewrite E; split; [done|]].
    intros [|e l]; [done|]. rewrite str_app_cons. intros [= _ E']. by apply (H l).
Qed.
Lemma chars_take_cut n s : n < chars_count s ->
  exists rest, s = chars_take n s +:+ rest /\ chars_count (chars_take n s) = n /\ rest <> EmptyString /\ head_continuation rest = false.
Proof.
  revert n. induction s as [|c s IH]; intros n; [cbn; lia|]. cbn [chars_count chars_take]. destruct (is_continuation c) eqn:Ec.
  - intros H. destruct (IH n) as (rest & E & H1 & H2 & H3); [lia|]. exists rest. cbn [chars_count]. rewrite Ec, H1, str_app_cons, <- E. done.
  - intros H. destruct n as [|n].
    + exists (String c s). by split_and!.
    + destruct (IH n) as (rest & E & H1 & H2 & H3); [lia|]. exists rest. cbn [chars_count]. rewrite Ec, H1, str_app_cons, <- E. done.
Qed.
Lemma render_line_shown request raw : shown_line (rw_max_line_length request) raw (render_line request raw).
Proof.
  exists (pop_cr raw). split.
  - destruct (pop_cr_end raw) as [?|[E ?]]; [by left|right; by rewrite E].
  - unfold render_line, truncate_line. destruct (Nat.ltb_spec (rw_max_line_length request) (chars_count (pop_cr raw))) as [H|H]; [right|by left].
    destruct (chars_take_cut _ _ H) as (rest & E & H1 & H2 & H3). eexists _, rest. by split_and!.
Qed.
Lemma rendered_shown request text : Forall2 (shown_line (rw_max_line_length request)) (text_parts text) (rendered_lines request text).
Proof. unfold rendered_lines. apply Forall2_fmap_r, Forall_Forall2_diag, Forall_forall. intros raw _. apply render_line_shown. Qed.
(** A line as shown is at most its mark longer than the line. *)
Lemma shown_length cap raw t : shown_line cap raw t -> String.length t <= String.length raw + String.length (cut_mark cap).
Proof.
  intros (line & Hr & Ht). assert (String.length line <= String.length raw) by (destruct Hr as [->|[-> _]]; [rewrite str_length_app; lia|done]).
  destruct Ht as [[_ ->]|(cut & rest & -> & _ & _ & _ & ->)]; [lia|]. rewrite !str_length_app in *. lia.
Qed.

Section paging.
(** Calls that share a line limit and caps, whatever else their arguments say. *)
Context (text path : string) (request : ReadWindow) (read_limit : Z) (args_of : Z -> Value).

Definition read_page (offset : Z) : option FileReadOutcome :=
  match build_window text (mk_read_window offset (rw_limit request) (rw_max_line_length request) (rw_max_bytes request)) path with
  | Ok w => Some (read_outcome_of read_limit (args_of offset) (read_value path offset w))
  | Err _ => None
  end.

(** A reader that asks again with the offset each footer names. *)
Fixpoint follow_footers (fuel : nat) (offset : Z) : option (list ReadFileLine) :=
  match fuel with
  | O => None
  | S fuel =>
      page ← read_page offset;
      match next_offset page with
      | None => Some (ro_lines page)
      | Some next => rest ← follow_footers fuel next; Some (ro_lines page ++ rest)
      end
  end.

Lemma drop_nth_cost (l : list string) x : Forall (fun t => String.length t <= rw_max_bytes request) l -> l !! 0 = Some x -> joined_bytes (take 1 l) <= rw_max_bytes request.
Proof. destruct l as [|y l]; [done|]. intros [H _]%Forall_cons [= <-]. unfold joined_bytes. cbn. exact H. Qed.

Lemma follow_from fuel o :
  (1 <= rw_limit request)%Z -> Forall (fun t => String.length t <= rw_max_bytes request) (rendered_lines request text) ->
  (1 <= o <= Z.of_nat (length (text_parts text)))%Z \/ (text_parts text = [] /\ o = 1%Z) ->
  length (text_parts text) - Z.to_nat (o - 1) < fuel ->
  follow_footers fuel o = Some (numbered_from o (drop (Z.to_nat (o - 1)) (rendered_lines request text))).
Proof.
  intros Hlim Hfit. revert o. induction fuel as [|fuel IH]; intros o Hr Hf; [lia|].
  cbn [follow_footers]. unfold read_page. set (rq := mk_read_window _ _ _ _).
  destruct (build_window_in_range text rq path) as (w & Hw); [exact Hr|]. rewrite Hw. cbn [mbind option_bind].
  rewrite next_offset_of_value. cbn [ro_lines read_outcome_of]. rewrite read_lines_of_value.
  assert (1 <= rw_offset rq)%Z as Ho by (cbn; lia). pose proof (build_window_exact text rq path Ho) as He. cbv zeta in He. rewrite Hw in He.
  destruct He as (Ht & k & Hl & Hk & Hkl & Hb & Hc).
  change (rendered_lines rq text) with (rendered_lines request text) in *. cbn [rw_offset rw_limit rw_max_bytes rq] in *.
  set (rd := drop (Z.to_nat (o - 1)) (rendered_lines request text)) in *.
  assert (Hrd : length rd = length (text_parts text) - Z.to_nat (o - 1)) by (subst rd; unfold rendered_lines; by rewrite length_drop, length_fmap).
  destruct (decide (rd = [])) as [Hnil|Hnil].
  { rewrite Hnil in *. rewrite take_nil in Hl. rewrite Hl, Ht. destruct Hr as [Hr|[-> ->]]; [cbn in Hrd; lia|done]. }
  assert (0 < k) as Hk0.
  { destruct k; [|lia]. destruct rd as [|x rd'] eqn:Erd; [done|]. cbn in Hc, Hk. destruct (wr_truncated_by_bytes w); [|lia].
    destruct Hc as (_ & _ & Hc). assert (Hx : String.length x <= rw_max_bytes request); [|unfold joined_bytes in Hc; destruct rd'; cbn in Hc; lia].
    pose proof (Forall_drop _ (Z.to_nat (o - 1)) _ Hfit) as Hd. fold rd in Hd. rewrite Erd in Hd. by apply Forall_cons in Hd as [Hd _]. }
  assert (Htk : length (take k rd) = k) by (rewrite length_take; lia).
  rewrite Hl, end_line_numbered, Ht, Htk by (intros E; rewrite E in Htk; cbn in Htk; lia).
  destruct (Z.ltb_spec (o + Z.of_nat k - 1) (Z.of_nat (length (text_parts text)))) as [Hm|Hm].
  - replace (o + Z.of_nat k - 1 + 1)%Z with (o + Z.of_nat k)%Z by lia. rewrite IH by lia. cbn [mbind option_bind].
    f_equal. rewrite <- (take_drop k rd) at 2. rewrite numbered_app, Htk. do 2 f_equal.
    subst rd. rewrite drop_drop. f_equal. lia.
  - f_equal. rewrite take_ge; [done|]. lia.
Qed.

(** C38. Reading from the first line and asking again with the offset each
    footer names ends and returns every line of the file once, blank ones
    included, in order, with its own number, shown whole when it has at most
    the cap of characters and otherwise cut there and marked as cut, whatever
    the other arguments say - provided a page may have a line and every line as
    shown fits the byte cap of a page. *)
Theorem following_footers_reads_all :
  (1 <= rw_limit request)%Z ->
  (forall line t, line ∈ file_lines text -> shown_line (rw_max_line_length request) line t -> String.length t <= rw_max_bytes request) ->
  exists shown, Forall2 (shown_line (rw_max_line_length request)) (file_lines text) shown
    /\ follow_footers (S (length shown)) 1 = Some (numbered_from 1 shown).
Proof.
  intros Hl Hf. exists (rendered_lines request text). rewrite <- text_parts_lines in *. split; [apply rendered_shown|].
  unfold rendered_lines at 1. rewrite length_fmap, follow_from; [done|done| | |lia].
  - apply Forall_fmap, Forall_forall. intros line Hin. apply (Hf line); [done|]. apply render_line_shown.
  - destruct (text_parts text); [by right|left]. cbn. lia.
Qed.
End paging.

(** * The default caps *)

Lemma concat_length_bounded l : Forall (fun g => String.length g <= 4) l -> String.length (concat_strings l) <= 4 * length l.
Proof. induction 1 as [|g l Hg _ IH]; [done|]. cbn [concat_strings length]. rewrite str_length_app. lia. Qed.

Lemma chars_count_concat l : Forall char_wf l -> chars_count (concat_strings l) = length l.
Proof.
  induction 1 as [|g l Hg _ IH]; [done|]. cbn [concat_strings length]. rewrite chars_count_app, IH.
  destruct g as [|c t]; [done|]. destruct Hg as [Hc Ht]. cbn [chars_count]. rewrite Hc.
  cut (chars_count t = 0); [lia|]. clear Hc. induction t as [|d t IHt]; [done|].
  cbn in Ht. apply andb_true_iff in Ht as [Hd Ht]. cbn. rewrite Hd. auto.
Qed.

(** A line of valid UTF-8 text fits the default byte cap once truncated. *)
Lemma default_caps_fit line :
  head_continuation line = false -> chars_bounded line -> String.length (truncate_line line READ_MAX_LINE_LENGTH) <= READ_MAX_BYTES.
Proof.
  intros Hh Hb. unfold truncate_line. pose proof (chars_count_concat (chars line) (chars_wf _ Hh)) as Hc. rewrite concat_chars in Hc.
  destruct (Nat.ltb_spec READ_MAX_LINE_LENGTH (chars_count line)) as [H|H].
  - rewrite str_length_app, chars_take_chars by done.
    assert (String.length (concat_strings (take READ_MAX_LINE_LENGTH (chars line))) <= 4 * READ_MAX_LINE_LENGTH).
    { etransitivity; [apply concat_length_bounded, Forall_take, Hb|]. rewrite length_take. lia. }
    replace (String.length (_ +:+ _)) with 34 by reflexivity. unfold READ_MAX_LINE_LENGTH, READ_MAX_BYTES in *. lia.
  - pose proof (concat_length_bounded _ Hb) as Hl. rewrite concat_chars, <- Hc in Hl.
    unfold READ_MAX_LINE_LENGTH, READ_MAX_BYTES in *. lia.
Qed.

(** * Narrowing *)

Lemma lines_increase_numbered from total l :
  (from + Z.of_nat (length l) - 1 <= total)%Z -> lines_increase (from - 1) total (numbered_from from l) = true.
Proof.
  revert from. induction l as [|t l IH]; intros from H; [done|]. cbn [numbered_from lines_increase rl_number].
  cbn [length] in H. replace (from <=? from - 1)%Z with false by (symmetry; apply Z.leb_gt; lia).
  replace (total <? from)%Z with false by (symmetry; apply Z.ltb_ge; lia). cbn [orb].
  replace from with (from + 1 - 1)%Z at 1 by lia. apply IH. lia.
Qed.

Lemma mapM_line_values lines :
  Forall (fun line => 1 <= rl_number line)%Z lines -> mapM file_text_line (line_value <$> lines) = Some lines.
Proof.
  intros H. apply mapM_Some. induction H as [|[n t] lines Hn _ IH]; constructor; [|done].
  cbn [rl_number] in Hn. transitivity (if (n <? 1)%Z then None else Some (mk_read_line n t)); [reflexivity|].
  replace (n <? 1)%Z with false by (symmetry; apply Z.ltb_ge; lia). reflexivity.
Qed.

Lemma numbered_ge from l : (1 <= from)%Z -> Forall (fun line => 1 <= rl_number line)%Z (numbered_from from l).
Proof. revert from. induction l as [|t l IH]; intros from H; constructor; [done|]. apply IH. lia. Qed.

Lemma read_meta_of m path o total items lines lang :
  assoc "path" m = Some (Str path) -> assoc "offset" m = Some (Num (PosInt o)) -> assoc "totalLines" m = Some (Num (PosInt total)) ->
  assoc "lines" m = Some (Arr items) -> mapM file_text_line items = Some lines -> meta_lang (assoc "lang" m) = Some lang ->
  (1 <= o)%Z -> lines_increase (o - 1) total lines = true ->
  read_meta_from_meta (Obj m) = Some (mk_read_meta path o lines total lang).
Proof.
  intros Hp Ho Ht Hl Hm Hg H1 Hi. unfold read_meta_from_meta. cbn [as_object mbind option_bind].
  rewrite Hp, Ho, Ht, Hl, Hg. cbn [mbind option_bind as_str as_u64].
  replace (o <? 1)%Z with false by (symmetry; apply Z.ltb_ge; lia). rewrite Hm. cbn [mbind option_bind]. by rewrite Hi.
Qed.

(** The metadata of a read narrows back to the window it was made from. *)
Lemma read_meta_roundtrip to_lower text request path w :
  (1 <= rw_offset request)%Z -> build_window text request path = Ok w ->
  read_meta_from_meta (read_presentation_meta to_lower (read_value path (rw_offset request) w)) =
    Some (mk_read_meta path (rw_offset request) (wr_lines w) (wr_total_lines w) (lang_from_path to_lower path)).
Proof.
  intros Ho Hw. pose proof (build_window_exact text request path Ho) as He. cbv zeta in He. rewrite Hw in He.
  destruct He as (Ht & k & Hl & Hk & _). set (o := rw_offset request) in *. set (rd := drop _ _) in *.
  assert (Hinc : lines_increase (o - 1) (wr_total_lines w) (wr_lines w) = true \/ wr_lines w = []).
  { destruct (decide (take k rd = [])) as [E|E]; [right; by rewrite Hl, E|left].
    rewrite Hl. apply lines_increase_numbered. rewrite Ht, length_take.
    assert (rd <> []) by (intros Er; rewrite Er, take_nil in E; done).
    assert (length rd = length (text_parts text) - Z.to_nat (o - 1)) by (subst rd; unfold rendered_lines; by rewrite length_drop, length_fmap).
    destruct rd; [done|]. cbn [length] in *. lia. }
  assert (Hinc' : lines_increase (o - 1) (wr_total_lines w) (wr_lines w) = true) by (destruct Hinc as [|Hn]; [done|by rewrite Hn]).
  assert (Hm : mapM file_text_line (line_value <$> wr_lines w) = Some (wr_lines w)) by (rewrite Hl; apply mapM_line_values, numbered_ge; done).
  unfold read_presentation_meta. destruct (read_value_fields path o w) as (-> & -> & -> & ->).
  cbn [as_str mbind option_bind]. unfold read_meta_from_meta.
  destruct (lang_from_path to_lower path) as [lang|]; apply read_meta_of with (items := line_value <$> wr_lines w); try reflexivity; done.
Qed.

(** * The envelope *)

Lemma str_drop_app_le i a b : i <= String.length a -> str_drop i (a +:+ b) = str_drop i a +:+ b.
Proof.
  revert i. induction a as [|c a IH]; intros [|i] Hi; cbn in Hi; try done; try lia.
  rewrite str_app_cons. cbn [str_drop]. apply IH. lia.
Qed.

(** A literal none of whose proper suffixes is a prefix of it. *)
Definition unbordered (sep : string) : bool :=
  forallb (fun j => negb (starts_with (str_drop j sep) sep)) (seq 1 (String.length sep - 1)).

Lemma prefix_of_prefix u p x y : u +:+ x = p +:+ y -> String.length u <= String.length p -> starts_with u p = true.
Proof.
  revert p. induction u as [|c u IH]; intros p E Hl; [done|]. destruct p as [|d p]; [cbn in Hl; lia|].
  rewrite !str_app_cons in E. injection E as -> E. cbn [starts_with].
  destruct (ascii_dec d d); [|done]. apply (IH p E). cbn in Hl. lia.
Qed.

Lemma str_app_cancel a b c : a +:+ b = a +:+ c -> b = c.
Proof. induction a as [|x a IH]; [done|]. rewrite !str_app_cons. intros [= E]. auto. Qed.

(** The first occurrence of an unbordered literal after a text free of it. *)
Lemma str_find_first sep a b :
  sep <> EmptyString -> unbordered sep = true -> contains sep a = false -> str_find sep (a +:+ sep +:+ b) = Some (String.length a).
Proof.
  intros Hs Hb. induction a as [|c a IH]; intros Hc.
  - rewrite str_app_nil_l. apply str_find_self.
  - cbn [contains] in Hc. apply orb_false_iff in Hc as [Hc Ha]. specialize (IH Ha).
    rewrite str_app_cons. change (str_find sep (String c (a +:+ sep +:+ b))) with
      (if starts_with sep (String c (a +:+ sep +:+ b)) then Some 0 else S <$> str_find sep (a +:+ sep +:+ b)).
    rewrite IH. destruct (starts_with sep (String c (a +:+ sep +:+ b))) eqn:E; [exfalso|reflexivity].
    apply starts_with_spec in E as (t & E). set (n := String.length (String c a)).
    rewrite <- str_app_cons in E. destruct (decide (String.length sep <= n)) as [Hle|Hgt].
    + apply not_true_iff_false in Hc. apply Hc. by apply (prefix_of_prefix _ _ t (sep +:+ b)).
    + assert (Hp : starts_with (String c a) sep = true) by (apply (prefix_of_prefix _ _ (sep +:+ b) t); [done|subst n; lia]).
      apply starts_with_drop in Hp. fold n in Hp. rewrite Hp in E at 2. rewrite <- str_app_assoc in E. apply str_app_cancel in E.
      assert (Hd : starts_with (str_drop n sep) sep = true) by (apply (prefix_of_prefix _ _ t b); [done|rewrite str_length_drop; lia]).
      unfold unbordered in Hb. rewrite forallb_forall in Hb. specialize (Hb n). rewrite Hd in Hb. discriminate Hb.
      apply in_seq. subst n. cbn [String.length] in *. lia.
Qed.

Lemma strip_suffix_app a suf : strip_suffix suf (a +:+ suf) = Some a.
Proof.
  unfold strip_suffix. rewrite str_length_app, Nat.add_sub. rewrite str_drop_app, String.eqb_refl.
  by rewrite str_take_length_app, str_take_all by done.
Qed.

Lemma envelope_body_format path outcome_text :
  contains envelope_separator path = false -> envelope_body (format_read_output path outcome_text) = Some (read_result_body outcome_text).
Proof.
  intros Hp. unfold envelope_body, format_read_output. rewrite (proj2 (strip_prefix_Some _ _ _) eq_refl). cbn [mbind option_bind].
  unfold str_split_once. rewrite str_find_first by done. cbn [mbind option_bind].
  rewrite <- str_drop_drop, !str_drop_app. apply strip_suffix_app.
Qed.

(** The card of a finished read shows what the call produced: the metadata
    narrows back to the path, the offset, the lines and the count of the
    window, and the envelope gives back the body the model saw, for any path
    that does not hold the separator itself. *)
Theorem read_card_roundtrips to_lower text request path w limit args :
  (1 <= rw_offset request)%Z -> build_window text request path = Ok w -> contains envelope_separator path = false ->
  let value := read_value path (rw_offset request) w in
  read_meta_from_meta (read_presentation_meta to_lower value) =
    Some (mk_read_meta path (rw_offset request) (wr_lines w) (wr_total_lines w) (lang_from_path to_lower path)) /\
  envelope_body (read_render limit args value) = Some (read_result_body (read_outcome_of limit args value)).
Proof. intros Ho Hw Hp. split; [by apply (read_meta_roundtrip _ text)|]. by apply envelope_body_format. Qed.

Definition demo_text : string := "one" +:+ crlf +:+ "two" +:+ lf +:+ "three" +:+ lf.
Definition demo_read_window : ReadWindow := mk_read_window 1 2 4 64.
Definition demo_window : WindowResult := mk_window_result [mk_read_line 1 "one"; mk_read_line 2 "two"] 3 false.

Lemma read_card_roundtrips_witness :
  build_window demo_text demo_read_window "/w/a.rs" = Ok demo_window /\
  read_meta_from_meta (read_presentation_meta id (read_value "/w/a.rs" 1 demo_window)) =
    Some (mk_read_meta "/w/a.rs" 1 (wr_lines demo_window) 3 (Some "rs")).
Proof.
  split; [reflexivity|].
  exact (proj1 (read_card_roundtrips id demo_text demo_read_window "/w/a.rs" demo_window 2000 Null ltac:(done) eq_refl eq_refl)).
Defined.

Lemma following_footers_reads_all_witness :
  follow_footers demo_text "/w/a.rs" (mk_read_window 1 2 4 64) 2000 (fun _ => Null) 4 1 =
    Some (numbered_from 1 ["one"; "two"; "thre... (line truncated to 4 chars)"])
  /\ exists shown, Forall2 (shown_line 4) (file_lines demo_text) shown
       /\ follow_footers demo_text "/w/a.rs" (mk_read_window 1 2 4 64) 2000 (fun _ => Null) (S (length shown)) 1 = Some (numbered_from 1 shown).
Proof.
  split; [reflexivity|].
  apply (following_footers_reads_all demo_text "/w/a.rs" (mk_read_window 1 2 4 64) 2000 (fun _ => Null)); [done|].
  intros line t Hin Ht. apply shown_length in Ht. change (String.length (cut_mark _)) with 31 in Ht. cbn [rw_max_bytes].
  assert (Hb : Forall (fun l => String.length l <= 33) (file_lines demo_text)) by (repeat constructor; cbn; lia).
  rewrite Forall_forall in Hb. specialize (Hb line Hin). lia.
Defined.
