(* ===== verification/FsPath.v ===== *)
(** Unix paths as [std::path] sees them, and the path functions of
    [crates/dsh/fs/src/local.rs] and [search.rs] over them.  A path is its
    string; names are UTF-8, on which the lossy conversions are the identity,
    and a parent or a stripped rest is spelled without repeated separators, as
    the paths here all are. *)
From Stdlib Require Import ZArith String Ascii Lia.
From stdpp Require Import base tactics list numbers strings.
From S2P Require Import Prelude Text FsText.
Open Scope string_scope.
Open Scope nat_scope.
Open Scope list_scope.

(** * [std::path] *)

Inductive Component := RootDir | CurDir | ParentDir | Normal (name : string).
#[export] Instance Component_eq_dec : EqDecision Component.
Proof. solve_decision. Defined.

Definition slash : ascii := "/"%char.
Definition is_absolute (p : string) : bool := starts_with "/" p.
Definition segment_component (s : string) : option Component :=
  if String.eqb s "" then None else if String.eqb s "." then None
  else if String.eqb s ".." then Some ParentDir else Some (Normal s).
Definition components (p : string) : list Component :=
  let segs := str_split "/" p in
  if is_absolute p then RootDir :: omap segment_component segs
  else (if bool_decide (head segs = Some ".") then [CurDir] else []) ++ omap segment_component segs.

Definition component_str (c : Component) : string :=
  match c with RootDir => "/" | CurDir => "." | ParentDir => ".." | Normal s => s end.

Fixpoint ends_with_slash (p : string) : bool :=
  match p with
  | EmptyString => false
  | String c EmptyString => Ascii.eqb c slash
  | String _ p' => ends_with_slash p'
  end.
(** [PathBuf::push], which is also [base.join(p)]. *)
Definition path_push (base p : string) : string :=
  if is_absolute p then p
  else if String.eqb base "" || ends_with_slash base then base +:+ p else base +:+ "/" +:+ p.
Definition path_of (l : list Component) : string := foldl (fun acc c => path_push acc (component_str c)) "" l.

(** [Path::parent], [PathBuf::pop], [Path::file_name], [Path::strip_prefix]. *)
Definition parent (p : string) : option string :=
  match reverse (components p) with
  | [] | RootDir :: _ => None
  | _ :: rest => Some (path_of (reverse rest))
  end.
Definition path_pop (p : string) : string := default p (parent p).
Definition file_name (p : string) : option string :=
  match last (components p) with Some (Normal s) => Some s | _ => None end.
Fixpoint strip_components (pre l : list Component) : option (list Component) :=
  match pre, l with
  | [], _ => Some l
  | c :: pre, d :: l => if decide (c = d) then strip_components pre l else None
  | _, [] => None
  end.
Definition path_strip_prefix (p pre : string) : option string := path_of <$> strip_components (components pre) (components p).

(** * The functions of the source *)

Definition absolutize_step (out : string) (c : Component) : string :=
  match c with
  | CurDir => out
  | ParentDir => path_pop out
  | _ => path_push out (component_str c)
  end.
Definition absolutize (base path : string) : string :=
  let joined := if is_absolute path then path else path_push base path in
  foldl absolutize_step "" (components joined).

(** [LocalFileSystem::contains] over target keys. *)
Definition key_contains (parent_key child_key : string) : bool := bool_decide (is_Some (path_strip_prefix child_key parent_key)).

(** [to_workdir_relative] of [search.rs]. *)
Definition to_workdir_relative (path workdir : string) : string :=
  if negb (is_absolute path) then path
  else match path_strip_prefix path workdir with
       | Some rel => if String.eqb rel "" then "." else rel
       | None => path
       end.

(** [resolve_root] of [search.rs]. *)
Definition resolve_root (workdir : string) (path : option string) : string :=
  match path with
  | Some path => if is_absolute path then path else path_push workdir path
  | None => workdir
  end.

(** * Normal forms *)

(** A name a directory can hold. *)
Definition good_name (s : string) : Prop := s <> "" /\ s <> "." /\ s <> ".." /\ contains "/" s = false.
Definition rooted (names : list string) : string := "/" +:+ join "/" names.

Lemma split_slash_app a b : contains "/" a = false -> str_split "/" (a +:+ "/" +:+ b) = a :: str_split "/" b.
Proof.
  induction a as [|c a IH]; intros H.
  - rewrite str_app_nil_l, split_app_match by done. done.
  - cbn [contains] in H. apply orb_false_iff in H as [Hc H]. rewrite str_app_cons. apply split_step; [|auto].
    cbn [starts_with] in *. by destruct (ascii_dec "/" c).
Qed.

Lemma split_slash_free a : contains "/" a = false -> str_split "/" a = [a].
Proof.
  induction a as [|c a IH]; intros H; [done|]. cbn [contains] in H. apply orb_false_iff in H as [Hc H].
  rewrite (split_step _ _ _ a []); [done|done|auto].
Qed.

Lemma split_join names : names <> [] -> Forall (fun s => contains "/" s = false) names -> str_split "/" (join "/" names) = names.
Proof.
  intros Hn H. induction H as [|s names Hs _ IH]; [done|]. destruct names as [|t names].
  - by apply split_slash_free.
  - rewrite join_cons_nonempty by done. rewrite split_slash_app by done. by rewrite IH.
Qed.

Lemma components_rooted names : Forall good_name names -> components (rooted names) = RootDir :: (Normal <$> names).
Proof.
  intros H. unfold components, rooted. change (is_absolute _) with true. cbv iota. f_equal.
  rewrite split_app_match by done. destruct (decide (names = [])) as [->|Hn]; [done|].
  rewrite split_join by first [done|eapply Forall_impl; [exact H|by intros ? (_ & _ & _ & ?)]]. clear Hn.
  change (omap segment_component names = Normal <$> names).
  induction H as [|s names (H1 & H2 & H3 & _) _ IH]; [done|]. rewrite fmap_cons, <- IH.
  change (omap segment_component (s :: names)) with
    (match segment_component s with Some y => y :: omap segment_component names | None => omap segment_component names end).
  unfold segment_component at 1. by destruct (String.eqb_spec s ""), (String.eqb_spec s "."), (String.eqb_spec s "..").
Qed.

Lemma good_not_absolute s : good_name s -> is_absolute s = false.
Proof. intros (_ & _ & _ & H). destruct s as [|c s]; [done|]. cbn [contains] in H. by apply orb_false_iff in H as [H _]. Qed.

Lemma ends_with_slash_app a b : b <> "" -> ends_with_slash (a +:+ b) = ends_with_slash b.
Proof.
  intros Hb. induction a as [|c a IH]; [done|]. rewrite str_app_cons. cbn [ends_with_slash].
  destruct (a +:+ b) eqn:E; [|done]. exfalso. apply Hb. destruct a; [done|discriminate E].
Qed.

Lemma starts_with_slash c s : starts_with "/" (String c s) = Ascii.eqb c slash.
Proof.
  cbn [starts_with]. destruct (ascii_dec "/" c) as [<-|]; [done|]. symmetry. apply Ascii.eqb_neq. unfold slash. congruence.
Qed.

Lemma good_no_end_slash s : good_name s -> ends_with_slash s = false.
Proof.
  intros (Hs & _ & _ & H). clear -Hs H. induction s as [|c s IH]; [done|]. cbn [contains] in H. apply orb_false_iff in H as [Hc H].
  cbn [ends_with_slash]. destruct s as [|d s]; [|by apply IH].
  by rewrite <- (starts_with_slash c "").
Qed.

Lemma rooted_nonempty names : rooted names <> "".
Proof. done. Qed.

Lemma rooted_end names s : good_name s -> ends_with_slash (rooted (names ++ [s])) = false.
Proof.
  intros Hs. pose proof (good_no_end_slash s Hs) as He. destruct Hs as (Hne & _).
  unfold rooted. induction names as [|t names IH]; cbn [app].
  - by rewrite ends_with_slash_app.
  - rewrite join_cons_nonempty by (by destruct names). rewrite (str_app_assoc "/" t), ends_with_slash_app; [|by destruct (names ++ [s])]. done.
Qed.

Lemma join_snoc sep names s : names <> [] -> join sep (names ++ [s]) = join sep names +:+ sep +:+ s.
Proof.
  induction names as [|t names IH]; [done|]. intros _. destruct names as [|u names]; [done|].
  cbn [app] in *. rewrite !(join_cons_nonempty _ t) by done. rewrite IH by done. by rewrite !str_app_assoc.
Qed.

Lemma push_rooted names s : Forall good_name names -> good_name s -> path_push (rooted names) s = rooted (names ++ [s]).
Proof.
  intros Hn Hs. unfold path_push. rewrite good_not_absolute by done. cbn [String.eqb rooted orb].
  destruct (decide (names = [])) as [->|Hne]; [done|].
  destruct (exists_last Hne) as (names' & t & ->). apply Forall_app in Hn as [Hn [Ht _]%Forall_cons].
  replace (String.eqb (rooted (names' ++ [t])) "") with false by done. cbn [orb].
  rewrite rooted_end by done. unfold rooted. rewrite (join_snoc _ (names' ++ [t])) by done. by rewrite !str_app_assoc.
Qed.

Lemma path_of_rooted names : Forall good_name names -> path_of (RootDir :: (Normal <$> names)) = rooted names.
Proof.
  intros H. unfold path_of. cbn [foldl]. change (path_push "" (component_str RootDir)) with (rooted []).
  rewrite <- (app_nil_l names) at 2. revert H. assert (Hp : Forall good_name []) by constructor. revert Hp.
  generalize (@nil string) as done_. induction names as [|s names IH]; intros done_ Hd H; [by rewrite app_nil_r|].
  apply Forall_cons in H as [Hs H]. cbn [fmap list_fmap foldl component_str]. rewrite push_rooted by done.
  fold (@fmap list _ _ _ Normal names). rewrite IH; [by rewrite <- app_assoc| |done]. apply Forall_app. by split; [|constructor].
Qed.

Lemma pop_rooted names : Forall good_name names -> path_pop (rooted names) = rooted (take (length names - 1) names).
Proof.
  intros H. unfold path_pop, parent. rewrite components_rooted by done. destruct (decide (names = [])) as [->|Hne]; [done|].
  destruct (exists_last Hne) as (names' & t & ->). rewrite fmap_app, reverse_cons. cbn [fmap list_fmap].
  rewrite reverse_snoc. cbn [app]. rewrite reverse_app, reverse_involutive. change (reverse [RootDir]) with [RootDir]. cbn [app default].
  apply Forall_app in H as [Hn _]. rewrite path_of_rooted by done. rewrite length_app. cbn. rewrite Nat.add_sub, take_app_length. done.
Qed.

(** * Absolute paths are normal *)

Definition plain_component (c : Component) : Prop := match c with ParentDir => True | Normal s => good_name s | _ => False end.

Lemma segments_plain segs : Forall (fun s => contains "/" s = false) segs -> Forall plain_component (omap segment_component segs).
Proof.
  induction 1 as [|s segs Hs _ IH]; [constructor|].
  change (omap segment_component (s :: segs)) with
    (match segment_component s with Some y => y :: omap segment_component segs | None => omap segment_component segs end).
  unfold segment_component at 1.
  destruct (String.eqb_spec s ""), (String.eqb_spec s "."), (String.eqb_spec s ".."); try done; by constructor.
Qed.

Lemma components_absolute p : is_absolute p = true -> exists cs, components p = RootDir :: cs /\ Forall plain_component cs.
Proof.
  intros H. unfold components. rewrite H. eexists. split; [done|]. by apply segments_plain, split_pieces_free.
Qed.

Definition fold_dots (names : list string) (c : Component) : list string :=
  match c with ParentDir => take (length names - 1) names | Normal s => names ++ [s] | _ => names end.

Lemma absolutize_fold names cs :
  Forall good_name names -> Forall plain_component cs ->
  foldl absolutize_step (rooted names) cs = rooted (foldl fold_dots names cs) /\ Forall good_name (foldl fold_dots names cs).
Proof.
  intros Hn Hc. revert names Hn. induction Hc as [|c cs Hc _ IH]; intros names Hn; [done|]. cbn [foldl].
  destruct c; try done; cbn [absolutize_step fold_dots component_str].
  - rewrite pop_rooted by done. apply IH. by apply Forall_take.
  - rewrite push_rooted by done. apply IH. apply Forall_app. by split; [|constructor].
Qed.

Lemma absolutize_absolute base path :
  is_absolute (if is_absolute path then path else path_push base path) = true ->
  exists cs, components (if is_absolute path then path else path_push base path) = RootDir :: cs /\ Forall plain_component cs /\
    absolutize base path = rooted (foldl fold_dots [] cs) /\ Forall good_name (foldl fold_dots [] cs).
Proof.
  intros H. destruct (components_absolute _ H) as (cs & E & Hcs). exists cs. split_and!; [done..| |].
  - unfold absolutize. rewrite E. apply (absolutize_fold [] cs); [constructor|done].
  - apply (absolutize_fold [] cs); [constructor|done].
Qed.

Lemma join_absolute bs path : is_absolute (if is_absolute path then path else path_push (rooted bs) path) = true.
Proof.
  destruct (is_absolute path) eqn:E; [done|]. unfold path_push. rewrite E. by destruct (_ || _).
Qed.

(** From an absolute base every path becomes an absolute path without dots. *)
Lemma absolutize_rooted bs path : exists names, Forall good_name names /\ absolutize (rooted bs) path = rooted names.
Proof. destruct (absolutize_absolute (rooted bs) path (join_absolute bs path)) as (cs & _ & _ & ? & ?). eauto. Qed.

Lemma fold_dots_names done_ names : foldl fold_dots done_ (Normal <$> names) = done_ ++ names.
Proof.
  revert done_. induction names as [|s names IH]; intros done_; [by rewrite app_nil_r|].
  rewrite fmap_cons. cbn [foldl fold_dots]. rewrite IH. by rewrite <- app_assoc.
Qed.

Lemma absolutize_normal base names : Forall good_name names -> absolutize base (rooted names) = rooted names.
Proof.
  intros H. unfold absolutize. change (is_absolute (rooted names)) with true. cbv iota. rewrite components_rooted by done.
  cbn [foldl]. change (absolutize_step "" RootDir) with (rooted []).
  destruct (absolutize_fold [] (Normal <$> names)) as [-> _]; [constructor|by apply Forall_fmap|]. by rewrite fold_dots_names.
Qed.

#[local] Instance Normal_inj : Inj (=) (=) Normal.
Proof. by intros ?? [= ->]. Qed.

Lemma strip_components_spec pre l rest : strip_components pre l = Some rest <-> l = pre ++ rest.
Proof.
  revert l. induction pre as [|c pre IH]; intros l; cbn [strip_components app]; [split; congruence|].
  destruct l as [|d l]; [done|]. destruct (decide (c = d)) as [->|]; [rewrite IH|]; split; congruence.
Qed.

Lemma contains_rooted a b : Forall good_name a -> Forall good_name b -> key_contains (rooted a) (rooted b) = true <-> exists c, b = a ++ c.
Proof.
  intros Ha Hb. unfold key_contains, path_strip_prefix. rewrite bool_decide_eq_true, fmap_is_Some, !components_rooted by done.
  cbn [strip_components]. destruct (decide (RootDir = RootDir)); [|done].
  split.
  - intros [rest E%strip_components_spec]. exists (drop (length a) b).
    assert (length a <= length b) as Hl by (apply (f_equal length) in E; rewrite length_app, !length_fmap in E; lia).
    rewrite <- (take_drop (length a) b) at 1. f_equal.
    apply (f_equal (take (length a))) in E. rewrite <- fmap_take in E. rewrite take_app_le, (take_ge (Normal <$> a)) in E by (rewrite ?length_fmap; lia).
    by apply (inj (fmap Normal)) in E.
  - intros (c & ->). exists (Normal <$> c). apply strip_components_spec. by rewrite fmap_app.
Qed.

(** Whatever a tool is asked to open, the path shown and used is absolute,
    without dot segments and unchanged by resolving it again from anywhere, and
    containment of targets is containment of directories: a key is inside
    another exactly when its names start with all the names of the other, so a
    sibling whose name merely begins alike is outside. *)
Theorem paths_normal_and_contained bs path :
  Forall good_name bs ->
  exists names, Forall good_name names /\ absolutize (rooted bs) path = rooted names /\
    (forall base, absolutize base (rooted names) = rooted names) /\
    (key_contains (rooted bs) (absolutize (rooted bs) path) = true <-> exists inside, names = bs ++ inside).
Proof.
  intros Hb. destruct (absolutize_rooted bs path) as (names & Hn & E). exists names. rewrite E. split_and!; try done.
  - intros. by apply absolutize_normal.
  - by apply contains_rooted.
Qed.

Lemma paths_normal_and_contained_witness :
  Forall good_name ["w"; "repo"] /\
  absolutize "/w/repo" "a//./b/../../../repo2/c" = "/w/repo2/c" /\ key_contains "/w/repo" "/w/repo2/c" = false /\
  exists names, absolutize "/w/repo" "src/x.rs" = rooted names.
Proof.
  assert (H : Forall good_name ["w"; "repo"]) by (repeat constructor; done).
  split_and!; [done|reflexivity|reflexivity|].
  destruct (paths_normal_and_contained ["w"; "repo"] "src/x.rs" H) as (names & _ & E & _). exists names. exact E.
Defined.

Lemma push_nonempty base s : base <> "" -> path_push base s <> "".
Proof.
  intros Hb. unfold path_push. destruct (is_absolute s) eqn:E; [by destruct s|]. destruct base; [done|]. by destruct (_ || _).
Qed.

Lemma path_of_nonempty acc (names : list string) :
  acc <> "" -> foldl (fun acc c => path_push acc (component_str c)) acc (Normal <$> names) <> "".
Proof. revert acc. induction names as [|s names IH]; intros acc H; [done|]. rewrite fmap_cons. cbn [foldl]. by apply IH, push_nonempty. Qed.

(** A path below the working directory is shown relative to it. *)
Lemma relative_inside workdir rest :
  Forall good_name workdir -> Forall good_name rest -> rest <> [] ->
  to_workdir_relative (rooted (workdir ++ rest)) (rooted workdir) = path_of (Normal <$> rest).
Proof.
  intros Hw Hr Hn. unfold to_workdir_relative, path_strip_prefix. change (is_absolute _) with true. cbn [negb].
  rewrite !components_rooted by (try apply Forall_app; done). cbn [strip_components]. destruct (decide (RootDir = RootDir)); [|done].
  rewrite (proj2 (strip_components_spec _ _ (Normal <$> rest))) by (by rewrite fmap_app). cbn [fmap option_fmap option_map].
  destruct (String.eqb_spec (path_of (Normal <$> rest)) "") as [E|]; [exfalso|done]. revert E.
  destruct rest as [|s rest]; [done|]. apply Forall_cons in Hr as [Hs _]. unfold path_of. rewrite fmap_cons. cbn [foldl component_str].
  apply path_of_nonempty. unfold path_push. rewrite good_not_absolute by done. cbn. apply Hs.
Qed.
