(* ===== verification/FsLocal.v ===== *)
(** The local filesystem provider of [crates/dsh/fs/src/local.rs]: resolution,
    probes, guarded reads, and the staged, atomically published mutations.

    The operating system is a parameter: every call may answer anything and
    change the world, other processes included.  The calls made are logged with
    their answers, so the theorems say which calls a method makes, in which
    order and after which answers. *)
From Stdlib Require Import ZArith String Ascii Lia.
From stdpp Require Import base tactics list numbers strings.
From S2P Require Import Prelude Text Utf8 FsText FsPath.
Open Scope string_scope.
Open Scope nat_scope.
Open Scope list_scope.

Definition BINARY_SAMPLE_BYTES : nat := 8192.
Definition DEFAULT_DIFF_BASIS_MAX_BYTES : nat := 10 * 1024 * 1024.

(** * Data *)

Abbreviation FsTargetKey := string (only parsing).
Abbreviation FsVersion := string (only parsing).

Inductive FsObservation := Present (version : FsVersion) | Absent.
Record FsTarget := mk_target { ft_key : FsTargetKey; ft_display_path : string }.
Inductive FsEntryType := EntryFile | EntryDirectory | EntryOther.
Inductive FsPathEntryType := PathFile | PathDirectory | PathSymlink | PathOther.
Record FsInfo := mk_info { fi_version : FsVersion; fi_entry_type : FsEntryType; fi_size : option Z }.
Record FsPathInfo := mk_path_info { fp_version : FsVersion; fp_entry_type : FsPathEntryType; fp_size : option Z }.
Record FsDirEntry := mk_dir_entry { fd_name : string; fd_entry_type : FsEntryType; fd_target : FsTarget; fd_version : option FsVersion; fd_size : option Z }.
Inductive FsWriteIntent := CreateIfAbsent | ReplaceIfVersion (version : FsVersion).
Inductive FsWriteOperation := OpCreate | OpUpdate.
Record FsWriteOutcome := mk_write_outcome { wo_operation : FsWriteOperation; wo_version : FsVersion; wo_before : option string; wo_after : string }.
Record FsEditOutcome := mk_edit_outcome { eo_version : FsVersion; eo_before : string; eo_after : string }.

(** [std::fs::Metadata], the fields the provider reads, and [std::io::Error]. *)
Inductive FileKind := KFile | KDirectory | KSymlink | KOther.
Record FileMetadata := mk_metadata {
  md_kind : FileKind; md_dev : Z; md_ino : Z; md_len : Z;
  md_mtime : Z; md_mtime_nsec : Z; md_ctime : Z; md_ctime_nsec : Z; md_mode : Z }.
Inductive IoErrorKind := IoNotFound | IoNotADirectory | IoPermissionDenied | IoAlreadyExists | IoOther.
Record IoErr := mk_io_error { io_kind : IoErrorKind; io_text : string }.

#[export] Instance FileKind_eq_dec : EqDecision FileKind.
Proof. solve_decision. Defined.
#[export] Instance IoErrorKind_eq_dec : EqDecision IoErrorKind.
Proof. solve_decision. Defined.
#[export] Instance FsErrorCode_eq_dec : EqDecision FsErrorCode.
Proof. solve_decision. Defined.

Definition is_file (m : FileMetadata) : bool := bool_decide (md_kind m = KFile).
Definition is_dir (m : FileMetadata) : bool := bool_decide (md_kind m = KDirectory).

Definition decimal_signed (n : Z) : string := if (n <? 0)%Z then "-" +:+ decimal (- n) else decimal n.

(** The version token; the nanosecond sums are [i128] and cannot overflow. *)
Definition version_of (m : FileMetadata) : FsVersion :=
  let mtime_ns := (md_mtime m * 1000000000 + md_mtime_nsec m)%Z in
  let ctime_ns := (md_ctime m * 1000000000 + md_ctime_nsec m)%Z in
  decimal (md_dev m) +:+ ":" +:+ decimal (md_ino m) +:+ ":" +:+ decimal (md_len m) +:+ ":" +:+
  decimal_signed mtime_ns +:+ ":" +:+ decimal_signed ctime_ns.

Definition entry_type_of (m : FileMetadata) : FsEntryType :=
  if is_file m then EntryFile else if is_dir m then EntryDirectory else EntryOther.
Definition is_absent_error (e : IoErr) : bool := bool_decide (io_kind e = IoNotFound) || bool_decide (io_kind e = IoNotADirectory).
Definition is_permission_error (e : IoErr) : bool := bool_decide (io_kind e = IoPermissionDenied).
Definition io_code (e : IoErr) : FsErrorCode := if is_permission_error e then PermissionDenied else IoError.

(** * The operating system *)

Class HostFs (W : Type) := {
  os_canonicalize : string -> W -> result string IoErr * W;
  os_metadata : string -> W -> result FileMetadata IoErr * W;
  os_symlink_metadata : string -> W -> result FileMetadata IoErr * W;
  os_read : string -> W -> result string IoErr * W;
  (** The names of the entries, or the failure of one of them. *)
  os_read_dir : string -> W -> result (list (result string IoErr)) IoErr * W;
  os_create_dir_all : string -> W -> result unit IoErr * W;
  (** [tempfile::Builder]: directory, prefix and suffix; the path created. *)
  os_tempfile : string -> string -> string -> W -> result string IoErr * W;
  os_write_all : string -> string -> W -> result unit IoErr * W;
  os_sync_all : string -> W -> result unit IoErr * W;
  os_set_permissions : string -> Z -> W -> result unit IoErr * W;
  os_hard_link : string -> string -> W -> result unit IoErr * W;
  os_persist : string -> string -> W -> result unit IoErr * W;
  (** The drop of a temporary file that was not persisted. *)
  os_remove_temp : string -> W -> W;
}.

(** What the log keeps. *)
Inductive OsCall :=
| CallCanonicalize (path : string) (r : result string IoErr)
| CallMetadata (path : string) (r : result FileMetadata IoErr)
| CallSymlinkMetadata (path : string) (r : result FileMetadata IoErr)
| CallRead (path : string) (r : result string IoErr)
| CallReadDir (path : string) (r : result (list (result string IoErr)) IoErr)
| CallCreateDirAll (path : string) (r : result unit IoErr)
| CallTempfile (directory prefix suffix : string) (r : result string IoErr)
| CallWriteAll (temp content : string) (r : result unit IoErr)
| CallSyncAll (temp : string) (r : result unit IoErr)
| CallSetPermissions (path : string) (mode : Z) (r : result unit IoErr)
| CallHardLink (temp path : string) (r : result unit IoErr)
| CallPersist (temp path : string) (r : result unit IoErr)
| CallRemoveTemp (temp : string).

(** Fallible steps over the world and the log. *)
Definition FsIo (W A : Type) : Type := W -> result A FsError * W * list OsCall.
Section io.
Context {W : Type}.
Definition io_ret {A} (a : A) : FsIo W A := fun w => (Ok a, w, []).
Definition io_fail {A} (e : FsError) : FsIo W A := fun w => (Err e, w, []).
Definition io_bind {A B} (m : FsIo W A) (k : A -> FsIo W B) : FsIo W B := fun w =>
  match m w with
  | (Ok a, w, l) => let '(r, w, l') := k a w in (r, w, l ++ l')
  | (Err e, w, l) => (Err e, w, l)
  end.
Definition io_lift {A} (r : result A FsError) : FsIo W A := fun w => (r, w, []).
(** A system call: its answer is a value, never a failure of the step. *)
Definition io_call {R} (run_call : R -> OsCall) (op : W -> R * W) : FsIo W R := fun w =>
  let '(r, w) := op w in (Ok r, w, [run_call r]).
End io.
Notation "'io!' x := m 'in' k" := (io_bind m (fun x => k))
  (at level 10, x pattern, m at level 100, k at level 200) : keel_scope.
Open Scope keel_scope.

Section local.
Context {W : Type} `{HostFs W}.

(** An abort signal, read when it is consulted. *)
Definition AbortSignal : Type := W -> bool.

Definition canonicalize p : FsIo W _ := io_call (CallCanonicalize p) (os_canonicalize p).
Definition fs_metadata p : FsIo W _ := io_call (CallMetadata p) (os_metadata p).
Definition symlink_metadata p : FsIo W _ := io_call (CallSymlinkMetadata p) (os_symlink_metadata p).
Definition fs_read p : FsIo W _ := io_call (CallRead p) (os_read p).

Definition check_aborted (signal : option AbortSignal) (verb : string) : FsIo W unit := fun w =>
  match signal with
  | Some signal => if signal w then (Err (mk_fs_error (verb +:+ " aborted") Aborted), w, []) else (Ok tt, w, [])
  | None => (Ok tt, w, [])
  end.

Record LocalFileSystem := mk_local { lf_cwd : string; lf_diff_basis_max_bytes : nat }.

(** [LocalFileSystem::new]; [current_dir] is the process's. *)
Definition local_new (cwd : option string) (diff_basis_max_bytes : option nat) (current_dir : result string IoErr) : result LocalFileSystem string :=
  let max := default DEFAULT_DIFF_BASIS_MAX_BYTES diff_basis_max_bytes in
  if (max =? 0)%nat then Err "fs-local: diff_basis_max_bytes must be a positive integer"
  else let? cwd := match cwd with Some cwd => Ok cwd | None => map_err io_text current_dir end in Ok (mk_local cwd max).

(** The walk to the nearest ancestor that exists; [missing] is innermost first. *)
Fixpoint resolve_ancestor (fuel : nat) (display_path : string) (missing : list string) (ancestor : option string) : FsIo W FsTarget :=
  match fuel, ancestor with
  | S fuel, Some current =>
      io! r := canonicalize current in
      match r with
      | Ok real => io_ret (mk_target (foldl path_push real (reverse missing)) display_path)
      | Err e =>
          if is_absent_error e
          then resolve_ancestor fuel display_path (missing ++ [default "" (file_name current)]) (parent current)
          else io_fail (mk_fs_error ("cannot resolve " +:+ dquoted display_path +:+ ": " +:+ io_text e) IoError)
      end
  | _, _ => io_ret (mk_target display_path display_path)
  end.

Definition resolve (fs : LocalFileSystem) (path : string) (cwd : option string) (signal : option AbortSignal) : FsIo W FsTarget :=
  io! _ := check_aborted signal "resolve" in
  if String.eqb (trim path) "" then io_fail (mk_fs_error "file_path must be a non-empty string" NotFound)
  else
    let display := absolutize (default (lf_cwd fs) cwd) path in
    io! r := canonicalize display in
    match r with
    | Ok real => io_ret (mk_target real display)
    | Err e =>
        if bool_decide (io_kind e = IoNotADirectory)
        then io_fail (mk_fs_error ("cannot resolve " +:+ dquoted display +:+ ": a parent path segment is not a directory") NotFound)
        else if bool_decide (io_kind e = IoNotFound)
        then resolve_ancestor (S (length (components display))) display [default "" (file_name display)] (parent display)
        else io_fail (mk_fs_error ("cannot resolve " +:+ dquoted display +:+ ": " +:+ io_text e) IoError)
    end.

Definition probe (key : FsTargetKey) : FsIo W (option FileMetadata) :=
  io! r := fs_metadata key in
  match r with
  | Ok m => io_ret (Some m)
  | Err e => if is_absent_error e then io_ret None
             else io_fail (mk_fs_error ("cannot stat " +:+ dquoted key +:+ ": " +:+ io_text e) (io_code e))
  end.

Definition stat (target : FsTarget) (signal : option AbortSignal) : FsIo W (option FsInfo) :=
  io! _ := check_aborted signal "stat" in
  io! meta := probe (ft_key target) in
  io_ret (m ← meta;
          Some (mk_info (version_of m) (entry_type_of m) (if is_file m then Some (md_len m) else None))).

Definition lstat (fs : LocalFileSystem) (path : string) (cwd : option string) (signal : option AbortSignal) : FsIo W (option FsPathInfo) :=
  io! _ := check_aborted signal "lstat" in
  if String.eqb (trim path) "" then io_fail (mk_fs_error "file_path must be a non-empty string" NotFound)
  else
    let full := absolutize (default (lf_cwd fs) cwd) path in
    io! r := symlink_metadata full in
    match r with
    | Err e => if is_absent_error e then io_ret None
               else io_fail (mk_fs_error ("cannot lstat " +:+ dquoted full +:+ ": " +:+ io_text e) IoError)
    | Ok m =>
        let entry_type := match md_kind m with KSymlink => PathSymlink | KFile => PathFile | KDirectory => PathDirectory | KOther => PathOther end in
        io_ret (Some (mk_path_info (version_of m) entry_type (if is_file m then Some (md_len m) else None)))
    end.

Definition cannot (verb : string) (target : FsTarget) (why : string) : string :=
  "cannot " +:+ verb +:+ " " +:+ dquoted (ft_display_path target) +:+ ": " +:+ why.

Definition read_raw (target : FsTarget) (verb : string) : FsIo W string :=
  io! meta := probe (ft_key target) in
  match meta with
  | None => io_fail (mk_fs_error (cannot verb target "not found") NotFound)
  | Some m =>
      if negb (is_file m) then io_fail (mk_fs_error (cannot verb target "not a regular file") NotRegularFile)
      else
        io! r := fs_read (ft_key target) in
        match r with
        | Ok raw => io_ret raw
        | Err e => io_fail (mk_fs_error (cannot verb target (io_text e)) (io_code e))
        end
  end.

Definition has_nul (raw : string) : bool := contains (String (ascii_of_nat 0) EmptyString) raw.
(** [String::from_utf8]. *)
Definition from_utf8 (raw : string) : option string := if (valid_up_to raw =? String.length raw)%nat then Some raw else None.

Definition read_text (target : FsTarget) (signal : option AbortSignal) : FsIo W string :=
  io! _ := check_aborted signal "read" in
  io! raw := read_raw target "read" in
  if has_nul (str_take BINARY_SAMPLE_BYTES raw) then io_fail (mk_fs_error (cannot "read" target "binary file") NotText)
  else match from_utf8 raw with
       | Some text => io_ret text
       | None => io_fail (mk_fs_error (cannot "read" target "invalid UTF-8 text") NotText)
       end.

Fixpoint collect_names (entries : list (result string IoErr)) : result (list string) IoErr :=
  match entries with
  | [] => Ok []
  | entry :: entries => let? name := entry in let? names := collect_names entries in Ok (name :: names)
  end.

Fixpoint list_children (fs : LocalFileSystem) (target : FsTarget) (signal : option AbortSignal) (names : list string) : FsIo W (list FsDirEntry) :=
  match names with
  | [] => io_ret []
  | name :: names =>
      io! _ := check_aborted signal "list" in
      io! child := resolve fs name (Some (ft_key target)) signal in
      let child := mk_target (ft_key child) (path_push (ft_display_path target) name) in
      io! info := probe (ft_key child) in
      let entry := mk_dir_entry name (default EntryOther (entry_type_of <$> info)) child (version_of <$> info)
                     (m ← info; if is_file m then Some (md_len m) else None) in
      io! rest := list_children fs target signal names in
      io_ret (entry :: rest)
  end.

Definition list_dir (fs : LocalFileSystem) (target : FsTarget) (signal : option AbortSignal) : FsIo W (list FsDirEntry) :=
  io! _ := check_aborted signal "list" in
  io! meta := probe (ft_key target) in
  match meta with
  | None => io_fail (mk_fs_error (cannot "list" target "not found") NotFound)
  | Some m =>
      if negb (is_dir m) then io_fail (mk_fs_error (cannot "list" target "not a directory") NotDirectory)
      else
        io! r := io_call (CallReadDir (ft_key target)) (os_read_dir (ft_key target)) in
        match r with
        | Err e => io_fail (mk_fs_error (cannot "list" target (io_text e)) (io_code e))
        | Ok entries =>
            match collect_names entries with
            | Err e => io_fail (mk_fs_error (cannot "list" target (io_text e)) IoError)
            | Ok names => list_children fs target signal (sort_by string_leb names)
            end
        end
  end.

Definition read_text_for_diff (fs : LocalFileSystem) (key : FsTargetKey) : FsIo W (option string) :=
  io! r := fs_metadata key in
  match r with
  | Err _ => io_ret None
  | Ok m =>
      if negb (is_file m) || (Z.of_nat (lf_diff_basis_max_bytes fs) <=? md_len m)%Z then io_ret None
      else
        io! r := fs_read key in
        match r with
        | Err _ => io_ret None
        | Ok raw =>
            if (lf_diff_basis_max_bytes fs <=? String.length raw)%nat || has_nul raw then io_ret None
            else io_ret (normalize_line_endings <$> from_utf8 raw)
        end
  end.

(** The publication of a staged file; the temporary file is removed on the way
    out unless it was renamed into place. *)
Definition remove_temp (temp : string) : FsIo W unit := fun w => (Ok tt, os_remove_temp temp w, [CallRemoveTemp temp]).
Definition finally {A} (m : FsIo W A) (cleanup : FsIo W unit) : FsIo W A := fun w =>
  let '(r, w, l) := m w in let '(_, w, l') := cleanup w in (r, w, l ++ l').

Definition write_error (key : string) (e : IoErr) : FsError :=
  mk_fs_error ("cannot write " +:+ dquoted key +:+ ": " +:+ io_text e) (io_code e).
Definition not_observed (display_path : string) : FsError :=
  mk_fs_error ("cannot overwrite existing " +:+ dquoted display_path +:+ " without reading it first") NotObserved.

Definition io_or {A} (key : string) (r : result A IoErr) : FsIo W A := io_lift (map_err (write_error key) r).

(** The steps before the publication. *)
Definition stage_content (key temp content : string) (mode : option Z) : FsIo W unit :=
  io! r := io_call (CallWriteAll temp content) (os_write_all temp content) in
  io! _ := io_or key r in
  io! r := io_call (CallSyncAll temp) (os_sync_all temp) in
  io! _ := io_or key r in
  match mode with
  | Some mode => io! r := io_call (CallSetPermissions temp mode) (os_set_permissions temp mode) in io_or key r
  | None => io_ret tt
  end.

Definition publish_new (key temp display_path : string) : FsIo W unit :=
  io! r := io_call (CallHardLink temp key) (os_hard_link temp key) in
  match r with
  | Ok _ => io_ret tt
  | Err e =>
      io! existing := symlink_metadata key in
      match existing with
      | Ok m =>
          if negb (is_file m)
          then io_fail (mk_fs_error ("cannot write " +:+ dquoted display_path +:+ ": not a regular file") NotRegularFile)
          else io_fail (not_observed display_path)
      | Err _ =>
          if bool_decide (io_kind e = IoAlreadyExists) then io_fail (not_observed display_path)
          else io_fail (write_error key e)
      end
  end.

Definition write_file_atomic (key content : string) (mode : option Z) (create_if_absent : option string) : FsIo W unit :=
  let directory := default "/" (parent key) in
  io! r := io_call (CallCreateDirAll directory) (os_create_dir_all directory) in
  match r with
  | Err e => io_fail (mk_fs_error ("cannot write " +:+ dquoted key +:+ ": " +:+ io_text e) IoError)
  | Ok _ =>
      let prefix := "." +:+ default "" (file_name key) +:+ "." in
      io! r := io_call (CallTempfile directory prefix ".tmp") (os_tempfile directory prefix ".tmp") in
      io! temp := io_or key r in
      match create_if_absent with
      | Some display_path =>
          finally (io! _ := stage_content key temp content mode in publish_new key temp display_path) (remove_temp temp)
      | None =>
          io! _ := (fun w => match stage_content key temp content mode w with
                             | (Err e, w, l) => let '(_, w, l') := remove_temp temp w in (Err e, w, l ++ l')
                             | staged => staged
                             end) in
          io! r := io_call (CallPersist temp key) (os_persist temp key) in
          match r with
          | Ok _ => io_ret tt
          | Err e => io! _ := remove_temp temp in io_fail (write_error key e)
          end
      end
  end.

Definition version_after_write (key : FsTargetKey) : FsIo W FsVersion :=
  io! meta := probe key in
  io_ret (match meta with Some m => version_of m | None => "missing:" +:+ key end).

(** The guard of a write, after the probe. *)
Definition write_guard (target : FsTarget) (expected : option FsWriteIntent) (existing : option FileMetadata) : result unit FsError :=
  match existing with
  | Some m => if negb (is_file m) then Err (mk_fs_error (cannot "write" target "not a regular file") NotRegularFile)
              else match expected with
                   | Some (ReplaceIfVersion version) =>
                       if negb (String.eqb (version_of m) version)
                       then Err (mk_fs_error (cannot "write" target "file changed since it was read") StaleVersion)
                       else Ok tt
                   | Some CreateIfAbsent => Err (not_observed (ft_display_path target))
                   | None => Ok tt
                   end
  | None => match expected with
            | Some (ReplaceIfVersion _) => Err (mk_fs_error (cannot "write" target "file no longer exists") StaleVersion)
            | _ => Ok tt
            end
  end.

Definition permission_bits (m : FileMetadata) : Z := Z.land (md_mode m) 511.

Definition write_text (fs : LocalFileSystem) (target : FsTarget) (content : string) (expected : option FsWriteIntent)
    (signal : option AbortSignal) : FsIo W FsWriteOutcome :=
  io! _ := check_aborted signal "write" in
  io! existing := probe (ft_key target) in
  io! _ := io_lift (write_guard target expected existing) in
  io! before := (if bool_decide (is_Some existing) && (String.length content <? lf_diff_basis_max_bytes fs)%nat
                 then read_text_for_diff fs (ft_key target) else io_ret None) in
  io! _ := write_file_atomic (ft_key target) content (permission_bits <$> existing)
             (match expected with Some CreateIfAbsent => Some (ft_display_path target) | _ => None end) in
  io! version := version_after_write (ft_key target) in
  io_ret (mk_write_outcome (if existing then OpUpdate else OpCreate) version before (normalize_line_endings content)).

Definition edit_guard (target : FsTarget) (expected : option FsVersion) (existing : option FileMetadata) : result FileMetadata FsError :=
  let stale := mk_fs_error (cannot "edit" target "file changed since it was read") StaleVersion in
  match existing with
  | None => Err stale
  | Some m =>
      if negb (is_file m) then Err (mk_fs_error (cannot "edit" target "not a regular file") NotRegularFile)
      else match expected with
           | Some version => if negb (String.eqb (version_of m) version) then Err stale else Ok m
           | None => Ok m
           end
  end.

Definition edit_basis (target : FsTarget) (raw : string) : result string FsError :=
  if has_nul raw then Err (mk_fs_error (cannot "edit" target "binary file") NotText)
  else ok_or (from_utf8 raw) (mk_fs_error (cannot "edit" target "invalid UTF-8 text") NotText).

Definition edit_text (target : FsTarget) (edit : FsEditRequest) (expected : option FsVersion) (signal : option AbortSignal) : FsIo W FsEditOutcome :=
  io! _ := check_aborted signal "edit" in
  io! existing := probe (ft_key target) in
  io! meta := io_lift (edit_guard target expected existing) in
  io! raw := read_raw target "edit" in
  io! raw := io_lift (edit_basis target raw) in
  io! (content, edited, stored) := io_lift (edit_content raw edit (ft_display_path target)) in
  io! _ := write_file_atomic (ft_key target) stored (Some (permission_bits meta)) None in
  io! version := version_after_write (ft_key target) in
  io_ret (mk_edit_outcome version content edited).

(** * Reasoning about the log *)

(** Every run of [m] ends with a result and a log that satisfy [P]. *)
Definition logs {A} (m : FsIo W A) (P : result A FsError -> list OsCall -> Prop) : Prop :=
  forall w r w' l, m w = (r, w', l) -> P r l.

Lemma logs_ret {A} (a : A) P : P (Ok a) [] -> logs (io_ret a) P.
Proof. by intros ? w r w' l [= <- _ <-]. Qed.
Lemma logs_fail {A} e (P : result A FsError -> _) : P (Err e) [] -> logs (io_fail e) P.
Proof. by intros ? w r w' l [= <- _ <-]. Qed.
Lemma logs_lift {A} (x : result A FsError) P : P x [] -> logs (io_lift x) P.
Proof. by intros ? w r w' l [= <- _ <-]. Qed.
Lemma logs_call {R} (run_call : R -> OsCall) op (P : result R FsError -> _) : (forall r, P (Ok r) [run_call r]) -> logs (io_call run_call op) P.
Proof. intros HP w r w' l. unfold io_call. destruct (op w) as [r0 w0]. by intros [= <- _ <-]. Qed.
Lemma logs_bind {A B} (m : FsIo W A) (k : A -> FsIo W B) P :
  logs m (fun r l => match r with Ok a => logs (k a) (fun r' l' => P r' (l ++ l')) | Err e => P (Err e) l end) ->
  logs (io_bind m k) P.
Proof.
  intros HP w r w' l. unfold io_bind. destruct (m w) as [[[a|e] w1] l1] eqn:E.
  - destruct (k a w1) as [[r2 w2] l2] eqn:E2. intros [= <- _ <-]. exact (HP _ _ _ _ E _ _ _ _ E2).
  - intros [= <- _ <-]. exact (HP _ _ _ _ E).
Qed.
Lemma logs_weaken {A} (m : FsIo W A) (P Q : result A FsError -> list OsCall -> Prop) : (forall r l, P r l -> Q r l) -> logs m P -> logs m Q.
Proof. intros HPQ HP w r w' l E. eauto. Qed.
Lemma logs_and {A} (m : FsIo W A) (P Q : result A FsError -> list OsCall -> Prop) : logs m P -> logs m Q -> logs m (fun r l => P r l /\ Q r l).
Proof. intros HP HQ w r w' l E. split; [exact (HP _ _ _ _ E)|exact (HQ _ _ _ _ E)]. Qed.
Lemma logs_aborted signal verb P : P (Ok tt) [] -> P (Err (mk_fs_error (verb +:+ " aborted") Aborted)) [] -> logs (check_aborted signal verb) P.
Proof. intros H0 H1 w r w' l. unfold check_aborted. destruct signal as [s|]; [destruct (s w)|]; by intros [= <- _ <-]. Qed.
Lemma logs_finally {A} (m : FsIo W A) temp P : logs m (fun r l => P r (l ++ [CallRemoveTemp temp])) -> logs (finally m (remove_temp temp)) P.
Proof. intros HP w r w' l. unfold finally. destruct (m w) as [[r1 w1] l1] eqn:E. cbn. intros [= <- _ <-]. eauto. Qed.

Lemma logs_probe key P :
  (forall m, P (Ok (Some m)) [CallMetadata key (Ok m)]) ->
  (forall e, is_absent_error e = true -> P (Ok None) [CallMetadata key (Err e)]) ->
  (forall e x, P (Err x) [CallMetadata key (Err e)]) -> logs (probe key) P.
Proof.
  intros H1 H2 H3. apply logs_bind, logs_call. intros [m|e]; [apply logs_ret, H1|].
  destruct (is_absent_error e) eqn:E; [by apply logs_ret, H2|apply logs_fail, H3].
Qed.

(** * Publications *)

(** The attempts to put a staged file under a name: the file, the name and
    whether what is there may be replaced. *)
Definition publication (c : OsCall) : option (string * string * bool) :=
  match c with
  | CallHardLink temp key _ => Some (temp, key, false)
  | CallPersist temp key _ => Some (temp, key, true)
  | _ => None
  end.
Definition quiet (l : list OsCall) : Prop := omap publication l = [].

Lemma quiet_app l1 l2 : quiet (l1 ++ l2) <-> quiet l1 /\ quiet l2.
Proof.
  unfold quiet. rewrite omap_app. split; [|by intros [-> ->]]. intros E%app_eq_nil. exact E.
Qed.

(** A log that publishes [content] under [key] at most once, the bytes written
    and synced before; [Ok] only when the publication succeeded. *)
Definition publish_call (replaces : bool) (temp key : string) (r : result unit IoErr) : OsCall :=
  if replaces then CallPersist temp key r else CallHardLink temp key r.
Definition publishes (key content : string) (replaces : bool) (pre : list OsCall) (ok : bool) (l : list OsCall) : Prop :=
  exists temp dir perms answer post,
    l = pre ++ [CallCreateDirAll dir (Ok tt); CallTempfile dir ("." +:+ default "" (file_name key) +:+ ".") ".tmp" (Ok temp);
                CallWriteAll temp content (Ok tt); CallSyncAll temp (Ok tt)] ++ perms ++
        publish_call replaces temp key answer :: post /\
    quiet pre /\ quiet perms /\ quiet post /\ ok = is_ok answer.

Ltac io_steps :=
  repeat first
    [ apply logs_bind | apply logs_ret | apply logs_fail | apply logs_aborted | apply logs_lift
    | apply logs_call; intros [?|?] | match goal with u : unit |- _ => destruct u end ].

Lemma stage_logs key temp content mode :
  logs (stage_content key temp content mode) (fun r l =>
    match r with
    | Ok _ => exists perms, l = [CallWriteAll temp content (Ok tt); CallSyncAll temp (Ok tt)] ++ perms /\ quiet perms
    | Err _ => quiet l
    end).
Proof.
  unfold stage_content, io_or. io_steps; cbn; try done. destruct mode as [mode|]; io_steps; cbn; try done.
  - by exists [CallSetPermissions temp mode (Ok tt)].
  - by exists [].
Qed.

Lemma publish_new_logs key temp path :
  logs (publish_new key temp path) (fun r l => exists answer post, l = CallHardLink temp key answer :: post /\ quiet post /\ is_ok r = is_ok answer).
Proof.
  unfold publish_new, symlink_metadata. io_steps; [by exists (Ok tt), []| |].
  - destruct (negb _); io_steps; by eexists (Err _), _.
  - destruct (bool_decide _); io_steps; by eexists (Err _), _.
Qed.

Lemma write_file_atomic_logs key content mode create pre :
  quiet pre ->
  logs (write_file_atomic key content mode create) (fun r l =>
    (quiet (pre ++ l) /\ is_ok r = false) \/ publishes key content (bool_decide (create = None)) pre (is_ok r) (pre ++ l)).
Proof.
  intros Hpre. unfold write_file_atomic, io_or.
  apply logs_bind, logs_call. intros [[]|e]; [|apply logs_fail; left; by rewrite quiet_app].
  apply logs_bind, logs_call. intros [temp|e]; apply logs_bind, logs_lift; cbn [map_err]; [|left; by rewrite quiet_app].
  destruct create as [path|].
  - apply logs_finally, logs_bind. eapply logs_weaken; [|apply stage_logs]. intros [[]|e] l.
    + intros (perms & -> & Hp). eapply logs_weaken; [|apply publish_new_logs]. intros r l (answer & post & -> & Hq & Hok).
      right. exists temp, (default "/" (parent key)), perms, answer, (post ++ [CallRemoveTemp temp]).
      split; [cbn; by rewrite <- ?app_assoc|]. rewrite quiet_app. by split_and!.
    + intros Hq. left. rewrite !quiet_app. by split_and!.
  - apply logs_bind. intros w r w' l. destruct (stage_content key temp content mode w) as [[rs ws] ls] eqn:Es.
    apply stage_logs in Es. destruct rs as [[]|e].
    + intros [= <- _ <-]. destruct Es as (perms & -> & Hp). cbn beta iota. apply logs_bind, logs_call. intros [[]|e]; [apply logs_ret|apply logs_bind].
      * right. exists temp, (default "/" (parent key)), perms, (Ok tt), []. split; [cbn; by rewrite <- ?app_assoc|]. by split_and!.
      * intros w1 r1 w2 l1 [= <- _ <-]. io_steps.
        right. exists temp, (default "/" (parent key)), perms, (Err e), [CallRemoveTemp temp]. split; [cbn; by rewrite <- ?app_assoc|]. by split_and!.
    + intros [= <- _ <-]. left. rewrite !quiet_app. by split_and!.
Qed.

(** * Guarded mutations *)

(** What the probe before a mutation must have answered. *)
Definition write_allowed (expected : option FsWriteIntent) (answer : result FileMetadata IoErr) : Prop :=
  match expected with
  | Some (ReplaceIfVersion v) => exists m, answer = Ok m /\ is_file m = true /\ version_of m = v
  | Some CreateIfAbsent => exists e, answer = Err e /\ is_absent_error e = true
  | None => match answer with Ok m => is_file m = true | Err e => is_absent_error e = true end
  end.

Lemma write_guard_allowed target expected existing answer :
  write_guard target expected existing = Ok tt ->
  match existing with Some m => answer = Ok m | None => exists e, answer = Err e /\ is_absent_error e = true end ->
  write_allowed expected answer.
Proof.
  unfold write_guard, write_allowed. intros Hg Ha. destruct existing as [m|]; [subst answer|destruct Ha as (e & -> & He)].
  - destruct (is_file m) eqn:Ef; [cbn in Hg|done]. destruct expected as [[|v]|]; try done.
    destruct (String.eqb_spec (version_of m) v); [by exists m|done].
  - destruct expected as [[|v]|]; try done. by exists e.
Qed.

Lemma read_text_for_diff_logs fs key P : (forall o l, quiet l -> P (Ok o) l) -> logs (read_text_for_diff fs key) P.
Proof.
  intros HP. unfold read_text_for_diff, fs_metadata, fs_read. io_steps; [|by apply HP].
  destruct (_ || _); io_steps; [by apply HP| |by apply HP]. destruct (_ || _); io_steps; by apply HP.
Qed.

Lemma version_after_write_logs key P :
  (forall v l, quiet l -> P (Ok v) l) -> (forall e l, quiet l -> P (Err e) l) -> logs (version_after_write key) P.
Proof.
  intros H1 H2. apply logs_bind, logs_probe; [intros m|intros e He|intros e x]; [apply logs_ret, H1; done..|by apply H2].
Qed.

Definition creates (expected : option FsWriteIntent) : bool := match expected with Some CreateIfAbsent => true | _ => false end.

Lemma publishes_more key content replaces pre ok l q : publishes key content replaces pre ok l -> quiet q -> publishes key content replaces pre ok (l ++ q).
Proof.
  intros (temp & dir & perms & answer & post & -> & ? & ? & ? & ?) Hq. exists temp, dir, perms, answer, (post ++ q).
  split; [by rewrite <- !app_assoc|]. rewrite quiet_app. by split_and!.
Qed.

(** A mutation's log: nothing is published and it fails, or the first call
    probed the target with an allowed answer and the content is published at
    most once after it was staged and synced. *)
Definition mutation_log (key content : string) (replaces : bool) (allowed : result FileMetadata IoErr -> Prop) (success : bool) (l : list OsCall) : Prop :=
  (quiet l /\ success = false) \/
  exists answer pre ok, allowed answer /\ publishes key content replaces (CallMetadata key answer :: pre) ok l /\ (success = true -> ok = true).

Lemma atomic_then_version key content mode create pre answer (allowed : result FileMetadata IoErr -> Prop) A (k : FsVersion -> A) :
  quiet pre -> allowed answer ->
  logs (io! _ := write_file_atomic key content mode create in io! version := version_after_write key in io_ret (k version))
    (fun r l => mutation_log key content (bool_decide (create = None)) allowed (is_ok r) (CallMetadata key answer :: pre ++ l)).
Proof.
  intros Hpre Ha. apply logs_bind. eapply logs_weaken; [|apply (write_file_atomic_logs _ _ _ _ (CallMetadata key answer :: pre)); done].
  intros [[]|e] l [[Hq Hok]|Hp]; try done.
  - apply logs_bind. apply version_after_write_logs.
    + intros v l2 Hq2. apply logs_ret. right. exists answer, pre, true. rewrite app_nil_r, app_assoc.
      split_and!; [done|exact (publishes_more _ _ _ _ _ _ _ Hp Hq2)|done].
    + intros e l2 Hq2. right. exists answer, pre, true. rewrite app_assoc. split_and!; [done|exact (publishes_more _ _ _ _ _ _ _ Hp Hq2)|done].
  - left. done.
  - right. exists answer, pre, false. done.
Qed.

Lemma write_text_logs fs target content expected signal :
  logs (write_text fs target content expected signal) (fun r l =>
    mutation_log (ft_key target) content (negb (creates expected)) (write_allowed expected) (is_ok r) l).
Proof.
  unfold write_text. apply logs_bind, logs_aborted; [|by left]. apply logs_bind.
  assert (Hmain : forall existing answer,
    match existing with Some m => answer = Ok m | None => exists e, answer = Err e /\ is_absent_error e = true end ->
    logs (io! _ := io_lift (write_guard target expected existing) in
          io! before := (if bool_decide (is_Some existing) && (String.length content <? lf_diff_basis_max_bytes fs)%nat
                 then read_text_for_diff fs (ft_key target) else io_ret None) in
          io! _ := write_file_atomic (ft_key target) content (permission_bits <$> existing)
                     (match expected with Some CreateIfAbsent => Some (ft_display_path target) | _ => None end) in
          io! version := version_after_write (ft_key target) in
          io_ret (mk_write_outcome (if existing then OpUpdate else OpCreate) version before (normalize_line_endings content)))
      (fun r l => mutation_log (ft_key target) content (negb (creates expected)) (write_allowed expected) (is_ok r) (CallMetadata (ft_key target) answer :: l))).
  { intros existing answer Ha. apply logs_bind, logs_lift. destruct (write_guard target expected existing) as [[]|e] eqn:Eg; [|by left].
    pose proof (write_guard_allowed _ _ _ _ Eg Ha) as Hallowed. cbn [app]. apply logs_bind.
    assert (Hc : negb (creates expected) = bool_decide (match expected with Some CreateIfAbsent => Some (ft_display_path target) | _ => None end = None))
      by (by destruct expected as [[]|]).
    rewrite Hc. assert (Hnext : forall before l, quiet l -> logs (io! _ := write_file_atomic (ft_key target) content (permission_bits <$> existing)
                     (match expected with Some CreateIfAbsent => Some (ft_display_path target) | _ => None end) in
          io! version := version_after_write (ft_key target) in
          io_ret (mk_write_outcome (if existing then OpUpdate else OpCreate) version before (normalize_line_endings content)))
      (fun r l' => mutation_log (ft_key target) content (bool_decide (match expected with Some CreateIfAbsent => Some (ft_display_path target) | _ => None end = None))
         (write_allowed expected) (is_ok r) (CallMetadata (ft_key target) answer :: l ++ l'))).
    { intros before l Hl. by apply atomic_then_version. }
    destruct (bool_decide (is_Some existing) && _); [apply read_text_for_diff_logs; intros o l Hl|apply logs_ret]; by apply Hnext. }
  apply logs_probe.
  - intros m. by apply Hmain.
  - intros e He. apply Hmain. by exists e.
  - intros e x. by left.
Qed.

(** What an edit publishes, from the bytes it read. *)
Definition edit_allowed (expected : option FsVersion) (answer : result FileMetadata IoErr) : Prop :=
  exists m, answer = Ok m /\ is_file m = true /\ match expected with Some v => version_of m = v | None => True end.

Lemma edit_text_logs target edit expected signal :
  logs (edit_text target edit expected signal) (fun r l =>
    (quiet l /\ is_ok r = false) \/
    exists raw content edited stored,
      edit_content raw edit (ft_display_path target) = Ok (content, edited, stored) /\ CallRead (ft_key target) (Ok raw) ∈ l /\
      match r with Ok o => eo_before o = content /\ eo_after o = edited | Err _ => True end /\
      mutation_log (ft_key target) stored true (edit_allowed expected) (is_ok r) l).
Proof.
  unfold edit_text. apply logs_bind, logs_aborted; [|by left]. apply logs_bind, logs_probe.
  2, 3: intros; try (apply logs_bind, logs_lift); by left.
  intros m. apply logs_bind, logs_lift.
  destruct (edit_guard target expected (Some m)) as [m'|e] eqn:Eg; [|by left].
  assert (Hall : edit_allowed expected (Ok m) /\ m' = m).
  { unfold edit_guard in Eg. destruct (is_file m) eqn:Ef; [cbn in Eg|done]. unfold edit_allowed. destruct expected as [v|].
    - destruct (String.eqb_spec (version_of m) v); cbn in Eg; [|done]. injection Eg as <-. split; [|done]. by exists m.
    - injection Eg as <-. split; [|done]. by exists m. }
  destruct Hall as [Hall ->]. clear Eg. apply logs_bind.
  unfold read_raw. apply logs_bind, logs_probe.
  2, 3: intros; try apply logs_fail; by left.
  intros m2. destruct (negb (is_file m2)); [apply logs_fail; by left|]. apply logs_bind. unfold fs_read. apply logs_call.
  intros [raw|e]; [|apply logs_fail; by left]. apply logs_ret. apply logs_bind, logs_lift.
  destruct (edit_basis target raw) as [raw'|e] eqn:Eb; [|by left].
  assert (raw' = raw) as -> by (unfold edit_basis, from_utf8 in Eb; destruct (has_nul raw); [done|]; destruct (_ =? _)%nat; [by injection Eb|done]).
  apply logs_bind, logs_lift. destruct (edit_content raw edit (ft_display_path target)) as [[[content edited] stored]|e] eqn:Ec; [|by left].
  eapply logs_weaken; [|apply logs_and; [|eapply (atomic_then_version _ _ _ _
    [CallMetadata (ft_key target) (Ok m2); CallRead (ft_key target) (Ok raw)] (Ok m) (edit_allowed expected)); [reflexivity|exact Hall]]].
  - intros r l [Hr Hm]. right. exists raw, content, edited, stored. split_and!; [done| |exact Hr|exact Hm].
    do 2 right. left.
  - apply logs_bind. intros w r w' l _. destruct r as [[]|e]; [|exact I]. apply logs_bind. intros w1 r1 w1' l1 _.
    destruct r1 as [v|e]; [|exact I]. by apply logs_ret.
Qed.
End local.
