(* ===== verification/FsHost.v ===== *)
(** The provider on a host no other process disturbs: the laws such a host
    keeps, as an interface; a memory file system that keeps them; and what a
    write and an edit then do to the files. *)
From Stdlib Require Import ZArith String Ascii Lia.
From stdpp Require Import base tactics list numbers strings gmap.
From S2P Require Import Prelude Text Utf8 FsText FsPath FsLocal.
Open Scope string_scope.
Open Scope nat_scope.
Open Scope list_scope.

(** * The laws *)

(** The files of a world: the bytes under each path. *)
Definition Files := string -> option string.
Definition file_put (p : string) (c : option string) (f : Files) : Files := fun q => if decide (q = p) then c else f q.

(** What the provider relies on between two of its own calls: reads, directory
    creation, syncing and modes leave every file's bytes alone, a temporary file
    is a new name, a write may stop half way, a link never replaces, and a
    rename moves the bytes. *)
Class QuietHost (W : Type) `{HostFs W} := {
  files_of : W -> Files;
  quiet_canonicalize p w q : files_of (os_canonicalize p w).2 q = files_of w q;
  quiet_metadata p w q : files_of (os_metadata p w).2 q = files_of w q;
  quiet_symlink_metadata p w q : files_of (os_symlink_metadata p w).2 q = files_of w q;
  quiet_read p w q : files_of (os_read p w).2 q = files_of w q;
  quiet_create_dir_all p w q : files_of (os_create_dir_all p w).2 q = files_of w q;
  quiet_sync_all p w q : files_of (os_sync_all p w).2 q = files_of w q;
  quiet_set_permissions p m w q : files_of (os_set_permissions p m w).2 q = files_of w q;
  read_answers p w raw : (os_read p w).1 = Ok raw -> files_of w p = Some raw;
  tempfile_fresh d p s w :
    match os_tempfile d p s w with
    | (Ok t, w') => files_of w t = None /\ forall q, files_of w' q = file_put t (Some "") (files_of w) q
    | (Err _, w') => forall q, files_of w' q = files_of w q
    end;
  write_all_writes t c w :
    match os_write_all t c w with
    | (Ok _, w') => files_of w t = Some "" -> forall q, files_of w' q = file_put t (Some c) (files_of w) q
    | (Err _, w') => exists x, forall q, files_of w' q = file_put t x (files_of w) q
    end;
  hard_link_new t p w :
    match os_hard_link t p w with
    | (Ok _, w') => files_of w p = None /\ forall q, files_of w' q = file_put p (files_of w t) (files_of w) q
    | (Err _, w') => forall q, files_of w' q = files_of w q
    end;
  persist_moves t p w :
    match os_persist t p w with
    | (Ok _, w') => forall q, files_of w' q = file_put p (files_of w t) (file_put t None (files_of w)) q
    | (Err _, w') => forall q, files_of w' q = files_of w q
    end;
  remove_temp_removes t w q : files_of (os_remove_temp t w) q = file_put t None (files_of w) q;
}.

Lemma file_put_eq p c f : file_put p c f p = c.
Proof. unfold file_put. by rewrite decide_True. Qed.
Lemma file_put_ne p c f q : q <> p -> file_put p c f q = f q.
Proof. intros. unfold file_put. by rewrite decide_False. Qed.

(** * Effects *)

Section effects.
Context {W : Type} `{QuietHost W}.

(** From a world with the files [f], [m] ends as [Q] says. *)
Definition agrees (w : W) (f : Files) : Prop := forall q, files_of w q = f q.
Definition ends {A} (f : Files) (m : FsIo W A) (Q : result A FsError -> W -> Prop) : Prop :=
  forall w r w' l, agrees w f -> m w = (r, w', l) -> Q r w'.

Lemma effect_ret {A} f (a : A) (Q : result A FsError -> W -> Prop) : (forall w, agrees w f -> Q (Ok a) w) -> ends f (io_ret a) Q.
Proof. intros HQ w r w' l Hw [= <- <- _]. auto. Qed.
Lemma effect_fail {A} f e (Q : result A FsError -> W -> Prop) : (forall w, agrees w f -> Q (Err e) w) -> ends f (io_fail e) Q.
Proof. intros HQ w r w' l Hw [= <- <- _]. auto. Qed.
Lemma effect_lift {A} f (x : result A FsError) (Q : result A FsError -> W -> Prop) : (forall w, agrees w f -> Q x w) -> ends f (io_lift x) Q.
Proof. intros HQ w r w' l Hw [= <- <- _]. auto. Qed.
Lemma effect_bind {A B} f (m : FsIo W A) (k : A -> FsIo W B) R (Q : result B FsError -> W -> Prop) :
  ends f m R -> (forall a w, R (Ok a) w -> ends (files_of w) (k a) Q) -> (forall e w, R (Err e) w -> Q (Err e) w) -> ends f (io_bind m k) Q.
Proof.
  intros Hm Hk He w r w' l Hw. unfold io_bind. destruct (m w) as [[[a|e] w1] l1] eqn:E.
  - destruct (k a w1) as [[r2 w2] l2] eqn:E2. intros [= <- <- _]. eapply Hk; [by eapply Hm|by intros q|exact E2].
  - intros [= <- <- _]. eapply He, Hm; done.
Qed.
Lemma effect_call {R} f (run_call : R -> OsCall) op (Q : result R FsError -> W -> Prop) :
  (forall w, agrees w f -> Q (Ok (op w).1) (op w).2) -> ends f (io_call run_call op) Q.
Proof. intros HQ w r w' l Hw. unfold io_call. specialize (HQ w Hw). destruct (op w). by intros [= <- <- _]. Qed.
(** A step that leaves the files alone. *)
Definition pure_io {A} (m : FsIo W A) : Prop := forall w r w' l, m w = (r, w', l) -> forall q, files_of w' q = files_of w q.
Lemma effect_pure {A} f (m : FsIo W A) : pure_io m -> ends f m (fun _ w => agrees w f).
Proof. intros Hm w r w' l Hw E q. by rewrite (Hm _ _ _ _ E), Hw. Qed.
Lemma pure_bind {A B} (m : FsIo W A) (k : A -> FsIo W B) : pure_io m -> (forall a, pure_io (k a)) -> pure_io (io_bind m k).
Proof.
  intros Hm Hk w r w' l. unfold io_bind. destruct (m w) as [[[a|e] w1] l1] eqn:E.
  - destruct (k a w1) as [[r2 w2] l2] eqn:E2. intros [= <- <- _] q. by rewrite (Hk _ _ _ _ _ E2), (Hm _ _ _ _ E).
  - intros [= <- <- _]. exact (Hm _ _ _ _ E).
Qed.
Lemma pure_ret {A} (a : A) : pure_io (io_ret a).
Proof. by intros w r w' l [= <- <- _]. Qed.
Lemma pure_fail {A} e : pure_io (io_fail (A := A) e).
Proof. by intros w r w' l [= <- <- _]. Qed.
Lemma pure_lift {A} (x : result A FsError) : pure_io (io_lift x).
Proof. by intros w r w' l [= <- <- _]. Qed.
Lemma pure_call {R} (run_call : R -> OsCall) op : (forall w q, files_of (op w).2 q = files_of w q) -> pure_io (io_call run_call op).
Proof. intros Ho w r w' l. unfold io_call. specialize (Ho w). destruct (op w). by intros [= <- <- _]. Qed.
Lemma pure_aborted signal verb : pure_io (check_aborted signal verb).
Proof. intros w r w' l. unfold check_aborted. destruct signal as [s|]; [destruct (s w)|]; by intros [= <- <- _]. Qed.
End effects.
#[export] Hint Resolve pure_ret pure_fail pure_lift pure_call pure_aborted : fs_pure.
#[export] Hint Resolve quiet_canonicalize quiet_metadata quiet_symlink_metadata quiet_read quiet_create_dir_all quiet_sync_all quiet_set_permissions : fs_pure.

Section provider.
Context {W : Type} `{QuietHost W}.

Lemma pure_canonicalize key : pure_io (canonicalize key).
Proof. apply pure_call, quiet_canonicalize. Qed.
Lemma pure_metadata key : pure_io (fs_metadata key).
Proof. apply pure_call, quiet_metadata. Qed.
Lemma pure_symlink_metadata key : pure_io (symlink_metadata key).
Proof. apply pure_call, quiet_symlink_metadata. Qed.
Lemma pure_fs_read key : pure_io (fs_read key).
Proof. apply pure_call, quiet_read. Qed.
#[local] Hint Resolve pure_canonicalize pure_metadata pure_symlink_metadata pure_fs_read : fs_pure.

Lemma pure_probe key : pure_io (probe key).
Proof. unfold probe. apply pure_bind; [auto with fs_pure|]. intros [m|e]; [|destruct (is_absent_error e)]; auto with fs_pure. Qed.
#[local] Hint Resolve pure_probe : fs_pure.

Lemma pure_read_raw target verb : pure_io (read_raw target verb).
Proof.
  unfold read_raw. apply pure_bind; [auto with fs_pure|]. intros [m|]; [|auto with fs_pure]. destruct (negb (is_file m)); [auto with fs_pure|].
  apply pure_bind; [auto with fs_pure|]. intros []; auto with fs_pure.
Qed.

Lemma pure_read_text_for_diff fs key : pure_io (read_text_for_diff fs key).
Proof.
  unfold read_text_for_diff. apply pure_bind; [auto with fs_pure|]. intros [m|e]; [|auto with fs_pure]. destruct (_ || _); [auto with fs_pure|].
  apply pure_bind; [auto with fs_pure|]. intros [raw|e]; [|auto with fs_pure]. destruct (_ || _); auto with fs_pure.
Qed.

Lemma pure_version_after_write key : pure_io (version_after_write key).
Proof. unfold version_after_write. apply pure_bind; auto with fs_pure. Qed.
#[local] Hint Resolve pure_read_raw pure_read_text_for_diff pure_version_after_write : fs_pure.

(** * The publication *)

Lemma effect_weaken {A} f (m : FsIo W A) (P Q : result A FsError -> W -> Prop) : (forall r w, P r w -> Q r w) -> ends f m P -> ends f m Q.
Proof. intros HPQ HP w r w' l Hw E. eauto. Qed.

(** Staging leaves only the temporary file changed, and holding the content
    when it succeeds. *)
Lemma stage_effect f key temp content mode :
  f temp = Some "" ->
  ends f (stage_content key temp content mode) (fun r w =>
    match r with Ok _ => agrees w (file_put temp (Some content) f) | Err _ => exists x, agrees w (file_put temp x f) end).
Proof.
  intros Hf. unfold stage_content, io_or.
  apply effect_bind with (fun r w => match r with Ok (Ok _) => agrees w (file_put temp (Some content) f) | _ => exists x, agrees w (file_put temp x f) end).
  - apply effect_call. intros w Hw. pose proof (write_all_writes temp content w) as Hl. destruct (os_write_all temp content w) as [[u|e] w1]; cbn.
    + intros q. rewrite Hl by (by rewrite Hw). unfold file_put. by destruct (decide _).
    + destruct Hl as [x Hl]. exists x. intros q. rewrite Hl. unfold file_put. by destruct (decide _).
  - intros [u|e] w Hr.
    + apply (effect_weaken _ _ (fun _ w' => agrees w' (files_of w))).
      { intros [u'|e] w' Hw'; [|exists (Some content)]; intros q; by rewrite Hw', Hr. }
      apply effect_pure, pure_bind; [auto with fs_pure|]. intros _. apply pure_bind; [auto with fs_pure|]. intros r.
      apply pure_bind; [auto with fs_pure|]. intros _. destruct mode; [|auto with fs_pure]. apply pure_bind; auto with fs_pure.
    + destruct Hr as [x Hr]. intros w0 r w' l Hw0 [= <- <- _]. exists x. intros q. by rewrite Hw0, Hr.
  - intros e w [x Hx]. by exists x.
Qed.

(** A failed publication leaves the files as they were; a successful one
    changes the target alone. *)
Definition published (f : Files) (key content : string) {A} (r : result A FsError) (w : W) : Prop :=
  match r with Ok _ => agrees w (file_put key (Some content) f) | Err _ => agrees w f end.

Lemma removed_temp f temp x w : f temp = None -> agrees w (file_put temp x f) -> agrees (os_remove_temp temp w) f.
Proof.
  intros Hf Hw q. rewrite remove_temp_removes. unfold file_put. destruct (decide (q = temp)) as [->|Hq]; [done|].
  rewrite Hw. by apply file_put_ne.
Qed.

Lemma publish_new_effect f g key temp path content :
  g = file_put temp (Some content) f -> f temp = None ->
  ends g (publish_new key temp path) (fun r w =>
    match r with Ok _ => f key = None /\ key <> temp /\ agrees w (file_put key (Some content) g) | Err _ => agrees w g end).
Proof.
  intros -> Hf. unfold publish_new.
  apply effect_bind with (fun r w => match r with Ok (Ok _) => f key = None /\ key <> temp /\ agrees w (file_put key (Some content) (file_put temp (Some content) f))
                                     | _ => agrees w (file_put temp (Some content) f) end).
  - apply effect_call. intros w Hw. pose proof (hard_link_new temp key w) as Hl. destruct (os_hard_link temp key w) as [[u|e] w1]; cbn.
    + destruct Hl as [Hk Hl]. rewrite Hw in Hk. destruct (decide (key = temp)) as [->|Hne]; [by rewrite file_put_eq in Hk|].
      rewrite file_put_ne in Hk by done. split_and!; try done. intros q. rewrite Hl, Hw, file_put_eq. unfold file_put. destruct (decide (q = key)); [done|]. apply Hw.
    + intros q. by rewrite Hl, Hw.
  - intros [u|e] w Hr; [apply effect_ret|].
    + intros w' Hw'. destruct Hr as (? & ? & Hr). split_and!; try done. intros q. by rewrite Hw', Hr.
    + apply effect_bind with (fun _ w' => agrees w' (files_of w)); [apply effect_pure; auto with fs_pure| |].
      * intros [m|e'] w1 Hw1; [destruct (negb (is_file m))|destruct (bool_decide _)]; apply effect_fail; intros w2 Hw2 q; by rewrite Hw2, Hw1, Hr.
      * intros e' w1 Hw1 q. by rewrite Hw1, Hr.
  - done.
Qed.

Lemma effect_from {A} f w (m : FsIo W A) (Q : result A FsError -> W -> Prop) : agrees w f -> ends f m Q -> ends (files_of w) m Q.
Proof. intros Hw Hm w1 r w' l H1 E. apply (Hm w1 r w' l); [|done]. intros q. by rewrite H1, Hw. Qed.

Lemma tempfile_effect f d p s :
  ends f (io_call (CallTempfile d p s) (os_tempfile d p s)) (fun r w =>
    match r with Ok (Ok t) => f t = None /\ agrees w (file_put t (Some "") f) | _ => agrees w f end).
Proof.
  apply effect_call. intros w Hw. pose proof (tempfile_fresh d p s w) as Hl. destruct (os_tempfile d p s w) as [[t|e] w1]; cbn.
  - destruct Hl as [Hn Hl]. rewrite Hw in Hn. split; [done|]. intros q. rewrite Hl. unfold file_put. destruct (decide (q = t)); [done|apply Hw].
  - intros q. by rewrite Hl, Hw.
Qed.

(** From a staged temporary file to the end of the write. *)
Lemma create_effect f key temp path content mode :
  f temp = None ->
  ends (file_put temp (Some "") f)
    (finally (io_bind (stage_content key temp content mode) (fun _ => publish_new key temp path)) (remove_temp temp))
    (fun r w => published f key content r w /\ (is_ok r = true -> f key = None)).
Proof.
  intros Hf w r w' l Hw. unfold finally. destruct (io_bind _ _ w) as [[r1 w1] l1] eqn:E. cbn. intros [= <- <- _].
  assert (Hput : forall x q, file_put temp x (file_put temp (Some "") f) q = file_put temp x f q) by (intros; unfold file_put; by destruct (decide _)).
  eapply (effect_bind _ (stage_content key temp content mode) (fun _ => publish_new key temp path) (fun r w =>
      match r with Ok _ => agrees w (file_put temp (Some content) f) | Err _ => exists x, agrees w (file_put temp x f) end)
    (fun r w => match r with Ok _ => f key = None /\ key <> temp /\ agrees w (file_put key (Some content) (file_put temp (Some content) f))
                           | Err _ => exists x, agrees w (file_put temp x f) end)) in E; [|..|exact Hw].
  - destruct r1 as [u|e]; cbn.
    + destruct E as (Hk & Hne & E). split; [|done]. intros q. rewrite remove_temp_removes. unfold file_put in *.
      destruct (decide (q = temp)) as [->|]; [by rewrite decide_False by done|]. rewrite E. destruct (decide (q = key)); [done|]. by rewrite decide_False.
    + destruct E as [x E]. split; [|done]. by eapply removed_temp.
  - eapply effect_weaken; [|apply stage_effect, file_put_eq]. intros [u|e] w2; [intros H2 q; by rewrite H2, Hput|].
    intros [x H2]. exists x. intros q. by rewrite H2, Hput.
  - intros u w2 H2. apply (effect_from _ _ _ _ H2). eapply effect_weaken; [|by eapply publish_new_effect].
    intros [?|?] w3; [done|]. intros H3. by exists (Some content).
  - done.
Qed.

Lemma replace_effect f key temp content mode :
  f temp = None ->
  ends (file_put temp (Some "") f)
    (io_bind (fun w => match stage_content key temp content mode w with
                             | (Err e, w, l) => let '(_, w, l') := remove_temp temp w in (Err e, w, l ++ l')
                             | staged => staged
                             end)
      (fun _ => io_bind (io_call (CallPersist temp key) (os_persist temp key)) (fun r =>
          match r with
          | Ok _ => io_ret tt
          | Err e => io_bind (remove_temp temp) (fun _ => io_fail (write_error key e))
          end)))
    (fun r w => published f key content r w).
Proof.
  intros Hf.
  assert (Hput : forall x q, file_put temp x (file_put temp (Some "") f) q = file_put temp x f q) by (intros; unfold file_put; by destruct (decide _)).
  apply effect_bind with (fun r w => match r with Ok _ => agrees w (file_put temp (Some content) f) | Err _ => agrees w f end).
  - intros w r w' l Hw. destruct (stage_content key temp content mode w) as [[r1 w1] l1] eqn:E.
    apply (stage_effect (file_put temp (Some "") f)) in E; [|apply file_put_eq|done]. destruct r1 as [u|e]; cbn; intros [= <- <- _].
    + intros q. by rewrite E, Hput.
    + destruct E as [x E]. eapply removed_temp; [done|]. intros q. by rewrite E, Hput.
  - intros u w Hw. apply (effect_from _ _ _ _ Hw).
    apply effect_bind with (fun r w => match r with Ok (Ok _) => agrees w (file_put key (Some content) f) | Ok (Err _) => agrees w (file_put temp (Some content) f) | Err _ => False end).
    + apply effect_call. intros w1 H1. pose proof (persist_moves temp key w1) as Hl. destruct (os_persist temp key w1) as [[u'|e] w2]; cbn.
      * intros q. rewrite Hl, H1, file_put_eq. unfold file_put. destruct (decide (q = key)); [done|]. destruct (decide (q = temp)) as [->|Hq]; [done|].
        rewrite H1. by apply file_put_ne.
      * intros q. by rewrite Hl, H1.
    + intros [u'|e] w1 H1; [apply effect_ret|].
      * intros w2 H2 q. by rewrite H2, H1.
      * intros w2 r w' l H2 [= <- <- _]. cbn. eapply removed_temp; [done|]. intros q. by rewrite H2, H1.
    + done.
  - done.
Qed.

Lemma write_file_atomic_effect f key content mode create :
  ends f (write_file_atomic key content mode create) (fun r w => published f key content r w /\ (is_ok r = true -> create <> None -> f key = None)).
Proof.
  unfold write_file_atomic. apply effect_bind with (fun _ w => agrees w f); [apply effect_pure; auto with fs_pure| |done].
  intros [u|e] w Hw; apply (effect_from _ _ _ _ Hw); [|by apply effect_fail].
  eapply effect_bind; [apply tempfile_effect| |].
  2: { intros e w1 H1. by split. }
  intros [temp|e] w1 H1; cbn [map_err].
  - destruct H1 as [Hf H1]. apply (effect_from _ _ _ _ H1). unfold io_or. cbn [map_err].
    apply effect_bind with (fun r w => r = Ok temp /\ agrees w (file_put temp (Some "") f)); [by apply effect_lift| |by intros ?? [??]].
    intros ? w2 [[= ->] H2]. apply (effect_from _ _ _ _ H2). destruct create as [path|].
    + eapply effect_weaken; [|by apply create_effect]. intros r w3 [Hp Hk]. split; [done|]. auto.
    + eapply effect_weaken; [|by apply replace_effect]. intros r w3 Hp. done.
  - intros w2 r w' l H2 [= <- <- _]. split; [|done]. intros q. by rewrite H2, H1.
Qed.

(** The publication and the probe that follows it: the target holds the
    content unless nothing was published. *)
Lemma publish_and_probe_effect {A} f key content mode create (k : FsVersion -> A) :
  ends f (io_bind (write_file_atomic key content mode create) (fun _ => io_bind (version_after_write key) (fun version => io_ret (k version))))
    (fun r w =>
      (agrees w (file_put key (Some content) f) /\ (create <> None -> f key = None) /\ forall a, r = Ok a -> exists v, a = k v) \/
      (agrees w f /\ is_ok r = false)).
Proof.
  eapply effect_bind; [apply write_file_atomic_effect| |].
  - intros u w [Hp Hk]. cbn in Hp.
    apply effect_bind with (fun _ w' => agrees w' (files_of w)); [apply effect_pure; auto with fs_pure| |].
    + intros v w1 H1. apply effect_ret. intros w2 H2. left. split_and!; [intros q; by rewrite H2, H1, Hp|auto|]. intros a [= <-]. by exists v.
    + intros e w1 H1. left. split_and!; [intros q; by rewrite H1, Hp|auto|done].
  - intros e w [Hp _]. by right.
Qed.

Lemma write_text_effect f fs target content expected signal :
  ends f (write_text fs target content expected signal) (fun r w =>
    (agrees w (file_put (ft_key target) (Some content) f) /\ (creates expected = true -> f (ft_key target) = None) /\
     forall o, r = Ok o -> wo_after o = normalize_line_endings content) \/
    (agrees w f /\ is_ok r = false)).
Proof.
  unfold write_text. apply effect_bind with (fun _ w => agrees w f); [apply effect_pure, pure_aborted| |by right].
  intros _ w Hw. apply (effect_from _ _ _ _ Hw).
  apply effect_bind with (fun _ w => agrees w f); [apply effect_pure; auto with fs_pure| |by right].
  intros existing w1 H1. apply (effect_from _ _ _ _ H1).
  apply effect_bind with (fun _ w => agrees w f); [apply effect_pure; auto with fs_pure| |by right].
  intros _ w2 H2. apply (effect_from _ _ _ _ H2).
  apply effect_bind with (fun _ w => agrees w f); [apply effect_pure; destruct (_ && _); auto with fs_pure| |by right].
  intros before w3 H3. apply (effect_from _ _ _ _ H3).
  eapply effect_weaken; [|apply publish_and_probe_effect]. intros r w4 [(Ha & Hk & Hr)|?]; [left|by right]. split_and!; [done| |].
  - intros Hc. apply Hk. by destruct expected as [[]|].
  - intros o [v ->]%Hr. done.
Qed.

Lemma edit_text_effect f target edit expected signal :
  ends f (edit_text target edit expected signal) (fun r w =>
    (exists raw content edited stored,
       f (ft_key target) = Some raw /\ edit_content raw edit (ft_display_path target) = Ok (content, edited, stored) /\
       agrees w (file_put (ft_key target) (Some stored) f) /\
       forall o, r = Ok o -> eo_before o = content /\ eo_after o = edited) \/
    (agrees w f /\ is_ok r = false)).
Proof.
  unfold edit_text. apply effect_bind with (fun _ w => agrees w f); [apply effect_pure, pure_aborted| |by right].
  intros _ w Hw. apply (effect_from _ _ _ _ Hw).
  apply effect_bind with (fun _ w => agrees w f); [apply effect_pure; auto with fs_pure| |by right].
  intros existing w1 H1. apply (effect_from _ _ _ _ H1).
  apply effect_bind with (fun _ w => agrees w f); [apply effect_pure; auto with fs_pure| |by right].
  intros meta w2 H2. apply (effect_from _ _ _ _ H2).
  apply effect_bind with (fun r w => agrees w f /\ forall raw, r = Ok raw -> f (ft_key target) = Some raw).
  { unfold read_raw. apply effect_bind with (fun _ w => agrees w f); [apply effect_pure; auto with fs_pure| |by intros ?? ?; split].
    intros [m|] w3 H3; apply (effect_from _ _ _ _ H3); [|by apply effect_fail]. destruct (negb (is_file m)); [by apply effect_fail|].
    apply effect_bind with (fun r w => agrees w f /\ forall raw, r = Ok (Ok raw) -> f (ft_key target) = Some raw).
    - apply effect_call. intros w4 H4. split; [intros q; by rewrite quiet_read, H4|]. intros raw [= E]. rewrite <- H4. by apply read_answers.
    - intros [raw|e] w4 [H4 Hr]; apply (effect_from _ _ _ _ H4); [|by apply effect_fail]. apply effect_ret. intros w5 H5. split; [done|].
      intros raw' [= <-]. by apply Hr.
    - by intros e w4 [H4 _]. }
  2: { intros e w3 [H3 _]. by right. }
  intros raw w3 [H3 Hraw]. specialize (Hraw raw eq_refl). apply (effect_from _ _ _ _ H3).
  apply effect_bind with (fun r w => agrees w f /\ r = edit_basis target raw); [by apply effect_lift| |by intros ?? [??]; right].
  intros raw' w4 [H4 Hb]. apply (effect_from _ _ _ _ H4).
  assert (raw' = raw) as -> by (unfold edit_basis, from_utf8 in Hb; destruct (has_nul raw); [done|]; destruct (_ =? _)%nat; [by injection Hb|done]).
  apply effect_bind with (fun r w => agrees w f /\ r = edit_content raw edit (ft_display_path target)); [by apply effect_lift| |by intros ?? [??]; right].
  intros [[content edited] stored] w5 [H5 Hc]. apply (effect_from _ _ _ _ H5).
  eapply effect_weaken; [|apply publish_and_probe_effect]. intros r w6 [(Ha & _ & Hr)|?]; [left|by right].
  exists raw, content, edited, stored. split_and!; try done. by intros o [v ->]%Hr.
Qed.

(** C22. On a host no other process disturbs, a write or an edit changes the
    target and no other file.  Either nothing changed and the call failed, or
    the target holds exactly the new content, which for an edit is the edit of
    the bytes that were there; a guarded create happens only where there was no
    file.  A success always changed the file. *)
Theorem mutations_touch_only_target w w' l :
  (forall fs target content expected signal (r : result FsWriteOutcome FsError), write_text fs target content expected signal w = (r, w', l) ->
    (agrees w' (file_put (ft_key target) (Some content) (files_of w)) /\ (creates expected = true -> files_of w (ft_key target) = None)) \/
    (agrees w' (files_of w) /\ is_ok r = false)) /\
  (forall target edit expected signal (r : result FsEditOutcome FsError), edit_text target edit expected signal w = (r, w', l) ->
    (exists raw content edited stored,
       files_of w (ft_key target) = Some raw /\ edit_content raw edit (ft_display_path target) = Ok (content, edited, stored) /\
       agrees w' (file_put (ft_key target) (Some stored) (files_of w)) /\ forall o, r = Ok o -> eo_before o = content /\ eo_after o = edited) \/
    (agrees w' (files_of w) /\ is_ok r = false)).
Proof.
  split.
  - intros fs target content expected signal r E. eapply write_text_effect in E; [|by intros q]. destruct E as [(? & ? & _)|?]; [by left|by right].
  - intros target edit expected signal r E. eapply edit_text_effect in E; [exact E|by intros q].
Qed.
End provider.

(** * A memory file system *)

(** Files with a version that every write renews; every directory exists. *)
Record MemFs := mk_mem { mf_files : gmap string (string * Z); mf_next : Z }.
Definition no_entry : IoErr := mk_io_error IoNotFound "No such file or directory (os error 2)".
Definition mem_metadata (p : string) (w : MemFs) : result FileMetadata IoErr :=
  match mf_files w !! p with
  | Some (c, v) => Ok (mk_metadata KFile 1 v (Z.of_nat (String.length c)) v 0 v 0 420)
  | None => Err no_entry
  end.
Definition mem_put (p c : string) (w : MemFs) : MemFs := mk_mem (<[p := (c, mf_next w)]> (mf_files w)) (mf_next w + 1).

#[export] Instance MemFs_host : HostFs MemFs := {
  os_canonicalize p w := (match mf_files w !! p with Some _ => Ok p | None => if String.eqb p "/" then Ok "/" else Err no_entry end, w);
  os_metadata p w := (mem_metadata p w, w);
  os_symlink_metadata p w := (mem_metadata p w, w);
  os_read p w := (match mf_files w !! p with Some (c, _) => Ok c | None => Err no_entry end, w);
  os_read_dir p w := (Ok [], w);
  os_create_dir_all p w := (Ok tt, w);
  os_tempfile d prefix suffix w :=
    let t := d +:+ "/" +:+ prefix +:+ decimal (mf_next w) +:+ suffix in
    match mf_files w !! t with
    | Some _ => (Err (mk_io_error IoAlreadyExists "File exists (os error 17)"), w)
    | None => (Ok t, mem_put t "" w)
    end;
  os_write_all t c w := (Ok tt, mem_put t c w);
  os_sync_all t w := (Ok tt, w);
  os_set_permissions p m w := (Ok tt, w);
  os_hard_link t p w :=
    match mf_files w !! p, mf_files w !! t with
    | Some _, _ => (Err (mk_io_error IoAlreadyExists "File exists (os error 17)"), w)
    | None, Some cv => (Ok tt, mk_mem (<[p := cv]> (mf_files w)) (mf_next w))
    | None, None => (Err no_entry, w)
    end;
  os_persist t p w :=
    match mf_files w !! t with
    | Some cv => (Ok tt, mk_mem (<[p := cv]> (delete t (mf_files w))) (mf_next w))
    | None => (Err no_entry, w)
    end;
  os_remove_temp t w := mk_mem (delete t (mf_files w)) (mf_next w);
}.

#[export] Program Instance MemFs_quiet : QuietHost MemFs := { files_of w p := fst <$> mf_files w !! p }.
Next Obligation. done. Qed.
Next Obligation. done. Qed.
Next Obligation. done. Qed.
Next Obligation. done. Qed.
Next Obligation. done. Qed.
Next Obligation. done. Qed.
Next Obligation. done. Qed.
Next Obligation. intros p w raw. cbn. destruct (mf_files w !! p) as [[c v]|]; [|done]. by intros [= <-]. Qed.
Next Obligation.
  intros d p s w. cbn. destruct (mf_files w !! _) as [?|] eqn:E; [done|]. split; [by rewrite E|]. intros q. cbn. unfold file_put.
  destruct (decide _) as [->|]; [by rewrite lookup_insert_eq|by rewrite lookup_insert_ne].
Qed.
Next Obligation.
  intros t c w _ q. cbn. unfold file_put. destruct (decide _) as [->|]; [by rewrite lookup_insert_eq|by rewrite lookup_insert_ne].
Qed.
Next Obligation.
  intros t p w. cbn. destruct (mf_files w !! p) as [?|] eqn:E; [done|]. destruct (mf_files w !! t) as [cv|] eqn:Et; [|done].
  split; [done|]. intros q. cbn. unfold file_put. rewrite ?Et.
  destruct (decide _) as [->|]; [by rewrite lookup_insert_eq|by rewrite lookup_insert_ne].
Qed.
Next Obligation.
  intros t p w. cbn. destruct (mf_files w !! t) as [cv|] eqn:Et; [|done]. intros q. cbn. unfold file_put. rewrite ?Et.
  destruct (decide _) as [->|]; [by rewrite lookup_insert_eq|rewrite lookup_insert_ne by done].
  destruct (decide _) as [->|]; [by rewrite lookup_delete_eq|by rewrite lookup_delete_ne].
Qed.
Next Obligation.
  intros t w q. cbn. unfold file_put. destruct (decide _) as [->|]; [by rewrite lookup_delete_eq|by rewrite lookup_delete_ne].
Qed.

Definition demo_mem : MemFs := mk_mem {["/w/a.txt" := ("hello", 1%Z); "/w/b.txt" := ("other", 2%Z)]} 3.
Definition demo_target : FsTarget := mk_target "/w/a.txt" "/w/a.txt".
Definition demo_edit : FsEditRequest := mk_edit_request "ell" "ipp" false.
Definition demo_run := edit_text demo_target demo_edit None None demo_mem.

Lemma mutations_touch_only_target_witness :
  is_ok demo_run.1.1 = true /\ files_of demo_run.1.2 "/w/a.txt" = Some "hippo" /\ files_of demo_run.1.2 "/w/b.txt" = Some "other".
Proof.
  assert (Hok : is_ok demo_run.1.1 = true) by (vm_compute; reflexivity). split; [exact Hok|].
  destruct demo_run as [[r w'] l] eqn:E. cbn [fst snd] in *.
  destruct (mutations_touch_only_target demo_mem w' l) as [_ He].
  destruct (He demo_target demo_edit None None r E) as [(raw & content & edited & stored & Hraw & Hedit & Hw & _)|[_ Hf]]; [|by rewrite Hf in Hok].
  cbn [ft_key demo_target] in *. assert (raw = "hello") as -> by (vm_compute in Hraw; by injection Hraw).
  assert (stored = "hippo") as -> by (vm_compute in Hedit; by injection Hedit).
  split; rewrite Hw; vm_compute; reflexivity.
Defined.
