(* ===== verification/FsTools.v ===== *)
(** The [read], [write] and [edit] tools of [crates/dsh/fs/src/tools.rs] with
    the read-before-edit policy of [observation.rs] between them and the
    provider.

    A tool call runs to its next await and stops there: the intent slot and the
    recording of an observation are awaits, where other calls, and other
    processes, go on.  The policy is installed or not; without it the slots
    answer their defaults and nothing is recorded. *)
From Stdlib Require Import ZArith String Ascii Lia Floats.SpecFloat.
From stdpp Require Import base tactics list numbers strings gmap.
From S2P Require Import Prelude Json Text Utf8 Llm Scope JsonSchema ToolSchema ToolRegistry FsText FsRead FsPath FsLocal FsHost.
Open Scope string_scope.
Open Scope nat_scope.
Open Scope list_scope.
Open Scope keel_scope.

(** * The policy *)

Abbreviation FsOwnerKey := string (only parsing).
Abbreviation ObservedState := (gmap string (gmap string FsObservation)) (only parsing).

Definition prior (state : ObservedState) (owner : option FsOwnerKey) (target : FsTarget) : option FsObservation :=
  owner ← owner; seen ← state !! owner; seen !! ft_key target.

Definition write_intent (state : ObservedState) (target : FsTarget) (owner : option FsOwnerKey) : FsWriteIntent :=
  match prior state owner target with
  | Some (Present version) => ReplaceIfVersion version
  | _ => CreateIfAbsent
  end.

Definition edit_intent (state : ObservedState) (target : FsTarget) (owner : option FsOwnerKey) : result FsVersion FsError :=
  match prior state owner target with
  | None => Err (mk_fs_error ("edit requires reading " +:+ dquoted (ft_display_path target) +:+ " first") NotObserved)
  | Some Absent => Err (mk_fs_error ("cannot edit " +:+ dquoted (ft_display_path target) +:+ ": not found") NotFound)
  | Some (Present version) => Ok version
  end.

(** The recorder of [FsObservedEvent]. *)
Definition observe (state : ObservedState) (target : FsTarget) (observation : FsObservation) (owner : option FsOwnerKey) : ObservedState :=
  match owner with
  | Some owner => <[owner := <[ft_key target := observation]> (default ∅ (state !! owner))]> state
  | None => state
  end.

(** * The tools *)

(** What a call knows of its caller: the session id and its working directory,
    when an agent calls, and the abort signal. *)
Record ToolCaller (W : Type) := mk_caller { tc_owner : option FsOwnerKey; tc_cwd : option string; tc_signal : AbortSignal (W := W) }.
Arguments mk_caller {W} _ _ _.
Arguments tc_owner {W} _.
Arguments tc_cwd {W} _.
Arguments tc_signal {W} _.

Record FsToolsConfig := mk_fs_tools_config { fc_read_limit : Z; fc_read_max_line_length : nat; fc_read_max_bytes : nat }.
Definition fs_tools_default : FsToolsConfig := mk_fs_tools_config READ_LIMIT READ_MAX_LINE_LENGTH READ_MAX_BYTES.
(** The check of [register_fs_tools]. *)
Definition caps_positive (config : FsToolsConfig) : bool :=
  (1 <=? fc_read_limit config)%Z && (1 <=? fc_read_max_line_length config)%nat && (1 <=? fc_read_max_bytes config)%nat.

Definition fs_tool_error (e : FsError) : ToolError := TE_Harness (fe_message e) (FsErrorCode_as_str (fe_code e)).
Definition remedy_of (c : FsErrorCode) : option string :=
  match c with
  | StaleVersion => Some "re-read the file, then retry"
  | NotObserved => Some "read the file, then retry"
  | _ => None
  end.
Definition remediate_fs_error (e : FsError) : ToolError :=
  match remedy_of (fe_code e) with
  | Some remedy => TE_Harness (fe_message e +:+ " — " +:+ remedy) (FsErrorCode_as_str (fe_code e))
  | None => fs_tool_error e
  end.

(** [args[name].as_str().unwrap_or_default()]. *)
Definition arg_str (name : string) (args : Value) : string := default "" (as_str (index name args)).

(** [number as u64] of an integral double at least one: it saturates. *)
Definition f64_as_u64 (f : f64) : Z :=
  match f with
  | S754_finite false m e => Z.min u64_max (if (0 <=? e)%Z then Z.pos m * 2 ^ e else Z.pos m / 2 ^ (- e))%Z
  | S754_infinity false => u64_max
  | _ => 0%Z
  end.
Definition positive_integer (value : Value) (name : string) : result Z ToolError :=
  match as_f64 value with
  | Some f => if f64_is_finite f && fract_is_zero f && f64_leb f64_one f then Ok (f64_as_u64 f)
              else Err (TE_Other (name +:+ " must be a positive integer"))
  | None => Err (TE_Other (name +:+ " must be a positive integer"))
  end.
Definition optional_integer (args : Value) (name : string) (fallback : Z) : result Z ToolError :=
  match get name args with None | Some Null => Ok fallback | Some v => positive_integer v name end.

Record ReadInput := mk_read_input { ri_file_path : string; ri_offset : Z; ri_limit : Z }.
Definition parse_read_args (args : Value) (max_limit : Z) : result ReadInput ToolError :=
  let file_path := arg_str "file_path" args in
  if String.eqb (trim file_path) "" then Err (TE_Other "file_path must be a non-empty string")
  else
    let? offset := optional_integer args "offset" 1 in
    let? limit := optional_integer args "limit" max_limit in
    if (max_limit <? limit)%Z then Err (TE_Other ("limit must be less than or equal to " +:+ decimal max_limit))
    else Ok (mk_read_input file_path offset limit).

Definition parse_write_args (args : Value) : result (string * string) ToolError :=
  let file_path := arg_str "file_path" args in
  if String.eqb (trim file_path) "" then Err (TE_Other "file_path must be a non-empty string")
  else Ok (file_path, arg_str "content" args).

Definition parse_edit_args (args : Value) : result (string * FsEditRequest) ToolError :=
  let file_path := arg_str "file_path" args in
  if String.eqb (trim file_path) "" then Err (TE_Other "file_path must be a non-empty string")
  else
    let old_string := arg_str "old_string" args in
    let new_string := arg_str "new_string" args in
    if String.eqb old_string "" then Err (TE_Other "old_string must be a non-empty string")
    else if String.eqb old_string new_string then Err (TE_Other "old_string and new_string must differ")
    else Ok (file_path, mk_edit_request old_string new_string (default false (as_bool (index "replace_all" args)))).

Definition operation_str (op : FsWriteOperation) : string := match op with OpCreate => "create" | OpUpdate => "update" end.
Definition write_value (target : FsTarget) (o : FsWriteOutcome) : Value :=
  Obj (json_map [("path", Str (ft_display_path target)); ("operation", Str (operation_str (wo_operation o)));
                 ("before", match wo_before o with Some b => Str b | None => Null end); ("after", Str (wo_after o))]).
Definition edit_value (target : FsTarget) (o : FsEditOutcome) : Value :=
  Obj (json_map [("path", Str (ft_display_path target)); ("before", Str (eo_before o)); ("after", Str (eo_after o))]).

(** What the model reads. *)
Definition format_write_output (display_path : string) (operation : FsWriteOperation) : string :=
  let verb := match operation with OpCreate => "Created" | OpUpdate => "Updated" end in
  "<path>" +:+ display_path +:+ envelope_separator +:+ verb +:+ " file" +:+ envelope_end.
Definition format_edit_output (display_path : string) (replace_all : bool) : string :=
  if replace_all
  then "The file " +:+ display_path +:+ " has been updated. All occurrences were successfully replaced."
  else "The file " +:+ display_path +:+ " has been updated successfully.".

(** * Calls, from await to await *)

Inductive Pending (W : Type) :=
| AwaitWriteIntent (target : FsTarget) (content : string) (caller : ToolCaller W)
| AwaitEditIntent (target : FsTarget) (edit : FsEditRequest) (caller : ToolCaller W)
| AwaitWrite (target : FsTarget) (content : string) (intent : option FsWriteIntent) (caller : ToolCaller W)
| AwaitEdit (target : FsTarget) (edit : FsEditRequest) (intent : option FsVersion) (caller : ToolCaller W)
| AwaitObserved (target : FsTarget) (observation : FsObservation) (owner : option FsOwnerKey) (answer : result Value ToolError).
Arguments AwaitWriteIntent {W} _ _ _.
Arguments AwaitEditIntent {W} _ _ _.
Arguments AwaitWrite {W} _ _ _ _.
Arguments AwaitEdit {W} _ _ _ _.
Arguments AwaitObserved {W} _ _ _ _.

Inductive Progress (W : Type) := Waiting (p : Pending W) | Finished (answer : result Value ToolError).
Arguments Waiting {W} p.
Arguments Finished {W} answer.

Section tools.
Context {W : Type} `{HostFs W} (fs : LocalFileSystem) (config : FsToolsConfig) (installed : bool).

(** The error of a provider step as a tool failure. *)
Definition or_finish {A} (mode : FsError -> ToolError) (m : FsIo W A) (k : A -> W -> Progress W * W * list OsCall) (w : W) : Progress W * W * list OsCall :=
  match m w with
  | (Ok a, w, l) => let '(p, w, l') := k a w in (p, w, l ++ l')
  | (Err e, w, l) => (Finished (Err (mode e)), w, l)
  end.

Definition stop (p : Progress W) (w : W) : Progress W * W * list OsCall := (p, w, []).

Definition read_start (args : Value) (caller : ToolCaller W) (w : W) : Progress W * W * list OsCall :=
  match parse_read_args args (fc_read_limit config) with
  | Err e => stop (Finished (Err e)) w
  | Ok input =>
      or_finish fs_tool_error (resolve fs (ri_file_path input) (tc_cwd caller) (Some (tc_signal caller))) (fun target =>
      or_finish fs_tool_error (stat target (Some (tc_signal caller))) (fun info =>
      match info with
      | None => stop (Waiting (AwaitObserved target Absent (tc_owner caller)
                  (Err (fs_tool_error (mk_fs_error (cannot "read" target "not found") NotFound)))))
      | Some info =>
          match fi_entry_type info with
          | EntryFile =>
              or_finish fs_tool_error (read_text target (Some (tc_signal caller))) (fun text =>
              match build_window text (mk_read_window (ri_offset input) (ri_limit input) (fc_read_max_line_length config) (fc_read_max_bytes config)) (ft_display_path target) with
              | Err e => stop (Finished (Err (fs_tool_error e)))
              | Ok window => stop (Waiting (AwaitObserved target (Present (fi_version info)) (tc_owner caller)
                               (Ok (read_value (ft_display_path target) (ri_offset input) window))))
              end)
          | _ => stop (Finished (Err (fs_tool_error (mk_fs_error (cannot "read" target "not a regular file") NotRegularFile))))
          end
      end)) w
  end.

Definition write_start (args : Value) (caller : ToolCaller W) (w : W) : Progress W * W * list OsCall :=
  match parse_write_args args with
  | Err e => stop (Finished (Err e)) w
  | Ok (file_path, content) =>
      or_finish fs_tool_error (resolve fs file_path (tc_cwd caller) (Some (tc_signal caller)))
        (fun target => stop (Waiting (AwaitWriteIntent target content caller))) w
  end.

Definition edit_start (args : Value) (caller : ToolCaller W) (w : W) : Progress W * W * list OsCall :=
  match parse_edit_args args with
  | Err e => stop (Finished (Err e)) w
  | Ok (file_path, edit) =>
      or_finish fs_tool_error (resolve fs file_path (tc_cwd caller) (Some (tc_signal caller)))
        (fun target => stop (Waiting (AwaitEditIntent target edit caller))) w
  end.

(** One pending call goes on: the progress, the world, the observed state, and
    the calls made. *)
Definition advance (p : Pending W) (w : W) (st : ObservedState) : Progress W * W * ObservedState * list OsCall :=
  match p with
  | AwaitWriteIntent target content caller =>
      let intent := if installed then Some (write_intent st target (tc_owner caller)) else None in
      (Waiting (AwaitWrite target content intent caller), w, st, [])
  | AwaitEditIntent target edit caller =>
      if installed then
        match edit_intent st target (tc_owner caller) with
        | Ok version => (Waiting (AwaitEdit target edit (Some version) caller), w, st, [])
        | Err e => (Finished (Err (remediate_fs_error e)), w, st, [])
        end
      else (Waiting (AwaitEdit target edit None caller), w, st, [])
  | AwaitWrite target content intent caller =>
      let '(p, w, l) := or_finish remediate_fs_error (write_text fs target content intent (Some (tc_signal caller)))
        (fun o => stop (Waiting (AwaitObserved target (Present (wo_version o)) (tc_owner caller) (Ok (write_value target o))))) w in
      (p, w, st, l)
  | AwaitEdit target edit intent caller =>
      let '(p, w, l) := or_finish remediate_fs_error (edit_text target edit intent (Some (tc_signal caller)))
        (fun o => stop (Waiting (AwaitObserved target (Present (eo_version o)) (tc_owner caller) (Ok (edit_value target o))))) w in
      (p, w, st, l)
  | AwaitObserved target observation owner answer =>
      (Finished answer, w, if installed then observe st target observation owner else st, [])
  end.

(** A whole call with nothing in between. *)
Inductive ToolName := ToolRead | ToolWrite | ToolEdit.
Definition start (tool : ToolName) : Value -> ToolCaller W -> W -> Progress W * W * list OsCall :=
  match tool with ToolRead => read_start | ToolWrite => write_start | ToolEdit => edit_start end.
Fixpoint finish_call (fuel : nat) (p : Progress W) (w : W) (st : ObservedState) : option (result Value ToolError * W * ObservedState) :=
  match p, fuel with
  | Finished answer, _ => Some (answer, w, st)
  | Waiting p, S fuel => let '(p, w, st, _) := advance p w st in finish_call fuel p w st
  | Waiting _, O => None
  end.
Definition run_call (tool : ToolName) (args : Value) (caller : ToolCaller W) (w : W) (st : ObservedState) : option (result Value ToolError * W * ObservedState) :=
  let '(p, w, _) := start tool args caller w in finish_call 3 p w st.

(** A call has at most three awaits. *)
Definition awaits (p : Pending W) : nat :=
  match p with AwaitWriteIntent _ _ _ | AwaitEditIntent _ _ _ => 3 | AwaitWrite _ _ _ _ | AwaitEdit _ _ _ _ => 2 | AwaitObserved _ _ _ _ => 1 end.
End tools.

(** * Tools side by side *)

(** The history: what was recorded, and the calls each step made for its owner. *)
Inductive FsEvent :=
| EvObserved (owner : option FsOwnerKey) (key : string) (observation : FsObservation)
| EvCalls (owner : option FsOwnerKey) (l : list OsCall).

Definition pending_owner {W} (p : Pending W) : option FsOwnerKey :=
  match p with
  | AwaitWriteIntent _ _ c | AwaitEditIntent _ _ c | AwaitWrite _ _ _ c | AwaitEdit _ _ _ c => tc_owner c
  | AwaitObserved _ _ o _ => o
  end.
Definition recorded_by {W} (p : Pending W) : list FsEvent :=
  match p with AwaitObserved target observation owner _ => [EvObserved owner (ft_key target) observation] | _ => [] end.
Definition still {W} (p : Progress W) : list (Pending W) := match p with Waiting p => [p] | Finished _ => [] end.

Record ToolSystem (W : Type) := mk_system {
  sy_world : W; sy_state : ObservedState; sy_pending : list (Pending W); sy_history : list FsEvent }.
Arguments mk_system {W} _ _ _ _.
Arguments sy_world {W} _.
Arguments sy_state {W} _.
Arguments sy_pending {W} _.
Arguments sy_history {W} _.

Section system.
Context {W : Type} `{HostFs W} (fs : LocalFileSystem) (config : FsToolsConfig) (installed : bool).

(** Calls start, go on in any order and may be dropped; other processes change
    the world as they like. *)
Inductive sys_step : ToolSystem W -> ToolSystem W -> Prop :=
| sys_start s tool args caller p w l :
    start fs config tool args caller (sy_world s) = (p, w, l) ->
    sys_step s (mk_system w (sy_state s) (sy_pending s ++ still p) (sy_history s ++ [EvCalls (tc_owner caller) l]))
| sys_advance s l1 q l2 p w st l :
    sy_pending s = l1 ++ q :: l2 ->
    advance fs installed q (sy_world s) (sy_state s) = (p, w, st, l) ->
    sys_step s (mk_system w st (l1 ++ still p ++ l2) (sy_history s ++ EvCalls (pending_owner q) l :: recorded_by q))
| sys_drop s l1 q l2 :
    sy_pending s = l1 ++ q :: l2 -> sys_step s (mk_system (sy_world s) (sy_state s) (l1 ++ l2) (sy_history s))
| sys_others s w : sys_step s (mk_system w (sy_state s) (sy_pending s) (sy_history s)).

Definition sys_initial (w : W) : ToolSystem W := mk_system w ∅ [] [].
Inductive sys_reachable : ToolSystem W -> Prop :=
| sys_init w : sys_reachable (sys_initial w)
| sys_next s s' : sys_reachable s -> sys_step s s' -> sys_reachable s'.
End system.

(** The last thing an owner was told of a key. *)
Definition told (o : FsOwnerKey) (key : string) (e : FsEvent) : option FsObservation :=
  match e with
  | EvObserved (Some o') key' observation => if decide (o' = o /\ key' = key) then Some observation else None
  | _ => None
  end.
Definition last_told (o : FsOwnerKey) (key : string) (h : list FsEvent) : option FsObservation := last (omap (told o key) h).

Lemma last_told_app o key h1 h2 : last_told o key (h1 ++ h2) = match last_told o key h2 with Some x => Some x | None => last_told o key h1 end.
Proof.
  unfold last_told. rewrite omap_app. destruct (decide (omap (told o key) h2 = [])) as [E|E]; [by rewrite E, app_nil_r|].
  destruct (exists_last E) as (l & x & ->). by rewrite app_assoc, !last_snoc.
Qed.

Lemma last_told_calls o key owner l h : last_told o key (EvCalls owner l :: h) = last_told o key h.
Proof. done. Qed.

(** * Version tokens *)

Lemma decimal_fixed n : (0 <= n)%Z -> exists w, w <> 0 /\ decimal n = fixed w n /\ (n < 10 ^ Z.of_nat w)%Z.
Proof.
  intros Hn. unfold decimal. destruct (decimal_aux_fixed (Z.to_nat (Z.log2 n)) n EmptyString) as (k & E & Hlt & _).
  - split; [done|]. rewrite Z2Nat.id by apply Z.log2_nonneg. destruct (decide (n = 0)%Z) as [->|]; [done|].
    pose proof (Z.log2_spec n ltac:(lia)) as [_ H]. rewrite Z.pow_succ_r in H by apply Z.log2_nonneg. lia.
  - exists (S k). split; [done|]. by rewrite E, str_app_nil_r.
Qed.

Lemma decimal_inj n n' : (0 <= n)%Z -> (0 <= n')%Z -> decimal n = decimal n' -> n = n'.
Proof.
  intros Hn Hn' E. destruct (decimal_fixed n Hn) as (w & _ & Ew & Hlt), (decimal_fixed n' Hn') as (w' & _ & Ew' & Hlt').
  assert (w = w') as <- by (rewrite <- (fixed_length w n), <- (fixed_length w' n'), <- Ew, <- Ew'; by f_equal).
  apply Z.compare_eq_iff. rewrite <- (fixed_compare w) by lia. rewrite <- Ew, <- Ew', E. apply str_compare_refl.
Qed.

Definition is_digit (c : ascii) : bool := (48 <=? nat_of_ascii c)%nat && (nat_of_ascii c <=? 57)%nat.
Fixpoint digits_only (s : string) : bool := match s with EmptyString => true | String c s => is_digit c && digits_only s end.

Lemma all_digits_app a b : digits_only (a +:+ b) = digits_only a && digits_only b.
Proof. induction a as [|c a IH]; [done|]. rewrite str_app_cons. cbn [digits_only]. by rewrite IH, andb_assoc. Qed.

Lemma fixed_digits w n : digits_only (fixed w n) = true.
Proof.
  revert n. induction w as [|w IH]; intros n; [done|]. cbn [fixed]. rewrite all_digits_app, IH. cbn [digits_only andb].
  pose proof (Z.mod_pos_bound n 10 ltac:(lia)) as H. unfold is_digit, digit, nat_of_ascii. rewrite N_ascii_embedding by lia.
  rewrite Z_N_nat. apply andb_true_iff. split; [|done]. apply andb_true_iff. split; apply Nat.leb_le; lia.
Qed.

(** A token up to the next separator. *)
Definition no_colon (s : string) : bool := negb (contains ":" s).
Lemma colon_split a b x y : no_colon a = true -> no_colon b = true -> a +:+ ":" +:+ x = b +:+ ":" +:+ y -> a = b /\ x = y.
Proof.
  unfold no_colon. rewrite !negb_true_iff. revert b. induction a as [|c a IH]; intros [|d b] Ha Hb E.
  - rewrite !str_app_nil_l in E. injection E as E. by split.
  - rewrite str_app_nil_l, (str_app_cons d) in E. injection E as <- _. discriminate Hb.
  - rewrite str_app_nil_l, (str_app_cons c) in E. injection E as -> _. discriminate Ha.
  - rewrite !str_app_cons in E. injection E as -> E. cbn [contains] in Ha, Hb. apply orb_false_iff in Ha as [_ Ha], Hb as [_ Hb].
    destruct (IH b Ha Hb E) as [-> ->]. done.
Qed.

Lemma digits_no_colon s : digits_only s = true -> no_colon s = true.
Proof.
  unfold no_colon. rewrite negb_true_iff. induction s as [|c s IH]; [done|]. cbn [digits_only contains]. intros [Hc Hs]%andb_true_iff.
  rewrite IH by done. rewrite orb_false_r. cbn [starts_with]. destruct (ascii_dec ":" c) as [<-|]; [discriminate Hc|done].
Qed.

Lemma decimal_digits n : (0 <= n)%Z -> digits_only (decimal n) = true.
Proof. intros H. destruct (decimal_fixed n H) as (w & _ & -> & _). apply fixed_digits. Qed.

Lemma decimal_signed_no_colon n : no_colon (decimal_signed n) = true.
Proof.
  unfold decimal_signed. destruct (Z.ltb_spec n 0); [|by apply digits_no_colon, decimal_digits].
  pose proof (digits_no_colon _ (decimal_digits (- n) ltac:(lia))) as H'. unfold no_colon in *.
  change ("-" +:+ decimal (- n)) with (String "-" (decimal (- n))). cbn [contains]. by rewrite negb_orb.
Qed.

Lemma decimal_signed_inj n n' : decimal_signed n = decimal_signed n' -> n = n'.
Proof.
  assert (Hm : forall a b, (0 <= b)%Z -> "-" +:+ decimal a = decimal b -> False).
  { intros a b Hb E. pose proof (decimal_digits b Hb) as Hd. rewrite <- E in Hd. discriminate Hd. }
  unfold decimal_signed. destruct (Z.ltb_spec n 0), (Z.ltb_spec n' 0); intros E.
  - apply str_app_cancel, decimal_inj in E; lia.
  - by apply Hm in E.
  - symmetry in E. by apply Hm in E.
  - by apply decimal_inj.
Qed.

(** Equal tokens are equal device, inode, size and times. *)
Definition md_typed (m : FileMetadata) : Prop := (0 <= md_dev m /\ 0 <= md_ino m /\ 0 <= md_len m)%Z.
Lemma version_identifies m m' :
  md_typed m -> md_typed m' -> version_of m = version_of m' ->
  md_dev m = md_dev m' /\ md_ino m = md_ino m' /\ md_len m = md_len m' /\
  (md_mtime m * 1000000000 + md_mtime_nsec m = md_mtime m' * 1000000000 + md_mtime_nsec m')%Z /\
  (md_ctime m * 1000000000 + md_ctime_nsec m = md_ctime m' * 1000000000 + md_ctime_nsec m')%Z.
Proof.
  intros (H1 & H2 & H3) (H1' & H2' & H3') E. unfold version_of in E.
  apply colon_split in E as [E1 E]; [|by apply digits_no_colon, decimal_digits..].
  apply colon_split in E as [E2 E]; [|by apply digits_no_colon, decimal_digits..].
  apply colon_split in E as [E3 E]; [|by apply digits_no_colon, decimal_digits..].
  apply colon_split in E as [E4 E]; [|apply decimal_signed_no_colon..].
  split_and!; [by apply decimal_inj..|by apply decimal_signed_inj|by apply decimal_signed_inj].
Qed.

Lemma version_not_missing m key : md_typed m -> version_of m <> "missing:" +:+ key.
Proof.
  intros (H1 & _) E. unfold version_of in E. pose proof (decimal_digits _ H1) as Hd. destruct (decimal_fixed _ H1) as (w & Hne & Ew & _).
  destruct (decimal (md_dev m)) as [|c s] eqn:Ed; [|].
  - destruct w; [done|]. pose proof (fixed_length (S w) (md_dev m)) as Hl. by rewrite <- Ew in Hl.
  - rewrite str_app_cons in E. injection E as -> _. discriminate Hd.
Qed.

(** * What the provider's logs say *)

Section logs.
Context {W : Type} `{HostFs W}.

(** The version [v] of [key] as a probe of the log answered it. *)
Definition shown (key : string) (v : FsVersion) (l : list OsCall) : Prop :=
  (exists m, CallMetadata key (Ok m) ∈ l /\ version_of m = v) \/ v = "missing:" +:+ key.

Lemma shown_app_r key v l1 l2 : shown key v l2 -> shown key v (l1 ++ l2).
Proof. intros [(m & Hm & E)|E]; [left; exists m; set_solver|by right]. Qed.
Lemma shown_app_l key v l1 l2 : shown key v l1 -> shown key v (l1 ++ l2).
Proof. intros [(m & Hm & E)|E]; [left; exists m; set_solver|by right]. Qed.

Lemma logs_any {A} (m : FsIo W A) : logs m (fun _ _ => True).
Proof. by intros w r w' l _. Qed.
(** Whatever the first step did, the rest decides. *)
Lemma logs_then {A B} (m : FsIo W A) (k : A -> FsIo W B) (P : result B FsError -> list OsCall -> Prop) :
  (forall e l, P (Err e) l) -> (forall a l0, logs (k a) (fun r l => P r (l0 ++ l))) -> logs (io_bind m k) P.
Proof. intros He Hk. apply logs_bind. intros w [a|e] w' l _; [apply Hk|apply He]. Qed.

Lemma version_shown key : logs (version_after_write key) (fun r l => forall v, r = Ok v -> shown key v l).
Proof.
  apply logs_bind, logs_probe.
  - intros m. apply logs_ret. intros v [= <-]. left. exists m. split; [left|done].
  - intros e He. apply logs_ret. intros v [= <-]. by right.
  - done.
Qed.

Lemma write_text_shown fs target content expected signal :
  logs (write_text fs target content expected signal) (fun r l => forall o, r = Ok o -> shown (ft_key target) (wo_version o) l).
Proof.
  unfold write_text. do 5 (apply logs_then; [done|intros ??]).
  apply logs_bind. eapply logs_weaken; [|apply version_shown]. intros [v|e] lv Hv; [|done].
  apply logs_ret. intros o [= <-]. rewrite app_nil_r. repeat apply shown_app_r. by apply Hv.
Qed.

Lemma edit_text_shown target edit expected signal :
  logs (edit_text target edit expected signal) (fun r l => forall o, r = Ok o -> shown (ft_key target) (eo_version o) l).
Proof.
  unfold edit_text. do 5 (apply logs_then; [done|intros ??]). apply logs_then; [done|]. intros [[content edited] stored] lc.
  apply logs_then; [done|intros ??].
  apply logs_bind. eapply logs_weaken; [|apply version_shown]. intros [v|e] lv Hv; [|done].
  apply logs_ret. intros o [= <-]. rewrite app_nil_r. repeat apply shown_app_r. by apply Hv.
Qed.

(** Reads publish nothing. *)
Definition hushed {A} (m : FsIo W A) : Prop := logs m (fun _ l => quiet l).
Lemma hushed_bind {A B} (m : FsIo W A) (k : A -> FsIo W B) : hushed m -> (forall a, hushed (k a)) -> hushed (io_bind m k).
Proof.
  intros Hm Hk. apply logs_bind. eapply logs_weaken; [|exact Hm]. intros [a|e] l Hl; [|done].
  eapply logs_weaken; [|apply Hk]. intros r l' Hl'. rewrite quiet_app. done.
Qed.
Lemma hushed_ret {A} (a : A) : hushed (io_ret a).
Proof. by apply logs_ret. Qed.
Lemma hushed_fail {A} e : hushed (io_fail (A := A) e).
Proof. by apply logs_fail. Qed.
Lemma hushed_aborted signal verb : hushed (check_aborted signal verb).
Proof. by apply logs_aborted. Qed.
Lemma hushed_canonicalize p : hushed (canonicalize p).
Proof. by apply logs_call. Qed.
Lemma hushed_fs_read p : hushed (fs_read p).
Proof. by apply logs_call. Qed.
Lemma hushed_probe key : hushed (probe key).
Proof. by apply logs_probe. Qed.
#[local] Hint Resolve hushed_ret hushed_fail hushed_aborted hushed_canonicalize hushed_fs_read hushed_probe : fs_logs.

Lemma hushed_resolve fs path cwd signal : hushed (resolve fs path cwd signal).
Proof.
  assert (Ha : forall fuel display missing ancestor, hushed (resolve_ancestor fuel display missing ancestor)).
  { intros fuel display. induction fuel as [|fuel IH]; intros missing [current|]; cbn [resolve_ancestor]; auto with fs_logs.
    apply hushed_bind; [auto with fs_logs|]. intros [real|e]; [auto with fs_logs|]. destruct (is_absent_error e); auto with fs_logs. }
  unfold resolve. apply hushed_bind; [auto with fs_logs|]. intros _. destruct (String.eqb _ _); [auto with fs_logs|].
  apply hushed_bind; [auto with fs_logs|]. intros [real|e]; [auto with fs_logs|].
  destruct (bool_decide _); [auto with fs_logs|]. destruct (bool_decide _); auto with fs_logs.
Qed.

Lemma hushed_read_text target signal : hushed (read_text target signal).
Proof.
  unfold read_text, read_raw. apply hushed_bind; [auto with fs_logs|]. intros _. apply hushed_bind.
  - apply hushed_bind; [auto with fs_logs|]. intros [m|]; [|auto with fs_logs]. destruct (negb _); [auto with fs_logs|].
    apply hushed_bind; [auto with fs_logs|]. intros []; auto with fs_logs.
  - intros raw. destruct (has_nul _); [auto with fs_logs|]. destruct (from_utf8 raw); auto with fs_logs.
Qed.

Lemma stat_logs target signal :
  logs (stat target signal) (fun r l => quiet l /\ forall info, r = Ok (Some info) -> shown (ft_key target) (fi_version info) l).
Proof.
  unfold stat. apply logs_bind, logs_aborted; [|done]. apply logs_bind, logs_probe.
  - intros m. apply logs_ret. split; [done|]. intros info [= <-]. left. exists m. split; [left|done].
  - intros e He. apply logs_ret. done.
  - done.
Qed.
End logs.

(** * The invariant *)

Section safety.
Context {W : Type} `{HostFs W} (fs : LocalFileSystem) (config : FsToolsConfig).

(** The owner was told [v] of [key] in some past [h], as the last thing. *)
Definition was_told (owner : option FsOwnerKey) (key : string) (v : FsVersion) (h : list FsEvent) : Prop :=
  exists o h1 h2, owner = Some o /\ h = h1 ++ h2 /\ last_told o key h1 = Some (Present v).

Definition pending_justified (h : list FsEvent) (p : Pending W) : Prop :=
  match p with
  | AwaitWrite target _ intent caller =>
      match intent with
      | Some (ReplaceIfVersion v) => was_told (tc_owner caller) (ft_key target) v h
      | Some CreateIfAbsent => True
      | None => False
      end
  | AwaitEdit target _ intent caller =>
      match intent with Some v => was_told (tc_owner caller) (ft_key target) v h | None => False end
  | AwaitObserved target (Present v) owner _ => exists l, EvCalls owner l ∈ h /\ shown (ft_key target) v l
  | _ => True
  end.

(** A step's calls publish nothing, or they start with the probe that allowed
    the publications they make, under the probed name. *)
Definition justified (pre : list FsEvent) (owner : option FsOwnerKey) (l : list OsCall) : Prop :=
  quiet l \/
  exists key answer rest, l = CallMetadata key answer :: rest /\
    forall c temp key' replaces, c ∈ l -> publication c = Some (temp, key', replaces) ->
      key' = key /\
      if replaces then exists m, answer = Ok m /\ is_file m = true /\ was_told owner key (version_of m) pre
      else exists e, answer = Err e /\ is_absent_error e = true.

Definition event_ok (pre : list FsEvent) (e : FsEvent) : Prop :=
  match e with
  | EvObserved owner key (Present v) => exists l, EvCalls owner l ∈ pre /\ shown key v l
  | EvObserved _ _ Absent => True
  | EvCalls owner l => justified pre owner l
  end.
Definition history_ok (h : list FsEvent) : Prop := forall pre e post, h = pre ++ e :: post -> event_ok pre e.

Definition sys_ok (s : ToolSystem W) : Prop :=
  history_ok (sy_history s) /\ Forall (pending_justified (sy_history s)) (sy_pending s) /\
  forall o key, (sy_state s !! o ≫= fun seen => seen !! key) = last_told o key (sy_history s).

Lemma history_snoc h e : history_ok h -> event_ok h e -> history_ok (h ++ [e]).
Proof.
  intros Hh He pre e' post E. destruct (decide (post = [])) as [->|Hp].
  - apply app_inj_tail in E as [<- <-]. done.
  - destruct (exists_last Hp) as (post' & x & ->). rewrite app_comm_cons, app_assoc in E. apply app_inj_tail in E as [-> _]. by eapply Hh.
Qed.

Lemma was_told_more owner key v h h' : was_told owner key v h -> was_told owner key v (h ++ h').
Proof. intros (o & h1 & h2 & E & -> & Hl). exists o, h1, (h2 ++ h'). by rewrite <- app_assoc. Qed.

Lemma pending_more h h' p : pending_justified h p -> pending_justified (h ++ h') p.
Proof.
  destruct p as [| |target content [[|v]|] caller|target edit [v|] caller|target [v|] owner answer]; cbn; try done; try apply was_told_more.
  intros (l & Hl & Hs). exists l. split; [set_solver|done].
Qed.

Lemma pendings_more h h' ps : Forall (pending_justified h) ps -> Forall (pending_justified (h ++ h')) ps.
Proof. intros Hp. eapply Forall_impl; [exact Hp|]. intros p. apply pending_more. Qed.

(** Programs that stop at awaits. *)
Definition plogs (f : W -> Progress W * W * list OsCall) (P : Progress W -> list OsCall -> Prop) : Prop :=
  forall w p w' l, f w = (p, w', l) -> P p l.
Lemma plogs_stop p (P : Progress W -> list OsCall -> Prop) : P p [] -> plogs (stop p) P.
Proof. by intros HP w q w' l [= <- _ <-]. Qed.
Lemma plogs_attempt {A} mode (m : FsIo W A) k (P : Progress W -> list OsCall -> Prop) :
  logs m (fun r l => match r with Ok a => plogs (k a) (fun p l' => P p (l ++ l')) | Err e => P (Finished (Err (mode e))) l end) ->
  plogs (or_finish mode m k) P.
Proof.
  intros HP w p w' l. unfold or_finish. destruct (m w) as [[[a|e] w1] l1] eqn:E.
  - destruct (k a w1) as [[p2 w2] l2] eqn:E2. intros [= <- _ <-]. exact (HP _ _ _ _ E _ _ _ _ E2).
  - intros [= <- _ <-]. exact (HP _ _ _ _ E).
Qed.

(** What a start leaves waiting. *)
Definition started_quietly (owner : option FsOwnerKey) (p : Progress W) (l : list OsCall) : Prop :=
  quiet l /\
  match p with
  | Waiting (AwaitObserved target (Present v) o _) => o = owner /\ shown (ft_key target) v l
  | Waiting (AwaitWrite _ _ _ _) | Waiting (AwaitEdit _ _ _ _) => False
  | _ => True
  end.

Ltac hush := split; [rewrite ?app_nil_r, ?quiet_app; by split_and?|done].
Lemma start_started tool args caller : plogs (start fs config tool args caller) (started_quietly (tc_owner caller)).
Proof.
  destruct tool; cbn [start].
  - unfold read_start. destruct (parse_read_args _ _) as [input|e]; [|by apply plogs_stop].
    apply plogs_attempt. eapply logs_weaken; [|apply hushed_resolve]. intros [target|e] l Hl; [|done].
    apply plogs_attempt. eapply logs_weaken; [|apply stat_logs]. intros [[info|]|e] l2 [Hq Hs].
    2, 3: try apply plogs_stop; hush.
    specialize (Hs info eq_refl). destruct (fi_entry_type info); try (apply plogs_stop; hush).
    apply plogs_attempt. eapply logs_weaken; [|apply hushed_read_text]. intros [text|e] l3 Hl3.
    2: hush.
    destruct (build_window _ _ _) as [window|e]; apply plogs_stop; [|hush].
    split; [rewrite app_nil_r, !quiet_app; done|]. split; [done|]. rewrite app_nil_r. by apply shown_app_r, shown_app_l.
  - unfold write_start. destruct (parse_write_args _) as [[path content]|e]; [|by apply plogs_stop].
    apply plogs_attempt. eapply logs_weaken; [|apply hushed_resolve]. intros [target|e] l Hl; [|done].
    apply plogs_stop. unfold started_quietly. by rewrite app_nil_r.
  - unfold edit_start. destruct (parse_edit_args _) as [[path edit]|e]; [|by apply plogs_stop].
    apply plogs_attempt. eapply logs_weaken; [|apply hushed_resolve]. intros [target|e] l Hl; [|done].
    apply plogs_stop. unfold started_quietly. by rewrite app_nil_r.
Qed.

Lemma publication_call key content replaces pre ok l :
  publishes key content replaces pre ok l -> forall c temp key' replaces', c ∈ l -> publication c = Some (temp, key', replaces') -> key' = key /\ replaces' = replaces.
Proof.
  intros (temp & dir & perms & answer & post & -> & Hpre & Hperms & Hpost & _) c temp' key' replaces' Hc Hp.
  assert (Hq : forall l, quiet l -> c ∈ l -> False).
  { intros l0 Hl0 Hin. assert (Hin' : (temp', key', replaces') ∈ omap publication l0) by (apply list_elem_of_omap; eauto).
    rewrite Hl0 in Hin'. by apply not_elem_of_nil in Hin'. }
  rewrite !elem_of_app in Hc. destruct Hc as [Hc|[Hc|[Hc|[->|Hc]%elem_of_cons]]].
  1, 2, 3, 5: exfalso; refine (Hq _ _ Hc); done.
  unfold publish_call in Hp. by destruct replaces; injection Hp as _ <- <-.
Qed.

Lemma mutation_justified pre owner key content replaces allowed ok l :
  mutation_log key content replaces allowed ok l ->
  (forall answer, allowed answer ->
    if replaces then exists m, answer = Ok m /\ is_file m = true /\ was_told owner key (version_of m) pre
    else exists e, answer = Err e /\ is_absent_error e = true) ->
  justified pre owner l.
Proof.
  intros [[Hq _]|(answer & pre' & ok' & Ha & Hp & _)] Hall; [by left|right]. exists key, answer.
  assert (exists rest, l = CallMetadata key answer :: rest) as (rest & E) by (destruct Hp as (? & ? & ? & ? & ? & -> & _); by eexists).
  exists rest. split; [done|]. intros c temp key' replaces' Hc Hpub.
  destruct (publication_call _ _ _ _ _ _ Hp _ _ _ _ Hc Hpub) as [-> ->]. split; [done|]. by apply Hall.
Qed.

Definition state_ok (h : list FsEvent) (st : ObservedState) : Prop :=
  forall o key, (st !! o ≫= fun seen => seen !! key) = last_told o key h.

Lemma observe_lookup st target observation owner o key :
  (observe st target observation owner !! o ≫= fun seen => seen !! key) =
  match told o key (EvObserved owner (ft_key target) observation) with
  | Some x => Some x
  | None => st !! o ≫= fun seen => seen !! key
  end.
Proof.
  unfold observe, told. destruct owner as [owner|]; [|done]. destruct (decide (owner = o)) as [->|Ho].
  - rewrite lookup_insert_eq. cbn [mbind option_bind]. destruct (decide (ft_key target = key)) as [<-|Hk].
    + rewrite lookup_insert_eq, decide_True by done. done.
    + rewrite lookup_insert_ne, decide_False by (done || naive_solver). by destruct (st !! o).
  - rewrite lookup_insert_ne, decide_False by (done || naive_solver). done.
Qed.

Lemma state_observed h st target observation owner :
  state_ok h st -> state_ok (h ++ [EvObserved owner (ft_key target) observation]) (observe st target observation owner).
Proof.
  intros Hst o key. rewrite observe_lookup, last_told_app, Hst. unfold last_told at 2. cbn [omap list_omap].
  by destruct (told o key _).
Qed.

Lemma prior_told h st owner target v : state_ok h st -> prior st owner target = Some (Present v) -> was_told owner (ft_key target) v h.
Proof.
  intros Hst. unfold prior. destruct owner as [o|]; [|done]. cbn [mbind option_bind]. intros E. exists o, h, [].
  rewrite app_nil_r. split_and!; [done..|]. by rewrite <- Hst.
Qed.

Lemma quiet_justified pre owner l : quiet l -> justified pre owner l.
Proof. by left. Qed.

(** A mutation that runs: its calls are justified by what its intent was made
    of, and what it will record was shown by those calls. *)
Definition ran (h : list FsEvent) (owner : option FsOwnerKey) (p : Progress W) (l : list OsCall) : Prop :=
  justified h owner l /\ Forall (pending_justified (h ++ [EvCalls owner l])) (still p).

Lemma observing h owner target v answer l : shown (ft_key target) v l -> Forall (pending_justified (h ++ [EvCalls owner l])) (still (W := W) (Waiting (AwaitObserved target (Present v) owner answer))).
Proof. intros Hs. constructor; [|constructor]. cbn. exists l. split; [set_solver|done]. Qed.

Lemma write_ran h target content intent caller :
  pending_justified h (AwaitWrite target content intent caller) ->
  plogs (or_finish remediate_fs_error (write_text fs target content intent (Some (tc_signal caller)))
    (fun o => stop (Waiting (AwaitObserved target (Present (wo_version o)) (tc_owner caller) (Ok (write_value target o)))))) (ran h (tc_owner caller)).
Proof.
  intros Hq. apply plogs_attempt. eapply logs_weaken; [|apply logs_and; [apply write_text_logs|apply write_text_shown]].
  assert (Hj : forall b l, mutation_log (ft_key target) content (negb (creates intent)) (write_allowed intent) b l -> justified h (tc_owner caller) l).
  { intros b l Hl. eapply mutation_justified; [exact Hl|]. intros answer Ha. destruct intent as [[|v]|]; cbn in *; [done| |done].
    destruct Ha as (m & -> & ? & <-). by exists m. }
  intros [o|e] l [Hl Hs]; [apply plogs_stop; rewrite app_nil_r|]; (split; [by eapply Hj|]); [by apply observing, Hs|constructor].
Qed.

Lemma edit_ran h target edit intent caller :
  pending_justified h (AwaitEdit target edit intent caller) ->
  plogs (or_finish remediate_fs_error (edit_text target edit intent (Some (tc_signal caller)))
    (fun o => stop (Waiting (AwaitObserved target (Present (eo_version o)) (tc_owner caller) (Ok (edit_value target o)))))) (ran h (tc_owner caller)).
Proof.
  intros Hq. apply plogs_attempt. eapply logs_weaken; [|apply logs_and; [apply edit_text_logs|apply edit_text_shown]].
  assert (Hj : forall b l, (quiet l /\ b = false) \/ (exists raw content edited stored,
      edit_content raw edit (ft_display_path target) = Ok (content, edited, stored) /\ CallRead (ft_key target) (Ok raw) ∈ l /\
      mutation_log (ft_key target) stored true (edit_allowed intent) b l) -> justified h (tc_owner caller) l).
  { intros b l [[Hl _]|(raw & content & edited & stored & _ & _ & Hl)]; [by left|]. eapply mutation_justified; [exact Hl|].
    intros answer (m & -> & Hf & Hv). exists m. split_and!; [done..|]. destruct intent as [v|]; cbn in Hq; [by rewrite Hv|done]. }
  intros r l [Hl Hs]. assert (justified h (tc_owner caller) l) as Hjl by (apply (Hj (is_ok r)); naive_solver).
  destruct r as [o|e]; [apply plogs_stop; rewrite app_nil_r|]; (split; [done|]); [by apply observing, Hs|constructor].
Qed.

Lemma advance_ok h q w st p w' st' l :
  pending_justified h q -> state_ok h st -> advance fs true q w st = (p, w', st', l) ->
  justified h (pending_owner q) l /\
  Forall (pending_justified (h ++ EvCalls (pending_owner q) l :: recorded_by q)) (still p) /\
  state_ok (h ++ EvCalls (pending_owner q) l :: recorded_by q) st' /\
  match q with AwaitObserved target (Present v) owner _ => exists l, EvCalls owner l ∈ h /\ shown (ft_key target) v l | _ => True end.
Proof.
  intros Hq Hst. assert (Hmore : forall e, state_ok (h ++ [EvCalls e l]) st).
  { intros e o key. rewrite last_told_app, Hst. done. }
  destruct q as [target content caller|target edit caller|target content intent caller|target edit intent caller|target observation owner answer];
    cbn [advance pending_owner recorded_by].
  - intros [= <- _ <- <-]. split_and!; [by left| |apply Hmore|done]. constructor; [|done]. cbn.
    unfold write_intent. destruct (prior st _ target) as [[v|]|] eqn:E; try done. by apply was_told_more, (prior_told _ st).
  - destruct (edit_intent st target (tc_owner caller)) as [v|e] eqn:E; intros [= <- _ <- <-].
    + split_and!; [by left| |apply Hmore|done]. constructor; [|done]. cbn.
      unfold edit_intent in E. destruct (prior st _ target) as [[v'|]|] eqn:Ep; try done. injection E as ->. by apply was_told_more, (prior_told _ st).
    + split_and!; [by left|done|apply Hmore|done].
  - destruct (or_finish _ _ _ w) as [[p0 w0] l0] eqn:E. intros [= <- _ <- <-].
    apply (write_ran h _ _ _ _ Hq) in E as [Hj Hp]. split_and!; [done|done|apply Hmore|done].
  - destruct (or_finish _ _ _ w) as [[p0 w0] l0] eqn:E. intros [= <- _ <- <-].
    apply (edit_ran h _ _ _ _ Hq) in E as [Hj Hp]. split_and!; [done|done|apply Hmore|done].
  - intros [= <- _ <- <-]. split_and!; [by left|constructor| |].
    + change (?h ++ [?a; ?b]) with (h ++ [a] ++ [b]). rewrite app_assoc. by apply state_observed, Hmore.
    + by destruct observation.
Qed.

Lemma initial_ok w : sys_ok (sys_initial w).
Proof. split_and!; [by intros [] ?? [=]|constructor|done]. Qed.

Lemma step_ok s s' : sys_ok s -> sys_step fs config true s s' -> sys_ok s'.
Proof.
  intros (Hh & Hp & Hst) Hstep. destruct Hstep as [s tool args caller p w l E|s l1 q l2 p w st l Eq E|s l1 q l2 Eq|s w]; unfold sys_ok; cbn [sy_history sy_pending sy_state].
  - apply start_started in E as [Hq Hs]. split_and!.
    + by apply history_snoc; [|left].
    + apply Forall_app. split; [by apply pendings_more|]. destruct p as [[| | | |target [v|] o answer]|]; cbn in *; try done; repeat constructor.
      destruct Hs as [-> Hs]. exists l. split; [set_solver|done].
    + intros o key. rewrite last_told_app, Hst. done.
  - rewrite Eq in Hp. apply Forall_app in Hp as [Hp1 [Hq Hp2]%Forall_cons].
    destruct (advance_ok _ _ _ _ _ _ _ _ Hq Hst E) as (Hj & Hnew & Hst' & Hrec). split_and!; [|..|done].
    + change (?h ++ ?a :: ?b) with (h ++ [a] ++ b). rewrite app_assoc.
      assert (Hh1 : history_ok (sy_history s ++ [EvCalls (pending_owner q) l])) by by apply history_snoc.
      destruct q as [| | | |target observation owner answer]; cbn [recorded_by]; rewrite ?app_nil_r; try done.
      apply history_snoc; [done|]. cbn. destruct observation as [v|]; [|done]. destruct Hrec as (l' & Hl' & Hs). exists l'. split; [set_solver|done].
    + rewrite !Forall_app. split_and!; [by apply pendings_more|done|by apply pendings_more].
  - rewrite Eq in Hp. apply Forall_app in Hp as [Hp1 [Hq Hp2]%Forall_cons]. split_and!; [done| |done]. by apply Forall_app.
  - done.
Qed.

Lemma reachable_ok s : sys_reachable fs config true s -> sys_ok s.
Proof. induction 1 as [w|s s' _ IH Hs]; [apply initial_ok|by eapply step_ok]. Qed.

Lemma last_told_elem o key h x : last_told o key h = Some x -> exists pre post, h = pre ++ EvObserved (Some o) key x :: post.
Proof.
  unfold last_told. intros Hl. apply last_Some_elem_of, list_elem_of_omap in Hl as (e & He & Ht).
  apply list_elem_of_split in He as (pre & post & ->). exists pre, post. destruct e as [[o'|] key' ob|]; cbn in Ht; try done.
  destruct (decide (o' = o /\ key' = key)) as [[-> ->]|]; [|done]. by injection Ht as ->.
Qed.

(** C8. With the read-before-edit policy, whatever calls run side by side,
    wherever they stop, and whatever other processes do, a tool puts content
    under a name only right after probing it.  To replace a file it must have
    found a file whose version is the one the calling session was last told of
    when the call asked, and which a call of that session had itself seen;
    otherwise it must have found nothing there, and what it uses cannot
    replace.  A session that was never shown a file cannot overwrite it. *)
Theorem tools_mutate_only_observed s pre owner l post :
  sys_reachable fs config true s -> sy_history s = pre ++ EvCalls owner l :: post ->
  forall c temp key replaces, c ∈ l -> publication c = Some (temp, key, replaces) ->
  exists answer rest, l = CallMetadata key answer :: rest /\
    if replaces
    then exists o m h1 h2, owner = Some o /\ answer = Ok m /\ is_file m = true /\ pre = h1 ++ h2 /\
           last_told o key h1 = Some (Present (version_of m)) /\ exists l0, EvCalls (Some o) l0 ∈ h1 /\ shown key (version_of m) l0
    else exists e, answer = Err e /\ is_absent_error e = true.
Proof.
  intros Hr Hh c temp key replaces Hc Hp. destruct (reachable_ok s Hr) as (Hok & _).
  pose proof (Hok _ _ _ Hh) as [Hq|(key' & answer & rest & -> & Hj)].
  - exfalso. assert (Hin : (temp, key, replaces) ∈ omap publication l) by (apply list_elem_of_omap; eauto). rewrite Hq in Hin. by apply not_elem_of_nil in Hin.
  - destruct (Hj _ _ _ _ Hc Hp) as [-> H0]. exists answer, rest. split; [done|]. destruct replaces; [|done].
    destruct H0 as (m & -> & Hf & o & h1 & h2 & -> & -> & Ht). exists o, m, h1, h2. split_and!; try done.
    destruct (last_told_elem _ _ _ _ Ht) as (p1 & p2 & ->).
    specialize (Hok p1 (EvObserved (Some o) key' (Present (version_of m))) (p2 ++ h2 ++ EvCalls (Some o) (CallMetadata key' (Ok m) :: rest) :: post)).
    destruct Hok as (l0 & Hl0 & Hs); [rewrite Hh; by rewrite <- !app_assoc|]. exists l0. split; [set_solver|done].
Qed.
End safety.

(** * Running the system *)

Section running.
Context {W : Type} `{HostFs W} (fs : LocalFileSystem) (config : FsToolsConfig) (installed : bool).

Definition run_start (tool : ToolName) (args : Value) (caller : ToolCaller W) (s : ToolSystem W) : ToolSystem W :=
  let '(p, w, l) := start fs config tool args caller (sy_world s) in
  mk_system w (sy_state s) (sy_pending s ++ still p) (sy_history s ++ [EvCalls (tc_owner caller) l]).
Definition run_first (s : ToolSystem W) : ToolSystem W :=
  match sy_pending s with
  | [] => s
  | q :: rest =>
      let '(p, w, st, l) := advance fs installed q (sy_world s) (sy_state s) in
      mk_system w st (still p ++ rest) (sy_history s ++ EvCalls (pending_owner q) l :: recorded_by q)
  end.

Lemma run_start_reachable tool args caller s : sys_reachable fs config installed s -> sys_reachable fs config installed (run_start tool args caller s).
Proof. intros Hs. unfold run_start. destruct (start _ _ _ _ _ _) as [[p w] l] eqn:E. eapply sys_next; [exact Hs|by eapply sys_start]. Qed.
Lemma run_first_reachable s : sys_reachable fs config installed s -> sys_reachable fs config installed (run_first s).
Proof.
  intros Hs. unfold run_first. destruct (sy_pending s) as [|q rest] eqn:Eq; [done|]. destruct (advance _ _ _ _ _) as [[[p w] st] l] eqn:E.
  eapply sys_next; [exact Hs|]. by apply (sys_advance fs config installed s [] q rest).
Qed.
End running.

(** Every call ends within three awaits. *)
Lemma advance_awaits {W} `{HostFs W} fs installed q w st :
  match advance fs installed q w st with
  | (Waiting p, _, _, _) => awaits p < awaits q
  | (Finished _, _, _, _) => True
  end.
Proof.
  destruct q as [target content caller|target edit caller|target content intent caller|target edit intent caller|target observation owner answer]; cbn [advance awaits].
  - lia.
  - destruct installed; [|cbn; lia]. destruct (edit_intent _ _ _); cbn; [lia|done].
  - unfold or_finish. destruct (write_text _ _ _ _ _ w) as [[[o|e] w1] l1]; cbn; [lia|done].
  - unfold or_finish. destruct (edit_text _ _ _ _ w) as [[[o|e] w1] l1]; cbn; [lia|done].
  - done.
Qed.

Lemma finish_awaits {W} `{HostFs W} fs installed fuel p w st :
  match p with Waiting q => awaits q | Finished _ => 0 end <= fuel -> is_Some (finish_call fs installed fuel p w st).
Proof.
  revert p w st. induction fuel as [|fuel IH]; intros [q|answer] w st Hf; cbn [finish_call]; try by eexists.
  - destruct q; cbn in Hf; lia.
  - pose proof (advance_awaits fs installed q w st) as Ha. destruct (advance fs installed q w st) as [[[p w1] st1] l1].
    apply IH. destruct p; lia.
Qed.

Lemma call_finishes {W} `{HostFs W} fs config installed tool args caller w st : is_Some (run_call fs config installed tool args caller w st).
Proof.
  unfold run_call. destruct (start fs config tool args caller w) as [[p w1] l]. apply finish_awaits. destruct p as [[]|]; cbn; lia.
Qed.

(** * On a memory file system *)

Definition demo_fs : LocalFileSystem := mk_local "/w" DEFAULT_DIFF_BASIS_MAX_BYTES.
Definition demo_world : MemFs := mk_mem {["/w/a.txt" := ("hello" +:+ lf, 1%Z)]} 2.
Definition demo_caller (session : string) : ToolCaller MemFs := mk_caller (Some session) (Some "/w") (fun _ => false).
Definition read_args : Value := Obj [("file_path", Str "a.txt")].
Definition edit_args (old new : string) : Value := Obj [("file_path", Str "a.txt"); ("new_string", Str new); ("old_string", Str old)].
Definition write_args (content : string) : Value := Obj [("content", Str content); ("file_path", Str "a.txt")].

(** A session's script: its tool calls, and what another process writes
    between them; the outcome of each call. *)
Inductive ScriptStep := Call (session : string) (tool : ToolName) (args : Value) | Foreign (path content : string).
Definition answer_text (r : result Value ToolError) : string :=
  match r with Ok _ => "ok" | Err (TE_Harness _ code) => code | Err e => error_message e end.
Fixpoint script `{HostFs MemFs} (steps : list ScriptStep) (w : MemFs) (st : ObservedState) : list string * MemFs :=
  match steps with
  | [] => ([], w)
  | Foreign path content :: steps => script steps (mem_put path content w) st
  | Call session tool args :: steps =>
      match run_call demo_fs fs_tools_default true tool args (demo_caller session) w st with
      | Some (r, w, st) => let '(rs, w) := script steps w st in (answer_text r :: rs, w)
      | None => ([], w)
      end
  end.

(** Unseen files are refused, seen ones edited again and again without another
    read, another session starts from nothing, and a change from outside makes
    what was seen stale until it is read again. *)
Example policy_script :
  let run := script
    [Call "s" ToolEdit (edit_args "hell" "jell"); Call "s" ToolRead read_args; Call "s" ToolEdit (edit_args "hell" "jell");
     Call "s" ToolEdit (edit_args "jello" "cello"); Call "t" ToolWrite (write_args "mine");
     Foreign "/w/a.txt" "theirs"; Call "s" ToolEdit (edit_args "their" "our"); Call "s" ToolWrite (write_args "mine");
     Call "s" ToolRead read_args; Call "s" ToolEdit (edit_args "their" "our")] demo_world ∅ in
  run.1 = ["FS_NOT_OBSERVED"; "ok"; "ok"; "ok"; "FS_NOT_OBSERVED"; "FS_STALE_VERSION"; "FS_STALE_VERSION"; "ok"; "ok"] /\
  fst <$> mf_files run.2 !! "/w/a.txt" = Some "ours".
Proof. vm_compute. done. Qed.

(** A host where another process writes the file between the rename that
    publishes a write and the probe that reads its version. *)
Definition racy_host : HostFs MemFs := {|
  os_canonicalize := os_canonicalize; os_metadata := os_metadata; os_symlink_metadata := os_symlink_metadata;
  os_read := os_read; os_read_dir := os_read_dir; os_create_dir_all := os_create_dir_all; os_tempfile := os_tempfile;
  os_write_all := os_write_all; os_sync_all := os_sync_all; os_set_permissions := os_set_permissions;
  os_hard_link := os_hard_link;
  os_persist t p w := let '(r, w) := os_persist t p w in (r, mem_put p "theirs" w);
  os_remove_temp := os_remove_temp |}.

(** The write then takes the other process's version for its own, so the
    session's next write replaces content it was never shown. *)
Example foreign_write_is_adopted :
  (script (H := racy_host) [Call "s" ToolRead read_args; Call "s" ToolWrite (write_args "mine")] demo_world ∅).1 = ["ok"; "ok"] /\
  fst <$> mf_files (script (H := racy_host) [Call "s" ToolRead read_args; Call "s" ToolWrite (write_args "mine")] demo_world ∅).2 !! "/w/a.txt" = Some "theirs" /\
  (script (H := racy_host) [Call "s" ToolRead read_args; Call "s" ToolWrite (write_args "mine"); Call "s" ToolWrite (write_args "again")] demo_world ∅).1 = ["ok"; "ok"; "ok"].
Proof. vm_compute. done. Qed.

Definition demo_tool_system : ToolSystem MemFs :=
  run_first demo_fs true (run_first demo_fs true (run_start demo_fs fs_tools_default ToolEdit (edit_args "hell" "jell") (demo_caller "s")
    (run_first demo_fs true (run_start demo_fs fs_tools_default ToolRead read_args (demo_caller "s") (sys_initial demo_world))))).
Definition demo_edit_calls : list OsCall := match last (sy_history demo_tool_system) with Some (EvCalls _ l) => l | _ => [] end.

Lemma tools_mutate_only_observed_witness :
  demo_edit_calls <> [] /\ exists m h1 h2, sy_history demo_tool_system = h1 ++ h2 /\ last_told "s" "/w/a.txt" h1 = Some (Present (version_of m)).
Proof.
  assert (Hr : sys_reachable demo_fs fs_tools_default true demo_tool_system).
  { repeat first [apply run_first_reachable|apply run_start_reachable]. apply sys_init. }
  assert (Hh : sy_history demo_tool_system = take (length (sy_history demo_tool_system) - 1) (sy_history demo_tool_system) ++ EvCalls (Some "s") demo_edit_calls :: []).
  { vm_compute. reflexivity. }
  assert (Hc : exists c temp, c ∈ demo_edit_calls /\ publication c = Some (temp, "/w/a.txt", true)).
  { exists (CallPersist "/w/.a.txt.2.tmp" "/w/a.txt" (Ok tt)), "/w/.a.txt.2.tmp". split; [|done].
    apply (list_elem_of_lookup_2 _ 8). vm_compute. reflexivity. }
  destruct Hc as (c & temp & Hc & Hp).
  destruct (tools_mutate_only_observed demo_fs fs_tools_default demo_tool_system _ (Some "s") demo_edit_calls [] Hr Hh c temp "/w/a.txt" true Hc Hp)
    as (answer & rest & E & o & m & h1 & h2 & [= <-] & _ & _ & Epre & Ht & _).
  split; [by rewrite E|]. exists m, h1, (h2 ++ [EvCalls (Some "s") demo_edit_calls]). split; [|done]. rewrite app_assoc, <- Epre. exact Hh.
Defined.
