(* ===== verification/PathSegment.v ===== *)
(** [encode_path_segment] of [crates/dsh/session-persistence-jsonl/src/lib.rs]:
    an unvalidated session id as one path segment, over its UTF-16 units. *)
From Stdlib Require Import ZArith Lia Ascii String.
From stdpp Require Import base tactics numbers list strings.
From S2P Require Import Prelude Text Utf8.
Open Scope string_scope.
Open Scope nat_scope.
Open Scope list_scope.

(** The scalar value of an encoded character, and [encode_utf16] of it. *)
Definition code_point (g : string) : Z :=
  match Z.of_nat <$> char_codes g with
  | [a] => a
  | [a; b] => (a - 192) * 64 + (b - 128)
  | [a; b; c] => (a - 224) * 4096 + (b - 128) * 64 + (c - 128)
  | [a; b; c; d] => (a - 240) * 262144 + (b - 128) * 4096 + (c - 128) * 64 + (d - 128)
  | _ => 0
  end%Z.
Definition utf16_units (g : string) : list Z :=
  let v := code_point g in
  if (v <? 65536)%Z then [v] else [(55296 + (v - 65536) / 1024)%Z; (56320 + (v - 65536) mod 1024)%Z].

Definition hex_digit (n : Z) : ascii := ascii_of_N (Z.to_N (if (n <? 10)%Z then 48 + n else 87 + n)%Z).
(** [{:04x}] of a 16-bit unit. *)
Definition hex4 (u : Z) : string :=
  String (hex_digit (u / 4096)) (String (hex_digit (u / 256 mod 16)) (String (hex_digit (u / 16 mod 16)) (String (hex_digit (u mod 16)) EmptyString))).
(** Code units that stay literal inside an escaped segment. *)
Definition unit_literal (u : Z) : bool :=
  ((48 <=? u) && (u <=? 57) || (65 <=? u) && (u <=? 90) || (97 <=? u) && (u <=? 122) || (u =? 45) || (u =? 95))%Z.
Definition encode_unit (u : Z) : string :=
  if unit_literal u then String (ascii_of_N (Z.to_N u)) EmptyString else String "~" (hex4 u).
(** [is_ascii_alphanumeric], [-], [_] and [.]. *)
Definition segment_safe (g : string) : bool :=
  char_is_ascii_alphanumeric g || bool_decide (g = "-") || bool_decide (g = "_") || bool_decide (g = ".").
(** [None] where the code asserts.  The all-escaped guard of the code never
    fires: every unit adds at least one byte. *)
Definition encode_path_segment (raw : string) : option string :=
  if decide (raw = EmptyString) then None else
  if negb (bool_decide (raw = ".")) && negb (bool_decide (raw = "..")) && forallb segment_safe (chars raw) then Some raw else
  let encoded := concat_strings (encode_unit <$> concat (utf16_units <$> chars raw)) in
  Some (if decide (encoded = EmptyString) then "~" else encoded).

(** * Characters of well-formed UTF-8 *)

Definition valid_char (g : string) : Prop := g <> EmptyString /\ utf8_width g = String.length g.

Ltac byte_facts :=
  unfold byte_in, second_of_three, second_of_four, byte_in, is_continuation in *;
  repeat match goal with H : _ = true |- _ => progress rewrite ?orb_true_iff, ?andb_true_iff, ?Nat.leb_le, ?Nat.ltb_lt in H
                       | H : _ /\ _ |- _ => destruct H
                       | H : _ \/ _ |- _ => destruct H end.

(** The bytes of a character, by its width. *)
Inductive char_shape : string -> Prop :=
| CS1 a : nat_of_ascii a < 128 -> char_shape (String a EmptyString)
| CS2 a b : 194 <= nat_of_ascii a < 224 -> 128 <= nat_of_ascii b < 192 -> char_shape (String a (String b EmptyString))
| CS3 a b c : 224 <= nat_of_ascii a < 240 -> 128 <= nat_of_ascii b < 192 -> 128 <= nat_of_ascii c < 192 ->
    (nat_of_ascii a = 224 -> 160 <= nat_of_ascii b) -> (nat_of_ascii a = 237 -> nat_of_ascii b < 160) ->
    char_shape (String a (String b (String c EmptyString)))
| CS4 a b c d : 240 <= nat_of_ascii a < 245 -> 128 <= nat_of_ascii b < 192 -> 128 <= nat_of_ascii c < 192 -> 128 <= nat_of_ascii d < 192 ->
    (nat_of_ascii a = 240 -> 144 <= nat_of_ascii b) -> (nat_of_ascii a = 244 -> nat_of_ascii b < 144) ->
    char_shape (String a (String b (String c (String d EmptyString)))).

Lemma valid_char_shape g : valid_char g -> char_shape g.
Proof.
  intros [Hne Hw]. destruct g as [|a [|b [|c [|d g]]]]; [done|..]; cbn [utf8_width] in Hw; repeat split_match_in Hw; try done; byte_facts.
  all: try (constructor; lia). all: destruct g; [|done]; constructor; lia.
Qed.

Lemma nat_of_ascii_inj a b : nat_of_ascii a = nat_of_ascii b -> a = b.
Proof. intros E. by rewrite <- (ascii_nat_embedding a), E, ascii_nat_embedding. Qed.

Definition scalar (v : Z) : Prop := (0 <= v < 1114112)%Z /\ ~ (55296 <= v < 57344)%Z.
Lemma code_point_scalar g : char_shape g -> scalar (code_point g).
Proof. unfold scalar. destruct 1; cbn; lia. Qed.
Lemma code_point_inj g h : char_shape g -> char_shape h -> code_point g = code_point h -> g = h.
Proof.
  destruct 1; destruct 1; cbn; intros E; try (exfalso; lia); repeat f_equal; apply nat_of_ascii_inj; lia.
Qed.

Lemma utf8_head s : is_utf8 s -> head_continuation s = false.
Proof.
  destruct s as [|a s]; [done|]. unfold is_utf8. rewrite valid_up_to_eq. destruct (utf8_width (String a s)) eqn:E; [done|]. intros _.
  cbn [head_continuation]. apply not_true_is_false. intros Hc. cbn [utf8_width] in E. repeat split_match_in E; try done; byte_facts; lia.
Qed.
Lemma chars_valid s : is_utf8 s -> Forall valid_char (chars s).
Proof.
  induction s as [s Hw|s Hw IH] using utf8_ind; intros Hs; unfold is_utf8 in Hs; rewrite valid_up_to_eq in Hs.
  { rewrite Hw in Hs. by destruct s. }
  destruct (utf8_width s) as [|w] eqn:E; [done|]. pose proof (utf8_width_bound s) as [_ Hb]. rewrite E in Hb.
  assert (Hr : is_utf8 (str_drop (S w) s)). { unfold is_utf8. rewrite str_length_drop. lia. }
  assert (Hg : valid_char (str_take (S w) s)).
  { split; [destruct s; [simpl in Hb; lia|done]|]. rewrite <- E, utf8_width_take, str_length_take, E. lia. }
  rewrite <- (str_take_drop (S w) s). rewrite chars_app; [constructor; auto| |by apply utf8_head].
  destruct (valid_char_shape _ Hg); cbn; unfold is_continuation; rewrite ?andb_true_iff, ?Nat.leb_le, ?Nat.ltb_lt; split_and?; try lia;
    try (apply andb_false_iff; rewrite ?Nat.leb_gt, ?Nat.ltb_ge; lia); done.
Qed.

(** * The encoding is injective *)

Lemma hex_digit_code a : (0 <= a < 16)%Z -> N_of_ascii (hex_digit a) = Z.to_N (if (a <? 10)%Z then 48 + a else 87 + a).
Proof. intros Ha. unfold hex_digit. apply N_ascii_embedding. destruct (a <? 10)%Z eqn:?; lia. Qed.
Lemma hex_digit_inj a b : (0 <= a < 16)%Z -> (0 <= b < 16)%Z -> hex_digit a = hex_digit b -> a = b.
Proof.
  intros Ha Hb E%(f_equal N_of_ascii). rewrite !hex_digit_code in E by done. destruct (a <? 10)%Z eqn:?, (b <? 10)%Z eqn:?; lia.
Qed.
Lemma hex4_inj u v s t : (0 <= u < 65536)%Z -> (0 <= v < 65536)%Z -> hex4 u +:+ s = hex4 v +:+ t -> u = v /\ s = t.
Proof.
  intros Hu Hv E. unfold hex4 in E. rewrite !str_app_cons, !str_app_nil_l in E. injection E as E1 E2 E3 E4 Hst.
  apply hex_digit_inj in E1, E2, E3, E4; try (split; [by apply Z.mod_pos_bound|by apply Z.mod_pos_bound]); try (split; [by apply Z.div_pos; lia|apply Z.div_lt_upper_bound; lia]).
  split; [|done]. Z.to_euclidean_division_equations. lia.
Qed.
Lemma str_cons_inj a b (s t : string) : String a s = String b t -> a = b /\ s = t.
Proof. by intros [= -> ->]. Qed.
Lemma unit_literal_bound u : unit_literal u = true -> (45 <= u < 123)%Z.
Proof. unfold unit_literal. rewrite !orb_true_iff, !andb_true_iff. lia. Qed.
Lemma encode_unit_inj u v s t : (0 <= u < 65536)%Z -> (0 <= v < 65536)%Z -> encode_unit u +:+ s = encode_unit v +:+ t -> u = v /\ s = t.
Proof.
  intros Hu Hv. unfold encode_unit. destruct (unit_literal u) eqn:Lu, (unit_literal v) eqn:Lv; rewrite !str_app_cons, ?str_app_nil_l; intros [E Hst]%str_cons_inj.
  - split; [|done]. apply (f_equal N_of_ascii) in E. apply unit_literal_bound in Lu, Lv. rewrite !N_ascii_embedding in E by lia. lia.
  - apply (f_equal N_of_ascii) in E. apply unit_literal_bound in Lu. rewrite N_ascii_embedding in E by lia. cbn in E. lia.
  - apply (f_equal N_of_ascii) in E. apply unit_literal_bound in Lv. rewrite N_ascii_embedding in E by lia. cbn in E. lia.
  - by apply hex4_inj in Hst.
Qed.

Definition encode_char (g : string) : string := concat_strings (encode_unit <$> utf16_units g).
Lemma encode_chars l : concat_strings (encode_unit <$> concat (utf16_units <$> l)) = concat_strings (encode_char <$> l).
Proof. induction l as [|g l IH]; [done|]. cbn. by rewrite fmap_app, concat_strings_app, IH. Qed.

Lemma encode_char_inj g h s t : valid_char g -> valid_char h -> encode_char g +:+ s = encode_char h +:+ t -> g = h /\ s = t.
Proof.
  intros Hg%valid_char_shape Hh%valid_char_shape. destruct (code_point_scalar g Hg) as [Hg1 Hg2], (code_point_scalar h Hh) as [Hh1 Hh2].
  unfold encode_char, utf16_units. intros E. enough (code_point g = code_point h /\ s = t) as [? ?] by (split; [by apply code_point_inj|done]).
  destruct (code_point g <? 65536)%Z eqn:Lg, (code_point h <? 65536)%Z eqn:Lh; cbn [fmap list_fmap concat_strings] in E; rewrite ?str_app_nil_r, <- ?str_app_assoc in E.
  - apply encode_unit_inj in E; [done|lia|lia].
  - apply encode_unit_inj in E as [E _]; [|lia|]; Z.to_euclidean_division_equations; lia.
  - apply encode_unit_inj in E as [E _]; [| |lia]; Z.to_euclidean_division_equations; lia.
  - assert (0 <= (code_point g - 65536) / 1024 < 1024 /\ 0 <= (code_point h - 65536) / 1024 < 1024 /\ 0 <= (code_point g - 65536) mod 1024 < 1024 /\ 0 <= (code_point h - 65536) mod 1024 < 1024)%Z as (? & ? & ? & ?)
      by (Z.to_euclidean_division_equations; lia).
    apply encode_unit_inj in E as [E1 E]; [|lia|lia]. apply encode_unit_inj in E as [E2 E]; [|lia|lia]. split; [|done].
    pose proof (Z.div_mod (code_point g - 65536) 1024 ltac:(lia)). pose proof (Z.div_mod (code_point h - 65536) 1024 ltac:(lia)). lia.
Qed.
Lemma encode_char_nonempty g : encode_char g <> EmptyString.
Proof.
  unfold encode_char, utf16_units. destruct (_ <? _)%Z; cbn [fmap list_fmap concat_strings]; unfold encode_unit at 1; destruct (unit_literal _); rewrite str_app_cons; done.
Qed.
Lemma encode_chars_inj l l' : Forall valid_char l -> Forall valid_char l' ->
  concat_strings (encode_char <$> l) = concat_strings (encode_char <$> l') -> l = l'.
Proof.
  intros Hl. revert l'. induction Hl as [|g l Hg Hl IH]; intros l' Hl' E; destruct Hl' as [|h l' Hh Hl']; [done|..]; cbn in E.
  - destruct (encode_char h) eqn:E'; [by destruct (encode_char_nonempty h)|by rewrite str_app_cons in E].
  - destruct (encode_char g) eqn:E'; [by destruct (encode_char_nonempty g)|by rewrite str_app_cons in E].
  - apply encode_char_inj in E as [-> E]; [|done|done]. f_equal. by apply IH.
Qed.

(** * The segment *)

Abbreviation byte_list := String.list_ascii_of_string.
Definition segment_byte (c : ascii) : bool :=
  ascii_is_alphanumeric c || bool_decide (c = "-"%char) || bool_decide (c = "_"%char) || bool_decide (c = "."%char).

Lemma bytes_app s t : byte_list (s +:+ t) = byte_list s ++ byte_list t.
Proof. induction s as [|c s IH]; [done|]. rewrite str_app_cons. cbn. by rewrite IH. Qed.
Lemma bytes_concat l : byte_list (concat_strings l) = concat (byte_list <$> l).
Proof. induction l as [|s l IH]; [done|]. cbn. by rewrite bytes_app, IH. Qed.

Lemma segment_safe_bytes g : segment_safe g = true -> exists c, g = String c EmptyString /\ segment_byte c = true.
Proof.
  unfold segment_safe, segment_byte. rewrite !orb_true_iff, !bool_decide_eq_true. intros [[[Hg| ->]| ->]| ->]; [|by eexists..].
  destruct g as [|c [|]]; [done| |done]. exists c. split; [done|]. cbn in Hg. by rewrite Hg.
Qed.
Lemma safe_bytes l : forallb segment_safe l = true -> Forall (fun c => segment_byte c = true) (byte_list (concat_strings l)).
Proof.
  induction l as [|g l IH]; [constructor|]. cbn [forallb concat_strings]. rewrite andb_true_iff. intros [(c & -> & Hc)%segment_safe_bytes Hl].
  rewrite bytes_app. apply Forall_app. split; [by repeat constructor|auto].
Qed.
Lemma segment_byte_not_tilde c : segment_byte c = true -> c <> "~"%char.
Proof. by intros Hc ->. Qed.

Lemma literal_ascii c : (Z.of_nat (nat_of_ascii c) < 128)%Z -> unit_literal (Z.of_nat (nat_of_ascii c)) = true -> segment_byte c = true.
Proof. destruct c as [[] [] [] [] [] [] [] []]; done. Qed.
Lemma unit_literal_byte u : unit_literal u = true -> exists c, encode_unit u = String c EmptyString /\ segment_byte c = true.
Proof.
  intros Hu. unfold encode_unit. rewrite Hu. eexists. split; [done|]. pose proof (unit_literal_bound u Hu).
  assert (E : Z.of_nat (nat_of_ascii (ascii_of_N (Z.to_N u))) = u).
  { unfold nat_of_ascii. rewrite N_ascii_embedding by lia. lia. }
  apply literal_ascii; rewrite E; [lia|done].
Qed.
Lemma hex_digit_byte n : (0 <= n < 16)%Z -> segment_byte (hex_digit n) = true.
Proof. intros Hn. assert (Hs : exists k : nat, n = Z.of_nat k /\ k < 16) by (exists (Z.to_nat n); lia). destruct Hs as (k & -> & Hk). do 16 (destruct k as [|k]; [done|]). lia. Qed.
Lemma encode_unit_bytes u : (0 <= u < 65536)%Z -> Forall (fun c => segment_byte c = true \/ c = "~"%char) (byte_list (encode_unit u)).
Proof.
  intros Hu. destruct (unit_literal u) eqn:E.
  - destruct (unit_literal_byte u E) as (c & -> & Hc). constructor; [by left|constructor].
  - unfold encode_unit. rewrite E. unfold hex4. cbn [byte_list String.list_ascii_of_string]. constructor; [by right|].
    rewrite !Forall_cons. split_and!; [left..|constructor]; apply hex_digit_byte; Z.to_euclidean_division_equations; lia.
Qed.

(** A character that is not literal leaves its mark. *)
Lemma unsafe_marked g : valid_char g -> segment_safe g = false -> "~"%char ∈ byte_list (encode_char g).
Proof.
  intros Hg Hs. assert (Hu : forall u, unit_literal u = false -> "~"%char ∈ byte_list (encode_unit u)).
  { intros u E. unfold encode_unit. rewrite E. by left. }
  unfold encode_char, utf16_units. rewrite bytes_concat. destruct (code_point g <? 65536)%Z eqn:L; cbn [fmap list_fmap concat]; apply elem_of_app; left; apply Hu.
  - apply not_true_is_false. intros Hl. pose proof (unit_literal_bound _ Hl) as Hb. apply valid_char_shape in Hg.
    destruct Hg as [a Ha|a b|a b c|a b c d]; cbn in Hl, Hb; [|exfalso; lia..].
    revert Hs Hl Ha. clear. destruct a as [[] [] [] [] [] [] [] []]; done.
  - apply not_true_is_false. intros Hl%unit_literal_bound. assert (0 <= (code_point g - 65536) / 1024)%Z by (apply Z.div_pos; lia). lia.
Qed.

Lemma encoded_bytes l : Forall valid_char l -> Forall (fun c => segment_byte c = true \/ c = "~"%char) (byte_list (concat_strings (encode_char <$> l))).
Proof.
  induction 1 as [|g l Hg Hl IH]; [constructor|]. cbn [fmap list_fmap concat_strings]. rewrite bytes_app. apply Forall_app. split; [|done].
  unfold encode_char, utf16_units. apply valid_char_shape, code_point_scalar in Hg as [Hs _].
  destruct (code_point g <? 65536)%Z eqn:L; cbn [fmap list_fmap concat_strings]; rewrite !bytes_app, ?Forall_app; split_and?;
    try (apply encode_unit_bytes; Z.to_euclidean_division_equations; lia); constructor.
Qed.
Lemma escaped_marked raw : is_utf8 raw -> raw <> EmptyString ->
  negb (bool_decide (raw = ".")) && negb (bool_decide (raw = "..")) && forallb segment_safe (chars raw) = false ->
  "~"%char ∈ byte_list (concat_strings (encode_char <$> chars raw)).
Proof.
  intros Hu Hne. destruct (decide (raw = ".")) as [->|H1]; [intros _; apply (list_elem_of_lookup_2 _ 0); by vm_compute|].
  destruct (decide (raw = "..")) as [->|H2]; [intros _; apply (list_elem_of_lookup_2 _ 0); by vm_compute|].
  rewrite !bool_decide_eq_false_2 by done. cbn [negb andb]. intros Hf. pose proof (chars_valid raw Hu) as Hv.
  induction Hv as [|g l Hg Hl IH]; [done|]. cbn [forallb fmap list_fmap concat_strings] in *. rewrite bytes_app. apply elem_of_app.
  destruct (segment_safe g) eqn:E; [right; by apply IH|left; by apply unsafe_marked].
Qed.

(** What the encoder does with a non-empty id, without the dead guard. *)
Lemma encode_path_segment_spec raw : is_utf8 raw -> raw <> EmptyString ->
  (encode_path_segment raw = Some raw /\ raw <> "." /\ raw <> ".." /\ forallb segment_safe (chars raw) = true)
  \/ (encode_path_segment raw = Some (concat_strings (encode_char <$> chars raw)) /\ "~"%char ∈ byte_list (concat_strings (encode_char <$> chars raw))).
Proof.
  intros Hu Hne. unfold encode_path_segment. destruct (decide _) as [|_]; [done|]. rewrite encode_chars.
  destruct (negb _ && _ && _) eqn:E.
  - left. rewrite !andb_true_iff, !negb_true_iff, !bool_decide_eq_false in E. naive_solver.
  - right. pose proof (escaped_marked raw Hu Hne E) as Hm. split; [|done]. destruct (decide _) as [E'|]; [|done]. rewrite E' in Hm. by apply not_elem_of_nil in Hm.
Qed.

Lemma safe_unmarked raw : forallb segment_safe (chars raw) = true -> "~"%char ∉ byte_list raw.
Proof.
  intros Hs%safe_bytes Hin. rewrite concat_chars in Hs. pose proof (proj1 (Forall_forall _ _) Hs _ Hin) as Hc. by apply segment_byte_not_tilde in Hc.
Qed.

(** Every non-empty id becomes one path segment that cannot traverse, made of
    ASCII letters, digits, [-], [_], [.] and [~], and two ids never share a
    segment. *)
Theorem segments_safe_and_injective a b x y :
  is_utf8 a -> is_utf8 b -> encode_path_segment a = Some x -> encode_path_segment b = Some y ->
  (x = y -> a = b)
  /\ x <> EmptyString /\ x <> "." /\ x <> ".." /\ Forall (fun c => segment_byte c = true \/ c = "~"%char) (byte_list x).
Proof.
  intros Ha Hb Ex Ey. assert (Hna : a <> EmptyString) by (intros ->; done). assert (Hnb : b <> EmptyString) by (intros ->; done).
  assert (Hmark : forall s, "~"%char ∈ byte_list s -> s <> EmptyString /\ s <> "." /\ s <> "..").
  { intros s Hs. split_and!; intros ->; cbn in Hs; rewrite ?list_elem_of_In in Hs; cbn in Hs; naive_solver. }
  destruct (encode_path_segment_spec a Ha Hna) as [(Ea & Ha1 & Ha2 & Sa)|(Ea & Ma)]; rewrite Ea in Ex; injection Ex as <-;
    destruct (encode_path_segment_spec b Hb Hnb) as [(Eb & Hb1 & Hb2 & Sb)|(Eb & Mb)]; rewrite Eb in Ey; injection Ey as <-.
  - split_and!; [done..|]. eapply Forall_impl; [rewrite <- (concat_chars a); by apply safe_bytes|]. by left.
  - split; [|split_and!; [done..|]].
    + intros E. rewrite <- E in Mb. by destruct (safe_unmarked a Sa).
    + eapply Forall_impl; [rewrite <- (concat_chars a); by apply safe_bytes|]. by left.
  - destruct (Hmark _ Ma) as (? & ? & ?). split_and!; [|done..|by apply encoded_bytes, chars_valid].
    intros E. rewrite E in Ma. by destruct (safe_unmarked b Sb).
  - destruct (Hmark _ Ma) as (? & ? & ?). split_and!; [|done..|by apply encoded_bytes, chars_valid].
    intros E. apply encode_chars_inj in E; [|by apply chars_valid..]. by rewrite <- (concat_chars a), E, concat_chars.
Qed.

Lemma segments_safe_and_injective_witness :
  encode_path_segment "../x" = Some "~002e~002e~002fx" /\ encode_path_segment "..-x" = Some "..-x"
  /\ (("~002e~002e~002fx" = "..-x" -> "../x" = "..-x") /\ "~002e~002e~002fx" <> EmptyString /\ "~002e~002e~002fx" <> "." /\ "~002e~002e~002fx" <> ".."
      /\ Forall (fun c => segment_byte c = true \/ c = "~"%char) (byte_list "~002e~002e~002fx")).
Proof.
  split; [by vm_compute|]. split; [by vm_compute|].
  apply (segments_safe_and_injective "../x" "..-x" "~002e~002e~002fx" "..-x"); by vm_compute.
Defined.
