(* ===== verification/SessionLog.v ===== *)
(** The JSONL session store, [crates/dsh/session-persistence-jsonl/src/lib.rs]:
    one append-only artifact per session, a header line and one line per
    event, read back under a torn tail and balanced on load.

    The directory is a map from file names to bytes.  The two line codecs
    (serde) are parameters; a write may stop after any number of bytes. *)
From Stdlib Require Import ZArith Lia Ascii String.
From stdpp Require Import base tactics numbers list strings pretty gmap.
From S2P Require Import Prelude Json Text Utf8 Llm SessionEvents Surface Session Repair PathSegment.
Open Scope string_scope.
Open Scope nat_scope.
Open Scope list_scope.
Open Scope keel_scope.

(** * Event vocabulary *)

Definition KNOWN_SESSION_EVENT_TYPES : list string :=
  ["agent-preset/selected"; "agent/inbox/spliced"; "approval/asked"; "approval/decided"; "approval/policy"; "assistant/chunk";
   "assistant/message"; "command/done"; "command/run"; "compaction/end"; "compaction/prune"; "compaction/start"; "compaction/summary";
   "decision/receipt"; "feedback/record"; "goal/change"; "hook/invoked"; "hook/result"; "llm/retry"; "llm/retry-started";
   "permission/preset"; "plan/mode"; "request/context"; "request/header"; "sandbox/mode"; "schedule/change"; "session/end-seed";
   "session/title"; "session/title-llm-request"; "step/end"; "step/start"; "subagent/descriptor"; "todo/write";
   "tool-workflow/agent-end"; "tool-workflow/agent-start"; "tool-workflow/run-end"; "tool-workflow/run-start"; "tool/call";
   "tool/code-dispatch"; "tool/code-dispatch-start"; "tool/result"; "turn/end"; "turn/start"; "user/message";
   "web/deepseek-search-llm-request"].
Definition is_known_session_event_type (event_type : string) : bool := bool_decide (event_type ∈ KNOWN_SESSION_EVENT_TYPES).

(** * The header record *)

Inductive LogError :=
| SE_Io
| SE_Panic
| SE_Empty
| SE_TornHeader
| SE_Json
| SE_NotHeader
| SE_Version (found : Z)
| SE_Gap (seq : Z) (expected : nat)
| SE_UnknownType (event_type : string)
| SE_Corrupt
| SE_NotCreated (id : SessionId)
| SE_Batch (first : Z) (stored : nat).

Record HeaderLine := mk_header_line {
  hl_kind : string;
  hl_version : Z;
  hl_id : SessionId;
  hl_created_at : Z;
  hl_cwd : option string;
  hl_parent_session : option SessionId;
  hl_seed_length : option Z;
  hl_origin : option SessionOrigin;
  hl_delegation_depth : Z;
  hl_agent_preset : option string;
}.
Definition to_header_line (h : SessionHeader) : HeaderLine :=
  mk_header_line "session" (sh_version h) (sh_id h) (sh_created_at h) (sh_cwd h) (sh_parent_session h) (sh_seed_length h) (sh_origin h)
    (default 0%Z (sh_delegation_depth h)) (sh_agent_preset h).
Definition from_header_line (l : HeaderLine) : result SessionHeader LogError :=
  if negb (bool_decide (hl_kind l = "session")) then Err SE_NotHeader else
  if negb (hl_version l =? SESSION_FORMAT_VERSION)%Z then Err (SE_Version (hl_version l)) else
  Ok (mk_session_header (hl_version l) (hl_id l) (hl_created_at l) (hl_cwd l) (hl_parent_session l) (hl_seed_length l) (hl_origin l)
        (if (0 <? hl_delegation_depth l)%Z then Some (hl_delegation_depth l) else None) (hl_agent_preset l)).

(** * Lines *)

Definition eol : string := String newline EmptyString.
(** [split_inclusive('\n')]. *)
Fixpoint split_inclusive (s : string) : list string :=
  match s with
  | EmptyString => []
  | String c rest =>
      if ascii_dec c newline then String c EmptyString :: split_inclusive rest
      else match split_inclusive rest with [] => [String c EmptyString] | l :: ls => String c l :: ls end
  end.
(** [ends_with('\n')]. *)
Fixpoint terminated (s : string) : bool :=
  match s with EmptyString => false | String c EmptyString => bool_decide (c = newline) | String _ s => terminated s end.
Definition is_eol (c : ascii) : bool := bool_decide (c = newline) || bool_decide (c = carriage_return).
(** [trim_end_matches(['\n', '\r'])]. *)
Fixpoint trim_eol (s : string) : string :=
  match s with
  | EmptyString => EmptyString
  | String c s => match trim_eol s with EmptyString => if is_eol c then EmptyString else String c EmptyString | t => String c t end
  end.

(** * The store *)

(** The outcome of the file system: whether a file opens, whether it reads,
    after how many bytes a write stops, whether a sync succeeds. *)
Record LogIo := mk_log_io { li_opens : bool; li_reads : bool; li_writes : option nat; li_syncs : bool }.
Definition log_steady : LogIo := mk_log_io true true None true.
(** File names and their bytes, under the root. *)
Abbreviation Disk := (gmap string string).

Section store.
Context (header_to_line : HeaderLine -> option string) (header_of_line : string -> option HeaderLine).
Context (event_to_line : SessionEvent -> option string) (event_of_line : string -> option SessionEvent).

Definition path_for (id : SessionId) : result string LogError :=
  match encode_path_segment id with Some segment => Ok (segment +:+ ".jsonl") | None => Err SE_Panic end.

(** [read_to_string]. *)
Definition read_file (io : LogIo) (disk : Disk) (path : string) : result string LogError :=
  match disk !! path with
  | Some content => if li_reads io && bool_decide (is_utf8 content) then Ok content else Err SE_Io
  | None => Err SE_Io
  end.

(** The loop over the event lines. *)
Fixpoint read_events (ls : list string) (events : list SessionEvent) : result (list SessionEvent) LogError :=
  match ls with
  | [] => Ok events
  | line :: ls =>
      let text := trim_eol line in
      if bool_decide (text = EmptyString) then read_events ls events else
      match event_of_line text with
      | Some event =>
          if negb (ev_seq event =? Z.of_nat (length events))%Z then Err (SE_Gap (ev_seq event) (length events)) else
          if negb (is_known_session_event_type (event_type event)) && negb (bool_decide (ev_ignorable event = Some true))
          then Err (SE_UnknownType (event_type event))
          else read_events ls (events ++ [event])
      | None => if terminated line then Err SE_Corrupt else Ok events
      end
  end.
Definition read_header (header_line : string) : result SessionHeader LogError :=
  if negb (terminated header_line) then Err SE_TornHeader else
  let? line := ok_or (header_of_line (trim_end header_line)) SE_Json in
  from_header_line line.
Definition read_content (content : string) : result (SessionHeader * list SessionEvent) LogError :=
  match split_inclusive content with
  | [] => Err SE_Empty
  | header_line :: ls =>
      let? header := read_header header_line in
      let? events := read_events ls [] in
      Ok (header, events)
  end.
Definition read_artifact (io : LogIo) (disk : Disk) (path : string) : result (SessionHeader * list SessionEvent) LogError :=
  let? content := read_file io disk path in read_content content.

(** [write_all] then [sync_data] on an open file. *)
Definition write_synced (io : LogIo) (disk : Disk) (path buffer : string) : Disk * result unit LogError :=
  let old := default EmptyString (disk !! path) in
  match li_writes io with
  | Some n => (<[path := old +:+ str_take n buffer]> disk, Err SE_Io)
  | None => (<[path := old +:+ buffer]> disk, if li_syncs io then Ok () else Err SE_Io)
  end.
Fixpoint event_lines (events : list SessionEvent) : option string :=
  match events with
  | [] => Some EmptyString
  | e :: events => l ← event_to_line e; rest ← event_lines events; Some (l +:+ eol +:+ rest)
  end.
Definition append_lines (io : LogIo) (disk : Disk) (path : string) (events : list SessionEvent) : Disk * result unit LogError :=
  match disk !! path with
  | Some _ =>
      if negb (li_opens io) then (disk, Err SE_Io) else
      match event_lines events with
      | Some buffer => write_synced io disk path buffer
      | None => (disk, Err SE_Json)
      end
  | None => (disk, Err SE_Io)
  end.
Definition materialize (io : LogIo) (disk : Disk) (meta : SessionHeader) : Disk * result string LogError :=
  match path_for (sh_id meta) with
  | Err e => (disk, Err e)
  | Ok path =>
      match disk !! path with
      | Some _ => (disk, Ok path)
      | None =>
          if negb (li_opens io) then (disk, Err SE_Io) else
          let disk := <[path := EmptyString]> disk in
          match header_to_line (to_header_line meta) with
          | None => (disk, Err SE_Json)
          | Some line => let '(disk, r) := write_synced io disk path (line +:+ eol) in (disk, let? _ := r in Ok path)
          end
      end
  end.

Definition log_create (io : LogIo) (disk : Disk) (meta : SessionHeader) : Disk * result unit LogError :=
  let '(disk, r) := materialize io disk meta in (disk, let? _ := r in Ok ()).
Definition log_append (io : LogIo) (disk : Disk) (id : SessionId) (events : list SessionEvent) : Disk * result unit LogError :=
  match path_for id with
  | Err e => (disk, Err e)
  | Ok path =>
      match disk !! path with
      | None => (disk, Err (SE_NotCreated id))
      | Some _ =>
          match read_artifact io disk path with
          | Err e => (disk, Err e)
          | Ok (_, stored) =>
              match events with
              | first :: _ =>
                  if negb (ev_seq first =? Z.of_nat (length stored))%Z then (disk, Err (SE_Batch (ev_seq first) (length stored)))
                  else append_lines io disk path events
              | [] => append_lines io disk path events
              end
          end
      end
  end.

Definition inspect_sync (io : LogIo) (disk : Disk) (id : SessionId) (commit_repair : bool)
  : Disk * result (SessionHeader * list SessionEvent) LogError :=
  match path_for id with
  | Err e => (disk, Err e)
  | Ok path =>
      match read_artifact io disk path with
      | Err e => (disk, Err e)
      | Ok (meta, events) =>
          let closers := interrupted_turn_closers events in
          if bool_decide (closers = []) then (disk, Ok (meta, events)) else
          if commit_repair then
            match append_lines io disk path closers with
            | (disk, Err e) => (disk, Err e)
            | (disk, Ok _) => (disk, Ok (meta, events ++ closers))
            end
          else (disk, Ok (meta, events ++ closers))
      end
  end.
Definition log_load (io : LogIo) (disk : Disk) (id : SessionId) := inspect_sync io disk id true.
Definition log_inspect (io : LogIo) (disk : Disk) (id : SessionId) := inspect_sync io disk id false.
Definition log_read_from (io : LogIo) (disk : Disk) (id : SessionId) (from_seq : Z) : result (SessionHeader * list SessionEvent) LogError :=
  let? path := path_for id in
  let? r := read_artifact io disk path in
  Ok (r.1, base.filter (fun event => (from_seq <= ev_seq event)%Z) r.2).

(** [Path::extension] of a file name: what follows the last dot, unless the
    name starts with it. *)
Definition extension (name : string) : option string :=
  match string_rev_app name EmptyString with
  | EmptyString => None
  | rev => match split_once "." rev with Some (e, stem) => if decide (stem = EmptyString) then None else Some (string_rev_app e EmptyString) | None => None end
  end.
Definition created_leb (a b : SessionHeader) : bool := (sh_created_at a <=? sh_created_at b)%Z.
(** The headers of the artifacts, in the order of the directory, then sorted. *)
Definition list_entry (io : LogIo) (acc : list SessionHeader) (entry : string * string) : result (list SessionHeader) LogError :=
  if negb (bool_decide (extension entry.1 = Some "jsonl")) then Ok acc else
  if negb (li_reads io && bool_decide (is_utf8 entry.2)) then Err SE_Io else
  match split_inclusive entry.2 with
  | [] => Ok acc
  | first :: _ =>
      if negb (terminated first) then Ok acc else
      match header_of_line (trim_end first) with
      | None => Ok acc
      | Some line => match from_header_line line with Ok header => Ok (acc ++ [header]) | Err _ => Ok acc end
      end
  end.
Definition log_list (io : LogIo) (disk : Disk) : result (list SessionHeader) LogError :=
  let? headers := try_fold (list_entry io) [] (map_to_list disk) in
  Ok (sort_by created_leb headers).

(** [revision_for], given the modification time the file system reports. *)
Context (source_tag : string) (modified : string -> option Z).
Definition revision_for (disk : Disk) (path : string) : string :=
  match disk !! path with
  | Some content => source_tag +:+ ":" +:+ pretty (N.of_nat (String.length content)) +:+ ":" +:+ pretty (default 0%Z (modified path))
  | None => source_tag +:+ ":absent"
  end.
Definition log_list_snapshots (io : LogIo) (disk : Disk) : result (list (SessionHeader * string)) LogError :=
  let? headers := log_list io disk in
  Ok ((fun header => (header, match path_for (sh_id header) with Ok path => revision_for disk path | Err _ => EmptyString end)) <$> headers).
End store.

(** * Lines written and read *)

Fixpoint one_line (s : string) : bool :=
  match s with EmptyString => true | String c s => negb (is_eol c) && one_line s end.
Definition text_of_lines (ls : list string) : string := concat_strings ((fun l => l +:+ eol) <$> ls).

Lemma split_inclusive_line l rest : one_line l = true -> split_inclusive (l +:+ eol +:+ rest) = (l +:+ eol) :: split_inclusive rest.
Proof.
  induction l as [|c l IH]; intros Hl; [done|]. cbn [one_line] in Hl. apply andb_true_iff in Hl as [Hc Hl].
  rewrite !str_app_cons. cbn [split_inclusive]. destruct (ascii_dec c newline) as [->|_]; [done|]. by rewrite IH.
Qed.
Lemma split_inclusive_tail l : one_line l = true -> split_inclusive l = if decide (l = EmptyString) then [] else [l].
Proof.
  induction l as [|c l IH]; intros Hl; [done|]. cbn [one_line] in Hl. apply andb_true_iff in Hl as [Hc Hl].
  cbn [split_inclusive]. destruct (ascii_dec c newline) as [->|_]; [done|]. rewrite IH by done. by destruct (decide (l = EmptyString)) as [->|].
Qed.
Lemma split_inclusive_lines ls tail : Forall (fun l => one_line l = true) ls -> one_line tail = true ->
  split_inclusive (text_of_lines ls +:+ tail) = ((fun l => l +:+ eol) <$> ls) ++ (if decide (tail = EmptyString) then [] else [tail]).
Proof.
  intros Hls Ht. induction Hls as [|l ls Hl Hls IH]; [by apply split_inclusive_tail|].
  unfold text_of_lines in *. cbn [fmap list_fmap concat_strings]. rewrite <- !str_app_assoc, split_inclusive_line by done. cbn. by f_equal.
Qed.
Lemma terminated_eol l : terminated (l +:+ eol) = true.
Proof.
  induction l as [|c l IH]; [done|]. rewrite str_app_cons. cbn [terminated]. destruct (l +:+ eol) eqn:E; [|done]. destruct l; done.
Qed.
Lemma terminated_line l : one_line l = true -> terminated l = false.
Proof.
  induction l as [|c l IH]; [done|]. cbn [one_line terminated]. rewrite andb_true_iff. intros [Hc Hl]. destruct l; [|by apply IH].
  apply bool_decide_eq_false. intros ->. done.
Qed.
Lemma trim_eol_line l : one_line l = true -> trim_eol l = l.
Proof.
  induction l as [|c l IH]; [done|]. cbn [one_line trim_eol]. rewrite andb_true_iff. intros [Hc Hl]. rewrite IH by done.
  destruct l; [|done]. by destruct (is_eol c).
Qed.
Lemma trim_eol_eol l : one_line l = true -> trim_eol (l +:+ eol) = l.
Proof.
  induction l as [|c l IH]; [done|]. rewrite str_app_cons. cbn [one_line trim_eol]. rewrite andb_true_iff. intros [Hc Hl]. rewrite IH by done.
  destruct l; [|done]. by destruct (is_eol c).
Qed.
Lemma one_line_take n l : one_line l = true -> one_line (str_take n l) = true.
Proof.
  revert n. induction l as [|c l IH]; intros n Hl; [by destruct n|]. destruct n as [|n]; [done|]. cbn in *.
  apply andb_true_iff in Hl as [Hc Hl]. by rewrite Hc, IH.
Qed.
Lemma text_of_lines_app a b : text_of_lines (a ++ b) = text_of_lines a +:+ text_of_lines b.
Proof. unfold text_of_lines. by rewrite fmap_app, concat_strings_app. Qed.
Lemma eol_utf8 : is_utf8 eol.
Proof. done. Qed.
Lemma text_of_lines_utf8 ls : Forall is_utf8 ls -> is_utf8 (text_of_lines ls).
Proof.
  unfold text_of_lines. induction 1 as [|l ls Hl Hls IH]; [done|]. cbn [fmap list_fmap concat_strings]. by repeat apply is_utf8_concat.
Qed.

(** * Artifacts *)

(** Sequence numbers count up from [n]. *)
Definition seqs_from (n : nat) (events : list SessionEvent) : Prop :=
  forall i e, events !! i = Some e -> ev_seq e = Z.of_nat (n + i).
Lemma seqs_from_cons n e events : seqs_from n (e :: events) <-> ev_seq e = Z.of_nat n /\ seqs_from (S n) events.
Proof.
  split.
  - intros H. split; [by rewrite (H 0 e eq_refl), Nat.add_0_r|]. intros i x Hi. rewrite (H (S i) x Hi). f_equal. lia.
  - intros [He H] [|i] x Hi; cbn in Hi; [injection Hi as <-; rewrite He; f_equal; lia|]. rewrite (H i x Hi). f_equal. lia.
Qed.
Lemma seqs_from_app n a b : seqs_from n (a ++ b) <-> seqs_from n a /\ seqs_from (n + length a) b.
Proof.
  revert n. induction a as [|e a IH]; intros n; cbn [app length].
  - rewrite Nat.add_0_r. split; [intros H; split; [by intros i x Hi|done]|by intros [_ H]].
  - rewrite !seqs_from_cons, IH. rewrite Nat.add_succ_comm. tauto.
Qed.

Section artifacts.
Context (header_to_line : HeaderLine -> option string) (header_of_line : string -> option HeaderLine).
Context (event_to_line : SessionEvent -> option string) (event_of_line : string -> option SessionEvent).

(** A line of the event codec: it reads back, it is one line of text of a
    kind this build reads, and no proper prefix of it reads as an event. *)
Record good_event (e : SessionEvent) (l : string) : Prop := {
  ge_line : event_to_line e = Some l;
  ge_reads : event_of_line l = Some e;
  ge_utf8 : is_utf8 l;
  ge_one : one_line l = true;
  ge_text : l <> EmptyString;
  ge_prefix n : n < String.length l -> event_of_line (str_take n l) = None;
  ge_known : is_known_session_event_type (event_type e) = true \/ ev_ignorable e = Some true;
}.
Record good_header (h : SessionHeader) (l : string) : Prop := {
  gh_line : header_to_line (to_header_line h) = Some l;
  gh_reads : header_of_line l = Some (to_header_line h);
  gh_utf8 : is_utf8 l;
  gh_one : one_line l = true;
  gh_trim : trim_end (l +:+ eol) = l;
  gh_version : sh_version h = SESSION_FORMAT_VERSION;
  gh_depth d : sh_delegation_depth h = Some d -> (0 < d)%Z;
}.
Definition storable_event (e : SessionEvent) : Prop := exists l, good_event e l.

(** The bytes of the session [h] with the events [events]. *)
Definition artifact (content : string) (h : SessionHeader) (events : list SessionEvent) : Prop :=
  exists hl ls, content = hl +:+ eol +:+ text_of_lines ls /\ good_header h hl /\ Forall2 good_event events ls /\ seqs_from 0 events.

Lemma from_to_header h l : good_header h l -> from_header_line (to_header_line h) = Ok h.
Proof.
  intros [_ _ _ _ _ Hv Hd]. destruct h as [v id c cwd p sl o d a]. cbn in *. unfold from_header_line, to_header_line. cbn.
  rewrite Hv. cbn. f_equal. f_equal. destruct d as [d|]; [|done]. cbn. specialize (Hd d eq_refl). destruct (Z.ltb_spec 0 d); [done|lia].
Qed.

Lemma read_good_event e l ls events : good_event e l -> ev_seq e = Z.of_nat (length events) ->
  read_events event_of_line ((l +:+ eol) :: ls) events = read_events event_of_line ls (events ++ [e]).
Proof.
  intros Hg Hs. cbn [read_events]. rewrite trim_eol_eol by (by eapply ge_one). rewrite bool_decide_eq_false_2 by (by eapply ge_text).
  rewrite (ge_reads _ _ Hg), Hs, Z.eqb_refl. cbn [negb]. destruct (ge_known _ _ Hg) as [Hk|Hi].
  - by rewrite Hk.
  - rewrite bool_decide_eq_true_2 by done. by rewrite andb_false_r.
Qed.
(** Whole lines, then what the rest gives. *)
Lemma read_good_events events ls : Forall2 good_event events ls -> forall tail before, seqs_from (length before) events ->
  read_events event_of_line (((fun l => l +:+ eol) <$> ls) ++ tail) before = read_events event_of_line tail (before ++ events).
Proof.
  induction 1 as [|e l events ls Hg Hall IH]; intros tail before Hn; [by rewrite app_nil_r|].
  apply seqs_from_cons in Hn as [He Hn]. cbn [fmap list_fmap app]. rewrite (read_good_event e l) by done.
  rewrite IH; [by rewrite <- app_assoc|]. rewrite length_app. cbn. by rewrite Nat.add_1_r.
Qed.
Lemma read_header_line h hl : good_header h hl -> read_header header_of_line (hl +:+ eol) = Ok h.
Proof.
  intros Hh. unfold read_header. rewrite terminated_eol. cbn [negb]. rewrite (gh_trim _ _ Hh), (gh_reads _ _ Hh). cbn. by eapply from_to_header.
Qed.
Lemma good_events_lines events ls : Forall2 good_event events ls -> Forall (fun l => one_line l = true) ls /\ Forall is_utf8 ls.
Proof. intros H. induction H as [|e l events ls Hg _ [IH1 IH2]]; [done|]. split; constructor; try done; apply Hg. Qed.

(** An artifact reads as what it holds, and so does one with a torn tail. *)
Lemma read_torn h hl events ls tail : good_header h hl -> Forall2 good_event events ls -> seqs_from 0 events ->
  one_line tail = true -> event_of_line tail = None ->
  read_content header_of_line event_of_line (hl +:+ eol +:+ text_of_lines ls +:+ tail) = Ok (h, events).
Proof.
  intros Hh Hall Hn Ht He. unfold read_content. rewrite split_inclusive_line by apply Hh. rewrite (read_header_line h hl Hh). cbn [result_bind].
  destruct (good_events_lines _ _ Hall) as [H1 H2]. rewrite split_inclusive_lines by done. rewrite (read_good_events events ls Hall) by done. cbn [app].
  destruct (decide (tail = EmptyString)) as [->|Hne]; [done|]. cbn [read_events]. rewrite trim_eol_line by done.
  rewrite bool_decide_eq_false_2 by done. rewrite He. by rewrite terminated_line.
Qed.
Lemma read_whole content h events : artifact content h events -> read_content header_of_line event_of_line content = Ok (h, events).
Proof.
  intros (hl & ls & -> & Hh & Hall & Hn). unfold read_content. rewrite split_inclusive_line by apply Hh. rewrite (read_header_line h hl Hh). cbn [result_bind].
  destruct (good_events_lines _ _ Hall) as [H1 H2]. rewrite <- (str_app_nil_r (text_of_lines ls)), split_inclusive_lines by done.
  by rewrite (read_good_events events ls Hall).
Qed.
Lemma artifact_utf8 content h events : artifact content h events -> is_utf8 content.
Proof.
  intros (hl & ls & -> & Hh & Hall & Hn). destruct (good_events_lines _ _ Hall) as [H1 H2].
  apply is_utf8_concat; [apply Hh|]. apply is_utf8_concat; [done|]. by apply text_of_lines_utf8.
Qed.
Lemma read_artifact_ok disk path content h events : disk !! path = Some content -> artifact content h events ->
  read_artifact header_of_line event_of_line log_steady disk path = Ok (h, events).
Proof.
  intros Hd Ha. unfold read_artifact, read_file. rewrite Hd. cbn [li_reads log_steady]. rewrite bool_decide_eq_true_2 by (by eapply artifact_utf8).
  cbn. by apply read_whole.
Qed.
Lemma event_lines_good events ls : Forall2 good_event events ls -> event_lines event_to_line events = Some (text_of_lines ls).
Proof.
  induction 1 as [|e l events ls Hg Hall IH]; [done|]. cbn [event_lines]. rewrite (ge_line _ _ Hg), IH. cbn.
  unfold text_of_lines. cbn [fmap list_fmap concat_strings]. by rewrite <- str_app_assoc.
Qed.
Lemma artifact_append content h events batch ls : artifact content h events -> Forall2 good_event batch ls -> seqs_from (length events) batch ->
  artifact (content +:+ text_of_lines ls) h (events ++ batch).
Proof.
  intros (hl & ls0 & -> & Hh & Hall & Hn) Hb Hnb. exists hl, (ls0 ++ ls). split_and!; [|done|by apply Forall2_app|by apply seqs_from_app].
  rewrite text_of_lines_app. by rewrite !str_app_assoc.
Qed.
Lemma storable_lines events : Forall storable_event events -> exists ls, Forall2 good_event events ls.
Proof.
  induction 1 as [|e events [l Hl] _ [ls IH]]; [by exists []|]. exists (l :: ls). by constructor.
Qed.
End artifacts.

(** * The store refines a map of logs *)

Lemma byte_list_inj s t : byte_list s = byte_list t -> s = t.
Proof. intros E. by rewrite <- (String.string_of_list_ascii_of_string s), E, String.string_of_list_ascii_of_string. Qed.
Lemma path_for_inj a b path : is_utf8 a -> is_utf8 b -> path_for a = Ok path -> path_for b = Ok path -> a = b.
Proof.
  intros Ha Hb. unfold path_for. destruct (encode_path_segment a) as [x|] eqn:Ex; [|done]. destruct (encode_path_segment b) as [y|] eqn:Ey; [|done].
  intros [= <-] [= E]. apply (segments_safe_and_injective a b x y Ha Hb Ex Ey). apply byte_list_inj. apply (f_equal (fun s => byte_list s)) in E.
  rewrite !bytes_app in E. by apply app_inv_tail in E.
Qed.
Lemma path_for_Ok id : is_utf8 id -> id <> EmptyString -> exists path, path_for id = Ok path.
Proof.
  intros Hu Hne. unfold path_for. destruct (encode_path_segment_spec id Hu Hne) as [(-> & _)|(-> & _)]; by eexists.
Qed.

(** The closers continue the numbering of the log. *)
Lemma call_closers_numbered turn time pending : forall n, (Z.of_nat (n + length pending) < u64_modulus)%Z ->
  seqs_from n (call_closers turn time (Z.of_nat n) pending) /\ length (call_closers turn time (Z.of_nat n) pending) = length pending
  /\ seq_after (Z.of_nat n) (length pending) = Z.of_nat (n + length pending).
Proof.
  induction pending as [|p pending IH]; intros n Hn; [split_and!; [by intros i x Hi|done|by rewrite Nat.add_0_r]|].
  cbn [length call_closers seq_after] in *. assert (Hs : u64_succ (Z.of_nat n) = Z.of_nat (S n)) by (unfold u64_succ; rewrite u64_add_small; lia).
  rewrite Hs. destruct (IH (S n)) as (H1 & H2 & H3); [lia|]. split_and!; [by apply seqs_from_cons|by rewrite H2|rewrite H3; f_equal; lia].
Qed.
Lemma closers_numbered events : seqs_from 0 events -> (Z.of_nat (length events + length (unresolved events)) + 2 < u64_modulus)%Z ->
  seqs_from (length events) (interrupted_turn_closers events).
Proof.
  intros Hn Hroom. rewrite unresolved_scan in Hroom. unfold interrupted_turn_closers in *. destruct (rs_open_turn (scan events)) as [turn|]; [|by intros i x Hi].
  destruct (last events) as [e|] eqn:El; [|by intros i x Hi]. assert (Hs : u64_succ (ev_seq e) = Z.of_nat (length events)).
  { destruct (last_seq events e) as [H|H]; [by intros i x Hi; rewrite (Hn i x Hi)|done|unfold fits_u64; lia|done|lia]. }
  rewrite Hs. destruct (call_closers_numbered turn (ev_time e) (rs_pending (scan events)) (length events)) as (H1 & H2 & H3); [lia|].
  apply seqs_from_app. split; [done|]. rewrite H2, H3. set (n := length events + length (rs_pending (scan events))) in *.
  unfold boundary_closers. destruct (rs_open_step (scan events)) as [st|]; repeat (apply seqs_from_cons; split); try done; try (by intros i x Hi).
  cbn. unfold u64_succ. rewrite u64_add_small; lia.
Qed.

Section refinement.
Context (header_to_line : HeaderLine -> option string) (header_of_line : string -> option HeaderLine).
Context (event_to_line : SessionEvent -> option string) (event_of_line : string -> option SessionEvent).
#[local] Abbreviation storable_event := (storable_event event_to_line event_of_line).
#[local] Abbreviation artifact := (artifact header_to_line header_of_line event_to_line event_of_line).
#[local] Abbreviation good_header := (good_header header_to_line header_of_line).
#[local] Abbreviation good_event := (good_event event_to_line event_of_line).

Inductive LogOp :=
| LO_Create (meta : SessionHeader)
| LO_Append (id : SessionId) (events : list SessionEvent)
| LO_Load (id : SessionId)
| LO_Inspect (id : SessionId)
| LO_ReadFrom (id : SessionId) (from_seq : Z).
Inductive LogReply :=
| LR_Unit (r : result unit LogError)
| LR_Log (r : result (SessionHeader * list SessionEvent) LogError).
Definition run_log_op (disk : Disk) (op : LogOp) : Disk * LogReply :=
  match op with
  | LO_Create meta => let '(d, r) := log_create header_to_line log_steady disk meta in (d, LR_Unit r)
  | LO_Append id events => let '(d, r) := log_append header_of_line event_to_line event_of_line log_steady disk id events in (d, LR_Unit r)
  | LO_Load id => let '(d, r) := log_load header_of_line event_to_line event_of_line log_steady disk id in (d, LR_Log r)
  | LO_Inspect id => let '(d, r) := log_inspect header_of_line event_to_line event_of_line log_steady disk id in (d, LR_Log r)
  | LO_ReadFrom id from_seq => (disk, LR_Log (log_read_from header_of_line event_of_line log_steady disk id from_seq))
  end.
Fixpoint run_log_ops (disk : Disk) (ops : list LogOp) : Disk * list LogReply :=
  match ops with
  | [] => (disk, [])
  | op :: ops => let '(disk, r) := run_log_op disk op in let '(disk, rs) := run_log_ops disk ops in (disk, r :: rs)
  end.

(** ** The abstract store *)

Abbreviation Logs := (gmap string (SessionHeader * list SessionEvent)).
Definition spec_op (logs : Logs) (op : LogOp) : Logs * LogReply :=
  match op with
  | LO_Create meta =>
      (match logs !! sh_id meta with Some _ => logs | None => <[sh_id meta := (meta, [])]> logs end, LR_Unit (Ok ()))
  | LO_Append id events =>
      match logs !! id with
      | None => (logs, LR_Unit (Err (SE_NotCreated id)))
      | Some (h, log) =>
          match events with
          | first :: _ => if decide (ev_seq first = Z.of_nat (length log)) then (<[id := (h, log ++ events)]> logs, LR_Unit (Ok ()))
                          else (logs, LR_Unit (Err (SE_Batch (ev_seq first) (length log))))
          | [] => (logs, LR_Unit (Ok ()))
          end
      end
  | LO_Load id =>
      match logs !! id with
      | None => (logs, LR_Log (Err SE_Io))
      | Some (h, log) => let log := log ++ interrupted_turn_closers log in (<[id := (h, log)]> logs, LR_Log (Ok (h, log)))
      end
  | LO_Inspect id =>
      (logs, LR_Log (match logs !! id with None => Err SE_Io | Some (h, log) => Ok (h, log ++ interrupted_turn_closers log) end))
  | LO_ReadFrom id from_seq =>
      (logs, LR_Log (match logs !! id with None => Err SE_Io | Some (h, log) => Ok (h, drop (Z.to_nat from_seq) log) end))
  end.
Fixpoint spec_ops (logs : Logs) (ops : list LogOp) : Logs * list LogReply :=
  match ops with
  | [] => (logs, [])
  | op :: ops => let '(logs, r) := spec_op logs op in let '(logs, rs) := spec_ops logs ops in (logs, r :: rs)
  end.

(** Ids are non-empty text, headers and events encode, a batch is contiguous
    and the closers of a loaded log encode. *)
Definition good_id (id : SessionId) : Prop := is_utf8 id /\ id <> EmptyString.
Definition log_op_fair (logs : Logs) (op : LogOp) : Prop :=
  match op with
  | LO_Create meta => good_id (sh_id meta) /\ exists hl, good_header meta hl
  | LO_Append id events => good_id id /\ Forall storable_event events /\ exists n, seqs_from n events
  | LO_Load id => good_id id /\ forall h log, logs !! id = Some (h, log) ->
      Forall storable_event (interrupted_turn_closers log) /\ (Z.of_nat (length log + length (unresolved log)) + 2 < u64_modulus)%Z
  | LO_Inspect id => good_id id
  | LO_ReadFrom id from_seq => good_id id /\ (0 <= from_seq)%Z
  end.
Fixpoint log_ops_fair (logs : Logs) (ops : list LogOp) : Prop :=
  match ops with [] => True | op :: ops => log_op_fair logs op /\ log_ops_fair (spec_op logs op).1 ops end.

(** The directory holds exactly these logs. *)
Definition stores (disk : Disk) (logs : Logs) : Prop :=
  forall id path, good_id id -> path_for id = Ok path ->
    match logs !! id with
    | Some (h, log) => exists content, disk !! path = Some content /\ artifact content h log
    | None => disk !! path = None
    end.

Lemma stores_insert disk logs id path content h log :
  stores disk logs -> good_id id -> path_for id = Ok path -> artifact content h log ->
  stores (<[path := content]> disk) (<[id := (h, log)]> logs).
Proof.
  intros Hs [Hu Hne] Hp Ha id' path' Hg' Hp'. destruct (decide (id' = id)) as [->|Hd].
  - assert (path' = path) as -> by congruence. rewrite !lookup_insert_eq. by exists content.
  - rewrite lookup_insert_ne by done. rewrite lookup_insert_ne; [by apply Hs|]. intros ->. apply Hd. by apply (path_for_inj id' id path'); [apply Hg'|..].
Qed.
Lemma insert_self (disk : Disk) path content : disk !! path = Some content -> <[path := content +:+ EmptyString]> disk = disk.
Proof. intros Hd. rewrite str_app_nil_r. by apply insert_id. Qed.
Lemma numbered_filter_drop n events : forall k : nat, seqs_from k events ->
  base.filter (fun e => (Z.of_nat n <= ev_seq e)%Z) events = drop (n - k) events.
Proof.
  induction events as [|e events IH]; intros k Hn; [by rewrite drop_nil|]. apply seqs_from_cons in Hn as [He Hn].
  destruct (decide (n <= k)) as [Hle|Hgt].
  - replace (n - k) with 0 by lia. rewrite filter_cons_True by lia. rewrite (IH (S k)) by done. by replace (n - S k) with 0 by lia.
  - rewrite filter_cons_False by lia. rewrite (IH (S k)) by done. replace (n - k) with (S (n - S k)) by lia. done.
Qed.

(** ** One operation *)

Lemma append_step disk path content h log batch : disk !! path = Some content -> artifact content h log -> Forall storable_event batch ->
  seqs_from (length log) batch -> exists content',
  append_lines event_to_line log_steady disk path batch = (<[path := content']> disk, Ok ()) /\ artifact content' h (log ++ batch).
Proof.
  intros Hd Ha [ls Hls]%storable_lines Hn. exists (content +:+ text_of_lines ls). unfold append_lines. rewrite Hd. cbn [negb li_opens log_steady].
  rewrite (event_lines_good event_to_line event_of_line batch ls Hls). unfold write_synced. rewrite Hd. split; [done|]. by apply artifact_append.
Qed.

Lemma create_refines disk logs meta : stores disk logs -> log_op_fair logs (LO_Create meta) ->
  let '(disk', r) := run_log_op disk (LO_Create meta) in let '(logs', r') := spec_op logs (LO_Create meta) in r = r' /\ stores disk' logs'.
Proof.
  intros Hs [Hid (hl & Hh)]. destruct (path_for_Ok (sh_id meta)) as [path Hp]; [apply Hid..|]. pose proof (Hs _ _ Hid Hp) as Hl.
  cbn [run_log_op spec_op]. unfold log_create, materialize. rewrite Hp. destruct (logs !! sh_id meta) as [[h log]|].
  - destruct Hl as (content & -> & _). done.
  - rewrite Hl. cbn [negb li_opens log_steady]. rewrite (gh_line _ _ _ _ Hh). unfold write_synced. cbn [li_writes li_syncs log_steady result_bind].
    rewrite lookup_insert_eq, insert_insert_eq. cbn [default]. split; [done|]. apply (stores_insert disk logs (sh_id meta) path _ meta []); [done..|].
    exists hl, []. split_and!; [done|done|constructor|by intros i x Hi].
Qed.
Lemma append_refines disk logs id events : stores disk logs -> log_op_fair logs (LO_Append id events) ->
  let '(disk', r) := run_log_op disk (LO_Append id events) in let '(logs', r') := spec_op logs (LO_Append id events) in r = r' /\ stores disk' logs'.
Proof.
  intros Hs (Hid & Hst & n & Hn). destruct (path_for_Ok id) as [path Hp]; [apply Hid..|]. pose proof (Hs _ _ Hid Hp) as Hl.
  cbn [run_log_op spec_op]. unfold log_append. rewrite Hp. destruct (logs !! id) as [[h log]|]; [|by rewrite Hl].
  destruct Hl as (content & Hd & Ha). rewrite Hd, (read_artifact_ok _ _ _ _ disk path content h log Hd Ha). destruct events as [|e events].
  - unfold append_lines. rewrite Hd. cbn. rewrite Hd. cbn [default]. by rewrite insert_self.
  - destruct (Z.eqb_spec (ev_seq e) (Z.of_nat (length log))) as [He|He]; cbn [negb].
    + rewrite decide_True by done. destruct (append_step disk path content h log (e :: events) Hd Ha Hst) as (content' & -> & Ha').
      { apply seqs_from_cons in Hn as [Hn1 Hn2]. assert (n = length log) as <- by lia. by apply seqs_from_cons. }
      split; [done|]. by eapply stores_insert.
    + by rewrite decide_False by done.
Qed.
Lemma inspect_refines disk logs id : stores disk logs -> good_id id ->
  log_inspect header_of_line event_to_line event_of_line log_steady disk id
  = (disk, match logs !! id with None => Err SE_Io | Some (h, log) => Ok (h, log ++ interrupted_turn_closers log) end).
Proof.
  intros Hs Hid. destruct (path_for_Ok id) as [path Hp]; [apply Hid..|]. pose proof (Hs _ _ Hid Hp) as Hl. unfold log_inspect, inspect_sync. rewrite Hp.
  destruct (logs !! id) as [[h log]|]; [|unfold read_artifact, read_file; by rewrite Hl]. destruct Hl as (content & Hd & Ha).
  rewrite (read_artifact_ok _ _ _ _ disk path content h log Hd Ha). case_bool_decide as E; [|done]. by rewrite E, app_nil_r.
Qed.
Lemma load_refines disk logs id : stores disk logs -> log_op_fair logs (LO_Load id) ->
  let '(disk', r) := run_log_op disk (LO_Load id) in let '(logs', r') := spec_op logs (LO_Load id) in r = r' /\ stores disk' logs'.
Proof.
  intros Hs (Hid & Hf). destruct (path_for_Ok id) as [path Hp]; [apply Hid..|]. pose proof (Hs _ _ Hid Hp) as Hl.
  cbn [run_log_op spec_op]. unfold log_load, inspect_sync. rewrite Hp. destruct (logs !! id) as [[h log]|] eqn:El; [|unfold read_artifact, read_file; by rewrite Hl].
  destruct (Hf h log eq_refl) as [Hst Hroom]. destruct Hl as (content & Hd & Ha). rewrite (read_artifact_ok _ _ _ _ disk path content h log Hd Ha).
  case_bool_decide as E.
  - rewrite E, app_nil_r. rewrite insert_id by done. done.
  - destruct (append_step disk path content h log _ Hd Ha Hst) as (content' & -> & Ha'); [|split; [done|by eapply stores_insert]].
    apply closers_numbered; [|done]. by destruct Ha as (? & ? & _ & _ & _ & ?).
Qed.
Lemma op_refines disk logs op : stores disk logs -> log_op_fair logs op ->
  let '(disk', r) := run_log_op disk op in let '(logs', r') := spec_op logs op in r = r' /\ stores disk' logs'.
Proof.
  intros Hs Hf. destruct op as [meta|id events|id|id|id n]; [by apply create_refines|by apply append_refines|by apply load_refines|..].
  - cbn [run_log_op spec_op]. by rewrite (inspect_refines disk logs id Hs Hf).
  - destruct Hf as [Hid Hn]. cbn [run_log_op spec_op]. split; [|done]. f_equal. destruct (path_for_Ok id) as [path Hp]; [apply Hid..|].
    pose proof (Hs _ _ Hid Hp) as Hl. unfold log_read_from. rewrite Hp. cbn [result_bind]. destruct (logs !! id) as [[h log]|];
      [|unfold read_artifact, read_file; by rewrite Hl]. destruct Hl as (content & Hd & Ha).
    rewrite (read_artifact_ok _ _ _ _ disk path content h log Hd Ha). cbn. do 2 f_equal.
    destruct Ha as (? & ? & _ & _ & _ & Hnum). pose proof (numbered_filter_drop (Z.to_nat n) log 0 Hnum) as E. by rewrite Z2Nat.id, Nat.sub_0_r in E.
Qed.

(** C24. On a disk whose reads and writes succeed, the directory of artifacts
    behaves as a map from session ids to logs: whatever the sequence of
    creations, appends, loads, inspections and reads, every reply is the one
    the map gives and the directory holds exactly the map afterwards.  A
    creation registers the header once and never resets a log, an append
    extends exactly its session's log and only at its end (a batch that starts
    elsewhere is refused), a load commits the closers of the interrupted turn
    and an inspection only shows them, and a read from a watermark returns what
    follows it.  The conditions ([log_ops_fair]): ids are non-empty UTF-8 text,
    headers and events are ones the codec gives back as they were, on one line,
    a batch has no hole inside it (the code checks only where it starts, see
    [gapped_batch_example]), and the closers of a loaded log still have room for
    their sequence numbers.  A write that is cut is the subject of
    [crash_loses_only_unwritten] and [torn_tail_never_truncated]. *)
Theorem store_refines_logs disk logs ops :
  stores disk logs -> log_ops_fair logs ops ->
  (run_log_ops disk ops).2 = (spec_ops logs ops).2 /\ stores (run_log_ops disk ops).1 (spec_ops logs ops).1.
Proof.
  revert disk logs. induction ops as [|op ops IH]; intros disk logs Hs Hf; [done|]. destruct Hf as [Hop Hf]. cbn [run_log_ops spec_ops].
  pose proof (op_refines disk logs op Hs Hop) as H. destruct (run_log_op disk op) as [disk' r], (spec_op logs op) as [logs' r'].
  destruct H as [-> Hs']. cbn [fst] in Hf. specialize (IH disk' logs' Hs' Hf). destruct (run_log_ops disk' ops), (spec_ops logs' ops).
  cbn in *. destruct IH as [-> ?]. done.
Qed.

(** ** A crash inside a write *)

(** The lines written whole, but for the last newline. *)
Fixpoint whole_lines (ls : list string) (n : nat) : nat :=
  match ls with
  | [] => 0
  | l :: ls => if String.length l <=? n then S (whole_lines ls (n - S (String.length l))) else 0
  end.
Lemma whole_lines_0 ls : Forall (fun l => l <> EmptyString) ls -> whole_lines ls 0 = 0.
Proof. by destruct 1 as [|[|c l] ls Hl _]. Qed.
Lemma good_nonempty batch ls : Forall2 good_event batch ls -> Forall (fun l => l <> EmptyString) ls.
Proof. induction 1 as [|e l batch ls Hg _ IH]; constructor; [by eapply ge_text|done]. Qed.

Lemma take_line n l rest : String.length l < n -> str_take n (l +:+ eol +:+ rest) = l +:+ eol +:+ str_take (n - S (String.length l)) rest.
Proof.
  intros Hn. replace n with (String.length l + S (n - S (String.length l))) at 1 by lia. rewrite str_take_add.
  by rewrite str_take_length_app, str_take_all, str_drop_app by lia.
Qed.
Lemma read_torn_batch batch ls : Forall2 good_event batch ls -> forall before n, seqs_from (length before) batch ->
  read_events event_of_line (split_inclusive (str_take n (text_of_lines ls))) before = Ok (before ++ take (whole_lines ls n) batch).
Proof.
  induction 1 as [|e l batch ls Hg Hall IH]; intros before n Hn; [destruct n; cbn; by rewrite app_nil_r|].
  apply seqs_from_cons in Hn as [He Hn]. change (text_of_lines (l :: ls)) with ((l +:+ eol) +:+ text_of_lines ls). rewrite <- str_app_assoc.
  cbn [whole_lines]. destruct (Nat.leb_spec (String.length l) n) as [Hle|Hlt].
  - destruct (decide (n = String.length l)) as [->|Hne].
    + rewrite str_take_length_app, str_take_all by lia. rewrite split_inclusive_tail by (by eapply ge_one).
      rewrite decide_False by (by eapply ge_text). replace (String.length l - S (String.length l)) with 0 by lia.
      rewrite whole_lines_0 by (by eapply good_nonempty). cbn [take read_events]. rewrite trim_eol_line by (by eapply ge_one).
      rewrite bool_decide_eq_false_2 by (by eapply ge_text). rewrite (ge_reads _ _ _ _ Hg), He, Z.eqb_refl. cbn [negb].
      destruct (ge_known _ _ _ _ Hg) as [Hk|Hi]; [by rewrite Hk|]. rewrite bool_decide_eq_true_2 by done. by rewrite andb_false_r.
    + rewrite take_line by lia. rewrite split_inclusive_line by (by eapply ge_one). rewrite (read_good_event event_to_line event_of_line e l) by done.
      rewrite IH by (rewrite length_app; cbn; by rewrite Nat.add_1_r). cbn [take]. by rewrite <- app_assoc.
  - rewrite str_take_length_app by lia. rewrite split_inclusive_tail by (apply one_line_take; by eapply ge_one). cbn [take]. rewrite app_nil_r.
    destruct (decide _) as [|Hne]; [done|]. cbn [read_events]. rewrite trim_eol_line by (apply one_line_take; by eapply ge_one).
    rewrite bool_decide_eq_false_2 by done. rewrite (ge_prefix _ _ _ _ Hg n) by done. by rewrite terminated_line by (apply one_line_take; by eapply ge_one).
Qed.

(** A crash inside an append, after any number of bytes, costs only the
    events it had not written whole: what was stored before is read back, and
    of the batch every event whose line is complete, its newline aside. *)
Theorem crash_loses_only_unwritten disk logs id h log batch ls n :
  stores disk logs -> good_id id -> logs !! id = Some (h, log) -> batch <> [] ->
  Forall2 good_event batch ls -> seqs_from (length log) batch -> is_utf8 (str_take n (text_of_lines ls)) ->
  let crashed := (log_append header_of_line event_to_line event_of_line (mk_log_io true true (Some n) true) disk id batch).1 in
  log_read_from header_of_line event_of_line log_steady crashed id 0 = Ok (h, log ++ take (whole_lines ls n) batch).
Proof.
  intros Hs Hid El Hne Hall Hn Hu crashed. destruct (path_for_Ok id) as [path Hp]; [apply Hid..|]. pose proof (Hs _ _ Hid Hp) as Hl. rewrite El in Hl.
  destruct Hl as (content & Hd & Ha). assert (Hc : crashed = <[path := content +:+ str_take n (text_of_lines ls)]> disk).
  { subst crashed. unfold log_append. rewrite Hp, Hd. pose proof (read_artifact_ok _ _ _ _ disk path content h log Hd Ha) as Hr.
    unfold read_artifact, read_file in *. cbn [li_reads log_steady] in *. rewrite Hr. destruct batch as [|e batch]; [done|].
    pose proof Hn as [He _]%seqs_from_cons. rewrite He, Z.eqb_refl. cbn [negb]. unfold append_lines. rewrite Hd. cbn [negb li_opens].
    rewrite (event_lines_good event_to_line event_of_line _ ls Hall). unfold write_synced. by rewrite Hd. }
  unfold log_read_from. rewrite Hp, Hc. cbn [result_bind]. unfold read_artifact, read_file. rewrite lookup_insert_eq.
  pose proof (artifact_utf8 _ _ _ _ _ _ _ Ha) as Hu0. rewrite bool_decide_eq_true_2 by (by apply is_utf8_concat). cbn [li_reads log_steady andb result_bind].
  destruct Ha as (hl & ls0 & -> & Hh & Hall0 & Hn0). rewrite <- !str_app_assoc. unfold read_content.
  rewrite split_inclusive_line by apply Hh. rewrite (read_header_line header_to_line header_of_line h hl Hh). cbn [result_bind].
  destruct (good_events_lines _ _ _ _ Hall0) as [H1 H2].
  assert (Hsplit : split_inclusive (text_of_lines ls0 +:+ str_take n (text_of_lines ls)) = ((fun l => l +:+ eol) <$> ls0) ++ split_inclusive (str_take n (text_of_lines ls))).
  { clear -H1. induction H1 as [|l ls0 Hl _ IH]; [done|]. change (text_of_lines (l :: ls0)) with ((l +:+ eol) +:+ text_of_lines ls0).
    rewrite <- !str_app_assoc, split_inclusive_line by done. cbn. by f_equal. }
  rewrite Hsplit, (read_good_events event_to_line event_of_line log ls0 Hall0) by done. cbn [app]. rewrite (read_torn_batch batch ls Hall log n Hn).
  cbn. do 2 f_equal. apply filter_all. intros e He%list_elem_of_lookup. destruct He as [i Hi].
  assert (seqs_from 0 (log ++ take (whole_lines ls n) batch)) as Hnum.
  { apply seqs_from_app. split; [done|]. intros j x Hj. apply Hn. by apply lookup_take_Some in Hj as [? _]. }
  rewrite (Hnum i e Hi). lia.
Qed.

(** The torn record stays in the file: the next append is accepted, starts in
    the middle of that line, and the log does not read any more. *)
Lemma torn_tail_never_truncated disk id path content h log tail e l :
  good_id id -> path_for id = Ok path -> artifact content h log -> disk !! path = Some (content +:+ tail) ->
  is_utf8 tail -> one_line tail = true -> event_of_line tail = None ->
  good_event e l -> ev_seq e = Z.of_nat (length log) -> event_of_line (tail +:+ l) = None ->
  let '(disk', r) := log_append header_of_line event_to_line event_of_line log_steady disk id [e] in
  r = Ok () /\ log_read_from header_of_line event_of_line log_steady disk' id 0 = Err SE_Corrupt.
Proof.
  intros Hid Hp Ha Hd Hut Ht Hnone Hg He Hglue. pose proof (artifact_utf8 _ _ _ _ _ _ _ Ha) as Hu.
  destruct Ha as (hl & ls & -> & Hh & Hall & Hn). rewrite <- !str_app_assoc in *.
  pose proof (read_torn header_to_line header_of_line event_to_line event_of_line h hl log ls tail Hh Hall Hn Ht Hnone) as Hr.
  assert (Hu1 : is_utf8 (hl +:+ eol +:+ text_of_lines ls +:+ tail)) by (rewrite !str_app_assoc in *; by apply is_utf8_concat).
  unfold log_append. rewrite Hp, Hd. unfold read_artifact at 1, read_file at 1. rewrite Hd. cbn [li_reads log_steady].
  rewrite bool_decide_eq_true_2 by done. cbn [andb result_bind]. rewrite Hr, He, Z.eqb_refl. cbn [negb]. unfold append_lines. rewrite Hd. cbn [negb li_opens].
  cbn [event_lines]. rewrite (ge_line _ _ _ _ Hg). cbn. rewrite Hd. cbn [default from_option Datatypes.id]. split; [done|]. unfold log_read_from. rewrite Hp. cbn [result_bind].
  unfold read_artifact, read_file. rewrite lookup_insert_eq. cbn [li_reads log_steady].
  rewrite bool_decide_eq_true_2; [|apply is_utf8_concat; [done|]; apply is_utf8_concat; [apply Hg|done]]. cbn [andb result_bind].
  destruct (good_events_lines _ _ _ _ Hall) as [H1 H2]. rewrite <- !str_app_assoc. unfold read_content. rewrite split_inclusive_line by apply Hh.
  rewrite (read_header_line header_to_line header_of_line h hl Hh). cbn [result_bind].
  replace (text_of_lines ls +:+ tail +:+ l +:+ eol +:+ EmptyString) with (text_of_lines (ls ++ [tail +:+ l]) +:+ EmptyString)
    by (rewrite text_of_lines_app; unfold text_of_lines at 2; cbn; by rewrite <- !str_app_assoc).
  assert (Hone : one_line (tail +:+ l) = true).
  { pose proof (ge_one _ _ _ _ Hg) as Hl. clear -Ht Hl. induction tail as [|c tail IH]; [done|]. rewrite str_app_cons. cbn [one_line] in *.
    apply andb_true_iff in Ht as [Hc Ht]. by rewrite Hc, IH. }
  rewrite split_inclusive_lines; [|by apply Forall_app; split; [|constructor]|done]. rewrite fmap_app, <- app_assoc.
  rewrite (read_good_events event_to_line event_of_line log ls Hall) by done. cbn [app fmap list_fmap decide read_events]. rewrite trim_eol_eol by done.
  rewrite bool_decide_eq_false_2; [by rewrite Hglue, terminated_eol|]. intros E. pose proof (ge_text _ _ _ _ Hg) as Hl. destruct tail; [by rewrite str_app_nil_l in E|by rewrite str_app_cons in E].
Qed.
End refinement.

(** * A small store *)

Definition demo_open : SessionEvent := mk_event 0 7 (TurnStart 1) None None None.
Definition demo_closed : SessionEvent := mk_event 1 7 (TurnEnd 1 TE_Interrupted) None None None.
Definition demo_todo : SessionEvent := mk_event 2 9 (TodoWrite []) None None None.
Definition demo_meta : SessionHeader := mk_session_header 0 "a/b" 5 None None None None None None.
Definition demo_header_to_line (l : HeaderLine) : option string := Some "{h}".
Definition demo_header_of_line (s : string) : option HeaderLine := if decide (s = "{h}") then Some (to_header_line demo_meta) else None.
Definition demo_event_to_line (e : SessionEvent) : option string :=
  if (ev_seq e =? 0)%Z then Some "{0}" else if (ev_seq e =? 1)%Z then Some "{1}" else if (ev_seq e =? 2)%Z then Some "{2}" else None.
Definition demo_event_of_line (s : string) : option SessionEvent :=
  if decide (s = "{0}") then Some demo_open else if decide (s = "{1}") then Some demo_closed else if decide (s = "{2}") then Some demo_todo else None.

Abbreviation demo_good := (good_event demo_event_to_line demo_event_of_line).
Lemma demo_good_events : demo_good demo_open "{0}" /\ demo_good demo_closed "{1}" /\ demo_good demo_todo "{2}".
Proof.
  split_and!; (split; [done..| |by left]); intros n Hn; cbn in Hn; (do 3 (destruct n as [|n]; [done|]); lia).
Qed.
Lemma demo_good_header : good_header demo_header_to_line demo_header_of_line demo_meta "{h}".
Proof. by split. Qed.
Lemma demo_good_id : good_id "a/b".
Proof. done. Qed.
Lemma stores_empty hl ol tl el : stores hl ol tl el ∅ ∅.
Proof. intros id path _ _. by rewrite !lookup_empty. Qed.
Lemma demo_log_storable e l : demo_good e l -> storable_event demo_event_to_line demo_event_of_line e.
Proof. by exists l. Qed.

Definition demo_log_ops : list LogOp :=
  [LO_Create demo_meta; LO_Append "a/b" [demo_open]; LO_Append "a/b" [demo_open]; LO_Inspect "a/b"; LO_Load "a/b"; LO_Append "a/b" [demo_todo];
   LO_Create demo_meta; LO_ReadFrom "a/b" 1; LO_Load "b"].
Lemma demo_log_fair : log_ops_fair demo_header_to_line demo_header_of_line demo_event_to_line demo_event_of_line ∅ demo_log_ops.
Proof.
  destruct demo_good_events as (H0 & H1 & H2). cbn [log_ops_fair demo_log_ops].
  assert (Hb : good_id "b") by done. pose proof demo_good_id as Ha.
  split_and!; [split; [done|by exists "{h}"]| | |done| | |split; [done|by exists "{h}"]|by split| |done].
  - split_and!; [done|constructor; [by eapply demo_log_storable|done]|exists 0; by intros [|i] e He; [injection He as <-|]].
  - split_and!; [done|constructor; [by eapply demo_log_storable|done]|exists 0; by intros [|i] e He; [injection He as <-|]].
  - split; [done|]. intros h log E. vm_compute in E. injection E as <- <-. split; [|by vm_compute].
    change (interrupted_turn_closers _) with [demo_closed]. constructor; [by eapply demo_log_storable|done].
  - split_and!; [done|constructor; [by eapply demo_log_storable|done]|exists 2; by intros [|i] e He; [injection He as <-|]].
  - split; [done|]. intros h log E. by vm_compute in E.
Qed.

Lemma store_refines_logs_witness :
  (run_log_ops demo_header_to_line demo_header_of_line demo_event_to_line demo_event_of_line ∅ demo_log_ops).2
  = [LR_Unit (Ok ()); LR_Unit (Ok ()); LR_Unit (Err (SE_Batch 0 1)); LR_Log (Ok (demo_meta, [demo_open; demo_closed]));
     LR_Log (Ok (demo_meta, [demo_open; demo_closed])); LR_Unit (Ok ()); LR_Unit (Ok ()); LR_Log (Ok (demo_meta, [demo_closed; demo_todo])); LR_Log (Err SE_Io)]
  /\ stores demo_header_to_line demo_header_of_line demo_event_to_line demo_event_of_line
       (run_log_ops demo_header_to_line demo_header_of_line demo_event_to_line demo_event_of_line ∅ demo_log_ops).1 (spec_ops ∅ demo_log_ops).1.
Proof.
  destruct (store_refines_logs demo_header_to_line demo_header_of_line demo_event_to_line demo_event_of_line ∅ ∅ demo_log_ops
    (stores_empty _ _ _ _) demo_log_fair) as [E Hs].
  split; [by vm_compute|exact Hs].
Defined.

(** The store of one session with one event. *)
Definition demo_disk : Disk := {[ "a~002fb.jsonl" := "{h}" +:+ eol +:+ "{0}" +:+ eol ]}.
Lemma demo_stores : stores demo_header_to_line demo_header_of_line demo_event_to_line demo_event_of_line demo_disk {[ "a/b" := (demo_meta, [demo_open]) ]}.
Proof.
  assert (E : demo_disk = <["a~002fb.jsonl" := "{h}" +:+ eol +:+ "{0}" +:+ eol]> ∅) by done. rewrite E.
  change ({[ "a/b" := (demo_meta, [demo_open]) ]}) with (<["a/b" := (demo_meta, [demo_open])]> (∅ : gmap string (SessionHeader * list SessionEvent))).
  apply stores_insert; [apply stores_empty|done|by vm_compute|]. exists "{h}", ["{0}"].
  split_and!; [done|apply demo_good_header|constructor; [apply demo_good_events|done]|by intros [|i] e He; [injection He as <-|]].
Qed.
Lemma crash_loses_only_unwritten_witness :
  log_read_from demo_header_of_line demo_event_of_line log_steady
    (log_append demo_header_of_line demo_event_to_line demo_event_of_line (mk_log_io true true (Some 5) true) demo_disk "a/b" [demo_closed; demo_todo]).1 "a/b" 0
  = Ok (demo_meta, [demo_open] ++ take (whole_lines ["{1}"; "{2}"] 5) [demo_closed; demo_todo]).
Proof.
  destruct demo_good_events as (H0 & H1 & H2).
  apply (crash_loses_only_unwritten demo_header_to_line demo_header_of_line demo_event_to_line demo_event_of_line demo_disk {[ "a/b" := (demo_meta, [demo_open]) ]}
    "a/b" demo_meta [demo_open] [demo_closed; demo_todo] ["{1}"; "{2}"] 5); [apply demo_stores|done|done|done|constructor; [exact H1|constructor; [exact H2|constructor]]| |by vm_compute].
  intros [|[|i]] e He; [injection He as <-; done..|done].
Defined.
(** A reserved device name is a safe segment and stays literal. *)
Example reserved_name_stays : encode_path_segment "CON" = Some "CON".
Proof. by vm_compute. Qed.
(** After that crash, the append of the lost event succeeds and loses the log. *)
Lemma torn_tail_example :
  let crashed := (log_append demo_header_of_line demo_event_to_line demo_event_of_line (mk_log_io true true (Some 5) true) demo_disk "a/b" [demo_closed; demo_todo]).1 in
  let '(disk, r) := log_append demo_header_of_line demo_event_to_line demo_event_of_line log_steady crashed "a/b" [demo_todo] in
  r = Ok () /\ log_read_from demo_header_of_line demo_event_of_line log_steady disk "a/b" 0 = Err SE_Corrupt.
Proof. by vm_compute. Qed.
(** An append checks only where its batch starts: a batch with a hole inside is
    accepted, and the session cannot be read any more. *)
Example gapped_batch_example :
  let '(disk, r) := log_append demo_header_of_line demo_event_to_line demo_event_of_line log_steady demo_disk "a/b" [demo_closed; demo_open] in
  r = Ok () /\ log_read_from demo_header_of_line demo_event_of_line log_steady disk "a/b" 0 = Err (SE_Gap 0 2).
Proof. by vm_compute. Qed.
