(* ===== verification/WriteBehind.v ===== *)
(** The durable side of live sessions, [crates/dsh/session-persistence/src/lib.rs]:
    the backend seam, the batching controller of one session
    ([SessionWriteBehind]) and the listeners that wire every live session to
    the store ([install_write_behind]), under any interleaving of appends,
    timers, reconciliations and flushes.

    The backend is the class [SessionBackend], its contract [BackendLaws]; the
    JSONL store of [SessionLog] meets it. *)
From Stdlib Require Import ZArith Lia Ascii String Sorting.Sorted.
From stdpp Require Import base tactics numbers list strings sorting gmap.
From S2P Require Import Prelude Json Text Utf8 Llm SessionEvents Surface Session Repair PathSegment SessionLog.
Open Scope string_scope.
Open Scope nat_scope.
Open Scope list_scope.
Open Scope keel_scope.

(** * The seam *)

(** The operations the wiring uses; [false] and [None] are errors. *)
Class SessionBackend (W : Type) := {
  bk_create : W -> SessionHeader -> W * bool;
  bk_append : W -> SessionId -> list SessionEvent -> W * bool;
  bk_read : W -> SessionId -> option (list SessionEvent);
}.

Definition continues (log batch : list SessionEvent) : Prop :=
  match batch with first :: _ => ev_seq first = Z.of_nat (length log) | [] => True end.
(** An append that resolves is durable and continues the log; one that fails
    leaves a prefix of a batch that continues it, or nothing. *)
Definition append_contract (log batch log' : list SessionEvent) (ok : bool) : Prop :=
  if ok then continues log batch /\ log' = log ++ batch
  else log' = log \/ continues log batch /\ exists k, log' = log ++ take k batch.

Class BackendLaws (W : Type) `{SessionBackend W} := {
  bk_ok : W -> Prop;
  bk_id : SessionId -> Prop;
  bk_header : SessionHeader -> Prop;
  bk_storable : SessionEvent -> Prop;
  bk_view : W -> SessionId -> option (list SessionEvent);
  law_create w h w' ok : bk_ok w -> bk_id (sh_id h) -> bk_header h -> bk_create w h = (w', ok) ->
    bk_ok w' /\ (forall id, bk_id id -> id <> sh_id h -> bk_view w' id = bk_view w id)
    /\ (bk_view w' (sh_id h) = bk_view w (sh_id h) \/ bk_view w (sh_id h) = None /\ bk_view w' (sh_id h) = Some []);
  law_append w id batch w' ok : bk_ok w -> bk_id id -> batch <> [] -> Forall bk_storable batch -> (exists n, seqs_from n batch) ->
    bk_append w id batch = (w', ok) ->
    bk_ok w' /\ (forall id', bk_id id' -> id' <> id -> bk_view w' id' = bk_view w id')
    /\ match bk_view w id with
       | None => ok = false /\ bk_view w' id = None
       | Some log => exists log', bk_view w' id = Some log' /\ append_contract log batch log' ok
       end;
  law_read w id log : bk_ok w -> bk_id id -> bk_read w id = Some log -> bk_view w id = Some log;
}.

(** * The controller *)

(** The fields of [SessionWriteBehind], and the timer tasks of the runtime
    that still sleep. *)
Record WriteBehind := mk_wb {
  wb_pending : list SessionEvent;
  wb_writing : option nat;
  wb_timer_armed : bool;
  wb_durable_next : Z;
  wb_asleep : list nat;
  wb_next_task : nat;
}.
Definition wb_new : WriteBehind := mk_wb [] None false 0 [] 0.
Definition set_durable_next (seq : Z) (c : WriteBehind) : WriteBehind :=
  if (wb_durable_next c <? seq)%Z
  then mk_wb (wb_pending c) (wb_writing c) (wb_timer_armed c) seq (wb_asleep c) (wb_next_task c) else c.

Definition seq_leb (a b : SessionEvent) : bool := (ev_seq a <=? ev_seq b)%Z.
(** [dedup_by_key]: of a run of equal keys the first stays. *)
Fixpoint dedup_seq (last : option Z) (l : list SessionEvent) : list SessionEvent :=
  match l with
  | [] => []
  | e :: l => if bool_decide (last = Some (ev_seq e)) then dedup_seq last l else e :: dedup_seq (Some (ev_seq e)) l
  end.
(** The batch to write and the new watermark. *)
Definition prepare_batch (durable_next : Z) (batch : list SessionEvent) : option (list SessionEvent * Z) :=
  let batch := dedup_seq None (sort_by seq_leb batch) in
  let batch := base.filter (fun e => (durable_next <= ev_seq e)%Z) batch in
  match batch, last batch with
  | first :: _, Some final =>
      if (durable_next <? ev_seq first)%Z then None else Some (batch, u64_succ (ev_seq final))
  | _, _ => None
  end.
Definition has_work (c : WriteBehind) : bool := negb (bool_decide (wb_pending c = [])) || bool_decide (is_Some (wb_writing c)).

Definition enqueue (event : SessionEvent) (c : WriteBehind) : WriteBehind :=
  let pending := wb_pending c ++ [event] in
  if wb_timer_armed c then mk_wb pending (wb_writing c) true (wb_durable_next c) (wb_asleep c) (wb_next_task c)
  else mk_wb pending (Some (wb_next_task c)) true (wb_durable_next c) (wb_next_task c :: wb_asleep c) (S (wb_next_task c)).

(** The batch taken from the queue, with the timer disarmed. *)
Definition take_batch (c : WriteBehind) : WriteBehind * option (list SessionEvent) :=
  match prepare_batch (wb_durable_next c) (wb_pending c) with
  | None => (mk_wb [] (wb_writing c) false (wb_durable_next c) (wb_asleep c) (wb_next_task c), None)
  | Some (batch, next) => (mk_wb [] (wb_writing c) false next (wb_asleep c) (wb_next_task c), Some batch)
  end.
Definition wake_task (t : nat) (c : WriteBehind) : WriteBehind :=
  mk_wb (wb_pending c) (wb_writing c) (wb_timer_armed c) (wb_durable_next c) (base.filter (fun t' => t' <> t) (wb_asleep c)) (wb_next_task c).
(** The task that joins a finished flush clears whatever is registered. *)
Definition clear_writing (c : WriteBehind) : WriteBehind :=
  mk_wb (wb_pending c) None (wb_timer_armed c) (wb_durable_next c) (wb_asleep c) (wb_next_task c).

Section controller.
Context {W : Type} `{SessionBackend W}.

(** The write of a taken batch, if any. *)
Definition write_batch (w : W) (id : SessionId) (batch : option (list SessionEvent)) : W * bool :=
  match batch with None => (w, true) | Some batch => bk_append w id batch end.
(** A timer task wakes and flushes. *)
Definition fire (id : SessionId) (t : nat) (cw : WriteBehind * W) : (WriteBehind * W) * bool :=
  let '(c, batch) := take_batch (wake_task t cw.1) in
  let '(w, ok) := write_batch cw.2 id batch in ((c, w), ok).
(** [drain] after the join. *)
Definition drain_rest (id : SessionId) (cw : WriteBehind * W) : (WriteBehind * W) * bool :=
  let '(c, batch) := take_batch cw.1 in
  let '(w, ok) := write_batch cw.2 id batch in ((c, w), ok).
(** Whether the join of [drain] still waits: the registered flush sleeps. *)
Definition joining (c : WriteBehind) : option nat :=
  match wb_writing c with Some t => if decide (t ∈ wb_asleep c) then Some t else None | None => None end.
(** [drain], nothing else happening: the registered flush runs, whose error
    is only logged, then the rest is written. *)
Definition drain (id : SessionId) (cw : WriteBehind * W) : (WriteBehind * W) * bool :=
  drain_rest id (match joining cw.1 with Some t => (fire id t cw).1 | None => cw end).

(** * The wiring *)

(** The logs of the live sessions, the controllers, the store; and, for the
    statements, the sessions reconciled and those with a failed write. *)
Record WiredSessions := mk_system {
  sy_logs : gmap SessionId (list SessionEvent);
  sy_controllers : gmap SessionId WriteBehind;
  sy_store : W;
  sy_reconciled : gset SessionId;
  sy_failed : gset SessionId;
}.
Definition controller_for (id : SessionId) (s : WiredSessions) : WriteBehind := default wb_new (sy_controllers s !! id).
Definition put_controller (id : SessionId) (c : WriteBehind) (s : WiredSessions) : WiredSessions :=
  mk_system (sy_logs s) (<[id := c]> (sy_controllers s)) (sy_store s) (sy_reconciled s) (sy_failed s).
Definition put_flush (id : SessionId) (r : (WriteBehind * W) * bool) (s : WiredSessions) : WiredSessions :=
  mk_system (sy_logs s) (<[id := r.1.1]> (sy_controllers s)) r.1.2 (sy_reconciled s)
    (if r.2 then sy_failed s else {[id]} ∪ sy_failed s).

(** A session of the host enters the store of live sessions. *)
Definition enter_session (id : SessionId) (log : list SessionEvent) (s : WiredSessions) : WiredSessions :=
  mk_system (<[id := log]> (sy_logs s)) (sy_controllers s) (sy_store s) (sy_reconciled s) (sy_failed s).
(** [session/created], up to the registration: [None] when it fails. *)
Definition on_created (header : SessionHeader) (s : WiredSessions) : WiredSessions * bool :=
  let s := put_controller (sh_id header) (controller_for (sh_id header) s) s in
  let '(w, ok) := bk_create (sy_store s) header in
  (mk_system (sy_logs s) (sy_controllers s) w (sy_reconciled s) (sy_failed s), ok).
(** [session/created], the reconciliation of the durable tail. *)
Definition reconcile (id : SessionId) (s : WiredSessions) : WiredSessions :=
  match bk_read (sy_store s) id with
  | None => s
  | Some stored =>
      let events := drop (length stored) (default [] (sy_logs s !! id)) in
      let c := foldl (fun c e => enqueue e c) (set_durable_next (Z.of_nat (length stored)) (controller_for id s)) events in
      mk_system (sy_logs s) (<[id := c]> (sy_controllers s)) (sy_store s) ({[id]} ∪ sy_reconciled s) (sy_failed s)
  end.
(** A committed append and its [session/event]. *)
Definition on_event (id : SessionId) (event : SessionEvent) (s : WiredSessions) : WiredSessions :=
  let s := mk_system (<[id := default [] (sy_logs s !! id) ++ [event]]> (sy_logs s)) (sy_controllers s) (sy_store s) (sy_reconciled s) (sy_failed s) in
  put_controller id (enqueue event (controller_for id s)) s.
Definition on_timer (id : SessionId) (t : nat) (s : WiredSessions) : WiredSessions :=
  put_flush id (fire id t (controller_for id s, sy_store s)) s.
Definition on_joined (id : SessionId) (s : WiredSessions) : WiredSessions := put_controller id (clear_writing (controller_for id s)) s.
(** [session/flush], after the join. *)
Definition on_flush (id : SessionId) (s : WiredSessions) : WiredSessions :=
  put_flush id (drain_rest id (controller_for id s, sy_store s)) s.
End controller.
Arguments WiredSessions : clear implicits.

(** * Taking a batch *)

(** The queue holds exactly the events of the log from [a] on, in any order
    and with repetitions. *)
Definition queues (a : nat) (log pending : list SessionEvent) : Prop :=
  forall e, e ∈ pending <-> exists i, a <= i /\ log !! i = Some e.

Lemma numbered_drop n log : seqs_from 0 log -> seqs_from n (drop n log).
Proof. intros Hn i e Hi. rewrite lookup_drop in Hi. by apply Hn in Hi. Qed.
Definition seq_lt (a b : SessionEvent) : Prop := (ev_seq a < ev_seq b)%Z.
Lemma numbered_sorted n log : seqs_from n log -> StronglySorted seq_lt log.
Proof.
  revert n. induction log as [|e log IH]; intros n Hn; [constructor|]. apply seqs_from_cons in Hn as [He Hn]. constructor; [by eapply IH|].
  apply Forall_forall. intros x [i Hi]%list_elem_of_lookup. apply Hn in Hi. unfold seq_lt. lia.
Qed.
Lemma strict_nodup l : StronglySorted seq_lt l -> NoDup l.
Proof.
  induction 1 as [|e l _ IH He]; constructor; [|done]. intros Hin. eapply Forall_forall in He; [|exact Hin]. unfold seq_lt in He. lia.
Qed.
(** Deduplicating a sorted list: strictly sorted, the same keys. *)
Lemma dedup_sorted l : forall last, StronglySorted (fun a b => seq_leb a b = true) l ->
  (forall k, last = Some k -> Forall (fun e => (k <= ev_seq e)%Z) l) ->
  StronglySorted seq_lt (dedup_seq last l) /\ Forall (fun e => e ∈ l /\ forall k, last = Some k -> (k < ev_seq e)%Z) (dedup_seq last l)
  /\ (forall e, e ∈ l -> last = Some (ev_seq e) \/ exists e', e' ∈ dedup_seq last l /\ ev_seq e' = ev_seq e).
Proof.
  induction l as [|x l IH]; intros last Hs Hl; [split_and!; [constructor|constructor|by intros e He%elem_of_nil]|].
  apply StronglySorted_inv in Hs as [Hs Hx]. cbn [dedup_seq].
  assert (Hxs : Forall (fun e => (ev_seq x <= ev_seq e)%Z) l) by (eapply Forall_impl; [exact Hx|]; unfold seq_leb; intros; lia).
  case_bool_decide as E.
  - destruct (IH last Hs) as (H1 & H2 & H3). { intros k Hk. by apply Hl, Forall_cons in Hk as [_ ?]. }
    split_and!; [done|eapply Forall_impl; [exact H2|]; intros e [? ?]; split; [by right|done]|].
    intros e [->|He]%elem_of_cons; [by left|by apply H3].
  - destruct (IH (Some (ev_seq x)) Hs) as (H1 & H2 & H3). { by intros k [= <-]. }
    assert (Hlt : forall k, last = Some k -> (k < ev_seq x)%Z).
    { intros k ->. specialize (Hl k eq_refl). apply Forall_cons in Hl as [? _]. assert (k <> ev_seq x) by (intros ->; done). lia. }
    split_and!.
    + constructor; [done|]. eapply Forall_impl; [exact H2|]. intros e [_ He]. by apply He.
    + constructor; [split; [by left|done]|]. eapply Forall_impl; [exact H2|]. intros e [He1 He2]. split; [by right|].
      intros k Hk. specialize (Hlt k Hk). specialize (He2 _ eq_refl). lia.
    + intros e [->|He]%elem_of_cons; [right; exists x; split; [by left|done]|]. right. destruct (H3 e He) as [[= E']|(e' & He' & Hk)].
      * exists x. split; [by left|done].
      * exists e'. split; [by right|done].
Qed.

Lemma seq_leb_total a b : seq_leb a b = true \/ seq_leb b a = true.
Proof. unfold seq_leb. lia. Qed.
Lemma seq_leb_trans a b c : seq_leb a b = true -> seq_leb b c = true -> seq_leb a c = true.
Proof. unfold seq_leb. lia. Qed.

(** Sorting and deduplicating the queue gives back that stretch of the log. *)
Lemma queue_sorted a log pending : seqs_from 0 log -> queues a log pending ->
  dedup_seq None (sort_by seq_leb pending) = drop a log.
Proof.
  intros Hn Hq. pose proof (sort_by_permutation seq_leb pending) as Hp.
  destruct (dedup_sorted (sort_by seq_leb pending) None) as (H1 & H2 & H3);
    [apply sort_by_sorted; [apply seq_leb_total|apply seq_leb_trans]|done|].
  assert (Hlog : forall e e', e ∈ pending -> e' ∈ pending -> ev_seq e = ev_seq e' -> e = e').
  { intros e e' (i & _ & Hi)%Hq (j & _ & Hj)%Hq E. pose proof (Hn _ _ Hi). pose proof (Hn _ _ Hj). assert (i = j) as -> by lia. congruence. }
  assert (Hs : StronglySorted seq_lt (drop a log)) by (eapply numbered_sorted, numbered_drop, Hn).
  apply (StronglySorted_unique_strong seq_lt); [|exact H1|exact Hs|].
  { intros x y _ _ Hxy Hyx. unfold seq_lt in *. lia. }
  apply NoDup_Permutation; [by apply strict_nodup|by apply strict_nodup|]. intros e. split.
  - intros He. eapply Forall_forall in H2 as [H2 _]; [|exact He]. rewrite Hp in H2. apply Hq in H2 as (i & Hi & El).
    apply (list_elem_of_lookup_2 _ (i - a)). rewrite lookup_drop. by replace (a + (i - a)) with i by lia.
  - intros [i Hi]%list_elem_of_lookup. rewrite lookup_drop in Hi. assert (Hin : e ∈ pending) by (apply Hq; exists (a + i); split; [lia|done]).
    destruct (H3 e) as [|(e' & He' & Hk)]; [by rewrite Hp|done|]. eapply Forall_forall in H2 as [H2 _]; [|exact He']. rewrite Hp in H2.
    by rewrite (Hlog e e').
Qed.

(** The batch is the log from the watermark on, when the queue reaches it. *)
Lemma prepare_batch_spec a n log pending : seqs_from 0 log -> queues a log pending -> (Z.of_nat (length log) < u64_modulus)%Z -> n <= length log ->
  prepare_batch (Z.of_nat n) pending
  = if decide (a <= n /\ n < length log) then Some (drop n log, Z.of_nat (length log)) else None.
Proof.
  intros Hn Hq Hfit Hle. unfold prepare_batch. rewrite (queue_sorted a log) by done.
  rewrite (numbered_filter_drop n (drop a log) a) by (by apply numbered_drop). rewrite drop_drop.
  assert (Hfirst : forall k e l, drop k log = e :: l -> ev_seq e = Z.of_nat k).
  { intros k e l E. apply (Hn k e). by rewrite <- (Nat.add_0_r k), <- lookup_drop, E. }
  destruct (drop (a + (n - a)) log) as [|e l] eqn:E.
  { destruct (decide _) as [[H1 H2]|]; [|done]. apply (f_equal length) in E. rewrite length_drop in E. cbn in E. lia. }
  rewrite (Hfirst _ _ _ E). pose proof (f_equal length E) as Hlen. rewrite length_drop in Hlen. cbn [length] in Hlen.
  destruct (last (e :: l)) as [f|] eqn:El; [|by apply last_None in El].
  assert (Hf : ev_seq f = Z.of_nat (length log - 1)).
  { rewrite <- E, last_lookup, length_drop, lookup_drop in El. apply Hn in El. rewrite El. f_equal. lia. }
  destruct (decide (a <= n)) as [Ha|Ha].
  - replace (a + (n - a)) with n in * by lia. destruct (Z.ltb_spec (Z.of_nat n) (Z.of_nat n)) as [|_]; [lia|].
    rewrite decide_True by lia. rewrite E. do 2 f_equal. rewrite Hf. unfold u64_succ. rewrite u64_add_small; lia.
  - destruct (Z.ltb_spec (Z.of_nat n) (Z.of_nat (a + (n - a)))) as [_|]; [|lia]. by rewrite decide_False by lia.
Qed.

(** * The system *)

Section system.
Context {W : Type} `{BackendLaws W}.
#[local] Abbreviation WiredSessions := (WiredSessions W).

Definition log_fits (log : list SessionEvent) : Prop := (Z.of_nat (length log) < u64_modulus)%Z.
(** One step of the host or of the runtime.  A session enters with a
    contiguous log that extends what the store holds for it (nothing, for a new
    session; its loaded log, for a resumed one). *)
Inductive wb_step : WiredSessions -> WiredSessions -> Prop :=
| S_Enter id log s : bk_id id -> sy_logs s !! id = None -> seqs_from 0 log -> Forall bk_storable log -> log_fits log ->
    (forall stored, bk_view (sy_store s) id = Some stored -> stored `prefix_of` log) -> wb_step s (enter_session id log s)
| S_Created header log s : bk_id (sh_id header) -> bk_header header -> sy_logs s !! sh_id header = Some log -> wb_step s (on_created header s).1
| S_Reconcile id log s : sy_logs s !! id = Some log -> wb_step s (reconcile id s)
| S_Event id log event s : sy_logs s !! id = Some log -> ev_seq event = Z.of_nat (length log) -> bk_storable event -> log_fits (log ++ [event]) ->
    wb_step s (on_event id event s)
| S_Timer id log t s : sy_logs s !! id = Some log -> t ∈ wb_asleep (controller_for id s) -> wb_step s (on_timer id t s)
| S_Joined id log s : sy_logs s !! id = Some log -> wb_step s (on_joined id s)
| S_Flush id log s : sy_logs s !! id = Some log -> wb_step s (on_flush id s).

Definition boot (w : W) : WiredSessions := mk_system ∅ ∅ w ∅ ∅.
Inductive wb_reachable : WiredSessions -> Prop :=
| WR_Boot w : bk_ok w -> wb_reachable (boot w)
| WR_Step s s' : wb_reachable s -> wb_step s s' -> wb_reachable s'.

(** What holds of one session: [a] is where its queue starts, [n] its
    watermark. *)
Record session_ok (s : WiredSessions) (id : SessionId) (log : list SessionEvent) (a n : nat) : Prop := {
  so_id : bk_id id;
  so_numbered : seqs_from 0 log;
  so_storable : Forall bk_storable log;
  so_fits : log_fits log;
  so_next : wb_durable_next (controller_for id s) = Z.of_nat n;
  so_bound : n <= length log /\ a <= length log;
  so_queue : queues a log (wb_pending (controller_for id s));
  so_prefix stored : bk_view (sy_store s) id = Some stored -> stored `prefix_of` log;
  so_behind : id ∉ sy_failed s ->
    match bk_view (sy_store s) id with Some stored => n <= length stored | None => n = 0 end;
  so_reconciled : id ∈ sy_reconciled s -> exists stored, bk_view (sy_store s) id = Some stored
    /\ length stored <= n /\ (id ∉ sy_failed s -> a <= n);
}.
Definition unentered (s : WiredSessions) (id : SessionId) : Prop :=
  sy_controllers s !! id = None /\ id ∉ sy_reconciled s /\ id ∉ sy_failed s.
Definition sys_inv (s : WiredSessions) : Prop :=
  bk_ok (sy_store s)
  /\ forall id, bk_id id -> match sy_logs s !! id with Some log => exists a n, session_ok s id log a n | None => unentered s id end.

(** What a step on [id] leaves alone. *)
Definition same_session (s s' : WiredSessions) (id : SessionId) : Prop :=
  sy_logs s' !! id = sy_logs s !! id /\ sy_controllers s' !! id = sy_controllers s !! id
  /\ bk_view (sy_store s') id = bk_view (sy_store s) id
  /\ (id ∈ sy_reconciled s' <-> id ∈ sy_reconciled s) /\ (id ∈ sy_failed s' <-> id ∈ sy_failed s).
Lemma same_session_ok s s' id log a n : same_session s s' id -> session_ok s id log a n -> session_ok s' id log a n.
Proof.
  intros (El & Ec & Ev & Er & Ef) [H1 H2 H3 H4 H5 H6 H7 H8 H9 H10].
  assert (Hc : controller_for id s' = controller_for id s) by (unfold controller_for; by rewrite Ec).
  split; rewrite ?Hc, ?Ev; try done; [intros Hf; apply H9; naive_solver|intros Hr; destruct H10 as (st & ? & ? & ?); [by apply Er|]].
  exists st. naive_solver.
Qed.
(** A step that changes one session only. *)
Lemma inv_one s s' id : sys_inv s -> bk_ok (sy_store s') -> (forall id', bk_id id' -> id' <> id -> same_session s s' id') ->
  (bk_id id -> match sy_logs s' !! id with Some log => exists a n, session_ok s' id log a n | None => unentered s' id end) -> sys_inv s'.
Proof.
  intros [_ Hi] Hok Hsame Hid. split; [done|]. intros id' Hb. destruct (decide (id' = id)) as [->|Hne]; [by apply Hid|].
  specialize (Hi id' Hb). pose proof (Hsame id' Hb Hne) as Hss. pose proof Hss as (-> & Ec & _ & Er & Ef). destruct (sy_logs s !! id') as [log|].
  - destruct Hi as (a & n & Hso). exists a, n. by eapply same_session_ok.
  - destruct Hi as (? & ? & ?). unfold unentered. rewrite Ec. naive_solver.
Qed.
Lemma inv_session s id log : sys_inv s -> bk_id id -> sy_logs s !! id = Some log -> exists a n, session_ok s id log a n.
Proof. intros [_ Hi] Hb E. specialize (Hi id Hb). by rewrite E in Hi. Qed.

Lemma queues_empty log : queues (length log) log [].
Proof.
  intros e. split; [by intros He%elem_of_nil|]. intros (i & Hi & E%lookup_lt_Some). lia.
Qed.
Lemma queues_snoc a log pending e : a <= length log -> queues a log pending -> queues a (log ++ [e]) (pending ++ [e]).
Proof.
  intros Ha Hq x. rewrite elem_of_app, list_elem_of_singleton, (Hq x). split.
  - intros [(i & Hi & E)| ->]; [exists i; split; [done|]; by apply lookup_app_l_Some|]. exists (length log). split; [done|]. by rewrite lookup_app_r, Nat.sub_diag by lia.
  - intros (i & Hi & E). apply lookup_app_Some in E as [E|[Hl E]]; [left; by exists i|]. right. destruct (i - length log); [by injection E|done].
Qed.
Lemma enqueue_pending e c : wb_pending (enqueue e c) = wb_pending c ++ [e] /\ wb_durable_next (enqueue e c) = wb_durable_next c.
Proof. unfold enqueue. by destruct (wb_timer_armed c). Qed.
Lemma enqueue_all l c : let c' := foldl (fun c e => enqueue e c) c l in wb_pending c' = wb_pending c ++ l /\ wb_durable_next c' = wb_durable_next c.
Proof.
  revert c. induction l as [|e l IH]; intros c; [cbn; by rewrite app_nil_r|]. cbn [foldl]. destruct (IH (enqueue e c)) as [-> ->].
  destruct (enqueue_pending e c) as [-> ->]. by rewrite <- app_assoc.
Qed.
Lemma queues_join a b log pending : queues a log pending -> queues (a `min` b) log (pending ++ drop b log).
Proof.
  intros Hq e. rewrite elem_of_app, (Hq e). split.
  - intros [(i & Hi & E)|[i E]%list_elem_of_lookup]; [exists i; split; [lia|done]|]. rewrite lookup_drop in E. exists (b + i). split; [lia|done].
  - intros (i & Hi & E). destruct (decide (a <= i)); [left; by exists i|]. right. apply (list_elem_of_lookup_2 _ (i - b)). rewrite lookup_drop.
    by replace (b + (i - b)) with i by lia.
Qed.

(** ** A flush *)

Lemma prefix_drop_id (stored log : list SessionEvent) : stored `prefix_of` log -> stored ++ drop (length stored) log = log.
Proof. intros [k ->]. by rewrite drop_app_length. Qed.
Lemma prefix_take k (stored log : list SessionEvent) : stored `prefix_of` log -> stored ++ take k (drop (length stored) log) `prefix_of` log.
Proof. intros [l ->]. rewrite drop_app_length. apply prefix_app. exists (drop k l). by rewrite take_drop. Qed.
Lemma continues_drop n log stored : seqs_from 0 log -> n < length log -> continues stored (drop n log) -> length stored = n.
Proof.
  intros Hn Hlt Hc. destruct (drop n log) as [|e l] eqn:E; [apply (f_equal length) in E; rewrite length_drop in E; cbn in E; lia|].
  assert (Hl : log !! n = Some e) by (rewrite <- (Nat.add_0_r n), <- lookup_drop, E; done). apply Hn in Hl. cbn in Hc. lia.
Qed.
Lemma drop_batch n log : seqs_from 0 log -> Forall bk_storable log -> n < length log ->
  drop n log <> [] /\ Forall bk_storable (drop n log) /\ exists k, seqs_from k (drop n log).
Proof.
  intros Hn Hs Hlt. split_and!; [intros E; apply (f_equal length) in E; rewrite length_drop in E; cbn in E; lia|by apply Forall_drop|exists n; by apply numbered_drop].
Qed.

(** The store after a write of what the watermark lets through. *)
Lemma write_ok w id log n w' ok : bk_ok w -> bk_id id -> seqs_from 0 log -> Forall bk_storable log -> n < length log ->
  (forall stored, bk_view w id = Some stored -> stored `prefix_of` log) -> bk_append w id (drop n log) = (w', ok) ->
  bk_ok w' /\ (forall id', bk_id id' -> id' <> id -> bk_view w' id' = bk_view w id')
  /\ match bk_view w id with
     | None => ok = false /\ bk_view w' id = None
     | Some stored => exists stored', bk_view w' id = Some stored' /\ stored' `prefix_of` log
         /\ (if ok then stored' = log else length stored <> n -> stored' = stored)
     end.
Proof.
  intros Hok Hid Hn Hst Hlt Hpre E. destruct (drop_batch n log Hn Hst Hlt) as (H1 & H2 & H3).
  destruct (law_append w id (drop n log) w' ok Hok Hid H1 H2 H3 E) as (Hok' & Hframe & Hv). split_and!; [done|done|].
  destruct (bk_view w id) as [stored|]; [|done]. destruct Hv as (stored' & -> & Hc). exists stored'. split; [done|]. specialize (Hpre stored eq_refl).
  destruct ok; cbn [append_contract] in Hc.
  - destruct Hc as [Hc%continues_drop ->]; [|done..]. subst n. by rewrite prefix_drop_id.
  - destruct Hc as [->|[Hc%continues_drop [k ->]]]; [done| |done..]. subst n. split; [by apply prefix_take|done].
Qed.

Lemma take_batch_spec s id log a n c : session_ok s id log a n ->
  wb_pending c = wb_pending (controller_for id s) -> wb_durable_next c = wb_durable_next (controller_for id s) ->
  (take_batch c).2 = (if decide (a <= n /\ n < length log) then Some (drop n log) else None)
  /\ wb_pending (take_batch c).1 = []
  /\ wb_durable_next (take_batch c).1 = if decide (a <= n /\ n < length log) then Z.of_nat (length log) else Z.of_nat n.
Proof.
  intros Hso Hp Hd. unfold take_batch. rewrite Hp, Hd, (so_next _ _ _ _ _ Hso).
  rewrite (prepare_batch_spec a n log) by (apply Hso). by destruct (decide _).
Qed.

Lemma flush_spec s id log a n c : sys_inv s -> bk_id id -> sy_logs s !! id = Some log -> session_ok s id log a n ->
  wb_pending c = wb_pending (controller_for id s) -> wb_durable_next c = wb_durable_next (controller_for id s) ->
  let s' := put_flush id (let '(c, batch) := take_batch c in let '(w, ok) := write_batch (sy_store s) id batch in ((c, w), ok)) s in
  sys_inv s' /\ (forall id', bk_id id' -> id' <> id -> same_session s s' id')
  /\ (exists n', session_ok s' id log (length log) n')
  /\ (forall stored, id ∈ sy_reconciled s -> bk_view (sy_store s) id = Some stored -> length stored <> n -> bk_view (sy_store s') id = Some stored).
Proof.
  intros Hinv Hid El Hso Hp Hd s'. destruct (take_batch_spec s id log a n c Hso Hp Hd) as (Eb & Ep & En).
  destruct (take_batch c) as [c' batch]. cbn [fst snd] in *. pose proof Hinv as [Hok _].
  assert (Hkey : bk_ok (sy_store s') /\ (forall id', bk_id id' -> id' <> id -> same_session s s' id')
     /\ (exists n', session_ok s' id log (length log) n')
     /\ forall stored, id ∈ sy_reconciled s -> bk_view (sy_store s) id = Some stored -> length stored <> n -> bk_view (sy_store s') id = Some stored).
  2: { destruct Hkey as (H1 & H2 & [n' H3] & H4). split_and!; [|done|by exists n'|done]. apply (inv_one s s' id); [done..|]. intros _.
    assert (sy_logs s' = sy_logs s) as -> by (subst s'; by destruct (write_batch _ _ _)). rewrite El. by eexists _, _. }
  destruct Hso as [H1 H2 H3 H4 H5 [H6 H6'] H7 H8 H9 H10]. destruct (decide (a <= n /\ n < length log)) as [[Ha Hn]|Hno]; subst batch; cbn [write_batch] in s'.
  - destruct (bk_append (sy_store s) id (drop n log)) as [w' ok] eqn:Ew.
    destruct (write_ok (sy_store s) id log n w' ok Hok Hid H2 H3 Hn H8 Ew) as (Hok' & Hframe & Hv). split_and!.
    + done.
    + intros id' Hid' Hne. unfold same_session, s', put_flush. cbn. rewrite lookup_insert_ne by done. split_and!; try done; [by apply Hframe|]. destruct ok; [done|set_solver].
    + exists (length log). assert (Hc : controller_for id s' = c') by (unfold controller_for, s', put_flush; cbn; by rewrite lookup_insert_eq).
      split; rewrite ?Hc; try done.
      * rewrite Ep. apply queues_empty.
      * intros stored Es. subst s'. cbn in Es. destruct (bk_view (sy_store s) id) as [st|]; [|destruct Hv; congruence].
        destruct Hv as (st' & Est & ? & _). congruence.
      * intros Hf. subst s'. cbn in *. destruct ok; [|set_solver]. destruct (bk_view (sy_store s) id) as [st|]; [|by destruct Hv].
        destruct Hv as (st' & -> & ? & ->). done.
      * intros Hr. subst s'. cbn in *. destruct (H10 Hr) as (st & Est & Hle & Hcl). rewrite Est in Hv. destruct Hv as (st' & -> & Hpre & _).
        exists st'. split_and!; [done| |done]. by apply prefix_length.
    + intros stored Hr Es Hne. rewrite Es in Hv. destruct Hv as (st' & Est' & _ & Hst'). subst s'. cbn. rewrite Est'. destruct ok; [|by rewrite Hst'].
      exfalso. destruct (drop_batch n log H2 H3 Hn) as (G1 & G2 & G3).
      destruct (law_append _ _ _ _ _ Hok Hid G1 G2 G3 Ew) as (_ & _ & Hl). rewrite Es in Hl. destruct Hl as (l' & _ & Hc & _).
      by apply Hne, (continues_drop n log).
  - split_and!.
    + done.
    + intros id' Hid' Hne. unfold same_session, s', put_flush. cbn. by rewrite lookup_insert_ne by done.
    + exists n. assert (Hc : controller_for id s' = c') by (unfold controller_for, s', put_flush; cbn; by rewrite lookup_insert_eq).
      split; rewrite ?Hc; try done.
      * rewrite Ep. apply queues_empty.
      * intros Hr. destruct (H10 Hr) as (st & Est & Hle & Hcl). exists st. split_and!; [done|done|]. intros Hf. specialize (Hcl Hf). lia.
    + done.
Qed.

(** ** Every step *)

Lemma on_timer_flush id t s : on_timer id t s
  = put_flush id (let '(c, batch) := take_batch (wake_task t (controller_for id s)) in let '(w, ok) := write_batch (sy_store s) id batch in ((c, w), ok)) s.
Proof. done. Qed.
Lemma on_flush_flush id s : on_flush id s
  = put_flush id (let '(c, batch) := take_batch (controller_for id s) in let '(w, ok) := write_batch (sy_store s) id batch in ((c, w), ok)) s.
Proof. done. Qed.

Lemma controller_put id c logs m (w : W) r f : controller_for id (mk_system logs (<[id := c]> m) w r f) = c.
Proof. unfold controller_for. cbn. by rewrite lookup_insert_eq. Qed.

(** The host only enters and steps sessions with proper ids. *)
Definition ids_ok (s : WiredSessions) : Prop := forall id log, sy_logs s !! id = Some log -> bk_id id.

Lemma enter_inv s id log : sys_inv s -> bk_id id -> sy_logs s !! id = None -> seqs_from 0 log -> Forall bk_storable log -> log_fits log ->
  (forall stored, bk_view (sy_store s) id = Some stored -> stored `prefix_of` log) -> sys_inv (enter_session id log s).
Proof.
  intros Hinv Hid El Hn Hst Hfit Hpre. apply (inv_one s _ id Hinv); [apply Hinv|..].
  - intros id' _ Hne. unfold same_session. cbn. by rewrite lookup_insert_ne.
  - intros _. cbn. rewrite lookup_insert_eq. destruct Hinv as [_ Hi]. specialize (Hi id Hid). rewrite El in Hi. destruct Hi as (Ec & Hr & Hf).
    exists (length log), 0. split; try done; unfold controller_for; cbn; rewrite ?Ec; cbn; try done; [lia|apply queues_empty|].
    intros _. destruct (bk_view (sy_store s) id) as [st|]; [lia|done].
Qed.
Lemma created_inv s header log : sys_inv s -> bk_id (sh_id header) -> bk_header header -> sy_logs s !! sh_id header = Some log -> sys_inv (on_created header s).1.
Proof.
  intros Hinv Hid Hh El. unfold on_created. cbn. destruct (bk_create (sy_store s) header) as [w ok] eqn:Ew. cbn.
  destruct (law_create _ _ _ _ (proj1 Hinv) Hid Hh Ew) as (Hok & Hframe & Hv). apply (inv_one s _ (sh_id header) Hinv); [done|..].
  - intros id' Hid' Hne. unfold same_session. cbn. rewrite lookup_insert_ne by done. split_and!; try done. by apply Hframe.
  - intros _. cbn. rewrite El. destruct (inv_session s _ log Hinv Hid El) as (a & n & [H1 H2 H3 H4 H5 H6 H7 H8 H9 H10]). exists a, n.
    destruct Hv as [Hv|[Hv0 Hv]]; split; rewrite ?controller_put; cbn [sy_store sy_failed sy_reconciled]; rewrite ?Hv; try done.
    + intros st [= <-]. apply prefix_nil.
    + intros Hf. specialize (H9 Hf). rewrite Hv0 in H9. by rewrite H9.
    + intros Hr. destruct (H10 Hr) as (st & Est & _). by rewrite Hv0 in Est.
Qed.
Lemma reconcile_inv s id log : sys_inv s -> bk_id id -> sy_logs s !! id = Some log -> sys_inv (reconcile id s).
Proof.
  intros Hinv Hid El. unfold reconcile. destruct (bk_read (sy_store s) id) as [st|] eqn:Er; [|done]. pose proof Hinv as [Hok _].
  pose proof (law_read _ _ _ Hok Hid Er) as Hv. destruct (inv_session s _ log Hinv Hid El) as (a & n & [H1 H2 H3 H4 H5 [H6 H6'] H7 H8 H9 H10]).
  rewrite El. cbn [default]. pose proof (prefix_length _ _ (H8 st Hv)) as Hlen. rewrite Hv in H9.
  set (c0 := set_durable_next (Z.of_nat (length st)) (controller_for id s)).
  assert (Hc0 : wb_pending c0 = wb_pending (controller_for id s) /\ wb_durable_next c0 = Z.of_nat (n `max` length st)).
  { subst c0. unfold set_durable_next. rewrite H5. destruct (Z.ltb_spec (Z.of_nat n) (Z.of_nat (length st))); cbn; split; try done; [lia|]. rewrite H5. lia. }
  apply (inv_one s _ id Hinv); [done|..].
  - intros id' _ Hne. unfold same_session. cbn. rewrite lookup_insert_ne by done. split_and!; try done. set_solver.
  - intros _. cbn. rewrite El. exists (a `min` length st), (n `max` length st).
    destruct (enqueue_all (drop (length st) log) c0) as [Ep En]. destruct Hc0 as [Hc0 Hc1]. rewrite Hc0 in Ep. rewrite Hc1 in En.
    split; rewrite ?controller_put; cbn [sy_store sy_failed sy_reconciled]; try done.
    + split; lia.
    + change (Datatypes.id log) with log. rewrite Ep. by apply queues_join.
    + intros Hf. rewrite Hv. specialize (H9 Hf). lia.
    + intros _. exists st. split_and!; [done|lia|]. intros Hf. specialize (H9 Hf). lia.
Qed.
Lemma event_inv s id log event : sys_inv s -> bk_id id -> sy_logs s !! id = Some log -> ev_seq event = Z.of_nat (length log) -> bk_storable event ->
  log_fits (log ++ [event]) -> sys_inv (on_event id event s).
Proof.
  intros Hinv Hid El He Hst Hfit. unfold on_event, put_controller. cbn. rewrite El. cbn [default from_option]. change (Datatypes.id log) with log.
  apply (inv_one s _ id Hinv); [apply Hinv|..].
  - intros id' _ Hne. unfold same_session. cbn. by rewrite !lookup_insert_ne by done.
  - intros _. cbn. rewrite lookup_insert_eq. destruct (inv_session s _ log Hinv Hid El) as (a & n & [H1 H2 H3 H4 H5 [H6 H6'] H7 H8 H9 H10]). exists a, n.
    match goal with |- context [enqueue event ?c] => assert (Hc : c = controller_for id s) by done; rewrite Hc; clear Hc end.
    destruct (enqueue_pending event (controller_for id s)) as [Ep En].
    split; rewrite ?controller_put; cbn [sy_store sy_failed sy_reconciled]; try done.
    + apply seqs_from_app. split; [done|]. apply seqs_from_cons. split; [done|]. by intros i x Hi.
    + apply Forall_app. by repeat constructor.
    + cbn. by rewrite En.
    + rewrite length_app. cbn. lia.
    + cbn. rewrite Ep. by apply queues_snoc.
    + intros st Es. specialize (H8 st Es). by apply prefix_app_r.
Qed.
Lemma joined_inv s id log : sys_inv s -> bk_id id -> sy_logs s !! id = Some log -> sys_inv (on_joined id s).
Proof.
  intros Hinv Hid El. unfold on_joined, put_controller. apply (inv_one s _ id Hinv); [apply Hinv|..].
  - intros id' _ Hne. unfold same_session. cbn. by rewrite lookup_insert_ne by done.
  - intros _. cbn. rewrite El. destruct (inv_session s _ log Hinv Hid El) as (a & n & [H1 H2 H3 H4 H5 H6 H7 H8 H9 H10]). exists a, n.
    by split; rewrite ?controller_put.
Qed.
Lemma flush_inv s id log c : sys_inv s -> bk_id id -> sy_logs s !! id = Some log ->
  wb_pending c = wb_pending (controller_for id s) -> wb_durable_next c = wb_durable_next (controller_for id s) ->
  sys_inv (put_flush id (let '(c, batch) := take_batch c in let '(w, ok) := write_batch (sy_store s) id batch in ((c, w), ok)) s).
Proof.
  intros Hinv Hid El Hp Hd. destruct (inv_session s _ log Hinv Hid El) as (a & n & Hso). by destruct (flush_spec s id log a n c Hinv Hid El Hso Hp Hd) as [? _].
Qed.

Lemma wb_step_inv s s' : sys_inv s -> ids_ok s -> wb_step s s' -> sys_inv s' /\ ids_ok s'.
Proof.
  intros Hinv Hids Hstep.
  destruct Hstep as [id log s Hid El Hn Hst Hfit Hpre|header log s Hid Hh El|id log s El|id log event s El He Hst Hfit|id log t s El Ht|id log s El|id log s El].
  - split; [by apply enter_inv|]. intros id' l Hl. cbn in Hl. destruct (decide (id' = id)) as [->|Hne]; [done|]. rewrite lookup_insert_ne in Hl by done. by eapply Hids.
  - split; [by eapply created_inv|]. intros id' l Hl. unfold on_created in Hl. cbn in Hl. destruct (bk_create _ _); cbn in Hl. by eapply Hids.
  - split; [eapply reconcile_inv; eauto|]. intros id' l Hl. unfold reconcile in Hl. destruct (bk_read _ _); cbn in Hl; by eapply Hids.
  - split; [eapply event_inv; eauto|]. intros id' l Hl. cbn in Hl. destruct (decide (id' = id)) as [->|Hne]; [by eapply Hids|]. rewrite lookup_insert_ne in Hl by done. by eapply Hids.
  - split; [rewrite on_timer_flush; eapply flush_inv; eauto|]. intros id' l Hl. change (sy_logs s !! id' = Some l) in Hl. by eapply Hids.
  - split; [eapply joined_inv; eauto|]. intros id' l Hl. cbn in Hl. by eapply Hids.
  - split; [rewrite on_flush_flush; eapply flush_inv; eauto|]. intros id' l Hl. change (sy_logs s !! id' = Some l) in Hl. by eapply Hids.
Qed.
Lemma reachable_sys_inv s : wb_reachable s -> sys_inv s /\ ids_ok s.
Proof.
  induction 1 as [w Hw|s s' _ [IH1 IH2] Hstep]; [|by eapply wb_step_inv]. split; [split; [done|]|intros id l Hl; cbn in Hl; by rewrite lookup_empty in Hl].
  intros id Hid. cbn. rewrite lookup_empty. unfold unentered, boot. cbn. rewrite lookup_empty. set_solver.
Qed.

(** C10. What is durable is always a prefix of what the session logged: under
    any interleaving of appends, timers, late reconciliations, joins and
    flushes of any number of sessions, and whatever writes fail, the stored
    log of a live session is a prefix of its log.  And a flush is a
    checkpoint: once the session is reconciled and as long as none of its
    writes failed, the store holds the whole log after it. *)
Theorem durable_log_is_prefix s id log : wb_reachable s -> sy_logs s !! id = Some log ->
  (forall stored, bk_view (sy_store s) id = Some stored -> stored `prefix_of` log)
  /\ (id ∈ sy_reconciled s -> id ∉ sy_failed (on_flush id s) -> bk_view (sy_store (on_flush id s)) id = Some log).
Proof.
  intros [Hinv Hids]%reachable_sys_inv El. pose proof (Hids _ _ El) as Hid. destruct (inv_session s _ log Hinv Hid El) as (a & n & Hso). split; [apply Hso|].
  intros Hr Hf. destruct (flush_spec s id log a n (controller_for id s) Hinv Hid El Hso eq_refl eq_refl) as (_ & _ & [n' Hso'] & _).
  rewrite <- on_flush_flush in Hso'. destruct Hso' as [_ _ _ _ _ [Hb _] _ Hpre Hbeh Hrec].
  assert (Hr' : id ∈ sy_reconciled (on_flush id s)) by (rewrite on_flush_flush; done).
  destruct (Hrec Hr') as (st & Est & Hle & Hcl). specialize (Hcl Hf). specialize (Hbeh Hf). rewrite Est in Hbeh |- *. f_equal.
  destruct (Hpre st Est) as [rest ->]. rewrite length_app in *. assert (length rest = 0) as ->%length_zero_iff_nil by lia. by rewrite app_nil_r.
Qed.

(** ** A lost batch *)

(** The watermark has passed events the store never got. *)
Record lost (s : WiredSessions) (id : SessionId) (stored : list SessionEvent) : Prop := {
  lo_live : is_Some (sy_logs s !! id);
  lo_reconciled : id ∈ sy_reconciled s;
  lo_stored : bk_view (sy_store s) id = Some stored;
  lo_behind : (Z.of_nat (length stored) < wb_durable_next (controller_for id s))%Z;
}.
Lemma lost_same s s' id stored : same_session s s' id -> lost s id stored -> lost s' id stored.
Proof.
  intros (E1 & E2 & E3 & E4 & E5) [H1 H2 H3 H4]. split; [by rewrite E1|by apply E4|by rewrite E3|]. unfold controller_for in *. by rewrite E2.
Qed.
Lemma lost_flush s id log stored c : sys_inv s -> bk_id id -> sy_logs s !! id = Some log -> lost s id stored ->
  wb_pending c = wb_pending (controller_for id s) -> wb_durable_next c = wb_durable_next (controller_for id s) ->
  lost (put_flush id (let '(c, batch) := take_batch c in let '(w, ok) := write_batch (sy_store s) id batch in ((c, w), ok)) s) id stored.
Proof.
  intros Hinv Hid El [H1 H2 H3 H4] Hp Hd. destruct (inv_session s _ log Hinv Hid El) as (a & n & Hso).
  destruct (flush_spec s id log a n c Hinv Hid El Hso Hp Hd) as (_ & _ & _ & Hkeep). rewrite (so_next _ _ _ _ _ Hso) in H4.
  split; [by exists log|done|apply Hkeep; [done|done|lia]|]. destruct (take_batch_spec s id log a n c Hso Hp Hd) as (_ & _ & En).
  destruct (take_batch c) as [c' batch]. destruct (write_batch (sy_store s) id batch) as [w ok]. unfold put_flush. rewrite controller_put. cbn in *.
  rewrite En. destruct (so_bound _ _ _ _ _ Hso). destruct (decide _); lia.
Qed.
Lemma lost_step s s' id stored : sys_inv s -> ids_ok s -> lost s id stored -> wb_step s s' -> lost s' id stored.
Proof.
  intros Hinv Hids Hlo Hstep. destruct Hlo as [[log0 El0] H2 H3 H4] eqn:Elo. clear Elo. pose proof (Hids _ _ El0) as Hid0.
  destruct Hstep as [id' log s Hid El Hn Hst Hfit Hpre|header log s Hid Hh El|id' log s El|id' log event s El He Hst Hfit|id' log t s El Ht|id' log s El|id' log s El].
  - assert (id <> id') by (intros ->; congruence). eapply lost_same; [|exact Hlo]. unfold same_session. cbn. by rewrite lookup_insert_ne by done.
  - unfold on_created. cbn. destruct (bk_create (sy_store s) header) as [w ok] eqn:Ew. cbn.
    destruct (law_create _ _ _ _ (proj1 Hinv) Hid Hh Ew) as (Hok & Hframe & Hv). destruct (decide (id = sh_id header)) as [->|Hne].
    + split; cbn; [by rewrite El|done| |by rewrite controller_put]. destruct Hv as [->|[Hv _]]; [done|congruence].
    + eapply lost_same; [|exact Hlo]. unfold same_session. cbn. rewrite lookup_insert_ne by done. split_and!; try done. by apply Hframe.
  - unfold reconcile. destruct (bk_read (sy_store s) id') as [st|] eqn:Er; [|done]. destruct (decide (id = id')) as [->|Hne].
    + pose proof (law_read _ _ _ (proj1 Hinv) Hid0 Er) as Hv. assert (st = stored) as -> by congruence.
      split; cbn; [by rewrite El|set_solver|done|]. rewrite controller_put. destruct (enqueue_all (drop (length stored) (default [] (sy_logs s !! id'))) (set_durable_next (Z.of_nat (length stored)) (controller_for id' s))) as [_ ->].
      unfold set_durable_next. destruct (Z.ltb_spec (wb_durable_next (controller_for id' s)) (Z.of_nat (length stored))); [lia|done].
    + eapply lost_same; [|exact Hlo]. unfold same_session. cbn. rewrite lookup_insert_ne by done. split_and!; try done. set_solver.
  - destruct (decide (id = id')) as [->|Hne].
    + unfold on_event, put_controller. cbn. split; cbn; [by rewrite lookup_insert_eq|done|done|]. rewrite controller_put, (proj2 (enqueue_pending _ _)). exact H4.
    + eapply lost_same; [|exact Hlo]. unfold same_session. cbn. by rewrite !lookup_insert_ne by done.
  - rewrite on_timer_flush. destruct (decide (id = id')) as [->|Hne]; [by apply (lost_flush s id' log)|].
    pose proof (Hids _ _ El) as Hid. destruct (inv_session s _ log Hinv Hid El) as (a & n & Hso).
    eapply lost_same; [|exact Hlo]. by apply (flush_spec s id' log a n).
  - destruct (decide (id = id')) as [->|Hne].
    + unfold on_joined, put_controller. split; cbn; [by rewrite El|done|done|]. by rewrite controller_put.
    + eapply lost_same; [|exact Hlo]. unfold same_session. cbn. by rewrite lookup_insert_ne by done.
  - rewrite on_flush_flush. destruct (decide (id = id')) as [->|Hne]; [by apply (lost_flush s id' log)|].
    pose proof (Hids _ _ El) as Hid. destruct (inv_session s _ log Hinv Hid El) as (a & n & Hso).
    eapply lost_same; [|exact Hlo]. by apply (flush_spec s id' log a n).
Qed.
(** A failed write is final: the watermark has passed the lost events, and
    the store refuses every later batch of that session. *)
Lemma lost_batch_stops_the_log s s' id stored : wb_reachable s -> rtc wb_step s s' -> lost s id stored -> lost s' id stored.
Proof.
  intros Hreach Hrtc. revert Hreach. induction Hrtc as [s|s s1 s' Hstep _ IH]; [done|]. intros Hreach Hlo.
  destruct (reachable_sys_inv s Hreach) as [Hinv Hids]. apply IH; [by eapply WR_Step|]. by apply (lost_step s s1).
Qed.
End system.

(** * The JSONL store is such a backend *)

Section jsonl.
Context (header_to_line : HeaderLine -> option string) (header_of_line : string -> option HeaderLine).
Context (event_to_line : SessionEvent -> option string) (event_of_line : string -> option SessionEvent).
#[local] Abbreviation stores := (stores header_to_line header_of_line event_to_line event_of_line).
#[local] Abbreviation log_op_fair := (log_op_fair header_to_line header_of_line event_to_line event_of_line).

Definition jsonl_read (disk : Disk) (id : SessionId) : option (list SessionEvent) :=
  match log_read_from header_of_line event_of_line log_steady disk id 0 with Ok (_, log) => Some log | Err _ => None end.
Definition jsonl_backend : SessionBackend Disk := {|
  bk_create disk header := let '(disk, r) := log_create header_to_line log_steady disk header in (disk, is_ok r);
  bk_append disk id events := let '(disk, r) := log_append header_of_line event_to_line event_of_line log_steady disk id events in (disk, is_ok r);
  bk_read := jsonl_read;
|}.

Lemma jsonl_read_stores disk logs id : stores disk logs -> good_id id -> jsonl_read disk id = snd <$> logs !! id.
Proof.
  intros Hs Hid. pose proof (op_refines _ _ _ _ disk logs (LO_ReadFrom id 0) Hs (conj Hid (Z.le_refl 0))) as [E _]. cbn [run_log_op spec_op] in E.
  injection E as E. unfold jsonl_read. rewrite E. by destruct (logs !! id) as [[h log]|].
Qed.
Lemma jsonl_law_create disk header disk' ok : (exists logs, stores disk logs) -> good_id (sh_id header) ->
  (exists hl, good_header header_to_line header_of_line header hl) -> @bk_create _ jsonl_backend disk header = (disk', ok) ->
  (exists logs, stores disk' logs) /\ (forall id, good_id id -> id <> sh_id header -> jsonl_read disk' id = jsonl_read disk id)
  /\ (jsonl_read disk' (sh_id header) = jsonl_read disk (sh_id header)
      \/ jsonl_read disk (sh_id header) = None /\ jsonl_read disk' (sh_id header) = Some []).
Proof.
  intros [logs Hs] Hid Hh E. pose proof (create_refines _ _ _ _ disk logs header Hs (conj Hid Hh)) as H. cbn [run_log_op spec_op bk_create jsonl_backend] in *.
  destruct (log_create _ _ disk header) as [d r]. injection E as <- <-. destruct H as [_ Hs']. split; [by eexists|].
  assert (Hr : forall id, good_id id -> jsonl_read d id = snd <$> (match logs !! sh_id header with Some _ => logs | None => <[sh_id header:=(header, [])]> logs end) !! id)
    by (intros; by apply jsonl_read_stores).
  split.
  - intros id Hg Hne. rewrite Hr, (jsonl_read_stores disk logs) by done. destruct (logs !! sh_id header); [done|]. by rewrite lookup_insert_ne.
  - rewrite Hr, (jsonl_read_stores disk logs) by done. destruct (logs !! sh_id header) as [[h log]|] eqn:El; [left; by rewrite El|]. right. by rewrite lookup_insert_eq.
Qed.
Lemma jsonl_law_append disk id batch disk' ok : (exists logs, stores disk logs) -> good_id id -> batch <> [] ->
  Forall (storable_event event_to_line event_of_line) batch -> (exists n, seqs_from n batch) -> @bk_append _ jsonl_backend disk id batch = (disk', ok) ->
  (exists logs, stores disk' logs) /\ (forall id', good_id id' -> id' <> id -> jsonl_read disk' id' = jsonl_read disk id')
  /\ match jsonl_read disk id with
     | None => ok = false /\ jsonl_read disk' id = None
     | Some log => exists log', jsonl_read disk' id = Some log' /\ append_contract log batch log' ok
     end.
Proof.
  intros [logs Hs] Hid Hne Hst Hn E.
  pose proof (append_refines _ _ _ _ disk logs id batch Hs (conj Hid (conj Hst Hn))) as H. cbn [run_log_op spec_op bk_append jsonl_backend] in *.
  destruct (log_append _ _ _ _ disk id batch) as [d r]. injection E as <- <-. rewrite (jsonl_read_stores disk logs) by done.
  destruct (logs !! id) as [[h log]|] eqn:El.
  - destruct batch as [|e batch]; [done|]. destruct (decide (ev_seq e = Z.of_nat (length log))) as [He|He].
    + destruct H as [[= ->] Hs']. split; [by eexists|]. split.
      * intros id' Hid' Hd. by rewrite (jsonl_read_stores _ _ _ Hs'), lookup_insert_ne, (jsonl_read_stores disk logs) by done.
      * rewrite (jsonl_read_stores _ _ _ Hs') by done. rewrite lookup_insert_eq. by eexists.
    + destruct H as [[= ->] Hs']. split; [by eexists|]. split.
      * intros id' Hid' Hd. by rewrite (jsonl_read_stores _ _ _ Hs'), (jsonl_read_stores disk logs) by done.
      * rewrite (jsonl_read_stores _ _ _ Hs'), El by done. cbn. eexists. split; [done|]. by left.
  - destruct H as [[= ->] Hs']. split; [by eexists|]. split.
    + intros id' Hid' Hd. by rewrite (jsonl_read_stores _ _ _ Hs'), (jsonl_read_stores disk logs) by done.
    + by rewrite (jsonl_read_stores _ _ _ Hs'), El by done.
Qed.
Definition jsonl_laws : @BackendLaws Disk jsonl_backend := {|
  bk_ok disk := exists logs, stores disk logs;
  bk_id := good_id;
  bk_header header := exists hl, good_header header_to_line header_of_line header hl;
  bk_storable := storable_event event_to_line event_of_line;
  bk_view := jsonl_read;
  law_create := jsonl_law_create;
  law_append := jsonl_law_append;
  law_read disk id log _ _ E := E;
|}.
End jsonl.

(** * A small run *)

#[local] Instance demo_backend : SessionBackend Disk := jsonl_backend demo_header_to_line demo_header_of_line demo_event_to_line demo_event_of_line.
#[local] Instance demo_laws : BackendLaws Disk := jsonl_laws demo_header_to_line demo_header_of_line demo_event_to_line demo_event_of_line.

(** A resumed session: its log has one event more than the store, its closer
    arrives twice, once published and once reconciled. *)
Definition demo_s0 : WiredSessions Disk := enter_session "a/b" [demo_open] (boot demo_disk).
Definition demo_s1 : WiredSessions Disk := on_event "a/b" demo_closed demo_s0.
Definition demo_s2 : WiredSessions Disk := reconcile "a/b" demo_s1.
Definition demo_s3 : WiredSessions Disk := on_event "a/b" demo_todo demo_s2.

Lemma demo_wb_reachable : wb_reachable demo_s3.
Proof.
  destruct demo_good_events as (H0 & H1 & H2).
  assert (Hb : wb_reachable (boot demo_disk)) by (constructor; eexists; apply demo_stores).
  assert (Hs : forall e l, demo_good e l -> bk_storable e) by (intros e l Hl; by exists l).
  assert (wb_reachable demo_s0).
  { eapply WR_Step; [exact Hb|]. apply S_Enter; [done|done| |constructor; [by eapply Hs|done]|done|].
    - by intros [|i] e He; [injection He as <-|].
    - intros st Est. change (jsonl_read demo_header_of_line demo_event_of_line demo_disk "a/b" = Some st) in Est. vm_compute in Est. injection Est as <-. by exists []. }
  assert (wb_reachable demo_s1) by (eapply WR_Step; [done|]; eapply (S_Event "a/b" [demo_open]); [done|done|by eapply Hs|done]).
  assert (wb_reachable demo_s2) by (eapply WR_Step; [done|]; by eapply (S_Reconcile "a/b" [demo_open; demo_closed])).
  eapply WR_Step; [done|]. eapply (S_Event "a/b" [demo_open; demo_closed]); [by vm_compute|done|by eapply Hs|done].
Qed.

Lemma durable_log_is_prefix_witness :
  (forall stored, bk_view (sy_store demo_s3) "a/b" = Some stored -> stored `prefix_of` [demo_open; demo_closed; demo_todo])
  /\ bk_view (sy_store (on_flush "a/b" demo_s3)) "a/b" = Some [demo_open; demo_closed; demo_todo].
Proof.
  destruct (durable_log_is_prefix demo_s3 "a/b" [demo_open; demo_closed; demo_todo] demo_wb_reachable eq_refl) as [H1 H2].
  split; [exact H1|]. apply H2; refine (bool_decide_unpack _ _); by vm_compute.
Defined.

(** A write that fails leaves the watermark past its events: the flush that
    joins it reports success, and nothing of this session is stored again. *)
#[local] Instance flaky_backend : SessionBackend (list SessionEvent * nat) := {|
  bk_create w _ := (w, true);
  bk_append w _ batch :=
    match w.2 with
    | S failures => ((w.1, failures), false)
    | O => if match batch with e :: _ => (ev_seq e =? Z.of_nat (length w.1))%Z | [] => true end then ((w.1 ++ batch, 0), true) else (w, false)
    end;
  bk_read w _ := Some w.1;
|}.
Example failed_write_example :
  let c := enqueue demo_open wb_new in
  let '((c, w), flushed) := drain "s" (c, ([], 1)) in
  let '((c, w), again) := drain "s" (enqueue demo_closed c, w) in
  flushed = true /\ again = true /\ w.1 = [] /\ wb_durable_next c = 2%Z.
Proof. by vm_compute. Qed.
(** Only the start of a batch is checked: a hole inside it is written. *)
Example inner_hole_example : prepare_batch 0 [demo_open; demo_todo] = Some ([demo_open; demo_todo], 3%Z).
Proof. by vm_compute. Qed.
