(* ===== verification/SessionStore.v ===== *)
(** The in-memory store of live sessions: [SessionStore] of
    [crates/dsh/session/src/session.rs].

    Sessions are shared ([Rc]): the heap maps handles to sessions and to
    whether a publisher is installed, and the store, the callers and the feed
    name sessions by handle.  The clock, [Path::is_absolute], what listeners do
    with a session being published_of and whether the context still accepts
    effects are arguments. *)
From Stdlib Require Import ZArith Lia Ascii String.
From stdpp Require Import base tactics numbers list strings pretty gmap.
From S2P Require Import Prelude Json Llm SessionEvents Surface HeaderFold Session.
Open Scope string_scope.
Open Scope nat_scope.
Open Scope list_scope.
Open Scope keel_scope.

(** A session on the heap: its state, and whether its publisher is set. *)
Record LiveSession := mk_live { lv_session : Session; lv_attached : bool }.
Record StoreEntry := mk_entry { se_handle : nat; se_announced : bool }.
(** What the store emits on the context. *)
Inductive StoreFeed :=
| Published (h : nat) (event : SessionEvent)
| Created (h : nat)
| Disposed (h : nat)
| Flushed (h : nat).
Record SessionStore := mk_store {
  sr_heap : gmap nat LiveSession;
  sr_next : nat;
  sr_store : gmap SessionId StoreEntry;
  sr_order : list SessionId;
  sr_counter : Z;
  sr_feed : list StoreFeed;
}.
Definition SessionStore_new : SessionStore := mk_store ∅ 0 ∅ [] 0 [].
Definition store_emit (f : StoreFeed) (st : SessionStore) : SessionStore :=
  mk_store (sr_heap st) (sr_next st) (sr_store st) (sr_order st) (sr_counter st) (sr_feed st ++ [f]).
Definition set_heap (heap : gmap nat LiveSession) (st : SessionStore) : SessionStore :=
  mk_store heap (sr_next st) (sr_store st) (sr_order st) (sr_counter st) (sr_feed st).
Definition session_of (st : SessionStore) (h : nat) : option Session := lv_session <$> sr_heap st !! h.

Inductive SessionForkError :=
| FE_NotFound (id : SessionId)
| FE_Exists (id : SessionId)
| FE_Boundary (e : ForkError)
(** The store's own refusal of the child, reported as an invalid boundary. *)
| FE_Create (e : SessionError).

(** ** Minting *)

Definition minted_id (counter : Z) : SessionId := "session-" +:+ pretty counter.
(** [mint_id]: the loop ends after at most one more round than the store has
    sessions. *)
Fixpoint mint_loop (fuel : nat) (store : gmap SessionId StoreEntry) (counter : Z) : option (Z * SessionId) :=
  match fuel with
  | O => None
  | S fuel =>
      let counter := (counter + 1)%Z in
      match store !! minted_id counter with
      | Some _ => mint_loop fuel store counter
      | None => Some (counter, minted_id counter)
      end
  end.
Definition mint_id (st : SessionStore) : option (SessionStore * SessionId) :=
  match mint_loop (S (size (sr_store st))) (sr_store st) (sr_counter st) with
  | Some (counter, id) => Some (mk_store (sr_heap st) (sr_next st) (sr_store st) (sr_order st) counter (sr_feed st), id)
  | None => None
  end.

Section store.
Context (is_absolute : string -> bool) (ops : Session -> SessionEvent -> list SessionOp).

Definition header_for (now : Z) (id : SessionId) (meta : SessionMeta) : SessionHeader :=
  mk_session_header SESSION_FORMAT_VERSION id (default now (sm_created_at meta)) (sm_cwd meta) (sm_parent_session meta) (sm_seed_length meta)
    (sm_origin meta) (sm_delegation_depth meta) (sm_agent_preset meta).
(** A session built but not entered: a new handle. *)
Definition alloc (s : Session) (st : SessionStore) : SessionStore * nat :=
  (mk_store (<[sr_next st := mk_live s false]> (sr_heap st)) (S (sr_next st)) (sr_store st) (sr_order st) (sr_counter st) (sr_feed st), sr_next st).
Definition store_prepare (now : Z) (id : option SessionId) (seed : list SessionEvent) (meta : SessionMeta) (st : SessionStore)
  : SessionStore * result nat SessionError :=
  match (match id with Some id => Some (st, id) | None => mint_id st end) with
  | None => (st, Err Panicked)
  | Some (st, id) =>
      match sr_store st !! id with
      | Some _ => (st, Err (AlreadyExists id))
      | None =>
          match Session.create is_absolute now id seed (Some (header_for now id meta)) with
          | Err e => (st, Err e)
          | Ok s => let '(st, h) := alloc s st in (st, Ok h)
          end
      end
  end.

Definition live_id (lv : LiveSession) : SessionId := sh_id (ss_header (lv_session lv)).
(** [enter]; [accepts] tells whether the context takes the disposer. *)
Definition enter (accepts : bool) (h : nat) (st : SessionStore) : SessionStore * result unit SessionError :=
  match sr_heap st !! h with
  | None => (st, Err Panicked)
  | Some lv =>
      let id := live_id lv in
      match sr_store st !! id with
      | Some _ => (st, Err (AlreadyExists id))
      | None =>
          if lv_attached lv then (st, Err (AlreadyAttached id)) else
          let st := mk_store (<[h := mk_live (lv_session lv) true]> (sr_heap st)) (sr_next st) (<[id := mk_entry h false]> (sr_store st))
            (sr_order st ++ [id]) (sr_counter st) (sr_feed st) in
          (st, if accepts then Ok () else Err (EffectFailed "inactive effect"))
      end
  end.
Definition detach (id : SessionId) (st : SessionStore) : SessionStore :=
  let order := base.filter (fun existing => existing <> id) (sr_order st) in
  let st' := mk_store (sr_heap st) (sr_next st) (delete id (sr_store st)) order (sr_counter st) (sr_feed st) in
  match sr_store st !! id with
  | None => st'
  | Some entry =>
      let st' := match sr_heap st !! se_handle entry with
                 | Some lv => set_heap (<[se_handle entry := mk_live (lv_session lv) false]> (sr_heap st)) st'
                 | None => st'
                 end in
      if se_announced entry then store_emit (Disposed (se_handle entry)) st' else st'
  end.
Definition announce (h : nat) (st : SessionStore) : SessionStore * result unit SessionError :=
  match sr_heap st !! h with
  | None => (st, Err Panicked)
  | Some lv =>
      let id := live_id lv in
      match sr_store st !! id with
      | None => (st, Err (NotLive id))
      | Some entry =>
          if se_announced entry then (st, Err (AlreadyAnnounced id)) else
          (store_emit (Created h) (mk_store (sr_heap st) (sr_next st) (<[id := mk_entry (se_handle entry) true]> (sr_store st)) (sr_order st) (sr_counter st) (sr_feed st)),
           Ok ())
      end
  end.
Definition store_create (now : Z) (accepts : bool) (id : option SessionId) (seed : list SessionEvent) (meta : SessionMeta) (st : SessionStore)
  : SessionStore * result nat SessionError :=
  match store_prepare now id seed meta st with
  | (st, Err e) => (st, Err e)
  | (st, Ok h) =>
      match enter accepts h st with
      | (st, Err e) => (st, Err e)
      | (st, Ok _) => match announce h st with (st, Err e) => (st, Err e) | (st, Ok _) => (st, Ok h) end
      end
  end.
Definition store_flush (h : nat) (st : SessionStore) : SessionStore * result unit SessionError :=
  match sr_heap st !! h with
  | None => (st, Err Panicked)
  | Some lv => match sr_store st !! live_id lv with None => (st, Err (NotLive (live_id lv))) | Some _ => (store_emit (Flushed h) st, Ok ()) end
  end.
Definition store_get (id : SessionId) (st : SessionStore) : option nat := se_handle <$> sr_store st !! id.
Definition store_list (st : SessionStore) : list nat := omap (fun id => store_get id st) (sr_order st).

Definition fork (now : Z) (accepts : bool) (source_id : SessionId) (boundary : option Z) (child_id : option SessionId) (st : SessionStore)
  : SessionStore * result nat SessionForkError :=
  match (child ← child_id; if bool_decide (is_Some (store_get child st)) then Some child else None) with
  | Some child => (st, Err (FE_Exists child))
  | None =>
      match (h ← store_get source_id st; session_of st h) with
      | None => (st, Err (FE_NotFound source_id))
      | Some source =>
          match fork_seed source boundary with
          | Err e => (st, Err (FE_Boundary e))
          | Ok seed =>
              let meta := mk_session_meta (sh_cwd (ss_header source)) (Some (sh_id (ss_header source))) None (Some (Z.of_nat (length seed))) None None None in
              match store_create now accepts child_id seed meta st with
              | (st, Err e) => (st, Err (FE_Create e))
              | (st, Ok h) => (st, Ok h)
              end
          end
      end
  end.

(** An operation of the owner on a session, and the feed of a committed
    append while the publisher is installed. *)
Definition session_op (h : nat) (op : SessionOp) (st : SessionStore) : SessionStore :=
  match sr_heap st !! h with
  | None => st
  | Some lv =>
      let publish := if lv_attached lv then listeners ops else fun s _ => s in
      let s := run_op publish (lv_session lv) op in
      let st := set_heap (<[h := mk_live s (lv_attached lv)]> (sr_heap st)) st in
      match lv_attached lv, drop (length (ss_log (lv_session lv))) (ss_log s) with
      | true, event :: _ => store_emit (Published h event) st
      | _, _ => st
      end
  end.
End store.

(** * Minting ends *)

Lemma minted_id_inj a b : minted_id a = minted_id b -> a = b.
Proof. unfold minted_id. intros E%(inj (String.append "session-")). by apply (inj pretty). Qed.
Lemma mint_loop_None fuel store counter : mint_loop fuel store counter = None ->
  forall k : nat, k < fuel -> is_Some (store !! minted_id (counter + 1 + Z.of_nat k)).
Proof.
  revert counter. induction fuel as [|fuel IH]; intros counter H k Hk; [lia|]. cbn [mint_loop] in H.
  destruct (store !! minted_id (counter + 1)) as [e|] eqn:E; [|done]. destruct k as [|k]; [rewrite Z.add_0_r, E; by eexists|].
  replace (counter + 1 + Z.of_nat (S k))%Z with (counter + 1 + 1 + Z.of_nat k)%Z by lia. apply IH; [done|lia].
Qed.
Lemma mint_loop_Some fuel store counter c id : mint_loop fuel store counter = Some (c, id) -> store !! id = None.
Proof.
  revert counter. induction fuel as [|fuel IH]; intros counter H; [done|]. cbn [mint_loop] in H.
  destruct (store !! minted_id (counter + 1)) eqn:E; [by eapply IH|]. by injection H as <- <-.
Qed.
Lemma mint_loop_ends store counter : is_Some (mint_loop (S (size store)) store counter).
Proof.
  destruct (mint_loop _ _ _) as [r|] eqn:E; [by eexists|]. exfalso.
  set (ids := (fun k => minted_id (counter + 1 + Z.of_nat k)) <$> seq 0 (S (size store))).
  assert (Hnd : NoDup ids).
  { apply NoDup_fmap_2_strong; [|apply NoDup_seq]. intros i j _ _ Hij%minted_id_inj. lia. }
  assert (Hsub : list_to_set ids ⊆ dom store).
  { intros id Hid%elem_of_list_to_set. apply list_elem_of_fmap in Hid as (k & -> & Hk%elem_of_seq). apply elem_of_dom.
    apply (mint_loop_None _ _ _ E). lia. }
  apply subseteq_size in Hsub. rewrite size_list_to_set, size_dom in Hsub by done. subst ids. rewrite length_fmap, length_seq in Hsub. lia.
Qed.
(** A minted id is new, and minting changes the counter only. *)
Lemma mint_id_spec st : exists c id, mint_id st = Some (mk_store (sr_heap st) (sr_next st) (sr_store st) (sr_order st) c (sr_feed st), id) /\ sr_store st !! id = None.
Proof.
  unfold mint_id. destruct (mint_loop_ends (sr_store st) (sr_counter st)) as [[c id] E]. rewrite E. exists c, id. split; [done|]. by eapply mint_loop_Some.
Qed.

(** * The feed *)

(** Whether a session id is announced after a feed, when [name] gives the ids
    of the sessions; [None] when its announcements and disposals do not
    alternate. *)
Definition lifecycle_step (name : nat -> option SessionId) (id : SessionId) (s : option bool) (f : StoreFeed) : option bool :=
  match f with
  | Created h => if decide (name h = Some id) then match s with Some false => Some true | _ => None end else s
  | Disposed h => if decide (name h = Some id) then match s with Some true => Some false | _ => None end else s
  | _ => s
  end.
Definition lifecycle (name : nat -> option SessionId) (id : SessionId) (feed : list StoreFeed) : option bool :=
  foldl (lifecycle_step name id) (Some false) feed.
(** The session an item of the feed announces or disposes. *)
Definition feed_session (f : StoreFeed) : option nat := match f with Created h | Disposed h => Some h | _ => None end.
Definition published_of (h : nat) (feed : list StoreFeed) : list SessionEvent :=
  omap (fun f => match f with Published h' e => if decide (h' = h) then Some e else None | _ => None end) feed.
#[local] Arguments lifecycle : simpl never.
#[local] Arguments published_of : simpl never.
Lemma lifecycle_snoc name id feed f : lifecycle name id (feed ++ [f]) = lifecycle_step name id (lifecycle name id feed) f.
Proof. unfold lifecycle. by rewrite foldl_app. Qed.
Lemma lifecycle_ext name name' id feed : (forall f h, f ∈ feed -> feed_session f = Some h -> name h = name' h) ->
  lifecycle name id feed = lifecycle name' id feed.
Proof.
  induction feed as [|f feed IH] using rev_ind; intros H; [done|]. rewrite !lifecycle_snoc, IH.
  - assert (Hf : forall h, feed_session f = Some h -> name h = name' h).
    { intros h. apply H. apply elem_of_app. right. by apply list_elem_of_singleton. }
    destruct f as [|h|h|]; cbn; try done; by rewrite (Hf h).
  - intros f' h Hf. apply H. apply elem_of_app. by left.
Qed.
Lemma feed_published_snoc h feed f : published_of h (feed ++ [f])
  = published_of h feed ++ match f with Published h' e => if decide (h' = h) then [e] else [] | _ => [] end.
Proof. unfold published_of. rewrite omap_app. f_equal. destruct f as [h' e| | |]; cbn; try done. by destruct (decide (h' = h)). Qed.

(** * The invariant *)

Definition log_of (st : SessionStore) (h : nat) : list SessionEvent := from_option ss_log [] (session_of st h).
(** The id of a session of the heap, and the announced ids of the store. *)
Definition name_of (st : SessionStore) (h : nat) : option SessionId := live_id <$> sr_heap st !! h.
Definition is_announced (st : SessionStore) (id : SessionId) : bool := from_option se_announced false (sr_store st !! id).
Record store_inv (st : SessionStore) : Prop := {
  sv_fresh h lv : sr_heap st !! h = Some lv -> h < sr_next st;
  sv_session h lv : sr_heap st !! h = Some lv -> session_inv (lv_session lv) /\ ss_appending (lv_session lv) = false;
  sv_nodup : NoDup (sr_order st);
  sv_order id : id ∈ sr_order st <-> is_Some (sr_store st !! id);
  sv_entry id e : sr_store st !! id = Some e -> exists s, sr_heap st !! se_handle e = Some (mk_live s true) /\ sh_id (ss_header s) = id;
  sv_attached h s : sr_heap st !! h = Some (mk_live s true) -> se_handle <$> sr_store st !! sh_id (ss_header s) = Some h;
  sv_feed f h : f ∈ sr_feed st -> feed_session f = Some h -> is_Some (sr_heap st !! h);
  sv_lifecycle id : lifecycle (name_of st) id (sr_feed st) = Some (is_announced st id);
  sv_published h : published_of h (sr_feed st) `sublist_of` log_of st h;
}.

Lemma store_inv_new : store_inv SessionStore_new.
Proof.
  split; cbn; try done; try (by intros ? ? E; rewrite lookup_empty in E).
  - constructor.
  - intros id. rewrite lookup_empty. split; [by intros H%elem_of_nil|by intros [? ?]].
  - by intros f h H%elem_of_nil.
Qed.
Lemma inv_counter st c : store_inv st -> store_inv (mk_store (sr_heap st) (sr_next st) (sr_store st) (sr_order st) c (sr_feed st)).
Proof. intros [H1 H2 H3 H4 H5 H6 HF H7 H8]. by split. Qed.
Lemma inv_next_free st : store_inv st -> sr_heap st !! sr_next st = None.
Proof. intros Hi. destruct (sr_heap st !! sr_next st) eqn:E; [|done]. apply (sv_fresh _ Hi) in E. lia. Qed.

(** The feed read with a heap that keeps the ids of the old one. *)
Lemma lifecycle_kept st name id : store_inv st -> (forall h lv, sr_heap st !! h = Some lv -> name h = Some (live_id lv)) ->
  lifecycle name id (sr_feed st) = Some (is_announced st id).
Proof.
  intros Hi Hn. rewrite <- (sv_lifecycle _ Hi). apply lifecycle_ext. intros f h Hf Hh.
  destruct (sv_feed _ Hi _ _ Hf Hh) as [lv E]. rewrite (Hn _ _ E). unfold name_of. by rewrite E.
Qed.

(** A new handle that nobody entered. *)
Lemma inv_alloc st s : store_inv st -> session_inv s -> ss_appending s = false -> store_inv (alloc s st).1.
Proof.
  intros Hi Hs Ha. pose proof (inv_next_free st Hi) as Hfree. pose proof Hi as Hi'. destruct Hi as [H1 H2 H3 H4 H5 H6 HF H7 H8]. unfold alloc. split; cbn.
  - intros h lv E. destruct (decide (h = sr_next st)) as [->|Hne]; [lia|]. rewrite lookup_insert_ne in E by done. apply H1 in E. lia.
  - intros h lv E. destruct (decide (h = sr_next st)) as [->|Hne]; [rewrite lookup_insert_eq in E; by injection E as <-|].
    rewrite lookup_insert_ne in E by done. by eapply H2.
  - done.
  - done.
  - intros id e E. destruct (H5 id e E) as (s' & Es & Eid). exists s'. split; [|done]. rewrite lookup_insert_ne; [done|]. intros Eh. rewrite Eh in Hfree. congruence.
  - intros h s' E. destruct (decide (h = sr_next st)) as [->|Hne]; [by rewrite lookup_insert_eq in E|]. rewrite lookup_insert_ne in E by done. by apply H6.
  - intros f h Hf Hh. destruct (HF f h Hf Hh) as [lv E]. rewrite lookup_insert_ne; [by eexists|]. intros <-. congruence.
  - intros id. apply (lifecycle_kept st); [done|]. intros h lv E. unfold name_of. cbn. rewrite lookup_insert_ne; [by rewrite E|]. intros <-. congruence.
  - intros h. unfold log_of, session_of in *. cbn. specialize (H8 h). destruct (decide (h = sr_next st)) as [->|Hne]; [|by rewrite lookup_insert_ne].
    rewrite Hfree in H8. cbn in H8. apply sublist_nil_r in H8. rewrite H8. apply sublist_nil_l.
Qed.

(** ** Entering and leaving *)

Lemma log_of_insert st h lv h' : log_of (set_heap (<[h := lv]> (sr_heap st)) st) h' = if decide (h' = h) then ss_log (lv_session lv) else log_of st h'.
Proof.
  unfold log_of, session_of. cbn. destruct (decide (h' = h)) as [->|]; [by rewrite lookup_insert_eq|by rewrite lookup_insert_ne].
Qed.
(** Two handles of the store never name the same id. *)
Lemma entry_handle st h s e : store_inv st -> sr_heap st !! h = Some (mk_live s true) -> sr_store st !! sh_id (ss_header s) = Some e -> se_handle e = h.
Proof. intros Hi Hh He. pose proof (sv_attached _ Hi _ _ Hh) as E. rewrite He in E. by injection E. Qed.

Lemma inv_enter accepts h st : store_inv st -> store_inv (enter accepts h st).1.
Proof.
  intros Hi. unfold enter. destruct (sr_heap st !! h) as [lv|] eqn:Eh; [|done]. destruct (sr_store st !! live_id lv) as [e|] eqn:Es; [done|].
  destruct (lv_attached lv) eqn:Ea; [done|]. pose proof Hi as Hi'. destruct Hi as [H1 H2 H3 H4 H5 H6 HF H7 H8]. destruct lv as [s a]. cbn in Ea. subst a. unfold live_id in *. cbn in *.
  set (id := sh_id (ss_header s)) in *.
  split; cbn.
  - intros h' lv E. destruct (decide (h' = h)) as [->|Hne]; [by eapply H1|]. rewrite lookup_insert_ne in E by done. by eapply H1.
  - intros h' lv E. destruct (decide (h' = h)) as [->|Hne]; [rewrite lookup_insert_eq in E; injection E as <-; by apply (H2 h _ Eh)|].
    rewrite lookup_insert_ne in E by done. by eapply H2.
  - apply NoDup_app. split_and!; [done| |apply NoDup_singleton]. intros x Hx Hs%list_elem_of_singleton. subst x. apply H4 in Hx. rewrite Es in Hx. by destruct Hx.
  - intros x. rewrite elem_of_app, list_elem_of_singleton, H4. destruct (decide (x = id)) as [->|Hne].
    + rewrite lookup_insert_eq. split; [by eexists|by right].
    + rewrite lookup_insert_ne by done. split; [by intros [|]|by left].
  - intros x e E. destruct (decide (x = id)) as [->|Hne].
    + rewrite lookup_insert_eq in E. injection E as <-. exists s. cbn. by rewrite lookup_insert_eq.
    + rewrite lookup_insert_ne in E by done. destruct (H5 x e E) as (s' & E' & Eid). exists s'. split; [|done]. rewrite lookup_insert_ne; [done|]. intros Eq. rewrite <- Eq, Eh in E'. by injection E'.
  - intros h' s' E. destruct (decide (h' = h)) as [->|Hne].
    + rewrite lookup_insert_eq in E. injection E as <-. fold id. by rewrite lookup_insert_eq.
    + rewrite lookup_insert_ne in E by done. pose proof (H6 _ _ E) as Hx. rewrite lookup_insert_ne; [done|]. intros Eq. rewrite <- Eq in Hx. by rewrite Es in Hx.
  - intros f h' Hf Hh. destruct (HF f h' Hf Hh) as [lv E]. destruct (decide (h' = h)) as [->|Hne]; [rewrite lookup_insert_eq|rewrite lookup_insert_ne by done]; by eexists.
  - intros x. assert (Hx : is_announced (mk_store (sr_heap st) 0 (<[id := mk_entry h false]> (sr_store st)) [] 0 []) x = is_announced st x).
    { unfold is_announced. cbn. destruct (decide (x = id)) as [->|]; [by rewrite lookup_insert_eq, Es|by rewrite lookup_insert_ne]. }
    unfold is_announced in Hx |- *. cbn in Hx |- *. rewrite Hx. apply (lifecycle_kept st); [done|]. intros h' lv E. unfold name_of. cbn.
    destruct (decide (h' = h)) as [->|Hne]; [rewrite lookup_insert_eq; rewrite Eh in E; by injection E as <-|by rewrite lookup_insert_ne, E].
  - intros h'. specialize (H8 h'). unfold log_of, session_of in *. cbn. destruct (decide (h' = h)) as [->|Hne]; [by rewrite lookup_insert_eq; rewrite Eh in H8|by rewrite lookup_insert_ne].
Qed.

(** Announcing goes by id, whichever session is handed in. *)
Lemma inv_announce h st : store_inv st -> store_inv (announce h st).1.
Proof.
  intros Hi. unfold announce. destruct (sr_heap st !! h) as [lv|] eqn:Eh; [|done]. destruct (sr_store st !! live_id lv) as [e|] eqn:Es; [|done].
  destruct (se_announced e) eqn:Ea; [done|]. set (id := live_id lv) in *.
  destruct Hi as [H1 H2 H3 H4 H5 H6 HF H7 H8].
  split; cbn.
  - done.
  - done.
  - done.
  - intros x. rewrite H4. destruct (decide (x = id)) as [->|Hne]; [rewrite lookup_insert_eq, Es; split; intros _; by eexists|by rewrite lookup_insert_ne].
  - intros x e' E. destruct (decide (x = id)) as [->|Hne]; [|rewrite lookup_insert_ne in E by done; by eapply H5].
    rewrite lookup_insert_eq in E. injection E as <-. cbn. by apply H5.
  - intros h' s' E. pose proof (H6 _ _ E) as Hx. destruct (decide (sh_id (ss_header s') = id)) as [Eq|Hne]; [|by rewrite lookup_insert_ne].
    rewrite Eq, lookup_insert_eq. cbn. by rewrite Eq, Es in Hx.
  - intros f h' [Hf| ->%list_elem_of_singleton]%elem_of_app Hh; [by eapply HF|]. injection Hh as <-. by eexists.
  - intros x. rewrite lifecycle_snoc. change (name_of _) with (name_of st). rewrite H7. cbn. unfold name_of, is_announced. rewrite Eh. cbn.
    fold id. destruct (decide (Some id = Some x)) as [[= <-]|Hne]; [by rewrite Es, lookup_insert_eq; cbn; rewrite Ea|].
    rewrite lookup_insert_ne by congruence. done.
  - intros h'. rewrite feed_published_snoc, app_nil_r. apply H8.
Qed.

Lemma inv_store_flush h st : store_inv st -> store_inv (store_flush h st).1.
Proof.
  intros Hi. unfold store_flush. destruct (sr_heap st !! h) as [lv|]; [|done]. destruct (sr_store st !! live_id lv); [|done]. destruct Hi as [H1 H2 H3 H4 H5 H6 HF H7 H8].
  split; cbn; try done.
  - intros f h' [Hf| ->%list_elem_of_singleton]%elem_of_app Hh; [by eapply HF|done].
  - intros id. rewrite lifecycle_snoc. cbn. apply H7.
  - intros h'. by rewrite feed_published_snoc, app_nil_r.
Qed.

Lemma inv_store_detach id st : store_inv st -> store_inv (detach id st).
Proof.
  intros Hi. unfold detach. destruct (sr_store st !! id) as [e|] eqn:Es.
  2: { destruct Hi as [H1 H2 H3 H4 H5 H6 HF H7 H8]. assert (Hd : delete id (sr_store st) = sr_store st) by by apply delete_id.
    assert (Ho : base.filter (fun existing => existing <> id) (sr_order st) = sr_order st).
    { apply filter_all. intros x Hx ->. apply H4 in Hx. rewrite Es in Hx. by destruct Hx. }
    rewrite Hd, Ho. by split. }
  destruct (sv_entry _ Hi _ _ Es) as (s & Eh & Hid). rewrite Eh. cbn [lv_session]. set (h := se_handle e) in *.
  set (st' := set_heap _ _).
  assert (Hst' : sr_feed st' = sr_feed st) by done.
  assert (Hann : is_announced st id = se_announced e) by (unfold is_announced; by rewrite Es).
  assert (Hann' : forall x, is_announced st' x = if decide (x = id) then false else is_announced st x).
  { intros x. unfold is_announced, st'. cbn. destruct (decide (x = id)) as [->|Hne]; [by rewrite lookup_delete_eq|by rewrite lookup_delete_ne]. }
  assert (Hname : forall h' lv, sr_heap st !! h' = Some lv -> name_of st' h' = Some (live_id lv)).
  { intros h' lv E. unfold name_of, st'. cbn. destruct (decide (h' = h)) as [->|Hne]; [rewrite lookup_insert_eq; rewrite Eh in E; by injection E as <-|by rewrite lookup_insert_ne, E]. }
  assert (Hfeed : forall f h', f ∈ sr_feed st -> feed_session f = Some h' -> is_Some (sr_heap st' !! h')).
  { intros f h' Hf Hh. destruct (sv_feed _ Hi f h' Hf Hh) as [lv E]. unfold st'. cbn. destruct (decide (h' = h)) as [->|Hne]; [rewrite lookup_insert_eq|rewrite lookup_insert_ne by done]; by eexists. }
  assert (Hlog : forall h', log_of st' h' = log_of st h').
  { intros h'. unfold st', log_of, session_of. cbn. destruct (decide (h' = h)) as [->|Hne]; [by rewrite lookup_insert_eq, Eh|by rewrite lookup_insert_ne]. }
  assert (Hall : forall feed, (forall f h', f ∈ feed -> feed_session f = Some h' -> is_Some (sr_heap st' !! h')) -> (forall x, lifecycle (name_of st') x feed = Some (is_announced st' x)) -> (forall h', published_of h' feed = published_of h' (sr_feed st)) ->
    store_inv (mk_store (sr_heap st') (sr_next st') (sr_store st') (sr_order st') (sr_counter st') feed)).
  { intros feed Hfd Hl Hp. destruct Hi as [H1 H2 H3 H4 H5 H6 HF H7 H8]. split; cbn.
    - intros h' lv E. destruct (decide (h' = h)) as [->|Hne]; [by eapply H1|]. rewrite lookup_insert_ne in E by done. by eapply H1.
    - intros h' lv E. destruct (decide (h' = h)) as [->|Hne]; [rewrite lookup_insert_eq in E; injection E as <-; by apply (H2 h _ Eh)|].
      rewrite lookup_insert_ne in E by done. by eapply H2.
    - by apply NoDup_filter.
    - intros x. rewrite list_elem_of_filter, H4. destruct (decide (x = id)) as [->|Hne]; [rewrite lookup_delete_eq; split; [by intros [? _]|by intros [? ?]]|].
      rewrite lookup_delete_ne by done. naive_solver.
    - intros x e' E. destruct (decide (x = id)) as [->|Hne]; [by rewrite lookup_delete_eq in E|]. rewrite lookup_delete_ne in E by done.
      destruct (H5 x e' E) as (s' & E' & Eid). exists s'. split; [|done]. rewrite lookup_insert_ne; [done|]. intros Eq. rewrite <- Eq in E'. rewrite Eh in E'. injection E' as <-. congruence.
    - intros h' s' E. destruct (decide (h' = h)) as [->|Hne]; [by rewrite lookup_insert_eq in E|]. rewrite lookup_insert_ne in E by done.
      pose proof (H6 _ _ E) as Hx. rewrite lookup_delete_ne; [done|]. intros Eq. rewrite <- Eq, Es in Hx. cbn in Hx. injection Hx as Hx. fold h in Hx. by destruct Hne.
    - exact Hfd.
    - intros x. apply Hl.
    - intros h'. rewrite Hp. change (published_of h' (sr_feed st) `sublist_of` log_of st' h'). rewrite Hlog. apply H8. }
  destruct (se_announced e) eqn:Ea.
  - apply Hall; [| |intros h'; by rewrite feed_published_snoc, app_nil_r].
    + intros f h' [Hf| ->%list_elem_of_singleton]%elem_of_app Hh; [by eapply Hfeed|]. injection Hh as <-. unfold st'. cbn. rewrite lookup_insert_eq. by eexists.
    + intros x. rewrite lifecycle_snoc. change (sr_feed st') with (sr_feed st). rewrite (lifecycle_kept st _ x Hi Hname), Hann'. cbn.
      rewrite (Hname _ _ Eh). unfold live_id. cbn. rewrite Hid. destruct (decide (Some id = Some x)) as [[= <-]|Hne]; [by rewrite Hann, decide_True|by rewrite decide_False by congruence].
  - apply (Hall (sr_feed st)); [done| |done]. intros x. rewrite (lifecycle_kept st _ x Hi Hname), Hann'. destruct (decide (x = id)) as [->|]; [by rewrite Hann|done].
Qed.

(** ** Operations on a session *)

Lemma detached_publish_ok : publish_ok (fun s _ => s).
Proof. intros s e Hi Ha. by split_and!. Qed.
Lemma run_op_grows publish s op : publish_ok publish -> session_inv s -> has_room s -> ss_appending s = false ->
  let s' := run_op publish s op in
  session_inv s' /\ ss_appending s' = false /\ ss_header s' = ss_header s
  /\ (ss_log s' = ss_log s \/ exists e, ss_log s' = ss_log s ++ [e]).
Proof.
  intros Hpub Hinv Hroom Happ. destruct (run_op_log publish s op Hpub Hinv Hroom Happ) as (H1 & H2 & _). destruct op; cbn [run_op] in *.
  - pose proof (append_spec publish now data intent s Hpub Hinv Hroom Happ) as H. cbv zeta in H.
    destruct (Session.append publish now data intent s) as [s' [e|e]]; cbn [fst] in *.
    + destruct H as (_ & _ & Hl & _ & _ & [= Hf _]). split_and!; [done..|]. right. by eexists.
    + destruct e; try done. destruct H as [-> _]. split_and!; [done..|by left].
  - pose proof (request_header_spec s Hinv) as H. destruct (request_header s) as [s' x]. cbn [fst] in *.
    destruct H as (_ & _ & Hl & _ & _ & [= Hf _]). split_and!; [done..|by left].
  - pose proof (request_context_spec s Hinv) as H. destruct (request_context s) as [s' x]. cbn [fst] in *.
    destruct H as (_ & _ & Hl & _ & _ & [= Hf _]). split_and!; [done..|by left].
  - pose proof (derive_messages_spec s Hinv) as H. destruct (derive_messages s) as [s' x]. cbn [fst] in *.
    destruct H as (_ & _ & Hl & _ & _ & [= Hf _]). split_and!; [done..|by left].
Qed.

(** A session is replaced by one with the same header and a longer log. *)
Lemma inv_update st h s s' a feed : store_inv st -> sr_heap st !! h = Some (mk_live s a) -> session_inv s' -> ss_appending s' = false ->
  ss_header s' = ss_header s -> (forall f, f ∈ feed -> feed_session f = None \/ f ∈ sr_feed st) ->
  (forall name x, lifecycle name x feed = lifecycle name x (sr_feed st)) ->
  (forall h', published_of h' feed `sublist_of` if decide (h' = h) then ss_log s' else log_of st h') ->
  store_inv (mk_store (<[h := mk_live s' a]> (sr_heap st)) (sr_next st) (sr_store st) (sr_order st) (sr_counter st) feed).
Proof.
  intros Hi Eh Hs Ha Hh Hfd Hl Hp. pose proof Hi as Hi'. destruct Hi as [H1 H2 H3 H4 H5 H6 HF H7 H8]. split; cbn.
  - intros h' lv E. destruct (decide (h' = h)) as [->|Hne]; [by eapply H1|]. rewrite lookup_insert_ne in E by done. by eapply H1.
  - intros h' lv E. destruct (decide (h' = h)) as [->|Hne]; [rewrite lookup_insert_eq in E; by injection E as <-|].
    rewrite lookup_insert_ne in E by done. by eapply H2.
  - done.
  - done.
  - intros x e E. destruct (H5 x e E) as (s0 & E0 & Eid). destruct (decide (se_handle e = h)) as [Eq|Hne].
    + rewrite Eq in *. rewrite Eh in E0. injection E0 as -> ->. exists s'. rewrite lookup_insert_eq. split; [done|congruence].
    + exists s0. by rewrite lookup_insert_ne.
  - intros h' s0 E. destruct (decide (h' = h)) as [->|Hne].
    + rewrite lookup_insert_eq in E. injection E as <- ->. rewrite Hh. by apply H6.
    + rewrite lookup_insert_ne in E by done. by apply H6.
  - intros f h' Hf Hf'. destruct (Hfd f Hf) as [E|Hf0]; [congruence|]. destruct (HF f h' Hf0 Hf') as [lv E].
    destruct (decide (h' = h)) as [->|Hne]; [rewrite lookup_insert_eq|rewrite lookup_insert_ne by done]; by eexists.
  - intros x. rewrite Hl. apply (lifecycle_kept st); [done|]. intros h' lv E. unfold name_of. cbn. destruct (decide (h' = h)) as [->|Hne].
    + rewrite lookup_insert_eq. rewrite Eh in E. injection E as <-. unfold live_id. cbn. by rewrite Hh.
    + by rewrite lookup_insert_ne, E.
  - intros h'. specialize (Hp h'). unfold log_of, session_of. cbn. destruct (decide (h' = h)) as [->|Hne]; [by rewrite lookup_insert_eq|by rewrite lookup_insert_ne].
Qed.
Lemma session_op_inv ops h op st : store_inv st -> (forall s, session_of st h = Some s -> has_room s) -> store_inv (session_op ops h op st).
Proof.
  intros Hi Hroom. unfold session_op. destruct (sr_heap st !! h) as [[s a]|] eqn:Eh; [|done]. cbn [lv_attached lv_session].
  destruct (sv_session _ Hi _ _ Eh) as [Hs Ha]. cbn in Hs, Ha. assert (Hr : has_room s) by (apply Hroom; unfold session_of; by rewrite Eh).
  set (publish := if a then listeners ops else fun s _ => s).
  assert (Hpub : publish_ok publish) by (subst publish; destruct a; [apply listeners_ok|apply detached_publish_ok]).
  destruct (run_op_grows publish s op Hpub Hs Hr Ha) as (Hs' & Ha' & Hh & Hlog). set (s' := run_op publish s op) in *.
  assert (Hp : forall h', published_of h' (sr_feed st) `sublist_of` if decide (h' = h) then ss_log s else log_of st h').
  { intros h'. pose proof (sv_published _ Hi h') as Hp. destruct (decide (h' = h)) as [->|]; [|done]. unfold log_of, session_of in Hp. by rewrite Eh in Hp. }
  destruct Hlog as [El|(e & El)]; rewrite El.
  - rewrite drop_all. assert (store_inv (set_heap (<[h:=mk_live s' a]> (sr_heap st)) st)) by (apply (inv_update st h s s' a); try done; [by right|by rewrite El]).
    by destruct a.
  - rewrite drop_app_length. destruct a; (apply (inv_update st h s s'); [done..| | |]); try done.
    + intros f [Hf| ->%list_elem_of_singleton]%elem_of_app; [by right|by left].
    + intros name x. by rewrite lifecycle_snoc.
    + intros h'. rewrite feed_published_snoc. specialize (Hp h'). destruct (decide (h = h')) as [<-|Hne].
      * rewrite decide_True in Hp |- * by done. rewrite El. by apply sublist_app.
      * rewrite app_nil_r. by rewrite decide_False in Hp |- * by congruence.
    + by right.
    + intros h'. specialize (Hp h'). destruct (decide (h' = h)); [|done]. rewrite El. by apply sublist_inserts_r.
Qed.

(** ** Building, creating, forking *)

Section operations.
Context (is_absolute : string -> bool) (ops : Session -> SessionEvent -> list SessionOp).
#[local] Abbreviation prepare_in := (store_prepare is_absolute).
#[local] Abbreviation create_in := (store_create is_absolute).
#[local] Abbreviation fork_in := (fork is_absolute).
Definition seed_room (seed : list SessionEvent) : Prop := (Z.of_nat (length seed) + 1 < u64_modulus)%Z.

(** Everything a prepare may do: move the counter and, when it succeeds, put
    one new detached session on the heap. *)
Lemma prepare_spec now id seed meta st : store_inv st -> seed_room seed ->
  exists c id', (forall i, id = Some i -> id' = i /\ c = sr_counter st) /\ (id = None -> sr_store st !! id' = None) /\
  let st0 := mk_store (sr_heap st) (sr_next st) (sr_store st) (sr_order st) c (sr_feed st) in
  match prepare_in now id seed meta st with
  | (st', Ok h) => exists s, Session.create is_absolute now id' seed (Some (header_for now id' meta)) = Ok s /\ st' = (alloc s st0).1 /\ h = sr_next st
      /\ sr_store st !! id' = None /\ ss_header s = header_for now id' meta /\ session_inv s /\ ss_appending s = false
  | (st', Err e) => st' = st0 /\ (e = AlreadyExists id' /\ is_Some (sr_store st !! id')
      \/ sr_store st !! id' = None /\ Session.create is_absolute now id' seed (Some (header_for now id' meta)) = Err e /\ e <> Panicked)
  end.
Proof.
  intros Hi Hroom. destruct (mint_id_spec st) as (c & mid & Em & Hfree).
  exists (match id with Some _ => sr_counter st | None => c end), (default mid id). split; [by intros i ->|]. split; [by intros ->|]. cbn zeta. unfold store_prepare.
  assert (E : (match id with Some id => Some (st, id) | None => mint_id st end)
    = Some (mk_store (sr_heap st) (sr_next st) (sr_store st) (sr_order st) (match id with Some _ => sr_counter st | None => c end) (sr_feed st), default mid id))
    by (destruct id; [by destruct st|done]).
  rewrite E. cbn [sr_store]. set (id' := default mid id). destruct (sr_store st !! id') eqn:Es.
  { split; [done|]. left. split; [done|by eexists]. }
  pose proof (create_spec is_absolute now id' seed (Some (header_for now id' meta)) Hroom) as Hc.
  destruct (Session.create is_absolute now id' seed _) as [s|e].
  - destruct Hc as (_ & Hh & Hinv & Ha & _). exists s. split_and!; try done. by apply Hh.
  - split; [done|]. right. by destruct Hc as [_ Hc].
Qed.
Lemma inv_prepare now id seed meta st : store_inv st -> seed_room seed -> store_inv (prepare_in now id seed meta st).1.
Proof.
  intros Hi Hroom. destruct (prepare_spec now id seed meta st Hi Hroom) as (c & id' & _ & _ & H). cbn zeta in H.
  pose proof (inv_counter st c Hi) as H0. destruct (prepare_in now id seed meta st) as [st' [h|e]].
  - destruct H as (s & _ & -> & _ & _ & _ & Hs & Ha). by apply inv_alloc.
  - by destruct H as [-> _].
Qed.

(** The store after a creation. *)
Definition with_created (st : SessionStore) (c : Z) (id : SessionId) (s : Session) (announced : bool) : SessionStore :=
  mk_store (<[sr_next st := mk_live s true]> (sr_heap st)) (S (sr_next st)) (<[id := mk_entry (sr_next st) announced]> (sr_store st))
    (sr_order st ++ [id]) c (sr_feed st ++ (if announced then [Created (sr_next st)] else [])).
Lemma store_create_spec now accepts id seed meta st : store_inv st -> seed_room seed ->
  exists c id', (forall i, id = Some i -> id' = i /\ c = sr_counter st) /\ (id = None -> sr_store st !! id' = None) /\
  match create_in now accepts id seed meta st with
  | (st', Ok h) => h = sr_next st /\ accepts = true /\ sr_store st !! id' = None /\ exists s,
      Session.create is_absolute now id' seed (Some (header_for now id' meta)) = Ok s /\ ss_header s = header_for now id' meta /\ st' = with_created st c id' s true
  | (st', Err e) =>
      let st0 := mk_store (sr_heap st) (sr_next st) (sr_store st) (sr_order st) c (sr_feed st) in
      st' = st0 /\ e = AlreadyExists id' /\ is_Some (sr_store st !! id')
      \/ st' = st0 /\ sr_store st !! id' = None /\ Session.create is_absolute now id' seed (Some (header_for now id' meta)) = Err e
      \/ accepts = false /\ e = EffectFailed "inactive effect" /\ sr_store st !! id' = None /\ exists s,
         Session.create is_absolute now id' seed (Some (header_for now id' meta)) = Ok s /\ st' = with_created st c id' s false
  end.
Proof.
  intros Hi Hroom. destruct (prepare_spec now id seed meta st Hi Hroom) as (c & id' & Hid & Hnew & H). exists c, id'. split; [done|]. split; [done|].
  cbn zeta in *. unfold store_create. destruct (prepare_in now id seed meta st) as [st' [h|e]].
  2: { destruct H as [-> [[-> ?]|(? & ? & ?)]]; [by left|right; by left]. }
  destruct H as (s & Hs & -> & -> & Hfree & Hh & Hinv & Ha). unfold alloc, enter. cbn. rewrite lookup_insert_eq. unfold live_id. cbn. rewrite Hh. cbn [sh_id header_for].
  rewrite Hfree. rewrite insert_insert_eq. destruct accepts.
  - unfold announce. cbn. rewrite lookup_insert_eq. unfold live_id. cbn. rewrite Hh. cbn [sh_id header_for]. rewrite lookup_insert_eq. cbn. rewrite insert_insert_eq.
    split_and!; [done|done|done|]. by exists s.
  - right. right. split_and!; [done|done|done|]. exists s. split; [done|]. unfold with_created. by rewrite app_nil_r.
Qed.

Lemma inv_create now accepts id seed meta st : store_inv st -> seed_room seed -> store_inv (create_in now accepts id seed meta st).1.
Proof.
  intros Hi Hroom. pose proof (inv_prepare now id seed meta st Hi Hroom) as Hp. destruct (prepare_spec now id seed meta st Hi Hroom) as (c & id' & _ & _ & H).
  unfold store_create. destruct (prepare_in now id seed meta st) as [st' [h|e]]; [|done]. cbn [fst] in Hp. cbn zeta in H.
  destruct H as (s & _ & Est & -> & Hfree & Hh & _ & _). pose proof (inv_enter accepts (sr_next st) st' Hp) as He.
  destruct (enter accepts (sr_next st) st') as [st'' [[]|e]] eqn:Ee; [|done]. cbn [fst] in He.
  pose proof (inv_announce (sr_next st) st'' He) as Hann.
  by destruct (announce (sr_next st) st'') as [? [[]|]].
Qed.

Lemma fork_seed_length s boundary seed : fork_seed s boundary = Ok seed -> length seed <= length (ss_log s).
Proof.
  unfold fork_seed. destruct (match boundary with Some b => Some b | None => _ end) as [b|]; [|intros [= <-]; cbn; lia].
  destruct (_ <=? b)%Z; [done|]. assert (H : length (take (S (Z.to_nat b)) (ss_log s)) <= length (ss_log s)) by (rewrite length_take; lia).
  destruct (rfind _ _) as [e|]; [destruct (ev_data e)|]; intros E; try discriminate E; injection E as <-; exact H.
Qed.
Definition source_room (st : SessionStore) : Prop := forall h s, session_of st h = Some s -> has_room s.
Lemma inv_fork now accepts source boundary child st : store_inv st -> source_room st -> store_inv (fork_in now accepts source boundary child st).1.
Proof.
  intros Hi Hroom. unfold fork. destruct (child ← child; _) as [c|]; [done|]. destruct (h ← store_get source st; session_of st h) as [s|] eqn:Es; [|done].
  apply bind_Some in Es as (h & _ & Es). destruct (fork_seed s boundary) as [seed|] eqn:Ef; [|done]. apply fork_seed_length in Ef. specialize (Hroom h s Es).
  set (meta := mk_session_meta _ _ _ _ _ _ _). pose proof (inv_create now accepts child seed meta st Hi) as H.
  destruct (create_in now accepts child seed meta st) as [st' [h'|e]]; apply H; unfold seed_room, has_room in *; lia.
Qed.

(** * Reachable stores *)

(** What callers may do.  Logs stay below the width of a sequence number. *)
Inductive store_step : SessionStore -> SessionStore -> Prop :=
| ST_Prepare now id seed meta st : seed_room seed -> store_step st (prepare_in now id seed meta st).1
| ST_Enter accepts h st : store_step st (enter accepts h st).1
| ST_Announce h st : store_step st (announce h st).1
| ST_Detach id st : store_step st (detach id st)
| ST_Create now accepts id seed meta st : seed_room seed -> store_step st (create_in now accepts id seed meta st).1
| ST_Fork now accepts source boundary child st : source_room st -> store_step st (fork_in now accepts source boundary child st).1
| ST_Flush h st : store_step st (store_flush h st).1
| ST_Op h op st : (forall s, session_of st h = Some s -> has_room s) -> store_step st (session_op ops h op st).
Definition store_reachable (st : SessionStore) : Prop := rtc store_step SessionStore_new st.
Lemma store_step_inv st st' : store_inv st -> store_step st st' -> store_inv st'.
Proof.
  intros Hi Hs. destruct Hs; [by apply inv_prepare|by apply inv_enter|by apply inv_announce|by apply inv_store_detach|by apply inv_create|by apply inv_fork|by apply inv_store_flush|by apply session_op_inv].
Qed.
Lemma store_reachable_inv st : store_reachable st -> store_inv st.
Proof.
  unfold store_reachable. intros Hr. assert (H : forall a, rtc store_step a st -> store_inv a -> store_inv st); [|by eapply H, store_inv_new].
  clear Hr. intros a Hr. induction Hr as [|a b c Hab _ IH]; [done|]. intros Ha. by apply IH, (store_step_inv a).
Qed.

(** C34. The store stays consistent under any sequence of preparations,
    entries, announcements, creations, forks, disposals and appends.  It lists
    each live session once, in the order of entry, under its own id and with
    its publisher installed, and a session is live in it exactly when its
    publisher is.  Each session id is announced and disposed in alternation,
    whichever session of that id the callers announce, and what the feed
    published of a session is a subsequence of its log: each event at most
    once, and in order. *)
Theorem store_consistent st : store_reachable st ->
  (forall id h, store_get id st = Some h <-> exists s, sr_heap st !! h = Some (mk_live s true) /\ sh_id (ss_header s) = id)
  /\ NoDup (store_list st) /\ (forall h, h ∈ store_list st <-> exists s, sr_heap st !! h = Some (mk_live s true))
  /\ (forall id, lifecycle (name_of st) id (sr_feed st) = Some (is_announced st id))
  /\ (forall h, published_of h (sr_feed st) `sublist_of` log_of st h).
Proof.
  intros Hi%store_reachable_inv.
  assert (Hget : forall id h, store_get id st = Some h <-> exists s, sr_heap st !! h = Some (mk_live s true) /\ sh_id (ss_header s) = id).
  { intros id h. unfold store_get. split.
    - intros (e & He & ->)%fmap_Some. destruct (sv_entry _ Hi id e) as (s & Es & Eid); [done|]. by exists s.
    - intros (s & Es & <-). by apply (sv_attached _ Hi). }
  assert (Hlive : forall h, h ∈ store_list st <-> exists s, sr_heap st !! h = Some (mk_live s true)).
  { intros h. unfold store_list. rewrite list_elem_of_omap. split.
    - intros (id & _ & Hh%Hget). destruct Hh as (s & Es & _). by exists s.
    - intros (s & Es). exists (sh_id (ss_header s)). split; [|apply Hget; by exists s]. apply (sv_order _ Hi).
      pose proof (sv_attached _ Hi _ _ Es) as E. destruct (sr_store st !! sh_id (ss_header s)); [by eexists|done]. }
  split_and!; [exact Hget| |exact Hlive|apply Hi|apply Hi].
  unfold store_list. pose proof (sv_nodup _ Hi) as Hnd. induction Hnd as [|id order Hid _ IH]; [constructor|].
  rewrite list_omap_cons. destruct (store_get id st) as [h|] eqn:Eh; [|done]. constructor; [|done]. intros (id' & Hid' & Hh)%list_elem_of_omap.
  apply Hget in Eh as (s & Es & <-). apply Hget in Hh as (s' & Es' & <-). rewrite Es in Es'. injection Es' as <-. done.
Qed.

(** ** Forking *)

Lemma header_for_valid now id meta : (forall cwd, sm_cwd meta = Some cwd -> is_absolute cwd = true) ->
  validate_header is_absolute id (header_for now id meta) = Ok tt.
Proof.
  intros Hc. unfold validate_header, header_for. cbn. rewrite bool_decide_eq_true_2 by done. rewrite bool_decide_eq_true_2 by done. cbn [negb].
  destruct (sm_cwd meta) as [cwd|]; [|done]. by rewrite Hc.
Qed.
Lemma validate_header_cwd now id meta cwd : validate_header is_absolute id (header_for now id meta) = Ok tt -> sm_cwd meta = Some cwd -> is_absolute cwd = true.
Proof.
  unfold validate_header, header_for. cbn. rewrite bool_decide_eq_true_2 by done. rewrite bool_decide_eq_true_2 by done. cbn [negb].
  intros H E. rewrite E in H. cbn in H. by destruct (is_absolute cwd).
Qed.
(** The child of a fork. *)
Record forked (st st' : SessionStore) (source : SessionId) (boundary : option Z) (child : option SessionId) (h : nat) : Prop := {
  fk_new : sr_heap st !! h = None;
  fk_child : exists hs s c seed, store_get source st = Some hs /\ session_of st hs = Some s /\ session_of st' h = Some c
    /\ seed `prefix_of` ss_log s /\ seed `prefix_of` ss_log c /\ open_turn seed = None
    /\ match boundary with Some b => Z.of_nat (length seed) = (b + 1)%Z | None => seed = ss_log s end
    /\ spec_history (ss_log c) = spec_history seed
    /\ sh_parent_session (ss_header c) = Some (sh_id (ss_header s)) /\ sh_seed_length (ss_header c) = Some (Z.of_nat (length seed))
    /\ sh_cwd (ss_header c) = sh_cwd (ss_header s)
    /\ store_get (sh_id (ss_header c)) st' = Some h /\ store_get (sh_id (ss_header c)) st = None
    /\ (forall id, child = Some id -> sh_id (ss_header c) = id);
  fk_others h' : h' <> h -> sr_heap st' !! h' = sr_heap st !! h';
}.

(** Everything but the counter of minted ids. *)
Definition same_live (st st' : SessionStore) : Prop :=
  sr_heap st' = sr_heap st /\ sr_store st' = sr_store st /\ sr_order st' = sr_order st /\ sr_feed st' = sr_feed st.
(** The part of the source a fork would copy. *)
Definition fork_prefix (s : Session) (boundary : option Z) : list SessionEvent :=
  match boundary with Some b => take (S (Z.to_nat b)) (ss_log s) | None => ss_log s end.
(** Why a fork is refused. *)
Definition fork_refused (st : SessionStore) (accepts : bool) (source : SessionId) (boundary : option Z) (child : option SessionId) (e : SessionForkError) : Prop :=
  match e with
  | FE_Exists id => child = Some id /\ is_Some (store_get id st)
  | FE_NotFound id => id = source /\ store_get source st = None
  | FE_Boundary (InvalidBoundary b _) => exists hs s, store_get source st = Some hs /\ session_of st hs = Some s
      /\ boundary = Some b /\ (Z.of_nat (length (ss_log s)) <= b)%Z
  | FE_Boundary (OpenTurn b turn) => exists hs s, store_get source st = Some hs /\ session_of st hs = Some s
      /\ open_turn (fork_prefix s boundary) = Some turn /\ Z.of_nat (length (fork_prefix s boundary)) = (b + 1)%Z
  | FE_Create _ => accepts = false \/ exists hs s cwd, store_get source st = Some hs /\ session_of st hs = Some s
      /\ sh_cwd (ss_header s) = Some cwd /\ is_absolute cwd = false
  end.
(** The forks that succeed. *)
Definition forkable (st : SessionStore) (accepts : bool) (source : SessionId) (boundary : option Z) (child : option SessionId) : Prop :=
  (forall id, child = Some id -> store_get id st = None) /\ accepts = true
  /\ exists hs s, store_get source st = Some hs /\ session_of st hs = Some s
     /\ (forall b, boundary = Some b -> (b < Z.of_nat (length (ss_log s)))%Z) /\ open_turn (fork_prefix s boundary) = None
     /\ (forall cwd, sh_cwd (ss_header s) = Some cwd -> is_absolute cwd = true).
(** The prefix a refused or granted boundary is about. *)
Lemma fork_seed_prefix s boundary : session_inv s -> (forall b, boundary = Some b -> (0 <= b)%Z) ->
  match fork_seed s boundary with
  | Ok seed => seed = fork_prefix s boundary /\ forall b, boundary = Some b -> (b < Z.of_nat (length (ss_log s)))%Z
  | Err (InvalidBoundary b _) => True
  | Err (OpenTurn b turn) => open_turn (fork_prefix s boundary) = Some turn /\ Z.of_nat (length (fork_prefix s boundary)) = (b + 1)%Z
  end.
Proof.
  intros Hinv Hb. destruct (inv_manager s Hinv) as [_ (rs & Hf)]. pose proof (fold_prefix_inv _ _ _ Hf) as Hsurf. unfold fork_seed.
  destruct (match boundary with Some b => Some b | None => ev_seq <$> last (ss_log s) end) as [b|] eqn:Eb.
  2: { destruct boundary; [done|]. apply fmap_None, last_None in Eb. unfold fork_prefix. by rewrite Eb. }
  destruct (_ <=? b)%Z eqn:Ele; [done|]. apply Z.leb_gt in Ele. cbv zeta.
  assert (Hpre : take (S (Z.to_nat b)) (ss_log s) = fork_prefix s boundary /\ (0 <= b)%Z /\ forall b', boundary = Some b' -> b' = b).
  { destruct boundary as [b'|]; [injection Eb as ->; split_and!; [done|by apply Hb|by intros ? [= ->]]|].
    apply fmap_Some in Eb as (e & He & ->). rewrite last_lookup in He. pose proof (lookup_lt_Some _ _ _ He).
    apply (si_seqs _ _ Hsurf) in He. split_and!; [|lia|done]. cbn. rewrite take_ge by lia. done. }
  destruct Hpre as (Hpre & Hb0 & Hsome).
  assert (Hlen : Z.of_nat (length (fork_prefix s boundary)) = (b + 1)%Z) by (rewrite <- Hpre, length_take; lia).
  pose proof (open_turn_rfind (take (S (Z.to_nat b)) (ss_log s))) as Ho. rewrite Hpre in *.
  assert (Hlt : forall b', boundary = Some b' -> (b' < Z.of_nat (length (ss_log s)))%Z) by (intros b' E; by rewrite (Hsome b' E)).
  destruct (rfind _ _) as [e|]; [|done]. by destruct (ev_data e).
Qed.
Lemma refused_not_forkable st accepts source boundary child e :
  fork_refused st accepts source boundary child e -> ~ forkable st accepts source boundary child.
Proof.
  intros Hr (Hc & Ha & hs & s & Hg & Hs & Hb & Ho & Hcwd). destruct e as [id|id|[b why|b turn]|e]; cbn in Hr.
  - destruct Hr as [-> Hr]. congruence.
  - destruct Hr as [-> [h Hh]]. by rewrite Hc in Hh.
  - destruct Hr as (hs' & s' & Hg' & Hs' & -> & Hle). specialize (Hb b eq_refl). assert (s' = s) as -> by congruence. lia.
  - destruct Hr as (hs' & s' & Hg' & Hs' & Ho' & _). assert (s' = s) as -> by congruence. congruence.
  - destruct Hr as [Hr|(hs' & s' & cwd & Hg' & Hs' & Hcw & Habs)]; [congruence|]. assert (s' = s) as -> by congruence.
    specialize (Hcwd cwd Hcw). congruence.
Qed.

(** C33. A fork makes a live child from a stable prefix and touches nothing
    else.  Its seed is the prefix of the source's log up to the boundary, or
    the whole log, never inside an open turn; the child starts with it,
    derives the same history from it, names its parent and the seed's length,
    and works in the same directory.  A fork succeeds exactly when the child's
    id is free, the source is live, the boundary is an event of it, the prefix
    is not inside a turn, the source's directory is absolute and the context
    takes effects; otherwise the answer names the reason that holds, and the
    live sessions are left as they were while the context takes effects. *)
Theorem fork_makes_child st now accepts source boundary child :
  store_reachable st -> source_room st -> (forall b, boundary = Some b -> (0 <= b)%Z) ->
  match fork_in now accepts source boundary child st with
  | (st', Ok h) => forked st st' source boundary child h /\ forkable st accepts source boundary child
  | (st', Err e) => (same_live st st' \/ accepts = false) /\ fork_refused st accepts source boundary child e
      /\ ~ forkable st accepts source boundary child
  end.
Proof.
  intros Hi%store_reachable_inv Hroom Hb.
  assert (Hno : forall e, fork_refused st accepts source boundary child e ->
    fork_refused st accepts source boundary child e /\ ~ forkable st accepts source boundary child).
  { intros e He. split; [done|]. by eapply refused_not_forkable. }
  unfold fork.
  destruct (child ← child; if bool_decide (is_Some (store_get child st)) then Some child else None) as [id|] eqn:Ec.
  { apply bind_Some in Ec as (id' & -> & Ec). case_bool_decide as Hx; [|done]. injection Ec as ->. split; [by left|by apply Hno]. }
  assert (Hfree : forall id, child = Some id -> store_get id st = None).
  { intros id ->. cbn in Ec. case_bool_decide as Hx; [done|]. by apply eq_None_not_Some. }
  destruct (h ← store_get source st; session_of st h) as [s|] eqn:Es.
  2: { split; [by left|]. apply Hno. split; [done|]. destruct (store_get source st) as [hs|] eqn:Eg; [|done]. unfold store_get in Eg. apply fmap_Some in Eg as (e & Ee & ->).
    destruct (sv_entry _ Hi _ _ Ee) as (s & Eh & _). cbn in Es. unfold session_of in Es. by rewrite Eh in Es. }
  apply bind_Some in Es as (hs & Eg & Es). pose proof (Hroom hs s Es) as Hs. pose proof Es as Es'. unfold session_of in Es'. apply fmap_Some in Es' as (lv & Elv & Hlv).
  assert (Hinv : session_inv s) by (rewrite Hlv; apply (sv_session _ Hi _ _ Elv)).
  pose proof (fork_seed_spec is_absolute s boundary Hinv Hs Hb) as Hseed. pose proof (fork_seed_prefix s boundary Hinv Hb) as Hprefix. destruct (fork_seed s boundary) as [seed|e] eqn:Ef.
  2: { split; [by left|]. apply Hno. destruct e as [b ?|b turn]; exists hs, s; by destruct Hseed, Hprefix || destruct Hprefix. }
  destruct Hseed as (Hpre & Hopen & Hlen & Hchild). pose proof (fork_seed_length _ _ _ Ef) as Hle.
  set (meta := mk_session_meta _ _ _ _ _ _ _).
  destruct (store_create_spec now accepts child seed meta st Hi) as (c & id' & Hid & Hnew & H); [unfold seed_room, has_room in *; lia|].
  assert (Hfree' : sr_store st !! id' = None).
  { destruct child as [i|]; [|by apply Hnew]. destruct (Hid i eq_refl) as [-> _]. specialize (Hfree i eq_refl). unfold store_get in Hfree. by apply fmap_None in Hfree. }
  destruct (create_in now accepts child seed meta st) as [st' [h|e]].
  - destruct H as (-> & Hacc & _ & ch & Ech & Ehd & ->). split; [split|].
    + by apply inv_next_free.
    + exists hs, s, ch, seed. destruct (Hchild now id' (Some (header_for now id' meta))) as (ch' & Ech' & Hpc & Hhist).
      { intros h [= <-]. apply header_for_valid. intros cwd Ecwd. cbn in Ecwd. pose proof (create_spec is_absolute now id' seed (Some (header_for now id' meta))) as Hcs.
        rewrite Ech in Hcs. destruct Hcs as (_ & Hv & _); [unfold has_room in Hs; lia|]. destruct (Hv _ eq_refl) as [_ Hval]. by apply (validate_header_cwd _ _ _ _ Hval). }
      rewrite Ech in Ech'. injection Ech' as <-. unfold session_of, store_get, with_created. cbn. rewrite Ehd. cbn. rewrite !lookup_insert_eq, Hfree'.
      split_and!; try done; [|by intros id ->; destruct (Hid id eq_refl)].
      destruct boundary as [b|]; [by apply Hlen|by apply (fork_seed_all s)].
    + intros h' Hne. unfold with_created. cbn. by rewrite lookup_insert_ne.
    + destruct Hprefix as [-> Hlt]. split_and!; [done|done|]. exists hs, s. split_and!; try done. intros cwd Ecwd.
      pose proof (create_spec is_absolute now id' (fork_prefix s boundary) (Some (header_for now id' meta))) as Hcs.
      rewrite Ech in Hcs. destruct Hcs as (_ & Hv & _); [unfold has_room in Hs; lia|]. destruct (Hv _ eq_refl) as [_ Hval].
      by apply (validate_header_cwd _ _ _ _ Hval).
  - cbn zeta in H. destruct H as [(_ & _ & Hx)|[(-> & _ & Ecr)|(-> & -> & _)]]; [rewrite Hfree' in Hx; by destruct Hx| |split; [by right|by apply Hno; left]].
    split; [by left|]. apply Hno. right. destruct (sh_cwd (ss_header s)) as [cwd|] eqn:Ecwd.
    + exists hs, s, cwd. split_and!; try done. destruct (is_absolute cwd) eqn:Ea; [|done]. exfalso.
      destruct (Hchild now id' (Some (header_for now id' meta))) as (ch & Ech & _); [|congruence]. intros h [= <-]. apply header_for_valid. cbn. intros cwd' E. congruence.
    + exfalso. destruct (Hchild now id' (Some (header_for now id' meta))) as (ch & Ech & _); [|congruence]. intros h [= <-]. apply header_for_valid. cbn. intros cwd' E. congruence.
Qed.
End operations.

(** * A small store *)

Definition demo_opened : SessionStore := (store_create demo_absolute 1 true (Some "s") [] SessionMeta_default SessionStore_new).1.
Definition demo_spoken : SessionStore :=
  session_op demo_ops 0 (OpAppend 2 (UserMessage (create_user_message "m" [CB_Text "hi"] MS_User)) (Some intent_append)) demo_opened.
Lemma demo_store_reachable : store_reachable demo_absolute demo_ops demo_spoken.
Proof.
  eapply rtc_l; [apply (ST_Create demo_absolute demo_ops 1 true (Some "s") [] SessionMeta_default); done|].
  apply rtc_once. apply ST_Op. intros s E. vm_compute in E. injection E as <-. by vm_compute.
Qed.
Lemma demo_source_room : source_room demo_spoken.
Proof.
  intros h s E. destruct h as [|h]; [vm_compute in E; injection E as <-; by vm_compute|]. unfold session_of in E. apply fmap_Some in E as (lv & E & _).
  pose proof (sv_fresh _ (store_reachable_inv _ _ _ demo_store_reachable) _ _ E) as Hlt. change (sr_next demo_spoken) with 1 in Hlt. lia.
Qed.
Lemma store_consistent_witness :
  store_list demo_spoken = [0] /\ published_of 0 (sr_feed demo_spoken) `sublist_of` log_of demo_spoken 0 /\ length (published_of 0 (sr_feed demo_spoken)) = 1.
Proof.
  destruct (store_consistent demo_absolute demo_ops demo_spoken demo_store_reachable) as (_ & _ & _ & _ & H).
  split; [by vm_compute|]. split; [apply H|by vm_compute].
Defined.
Lemma fork_makes_child_witness :
  (fork demo_absolute 5 true "s" (Some 0%Z) None demo_spoken).2 = Ok 1
  /\ forked demo_spoken (fork demo_absolute 5 true "s" (Some 0%Z) None demo_spoken).1 "s" (Some 0%Z) None 1.
Proof.
  split; [by vm_compute|].
  pose proof (fork_makes_child demo_absolute demo_ops demo_spoken 5 true "s" (Some 0%Z) None demo_store_reachable demo_source_room) as H.
  assert (E : (fork demo_absolute 5 true "s" (Some 0%Z) None demo_spoken).2 = Ok 1) by by vm_compute.
  destruct (fork demo_absolute 5 true "s" (Some 0%Z) None demo_spoken) as [st' [h|e]]; [|discriminate E]. cbn [snd] in E. injection E as ->.
  destruct H as [H _]; [intros b Eb; injection Eb as <-; lia|exact H].
Defined.
(** An entry whose disposer the context refuses stays in the store, its id
    taken, though the creation failed. *)
Example refused_effect_example :
  let '(st, r) := store_create demo_absolute 1 false (Some "s") [] SessionMeta_default SessionStore_new in
  r = Err (EffectFailed "inactive effect") /\ store_get "s" st = Some 0
  /\ (store_create demo_absolute 1 true (Some "s") [] SessionMeta_default st).2 = Err (AlreadyExists "s").
Proof. by vm_compute. Qed.
(** Announcing goes by id: a prepared twin takes the announcement of the
    session that is live. *)
Example twin_announcement_example :
  let st := (store_prepare demo_absolute 1 (Some "s") [] SessionMeta_default SessionStore_new).1 in
  let st := (store_prepare demo_absolute 1 (Some "s") [] SessionMeta_default st).1 in
  let st := (enter true 0 st).1 in
  let '(st, r) := announce 1 st in
  r = Ok () /\ sr_feed st = [Created 1] /\ (announce 0 st).2 = Err (AlreadyAnnounced "s").
Proof. by vm_compute. Qed.
