(* ===== verification/ConsumedWork.v ===== *)
(** The account of consumed work, [crates/dsh/agent/src/consumed_work.rs]: one
    fold over an agent log that tells which closed turn last accounts for input
    the agent took, and whether input was cancelled unrun after it. *)
From Stdlib Require Import ZArith Lia Ascii String.
From stdpp Require Import base tactics numbers list strings gmap.
From S2P Require Import Prelude Json Llm SessionEvents Surface HeaderFold Session Repair Inbox.
Open Scope string_scope.
Open Scope nat_scope.
Open Scope list_scope.

Record ConsumedWork := mk_consumed { cw_end : option SessionEvent; cw_dropped_unrun : bool }.

Definition accounts_for_claim (reason : TurnEndReason) : bool := match reason with TE_Completed => false | _ => true end.

(** The variables of the fold. *)
Record WorkScan := mk_work {
  ws_stepped : gset Z;
  ws_claimed : gset Z;
  ws_open : option Z;
  ws_end : option SessionEvent;
  ws_dropped : bool;
}.

Section consumed.
Context (from_value : Value -> option InboxSplice).

Definition work_splice (s : WorkScan) (splice : InboxSplice) : WorkScan :=
  match sp_removed_count splice with
  | None => s
  | Some _ =>
      match sp_outcome splice with
      | Some Canceled => mk_work (ws_stepped s) (ws_claimed s) (ws_open s) (ws_end s) (ws_dropped s || bool_decide (sp_inserted splice = []))
      | None =>
          match ws_open s with
          | Some turn => mk_work (ws_stepped s) ({[turn]} ∪ ws_claimed s) (ws_open s) (ws_end s) (ws_dropped s)
          | None => s
          end
      end
  end.
Definition work_event (s : WorkScan) (event : SessionEvent) : WorkScan :=
  match ev_data event with
  | TurnStart turn => mk_work (ws_stepped s) (ws_claimed s) (Some turn) (ws_end s) (ws_dropped s)
  | StepStart turn _ => mk_work ({[turn]} ∪ ws_stepped s) (ws_claimed s) (ws_open s) (ws_end s) (ws_dropped s)
  | TurnEnd turn reason =>
      let was_stepped := bool_decide (turn ∈ ws_stepped s) in
      let was_claimed := bool_decide (turn ∈ ws_claimed s) in
      let stepped := ws_stepped s ∖ {[turn]} in
      let claimed := ws_claimed s ∖ {[turn]} in
      if was_stepped || was_claimed && accounts_for_claim reason then mk_work stepped claimed None (Some event) false
      else mk_work stepped claimed None (ws_end s) (ws_dropped s)
  | _ => match from_event from_value event with Some splice => work_splice s splice | None => s end
  end.
Definition work_scan (events : list SessionEvent) : WorkScan := foldl work_event (mk_work ∅ ∅ None None false) events.
Definition fold_consumed_work (events : list SessionEvent) : ConsumedWork := let s := work_scan events in mk_consumed (ws_end s) (ws_dropped s).

(** * What it accounts for *)

Definition ends_turn (turn : Z) (e : SessionEvent) : Prop := exists reason, ev_data e = TurnEnd turn reason.
(** Nothing of the log from [i] on closes the turn. *)
Definition unclosed (turn : Z) (i : nat) (log : list SessionEvent) : Prop := forall j e, i <= j -> log !! j = Some e -> ~ ends_turn turn e.
(** A step of the turn began and the turn has not closed since. *)
Definition stepped (turn : Z) (log : list SessionEvent) : Prop :=
  exists i e step, log !! i = Some e /\ ev_data e = StepStart turn step /\ unclosed turn i log.
Definition claims (e : SessionEvent) : Prop :=
  exists splice, from_event from_value e = Some splice /\ sp_removed_count splice <> None /\ sp_outcome splice = None.
(** Input was claimed while the turn was the open one, not closed since. *)
Definition claimed (turn : Z) (log : list SessionEvent) : Prop :=
  exists i e, log !! i = Some e /\ claims e /\ open_turn (take i log) = Some turn /\ unclosed turn i log.
(** The event at [i] closes a turn that ran, or that claimed input and did not
    complete. *)
Definition accounts_at (log : list SessionEvent) (i : nat) (e : SessionEvent) : Prop :=
  log !! i = Some e /\ exists turn reason, ev_data e = TurnEnd turn reason
    /\ (stepped turn (take i log) \/ claimed turn (take i log) /\ reason <> TE_Completed).
Definition drops (e : SessionEvent) : Prop :=
  exists splice, from_event from_value e = Some splice /\ sp_removed_count splice <> None /\ sp_outcome splice = Some Canceled /\ sp_inserted splice = [].

Lemma lookup_snoc_inv (log : list SessionEvent) e i x : (log ++ [e]) !! i = Some x -> log !! i = Some x /\ i < length log \/ i = length log /\ x = e.
Proof.
  intros [H|[Hl H]]%lookup_app_Some; [left; split; [done|by eapply lookup_lt_Some]|]. right. destruct (i - length log) eqn:E; [|done]. cbn in H. split; [lia|congruence].
Qed.
Lemma take_snoc (log : list SessionEvent) e i : i <= length log -> take i (log ++ [e]) = take i log.
Proof. intros Hi. rewrite take_app_le by done. done. Qed.
Lemma unclosed_snoc turn i log e : i <= length log -> unclosed turn i (log ++ [e]) <-> unclosed turn i log /\ ~ ends_turn turn e.
Proof.
  intros Hi. split.
  - intros H. split; [intros j x Hj E; apply (H j x Hj); by apply lookup_app_l_Some|]. apply (H (length log)); [done|]. by rewrite lookup_app_r, Nat.sub_diag by lia.
  - intros [H He] j x Hj [[E _]|[_ ->]]%lookup_snoc_inv; [by apply (H j)|done].
Qed.
Lemma stepped_snoc turn log e : stepped turn (log ++ [e]) <-> (stepped turn log /\ ~ ends_turn turn e) \/ exists step, ev_data e = StepStart turn step.
Proof.
  split.
  - intros (i & x & step & [[E Hi]|[-> ->]]%lookup_snoc_inv & Hx & Hu); [|right; by exists step].
    apply unclosed_snoc in Hu as [Hu He]; [|lia]. left. split; [by exists i, x, step|done].
  - intros [[(i & x & step & E & Hx & Hu) He]|[step Hx]].
    + exists i, x, step. pose proof (lookup_lt_Some _ _ _ E). split_and!; [by apply lookup_app_l_Some|done|]. apply unclosed_snoc; [lia|done].
    + exists (length log), e, step. split_and!; [by rewrite lookup_app_r, Nat.sub_diag by lia|done|]. apply unclosed_snoc; [done|]. split.
      * intros j y Hj Ey%lookup_lt_Some. lia.
      * intros [reason Hr]. congruence.
Qed.
Lemma claimed_snoc turn log e : claimed turn (log ++ [e]) <-> (claimed turn log /\ ~ ends_turn turn e) \/ (claims e /\ open_turn log = Some turn).
Proof.
  split.
  - intros (i & x & [[E Hi]|[-> ->]]%lookup_snoc_inv & Hx & Ho & Hu).
    + rewrite take_snoc in Ho by lia. apply unclosed_snoc in Hu as [Hu He]; [|lia]. left. split; [by exists i, x|done].
    + right. rewrite take_snoc, take_ge in Ho by lia. done.
  - intros [[(i & x & E & Hx & Ho & Hu) He]|[Hx Ho]].
    + exists i, x. pose proof (lookup_lt_Some _ _ _ E). split_and!; [by apply lookup_app_l_Some|done|by rewrite take_snoc by lia|]. apply unclosed_snoc; [lia|done].
    + exists (length log), e. split_and!; [by rewrite lookup_app_r, Nat.sub_diag by lia|done|by rewrite take_snoc, take_ge by lia|]. apply unclosed_snoc; [done|]. split.
      * intros j y Hj Ey%lookup_lt_Some. lia.
      * intros [reason Hr]. destruct Hx as (sp & Hs & _). unfold from_event in Hs. by rewrite Hr in Hs.
Qed.
Lemma accounts_snoc log e i x : accounts_at (log ++ [e]) i x <-> accounts_at log i x \/ i = length log /\ x = e /\ exists turn reason, ev_data e = TurnEnd turn reason
    /\ (stepped turn log \/ claimed turn log /\ reason <> TE_Completed).
Proof.
  unfold accounts_at. split.
  - intros [[[E Hi]|[-> ->]]%lookup_snoc_inv H].
    + left. split; [done|]. by rewrite take_snoc in H by lia.
    + right. split_and!; [done|done|]. by rewrite take_snoc, take_ge in H by lia.
  - intros [[E H]|(-> & -> & H)].
    + pose proof (lookup_lt_Some _ _ _ E). split; [by apply lookup_app_l_Some|]. by rewrite take_snoc by lia.
    + split; [by rewrite lookup_app_r, Nat.sub_diag by lia|]. by rewrite take_snoc, take_ge by lia.
Qed.

(** ** The scan keeps the account *)

Record scan_ok (log : list SessionEvent) (s : WorkScan) : Prop := {
  sk_open : ws_open s = open_turn log;
  sk_stepped t : t ∈ ws_stepped s <-> stepped t log;
  sk_claimed t : t ∈ ws_claimed s <-> claimed t log;
  sk_end : match ws_end s with
           | Some e => exists i, accounts_at log i e /\ forall j x, accounts_at log j x -> j <= i
           | None => forall i x, ~ accounts_at log i x
           end;
  sk_dropped : ws_dropped s = true <-> exists j x, log !! j = Some x /\ drops x /\ forall i y, accounts_at log i y -> i < j;
}.

Lemma open_turn_snoc log e : open_turn (log ++ [e]) = open_turn_step (open_turn log) e.
Proof. unfold open_turn. by rewrite foldl_app. Qed.
Lemma accounts_lt log i x : accounts_at log i x -> i < length log.
Proof. intros [E _]. by eapply lookup_lt_Some. Qed.

(** An event that closes no turn. *)
Lemma scan_other log s s' e : (forall t, ~ ends_turn t e) -> scan_ok log s -> ws_end s' = ws_end s -> ws_open s' = open_turn (log ++ [e]) ->
  (forall t, t ∈ ws_stepped s' <-> t ∈ ws_stepped s \/ exists step, ev_data e = StepStart t step) ->
  (forall t, t ∈ ws_claimed s' <-> t ∈ ws_claimed s \/ (claims e /\ ws_open s = Some t)) ->
  (ws_dropped s' = true <-> ws_dropped s = true \/ drops e) -> scan_ok (log ++ [e]) s'.
Proof.
  intros Hne [H1 H2 H3 H4 H5] He Ho Hs Hc Hd.
  assert (Hacc : forall i x, accounts_at (log ++ [e]) i x <-> accounts_at log i x).
  { intros i x. rewrite accounts_snoc. split; [|by left]. intros [?|(_ & _ & t & r & Ht & _)]; [done|]. destruct (Hne t). by exists r. }
  split.
  - done.
  - intros t. rewrite Hs, stepped_snoc, H2. naive_solver.
  - intros t. rewrite Hc, claimed_snoc, H3, H1. naive_solver.
  - rewrite He. destruct (ws_end s) as [y|]; [|intros i x Ha%Hacc; by apply (H4 i x)].
    destruct H4 as (i & Hi & Hmax). exists i. split; [by apply Hacc|]. intros j x Hx%Hacc. by apply (Hmax j x).
  - rewrite Hd, H5. split.
    + intros [(j & x & Ej & Hx & Hmax)|Hx].
      * exists j, x. split_and!; [by apply lookup_app_l_Some|done|]. intros i y Hy%Hacc. by apply (Hmax i y).
      * exists (length log), e. split_and!; [by rewrite lookup_app_r, Nat.sub_diag by lia|done|]. intros i y Hy%Hacc. by eapply accounts_lt.
    + intros (j & x & [[Ej Hj]|[-> ->]]%lookup_snoc_inv & Hx & Hmax); [left|by right]. exists j, x. split_and!; [done|done|].
      intros i y Hy. apply (Hmax i y). by apply Hacc.
Qed.
(** An event that closes a turn. *)
Lemma scan_turn_end log s e turn reason : ev_data e = TurnEnd turn reason -> scan_ok log s -> scan_ok (log ++ [e]) (work_event s e).
Proof.
  intros Hr [H1 H2 H3 H4 H5]. unfold work_event. rewrite Hr.
  set (ran := bool_decide (turn ∈ ws_stepped s) || bool_decide (turn ∈ ws_claimed s) && accounts_for_claim reason).
  assert (Hran : ran = true <-> stepped turn log \/ claimed turn log /\ reason <> TE_Completed).
  { subst ran. rewrite orb_true_iff, andb_true_iff, !bool_decide_eq_true, H2, H3. unfold accounts_for_claim. destruct reason; naive_solver. }
  assert (Hnd : ~ drops e) by (intros (sp & Hs & _); unfold from_event in Hs; by rewrite Hr in Hs).
  assert (Hnc : ~ claims e) by (intros (sp & Hs & _); unfold from_event in Hs; by rewrite Hr in Hs).
  assert (Hends : forall t, ends_turn t e <-> t = turn) by (intros t; unfold ends_turn; rewrite Hr; naive_solver).
  assert (Hacc : forall i x, accounts_at (log ++ [e]) i x <-> accounts_at log i x \/ i = length log /\ x = e /\ ran = true).
  { intros i x. rewrite accounts_snoc, Hran, Hr. naive_solver. }
  assert (Hopen : None = open_turn (log ++ [e])) by (rewrite open_turn_snoc; unfold open_turn_step; by rewrite Hr).
  assert (Hst : forall t, t ∈ ws_stepped s ∖ {[turn]} <-> stepped t (log ++ [e])).
  { intros t. rewrite stepped_snoc, elem_of_difference, elem_of_singleton, H2, Hends, Hr. naive_solver. }
  assert (Hcl : forall t, t ∈ ws_claimed s ∖ {[turn]} <-> claimed t (log ++ [e])).
  { intros t. rewrite claimed_snoc, elem_of_difference, elem_of_singleton, H3, Hends. naive_solver. }
  destruct ran.
  - split; cbn; [done|done|done| |].
    + exists (length log). split; [apply Hacc; by right|]. intros j x [Hj|(-> & _)]%Hacc; [apply accounts_lt in Hj; lia|done].
    + split; [done|]. intros (j & x & [[Ej Hj]|[-> ->]]%lookup_snoc_inv & Hx & Hmax); [|done].
      specialize (Hmax (length log) e). assert (length log < j) by (apply Hmax, Hacc; by right). lia.
  - assert (Hacc' : forall i x, accounts_at (log ++ [e]) i x <-> accounts_at log i x) by (intros i x; rewrite Hacc; naive_solver).
    split; cbn; [done|done|done| |].
    + destruct (ws_end s) as [y|]; [|intros i x Ha%Hacc'; by apply (H4 i x)].
      destruct H4 as (i & Hi & Hmax). exists i. split; [by apply Hacc'|]. intros j x Hx%Hacc'. by apply (Hmax j x).
    + rewrite H5. split; intros (j & x & Ej & Hx & Hmax).
      * exists j, x. split_and!; [by apply lookup_app_l_Some|done|]. intros i y Hy%Hacc'. by apply (Hmax i y).
      * apply lookup_snoc_inv in Ej as [[Ej Hj]|[-> ->]]; [|done]. exists j, x. split_and!; [done|done|]. intros i y Hy. apply (Hmax i y). by apply Hacc'.
Qed.
(** A splice, or an event of another kind. *)
Lemma scan_splice log s e : scan_ok log s -> (forall t, ~ ends_turn t e) -> (forall t step, ev_data e <> StepStart t step) -> (forall t, ev_data e <> TurnStart t) ->
  scan_ok (log ++ [e]) (match from_event from_value e with Some splice => work_splice s splice | None => s end).
Proof.
  intros Hok Hne Hns Hnt. assert (Ho : ws_open s = open_turn (log ++ [e])).
  { rewrite open_turn_snoc, (sk_open _ _ Hok). unfold open_turn_step. destruct (ev_data e) eqn:E; try done; [by destruct (Hnt turn)|]. destruct (Hne turn). by exists reason. }
  assert (Hst : forall t, t ∈ ws_stepped s <-> t ∈ ws_stepped s \/ exists step, ev_data e = StepStart t step) by (intros t; split; [by left|intros [?|[st Hst]]; [done|by destruct (Hns t st)]]).
  assert (Hd : drops e \/ ~ drops e) by (unfold drops; destruct (from_event from_value e) as [[? ? r i o]|]; [|right; naive_solver]; destruct r, o as [[]|], i; cbn; naive_solver).
  destruct (from_event from_value e) as [sp|] eqn:Es.
  2: { apply (scan_other log s s e); try done; [|split; [by left|intros [?|(sp & Hsp & _)]; [done|congruence]]]. intros t. split; [by left|]. intros [?|[(sp & Hsp & _) _]]; [done|congruence]. }
  unfold work_splice. destruct sp as [tg start rm ins out]. cbn. destruct rm as [n|].
  2: { apply (scan_other log s s e); try done; [|split; [by left|intros [?|(sp & Hsp & Hn & _)]; [done|]]].
       - intros t. split; [by left|]. intros [?|[(sp & Hsp & Hn & _) _]]; [done|]. rewrite Es in Hsp. by injection Hsp as <-.
       - rewrite Es in Hsp. by injection Hsp as <-. }
  destruct out as [[]|].
  - apply (scan_other log s _ e); try done.
    + intros t. split; [by left|]. intros [?|[(sp & Hsp & _ & Hn) _]]; [done|]. rewrite Es in Hsp. by injection Hsp as <-.
    + cbn. rewrite orb_true_iff, bool_decide_eq_true. split; intros [?|Hx]; try (by left); right.
      * exists (mk_splice tg start (Some n) ins (Some Canceled)). by split_and!.
      * destruct Hx as (sp & Hsp & _ & _ & Hi). rewrite Es in Hsp. by injection Hsp as <-.
  - assert (Hclaims : claims e) by (exists (mk_splice tg start (Some n) ins None); by split_and!).
    assert (Hnd : ~ drops e) by (intros (sp & Hsp & _ & Hc & _); rewrite Es in Hsp; by injection Hsp as <-).
    destruct (ws_open s) as [turn|] eqn:Eo.
    + apply (scan_other log s _ e); try done; cbn; [|naive_solver]. intros t. rewrite elem_of_union, elem_of_singleton, Eo. naive_solver.
    + apply (scan_other log s s e); try done; [by rewrite Eo| |naive_solver]. intros t. rewrite Eo. naive_solver.
Qed.
Lemma work_scan_ok events : scan_ok events (work_scan events).
Proof.
  induction events as [|e log IH] using rev_ind.
  { split; cbn; try done.
    - intros t. split; [by intros ?%elem_of_empty|]. by intros (i & x & st & Hi & _).
    - intros t. split; [by intros ?%elem_of_empty|]. by intros (i & x & Hi & _).
    - by intros i x [Hi _].
    - split; [done|]. by intros (j & x & Hj & _). }
  unfold work_scan. rewrite foldl_app. cbn [foldl]. fold (work_scan log). set (s := work_scan log) in *.
  destruct (ev_data e) eqn:E; try (unfold work_event; rewrite E; apply scan_splice; [done|by intros t [r Hr]; congruence|intros t st Hst; congruence|intros t Ht; congruence]).
  - unfold work_event. rewrite E. apply (scan_other log s _ e); try done; cbn.
    + intros t [r Hr]. congruence.
    + rewrite open_turn_snoc. unfold open_turn_step. by rewrite E.
    + intros t. split; [by left|]. by intros [?|[st Hst]]; [|congruence].
    + intros t. split; [by left|]. intros [?|[(sp & Hsp & _) _]]; [done|]. unfold from_event in Hsp. by rewrite E in Hsp.
    + split; [by left|]. intros [?|(sp & Hsp & _)]; [done|]. unfold from_event in Hsp. by rewrite E in Hsp.
  - by eapply scan_turn_end.
  - unfold work_event. rewrite E. apply (scan_other log s _ e); try done; cbn.
    + intros t [r Hr]. congruence.
    + rewrite open_turn_snoc, <- (sk_open _ _ IH). unfold open_turn_step. by rewrite E.
    + intros t. rewrite elem_of_union, elem_of_singleton, E. naive_solver.
    + intros t. split; [by left|]. intros [?|[(sp & Hsp & _) _]]; [done|]. unfold from_event in Hsp. by rewrite E in Hsp.
    + split; [by left|]. intros [?|(sp & Hsp & _)]; [done|]. unfold from_event in Hsp. by rewrite E in Hsp.
Qed.

(** C35. The single pass over the log finds exactly what the log accounts for.
    It reports the last turn closing that accounts for consumed work: a turn in
    which a step began, or which claimed input while it was open and did not
    complete, a closing of the turn in between forgetting both; and that input
    was dropped unrun exactly when a cancellation that left nothing in its
    place follows every such closing. *)
Theorem consumed_work_accounts events :
  match cw_end (fold_consumed_work events) with
  | Some e => exists i, accounts_at events i e /\ forall j x, accounts_at events j x -> j <= i
  | None => forall i x, ~ accounts_at events i x
  end
  /\ (cw_dropped_unrun (fold_consumed_work events) = true <-> exists j x, events !! j = Some x /\ drops x /\ forall i y, accounts_at events i y -> i < j).
Proof. split; apply work_scan_ok. Qed.
End consumed.

(** * A small log *)

Definition demo_ev (i : Z) (d : SessionEventData) : SessionEvent := mk_event i 0 d None None None.
Definition demo_splice_value (v : Value) : option InboxSplice :=
  match v with
  | Bool true => Some (mk_splice NextTurn 0 (Some 1%Z) [] None)
  | Bool false => Some (mk_splice NextTurn 0 (Some 1%Z) [] (Some Canceled))
  | _ => None
  end.
Example consumed_work_example :
  fold_consumed_work demo_splice_value
    [demo_ev 0 (TurnStart 1); demo_ev 1 (Extension INBOX_SPLICED_EVENT (Bool true)); demo_ev 2 (TurnEnd 1 TE_Blocked);
     demo_ev 3 (TurnStart 2); demo_ev 4 (Extension INBOX_SPLICED_EVENT (Bool true)); demo_ev 5 (TurnEnd 2 TE_Completed);
     demo_ev 6 (Extension INBOX_SPLICED_EVENT (Bool false))]
  = mk_consumed (Some (demo_ev 2 (TurnEnd 1 TE_Blocked))) true.
Proof. by vm_compute. Qed.
