(* ===== verification/AgentRegistry.v ===== *)
(** The registry of live agents, [crates/dsh/agent/src/registry.rs]: entry,
    announcement and disposal by session id, the factory slot, and the
    attribution of work to the agent that initiated it.

    Agents are shared trait objects: handles, whose identity and session are
    the arguments [agent_id] and [agent_session].  The task-local initiator is
    the environment an operation runs in. *)
From Stdlib Require Import ZArith Lia Ascii String.
From stdpp Require Import base tactics numbers list strings gmap.
From S2P Require Import Prelude Json Llm SessionEvents.
Open Scope string_scope.
Open Scope nat_scope.
Open Scope list_scope.
Open Scope keel_scope.

Abbreviation AgentRef := nat.
Inductive AgentRegistryError :=
| RE_FactoryRegistered
| RE_NoFactory
| RE_NoInitiator
| RE_Disposed
| RE_IdMismatch (id session : SessionId)
| RE_Registered (id : SessionId)
| RE_NotLive (id : SessionId)
| RE_Announced (id : SessionId)
| RE_Effect.
Inductive SessionStartSource := SS_Startup | SS_Resume | SS_Clear | SS_Compact.
Record AgentEntry := mk_agent_entry { ae_agent : AgentRef; ae_owner : option SessionId; ae_announced : bool }.
Inductive InitiatorState := IS_Active | IS_Closing | IS_Disposed.
#[export] Instance InitiatorState_eq_dec : EqDecision InitiatorState.
Proof. solve_decision. Defined.
(** What the registry emits. *)
Inductive AgentFeed :=
| AgentCreated (a : AgentRef)
| AgentDisposed (a : AgentRef)
| AgentSessionStart (a : AgentRef) (source : SessionStartSource).

(** [F] is the type of factories. *)
Record AgentRegistry {F : Type} := mk_registry {
  ar_store : gmap SessionId AgentEntry;
  ar_order : list SessionId;
  ar_factory : option F;
  ar_state : InitiatorState;
  ar_sync : list (option SessionId);
  ar_feed : list AgentFeed;
}.
Arguments AgentRegistry : clear implicits.

Section registry.
Context {F : Type} (agent_id agent_session : AgentRef -> SessionId).
#[local] Abbreviation Registry := (AgentRegistry F).

Definition registry_provide : Registry := mk_registry _ ∅ [] None IS_Active [] [].
Definition set_entries (store : gmap SessionId AgentEntry) (order : list SessionId) (r : Registry) : Registry :=
  mk_registry _ store order (ar_factory r) (ar_state r) (ar_sync r) (ar_feed r).
Definition feed_agent (f : AgentFeed) (r : Registry) : Registry :=
  mk_registry _ (ar_store r) (ar_order r) (ar_factory r) (ar_state r) (ar_sync r) (ar_feed r ++ [f]).

(** ** The factory *)

Definition put_factory (f : option F) (r : Registry) : Registry := mk_registry _ (ar_store r) (ar_order r) f (ar_state r) (ar_sync r) (ar_feed r).
(** [accepts] tells whether the context takes the disposer. *)
Definition set_factory (accepts : bool) (f : F) (r : Registry) : Registry * result unit AgentRegistryError :=
  match ar_factory r with
  | Some _ => (r, Err RE_FactoryRegistered)
  | None => (put_factory (Some f) r, if accepts then Ok () else Err RE_Effect)
  end.
Definition dispose_factory (r : Registry) : Registry := put_factory None r.
Definition require_factory (r : Registry) : result F AgentRegistryError := ok_or (ar_factory r) RE_NoFactory.

(** ** Entries *)

Definition enter_agent (accepts : bool) (agent : AgentRef) (owner : option SessionId) (r : Registry) : Registry * result unit AgentRegistryError :=
  let id := agent_id agent in
  if negb (bool_decide (id = agent_session agent)) then (r, Err (RE_IdMismatch id (agent_session agent))) else
  match ar_store r !! id with
  | Some _ => (r, Err (RE_Registered id))
  | None => (set_entries (<[id := mk_agent_entry agent owner false]> (ar_store r)) (ar_order r ++ [id]) r, if accepts then Ok () else Err RE_Effect)
  end.
Definition detach_agent (id : SessionId) (r : Registry) : Registry :=
  let r' := set_entries (delete id (ar_store r)) (base.filter (fun existing => existing <> id) (ar_order r)) r in
  match ar_store r !! id with
  | Some entry => if ae_announced entry then feed_agent (AgentDisposed (ae_agent entry)) r' else r'
  | None => r'
  end.
Definition announce_agent (agent : AgentRef) (r : Registry) : Registry * result unit AgentRegistryError :=
  let id := agent_id agent in
  match ar_store r !! id with
  | None => (r, Err (RE_NotLive id))
  | Some entry =>
      if ae_announced entry then (r, Err (RE_Announced id)) else
      (feed_agent (AgentCreated (ae_agent entry))
         (set_entries (<[id := mk_agent_entry (ae_agent entry) (ae_owner entry) true]> (ar_store r)) (ar_order r) r), Ok ())
  end.
Definition register_agent (accepts : bool) (agent : AgentRef) (r : Registry) : Registry * result unit AgentRegistryError :=
  match enter_agent accepts agent None r with
  | (r, Err e) => (r, Err e)
  | (r, Ok _) => announce_agent agent r
  end.
Definition emit_session_start (agent : AgentRef) (source : SessionStartSource) (r : Registry) : Registry := feed_agent (AgentSessionStart agent source) r.

Definition agent_get (id : SessionId) (r : Registry) : option AgentRef := ae_agent <$> ar_store r !! id.
Definition is_owned_by (id owner : SessionId) (r : Registry) : bool :=
  match ar_store r !! id with Some entry => bool_decide (ae_owner entry = Some owner) | None => false end.
Definition agent_list (r : Registry) : list AgentRef := omap (fun id => agent_get id r) (ar_order r).
Definition agent_roots (r : Registry) : list AgentRef :=
  ae_agent <$> base.filter (fun entry => ae_owner entry = None) (omap (fun id => ar_store r !! id) (ar_order r)).

(** ** Initiators *)

(** The task-local: [None] outside every asynchronous boundary, [Some None]
    inside a clearing one. *)
Abbreviation Env := (option (option SessionId)).
Definition assert_initiators_open (r : Registry) : result unit AgentRegistryError :=
  if decide (ar_state r = IS_Active) then Ok () else Err RE_Disposed.
Definition current_initiator (env : Env) (r : Registry) : result (option AgentRef) AgentRegistryError :=
  if decide (ar_state r = IS_Disposed) then Err RE_Disposed else
  let id := match default None env with Some id => Some id | None => default None (last (ar_sync r)) end in
  Ok (id ← id; agent_get id r).
Definition require_initiator (env : Env) (r : Registry) : result AgentRef AgentRegistryError :=
  let? a := current_initiator env r in ok_or a RE_NoInitiator.
(** An operation runs in an environment and may use the registry. *)
Definition Operation (T : Type) : Type := Env -> Registry -> Registry * T.
Definition with_initiator {T} (agent : AgentRef) (operation : Operation T) : Operation (result T AgentRegistryError) := fun env r =>
  match assert_initiators_open r with
  | Err e => (r, Err e)
  | Ok _ => let '(r, t) := operation (Some (Some (agent_id agent))) r in (r, Ok t)
  end.
Definition without_initiator {T} (operation : Operation T) : Operation (result T AgentRegistryError) := fun env r =>
  match assert_initiators_open r with
  | Err e => (r, Err e)
  | Ok _ => let '(r, t) := operation (Some None) r in (r, Ok t)
  end.
Definition put_sync (sync : list (option SessionId)) (r : Registry) : Registry :=
  mk_registry _ (ar_store r) (ar_order r) (ar_factory r) (ar_state r) sync (ar_feed r).
Definition with_initiator_sync {T} (agent : option AgentRef) (operation : Operation T) : Operation (result T AgentRegistryError) := fun env r =>
  match assert_initiators_open r with
  | Err e => (r, Err e)
  | Ok _ =>
      let '(r, t) := operation env (put_sync (ar_sync r ++ [agent_id <$> agent]) r) in
      (put_sync (take (pred (length (ar_sync r))) (ar_sync r)) r, Ok t)
  end.
Definition put_state (state : InitiatorState) (r : Registry) : Registry := mk_registry _ (ar_store r) (ar_order r) (ar_factory r) state (ar_sync r) (ar_feed r).
Definition close_initiators (r : Registry) : Registry := if decide (ar_state r = IS_Active) then put_state IS_Closing r else r.
Definition dispose_initiators (r : Registry) : Registry := put_state IS_Disposed (close_initiators r).

(** * The registry stays consistent *)

(** Announced and disposed in alternation. *)
Definition agent_life_step (a : AgentRef) (s : option bool) (f : AgentFeed) : option bool :=
  match f with
  | AgentCreated a' => if decide (a' = a) then match s with Some false => Some true | _ => None end else s
  | AgentDisposed a' => if decide (a' = a) then match s with Some true => Some false | _ => None end else s
  | AgentSessionStart _ _ => s
  end.
Definition agent_life (a : AgentRef) (feed : list AgentFeed) : option bool := foldl (agent_life_step a) (Some false) feed.
#[local] Arguments agent_life : simpl never.
Definition announced_agent (r : Registry) (a : AgentRef) : bool :=
  match ar_store r !! agent_id a with Some e => bool_decide (ae_agent e = a) && ae_announced e | None => false end.
Record registry_inv (r : Registry) : Prop := {
  rg_nodup : NoDup (ar_order r);
  rg_order id : id ∈ ar_order r <-> is_Some (ar_store r !! id);
  rg_entry id e : ar_store r !! id = Some e -> agent_id (ae_agent e) = id /\ agent_session (ae_agent e) = id;
  rg_life a : agent_life a (ar_feed r) = Some (announced_agent r a);
}.
Lemma agent_life_snoc a feed f : agent_life a (feed ++ [f]) = agent_life_step a (agent_life a feed) f.
Proof. unfold agent_life. by rewrite foldl_app. Qed.
Lemma registry_inv_provide : registry_inv registry_provide.
Proof.
  split; cbn; [constructor| | |done].
  - intros id. rewrite lookup_empty. split; [by intros ?%elem_of_nil|by intros [? ?]].
  - intros id e E. by rewrite lookup_empty in E.
Qed.
(** What the rest of the registry does is of no concern. *)
Lemma registry_inv_frame r r' : ar_store r' = ar_store r -> ar_order r' = ar_order r -> (forall a, agent_life a (ar_feed r') = agent_life a (ar_feed r)) ->
  registry_inv r -> registry_inv r'.
Proof.
  intros E1 E2 E3 [H1 H2 H3 H4]. split; rewrite ?E1, ?E2; try done. intros a. rewrite E3, H4. unfold announced_agent. by rewrite E1.
Qed.
Lemma enter_agent_inv accepts agent owner r : registry_inv r -> registry_inv (enter_agent accepts agent owner r).1.
Proof.
  intros Hi. unfold enter_agent. case_bool_decide as Hs; [|done]. cbn [negb]. destruct (ar_store r !! agent_id agent) eqn:Es; [done|].
  destruct Hi as [H1 H2 H3 H4]. set (id := agent_id agent) in *. split; cbn.
  - apply NoDup_app. split_and!; [done| |apply NoDup_singleton]. intros x Hx ->%list_elem_of_singleton. apply H2 in Hx. rewrite Es in Hx. by destruct Hx.
  - intros x. rewrite elem_of_app, list_elem_of_singleton, H2. destruct (decide (x = id)) as [->|Hne].
    + rewrite lookup_insert_eq. split; [by eexists|by right].
    + rewrite lookup_insert_ne by done. split; [by intros [|]|by left].
  - intros x e E. destruct (decide (x = id)) as [->|Hne]; [rewrite lookup_insert_eq in E; by injection E as <-|]. rewrite lookup_insert_ne in E by done. by apply H3.
  - intros a. rewrite H4. f_equal. unfold announced_agent. cbn. destruct (decide (agent_id a = id)) as [Eq|Hne]; [|by rewrite lookup_insert_ne].
    rewrite Eq, Es, lookup_insert_eq. cbn. by rewrite andb_false_r.
Qed.
Lemma announce_agent_inv agent r : registry_inv r -> registry_inv (announce_agent agent r).1.
Proof.
  intros Hi. unfold announce_agent. destruct (ar_store r !! agent_id agent) as [e|] eqn:Es; [|done]. destruct (ae_announced e) eqn:Ea; [done|].
  destruct Hi as [H1 H2 H3 H4]. set (id := agent_id agent) in *. destruct (H3 id e Es) as [Hid Hse]. split; cbn.
  - done.
  - intros x. rewrite H2. destruct (decide (x = id)) as [->|Hne]; [rewrite lookup_insert_eq, Es; split; intros _; by eexists|by rewrite lookup_insert_ne].
  - intros x e' E. destruct (decide (x = id)) as [->|Hne]; [rewrite lookup_insert_eq in E; by injection E as <-|]. rewrite lookup_insert_ne in E by done. by apply H3.
  - intros a. rewrite agent_life_snoc, H4. cbn. destruct (decide (ae_agent e = a)) as [<-|Hne].
    + unfold announced_agent. cbn. rewrite Hid, Es, lookup_insert_eq, Ea, andb_false_r. cbn. by rewrite bool_decide_eq_true_2.
    + f_equal. unfold announced_agent. cbn. destruct (decide (agent_id a = id)) as [Eq|Hx]; [|by rewrite lookup_insert_ne].
      rewrite Eq, Es, lookup_insert_eq. cbn. by rewrite !bool_decide_eq_false_2.
Qed.
Lemma detach_agent_inv id r : registry_inv r -> registry_inv (detach_agent id r).
Proof.
  intros Hi. pose proof Hi as [H1 H2 H3 H4].
  assert (Hgone : forall x, x ∈ base.filter (fun existing => existing <> id) (ar_order r) <-> is_Some (delete id (ar_store r) !! x)).
  { intros x. rewrite list_elem_of_filter, H2. destruct (decide (x = id)) as [->|Hne]; [rewrite lookup_delete_eq; split; [by intros [? _]|by intros [? ?]]|].
    rewrite lookup_delete_ne by done. naive_solver. }
  assert (Hent : forall x e, delete id (ar_store r) !! x = Some e -> agent_id (ae_agent e) = x /\ agent_session (ae_agent e) = x).
  { intros x e E. apply H3. by apply lookup_delete_Some in E as [_ E]. }
  assert (Hann : forall a feed, announced_agent (mk_registry _ (delete id (ar_store r)) (base.filter (fun existing => existing <> id) (ar_order r)) (ar_factory r) (ar_state r) (ar_sync r) feed) a
    = if decide (agent_id a = id) then false else announced_agent r a).
  { intros a feed. unfold announced_agent. cbn. destruct (decide (agent_id a = id)) as [->|Hne]; [by rewrite lookup_delete_eq|by rewrite lookup_delete_ne]. }
  unfold detach_agent. destruct (ar_store r !! id) as [e|] eqn:Es.
  2: { split; cbn; [by apply NoDup_filter|done|done|]. intros a. unfold set_entries. rewrite Hann, H4. f_equal. destruct (decide _) as [Eq|]; [|done]. unfold announced_agent. by rewrite Eq, Es. }
  destruct (H3 id e Es) as [Hid _]. destruct (ae_announced e) eqn:Ea; (split; cbn; [by apply NoDup_filter|done|done|]); intros a; unfold feed_agent, set_entries; cbn.
  - rewrite agent_life_snoc, Hann, H4. cbn. destruct (decide (ae_agent e = a)) as [<-|Hne].
    + unfold announced_agent. rewrite Hid, Es, Ea. rewrite bool_decide_eq_true_2 by done. by rewrite decide_True.
    + destruct (decide (agent_id a = id)) as [Eq|]; [|done]. unfold announced_agent. by rewrite Eq, Es, bool_decide_eq_false_2.
  - rewrite Hann, H4. f_equal. destruct (decide (agent_id a = id)) as [Eq|]; [|done]. unfold announced_agent. by rewrite Eq, Es, Ea, andb_false_r.
Qed.

Inductive registry_step : Registry -> Registry -> Prop :=
| RS_Enter accepts agent owner r : registry_step r (enter_agent accepts agent owner r).1
| RS_Register accepts agent r : registry_step r (register_agent accepts agent r).1
| RS_Announce agent r : registry_step r (announce_agent agent r).1
| RS_Detach id r : registry_step r (detach_agent id r)
| RS_Start agent source r : registry_step r (emit_session_start agent source r)
| RS_Factory accepts f r : registry_step r (set_factory accepts f r).1
| RS_DisposeFactory r : registry_step r (dispose_factory r)
| RS_Close r : registry_step r (close_initiators r)
| RS_Dispose r : registry_step r (dispose_initiators r)
| RS_Sync sync r : registry_step r (put_sync sync r).
Lemma registry_step_inv r r' : registry_inv r -> registry_step r r' -> registry_inv r'.
Proof.
  intros Hi Hs. destruct Hs as [accepts agent owner r|accepts agent r|agent r|id r|agent source r|accepts f r|r|r|r|sync r].
  - by apply enter_agent_inv.
  - unfold register_agent. pose proof (enter_agent_inv accepts agent None r Hi) as He. destruct (enter_agent accepts agent None r) as [r' [?|e]]; [by apply announce_agent_inv|done].
  - by apply announce_agent_inv.
  - by apply detach_agent_inv.
  - apply (registry_inv_frame r); [done..| |exact Hi]. intros a. cbn. by rewrite agent_life_snoc.
  - unfold set_factory. destruct (ar_factory r); [done|]. by apply (registry_inv_frame r).
  - by apply (registry_inv_frame r).
  - unfold close_initiators. destruct (decide _); [by apply (registry_inv_frame r)|done].
  - unfold dispose_initiators, close_initiators. destruct (decide _); by apply (registry_inv_frame r).
  - by apply (registry_inv_frame r).
Qed.

(** The registry lists each live agent once, in the order of entry, under
    the id of its own session; the roots are the listed agents nobody owns;
    and each agent is announced and disposed in alternation, whatever the
    sequence of entries, registrations, announcements and disposals. *)
Theorem agents_consistent r : rtc registry_step registry_provide r ->
  NoDup (agent_list r)
  /\ (forall a, a ∈ agent_list r <-> agent_get (agent_id a) r = Some a)
  /\ (forall id a, agent_get id r = Some a -> agent_id a = id /\ agent_session a = id)
  /\ agent_roots r = base.filter (fun a => from_option ae_owner None (ar_store r !! agent_id a) = None) (agent_list r)
  /\ (forall a, agent_life a (ar_feed r) = Some (announced_agent r a)).
Proof.
  intros Hr. assert (Hi : registry_inv r).
  { assert (H : forall x, rtc registry_step x r -> registry_inv x -> registry_inv r); [|by eapply H, registry_inv_provide].
    clear Hr. intros x Hr. induction Hr as [|a b c Hab _ IH]; [done|]. intros Ha. by apply IH, (registry_step_inv a). }
  pose proof Hi as [H1 H2 H3 H4].
  assert (Hget : forall id a, agent_get id r = Some a -> agent_id a = id /\ agent_session a = id).
  { intros id a (e & He & ->)%fmap_Some. by apply H3. }
  assert (Hin : forall a, a ∈ agent_list r <-> agent_get (agent_id a) r = Some a).
  { intros a. unfold agent_list. rewrite list_elem_of_omap. split; [intros (id & _ & Hg); by destruct (Hget id a Hg) as [-> _]|].
    intros Hg. exists (agent_id a). split; [|done]. apply H2. unfold agent_get in Hg. by destruct (ar_store r !! agent_id a). }
  split_and!; [|exact Hin|exact Hget| |done].
  - unfold agent_list. clear -H1 Hget. induction H1 as [|id order Hid _ IH]; [constructor|]. rewrite list_omap_cons.
    destruct (agent_get id r) as [a|] eqn:Ea; [|done]. constructor; [|done]. intros (id' & Hid' & Ea')%list_elem_of_omap.
    destruct (Hget _ _ Ea) as [E1 _]. destruct (Hget _ _ Ea') as [E2 _]. congruence.
  - unfold agent_roots, agent_list. clear -H3. induction (ar_order r) as [|id order IH]; [done|]. rewrite !list_omap_cons. unfold agent_get at 1.
    destruct (ar_store r !! id) as [e|] eqn:Ee; [|done]. cbn [fmap option_fmap option_map]. destruct (H3 id e Ee) as [Hid _].
    destruct (decide (ae_owner e = None)) as [Ho|Ho].
    + rewrite !filter_cons_True; [by rewrite fmap_cons, IH|by rewrite Hid, Ee|done].
    + rewrite !filter_cons_False; [done|by rewrite Hid, Ee|done].
Qed.

(** A synchronous boundary leaves the stack as it found it when what runs
    inside does. *)
Lemma with_initiator_sync_balanced {T} agent (operation : Operation T) env r :
  (forall env r, ar_sync (operation env r).1 = ar_sync r) -> ar_sync (with_initiator_sync agent operation env r).1 = ar_sync r.
Proof.
  intros Hop. unfold with_initiator_sync. destruct (assert_initiators_open r); [|done].
  pose proof (Hop env (put_sync (ar_sync r ++ [agent_id <$> agent]) r)) as E. destruct (operation env _) as [r' t]. cbn in *.
  rewrite E, length_app, Nat.add_1_r. cbn [Nat.pred]. by rewrite take_app_length.
Qed.
(** Inside an asynchronous boundary its agent is the initiator, whatever the
    synchronous stack holds. *)
Lemma async_boundary_wins agent r : ar_state r = IS_Active ->
  (with_initiator agent (fun env r => (r, current_initiator env r)) None r).2 = Ok (Ok (agent_get (agent_id agent) r)).
Proof. intros Hs. unfold with_initiator, assert_initiators_open, current_initiator. rewrite decide_True by done. by rewrite Hs. Qed.
(** After disposal no boundary opens and nothing is attributed. *)
Lemma disposed_initiators {T} agent (operation : Operation T) env r :
  (with_initiator agent operation env (dispose_initiators r)).2 = Err RE_Disposed /\ current_initiator env (dispose_initiators r) = Err RE_Disposed.
Proof. done. Qed.
End registry.

(** * A small registry *)

Definition demo_agent_id (a : AgentRef) : SessionId := if decide (a = 0) then "a" else "b".
Definition demo_agents : AgentRegistry unit :=
  (register_agent demo_agent_id demo_agent_id true 1 (register_agent demo_agent_id demo_agent_id true 0 registry_provide).1).1.
Lemma agents_consistent_witness : NoDup (agent_list demo_agents) /\ agent_list demo_agents = [0; 1].
Proof.
  destruct (agents_consistent demo_agent_id demo_agent_id demo_agents) as (H & _).
  - eapply rtc_l; [apply (RS_Register demo_agent_id demo_agent_id true 0)|]. apply rtc_once. apply (RS_Register demo_agent_id demo_agent_id true 1).
  - split; [exact H|by vm_compute].
Defined.
(** A synchronous boundary inside an asynchronous one is not read: neither a
    clearing one nor one that names another agent. *)
Example sync_boundary_hidden :
  (with_initiator demo_agent_id 0 (fun env r => with_initiator_sync demo_agent_id None (fun env r => (r, current_initiator env r)) env r) None demo_agents).2
    = Ok (Ok (Ok (Some 0)))
  /\ (with_initiator demo_agent_id 0 (fun env r => with_initiator_sync demo_agent_id (Some 1) (fun env r => (r, current_initiator env r)) env r) None demo_agents).2
    = Ok (Ok (Ok (Some 0))).
Proof. by vm_compute. Qed.
(** Nor does a clearing asynchronous boundary hide a synchronous one. *)
Example clearing_boundary_leaks :
  (with_initiator_sync demo_agent_id (Some 1) (fun env r => without_initiator (fun env r => (r, current_initiator env r)) env r) None demo_agents).2
    = Ok (Ok (Ok (Some 1))).
Proof. by vm_compute. Qed.
