(* ===== verification/CordisFiber.v ===== *)
(** The life of one plugin fiber, [crates/dsh/cordis/src/core.rs] and
    [disposer.rs]: the epoch that says whether its services are there, the
    driver that loads and unloads it, and the effects it owns.

    The fiber's surroundings may recompute the epoch, register or dispose
    effects, poll a disposal, restart, update or dispose the fiber between any
    two steps of the driver.  Disposers are numbers; what they do to the fiber
    are steps of their own. *)
From Stdlib Require Import ZArith Lia Ascii String.
From stdpp Require Import base tactics numbers list strings gmap.
From S2P Require Import Prelude.
Open Scope string_scope.
Open Scope nat_scope.
Open Scope list_scope.

Inductive FiberState := FS_Pending | FS_Loading | FS_Active | FS_Failed | FS_Disposed | FS_Unloading.
#[export] Instance FiberState_eq_dec : EqDecision FiberState.
Proof. solve_decision. Defined.
(** [EpochOf] carries the uids of the providers, concatenated. *)
Inductive Epoch := Inactive | EpochOf (providers : string).
#[export] Instance Epoch_eq_dec : EqDecision Epoch.
Proof. solve_decision. Defined.

(** * Effects *)

Inductive Effect := EffectNone | EffectOne (d : nat) | EffectMany (ds : list nat).
Definition into_disposers (e : Effect) : list nat := match e with EffectNone => [] | EffectOne d => [d] | EffectMany ds => ds end.
(** Either not disposed, or with the shared task of its disposal: the disposers
    that has still to run. *)
Inductive EffectState := ES_Held (disposers : list nat) | ES_Task (rest : list nat).
#[export] Instance EffectState_eq_dec : EqDecision EffectState.
Proof. solve_decision. Defined.
(** [EffectHandle::dispose]. *)
Definition dispose_effect (es : EffectState) : EffectState := match es with ES_Task _ => es | ES_Held ds => ES_Task (reverse ds) end.
(** What the effect has still to run, in its order. *)
Definition effect_rest (es : EffectState) : list nat := match es with ES_Held ds => reverse ds | ES_Task rest => rest end.

(** * The fiber *)

(** Where the driver of a transition is: no driver is no inertia. *)
Inductive Driver :=
| D_Begin (loading : bool)
| D_Yielded (expected : Epoch)      (* do_load, after its snapshot *)
| D_Body                            (* the plugin body runs *)
| D_Draining (handles : list nat)   (* do_unload *)
| D_Decide (loading : bool).
Inductive FiberLog := L_Body (epoch : Epoch) | L_Unloaded | L_Effect (ds : list nat) | L_Ran (h d : nat).
Record FiberData := mk_fiber {
  fb_alive : bool;                       (* the uid is set *)
  fb_listed : bool;                      (* the runtime record lists the fiber *)
  fb_state : FiberState;
  fb_epoch : Epoch;
  fb_error : bool;
  fb_driver : option Driver;
  fb_disposables : list nat;             (* effect handles, in the order of registration *)
  fb_effects : list EffectState;         (* by handle *)
  fb_log : list FiberLog;
}.
Definition fiber_new : FiberData := mk_fiber true true FS_Pending Inactive false None [] [] [].

Definition set_driver (d : option Driver) (f : FiberData) : FiberData :=
  mk_fiber (fb_alive f) (fb_listed f) (fb_state f) (fb_epoch f) (fb_error f) d (fb_disposables f) (fb_effects f) (fb_log f).
Definition update_state (new_state : FiberState) (f : FiberData) : FiberData :=
  mk_fiber (fb_alive f) (fb_listed f) new_state (fb_epoch f) (fb_error f) (fb_driver f) (fb_disposables f) (fb_effects f) (fb_log f).
Definition put_epoch (e : Epoch) (f : FiberData) : FiberData :=
  mk_fiber (fb_alive f) (fb_listed f) (fb_state f) e (fb_error f) (fb_driver f) (fb_disposables f) (fb_effects f) (fb_log f).
Definition put_error (e : bool) (f : FiberData) : FiberData :=
  mk_fiber (fb_alive f) (fb_listed f) (fb_state f) (fb_epoch f) e (fb_driver f) (fb_disposables f) (fb_effects f) (fb_log f).
Definition put_log (l : FiberLog) (f : FiberData) : FiberData :=
  mk_fiber (fb_alive f) (fb_listed f) (fb_state f) (fb_epoch f) (fb_error f) (fb_driver f) (fb_disposables f) (fb_effects f) (fb_log f ++ [l]).
Definition put_effects (disposables : list nat) (effects : list EffectState) (f : FiberData) : FiberData :=
  mk_fiber (fb_alive f) (fb_listed f) (fb_state f) (fb_epoch f) (fb_error f) (fb_driver f) disposables effects (fb_log f).

Definition phase_state (loading : bool) : FiberState := if loading then FS_Loading else FS_Unloading.
Definition start_transition (loading : bool) (f : FiberData) : FiberData :=
  update_state (phase_state loading) (set_driver (Some (D_Begin loading)) f).
Definition set_epoch (epoch : Epoch) (f : FiberData) : FiberData :=
  if decide (fb_epoch f = epoch) then f else
  let old := fb_epoch f in
  let f := put_epoch epoch f in
  match fb_driver f with
  | Some _ => f
  | None => start_transition (bool_decide (epoch <> Inactive) && bool_decide (old = Inactive)) f
  end.
Definition settled_state (f : FiberData) : FiberState :=
  if negb (fb_alive f) then FS_Disposed else if fb_error f then FS_Failed else
  if decide (fb_epoch f = Inactive) then FS_Pending else FS_Active.

(** [effect_labeled] after its body: the handle is pushed. *)
Definition push_effect (e : Effect) (f : FiberData) : FiberData :=
  put_log (L_Effect (into_disposers e)) (put_effects (fb_disposables f ++ [length (fb_effects f)]) (fb_effects f ++ [ES_Held (into_disposers e)]) f).
Definition takes_effects (f : FiberData) : bool := fb_alive f && negb (bool_decide (fb_state f = FS_Unloading)).
(** [effect_labeled]: [None] when the fiber takes no more effects; [epochs] are
    those its body makes the fiber compute, by providing services. *)
Definition effect_labeled (epochs : list Epoch) (e : Effect) (f : FiberData) : option FiberData :=
  if takes_effects f then Some (push_effect e (foldl (fun f epoch => set_epoch epoch f) f epochs)) else None.
Definition dispose_handle (h : nat) (f : FiberData) : FiberData := put_effects (fb_disposables f) (alter dispose_effect h (fb_effects f)) f.
(** The next step of a disposal under way, for whoever awaits it. *)
Definition poll_handle (h : nat) (f : FiberData) : FiberData :=
  match fb_effects f !! h with
  | Some (ES_Task (d :: rest)) => put_log (L_Ran h d) (put_effects (fb_disposables f) (<[h := ES_Task rest]> (fb_effects f)) f)
  | _ => f
  end.
(** [DisposableList::clear]. *)
Definition clear_disposables (f : FiberData) : FiberData * list nat := (put_effects [] (fb_effects f) f, reverse (fb_disposables f)).
Definition disposal_done (h : nat) (f : FiberData) : bool :=
  match fb_effects f !! h with Some es => bool_decide (es = ES_Task []) | None => true end.

(** ** The driver *)

(** One step of the task of [start_transition]; [failed] is how the body ends,
    [known] whether the plugin's runtime record is still there. *)
Definition fiber_drive (failed known : bool) (f : FiberData) : FiberData :=
  match fb_driver f with
  | None => f
  | Some (D_Begin true) => set_driver (Some (D_Yielded (fb_epoch f))) f
  | Some (D_Yielded expected) =>
      if bool_decide (fb_epoch f = expected) && known then put_log (L_Body expected) (set_driver (Some D_Body) f) else set_driver (Some (D_Decide true)) f
  | Some D_Body =>
      let f := if failed then put_epoch Inactive (put_error true f) else put_error false f in set_driver (Some (D_Decide true)) f
  | Some (D_Begin false) => let '(f, handles) := clear_disposables f in set_driver (Some (D_Draining handles)) f
  | Some (D_Draining (h :: handles)) =>
      (* asking again for a disposal joins its task *)
      let f := dispose_handle h f in if disposal_done h f then set_driver (Some (D_Draining handles)) f else poll_handle h f
  | Some (D_Draining []) => put_log L_Unloaded (set_driver (Some (D_Decide false)) f)
  | Some (D_Decide loading) =>
      match loading, fb_epoch f with
      | true, Inactive => start_transition false f
      | false, EpochOf _ => start_transition true f
      | _, _ => let f := set_driver None f in update_state (settled_state f) f
      end
  end.

(** ** Operations *)

(** [dispose]: up to its event, from there to its wait, and its end. *)
Definition dispose_begin (f : FiberData) : FiberData :=
  mk_fiber false (fb_listed f) (fb_state f) (fb_epoch f) (fb_error f) (fb_driver f) (fb_disposables f) (fb_effects f) (fb_log f).
Definition dispose_unload (f : FiberData) : FiberData :=
  let f := mk_fiber (fb_alive f) false (fb_state f) (fb_epoch f) (fb_error f) (fb_driver f) (fb_disposables f) (fb_effects f) (fb_log f) in
  let f := set_epoch Inactive f in
  if bool_decide (fb_driver f = None) && negb (bool_decide (fb_disposables f = [])) then start_transition false f else f.
Definition dispose_end (f : FiberData) : FiberData := update_state FS_Disposed f.
(** [restart] up to its wait; [refreshed] is the epoch [refresh] computes. *)
Definition restart (refreshed : Epoch) (f : FiberData) : option FiberData :=
  if fb_alive f then Some (set_epoch refreshed (set_epoch Inactive f)) else None.
(** [update]: at once on a fiber that is not active, else through the
    waterfall, whose innermost step is [update_inner]. *)
Definition update_inactive (refreshed : Epoch) (f : FiberData) : option FiberData :=
  if negb (fb_alive f) || bool_decide (fb_state f = FS_Active) then None
  else Some (set_epoch refreshed (set_epoch Inactive (put_error false f))).
Definition update_inner (refreshed : Epoch) (f : FiberData) : FiberData :=
  let f := put_error false f in default f (restart refreshed f).

Inductive fiber_step : FiberData -> FiberData -> Prop :=
| FT_Drive failed known f : is_Some (fb_driver f) -> (fb_listed f = true -> known = true) -> fiber_step f (fiber_drive failed known f)
| FT_Epoch epoch f : fb_listed f = true -> fiber_step f (set_epoch epoch f)
| FT_Effect epochs e f f' : (epochs <> [] -> fb_listed f = true) -> effect_labeled epochs e f = Some f' -> fiber_step f f'
| FT_DisposeHandle h f : fiber_step f (dispose_handle h f)
| FT_PollHandle h f : fiber_step f (poll_handle h f)
| FT_DisposeBegin f : fb_alive f = true -> fiber_step f (dispose_begin f)
| FT_DisposeUnload f : fb_alive f = false -> fb_listed f = true -> fiber_step f (dispose_unload f)
| FT_DisposeEnd f : fb_listed f = false -> fb_driver f = None -> fiber_step f (dispose_end f)
| FT_Restart epoch f f' : restart epoch f = Some f' -> fiber_step f f'
| FT_Update epoch f f' : update_inactive epoch f = Some f' -> fiber_step f f'
| FT_UpdateInner epoch f : fiber_step f (update_inner epoch f).
Definition fiber_reachable (f : FiberData) : Prop := rtc fiber_step fiber_new f.

(** * What the log says *)

Definition registered (log : list FiberLog) : list (list nat) := omap (fun l => match l with L_Effect ds => Some ds | _ => None end) log.
Definition ran_by (h : nat) (log : list FiberLog) : list nat := omap (fun l => match l with L_Ran h' d => if decide (h' = h) then Some d else None | _ => None end) log.
(** Every disposer registered has run, each effect's newest first. *)
Definition all_disposed (log : list FiberLog) : Prop := forall h ds, registered log !! h = Some ds -> ran_by h log = reverse ds.
Definition unloads_clean (log : list FiberLog) : Prop := forall l1 l2, log = l1 ++ L_Unloaded :: l2 -> all_disposed l1.
(** The last body has not been unloaded. *)
Fixpoint loaded (running : bool) (log : list FiberLog) : bool :=
  match log with
  | [] => running
  | L_Body _ :: log => loaded true log
  | L_Unloaded :: log => loaded false log
  | _ :: log => loaded running log
  end.
(** Between two bodies there is an unload. *)
Fixpoint bodies_apart (running : bool) (log : list FiberLog) : Prop :=
  match log with
  | [] => True
  | L_Body _ :: log => running = false /\ bodies_apart true log
  | L_Unloaded :: log => bodies_apart false log
  | _ :: log => bodies_apart running log
  end.

Lemma registered_app l1 l2 : registered (l1 ++ l2) = registered l1 ++ registered l2.
Proof. apply omap_app. Qed.
Lemma ran_by_app h l1 l2 : ran_by h (l1 ++ l2) = ran_by h l1 ++ ran_by h l2.
Proof. apply omap_app. Qed.
Lemma loaded_app r l1 l2 : loaded r (l1 ++ l2) = loaded (loaded r l1) l2.
Proof. revert r; induction l1 as [|[] l1 IH]; intros r; cbn; auto. Qed.
Lemma bodies_apart_app r l1 l2 : bodies_apart r (l1 ++ l2) <-> bodies_apart r l1 /\ bodies_apart (loaded r l1) l2.
Proof. revert r; induction l1 as [|[] l1 IH]; intros r; cbn; rewrite ?IH; tauto. Qed.
Lemma unloads_clean_snoc log l : unloads_clean log -> (l = L_Unloaded -> all_disposed log) -> unloads_clean (log ++ [l]).
Proof.
  intros Hu Hl l1 l2 E.
  destruct (decide (l2 = [])) as [->|Hne]; [apply app_inj_tail in E as [<- ->]; auto|].
  destruct (exists_last Hne) as (l2' & x & ->). change (L_Unloaded :: l2' ++ [x]) with ((L_Unloaded :: l2') ++ [x]) in E.
  rewrite app_assoc in E. apply app_inj_tail in E as [E _]. exact (Hu _ _ E).
Qed.

(** * The invariant *)

(** The handles a driver still has to dispose. *)
Definition draining (d : option Driver) : list nat :=
  match d with Some (D_Draining hs) => hs | _ => [] end.

(** An effect's record and its log agree. *)
Definition effect_agrees (log : list FiberLog) (h : nat) (es : option EffectState) : Prop :=
  match es, registered log !! h with
  | Some es, Some ds => ran_by h log ++ effect_rest es = reverse ds
  | None, None => ran_by h log = []
  | _, _ => False
  end.
Record effects_inv (f : FiberData) : Prop := {
  ei_agree h : effect_agrees (fb_log f) h (fb_effects f !! h);
  ei_clean : unloads_clean (fb_log f);
  ei_held h es : fb_effects f !! h = Some es -> es <> ES_Task [] -> h ∈ fb_disposables f \/ h ∈ draining (fb_driver f);
  ei_apart : bodies_apart false (fb_log f);
}.
Record control_inv (f : FiberData) : Prop := {
  ci_listed : fb_listed f = false -> fb_alive f = false /\ fb_epoch f = Inactive;
  ci_driver : match fb_driver f with
    | None => (loaded false (fb_log f) = true -> fb_epoch f <> Inactive) /\ (fb_listed f = false -> fb_disposables f = [])
              /\ (fb_state f = FS_Active -> fb_epoch f <> Inactive) /\ fb_state f <> FS_Loading /\ fb_state f <> FS_Unloading
    | Some (D_Begin true) | Some (D_Yielded _) => loaded false (fb_log f) = false /\ fb_state f = FS_Loading
    | Some D_Body | Some (D_Decide true) => fb_state f = FS_Loading
    | Some (D_Begin false) => fb_state f = FS_Unloading
    | Some (D_Draining _) => fb_disposables f = [] /\ fb_state f = FS_Unloading
    | Some (D_Decide false) => loaded false (fb_log f) = false /\ fb_disposables f = [] /\ fb_state f = FS_Unloading
    end;
}.

(** ** Changes that keep the effects *)

Lemma effects_inv_same f f' : effects_inv f -> fb_effects f' = fb_effects f -> fb_log f' = fb_log f -> fb_disposables f' = fb_disposables f ->
  (forall h, h ∈ draining (fb_driver f) -> h ∈ draining (fb_driver f')) -> effects_inv f'.
Proof.
  intros [Ha Hc Hh Hb] E1 E2 E3 Hd. split; rewrite ?E1, ?E2, ?E3; auto.
  intros h es L T. destruct (Hh h es L T) as [?|?]; auto.
Qed.
Lemma start_effects loading f : effects_inv f -> fb_driver f = None \/ (exists b, fb_driver f = Some (D_Decide b)) -> effects_inv (start_transition loading f).
Proof. intros H D. apply (effects_inv_same f); auto. destruct D as [->|[b ->]]; cbn; set_solver. Qed.
Lemma set_epoch_effects e f : effects_inv f -> effects_inv (set_epoch e f).
Proof.
  intros H. unfold set_epoch. case_decide; [done|]. cbn [put_epoch fb_driver].
  assert (P : effects_inv (put_epoch e f)) by (apply (effects_inv_same f); auto).
  destruct (fb_driver f) eqn:D; [exact P|]. apply start_effects; [exact P|left; exact D].
Qed.
(** A step that runs a disposer or starts a disposal. *)
Lemma effects_alter h es es' l f : effects_inv f -> fb_effects f !! h = Some es ->
  ran_by h l ++ effect_rest es' = effect_rest es -> registered l = [] -> (forall h', h' <> h -> ran_by h' l = []) ->
  (es' <> ES_Task [] -> es <> ES_Task []) -> (l = [] \/ exists d, l = [L_Ran h d]) ->
  effects_inv (mk_fiber (fb_alive f) (fb_listed f) (fb_state f) (fb_epoch f) (fb_error f) (fb_driver f) (fb_disposables f)
                 (<[h := es']> (fb_effects f)) (fb_log f ++ l)).
Proof.
  intros [Ha Hc Hh Hb] L Hrest Hreg Hother Htask Hl. split; cbn.
  - intros h'. specialize (Ha h'). unfold effect_agrees in *. rewrite registered_app, Hreg, app_nil_r, ran_by_app.
    destruct (decide (h' = h)) as [->|Hne].
    + rewrite list_lookup_insert_eq by (apply lookup_lt_is_Some; eauto). rewrite L in Ha.
      destruct (registered (fb_log f) !! h); [|done]. by rewrite <- app_assoc, Hrest.
    + rewrite list_lookup_insert_ne by auto. rewrite (Hother _ Hne), app_nil_r. exact Ha.
  - destruct Hl as [->|[d ->]]; [by rewrite app_nil_r|apply unloads_clean_snoc; [exact Hc|discriminate]].
  - intros h' es0 L' T'. destruct (decide (h' = h)) as [->|Hne].
    + rewrite list_lookup_insert_eq in L' by (apply lookup_lt_is_Some; eauto). injection L' as <-. exact (Hh h es L (Htask T')).
    + rewrite list_lookup_insert_ne in L' by auto. exact (Hh _ _ L' T').
  - apply bodies_apart_app. split; [exact Hb|]. destruct Hl as [->|[d ->]]; exact I.
Qed.
Lemma dispose_handle_effects h f : effects_inv f -> effects_inv (dispose_handle h f).
Proof.
  intros H. unfold dispose_handle. destruct (fb_effects f !! h) as [es|] eqn:L.
  - pose proof (effects_alter h es (dispose_effect es) [] f H L) as P.
    assert (alter dispose_effect h (fb_effects f) = <[h := dispose_effect es]> (fb_effects f)) as ->.
    { apply list_eq. intros i. destruct (decide (i = h)) as [->|]; [rewrite list_lookup_alter_eq, L, list_lookup_insert_eq; [done|apply lookup_lt_is_Some; eauto]|].
      by rewrite list_lookup_alter_ne, list_lookup_insert_ne. }
    eapply effects_inv_same; [apply P|..]; cbn; rewrite ?app_nil_r; auto; destruct es; cbn in *; congruence.
  - assert (alter dispose_effect h (fb_effects f) = fb_effects f) as ->.
    { apply list_eq. intros i. destruct (decide (i = h)) as [->|]; [by rewrite list_lookup_alter_eq, L|by rewrite list_lookup_alter_ne]. }
    by apply (effects_inv_same f).
Qed.
Lemma poll_handle_effects h f : effects_inv f -> effects_inv (poll_handle h f).
Proof.
  intros H. unfold poll_handle. destruct (fb_effects f !! h) as [[|[|d rest]]|] eqn:L; auto.
  eapply effects_inv_same; [apply (effects_alter h _ (ES_Task rest) [L_Ran h d] f H L)|..]; cbn; auto.
  - by rewrite decide_True.
  - intros h' Hne. by rewrite decide_False by congruence.
  - right; eauto.
Qed.
Lemma effect_effects ds f : effects_inv f ->
  effects_inv (put_log (L_Effect ds) (put_effects (fb_disposables f ++ [length (fb_effects f)]) (fb_effects f ++ [ES_Held ds]) f)).
Proof.
  intros [Ha Hc Hh Hb].
  assert (Hlen : length (registered (fb_log f)) = length (fb_effects f)).
  { apply Nat.le_antisymm; apply Nat.le_ngt; intros Hlt.
    - pose proof (Ha (length (fb_effects f))) as A. unfold effect_agrees in A. rewrite lookup_ge_None_2 in A by lia.
      apply lookup_lt_is_Some in Hlt as [? E]. by rewrite E in A.
    - pose proof (Ha (length (registered (fb_log f)))) as A. unfold effect_agrees in A. rewrite (lookup_ge_None_2 (registered _)) in A by lia.
      apply lookup_lt_is_Some in Hlt as [? E]. by rewrite E in A. }
  split; cbn.
  - intros h. specialize (Ha h). unfold effect_agrees in *. rewrite registered_app, ran_by_app. cbn. rewrite app_nil_r.
    destruct (decide (h < length (fb_effects f))) as [Hlt|Hge].
    + rewrite !lookup_app_l by lia. exact Ha.
    + rewrite (lookup_ge_None_2 (fb_effects f)), (lookup_ge_None_2 (registered _)) in Ha by lia.
      rewrite !lookup_app_r by lia. rewrite Hlen, Ha. destruct (h - length (fb_effects f)) as [|n]; [done|]. cbn. done.
  - apply unloads_clean_snoc; [exact Hc|discriminate].
  - intros h es L T. destruct (decide (h < length (fb_effects f))) as [Hlt|Hge].
    + rewrite lookup_app_l in L by lia. destruct (Hh h es L T); [left; apply elem_of_app; auto|auto].
    + rewrite lookup_app_r in L by lia. left. apply elem_of_app. right. apply list_elem_of_singleton.
      destruct (h - length (fb_effects f)) as [|n] eqn:E; [lia|cbn in L; discriminate].
  - apply bodies_apart_app. split; [exact Hb|exact I].
Qed.
Lemma labeled_effects epochs e f f' : effects_inv f -> effect_labeled epochs e f = Some f' -> effects_inv f'.
Proof.
  unfold effect_labeled. intros H E. destruct (takes_effects f); [|discriminate]. injection E as <-.
  assert (effects_inv (foldl (fun f epoch => set_epoch epoch f) f epochs)).
  { revert f H. induction epochs; intros f H; cbn; [done|]. by apply IHepochs, set_epoch_effects. }
  by apply effect_effects.
Qed.
Lemma drained_effects f : effects_inv f -> fb_disposables f = [] -> fb_driver f = Some (D_Draining []) -> all_disposed (fb_log f).
Proof.
  intros [Ha Hc Hh Hb] Ed Dd h ds L. specialize (Ha h). unfold effect_agrees in Ha. rewrite L in Ha.
  destruct (fb_effects f !! h) as [es|] eqn:Le; [|done]. rewrite <- Ha.
  destruct (decide (es = ES_Task [])) as [->|T].
  - cbn. by rewrite app_nil_r.
  - destruct (Hh _ _ Le T) as [X|X]; [rewrite Ed in X|rewrite Dd in X]; cbn in X; by apply elem_of_nil in X.
Qed.

(** ** Control *)

Lemma control_same f f' : control_inv f -> fb_listed f' = fb_listed f -> fb_alive f' = fb_alive f -> fb_epoch f' = fb_epoch f -> fb_state f' = fb_state f ->
  fb_driver f' = fb_driver f -> fb_disposables f' = fb_disposables f -> loaded false (fb_log f') = loaded false (fb_log f) -> control_inv f'.
Proof. intros [H1 H2] E1 E2 E3 E4 E5 E6 E7. split; rewrite ?E1, ?E2, ?E3, ?E4, ?E5, ?E6, ?E7; auto. Qed.
Lemma put_error_control b f : control_inv f -> control_inv (put_error b f).
Proof. intros H. by apply (control_same f). Qed.
Lemma set_epoch_control e f : control_inv f -> (fb_listed f = true \/ e = Inactive) -> control_inv (set_epoch e f).
Proof.
  intros [H1 H2] Hl. unfold set_epoch. case_decide as E; [by split|]. cbn [put_epoch fb_driver].
  destruct (fb_driver f) eqn:D; [split; cbn; rewrite ?D; auto|split; cbn].
  - intros L. destruct Hl as [?| ->]; [congruence|]. by destruct (H1 L).
  - intros L. destruct Hl as [?| ->]; [congruence|]. by destruct (H1 L).
  - destruct H2 as (Hload & _). destruct (bool_decide (e <> Inactive) && bool_decide (fb_epoch f = Inactive)) eqn:B; [|done].
    apply andb_true_iff in B as [_ B]. apply bool_decide_eq_true in B. split; [|done].
    destruct (loaded false (fb_log f)); [by destruct Hload|done].
Qed.
Lemma epochs_control epochs f : control_inv f -> (epochs <> [] -> fb_listed f = true) -> control_inv (foldl (fun f epoch => set_epoch epoch f) f epochs).
Proof.
  revert f. induction epochs as [|e epochs IH]; intros f H Hl; cbn; [done|]. apply IH.
  - apply set_epoch_control; auto.
  - intros _. unfold set_epoch. case_decide; [auto|]. cbn. destruct (fb_driver f); cbn; auto.
Qed.
Lemma epochs_open epochs f : fb_alive f = true -> fb_alive (foldl (fun f epoch => set_epoch epoch f) f epochs) = true.
Proof.
  revert f. induction epochs as [|e epochs IH]; intros f H; cbn; [done|]. apply IH.
  unfold set_epoch. case_decide; [auto|]. cbn. by destruct (fb_driver f).
Qed.
(** Only the driver moves past its first step. *)
Lemma epochs_driver epochs f : fb_state f <> FS_Unloading -> control_inv f ->
  match fb_driver (foldl (fun f epoch => set_epoch epoch f) f epochs) with Some (D_Draining _) | Some (D_Decide false) => False | _ => True end.
Proof.
  intros Hs [_ H2].
  assert (match fb_driver f with Some (D_Draining _) | Some (D_Decide false) => False | _ => True end) as Hd.
  { destruct (fb_driver f) as [[]|]; try done; [tauto|destruct loading; tauto]. }
  clear Hs H2. revert f Hd. induction epochs as [|e epochs IH]; intros f Hd; cbn; [done|]. apply IH.
  unfold set_epoch. case_decide; [auto|]. cbn. destruct (fb_driver f) eqn:D; [cbn; rewrite ?D in *; exact Hd|exact I].
Qed.
Lemma labeled_control epochs e f f' : control_inv f -> (epochs <> [] -> fb_listed f = true) -> effect_labeled epochs e f = Some f' -> control_inv f'.
Proof.
  unfold effect_labeled, takes_effects. intros H Hl E. destruct (fb_alive f) eqn:A; [|discriminate]. cbn in E.
  case_bool_decide as S; [discriminate|]. injection E as <-.
  pose proof (epochs_driver epochs f S H) as D. pose proof (epochs_open epochs f A) as A'.
  destruct (epochs_control epochs f H Hl) as [H1 H2]. split; cbn; [exact H1|].
  rewrite loaded_app. cbn.
  destruct (fb_driver _) as [[]|]; try done.
  - destruct loading; [exact H2|done].
  - destruct H2 as (? & ? & ? & ? & ?). split_and!; auto. intros L. destruct (H1 L). congruence.
Qed.
Lemma dispose_unload_control f : control_inv f -> fb_alive f = false -> control_inv (dispose_unload f).
Proof.
  intros [H1 H2] A. unfold dispose_unload. cbv zeta.
  set (g := mk_fiber _ false _ _ _ _ _ _ _).
  assert (control_inv (set_epoch Inactive g) /\ fb_alive (set_epoch Inactive g) = false /\ fb_epoch (set_epoch Inactive g) = Inactive
          \/ fb_driver (set_epoch Inactive g) = None /\ set_epoch Inactive g = g /\ fb_epoch f = Inactive) as [(Hg & Ag & Eg)|(Dg & Eg & Ee)].
  { unfold set_epoch. cbn. case_decide as E.
    - destruct (fb_driver f) as [d|] eqn:D; [left|right; auto].
      split; [|cbn; auto]. split; cbn; rewrite ?D; auto.
    - left. change (bool_decide (Inactive <> Inactive)) with false. destruct (fb_driver f) as [d|] eqn:D; cbn; split_and!; auto; split; cbn; rewrite ?D; auto. }
  - destruct (bool_decide (fb_driver _ = None) && _) eqn:B; [|exact Hg].
    split; cbn; auto.
  - rewrite Eg in Dg |- *. cbn in Dg. cbn. rewrite Dg in H2 |- *. cbn.
    destruct H2 as (L & _ & S & S1 & S2).
    destruct (bool_decide (fb_disposables f = [])) eqn:B; cbn; split; cbn; auto.
    + rewrite Dg. apply bool_decide_eq_true in B. split_and!; auto.
Qed.
Lemma dispose_unload_effects f : effects_inv f -> effects_inv (dispose_unload f).
Proof.
  intros H. unfold dispose_unload. cbv zeta.
  set (g := mk_fiber _ false _ _ _ _ _ _ _).
  assert (effects_inv (set_epoch Inactive g)) by (apply set_epoch_effects; by apply (effects_inv_same f)).
  destruct (bool_decide _ && _) eqn:B; [|done]. apply andb_true_iff in B as [B _]. apply bool_decide_eq_true in B.
  apply start_effects; auto.
Qed.
Lemma drive_control failed known f : control_inv f -> control_inv (fiber_drive failed known f).
Proof.
  intros [H1 H2]. unfold fiber_drive. destruct (fb_driver f) as [d|] eqn:D; [|by split; rewrite ?D].
  destruct d as [[]|expected| |[|h hs]|[]].
  - split; cbn; auto.
  - split; cbn; auto.
  - destruct (bool_decide _ && known); split; cbn; tauto.
  - destruct failed; split; cbn; auto. intros L. destruct (H1 L); auto.
  - split; cbn; [auto|]. rewrite loaded_app. cbn. tauto.
  - cbv zeta. destruct (disposal_done h _); [split; cbn; auto|]. apply (control_same f); cbn; auto; [split; rewrite ?D; auto|..]; unfold poll_handle;
      destruct (_ !! h) as [[|[|]]|]; cbn; auto; by rewrite loaded_app.
  - destruct (fb_epoch f) eqn:E; [split; cbn; rewrite ?E; auto|].
    assert (settled_state (set_driver None f) = FS_Disposed \/ settled_state (set_driver None f) = FS_Failed \/ settled_state (set_driver None f) = FS_Active) as S.
    { unfold settled_state. cbn. destruct (negb _); [auto|]. destruct (fb_error f); [auto|]. rewrite E. case_decide; [congruence|auto]. }
    split; cbn; rewrite ?E; [intros L; destruct (H1 L); congruence|].
    split_and!; try (intros X; congruence); [intros L; destruct (H1 L); congruence| |]; destruct S as [S|[S|S]]; congruence.
  - destruct H2 as (L & Ed & S). destruct (fb_epoch f) eqn:E; [|split; cbn; rewrite ?E; auto].
    assert (settled_state (set_driver None f) = FS_Disposed \/ settled_state (set_driver None f) = FS_Failed \/ settled_state (set_driver None f) = FS_Pending) as S'.
    { unfold settled_state. cbn. destruct (negb _); [auto|]. destruct (fb_error f); [auto|]. rewrite E. case_decide; [auto|congruence]. }
    split; cbn; rewrite ?E; [auto|]. rewrite L. split_and!; auto; try discriminate; destruct S' as [X|[X|X]]; congruence.
Qed.
Lemma drive_effects failed known f : effects_inv f -> control_inv f -> effects_inv (fiber_drive failed known f).
Proof.
  intros H [H1 H2]. unfold fiber_drive. destruct (fb_driver f) as [d|] eqn:D; [|done].
  destruct d as [[]|expected| |[|h hs]|[]].
  - apply (effects_inv_same f); auto; rewrite D; cbn; set_solver.
  - cbn. destruct H as [Ha Hc Hh Hb]. split; cbn; auto.
    intros h es L T. destruct (Hh h es L T) as [X|X]; [right; by apply elem_of_reverse|rewrite D in X; cbn in X; by apply elem_of_nil in X].
  - destruct (bool_decide _ && known).
    + destruct H as [Ha Hc Hh Hb]. split; cbn.
      * intros h. specialize (Ha h). unfold effect_agrees in *. by rewrite registered_app, ran_by_app, !app_nil_r.
      * apply unloads_clean_snoc; [done|discriminate].
      * intros h es L T. destruct (Hh h es L T) as [X|X]; [auto|rewrite D in X; cbn in X; by apply elem_of_nil in X].
      * apply bodies_apart_app. split; [done|]. cbn. tauto.
    + apply (effects_inv_same f); auto; rewrite D; cbn; set_solver.
  - destruct failed; apply (effects_inv_same f); auto; rewrite D; cbn; set_solver.
  - destruct H2 as [Ed S]. pose proof (drained_effects f H Ed D) as All.
    destruct H as [Ha Hc Hh Hb]. split; cbn.
    + intros h. specialize (Ha h). unfold effect_agrees in *. by rewrite registered_app, ran_by_app, !app_nil_r.
    + apply unloads_clean_snoc; auto.
    + intros h es L T. destruct (Hh h es L T) as [X|X]; [auto|rewrite D in X; cbn in X; by apply elem_of_nil in X].
    + apply bodies_apart_app. split; [done|exact I].
  - cbv zeta. apply (dispose_handle_effects h) in H. destruct (disposal_done h (dispose_handle h f)) eqn:Hd; [|by apply poll_handle_effects].
    destruct H as [Ha Hc Hh Hb]. split; cbn; auto.
    intros h' es L T. destruct (Hh h' es L T) as [X|X]; [auto|]. cbn in X. rewrite D in X. cbn in X. apply elem_of_cons in X as [->|X]; [|auto].
    unfold disposal_done in Hd. cbn in L, Hd. rewrite L in Hd. by apply bool_decide_eq_true in Hd.
  - destruct (fb_epoch f); [apply start_effects; eauto|apply (effects_inv_same f); auto; rewrite D; cbn; set_solver].
  - destruct (fb_epoch f); [apply (effects_inv_same f); auto; rewrite D; cbn; set_solver|apply start_effects; eauto].
Qed.

(** ** Reachable fibers *)

Lemma fiber_step_inv f f' : fiber_step f f' -> effects_inv f /\ control_inv f -> effects_inv f' /\ control_inv f'.
Proof.
  intros S [He Hc]. destruct S.
  - split; [by apply drive_effects|by apply drive_control].
  - split; [by apply set_epoch_effects|apply set_epoch_control; auto].
  - split; [by eapply labeled_effects|by eapply labeled_control].
  - split; [by apply dispose_handle_effects|by apply (control_same f)].
  - split; [by apply poll_handle_effects|apply (control_same f)]; auto; unfold poll_handle; destruct (_ !! h) as [[|[|]]|]; cbn; auto; by rewrite loaded_app.
  - split; [by apply (effects_inv_same f)|]. destruct Hc as [H1 H2]. split; cbn; auto. intros L. destruct (H1 L); auto.
  - split; [by apply dispose_unload_effects|by apply dispose_unload_control].
  - split; [by apply (effects_inv_same f)|]. destruct Hc as [H1 H2]. split; cbn; [exact H1|].
    rewrite H0 in *. destruct H2 as (? & ? & ? & ? & ?). split_and!; auto; discriminate.
  - unfold restart in H. destruct (fb_alive f) eqn:A; [|discriminate]. injection H as <-.
    assert (L : fb_listed f = true) by (destruct (fb_listed f) eqn:E; [done|]; destruct (ci_listed _ Hc E); congruence).
    split; [by repeat apply set_epoch_effects|apply (epochs_control [Inactive; epoch]); auto].
  - unfold update_inactive in H. destruct (fb_alive f) eqn:A; [|discriminate]. cbn in H. case_bool_decide; [discriminate|]. injection H as <-.
    assert (L : fb_listed f = true) by (destruct (fb_listed f) eqn:E; [done|]; destruct (ci_listed _ Hc E); congruence).
    split; [repeat apply set_epoch_effects; by apply (effects_inv_same f)|].
    apply (epochs_control [Inactive; epoch]); auto. by apply put_error_control.
  - assert (Pe : effects_inv (put_error false f)) by by apply (effects_inv_same f).
    pose proof (put_error_control false f Hc) as Pc.
    unfold update_inner, restart. cbn. destruct (fb_alive f) eqn:A; cbn; [|auto].
    assert (L : fb_listed f = true) by (destruct (fb_listed f) eqn:E; [done|]; destruct (ci_listed _ Hc E); congruence).
    split; [by repeat apply set_epoch_effects|by apply (epochs_control [Inactive; epoch])].
Qed.
Lemma fiber_new_inv : effects_inv fiber_new /\ control_inv fiber_new.
Proof.
  split; split; try (cbn; auto; discriminate).
  - intros h. reflexivity.
  - intros [|l1] l2 E; discriminate.
Qed.
Lemma fiber_reachable_inv f : fiber_reachable f -> effects_inv f /\ control_inv f.
Proof.
  intros R. pose proof fiber_new_inv as H. unfold fiber_reachable in R.
  induction R; [done|]. apply IHR. by eapply fiber_step_inv.
Qed.

(** ** Handles *)

(** The effects not yet taken for an unload, in the order of registration. *)
Definition handles_inv (f : FiberData) : Prop := fb_disposables f `sublist_of` seq 0 (length (fb_effects f)).
Lemma handles_same f f' : handles_inv f -> fb_disposables f' = fb_disposables f \/ fb_disposables f' = [] -> length (fb_effects f') = length (fb_effects f) -> handles_inv f'.
Proof. unfold handles_inv. intros H [->| ->] ->; [done|apply sublist_nil_l]. Qed.
Lemma set_epoch_disposables e f : fb_disposables (set_epoch e f) = fb_disposables f /\ fb_effects (set_epoch e f) = fb_effects f.
Proof. unfold set_epoch. case_decide; [auto|]. cbn. by destruct (fb_driver f). Qed.
Lemma poll_handle_shape h f : fb_disposables (poll_handle h f) = fb_disposables f /\ length (fb_effects (poll_handle h f)) = length (fb_effects f).
Proof. unfold poll_handle. destruct (_ !! h) as [[|[|]]|]; cbn; auto. by rewrite length_insert. Qed.
Lemma set_epoch_handles e f : handles_inv f -> handles_inv (set_epoch e f).
Proof. intros H. destruct (set_epoch_disposables e f) as [E1 E2]. apply (handles_same f); [auto|auto|by rewrite E2]. Qed.
Lemma dispose_handle_shape h f : fb_disposables (dispose_handle h f) = fb_disposables f /\ length (fb_effects (dispose_handle h f)) = length (fb_effects f).
Proof. cbn. by rewrite length_alter. Qed.
Lemma drive_handles failed known f : handles_inv f -> handles_inv (fiber_drive failed known f).
Proof.
  intros H. unfold fiber_drive. destruct (fb_driver f) as [[[]|expected| |[|h hs]|[]]|]; auto; try (apply (handles_same f); auto; fail).
  - destruct (_ && _); by apply (handles_same f); auto.
  - destruct failed; by apply (handles_same f); auto.
  - cbv zeta. destruct (dispose_handle_shape h f) as [E1 E2]. destruct (poll_handle_shape h (dispose_handle h f)) as [E3 E4].
    destruct (disposal_done _ _); apply (handles_same f); first [solve [auto] | left; congruence | rewrite E4; exact E2].
  - destruct (fb_epoch f); by apply (handles_same f); auto.
  - destruct (fb_epoch f); by apply (handles_same f); auto.
Qed.
Lemma fiber_step_handles f f' : fiber_step f f' -> handles_inv f -> handles_inv f'.
Proof.
  intros S H. destruct S; auto; try (apply (handles_same f); auto; fail).
  - by apply drive_handles.
  - by apply set_epoch_handles.
  - unfold effect_labeled in H1. destruct (takes_effects f); [|discriminate]. injection H1 as <-.
    assert (Hf : handles_inv (foldl (fun f epoch => set_epoch epoch f) f epochs)).
    { clear H0. revert f H. induction epochs; intros f H; cbn; [done|]. by apply IHepochs, set_epoch_handles. }
    unfold handles_inv in *. cbn. rewrite length_app, seq_app. by apply sublist_app.
  - destruct (dispose_handle_shape h f). apply (handles_same f); auto.
  - destruct (poll_handle_shape h f). apply (handles_same f); auto.
  - unfold dispose_unload. cbv zeta. set (g := mk_fiber _ false _ _ _ _ _ _ _). assert (Hg : handles_inv g) by by apply (handles_same f); auto.
    destruct (bool_decide _ && _); [apply (handles_same (set_epoch Inactive g)); auto|]; by apply set_epoch_handles.
  - unfold restart in H0. destruct (fb_alive f); [|discriminate]. injection H0 as <-. by repeat apply set_epoch_handles.
  - unfold update_inactive in H0. destruct (_ || _); [discriminate|]. injection H0 as <-. repeat apply set_epoch_handles. by apply (handles_same f); auto.
  - assert (Hp : handles_inv (put_error false f)) by (apply (handles_same f); auto).
    unfold update_inner, restart. cbn. destruct (fb_alive f); cbn; [by repeat apply set_epoch_handles|done].
Qed.
Lemma fiber_reachable_handles f : fiber_reachable f -> handles_inv f.
Proof.
  intros R. assert (handles_inv fiber_new) as H by apply sublist_nil_l.
  unfold fiber_reachable in R. induction R; [done|]. apply IHR. by eapply fiber_step_handles.
Qed.

(** * Settling *)

(** The driver alone: how each body ends, and whether the plugin is known. *)
Fixpoint drive_all (how : list (bool * bool)) (f : FiberData) : FiberData :=
  match how with [] => f | (failed, known) :: how => drive_all how (fiber_drive failed known f) end.
Definition handle_cost (f : FiberData) (h : nat) : nat := S (match fb_effects f !! h with Some es => length (effect_rest es) | None => 0 end).
Definition drain_cost (f : FiberData) (hs : list nat) : nat := sum_list (handle_cost f <$> hs).
(** The steps a driver may still take. *)
Definition decide_cost (f : FiberData) (disposables : list nat) : nat :=
  match fb_epoch f with Inactive => 1 | EpochOf _ => 8 + drain_cost f disposables end.
Definition drive_bound (f : FiberData) : nat :=
  let unload := 3 + drain_cost f (fb_disposables f) in
  match fb_driver f with
  | None => 0
  | Some (D_Begin true) => 4 + unload
  | Some (D_Yielded _) => 3 + unload
  | Some D_Body => 2 + unload
  | Some (D_Decide true) => match fb_epoch f with Inactive => 1 + unload | EpochOf _ => 1 end
  | Some (D_Begin false) => 2 + drain_cost f (fb_disposables f) + decide_cost f []
  | Some (D_Draining hs) => 1 + drain_cost f hs + decide_cost f (fb_disposables f)
  | Some (D_Decide false) => decide_cost f (fb_disposables f)
  end.
Lemma drain_cost_reverse f hs : drain_cost f (reverse hs) = drain_cost f hs.
Proof. unfold drain_cost. by rewrite fmap_reverse, reverse_Permutation. Qed.
Lemma drain_cost_le f f' hs : (forall h, handle_cost f' h <= handle_cost f h) -> drain_cost f' hs <= drain_cost f hs.
Proof.
  intros H. induction hs as [|h hs IH]; [done|]. specialize (H h).
  change (handle_cost f' h + drain_cost f' hs <= handle_cost f h + drain_cost f hs). lia.
Qed.
Lemma dispose_handle_cost h f h' : handle_cost (dispose_handle h f) h' = handle_cost f h'.
Proof.
  unfold handle_cost. cbn. destruct (decide (h' = h)) as [->|]; [|by rewrite list_lookup_alter_ne].
  rewrite list_lookup_alter_eq. by destruct (fb_effects f !! h) as [[]|].
Qed.
Lemma poll_handle_cost h f : disposal_done h (dispose_handle h f) = false ->
  (forall h', handle_cost (poll_handle h (dispose_handle h f)) h' <= handle_cost f h') /\ handle_cost (poll_handle h (dispose_handle h f)) h < handle_cost f h.
Proof.
  intros Hd. pose proof (dispose_handle_cost h f) as Hc. set (g := dispose_handle h f) in *.
  assert (exists d rest, fb_effects g !! h = Some (ES_Task (d :: rest))) as (d & rest & L).
  { unfold disposal_done, g in *. cbn in *. rewrite list_lookup_alter_eq in *. destruct (fb_effects f !! h) as [es|]; [|discriminate].
    apply bool_decide_eq_false in Hd. cbn in *. destruct es as [ds|[|d rest]]; cbn in *; eauto; [|done].
    destruct (reverse ds); [done|eauto]. }
  assert (Hp : forall h', handle_cost (poll_handle h g) h' = if decide (h' = h) then S (length rest) else handle_cost g h').
  { intros h'. unfold handle_cost, poll_handle. rewrite L. cbn [fb_effects put_log put_effects]. case_decide as E.
    - rewrite E, list_lookup_insert_eq; [done|apply lookup_lt_is_Some; eauto].
    - by rewrite list_lookup_insert_ne. }
  assert (handle_cost f h = S (S (length rest))) as E by (rewrite <- Hc; unfold handle_cost; by rewrite L).
  split; [intros h'; rewrite Hp; case_decide; [subst; lia|by rewrite Hc]|rewrite Hp, decide_True; [lia|done]].
Qed.
Lemma drain_cost_same f' f hs : fb_effects f' = fb_effects f -> drain_cost f' hs = drain_cost f hs.
Proof. intros E. unfold drain_cost, handle_cost. by rewrite E. Qed.
Arguments drain_cost : simpl never.
Ltac bound_step f := unfold drive_bound, decide_cost; cbn -[Nat.add];
  repeat match goal with |- context [drain_cost ?g ?hs] => tryif constr_eq g f then fail else rewrite (drain_cost_same g f hs) by reflexivity end;
  rewrite ?drain_cost_reverse.
Lemma drive_decreases failed known f : fb_driver f <> None -> drive_bound (fiber_drive failed known f) < drive_bound f.
Proof.
  intros Hn. unfold fiber_drive. destruct (fb_driver f) as [d|] eqn:D; [|done]. unfold drive_bound at 2. rewrite D.
  destruct d as [[]|expected| |[|h hs]|[]]; cbv zeta.
  - bound_step f. lia.
  - bound_step f. destruct (fb_epoch f); lia.
  - destruct (_ && _); bound_step f; [|destruct (fb_epoch f)]; lia.
  - destruct failed; bound_step f; [|destruct (fb_epoch f)]; lia.
  - bound_step f. cbn. lia.
  - assert (Hg : forall hs, drain_cost (dispose_handle h f) hs <= drain_cost f hs).
    { intros hs'. apply drain_cost_le. intros h'. by rewrite dispose_handle_cost. }
    change (drain_cost f (h :: hs)) with (handle_cost f h + drain_cost f hs).
    destruct (disposal_done h (dispose_handle h f)) eqn:Hd.
    + bound_step (dispose_handle h f).
      pose proof (Hg hs). pose proof (Hg (fb_disposables f)). assert (0 < handle_cost f h) by (unfold handle_cost; lia).
      destruct (fb_epoch f); lia.
    + destruct (poll_handle_cost h f Hd) as [Hle Hlt]. pose proof (drain_cost_le f (poll_handle h (dispose_handle h f)) hs Hle).
      pose proof (drain_cost_le f (poll_handle h (dispose_handle h f)) (fb_disposables f) Hle).
      destruct (poll_handle_shape h (dispose_handle h f)) as [Es _].
      assert (fb_driver (poll_handle h (dispose_handle h f)) = Some (D_Draining (h :: hs)) /\ fb_epoch (poll_handle h (dispose_handle h f)) = fb_epoch f) as [Ed Ee].
      { unfold poll_handle. destruct (_ !! h) as [[|[|]]|]; auto. }
      unfold drive_bound, decide_cost. rewrite Ed, Ee, Es.
      change (drain_cost (poll_handle h (dispose_handle h f)) (h :: hs)) with (handle_cost (poll_handle h (dispose_handle h f)) h + drain_cost (poll_handle h (dispose_handle h f)) hs).
      cbn [fb_disposables dispose_handle put_effects]. destruct (fb_epoch f); lia.
  - destruct (fb_epoch f) eqn:E; bound_step f; rewrite ?E; cbn; lia.
  - unfold decide_cost. destruct (fb_epoch f) eqn:E; bound_step f; rewrite ?E; cbn; lia.
Qed.
(** When the driver ends, the state is the one the epoch and the error call for. *)
Lemma drive_settled failed known f : fb_driver f <> None -> fb_driver (fiber_drive failed known f) = None ->
  fb_state (fiber_drive failed known f) = settled_state (fiber_drive failed known f).
Proof.
  intros Hn. unfold fiber_drive. destruct (fb_driver f) as [[[]|expected| |[|h hs]|[]]|] eqn:D; cbv zeta; try (cbn; intros; congruence).
  - destruct (_ && _); cbn; intros; congruence.
  - destruct (disposal_done _ _); [cbn; intros; congruence|]. unfold poll_handle. destruct (_ !! h) as [[|[|]]|]; cbn; rewrite D; intros; congruence.
  - destruct (fb_epoch f) eqn:E; cbn; intros; try congruence; auto.
  - destruct (fb_epoch f) eqn:E; cbn; intros; try congruence; auto.
Qed.
Lemma drive_idle how f : fb_driver f = None -> drive_all how f = f.
Proof. intros D. induction how as [|[failed known] how IH]; cbn; [done|]. unfold fiber_drive. by rewrite D. Qed.

(** ** An unload runs everything, newest first *)

Definition handle_runs (f : FiberData) (h : nat) : list FiberLog := match fb_effects f !! h with Some es => L_Ran h <$> effect_rest es | None => [] end.
(** Some number of the driver's steps leads from one fiber to a fiber with [P]. *)
Definition drives (f : FiberData) (P : FiberData -> Prop) : Prop := exists n, forall how, length how = n -> P (drive_all how f).
Lemma drives_now f (P : FiberData -> Prop) : P f -> drives f P.
Proof. intros H. exists 0. by intros [|]. Qed.
Lemma drives_step f g P : (forall failed known, fiber_drive failed known f = g) -> drives g P -> drives f P.
Proof. intros E [n H]. exists (S n). intros [|[failed known] how] L; [discriminate|]. cbn. rewrite E. apply H. cbn in L. lia. Qed.
Lemma drain_handle h hs rest P : forall f es, fb_driver f = Some (D_Draining (h :: hs)) -> fb_effects f !! h = Some es -> effect_rest es = rest ->
  (forall f', fb_driver f' = Some (D_Draining hs) -> fb_log f' = fb_log f ++ (L_Ran h <$> rest) -> fb_disposables f' = fb_disposables f ->
     (forall h', h' <> h -> fb_effects f' !! h' = fb_effects f !! h') -> drives f' P) -> drives f P.
Proof.
  induction rest as [|d rest IH]; intros f es D L R HP.
  - eapply drives_step; [intros failed known; unfold fiber_drive; rewrite D; cbv zeta; reflexivity|].
    assert (disposal_done h (dispose_handle h f) = true) as ->.
    { unfold disposal_done. cbn. rewrite list_lookup_alter_eq, L. apply bool_decide_eq_true. destruct es; cbn in *; congruence. }
    apply HP; cbn; auto; [by rewrite app_nil_r|]. intros h' Hne. by rewrite list_lookup_alter_ne.
  - assert (Lg : fb_effects (dispose_handle h f) !! h = Some (ES_Task (d :: rest))).
    { cbn. rewrite list_lookup_alter_eq, L. destruct es; cbn in *; congruence. }
    eapply drives_step; [intros failed known; unfold fiber_drive; rewrite D; cbv zeta; reflexivity|].
    assert (disposal_done h (dispose_handle h f) = false) as ->.
    { unfold disposal_done. rewrite Lg. by apply bool_decide_eq_false. }
    unfold poll_handle. rewrite Lg. eapply (IH _ (ES_Task rest)); [exact D| |done|].
    + cbn. rewrite list_lookup_insert_eq; [done|]. rewrite length_alter. apply lookup_lt_is_Some. eauto.
    + cbn. intros f' D' El Ed He. apply HP; auto; [by rewrite El, <- app_assoc|].
      intros h' Hne. rewrite He by done. by rewrite list_lookup_insert_ne, list_lookup_alter_ne.
Qed.
Lemma drain_handles hs (P : FiberData -> Prop) : forall f, fb_driver f = Some (D_Draining hs) -> NoDup hs -> (forall h, h ∈ hs -> h < length (fb_effects f)) ->
  (forall f', fb_driver f' = Some (D_Decide false) -> fb_log f' = fb_log f ++ concat (handle_runs f <$> hs) ++ [L_Unloaded] -> fb_disposables f' = fb_disposables f -> P f') ->
  drives f P.
Proof.
  induction hs as [|h hs IH]; intros f D Hn Hl HP.
  - eapply drives_step; [intros failed known; unfold fiber_drive; rewrite D; reflexivity|]. apply drives_now. apply HP; reflexivity.
  - apply NoDup_cons in Hn as [Hh Hn]. destruct (lookup_lt_is_Some_2 (fb_effects f) h) as [es L]; [apply Hl; by left|].
    apply (drain_handle h hs (effect_rest es) P f es D L eq_refl). intros f' D' El Ed He.
    assert (E : handle_runs f' <$> hs = handle_runs f <$> hs).
    { apply list_fmap_ext. intros i h' Li. unfold handle_runs. rewrite He; [done|]. intros ->. apply Hh. by eapply list_elem_of_lookup_2. }
    apply IH; auto.
    + intros h' Hh'. apply lookup_lt_is_Some. rewrite He by (intros ->; contradiction). apply lookup_lt_is_Some. apply Hl. by right.
    + intros f'' D'' El' Ed'. apply HP; [done| |congruence]. rewrite El', El, E. cbn. unfold handle_runs at 2. rewrite L. by rewrite <- !app_assoc.
Qed.
(** An unload left alone runs what every effect has still to run, the newest
    effect first, and within an effect the newest disposer first. *)
Lemma unload_in_reverse f : fiber_reachable f -> fb_driver f = Some (D_Begin false) ->
  drives f (fun f' => fb_log f' = fb_log f ++ concat (handle_runs f <$> reverse (fb_disposables f)) ++ [L_Unloaded]
                      /\ fb_disposables f' = [] /\ fb_driver f' = Some (D_Decide false)).
Proof.
  intros R D. pose proof (fiber_reachable_handles f R) as Hs. unfold handles_inv in Hs.
  assert (Hn : NoDup (fb_disposables f)) by (eapply sublist_NoDup; [apply NoDup_seq|exact Hs]).
  assert (Hl : forall h, h ∈ fb_disposables f -> h < length (fb_effects f)).
  { intros h Hh. apply (sublist_subseteq _ _ Hs), elem_of_seq in Hh. lia. }
  eapply drives_step; [intros failed known; unfold fiber_drive; rewrite D; cbn; reflexivity|].
  apply (drain_handles (reverse (fb_disposables f))); [done|by rewrite reverse_Permutation| |].
  - intros h Hh. apply Hl. by rewrite elem_of_reverse in Hh.
  - intros f' D' El Ed. auto.
Qed.

(** What is left to run of an effect, and of all of them from the newest to the
    oldest, by the log alone. *)
Definition left_of (log : list FiberLog) (h : nat) : list nat :=
  match registered log !! h with Some ds => drop (length (ran_by h log)) (reverse ds) | None => [] end.
Definition newest_first (log : list FiberLog) : list FiberLog :=
  concat ((fun h => L_Ran h <$> left_of log h) <$> reverse (seq 0 (length (registered log)))).

Lemma sublist_rev {A} (l l' : list A) : l `sublist_of` l' -> reverse l `sublist_of` reverse l'.
Proof.
  induction 1 as [|x l l' _ IH|x l l' _ IH]; [done| |]; rewrite ?reverse_cons.
  - by apply sublist_app.
  - by apply sublist_inserts_r.
Qed.
(** Elements that contribute nothing may be left out. *)
Lemma concat_sublist {A B} (g : A -> list B) l l' :
  l `sublist_of` l' -> NoDup l' -> (forall x, x ∈ l' -> x ∉ l -> g x = []) -> concat (g <$> l) = concat (g <$> l').
Proof.
  induction 1 as [|x l l' Hs IH|x l l' Hs IH]; intros Hnd Hg; [done| |]; apply NoDup_cons in Hnd as [Hx Hnd]; rewrite ?fmap_cons; cbn [concat].
  - f_equal. apply IH; [done|]. intros y Hy Hn. apply Hg; [by right|]. intros [->|H]%elem_of_cons; done.
  - rewrite (Hg x); [|by left|intros H; by apply Hx, (sublist_subseteq _ _ Hs)]. apply IH; [done|]. intros y Hy Hn. apply Hg; [by right|done].
Qed.

Lemma unload_newest_first f : fiber_reachable f -> fb_driver f = Some (D_Begin false) ->
  concat (handle_runs f <$> reverse (fb_disposables f)) = newest_first (fb_log f).
Proof.
  intros R D. pose proof (fiber_reachable_handles f R) as Hs. unfold handles_inv in Hs. destruct (fiber_reachable_inv f R) as [[Ha _ Hh _] _].
  rewrite D in Hh. cbn in Hh.
  assert (Hrest : forall h es, fb_effects f !! h = Some es -> effect_rest es = left_of (fb_log f) h).
  { intros h es L. specialize (Ha h). unfold effect_agrees in Ha. unfold left_of. rewrite L in Ha.
    destruct (registered (fb_log f) !! h) as [ds|]; [|done]. by rewrite <- Ha, drop_app_length. }
  assert (Hlen : length (fb_effects f) = length (registered (fb_log f))).
  { apply (Nat.le_antisymm _ _); apply Nat.le_ngt; intros Hlt.
    - destruct (lookup_lt_is_Some_2 (fb_effects f) (length (registered (fb_log f)))) as [es L]; [lia|]. specialize (Ha (length (registered (fb_log f)))).
      unfold effect_agrees in Ha. rewrite L, (lookup_ge_None_2 (registered (fb_log f))) in Ha by lia. done.
    - destruct (lookup_lt_is_Some_2 (registered (fb_log f)) (length (fb_effects f))) as [ds L]; [lia|]. specialize (Ha (length (fb_effects f))).
      unfold effect_agrees in Ha. rewrite L, (lookup_ge_None_2 (fb_effects f)) in Ha by lia. done. }
  unfold newest_first. rewrite <- Hlen. etransitivity; [apply (concat_sublist (handle_runs f) _ (reverse (seq 0 (length (fb_effects f)))))|].
  - by apply sublist_rev.
  - rewrite reverse_Permutation. apply NoDup_seq.
  - intros h _ Hn. unfold handle_runs. destruct (fb_effects f !! h) as [es|] eqn:L; [|done].
    destruct (decide (es = ES_Task [])) as [->|Hne]; [done|]. destruct (Hh h es L Hne) as [Hin|Hin]; [|by apply elem_of_nil in Hin].
    exfalso. apply Hn. rewrite reverse_Permutation. done.
  - f_equal. apply list_fmap_ext. intros i h Hi. apply list_elem_of_lookup_2 in Hi. rewrite reverse_Permutation, elem_of_seq in Hi.
    unfold handle_runs. destruct (lookup_lt_is_Some_2 (fb_effects f) h) as [es L]; [lia|]. by rewrite L, (Hrest h es L).
Qed.

(** * The properties *)

(** A load or an unload settles: whatever the body does, and whether or not
    the runtime record is gone, a driver left alone ends after at most
    [drive_bound] steps, counted by the disposers left to run, and leaves the
    state that the epoch and the error call for: disposed, failed, pending or
    active. *)
Theorem fiber_settles (how : list (bool * bool)) (f : FiberData) : fb_driver f <> None -> drive_bound f <= length how ->
  fb_driver (drive_all how f) = None /\ fb_state (drive_all how f) = settled_state (drive_all how f).
Proof.
  revert f. induction how as [|[failed known] how IH]; intros f Hn Hb; cbn in *.
  - exfalso. pose proof (drive_decreases false true f Hn). lia.
  - pose proof (drive_decreases failed known f Hn). pose proof (drive_settled failed known f Hn).
    destruct (decide (fb_driver (fiber_drive failed known f) = None)) as [E|E].
    + rewrite drive_idle by done. auto.
    + apply IH; [done|lia].
Qed.

(** C21. What a fiber goes through, whatever its surroundings do in between:
    between two runs of the plugin's body there is an unload; an unload that
    ends has run every disposer registered before it, each effect's once and
    newest first; an effect's disposers are never run out of order or twice; an
    unload left alone runs all that is left in the reverse order of
    registration, the effects newest first and within each its disposers newest
    first, and then ends; an active fiber has an active epoch; and a disposed
    fiber that has settled has run everything it ever registered and takes no
    further effect. *)
Theorem fiber_lifecycle (f : FiberData) : fiber_reachable f ->
  bodies_apart false (fb_log f) /\ unloads_clean (fb_log f)
  /\ (forall h ds, registered (fb_log f) !! h = Some ds -> ran_by h (fb_log f) `prefix_of` reverse ds)
  /\ (fb_driver f = Some (D_Begin false) -> drives f (fun f' => fb_log f' = fb_log f ++ newest_first (fb_log f) ++ [L_Unloaded]))
  /\ (fb_driver f = None -> fb_state f = FS_Active -> fb_epoch f <> Inactive)
  /\ (fb_listed f = false -> fb_driver f = None ->
      all_disposed (fb_log f) /\ loaded false (fb_log f) = false /\ forall epochs e, effect_labeled epochs e f = None).
Proof.
  intros R. destruct (fiber_reachable_inv f R) as [He [H1 H2]]. pose proof He as [Ha Hc Hh Hb]. split_and!; auto.
  - intros h ds L. specialize (Ha h). unfold effect_agrees in Ha. rewrite L in Ha.
    destruct (fb_effects f !! h); [|done]. rewrite <- Ha. by apply prefix_app_r.
  - intros D. destruct (unload_in_reverse f R D) as [n Hd]. exists n. intros how Hhow. destruct (Hd how Hhow) as (-> & _ & _).
    by rewrite unload_newest_first.
  - intros D S. rewrite D in H2. tauto.
  - intros L D. rewrite D in H2. destruct H2 as (Hload & Hd & _). destruct (H1 L) as [A E]. split_and!.
    + apply (drained_effects (set_driver (Some (D_Draining [])) f)); cbn; auto. apply (effects_inv_same f); auto. rewrite D. cbn. auto.
    + destruct (loaded false (fb_log f)); [by destruct Hload|done].
    + intros epochs e. unfold effect_labeled, takes_effects. by rewrite A.
Qed.

(** * Concrete fibers *)

(** The services come, an observer's effect and the body's two are registered,
    the services leave: the unload runs the three effects, and the fiber is
    disposed. *)
Definition fiber_loading : FiberData := set_epoch (EpochOf ":1") fiber_new.
Definition fiber_body : FiberData := default fiber_new (effect_labeled [] (EffectMany [1; 2]) (drive_all [(false, true); (false, true)] fiber_loading)).
Definition fiber_active : FiberData := drive_all [(false, true); (false, true)] (default fiber_new (effect_labeled [] (EffectOne 3) fiber_body)).
Definition fiber_leaving : FiberData := dispose_unload (dispose_begin fiber_active).
Definition fiber_gone : FiberData := drive_all (repeat (false, false) 12) fiber_leaving.

Lemma drive_all_reaches how f : fiber_reachable f -> Forall (fun h => snd h = true) how \/ fb_listed f = false -> fiber_reachable (drive_all how f).
Proof.
  revert f. induction how as [|[failed known] how IH]; intros f R K; cbn; [done|].
  destruct (decide (fb_driver f = None)) as [D|D].
  - assert (fiber_drive failed known f = f) as -> by (unfold fiber_drive; by rewrite D). apply IH; [done|]. destruct K as [K|K]; [left; by inversion K|auto].
  - assert (fb_listed (fiber_drive failed known f) = fb_listed f) as L.
    { unfold fiber_drive. destruct (fb_driver f) as [[[]|expected| |[|h hs]|[]]|]; auto; cbv zeta.
      - by destruct (_ && _).
      - by destruct failed.
      - destruct (disposal_done _ _); [done|]. unfold poll_handle. by destruct (_ !! h) as [[|[|]]|].
      - by destruct (fb_epoch f).
      - by destruct (fb_epoch f). }
    apply IH.
    + eapply rtc_r; [exact R|]. apply FT_Drive; [by apply not_eq_None_Some|]. intros Lf. destruct K as [K|K]; [by inversion K|congruence].
    + destruct K as [K|K]; [left; by inversion K|right; congruence].
Qed.
Lemma fiber_gone_reachable : fiber_reachable fiber_gone.
Proof.
  unfold fiber_gone. apply drive_all_reaches; [|by right].
  assert (fiber_reachable fiber_body) as Rb.
  { eapply rtc_r; [|eapply (FT_Effect [] (EffectMany [1; 2]) (drive_all [(false, true); (false, true)] fiber_loading)); [done|vm_compute; reflexivity]]. apply drive_all_reaches; [|left; repeat constructor].
    eapply rtc_l; [|apply rtc_refl]. by apply FT_Epoch. }
  assert (fiber_reachable fiber_active) as Ra.
  { unfold fiber_active. apply drive_all_reaches; [|left; repeat constructor].
    eapply rtc_r; [exact Rb|eapply (FT_Effect [] (EffectOne 3) fiber_body); [done|vm_compute; reflexivity]]. }
  eapply rtc_r; [eapply rtc_r; [exact Ra|by apply FT_DisposeBegin]|by apply FT_DisposeUnload].
Qed.
Lemma fiber_lifecycle_witness : fb_log fiber_gone = [L_Body (EpochOf ":1"); L_Effect [1; 2]; L_Effect [3]; L_Ran 1 3; L_Ran 0 2; L_Ran 0 1; L_Unloaded]
  /\ fb_state fiber_gone = FS_Disposed /\ bodies_apart false (fb_log fiber_gone).
Proof. split; [vm_compute; reflexivity|split; [vm_compute; reflexivity|exact (proj1 (fiber_lifecycle fiber_gone fiber_gone_reachable))]]. Defined.
Lemma fiber_settles_example : drive_bound fiber_loading = 7
  /\ fb_driver (drive_all (repeat (true, true) 7) fiber_loading) = None
  /\ fb_state (drive_all (repeat (true, true) 7) fiber_loading) = FS_Failed.
Proof.
  split; [reflexivity|].
  destruct (fiber_settles (repeat (true, true) 7) fiber_loading ltac:(vm_compute; discriminate) ltac:(vm_compute; lia)) as [D S].
  split; [exact D|rewrite S; vm_compute; reflexivity].
Defined.

(** ** What the epoch's comment promises and the driver does not do *)

(** The providers change while the load is at its checkpoint: the body is
    skipped, and the fiber is active all the same. *)
Lemma active_without_body : exists f, fiber_reachable f /\ fb_state f = FS_Active /\ fb_driver f = None /\ fb_log f = [].
Proof.
  exists (drive_all [(false, true); (false, true)] (set_epoch (EpochOf ":2") (drive_all [(false, true)] fiber_loading))). split; [|done].
  apply drive_all_reaches; [|left; repeat constructor].
  eapply rtc_r; [|by apply FT_Epoch]. apply drive_all_reaches; [|left; repeat constructor].
  eapply rtc_l; [by apply FT_Epoch|apply rtc_refl].
Qed.
(** The services leave before the load's first step: it expects the inactive
    epoch, finds it, and runs the body without them. *)
Lemma body_without_services : exists f, fiber_reachable f /\ fb_log f = [L_Body Inactive].
Proof.
  exists (drive_all [(false, true); (false, true)] (set_epoch Inactive fiber_loading)). split; [|done].
  apply drive_all_reaches; [|left; repeat constructor].
  eapply rtc_r; [|by apply FT_Epoch]. eapply rtc_l; [by apply FT_Epoch|apply rtc_refl].
Qed.
(** The providers change while the body runs: the fiber is active under the new
    epoch with what the body did under the old one. *)
Lemma swap_keeps_the_old_body : exists f, fiber_reachable f /\ fb_state f = FS_Active /\ fb_epoch f = EpochOf ":2" /\ fb_driver f = None
  /\ fb_log f = [L_Body (EpochOf ":1")].
Proof.
  exists (drive_all [(false, true); (false, true)] (set_epoch (EpochOf ":2") (drive_all [(false, true); (false, true)] fiber_loading))). split; [|done].
  apply drive_all_reaches; [|left; repeat constructor].
  eapply rtc_r; [|by apply FT_Epoch]. apply drive_all_reaches; [|left; repeat constructor].
  eapply rtc_l; [by apply FT_Epoch|apply rtc_refl].
Qed.
