(* ===== verification/CordisServices.v ===== *)
(** Services over fibers, [crates/dsh/cordis/src/core.rs] and [service.rs]:
    isolation scopes, the store of implementations, what a fiber sees of it, and
    the cascade by which a change reaches every fiber that injects a service.

    Each fiber's life is [CordisFiber]'s; here the fibers share a store.  A
    plugin's config, the events and what is awaited are left out. *)
From Stdlib Require Import ZArith Lia Ascii String.
From stdpp Require Import base tactics numbers list strings gmap.
From S2P Require Import Prelude Json Text JsonSchema ToolSchema CordisFiber.
Open Scope string_scope.
Open Scope nat_scope.
Open Scope list_scope.

(** * Contexts *)

(** The chains nearest first; each node holds one entry. *)
Record Ctx := mk_ctx { cx_fiber : nat; cx_isolate : list (string * nat); cx_intercept : list (string * Value) }.
Definition with_fiber (fiber : nat) (c : Ctx) : Ctx := mk_ctx fiber (cx_isolate c) (cx_intercept c).
Definition intercept (name : string) (config : Value) (c : Ctx) : Ctx := mk_ctx (cx_fiber c) (cx_isolate c) ((name, config) :: cx_intercept c).
Definition intercept_configs (name : string) (c : Ctx) : list Value :=
  reverse (omap (fun node => if decide (fst node = name) then Some (snd node) else None) (cx_intercept c)).
Definition resolve_service_config (name : string) (base head : option Value) (c : Ctx) : Value :=
  let configs := option_list base ++ intercept_configs name c ++ option_list head in
  Obj (foldl (fun merged config => match config with Obj map => foldl (fun m kv => obj_insert kv.1 kv.2 m) merged map | _ => merged end) [] configs).

(** * The application *)

(** The shared record of an implementation; [im_cell] is where its value is. *)
Record ImplRecord := mk_impl { im_name : string; im_fiber : nat; im_cell : nat; im_check : option nat }.
Record FiberEntry := mk_entry {
  fe_data : FiberData;
  fe_parent : option (nat * Ctx);            (* parent and parent_ctx *)
  fe_ctx : Ctx;
  fe_inject : list (string * option Value);  (* in the map's order *)
  fe_runtime : option nat;
  fe_snapshot : option (gmap string ImplRecord);
  fe_live : gmap string ImplRecord;
}.
Record AppState {V : Type} := mk_app {
  ap_fibers : gmap nat FiberEntry;
  ap_runtimes : gmap nat (option string * list nat);
  ap_store : gmap nat ImplRecord;
  ap_values : gmap nat V;
  ap_root : gmap string nat;                 (* root_isolate *)
  ap_counter : nat;
  ap_labels : nat;
}.
Arguments AppState : clear implicits.
Arguments mk_app {V}.
Inductive CordisError := CE_InactiveEffect | CE_ServiceConflict (name provider : string) | CE_ServiceInactive (name : string) | CE_ServiceMissing (name : string) | CE_Panic.

Section Services.
Context {V : Type}.
(** An implementation's availability check, on its provider's context. *)
Variable check_runs : nat -> Ctx -> AppState V -> bool.
Implicit Types app : AppState V.

Definition put_fibers (fs : gmap nat FiberEntry) app : AppState V :=
  mk_app fs (ap_runtimes app) (ap_store app) (ap_values app) (ap_root app) (ap_counter app) (ap_labels app).
Definition put_runtimes (rs : gmap nat (option string * list nat)) app : AppState V :=
  mk_app (ap_fibers app) rs (ap_store app) (ap_values app) (ap_root app) (ap_counter app) (ap_labels app).
Definition put_store (st : gmap nat ImplRecord) app : AppState V :=
  mk_app (ap_fibers app) (ap_runtimes app) st (ap_values app) (ap_root app) (ap_counter app) (ap_labels app).
Definition put_values (vs : gmap nat V) app : AppState V :=
  mk_app (ap_fibers app) (ap_runtimes app) (ap_store app) vs (ap_root app) (ap_counter app) (ap_labels app).
Definition entry_data (f : FiberData) (e : FiberEntry) : FiberEntry :=
  mk_entry f (fe_parent e) (fe_ctx e) (fe_inject e) (fe_runtime e) (fe_snapshot e) (fe_live e).
Definition entry_live (live : gmap string ImplRecord) (e : FiberEntry) : FiberEntry :=
  mk_entry (fe_data e) (fe_parent e) (fe_ctx e) (fe_inject e) (fe_runtime e) (fe_snapshot e) live.
Definition entry_snapshot (snapshot : option (gmap string ImplRecord)) (e : FiberEntry) : FiberEntry :=
  mk_entry (fe_data e) (fe_parent e) (fe_ctx e) (fe_inject e) (fe_runtime e) snapshot (fe_live e).
Definition alter_entry (id : nat) (g : FiberEntry -> FiberEntry) app : AppState V := put_fibers (alter g id (ap_fibers app)) app.

Definition isolate_lookup app (c : Ctx) (name : string) : option nat :=
  match assoc name (cx_isolate c) with Some label => Some label | None => ap_root app !! name end.
Definition isolate (name : string) (label : option nat) (c : Ctx) app : AppState V * Ctx :=
  match label with
  | Some label => (app, mk_ctx (cx_fiber c) ((name, label) :: cx_isolate c) (cx_intercept c))
  | None =>
      let label := S (ap_labels app) in
      (mk_app (ap_fibers app) (ap_runtimes app) (ap_store app) (ap_values app) (ap_root app) (ap_counter app) label,
       mk_ctx (cx_fiber c) ((name, label) :: cx_isolate c) (cx_intercept c))
  end.

(** ** What a fiber sees *)

Definition check_ok (r : ImplRecord) app : bool :=
  match im_check r with
  | None => true
  | Some c => match ap_fibers app !! im_fiber r with Some p => check_runs c (fe_ctx p) app | None => false end
  end.
Definition check_impl (id : nat) (name : string) app : AppState V :=
  match ap_fibers app !! id with
  | None => app
  | Some e =>
      match isolate_lookup app (fe_ctx e) name ≫= fun label => ap_store app !! label with
      | None => alter_entry id (fun e => entry_live (delete name (fe_live e)) e) app
      | Some r =>
          if check_ok r app then alter_entry id (fun e => entry_live (<[name := r]> (fe_live e)) e) app
          else alter_entry id (fun e => entry_live (delete name (fe_live e)) e) app
      end
  end.
Definition provider_uid app (r : ImplRecord) : Z :=
  match ap_fibers app !! im_fiber r with Some p => if fb_alive (fe_data p) then Z.of_nat (im_fiber r) else (2 ^ 64 - 1)%Z | None => (2 ^ 64 - 1)%Z end.
Fixpoint epoch_of app (live : gmap string ImplRecord) (names : list string) (epoch : string) : Epoch :=
  match names with
  | [] => EpochOf epoch
  | name :: names =>
      match live !! name with Some r => epoch_of app live names (epoch +:+ ":" +:+ decimal (provider_uid app r)) | None => Inactive end
  end.

(** ** The cascade *)

(** [set_epoch]s of the fibers a change reaches are run by [se]. *)
Definition refresh (se : nat -> Epoch -> AppState V -> AppState V) (id : nat) app : AppState V :=
  match ap_fibers app !! id with None => app | Some e => se id (epoch_of app (fe_live e) (fe_inject e).*1 "") app end.
Definition candidates app : list nat := concat (snd <$> (map_to_list (ap_runtimes app)).*2).
Definition matching (c : Ctx) (names : list string) (e : FiberEntry) app : list string :=
  base.filter (fun name => name ∈ (fe_inject e).*1 /\ isolate_lookup app (fe_ctx e) name = isolate_lookup app c name) names.
Definition notify_one (se : nat -> Epoch -> AppState V -> AppState V) (c : Ctx) (names : list string) app (id : nat) : AppState V :=
  match ap_fibers app !! id with
  | None => app
  | Some e =>
      let ms := matching c names e app in
      if decide (ms = []) then app else refresh se id (foldl (fun app name => check_impl id name app) app ms)
  end.
Definition notify (se : nat -> Epoch -> AppState V -> AppState V) (c : Ctx) (names : list string) app : AppState V :=
  foldl (notify_one se c names) app (candidates app).
Definition owned_names (id : nat) app : list string := im_name <$> base.filter (fun r => im_fiber r = id) (map_to_list (ap_store app)).*2.
(** A change of one fiber, with [update_state]'s notification when the state
    crosses the active boundary.  [fuel] bounds the depth of the cascade. *)
Fixpoint touch (fuel : nat) (id : nat) (g : FiberData -> FiberData) app : AppState V :=
  match ap_fibers app !! id with
  | None => app
  | Some e =>
      let f := g (fe_data e) in
      let app := alter_entry id (entry_data f) app in
      let crossed := negb (eqb (bool_decide (fb_state (fe_data e) = FS_Active)) (bool_decide (fb_state f = FS_Active))) in
      let names := owned_names id app in
      if crossed && negb (bool_decide (names = [])) then
        match fuel with O => app | S fuel => notify (fun id epoch => touch fuel id (set_epoch epoch)) (fe_ctx e) names app end
      else app
  end.
(** Each level of the cascade starts a transition on a fiber that had none. *)
Definition cascade_fuel app : nat := S (size (ap_fibers app)).
Definition set_epoch_app (id : nat) (epoch : Epoch) app : AppState V := touch (cascade_fuel app) id (set_epoch epoch) app.
Definition refresh_app (id : nat) app : AppState V := refresh set_epoch_app id app.
Definition notify_app (c : Ctx) (names : list string) app : AppState V := notify set_epoch_app c names app.

(** ** Providing *)

Fixpoint fiber_name (fuel : nat) (id : nat) app : string :=
  match fuel, ap_fibers app !! id with
  | S fuel, Some e =>
      match (fe_runtime e ≫= (fun key => ap_runtimes app !! key)) ≫= (fun rt : option string * list nat => fst rt) with
      | Some name => name
      | None => match fe_parent e with Some (parent, _) => fiber_name fuel parent app | None => "root" end
      end
  | _, _ => "root"
  end.
Definition name_of (id : nat) app : string := fiber_name (S id) id app.
Definition ensure_root (name : string) app : AppState V :=
  match ap_root app !! name with
  | Some _ => app
  | None => mk_app (ap_fibers app) (ap_runtimes app) (ap_store app) (ap_values app) (<[name := S (ap_labels app)]> (ap_root app)) (ap_counter app) (S (ap_labels app))
  end.
(** The body of [provide]'s effect, after its conflict check; the cell of the
    value is its place among the values. *)
Definition provided (label : nat) (r : ImplRecord) (value : V) app : AppState V :=
  let app := put_values (<[im_cell r := value]> app.(ap_values)) (put_store (<[label := r]> (ap_store app)) app) in
  alter_entry (im_fiber r) (fun e => entry_live (<[im_name r := r]> (fe_live e)) (entry_snapshot (insert (im_name r) r <$> fe_snapshot e) e)) app.
Definition provide (c : Ctx) (name : string) (value : V) (check : option nat) (disposer : nat) app : AppState V * result unit CordisError :=
  let app := ensure_root name app in
  match isolate_lookup app c name with
  | None => (app, Err CE_Panic)
  | Some label =>
      match ap_fibers app !! cx_fiber c with
      | None => (app, Err CE_InactiveEffect)
      | Some e =>
          if negb (takes_effects (fe_data e)) then (app, Err CE_InactiveEffect) else
          match ap_store app !! label with
          | Some existing => (app, Err (CE_ServiceConflict name (name_of (im_fiber existing) app)))
          | None =>
              let app := provided label (mk_impl name (cx_fiber c) (fresh (dom (ap_values app))) check) value app in
              let app := if bool_decide (fb_state (fe_data e) = FS_Active) then notify_app c [name] app else app in
              (alter_entry (cx_fiber c) (fun e => entry_data (push_effect (EffectOne disposer) (fe_data e)) e) app, Ok tt)
          end
      end
  end.
(** The disposer of [provide]: up to its waits, and after them. *)
Definition unprovide (c : Ctx) (name : string) (label : nat) app : AppState V := notify_app c [name] (put_store (delete label (ap_store app)) app).
Definition unprovide_self (c : Ctx) (name : string) app : AppState V :=
  alter_entry (cx_fiber c) (fun e => entry_live (delete name (fe_live e)) (entry_snapshot (delete name <$> fe_snapshot e) e)) app.
Definition set_service (c : Ctx) (name : string) (value : V) app : AppState V * result unit CordisError :=
  match isolate_lookup app c name ≫= fun label => ap_store app !! label with
  | None => (app, Err (CE_ServiceMissing name))
  | Some r =>
      if decide (im_fiber r = cx_fiber c) then (put_values (<[im_cell r := value]> (ap_values app)) app, Ok tt)
      else (app, Err (CE_ServiceConflict name (name_of (im_fiber r) app)))
  end.

(** ** Reading *)

Definition try_get_raw (c : Ctx) (name : string) (strict : bool) app : option V :=
  r ← isolate_lookup app c name ≫= (fun label => ap_store app !! label);
  if strict && negb (bool_decide ((fb_state ∘ fe_data) <$> ap_fibers app !! im_fiber r = Some FS_Active)) then None
  else ap_values app !! im_cell r.
Fixpoint get_walk (fuel : nat) (c : Ctx) (name : string) (current : nat) app : result V CordisError :=
  match fuel, ap_fibers app !! current with
  | O, _ => Err CE_Panic
  | _, None => Err (CE_ServiceMissing name)
  | S fuel, Some e =>
      match fe_snapshot e ≫= (fun snapshot => snapshot !! name) with
      | Some r => match ap_values app !! im_cell r with Some v => Ok v | None => Err CE_Panic end
      | None =>
          if decide (name ∈ (fe_inject e).*1) then Err (CE_ServiceInactive name) else
          match fe_runtime e with
          | None => match try_get_raw c name false app with Some v => Ok v | None => Err (CE_ServiceMissing name) end
          | Some _ =>
              match fe_parent e with
              | None => if decide (isolate_lookup app c name = None) then Err CE_Panic else Err (CE_ServiceMissing name)
              | Some (parent, parent_ctx) =>
                  if decide (isolate_lookup app parent_ctx name = isolate_lookup app c name) then get_walk fuel c name parent app
                  else Err (CE_ServiceMissing name)
              end
          end
      end
  end.
(** A parent is older than its child, so its id is smaller. *)
Definition get_raw (c : Ctx) (name : string) app : result V CordisError := get_walk (S (cx_fiber c)) c name (cx_fiber c) app.

(** ** Plugins *)

Definition plugin (c : Ctx) (key : nat) (name : option string) (inject : list (string * option Value)) (disposer : nat) app : AppState V * result nat CordisError :=
  match ap_fibers app !! cx_fiber c with
  | None => (app, Err CE_InactiveEffect)
  | Some parent =>
      if negb (fb_alive (fe_data parent)) then (app, Err CE_InactiveEffect) else
      let id := S (ap_counter app) in
      let child_ctx := foldl (fun c' kv => match snd kv with Some config => intercept (fst kv) config c' | None => c' end) (with_fiber id c) inject in
      let runtime := default (name, []) (ap_runtimes app !! key) in
      let app := mk_app (<[id := mk_entry fiber_new (Some (cx_fiber c, c)) child_ctx inject (Some key) None ∅]> (ap_fibers app))
                   (<[key := (fst runtime, snd runtime ++ [id])]> (ap_runtimes app)) (ap_store app) (ap_values app) (ap_root app) id (ap_labels app) in
      if negb (takes_effects (fe_data parent)) then (app, Err CE_InactiveEffect) else
      let app := alter_entry (cx_fiber c) (fun e => entry_data (push_effect (EffectOne disposer) (fe_data e)) e) app in
      (refresh_app id (foldl (fun app name => check_impl id name app) app inject.*1), Ok id)
  end.

(** ** A fiber's life in the application *)

(** The driver of [id]; the snapshot is what the load starts with. *)
Definition drive_app (failed : bool) (id : nat) app : AppState V :=
  match ap_fibers app !! id with
  | None => app
  | Some e =>
      let known := match fe_runtime e ≫= (fun key => ap_runtimes app !! key) with Some _ => true | None => false end in
      let app := match fb_driver (fe_data e) with
        | Some (D_Begin true) => alter_entry id (fun e => entry_snapshot (Some (fe_live e)) e) app
        | Some (D_Draining []) => alter_entry id (entry_snapshot None) app
        | _ => app
        end in
      touch (cascade_fuel app) id (fiber_drive failed known) app
  end.
Definition effect_app (c : Ctx) (e : Effect) app : AppState V * result unit CordisError :=
  match ap_fibers app !! cx_fiber c with
  | Some en => match effect_labeled [] e (fe_data en) with
               | Some f => (alter_entry (cx_fiber c) (entry_data f) app, Ok tt)
               | None => (app, Err CE_InactiveEffect)
               end
  | None => (app, Err CE_InactiveEffect)
  end.
(** [Fiber::dispose] up to its event, and from there to its wait. *)
Definition dispose_begin_app (id : nat) app : AppState V := alter_entry id (fun e => entry_data (dispose_begin (fe_data e)) e) app.
Definition unlist (id : nat) app : AppState V :=
  match ap_fibers app !! id ≫= fe_runtime with
  | None => app
  | Some key =>
      match ap_runtimes app !! key with
      | None => app
      | Some (name, ids) =>
          let ids := base.filter (fun i => i <> id) ids in
          put_runtimes (if decide (ids = []) then delete key (ap_runtimes app) else <[key := (name, ids)]> (ap_runtimes app)) app
      end
  end.
Definition dispose_unload_app (id : nat) app : AppState V := let app := unlist id app in touch (cascade_fuel app) id dispose_unload app.
Definition restart_app (id : nat) app : AppState V * result unit CordisError :=
  match ap_fibers app !! id with
  | Some e => if fb_alive (fe_data e) then (refresh_app id (set_epoch_app id Inactive app), Ok tt) else (app, Err CE_InactiveEffect)
  | None => (app, Err CE_InactiveEffect)
  end.
(** [Fiber::update]: at once when the fiber is not active; else the innermost
    step of its waterfall. *)
Definition update_inactive_app (id : nat) app : AppState V * result unit CordisError :=
  match ap_fibers app !! id with
  | Some e =>
      if negb (fb_alive (fe_data e)) || bool_decide (fb_state (fe_data e) = FS_Active) then (app, Err CE_InactiveEffect)
      else restart_app id (alter_entry id (fun e => entry_data (put_error false (fe_data e)) e) app)
  | None => (app, Err CE_InactiveEffect)
  end.
Definition update_inner_app (id : nat) app : AppState V * result unit CordisError :=
  restart_app id (alter_entry id (fun e => entry_data (put_error false (fe_data e)) e) app).

(** [App::shutdown] up to its waits: the handles the root has to dispose, newest
    first. *)
Definition shutdown app : AppState V * list nat :=
  match ap_fibers app !! 0 with
  | None => (app, [])
  | Some e => let '(f, handles) := clear_disposables (fe_data e) in (alter_entry 0 (entry_data f) app, handles)
  end.

(** * The cascade *)

Implicit Types e : FiberEntry.
(** What a cascade does to a fiber: new epochs, if it is listed. *)
Definition evolves e e' : Prop :=
  (exists epochs, fe_data e' = foldl (fun f epoch => set_epoch epoch f) (fe_data e) epochs /\ (epochs <> [] -> fb_listed (fe_data e) = true))
  /\ fe_parent e' = fe_parent e /\ fe_ctx e' = fe_ctx e /\ fe_inject e' = fe_inject e /\ fe_runtime e' = fe_runtime e /\ fe_snapshot e' = fe_snapshot e.
Definition cascade app app' : Prop :=
  (forall id, option_Forall2 evolves (ap_fibers app !! id) (ap_fibers app' !! id)) /\ ap_runtimes app' = ap_runtimes app /\ ap_store app' = ap_store app
  /\ ap_values app' = ap_values app /\ ap_root app' = ap_root app /\ ap_counter app' = ap_counter app /\ ap_labels app' = ap_labels app.

Lemma foldl_epochs (P : FiberData -> Prop) epochs f : (forall epoch f, P f -> P (set_epoch epoch f)) -> P f -> P (foldl (fun f epoch => set_epoch epoch f) f epochs).
Proof. intros H. revert f. induction epochs; intros f Hf; cbn; auto. Qed.
Lemma set_epoch_listed epoch f : fb_listed (set_epoch epoch f) = fb_listed f.
Proof. unfold set_epoch. case_decide; [done|]. cbn. by destruct (fb_driver f). Qed.
Lemma set_epoch_alive epoch f : fb_alive (set_epoch epoch f) = fb_alive f.
Proof. unfold set_epoch. case_decide; [done|]. cbn. by destruct (fb_driver f). Qed.
Lemma epochs_listed epochs f : fb_listed (foldl (fun f epoch => set_epoch epoch f) f epochs) = fb_listed f.
Proof. apply (foldl_epochs (fun g => fb_listed g = fb_listed f)); [|done]. intros. by rewrite set_epoch_listed. Qed.
Lemma epochs_alive epochs f : fb_alive (foldl (fun f epoch => set_epoch epoch f) f epochs) = fb_alive f.
Proof. apply (foldl_epochs (fun g => fb_alive g = fb_alive f)); [|done]. intros. by rewrite set_epoch_alive. Qed.
Lemma evolves_refl e : evolves e e.
Proof. split; [exists []; done|auto 10]. Qed.
Lemma evolves_trans e1 e2 e3 : evolves e1 e2 -> evolves e2 e3 -> evolves e1 e3.
Proof.
  intros [(l1 & E1 & H1) S1] [(l2 & E2 & H2) S2]. split; [|intuition congruence].
  exists (l1 ++ l2). rewrite foldl_app, <- E1. split; [done|]. intros Hne. rewrite E1, epochs_listed in H2.
  destruct l1; [apply H2; by destruct l2|by apply H1].
Qed.
Lemma cascade_refl app : cascade app app.
Proof. split; [|auto 10]. intros id. destruct (ap_fibers app !! id); constructor. apply evolves_refl. Qed.
Lemma cascade_trans app1 app2 app3 : cascade app1 app2 -> cascade app2 app3 -> cascade app1 app3.
Proof.
  intros [F1 S1] [F2 S2]. split; [|intuition congruence]. intros id. specialize (F1 id). specialize (F2 id).
  inversion F1 as [e1 e2 H12 E1 E2|E1 E2]; rewrite <- E2 in F2; inversion F2; constructor. by eapply evolves_trans.
Qed.
Lemma cascade_some app app' id e : cascade app app' -> ap_fibers app !! id = Some e -> exists e', ap_fibers app' !! id = Some e' /\ evolves e e'.
Proof. intros [F _] L. specialize (F id). rewrite L in F. inversion F; subst; eauto. Qed.
Lemma cascade_candidates app app' : cascade app app' -> candidates app' = candidates app.
Proof. intros (_ & E & _). unfold candidates. by rewrite E. Qed.
Lemma cascade_lookup app app' c name : cascade app app' -> isolate_lookup app' c name = isolate_lookup app c name.
Proof. intros (_ & _ & _ & _ & E & _). unfold isolate_lookup. by rewrite E. Qed.
Lemma alter_cascade id g app : (forall e, ap_fibers app !! id = Some e -> evolves e (g e)) -> cascade app (alter_entry id g app).
Proof.
  intros H. split; [|auto 10]. intros i. cbn. destruct (decide (i = id)) as [->|Hne].
  - rewrite lookup_alter_eq. destruct (ap_fibers app !! id) as [e|]; constructor; auto.
  - rewrite lookup_alter_ne by done. destruct (ap_fibers app !! i); constructor. apply evolves_refl.
Qed.
Lemma check_impl_cascade id name app : cascade app (check_impl id name app).
Proof.
  unfold check_impl. destruct (ap_fibers app !! id) as [e|]; [|apply cascade_refl].
  assert (H : forall live, cascade app (alter_entry id (fun e => entry_live (live e) e) app)).
  { intros live. apply alter_cascade. intros e' _. split; [exists []; done|auto 10]. }
  destruct (_ ≫= _) as [r|]; [destruct (check_ok r app)|]; apply H.
Qed.
Lemma checks_cascade id names app : cascade app (foldl (fun app name => check_impl id name app) app names).
Proof.
  revert app. induction names as [|name names IH]; intros app; cbn; [apply cascade_refl|].
  eapply cascade_trans; [apply check_impl_cascade|apply IH].
Qed.

(** Every fiber of a runtime record is listed. *)
Definition runtimes_ok app : Prop := forall id e, id ∈ candidates app -> ap_fibers app !! id = Some e -> fb_listed (fe_data e) = true.
Lemma evolves_listed e e' : evolves e e' -> fb_listed (fe_data e') = fb_listed (fe_data e).
Proof. intros [(l & -> & _) _]. apply epochs_listed. Qed.
Lemma cascade_runtimes_ok app app' : cascade app app' -> runtimes_ok app -> runtimes_ok app'.
Proof.
  intros H R id e Hc L. rewrite (cascade_candidates _ _ H) in Hc. destruct H as [F _]. specialize (F id). rewrite L in F. inversion F as [e0 ? Ev E1 E2|]; subst.
  rewrite (evolves_listed _ _ Ev). by eapply R.
Qed.
(** A predicate on the cascade's result holds when it holds of each fiber's turn. *)
Lemma notify_ind (R : AppState V -> AppState V -> Prop) se c names app :
  (forall a, R a a) -> (forall a1 a2 a3, R a1 a2 -> R a2 a3 -> R a1 a3) ->
  (forall id a, id ∈ candidates app -> R app a -> R a (notify_one se c names a id)) ->
  R app (notify se c names app).
Proof.
  intros Hr Ht Hs. unfold notify.
  assert (H : forall ids a, (forall id, id ∈ ids -> id ∈ candidates app) -> R app a -> R app (foldl (notify_one se c names) a ids)).
  { induction ids as [|id ids IH]; intros a Hin Ha; cbn; [done|]. apply IH; [intros i Hi; apply Hin; by right|].
    eapply Ht; [exact Ha|]. apply Hs; [apply Hin; by left|done]. }
  apply H; auto.
Qed.
Lemma notify_one_cascade se c names id app : (forall epoch a, cascade app a -> cascade a (se id epoch a)) -> cascade app (notify_one se c names app id).
Proof.
  intros Hs. unfold notify_one. destruct (ap_fibers app !! id) as [e|]; [|apply cascade_refl].
  cbv zeta. case_decide; [apply cascade_refl|]. pose proof (checks_cascade id (matching c names e app) app) as Hc.
  eapply cascade_trans; [exact Hc|]. unfold refresh. destruct (ap_fibers _ !! id); [|apply cascade_refl]. by apply Hs.
Qed.
Lemma notify_cascade se c names app :
  (forall id epoch a, id ∈ candidates app -> cascade app a -> cascade a (se id epoch a)) -> cascade app (notify se c names app).
Proof.
  intros Hs. apply notify_ind; [apply cascade_refl|apply cascade_trans|].
  intros id a Hid Ha. apply notify_one_cascade. intros epoch a' Ha'. apply Hs; [done|]. by eapply cascade_trans.
Qed.
Lemma touch_set_epoch fuel : forall id epoch app, runtimes_ok app -> (forall e, ap_fibers app !! id = Some e -> fb_listed (fe_data e) = true) ->
  cascade app (touch fuel id (set_epoch epoch) app).
Proof.
  induction fuel as [|fuel IH]; intros id epoch app R L; cbn [touch]; (destruct (ap_fibers app !! id) as [e|] eqn:E; [|apply cascade_refl]); cbv zeta.
  all: assert (H1 : cascade app (alter_entry id (entry_data (set_epoch epoch (fe_data e))) app)).
  all: try (apply alter_cascade; intros e' E'; rewrite E in E'; injection E' as <-; split; [exists [epoch]; cbn; auto|auto 10]).
  - by destruct (_ && _).
  - destruct (_ && _); [|done]. eapply cascade_trans; [exact H1|]. apply notify_cascade. intros i ep a Hi Ha.
    assert (runtimes_ok a) by (eapply cascade_runtimes_ok; [exact Ha|]; by eapply cascade_runtimes_ok).
    apply IH; [done|]. intros e' E'. eapply H; [|exact E']. by rewrite (cascade_candidates _ _ Ha).
Qed.

(** ** The fuel is enough *)

(** The fibers without a transition. *)
Definition idle app : gset nat := dom (base.filter (fun p => fb_driver (fe_data p.2) = None) (ap_fibers app)).
Lemma elem_of_idle id app : id ∈ idle app <-> exists e, ap_fibers app !! id = Some e /\ fb_driver (fe_data e) = None.
Proof.
  unfold idle. rewrite elem_of_dom. split.
  - intros [e H]. apply map_lookup_filter_Some in H as [L D]. eauto.
  - intros (e & L & D). exists e. by apply map_lookup_filter_Some.
Qed.
Lemma set_epoch_busy epoch f : fb_driver f <> None -> fb_driver (set_epoch epoch f) = fb_driver f /\ fb_state (set_epoch epoch f) = fb_state f.
Proof. intros D. unfold set_epoch. case_decide; [done|]. cbn. destruct (fb_driver f) eqn:E; [cbn; auto|done]. Qed.
Lemma epochs_busy epochs f : fb_driver f <> None -> fb_driver (foldl (fun f epoch => set_epoch epoch f) f epochs) <> None.
Proof. intros D. apply (foldl_epochs (fun g => fb_driver g <> None)); [|done]. intros ep g Hg. by destruct (set_epoch_busy ep g Hg) as [-> _]. Qed.
Lemma cascade_idle app app' : cascade app app' -> idle app' ⊆ idle app.
Proof.
  intros H id. rewrite !elem_of_idle. intros (e' & L & D). destruct H as [F _]. specialize (F id). rewrite L in F.
  inversion F as [e ? Ev E1 E2|]; subst. exists e. split; [done|]. destruct Ev as [(eps & E & _) _].
  destruct (fb_driver (fe_data e)) eqn:X; [|done]. exfalso. eapply (epochs_busy eps (fe_data e)); [congruence|by rewrite <- E].
Qed.
Lemma idle_fibers app : size (idle app) <= size (ap_fibers app).
Proof. unfold idle. rewrite size_dom. apply map_size_filter. Qed.
Lemma notify_ext se se' c names app :
  (forall id epoch a, id ∈ candidates app -> cascade app a -> cascade a (se id epoch a)) ->
  (forall id epoch a, id ∈ candidates app -> cascade app a -> se id epoch a = se' id epoch a) -> notify se c names app = notify se' c names app.
Proof.
  intros Hc He. unfold notify.
  assert (H : forall ids a, (forall id, id ∈ ids -> id ∈ candidates app) -> cascade app a -> foldl (notify_one se c names) a ids = foldl (notify_one se' c names) a ids).
  { induction ids as [|id ids IH]; intros a Hin Ha; cbn; [done|].
    assert (notify_one se c names a id = notify_one se' c names a id) as <-.
    { unfold notify_one. destruct (ap_fibers a !! id) as [e|]; [|done]. cbv zeta. case_decide; [done|].
      unfold refresh. destruct (ap_fibers _ !! id); [|done]. apply He; [apply Hin; by left|]. eapply cascade_trans; [exact Ha|apply checks_cascade]. }
    apply IH; [intros i Hi; apply Hin; by right|]. eapply cascade_trans; [exact Ha|]. apply notify_one_cascade.
    intros ep a' Ha'. apply Hc; [apply Hin; by left|]. by eapply cascade_trans. }
  apply H; [auto|apply cascade_refl].
Qed.
Lemma touch_listed fuel id epoch app a : runtimes_ok app -> id ∈ candidates app -> cascade app a -> cascade a (touch fuel id (set_epoch epoch) a).
Proof.
  intros R Hi Ha. assert (runtimes_ok a) as Ra by by eapply cascade_runtimes_ok.
  apply touch_set_epoch; [done|]. intros e L. eapply Ra; [|exact L]. by rewrite (cascade_candidates _ _ Ha).
Qed.
Lemma touch_fuel fuel : forall fuel' id epoch app, runtimes_ok app -> (forall e, ap_fibers app !! id = Some e -> fb_listed (fe_data e) = true) ->
  size (idle app) <= fuel -> size (idle app) <= fuel' -> touch fuel id (set_epoch epoch) app = touch fuel' id (set_epoch epoch) app.
Proof.
  assert (Hq : forall fuel fuel' id epoch app e, ap_fibers app !! id = Some e -> fb_driver (fe_data e) <> None ->
    touch fuel id (set_epoch epoch) app = touch fuel' id (set_epoch epoch) app).
  { intros fuel0 fuel' id epoch app e E D. destruct (set_epoch_busy epoch (fe_data e) D) as [_ S].
    destruct fuel0, fuel'; cbn [touch]; rewrite E; cbv zeta; rewrite S, eqb_reflx; reflexivity. }
  assert (Hz : forall fuel fuel' id epoch app, size (idle app) <= 0 -> touch fuel id (set_epoch epoch) app = touch fuel' id (set_epoch epoch) app).
  { intros fuel0 fuel' id epoch app Z. destruct (ap_fibers app !! id) as [e|] eqn:E; [|destruct fuel0, fuel'; cbn [touch]; by rewrite E].
    apply (Hq _ _ _ _ _ e E). intros D. assert (id ∈ idle app) as X by (apply elem_of_idle; eauto).
    assert (idle app ≡ ∅) as Y by (apply size_empty_iff; lia). by apply Y in X; apply not_elem_of_empty in X. }
  induction fuel as [|fuel IH]; intros fuel' id epoch app R L I1 I2; [by apply Hz|].
  destruct fuel' as [|fuel']; [by apply Hz|].
  destruct (ap_fibers app !! id) as [e|] eqn:E; [|cbn [touch]; by rewrite E].
  destruct (decide (fb_driver (fe_data e) = None)) as [D|D]; [|by eapply Hq].
  cbn [touch]. rewrite E. cbv zeta. destruct (negb _ && _) eqn:B; [|done].
  set (app1 := alter_entry id _ app).
  assert (H1 : cascade app app1).
  { apply alter_cascade; intros e' E'; rewrite E in E'; injection E' as <-; split; [exists [epoch]; cbn; auto|auto 10]. }
  assert (runtimes_ok app1) as R1 by by eapply cascade_runtimes_ok.
  assert (I3 : size (idle app1) < size (idle app)).
  { apply subset_size. split; [by apply cascade_idle|]. intros X.
    assert (id ∈ idle app) as Y by (apply elem_of_idle; eauto). apply X, elem_of_idle in Y as (e1 & L1 & D1).
    unfold app1 in L1. cbn in L1. rewrite lookup_alter_eq, E in L1. injection L1 as <-. cbn in D1.
    apply andb_true_iff in B as [B _]. unfold set_epoch in D1, B. case_decide; [by rewrite eqb_reflx in B|]. cbn in D1. by rewrite D in D1. }
  apply notify_ext.
  - intros i ep a Hi Ha. by eapply touch_listed.
  - intros i ep a Hi Ha. pose proof (subseteq_size _ _ (cascade_idle _ _ Ha)).
    assert (runtimes_ok a) as Ra by by eapply cascade_runtimes_ok.
    apply IH; [done| |lia|lia]. intros e' L'. eapply Ra; [|exact L']. by rewrite (cascade_candidates _ _ Ha).
Qed.
Lemma cascade_size app app' : cascade app app' -> size (ap_fibers app') = size (ap_fibers app).
Proof.
  intros [F _]. rewrite <- !(size_dom (D := gset nat)). f_equal. apply set_eq. intros id. rewrite !elem_of_dom. specialize (F id).
  inversion F; subst; split; intros [? ?]; eauto; congruence.
Qed.
Lemma touch_enough fuel id g app : runtimes_ok (alter_entry id (fun e => entry_data (g (fe_data e)) e) app) ->
  cascade_fuel app <= fuel -> touch fuel id g app = touch (cascade_fuel app) id g app.
Proof.
  intros R Hf. unfold cascade_fuel in *. destruct fuel as [|fuel]; [lia|]. cbn [touch].
  destruct (ap_fibers app !! id) as [e|] eqn:E; [|done]. cbv zeta. destruct (negb _ && _); [|done].
  assert (alter_entry id (entry_data (g (fe_data e))) app = alter_entry id (fun e => entry_data (g (fe_data e)) e) app) as ->.
  { unfold alter_entry. f_equal. apply map_eq. intros i. destruct (decide (i = id)) as [->|]; [rewrite !lookup_alter_eq, E; done|by rewrite !lookup_alter_ne]. }
  apply notify_ext.
  - intros i ep a Hi Ha. by eapply touch_listed.
  - intros i ep a Hi Ha. assert (runtimes_ok a) as Ra by by eapply cascade_runtimes_ok.
    pose proof (idle_fibers a). rewrite (cascade_size _ _ Ha) in H. cbn in H. unfold alter_entry in H. cbn in H.
    rewrite <- (size_dom (D := gset nat)), dom_alter, size_dom in H.
    apply touch_fuel; [done| |lia|lia]. intros e' L'. eapply Ra; [|exact L']. by rewrite (cascade_candidates _ _ Ha).
Qed.

(** ** A service that goes *)

Section Removal.
Variables (name : string) (label : nat).
Definition targets app (id : nat) : Prop := exists e, ap_fibers app !! id = Some e /\ name ∈ (fe_inject e).*1 /\ isolate_lookup app (fe_ctx e) name = Some label.
Definition forgotten app (id : nat) : Prop := forall e, ap_fibers app !! id = Some e -> fe_live e !! name = None.
Definition off app (id : nat) : Prop := forgotten app id /\ forall e, ap_fibers app !! id = Some e -> fb_epoch (fe_data e) = Inactive.
Definition keeps_gone app app' : Prop := cascade app app' /\ forall id, targets app id -> (forgotten app id -> forgotten app' id) /\ (off app id -> off app' id).

Lemma cascade_targets app app' id : cascade app app' -> targets app id -> targets app' id.
Proof.
  intros H (e & L & Hi & Hl). destruct (cascade_some _ _ _ _ H L) as (e' & L' & Ev). exists e'. split; [done|].
  destruct Ev as (_ & _ & Ec & Ei & _). rewrite Ec, Ei, (cascade_lookup _ _ _ _ H). auto.
Qed.
Lemma keeps_refl app : keeps_gone app app.
Proof. split; [apply cascade_refl|auto]. Qed.
Lemma keeps_trans app1 app2 app3 : keeps_gone app1 app2 -> keeps_gone app2 app3 -> keeps_gone app1 app3.
Proof.
  intros [C1 K1] [C2 K2]. split; [by eapply cascade_trans|]. intros id T. pose proof (cascade_targets _ _ _ C1 T) as T2.
  destruct (K1 id T), (K2 id T2). auto.
Qed.
Lemma epoch_of_missing app live names epoch : name ∈ names -> live !! name = None -> epoch_of app live names epoch = Inactive.
Proof.
  intros Hin L. revert epoch. induction names as [|n names IH]; intros epoch; [by apply elem_of_nil in Hin|].
  apply elem_of_cons in Hin as [<-|Hin]; cbn; [by rewrite L|]. destruct (live !! n); [by apply IH|done].
Qed.
(** Checking a service that is gone forgets it. *)
Lemma check_forgets id n app : ap_store app !! label = None -> keeps_gone app (check_impl id n app) /\ (targets app id -> n = name -> forgotten (check_impl id n app) id).
Proof.
  intros Hs. assert (Hk : forall live, (forall e, ap_fibers app !! id = Some e -> targets app id -> fe_live e !! name = None -> live e !! name = None) ->
    keeps_gone app (alter_entry id (fun e => entry_live (live e) e) app)).
  { intros live Hl. split; [apply alter_cascade; intros e' _; split; [exists []; done|auto 10]|]. intros i T.
    destruct (decide (i = id)) as [->|Hne].
    - unfold off, forgotten. cbn. setoid_rewrite lookup_alter_eq. destruct (ap_fibers app !! id) as [e|] eqn:E; [|naive_solver]. cbn.
      assert (forgotten app id -> forall e', Some (entry_live (live e) e) = Some e' -> fe_live e' !! name = None) as Hf.
      { intros F e' [= <-]. cbn. apply Hl; auto. }
      split; [intros F; apply Hf; intros e1 X; rewrite E in X; injection X as <-; by apply F|]. intros [F Ep]. split; [apply Hf; intros e1 X; rewrite E in X; injection X as <-; by apply F|].
      intros e' [= <-]. cbn. by apply Ep.
    - unfold off, forgotten. cbn. rewrite lookup_alter_ne by done. auto. }
  unfold check_impl. destruct (ap_fibers app !! id) as [e|] eqn:E; [|split; [apply keeps_refl|intros (e0 & L & _); congruence]].
  destruct (isolate_lookup app (fe_ctx e) n ≫= _) as [r|] eqn:Er.
  - assert (Hn : targets app id -> n <> name).
    { intros (e0 & L & _ & Hl) ->. rewrite E in L. injection L as <-. rewrite Hl in Er. cbn in Er. congruence. }
    destruct (check_ok r app); (split; [apply Hk; intros e' _ T Hx|intros T X; by apply Hn in T]).
    + rewrite lookup_insert_ne; [done|by apply Hn].
    + rewrite lookup_delete_ne; [done|by apply Hn].
  - split; [apply Hk; intros e' _ T Hx; destruct (decide (n = name)) as [->|]; [apply lookup_delete_eq|by rewrite lookup_delete_ne]|].
    intros T ->. unfold forgotten. cbn. rewrite lookup_alter_eq, E. intros e' [= <-]. cbn. apply lookup_delete_eq.
Qed.
Lemma checks_forget id ns app : ap_store app !! label = None ->
  keeps_gone app (foldl (fun app n => check_impl id n app) app ns) /\ (targets app id -> name ∈ ns -> forgotten (foldl (fun app n => check_impl id n app) app ns) id).
Proof.
  revert app. induction ns as [|n ns IH]; intros app Hs; cbn; [split; [apply keeps_refl|intros _ X; by apply elem_of_nil in X]|].
  destruct (check_forgets id n app Hs) as [K F]. assert (Hs' : ap_store (check_impl id n app) !! label = None).
  { destruct K as [(_ & _ & -> & _) _]. done. }
  destruct (IH (check_impl id n app) Hs') as [K' F']. split; [by eapply keeps_trans|]. intros T Hin.
  pose proof (cascade_targets _ _ _ (proj1 K) T) as T'. apply elem_of_cons in Hin as [<-|Hin]; [|by apply F'].
  destruct K' as [_ K']. destruct (K' id T') as [K'' _]. apply K''. by apply F.
Qed.
Lemma keeps_off app app' id : keeps_gone app app' -> targets app id -> off app id -> off app' id.
Proof. intros [_ K] T. by apply K. Qed.
Lemma notify_keeps se c names app : ap_store app !! label = None ->
  (forall id epoch a, id ∈ candidates app -> keeps_gone app a -> (targets a id -> forgotten a id -> epoch = Inactive) ->
     keeps_gone a (se id epoch a) /\ (targets a id -> forgotten a id -> off (se id epoch a) id)) ->
  keeps_gone app (notify se c names app)
  /\ (name ∈ names -> isolate_lookup app c name = Some label -> forall id, id ∈ candidates app -> targets app id -> off (notify se c names app) id).
Proof.
  intros Hs Hse.
  assert (One : forall id a, id ∈ candidates app -> keeps_gone app a -> keeps_gone a (notify_one se c names a id)
    /\ (name ∈ names -> isolate_lookup app c name = Some label -> targets a id -> off (notify_one se c names a id) id)).
  { intros id a Hid Ha. unfold notify_one. destruct (ap_fibers a !! id) as [e|] eqn:E; [|split; [apply keeps_refl|intros _ _ (e0 & L & _); congruence]].
    assert (Hsa : ap_store a !! label = None) by (destruct Ha as [(_ & _ & -> & _) _]; done).
    assert (Hm : name ∈ names -> isolate_lookup app c name = Some label -> targets a id -> name ∈ matching c names e a).
    { intros Hn Hc (e0 & L & Hi & Hl). rewrite E in L. injection L as <-. apply list_elem_of_filter. split; [|done]. split; [done|].
      rewrite Hl, (cascade_lookup _ _ _ _ (proj1 Ha)). done. }
    cbv zeta. case_decide as Z.
    { split; [apply keeps_refl|]. intros Hn Hc T. specialize (Hm Hn Hc T). rewrite Z in Hm. by apply elem_of_nil in Hm. }
    destruct (checks_forget id (matching c names e a) a Hsa) as [K F]. set (a1 := foldl _ a _) in *.
    unfold refresh. destruct (ap_fibers a1 !! id) as [e1|] eqn:E1.
    - destruct (Hse id (epoch_of a1 (fe_live e1) (fe_inject e1).*1 "") a1) as [K2 O2]; [done|by eapply keeps_trans| |].
      + intros (e0 & L & Hi & _) Fo. rewrite E1 in L. injection L as <-. apply epoch_of_missing; [done|by apply Fo].
      + split; [by eapply keeps_trans|]. intros Hn Hc T. apply O2; [by eapply cascade_targets; [apply K|]|auto].
    - split; [done|]. intros _ _ T. pose proof (cascade_targets _ _ _ (proj1 K) T) as (e0 & L & _). congruence. }
  unfold notify.
  assert (H : forall ids a, (forall id, id ∈ ids -> id ∈ candidates app) -> keeps_gone app a ->
    keeps_gone a (foldl (notify_one se c names) a ids) /\ (name ∈ names -> isolate_lookup app c name = Some label -> forall id, id ∈ ids -> targets a id -> off (foldl (notify_one se c names) a ids) id)).
  { induction ids as [|i ids IH]; intros a Hin Ha; cbn; [split; [apply keeps_refl|intros _ _ id X; by apply elem_of_nil in X]|].
    destruct (One i a (Hin i ltac:(by left)) Ha) as [K1 O1].
    destruct (IH (notify_one se c names a i)) as [K2 O2]; [intros j Hj; apply Hin; by right|by eapply keeps_trans|].
    split; [by eapply keeps_trans|]. intros Hn Hc id Hid T. pose proof (cascade_targets _ _ _ (proj1 K1) T) as T1.
    apply elem_of_cons in Hid as [->|Hid]; [|by apply O2]. eapply keeps_off; [exact K2|done|by apply O1]. }
  destruct (H (candidates app) app) as [K O]; [auto|apply keeps_refl|]. split; [done|]. intros Hn Hc id Hid T. by apply O.
Qed.
Lemma touch_keeps fuel : forall id epoch app, runtimes_ok app -> (forall e, ap_fibers app !! id = Some e -> fb_listed (fe_data e) = true) ->
  ap_store app !! label = None -> (targets app id -> forgotten app id -> epoch = Inactive) ->
  keeps_gone app (touch fuel id (set_epoch epoch) app) /\ (targets app id -> forgotten app id -> off (touch fuel id (set_epoch epoch) app) id).
Proof.
  assert (Hset : forall epoch f, fb_epoch (set_epoch epoch f) = epoch).
  { intros epoch f. unfold set_epoch. case_decide; [done|]. cbn. by destruct (fb_driver f). }
  induction fuel as [|fuel IH]; intros id epoch app R L Hs He; cbn [touch]; (destruct (ap_fibers app !! id) as [e|] eqn:E; [|split; [apply keeps_refl|intros (e0 & X & _); congruence]]); cbv zeta.
  all: set (app1 := alter_entry id (entry_data (set_epoch epoch (fe_data e))) app).
  all: assert (C1 : cascade app app1) by (apply alter_cascade; intros e' E'; rewrite E in E'; injection E' as <-; split; [exists [epoch]; cbn; auto|auto 10]).
  all: assert (L1 : ap_fibers app1 !! id = Some (entry_data (set_epoch epoch (fe_data e)) e)) by (unfold app1; cbn; by rewrite lookup_alter_eq, E).
  all: assert (O1 : targets app id -> forgotten app id -> off app1 id).
  all: try (intros T F; split; intros e' X; rewrite L1 in X; injection X as <-; cbn; [by apply F|rewrite Hset; auto]).
  all: assert (K1 : keeps_gone app app1).
  all: try (split; [done|]; intros i T; destruct (decide (i = id)) as [->|Hne];
            [split; [intros F; by apply O1|intros [F _]; by apply O1]|
             unfold off, forgotten, app1; cbn; rewrite lookup_alter_ne by done; auto]).
  - destruct (_ && _); auto.
  - destruct (_ && _); [|auto].
    assert (Hs1 : ap_store app1 !! label = None) by exact Hs.
    destruct (notify_keeps (fun id epoch => touch fuel id (set_epoch epoch)) (fe_ctx e) (owned_names id app1) app1 Hs1) as [K2 _].
    + intros i ep a Hi Ha Hep. assert (runtimes_ok a) as Ra by (eapply cascade_runtimes_ok; [apply Ha|]; by eapply cascade_runtimes_ok).
      apply IH; auto.
      * intros e' E'. eapply Ra; [|exact E']. by rewrite (cascade_candidates _ _ (proj1 Ha)).
      * destruct Ha as [(_ & _ & -> & _) _]. exact Hs1.
    + split; [by eapply keeps_trans|]. intros T F. eapply keeps_off; [exact K2|by eapply cascade_targets|by apply O1].
Qed.
End Removal.

(** * The application's steps *)

Inductive app_step : AppState V -> AppState V -> Prop :=
| AS_Drive failed id app : is_Some (ap_fibers app !! id ≫= fun e => fb_driver (fe_data e)) -> app_step app (drive_app failed id app)
| AS_Effect c (eff : Effect) app : app_step app (fst (effect_app c eff app))
| AS_DisposeHandle id h app : app_step app (alter_entry id (fun e => entry_data (dispose_handle h (fe_data e)) e) app)
| AS_PollHandle id h app : app_step app (alter_entry id (fun e => entry_data (poll_handle h (fe_data e)) e) app)
| AS_Provide c name value check disposer app : app_step app (fst (provide c name value check disposer app))
| AS_Unprovide c name label app : app_step app (unprovide c name label app)
| AS_UnprovideSelf c name app : app_step app (unprovide_self c name app)
| AS_Set c name value app : app_step app (fst (set_service c name value app))
| AS_Isolate name label c app : app_step app (fst (isolate name label c app))
| AS_Plugin c key name inject disposer app : app_step app (fst (plugin c key name inject disposer app))
| AS_DisposeBegin id e app : ap_fibers app !! id = Some e -> fb_alive (fe_data e) = true -> app_step app (dispose_begin_app id app)
| AS_DisposeUnload id e app : ap_fibers app !! id = Some e -> fb_alive (fe_data e) = false -> fb_listed (fe_data e) = true -> app_step app (dispose_unload_app id app)
| AS_DisposeEnd id e app : ap_fibers app !! id = Some e -> fb_listed (fe_data e) = false -> fb_driver (fe_data e) = None ->
    app_step app (alter_entry id (fun e => entry_data (dispose_end (fe_data e)) e) app)
| AS_Restart id app : app_step app (fst (restart_app id app))
| AS_Update id app : app_step app (fst (update_inactive_app id app))
| AS_UpdateInner id app : app_step app (fst (update_inner_app id app))
| AS_Shutdown app : app_step app (fst (shutdown app)).
Definition root_entry : FiberEntry :=
  mk_entry (mk_fiber true true FS_Active (EpochOf "") false None [] [] []) None (mk_ctx 0 [] []) [] None (Some ∅) ∅.
Definition app_new : AppState V := mk_app {[0 := root_entry]} ∅ ∅ ∅ ∅ 0 0.
Definition app_reachable app : Prop := rtc app_step app_new app.

Record app_inv app : Prop := {
  ai_listed id e : ap_fibers app !! id = Some e -> id <> 0 -> fb_listed (fe_data e) = true ->
    exists key rt, fe_runtime e = Some key /\ ap_runtimes app !! key = Some rt /\ id ∈ snd rt;
  ai_runtime key rt id : ap_runtimes app !! key = Some rt -> id ∈ snd rt ->
    exists e, ap_fibers app !! id = Some e /\ fe_runtime e = Some key /\ fb_listed (fe_data e) = true;
  ai_fibers id e : ap_fibers app !! id = Some e -> id <> 0 -> fiber_reachable (fe_data e);
  ai_ids id e : ap_fibers app !! id = Some e -> id <= ap_counter app;
}.
Lemma elem_of_candidates id app : id ∈ candidates app <-> exists key rt, ap_runtimes app !! key = Some rt /\ id ∈ snd rt.
Proof.
  unfold candidates. rewrite list_elem_of_In, in_concat. split.
  - intros (l & Hl & Hi). apply list_elem_of_In, list_elem_of_fmap in Hl as (rt & -> & Hl). apply list_elem_of_fmap in Hl as ([key rt'] & -> & Hl).
    apply elem_of_map_to_list in Hl. exists key, rt'. split; [done|by apply list_elem_of_In].
  - intros (key & rt & L & Hi). exists (snd rt). split; [|by apply list_elem_of_In]. apply list_elem_of_In, list_elem_of_fmap. exists rt. split; [done|].
    apply list_elem_of_fmap. exists (key, rt). split; [done|by apply elem_of_map_to_list].
Qed.
Lemma inv_runtimes_ok app : app_inv app -> runtimes_ok app.
Proof.
  intros H id e Hc L. apply elem_of_candidates in Hc as (key & rt & Lr & Hi). destruct (ai_runtime _ H _ _ _ Lr Hi) as (e' & L' & _ & Hl). congruence.
Qed.

(** A change of the fibers that leaves them listed as they were, and lets each
    take only its own steps. *)
Definition simulates (id : nat) e e' : Prop :=
  fe_runtime e' = fe_runtime e /\ fb_listed (fe_data e') = fb_listed (fe_data e) /\ (id <> 0 -> fiber_reachable (fe_data e) -> fiber_reachable (fe_data e')).
Definition app_sim app app' : Prop :=
  (forall id, option_Forall2 (simulates id) (ap_fibers app !! id) (ap_fibers app' !! id)) /\ ap_runtimes app' = ap_runtimes app /\ ap_counter app' = ap_counter app.
Lemma app_sim_refl app : app_sim app app.
Proof. split; [|auto]. intros id. destruct (ap_fibers app !! id); constructor. split; auto. Qed.
Lemma app_sim_trans app1 app2 app3 : app_sim app1 app2 -> app_sim app2 app3 -> app_sim app1 app3.
Proof.
  intros [F1 S1] [F2 S2]. split; [|intuition congruence]. intros id. specialize (F1 id). specialize (F2 id).
  inversion F1 as [e1 e2 (R1 & L1 & H1) E1 E2|E1 E2]; rewrite <- E2 in F2; inversion F2 as [? e3 (R2 & L2 & H2) E3 E4|]; constructor. split_and!; [congruence|congruence|auto].
Qed.
Lemma app_sim_inv app app' : app_sim app app' -> app_inv app -> app_inv app'.
Proof.
  intros (F & Er & Ec) [H1 H2 H3 H4].
  assert (Back : forall id e', ap_fibers app' !! id = Some e' -> exists e, ap_fibers app !! id = Some e /\ simulates id e e').
  { intros id e' L. specialize (F id). rewrite L in F. inversion F; subst; eauto. }
  split.
  - intros id e' L Hne Hl. destruct (Back _ _ L) as (e & L0 & R & Hl' & _). rewrite Er, R. apply H1; [done|done|congruence].
  - intros key rt id Lr Hi. rewrite Er in Lr. destruct (H2 _ _ _ Lr Hi) as (e & L & R & Hl). specialize (F id). rewrite L in F.
    inversion F as [? e' (R' & L' & _) E1 E2|]; subst. exists e'. split_and!; congruence.
  - intros id e' L Hne. destruct (Back _ _ L) as (e & L0 & _ & _ & Hr). apply Hr; [done|by eapply H3].
  - intros id e' L. destruct (Back _ _ L) as (e & L0 & _). rewrite Ec. by eapply H4.
Qed.
Lemma epochs_reach epochs f : fiber_reachable f -> (epochs <> [] -> fb_listed f = true) -> fiber_reachable (foldl (fun f epoch => set_epoch epoch f) f epochs).
Proof.
  intros R. revert f R. induction epochs as [|ep epochs IH]; intros f R Hl; cbn; [done|]. apply IH.
  - eapply rtc_r; [exact R|]. apply FT_Epoch. by apply Hl.
  - intros _. rewrite set_epoch_listed. by apply Hl.
Qed.
Lemma cascade_sim app app' : cascade app app' -> app_sim app app'.
Proof.
  intros (F & Er & _ & _ & _ & Ec & _). split; [|auto]. intros id. specialize (F id). inversion F as [e e' Ev E1 E2|]; constructor.
  split_and!; [apply Ev|by apply evolves_listed|]. intros _ R. destruct Ev as [(eps & -> & Hl) _]. by apply epochs_reach.
Qed.
Lemma alter_sim id g app : (forall e, ap_fibers app !! id = Some e -> simulates id e (g e)) -> app_sim app (alter_entry id g app).
Proof.
  intros H. split; [|auto]. intros i. cbn. destruct (decide (i = id)) as [->|Hne].
  - rewrite lookup_alter_eq. destruct (ap_fibers app !! id) as [e|]; constructor; auto.
  - rewrite lookup_alter_ne by done. destruct (ap_fibers app !! i); constructor. split; auto.
Qed.
Lemma data_sim id g app : (forall e, ap_fibers app !! id = Some e -> fb_listed (g (fe_data e)) = fb_listed (fe_data e)
    /\ (id <> 0 -> rtc fiber_step (fe_data e) (g (fe_data e)))) ->
  app_sim app (alter_entry id (fun e => entry_data (g (fe_data e)) e) app).
Proof.
  intros H. apply alter_sim. intros e L. destruct (H e L) as [Hl Hs]. split_and!; [done|done|]. intros Hne R. cbn. unfold fiber_reachable in *. etrans; [exact R|by apply Hs].
Qed.
Lemma touch_after fuel id g app : runtimes_ok (alter_entry id (fun e => entry_data (g (fe_data e)) e) app) ->
  cascade (alter_entry id (fun e => entry_data (g (fe_data e)) e) app) (touch fuel id g app).
Proof.
  intros R. destruct (ap_fibers app !! id) as [e|] eqn:E.
  2: { assert (alter_entry id (fun e => entry_data (g (fe_data e)) e) app = app) as ->.
       { destruct app. unfold alter_entry, put_fibers. cbn in *. f_equal. by apply alter_id; intros x X; rewrite E in X. }
       destruct fuel; cbn [touch]; rewrite E; apply cascade_refl. }
  assert (Ea : alter_entry id (entry_data (g (fe_data e))) app = alter_entry id (fun e => entry_data (g (fe_data e)) e) app).
  { unfold alter_entry. f_equal. apply map_eq. intros i. destruct (decide (i = id)) as [->|]; [rewrite !lookup_alter_eq, E; done|by rewrite !lookup_alter_ne]. }
  destruct fuel; cbn [touch]; rewrite E; cbv zeta; rewrite Ea; (destruct (_ && _); [|apply cascade_refl]); [apply cascade_refl|].
  apply notify_cascade. intros i ep a Hi Ha. by eapply touch_listed.
Qed.

Lemma touch_sim fuel id g app : app_inv app -> (forall e, ap_fibers app !! id = Some e -> fb_listed (g (fe_data e)) = fb_listed (fe_data e)
    /\ (id <> 0 -> rtc fiber_step (fe_data e) (g (fe_data e)))) -> app_sim app (touch fuel id g app).
Proof.
  intros H Hg. pose proof (data_sim id g app Hg) as S. eapply app_sim_trans; [exact S|].
  apply cascade_sim, touch_after, inv_runtimes_ok. by eapply app_sim_inv.
Qed.
Lemma alive_listed f : fiber_reachable f -> fb_alive f = true -> fb_listed f = true.
Proof. intros R A. destruct (fiber_reachable_inv f R) as [_ [H _]]. destruct (fb_listed f); [done|]. destruct (H eq_refl). congruence. Qed.
Lemma epoch_sim id epoch app : app_inv app -> (forall e, ap_fibers app !! id = Some e -> id <> 0 -> fb_listed (fe_data e) = true) -> app_sim app (set_epoch_app id epoch app).
Proof.
  intros H L. apply touch_sim; [done|]. intros e E. split; [apply set_epoch_listed|]. intros Hne. eapply rtc_once, FT_Epoch, L; eauto.
Qed.
Lemma refresh_sim id app : app_inv app -> (forall e, ap_fibers app !! id = Some e -> id <> 0 -> fb_listed (fe_data e) = true) -> app_sim app (refresh_app id app).
Proof. intros H L. unfold refresh_app, refresh. destruct (ap_fibers app !! id) eqn:E; [|apply app_sim_refl]. apply epoch_sim; [done|]. by rewrite E. Qed.
Lemma sim_listed app app' id : app_sim app app' -> (forall e, ap_fibers app !! id = Some e -> id <> 0 -> fb_listed (fe_data e) = true) ->
  forall e, ap_fibers app' !! id = Some e -> id <> 0 -> fb_listed (fe_data e) = true.
Proof.
  intros (F & _) L e E Hne. specialize (F id). rewrite E in F. inversion F as [e0 ? (_ & Hl & _) E0 E1|]; subst. rewrite Hl. by apply L.
Qed.
Lemma notify_app_cascade c names app : runtimes_ok app -> cascade app (notify_app c names app).
Proof. intros R. apply notify_cascade. intros id ep a Hi Ha. by eapply touch_listed. Qed.
Lemma effect_sim id eff app app' e : cascade app app' -> ap_fibers app !! id = Some e -> takes_effects (fe_data e) = true ->
  app_sim app (alter_entry id (fun e => entry_data (push_effect eff (fe_data e)) e) app').
Proof.
  intros C E T. pose proof C as (F & Er & _ & _ & _ & Ec & _). split; [|auto]. intros i. cbn.
  destruct (decide (i = id)) as [->|Hne].
  - rewrite lookup_alter_eq. destruct (cascade_some _ _ _ _ C E) as (e' & E' & Ev). rewrite E, E'. constructor.
    split_and!; [apply Ev|cbn; by apply evolves_listed|]. intros _ R. destruct Ev as [(eps & Ee & Hl) _].
    eapply rtc_r; [exact R|]. apply (FT_Effect eps eff); [exact Hl|]. unfold effect_labeled. rewrite T. cbn. by rewrite Ee.
  - rewrite lookup_alter_ne by done. destruct (cascade_sim _ _ C) as (F' & _). apply F'.
Qed.
Lemma same_fibers_sim app app' : ap_fibers app' = ap_fibers app -> ap_runtimes app' = ap_runtimes app -> ap_counter app' = ap_counter app -> app_sim app app'.
Proof. intros E1 E2 E3. split; [|auto]. rewrite E1. apply app_sim_refl. Qed.
Lemma drive_app_sim failed id app : app_inv app -> is_Some (ap_fibers app !! id ≫= fun e => fb_driver (fe_data e)) -> app_sim app (drive_app failed id app).
Proof.
  intros H [d D]. unfold drive_app. destruct (ap_fibers app !! id) as [e|] eqn:E; [|discriminate]. cbn in D. cbv zeta.
  set (known := match _ with Some _ => true | None => false end). set (app1 := match _ with Some _ => _ | None => app end).
  assert (K : id <> 0 -> fb_listed (fe_data e) = true -> known = true).
  { intros Hne L. destruct (ai_listed _ H _ _ E Hne L) as (key & rt & Ek & Er & _). unfold known. rewrite Ek. cbn. by rewrite Er. }
  assert (app_sim app app1 /\ exists e1, ap_fibers app1 !! id = Some e1 /\ fe_data e1 = fe_data e) as (S1 & e1 & E1 & Ed).
  { assert (Ha : forall sn, app_sim app (alter_entry id (fun e => entry_snapshot (sn e) e) app) /\
        exists e1, ap_fibers (alter_entry id (fun e => entry_snapshot (sn e) e) app) !! id = Some e1 /\ fe_data e1 = fe_data e).
    { intros sn. split; [apply alter_sim; intros e' _; split; auto|]. cbn. rewrite lookup_alter_eq, E. cbn. eauto. }
    assert (Hn : app_sim app app /\ exists e1, ap_fibers app !! id = Some e1 /\ fe_data e1 = fe_data e) by (split; [apply app_sim_refl|eauto]).
    unfold app1. rewrite D. destruct d as [[]|expected| |[|h hs]|b]; auto. }
  eapply app_sim_trans; [exact S1|]. apply touch_sim; [by eapply app_sim_inv|].
  intros e2 E2. rewrite E1 in E2. injection E2 as <-. rewrite Ed. split.
  - unfold fiber_drive. rewrite D. destruct d as [[]|expected| |[|h hs]|[]]; auto; cbv zeta.
    + by destruct (_ && _).
    + by destruct failed.
    + destruct (disposal_done _ _); [done|]. unfold poll_handle. by destruct (_ !! h) as [[|[|]]|].
    + by destruct (fb_epoch (fe_data e)).
    + by destruct (fb_epoch (fe_data e)).
  - intros Hne. apply rtc_once. apply FT_Drive; [rewrite D; eauto|auto].
Qed.
Lemma restart_app_sim id app : app_inv app -> app_sim app (fst (restart_app id app)).
Proof.
  intros H. unfold restart_app. destruct (ap_fibers app !! id) as [e|] eqn:E; [|apply app_sim_refl].
  destruct (fb_alive (fe_data e)) eqn:A; [|apply app_sim_refl]. cbn.
  assert (L : forall e', ap_fibers app !! id = Some e' -> id <> 0 -> fb_listed (fe_data e') = true).
  { intros e' E' Hne. rewrite E in E'. injection E' as <-. apply alive_listed; [by eapply ai_fibers|done]. }
  pose proof (epoch_sim id Inactive app H L) as S. eapply app_sim_trans; [exact S|].
  apply refresh_sim; [by eapply app_sim_inv|]. by eapply sim_listed.
Qed.

Lemma effect_app_sim c eff app : app_inv app -> app_sim app (fst (effect_app c eff app)).
Proof.
  intros H. unfold effect_app. destruct (ap_fibers app !! cx_fiber c) as [e|] eqn:E; [|apply app_sim_refl].
  destruct (effect_labeled [] eff (fe_data e)) as [f|] eqn:Ef; [|apply app_sim_refl]. cbn.
  apply alter_sim. intros e' E'. rewrite E in E'. injection E' as <-. split_and!; [done| |].
  - unfold effect_labeled in Ef. destruct (takes_effects _); [|discriminate]. by injection Ef as <-.
  - intros _ R. eapply rtc_r; [exact R|]. by eapply (FT_Effect []).
Qed.
Lemma ensure_root_sim name app : app_sim app (ensure_root name app).
Proof. unfold ensure_root. destruct (ap_root app !! name); [apply app_sim_refl|by apply same_fibers_sim]. Qed.
Lemma provide_sim c name value check disposer app : app_inv app -> app_sim app (fst (provide c name value check disposer app)).
Proof.
  intros H. unfold provide. cbv zeta. pose proof (ensure_root_sim name app) as S0. set (app0 := ensure_root name app) in *.
  pose proof (app_sim_inv _ _ S0 H) as H0. destruct (isolate_lookup app0 c name) as [label|]; [|done].
  destruct (ap_fibers app0 !! cx_fiber c) as [e|] eqn:E; [|done]. destruct (takes_effects (fe_data e)) eqn:T; cbn; [|done].
  destruct (ap_store app0 !! label); [done|]. cbn.
  set (r := mk_impl name (cx_fiber c) (fresh (dom (ap_values app0))) check). set (app1 := provided label r value app0).
  assert (S1 : app_sim app0 app1).
  { apply (app_sim_trans _ (put_values (<[im_cell r := value]> (ap_values app0)) (put_store (<[label := r]> (ap_store app0)) app0))); [by apply same_fibers_sim|].
    apply alter_sim. intros e' _. split; auto. }
  assert (exists e1, ap_fibers app1 !! cx_fiber c = Some e1 /\ fe_data e1 = fe_data e) as (e1 & E1 & Ed).
  { unfold app1, provided. cbn. rewrite lookup_alter_eq, E. cbn. eauto. }
  eapply app_sim_trans; [exact S0|]. eapply app_sim_trans; [exact S1|]. pose proof (app_sim_inv _ _ S1 H0) as H1.
  apply (effect_sim (cx_fiber c) (EffectOne disposer) app1 _ e1); [|done|by rewrite Ed].
  case_bool_decide; [apply notify_app_cascade; by apply inv_runtimes_ok|apply cascade_refl].
Qed.
Lemma plugin_inv c key name inject disposer app : app_inv app -> app_inv (fst (plugin c key name inject disposer app)).
Proof.
  intros H. unfold plugin. cbv zeta. destruct (ap_fibers app !! cx_fiber c) as [parent|] eqn:E; [|done].
  destruct (negb (fb_alive _)); [done|]. set (id := S (ap_counter app)).
  set (ctx := foldl _ _ inject). set (app1 := mk_app _ _ _ _ _ _ _).
  assert (Fresh : ap_fibers app !! id = None).
  { destruct (ap_fibers app !! id) eqn:X; [|done]. pose proof (ai_ids _ H _ _ X). unfold id in *. lia. }
  assert (I1 : app_inv app1).
  { destruct H as [H1 H2 H3 H4]. split; unfold app1; cbn.
    - intros i e L Hne Hl. destruct (decide (i = id)) as [->|Hi].
      + rewrite lookup_insert_eq in L. injection L as <-. cbn. eexists key, _. split; [done|]. rewrite lookup_insert_eq. split; [done|]. cbn.
        apply elem_of_app. right. by apply list_elem_of_singleton.
      + rewrite lookup_insert_ne in L by done. destruct (H1 _ _ L Hne Hl) as (k & rt & Ek & Er & Hin). destruct (decide (k = key)) as [->|Hk].
        * eexists key, _. split; [done|]. rewrite lookup_insert_eq. split; [done|]. cbn. rewrite Er. cbn. apply elem_of_app. by left.
        * exists k, rt. by rewrite lookup_insert_ne.
    - intros k rt i Lr Hin. assert (Old : forall rt', ap_runtimes app !! k = Some rt' -> i ∈ snd rt' ->
        exists e, <[id := mk_entry fiber_new (Some (cx_fiber c, c)) ctx inject (Some key) None ∅]> (ap_fibers app) !! i = Some e /\ fe_runtime e = Some k /\ fb_listed (fe_data e) = true).
      { intros rt' Er Hi. destruct (H2 _ _ _ Er Hi) as (e & L & R). exists e. rewrite lookup_insert_ne; [done|]. intros <-. congruence. }
      destruct (decide (k = key)) as [->|Hk]; [|rewrite lookup_insert_ne in Lr by done; by eapply Old].
      rewrite lookup_insert_eq in Lr. injection Lr as <-. cbn in Hin. apply elem_of_app in Hin as [Hin|Hin].
      + destruct (ap_runtimes app !! key) as [rt'|] eqn:Er; [by eapply Old|cbn in Hin; by apply elem_of_nil in Hin].
      + apply list_elem_of_singleton in Hin as ->. rewrite lookup_insert_eq. eexists. split; [done|]. auto.
    - intros i e L Hne. destruct (decide (i = id)) as [->|Hi]; [rewrite lookup_insert_eq in L; injection L as <-; apply rtc_refl|].
      rewrite lookup_insert_ne in L by done. by eapply H3.
    - intros i e L. destruct (decide (i = id)) as [->|Hi]; [done|]. rewrite lookup_insert_ne in L by done. apply H4 in L. unfold id. lia. }
  destruct (negb (takes_effects (fe_data parent))) eqn:T; [done|]. apply negb_false_iff in T. cbn [fst].
  assert (E1 : ap_fibers app1 !! cx_fiber c = Some parent).
  { unfold app1. cbn. rewrite lookup_insert_ne; [done|]. intros X. rewrite <- X in E. congruence. }
  pose proof (effect_sim (cx_fiber c) (EffectOne disposer) app1 app1 parent (cascade_refl _) E1 T) as S2.
  set (app2 := alter_entry (cx_fiber c) _ app1) in *. pose proof (app_sim_inv _ _ S2 I1) as I2.
  pose proof (checks_cascade id inject.*1 app2) as C3. pose proof (app_sim_inv _ _ (cascade_sim _ _ C3) I2) as I3.
  eapply app_sim_inv; [apply refresh_sim; [exact I3|]|exact I3].
  apply (sim_listed app1); [eapply app_sim_trans; [exact S2|by apply cascade_sim]|].
  intros e L _. unfold app1 in L. cbn in L. rewrite lookup_insert_eq in L. by injection L as <-.
Qed.
Lemma dispose_unload_inv id e app : app_inv app -> ap_fibers app !! id = Some e -> fb_alive (fe_data e) = false -> fb_listed (fe_data e) = true ->
  app_inv (dispose_unload_app id app).
Proof.
  intros H E A L. unfold dispose_unload_app. cbv zeta. set (app1 := unlist id app).
  assert (Ef : ap_fibers app1 = ap_fibers app).
  { unfold app1, unlist. destruct (_ ≫= fe_runtime); [|done]. destruct (ap_runtimes app !! _) as [[? ?]|]; done. }
  assert (Ec : ap_counter app1 = ap_counter app).
  { unfold app1, unlist. destruct (_ ≫= fe_runtime); [|done]. destruct (ap_runtimes app !! _) as [[? ?]|]; done. }
  assert (Er : forall k i, i <> id -> (exists rt, ap_runtimes app1 !! k = Some rt /\ i ∈ snd rt) <-> (exists rt, ap_runtimes app !! k = Some rt /\ i ∈ snd rt)).
  { intros k i Hi. unfold app1, unlist. rewrite E. cbn. destruct (fe_runtime e) as [key|]; [|done].
    destruct (ap_runtimes app !! key) as [[nm ids]|] eqn:Ek; [|done]. cbn.
    destruct (decide (k = key)) as [->|Hk].
    - rewrite Ek. destruct (decide (base.filter (fun j => j <> id) ids = [])) as [Z|Z].
      + rewrite lookup_delete_eq. split; [intros (? & ? & _); congruence|]. intros (rt & [= <-] & Hin). cbn in Hin.
        assert (i ∈ base.filter (fun j => j <> id) ids) as X by (by apply list_elem_of_filter). rewrite Z in X. by apply elem_of_nil in X.
      + rewrite lookup_insert_eq. split; intros (rt & [= <-] & Hin); cbn in *; (eexists; split; [done|]; cbn).
        * by apply list_elem_of_filter in Hin as [_ Hin].
        * by apply list_elem_of_filter.
    - destruct (decide _); [rewrite lookup_delete_ne by done|rewrite lookup_insert_ne by done]; done. }
  assert (Gone : forall k rt, ap_runtimes app1 !! k = Some rt -> id ∉ snd rt).
  { intros k rt Lr Hin. unfold app1, unlist in Lr. rewrite E in Lr. cbn in Lr.
    assert (Hk : ap_runtimes app !! k = Some rt -> fe_runtime e = Some k).
    { intros X. destruct (ai_runtime _ H _ _ _ X Hin) as (e' & E' & R & _). congruence. }
    destruct (fe_runtime e) as [key|]; [|by specialize (Hk Lr)].
    destruct (ap_runtimes app !! key) as [[nm ids]|] eqn:Ek; [|specialize (Hk Lr); injection Hk as ->; congruence]. cbn in Lr.
    destruct (decide (k = key)) as [->|Hne].
    - destruct (decide _); [by rewrite lookup_delete_eq in Lr|]. rewrite lookup_insert_eq in Lr. injection Lr as <-. cbn in Hin.
      by apply list_elem_of_filter in Hin as [? _].
    - assert (ap_runtimes app !! k = Some rt) as X by (destruct (decide _); [by rewrite lookup_delete_ne in Lr|by rewrite lookup_insert_ne in Lr]).
      specialize (Hk X). congruence. }
  set (app2 := alter_entry id (fun e => entry_data (dispose_unload (fe_data e)) e) app1).
  assert (I2 : app_inv app2).
  { split; unfold app2; cbn; rewrite Ef.
    - intros i e' L' Hne Hl. destruct (decide (i = id)) as [->|Hi].
      + rewrite lookup_alter_eq, E in L'. injection L' as <-. exfalso. revert Hl. cbn. unfold dispose_unload. cbv zeta.
        destruct (_ && _); cbn; rewrite set_epoch_listed; discriminate.
      + rewrite lookup_alter_ne in L' by done. destruct (ai_listed _ H _ _ L' Hne Hl) as (k & rt & Ek & Lk & Hin).
        destruct (proj2 (Er k i Hi)) as (rt' & ? & ?); [eauto|]. exists k, rt'. auto.
    - intros k rt i Lr Hin. destruct (decide (i = id)) as [->|Hi]; [by apply Gone in Lr|].
      destruct (proj1 (Er k i Hi)) as (rt' & Lr' & Hin'); [eauto|]. rewrite lookup_alter_ne by done. by eapply ai_runtime.
    - intros i e' L' Hne. destruct (decide (i = id)) as [->|Hi].
      + rewrite lookup_alter_eq, E in L'. injection L' as <-. cbn. eapply rtc_r; [by eapply (ai_fibers _ H)|by apply FT_DisposeUnload].
      + rewrite lookup_alter_ne in L' by done. by eapply (ai_fibers _ H).
    - intros i e' L'. rewrite Ec. destruct (decide (i = id)) as [->|Hi]; [by eapply (ai_ids _ H)|].
      rewrite lookup_alter_ne in L' by done. by eapply (ai_ids _ H). }
  eapply app_sim_inv; [apply cascade_sim, touch_after; by apply inv_runtimes_ok|exact I2].
Qed.

Lemma update_error_sim id app : app_inv app -> app_sim app (fst (update_inner_app id app)).
Proof.
  intros H. unfold update_inner_app, restart_app. set (app1 := alter_entry id _ app).
  assert (E1 : ap_fibers app1 !! id = (fun e => entry_data (put_error false (fe_data e)) e) <$> ap_fibers app !! id) by (cbn; apply lookup_alter_eq).
  rewrite E1. destruct (ap_fibers app !! id) as [e|] eqn:E; cbn [fmap option_fmap option_map fe_data entry_data fb_alive put_error fst].
  2: { apply alter_sim. intros e X. congruence. }
  assert (Step : forall f, update_inner Inactive f = if fb_alive f then set_epoch Inactive (put_error false f) else put_error false f).
  { intros f. unfold update_inner, restart. cbn. destruct (fb_alive f); [|done]. cbn. unfold set_epoch at 1. rewrite decide_True; [done|].
    unfold set_epoch. case_decide; [done|]. cbn. by destruct (fb_driver f). }
  destruct (fb_alive (fe_data e)) eqn:A; cbn [fst].
  2: { apply (data_sim id (put_error false)). intros e' E'. rewrite E in E'. injection E' as <-. split; [done|]. intros _.
       pose proof (Step (fe_data e)) as X. rewrite A in X. rewrite <- X. apply rtc_once, FT_UpdateInner. }
  assert (Ea : alter_entry id (fun e => entry_data (set_epoch Inactive (fe_data e)) e) app1 = alter_entry id (fun e => entry_data (set_epoch Inactive (put_error false (fe_data e))) e) app).
  { unfold app1, alter_entry, put_fibers. cbn. f_equal. apply map_eq. intros i. destruct (decide (i = id)) as [->|].
    - rewrite !lookup_alter_eq. by destruct (ap_fibers app !! id).
    - by rewrite !lookup_alter_ne. }
  assert (S2 : app_sim app (alter_entry id (fun e => entry_data (set_epoch Inactive (fe_data e)) e) app1)).
  { rewrite Ea. apply (data_sim id (fun f => set_epoch Inactive (put_error false f))). intros e' E'. rewrite E in E'. injection E' as <-.
    split; [by rewrite set_epoch_listed|]. intros _. pose proof (Step (fe_data e)) as X. rewrite A in X. rewrite <- X. apply rtc_once, FT_UpdateInner. }
  assert (S3 : app_sim app (set_epoch_app id Inactive app1)).
  { eapply app_sim_trans; [exact S2|]. apply cascade_sim, touch_after, inv_runtimes_ok. by eapply app_sim_inv. }
  eapply app_sim_trans; [exact S3|]. apply refresh_sim; [by eapply app_sim_inv|]. apply (sim_listed app); [done|].
  intros e' E' Hne. rewrite E in E'. injection E' as <-. apply alive_listed; [by eapply ai_fibers|done].
Qed.
Lemma app_step_inv app app' : app_step app app' -> app_inv app -> app_inv app'.
Proof.
  intros S H. destruct S; try (by apply plugin_inv); try (by eapply dispose_unload_inv); eapply app_sim_inv; try exact H.
  - by apply drive_app_sim.
  - by apply effect_app_sim.
  - apply (data_sim id (dispose_handle h)). intros e _. split; [done|]. intros _. apply rtc_once, FT_DisposeHandle.
  - apply (data_sim id (poll_handle h)). intros e _. split; [unfold poll_handle; by destruct (_ !! h) as [[|[|]]|]|]. intros _. apply rtc_once, FT_PollHandle.
  - by apply provide_sim.
  - eapply app_sim_trans; [by apply (same_fibers_sim app (put_store (delete label (ap_store app)) app))|]. apply cascade_sim, notify_app_cascade.
    apply inv_runtimes_ok. eapply app_sim_inv; [|exact H]. by apply same_fibers_sim.
  - apply alter_sim. intros e _. split; auto.
  - unfold set_service. destruct (_ ≫= _); [destruct (decide _)|]; cbn; try apply app_sim_refl. by apply same_fibers_sim.
  - unfold isolate. destruct label; cbn; [apply app_sim_refl|by apply same_fibers_sim].
  - apply (data_sim id dispose_begin). intros e' E'. split; [done|]. intros _. apply rtc_once, FT_DisposeBegin. congruence.
  - apply (data_sim id dispose_end). intros e' E'. split; [done|]. intros _. apply rtc_once, FT_DisposeEnd; congruence.
  - by apply restart_app_sim.
  - unfold update_inactive_app. destruct (ap_fibers app !! id) as [e|] eqn:E; [|apply app_sim_refl].
    destruct (negb _ || _) eqn:B; [apply app_sim_refl|]. by apply update_error_sim.
  - by apply update_error_sim.
  - unfold shutdown. destruct (ap_fibers app !! 0) as [e|] eqn:E; [|apply app_sim_refl]. cbn.
    apply alter_sim. intros e' E'. rewrite E in E'. injection E' as <-. split_and!; done.
Qed.
Lemma app_new_inv : app_inv app_new.
Proof.
  split; cbn.
  - intros id e L Hne. rewrite lookup_singleton_ne in L by done. discriminate.
  - intros key rt id L. by rewrite lookup_empty in L.
  - intros id e L Hne. rewrite lookup_singleton_ne in L by done. discriminate.
  - intros id e L. apply lookup_singleton_Some in L as [<- _]. lia.
Qed.
Lemma app_reachable_inv app : app_reachable app -> app_inv app.
Proof. intros R. pose proof app_new_inv as H. unfold app_reachable in R. induction R; [done|]. apply IHR. by eapply app_step_inv. Qed.

(** * The properties *)

(** C26. The application refines the life of a fiber: whatever plugins are
    loaded, services provided and removed and fibers driven, disposed,
    restarted or updated, each plugin's fiber only ever takes steps of
    [fiber_step], so what holds of a fiber's life holds of it; and the cascade
    that follows a change ends, no deeper than there are fibers. *)
Theorem app_refines_fibers (app : AppState V) : app_reachable app ->
  (forall id e, ap_fibers app !! id = Some e -> id <> 0 -> fiber_reachable (fe_data e))
  /\ (forall id epoch fuel, id ∈ candidates app -> cascade_fuel app <= fuel -> touch fuel id (set_epoch epoch) app = set_epoch_app id epoch app).
Proof.
  intros R. pose proof (app_reachable_inv _ R) as H. split; [apply (ai_fibers _ H)|].
  intros id epoch fuel Hc Hf. apply touch_enough; [|done].
  assert (cascade app (alter_entry id (fun e => entry_data (set_epoch epoch (fe_data e)) e) app)) as C.
  { apply alter_cascade. intros e E. split; [|auto 10]. exists [epoch]. split; [done|]. intros _. by eapply inv_runtimes_ok. }
  by eapply cascade_runtimes_ok, inv_runtimes_ok.
Qed.

(** C29. A service that goes takes its dependents down: once its implementation
    is removed, every listed fiber that injects it in the same isolation scope
    has forgotten it and is inactive, however the change spreads through other
    fibers and whatever the other services' availability checks answer. *)
Theorem service_gone (c : Ctx) (name : string) (label : nat) (app : AppState V) (id : nat) (e : FiberEntry) :
  app_reachable app -> isolate_lookup app c name = Some label ->
  id ∈ candidates app -> ap_fibers (unprovide c name label app) !! id = Some e ->
  name ∈ (fe_inject e).*1 -> isolate_lookup app (fe_ctx e) name = Some label ->
  fe_live e !! name = None /\ fb_epoch (fe_data e) = Inactive.
Proof.
  intros R Lc Hc Le Hi Hl. pose proof (inv_runtimes_ok _ (app_reachable_inv _ R)) as Ro.
  set (app1 := put_store (delete label (ap_store app)) app). assert (Ro1 : runtimes_ok app1) by exact Ro.
  assert (Hs : ap_store app1 !! label = None) by apply lookup_delete_eq.
  destruct (notify_keeps name label set_epoch_app c [name] app1 Hs) as [K O].
  { intros i ep a Hi' Ha Hep. assert (runtimes_ok a) as Ra by (eapply cascade_runtimes_ok; [apply Ha|done]).
    apply touch_keeps; [done| | |done].
    - intros e' E'. eapply Ra; [|exact E']. by rewrite (cascade_candidates _ _ (proj1 Ha)).
    - destruct Ha as [(_ & _ & -> & _) _]. exact Hs. }
  assert (T : targets name label app1 id).
  { destruct K as [(F & _) _]. specialize (F id). change (notify _ c [name] app1) with (unprovide c name label app) in F.
    rewrite Le in F. inversion F as [e0 ? Ev E0 E1|]; subst. exists e0. split; [done|].
    destruct Ev as (_ & _ & Ec & Ei & _). rewrite <- Ec, <- Ei. split; [done|exact Hl]. }
  destruct (O ltac:(by left) Lc id Hc T) as [Fo Ep]. split; [by apply Fo|by apply Ep].
Qed.

(** ** Where scopes and owners end *)

(** A plugin loaded on a fiber that is unloading is refused, and stays all the
    same among the fibers a notification wakes, with no owner. *)
Lemma refused_plugin_stays c key name inject disposer app parent : ap_fibers app !! cx_fiber c = Some parent ->
  fb_alive (fe_data parent) = true -> fb_state (fe_data parent) = FS_Unloading ->
  snd (plugin c key name inject disposer app) = Err CE_InactiveEffect /\ S (ap_counter app) ∈ candidates (fst (plugin c key name inject disposer app)).
Proof.
  intros E A S. unfold plugin. rewrite E, A. cbn [negb]. cbv zeta. unfold takes_effects. rewrite A, S.
  change (bool_decide (FS_Unloading = FS_Unloading)) with true. cbn [negb andb fst snd]. split; [done|].
  apply elem_of_candidates. eexists key, _. cbn. rewrite lookup_insert_eq. split; [done|]. cbn. apply elem_of_app. right. by apply list_elem_of_singleton.
Qed.

End Services.

(** * A concrete application *)

Definition no_checks (_ : nat) (_ : Ctx) (_ : AppState string) : bool := true.
Definition root_ctx : Ctx := mk_ctx 0 [] [].
(** The root provides "db"; two plugins inject it, one of them below an
    isolation of "db". *)
Definition app_db : AppState string := fst (provide no_checks root_ctx "db" "sqlite" None 0 app_new).
Definition app_users : AppState string := fst (plugin no_checks root_ctx 1 (Some "users") [("db", None)] 1 app_db).
Definition hidden_ctx : Ctx := snd (isolate "db" None root_ctx app_users).
Definition app_hidden : AppState string := fst (plugin no_checks hidden_ctx 2 (Some "hidden") [("db", None)] 2 (fst (isolate "db" None root_ctx app_users))).
Definition app_running : AppState string := drive_app no_checks false 1 (drive_app no_checks false 1 (drive_app no_checks false 1 (drive_app no_checks false 1 app_hidden))).
Lemma app_hidden_reachable : app_reachable no_checks app_hidden.
Proof.
  eapply rtc_r; [|apply (AS_Plugin _ hidden_ctx)]. eapply rtc_r; [|apply (AS_Isolate _ "db" None root_ctx)].
  eapply rtc_r; [|apply (AS_Plugin _ root_ctx)]. eapply rtc_r; [apply rtc_refl|apply (AS_Provide _ root_ctx)].
Qed.
Lemma app_running_reachable : app_reachable no_checks app_running.
Proof.
  do 4 (eapply rtc_r; [|apply AS_Drive; vm_compute; eauto]). apply app_hidden_reachable.
Qed.
Definition state_of (id : nat) (app : AppState string) : option FiberState := (fb_state ∘ fe_data) <$> ap_fibers app !! id.
Lemma app_refines_fibers_witness : state_of 1 app_running = Some FS_Active /\ state_of 2 app_running = Some FS_Pending
  /\ exists e, ap_fibers app_running !! 1 = Some e /\ fiber_reachable (fe_data e).
Proof.
  split; [vm_compute; reflexivity|]. split; [vm_compute; reflexivity|].
  destruct (ap_fibers app_running !! 1) as [e|] eqn:E; [|exfalso; revert E; vm_compute; discriminate].
  exists e. split; [reflexivity|]. exact (proj1 (app_refines_fibers no_checks app_running app_running_reachable) 1 e E ltac:(discriminate)).
Defined.
Lemma service_gone_witness : state_of 1 (unprovide no_checks root_ctx "db" 1 app_running) = Some FS_Unloading
  /\ exists e, ap_fibers (unprovide no_checks root_ctx "db" 1 app_running) !! 1 = Some e /\ fb_epoch (fe_data e) = Inactive.
Proof.
  split; [vm_compute; reflexivity|].
  destruct (ap_fibers (unprovide no_checks root_ctx "db" 1 app_running) !! 1) as [e|] eqn:E; [|exfalso; revert E; vm_compute; discriminate].
  exists e. split; [reflexivity|].
  refine (proj2 (service_gone no_checks root_ctx "db" 1 app_running 1 e app_running_reachable _ _ E _ _)).
  - vm_compute. reflexivity.
  - refine (bool_decide_unpack _ _). vm_compute. exact I.
  - refine (bool_decide_unpack _ _). revert E. vm_compute. intros [= <-]. exact I.
  - revert E. vm_compute. intros [= <-]. reflexivity.
Defined.
(** Isolation does not reach the fiber it is made in: the snapshot is asked by
    name before the label is, so a context that isolates a name still reads the
    outer implementation through it, where the store has none in its scope. *)
Lemma isolation_ignored_in_its_fiber : get_raw hidden_ctx "db" app_hidden = Ok "sqlite" /\ try_get_raw hidden_ctx "db" false app_hidden = None.
Proof. split; vm_compute; reflexivity. Qed.
