(* ===== verification/CordisEvents.v ===== *)
(** The event bus of the plugin framework, [crates/dsh/cordis/src/events.rs]:
    listeners registered as effects of a fiber, and the ways an event is
    dispatched to them.

    A listener's body is a parameter, run on the state of the program; what it
    awaits is part of its body. *)
From Stdlib Require Import ZArith Lia Ascii String FunctionalExtensionality.
From stdpp Require Import base tactics numbers list strings gmap.
From S2P Require Import Prelude CordisFiber.
Open Scope string_scope.
Open Scope nat_scope.
Open Scope list_scope.

(** A listener is a number, of one of the two kinds of holders. *)
Inductive Callback := NotifyHolder (listener : nat) | WaterfallHolder (listener : nat).
Record Hook := mk_hook { hk_id : nat; hk_fiber : nat; hk_type : nat; hk_callback : Callback; hk_global : bool }.
Record EventOptions := mk_event_options { eo_prepend : bool; eo_global : bool }.
(** A marker type: its [TypeId] and its name. *)
Record Event := mk_event { ev_type : nat; ev_name : string }.
Abbreviation Hooks := (gmap string (list Hook)).

(** * Registration *)

(** The body of [register_hook]'s effect, and its disposer. *)
Definition add_hook (ev : Event) (options : EventOptions) (id fiber : nat) (callback : Callback) (hooks : Hooks) : Hooks :=
  let hook := mk_hook id fiber (ev_type ev) callback (eo_global options) in
  let l := default [] (hooks !! ev_name ev) in
  <[ev_name ev := if eo_prepend options then hook :: l else l ++ [hook]]> hooks.
Definition remove_hook (ev : Event) (id : nat) (hooks : Hooks) : Hooks := alter (base.filter (fun hook => hk_id hook <> id)) (ev_name ev) hooks.
(** The hooks, the counter behind [next_hook_id], and the owner's fiber. *)
Record Bus := mk_bus { bus_hooks : Hooks; bus_next : nat }.
Definition register_hook (ev : Event) (options : EventOptions) (fiber : nat) (callback : Callback) (disposer : nat) (bus : Bus) (f : FiberData) : Bus * option FiberData :=
  let id := S (bus_next bus) in
  match effect_labeled [] (EffectOne disposer) f with
  | Some f => (mk_bus (add_hook ev options id fiber callback (bus_hooks bus)) id, Some f)
  | None => (mk_bus (bus_hooks bus) id, None)
  end.

(** * Dispatch *)

Definition collect_notify (ev : Event) (hooks : Hooks) : list nat :=
  omap (fun hook => if decide (hk_type hook = ev_type ev) then match hk_callback hook with NotifyHolder l => Some l | WaterfallHolder _ => None end else None)
    (default [] (hooks !! ev_name ev)).
Definition collect_waterfall (ev : Event) (hooks : Hooks) : list nat :=
  omap (fun hook => if decide (hk_type hook = ev_type ev) then match hk_callback hook with WaterfallHolder l => Some l | NotifyHolder _ => None end else None)
    (default [] (hooks !! ev_name ev)).

Section Dispatch.
Context {S Args Ret Err : Type}.
(** What a listener does when called and awaited. *)
Variable notified : nat -> Args -> S -> S * option Ret.
Abbreviation Cont := (Args -> S -> S * result Ret Err).
Variable around : nat -> Args -> Cont -> S -> S * result Ret Err.

Fixpoint serial_from (chain : list nat) (args : Args) (s : S) : S * option Ret :=
  match chain with
  | [] => (s, None)
  | l :: chain => match notified l args s with (s, Some value) => (s, Some value) | (s, None) => serial_from chain args s end
  end.
Definition serial (ev : Event) (hooks : Hooks) (args : Args) (s : S) : S * option Ret := serial_from (collect_notify ev hooks) args s.
(** [step]: the listener at [index] of the chain around the rest. *)
Fixpoint waterfall_step (fuel : nat) (chain : list nat) (index : nat) (inner : Cont) (args : Args) : S -> S * result Ret Err :=
  match fuel, chain !! index with
  | _, None => inner args
  | O, Some _ => inner args
  | Datatypes.S fuel, Some callback => around callback args (fun args => waterfall_step fuel chain (Datatypes.S index) inner args)
  end.
Definition waterfall (ev : Event) (hooks : Hooks) (args : Args) (inner : Cont) (s : S) : S * result Ret Err :=
  let chain := collect_waterfall ev hooks in waterfall_step (length chain) chain 0 inner args s.

(** * What they mean *)

(** A bail stops the chain: the listeners before it saw the event and answered
    nothing, those after it do not see it. *)
Lemma serial_bails pre l post args s s1 s2 value :
  serial_from pre args s = (s1, None) -> notified l args s1 = (s2, Some value) -> serial_from (pre ++ l :: post) args s = (s2, Some value).
Proof.
  revert s. induction pre as [|p pre IH]; intros s; cbn; [intros [= ->] E; by rewrite E|].
  destruct (notified p args s) as [s' []]; [discriminate|]. apply IH.
Qed.
(** The index walk is the composition of the listeners, the first outermost. *)
Lemma waterfall_composes ev hooks inner args :
  waterfall ev hooks args inner = foldr (fun callback next args => around callback args next) inner (collect_waterfall ev hooks) args.
Proof.
  unfold waterfall. cbv zeta. set (chain := collect_waterfall ev hooks).
  assert (H : forall n index args, index + n = length chain -> waterfall_step n chain index inner args = foldr (fun callback next args => around callback args next) inner (drop index chain) args).
  { induction n as [|n IH]; intros index a E.
    - rewrite (drop_ge chain) by lia. cbn. by rewrite lookup_ge_None_2 by lia.
    - destruct (lookup_lt_is_Some_2 chain index) as [cb L]; [lia|]. cbn. rewrite L, (drop_S _ _ _ L). cbn.
      f_equal. extensionality a'. apply IH. lia. }
  rewrite H by lia. by rewrite drop_0.
Qed.
(** A listener that answers without its continuation vetoes the rest: neither
    the listeners after it nor the built-in behaviour have any effect. *)
Lemma waterfall_vetoed ev hooks pre l post inner inner' args s :
  collect_waterfall ev hooks = pre ++ l :: post -> (forall args next next', around l args next = around l args next') ->
  waterfall ev hooks args inner s = foldr (fun callback next args => around callback args next) (fun args => around l args inner') pre args s.
Proof.
  intros E Hv. rewrite waterfall_composes, E, foldr_app. cbn. do 2 f_equal. extensionality a. apply Hv.
Qed.
End Dispatch.

(** ** Registration *)

Definition hook_ids (name : string) (hooks : Hooks) : list nat := hk_id <$> default [] (hooks !! name).
(** The ids given out are below the counter. *)
Definition bus_ok (bus : Bus) : Prop := forall name id, id ∈ hook_ids name (bus_hooks bus) -> id <= bus_next bus.
Lemma hook_ids_add ev options id fiber callback hooks name : hook_ids name (add_hook ev options id fiber callback hooks) =
  if decide (name = ev_name ev) then if eo_prepend options then id :: hook_ids name hooks else hook_ids name hooks ++ [id] else hook_ids name hooks.
Proof.
  unfold hook_ids, add_hook. cbv zeta. case_decide as E; [subst name; rewrite lookup_insert_eq|by rewrite lookup_insert_ne]. cbn.
  destruct (eo_prepend options); [done|]. by rewrite fmap_app.
Qed.
Lemma register_keeps_ids ev options fiber callback disposer bus f : bus_ok bus -> bus_ok (fst (register_hook ev options fiber callback disposer bus f)).
Proof.
  intros H. unfold register_hook. destruct (effect_labeled _ _ _); cbn; intros name id Hin.
  - cbn in *. rewrite hook_ids_add in Hin. case_decide; [destruct (eo_prepend options)|].
    + apply elem_of_cons in Hin as [->|Hin]; [done|]. apply H in Hin. lia.
    + apply elem_of_app in Hin as [Hin|Hin]; [apply H in Hin; lia|apply list_elem_of_singleton in Hin as ->; done].
    + apply H in Hin. lia.
  - apply H in Hin. cbn. lia.
Qed.
(** A listener's disposer takes away that listener and nothing else: the other
    listeners of every event are as if it had never been registered. *)
Lemma register_dispose ev options fiber callback disposer bus f name : bus_ok bus ->
  default [] (remove_hook ev (S (bus_next bus)) (bus_hooks (fst (register_hook ev options fiber callback disposer bus f))) !! name) = default [] (bus_hooks bus !! name).
Proof.
  intros H. assert (Hn : forall l, hk_id <$> l = hook_ids (ev_name ev) (bus_hooks bus) -> base.filter (fun hook => hk_id hook <> S (bus_next bus)) l = l).
  { intros l E. assert (F : Forall (fun hook => hk_id hook <> S (bus_next bus)) l).
    { apply Forall_forall. intros h Hh X. assert (hk_id h ∈ hook_ids (ev_name ev) (bus_hooks bus)) as Y by (rewrite <- E; by apply list_elem_of_fmap_2).
      apply H in Y. lia. }
    clear E. induction F as [|h l Hh F IH]; [done|]. rewrite filter_cons_True by done. by rewrite IH. }
  unfold register_hook, remove_hook. destruct (decide (name = ev_name ev)) as [->|Hne].
  2: { rewrite lookup_alter_ne by done. destruct (effect_labeled _ _ _); cbn; [unfold add_hook; cbv zeta; by rewrite lookup_insert_ne|done]. }
  rewrite lookup_alter_eq. specialize (Hn _ eq_refl).
  destruct (effect_labeled _ _ _); cbn.
  - unfold add_hook. cbv zeta. rewrite lookup_insert_eq. cbn. destruct (eo_prepend options).
    + rewrite filter_cons_False by (cbn; auto). exact Hn.
    + rewrite filter_app, Hn. cbn. rewrite decide_False by (cbn; auto). apply app_nil_r.
  - destruct (bus_hooks bus !! ev_name ev) as [l|]; cbn in *; [exact Hn|done].
Qed.
